(* ===== verification/_CoqProject ===== *)
-Q . S2P
Prelude.v
Journal.v
Domain.v
Wire.v
JournalControl.v
ControlServer.v
DesiredState.v
OutboxStore.v
Outbound.v
CommandStore.v
Scheduler.v
SchedulerSpec.v
EventIngest.v
CommittedEvents.v
GatewayTables.v
GatewayStore.v
GatewayAssignment.v
Reconciliation.v
GatewayControl.v
Credentials.v
Enrollment.v
GatewayAdmin.v
CredentialHistory.v
EnrollmentSpec.v
Concurrency.v
Base64.v
GatewayEngine.v
CommandExecution.v
CommandSafety.v
CommandSpec.v
WebhookStore.v
Webhooks.v
WebhookSafety.v
WebhookSpec.v
EngineServer.v
EngineMedia.v
EngineClient.v
EngineClientSpec.v
EngineRpc.v
Supervisor.v
SupervisorSpec.v
SupervisorLane.v
HistoryInbox.v
HistoryConvert.v
HistoryBlob.v
HistoryWorker.v
HistorySystem.v
HistorySpec.v
HistorySafety.v
ChatTables.v
ChatStore.v
HistoryImport.v
Projection.v
ProjectionSpec.v
ImportSpec.v
ImportSafety.v
ConsumedEvents.v
HistoryArrives.v
