(* ===== verification/Prelude.v ===== *)
(** * Verification library of the quick-whatsapp-gateway backend

    The Go backend under [src/backend] connects an API process, which owns the
    MySQL database and the public interfaces, to gateway processes, which own
    the WhatsApp sessions and a local SQLite journal. This library models the
    parts that carry messages and events between the two without loss or
    duplication, and proves what each promises to the others.

    ** The parts and how they interact

    A gateway journals every normalized event before anything else happens to
    it (Journal), batches the owned ones onto the control stream and deletes
    them when the API acknowledges (JournalControl). Which sessions it runs is
    the API's complete snapshot, reconciled by DesiredState. The API ingests a
    batch in one fenced transaction (EventIngest), and a worker hands each
    committed event to projections, realtime stream and webhook enqueuer before
    completing it (CommittedEvents).

    The control stream itself has two ends. ControlServer is the API's: one
    connection from its hello to its deferred disconnect, over any store with
    the interface [ControlStore]. GatewayControl is the store it runs on: an
    adapter over the gateway registry (GatewayStore, which allocates connection
    epochs and fences every write by them), the session assignments
    (GatewayAssignment, whose transactions advance the desired revision of each
    gateway they concern), the stored reconciliation reports (Reconciliation)
    and the event ingestion, all over the tables of GatewayTables, which other
    processes write as well. In the other direction a send request is
    validated (Outbound), stored as a command row (OutboxStore) and driven to a
    terminal state by the scheduler (Scheduler, SchedulerSpec), which calls the
    gateway's engine and survives crashes, retries and lost replies. Such a call
    is one RPC over a pooled connection (EngineClient), for which media is
    resolved to inline bytes first (EngineMedia); the gateway's RPC server checks
    its routing and turns it into an operation of the class [GatewayEngine]
    (EngineServer). There it enters the command executor (CommandExecution), which
    joins concurrent calls of one command, asks the session's effect fence,
    carries the command out through the dispatcher of GatewayEngine and keeps
    its result in the ledger of the Journal for a repeated call.

    A gateway gets its credentials by redeeming an enrollment token under a lease
    and renews them with the certificate it holds (Credentials, Enrollment);
    operators drain, disable, re-enroll and delete gateways (GatewayAdmin), which
    supersedes the connections of the control stream.

    The gateway's end of the control stream is the supervisor (Supervisor): it
    opens a stream, registers, applies snapshots and directives, sends heartbeats,
    reports and batches of journaled events, and reconnects with a bounded
    backoff; SupervisorSpec and SupervisorLane prove what its streams show and
    that no event is lost over any number of them.

    A linked device's history arrives as notifications, which the history worker
    keeps in the journal's inbox before it confirms them (HistoryInbox), downloads
    and converts into batches (HistoryBlob, HistoryConvert) and publishes through
    the gateway's event sink (HistoryWorker), several sessions at once
    (HistorySystem).

    The projection that the worker calls first (Projection) turns an event into rows
    of the API's WhatsApp data - chats, messages, identities, groups, polls, votes -
    through an interface whose instance is built of the repositories (ChatStore) over
    their tables (ChatTables). A batch of history becomes one import transaction
    behind a ledger of event ids (HistoryImport), which closes the way of a message
    from the device's blob to the API's tables (HistoryArrives).

    The webhook enqueuer of that worker writes one delivery per subscribed webhook
    (Webhooks over WebhookStore); the passes of the API's replicas claim the due
    deliveries under leases, post them and record the outcome, a retry, or a
    dead letter.

    ** Files and sources (paths under [src/backend/internal])

    - Prelude: machine integers, time, Go errors, the state-and-error monad,
      databases whose statements may fail, triples, list lemmas, tactics;
    - Journal: [gateway/journal/journal.go], [commands.go];
    - Domain: [domain/*.go]; Wire: [proto/gateway/v1/gateway_control.proto];
    - JournalControl: [gateway/journal/control.go] and the event lane of
      [gateway/controlsupervisor/supervisor.go];
    - DesiredState: [gateway/desiredstate/reconciler.go], [control.go];
    - OutboxStore: [store/outbox.go], [store/queries/outbox.sql];
    - Outbound: [wa/outbound/validate.go], [outbound.go],
      [command_message_id.go];
    - CommandStore: the interface [outboundCommandStore] as a class, its laws,
      and their proof for the table of OutboxStore;
    - Scheduler, SchedulerSpec: [service/outbound_scheduler.go] and its theorems
      over any store with those laws and any interleaving of replicas;
    - EventIngest: [store/gateway_event_ingest.go], [outgoing_event_claim.go],
      [event_log.go] and the event-log pass of [retention.go];
    - CommittedEvents: [service/committed_events.go], [application/eventing.go].

    - ControlServer: [api/gateway/control.go], the class [ControlStore] being
      its interface [Store];
    - GatewayTables: the rows of [migrations] those repositories share, guarded
      updates, and handles other processes write through as well;
    - GatewayStore: [store/gateway.go], [store/queries/gateway.sql];
    - GatewayAssignment: [store/gateway_assignment.go],
      [store/session_lifecycle.go];
    - Reconciliation: [store/gateway_reconciliation.go];
    - GatewayControl: [gatewayControlStore] of [cmd/api/private_grpc.go], the
      instance of [ControlStore], with the theorems that cross the files;
    - Credentials: [store/gateway_control.go], [queries/gateway_control.sql];
    - Enrollment: [store/enrollment_tx.go], [store/renewal_tx.go];
    - GatewayAdmin: [store/gateway_admin_tx.go] and the admission query of
      [cmd/api/private_grpc.go];
    - CredentialHistory, EnrollmentSpec: the invariant of those transactions,
      their interleavings, and what enrollment promises;
    - Concurrency: goroutines as processes of atomic actions, their schedules,
      and a rely/guarantee logic for them; Base64: the codecs of
      [encoding/base64];
    - GatewayEngine: [application/gateway_engine.go], [domain/liveops.go];
    - CommandExecution: [wa/command_execution.go], [application_messages.go],
      [application_resources.go], [application_lifecycle.go] and
      [application_adapter.go], with the ledger of [gateway/journal/commands.go];
    - CommandSafety, CommandSpec: the invariant of the executor under any
      schedule, crash and restart, and what it promises its callers;
    - EngineServer: [gateway/enginegrpc/*.go] and the messages of
      [proto/gateway/v1/gateway_engine.proto];
    - EngineMedia: [wa/outbound/engine_media.go], [resolveMedia] of [sender.go];
    - EngineClient: [api/gateway/engine_client.go], [media.go],
      [liveops_facade.go], [session_facade.go];
    - EngineClientSpec: the invariant of the connection pool under any
      interleaving of calls; EngineRpc: client and server put together over a
      wire that loses requests and replies;
    - WebhookStore: [store/webhook.go], [store/webhook_delivery.go], the
      deliveries of [store/retention.go], [service/webhook.go];
    - Webhooks: [webhooks/*.go], each pass and enqueue a process of Concurrency;
    - WebhookSafety, WebhookSpec: their invariant under any interleaving of
      replicas, clocks and failures, and what webhooks promise a subscriber.

    - Supervisor: [gateway/controlsupervisor/supervisor.go] over the class
      [SupervisorEnv] (the dialer, the stream, the clock, the reconciler and the
      journal); SupervisorSpec: its traces and status; SupervisorLane: the class
      [JournaledEnv], an environment whose journal is that of Journal;
    - HistoryInbox: [gateway/journal/history.go];
    - HistoryConvert, HistoryBlob: [gateway/historysync/convert.go], packing and
      the conversion of one message apart: the class [BlobLib] is what the first
      needs of a blob and the second is its instance;
    - HistoryWorker, HistorySystem: [gateway/historysync/worker.go], each method a
      program of calls, and the goroutines, clocks and crashes around it;
    - HistorySpec, HistorySafety: the invariant of any schedule of them, and what
      the history sync promises.

    - ChatTables: the rows of the WhatsApp data and [store/queries/{identity_alias,
      identity, chat, message, poll, group, session}.sql];
    - ChatStore: the writing operations of [store/{identity_alias, identity, chat,
      message, poll, poll_vote, group, group_member, session}.go], over the pool or
      a transaction, the two instances of the class [Handle];
    - HistoryImport: [store/history.go];
    - Projection: [service/event_projection.go], [history_projection.go] and
      [store_projections.go], the interface being the class [ProjectionStore];
    - ProjectionSpec: how rows may advance, and that every store operation keeps
      to it; ImportSpec: what one import transaction does;
    - ImportSafety, ConsumedEvents, HistoryArrives: what projection and import
      promise on a database that others write as well.

    A Go type is the record or inductive of the same name, a method the
    definition of the same name.

    ** What the theorems show

    - Journal and control lane: appends are idempotent, batches are in-order
      prefixes within their limits, an acknowledgement removes exactly what was
      sent, every journaled event stays until an acknowledged batch carried it or
      the snapshot in force - the newest applied on the connection - does not have
      its session under its organization and epoch, and a round over a nonempty
      journal makes progress; the journal stays well formed under any SQLite
      failure.
    - Desired state: a successful reconciliation installs the snapshot unless that
      is older, a failed one changed nothing or, after a failed stop or start,
      leaves nothing assigned; mutations are fenced by organization, session,
      epoch and lease, and leases expire exactly.
    - Commands: claims are exclusive leases, a stale owner can change nothing,
      rows are durable and terminal rows frozen, an acknowledged command is
      never sent again, a recorded failure means nothing was sent, a success was
      projected and recorded, replays have no effect.
    - Control stream: a connection acts only under its gateway and epoch, is
      closed once, acknowledges only what was stored; epochs are fresh under any
      interleaving, and a superseded connection is silenced at its next frame.
    - Desired state end to end: assigning, reassigning, releasing and the
      session lifecycle advance the revisions concerned (pairing and status
      changes, which also alter a snapshot, do not), a snapshot is complete at one
      instant and valid at both ends, and the gateway's report of it is stored
      exactly when it is true.
    - Enrollment: a token becomes at most one certificate, under its own running
      lease and within its attempts; replays are exact; a re-enrollment ends
      everything the gateway held; every operation is one audited transaction.
    - Command execution: a success is answered once the ledger has recorded it, and
      no schedule executes its command again while the row is kept (the model's
      trace notes each row of the ledger a request held); every call to WhatsApp
      is made by the command's one leader under the session's fence, every
      caller that is not cancelled is answered, and an answer is the recorded
      result or the outcome of the one execution it waited for.
    - Engine RPCs: a call is the engine's own operation at the resolved gateway,
      with the caller's arguments and its answer, up to the listed faults of the
      wire; an error that claims nothing was dispatched is never wrong, whatever
      calls share the pool; media arrives as it was resolved. Albums above 51 MiB
      do not fit the message limit.
    - Webhooks: no two passes hold a delivery at once while attempts fit in their
      leases; whatever the webhook operations, retention and crashes do beside
      them, a delivery stays until it is terminal, and a terminal one is never
      changed and leaves only by retention; each attempt records exactly what the
      reply says, an enqueue reaches every subscriber once, and stored
      configuration reads back.
    - Supervisor: whatever the peer, the journal and the clock do, a stream is a
      hello, then frames in sequence with one batch in flight and closes once; it
      is ready only on evidence of this stream; its backoff, but for jitter, stays
      in its bounds; events leave the journal only when the stream's peer
      acknowledged them or a snapshot retired them; and
      one stream is the lane of JournalControl over its journal.
    - History sync: through any interleaving, failures and crashes, a confirmed
      notification is pending or settled, a done one was delivered whole, a run's
      counters are the sums of its notifications, a session's notifications run in
      order, and in a healthy environment processing one ends with it done. The
      batches hold what was converted, in order, within the limits unless a single
      item exceeds them, under event ids that a retry repeats; the contacts do not
      depend on the order of Go's map ranges when each JID has one identity.
    - Projection and import: an accepted event is in the data and stays there;
      rows only advance; an import adds to what live events stored and replaces
      none of it, is applied once and in full or not at all, and is counted once;
      and a message of the blob that is within the cutoffs and fits a batch is in
      the API's messages once the batches were consumed. These hold among other
      writers that advance rows in the same way ([relies advances]), so not across
      the deletion of a chat or the retention of messages.
    - Validation accepts exactly the requests of a declarative specification,
      and the ids it reserves are the ones execution allocates.
    - Ingestion: an acknowledged event is fenced, and replayed, logged unfinished,
      or the echo of a claimed message; its replay is a no-op, an API send and its
      echo are one public event, a logged event is finished by its worker only, post-commit leases
      are exclusive and ordered per session, retention terminates and never
      removes unfinished work; the worker completes only what was dispatched.

    ** Bounds and fuel

    Integers are [Z] with the wrap-around of their Go type written out where the
    code can reach it. Loops over text take the text's length as fuel, which
    every iteration shortens; the retention loop takes one unit per thousand
    log entries (proved enough); polling loops take the list of polls,
    or their number: one per 100 ms until the deadline. A run of the history
    worker that polls journal pressure longer than [patience] ends there, for any
    [patience]. Shortening an oversized field has the field's length as fuel
    (proved enough). Lists of ids are queried in chunks of five hundred, with one
    unit of fuel per id.

    ** Interfaces and idealizations

    Code outside [src] enters as classes: [EventCodec], [IngestCodec],
    [SendCodec], [EnvelopeCodec], [JSONLib] (JSON and protobuf coding),
    [OutboundLib], [OriginLib], [AuditLib] (URL parsing, hashing, quoting,
    Unicode), the library classes of Webhooks (HTTP, HMAC, decryption), [MySQL] (collation, JSON columns), [Runtime] (engine, clock,
    projections), [SupervisorEnv], [WorkerEnv] (what the two processes call),
    [NotificationLib], [MessageLib], [JIDLib], [JSONLen], [EventIDLib],
    [WhatsmeowErrors] (parsing, sizes and hashes of a history blob), [ChatCodec],
    [ProjectionCodec], [MessageFields] (JSON of the WhatsApp data), [BaseURLLib],
    [Deployment] (route resolver, dialer and wire), [MediaHTTP]
    (downloads), [GatewayEngine] (what serves the RPCs), [WireSizes]. A database transaction is atomic and isolated; any statement
    may fail, and a failed transaction leaves the rows as they were. Between the
    statements and transactions of a method on a [shared] handle other processes
    may change the rows; theorems name what they rely on ([relies]). The rows
    other transactions hold under [SKIP LOCKED] are an argument. Ids are
    compared exactly. Mutexes are modelled by the atomicity of the operations
    they protect.

    ** Not modelled

    Generated code ([gen], [store/storedb]), HTTP and gRPC handlers that only
    translate, the OIDC provider, certificate handling, media storage, the WhatsApp
    library adapters, the fake WhatsApp used in tests, the backup import, the
    listings and lookups of the WhatsApp data, configuration and
    process wiring, and the web frontend: they are glue, I/O or third-party
    protocols. A panic inside a command body, closing the RPC client while calls
    run, and the refusal of protobuf to encode strings that are not UTF-8 are not
    modelled. *)

From stdpp Require Export base tactics option list gmap strings sorting fin_sets.
From Stdlib Require Export ZArith Lia.
From Stdlib Require Export Strings.Byte.

#[export] Set Warnings "-clear-no-such-hyp".

#[global] Open Scope string_scope.
#[global] Open Scope list_scope.
#[global] Open Scope Z_scope.

(** ** Go machine integers

    [i64 z] and [u64 z] are the value a Go [int64] / [uint64] expression holds
    when its exact result is [z]: two's complement wrap-around. *)
Definition i64 (z : Z) : Z := (z + 2 ^ 63) `mod` 2 ^ 64 - 2 ^ 63.
Definition u64 (z : Z) : Z := z `mod` 2 ^ 64.
Definition i32 (z : Z) : Z := (z + 2 ^ 31) `mod` 2 ^ 32 - 2 ^ 31.

Definition in_i64 (z : Z) : Prop := - 2 ^ 63 <= z < 2 ^ 63.
Definition in_u64 (z : Z) : Prop := 0 <= z < 2 ^ 64.

Lemma i64_id z : in_i64 z -> i64 z = z.
Proof. unfold in_i64, i64. intros H. rewrite Z.mod_small; lia. Qed.

Lemma i64_range z : in_i64 (i64 z).
Proof.
  unfold in_i64, i64.
  pose proof (Z.mod_pos_bound (z + 2 ^ 63) (2 ^ 64) ltac:(lia)). lia.
Qed.

Lemma u64_id z : in_u64 z -> u64 z = z.
Proof. unfold in_u64, u64. intros H. apply Z.mod_small; lia. Qed.

Lemma u64_range z : in_u64 (u64 z).
Proof. unfold in_u64, u64. apply Z.mod_pos_bound. lia. Qed.

(** ** Go time

    A [time.Time] is its number of nanoseconds since the Unix epoch. *)
Definition GoTime := Z.
Definition Second : Z := 1000000000.

(** The zero [time.Time] (1 January of year 1, UTC). *)
Definition zero_time : GoTime := - 62135596800 * 1000000000.
Definition IsZero (t : GoTime) : bool := bool_decide (t = zero_time).
Definition UnixMilli (t : GoTime) : Z := t / 1000000.
Definition FromUnixMilli (ms : Z) : GoTime := ms * 1000000.

(** [a.After(b)] and [a.Before(b)]. *)
Definition After (a b : GoTime) : bool := b <? a.
Definition Before (a b : GoTime) : bool := a <? b.

(** [a.Sub(b)] saturates at the extreme durations. *)
Definition TimeSub (a b : GoTime) : Z := Z.max (- 2 ^ 63) (Z.min (2 ^ 63 - 1) (a - b)).

Lemma UnixMilli_FromUnixMilli ms : UnixMilli (FromUnixMilli ms) = ms.
Proof. unfold UnixMilli, FromUnixMilli. apply Z.div_mul. lia. Qed.

Lemma UnixMilli_mono a b : a <= b -> UnixMilli a <= UnixMilli b.
Proof. unfold UnixMilli. intros. apply Z.div_le_mono; lia. Qed.

#[export] Instance byte_eq_decision : EqDecision byte := Byte.byte_eq_dec.

(** ** Go errors

    The error values the modelled code builds and inspects: sentinels and
    [fmt.Errorf] text, [*domain.APIError], [*sqlite.Error], wrapping by
    ["text: %w"] ([ErrWrap]), by ["%w: text"] ([ErrWith]) and by ["%w: %w"]
    ([ErrBoth]), [*application.NoDispatchError], gRPC statuses and [errors.Join]. *)
Inductive goerr :=
  | ErrMsg (msg : string)
  | ErrAPI (code msg : string)
  | ErrSQLite (code : Z) (msg : string)
  | ErrWrap (msg : string) (cause : goerr)
  | ErrWith (cause : goerr) (detail : string)
  | ErrNoDispatch (cause : goerr)
  | ErrStatus (code msg : string)
  | ErrBoth (a b : goerr)
  | ErrJoin (a b : goerr).

#[export] Instance goerr_eq_dec : EqDecision goerr.
Proof. solve_decision. Defined.

(** [context.Canceled] and [context.DeadlineExceeded]. *)
Definition Canceled : goerr := ErrMsg "context canceled".
Definition DeadlineExceeded : goerr := ErrMsg "context deadline exceeded".
(** [io.EOF]. *)
Definition EOF : goerr := ErrMsg "EOF".

(** [err.Error()]. *)
Fixpoint error_text (e : goerr) : string :=
  match e with
  | ErrMsg m => m
  | ErrAPI c m => c +:+ ": " +:+ m
  | ErrSQLite _ m => m
  | ErrWrap m c => m +:+ ": " +:+ error_text c
  | ErrWith c d => error_text c +:+ ": " +:+ d
  | ErrNoDispatch c => error_text c
  | ErrStatus c m => "rpc error: code = " +:+ c +:+ " desc = " +:+ m
  | ErrBoth a b => error_text a +:+ ": " +:+ error_text b
  | ErrJoin a b => error_text a +:+ String (Ascii.ascii_of_nat 10%nat) (error_text b)
  end.

(** [errors.Is(err, target)] for a sentinel [target]. *)
Fixpoint errors_is (target e : goerr) : bool :=
  bool_decide (e = target) ||
  match e with
  | ErrWrap _ c | ErrWith c _ => errors_is target c
  | ErrNoDispatch c => errors_is target c
  | ErrBoth a b | ErrJoin a b => errors_is target a || errors_is target b
  | _ => false
  end.

(** [errors.As(err, &apiErr)]: the code of the first [APIError] of the chain. *)
Fixpoint api_code (e : goerr) : option string :=
  match e with
  | ErrAPI c _ => Some c
  | ErrWrap _ c | ErrWith c _ => api_code c
  | ErrNoDispatch c => api_code c
  | ErrBoth a b | ErrJoin a b =>
      match api_code a with Some c => Some c | None => api_code b end
  | ErrMsg _ | ErrSQLite _ _ | ErrStatus _ _ => None
  end.

(** The message of the same error. *)
Fixpoint api_message (e : goerr) : option string :=
  match e with
  | ErrAPI _ m => Some m
  | ErrWrap _ c | ErrWith c _ | ErrNoDispatch c => api_message c
  | ErrBoth a b | ErrJoin a b => match api_message a with Some m => Some m | None => api_message b end
  | ErrMsg _ | ErrSQLite _ _ | ErrStatus _ _ => None
  end.

(** [errors.As(err, &sqliteErr)]: the code of the first [*sqlite.Error]. *)
Fixpoint sqlite_code (e : goerr) : option Z :=
  match e with
  | ErrSQLite c _ => Some c
  | ErrWrap _ c | ErrWith c _ => sqlite_code c
  | ErrNoDispatch c => sqlite_code c
  | ErrBoth a b | ErrJoin a b =>
      match sqlite_code a with Some c => Some c | None => sqlite_code b end
  | ErrMsg _ | ErrAPI _ _ | ErrStatus _ _ => None
  end.

(** [status.Code(err)] of a non-nil error: the code of the first gRPC status of
    the chain. *)
Fixpoint status_of (e : goerr) : option string :=
  match e with
  | ErrStatus c _ => Some c
  | ErrWrap _ c | ErrWith c _ | ErrNoDispatch c => status_of c
  | ErrBoth a b | ErrJoin a b => match status_of a with Some c => Some c | None => status_of b end
  | ErrMsg _ | ErrAPI _ _ | ErrSQLite _ _ => None
  end.
Definition status_code (e : goerr) : string := default "Unknown" (status_of e).

(** [errors.As(err, &noDispatch)]. *)
Fixpoint is_no_dispatch (e : goerr) : bool :=
  match e with
  | ErrNoDispatch _ => true
  | ErrWrap _ c | ErrWith c _ => is_no_dispatch c
  | ErrBoth a b | ErrJoin a b => is_no_dispatch a || is_no_dispatch b
  | _ => false
  end.

(** [errors.Join] of two possibly nil errors. *)
Definition errors_join (a b : option goerr) : option goerr :=
  match a, b with
  | None, b => b
  | a, None => a
  | Some a, Some b => Some (ErrJoin a b)
  end.

(** ** The state and error monad of the modelled code

    [M W A] is a Go function [(A, error)] over a world [W]: it returns either
    an error or a value, and the world it leaves. An error keeps the effects
    that preceded it, as in Go. *)
Definition M (W A : Type) : Type := W -> (goerr + A) * W.

#[export] Instance M_ret W : MRet (M W) := fun A a w => (inr a, w).
#[export] Instance M_bind W : MBind (M W) := fun A B k m w =>
  match m w with
  | (inl e, w') => (inl e, w')
  | (inr a, w') => k a w'
  end.

Definition throw {W A} (e : goerr) : M W A := fun w => (inl e, w).

(** [v, err := m()]: observe the error instead of returning it. *)
Definition attempt {W A} (m : M W A) : M W (goerr + A) := fun w =>
  let '(r, w') := m w in (inr r, w').

Definition gets {W A} (f : W -> A) : M W A := fun w => (inr (f w), w).
Definition modify {W} (f : W -> W) : M W unit := fun w => (inr tt, f w).
Definition lift_result {W A} (r : goerr + A) : M W A := fun w => (r, w).

(** [for _, x := range l { if err := f(x); err != nil { return err } }]. *)
Fixpoint for_each {W A} (f : A -> M W unit) (l : list A) : M W unit :=
  match l with
  | [] => mret tt
  | x :: l' => f x;; for_each f l'
  end.

(** A loop that visits every element and joins the errors. *)
Fixpoint join_each {W A} (f : A -> M W unit) (l : list A) (acc : option goerr)
  : M W (option goerr) :=
  match l with
  | [] => mret acc
  | x :: l' =>
      r ← attempt (f x);
      join_each f l' (errors_join acc (match r with inl e => Some e | inr _ => None end))
  end.

(** [range] over a Go map visits the keys in an unspecified order. *)
Class MapRange := {
  range_keys : gset string -> list string;
  range_keys_perm s : range_keys s ≡ₚ elements s;
}.

Definition sorted_range : MapRange := {| range_keys := elements; range_keys_perm s := reflexivity _ |}.

Lemma range_keys_elem `{MapRange} s k : k ∈ range_keys s <-> k ∈ s.
Proof. by rewrite range_keys_perm, elem_of_elements. Qed.

Lemma range_keys_NoDup `{MapRange} s : NoDup (range_keys s).
Proof. rewrite range_keys_perm. apply NoDup_elements. Qed.

(** A nil pointer and an empty slice. *)
Definition is_none {A} (o : option A) : bool := match o with None => true | Some _ => false end.
Definition is_nil {A} (l : list A) : bool := match l with [] => true | _ => false end.

(** [strings.HasSuffix] and [strings.Contains]. *)
Definition HasSuffix (s suffix : string) : bool :=
  String.prefix (String.string_of_list_ascii (reverse (String.list_ascii_of_string suffix)))
    (String.string_of_list_ascii (reverse (String.list_ascii_of_string s))).
Definition contains (sub s : string) : bool := negb (is_none (String.index 0 sub s)).

(** ** Databases

    A database handle is the committed rows together with the environment's
    script of statement outcomes: each statement consumes one entry, [Some e]
    makes it fail with [e], [None] (or an exhausted script) lets it run. *)
Record db (S : Type) := Db { rows : S; faults : list (option goerr) }.
Arguments Db {S} _ _.
Arguments rows {S} _.
Arguments faults {S} _.

(** One SQL statement; [f] is its effect when the engine executes it. *)
Definition stmt {S A} (f : S -> (goerr + A) * S) : M (db S) A := fun d =>
  match head (faults d) with
  | Some (Some e) => (inl e, Db (rows d) (tail (faults d)))
  | _ => let '(r, s') := f (rows d) in (r, Db s' (tail (faults d)))
  end.

(** A read-only statement and an update that reports a value. *)
Definition query {S A} (f : S -> A) : M (db S) A := stmt (fun s => (inr (f s), s)).
Definition exec {S A} (f : S -> A * S) : M (db S) A :=
  stmt (fun s => let '(a, s') := f s in (inr a, s')).

(** [BeginTx] and [Commit] are statements of their own; [with_rollback] is the
    deferred [Rollback] around a body that ends in a commit: any error puts the
    rows back to what they were. *)
Definition begin_tx {S} : M (db S) unit := query (fun _ => tt).
Definition commit_tx {S} : M (db S) unit := query (fun _ => tt).
Definition with_rollback {S A} (body : M (db S) A) : M (db S) A := fun d =>
  match body d with
  | (inr a, d') => (inr a, d')
  | (inl e, d') => (inl e, Db (rows d) (faults d'))
  end.

(** [if err != nil { return f(err) }]. *)
Definition map_err {W A} (f : goerr -> goerr) (m : M W A) : M W A := fun w =>
  match m w with
  | (inl e, w') => (inl (f e), w')
  | (inr a, w') => (inr a, w')
  end.

(** ** Reasoning about runs

    [respects R m]: every run of [m], whether it returns or fails, relates the
    world it starts from to the world it leaves. *)
Definition respects {W A} (R : W -> W -> Prop) (m : M W A) : Prop :=
  forall w r w', m w = (r, w') -> R w w'.

(** [returns m w a w']: [m] run from [w] returns the value [a]. *)
Definition returns {W A} (m : M W A) (w : W) (a : A) (w' : W) : Prop := m w = (inr a, w').

(** A relation on the committed rows, lifted to the database handle. *)
Definition on_rows {S} (R : S -> S -> Prop) (d d' : db S) : Prop := R (rows d) (rows d').

(** "The invariant [P] is kept", as a relation. *)
Definition keeps {S} (P : S -> Prop) (s s' : S) : Prop := P s -> P s'.

#[export] Instance keeps_preorder {S} (P : S -> Prop) : PreOrder (keeps P).
Proof. unfold keeps. split; [intros s H; exact H | intros a b c ? ?; auto]. Qed.

#[export] Instance on_rows_preorder {S} (R : S -> S -> Prop) :
  PreOrder R -> PreOrder (on_rows R).
Proof.
  intros HR. unfold on_rows. split.
  - intros d. reflexivity.
  - intros a b c ? ?. etransitivity; eauto.
Qed.

Lemma bind_returns {W A B} (m : M W A) (k : A -> M W B) w b w' :
  (m ≫= k) w = (inr b, w') <->
  exists a w1, m w = (inr a, w1) /\ k a w1 = (inr b, w').
Proof.
  unfold mbind, M_bind. destruct (m w) as [[e|a] w1]; split.
  - intros [=].
  - intros (? & ? & [=] & ?).
  - intros H. eauto.
  - intros (? & ? & [= <- <-] & H). exact H.
Qed.

Lemma respects_ret {W A} (R : W -> W -> Prop) (a : A) :
  Reflexive R -> respects R (mret a : M W A).
Proof. intros HR w r w' [= _ <-]. reflexivity. Qed.

Lemma respects_throw {W A} (R : W -> W -> Prop) (e : goerr) :
  Reflexive R -> respects R (throw e : M W A).
Proof. intros HR w r w' [= _ <-]. reflexivity. Qed.

Lemma respects_gets {W A} (R : W -> W -> Prop) (f : W -> A) :
  Reflexive R -> respects R (gets f : M W A).
Proof. intros HR w r w' [= _ <-]. reflexivity. Qed.

Lemma respects_lift {W A} (R : W -> W -> Prop) (r0 : goerr + A) :
  Reflexive R -> respects R (lift_result r0 : M W A).
Proof. intros HR w r w' [= _ <-]. reflexivity. Qed.

Lemma respects_bind {W A B} (R : W -> W -> Prop) (m : M W A) (k : A -> M W B) :
  Transitive R -> respects R m -> (forall a, respects R (k a)) -> respects R (m ≫= k).
Proof.
  intros HR Hm Hk w r w' H. unfold mbind, M_bind in H.
  destruct (m w) as [[e|a] w1] eqn:E.
  - injection H as _ <-. eapply Hm; eauto.
  - etransitivity; [eapply Hm; eauto | eapply Hk; eauto].
Qed.

Lemma respects_attempt {W A} (R : W -> W -> Prop) (m : M W A) :
  respects R m -> respects R (attempt m).
Proof.
  intros Hm w r w' H. unfold attempt in H. destruct (m w) as [r0 w0] eqn:E.
  injection H as _ <-. eapply Hm; eauto.
Qed.

Lemma respects_stmt {S A} (R : S -> S -> Prop) (f : S -> (goerr + A) * S) :
  Reflexive R -> (forall s, R s (f s).2) -> respects (on_rows R) (stmt f).
Proof.
  intros HR Hf d r d' H. unfold stmt, on_rows in *.
  assert (Hrun : (let '(r, s') := f (rows d) in (r, Db s' (tail (faults d)))) = (r, d')
                 -> R (rows d) (rows d')).
  { specialize (Hf (rows d)). destruct (f (rows d)). intros [= _ <-]. exact Hf. }
  destruct (head (faults d)) as [[e|]|]; [injection H as _ <-; reflexivity | auto..].
Qed.

Lemma respects_query {S A} (R : S -> S -> Prop) (f : S -> A) :
  Reflexive R -> respects (on_rows R) (query f).
Proof. intros HR. apply respects_stmt; [exact HR | intros; reflexivity]. Qed.

Lemma respects_exec {S A} (R : S -> S -> Prop) (f : S -> A * S) :
  Reflexive R -> (forall s, R s (f s).2) -> respects (on_rows R) (exec f).
Proof.
  intros HR Hf. apply respects_stmt; [exact HR|].
  intros s. specialize (Hf s). destruct (f s). exact Hf.
Qed.

Lemma respects_map_err {W A} (R : W -> W -> Prop) (f : goerr -> goerr) (m : M W A) :
  respects R m -> respects R (map_err f m).
Proof.
  intros Hm w r w' H. unfold map_err in H.
  destruct (m w) as [[e|a] w0] eqn:E; injection H as _ <-; eapply Hm; eauto.
Qed.

Lemma respects_with_rollback {S A} (R : S -> S -> Prop) (body : M (db S) A) :
  PreOrder R -> respects (on_rows R) body -> respects (on_rows R) (with_rollback body).
Proof.
  intros HR Hb d r d' H. unfold with_rollback in H.
  destruct (body d) as [[e|a] d1] eqn:E; injection H as _ <-.
  - unfold on_rows; cbn. reflexivity.
  - eapply Hb; eauto.
Qed.

Lemma respects_begin {S} (R : S -> S -> Prop) : PreOrder R -> respects (on_rows R) begin_tx.
Proof. intros HR. apply respects_query, _. Qed.

Lemma respects_commit {S} (R : S -> S -> Prop) : PreOrder R -> respects (on_rows R) commit_tx.
Proof. intros HR. apply respects_query, _. Qed.

(** A failed transaction leaves the committed rows as they were. *)
Lemma with_rollback_error {S A} (body : M (db S) A) d e d' :
  with_rollback body d = (inl e, d') -> rows d' = rows d.
Proof. unfold with_rollback. destruct (body d) as [[e0|a] d1]; intros [= _ <-]; reflexivity. Qed.

Lemma with_rollback_returns {S A} (body : M (db S) A) d a d' :
  with_rollback body d = (inr a, d') -> body d = (inr a, d').
Proof.
  unfold with_rollback. destruct (body d) as [[e0|a0] d1]; congruence.
Qed.

Lemma map_err_returns {W A} (f : goerr -> goerr) (m : M W A) w a w' :
  map_err f m w = (inr a, w') -> m w = (inr a, w').
Proof. unfold map_err. destruct (m w) as [[e0|a0] w1]; congruence. Qed.

(** A transaction only has to be checked on the runs that commit. *)
Lemma respects_on_commit {S A} (R : S -> S -> Prop) (body : M (db S) A) :
  Reflexive R ->
  (forall d a d', body d = (inr a, d') -> R (rows d) (rows d')) ->
  respects (on_rows R) (with_rollback body).
Proof.
  intros HR Hb d r d' H. unfold on_rows. destruct r as [e|a].
  - apply with_rollback_error in H as ->. reflexivity.
  - apply with_rollback_returns in H. exact (Hb _ _ _ H).
Qed.

Lemma stmt_returns {S A} (f : S -> (goerr + A) * S) d a d' :
  stmt f d = (inr a, d') -> f (rows d) = (inr a, rows d').
Proof.
  unfold stmt.
  destruct (head (faults d)) as [[e|]|]; [intros [=]|..];
    destruct (f (rows d)); intros [=]; subst; reflexivity.
Qed.

(** A read-only statement that returns leaves the rows alone. *)
Lemma query_returns {S A} (f : S -> A) d a d' :
  query f d = (inr a, d') -> a = f (rows d) /\ rows d' = rows d.
Proof.
  unfold query, stmt. destruct (head (faults d)) as [[e|]|]; intros [=]; subst; auto.
Qed.

Lemma exec_returns {S A} (f : S -> A * S) d a d' :
  exec f d = (inr a, d') -> a = (f (rows d)).1 /\ rows d' = (f (rows d)).2.
Proof.
  unfold exec, stmt.
  destruct (head (faults d)) as [[e|]|]; [intros [=]|..];
    destruct (f (rows d)); intros [=]; subst; auto.
Qed.

(** ** Triples

    [triple P m Q X]: run from a world of [P], [m] returns into [Q] or fails
    into [X]. *)
Definition triple {W A} (P : W -> Prop) (m : M W A) (Q : A -> W -> Prop) (X : W -> Prop) : Prop :=
  forall w r w', P w -> m w = (r, w') -> match r with inr a => Q a w' | inl _ => X w' end.

Section Triples.
Context {W : Type}.
Implicit Types (P X : W -> Prop).

Lemma triple_bind {A B} P (m : M W A) (k : A -> M W B) R Q X :
  triple P m R X -> (forall a, triple (R a) (k a) Q X) -> triple P (m ≫= k) Q X.
Proof.
  intros Hm Hk w r w' Hw Hrun. unfold mbind, M_bind in Hrun.
  destruct (m w) as [[e|a] w1] eqn:E.
  - injection Hrun as <- <-. exact (Hm _ _ _ Hw E).
  - exact (Hk a _ _ _ (Hm _ _ _ Hw E) Hrun).
Qed.

Lemma triple_ret {A} P (a : A) (Q : A -> W -> Prop) X :
  (forall w, P w -> Q a w) -> triple P (mret a) Q X.
Proof. intros H w r w' Hw [= <- <-]. auto. Qed.

Lemma triple_throw {A} P e (Q : A -> W -> Prop) X :
  (forall w, P w -> X w) -> triple P (throw e) Q X.
Proof. intros H w r w' Hw [= <- <-]. auto. Qed.

Lemma triple_lift {A} P (r0 : goerr + A) (Q : A -> W -> Prop) X :
  (forall w, P w -> match r0 with inr a => Q a w | inl _ => X w end) -> triple P (lift_result r0) Q X.
Proof. intros H w r w' Hw [= <- <-]. exact (H _ Hw). Qed.

Lemma triple_attempt {A} P (m : M W A) (Q : goerr + A -> W -> Prop) X X' :
  triple P m (fun a => Q (inr a)) X' -> (forall e w, X' w -> Q (inl e) w) ->
  triple P (attempt m) Q X.
Proof.
  intros Hm HX w r w' Hw Hrun. unfold attempt in Hrun. destruct (m w) as [r0 w0] eqn:E.
  injection Hrun as <- <-. specialize (Hm _ _ _ Hw E). destruct r0; auto.
Qed.

Lemma triple_map_err {A} P f (m : M W A) Q X : triple P m Q X -> triple P (map_err f m) Q X.
Proof.
  intros Hm w r w' Hw Hrun. unfold map_err in Hrun.
  destruct (m w) as [r0 w0] eqn:E. specialize (Hm _ _ _ Hw E).
  destruct r0; injection Hrun as <- <-; exact Hm.
Qed.

Lemma triple_weaken {A} P P' (m : M W A) Q Q' X X' :
  triple P m Q X -> (forall w, P' w -> P w) -> (forall a w, Q a w -> Q' a w) ->
  (forall w, X w -> X' w) -> triple P' m Q' X'.
Proof.
  intros Hm HP HQ HX w r w' Hw Hrun. specialize (Hm _ _ _ (HP _ Hw) Hrun). destruct r; auto.
Qed.

(** A program that never returns has every postcondition. *)
Lemma triple_throws {A} P (m : M W A) (Q : A -> W -> Prop) X :
  triple P m (fun _ _ => False) X -> triple P m Q X.
Proof. intros Hm w [e|a] w' Hw Hrun; [exact (Hm _ _ _ Hw Hrun)|]. by destruct (Hm _ _ _ Hw Hrun). Qed.

(** What a run relates, a triple may assume. *)
Lemma triple_respects {A} (R : W -> W -> Prop) P (m : M W A) (Q : A -> W -> Prop) X :
  respects R m -> (forall w w', P w -> R w w' -> (forall a, Q a w') /\ X w') -> triple P m Q X.
Proof. intros Hm H w r w' Hw Hrun. destruct (H w w' Hw (Hm _ _ _ Hrun)). destruct r; auto. Qed.

Lemma triple_pure {A} (phi : Prop) P (m : M W A) (Q : A -> W -> Prop) X :
  (phi -> triple P m Q X) -> triple (fun w => phi /\ P w) m Q X.
Proof. intros H w r w' [Hphi Hw]. exact (H Hphi w r w' Hw). Qed.

Lemma triple_keeps {A} P (m : M W A) : respects (keeps P) m -> triple P m (fun _ => P) P.
Proof. intros Hm. apply (triple_respects _ _ _ _ _ Hm). unfold keeps. auto. Qed.

Lemma triple_for_each {A} P (f : A -> M W unit) l :
  (forall a, a ∈ l -> triple P (f a) (fun _ => P) P) -> triple P (for_each f l) (fun _ => P) P.
Proof.
  induction l as [|a l IH]; intros Hf; cbn [for_each]; [by apply triple_ret|].
  eapply triple_bind; [apply Hf; by left|]. intros ?. apply IH. intros b Hb. apply Hf. by right.
Qed.
End Triples.

Lemma triple_exec {S A} (P : S -> Prop) (f : S -> A * S) (Q : A -> S -> Prop) (X : S -> Prop) :
  (forall s, P s -> Q (f s).1 (f s).2 /\ X s) ->
  triple (fun d => P (rows d)) (exec f) (fun a d => Q a (rows d)) (fun d => X (rows d)).
Proof.
  intros H d r d' Hd. unfold exec, stmt. specialize (H _ Hd).
  destruct (head (faults d)) as [[e|]|]; destruct (f (rows d)); intros [= <- <-]; apply H.
Qed.

Lemma triple_query {S A} (P : S -> Prop) (f : S -> A) :
  triple (fun d => P (rows d)) (query f) (fun a d => P (rows d) /\ a = f (rows d)) (fun d => P (rows d)).
Proof.
  intros d r d' Hd. unfold query, stmt.
  destruct (head (faults d)) as [[e|]|]; intros [= <- <-]; auto.
Qed.

Lemma triple_with_rollback {S A} (P : S -> Prop) (body : M (db S) A) Q X :
  triple (fun d => P (rows d)) body Q X ->
  triple (fun d => P (rows d)) (with_rollback body) Q (fun d => P (rows d)).
Proof.
  intros H d r d' Hd Hrun. unfold with_rollback in Hrun. destruct (body d) as [[e|a] d1] eqn:Hb;
    injection Hrun as <- <-; [exact Hd | exact (H _ _ _ Hd Hb)].
Qed.

(** ** Strings *)

#[export] Instance string_leb_trans : Transitive (fun a b => String.leb a b = true).
Proof.
  intros a b c. unfold String.leb.
  enough (String.compare a b <> Gt -> String.compare b c <> Gt -> String.compare a c <> Gt) as H.
  { destruct (String.compare a b), (String.compare b c), (String.compare a c); try done;
      intros; exfalso; by apply H. }
  revert b c. induction a as [|x a IH]; intros [|y b] [|z c]; cbn; try done.
  unfold Ascii.compare.
  destruct (N.compare_spec (Ascii.N_of_ascii x) (Ascii.N_of_ascii y)),
    (N.compare_spec (Ascii.N_of_ascii y) (Ascii.N_of_ascii z)),
    (N.compare_spec (Ascii.N_of_ascii x) (Ascii.N_of_ascii z)); try done; try lia; apply IH.
Qed.

(** ** Lists *)

Lemma StronglySorted_filter {A} (R : A -> A -> Prop) (P : A -> Prop)
  `{forall x, Decision (P x)} l :
  StronglySorted R l -> StronglySorted R (filter P l).
Proof.
  induction 1 as [|x l Hl IH HF]; [constructor|].
  rewrite filter_cons. case_decide; [|exact IH].
  constructor; [exact IH|]. rewrite Forall_forall in *.
  intros y [_ Hy]%list_elem_of_filter. auto.
Qed.

Lemma NoDup_fmap_filter {A B} (f : A -> B) (P : A -> Prop) `{forall x, Decision (P x)} l :
  NoDup (f <$> l) -> NoDup (f <$> filter P l).
Proof.
  induction l as [|x l IH]; [auto|]. rewrite fmap_cons. intros [Hx Hl]%NoDup_cons.
  rewrite filter_cons. case_decide; [|auto]. rewrite fmap_cons. apply NoDup_cons. split; [|auto].
  intros (y & Heq & Hy)%list_elem_of_fmap. apply Hx.
  apply list_elem_of_fmap. exists y. split; [exact Heq|].
  by apply list_elem_of_filter in Hy as [_ ?].
Qed.

Lemma Forall_filter_keep {A} (Q : A -> Prop) (P : A -> Prop) `{forall x, Decision (P x)} l :
  Forall Q l -> Forall Q (filter P l).
Proof.
  rewrite !Forall_forall. intros HQ x [_ Hx]%list_elem_of_filter. auto.
Qed.

Lemma filter_Forall_id {A} (P : A -> Prop) `{forall x, Decision (P x)} l :
  Forall P l -> filter P l = l.
Proof.
  induction 1 as [|x l Hx Hl IH]; [reflexivity|].
  rewrite filter_cons_True by exact Hx. by rewrite IH.
Qed.

(** A fresh element moves from the list to the set of those seen. *)
Lemma seen_step (x : string) (l : list string) (seen : gset string) :
  x ∉ seen ->
  (NoDup l /\ forall y, y ∈ l -> y ∉ {[x]} ∪ seen) <->
  (NoDup (x :: l) /\ forall y, y ∈ x :: l -> y ∉ seen).
Proof.
  intros Hx. rewrite NoDup_cons. split.
  - intros [Hn Hy]. split; [split; [|done]|].
    + intros Hin. specialize (Hy _ Hin). set_solver.
    + intros y [->|Hin]%elem_of_cons; [done|]. specialize (Hy _ Hin). set_solver.
  - intros [[Hxl Hn] Hy]. split; [done|]. intros y Hin.
    apply not_elem_of_union. split; [|apply Hy; by right].
    intros ->%elem_of_singleton. done.
Qed.

(** A list without duplicate keys has one element per key. *)
Lemma NoDup_fmap_elem_inj {A B} (f : A -> B) l x y :
  NoDup (f <$> l) -> x ∈ l -> y ∈ l -> f x = f y -> x = y.
Proof.
  induction l as [|z l IH]; [by intros _ ?%not_elem_of_nil|]. rewrite fmap_cons.
  intros [Hz Hl]%NoDup_cons [->|Hx]%elem_of_cons [->|Hy]%elem_of_cons Hf; auto.
  - destruct Hz. rewrite Hf. by apply list_elem_of_fmap_2.
  - destruct Hz. rewrite <- Hf. by apply list_elem_of_fmap_2.
Qed.

Lemma exists_elem_snoc {A} (P : A -> Prop) (l : list A) (a : A) :
  (exists x, x ∈ l ++ [a] /\ P x) <-> (exists x, x ∈ l /\ P x) \/ P a.
Proof.
  split.
  - intros (x & [Hx| ->%list_elem_of_singleton]%elem_of_app & Hp); eauto.
  - intros [(x & Hx & Hp)|Hp]; [exists x | exists a]; (split; [apply elem_of_app|done]); [by left|].
    right. by apply list_elem_of_singleton.
Qed.

Lemma omap_fmap_some {A B C} (f : B -> option C) (g : A -> B) (h : A -> C) (l : list A) :
  (forall x, f (g x) = Some (h x)) -> omap f (g <$> l) = h <$> l.
Proof. intros Hf. induction l as [|x l IH]; [done|]. cbn. by rewrite Hf, IH. Qed.

Lemma omap_fmap_none {A B C} (f : B -> option C) (g : A -> B) (l : list A) :
  (forall x, f (g x) = None) -> omap f (g <$> l) = [].
Proof. intros Hf. induction l as [|x l IH]; [done|]. cbn. by rewrite Hf. Qed.

Lemma omap_cons {A B} (f : A -> option B) x l :
  omap f (x :: l) = match f x with Some y => y :: omap f l | None => omap f l end.
Proof. done. Qed.

Lemma length_omap_le {A B} (f : A -> option B) l : (length (omap f l) <= length l)%nat.
Proof.
  induction l as [|x l IH]; [done|]. cbn in *. destruct (f x); cbn; lia.
Qed.

(** Sorting a list that is already strictly sorted changes nothing. *)
Lemma merge_sort_sorted {A} (R : A -> A -> Prop) `{forall x y, Decision (R x y)}
  (lt : A -> A -> Prop) l :
  Transitive R -> Total R ->
  (forall x y, lt x y -> R x y /\ ~ R y x) ->
  StronglySorted lt l -> merge_sort R l = l.
Proof.
  intros HT HTot Hlt Hl. apply (StronglySorted_unique_strong R).
  - intros x1 x2 H1 H2 H12 H21. rewrite (merge_sort_Permutation R l) in H1.
    clear -Hlt Hl H1 H2 H12 H21.
    induction Hl as [|x l Hl IH HF]; [by apply not_elem_of_nil in H1|].
    rewrite Forall_forall in HF.
    apply elem_of_cons in H1 as [->|H1]; apply elem_of_cons in H2 as [->|H2]; auto.
    + exfalso. apply HF, Hlt in H2. tauto.
    + exfalso. apply HF, Hlt in H1. tauto.
  - by apply StronglySorted_merge_sort.
  - clear -Hl Hlt. induction Hl as [|x l Hl IH HF]; constructor; [exact IH|].
    rewrite Forall_forall in *. intros y Hy. apply Hlt. auto.
  - apply merge_sort_Permutation.
Qed.

Lemma StronglySorted_lookup_lt {A} (R : A -> A -> Prop) l i j x y :
  StronglySorted R l -> l !! i = Some x -> l !! j = Some y -> (i < j)%nat -> R x y.
Proof.
  intros Hs Hx Hy Hij. rewrite <- (take_drop j l) in Hs. apply StronglySorted_app in Hs as [Hs _].
  apply Hs; [apply list_elem_of_lookup; exists i; by rewrite lookup_take_lt by lia|].
  apply list_elem_of_lookup. exists 0%nat. by rewrite lookup_drop, Nat.add_0_r.
Qed.

Create HintDb golib.
#[export] Hint Resolve respects_ret respects_throw respects_gets respects_lift
  respects_bind respects_attempt respects_query respects_with_rollback respects_map_err
  respects_begin respects_commit : golib.

(** Case analysis on the condition of the outermost [if] or [match]. *)
Ltac split_if :=
  match goal with
  | |- context [if decide ?P then _ else _] => destruct (decide P)
  | |- context [if ?b then _ else _] => destruct b eqn:?
  | H : context [if decide ?P then _ else _] |- _ => destruct (decide P)
  | H : context [if ?b then _ else _] |- _ => destruct b eqn:?
  end.

(** Read boolean tests as propositions. *)
Ltac to_prop :=
  repeat match goal with
  | H : (_ && _) = true |- _ => apply andb_true_iff in H; destruct H
  | H : (_ || _) = false |- _ => apply orb_false_iff in H; destruct H
  | H : negb _ = true |- _ => apply negb_true_iff in H
  | H : negb _ = false |- _ => apply negb_false_iff in H
  | H : bool_decide _ = true |- _ => apply bool_decide_eq_true in H
  | H : bool_decide _ = false |- _ => apply bool_decide_eq_false in H
  | H : (_ <? _) = true |- _ => apply Z.ltb_lt in H
  | H : (_ <? _) = false |- _ => apply Z.ltb_ge in H
  | H : (_ <=? _) = true |- _ => apply Z.leb_le in H
  | H : (_ <=? _) = false |- _ => apply Z.leb_gt in H
  | H : (_ =? _) = true |- _ => apply Z.eqb_eq in H
  | H : (_ =? _) = false |- _ => apply Z.eqb_neq in H
  end.

(** Invert the runs of the context: every hypothesis [m w = (inr a, w')] is
    replaced by what its parts returned. *)
Ltac run_inv_step :=
  match goal with
  | H : @mbind (M ?W) (M_bind ?W) _ _ _ _ _ = (inr _, _) |- _ =>
      apply bind_returns in H as (? & ? & ? & ?)
  | H : with_rollback _ _ = (inr _, _) |- _ => apply with_rollback_returns in H
  | H : map_err _ _ _ = (inr _, _) |- _ => apply map_err_returns in H
  | H : query _ _ = (inr _, _) |- _ => apply query_returns in H as [? ?]
  | H : begin_tx _ = (inr _, _) |- _ => apply query_returns in H as [? ?]
  | H : commit_tx _ = (inr _, _) |- _ => apply query_returns in H as [? ?]
  | H : exec _ _ = (inr _, _) |- _ => apply exec_returns in H as [? ?]
  | H : stmt _ _ = (inr _, _) |- _ => apply stmt_returns in H
  | H : throw _ _ = (inr _, _) |- _ => discriminate H
  | H : @mret (M ?W) (M_ret ?W) _ _ _ = (inr _, _) |- _ => injection H as ? ?
  | H : lift_result _ _ = (inr _, _) |- _ => injection H as ? ?
  | H : gets _ _ = (inr _, _) |- _ => injection H as ? ?
  end.
Ltac run_inv := repeat (run_inv_step; try subst).

(** Read the hypotheses [rows d' = rows d] that the read-only statements left. *)
Ltac same_rows :=
  repeat match goal with
  | H : rows ?a = _ |- _ =>
      is_var a; destruct a as [? ?]; cbn [rows faults] in H; cbn [rows faults]; subst
  end; cbn [rows faults fst snd] in *.

(** Execute the statements of a run symbolically. *)
Ltac run_db :=
  cbv beta iota delta [with_rollback map_err begin_tx commit_tx query exec stmt mbind M_bind
    mret M_ret attempt throw lift_result gets modify head tail rows faults fst snd].
