(* ===== verification/Journal.v ===== *)
(** * The gateway-local durable journal

    Models [internal/gateway/journal/journal.go] and [commands.go]: the SQLite
    handoff log of normalized events ([Append], [ReadUnacked], [Ack],
    [Metrics]) and the ledger of terminal command results ([LookupCommand],
    [SaveCommandResult], [PruneCommands]). The SQLite file is [jdb]: the rows
    of [journal_entries] in insertion order, the AUTOINCREMENT high-water mark
    SQLite keeps in [sqlite_sequence], the single [journal_meta] row, and the
    [command_results] table. *)

From S2P Require Import Prelude.

Definition DefaultMaxBytes : Z := Z.shiftl 1 30.
Definition DefaultMaxVolumeShare : Z := 25.
Definition DefaultDegradedAt : Z := 70.
Definition DefaultPauseAt : Z := 80.
Definition DefaultCriticalAt : Z := 90.
Definition DefaultBatchEntries : Z := 256.
Definition DefaultBatchBytes : Z := Z.shiftl 1 20.

Definition ErrCorrupt : goerr := ErrMsg "gateway journal corrupt".
Definition ErrCapacity : goerr := ErrMsg "gateway journal capacity exceeded".
Definition ErrUnknownAck : goerr :=
  ErrMsg "gateway journal acknowledgement exceeds stored entries".

Inductive CapacityState :=
  | CapacityHealthy
  | CapacityDegraded
  | CapacityPaused
  | CapacityCritical.

#[export] Instance CapacityState_eq_dec : EqDecision CapacityState.
Proof. solve_decision. Defined.

Record Config := MkConfig {
  MaxBytes : Z;
  VolumeBytes : Z;
  MaxVolumeShare : Z;
  DegradedAt : Z;
  PauseAt : Z;
  CriticalAt : Z;
}.

Definition DefaultConfig : Config := {|
  MaxBytes := DefaultMaxBytes;
  VolumeBytes := 0;
  MaxVolumeShare := DefaultMaxVolumeShare;
  DegradedAt := DefaultDegradedAt;
  PauseAt := DefaultPauseAt;
  CriticalAt := DefaultCriticalAt;
|}.

(** [if c.F == 0 { c.F = default }]. *)
Definition or_default (v d : Z) : Z := if v =? 0 then d else v.

Definition normalized (c0 : Config) (volumeBytes : Z) : goerr + Config :=
  let c := {|
    MaxBytes := or_default (MaxBytes c0) (MaxBytes DefaultConfig);
    VolumeBytes := or_default (VolumeBytes c0) volumeBytes;
    MaxVolumeShare := or_default (MaxVolumeShare c0) (MaxVolumeShare DefaultConfig);
    DegradedAt := or_default (DegradedAt c0) (DegradedAt DefaultConfig);
    PauseAt := or_default (PauseAt c0) (PauseAt DefaultConfig);
    CriticalAt := or_default (CriticalAt c0) (CriticalAt DefaultConfig);
  |} in
  let boundsValid :=
    (0 <? MaxBytes c) && (0 <? VolumeBytes c) &&
    (0 <? MaxVolumeShare c) && (MaxVolumeShare c <=? 100) in
  let thresholdsOrdered :=
    (0 <? DegradedAt c) && (DegradedAt c <? PauseAt c) &&
    (PauseAt c <? CriticalAt c) && (CriticalAt c <? 100) in
  if negb boundsValid || negb thresholdsOrdered then
    inl (ErrMsg "invalid gateway journal capacity configuration")
  else if i64 (Z.quot (i64 (VolumeBytes c * MaxVolumeShare c)) 100) <? MaxBytes c then
    inl (ErrMsg "gateway journal cap exceeds volume budget")
  else inr c.

(** A payload is opaque to the journal. *)
Definition bytes := list byte.
Definition len {A} (l : list A) : Z := Z.of_nat (length l).

(** A row of [journal_entries]. *)
Record JRow := MkJRow {
  jr_seq : Z;
  jr_event_id : string;
  jr_payload : bytes;
  jr_created_at : Z;
}.

Record Entry := MkEntry {
  Seq : Z;
  EventID : string;
  Payload : bytes;
  CreatedAt : GoTime;
}.

Definition newEntry (seq : Z) (eventID : string) (payload : bytes) (createdMS : Z) : Entry := {|
  Seq := u64 seq;
  EventID := eventID;
  Payload := payload;
  CreatedAt := FromUnixMilli createdMS;
|}.

Record Metrics := MkMetrics {
  m_Entries : Z;
  m_Bytes : Z;
  m_OldestUnackedAt : option GoTime;
  m_AckedThrough : Z;
  m_State : CapacityState;
}.

(** A row of [command_results]. *)
Record CmdRow := MkCmdRow {
  cr_session_id : string;
  cr_status : string;
  cr_wa_message_id : string;
  cr_error : string;
  cr_updated_at : Z;
  cr_expires_at : Z;
}.

Record jdb := MkJdb {
  journal_entries : list JRow;
  autoinc : Z;
  acked_through : Z;
  command_results : gmap string CmdRow;
}.

(** The schema of a freshly initialized file. *)
Definition empty_jdb : jdb := MkJdb [] 0 0 ∅.

Definition set_entries (l : list JRow) (s : jdb) : jdb :=
  MkJdb l (autoinc s) (acked_through s) (command_results s).
Definition set_commands (m : gmap string CmdRow) (s : jdb) : jdb :=
  MkJdb (journal_entries s) (autoinc s) (acked_through s) m.

Definition classifySQLiteError (err : goerr) : goerr :=
  match sqlite_code err with
  | Some 13 => ErrWith ErrCapacity (error_text err)
  | _ => err
  end.

Abbreviation classified := (map_err classifySQLiteError).

Definition stateFor (bytes : Z) (cfg : Config) : CapacityState :=
  let percent := i64 (Z.quot (i64 (bytes * 100)) (MaxBytes cfg)) in
  if CriticalAt cfg <=? percent then CapacityCritical
  else if PauseAt cfg <=? percent then CapacityPaused
  else if DegradedAt cfg <=? percent then CapacityDegraded
  else CapacityHealthy.

(** [COALESCE(SUM(length(payload)),0)] and [MIN(created_at)]. *)
Definition sum_bytes (l : list JRow) : Z := foldr (fun r acc => len (jr_payload r) + acc) 0 l.
Definition min_created (l : list JRow) : option Z :=
  foldr (fun r acc => Some (match acc with
                            | None => jr_created_at r
                            | Some m => Z.min (jr_created_at r) m
                            end)) None l.

Definition metricsDB (cfg : Config) : M (db jdb) Metrics :=
  classified (query (fun s => {|
    m_Entries := len (journal_entries s);
    m_Bytes := sum_bytes (journal_entries s);
    m_OldestUnackedAt := FromUnixMilli <$> min_created (journal_entries s);
    m_AckedThrough := u64 (acked_through s);
    m_State := stateFor (sum_bytes (journal_entries s)) cfg;
  |})).

(** [SELECT seq, payload, created_at FROM journal_entries WHERE event_id=?]. *)
Definition find_event (eventID : string) (s : jdb) : option JRow :=
  snd <$> list_find (fun r => jr_event_id r = eventID) (journal_entries s).

(** [INSERT INTO journal_entries]: AUTOINCREMENT assigns one more than the
    largest rowid ever used and reports SQLITE_FULL when there is none left. *)
Definition insert_event (eventID : string) (payload : bytes) (createdMS : Z) (s : jdb)
  : (goerr + Z) * jdb :=
  let seq := autoinc s + 1 in
  if 2 ^ 63 <=? seq then (inl (ErrSQLite 13 "database or disk is full"), s)
  else if decide (find_event eventID s = None) then
    (inr seq, MkJdb (journal_entries s ++ [MkJRow seq eventID payload createdMS])
                    seq (acked_through s) (command_results s))
  else (inl (ErrSQLite 2067 "UNIQUE constraint failed: journal_entries.event_id"), s).

Definition Append (cfg : Config) (eventID : string) (payload : bytes) (createdAt : GoTime)
  : M (db jdb) (Entry * bool) :=
  if bool_decide (eventID = "") || bool_decide (payload = []) || IsZero createdAt then
    throw (ErrMsg "gateway journal event id, payload, and time are required")
  else
    with_rollback (
      classified begin_tx;;
      existing ← classified (query (find_event eventID));
      match existing with
      | Some r =>
          classified commit_tx;;
          mret (newEntry (jr_seq r) eventID (jr_payload r) (jr_created_at r), false)
      | None =>
          metrics ← classified (metricsDB cfg);
          let projectedBytes := i64 (m_Bytes metrics + len payload) in
          if MaxBytes cfg <? projectedBytes then
            throw (ErrWith ErrCapacity "projected bytes exceed the cap")
          else
            let createdMS := UnixMilli createdAt in
            seq ← classified (stmt (insert_event eventID payload createdMS));
            classified commit_tx;;
            mret (newEntry seq eventID payload createdMS, true)
      end).

(** [ORDER BY seq ASC]. *)
Definition seq_le (a b : JRow) : Prop := jr_seq a <= jr_seq b.
#[export] Instance seq_le_dec : RelDecision seq_le.
Proof. intros a b. apply Z_le_dec. Defined.
Definition order_by_seq (l : list JRow) : list JRow := merge_sort seq_le l.

(** The loop over the selected rows, with its early [break]. *)
Fixpoint read_loop (maxBytes : Z) (rs : list JRow) (out : list Entry) (used : Z) : list Entry :=
  match rs with
  | [] => out
  | r :: rs' =>
      if (0 <? len out) && (maxBytes <? i64 (used + len (jr_payload r))) then out
      else read_loop maxBytes rs'
             (out ++ [newEntry (jr_seq r) (jr_event_id r) (jr_payload r) (jr_created_at r)])
             (i64 (used + len (jr_payload r)))
  end.

Definition ReadUnacked (maxEntries maxBytes : Z) : M (db jdb) (list Entry) :=
  if (maxEntries <=? 0) || (maxBytes <=? 0) then
    throw (ErrMsg "gateway journal read limits must be positive")
  else
    selected ← classified (query (fun s =>
      take (Z.to_nat maxEntries) (order_by_seq (journal_entries s))));
    mret (read_loop maxBytes selected [] 0).

Definition ReadDefaultBatch : M (db jdb) (list Entry) :=
  ReadUnacked DefaultBatchEntries DefaultBatchBytes.

(** [SELECT COALESCE(MAX(seq), ?) FROM journal_entries]. *)
Definition max_seq (watermark : Z) (l : list JRow) : Z :=
  match l with
  | [] => watermark
  | r :: l' => foldr (fun r acc => Z.max (jr_seq r) acc) (jr_seq r) l'
  end.

Definition Ack (through : Z) : M (db jdb) unit :=
  with_rollback (
    classified begin_tx;;
    watermark ← classified (query acked_through);
    if through <=? u64 watermark then commit_tx
    else
      maximum ← classified (query (fun s => max_seq watermark (journal_entries s)));
      if u64 maximum <? through then
        throw (ErrWith ErrUnknownAck "acknowledgement beyond the last entry")
      else
        classified (exec (fun s =>
          (tt, set_entries (filter (fun r => ~ jr_seq r <= through) (journal_entries s)) s)));;
        classified (exec (fun s =>
          (tt, MkJdb (journal_entries s) (autoinc s) through (command_results s))));;
        classified commit_tx).

(** ** The command-result ledger *)

Definition CommandSent : string := "sent".
Definition CommandFailed : string := "failed".

(** Seven days, in nanoseconds. *)
Definition CommandResultRetention : Z := 7 * 24 * 3600 * 1000000000.

Record CommandResult := MkCommandResult {
  c_CommandID : string;
  c_SessionID : string;
  c_Status : string;
  c_WAMessageID : string;
  c_Error : string;
  c_UpdatedAt : GoTime;
}.

Definition LookupCommand (commandID : string) : M (db jdb) (option CommandResult) :=
  if bool_decide (commandID = "") then throw (ErrMsg "command id is required")
  else
    row ← map_err (fun e => classifySQLiteError (ErrWrap "lookup command result" e))
                  (query (fun s => command_results s !! commandID));
    mret ((fun r => {|
      c_CommandID := commandID;
      c_SessionID := cr_session_id r;
      c_Status := cr_status r;
      c_WAMessageID := cr_wa_message_id r;
      c_Error := cr_error r;
      c_UpdatedAt := FromUnixMilli (cr_updated_at r);
    |}) <$> row).

Definition SaveCommandResult (result : CommandResult) : M (db jdb) unit :=
  if bool_decide (c_CommandID result = "") || bool_decide (c_SessionID result = "")
     || IsZero (c_UpdatedAt result) then
    throw (ErrMsg "command result id, session, and time are required")
  else if negb (bool_decide (c_Status result = CommandSent)) &&
          negb (bool_decide (c_Status result = CommandFailed)) then
    throw (ErrMsg "command result status must be sent or failed")
  else
    let expiresAt := c_UpdatedAt result + CommandResultRetention in
    map_err (fun e => classifySQLiteError (ErrWrap "save command result" e))
      (exec (fun s => (tt,
        match command_results s !! c_CommandID result with
        | Some _ => s
        | None => set_commands (<[c_CommandID result := {|
            cr_session_id := c_SessionID result;
            cr_status := c_Status result;
            cr_wa_message_id := c_WAMessageID result;
            cr_error := c_Error result;
            cr_updated_at := UnixMilli (c_UpdatedAt result);
            cr_expires_at := UnixMilli expiresAt;
          |}]> (command_results s)) s
        end))).

Definition PruneCommands (now : GoTime) : M (db jdb) unit :=
  map_err (fun e => classifySQLiteError (ErrWrap "prune command results" e))
    (exec (fun s => (tt,
      set_commands (filter (fun '(_, r) => ~ cr_expires_at r < UnixMilli now)
                           (command_results s)) s))).

(** [Journal.Metrics]: the opportunistic prune never masks the metrics. *)
Definition JournalMetrics (cfg : Config) (now : GoTime) : M (db jdb) Metrics :=
  attempt (PruneCommands now);;
  metricsDB cfg.

(** ** Opening the file *)

(** What [os.Stat] reports about the journal path. *)
Inductive stat_result :=
  | StatNotExist
  | StatRegular
  | StatIrregular
  | StatError (e : goerr).

(** The answers of the operating system and of SQLite that [Open] depends on:
    creating the directory, the volume size, the path's status, [PRAGMA
    quick_check] and the two schema scripts. *)
Record open_env := MkOpenEnv {
  env_mkdir : option goerr;
  env_volume : goerr + Z;
  env_stat : stat_result;
  env_quick_check : goerr + string;
  env_schema : option goerr;
  env_history_schema : option goerr;
}.

Definition integrityCheck (quick_check : goerr + string) : option goerr :=
  match quick_check with
  | inl err => Some (ErrWith ErrCorrupt ("quick_check: " +:+ error_text err))
  | inr result =>
      if bool_decide (result = "ok") then None
      else Some (ErrWith ErrCorrupt ("quick_check returned " +:+ result))
  end.

Definition IsAbs (path : string) : bool := String.prefix "/" path.

(** [Open path cfg] over the current content of the file, [None] when there
    is none: the schema script creates what is missing and keeps the rest. *)
Definition Open (path : string) (cfg : Config) (env : open_env) (file : option jdb)
  : goerr + (Config * jdb) :=
  if bool_decide (path = "") || negb (IsAbs path) then
    inl (ErrMsg "gateway journal path must be absolute")
  else match env_mkdir env with
  | Some err => inl (ErrWrap "create journal directory" err)
  | None =>
  match env_volume env with
  | inl err => inl (ErrWrap "stat gateway journal volume" err)
  | inr volume =>
  match normalized cfg volume with
  | inl err => inl err
  | inr cfg' =>
  match env_stat env with
  | StatIrregular => inl (ErrMsg "gateway journal path is not a regular file")
  | StatError err => inl (ErrWrap "stat gateway journal" err)
  | StatRegular | StatNotExist =>
  match integrityCheck (env_quick_check env) with
  | Some err => inl err
  | None =>
  match env_schema env with
  | Some err => inl (classifySQLiteError (ErrWrap "initialize gateway journal" err))
  | None =>
  match env_history_schema env with
  | Some err => inl (classifySQLiteError (ErrWrap "initialize gateway history inbox" err))
  | None => inr (cfg', default empty_jdb file)
  end end end end end end end.

(** ** The journal invariant

    Sequence numbers strictly increase in insertion order and lie above the
    acknowledgement watermark and at most at the AUTOINCREMENT mark; event ids
    are unique; payloads are not empty and together fit the configured cap. *)
Definition seq_lt (a b : JRow) : Prop := jr_seq a < jr_seq b.

Record journal_wf (cfg : Config) (s : jdb) : Prop := {
  wf_sorted : StronglySorted seq_lt (journal_entries s);
  wf_window : Forall (fun r => acked_through s < jr_seq r <= autoinc s) (journal_entries s);
  wf_ids : NoDup (jr_event_id <$> journal_entries s);
  wf_nonempty : Forall (fun r => jr_event_id r <> "" /\ jr_payload r <> []) (journal_entries s);
  wf_bytes : sum_bytes (journal_entries s) <= MaxBytes cfg;
  wf_mark : 0 <= acked_through s <= autoinc s /\ autoinc s < 2 ^ 63;
}.

(** The caps [normalized] lets through leave room for any payload Go can
    allocate. *)
Definition cap_ok (cfg : Config) : Prop := 0 < MaxBytes cfg < 2 ^ 62.

Lemma i64_quot100 z : i64 (Z.quot (i64 z) 100) < 2 ^ 62.
Proof.
  pose proof (i64_range z) as Hr. unfold in_i64 in Hr.
  assert (- 2 ^ 62 < Z.quot (i64 z) 100 < 2 ^ 62)
    by (Z.to_euclidean_division_equations; lia).
  rewrite i64_id; unfold in_i64; lia.
Qed.

Lemma normalized_cap_ok c v cfg : normalized c v = inr cfg -> cap_ok cfg.
Proof.
  unfold normalized, cap_ok. repeat split_if; intros [= <-]; to_prop; cbn in *.
  match goal with H : _ <= i64 (Z.quot (i64 ?x) 100) |- _ => pose proof (i64_quot100 x) end.
  lia.
Qed.

Lemma sum_bytes_app l1 l2 : sum_bytes (l1 ++ l2) = sum_bytes l1 + sum_bytes l2.
Proof. unfold sum_bytes. induction l1; cbn in *; lia. Qed.

Lemma sum_bytes_nonneg l : 0 <= sum_bytes l.
Proof. unfold sum_bytes, len. induction l; cbn in *; lia. Qed.

Lemma sum_bytes_filter (P : JRow -> Prop) `{forall r, Decision (P r)} l :
  sum_bytes (filter P l) <= sum_bytes l.
Proof.
  induction l as [|r l IH]; [reflexivity|]. rewrite filter_cons.
  unfold sum_bytes, len in *. case_decide; cbn; lia.
Qed.

Lemma find_event_Some id s r :
  find_event id s = Some r -> r ∈ journal_entries s /\ jr_event_id r = id.
Proof.
  unfold find_event. intros (p & Hp & ->)%fmap_Some. destruct p as [i x].
  apply list_find_Some in Hp as (Hl & Hx & _). cbn. split; [|exact Hx].
  eapply list_elem_of_lookup_2; eauto.
Qed.

Lemma find_event_None id s :
  find_event id s = None <-> id ∉ (jr_event_id <$> journal_entries s).
Proof.
  unfold find_event. rewrite fmap_None, list_find_None, Forall_forall.
  rewrite list_elem_of_fmap. split.
  - intros H (r & -> & Hr). exact (H r Hr eq_refl).
  - intros H r Hr <-. eauto.
Qed.

Lemma insert_event_wf cfg id p ms s :
  journal_wf cfg s -> id <> "" -> p <> [] ->
  sum_bytes (journal_entries s) + len p <= MaxBytes cfg ->
  journal_wf cfg (insert_event id p ms s).2.
Proof.
  intros Hwf Hid Hp Hcap. pose proof Hwf as [Hs Hw Hi Hn Hb Hm]. unfold insert_event.
  destruct (_ <=? _) eqn:?; [exact Hwf|]. case_decide as Hf; [|exact Hwf]. to_prop.
  assert (HwF : Forall (fun r => jr_seq r <= autoinc s) (journal_entries s))
    by (eapply Forall_impl; [exact Hw | cbn; lia]).
  split; cbn.
  - apply StronglySorted_app_2; [|exact Hs | repeat constructor].
    intros x1 x2 H1 ->%list_elem_of_singleton. rewrite Forall_forall in HwF.
    unfold seq_lt; cbn. specialize (HwF _ H1). lia.
  - apply Forall_app. split; [|repeat constructor; cbn; lia].
    eapply Forall_impl; [exact Hw | cbn; lia].
  - rewrite fmap_app. apply NoDup_app. apply find_event_None in Hf. cbn.
    split; [exact Hi|]. split; [|apply NoDup_singleton].
    intros x Hx ->%list_elem_of_singleton. contradiction.
  - apply Forall_app. split; [exact Hn | repeat constructor; done].
  - rewrite sum_bytes_app. unfold sum_bytes at 2; cbn. lia.
  - lia.
Qed.

Lemma ack_wf cfg n s :
  journal_wf cfg s -> acked_through s < n <= autoinc s ->
  journal_wf cfg (MkJdb (filter (fun r => ~ jr_seq r <= n) (journal_entries s))
                        (autoinc s) n (command_results s)).
Proof.
  intros [Hs Hw Hi Hn Hb Hm] Hle. split; cbn.
  - by apply StronglySorted_filter.
  - rewrite Forall_forall in *. intros r [Hr Hin]%list_elem_of_filter.
    specialize (Hw _ Hin). cbn in *. lia.
  - by apply NoDup_fmap_filter.
  - by apply Forall_filter_keep.
  - etransitivity; [apply sum_bytes_filter | exact Hb].
  - lia.
Qed.

Lemma max_seq_bound w l n :
  w <= n -> Forall (fun r => jr_seq r <= n) l -> max_seq w l <= n.
Proof.
  intros Hw Hl. destruct l as [|r l]; [exact Hw|]. cbn.
  apply Forall_cons in Hl as [Hr Hl].
  induction l as [|r' l IH]; cbn; [exact Hr|].
  apply Forall_cons in Hl as [Hr' Hl]. specialize (IH Hl). lia.
Qed.

Lemma max_seq_ge w l r : r ∈ l -> jr_seq r <= max_seq w l.
Proof.
  destruct l as [|r0 l]; [intros []%not_elem_of_nil|]. cbn.
  intros [->|Hin]%elem_of_cons.
  - induction l; cbn; lia.
  - induction l as [|x l IH]; [by apply not_elem_of_nil in Hin|].
    cbn. apply elem_of_cons in Hin as [->|Hin]; [lia|]. specialize (IH Hin). lia.
Qed.

Definition same_journal (s s' : jdb) : Prop :=
  journal_entries s' = journal_entries s /\ autoinc s' = autoinc s /\
  acked_through s' = acked_through s.

Lemma same_journal_wf cfg s s' : same_journal s s' -> journal_wf cfg s -> journal_wf cfg s'.
Proof. intros (He & Ha & Hk) [H1 H2 H3 H4 H5 H6]. split; rewrite ?He, ?Ha, ?Hk; assumption. Qed.

Lemma metricsDB_returns cfg d m d' :
  metricsDB cfg d = (inr m, d') ->
  rows d' = rows d /\ m_Bytes m = sum_bytes (journal_entries (rows d)) /\
  m_AckedThrough m = u64 (acked_through (rows d)).
Proof. unfold metricsDB. intros H. run_inv. subst. auto. Qed.

(** What a successful [Append] did to the rows. *)
Lemma Append_returns cfg id p t d e fresh d' :
  Append cfg id p t d = (inr (e, fresh), d') ->
  id <> "" /\ p <> [] /\
  ((fresh = false /\ rows d' = rows d /\
    exists r, find_event id (rows d) = Some r /\
              e = newEntry (jr_seq r) id (jr_payload r) (jr_created_at r)) \/
   (fresh = true /\ find_event id (rows d) = None /\
    i64 (sum_bytes (journal_entries (rows d)) + len p) <= MaxBytes cfg /\
    insert_event id p (UnixMilli t) (rows d) =
      (inr (autoinc (rows d) + 1), rows d') /\
    e = newEntry (autoinc (rows d) + 1) id p (UnixMilli t))).
Proof.
  unfold Append. split_if; [discriminate|]. to_prop. intros Hrun. run_inv.
  do 2 (split; [assumption|]).
  destruct (find_event id _) as [r0|] eqn:Hf; run_inv; same_rows.
  - left. eauto.
  - right.
    match goal with Hm : metricsDB _ _ = _ |- _ =>
      apply metricsDB_returns in Hm as (? & Hb & _) end.
    split_if; run_inv; to_prop; same_rows. rewrite Hb in *.
    match goal with Hi : insert_event _ _ _ _ = (inr ?q, _) |- _ =>
      rename Hi into Hins; assert (q = autoinc (rows d) + 1) as -> end.
    { revert Hins. unfold insert_event. repeat split_if; congruence. }
    auto.
Qed.

Lemma Append_keeps_wf cfg id p t :
  cap_ok cfg -> len p < 2 ^ 62 ->
  respects (on_rows (keeps (journal_wf cfg))) (Append cfg id p t).
Proof.
  intros [_ Hcap] Hlen d r d' Hrun Hwf. destruct r as [e|[e fresh]].
  - revert Hrun. unfold Append. split_if; [by intros [= _ <-]|].
    by intros ->%with_rollback_error.
  - apply Append_returns in Hrun as (Hid & Hp & [(_ & -> & _)|(_ & _ & Hle & Hins & _)]);
      [exact Hwf|].
    replace (rows d') with (insert_event id p (UnixMilli t) (rows d)).2 by by rewrite Hins.
    apply insert_event_wf; [done..|].
    pose proof (sum_bytes_nonneg (journal_entries (rows d))).
    pose proof (wf_bytes _ _ Hwf). rewrite i64_id in Hle; [exact Hle|].
    unfold in_i64, len in *. lia.
Qed.

(** What a successful [Ack] did to the rows. *)
Lemma Ack_returns n d d' :
  Ack n d = (inr tt, d') ->
  (n <= u64 (acked_through (rows d)) /\ rows d' = rows d) \/
  (u64 (acked_through (rows d)) < n /\
   n <= u64 (max_seq (acked_through (rows d)) (journal_entries (rows d))) /\
   rows d' = MkJdb (filter (fun r => ~ jr_seq r <= n) (journal_entries (rows d)))
                   (autoinc (rows d)) n (command_results (rows d))).
Proof.
  unfold Ack. intros Hrun. run_inv. split_if; run_inv; to_prop; same_rows; [left; auto|].
  right. split_if; run_inv; to_prop; same_rows. auto.
Qed.

Lemma Ack_keeps_wf cfg n : respects (on_rows (keeps (journal_wf cfg))) (Ack n).
Proof.
  intros d r d' Hrun Hwf. destruct r as [e|[]].
  - unfold Ack in Hrun. by apply with_rollback_error in Hrun as ->.
  - apply Ack_returns in Hrun as [[_ ->]|(Hlt & Hle & ->)]; [exact Hwf|].
    pose proof (wf_mark _ _ Hwf) as [Hm1 Hm2].
    assert (max_seq (acked_through (rows d)) (journal_entries (rows d)) <= autoinc (rows d)).
    { apply max_seq_bound; [lia|]. eapply Forall_impl; [apply (wf_window _ _ Hwf)|].
      cbn. lia. }
    assert (in_u64 (acked_through (rows d))) by (unfold in_u64; lia).
    rewrite u64_id in Hlt by assumption.
    assert (acked_through (rows d) <= max_seq (acked_through (rows d)) (journal_entries (rows d))).
    { destruct (journal_entries (rows d)) as [|r l] eqn:He; [reflexivity|].
      pose proof (max_seq_ge (acked_through (rows d)) (r :: l) r ltac:(left)).
      pose proof (wf_window _ _ Hwf) as Hw. rewrite He in Hw.
      apply Forall_cons in Hw as [Hw _]. lia. }
    rewrite u64_id in Hle by (unfold in_u64; lia).
    apply ack_wf; [exact Hwf | lia].
Qed.

Lemma SaveCommandResult_same_journal c :
  respects (on_rows same_journal) (SaveCommandResult c).
Proof.
  unfold SaveCommandResult. repeat case_match; try (apply respects_throw; intros ?; done).
  apply respects_map_err, respects_exec; [done|].
  intros s. cbn. case_match; done.
Qed.

Lemma PruneCommands_same_journal now : respects (on_rows same_journal) (PruneCommands now).
Proof. apply respects_map_err, respects_exec; done. Qed.

(** ** Every operation keeps the invariant *)

Inductive op :=
  | OpAppend (id : string) (p : bytes) (t : GoTime)
  | OpReadUnacked (maxEntries maxBytes : Z)
  | OpAck (n : Z)
  | OpLookup (id : string)
  | OpSave (c : CommandResult)
  | OpMetrics (now : GoTime).

Definition run_op (cfg : Config) (o : op) : M (db jdb) unit :=
  match o with
  | OpAppend id p t => Append cfg id p t;; mret tt
  | OpReadUnacked me mb => ReadUnacked me mb;; mret tt
  | OpAck n => Ack n
  | OpLookup id => LookupCommand id;; mret tt
  | OpSave c => SaveCommandResult c
  | OpMetrics now => JournalMetrics cfg now;; mret tt
  end.

(** No Go allocation reaches 2^62 bytes. *)
Definition op_sized (o : op) : Prop :=
  match o with OpAppend _ p _ => len p < 2 ^ 62 | _ => True end.

(** The files the operations can produce, under any script of SQLite errors. *)
Inductive reachable (cfg : Config) : jdb -> Prop :=
  | reach_init : reachable cfg empty_jdb
  | reach_step s o fs r d' :
      reachable cfg s -> op_sized o -> run_op cfg o (Db s fs) = (r, d') ->
      reachable cfg (rows d').

Lemma respects_same_wf {A} cfg (m : M (db jdb) A) :
  respects (on_rows same_journal) m -> respects (on_rows (keeps (journal_wf cfg))) m.
Proof. intros Hm d r d' H Hwf. eapply same_journal_wf; [eapply Hm; exact H | exact Hwf]. Qed.

Lemma ReadUnacked_keeps (R : jdb -> jdb -> Prop) me mb :
  PreOrder R -> respects (on_rows R) (ReadUnacked me mb).
Proof. intros HR. unfold ReadUnacked. split_if; eauto 10 with golib typeclass_instances. Qed.

Lemma LookupCommand_keeps (R : jdb -> jdb -> Prop) id :
  PreOrder R -> respects (on_rows R) (LookupCommand id).
Proof. intros HR. unfold LookupCommand. split_if; eauto 10 with golib typeclass_instances. Qed.

Lemma metricsDB_keeps (R : jdb -> jdb -> Prop) cfg :
  PreOrder R -> respects (on_rows R) (metricsDB cfg).
Proof. intros HR. unfold metricsDB. eauto 10 with golib typeclass_instances. Qed.

Lemma JournalMetrics_keeps_wf cfg now :
  respects (on_rows (keeps (journal_wf cfg))) (JournalMetrics cfg now).
Proof.
  apply respects_bind; [apply _ | apply respects_attempt, respects_same_wf, PruneCommands_same_journal |].
  intros _. apply metricsDB_keeps, _.
Qed.

#[export] Hint Resolve Append_keeps_wf Ack_keeps_wf JournalMetrics_keeps_wf
  ReadUnacked_keeps LookupCommand_keeps : golib.

Lemma run_op_keeps_wf cfg o :
  cap_ok cfg -> op_sized o -> respects (on_rows (keeps (journal_wf cfg))) (run_op cfg o).
Proof.
  intros Hc Ho. destruct o; cbn [run_op op_sized] in *;
    eauto 10 with golib typeclass_instances.
  apply respects_same_wf, SaveCommandResult_same_journal.
Qed.

Lemma empty_jdb_wf cfg : cap_ok cfg -> journal_wf cfg empty_jdb.
Proof. intros [Hc _]. split; cbn; try constructor; unfold sum_bytes; cbn; lia. Qed.

(** ** What the read loop returns *)

Definition entry_of (r : JRow) : Entry :=
  newEntry (jr_seq r) (jr_event_id r) (jr_payload r) (jr_created_at r).

Definition batch_bytes (es : list Entry) : Z := foldr (fun e acc => len (Payload e) + acc) 0 es.

Lemma batch_bytes_snoc es r : batch_bytes (es ++ [entry_of r]) = batch_bytes es + len (jr_payload r).
Proof. unfold batch_bytes. induction es; cbn in *; lia. Qed.

(** The loop appends a prefix of the rows, and at least one to an empty batch. *)
Lemma read_loop_prefix mb rs out u :
  exists n, (n <= length rs)%nat /\ read_loop mb rs out u = out ++ (entry_of <$> take n rs) /\
            (out = [] -> rs <> [] -> (1 <= n)%nat).
Proof.
  revert out u. induction rs as [|r rs IH]; intros out u; cbn [read_loop].
  - exists 0%nat. rewrite take_0, app_nil_r. done.
  - split_if; to_prop.
    + exists 0%nat. rewrite take_0, app_nil_r. split; [lia|]. split; [done|].
      intros -> _. unfold len in *. cbn in *. lia.
    + destruct (IH (out ++ [newEntry (jr_seq r) (jr_event_id r) (jr_payload r) (jr_created_at r)])
                   (i64 (u + len (jr_payload r)))) as (n & Hn & Heq & _).
      exists (S n). cbn. split; [lia|]. split; [|lia]. rewrite Heq, <- app_assoc. done.
Qed.

(** A batch of more than one entry stays within the byte limit. *)
Lemma read_loop_bytes mb rs out u :
  mb < 2 ^ 62 -> Forall (fun r => len (jr_payload r) < 2 ^ 62) rs ->
  u = batch_bytes out -> 0 <= u < 2 ^ 62 ->
  len out <= 1 \/ u <= mb ->
  len (read_loop mb rs out u) <= 1 \/ batch_bytes (read_loop mb rs out u) <= mb.
Proof.
  intros Hmb. revert out u. induction rs as [|r rs IH]; intros out u HF Hu Hu2 Hor;
    cbn [read_loop]; [by subst|].
  apply Forall_cons in HF as [Hr HF].
  assert (0 <= len (jr_payload r)) by (unfold len; lia).
  rewrite i64_id by (unfold in_i64; lia).
  split_if; [by subst|].
  assert (Hout : len out = 0 \/ u + len (jr_payload r) <= mb).
  { match goal with H : _ && _ = false |- _ => apply andb_false_iff in H as [H|H] end;
      to_prop; unfold len in *; lia. }
  assert (Hu0 : len out = 0 -> u = 0).
  { intros H0. destruct out; [by subst|]. unfold len in H0. cbn in H0. lia. }
  apply IH; [exact HF | fold (entry_of r); rewrite batch_bytes_snoc; lia | |].
  - destruct Hout as [Ho|Ho]; [rewrite (Hu0 Ho)|]; lia.
  - unfold len in *. rewrite length_app. cbn. lia.
Qed.

#[export] Instance seq_le_trans : Transitive seq_le.
Proof. unfold seq_le. intros a b c. lia. Qed.
#[export] Instance seq_le_total : Total seq_le.
Proof. unfold seq_le. intros a b. lia. Qed.

Lemma order_by_seq_wf cfg s : journal_wf cfg s -> order_by_seq (journal_entries s) = journal_entries s.
Proof.
  intros Hwf. apply (merge_sort_sorted seq_le seq_lt); [apply _..| |apply (wf_sorted _ _ Hwf)].
  unfold seq_le, seq_lt. lia.
Qed.

Lemma find_event_append id p ms s :
  find_event id s = None ->
  find_event id (MkJdb (journal_entries s ++ [MkJRow (autoinc s + 1) id p ms])
                       (autoinc s + 1) (acked_through s) (command_results s)) =
  Some (MkJRow (autoinc s + 1) id p ms).
Proof.
  intros Hf%find_event_None. unfold find_event; cbn.
  rewrite list_find_app_r.
  - cbn. rewrite decide_True by done. done.
  - apply list_find_None, Forall_forall. intros r Hr Heq. apply Hf.
    apply list_elem_of_fmap. eauto.
Qed.

(** An entry that is stored is found again by its event id. *)
Lemma Append_stored cfg id p t d e fresh d1 :
  Append cfg id p t d = (inr (e, fresh), d1) ->
  exists r, find_event id (rows d1) = Some r /\ e = entry_of r.
Proof.
  intros Hrun. apply Append_returns in Hrun
    as (_ & _ & [(_ & -> & r & Hr & ->)|(_ & Hf & _ & Hins & ->)]).
  - exists r. split; [exact Hr|]. apply find_event_Some in Hr as [_ <-]. done.
  - revert Hins. unfold insert_event. rewrite decide_True by done.
    split_if; [done|]. intros [= <-]. eexists. split; [by apply find_event_append|]. done.
Qed.

(** Without SQLite failures [ReadUnacked] runs the loop over the oldest rows. *)
Lemma ReadUnacked_run cfg s me mb :
  journal_wf cfg s -> 0 < me -> 0 < mb ->
  ReadUnacked me mb (Db s []) =
    (inr (read_loop mb (take (Z.to_nat me) (journal_entries s)) [] 0), Db s []).
Proof.
  intros Hwf Hme Hmb. unfold ReadUnacked.
  rewrite (proj2 (Z.leb_gt _ _) Hme), (proj2 (Z.leb_gt _ _) Hmb).
  cbn [orb]. run_db. by rewrite (order_by_seq_wf _ _ Hwf).
Qed.

(** Whatever SQLite does, a batch that is returned is a prefix of the queue of
    at most [me] rows. *)
Lemma ReadUnacked_prefix cfg me mb d es d' :
  journal_wf cfg (rows d) -> ReadUnacked me mb d = (inr es, d') ->
  exists n, es = entry_of <$> take n (journal_entries (rows d)) /\ (n <= Z.to_nat me)%nat.
Proof.
  intros Hwf. unfold ReadUnacked. split_if; [discriminate|]. intros Hrun. run_inv.
  rewrite (order_by_seq_wf _ _ Hwf).
  destruct (read_loop_prefix mb (take (Z.to_nat me) (journal_entries (rows d))) [] 0)
    as (n & _ & -> & _).
  exists (n `min` Z.to_nat me)%nat. rewrite take_take. split; [done | lia].
Qed.

Lemma ReadUnacked_returns cfg me mb d es d' :
  journal_wf cfg (rows d) -> ReadUnacked me mb d = (inr es, d') ->
  rows d' = rows d /\ exists n, es = entry_of <$> take n (journal_entries (rows d)).
Proof.
  intros Hwf Hrun. split; [symmetry; exact (ReadUnacked_keeps eq _ _ _ _ _ _ Hrun)|].
  destruct (ReadUnacked_prefix _ _ _ _ _ _ Hwf Hrun) as (n & -> & _). by exists n.
Qed.

(** In a sorted table, dropping everything up to the [n]-th row's sequence is
    dropping the first [n] rows. *)
Lemma filter_after_prefix l n r :
  StronglySorted seq_lt l -> last (take n l) = Some r ->
  filter (fun x => ~ jr_seq x <= jr_seq r) l = drop n l.
Proof.
  intros Hs. revert n r. induction Hs as [|x l Hs IH HF]; intros n r Hlast.
  { by rewrite take_nil in Hlast. }
  destruct n as [|n]; [done|]. cbn [take] in Hlast. cbn [drop].
  rewrite Forall_forall in HF.
  destruct (decide (take n l = [])) as [Ht|Ht].
  - rewrite Ht in Hlast. injection Hlast as <-.
    rewrite filter_cons_False by lia.
    assert (Hd : drop n l = l) by (destruct n, l; done). rewrite Hd.
    apply filter_Forall_id. apply Forall_forall. intros y Hy. specialize (HF _ Hy).
    unfold seq_lt in HF. lia.
  - rewrite last_cons in Hlast. destruct (last (take n l)) as [r'|] eqn:Hl.
    2: { by apply last_None in Hl. }
    injection Hlast as <-. rewrite filter_cons_False.
    + by apply IH.
    + apply last_Some_elem_of in Hl.
      assert (r' ∈ l) as Hin by (eapply subseteq_take; exact Hl).
      specialize (HF _ Hin). unfold seq_lt in HF. lia.
Qed.

Lemma last_entry_of l : last (entry_of <$> l) = entry_of <$> last l.
Proof. apply fmap_last. Qed.

(** Without SQLite failures, acknowledging the [n]-th pending row drops the
    first [n] rows. *)
Lemma Ack_run cfg s n r :
  journal_wf cfg s -> last (take n (journal_entries s)) = Some r ->
  Ack (jr_seq r) (Db s []) =
    (inr tt, Db (MkJdb (drop n (journal_entries s)) (autoinc s) (jr_seq r) (command_results s)) []).
Proof.
  intros Hwf Hr. pose proof (last_Some_elem_of _ _ Hr) as Hin. apply subseteq_take in Hin.
  pose proof (wf_mark _ _ Hwf) as [Hm1 Hm2].
  pose proof (proj1 (Forall_forall _ _) (wf_window _ _ Hwf) _ Hin) as Hw. cbn in Hw.
  pose proof (max_seq_ge (acked_through s) _ _ Hin) as Hge.
  assert (Hle : max_seq (acked_through s) (journal_entries s) <= autoinc s).
  { apply max_seq_bound; [lia|]. eapply Forall_impl; [apply (wf_window _ _ Hwf)|]. cbn. lia. }
  unfold Ack. run_db.
  rewrite (u64_id (acked_through s)), (proj2 (Z.leb_gt _ _)) by (unfold in_u64; lia). run_db.
  rewrite (u64_id (max_seq _ _)), (proj2 (Z.ltb_ge _ _)) by (unfold in_u64; lia). run_db.
  unfold set_entries. cbn [journal_entries autoinc acked_through command_results].
  rewrite (filter_after_prefix _ n) by (apply Hwf || exact Hr). reflexivity.
Qed.

Lemma wf_row_u64 cfg s r : journal_wf cfg s -> r ∈ journal_entries s -> in_u64 (jr_seq r).
Proof.
  intros Hwf Hr. pose proof (proj1 (Forall_forall _ _) (wf_window _ _ Hwf) _ Hr) as Hw.
  pose proof (wf_mark _ _ Hwf). cbn in Hw. unfold in_u64. lia.
Qed.

(** ** Properties of the journal *)

(** Every file the journal operations produce from a fresh one, under any
    sequence of operations and any SQLite failures, is well formed: strictly
    increasing sequence numbers above the acknowledgement watermark, unique
    event ids, nonempty payloads, and never more bytes than the cap that
    [normalized] accepted. *)
Theorem journal_reachable_wf (c : Config) (volume : Z) (cfg : Config) (s : jdb) :
  normalized c volume = inr cfg -> reachable cfg s -> journal_wf cfg s.
Proof.
  intros Hn%normalized_cap_ok Hr. induction Hr as [|s o fs r d' _ IH Ho Hrun].
  - by apply empty_jdb_wf.
  - exact (run_op_keeps_wf cfg o Hn Ho _ _ _ Hrun IH).
Qed.

Definition demo_config : Config := MkConfig 10 100 25 70 80 90.
Definition demo_payload (n : nat) : bytes := repeat "a"%byte n.

Lemma journal_reachable_wf_witness :
  exists s, normalized demo_config 1000 = inr demo_config /\
            len (journal_entries s) = 1 /\ reachable demo_config s /\ journal_wf demo_config s.
Proof.
  assert (Hr : reachable demo_config
    (rows (run_op demo_config (OpAppend "evt_1" (demo_payload 4) 1000000) (Db empty_jdb [])).2)).
  { eapply reach_step; [apply reach_init | | apply surjective_pairing]. vm_compute. reflexivity. }
  eexists. split; [vm_compute; reflexivity|]. split; [|split; [exact Hr|]].
  - vm_compute. reflexivity.
  - apply (journal_reachable_wf demo_config 1000); [vm_compute; reflexivity | exact Hr].
Defined.

(** [Append] is idempotent per event id: once it has returned an entry for
    an id, appending the same id again returns that very entry (sequence,
    stored payload and time), reports it as not fresh and changes nothing,
    whatever the new payload is. *)
Theorem append_idempotent (cfg : Config) (id : string) (p p' : bytes) (t t' : GoTime)
  (d d1 : db jdb) (e : Entry) (fresh : bool) :
  Append cfg id p t d = (inr (e, fresh), d1) ->
  p' <> [] -> IsZero t' = false ->
  Append cfg id p' t' (Db (rows d1) []) = (inr (e, false), Db (rows d1) []).
Proof.
  intros Hrun Hp' Ht'.
  pose proof (Append_returns _ _ _ _ _ _ _ _ Hrun) as (Hid & _ & _).
  apply Append_stored in Hrun as (r & Hr & ->).
  unfold Append. rewrite !bool_decide_eq_false_2 by done. rewrite Ht'. run_db. cbn [orb].
  change (match d1 with Db r _ => r end) with (rows d1). rewrite Hr.
  pose proof (find_event_Some _ _ _ Hr) as [_ <-]. reflexivity.
Qed.

Lemma append_idempotent_witness :
  (Append demo_config "evt_1" (demo_payload 4) 5000000 (Db empty_jdb [])).1 =
    inr (MkEntry 1 "evt_1" (demo_payload 4) 5000000, true) /\
  Append demo_config "evt_1" (demo_payload 2) 7000000
    (Db (rows (Append demo_config "evt_1" (demo_payload 4) 5000000 (Db empty_jdb [])).2) []) =
  (inr (MkEntry 1 "evt_1" (demo_payload 4) 5000000, false),
   Db (rows (Append demo_config "evt_1" (demo_payload 4) 5000000 (Db empty_jdb [])).2) []).
Proof.
  split; [vm_compute; reflexivity|].
  apply (append_idempotent demo_config "evt_1" (demo_payload 4) (demo_payload 2) 5000000 7000000
           (Db empty_jdb []) _ _ true);
    [vm_compute; reflexivity | discriminate | vm_compute; reflexivity].
Defined.

(** On a well-formed journal without SQLite failures, [ReadUnacked] returns
    a prefix of the pending entries in sequence order, of at most [maxEntries]
    entries; it returns something whenever something is pending (so one
    oversized entry cannot block the queue), and a batch of several entries
    stays within [maxBytes]. *)
Theorem read_unacked_batch (cfg : Config) (s : jdb) (maxEntries maxBytes : Z) :
  journal_wf cfg s -> cap_ok cfg -> 0 < maxEntries -> 0 < maxBytes < 2 ^ 62 ->
  exists n es,
    ReadUnacked maxEntries maxBytes (Db s []) = (inr es, Db s []) /\
    es = entry_of <$> take n (journal_entries s) /\
    len es <= maxEntries /\
    (journal_entries s <> [] -> es <> []) /\
    (len es <= 1 \/ batch_bytes es <= maxBytes).
Proof.
  intros Hwf Hcap Hme Hmb. rewrite (ReadUnacked_run cfg) by (done || lia).
  set (rs := take (Z.to_nat maxEntries) (journal_entries s)).
  destruct (read_loop_prefix maxBytes rs [] 0) as (n & Hn & Heq & Hpos).
  exists (n `min` Z.to_nat maxEntries)%nat, (read_loop maxBytes rs [] 0).
  split; [reflexivity|].
  assert (Hes : read_loop maxBytes rs [] 0 =
                entry_of <$> take (n `min` Z.to_nat maxEntries) (journal_entries s)).
  { rewrite Heq. unfold rs. rewrite take_take. reflexivity. }
  split; [exact Hes|]. split; [|split].
  - rewrite Hes. unfold len. rewrite length_fmap, length_take. lia.
  - intros Hne Hnil. rewrite Heq in Hnil. cbn in Hnil.
    apply fmap_nil_inv in Hnil.
    assert (rs <> []) as Hrs.
    { unfold rs. destruct (journal_entries s); [done|].
      destruct (Z.to_nat maxEntries) eqn:?; [lia|]. done. }
    specialize (Hpos eq_refl Hrs). destruct rs; [done|]. destruct n; [lia|]. done.
  - apply read_loop_bytes; [lia | | reflexivity | unfold batch_bytes; cbn; lia |].
    + unfold rs. apply Forall_take.
      pose proof (wf_bytes _ _ Hwf) as Hb. destruct Hcap as [_ Hcap].
      clear -Hb Hcap. induction (journal_entries s) as [|r l IH]; constructor.
      * unfold sum_bytes in Hb. cbn in Hb. pose proof (sum_bytes_nonneg l).
        unfold sum_bytes in *. lia.
      * apply IH. unfold sum_bytes in *. cbn in Hb. unfold len in Hb at 1. lia.
    + left. unfold len. cbn. lia.
Qed.

Definition demo_jdb : jdb :=
  rows (run_op demo_config (OpAppend "evt_2" (demo_payload 3) 2000000)
    (run_op demo_config (OpAppend "evt_1" (demo_payload 4) 1000000) (Db empty_jdb [])).2).2.

Lemma demo_jdb_wf : journal_wf demo_config demo_jdb.
Proof.
  apply (run_op_keeps_wf demo_config (OpAppend "evt_2" (demo_payload 3) 2000000)
           ltac:(split; vm_compute; reflexivity) ltac:(vm_compute; reflexivity) _ _ _
           (surjective_pairing _)).
  apply (run_op_keeps_wf demo_config (OpAppend "evt_1" (demo_payload 4) 1000000)
           ltac:(split; vm_compute; reflexivity) ltac:(vm_compute; reflexivity) _ _ _
           (surjective_pairing _)).
  apply empty_jdb_wf. split; vm_compute; reflexivity.
Qed.

Lemma read_unacked_batch_witness :
  len (journal_entries demo_jdb) = 2 /\
  exists n es,
    ReadUnacked 10 5 (Db demo_jdb []) = (inr es, Db demo_jdb []) /\
    es = entry_of <$> take n (journal_entries demo_jdb) /\
    len es <= 10 /\
    (journal_entries demo_jdb <> [] -> es <> []) /\
    (len es <= 1 \/ batch_bytes es <= 5).
Proof.
  split; [vm_compute; reflexivity|].
  apply (read_unacked_batch demo_config demo_jdb 10 5 demo_jdb_wf);
    [split; vm_compute; reflexivity | lia | lia].
Defined.

(** Reading a batch and acknowledging its last entry removes exactly that
    batch: the rest of the queue is what remains, in order, the watermark is
    the acknowledged sequence, and nothing later is lost. *)
Theorem read_then_ack_drains (cfg : Config) (s : jdb) (maxEntries maxBytes : Z)
  (es : list Entry) (e : Entry) :
  journal_wf cfg s -> cap_ok cfg -> 0 < maxEntries -> 0 < maxBytes < 2 ^ 62 ->
  ReadUnacked maxEntries maxBytes (Db s []) = (inr es, Db s []) ->
  last es = Some e ->
  Ack (Seq e) (Db s []) =
    (inr tt, Db (MkJdb (drop (length es) (journal_entries s)) (autoinc s) (Seq e)
                       (command_results s)) []).
Proof.
  intros Hwf Hcap Hme Hmb Hread Hlast.
  rewrite (ReadUnacked_run cfg) in Hread by (done || lia). injection Hread as Hes.
  destruct (read_loop_prefix maxBytes (take (Z.to_nat maxEntries) (journal_entries s)) [] 0)
    as (n0 & _ & Heq & _).
  rewrite Heq, take_take in Hes. cbn in Hes. set (n := (n0 `min` Z.to_nat maxEntries)%nat) in Hes.
  symmetry in Hes.
  rewrite Hes, last_entry_of in Hlast. apply fmap_Some in Hlast as (r & Hr & ->).
  assert (Hseq : Seq (entry_of r) = jr_seq r).
  { apply u64_id. eapply wf_row_u64; [exact Hwf|]. eapply subseteq_take, last_Some_elem_of, Hr. }
  rewrite Hseq, (Ack_run _ _ _ _ Hwf Hr). rewrite Hes, length_fmap, length_take.
  destruct (decide (n <= length (journal_entries s))%nat) as [Hn|Hn].
  - rewrite Nat.min_l by lia. reflexivity.
  - rewrite Nat.min_r by lia. rewrite !drop_ge by lia. reflexivity.
Qed.

Lemma read_then_ack_drains_witness :
  Ack 1 (Db demo_jdb []) =
    (inr tt, Db (MkJdb [MkJRow 2 "evt_2" (demo_payload 3) 2] 2 1 ∅) []).
Proof.
  apply (read_then_ack_drains demo_config demo_jdb 1 5
           [MkEntry 1 "evt_1" (demo_payload 4) 1000000]
           (MkEntry 1 "evt_1" (demo_payload 4) 1000000) demo_jdb_wf);
    [split; vm_compute; reflexivity | lia | lia | vm_compute; reflexivity | reflexivity].
Defined.

(** Acknowledgements at or below the watermark are harmless and change
    nothing; one beyond every stored entry is rejected with [ErrUnknownAck]
    and changes nothing, so events appended later are never dropped by it. *)
Theorem ack_outside_window (cfg : Config) (s : jdb) (n : Z) :
  journal_wf cfg s ->
  (n <= acked_through s -> Ack n (Db s []) = (inr tt, Db s [])) /\
  (acked_through s < n -> Forall (fun r => jr_seq r < n) (journal_entries s) ->
   exists e, Ack n (Db s []) = (inl e, Db s []) /\ errors_is ErrUnknownAck e = true).
Proof.
  intros Hwf. pose proof (wf_mark _ _ Hwf) as [Hm1 Hm2]. split.
  - intros Hn. unfold Ack. run_db. rewrite (u64_id (acked_through s)) by (unfold in_u64; lia).
    rewrite (proj2 (Z.leb_le _ _)) by lia. reflexivity.
  - intros Hn HF. unfold Ack. run_db.
    assert (acked_through s <= max_seq (acked_through s) (journal_entries s) <= autoinc s
            /\ max_seq (acked_through s) (journal_entries s) <= n - 1) as [Hb Hlt].
    { repeat split.
      - destruct (journal_entries s) as [|r l] eqn:He; [reflexivity|].
        pose proof (max_seq_ge (acked_through s) (r :: l) r ltac:(left)).
        pose proof (wf_window _ _ Hwf) as Hw. rewrite He in Hw.
        apply Forall_cons in Hw as [Hw _]. lia.
      - apply max_seq_bound; [lia|]. eapply Forall_impl; [apply (wf_window _ _ Hwf)|]. cbn. lia.
      - apply max_seq_bound; [lia|]. eapply Forall_impl; [exact HF|]. cbn. lia. }
    rewrite (u64_id (acked_through s)), (proj2 (Z.leb_gt _ _)) by (unfold in_u64; lia). run_db.
    rewrite (u64_id (max_seq _ _)), (proj2 (Z.ltb_lt _ _)) by (unfold in_u64; lia). run_db.
    eexists. split; reflexivity.
Qed.

Lemma ack_outside_window_witness :
  (0 <= acked_through demo_jdb -> Ack 0 (Db demo_jdb []) = (inr tt, Db demo_jdb [])) /\
  exists e, Ack 3 (Db demo_jdb []) = (inl e, Db demo_jdb []) /\ errors_is ErrUnknownAck e = true.
Proof.
  split.
  - apply (ack_outside_window demo_config demo_jdb 0 demo_jdb_wf).
  - apply (ack_outside_window demo_config demo_jdb 3 demo_jdb_wf); [reflexivity|].
    apply (bool_decide_unpack _). vm_compute. exact I.
Defined.

(** ** Properties of the command-result ledger *)

(** A stored result survives any operation but an expiry. *)
Lemma SaveCommandResult_keeps_row c id row :
  respects (on_rows (fun s s' => command_results s !! id = Some row ->
                                 command_results s' !! id = Some row)) (SaveCommandResult c).
Proof.
  unfold SaveCommandResult.
  repeat case_match; try (apply respects_throw; intros ?; unfold on_rows; tauto).
  apply respects_map_err, respects_exec; [intros ?; tauto|].
  intros s Hs. cbn. destruct (command_results s !! c_CommandID c) eqn:Hc; [exact Hs|]. cbn.
  rewrite lookup_insert_ne; [exact Hs | congruence].
Qed.

(** The row [SaveCommandResult] writes for a new command. *)
Definition cmd_row_of (c : CommandResult) : CmdRow := {|
  cr_session_id := c_SessionID c;
  cr_status := c_Status c;
  cr_wa_message_id := c_WAMessageID c;
  cr_error := c_Error c;
  cr_updated_at := UnixMilli (c_UpdatedAt c);
  cr_expires_at := UnixMilli (c_UpdatedAt c + CommandResultRetention);
|}.

Lemma SaveCommandResult_returns c d d' :
  SaveCommandResult c d = (inr tt, d') ->
  c_CommandID c <> "" /\
  (command_results (rows d) !! c_CommandID c = None ->
   command_results (rows d') !! c_CommandID c = Some (cmd_row_of c)).
Proof.
  unfold SaveCommandResult.
  destruct (bool_decide (c_CommandID c = "")) eqn:Hid; [discriminate|]. to_prop.
  repeat case_match; try discriminate. intros Hrun. run_inv. split; [exact Hid|].
  intros Hnone. same_rows. rewrite Hnone. cbn. apply lookup_insert_eq.
Qed.

(** Results are immutable once recorded: after a successful save of a new
    command id, a repeated save of that id, with any outcome and whether or not
    SQLite fails, leaves the first terminal result in place, and [LookupCommand]
    returns it (with its time at the stored millisecond resolution). *)
Theorem command_result_first_wins (c c2 : CommandResult) (d d1 : db jdb)
  (fs : list (option goerr)) :
  SaveCommandResult c d = (inr tt, d1) ->
  command_results (rows d) !! c_CommandID c = None ->
  let d2 := (SaveCommandResult c2 (Db (rows d1) fs)).2 in
  LookupCommand (c_CommandID c) (Db (rows d2) []) =
    (inr (Some (MkCommandResult (c_CommandID c) (c_SessionID c) (c_Status c)
                  (c_WAMessageID c) (c_Error c)
                  (FromUnixMilli (UnixMilli (c_UpdatedAt c))))), Db (rows d2) []).
Proof.
  intros Hsave Hnone d2. apply SaveCommandResult_returns in Hsave as [Hid Hrow].
  specialize (Hrow Hnone).
  assert (Hrow2 : command_results (rows d2) !! c_CommandID c = Some (cmd_row_of c)).
  { exact (SaveCommandResult_keeps_row c2 _ _ (Db (rows d1) fs) _ _ (surjective_pairing _) Hrow). }
  unfold LookupCommand. rewrite bool_decide_eq_false_2 by exact Hid. run_db.
  change (match d2 with Db r _ => r end) with (rows d2). rewrite Hrow2. reflexivity.
Qed.

Definition demo_sent : CommandResult :=
  MkCommandResult "cmd_1" "sess_1" CommandSent "3EB0AA" "" 1500000000.
Definition demo_failed : CommandResult :=
  MkCommandResult "cmd_1" "sess_1" CommandFailed "" "boom" 2500000000.

Lemma command_result_first_wins_witness :
  let d1 := (SaveCommandResult demo_sent (Db empty_jdb [])).2 in
  let d2 := (SaveCommandResult demo_failed (Db (rows d1) [])).2 in
  LookupCommand "cmd_1" (Db (rows d2) []) =
    (inr (Some (MkCommandResult "cmd_1" "sess_1" CommandSent "3EB0AA" "" 1500000000)),
     Db (rows d2) []).
Proof.
  apply (command_result_first_wins demo_sent demo_failed (Db empty_jdb [])
           (SaveCommandResult demo_sent (Db empty_jdb [])).2 []);
    vm_compute; reflexivity.
Defined.

(** Pruning removes exactly the results whose retention has run out: a
    result saved at [t] is still found by every lookup until seven days after
    [t], and is gone once the clock passes that instant. *)
Theorem prune_commands_retention (s : jdb) (now : GoTime) (id : string) :
  exists s', PruneCommands now (Db s []) = (inr tt, Db s' []) /\
    journal_entries s' = journal_entries s /\
    command_results s' !! id =
      match command_results s !! id with
      | Some r => if cr_expires_at r <? UnixMilli now then None else Some r
      | None => None
      end.
Proof.
  eexists. split; [reflexivity|]. split; [reflexivity|]. cbn.
  destruct (command_results s !! id) as [r|] eqn:Hr.
  - destruct (cr_expires_at r <? UnixMilli now) eqn:Hx; to_prop.
    + apply map_lookup_filter_None. right. intros r' Hr' Hn. simplify_eq. auto.
    + apply map_lookup_filter_Some. split; [exact Hr | lia].
  - apply map_lookup_filter_None. by left.
Qed.

(** ** Properties of the capacity states and of opening *)

Definition severity (c : CapacityState) : Z :=
  match c with
  | CapacityHealthy => 0
  | CapacityDegraded => 1
  | CapacityPaused => 2
  | CapacityCritical => 3
  end.

(** The configurations [normalized] accepts. *)
Lemma normalized_thresholds c v cfg :
  normalized c v = inr cfg ->
  0 < DegradedAt cfg < PauseAt cfg /\ PauseAt cfg < CriticalAt cfg < 100.
Proof. unfold normalized. repeat split_if; intros [= <-]; to_prop; cbn in *. lia. Qed.

Lemma percent_small cfg b :
  0 < MaxBytes cfg -> 0 <= b <= MaxBytes cfg -> MaxBytes cfg * 100 < 2 ^ 63 ->
  i64 (Z.quot (i64 (b * 100)) (MaxBytes cfg)) = (b * 100) / MaxBytes cfg.
Proof.
  intros Hm Hb Hcap. rewrite (i64_id (b * 100)) by (unfold in_i64; lia).
  rewrite Z.quot_div_nonneg by lia. apply i64_id. unfold in_i64.
  pose proof (Z.div_pos (b * 100) (MaxBytes cfg) ltac:(lia) Hm).
  assert ((b * 100) / MaxBytes cfg <= b * 100) by (apply Z.div_le_upper_bound; nia). lia.
Qed.

(** Under an accepted configuration whose cap does not overflow the
    percentage, the capacity state never improves as the stored bytes grow, an
    empty journal is healthy and a full one is critical. *)
Theorem capacity_state_monotone (c : Config) (v : Z) (cfg : Config) (b1 b2 : Z) :
  normalized c v = inr cfg -> MaxBytes cfg * 100 < 2 ^ 63 ->
  0 <= b1 <= b2 -> b2 <= MaxBytes cfg ->
  severity (stateFor b1 cfg) <= severity (stateFor b2 cfg) /\
  stateFor 0 cfg = CapacityHealthy /\ stateFor (MaxBytes cfg) cfg = CapacityCritical.
Proof.
  intros Hn Hcap Hb1 Hb2.
  pose proof (normalized_cap_ok _ _ _ Hn) as [Hm _].
  pose proof (normalized_thresholds _ _ _ Hn) as [Ht1 Ht2].
  unfold stateFor. rewrite !percent_small by lia.
  pose proof (Z.div_le_mono (b1 * 100) (b2 * 100) (MaxBytes cfg) Hm ltac:(lia)).
  rewrite (Z.mul_comm (MaxBytes cfg) 100), Z.div_mul, Z.div_0_l by lia.
  repeat split.
  - repeat split_if; to_prop; cbn; lia.
  - repeat split_if; to_prop; (reflexivity || lia).
  - repeat split_if; to_prop; (reflexivity || lia).
Qed.

Lemma capacity_state_monotone_witness :
  severity (stateFor 70 demo_config) <= severity (stateFor 95 demo_config) /\
  stateFor 0 (MkConfig 100 1000 25 70 80 90) = CapacityHealthy /\
  stateFor 100 (MkConfig 100 1000 25 70 80 90) = CapacityCritical.
Proof.
  split; [vm_compute; discriminate|].
  apply (capacity_state_monotone (MkConfig 100 1000 25 70 80 90) 1000
           (MkConfig 100 1000 25 70 80 90) 70 95); vm_compute; (reflexivity || intuition discriminate).
Defined.

(** [Open] hands out a journal only for an absolute path to a regular (or
    new) file that passed SQLite's quick check and a configuration within its
    bounds; it keeps an existing file's entries, watermark and command results
    as they were, so reopening preserves the journal invariant. *)
Theorem open_verifies_and_keeps (path : string) (c cfg : Config) (env : open_env)
  (file : option jdb) (s : jdb) :
  Open path c env file = inr (cfg, s) ->
  IsAbs path = true /\ env_quick_check env = inr "ok" /\
  (env_stat env = StatRegular \/ env_stat env = StatNotExist) /\
  cap_ok cfg /\ s = default empty_jdb file /\
  (from_option (journal_wf cfg) True file -> journal_wf cfg s).
Proof.
  unfold Open. destruct (bool_decide _ || negb (IsAbs path)) eqn:Hp; [discriminate|]. to_prop.
  destruct (env_mkdir env); [discriminate|].
  destruct (env_volume env) as [|volume]; [discriminate|].
  destruct (normalized c volume) as [|cfg'] eqn:Hn; [discriminate|].
  unfold integrityCheck.
  destruct (env_stat env) eqn:Hst; try discriminate;
    destruct (env_quick_check env) as [|result]; try discriminate;
    destruct (bool_decide (result = "ok")) eqn:Hok; try discriminate;
    destruct (env_schema env); try discriminate;
    destruct (env_history_schema env); try discriminate;
    intros [= <- <-]; to_prop; subst;
    pose proof (normalized_cap_ok _ _ _ Hn) as Hcap;
    (split; [assumption|]; split; [reflexivity|]; split; [tauto|]; split; [exact Hcap|];
     split; [reflexivity|]; destruct file; [by cbn | intros _; by apply empty_jdb_wf]).
Qed.

Lemma open_verifies_and_keeps_witness :
  let env := MkOpenEnv None (inr 1000) StatRegular (inr "ok") None None in
  Open "/var/lib/gw/journal.db" demo_config env (Some demo_jdb) = inr (demo_config, demo_jdb) /\
  IsAbs "/var/lib/gw/journal.db" = true.
Proof.
  split; [vm_compute; reflexivity|].
  apply (open_verifies_and_keeps "/var/lib/gw/journal.db" demo_config demo_config
           (MkOpenEnv None (inr 1000) StatRegular (inr "ok") None None) (Some demo_jdb) demo_jdb).
  vm_compute. reflexivity.
Defined.
