(* ===== verification/Domain.v ===== *)
(** * The domain vocabulary

    Models [internal/domain]: the API error envelope ([errors.go]), the status
    enumerations ([enums.go]), the event envelope and the bulk-event rule
    ([event.go]), the unified send body ([send.go]), the outbox row
    ([entities.go]) and the pure identifier helpers ([ids.go]). Optional Go
    pointers are [option], JSON documents are [json], [float64] is
    [spec_float]. *)

From S2P Require Import Prelude.
From Stdlib Require Export Floats.SpecFloat.

#[local] Set Warnings "-register-all".

(** ** errors.go *)

Definition CodeRateLimited : string := "rate_limited".
Definition CodeNotFound : string := "not_found".
Definition CodeUnauthorized : string := "unauthorized".
Definition CodeForbidden : string := "forbidden".
Definition CodeValidationError : string := "validation_error".
Definition CodeConflict : string := "conflict".
Definition CodeNotImplemented : string := "not_implemented".
Definition CodeUnavailable : string := "gateway_unavailable".
Definition CodeInternal : string := "internal".

Definition NewAPIError (code message : string) : goerr := ErrAPI code message.
Definition ErrRateLimited (msg : string) : goerr := NewAPIError CodeRateLimited msg.
Definition ErrNotFound (msg : string) : goerr := NewAPIError CodeNotFound msg.
Definition ErrUnauthorized (msg : string) : goerr := NewAPIError CodeUnauthorized msg.
Definition ErrForbidden (msg : string) : goerr := NewAPIError CodeForbidden msg.
Definition ErrValidation (msg : string) : goerr := NewAPIError CodeValidationError msg.
Definition ErrConflict (msg : string) : goerr := NewAPIError CodeConflict msg.
Definition ErrNotImplemented (msg : string) : goerr := NewAPIError CodeNotImplemented msg.
Definition ErrUnavailable (msg : string) : goerr := NewAPIError CodeUnavailable msg.
Definition ErrInternal (msg : string) : goerr := NewAPIError CodeInternal msg.

(** ** enums.go *)

Inductive SessionStatus :=
  | SessionStarting | SessionScanQR | SessionWorking
  | SessionFailed | SessionStopped | SessionLoggedOut.

Definition statusNameMap : list (string * SessionStatus) := [
  ("STARTING", SessionStarting);
  ("SCAN_QR_CODE", SessionScanQR);
  ("WORKING", SessionWorking);
  ("FAILED", SessionFailed);
  ("STOPPED", SessionStopped);
  ("LOGGED_OUT", SessionLoggedOut)].

Definition SessionStatusFromName (name : string) : option SessionStatus :=
  snd <$> (snd <$> list_find (fun p => p.1 = name) statusNameMap).

Definition GatewayPendingEnrollment : string := "pending_enrollment".
Definition GatewayJoining : string := "joining".
Definition GatewayActive : string := "active".
Definition GatewayDraining : string := "draining".
Definition GatewayDrained : string := "drained".
Definition GatewayDegraded : string := "degraded".
Definition GatewayDisabled : string := "disabled".
Definition GatewayUnreachable : string := "unreachable".

(** [GatewayStatus.Valid]. *)
Definition GatewayStatusValid (s : string) : bool :=
  bool_decide (s ∈ [GatewayPendingEnrollment; GatewayJoining; GatewayActive; GatewayDraining;
                    GatewayDrained; GatewayDegraded; GatewayDisabled]).

Inductive MessageStatus :=
  | MessagePending | MessageSent | MessageDelivered | MessageRead
  | MessagePlayed | MessageFailed | MessageUnknown.

Inductive WebhookDeliveryStatus :=
  | DeliveryPending | DeliveryDelivered | DeliveryFailed | DeliveryDead.

Inductive OutboxStatus :=
  | OutboxQueued | OutboxSending | OutboxSent | OutboxFailed | OutboxUnknown.

#[export] Instance SessionStatus_eq_dec : EqDecision SessionStatus.
Proof. solve_decision. Defined.
#[export] Instance MessageStatus_eq_dec : EqDecision MessageStatus.
Proof. solve_decision. Defined.
#[export] Instance WebhookDeliveryStatus_eq_dec : EqDecision WebhookDeliveryStatus.
Proof. solve_decision. Defined.
#[export] Instance OutboxStatus_eq_dec : EqDecision OutboxStatus.
Proof. solve_decision. Defined.

(** ** JSON documents *)

Inductive json :=
  | JNull
  | JBool (b : bool)
  | JNum (z : Z)
  | JStr (s : string)
  | JArr (l : list json)
  | JObj (fields : list (string * json)).

(** [m[key] = v] on a decoded object. *)
Definition obj_set (key : string) (v : json) (fields : list (string * json))
  : list (string * json) :=
  filter (fun p => p.1 <> key) fields ++ [(key, v)].

Definition obj_get (key : string) (fields : list (string * json)) : option json :=
  snd <$> (snd <$> list_find (fun p => p.1 = key) fields).

Lemma obj_get_set key v fields : obj_get key (obj_set key v fields) = Some v.
Proof.
  unfold obj_get, obj_set. rewrite list_find_app_r.
  - cbn. by rewrite decide_True.
  - apply list_find_None, Forall_forall. by intros p [Hp _]%list_elem_of_filter.
Qed.

(** ** event.go *)

Definition Schema : string := "v1".

Record Event := MkEvent {
  ev_MediaSource : string;
  ev_Schema : string;
  ev_ID : string;
  ev_Type : string;
  ev_Session : string;
  ev_Organization : string;
  ev_Timestamp : Z;
  ev_Payload : json;
}.

Definition EventMessageFromMe : string := "message.from_me".
Definition EventHistorySync : string := "history.sync".
Definition EventHistoryBatch : string := "history.batch".

Definition IsBulkEvent (eventType : string) : bool :=
  bool_decide (eventType = EventHistoryBatch).

(** [NewEvent]; the fresh id and the clock are arguments. *)
Definition NewEvent (newID : string) (nowMs : Z) (typ session organization : string)
  (payload : json) : Event := {|
  ev_MediaSource := "";
  ev_Schema := Schema;
  ev_ID := newID;
  ev_Type := typ;
  ev_Session := session;
  ev_Organization := organization;
  ev_Timestamp := nowMs;
  ev_Payload := payload;
|}.

(** ** ids.go *)

Definition phoneJIDSuffix : string := "@s.whatsapp.net".

(** [strings.CutSuffix]. *)
Definition CutSuffix (s suffix : string) : option string :=
  let n := (String.length s - String.length suffix)%nat in
  if bool_decide ((String.length suffix <= String.length s)%nat) &&
     String.eqb (String.substring n (String.length suffix) s) suffix
  then Some (String.substring 0 n s) else None.

Definition PhoneFromJID (jid : string) : option string :=
  match CutSuffix jid phoneJIDSuffix with
  | Some user => if bool_decide (user = "") then None else Some user
  | None => None
  end.

Definition clampIDTime (timestampMs : Z) (now : GoTime) : Z :=
  let nowMs := UnixMilli now in
  if (timestampMs <=? 0) || (nowMs <? timestampMs) then u64 nowMs else u64 timestampMs.

(** ** send.go *)

Definition SendTypeButtons : string := "buttons".
Definition SendTypeList : string := "list".
Definition SendTypeText : string := "text".
Definition SendTypePoll : string := "poll".
Definition SendTypeLocation : string := "location".
Definition SendTypeContact : string := "contact".
Definition SendTypeImage : string := "image".
Definition SendTypeVideo : string := "video".
Definition SendTypeAudio : string := "audio".
Definition SendTypeDocument : string := "document".
Definition SendTypeSticker : string := "sticker".
Definition SendTypeAlbum : string := "album".

Record MediaPayload := MkMediaPayload {
  mp_Data : string; mp_URL : string; mp_Mimetype : string;
  mp_Caption : string; mp_Filename : string;
}.

Record ContactCard := MkContactCard { cc_Name : string; cc_Phone : string; cc_VCard : string }.

Record SendQuoteContext := MkSendQuoteContext {
  qc_ChatJID : string; qc_SenderJID : string; qc_Type : string; qc_Body : string; qc_FromMe : bool;
}.

Record AlbumMediaPayload := MkAlbumMediaPayload {
  am_Type : string; am_Data : string; am_URL : string; am_Mimetype : string;
}.

Record ReplyButton := MkReplyButton {
  rb_Kind : string; rb_ID : string; rb_Title : string; rb_URL : string; rb_Code : string;
}.

Record ListRow := MkListRow { lr_ID : string; lr_Title : string; lr_Description : string }.
Record ListSection := MkListSection { ls_Title : string; ls_Rows : list ListRow }.
Record SelectionList := MkSelectionList { sl_Title : string; sl_Sections : list ListSection }.

Record SendRequest := MkSendRequest {
  sr_Type : string;
  sr_To : string;
  sr_ExpiresAt : option Z;
  sr_Text : string;
  sr_ReplyTo : string;
  sr_Mentions : list string;
  sr_QuoteContext : option SendQuoteContext;
  sr_Buttons : list ReplyButton;
  sr_List : option SelectionList;
  sr_Footer : string;
  sr_HeaderImage : option MediaPayload;
  sr_Name : string;
  sr_Options : list string;
  sr_SelectableCount : Z;
  sr_PollEndTime : Z;
  sr_PollHideVotes : bool;
  sr_Latitude : spec_float;
  sr_Longitude : spec_float;
  sr_Contact : option ContactCard;
  sr_Media : option MediaPayload;
  sr_Medias : list AlbumMediaPayload;
  sr_Caption : string;
}.

(** The zero value of the struct with its two required fields. *)
Definition blank_request (typ to : string) : SendRequest :=
  MkSendRequest typ to None "" "" [] None [] None "" None "" [] 0 0 false
    (S754_zero false) (S754_zero false) None None [] "".

(** ** entities.go *)

(** The session columns the outbound path reads. *)
Record WASession := MkWASession {
  ws_ID : string;
  ws_OrganizationID : string;
  ws_RatePerMin : Z;
  ws_RatePerHour : Z;
}.

(** [domain.OutboxEntry], the payload being the stored bytes. *)
Record OutboxEntry := MkOutboxEntry {
  ob_ID : string;
  ob_OrganizationID : string;
  ob_SessionID : string;
  ob_IdempotencyKey : option string;
  ob_Payload : list byte;
  ob_Status : OutboxStatus;
  ob_Attempts : Z;
  ob_NextAttemptAt : Z;
  ob_ExpiresAt : option Z;
  ob_AcknowledgedAt : option Z;
  ob_EffectPossible : bool;
  ob_WAMessageID : option string;
  ob_Error : option string;
  ob_TerminalAt : option Z;
  ob_CreatedAt : Z;
  ob_UpdatedAt : Z;
}.

(** ** Properties *)

(** A message imported with any timestamp gets an identifier time that is
    never in the future: it is the message's own time when that is positive
    and not later than the clock, and the clock otherwise, so importing old
    history can only sort before, never after, what arrives live later. *)
Theorem clamp_id_time_bounded (timestampMs : Z) (now : GoTime) :
  in_u64 (UnixMilli now) ->
  0 <= clampIDTime timestampMs now <= UnixMilli now /\
  (0 < timestampMs <= UnixMilli now -> clampIDTime timestampMs now = timestampMs) /\
  (timestampMs <= 0 \/ UnixMilli now < timestampMs ->
   clampIDTime timestampMs now = UnixMilli now).
Proof.
  unfold in_u64. intros Hn. unfold clampIDTime.
  destruct ((timestampMs <=? 0) || (UnixMilli now <? timestampMs)) eqn:Hc.
  - rewrite u64_id by (unfold in_u64; lia). apply orb_true_iff in Hc as [Hc|Hc]; to_prop;
      repeat split; intros; lia.
  - to_prop. rewrite u64_id by (unfold in_u64; lia). repeat split; intros; lia.
Qed.

Lemma clamp_id_time_bounded_witness :
  0 <= clampIDTime 5000 1791158400000000000 <= 1791158400000 /\
  clampIDTime 5000 1791158400000000000 = 5000.
Proof.
  pose proof (clamp_id_time_bounded 5000 1791158400000000000
                ltac:(unfold in_u64; vm_compute; intuition discriminate)) as H.
  split; [apply H|]. apply H. vm_compute. intuition discriminate.
Defined.
