(* ===== verification/Wire.v ===== *)
(** * The private control-stream messages

    The messages of [proto/gateway/v1/gateway_control.proto] the modelled code
    builds and reads, as the records the generated Go structs are. *)

From S2P Require Import Prelude Journal.

Inductive SessionDesiredAction :=
  | SESSION_DESIRED_ACTION_UNKNOWN
  | SESSION_DESIRED_ACTION_RUN
  | SESSION_DESIRED_ACTION_STOP.

#[export] Instance SessionDesiredAction_eq_dec : EqDecision SessionDesiredAction.
Proof. solve_decision. Defined.

Record SessionConfig := MkSessionConfig {
  sc_revision : Z;
  sc_auto_read : bool;
  sc_presence_typing : bool;
  sc_rate_per_min : Z;
  sc_rate_per_hour : Z;
  sc_history_sync_days : Z;
}.

Record SessionAssignment := MkSessionAssignment {
  sa_session_id : string;
  sa_organization_id : string;
  sa_assignment_epoch : Z;
  sa_lease_expires_at_unix_ms : Z;
  sa_config : option SessionConfig;
  sa_device_jid : option string;
  sa_desired_action : SessionDesiredAction;
}.

Record DesiredStateSnapshot := MkDesiredStateSnapshot {
  ds_revision : Z;
  ds_assignments : list SessionAssignment;
}.

Record GatewayEvent := MkGatewayEvent {
  ge_JournalSequence : Z;
  ge_EventId : string;
  ge_GatewayId : string;
  ge_ConnectionEpoch : Z;
  ge_AssignmentEpoch : Z;
  ge_SessionId : string;
  ge_OrganizationId : string;
  ge_EventType : string;
  ge_OccurredAtUnixMs : Z;
  ge_Payload : bytes;
}.

Inductive ReconciliationResultStatus :=
  | RECONCILIATION_RESULT_STATUS_UNKNOWN
  | RECONCILIATION_RESULT_STATUS_APPLIED
  | RECONCILIATION_RESULT_STATUS_KEYSTORE_MISSING
  | RECONCILIATION_RESULT_STATUS_KEYSTORE_CORRUPT
  | RECONCILIATION_RESULT_STATUS_UNEXPECTED_LOCAL_DEVICE
  | ReconciliationResultStatus_unnamed (n : Z).

#[export] Instance ReconciliationResultStatus_eq_dec : EqDecision ReconciliationResultStatus.
Proof. solve_decision. Defined.

Record ReconciliationResult := MkReconciliationResult {
  rr_session_id : option string;
  rr_assignment_epoch : Z;
  rr_device_jid : string;
  rr_status : ReconciliationResultStatus;
}.

Inductive KeystoreHealthState :=
  | KEYSTORE_HEALTH_STATE_UNKNOWN
  | KEYSTORE_HEALTH_STATE_HEALTHY
  | KEYSTORE_HEALTH_STATE_MISSING
  | KEYSTORE_HEALTH_STATE_CORRUPT
  | KeystoreHealthState_unnamed (n : Z).

Record DesiredStateReport := MkDesiredStateReport {
  dr_connection_epoch : Z;
  dr_processed_revision : Z;
  dr_keystore_health : KeystoreHealthState;
  dr_local_devices : list string;
  dr_results : list ReconciliationResult;
}.

(** ** Control frames

    Proto3 enumerations are open: the last constructor of each carries a number
    the schema does not name. *)

Inductive GatewayRuntimeState :=
  | GATEWAY_RUNTIME_STATE_UNKNOWN
  | GATEWAY_RUNTIME_STATE_STARTING
  | GATEWAY_RUNTIME_STATE_READY
  | GATEWAY_RUNTIME_STATE_DRAINING
  | GATEWAY_RUNTIME_STATE_DRAINED
  | GATEWAY_RUNTIME_STATE_DEGRADED
  | GatewayRuntimeState_unnamed (n : Z).

Inductive GatewayCapability :=
  | GATEWAY_CAPABILITY_UNKNOWN
  | GATEWAY_CAPABILITY_SESSION_ENGINE
  | GATEWAY_CAPABILITY_EVENT_STREAM
  | GATEWAY_CAPABILITY_COMMAND_EXECUTION
  | GatewayCapability_unnamed (n : Z).

Inductive LifecycleFailure :=
  | LIFECYCLE_FAILURE_UNKNOWN
  | LIFECYCLE_FAILURE_NONE
  | LIFECYCLE_FAILURE_BUSY
  | LIFECYCLE_FAILURE_TIMEOUT
  | LIFECYCLE_FAILURE_INTERNAL
  | LifecycleFailure_unnamed (n : Z).

Inductive LifecycleDirectiveAction :=
  | LIFECYCLE_DIRECTIVE_ACTION_UNKNOWN
  | LIFECYCLE_DIRECTIVE_ACTION_RUN
  | LIFECYCLE_DIRECTIVE_ACTION_DRAIN
  | LIFECYCLE_DIRECTIVE_ACTION_DISABLE
  | LifecycleDirectiveAction_unnamed (n : Z).

Inductive GatewayJournalState :=
  | GATEWAY_JOURNAL_STATE_UNKNOWN
  | GATEWAY_JOURNAL_STATE_HEALTHY
  | GATEWAY_JOURNAL_STATE_DEGRADED
  | GATEWAY_JOURNAL_STATE_PAUSED
  | GATEWAY_JOURNAL_STATE_CRITICAL
  | GatewayJournalState_unnamed (n : Z).

#[export] Instance GatewayRuntimeState_eq_dec : EqDecision GatewayRuntimeState.
Proof. solve_decision. Defined.
#[export] Instance GatewayCapability_eq_dec : EqDecision GatewayCapability.
Proof. solve_decision. Defined.
#[export] Instance LifecycleFailure_eq_dec : EqDecision LifecycleFailure.
Proof. solve_decision. Defined.
#[export] Instance LifecycleDirectiveAction_eq_dec : EqDecision LifecycleDirectiveAction.
Proof. solve_decision. Defined.
#[export] Instance GatewayJournalState_eq_dec : EqDecision GatewayJournalState.
Proof. solve_decision. Defined.

Record GatewayHello := MkGatewayHello {
  gh_InstanceId : string;
  gh_SoftwareVersion : string;
  gh_Capabilities : list GatewayCapability;
  gh_GrpcEndpoint : option string;
  gh_StartedAtUnixMs : Z;
  gh_SessionCount : Z;
  gh_RuntimeState : GatewayRuntimeState;
  gh_HttpBaseUrl : option string;
}.

Record GatewayHeartbeat := MkGatewayHeartbeat {
  hb_ConnectionEpoch : Z;
  hb_LastControlSequence : Z;
  hb_SentAtUnixMs : Z;
  hb_SessionCount : Z;
  hb_RuntimeState : GatewayRuntimeState;
  hb_JournalState : GatewayJournalState;
  hb_JournalEntries : Z;
  hb_JournalBytes : Z;
}.

Record GatewayLifecycleReport := MkGatewayLifecycleReport {
  lr_ConnectionEpoch : Z;
  lr_DirectiveId : string;
  lr_State : GatewayRuntimeState;
  lr_Failure : LifecycleFailure;
}.

(** The keystore health and its optional measurements. *)
Record KeystoreHealth := MkKeystoreHealth {
  kh_State : KeystoreHealthState;
  kh_ByteSize : option Z;
  kh_LastCheckedAtUnixMs : option Z;
}.

(** A [DesiredStateReport] as received: message fields may be absent. *)
Record ReceivedReport := MkReceivedReport {
  rp_ConnectionEpoch : Z;
  rp_ProcessedRevision : Z;
  rp_KeystoreHealth : option KeystoreHealth;
  rp_LocalDevices : list string;
  rp_Results : list ReconciliationResult;
}.

(** The oneof of a gateway frame; a case whose message is nil is [None]. *)
Inductive GatewayPayload :=
  | GatewayFrame_Hello (hello : option GatewayHello)
  | GatewayFrame_Heartbeat (heartbeat : option GatewayHeartbeat)
  | GatewayFrame_LifecycleReport (report : option GatewayLifecycleReport)
  | GatewayFrame_DesiredStateReport (report : option ReceivedReport)
  | GatewayFrame_EventBatch (events : option (list (option GatewayEvent))).

Record GatewayFrame := MkGatewayFrame {
  gf_ProtocolVersion : Z;
  gf_Sequence : Z;
  gf_Payload : option GatewayPayload;
}.

Record ControlWelcome := MkControlWelcome {
  cw_ConnectionId : string;
  cw_ConnectionEpoch : Z;
  cw_HeartbeatIntervalMs : Z;
  cw_LeaseTimeoutMs : Z;
  cw_DesiredLifecycle : LifecycleDirectiveAction;
  cw_ServerTimeUnixMs : Z;
}.

Inductive LifecycleDirectiveReason :=
  | LIFECYCLE_DIRECTIVE_REASON_UNKNOWN
  | LIFECYCLE_DIRECTIVE_REASON_OPERATOR
  | LIFECYCLE_DIRECTIVE_REASON_MAINTENANCE
  | LIFECYCLE_DIRECTIVE_REASON_CAPACITY
  | LIFECYCLE_DIRECTIVE_REASON_POLICY
  | LifecycleDirectiveReason_unnamed (n : Z).

#[export] Instance LifecycleDirectiveReason_eq_dec : EqDecision LifecycleDirectiveReason.
Proof. solve_decision. Defined.

Record LifecycleDirective := MkLifecycleDirective {
  ld_DirectiveId : string;
  ld_ConnectionEpoch : Z;
  ld_Action : LifecycleDirectiveAction;
  ld_DrainDeadlineUnixMs : option Z;
  ld_Reason : LifecycleDirectiveReason;
}.

(** The payloads of a control frame. *)
Inductive ControlPayload :=
  | ControlFrame_Welcome (welcome : ControlWelcome)
  | ControlFrame_LifecycleDirective (directive : LifecycleDirective)
  | ControlFrame_HeartbeatAck (acknowledgedGatewaySequence connectionEpoch serverTimeUnixMs : Z)
  | ControlFrame_DesiredStateSnapshot (snapshot : DesiredStateSnapshot)
  | ControlFrame_EventAck (acknowledgedJournalSequence : Z).

Record ControlFrame := MkControlFrame {
  cf_ProtocolVersion : Z;
  cf_Sequence : Z;
  cf_Payload : option ControlPayload;
}.
