(* ===== verification/JournalControl.v ===== *)
(** * The journal's control adapter and the event lane

    Models [internal/gateway/journal/control.go] ([ControlAdapter]) and the
    event lane of the control stream in
    [internal/gateway/controlsupervisor/supervisor.go] ([sendEventBatch],
    [handleEventAck] and the assignment updates around them). JSON decoding of
    stored payloads, [structpb] encoding and [proto.Size] are third-party
    code: they are the operations of the class [EventCodec]. *)

From S2P Require Import Prelude Journal Domain Wire.

Definition ErrControlEventTooLarge : goerr :=
  ErrMsg "gateway journal event exceeds control batch capacity".
Definition ErrProtocol : goerr := ErrMsg "control supervisor: protocol violation".

Record eventAssignment := MkEventAssignment {
  ea_organization : string;
  ea_epoch : Z;
}.

(** The in-memory half of [ControlAdapter]; [a_assignments] is [None] for the
    nil map of a connection without a snapshot. *)
Record ControlAdapter := MkControlAdapter {
  a_GatewayID : string;
  a_assignments : option (gmap string eventAssignment);
  a_revision : Z;
}.

Definition ResetDesiredAssignments (a : ControlAdapter) : ControlAdapter :=
  MkControlAdapter (a_GatewayID a) None (a_revision a).

(** The map built from a snapshot; a later item of the same session wins. *)
Definition snapshot_assignments (items : list SessionAssignment) : gmap string eventAssignment :=
  foldl (fun m item =>
    <[sa_session_id item := MkEventAssignment (sa_organization_id item) (sa_assignment_epoch item)]> m)
    ∅ items.

Definition SetDesiredAssignments (snapshot : DesiredStateSnapshot) (a : ControlAdapter)
  : ControlAdapter :=
  let assignments := snapshot_assignments (ds_assignments snapshot) in
  if ds_revision snapshot <? a_revision a then a
  else MkControlAdapter (a_GatewayID a) (Some assignments) (ds_revision snapshot).

(** The stored event together with the ownership epoch it was accepted under. *)
Record persistedEvent := MkPersistedEvent {
  pe_MediaSource : string;
  pe_Event : Event;
  pe_AssignmentEpoch : Z;
}.

Class EventCodec := {
  marshal_persisted : persistedEvent -> goerr + bytes;
  unmarshal_persisted : bytes -> goerr + persistedEvent;
  encode_struct : list (string * json) -> goerr + bytes;
  proto_Size : list GatewayEvent -> Z;
}.

(** [encoding/json] restores the persisted record it wrote; the event's own
    [MediaSource] has the tag ["-"] and is not part of the document. *)
Class EventCodecLaws (C : EventCodec) : Prop := {
  unmarshal_marshal p b :
    marshal_persisted p = inr b ->
    unmarshal_persisted b =
      inr (MkPersistedEvent (pe_MediaSource p)
             (MkEvent "" (ev_Schema (pe_Event p)) (ev_ID (pe_Event p)) (ev_Type (pe_Event p))
                (ev_Session (pe_Event p)) (ev_Organization (pe_Event p))
                (ev_Timestamp (pe_Event p)) (ev_Payload (pe_Event p)))
             (pe_AssignmentEpoch p));
  marshal_nonempty p b : marshal_persisted p = inr b -> b <> [];
}.

(** The JSON object of the public event envelope, by its struct tags. *)
Definition event_object (e : Event) : list (string * json) := [
  ("schema", JStr (ev_Schema e));
  ("id", JStr (ev_ID e));
  ("event", JStr (ev_Type e));
  ("session", JStr (ev_Session e));
  ("organization", JStr (ev_Organization e));
  ("timestamp", JNum (ev_Timestamp e));
  ("payload", ev_Payload e)].

(** [payload["_mediaSource"] = source] when the payload is an object. *)
Definition attach_media_source (source : string) (value : list (string * json))
  : list (string * json) :=
  if bool_decide (source = "") then value
  else match obj_get "payload" value with
       | Some (JObj payload) =>
           obj_set "payload" (JObj (obj_set "_mediaSource" (JStr source) payload)) value
       | _ => value
       end.

Section Codec.
Context `{C : EventCodec}.

Definition decodeJournalEvent (payload : bytes) : goerr + GatewayEvent :=
  match unmarshal_persisted payload with
  | inl err => inl (ErrWrap "decode journal event" err)
  | inr persisted =>
      let ev := pe_Event persisted in
      let missingIdentity := bool_decide (ev_ID ev = "") || (pe_AssignmentEpoch persisted =? 0) in
      let missingOwnership :=
        bool_decide (ev_Session ev = "") || bool_decide (ev_Organization ev = "") in
      if missingIdentity || missingOwnership then
        inl (ErrMsg "journal event is missing canonical assignment metadata")
      else
        let value := attach_media_source (pe_MediaSource persisted) (event_object ev) in
        match encode_struct value with
        | inl err => inl (ErrWrap "build normalized event payload" err)
        | inr encoded => inr {|
            ge_JournalSequence := 0;
            ge_EventId := "";
            ge_GatewayId := "";
            ge_ConnectionEpoch := 0;
            ge_AssignmentEpoch := pe_AssignmentEpoch persisted;
            ge_SessionId := ev_Session ev;
            ge_OrganizationId := ev_Organization ev;
            ge_EventType := ev_Type ev;
            ge_OccurredAtUnixMs := ev_Timestamp ev;
            ge_Payload := encoded;
          |}
        end
  end.

(** The ownership test of the batch loop; a nil map owns everything. *)
Definition event_owned (assignments : option (gmap string eventAssignment)) (event : GatewayEvent)
  : bool :=
  match assignments with
  | None => true
  | Some m =>
      match m !! ge_SessionId event with
      | None => false
      | Some assignment =>
          bool_decide (ea_organization assignment = ge_OrganizationId event) &&
          (ea_epoch assignment =? ge_AssignmentEpoch event)
      end
  end.

(** The fields the adapter fills in before sending. *)
Definition stamp_event (entry : Entry) (gatewayID : string) (connectionEpoch : Z)
  (event : GatewayEvent) : GatewayEvent := {|
  ge_JournalSequence := Seq entry;
  ge_EventId := EventID entry;
  ge_GatewayId := gatewayID;
  ge_ConnectionEpoch := connectionEpoch;
  ge_AssignmentEpoch := ge_AssignmentEpoch event;
  ge_SessionId := ge_SessionId event;
  ge_OrganizationId := ge_OrganizationId event;
  ge_EventType := ge_EventType event;
  ge_OccurredAtUnixMs := ge_OccurredAtUnixMs event;
  ge_Payload := ge_Payload event;
|}.

Fixpoint batch_loop (maxBytes : Z) (gatewayID : string) (connectionEpoch : Z)
  (metadata : bytes -> goerr + GatewayEvent) (assignments : option (gmap string eventAssignment))
  (entries : list Entry) (events : list GatewayEvent) : goerr + list GatewayEvent :=
  match entries with
  | [] => inr events
  | entry :: rest =>
      match metadata (Payload entry) with
      | inl decodeErr => inl decodeErr
      | inr event =>
          if negb (event_owned assignments event) then
            batch_loop maxBytes gatewayID connectionEpoch metadata assignments rest events
          else
            let events' := events ++ [stamp_event entry gatewayID connectionEpoch event] in
            if maxBytes <? proto_Size events' then
              if bool_decide (events = []) then inl ErrControlEventTooLarge else inr events
            else batch_loop maxBytes gatewayID connectionEpoch metadata assignments rest events'
      end
  end.

Definition batch (maxEntries maxBytes : Z) (gatewayID : string) (connectionEpoch : Z)
  (metadata : bytes -> goerr + GatewayEvent) (assignments : option (gmap string eventAssignment))
  : M (db jdb) (list GatewayEvent) :=
  entries ← ReadUnacked maxEntries maxBytes;
  events ← lift_result (batch_loop maxBytes gatewayID connectionEpoch metadata assignments entries []);
  match events, last entries, assignments with
  | [], Some e, Some _ => Ack (Seq e);; mret events
  | _, _, _ => mret events
  end.

(** [ControlAdapter.Batch]. *)
Definition Batch (maxEntries maxBytes : Z) (gatewayID : string) (connectionEpoch : Z)
  (metadata : bytes -> goerr + GatewayEvent) : M (db jdb) (list GatewayEvent) :=
  batch maxEntries maxBytes gatewayID connectionEpoch metadata None.

Definition AckEvents (sequence : Z) : M (db jdb) unit := Ack sequence.

Definition NextEventBatch (a : ControlAdapter) (epoch : Z) : M (db jdb) (list GatewayEvent) :=
  match a_assignments a with
  | None => mret []
  | Some _ =>
      batch DefaultBatchEntries DefaultBatchBytes (a_GatewayID a) epoch decodeJournalEvent
            (a_assignments a)
  end.

Definition AppendDomainEvent (cfg : Config) (event : Event) (assignmentEpoch : Z)
  : M (db jdb) (Entry * bool) :=
  match marshal_persisted (MkPersistedEvent (ev_MediaSource event) event assignmentEpoch) with
  | inl err => throw (ErrWrap "marshal normalized event" err)
  | inr payload => Append cfg (ev_ID event) payload (FromUnixMilli (ev_Timestamp event))
  end.

(** ** The event lane of one control connection *)

(** The part of [controlStream] that carries journal events, with the frames
    written to the peer. *)
Record lane := MkLane {
  ln_db : db jdb;
  ln_adapter : ControlAdapter;
  ln_eventInFlight : bool;
  ln_expectedEventAck : Z;
  ln_wire : list (list GatewayEvent);
}.

(** [sendEventBatch]; [sendErr] is the outcome of writing the frame. *)
Definition sendEventBatch (connectionEpoch : Z) (sendErr : option goerr) : M lane unit := fun l =>
  if ln_eventInFlight l then (inr tt, l)
  else match NextEventBatch (ln_adapter l) connectionEpoch (ln_db l) with
  | (inl err, d') =>
      (inl (ErrWrap "read journal batch" err),
       MkLane d' (ln_adapter l) false (ln_expectedEventAck l) (ln_wire l))
  | (inr events, d') =>
      match last events with
      | None => (inr tt, MkLane d' (ln_adapter l) false (ln_expectedEventAck l) (ln_wire l))
      | Some e =>
          match sendErr with
          | Some err =>
              (inl (ErrWrap "send journal batch" err),
               MkLane d' (ln_adapter l) false (ln_expectedEventAck l) (ln_wire l))
          | None =>
              (inr tt, MkLane d' (ln_adapter l) true (ge_JournalSequence e) (ln_wire l ++ [events]))
          end
      end
  end.

(** The acknowledgement half of [handleEventAck]. *)
Definition acceptEventAck (acknowledged : Z) : M lane unit := fun l =>
  if negb (ln_eventInFlight l) || negb (acknowledged =? ln_expectedEventAck l) then
    (inl (ErrWith ErrProtocol "event acknowledgement does not match in-flight batch"), l)
  else match AckEvents acknowledged (ln_db l) with
  | (inl err, d') =>
      (inl (ErrWrap "ack journal events" err),
       MkLane d' (ln_adapter l) (ln_eventInFlight l) (ln_expectedEventAck l) (ln_wire l))
  | (inr tt, d') => (inr tt, MkLane d' (ln_adapter l) false 0 (ln_wire l))
  end.

Definition handleEventAck (connectionEpoch acknowledged : Z) (sendErr : option goerr)
  : M lane unit :=
  acceptEventAck acknowledged;; sendEventBatch connectionEpoch sendErr.

(** ** What one batch contains *)

(** The events a batch makes of the entries it covers. *)
Definition owned_events (gatewayID : string) (connectionEpoch : Z)
  (metadata : bytes -> goerr + GatewayEvent) (assignments : option (gmap string eventAssignment))
  (entries : list Entry) : list GatewayEvent :=
  omap (fun e => match metadata (Payload e) with
                 | inr ev => if event_owned assignments ev
                             then Some (stamp_event e gatewayID connectionEpoch ev) else None
                 | inl _ => None
                 end) entries.

Lemma batch_loop_covers mb gid ep meta asg entries events0 evs :
  batch_loop mb gid ep meta asg entries events0 = inr evs ->
  exists k,
    evs = events0 ++ owned_events gid ep meta asg (take k entries) /\
    Forall (fun e => exists ev, meta (Payload e) = inr ev) (take k entries) /\
    ((k < length entries)%nat -> evs <> []).
Proof.
  revert events0. induction entries as [|e entries IH]; intros events0; cbn [batch_loop].
  { intros [= <-]. exists 0%nat. cbn. rewrite app_nil_r. split; [done|]. split; [constructor | lia]. }
  destruct (meta (Payload e)) as [|ev] eqn:Hm; [discriminate|].
  destruct (event_owned asg ev) eqn:Ho; cbn [negb].
  - destruct (_ <? _).
    + destruct (bool_decide (events0 = [])) eqn:Hn; [discriminate|]. intros [= <-].
      to_prop. exists 0%nat. cbn. rewrite app_nil_r. split; [done|]. split; [constructor | done].
    + intros (k & -> & HF & Hk)%IH. exists (S k). cbn [take]. unfold owned_events at 2. cbn.
      rewrite Hm, Ho. split; [by rewrite <- app_assoc|]. split; [by constructor; eauto|].
      intros _. by destruct events0.
  - intros (k & -> & HF & Hk)%IH. exists (S k). cbn [take]. unfold owned_events at 2. cbn.
    rewrite Hm, Ho. split; [done|]. split; [by constructor; eauto|]. intros Hlt. apply Hk. lia.
Qed.

(** An event of the batch stands for a row of the journal. *)
Definition carries (ev : GatewayEvent) (r : JRow) : Prop :=
  ge_JournalSequence ev = jr_seq r /\ ge_EventId ev = jr_event_id r.

(** The row was not owned under the assignments [asg]. *)
Definition unowned (asg : gmap string eventAssignment) (r : JRow) : Prop :=
  exists ev, decodeJournalEvent (jr_payload r) = inr ev /\ event_owned (Some asg) ev = false.

(** The snapshot assigns a session to an organization under an epoch: its last
    item for the session says so. *)
Definition assigned (snapshot : DesiredStateSnapshot) (session organization : string) (epoch : Z) : Prop :=
  exists item, last (List.filter (fun i => bool_decide (sa_session_id i = session)) (ds_assignments snapshot)) = Some item /\
    sa_organization_id item = organization /\ sa_assignment_epoch item = epoch.

(** The snapshot omits the assignment the stored event was accepted under. *)
Definition retires (snapshot : DesiredStateSnapshot) (r : JRow) : Prop :=
  exists p, unmarshal_persisted (jr_payload r) = inr p /\
    ~ assigned snapshot (ev_Session (pe_Event p)) (ev_Organization (pe_Event p)) (pe_AssignmentEpoch p).

Lemma snapshot_assignments_lookup items session :
  snapshot_assignments items !! session =
    (fun i => MkEventAssignment (sa_organization_id i) (sa_assignment_epoch i)) <$>
      last (List.filter (fun i => bool_decide (sa_session_id i = session)) items).
Proof.
  unfold snapshot_assignments. induction items as [|i items IH] using rev_ind; [done|].
  rewrite foldl_snoc, List.filter_app. cbn. destruct (decide (sa_session_id i = session)) as [<-|Hne].
  - by rewrite lookup_insert_eq, bool_decide_true, last_snoc.
  - by rewrite lookup_insert_ne, bool_decide_false, app_nil_r, IH.
Qed.

Lemma unowned_retires snapshot r : unowned (snapshot_assignments (ds_assignments snapshot)) r -> retires snapshot r.
Proof.
  unfold unowned, retires, decodeJournalEvent. intros (ev & Hdec & Ho).
  destruct (unmarshal_persisted (jr_payload r)) as [|p]; [discriminate|]. exists p. split; [done|].
  split_if; [discriminate|]. destruct (encode_struct _) as [|enc]; [discriminate|]. injection Hdec as <-.
  cbn in Ho. rewrite snapshot_assignments_lookup in Ho. intros (item & Hlast & Horg & Hep). rewrite Hlast in Ho. cbn in Ho.
  rewrite Horg, Hep, bool_decide_true, Z.eqb_refl in Ho by done. done.
Qed.

Lemma owned_events_elem gid ep meta asg entries ev :
  ev ∈ owned_events gid ep meta asg entries ->
  exists e ev0, e ∈ entries /\ meta (Payload e) = inr ev0 /\ event_owned asg ev0 = true /\
                ev = stamp_event e gid ep ev0.
Proof.
  unfold owned_events. intros (e & He & Hs)%list_elem_of_omap.
  destruct (meta (Payload e)) as [|ev0] eqn:Hm; [discriminate|].
  destruct (event_owned asg ev0) eqn:Ho; [|discriminate]. injection Hs as <-. eauto 10.
Qed.

(** A row with a sequence at most that of a row of a prefix is in the prefix. *)
Lemma take_down_closed n l r0 r :
  StronglySorted seq_lt l -> r0 ∈ take n l -> r ∈ l -> jr_seq r <= jr_seq r0 -> r ∈ take n l.
Proof.
  intros Hs H0 Hr Hle. rewrite <- (take_drop n l) in Hr, Hs.
  apply elem_of_app in Hr as [Hr|Hr]; [exact Hr|].
  apply (StronglySorted_app_1_elem_of _ _ _ _ _ Hs H0) in Hr. unfold seq_lt in Hr. lia.
Qed.

(** Every row of a prefix the loop covered is in the batch, or was not owned. *)
Lemma covered_row gid ep asg l n r :
  Forall (fun e => exists ev, decodeJournalEvent (Payload e) = inr ev) (entry_of <$> take n l) ->
  r ∈ take n l -> in_u64 (jr_seq r) ->
  (exists ev, ev ∈ owned_events gid ep decodeJournalEvent (Some asg) (entry_of <$> take n l) /\
              carries ev r) \/ unowned asg r.
Proof.
  intros HF Hr Hu. rewrite Forall_fmap, Forall_forall in HF.
  destruct (HF _ Hr) as [ev Hev]. cbn in Hev.
  destruct (event_owned (Some asg) ev) eqn:Ho; [left | right; by exists ev].
  exists (stamp_event (entry_of r) gid ep ev). split.
  - apply list_elem_of_omap. exists (entry_of r). split; [by apply list_elem_of_fmap_2|].
    cbn [entry_of newEntry Payload]. by rewrite Hev, Ho.
  - split; cbn; [by apply u64_id | done].
Qed.

(** What a successful [NextEventBatch] did: the events are those of owned rows
    at the front of the queue; each row up to the last event is among them or
    was not owned; an empty batch may only have removed rows not owned. *)
Lemma NextEventBatch_returns cfg a epoch d evs d' asg :
  journal_wf cfg (rows d) -> a_assignments a = Some asg ->
  NextEventBatch a epoch d = (inr evs, d') ->
  (forall e, last evs = Some e ->
     rows d' = rows d /\ ge_JournalSequence e <= autoinc (rows d) /\
     forall r, r ∈ journal_entries (rows d) -> jr_seq r <= ge_JournalSequence e ->
       (exists ev, ev ∈ evs /\ carries ev r) \/ unowned asg r) /\
  (last evs = None ->
     forall r, r ∈ journal_entries (rows d) ->
       r ∈ journal_entries (rows d') \/ unowned asg r).
Proof.
  intros Hwf Ha Hrun. unfold NextEventBatch in Hrun. rewrite Ha in Hrun. unfold batch in Hrun.
  run_inv.
  match goal with Hr : ReadUnacked _ _ _ = _ |- _ =>
    apply (ReadUnacked_returns cfg) in Hr as (Hrows & n & ->); [|exact Hwf] end.
  match goal with Hb : batch_loop _ _ _ _ _ _ _ = inr ?x, Hm : _ = (inr evs, d') |- _ =>
    apply batch_loop_covers in Hb as (k & Hevs & HF & Hk); rename x into made, Hm into Hret end.
  cbn [app] in Hevs. rewrite <- fmap_take, take_take in Hevs, HF.
  set (L := journal_entries (rows d)) in *.
  pose proof (wf_sorted _ _ Hwf) as Hs.
  destruct made as [|ev0 made].
  - (* nothing owned: the whole batch was covered *)
    assert (Hkn : take (k `min` n) L = take n L).
    { rewrite length_fmap, length_take in Hk.
      destruct (decide (k < n `min` length L)%nat) as [Hl|Hl]; [by destruct (Hk Hl)|].
      destruct (decide (n <= k)%nat); [by rewrite Nat.min_r by lia|].
      rewrite Nat.min_l by lia. rewrite !take_ge by lia. done. }
    rewrite Hkn in *.
    assert (evs = []) as ->.
    { destruct (last (entry_of <$> take n L)); run_inv; congruence. }
    split; [done|]. intros _ r Hr. rewrite last_entry_of in Hret.
    destruct (last (take n L)) as [r0|] eqn:Hlast; cbn in Hret; run_inv;
      [|injection Hret as <-; left; by rewrite Hrows].
    match goal with Hk0 : Ack _ _ = (inr ?u, _) |- _ =>
      destruct u; apply Ack_returns in Hk0 as [[_ Hd]|(_ & _ & Hd)] end.
    1, 2: match goal with Hm : mret [] _ = _ |- _ => injection Hm as <- end.
    { left. by rewrite Hd, Hrows. }
    pose proof (last_Some_elem_of _ _ Hlast) as Hin0.
    destruct (decide (jr_seq r <= jr_seq r0)) as [Hle|Hle].
    + assert (Hr' : r ∈ take n L) by (eapply take_down_closed; eauto). right.
      destruct (covered_row (a_GatewayID a) epoch asg _ _ _ HF Hr' (wf_row_u64 _ _ _ Hwf Hr))
        as [(ev & Hev & _)|Hu]; [|exact Hu].
      rewrite <- Hevs in Hev. by apply not_elem_of_nil in Hev.
    + left. rewrite Hd, Hrows. cbn. apply list_elem_of_filter. split; [|exact Hr].
      rewrite u64_id; [exact Hle|]. eapply wf_row_u64; [exact Hwf|].
      eapply subseteq_take; exact Hin0.
  - assert (ev0 :: made = evs /\ rows d' = rows d) as [<- Hd].
    { destruct (last (entry_of <$> take n L)); run_inv; done. }
    split; [|intros Hl; by apply last_None in Hl].
    intros e He. split; [exact Hd|].
    pose proof (last_Some_elem_of _ _ He) as Hin. rewrite Hevs in Hin.
    apply owned_events_elem in Hin as (en & ev1 & (r1 & -> & Hr1)%list_elem_of_fmap & _ & _ & ->).
    assert (Hin1 : r1 ∈ L) by (eapply subseteq_take; exact Hr1).
    pose proof (wf_row_u64 _ _ _ Hwf Hin1) as Hu1. cbn. rewrite (u64_id _ Hu1).
    pose proof (proj1 (Forall_forall _ _) (wf_window _ _ Hwf) _ Hin1) as Hw. cbn in Hw.
    split; [lia|]. intros r Hr Hle. rewrite Hevs.
    apply covered_row; [exact HF | | by eapply wf_row_u64].
    eapply take_down_closed; eauto.
Qed.

Lemma NextEventBatch_error a epoch d err d' :
  NextEventBatch a epoch d = (inl err, d') -> rows d' = rows d.
Proof.
  enough (forall maxe maxb gid meta asg,
    batch maxe maxb gid epoch meta asg d = (inl err, d') -> rows d' = rows d) as Hb.
  { unfold NextEventBatch. destruct (a_assignments a); [apply Hb | discriminate]. }
  intros maxe maxb gid meta asg. unfold batch, mbind, M_bind.
  destruct (ReadUnacked maxe maxb d) as [[e0|es] d1] eqn:Hr;
    apply (ReadUnacked_keeps (fun s s' => s' = s)) in Hr; unfold on_rows in Hr;
    try (split; congruence); [by intros [= _ <-]|].
  unfold lift_result. destruct (batch_loop _ _ _ _ _ _ _) as [e0|evs]; [by intros [= _ <-]|].
  destruct evs, (last es), asg; try discriminate.
  destruct (Ack _ d1) as [[e1|[]] d2] eqn:Ha; [|discriminate]. intros [= _ <-].
  unfold Ack in Ha. apply with_rollback_error in Ha. congruence.
Qed.

(** ** Runs of the event lane

    The world is the lane together with what happened outside it: the batches
    the API acknowledged and, latest first, the snapshots that were applied, the
    connections that began and the restarts of the process. *)
Inductive lane_note :=
  | Applied (snapshot : DesiredStateSnapshot)
  | NewConnection
  | Restarted.
Record world := MkWorld {
  w_lane : lane;
  w_acked : list (list GatewayEvent);
  w_notes : list lane_note;
}.

(** The snapshots applied since the process started. *)
Fixpoint applied_since_start (notes : list lane_note) : list DesiredStateSnapshot :=
  match notes with
  | [] | Restarted :: _ => []
  | NewConnection :: rest => applied_since_start rest
  | Applied snapshot :: rest => snapshot :: applied_since_start rest
  end.

(** The snapshot in force: applied on this connection, not older than any the
    process had applied before, and followed by delayed, older ones only. *)
Definition in_force (notes : list lane_note) (snapshot : DesiredStateSnapshot) : Prop :=
  exists (later : list DesiredStateSnapshot) (earlier : list lane_note),
    notes = (Applied <$> later) ++ Applied snapshot :: earlier /\
    Forall (fun s => ds_revision s < ds_revision snapshot) later /\
    Forall (fun s => ds_revision s <= ds_revision snapshot) (applied_since_start earlier).

Definition with_db (d : db jdb) (l : lane) : lane :=
  MkLane d (ln_adapter l) (ln_eventInFlight l) (ln_expectedEventAck l) (ln_wire l).

(** [openSession]: a new control stream over the same journal. *)
Definition openSession (l : lane) : lane :=
  MkLane (ln_db l) (ResetDesiredAssignments (ln_adapter l)) false 0 (ln_wire l).

Definition applyAssignments (snapshot : DesiredStateSnapshot) (l : lane) : lane :=
  MkLane (ln_db l) (SetDesiredAssignments snapshot (ln_adapter l))
         (ln_eventInFlight l) (ln_expectedEventAck l) (ln_wire l).

Definition is_ledger_op (o : op) : bool :=
  match o with OpLookup _ | OpSave _ | OpMetrics _ => true | _ => false end.

(** SQLite may fail at every statement ([fs]), the transport at every send. *)
Inductive lane_step (cfg : Config) : world -> world -> Prop :=
  | step_append w event epoch fs r d' :
      (forall b, marshal_persisted (MkPersistedEvent (ev_MediaSource event) event epoch) = inr b ->
                 len b < 2 ^ 62) ->
      AppendDomainEvent cfg event epoch (Db (rows (ln_db (w_lane w))) fs) = (r, d') ->
      lane_step cfg w (MkWorld (with_db d' (w_lane w)) (w_acked w) (w_notes w))
  | step_ledger w o fs r d' :
      is_ledger_op o = true ->
      run_op cfg o (Db (rows (ln_db (w_lane w))) fs) = (r, d') ->
      lane_step cfg w (MkWorld (with_db d' (w_lane w)) (w_acked w) (w_notes w))
  | step_restart w gid :
      lane_step cfg w (MkWorld
        (MkLane (ln_db (w_lane w)) (MkControlAdapter gid None 0) false 0 (ln_wire (w_lane w)))
        (w_acked w) (Restarted :: w_notes w))
  | step_open w :
      lane_step cfg w (MkWorld (openSession (w_lane w)) (w_acked w) (NewConnection :: w_notes w))
  | step_snapshot w snapshot :
      lane_step cfg w (MkWorld (applyAssignments snapshot (w_lane w)) (w_acked w) (Applied snapshot :: w_notes w))
  | step_send w epoch sendErr fs r l' :
      sendEventBatch epoch sendErr (with_db (Db (rows (ln_db (w_lane w))) fs) (w_lane w)) = (r, l') ->
      lane_step cfg w (MkWorld l' (w_acked w) (w_notes w))
  | step_ack_failed w n fs err l' :
      acceptEventAck n (with_db (Db (rows (ln_db (w_lane w))) fs) (w_lane w)) = (inl err, l') ->
      lane_step cfg w (MkWorld l' (w_acked w) (w_notes w))
  | step_ack w n fs l' :
      acceptEventAck n (with_db (Db (rows (ln_db (w_lane w))) fs) (w_lane w)) = (inr tt, l') ->
      lane_step cfg w (MkWorld l' (option_list (last (ln_wire (w_lane w))) ++ w_acked w)
                               (w_notes w)).

(** Any well-formed file, before the first connection. *)
Record lane_start (cfg : Config) (w : world) : Prop := {
  start_wf : journal_wf cfg (rows (ln_db (w_lane w)));
  start_adapter : a_assignments (ln_adapter (w_lane w)) = None;
  start_idle : ln_eventInFlight (w_lane w) = false;
  start_notes : w_notes w = [];
}.

Definition entries_of (w : world) : list JRow := journal_entries (rows (ln_db (w_lane w))).
Definition was_acked (w : world) (r : JRow) : Prop :=
  exists b ev, b ∈ w_acked w /\ ev ∈ b /\ carries ev r.

(** On the way from [w0] to [w] the row was in the journal while the snapshot in
    force did not have its assignment. *)
Definition was_retired (cfg : Config) (w0 w : world) (r : JRow) : Prop :=
  exists w1 snapshot, rtc (lane_step cfg) w0 w1 /\ rtc (lane_step cfg) w1 w /\
    r ∈ entries_of w1 /\ in_force (w_notes w1) snapshot /\ retires snapshot r.

(** The journal only grew at the end. *)
Definition extends (s s' : jdb) : Prop :=
  exists new, journal_entries s' = journal_entries s ++ new /\
              Forall (fun r => autoinc s < jr_seq r) new /\ autoinc s <= autoinc s'.

Lemma same_journal_extends s s' : same_journal s s' -> extends s s'.
Proof. intros (He & Ha & _). exists []. rewrite app_nil_r. split; [done|]. split; [done | lia]. Qed.

Lemma Append_extends cfg id p t : respects (on_rows extends) (Append cfg id p t).
Proof.
  intros d r d' Hrun. unfold on_rows. destruct r as [e|[e fresh]].
  - apply same_journal_extends. revert Hrun. unfold Append. split_if; [by intros [= _ <-]|].
    by intros ->%with_rollback_error.
  - apply Append_returns in Hrun as (_ & _ & [(_ & -> & _)|(_ & _ & _ & Hins & _)]);
      [by apply same_journal_extends|].
    revert Hins. unfold insert_event. repeat split_if; intros [= <-]. eexists. split; [done|].
    cbn. split; [|lia]. apply Forall_singleton. cbn. lia.
Qed.

Lemma AppendDomainEvent_extends cfg event epoch :
  respects (on_rows extends) (AppendDomainEvent cfg event epoch).
Proof.
  unfold AppendDomainEvent. destruct (marshal_persisted _); [|apply Append_extends].
  apply respects_throw. intros d. by apply same_journal_extends.
Qed.

Lemma AppendDomainEvent_keeps_wf cfg event epoch :
  cap_ok cfg ->
  (forall b, marshal_persisted (MkPersistedEvent (ev_MediaSource event) event epoch) = inr b ->
             len b < 2 ^ 62) ->
  respects (on_rows (keeps (journal_wf cfg))) (AppendDomainEvent cfg event epoch).
Proof.
  intros Hc Hl. unfold AppendDomainEvent. destruct (marshal_persisted _); [|by apply Append_keeps_wf; auto].
  apply respects_throw. intros d. by intros ?.
Qed.

Lemma run_ledger_op cfg o : is_ledger_op o = true -> respects (on_rows same_journal) (run_op cfg o).
Proof.
  assert (PreOrder same_journal) as Hpre.
  { split; [by intros s | intros a b c (? & ? & ?) (? & ? & ?); repeat split; congruence]. }
  destruct o; cbn [is_ledger_op run_op]; try discriminate; intros _.
  - apply respects_bind; [apply _ | by apply LookupCommand_keeps | intros; apply respects_ret, _].
  - apply SaveCommandResult_same_journal.
  - apply respects_bind; [apply _ | | intros; apply respects_ret, _].
    apply respects_bind; [apply _ | apply respects_attempt, PruneCommands_same_journal|].
    intros; by apply metricsDB_keeps.
Qed.

Lemma NextEventBatch_keeps_wf cfg a epoch :
  respects (on_rows (keeps (journal_wf cfg))) (NextEventBatch a epoch).
Proof.
  unfold NextEventBatch. destruct (a_assignments a) as [asg|]; [|apply respects_ret, _].
  unfold batch. apply respects_bind; [apply _ | by apply ReadUnacked_keeps, _|].
  intros es. apply respects_bind; [apply _ | apply respects_lift, _|].
  intros evs. destruct evs, (last es); eauto with golib typeclass_instances.
Qed.

Section Runs.
Variables (cfg : Config) (w0 : world).

(** The batch in flight accounts for every row up to the expected ack. *)
Definition inflight_covers (w : world) : Prop :=
  ln_eventInFlight (w_lane w) = true ->
  exists b, last (ln_wire (w_lane w)) = Some b /\
    ln_expectedEventAck (w_lane w) <= autoinc (rows (ln_db (w_lane w))) /\
    forall r, r ∈ entries_of w -> jr_seq r <= ln_expectedEventAck (w_lane w) ->
      (exists ev, ev ∈ b /\ carries ev r) \/ was_retired cfg w0 w r.

(** The adapter's assignments are those of the snapshot in force. *)
Record adapter_follows (a : ControlAdapter) (notes : list lane_note) : Prop := {
  af_revision : Forall (fun s => ds_revision s <= a_revision a) (applied_since_start notes);
  af_assignments asg : a_assignments a = Some asg -> exists snapshot, in_force notes snapshot /\
    ds_revision snapshot = a_revision a /\ asg = snapshot_assignments (ds_assignments snapshot);
}.

Record lane_inv (w : world) : Prop := {
  inv_reached : rtc (lane_step cfg) w0 w;
  inv_wf : journal_wf cfg (rows (ln_db (w_lane w)));
  inv_adapter : adapter_follows (ln_adapter (w_lane w)) (w_notes w);
  inv_inflight : inflight_covers w;
}.

(** What a step may do to the rows that were in the journal before it. *)
Definition accounts (w w' : world) : Prop :=
  w_acked w ⊆ w_acked w' /\
  forall r, r ∈ entries_of w -> r ∈ entries_of w' \/ was_acked w' r \/ was_retired cfg w0 w' r.

Lemma was_retired_later w w' r : rtc (lane_step cfg) w w' -> was_retired cfg w0 w r -> was_retired cfg w0 w' r.
Proof. intros Hs (w1 & sn & H0 & H1 & Hr). exists w1, sn. split; [done|]. split; [by etransitivity|done]. Qed.

(** A row that the adapter leaves out was retired. *)
Lemma unowned_was_retired w w' asg r : rtc (lane_step cfg) w0 w -> rtc (lane_step cfg) w w' ->
  adapter_follows (ln_adapter (w_lane w)) (w_notes w) -> a_assignments (ln_adapter (w_lane w)) = Some asg ->
  r ∈ entries_of w -> unowned asg r -> was_retired cfg w0 w' r.
Proof.
  intros H0 H1 [_ Ha] Hasg Hr Hu. destruct (Ha _ Hasg) as (sn & Hf & _ & ->). exists w, sn.
  split; [done|]. split; [done|]. split; [done|]. split; [done|]. by apply unowned_retires.
Qed.

Lemma follows_snapshot a notes sn : adapter_follows a notes -> adapter_follows (SetDesiredAssignments sn a) (Applied sn :: notes).
Proof.
  intros [Hr Ha]. unfold SetDesiredAssignments. destruct (ds_revision sn <? a_revision a) eqn:Hlt; to_prop; split; cbn.
  - constructor; [lia|done].
  - intros asg Hasg. destruct (Ha _ Hasg) as (sn0 & (later & earlier & -> & Hl & He) & Hrev & ->). exists sn0.
    split; [|done]. exists (sn :: later), earlier. split; [done|]. split; [|done]. constructor; [lia|done].
  - constructor; [lia|]. eapply Forall_impl; [exact Hr|]. cbn. lia.
  - intros asg [= <-]. exists sn. split; [|done]. exists [], notes. split; [done|]. split; [done|].
    eapply Forall_impl; [exact Hr|]. cbn. lia.
Qed.

Lemma accounts_refl_rows w l notes :
  rows (ln_db l) = rows (ln_db (w_lane w)) ->
  accounts w (MkWorld l (w_acked w) notes).
Proof. intros Hr. split; [done|]. intros r Hin. left. unfold entries_of. cbn. by rewrite Hr. Qed.

(** Growing the journal keeps everything accounted for. *)
Lemma grow_inv w d' :
  lane_inv w -> extends (rows (ln_db (w_lane w))) (rows d') -> journal_wf cfg (rows d') ->
  let w' := MkWorld (with_db d' (w_lane w)) (w_acked w) (w_notes w) in
  lane_step cfg w w' -> lane_inv w' /\ accounts w w'.
Proof.
  intros [Hre Hwf Ha Hf] (new & He & Hnew & Hle) Hwf' w' Hst. split; [split; cbn; [by eapply rtc_r|done..|]|].
  - intros Hfl. destruct (Hf Hfl) as (b & Hb & Hexp & Hcov). exists b. cbn.
    split; [done|]. split; [lia|]. intros r Hr Hs. unfold entries_of in Hr. cbn in Hr.
    rewrite He in Hr. apply elem_of_app in Hr as [Hr|Hr].
    + destruct (Hcov r Hr Hs) as [?|?]; [by left|right]. eapply was_retired_later; [by apply rtc_once|done].
    + rewrite Forall_forall in Hnew. apply Hnew in Hr. lia.
  - split; [done|]. intros r Hr. left. unfold entries_of. cbn. rewrite He. apply elem_of_app. by left.
Qed.

Lemma send_inv w epoch sendErr fs r l' :
  lane_inv w ->
  sendEventBatch epoch sendErr (with_db (Db (rows (ln_db (w_lane w))) fs) (w_lane w)) = (r, l') ->
  let w' := MkWorld l' (w_acked w) (w_notes w) in
  lane_step cfg w w' -> lane_inv w' /\ accounts w w'.
Proof.
  intros Hinv Hrun w' Hst. pose proof Hinv as [Hre Hwf Ha Hf]. unfold sendEventBatch in Hrun.
  assert (Hre' : rtc (lane_step cfg) w0 w') by (by eapply rtc_r).
  assert (Hret : forall asg r0, a_assignments (ln_adapter (w_lane w)) = Some asg -> r0 ∈ entries_of w -> unowned asg r0 ->
            was_retired cfg w0 w' r0).
  { intros asg r0. exact (unowned_was_retired w w' asg r0 Hre (rtc_once _ _ Hst) Ha). }
  cbn [ln_eventInFlight ln_adapter ln_db ln_expectedEventAck ln_wire with_db] in Hrun.
  destruct (ln_eventInFlight (w_lane w)) eqn:Hfl.
  { injection Hrun as _ <-. split; [|by apply accounts_refl_rows]. split; cbn; [done..|].
    intros _. destruct (Hf Hfl) as (b & Hb & Hexp & Hcov). exists b. split; [done|]. split; [done|]. intros r0 Hr0 Hle.
    destruct (Hcov r0 Hr0 Hle) as [?|?]; [by left|right]. eapply was_retired_later; [by apply rtc_once|done]. }
  destruct (NextEventBatch _ _ _) as [[err|evs] d'] eqn:Hn.
  { pose proof (NextEventBatch_error _ _ _ _ _ Hn) as Hd. cbn in Hd. injection Hrun as _ <-.
    split; [|by apply accounts_refl_rows]. split; cbn; [done | by rewrite Hd | done | done]. }
  destruct (a_assignments (ln_adapter (w_lane w))) as [asg|] eqn:Hasg.
  2: { unfold NextEventBatch in Hn. rewrite Hasg in Hn. injection Hn as <- <-. cbn in Hrun.
       injection Hrun as _ <-. split; [|by apply accounts_refl_rows]. by split. }
  destruct (NextEventBatch_returns cfg _ _ (Db (rows (ln_db (w_lane w))) fs) _ _ _ Hwf Hasg Hn)
    as [Hsome Hnone].
  pose proof (NextEventBatch_keeps_wf cfg _ _ _ _ _ Hn Hwf) as Hwf'.
  cbn [rows] in Hsome, Hnone.
  destruct (last evs) as [e|] eqn:Hl.
  - destruct (Hsome _ eq_refl) as (Hd & Hseq & Hcov).
    destruct sendErr; injection Hrun as _ <-; (split; [|by apply accounts_refl_rows]).
    + by split.
    + split; cbn; [done..|]. intros _. exists evs. cbn.
      split; [by rewrite last_snoc|]. split; [by rewrite Hd|].
      unfold entries_of. cbn. rewrite Hd. intros r0 Hr0 Hle.
      destruct (Hcov _ Hr0 Hle) as [?|?]; [by left | right]. by eapply Hret.
  - injection Hrun as _ <-. split.
    + by split.
    + split; [done|]. intros r0 Hr0. destruct (Hnone eq_refl _ Hr0) as [?|?]; [by left|].
      right; right. by eapply Hret.
Qed.

Lemma ack_inv w n fs l' :
  lane_inv w ->
  acceptEventAck n (with_db (Db (rows (ln_db (w_lane w))) fs) (w_lane w)) = (inr tt, l') ->
  let w' := MkWorld l' (option_list (last (ln_wire (w_lane w))) ++ w_acked w) (w_notes w) in
  lane_step cfg w w' -> lane_inv w' /\ accounts w w'.
Proof.
  intros [Hre Hwf Ha Hf] Hrun w' Hst. unfold acceptEventAck, AckEvents in Hrun.
  assert (Hre' : rtc (lane_step cfg) w0 w') by (by eapply rtc_r).
  cbn [ln_eventInFlight ln_adapter ln_db ln_expectedEventAck ln_wire with_db] in Hrun.
  destruct (_ || _) eqn:Hg; [discriminate|]. to_prop. subst n.
  destruct (Ack _ _) as [[err|[]] d'] eqn:Hack; [discriminate|]. injection Hrun as <-.
  pose proof (Ack_keeps_wf cfg _ _ _ _ Hack Hwf) as Hwf'.
  split; [split; cbn; [done..|by intros [=]]|].
  split; [cbn; intros x Hx; apply elem_of_app; by right|].
  intros r Hr. destruct (Hf ltac:(done)) as (b & Hb & _ & Hcov).
  destruct (decide (jr_seq r <= ln_expectedEventAck (w_lane w))) as [Hle|Hle].
  - right. destruct (Hcov _ Hr Hle) as [(ev & Hev & Hc)|Hu]; [left|right; eapply was_retired_later; [by apply rtc_once|done]].
    exists b, ev. cbn. rewrite Hb. cbn. split; [left|done].
  - left. unfold entries_of. cbn.
    apply Ack_returns in Hack as [[_ ->]|(_ & _ & ->)]; [done|]. cbn.
    apply list_elem_of_filter. split; done.
Qed.

(** Steps that leave the rows and the batch in flight as they are. *)
Lemma same_rows_inv w l notes :
  lane_inv w -> lane_step cfg w (MkWorld l (w_acked w) notes) -> rows (ln_db l) = rows (ln_db (w_lane w)) ->
  adapter_follows (ln_adapter l) notes ->
  (ln_eventInFlight l = true -> ln_eventInFlight (w_lane w) = true /\ ln_wire l = ln_wire (w_lane w) /\
     ln_expectedEventAck l = ln_expectedEventAck (w_lane w)) ->
  lane_inv (MkWorld l (w_acked w) notes) /\ accounts w (MkWorld l (w_acked w) notes).
Proof.
  intros [Hre Hwf Ha Hf] Hst Hrows Ha' Hfl. split; [|by apply accounts_refl_rows].
  split; cbn; [by eapply rtc_r|by rewrite Hrows|done|]. intros Hin. destruct (Hfl Hin) as (Hin0 & Hw & He).
  destruct (Hf Hin0) as (b & Hb & Hexp & Hcov). exists b. unfold entries_of. cbn. rewrite Hrows, Hw, He.
  split; [done|]. split; [done|]. intros r Hr Hle. destruct (Hcov r Hr Hle) as [?|?]; [by left|right].
  eapply was_retired_later; [by apply rtc_once|done].
Qed.

Lemma ack_failed_same n l err l' fs :
  acceptEventAck n (with_db (Db (rows (ln_db l)) fs) l) = (inl err, l') ->
  exists d', rows d' = rows (ln_db l) /\ l' = with_db d' l.
Proof.
  intros Hrun. unfold acceptEventAck, AckEvents in Hrun.
  cbn [ln_eventInFlight ln_adapter ln_db ln_expectedEventAck ln_wire with_db] in Hrun.
  destruct (_ || _); [injection Hrun as _ <-; eexists; split; [|reflexivity]; done|].
  destruct (Ack _ _) as [[e|[]] d'] eqn:Hack; [|discriminate].
  unfold Ack in Hack. apply with_rollback_error in Hack. injection Hrun as _ <-.
  eexists. split; [|reflexivity]. done.
Qed.

Lemma lane_step_inv w w' :
  cap_ok cfg -> lane_inv w -> lane_step cfg w w' -> lane_inv w' /\ accounts w w'.
Proof.
  intros Hcap Hinv Hstep. pose proof Hinv as [_ Hwf Ha Hf]. pose proof Hstep as Hst.
  destruct Hstep as [w event epoch fs r d' Hlen Hrun|w o fs r d' Ho Hrun|w gid|w|w snapshot
                    |w epoch sendErr fs r l' Hrun|w n fs err l' Hrun|w n fs l' Hrun].
  - apply grow_inv; [done|..|done].
    + exact (AppendDomainEvent_extends _ _ _ _ _ _ Hrun).
    + exact (AppendDomainEvent_keeps_wf _ _ _ Hcap Hlen _ _ _ Hrun Hwf).
  - pose proof (run_ledger_op _ _ Ho _ _ _ Hrun) as Hsame.
    apply grow_inv; [done | by apply same_journal_extends | by eapply same_journal_wf|done].
  - apply same_rows_inv; [done|done|done|by split|done].
  - apply same_rows_inv; [done|done|done| |done]. split; [exact (af_revision _ _ Ha)|done].
  - apply same_rows_inv; [done|done|done|by apply follows_snapshot|done].
  - by eapply send_inv.
  - destruct (ack_failed_same _ _ _ _ _ Hrun) as (d' & Hd & ->). by apply same_rows_inv.
  - by eapply ack_inv.
Qed.

Lemma lane_steps_inv w w' :
  cap_ok cfg -> lane_inv w -> rtc (lane_step cfg) w w' -> lane_inv w' /\ accounts w w'.
Proof.
  intros Hcap Hinv Hsteps. induction Hsteps as [w|w w1 w2 Hs Hrest IH].
  { split; [done|]. split; [done|]. by left. }
  destruct (lane_step_inv _ _ Hcap Hinv Hs) as [Hinv1 [Hac1 H1]].
  destruct (IH Hinv1) as [Hinv2 [Hac2 H2]]. split; [done|].
  split; [by etransitivity|]. intros r Hr. destruct (H1 _ Hr) as [Hin|[Hk|Hu]].
  - exact (H2 _ Hin).
  - right; left. destruct Hk as (b & ev & Hb & ?). exists b, ev. split; [by apply Hac2 | done].
  - right; right. by eapply was_retired_later.
Qed.
End Runs.

Lemma lane_start_inv cfg w : lane_start cfg w -> lane_inv cfg w w.
Proof. intros [Hwf Ha Hi Hn]. split; [done|done| |by unfold inflight_covers; rewrite Hi]. rewrite Hn. split; [constructor|by rewrite Ha]. Qed.

Lemma batch_loop_size mb gid ep meta asg entries events0 evs :
  batch_loop mb gid ep meta asg entries events0 = inr evs ->
  events0 = [] \/ proto_Size events0 <= mb -> evs = [] \/ proto_Size evs <= mb.
Proof.
  revert events0. induction entries as [|e entries IH]; intros events0; cbn [batch_loop].
  { by intros [= <-]. }
  destruct (meta (Payload e)) as [|ev]; [discriminate|].
  destruct (negb _); [apply IH|]. destruct (_ <? _) eqn:Hsz.
  - destruct (bool_decide _); [discriminate|]. by intros [= <-].
  - to_prop. intros Hrun _. apply (IH _ Hrun). right. lia.
Qed.

Lemma batch_loop_total mb gid ep meta asg entries events0 :
  Forall (fun e => exists ev, meta (Payload e) = inr ev /\
                              proto_Size [stamp_event e gid ep ev] <= mb) entries ->
  exists evs, batch_loop mb gid ep meta asg entries events0 = inr evs.
Proof.
  intros HF. revert events0. induction HF as [|e entries (ev & Hm & Hsz) HF IH]; intros events0;
    cbn [batch_loop]; [eauto|]. rewrite Hm.
  destruct (negb _); [apply IH|]. destruct (_ <? _) eqn:Hlt; [|apply IH].
  destruct (bool_decide _) eqn:Hn; [|eauto]. to_prop. subst. cbn in Hlt. lia.
Qed.

(** The row is owned under [asg] and [ev] is its event on this connection. *)
Definition delivers (a : ControlAdapter) (epoch : Z) (asg : gmap string eventAssignment)
  (ev : GatewayEvent) (r : JRow) : Prop :=
  carries ev r /\ event_owned (Some asg) ev = true /\
  ge_GatewayId ev = a_GatewayID a /\ ge_ConnectionEpoch ev = epoch /\
  exists ev0, decodeJournalEvent (jr_payload r) = inr ev0 /\
    ge_AssignmentEpoch ev = ge_AssignmentEpoch ev0 /\ ge_Payload ev = ge_Payload ev0.

Lemma NextEventBatch_owned cfg a epoch d evs d' :
  journal_wf cfg (rows d) -> NextEventBatch a epoch d = (inr evs, d') -> evs <> [] ->
  exists asg n, a_assignments a = Some asg /\ (n <= Z.to_nat DefaultBatchEntries)%nat /\
    evs = owned_events (a_GatewayID a) epoch decodeJournalEvent (Some asg)
            (entry_of <$> take n (journal_entries (rows d))) /\
    proto_Size evs <= DefaultBatchBytes.
Proof.
  intros Hwf Hrun Hne. unfold NextEventBatch in Hrun.
  destruct (a_assignments a) as [asg|]; [|by injection Hrun as <-].
  unfold batch in Hrun. apply bind_returns in Hrun as (es & d1 & Hread & Hrun).
  apply bind_returns in Hrun as (made & d2 & Hloop & Hret).
  assert (made = evs) as ->.
  { destruct made; [|by injection Hret]. destruct (last es); [|by injection Hret].
    by apply bind_returns in Hret as (? & ? & _ & [=]). }
  injection Hloop as Hloop <-. exists asg.
  apply (ReadUnacked_prefix cfg) in Hread as (n & -> & Hn); [|exact Hwf].
  pose proof (batch_loop_size _ _ _ _ _ _ _ _ Hloop (or_introl eq_refl)) as [?|Hsz]; [done|].
  apply batch_loop_covers in Hloop as (k & -> & _ & _). cbn [app] in *.
  exists (k `min` n)%nat. rewrite <- fmap_take, take_take in *.
  split; [done|]. split; [lia|]. by split.
Qed.

Lemma NextEventBatch_events cfg a epoch d evs d' :
  journal_wf cfg (rows d) -> NextEventBatch a epoch d = (inr evs, d') -> evs <> [] ->
  exists asg n, a_assignments a = Some asg /\
    Forall (fun ev => exists r, r ∈ take n (journal_entries (rows d)) /\ delivers a epoch asg ev r) evs /\
    (length evs <= Z.to_nat DefaultBatchEntries)%nat /\ proto_Size evs <= DefaultBatchBytes.
Proof.
  intros Hwf Hrun Hne.
  destruct (NextEventBatch_owned _ _ _ _ _ _ Hwf Hrun Hne) as (asg & n & Ha & Hn & -> & Hsz).
  exists asg, n. split; [done|]. split; [|split; [|exact Hsz]].
  - apply Forall_forall. intros ev (en & ev0 & Hen & Hm & Ho & ->)%owned_events_elem.
    apply list_elem_of_fmap in Hen as (r & -> & Hr).
    exists r. split; [exact Hr|]. split; [split; [|done]|split; [exact Ho|]].
    + cbn. apply u64_id. eapply wf_row_u64; [exact Hwf|]. eapply subseteq_take; exact Hr.
    + split; [done|]. split; [done|]. by exists ev0.
  - unfold owned_events. etransitivity; [apply length_omap_le|].
    rewrite length_fmap, length_take. lia.
Qed.

(** ** Properties of event delivery *)

(** C1: At-least-once delivery. Whatever the API, the transport and SQLite do
    - failing statements and sends, acknowledgements of any value, reconnects,
    restarts, delayed snapshots, appends between a batch and its
    acknowledgement - an event that is in the journal at some point is still
    there later, or was carried by a batch that was written to the API and
    acknowledged by it, or was retired: at some moment it was in the journal
    while the snapshot in force did not have its session under its organization
    and epoch. In force is the newest snapshot applied on the connection, which
    no snapshot applied by the process before outdates. *)
Theorem at_least_once_delivery (cfg : Config) (w0 w1 w2 : world) (r : JRow) :
  cap_ok cfg -> lane_start cfg w0 ->
  rtc (lane_step cfg) w0 w1 -> r ∈ entries_of w1 ->
  rtc (lane_step cfg) w1 w2 ->
  r ∈ entries_of w2 \/ was_acked w2 r \/ was_retired cfg w0 w2 r.
Proof.
  intros Hcap Hstart H01 Hr H12.
  destruct (lane_steps_inv _ _ _ _ Hcap (lane_start_inv _ _ Hstart) H01) as [Hinv1 _].
  destruct (lane_steps_inv _ _ _ _ Hcap Hinv1 H12) as [_ [_ Hacc]]. by apply Hacc.
Qed.

(** Fencing. Every batch written to the API holds only events of journal
    rows whose organization and assignment epoch are those of the snapshot in
    force, stamped with this gateway and this connection, with the assignment
    epoch stored at append time; it has at most 256 events and encodes in at
    most one megabyte. Without a snapshot nothing is written. *)
Theorem written_batches_are_owned (cfg : Config) (l l' : lane) (epoch : Z)
  (sendErr : option goerr) (r : goerr + unit) :
  journal_wf cfg (rows (ln_db l)) ->
  sendEventBatch epoch sendErr l = (r, l') ->
  ln_wire l' = ln_wire l \/
  exists asg evs, a_assignments (ln_adapter l) = Some asg /\ evs <> [] /\
    ln_wire l' = ln_wire l ++ [evs] /\
    (length evs <= 256)%nat /\ proto_Size evs <= 2 ^ 20 /\
    Forall (fun ev => exists row, row ∈ journal_entries (rows (ln_db l)) /\
                                  delivers (ln_adapter l) epoch asg ev row) evs.
Proof.
  intros Hwf Hrun. unfold sendEventBatch in Hrun.
  destruct (ln_eventInFlight l); [injection Hrun as _ <-; by left|].
  destruct (NextEventBatch _ _ _) as [[err|evs] d'] eqn:Hn; [injection Hrun as _ <-; by left|].
  destruct (last evs) as [e|] eqn:Hl; [|injection Hrun as _ <-; by left].
  destruct sendErr; injection Hrun as _ <-; [by left | right].
  assert (Hne : evs <> []) by (by intros ->).
  destruct (NextEventBatch_events _ _ _ _ _ _ Hwf Hn Hne) as (asg & n & Ha & HF & Hlen & Hsz).
  exists asg, evs. split; [done|]. split; [done|]. split; [done|]. split; [exact Hlen|].
  split; [exact Hsz|]. eapply Forall_impl; [exact HF|]. cbn. intros ev (row & Hin & Hd).
  exists row. split; [|done]. eapply subseteq_take, Hin.
Qed.

Lemma NextEventBatch_run cfg a epoch s asg :
  journal_wf cfg s -> a_assignments a = Some asg -> journal_entries s <> [] ->
  (forall r, r ∈ journal_entries s -> exists ev, decodeJournalEvent (jr_payload r) = inr ev /\
     proto_Size [stamp_event (entry_of r) (a_GatewayID a) epoch ev] <= DefaultBatchBytes) ->
  exists evs,
    (evs <> [] /\ NextEventBatch a epoch (Db s []) = (inr evs, Db s [])) \/
    (evs = [] /\ exists n r, last (take n (journal_entries s)) = Some r /\
       NextEventBatch a epoch (Db s []) =
         (inr [], Db (MkJdb (drop n (journal_entries s)) (autoinc s) (jr_seq r) (command_results s)) [])).
Proof.
  intros Hwf Ha Hne Hdec. unfold NextEventBatch. rewrite Ha. unfold batch.
  unfold mbind, M_bind. rewrite (ReadUnacked_run cfg) by done.
  destruct (read_loop_prefix DefaultBatchBytes
    (take (Z.to_nat DefaultBatchEntries) (journal_entries s)) [] 0) as (n0 & _ & Heq & Hpos).
  rewrite take_take in Heq. rewrite Heq. cbn [app]. set (n := (n0 `min` _)%nat).
  assert (Htake : take n (journal_entries s) <> []).
  { assert (1 <= n0)%nat.
    { apply Hpos; [done|]. intros Hnil. destruct (journal_entries s); [done|].
      by vm_compute in Hnil. }
    assert (n <> 0%nat) by (unfold n; change (Z.to_nat DefaultBatchEntries) with 256%nat; lia).
    by destruct (journal_entries s), n. }
  destruct (batch_loop_total DefaultBatchBytes (a_GatewayID a) epoch decodeJournalEvent (Some asg)
    (entry_of <$> take n (journal_entries s)) []) as [evs Hevs].
  { rewrite Forall_fmap, Forall_forall. intros r Hr. apply Hdec. eapply subseteq_take, Hr. }
  rewrite Hevs. unfold lift_result. exists evs. destruct evs as [|ev evs].
  - right. split; [done|]. rewrite last_entry_of.
    destruct (last (take n (journal_entries s))) as [r|] eqn:Hr; [|by apply last_None in Hr].
    exists n, r. split; [done|]. cbn.
    rewrite (u64_id (jr_seq r)); [by rewrite (Ack_run _ _ _ _ Hwf Hr)|].
    eapply wf_row_u64; [exact Hwf|]. eapply subseteq_take, last_Some_elem_of, Hr.
  - left. split; [done | reflexivity].
Qed.

(** Progress. On an idle connection with a snapshot, when SQLite works and
    every stored payload decodes to an event that fits a batch by itself, one
    round - send a batch, and take the acknowledgement if one was sent -
    removes a nonempty prefix of the journal and leaves the lane idle, so
    events of deleted sessions cannot block the queue and a finite number of
    rounds drains it. *)
Theorem lane_round_makes_progress (cfg : Config) (l : lane) (s : jdb) (epoch : Z)
  (asg : gmap string eventAssignment) :
  journal_wf cfg s -> ln_db l = Db s [] -> ln_eventInFlight l = false ->
  a_assignments (ln_adapter l) = Some asg -> journal_entries s <> [] ->
  (forall r, r ∈ journal_entries s -> exists ev, decodeJournalEvent (jr_payload r) = inr ev /\
     proto_Size [stamp_event (entry_of r) (a_GatewayID (ln_adapter l)) epoch ev] <= 2 ^ 20) ->
  let l1 := (sendEventBatch epoch None l).2 in
  let l2 := if ln_eventInFlight l1 then (acceptEventAck (ln_expectedEventAck l1) l1).2 else l1 in
  (sendEventBatch epoch None l).1 = inr tt /\ ln_eventInFlight l2 = false /\
  exists n, (0 < n)%nat /\ journal_entries (rows (ln_db l2)) = drop n (journal_entries s).
Proof.
  intros Hwf Hdb Hidle Ha Hne Hdec.
  destruct (NextEventBatch_run cfg (ln_adapter l) epoch s asg Hwf Ha Hne Hdec)
    as [evs [[Hevs Hn]|(-> & n & r & Hr & Hn)]].
  - destruct (NextEventBatch_events cfg _ _ (Db s []) _ _ Hwf Hn Hevs) as (asg' & m & _ & HF & _ & _).
    destruct (last evs) as [e|] eqn:Hl; [|by apply last_None in Hl].
    apply last_Some_elem_of in Hl as Hin. rewrite Forall_forall in HF.
    destruct (HF _ Hin) as (row & Hrow & [Hseq _] & _). cbn in Hrow.
    apply subseteq_take, list_elem_of_lookup in Hrow as [i Hi].
    unfold sendEventBatch. rewrite Hidle, Hdb, Hn, Hl. cbn.
    unfold acceptEventAck, AckEvents. cbn. rewrite Z.eqb_refl, Hseq. cbn.
    assert (Hlast : last (take (S i) (journal_entries s)) = Some row).
    { by rewrite (take_S_r _ _ row), last_snoc by done. }
    rewrite (Ack_run _ _ _ _ Hwf Hlast). cbn. split; [done|]. split; [done|].
    exists (S i). split; [lia | done].
  - unfold sendEventBatch. rewrite Hidle, Hdb, Hn. cbn. split; [done|]. split; [done|].
    exists n. split; [|done]. destruct n; [done | lia].
Qed.

(** Replay cannot relabel a historical event: whatever the assignment is
    when it is read back, a stored event decodes to the session, organization,
    type, time and assignment epoch it was accepted under, with the JSON of the
    event (and its media source) as payload. *)
Theorem stored_event_keeps_its_epoch (event : Event) (epoch : Z) (b encoded : bytes) :
  EventCodecLaws C ->
  marshal_persisted (MkPersistedEvent (ev_MediaSource event) event epoch) = inr b ->
  ev_ID event <> "" -> epoch <> 0 -> ev_Session event <> "" -> ev_Organization event <> "" ->
  encode_struct (attach_media_source (ev_MediaSource event) (event_object event)) = inr encoded ->
  decodeJournalEvent b =
    inr (MkGatewayEvent 0 "" "" 0 epoch (ev_Session event) (ev_Organization event)
           (ev_Type event) (ev_Timestamp event) encoded).
Proof.
  intros HL Hm Hid Hep Hs Ho He. unfold decodeJournalEvent.
  rewrite (unmarshal_marshal _ _ Hm). cbn [pe_Event pe_AssignmentEpoch pe_MediaSource ev_ID
    ev_Session ev_Organization ev_Type ev_Timestamp].
  rewrite !bool_decide_eq_false_2, (proj2 (Z.eqb_neq _ _) Hep) by done. cbn [orb].
  change (event_object (MkEvent _ _ _ _ _ _ _ _)) with (event_object event).
  by rewrite He.
Qed.
End Codec.

(** ** A concrete codec

    It stores exactly one event, the byte ["m"], and measures ten bytes per
    event. *)
Definition demo_event : Event :=
  MkEvent "" "v1" "evt_1" "message" "sess_1" "org_1" 1 JNull.
Definition demo_persisted : persistedEvent := MkPersistedEvent "" demo_event 3.

Definition is_demo (p : persistedEvent) : bool :=
  bool_decide (pe_MediaSource p = "") && (pe_AssignmentEpoch p =? 3) &&
  bool_decide (ev_Schema (pe_Event p) = "v1") && bool_decide (ev_ID (pe_Event p) = "evt_1") &&
  bool_decide (ev_Type (pe_Event p) = "message") &&
  bool_decide (ev_Session (pe_Event p) = "sess_1") &&
  bool_decide (ev_Organization (pe_Event p) = "org_1") && (ev_Timestamp (pe_Event p) =? 1) &&
  match ev_Payload (pe_Event p) with JNull => true | _ => false end.

#[local] Instance demo_codec : EventCodec := {|
  marshal_persisted p :=
    if is_demo p then inr ["m"%byte] else inl (ErrMsg "json: unsupported value");
  unmarshal_persisted b :=
    match b with
    | ["m"%byte] => inr demo_persisted
    | _ => inl (ErrMsg "json: syntax error")
    end;
  encode_struct _ := inr ["s"%byte];
  proto_Size l := 10 * len l;
|}.

Lemma demo_codec_laws : EventCodecLaws demo_codec.
Proof.
  split.
  - intros [src [ms sc id ty se org ts pl] ep] b. cbn [marshal_persisted demo_codec].
    destruct (is_demo _) eqn:Hd; [|discriminate]. intros [= <-].
    unfold is_demo in Hd. to_prop. cbn in *. subst. destruct pl; try discriminate. done.
  - intros p b. cbn. by destruct (is_demo p); intros [= <-].
Qed.

Definition demo_snapshot (epoch revision : Z) : DesiredStateSnapshot :=
  MkDesiredStateSnapshot revision
    [MkSessionAssignment "sess_1" "org_1" epoch 0 None None SESSION_DESIRED_ACTION_RUN].

Definition demo_lane (s : jdb) : lane :=
  MkLane (Db s []) (MkControlAdapter "gw_1" None 0) false 0 [].
Definition demo_stored : jdb :=
  rows (AppendDomainEvent DefaultConfig demo_event 3 (Db empty_jdb [])).2.
Definition demo_row : JRow := MkJRow 1 "evt_1" ["m"%byte] 1.

(** An event of another epoch: the snapshot retires it and the batch is empty;
    under its own epoch it is sent, acknowledged and gone. *)
Definition demo_world : world := MkWorld (demo_lane demo_stored) [] [].
Definition demo_applied (epoch : Z) : world :=
  MkWorld (applyAssignments (demo_snapshot epoch 1) (w_lane demo_world)) []
          [Applied (demo_snapshot epoch 1)].
Definition demo_sent_lane (epoch : Z) : lane := (sendEventBatch 5 None (w_lane (demo_applied epoch))).2.

Lemma demo_cap : cap_ok DefaultConfig.
Proof. split; vm_compute; reflexivity. Qed.

Lemma demo_stored_wf : journal_wf DefaultConfig demo_stored.
Proof.
  refine (AppendDomainEvent_keeps_wf DefaultConfig demo_event 3 demo_cap _ _ _ _
    (surjective_pairing (AppendDomainEvent DefaultConfig demo_event 3 (Db empty_jdb []))) _).
  - intros b [= <-]. vm_compute. reflexivity.
  - apply empty_jdb_wf, demo_cap.
Qed.

Lemma at_least_once_delivery_witness :
  let w2 := MkWorld (acceptEventAck 1 (demo_sent_lane 3)).2 (ln_wire (demo_sent_lane 3))
                    (w_notes (demo_applied 3)) in
  entries_of demo_world = [demo_row] /\ entries_of w2 = [] /\
  (demo_row ∈ entries_of w2 \/ was_acked w2 demo_row \/ was_retired DefaultConfig demo_world w2 demo_row).
Proof.
  intros w2. split; [vm_compute; reflexivity|]. split; [vm_compute; reflexivity|].
  apply (at_least_once_delivery DefaultConfig demo_world demo_world w2 demo_row demo_cap).
  - split; [apply demo_stored_wf | reflexivity..].
  - reflexivity.
  - vm_compute. left.
  - eapply rtc_l; [apply (step_snapshot _ demo_world (demo_snapshot 3 1))|].
    eapply rtc_l; [eapply (step_send _ (demo_applied 3) 5 None []); apply surjective_pairing|].
    apply rtc_once.
    apply (step_ack _ (MkWorld (demo_sent_lane 3) [] (w_notes (demo_applied 3))) 1 []).
    vm_compute. reflexivity.
Defined.

Lemma written_batches_are_owned_witness :
  ln_wire (demo_sent_lane 3) <> [] /\ ln_wire (demo_sent_lane 4) = [] /\
  (ln_wire (demo_sent_lane 3) = ln_wire (w_lane (demo_applied 3)) \/
   exists asg evs, a_assignments (ln_adapter (w_lane (demo_applied 3))) = Some asg /\ evs <> [] /\
    ln_wire (demo_sent_lane 3) = ln_wire (w_lane (demo_applied 3)) ++ [evs] /\
    (length evs <= 256)%nat /\ proto_Size evs <= 2 ^ 20 /\
    Forall (fun ev => exists row, row ∈ journal_entries demo_stored /\
      delivers (ln_adapter (w_lane (demo_applied 3))) 5 asg ev row) evs).
Proof.
  split; [vm_compute; discriminate|]. split; [vm_compute; reflexivity|].
  apply (written_batches_are_owned DefaultConfig (w_lane (demo_applied 3)) (demo_sent_lane 3) 5 None
           (inr tt)); [apply demo_stored_wf | vm_compute; reflexivity].
Defined.

Lemma lane_round_makes_progress_witness :
  let l := w_lane (demo_applied 4) in
  let l1 := (sendEventBatch 5 None l).2 in
  let l2 := if ln_eventInFlight l1 then (acceptEventAck (ln_expectedEventAck l1) l1).2 else l1 in
  (sendEventBatch 5 None l).1 = inr tt /\ ln_eventInFlight l2 = false /\
  exists n, (0 < n)%nat /\ journal_entries (rows (ln_db l2)) = drop n (journal_entries demo_stored).
Proof.
  apply (lane_round_makes_progress DefaultConfig (w_lane (demo_applied 4)) demo_stored 5
           (snapshot_assignments (ds_assignments (demo_snapshot 4 1))) demo_stored_wf);
    [reflexivity..| vm_compute; discriminate |].
  intros r Hr. change (journal_entries demo_stored) with [demo_row] in Hr.
  apply list_elem_of_singleton in Hr as ->.
  eexists. split; [vm_compute; reflexivity | vm_compute; discriminate].
Defined.

Lemma stored_event_keeps_its_epoch_witness :
  decodeJournalEvent ["m"%byte] =
    inr (MkGatewayEvent 0 "" "" 0 3 "sess_1" "org_1" "message" 1 ["s"%byte]).
Proof.
  apply (stored_event_keeps_its_epoch demo_event 3 ["m"%byte] ["s"%byte] demo_codec_laws);
    (reflexivity || discriminate).
Defined.
