(* ===== verification/ControlServer.v ===== *)
(** * The API side of the control stream

    Models [internal/api/gateway/control.go]: one control connection of a
    gateway from its hello frame to the deferred disconnect. [Connect] runs over
    a store (the class [ControlStore]), whose every call and every frame sent is
    recorded in the order they happen. What the connection's [select] yields
    next, a frame, a receive error, the expired timer or the cancelled context,
    is the list of [arrival]s; when it is exhausted the receiver's channel is
    closed. The outcome of each [stream.Send] and the readings of the clock are
    part of the world. URL parsing is the class [OriginLib]. *)

From stdpp Require Import pretty.
From S2P Require Import Prelude Journal Domain Wire JournalControl.

#[local] Open Scope Z_scope.

Definition ProtocolVersion : Z := 1.
Definition Millisecond : Z := 1000000.
Definition DefaultHeartbeatInterval : Z := 5 * Second.
Definition DefaultLeaseTimeout : Z := 15 * Second.
Definition MaxInstanceIDBytes : Z := 128.
Definition MaxSoftwareVersionBytes : Z := 128.
Definition MaxGRPCEndpointBytes : Z := 512.
Definition MaxHTTPBaseURLBytes : Z := 512.
Definition MaxGatewayCapabilities : Z := 16.
Definition MaxGatewayEventBatch : Z := 256.
Definition MaxGatewayEventBatchBytes : Z := Z.shiftl 1 20.
Definition maxUnixMillis : Z := 253402300799999.

Definition ErrUnauthorized : goerr := ErrMsg "gateway unauthorized".
Definition ErrConflict : goerr := ErrMsg "gateway connection conflict".
Definition ErrStaleEpoch : goerr := ErrMsg "stale gateway connection epoch".
Definition ErrUnavailable : goerr := ErrMsg "gateway persistence unavailable".

(** ** The values of the store boundary *)

Record Hello := MkHello {
  he_InstanceID : string;
  he_SoftwareVersion : string;
  he_GRPCEndpoint : string;
  he_HTTPBaseURL : string;
  he_Capabilities : list GatewayCapability;
  he_StartedAt : GoTime;
  he_SessionCount : Z;
  he_RuntimeState : GatewayRuntimeState;
}.

Record Heartbeat := MkHeartbeat {
  hv_LastControlSequence : Z;
  hv_SentAt : GoTime;
  hv_SessionCount : Z;
  hv_RuntimeState : GatewayRuntimeState;
  hv_JournalState : GatewayJournalState;
  hv_JournalEntries : Z;
  hv_JournalBytes : Z;
}.

Record LifecycleReport := MkLifecycleReport {
  lv_DirectiveID : string;
  lv_State : GatewayRuntimeState;
  lv_Failure : LifecycleFailure;
}.

Record DesiredLifecycle := MkDesiredLifecycle {
  dl_Action : LifecycleDirectiveAction;
  dl_Revision : Z;
}.

Record DesiredSession := MkDesiredSession {
  de_SessionID : string;
  de_OrganizationID : string;
  de_DeviceJID : string;
  de_DesiredAction : SessionDesiredAction;
  de_AssignmentEpoch : Z;
  de_ConfigRevision : Z;
  de_AutoRead : bool;
  de_PresenceTyping : bool;
  de_RatePerMin : Z;
  de_RatePerHour : Z;
  de_HistorySyncDays : Z;
  de_LeaseExpiresAt : GoTime;
}.

Record DesiredState := MkDesiredState {
  dd_Revision : Z;
  dd_Assignments : list DesiredSession;
}.

Record ReportedResult := MkReportedResult {
  rs_SessionID : option string;
  rs_AssignmentEpoch : Z;
  rs_DeviceJID : string;
  rs_Status : string;
}.

Record ReconciliationReport := MkReconciliationReport {
  re_Revision : Z;
  re_KeystoreState : string;
  re_KeystoreBytes : option Z;
  re_CheckedAt : option Z;
  re_LocalDevices : list string;
  re_Results : list ReportedResult;
}.

(** [apigateway.GatewayEvent]. *)
Record ControlEvent := MkControlEvent {
  ce_JournalSequence : Z;
  ce_ConnectionEpoch : Z;
  ce_AssignmentEpoch : Z;
  ce_EventID : string;
  ce_SessionID : string;
  ce_OrganizationID : string;
  ce_Type : string;
  ce_OccurredAt : GoTime;
  ce_Payload : bytes;
}.

Record Connection := MkConnection {
  cn_ID : string;
  cn_Epoch : Z;
  cn_HeartbeatInterval : Z;
  cn_LeaseTimeout : Z;
  cn_DesiredLifecycle : LifecycleDirectiveAction;
  cn_DesiredRevision : Z;
}.

(** The interface [Store]. *)
Class ControlStore (S : Type) := {
  cs_Accept : string -> Hello -> M S Connection;
  cs_Heartbeat : string -> Z -> Heartbeat -> M S DesiredLifecycle;
  cs_DesiredState : string -> Z -> Z -> GoTime -> M S DesiredState;
  cs_PersistDesiredStateReport : string -> Z -> ReconciliationReport -> M S unit;
  cs_IngestEvents : string -> Z -> list ControlEvent -> M S unit;
  cs_Lifecycle : string -> Z -> LifecycleReport -> M S unit;
  cs_Disconnect : string -> Z -> M S unit;
}.

(** A parsed URL; [pu_String] is its [String()]. *)
Record ParsedURL := MkParsedURL {
  pu_Scheme : string;
  pu_Hostname : string;
  pu_HasUser : bool;
  pu_RawQuery : string;
  pu_Fragment : string;
  pu_RawPath : string;
  pu_Path : string;
  pu_String : string;
}.
Class OriginLib := { parse_url : string -> option ParsedURL }.

(** ** Validation of received frames *)

Definition failed (code msg : string) : goerr := ErrStatus code msg.
Definition FailedPrecondition (msg : string) : goerr := failed "FailedPrecondition" msg.
Definition InvalidArgument (msg : string) : goerr := failed "InvalidArgument" msg.
Definition Internal (msg : string) : goerr := failed "Internal" msg.

Definition knownRuntimeState (state : GatewayRuntimeState) : bool :=
  match state with
  | GATEWAY_RUNTIME_STATE_STARTING | GATEWAY_RUNTIME_STATE_READY | GATEWAY_RUNTIME_STATE_DRAINING
  | GATEWAY_RUNTIME_STATE_DRAINED | GATEWAY_RUNTIME_STATE_DEGRADED => true
  | _ => false
  end.

Definition knownCapability (capability : GatewayCapability) : bool :=
  match capability with
  | GATEWAY_CAPABILITY_SESSION_ENGINE | GATEWAY_CAPABILITY_EVENT_STREAM
  | GATEWAY_CAPABILITY_COMMAND_EXECUTION => true
  | _ => false
  end.

Definition knownJournalState (state : GatewayJournalState) : bool :=
  match state with GatewayJournalState_unnamed _ => false | _ => true end.

Definition knownLifecycleAction (action : LifecycleDirectiveAction) : bool :=
  match action with
  | LIFECYCLE_DIRECTIVE_ACTION_RUN | LIFECYCLE_DIRECTIVE_ACTION_DRAIN
  | LIFECYCLE_DIRECTIVE_ACTION_DISABLE => true
  | _ => false
  end.

Definition knownLifecycleFailure (failure : LifecycleFailure) : bool :=
  match failure with
  | LIFECYCLE_FAILURE_NONE | LIFECYCLE_FAILURE_BUSY | LIFECYCLE_FAILURE_TIMEOUT
  | LIFECYCLE_FAILURE_INTERNAL => true
  | _ => false
  end.

Definition lifecycleActionSatisfied (action : LifecycleDirectiveAction) (state : GatewayRuntimeState)
  : bool :=
  match action with
  | LIFECYCLE_DIRECTIVE_ACTION_RUN => bool_decide (state = GATEWAY_RUNTIME_STATE_READY)
  | LIFECYCLE_DIRECTIVE_ACTION_DRAIN | LIFECYCLE_DIRECTIVE_ACTION_DISABLE =>
      bool_decide (state = GATEWAY_RUNTIME_STATE_DRAINED)
  | _ => false
  end.

Definition len (s : string) : Z := Z.of_nat (String.length s).

Definition validateEnvelope (frame : option GatewayFrame) (sequence : Z) : goerr + GatewayPayload :=
  match frame with
  | None => inl (FailedPrecondition "unsupported gateway control protocol")
  | Some f =>
      if negb (gf_ProtocolVersion f =? ProtocolVersion) then
        inl (FailedPrecondition "unsupported gateway control protocol")
      else if negb (gf_Sequence f =? sequence) then
        inl (FailedPrecondition "gateway frame sequence mismatch")
      else match gf_Payload f with
           | None => inl (InvalidArgument "gateway frame payload required")
           | Some payload => inr payload
           end
  end.

Fixpoint check_capabilities (seen capabilities : list GatewayCapability) : option goerr :=
  match capabilities with
  | [] => None
  | c :: rest =>
      if negb (knownCapability c) then Some (InvalidArgument "invalid gateway capability")
      else if bool_decide (c ∈ seen) then Some (InvalidArgument "duplicate gateway capability")
      else check_capabilities (c :: seen) rest
  end.

Section Validation.
Context `{OriginLib}.

Definition validateHTTPBaseURL (raw : string) : option goerr :=
  let invalid := Some (InvalidArgument "invalid gateway HTTP base URL") in
  if (len raw =? 0) || (MaxHTTPBaseURLBytes <? len raw) then invalid
  else match parse_url raw with
  | None => invalid
  | Some u =>
      let httpScheme := bool_decide (pu_Scheme u = "http") || bool_decide (pu_Scheme u = "https") in
      let bareOrigin := negb (bool_decide (pu_Hostname u = "")) && negb (pu_HasUser u) &&
        bool_decide (pu_RawQuery u = "") && bool_decide (pu_Fragment u = "") &&
        bool_decide (pu_RawPath u = "") && bool_decide (pu_Path u = "") in
      if negb httpScheme || negb bareOrigin || negb (bool_decide (pu_String u = raw)) then invalid
      else None
  end.

Definition validateHello (hello : GatewayHello) : option goerr :=
  if (len (gh_InstanceId hello) =? 0) || (MaxInstanceIDBytes <? len (gh_InstanceId hello)) then
    Some (InvalidArgument "invalid gateway instance id")
  else if (len (gh_SoftwareVersion hello) =? 0) ||
          (MaxSoftwareVersionBytes <? len (gh_SoftwareVersion hello)) then
    Some (InvalidArgument "invalid gateway software version")
  else if from_option (fun e => MaxGRPCEndpointBytes <? len e) false (gh_GrpcEndpoint hello) then
    Some (InvalidArgument "invalid gateway gRPC endpoint")
  else match from_option validateHTTPBaseURL None (gh_HttpBaseUrl hello) with
  | Some err => Some err
  | None =>
      if (gh_StartedAtUnixMs hello <=? 0) || (maxUnixMillis <? gh_StartedAtUnixMs hello) then
        Some (InvalidArgument "invalid gateway start time")
      else if negb (knownRuntimeState (gh_RuntimeState hello)) then
        Some (InvalidArgument "invalid gateway runtime state")
      else if MaxGatewayCapabilities <? Z.of_nat (length (gh_Capabilities hello)) then
        Some (InvalidArgument "too many gateway capabilities")
      else check_capabilities [] (gh_Capabilities hello)
  end.
End Validation.

Definition validateHeartbeat (heartbeat : option GatewayHeartbeat) : goerr + GatewayHeartbeat :=
  match heartbeat with
  | None => inl (InvalidArgument "invalid gateway heartbeat")
  | Some h =>
      let badClock := (hb_SentAtUnixMs h <=? 0) || (maxUnixMillis <? hb_SentAtUnixMs h) in
      if (hb_ConnectionEpoch h =? 0) || badClock || negb (knownRuntimeState (hb_RuntimeState h)) then
        inl (InvalidArgument "invalid gateway heartbeat")
      else if negb (knownJournalState (hb_JournalState h)) then
        inl (InvalidArgument "invalid gateway journal state")
      else if bool_decide (hb_JournalState h = GATEWAY_JOURNAL_STATE_UNKNOWN) &&
              (negb (hb_JournalEntries h =? 0) || negb (hb_JournalBytes h =? 0)) then
        inl (InvalidArgument "gateway journal telemetry requires a journal state")
      else inr h
  end.

Record issuedDirective := MkIssuedDirective {
  id_id : string;
  id_action : LifecycleDirectiveAction;
}.

(** [strconv.FormatUint(revision, 10)]. *)
Definition directiveID (connectionID : string) (revision : Z) : string :=
  connectionID +:+ ":" +:+ pretty (Z.to_N revision).

Definition validateLifecycleReport (report : option GatewayLifecycleReport) (epoch : Z)
  (directive : issuedDirective) : goerr + GatewayLifecycleReport :=
  match report with
  | None => inl (InvalidArgument "invalid gateway lifecycle report")
  | Some r =>
      if bool_decide (lr_DirectiveId r = "") || negb (knownRuntimeState (lr_State r)) ||
         negb (knownLifecycleFailure (lr_Failure r)) then
        inl (InvalidArgument "invalid gateway lifecycle report")
      else if negb (lr_ConnectionEpoch r =? epoch) then
        inl (FailedPrecondition "gateway connection epoch mismatch")
      else if negb (bool_decide (lr_DirectiveId r = id_id directive)) then
        inl (FailedPrecondition "gateway lifecycle directive acknowledgement mismatch")
      else if bool_decide (lr_Failure r = LIFECYCLE_FAILURE_NONE) &&
              negb (lifecycleActionSatisfied (id_action directive) (lr_State r)) then
        inl (FailedPrecondition "gateway lifecycle directive result mismatch")
      else inr r
  end.

Definition validateDesiredStateReport (report : option ReceivedReport) (epoch : Z)
  : goerr + (ReceivedReport * KeystoreHealth) :=
  match report with
  | None => inl (FailedPrecondition "invalid desired state report")
  | Some r =>
      match rp_KeystoreHealth r with
      | None => inl (FailedPrecondition "invalid desired state report")
      | Some health =>
          let badEpoch := (rp_ConnectionEpoch r =? 0) || negb (rp_ConnectionEpoch r =? epoch) in
          match kh_State health with
          | KEYSTORE_HEALTH_STATE_UNKNOWN => inl (FailedPrecondition "invalid desired state report")
          | _ => if badEpoch then inl (FailedPrecondition "invalid desired state report")
                 else inr (r, health)
          end
      end
  end.

(** The name of the enumeration's value without its prefix, in lower case; a
    value the schema does not name prints as its number. *)
Definition keystore_state (state : KeystoreHealthState) : string :=
  match state with
  | KEYSTORE_HEALTH_STATE_UNKNOWN => "unknown"
  | KEYSTORE_HEALTH_STATE_HEALTHY => "healthy"
  | KEYSTORE_HEALTH_STATE_MISSING => "missing"
  | KEYSTORE_HEALTH_STATE_CORRUPT => "corrupt"
  | KeystoreHealthState_unnamed n => pretty n
  end.

Definition result_status (st : ReconciliationResultStatus) : string :=
  match st with
  | RECONCILIATION_RESULT_STATUS_UNKNOWN => "unknown"
  | RECONCILIATION_RESULT_STATUS_APPLIED => "applied"
  | RECONCILIATION_RESULT_STATUS_KEYSTORE_MISSING => "keystore_missing"
  | RECONCILIATION_RESULT_STATUS_KEYSTORE_CORRUPT => "keystore_corrupt"
  | RECONCILIATION_RESULT_STATUS_UNEXPECTED_LOCAL_DEVICE => "unexpected_local_device"
  | ReconciliationResultStatus_unnamed n => pretty n
  end.

Definition reconciliationReport (report : ReceivedReport) (health : KeystoreHealth)
  : ReconciliationReport := {|
  re_Revision := rp_ProcessedRevision report;
  re_KeystoreState := keystore_state (kh_State health);
  re_KeystoreBytes := kh_ByteSize health;
  re_CheckedAt := kh_LastCheckedAtUnixMs health;
  re_LocalDevices := rp_LocalDevices report;
  re_Results := (fun r => MkReportedResult (rr_session_id r) (rr_assignment_epoch r) (rr_device_jid r)
                   (result_status (rr_status r))) <$> rp_Results report;
|}.

Definition helloValue (v : GatewayHello) : Hello := {|
  he_InstanceID := gh_InstanceId v;
  he_SoftwareVersion := gh_SoftwareVersion v;
  he_GRPCEndpoint := default "" (gh_GrpcEndpoint v);
  he_HTTPBaseURL := default "" (gh_HttpBaseUrl v);
  he_Capabilities := gh_Capabilities v;
  he_StartedAt := FromUnixMilli (gh_StartedAtUnixMs v);
  he_SessionCount := gh_SessionCount v;
  he_RuntimeState := gh_RuntimeState v;
|}.

Definition heartbeatValue (v : GatewayHeartbeat) : Heartbeat := {|
  hv_LastControlSequence := hb_LastControlSequence v;
  hv_SentAt := FromUnixMilli (hb_SentAtUnixMs v);
  hv_SessionCount := hb_SessionCount v;
  hv_RuntimeState := hb_RuntimeState v;
  hv_JournalState := hb_JournalState v;
  hv_JournalEntries := hb_JournalEntries v;
  hv_JournalBytes := hb_JournalBytes v;
|}.

Definition lifecycleValue (v : GatewayLifecycleReport) : LifecycleReport :=
  MkLifecycleReport (lr_DirectiveId v) (lr_State v) (lr_Failure v).

(** [uint32] milliseconds of a positive duration, saturated. *)
Definition durationMillis (v : Z) : Z :=
  let ms := Z.quot v Millisecond in
  if 2 ^ 32 - 1 <? ms then 2 ^ 32 - 1 else ms.

(** ** Event batches *)

Section Batches.
Context `{EventCodec}.

Definition acceptable_event (gatewayID : string) (epoch last : Z) (v : GatewayEvent) : bool :=
  let unknownGateway := negb (bool_decide (ge_GatewayId v = gatewayID)) in
  let badSequence := (ge_JournalSequence v =? 0) || (ge_JournalSequence v <=? last) in
  let wrongEpoch := negb (ge_ConnectionEpoch v =? epoch) in
  let unassigned := ge_AssignmentEpoch v =? 0 in
  let missingIdentity := bool_decide (ge_EventId v = "") || bool_decide (ge_SessionId v = "") ||
    bool_decide (ge_OrganizationId v = "") || bool_decide (ge_EventType v = "") in
  let badTimestamp := ge_OccurredAtUnixMs v <=? 0 in
  negb (unknownGateway || badSequence || wrongEpoch || unassigned || missingIdentity || badTimestamp).

Definition control_event (v : GatewayEvent) : ControlEvent := {|
  ce_JournalSequence := ge_JournalSequence v;
  ce_ConnectionEpoch := ge_ConnectionEpoch v;
  ce_AssignmentEpoch := ge_AssignmentEpoch v;
  ce_EventID := ge_EventId v;
  ce_SessionID := ge_SessionId v;
  ce_OrganizationID := ge_OrganizationId v;
  ce_Type := ge_EventType v;
  ce_OccurredAt := FromUnixMilli (ge_OccurredAtUnixMs v);
  ce_Payload := ge_Payload v;
|}.

Fixpoint event_loop (gatewayID : string) (epoch last : Z) (events : list (option GatewayEvent))
  (out : list ControlEvent) : goerr + list ControlEvent :=
  match events with
  | [] => inr out
  | None :: _ => inl (FailedPrecondition "invalid gateway event")
  | Some v :: rest =>
      if negb (acceptable_event gatewayID epoch last v) then
        inl (FailedPrecondition "invalid gateway event")
      else event_loop gatewayID epoch (ge_JournalSequence v) rest (out ++ [control_event v])
  end.

(** The size of a batch counts an absent event as an empty one. *)
Definition empty_event : GatewayEvent := MkGatewayEvent 0 "" "" 0 0 "" "" "" 0 [].

Definition eventBatch (batch : option (list (option GatewayEvent))) (gatewayID : string) (epoch : Z)
  : goerr + list ControlEvent :=
  match batch with
  | None => inl (InvalidArgument "invalid gateway event batch")
  | Some events =>
      if bool_decide (events = []) || (MaxGatewayEventBatch <? Z.of_nat (length events)) then
        inl (InvalidArgument "invalid gateway event batch")
      else if MaxGatewayEventBatchBytes <? proto_Size (default empty_event <$> events) then
        inl (InvalidArgument "gateway event batch too large")
      else event_loop gatewayID epoch 0 events []
  end.
End Batches.

(** ** Desired state *)

Definition valid_assignment (revision : Z) (minimumLease : GoTime) (a : DesiredSession) : bool :=
  let missingIdentity := bool_decide (de_SessionID a = "") || bool_decide (de_OrganizationID a = "") in
  let unknownAction := bool_decide (de_DesiredAction a = SESSION_DESIRED_ACTION_UNKNOWN) in
  let staleRevision := negb (de_ConfigRevision a =? revision) in
  let expiredLease := negb (After (de_LeaseExpiresAt a) (minimumLease - Millisecond)) in
  negb (missingIdentity || (de_AssignmentEpoch a =? 0) || unknownAction || staleRevision || expiredLease).

Definition validDesiredState (desired : DesiredState) (minimumLease : GoTime) : bool :=
  negb (dd_Revision desired =? 0) &&
  forallb (valid_assignment (dd_Revision desired) minimumLease) (dd_Assignments desired).

Definition session_assignment (a : DesiredSession) : SessionAssignment := {|
  sa_session_id := de_SessionID a;
  sa_organization_id := de_OrganizationID a;
  sa_assignment_epoch := de_AssignmentEpoch a;
  sa_lease_expires_at_unix_ms := UnixMilli (de_LeaseExpiresAt a);
  sa_config := Some (MkSessionConfig (de_ConfigRevision a) (de_AutoRead a) (de_PresenceTyping a)
                 (de_RatePerMin a) (de_RatePerHour a) (de_HistorySyncDays a));
  sa_device_jid := if bool_decide (de_DeviceJID a = "") then None else Some (de_DeviceJID a);
  sa_desired_action := de_DesiredAction a;
|}.

(** ** Errors of the stream *)

Definition storeStatus (err : goerr) : goerr :=
  if errors_is Canceled err then failed "Canceled" "gateway control canceled"
  else if errors_is DeadlineExceeded err then failed "DeadlineExceeded" "gateway control deadline exceeded"
  else if errors_is ErrUnauthorized err then failed "PermissionDenied" "gateway is not authorized"
  else if errors_is ErrConflict err then failed "Aborted" "gateway connection conflict"
  else if errors_is ErrStaleEpoch err then FailedPrecondition "stale gateway connection epoch"
  else if errors_is ErrUnavailable err then failed "Unavailable" "gateway control temporarily unavailable"
  else Internal "gateway control failed".

Definition sendStatus (err : goerr) : goerr :=
  if errors_is Canceled err then failed "Canceled" "gateway control canceled"
  else if errors_is DeadlineExceeded err then failed "DeadlineExceeded" "gateway control deadline exceeded"
  else failed "Unavailable" "gateway control stream unavailable".

Definition receiveStatus (err : goerr) : goerr :=
  if negb (bool_decide (status_code err = "Unknown")) then err
  else if errors_is EOF err then FailedPrecondition "hello frame required"
  else sendStatus err.

(** ** One connection *)

Inductive arrival :=
  | Arrived (frame : option GatewayFrame)
  | RecvFailed (err : goerr)
  | TimerFired
  | ContextDone (err : goerr).

(** What a connection did. *)
Inductive control_action :=
  | DidAccept (gatewayID : string) (hello : Hello) (r : goerr + Connection)
  | DidHeartbeat (gatewayID : string) (epoch : Z) (h : Heartbeat) (r : goerr + DesiredLifecycle)
  | DidDesired (gatewayID : string) (epoch revision : Z) (lease : GoTime) (r : goerr + DesiredState)
  | DidReport (gatewayID : string) (epoch : Z) (report : ReconciliationReport) (r : goerr + unit)
  | DidIngest (gatewayID : string) (epoch : Z) (events : list ControlEvent) (r : goerr + unit)
  | DidLifecycle (gatewayID : string) (epoch : Z) (report : LifecycleReport) (r : goerr + unit)
  | DidDisconnect (gatewayID : string) (epoch : Z) (r : goerr + unit)
  | DidSend (frame : ControlFrame).

(** The store, the outcomes of the coming sends, the clock with the number of
    its readings, and what was done so far. *)
Record conn_world (S : Type) := MkConnWorld {
  w_store : S;
  w_sends : list (option goerr);
  w_ticks : nat;
  w_trace : list control_action;
}.
Arguments MkConnWorld {S} _ _ _ _.
Arguments w_store {S} _.
Arguments w_sends {S} _.
Arguments w_ticks {S} _.
Arguments w_trace {S} _.

(** The variables of the loop. *)
Record conn_state := MkConnState {
  st_outboundSequence : Z;
  st_lastAcknowledged : Z;
  st_lastRevision : Z;
  st_lastAction : LifecycleDirectiveAction;
  st_pending : option issuedDirective;
}.

Section Server.
Context {S : Type} `{ControlStore S} `{EventCodec} `{OriginLib}.
Context (Now : nat -> GoTime).

Abbreviation W := (conn_world S).

(** A store call, recorded with its result. *)
Definition call {A} (op : M S A) (act : goerr + A -> control_action) : M W A := fun w =>
  let '(r, s') := op (w_store w) in
  (r, MkConnWorld s' (w_sends w) (w_ticks w) (w_trace w ++ [act r])).

Definition clock : M W GoTime := fun w =>
  (inr (Now (w_ticks w)), MkConnWorld (w_store w) (w_sends w) (Datatypes.S (w_ticks w)) (w_trace w)).

Definition Send (frame : ControlFrame) : M W unit := fun w =>
  let w' := MkConnWorld (w_store w) (tail (w_sends w)) (w_ticks w) (w_trace w ++ [DidSend frame]) in
  match head (w_sends w) with
  | Some (Some err) => (inl (sendStatus err), w')
  | _ => (inr tt, w')
  end.

Definition receiveBefore (arrivals : list arrival) (timeoutMessage : string)
  : (goerr + option GatewayFrame) * list arrival :=
  match arrivals with
  | [] => (inl (failed "Unavailable" "gateway control stream unavailable"), [])
  | Arrived frame :: rest => (inr frame, rest)
  | RecvFailed err :: _ => (inl err, [])
  | TimerFired :: rest => (inl (failed "DeadlineExceeded" timeoutMessage), rest)
  | ContextDone err :: rest => (inl (receiveStatus err), rest)
  end.

(** [sendDesiredState]: the sequence after the snapshot. *)
Definition sendDesiredState (gatewayID : string) (epoch leaseTimeout desiredRevision sequence : Z)
  : M W Z :=
  now ← clock;
  let leaseExpiresAt := now + leaseTimeout in
  desired ← map_err storeStatus
    (call (cs_DesiredState gatewayID epoch desiredRevision leaseExpiresAt)
          (DidDesired gatewayID epoch desiredRevision leaseExpiresAt));
  if negb (dd_Revision desired =? desiredRevision) || negb (validDesiredState desired leaseExpiresAt) then
    throw (Internal "invalid gateway desired state")
  else
    let sequence := u64 (sequence + 1) in
    Send (MkControlFrame ProtocolVersion sequence (Some (ControlFrame_DesiredStateSnapshot
      (MkDesiredStateSnapshot (dd_Revision desired) (session_assignment <$> dd_Assignments desired)))));;
    mret sequence.

(** A directive as it is sent: by the operator, without a deadline. *)
Definition directive_frame (epoch : Z) (directive : issuedDirective) : ControlPayload :=
  ControlFrame_LifecycleDirective
    (MkLifecycleDirective (id_id directive) epoch (id_action directive) None LIFECYCLE_DIRECTIVE_REASON_OPERATOR).

(** The heartbeat case of the loop; [sequence] is that of its frame. *)
Definition on_heartbeat (gatewayID : string) (connection : Connection) (sequence : Z)
  (payload : option GatewayHeartbeat) (st : conn_state) : M W conn_state :=
  h ← lift_result (validateHeartbeat payload);
  if negb (hb_ConnectionEpoch h =? cn_Epoch connection) then
    throw (FailedPrecondition "gateway connection epoch mismatch") else
  let ack := hb_LastControlSequence h in
  if (st_outboundSequence st <? ack) || (ack <? st_lastAcknowledged st) then
    throw (FailedPrecondition "gateway control acknowledgement mismatch") else
  desired ← map_err storeStatus
    (call (cs_Heartbeat gatewayID (cn_Epoch connection) (heartbeatValue h))
          (DidHeartbeat gatewayID (cn_Epoch connection) (heartbeatValue h)));
  if negb (knownLifecycleAction (dl_Action desired)) then throw (Internal "invalid desired lifecycle") else
  let lifecycleRegressed := (dl_Revision desired <? st_lastRevision st) ||
    ((dl_Revision desired =? st_lastRevision st) &&
     negb (bool_decide (dl_Action desired = st_lastAction st))) in
  if lifecycleRegressed then throw (Internal "invalid desired lifecycle revision") else
  now ← clock;
  let out := u64 (st_outboundSequence st + 1) in
  Send (MkControlFrame ProtocolVersion out
    (Some (ControlFrame_HeartbeatAck sequence (cn_Epoch connection) (UnixMilli now))));;
  st ← match st_pending st with
       | None =>
           if negb (dl_Revision desired =? st_lastRevision st) then
             let directive := MkIssuedDirective (directiveID (cn_ID connection) (dl_Revision desired))
                                (dl_Action desired) in
             let out := u64 (out + 1) in
             Send (MkControlFrame ProtocolVersion out
               (Some (directive_frame (cn_Epoch connection) directive)));;
             mret (MkConnState out ack (dl_Revision desired) (dl_Action desired) (Some directive))
           else mret (MkConnState out ack (st_lastRevision st) (st_lastAction st) None)
       | Some directive =>
           mret (MkConnState out ack (st_lastRevision st) (st_lastAction st) (Some directive))
       end;
  out ← sendDesiredState gatewayID (cn_Epoch connection) (cn_LeaseTimeout connection)
          (dl_Revision desired) (st_outboundSequence st);
  mret (MkConnState out (st_lastAcknowledged st) (st_lastRevision st) (st_lastAction st) (st_pending st)).

Definition on_report (gatewayID : string) (connection : Connection) (payload : option ReceivedReport)
  (st : conn_state) : M W conn_state :=
  '(report, health) ← lift_result (validateDesiredStateReport payload (cn_Epoch connection));
  map_err storeStatus
    (call (cs_PersistDesiredStateReport gatewayID (cn_Epoch connection) (reconciliationReport report health))
          (DidReport gatewayID (cn_Epoch connection) (reconciliationReport report health)));;
  mret st.

Definition with_outbound (out : Z) (st : conn_state) : conn_state :=
  MkConnState out (st_lastAcknowledged st) (st_lastRevision st) (st_lastAction st) (st_pending st).

Definition on_events (gatewayID : string) (connection : Connection)
  (payload : option (list (option GatewayEvent))) (st : conn_state) : M W conn_state :=
  events ← lift_result (eventBatch payload gatewayID (cn_Epoch connection));
  map_err storeStatus
    (call (cs_IngestEvents gatewayID (cn_Epoch connection) events)
          (DidIngest gatewayID (cn_Epoch connection) events));;
  let out := u64 (st_outboundSequence st + 1) in
  Send (MkControlFrame ProtocolVersion out
    (Some (ControlFrame_EventAck (from_option ce_JournalSequence 0 (last events)))));;
  mret (with_outbound out st).

Definition on_lifecycle (gatewayID : string) (connection : Connection)
  (payload : option GatewayLifecycleReport) (st : conn_state) : M W conn_state :=
  match st_pending st with
  | None => throw (FailedPrecondition "no lifecycle directive is awaiting acknowledgement")
  | Some directive =>
      report ← lift_result (validateLifecycleReport payload (cn_Epoch connection) directive);
      map_err storeStatus
        (call (cs_Lifecycle gatewayID (cn_Epoch connection) (lifecycleValue report))
              (DidLifecycle gatewayID (cn_Epoch connection) (lifecycleValue report)));;
      mret (MkConnState (st_outboundSequence st) (st_lastAcknowledged st) (st_lastRevision st)
              (st_lastAction st) None)
  end.

Definition on_frame (gatewayID : string) (connection : Connection) (sequence : Z)
  (payload : GatewayPayload) (st : conn_state) : M W conn_state :=
  match payload with
  | GatewayFrame_Heartbeat h => on_heartbeat gatewayID connection sequence h st
  | GatewayFrame_DesiredStateReport r => on_report gatewayID connection r st
  | GatewayFrame_EventBatch b => on_events gatewayID connection b st
  | GatewayFrame_LifecycleReport r => on_lifecycle gatewayID connection r st
  | GatewayFrame_Hello _ => throw (FailedPrecondition "hello is only valid as the first gateway frame")
  end.

(** The loop over the frames after the hello. *)
Fixpoint serve (gatewayID : string) (connection : Connection) (arrivals : list arrival)
  (expected : Z) (st : conn_state) : M W unit :=
  match arrivals with
  | [] => throw (failed "Unavailable" "gateway control stream unavailable")
  | RecvFailed err :: _ => if errors_is EOF err then mret tt else throw err
  | TimerFired :: _ => throw (failed "DeadlineExceeded" "gateway heartbeat lease expired")
  | ContextDone err :: _ => throw (receiveStatus err)
  | Arrived frame :: rest =>
      payload ← lift_result (validateEnvelope frame expected);
      st ← on_frame gatewayID connection expected payload st;
      serve gatewayID connection rest (u64 (expected + 1)) st
  end.

(** From the welcome frame on; the connection's disconnect is deferred around it. *)
Definition run_connection (gatewayID : string) (connection : Connection) (arrivals : list arrival)
  : M W unit :=
  now ← clock;
  Send (MkControlFrame ProtocolVersion 1 (Some (ControlFrame_Welcome (MkControlWelcome (cn_ID connection)
    (cn_Epoch connection) (durationMillis (cn_HeartbeatInterval connection))
    (durationMillis (cn_LeaseTimeout connection)) (cn_DesiredLifecycle connection) (UnixMilli now)))));;
  out ← sendDesiredState gatewayID (cn_Epoch connection) (cn_LeaseTimeout connection)
          (cn_DesiredRevision connection) 1;
  serve gatewayID connection arrivals 2
    (MkConnState out 1 (cn_DesiredRevision connection) (cn_DesiredLifecycle connection) None).

Definition valid_allocation (c : Connection) : bool :=
  negb (bool_decide (cn_ID c = "")) && negb (cn_Epoch c =? 0) && (0 <? cn_HeartbeatInterval c) &&
  (0 <? cn_LeaseTimeout c) && knownLifecycleAction (cn_DesiredLifecycle c).

(** The frame that opens a connection. *)
Definition first_hello (frame : option GatewayFrame) : goerr + GatewayHello :=
  match validateEnvelope frame 1 with
  | inl err => inl err
  | inr (GatewayFrame_Hello (Some hello)) =>
      match validateHello hello with Some err => inl err | None => inr hello end
  | inr _ => inl (FailedPrecondition "hello must be the first gateway frame")
  end.

(** [Connect]; [identity] is what [ResolveGatewayID] reads from the peer's
    certificate, [configured] whether the server has a store. *)
Definition Connect (identity : option string) (configured : bool) (arrivals : list arrival) : M W unit :=
  match identity with
  | None | Some "" => throw (failed "Unauthenticated" "gateway authentication required")
  | Some gatewayID =>
      if negb configured then throw (failed "Unavailable" "gateway control unavailable") else
      let '(first, rest) := receiveBefore arrivals "gateway hello deadline exceeded" in
      match first with
      | inl err => throw (receiveStatus err)
      | inr frame =>
          hello ← lift_result (first_hello frame);
          connection ← map_err storeStatus
            (call (cs_Accept gatewayID (helloValue hello)) (DidAccept gatewayID (helloValue hello)));
          if negb (valid_allocation connection) then
            throw (Internal "invalid gateway connection allocation")
          else
            result ← attempt (run_connection gatewayID connection rest);
            attempt (call (cs_Disconnect gatewayID (cn_Epoch connection))
                          (DidDisconnect gatewayID (cn_Epoch connection)));;
            lift_result result
      end
  end.
End Server.

(** ** What a trace shows *)

Definition sent_frames (tr : list control_action) : list ControlFrame :=
  omap (fun a => match a with DidSend f => Some f | _ => None end) tr.

Definition directives (tr : list control_action) : list string :=
  omap (fun a => match a with
                 | DidSend (MkControlFrame _ _ (Some (ControlFrame_LifecycleDirective d))) => Some (ld_DirectiveId d)
                 | _ => None
                 end) tr.

(** An action of an established connection: a send, or a store call under the
    connection's gateway and epoch. *)
Definition on_connection (gw : string) (epoch : Z) (a : control_action) : Prop :=
  match a with
  | DidAccept _ _ _ | DidDisconnect _ _ _ => False
  | DidHeartbeat g e _ _ | DidDesired g e _ _ _ | DidReport g e _ _ | DidLifecycle g e _ _ =>
      g = gw /\ e = epoch
  | DidIngest g e evs _ => g = gw /\ e = epoch /\ Forall (fun ev => ce_ConnectionEpoch ev = epoch) evs
  | DidSend _ => True
  end.

(** An acknowledgement follows the store call that made it true. *)
Definition justified (prev : option control_action) (a : control_action) : Prop :=
  match a with
  | DidSend (MkControlFrame _ _ (Some (ControlFrame_EventAck n))) =>
      exists gw epoch evs ev, prev = Some (DidIngest gw epoch evs (inr tt)) /\
        last evs = Some ev /\ n = ce_JournalSequence ev
  | DidSend (MkControlFrame _ _ (Some (ControlFrame_HeartbeatAck _ e _))) =>
      exists gw h desired, prev = Some (DidHeartbeat gw e h (inr desired))
  | _ => True
  end.
Definition all_justified (tr : list control_action) : Prop :=
  forall pre a post, tr = pre ++ a :: post -> justified (last pre) a.

(** A frame the protocol allows; a snapshot is valid and under its revision. *)
Definition frame_ok (f : ControlFrame) : Prop :=
  cf_ProtocolVersion f = ProtocolVersion /\
  match cf_Payload f with
  | Some (ControlFrame_DesiredStateSnapshot s) =>
      exists desired lease, validDesiredState desired lease = true /\
        s = MkDesiredStateSnapshot (dd_Revision desired) (session_assignment <$> dd_Assignments desired)
  | _ => True
  end.

(** Frames are numbered from one without gaps. *)
Definition numbered (tr : list control_action) : Prop :=
  forall i f, sent_frames tr !! i = Some f -> cf_Sequence f = u64 (Z.of_nat i + 1).

Record trace_ok (gw : string) (c : Connection) (tr : list control_action) : Prop := {
  to_fenced : exists h l, tr = DidAccept gw h (inr c) :: l /\ Forall (on_connection gw (cn_Epoch c)) l;
  to_justified : all_justified tr;
  to_numbered : numbered tr;
  to_frames : Forall frame_ok (sent_frames tr);
  to_directives : exists revs, directives tr = directiveID (cn_ID c) <$> revs /\
    StronglySorted Z.lt revs /\ Forall (fun r => cn_DesiredRevision c < r) revs;
}.

(** Between frames the loop's variables agree with what was sent. *)
Record conn_inv (gw : string) (c : Connection) (st : conn_state) (tr : list control_action) : Prop := {
  ci_ok : trace_ok gw c tr;
  ci_sequence : st_outboundSequence st = u64 (Z.of_nat (length (sent_frames tr)));
  ci_revisions : exists revs, directives tr = directiveID (cn_ID c) <$> revs /\
    StronglySorted Z.lt revs /\ Forall (fun r => cn_DesiredRevision c < r <= st_lastRevision st) revs /\
    cn_DesiredRevision c <= st_lastRevision st;
}.

Lemma sent_frames_app l1 l2 : sent_frames (l1 ++ l2) = sent_frames l1 ++ sent_frames l2.
Proof. apply omap_app. Qed.
Lemma directives_app l1 l2 : directives (l1 ++ l2) = directives l1 ++ directives l2.
Proof. apply omap_app. Qed.

Lemma all_justified_snoc tr a : all_justified tr -> justified (last tr) a -> all_justified (tr ++ [a]).
Proof.
  intros Htr Ha pre b post Heq. destruct post as [|x post _] using rev_ind.
  - apply app_inj_tail in Heq as [-> ->]. exact Ha.
  - rewrite app_comm_cons, app_assoc in Heq. apply app_inj_tail in Heq as [Heq _]. by eapply Htr.
Qed.

Lemma numbered_snoc tr f :
  numbered tr -> cf_Sequence f = u64 (Z.of_nat (length (sent_frames tr)) + 1) ->
  numbered (tr ++ [DidSend f]).
Proof.
  intros Htr Hf i g. rewrite sent_frames_app. cbn. intros [Hi|[Hi Hg]]%lookup_app_Some; [by apply Htr|].
  apply list_lookup_singleton_Some in Hg as [Hg <-]. rewrite Hf. f_equal. lia.
Qed.

(** Appending a store call of the connection. *)
Lemma trace_ok_call gw c tr a :
  trace_ok gw c tr -> on_connection gw (cn_Epoch c) a -> sent_frames [a] = [] -> trace_ok gw c (tr ++ [a]).
Proof.
  intros [(h & l & -> & Hl) Hj Hn Hf Hd] Ha Hs.
  assert (Hnd : directives [a] = []) by (destruct a; [done..|discriminate Hs]).
  split.
  - exists h, (l ++ [a]). split; [done|]. apply Forall_app. by repeat constructor.
  - apply all_justified_snoc; [done|]. by destruct a.
  - intros i f. rewrite sent_frames_app, Hs, app_nil_r. apply Hn.
  - by rewrite sent_frames_app, Hs, app_nil_r.
  - by rewrite directives_app, Hnd, app_nil_r.
Qed.

Lemma conn_inv_call gw c st tr a :
  conn_inv gw c st tr -> on_connection gw (cn_Epoch c) a -> sent_frames [a] = [] ->
  conn_inv gw c st (tr ++ [a]).
Proof.
  intros [Hok Hs Hr] Ha Hn. assert (Hnd : directives [a] = []) by (destruct a; [done..|discriminate Hn]).
  split; [by apply trace_ok_call| |].
  - by rewrite sent_frames_app, Hn, app_nil_r.
  - by rewrite directives_app, Hnd, app_nil_r.
Qed.

(** Appending the next frame; a directive carries the next revision. *)
Definition next_sequence (st : conn_state) : Z := u64 (st_outboundSequence st + 1).

Lemma u64_succ n : u64 (u64 n + 1) = u64 (n + 1).
Proof. unfold u64. by rewrite Zplus_mod_idemp_l. Qed.

Lemma conn_inv_send gw c st tr p :
  conn_inv gw c st tr -> let f := MkControlFrame ProtocolVersion (next_sequence st) p in
  frame_ok f -> justified (last tr) (DidSend f) -> directives [DidSend f] = [] ->
  conn_inv gw c (with_outbound (next_sequence st) st) (tr ++ [DidSend f]).
Proof.
  intros [[(h & l & -> & Hl) Hj Hn Hf Hd] Hs Hr] f Hok Hju Hnd.
  assert (Hseq : cf_Sequence f = u64 (Z.of_nat (length (sent_frames (DidAccept gw h (inr c) :: l))) + 1)).
  { cbn [f cf_Sequence]. unfold next_sequence. rewrite Hs. apply u64_succ. }
  split; [split| |].
  - exists h, (l ++ [DidSend f]). split; [done|]. apply Forall_app. by repeat constructor.
  - by apply all_justified_snoc.
  - by apply numbered_snoc.
  - rewrite sent_frames_app. apply Forall_app. split; [done|]. apply (Forall_cons_2 _ _ _ Hok), Forall_nil_2.
  - by rewrite directives_app, Hnd, app_nil_r.
  - rewrite sent_frames_app, length_app. cbn [with_outbound st_outboundSequence].
    change (next_sequence st) with (cf_Sequence f). rewrite Hseq. f_equal. cbn. lia.
  - rewrite directives_app, Hnd, app_nil_r. exact Hr.
Qed.

Lemma conn_inv_directive gw c st tr rev act ack directive :
  conn_inv gw c st tr -> st_lastRevision st < rev ->
  let f := MkControlFrame ProtocolVersion (next_sequence st)
             (Some (directive_frame (cn_Epoch c) (MkIssuedDirective (directiveID (cn_ID c) rev) act))) in
  conn_inv gw c (MkConnState (next_sequence st) ack rev act directive) (tr ++ [DidSend f]).
Proof.
  intros [[(h & l & -> & Hl) Hj Hn Hf Hd] Hs (revs & Hr1 & Hr2 & Hr3 & Hr4)] Hlt f.
  assert (Hseq : cf_Sequence f = u64 (Z.of_nat (length (sent_frames (DidAccept gw h (inr c) :: l))) + 1)).
  { cbn [f cf_Sequence]. unfold next_sequence. rewrite Hs. apply u64_succ. }
  assert (Hd' : directives ((DidAccept gw h (inr c) :: l) ++ [DidSend f]) = directiveID (cn_ID c) <$> (revs ++ [rev])).
  { by rewrite directives_app, Hr1, fmap_app. }
  assert (Hsort : StronglySorted Z.lt (revs ++ [rev])).
  { apply StronglySorted_app_2; [|done|repeat constructor]. rewrite Forall_forall in Hr3.
    intros x y Hx ->%list_elem_of_singleton. destruct (Hr3 _ Hx). lia. }
  split; [split| |].
  - exists h, (l ++ [DidSend f]). split; [done|]. apply Forall_app. by repeat constructor.
  - by apply all_justified_snoc.
  - by apply numbered_snoc.
  - rewrite sent_frames_app. apply Forall_app. by repeat constructor.
  - exists (revs ++ [rev]). split; [done|]. split; [done|]. apply Forall_app.
    split; [|repeat constructor; lia]. eapply Forall_impl; [exact Hr3|]. cbn. lia.
  - rewrite sent_frames_app, length_app. cbn [st_outboundSequence].
    change (next_sequence st) with (cf_Sequence f). rewrite Hseq. f_equal. cbn. lia.
  - exists (revs ++ [rev]). split; [done|]. split; [done|]. cbn [st_lastRevision]. split; [|lia].
    apply Forall_app. split; [|repeat constructor; lia]. eapply Forall_impl; [exact Hr3|]. cbn. lia.
Qed.

(** ** Runs of the server *)

Section Runs.
Context {S : Type} `{ControlStore S} `{EventCodec} `{OriginLib}.
Context (Now : nat -> GoTime).

Definition on_trace (P : list control_action -> Prop) (w : conn_world S) : Prop := P (w_trace w).

Lemma triple_call {A} (op : M S A) act P (Q : A -> list control_action -> Prop) (X : list control_action -> Prop) :
  (forall tr, P tr -> (forall a, Q a (tr ++ [act (inr a)])) /\ forall e, X (tr ++ [act (inl e)])) ->
  triple (on_trace P) (call op act) (fun a => on_trace (Q a)) (on_trace X).
Proof.
  intros HPQ w r w' Hw. unfold call. destruct (op (w_store w)) as [r0 s']. intros [= <- <-].
  destruct (HPQ _ Hw) as [HQ HX]. destruct r0; unfold on_trace; cbn; auto.
Qed.

Lemma triple_clock P X : triple (on_trace P) (clock Now) (fun _ => on_trace P) X.
Proof. intros w r w' Hw [= <- <-]. exact Hw. Qed.

Lemma triple_send f P Q X :
  (forall tr, P tr -> Q (tr ++ [DidSend f])) -> (forall tr, Q tr -> X tr) ->
  triple (on_trace P) (Send f) (fun _ => on_trace Q) (on_trace X).
Proof.
  intros HPQ HX w r w' Hw. unfold Send. specialize (HPQ _ Hw).
  destruct (head (w_sends w)) as [[e|]|]; intros [= <- <-]; unfold on_trace in *; cbn; auto.
Qed.

Lemma conn_inv_ok gw c st tr : conn_inv gw c st tr -> trace_ok gw c tr.
Proof. by intros []. Qed.

Lemma triple_lift_or {A} P (r0 : goerr + A) (X : list control_action -> Prop) :
  (forall tr, P tr -> X tr) ->
  triple (on_trace P) (lift_result r0) (fun a w => r0 = inr a /\ on_trace P w) (on_trace X).
Proof. intros HX. apply triple_lift. intros w Hw. destruct r0; [by apply HX | done]. Qed.

Lemma sendDesiredState_inv gw c st rev out :
  triple (on_trace (conn_inv gw c (with_outbound out st)))
    (sendDesiredState Now gw (cn_Epoch c) (cn_LeaseTimeout c) rev out)
    (fun out' => on_trace (conn_inv gw c (with_outbound out' st))) (on_trace (trace_ok gw c)).
Proof.
  unfold sendDesiredState. eapply triple_bind; [apply triple_clock|]. intros now.
  eapply triple_bind.
  { apply triple_map_err, triple_call with (Q := fun _ => conn_inv gw c (with_outbound out st)).
    intros tr Hi. split; intros; [|apply trace_ok_call; [by eapply conn_inv_ok|..]; done].
    by apply conn_inv_call. }
  intros desired. destruct (negb _ || negb _) eqn:Hv.
  { apply triple_throw. intros w. apply conn_inv_ok. }
  to_prop. apply triple_bind with (R := fun _ => on_trace (conn_inv gw c (with_outbound (u64 (out + 1)) st)));
    [|intros ?; by apply triple_ret].
  apply triple_send; [|intros tr; apply conn_inv_ok]. intros tr Hi.
  apply (conn_inv_send gw c (with_outbound out st) tr _ Hi); [|done|done].
  split; [done|]. cbn. eauto.
Qed.

Lemma on_heartbeat_inv gw c seq payload st :
  triple (on_trace (conn_inv gw c st)) (on_heartbeat Now gw c seq payload st)
    (fun st' => on_trace (conn_inv gw c st')) (on_trace (trace_ok gw c)).
Proof.
  unfold on_heartbeat. eapply triple_bind; [apply triple_lift_or, conn_inv_ok|]. intros h.
  apply triple_pure. intros _. destruct (negb _); [apply triple_throw; intros w; apply conn_inv_ok|].
  destruct (_ || _); [apply triple_throw; intros w; apply conn_inv_ok|].
  eapply triple_bind.
  { apply triple_map_err, triple_call with
      (Q := fun desired tr => conn_inv gw c st tr /\
              exists hv, last tr = Some (DidHeartbeat gw (cn_Epoch c) hv (inr desired))).
    intros tr Hi. split; intros; [|apply trace_ok_call; [by eapply conn_inv_ok|..]; done].
    split; [by apply conn_inv_call|]. rewrite last_snoc. eauto. }
  intros desired.
  assert (Hthrow : forall e, triple (A := conn_state) (on_trace (fun tr => conn_inv gw c st tr /\
      exists hv, last tr = Some (DidHeartbeat gw (cn_Epoch c) hv (inr desired)))) (throw e)
      (fun st' => on_trace (conn_inv gw c st')) (on_trace (trace_ok gw c))).
  { intros e. apply triple_throw. intros w [Hi _]. by eapply conn_inv_ok. }
  destruct (negb (knownLifecycleAction _)); [apply Hthrow|].
  destruct (_ || _) eqn:Hreg; [apply Hthrow|]. clear Hthrow. to_prop.
  eapply triple_bind; [apply triple_clock|]. intros now.
  eapply triple_bind with (R := fun _ => on_trace (conn_inv gw c (with_outbound (next_sequence st) st))).
  { apply triple_send; [|intros tr; apply conn_inv_ok]. intros tr [Hi (hv & Hlast)].
    apply conn_inv_send; [done|by split| |done]. cbn. eauto. }
  intros ?. eapply triple_bind with (R := fun st' => on_trace (conn_inv gw c st')).
  { destruct (st_pending st) as [directive|] eqn:Hpend.
    - apply triple_ret. intros w [Hok Hs Hr]. by split.
    - destruct (negb (dl_Revision desired =? st_lastRevision st)) eqn:Hne; to_prop.
      + match goal with |- triple _ (_ ≫= fun _ => mret ?s) _ _ =>
          apply triple_bind with (R := fun _ => on_trace (conn_inv gw c s)); [|intros ?; by apply triple_ret] end.
        apply triple_send; [|intros tr; apply conn_inv_ok]. intros tr Hi.
        apply (conn_inv_directive gw c (with_outbound (next_sequence st) st)); [done|]. cbn. lia.
      + apply triple_ret. intros w [Hok Hs Hr]. by split. }
  intros st'. apply triple_bind with (R := fun out => on_trace (conn_inv gw c (with_outbound out st')));
    [|intros out; by apply triple_ret].
  eapply triple_weaken; [apply (sendDesiredState_inv gw c st')|..]; [|done|done].
  intros w. by destruct st'.
Qed.

Lemma on_report_inv gw c payload st :
  triple (on_trace (conn_inv gw c st)) (on_report gw c payload st)
    (fun st' => on_trace (conn_inv gw c st')) (on_trace (trace_ok gw c)).
Proof.
  unfold on_report. eapply triple_bind; [apply triple_lift_or, conn_inv_ok|]. intros [report health].
  apply triple_pure. intros _. apply triple_bind with (R := fun _ => on_trace (conn_inv gw c st));
    [|intros ?; by apply triple_ret].
  apply triple_map_err, triple_call with (Q := fun _ => conn_inv gw c st). intros tr Hi.
  split; intros; [by apply conn_inv_call | apply trace_ok_call; [by eapply conn_inv_ok|..]; done].
Qed.

(** The events of an accepted batch: none is absent and each is acceptable. *)
(** The fields an event needs whatever its place in the batch. *)
Definition event_fields_ok (gw : string) (epoch : Z) (v : GatewayEvent) : Prop :=
  ge_GatewayId v = gw /\ ge_ConnectionEpoch v = epoch /\ ge_AssignmentEpoch v <> 0 /\
  ge_EventId v <> "" /\ ge_SessionId v <> "" /\ ge_OrganizationId v <> "" /\
  ge_EventType v <> "" /\ 0 < ge_OccurredAtUnixMs v.

Lemma acceptable_event_true gw epoch lst v :
  0 <= lst ->
  acceptable_event gw epoch lst v = true <->
  event_fields_ok gw epoch v /\ lst < ge_JournalSequence v.
Proof.
  intros Hl. unfold acceptable_event, event_fields_ok. cbn zeta.
  rewrite negb_true_iff, !orb_false_iff, !negb_false_iff, !bool_decide_eq_true, !bool_decide_eq_false,
    !Z.eqb_neq, Z.eqb_eq, !Z.leb_gt. split; [tauto|]. intros ?. repeat split; try tauto. lia.
Qed.

Lemma event_loop_spec gw epoch l lst out evs :
  0 <= lst ->
  event_loop gw epoch lst l out = inr evs <->
  exists vs, l = Some <$> vs /\ evs = out ++ (control_event <$> vs) /\
    Forall (event_fields_ok gw epoch) vs /\ StronglySorted Z.lt (lst :: (ge_JournalSequence <$> vs)).
Proof.
  revert lst out. induction l as [|[v|] l IH]; intros lst out Hl; cbn [event_loop].
  - split.
    + intros [= <-]. exists []. cbn. rewrite app_nil_r. repeat split; repeat constructor.
    + intros ([|] & Heq & -> & _); [|discriminate]. cbn. by rewrite app_nil_r.
  - destruct (acceptable_event gw epoch lst v) eqn:Hv; cbn [negb].
    + apply acceptable_event_true in Hv as [Hok Hlt]; [|exact Hl]. rewrite IH by lia. split.
      * intros (vs & -> & -> & HF & Hs). exists (v :: vs). rewrite <- app_assoc. split; [done|].
        split; [done|]. split; [by constructor|]. cbn. constructor; [done|].
        apply StronglySorted_inv in Hs as [Hs HF']. constructor; [lia|].
        eapply Forall_impl; [exact HF'|]. cbn. lia.
      * intros ([|v' vs] & Heq & -> & HF & Hs); [discriminate|]. injection Heq as <- ->.
        exists vs. rewrite <- app_assoc. split; [done|]. split; [done|].
        apply Forall_cons in HF as [_ HF]. split; [done|]. by apply StronglySorted_inv in Hs as [Hs _].
    + split; [discriminate|]. intros ([|v' vs] & Heq & -> & HF & Hs); [discriminate|].
      injection Heq as <- ->. apply Forall_cons in HF as [Hok _].
      apply StronglySorted_inv in Hs as [_ [Hlt _]%Forall_cons]. cbn in Hlt.
      enough (acceptable_event gw epoch lst v = true) by congruence. by apply acceptable_event_true.
  - split; [discriminate|]. by intros ([|] & Heq & _).
Qed.

(** Exactly the batches the server takes. *)
Lemma eventBatch_spec gw epoch payload evs :
  eventBatch payload gw epoch = inr evs <->
  exists vs, payload = Some (Some <$> vs) /\ evs = control_event <$> vs /\ vs <> [] /\
    Z.of_nat (length vs) <= MaxGatewayEventBatch /\ proto_Size vs <= MaxGatewayEventBatchBytes /\
    Forall (event_fields_ok gw epoch) vs /\ StronglySorted Z.lt (0 :: (ge_JournalSequence <$> vs)).
Proof.
  assert (Hdef : forall vs : list GatewayEvent, default empty_event <$> (Some <$> vs) = vs).
  { intros vs. rewrite <- list_fmap_compose. apply list_fmap_id. }
  unfold eventBatch. destruct payload as [l|]; [|split; [done|by intros (? & [=] & _)]].
  destruct (bool_decide (l = []) || (MaxGatewayEventBatch <? _)) eqn:Hn.
  { split; [done|]. intros (vs & [= ->] & _ & Hne & Hlen & _). rewrite length_fmap in Hn.
    apply orb_true_iff in Hn as [Hn|Hn]; to_prop; [|lia]. by apply fmap_nil_inv in Hn. }
  to_prop. destruct (MaxGatewayEventBatchBytes <? _) eqn:Hsz.
  { split; [done|]. intros (vs & [= ->] & _ & _ & _ & Hle & _). rewrite Hdef in Hsz. to_prop. lia. }
  rewrite event_loop_spec by done. to_prop. split.
  - intros (vs & -> & -> & HF & Hs). rewrite length_fmap, Hdef in *. exists vs.
    repeat split; try done. by intros ->.
  - intros (vs & [= ->] & -> & _ & _ & _ & HF & Hs). by exists vs.
Qed.

Lemma eventBatch_nonempty gw epoch payload evs :
  eventBatch payload gw epoch = inr evs -> Forall (fun ev => ce_ConnectionEpoch ev = epoch) evs /\ exists ev, last evs = Some ev.
Proof.
  intros (vs & -> & -> & Hne & _ & _ & HF & _)%eventBatch_spec. split.
  - rewrite Forall_fmap. eapply Forall_impl; [exact HF|]. unfold event_fields_ok. cbn. tauto.
  - destruct vs as [|v vs _] using rev_ind; [done|]. rewrite fmap_app, fmap_cons, fmap_nil, last_snoc. eauto.
Qed.

Lemma on_events_inv gw c payload st :
  triple (on_trace (conn_inv gw c st)) (on_events gw c payload st)
    (fun st' => on_trace (conn_inv gw c st')) (on_trace (trace_ok gw c)).
Proof.
  unfold on_events. eapply triple_bind; [apply triple_lift_or, conn_inv_ok|]. intros evs.
  apply triple_pure. intros (Hep & ev & Hlast)%eventBatch_nonempty.
  eapply triple_bind.
  { apply triple_map_err, triple_call with
      (Q := fun r tr => conn_inv gw c st tr /\ last tr = Some (DidIngest gw (cn_Epoch c) evs (inr r))).
    intros tr Hi. split; intros; [|apply trace_ok_call; [by eapply conn_inv_ok|..]; done].
    split; [by apply conn_inv_call | apply last_snoc]. }
  intros []. apply triple_bind with (R := fun _ => on_trace (conn_inv gw c (with_outbound (next_sequence st) st)));
    [|intros ?; by apply triple_ret].
  apply triple_send; [|intros tr; apply conn_inv_ok]. intros tr [Hi Htr].
  apply conn_inv_send; [done|by split| |done]. cbn. rewrite Hlast. eauto 10.
Qed.

Lemma on_lifecycle_inv gw c payload st :
  triple (on_trace (conn_inv gw c st)) (on_lifecycle gw c payload st)
    (fun st' => on_trace (conn_inv gw c st')) (on_trace (trace_ok gw c)).
Proof.
  unfold on_lifecycle. destruct (st_pending st); [|apply triple_throw; intros w; apply conn_inv_ok].
  eapply triple_bind; [apply triple_lift_or, conn_inv_ok|]. intros report. apply triple_pure. intros _.
  eapply triple_bind.
  - apply triple_map_err, triple_call with (Q := fun _ => conn_inv gw c st). intros tr Hi.
    split; intros; [by apply conn_inv_call | apply trace_ok_call; [by eapply conn_inv_ok|..]; done].
  - intros ?. apply triple_ret. intros w [Hok Hs Hr]. by split.
Qed.

Lemma serve_inv gw c arrivals expected st :
  triple (on_trace (conn_inv gw c st)) (serve Now gw c arrivals expected st)
    (fun _ => on_trace (trace_ok gw c)) (on_trace (trace_ok gw c)).
Proof.
  revert expected st. induction arrivals as [|[frame|err| |err] rest IH]; intros expected st; cbn [serve];
    try (apply triple_throw; intros w; apply conn_inv_ok).
  - eapply triple_bind; [apply triple_lift_or, conn_inv_ok|]. intros payload. apply triple_pure. intros _.
    eapply triple_bind with (R := fun st' => on_trace (conn_inv gw c st')); [|intros st'; apply IH].
    destruct payload; cbn [on_frame].
    + apply triple_throw. intros w. apply conn_inv_ok.
    + apply on_heartbeat_inv.
    + apply on_lifecycle_inv.
    + apply on_report_inv.
    + apply on_events_inv.
  - destruct (errors_is EOF err); [apply triple_ret | apply triple_throw]; intros w; apply conn_inv_ok.
Qed.

Lemma run_connection_inv gw h c arrivals :
  triple (on_trace (fun tr => tr = [DidAccept gw h (inr c)])) (run_connection Now gw c arrivals)
    (fun _ => on_trace (trace_ok gw c)) (on_trace (trace_ok gw c)).
Proof.
  unfold run_connection.
  set (st := fun out => MkConnState out 1 (cn_DesiredRevision c) (cn_DesiredLifecycle c) None).
  eapply triple_bind; [apply triple_clock|]. intros now.
  eapply triple_bind with (R := fun _ => on_trace (conn_inv gw c (st 1))).
  { apply triple_send; [|intros tr; apply conn_inv_ok]. intros tr ->.
    assert (Hi : conn_inv gw c (st 0) [DidAccept gw h (inr c)]).
    { split; [split| |].
      - exists h, []. by split; [|constructor].
      - intros pre a post Heq. destruct pre as [|x [|]]; [|discriminate..]. by injection Heq as <- <-.
      - by intros [|i] f.
      - constructor.
      - exists []. repeat split; constructor.
      - done.
      - exists []. split; [done|]. split; [constructor|]. split; [constructor|]. cbn. lia. }
    apply (conn_inv_send gw c (st 0) _ _ Hi); [by split|done|done]. }
  intros ?. eapply triple_bind; [apply (sendDesiredState_inv gw c (st 1))|]. intros out. apply serve_inv.
Qed.

(** What [Connect] leaves: nothing, an allocation that failed or is unusable,
    or a connection that was served and then disconnected. *)
Definition connect_outcome (identity : option string) (tr : list control_action) : Prop :=
  tr = [] \/
  (exists gw h r, identity = Some gw /\ tr = [DidAccept gw h r] /\
     from_option valid_allocation false (match r with inr c => Some c | inl _ => None end) = false) \/
  (exists gw c served r, identity = Some gw /\ valid_allocation c = true /\ trace_ok gw c served /\
     tr = served ++ [DidDisconnect gw (cn_Epoch c) r]).

Lemma connect_inv identity configured arrivals :
  triple (on_trace (fun tr => tr = [])) (Connect Now identity configured arrivals)
    (fun _ => on_trace (connect_outcome identity)) (on_trace (connect_outcome identity)).
Proof.
  assert (Hnil : forall w : conn_world S, on_trace (fun tr => tr = []) w -> on_trace (connect_outcome identity) w)
    by (intros w Hw; by left).
  unfold Connect. destruct identity as [[|ch gw]|]; [by apply triple_throw| |by apply triple_throw].
  set (g := String ch gw) in *. destruct (negb configured); [by apply triple_throw|].
  destruct (receiveBefore _ _) as [[err|frame] rest]; [by apply triple_throw|].
  eapply triple_bind with (R := fun _ => on_trace (fun tr => tr = [])).
  { apply triple_lift. intros w Hw. destruct (first_hello frame); auto. }
  intros hello. eapply triple_bind with
    (R := fun c => on_trace (fun tr => tr = [DidAccept g (helloValue hello) (inr c)])).
  { apply triple_map_err, triple_call with
      (Q := fun c tr => tr = [DidAccept g (helloValue hello) (inr c)]). intros tr ->. split; [done|].
    intros e. right. left. exists g, (helloValue hello), (inl e). auto. }
  intros c. destruct (valid_allocation c) eqn:Hc; cbn [negb].
  - eapply triple_bind with (R := fun _ => on_trace (trace_ok g c)).
    { eapply triple_attempt; [apply run_connection_inv|]. auto. }
    intros result. eapply triple_bind with (R := fun _ => on_trace (connect_outcome (Some g))).
    + eapply triple_attempt with (X' := on_trace (connect_outcome (Some g))); [|auto].
      apply triple_call with (Q := fun _ => connect_outcome (Some g)).
      intros tr Htr. split; intros; right; right; eauto 10.
    + intros ?. apply triple_lift. intros w Hw. by destruct result.
  - apply triple_throw. intros w Hw. right. left.
    exists g, (helloValue hello), (inr c). auto.
Qed.

Lemma connect_run identity configured arrivals w r w' :
  w_trace w = [] -> Connect Now identity configured arrivals w = (r, w') ->
  connect_outcome identity (w_trace w').
Proof. intros Hw Hrun. pose proof (connect_inv _ _ _ _ _ _ Hw Hrun) as Hout. by destruct r. Qed.

(** Whatever holds of the trace of every served connection, and of a bare
    allocation, holds of every run. *)
Lemma connect_run_ind (P : list control_action -> Prop) identity configured arrivals w r w' :
  P [] -> (forall gw h r0, P [DidAccept gw h r0]) ->
  (forall gw c tr e res, trace_ok gw c tr -> P (tr ++ [DidDisconnect gw e res])) ->
  w_trace w = [] -> Connect Now identity configured arrivals w = (r, w') -> P (w_trace w').
Proof.
  intros Hnil Hacc Hserved Hw Hrun.
  destruct (connect_run _ _ _ _ _ _ Hw Hrun) as [->|[(gw & h & r0 & _ & -> & _)|(gw & c & tr & res & _ & _ & Htr & ->)]];
    [done | apply Hacc | by eapply Hserved].
Qed.

(** C28: a control connection is opened once, for the gateway its certificate
    names, and once it got a usable allocation it is closed exactly once, last,
    whatever happened in between; everything done to the store in between is
    under that gateway and that connection epoch. *)
Theorem connection_is_fenced_and_closed identity configured arrivals w r w'
    (Hw : w_trace w = []) (Hrun : Connect Now identity configured arrivals w = (r, w')) :
  w_trace w' = [] \/
  exists gw h r0, identity = Some gw /\ gw <> "" /\
    ((w_trace w' = [DidAccept gw h r0] /\ forall c, r0 = inr c -> valid_allocation c = false) \/
     exists c l res, r0 = inr c /\ valid_allocation c = true /\
       w_trace w' = DidAccept gw h r0 :: l ++ [DidDisconnect gw (cn_Epoch c) res] /\
       Forall (on_connection gw (cn_Epoch c)) l).
Proof.
  assert (Hne : identity = Some "" -> w_trace w' = []).
  { intros ->. unfold Connect in Hrun. injection Hrun as _ <-. exact Hw. }
  destruct (connect_run _ _ _ _ _ _ Hw Hrun) as [Heq|Hout]; [by left|].
  destruct (decide (identity = Some "")) as [->|Hid]; [left; auto|]. right.
  destruct Hout as [(gw & h & r0 & -> & Heq & Hv)|(gw & c & tr & res & -> & Hv & Htr & Heq)].
  - exists gw, h, r0. split; [done|]. split; [congruence|]. left. split; [done|]. by intros c ->.
  - destruct Htr as [(h & l & -> & Hl) _ _ _ _]. exists gw, h, (inr c). split; [done|].
    split; [congruence|]. right. exists c, l, res. auto.
Qed.

(** C31: the server never acknowledges what it did not do: an event
    acknowledgement directly follows the successful ingestion of the batch it
    names the last sequence of, and a heartbeat acknowledgement directly follows
    the heartbeat the store accepted under the same epoch. *)
Theorem acknowledgements_follow_the_store identity configured arrivals w r w'
    (Hw : w_trace w = []) (Hrun : Connect Now identity configured arrivals w = (r, w')) :
  all_justified (w_trace w').
Proof.
  revert Hw Hrun. apply (connect_run_ind all_justified).
  - by intros [|].
  - intros gw h r0. apply (all_justified_snoc []); [by intros [|]|done].
  - intros gw c tr e res [_ Hj _ _ _]. by apply all_justified_snoc.
Qed.

(** The frames a connection sends are numbered one, two, three and so on,
    carry the protocol version, and a desired-state snapshot among them is one
    that passed validation, at the revision of all its assignments. *)
Theorem frames_are_numbered_and_valid identity configured arrivals w r w' i f
    (Hw : w_trace w = []) (Hrun : Connect Now identity configured arrivals w = (r, w'))
    (Hf : sent_frames (w_trace w') !! i = Some f) :
  cf_Sequence f = u64 (Z.of_nat i + 1) /\ frame_ok f.
Proof.
  revert i f Hf. change ((fun tr => forall i f, sent_frames tr !! i = Some f ->
    cf_Sequence f = u64 (Z.of_nat i + 1) /\ frame_ok f) (w_trace w')).
  revert Hw Hrun. apply connect_run_ind; [done..|].
  intros gw c tr e res [_ _ Hn Hok _] i f. rewrite sent_frames_app, app_nil_r. intros Hf.
  split; [by apply Hn|]. by eapply Forall_lookup_1.
Qed.

Lemma directiveID_inj id a b : 0 <= a -> 0 <= b -> directiveID id a = directiveID id b -> a = b.
Proof.
  intros Ha Hb. unfold directiveID. intros Heq%(inj (String.append _))%(inj (String.append _))%(inj pretty). lia.
Qed.
End Runs.

(** ** Gateway and server agree on event batches *)

Lemma decodeJournalEvent_identity `{EventCodec} payload ev :
  decodeJournalEvent payload = inr ev ->
  ge_AssignmentEpoch ev <> 0 /\ ge_SessionId ev <> "" /\ ge_OrganizationId ev <> "".
Proof.
  unfold decodeJournalEvent. destruct (unmarshal_persisted payload) as [|p]; [discriminate|].
  destruct (_ || _) eqn:Hm; [discriminate|]. destruct (encode_struct _); [discriminate|].
  intros [= <-]. cbn. repeat (apply orb_false_iff in Hm as [Hm ?]). by to_prop.
Qed.

Lemma owned_events_sorted `{EventCodec} cfg gw epoch asg s n :
  journal_wf cfg s ->
  StronglySorted Z.lt (0 :: (ge_JournalSequence <$>
    owned_events gw epoch decodeJournalEvent asg (entry_of <$> take n (journal_entries s)))).
Proof.
  intros Hwf. constructor.
  - pose proof (wf_sorted _ _ Hwf) as Hs. rewrite <- (take_drop n) in Hs.
    apply StronglySorted_app_1_l in Hs. pose proof (wf_row_u64 cfg s) as Hu.
    assert (Hin : forall r, r ∈ take n (journal_entries s) -> u64 (jr_seq r) = jr_seq r).
    { intros r Hr%subseteq_take. by apply u64_id, Hu. }
    induction Hs as [|r l Hl IH HF]; [constructor|]. cbn.
    assert (Htail : forall x, x ∈ l -> u64 (jr_seq x) = jr_seq x) by (intros; apply Hin; by right).
    destruct (decodeJournalEvent _) as [|ev0]; [by apply IH|].
    destruct (event_owned _ _); [|by apply IH]. cbn. constructor; [by apply IH|].
    rewrite Forall_fmap, Forall_forall. intros ev (en & ev1 & Hen & _ & _ & ->)%owned_events_elem. cbn.
    apply list_elem_of_fmap in Hen as (x & -> & Hx). cbn. rewrite Hin by left. rewrite Htail by done.
    rewrite Forall_forall in HF. by apply HF.
  - rewrite Forall_fmap, Forall_forall. intros ev (en & ev1 & Hen & _ & _ & ->)%owned_events_elem.
    apply list_elem_of_fmap in Hen as (x & -> & Hx%subseteq_take). cbn.
    rewrite u64_id by (by eapply wf_row_u64).
    pose proof (wf_window _ _ Hwf) as Hw. rewrite Forall_forall in Hw. specialize (Hw _ Hx).
    pose proof (wf_mark _ _ Hwf). lia.
Qed.

(** Gateway and server agree on event batches: whatever batch the
    gateway's adapter reads from a well-formed journal, the server takes it,
    with every event in order, exactly when each event has a type and a positive
    timestamp; the two conditions are the only ones the adapter does not
    enforce itself. *)
Theorem gateway_batches_are_accepted `{EventCodec} cfg a epoch d evs d'
    (Hwf : journal_wf cfg (rows d)) (Hrun : NextEventBatch a epoch d = (inr evs, d')) (Hne : evs <> []) :
  eventBatch (Some (Some <$> evs)) (a_GatewayID a) epoch = inr (control_event <$> evs) <->
  Forall (fun ev => ge_EventType ev <> "" /\ 0 < ge_OccurredAtUnixMs ev) evs.
Proof.
  destruct (NextEventBatch_owned _ _ _ _ _ _ Hwf Hrun Hne) as (asg & n & _ & Hn & Hevs & Hsz).
  rewrite eventBatch_spec. split.
  - intros (vs & [= ->%(inj _)] & _ & _ & _ & _ & HF & _). eapply Forall_impl; [exact HF|].
    unfold event_fields_ok. cbn. tauto.
  - intros HF. exists evs. split; [done|]. split; [done|]. split; [done|].
    assert (Hlen : Z.of_nat (length evs) <= MaxGatewayEventBatch).
    { pose proof (length_omap_le (fun e => match decodeJournalEvent (Payload e) with
        | inr ev => if event_owned (Some asg) ev then Some (stamp_event e (a_GatewayID a) epoch ev) else None
        | inl _ => None end) (entry_of <$> take n (journal_entries (rows d)))) as Hle.
      rewrite Hevs. unfold owned_events. rewrite length_fmap, length_take in Hle.
      unfold MaxGatewayEventBatch, DefaultBatchEntries in *. lia. }
    split; [exact Hlen|]. split; [exact Hsz|]. rewrite Hevs in *.
    split; [|by apply (owned_events_sorted cfg)]. rewrite !Forall_forall in *. intros ev Hin. specialize (HF _ Hin).
    destruct (owned_events_elem _ _ _ _ _ _ Hin) as (en & ev0 & Hen & Hdec & _ & ->).
    apply list_elem_of_fmap in Hen as (r & -> & Hr%subseteq_take).
    pose proof (wf_nonempty _ _ Hwf) as Hids. rewrite Forall_forall in Hids.
    destruct (Hids _ Hr) as [Hid _]. destruct (decodeJournalEvent_identity _ _ Hdec) as (? & ? & ?).
    cbn in *. split; [done|]. cbn. tauto.
Qed.

(** Within one connection a lifecycle directive is issued at most once per
    desired revision, so its acknowledgement cannot be taken for another's. *)
Theorem directives_are_unique {S} `{ControlStore S} `{EventCodec} `{OriginLib} Now
    identity configured arrivals (w : conn_world S) r w'
    (Hw : w_trace w = []) (Hrun : Connect Now identity configured arrivals w = (r, w'))
    (Hrev : forall gw h c, DidAccept gw h (inr c) ∈ w_trace w' -> 0 <= cn_DesiredRevision c) :
  NoDup (directives (w_trace w')).
Proof.
  revert Hrev. pattern (w_trace w'). revert Hw Hrun. apply connect_run_ind; [constructor|constructor|].
  intros gw c tr e res [(h & l & -> & Hl) _ _ _ (revs & Hd & Hs & HF)] Hrev.
  rewrite directives_app, Hd, app_nil_r. specialize (Hrev gw h c ltac:(by left)).
  apply NoDup_fmap_2_strong.
  - rewrite Forall_forall in HF. intros x y Hx Hy. apply directiveID_inj; [specialize (HF _ Hx)|specialize (HF _ Hy)]; lia.
  - clear -Hs. induction Hs as [|x l Hs IH HF]; constructor; [|done].
    rewrite Forall_forall in HF. intros Hx%HF. lia.
Qed.

(** ** A concrete connection *)

Section Demo.
#[local] Instance demo_store : ControlStore unit := {|
  cs_Accept _ _ := mret (MkConnection "conn_1" 7 DefaultHeartbeatInterval DefaultLeaseTimeout
                           LIFECYCLE_DIRECTIVE_ACTION_RUN 3);
  cs_Heartbeat _ _ _ := mret (MkDesiredLifecycle LIFECYCLE_DIRECTIVE_ACTION_DRAIN 4);
  cs_DesiredState _ _ revision lease := mret (MkDesiredState revision
    [MkDesiredSession "sess_1" "org_1" "" SESSION_DESIRED_ACTION_RUN 1 revision false false 5 50 0 lease]);
  cs_PersistDesiredStateReport _ _ _ := mret tt;
  cs_IngestEvents _ _ _ := mret tt;
  cs_Lifecycle _ _ _ := mret tt;
  cs_Disconnect _ _ := mret tt;
|}.
#[local] Instance demo_codec : EventCodec := {|
  marshal_persisted _ := inr ["m"%byte];
  unmarshal_persisted _ :=
    inr (MkPersistedEvent "" (MkEvent "" "v1" "evt_1" "message" "sess_1" "org_1" 1 JNull) 3);
  encode_struct _ := inr ["s"%byte];
  proto_Size l := 10 * Z.of_nat (length l);
|}.
#[local] Instance demo_origins : OriginLib := {| parse_url _ := None |}.

Definition demo_hello : GatewayPayload := GatewayFrame_Hello (Some (MkGatewayHello "gw_1#1" "1.0"
  [GATEWAY_CAPABILITY_EVENT_STREAM] None 5 0 GATEWAY_RUNTIME_STATE_READY None)).
Definition demo_beat : GatewayPayload := GatewayFrame_Heartbeat (Some (MkGatewayHeartbeat 7 2 9 1
  GATEWAY_RUNTIME_STATE_READY GATEWAY_JOURNAL_STATE_UNKNOWN 0 0)).
Definition demo_gateway_event (sequence : Z) : GatewayEvent :=
  MkGatewayEvent sequence "evt_1" "gw_1" 7 1 "sess_1" "org_1" "message" 1 [].

(** Hello, a heartbeat that brings a new desired revision, a batch of two
    events, and the end of the stream. *)
Definition demo_arrivals : list arrival := [
  Arrived (Some (MkGatewayFrame 1 1 (Some demo_hello)));
  Arrived (Some (MkGatewayFrame 1 2 (Some demo_beat)));
  Arrived (Some (MkGatewayFrame 1 3 (Some (GatewayFrame_EventBatch
    (Some [Some (demo_gateway_event 4); Some (demo_gateway_event 6)])))));
  RecvFailed EOF].
Definition demo_world : conn_world unit := MkConnWorld tt [] 0 [].
Definition demo_now (n : nat) : GoTime := FromUnixMilli (1000 + Z.of_nat n).
Definition demo_run := Connect demo_now (Some "gw_1") true demo_arrivals demo_world.

Lemma demo_run_eq : Connect demo_now (Some "gw_1") true demo_arrivals demo_world = (demo_run.1, demo_run.2).
Proof. unfold demo_run. by destruct (Connect _ _ _ _ _). Qed.

Example demo_frames :
  demo_run.1 = inr tt /\
  (fun f => (cf_Sequence f, match cf_Payload f with
     | Some (ControlFrame_EventAck n) => Some n | Some (ControlFrame_HeartbeatAck n _ _) => Some n | _ => None end)) <$>
    sent_frames (w_trace demo_run.2) =
  [(1, None); (2, None); (3, Some 2); (4, None); (5, None); (6, Some 6)].
Proof. by vm_compute. Qed.

Lemma connection_is_fenced_and_closed_witness :
  last (w_trace demo_run.2) = Some (DidDisconnect "gw_1" 7 (inr tt)) /\
  (w_trace demo_run.2 = [] \/
   exists gw h r0, Some "gw_1" = Some gw /\ gw <> "" /\
    ((w_trace demo_run.2 = [DidAccept gw h r0] /\ forall c, r0 = inr c -> valid_allocation c = false) \/
     exists c l res, r0 = inr c /\ valid_allocation c = true /\
       w_trace demo_run.2 = DidAccept gw h r0 :: l ++ [DidDisconnect gw (cn_Epoch c) res] /\
       Forall (on_connection gw (cn_Epoch c)) l)).
Proof.
  split; [vm_compute; reflexivity|].
  exact (connection_is_fenced_and_closed _ _ _ _ demo_world _ _ eq_refl demo_run_eq).
Defined.

Lemma acknowledgements_follow_the_store_witness : all_justified (w_trace demo_run.2).
Proof.
  exact (acknowledgements_follow_the_store _ _ _ _ demo_world _ _ eq_refl demo_run_eq).
Defined.

Lemma frames_are_numbered_and_valid_witness :
  exists f, sent_frames (w_trace demo_run.2) !! 3%nat = Some f /\
    cf_Sequence f = u64 (Z.of_nat 3 + 1) /\ frame_ok f.
Proof.
  eexists. split; [vm_compute; reflexivity|].
  apply (frames_are_numbered_and_valid _ _ _ _ demo_world _ _ 3 _ eq_refl demo_run_eq). vm_compute. reflexivity.
Defined.

Lemma directives_are_unique_witness :
  directives (w_trace demo_run.2) = ["conn_1:4"] /\ NoDup (directives (w_trace demo_run.2)).
Proof.
  split; [vm_compute; reflexivity|].
  apply (directives_are_unique _ _ _ _ demo_world _ _ eq_refl demo_run_eq).
  intros gw h c Hin. vm_compute in Hin.
  repeat (apply elem_of_cons in Hin as [[=]|Hin]; [try (subst; vm_compute; discriminate)|..]).
  by apply elem_of_nil in Hin.
Defined.

Definition demo_adapter : ControlAdapter :=
  MkControlAdapter "gw_1" (Some {["sess_1" := MkEventAssignment "org_1" 3]}) 1.
Definition demo_journal : jdb :=
  rows (Append DefaultConfig "evt_1" ["m"%byte] 1000000 (Db empty_jdb [])).2.

Lemma gateway_batches_are_accepted_witness :
  let evs := [MkGatewayEvent 1 "evt_1" "gw_1" 7 3 "sess_1" "org_1" "message" 1 ["s"%byte]] in
  eventBatch (Some (Some <$> evs)) "gw_1" 7 = inr (control_event <$> evs) <->
  Forall (fun ev => ge_EventType ev <> "" /\ 0 < ge_OccurredAtUnixMs ev) evs.
Proof.
  intros evs.
  apply (gateway_batches_are_accepted DefaultConfig demo_adapter 7 (Db demo_journal []) evs
           (NextEventBatch demo_adapter 7 (Db demo_journal [])).2); [|vm_compute; reflexivity|discriminate].
  assert (Hcap : cap_ok DefaultConfig) by (split; vm_compute; reflexivity).
  refine (Append_keeps_wf DefaultConfig "evt_1" ["m"%byte] 1000000 Hcap _ _ _ _
    (surjective_pairing (Append DefaultConfig "evt_1" ["m"%byte] 1000000 (Db empty_jdb []))) _);
    [vm_compute; reflexivity | by apply empty_jdb_wf].
Defined.
End Demo.
