(* ===== verification/DesiredState.v ===== *)
(** * Desired-state reconciliation

    Models [internal/gateway/desiredstate]: the [Reconciler] that makes the
    gateway's running sessions follow the API's complete assignment snapshot
    ([reconciler.go]) and the [ControlApplier] that turns the control message
    into it, reports the outcome and arms the lease timer ([control.go]). The
    session engine is the interface [Runtime] of the source; each call to it is
    recorded together with the assignment set that is published while it
    runs, because engine callbacks read that set. *)

From S2P Require Import Prelude Journal Domain Wire.

Definition ErrInvalidSnapshot : goerr := ErrMsg "desired state: invalid snapshot".

Record AConfig := MkAConfig {
  cf_Revision : Z;
  cf_AutoRead : bool;
  cf_PresenceTyping : bool;
  cf_RatePerMin : Z;
  cf_RatePerHour : Z;
  cf_HistorySyncDays : Z;
}.

Record Assignment := MkAssignment {
  as_SessionID : string;
  as_OrganizationID : string;
  as_DeviceJID : string;
  as_AssignmentEpoch : Z;
  as_LeaseExpiresAt : GoTime;
  as_DesiredRun : bool;
  as_Config : AConfig;
}.

Record Snapshot := MkSnapshot {
  sn_Revision : Z;
  sn_Assignments : list Assignment;
}.

Record Inventory := MkInventory {
  inv_PairedJIDs : list string;
  inv_CorruptJIDs : list string;
}.

Record Result := MkResult {
  rs_Revision : Z;
  rs_Healthy : bool;
  rs_MissingDeviceJIDs : list string;
  rs_UnexpectedJIDs : list string;
  rs_CorruptJIDs : list string;
  rs_LocalDeviceJIDs : list string;
}.

(** The gateway-local session engine, over its own state [R]. *)
Record Runtime (R : Type) := MkRuntime {
  rt_Inventory : M R Inventory;
  rt_StartAssigned : Assignment -> M R unit;
  rt_StopAssigned : string -> M R unit;
}.
Arguments MkRuntime {R} _ _ _.
Arguments rt_Inventory {R} _.
Arguments rt_StartAssigned {R} _ _.
Arguments rt_StopAssigned {R} _ _.

Inductive call :=
  | CallStart (a : Assignment)
  | CallStop (id : string).

(** The [Reconciler]'s own fields, the engine it drives, and the calls made to
    the engine, each with the assignments published at that moment. *)
Record reconciler (R : Type) := MkReconciler {
  rc_revision : Z;
  rc_assignments : gmap string Assignment;
  rc_engine : R;
  rc_calls : list (gmap string Assignment * call);
}.
Arguments MkReconciler {R} _ _ _ _.
Arguments rc_revision {R} _.
Arguments rc_assignments {R} _.
Arguments rc_engine {R} _.
Arguments rc_calls {R} _.

(** [slices.Sort] of strings, in byte order. *)
Definition string_le (a b : string) : Prop := String.leb a b = true.
#[export] Instance string_le_dec : RelDecision string_le.
Proof. intros a b. unfold Decision, string_le. apply bool_eq_dec. Defined.
Definition sorted (values : list string) : list string := merge_sort string_le values.

Definition lease_live (a : Assignment) (now : GoTime) : bool := After (as_LeaseExpiresAt a) now.

Fixpoint validate_loop (l : list Assignment) (seenSessions seenDevices : gset string)
  : option goerr :=
  match l with
  | [] => None
  | a :: l' =>
      if bool_decide (as_SessionID a = "") || bool_decide (as_OrganizationID a = "")
         || (as_DesiredRun a && bool_decide (as_DeviceJID a = ""))
         || (as_AssignmentEpoch a =? 0) || IsZero (as_LeaseExpiresAt a) then
        Some ErrInvalidSnapshot
      else if bool_decide (as_SessionID a ∈ seenSessions) then Some ErrInvalidSnapshot
      else if bool_decide (as_DeviceJID a = "") then
        validate_loop l' ({[as_SessionID a]} ∪ seenSessions) seenDevices
      else if bool_decide (as_DeviceJID a ∈ seenDevices) then Some ErrInvalidSnapshot
      else validate_loop l' ({[as_SessionID a]} ∪ seenSessions) ({[as_DeviceJID a]} ∪ seenDevices)
  end.

Definition validate (snapshot : Snapshot) : option goerr :=
  if sn_Revision snapshot =? 0 then Some ErrInvalidSnapshot
  else validate_loop (sn_Assignments snapshot) ∅ ∅.

(** What the loop over the snapshot accumulates. [pl_stop] is [stopIDs]; its
    membership test is [stopSet]. *)
Record plan := MkPlan {
  pl_next : gmap string Assignment;
  pl_wanted : gset string;
  pl_missing : list string;
  pl_start : list Assignment;
  pl_stop : list string;
}.

Definition addStop (id : string) (stops : list string) : list string :=
  if bool_decide (id ∈ stops) then stops else stops ++ [id].

Definition plan_assignment (now : GoTime) (paired : gset string)
  (previousAssignments : gmap string Assignment) (p : plan) (a : Assignment) : plan :=
  let wanted := if bool_decide (as_DeviceJID a = "") then pl_wanted p
                else {[as_DeviceJID a]} ∪ pl_wanted p in
  if negb (as_DesiredRun a) || negb (lease_live a now) then
    let stops :=
      match previousAssignments !! as_SessionID a with
      | Some previous =>
          if as_DesiredRun previous
             || negb (as_AssignmentEpoch previous =? as_AssignmentEpoch a)
             || negb (bool_decide (as_OrganizationID previous = as_OrganizationID a))
             || negb (lease_live a now)
          then addStop (as_SessionID a) (pl_stop p) else pl_stop p
      | None => pl_stop p
      end in
    if as_DesiredRun a then MkPlan (pl_next p) wanted (pl_missing p) (pl_start p) stops
    else MkPlan (<[as_SessionID a := a]> (pl_next p)) wanted (pl_missing p) (pl_start p) stops
  else
    let next := <[as_SessionID a := a]> (pl_next p) in
    if bool_decide (as_DeviceJID a ∈ paired) then
      MkPlan next wanted (pl_missing p) (pl_start p ++ [a]) (pl_stop p)
    else MkPlan next wanted (pl_missing p ++ [as_DeviceJID a]) (pl_start p) (pl_stop p).

Definition empty_plan : plan := MkPlan ∅ ∅ [] [] [].

Section Reconciler.
Context {R : Type} `{Range : MapRange}.

Definition set_assignments (m : gmap string Assignment) (w : reconciler R) : reconciler R :=
  MkReconciler (rc_revision w) m (rc_engine w) (rc_calls w).
Definition set_revision (v : Z) (w : reconciler R) : reconciler R :=
  MkReconciler v (rc_assignments w) (rc_engine w) (rc_calls w).

(** A call into the engine. *)
Definition inventory_call (rt : Runtime R) : M (reconciler R) Inventory := fun w =>
  let '(r, e) := rt_Inventory rt (rc_engine w) in
  (r, MkReconciler (rc_revision w) (rc_assignments w) e (rc_calls w)).

Definition engine_call (op : M R unit) (c : call) : M (reconciler R) unit := fun w =>
  let '(r, e) := op (rc_engine w) in
  (r, MkReconciler (rc_revision w) (rc_assignments w) e
        (rc_calls w ++ [(rc_assignments w, c)])).

Definition StartAssigned (rt : Runtime R) (a : Assignment) : M (reconciler R) unit :=
  engine_call (rt_StartAssigned rt a) (CallStart a).
Definition StopAssigned (rt : Runtime R) (id : string) : M (reconciler R) unit :=
  engine_call (rt_StopAssigned rt id) (CallStop id).

Definition failClosed (previousRevision : Z) : M (reconciler R) unit :=
  modify (fun w => set_revision previousRevision (set_assignments ∅ w)).

Definition rollback (rt : Runtime R) (previousRevision : Z)
  (previous candidate : gmap string Assignment) (cause : goerr) : M (reconciler R) goerr :=
  cleanupErr ← join_each (StopAssigned rt) (range_keys (dom previous ∪ dom candidate)) None;
  failClosed previousRevision;;
  mret (default cause (errors_join (Some cause) cleanupErr)).

(** The sessions to stop: those the loop found, then the previously assigned
    ones that are not retained. *)
Definition stop_ids (previousAssignments : gmap string Assignment) (p : plan) : list string :=
  foldl (fun stops id => if bool_decide (id ∈ dom (pl_next p)) then stops else addStop id stops)
        (pl_stop p) (range_keys (dom previousAssignments)).

Definition unexpected_jids (paired wanted : gset string) : list string :=
  filter (fun jid => jid ∉ wanted) (range_keys paired).

Definition apply_result (snapshot : Snapshot) (inventory : Inventory) (p : plan) : Result :=
  let missing := sorted (pl_missing p) in
  let unexpected := sorted (unexpected_jids (list_to_set (inv_PairedJIDs inventory)) (pl_wanted p)) in
  let corrupt := sorted (inv_CorruptJIDs inventory) in
  {|
    rs_Revision := sn_Revision snapshot;
    rs_Healthy := bool_decide (missing = []) && bool_decide (unexpected = [])
                  && bool_decide (corrupt = []);
    rs_MissingDeviceJIDs := missing;
    rs_UnexpectedJIDs := unexpected;
    rs_CorruptJIDs := corrupt;
    rs_LocalDeviceJIDs := sorted (inv_PairedJIDs inventory);
  |}.

Definition make_plan (now : GoTime) (inventory : Inventory)
  (previousAssignments : gmap string Assignment) (snapshot : Snapshot) : plan :=
  foldl (plan_assignment now (list_to_set (inv_PairedJIDs inventory)) previousAssignments)
        empty_plan (sn_Assignments snapshot).

Definition Apply (runtime : option (Runtime R)) (now : GoTime) (snapshot : Snapshot)
  : M (reconciler R) Result :=
  match runtime with
  | None => throw (ErrMsg "desired state: nil runtime")
  | Some rt =>
  match validate snapshot with
  | Some err => throw err
  | None =>
      previousRevision ← gets rc_revision;
      if sn_Revision snapshot <? previousRevision then
        mret (MkResult previousRevision false [] [] [] [])
      else
        previousAssignments ← gets rc_assignments;
        inventory ← inventory_call rt;
        let p := make_plan now inventory previousAssignments snapshot in
        modify (set_assignments (pl_next p));;
        r ← attempt (for_each (StopAssigned rt) (stop_ids previousAssignments p);;
                     for_each (StartAssigned rt) (pl_start p));
        match r with
        | inl err =>
            joined ← rollback rt previousRevision previousAssignments (pl_next p) err;
            throw joined
        | inr _ =>
            modify (set_revision (sn_Revision snapshot));;
            mret (apply_result snapshot inventory p)
        end
  end end.

(** ** Lease expiry and the ownership checks *)

Definition expired_ids (now : GoTime) (m : gmap string Assignment) : list string :=
  filter (fun id => from_option (fun a => negb (lease_live a now)) false (m !! id) = true)
         (range_keys (dom m)).

Definition Expire (rt : Runtime R) (now : GoTime) : M (reconciler R) bool :=
  previousRevision ← gets rc_revision;
  expiredAssignments ← gets (fun w => expired_ids now (rc_assignments w));
  modify (fun w => set_assignments
    (filter (fun p => lease_live p.2 now = true) (rc_assignments w)) w);;
  stopErr ← join_each (StopAssigned rt) expiredAssignments None;
  match stopErr with
  | Some err => failClosed previousRevision;; throw err
  | None => mret (negb (bool_decide (expiredAssignments = [])))
  end.

Definition CurrentEpoch (sessionID : string) (w : reconciler R) : option Z :=
  as_AssignmentEpoch <$> rc_assignments w !! sessionID.

Definition assignmentActive (a : Assignment) (organizationID : string) (epoch : Z) (now : GoTime)
  : bool :=
  bool_decide (as_OrganizationID a = organizationID) && as_DesiredRun a &&
  (as_AssignmentEpoch a =? epoch) && lease_live a now.

Definition AllowsMutation (organizationID sessionID : string) (epoch : Z) (now : GoTime)
  (w : reconciler R) : bool :=
  match rc_assignments w !! sessionID with
  | Some a => assignmentActive a organizationID epoch now
  | None => false
  end.

Definition OwnsSession (organizationID sessionID : string) (epoch : Z) (now : GoTime)
  (w : reconciler R) : bool :=
  match rc_assignments w !! sessionID with
  | Some a => assignmentActive a organizationID epoch now
  | None => false
  end.

Definition OwnsAssignment (organizationID sessionID : string) (epoch : Z) (now : GoTime)
  (w : reconciler R) : bool :=
  match rc_assignments w !! sessionID with
  | Some a => bool_decide (as_OrganizationID a = organizationID) &&
              (as_AssignmentEpoch a =? epoch) && lease_live a now
  | None => false
  end.

Definition Revision (w : reconciler R) : Z := rc_revision w.
Definition AssignmentCount (w : reconciler R) : Z := Z.of_nat (size (rc_assignments w)).
Definition AssignedConfig (sessionID : string) (w : reconciler R) : option AConfig :=
  as_Config <$> rc_assignments w !! sessionID.

(** The loop of [NextLeaseExpiry]; [earliest] starts as the zero time. *)
Definition earlier_lease (earliest : GoTime) (a : Assignment) : GoTime :=
  if negb (as_DesiredRun a) then earliest
  else if IsZero earliest || Before (as_LeaseExpiresAt a) earliest then as_LeaseExpiresAt a
  else earliest.

Definition NextLeaseExpiry (w : reconciler R) : option GoTime :=
  let earliest :=
    foldl (fun earliest id => from_option (earlier_lease earliest) earliest (rc_assignments w !! id))
          zero_time (range_keys (dom (rc_assignments w))) in
  if IsZero earliest then None else Some earliest.

(** ** control.go *)

(** [ControlApplier]: the reconciler and the pending lease timer, given by its
    delay; [OnLeaseExpired] is recorded with the error it is called with. *)
Record applier := MkApplier {
  ca_Reconciler : reconciler R;
  ca_timer : option Z;
  ca_expired_calls : list (option goerr);
}.

Definition translate_config (c : option SessionConfig) : AConfig :=
  match c with
  | None => MkAConfig 0 false false 0 0 0
  | Some c => MkAConfig (sc_revision c) (sc_auto_read c) (sc_presence_typing c)
                (sc_rate_per_min c) (sc_rate_per_hour c) (sc_history_sync_days c)
  end.

Definition translate_assignment (item : SessionAssignment) : Assignment := {|
  as_SessionID := sa_session_id item;
  as_OrganizationID := sa_organization_id item;
  as_DeviceJID := default "" (sa_device_jid item);
  as_AssignmentEpoch := sa_assignment_epoch item;
  as_LeaseExpiresAt := FromUnixMilli (sa_lease_expires_at_unix_ms item);
  as_DesiredRun := bool_decide (sa_desired_action item = SESSION_DESIRED_ACTION_RUN);
  as_Config := translate_config (sa_config item);
|}.

Definition missingKeystore (missing : list string) (deviceJID : string) : bool :=
  bool_decide (deviceJID ∈ missing).

Definition assignmentResults (assignments : list Assignment) (result : Result)
  : list ReconciliationResult :=
  (fun a => {|
    rr_session_id := Some (as_SessionID a);
    rr_assignment_epoch := as_AssignmentEpoch a;
    rr_device_jid := as_DeviceJID a;
    rr_status := if missingKeystore (rs_MissingDeviceJIDs result) (as_DeviceJID a)
                 then RECONCILIATION_RESULT_STATUS_KEYSTORE_MISSING
                 else RECONCILIATION_RESULT_STATUS_APPLIED;
  |}) <$> assignments.

Definition jidResults (jids : list string) (status : ReconciliationResultStatus)
  : list ReconciliationResult :=
  (fun jid => MkReconciliationResult None 0 jid status) <$> jids.

(** [health] is what the [Health] callback reports, if there is one. *)
Definition newReport (health : option KeystoreHealthState) (epoch : Z)
  (snapshot : DesiredStateSnapshot) : DesiredStateReport :=
  MkDesiredStateReport epoch (ds_revision snapshot)
    (default KEYSTORE_HEALTH_STATE_HEALTHY health) [] [].

Definition resetLeaseTimer (now : GoTime) : M applier unit :=
  modify (fun a => MkApplier (ca_Reconciler a)
    ((fun expiresAt => Z.max 0 (TimeSub expiresAt now)) <$> NextLeaseExpiry (ca_Reconciler a))
    (ca_expired_calls a)).

(** An operation of the reconciler, run by the applier. *)
Definition on_reconciler {A} (m : M (reconciler R) A) : M applier A := fun a =>
  let '(r, w) := m (ca_Reconciler a) in (r, MkApplier w (ca_timer a) (ca_expired_calls a)).

Definition ApplyDesiredState (runtime : option (Runtime R)) (health : option KeystoreHealthState)
  (now : GoTime) (epoch : Z) (snapshot : DesiredStateSnapshot) : M applier DesiredStateReport :=
  let assignments := translate_assignment <$> ds_assignments snapshot in
  result ← on_reconciler (Apply runtime now (MkSnapshot (ds_revision snapshot) assignments));
  resetLeaseTimer now;;
  let report := newReport health epoch snapshot in
  mret (MkDesiredStateReport (dr_connection_epoch report) (dr_processed_revision report)
    (dr_keystore_health report)
    (dr_local_devices report ++ rs_LocalDeviceJIDs result)
    (dr_results report ++ assignmentResults assignments result
     ++ jidResults (rs_UnexpectedJIDs result) RECONCILIATION_RESULT_STATUS_UNEXPECTED_LOCAL_DEVICE
     ++ jidResults (rs_CorruptJIDs result) RECONCILIATION_RESULT_STATUS_KEYSTORE_CORRUPT)).

(** The function armed by [resetLeaseTimer]. *)
Definition leaseTimerFired (rt : Runtime R) (now : GoTime) : M applier unit :=
  r ← attempt (on_reconciler (Expire rt now));
  let expired := match r with inl _ => false | inr expired => expired end in
  let err := match r with inl err => Some err | inr _ => None end in
  if expired then
    modify (fun a => MkApplier (ca_Reconciler a) (ca_timer a) (ca_expired_calls a ++ [err]))
  else mret tt.

Definition StopApplier : M applier unit :=
  modify (fun a => MkApplier (ca_Reconciler a) None (ca_expired_calls a)).

(** ** What the engine calls leave behind *)

(** A run that only called the engine: the revision and the assignments are
    as before, and the calls [cs] were recorded under those assignments. *)
Definition only_called (cs : list call) (w w' : reconciler R) : Prop :=
  rc_revision w' = rc_revision w /\ rc_assignments w' = rc_assignments w /\
  rc_calls w' = rc_calls w ++ ((fun c => (rc_assignments w, c)) <$> cs).

Lemma only_called_nil w : only_called [] w w.
Proof. split; [done|]. split; [done|]. by rewrite app_nil_r. Qed.

Lemma only_called_app cs1 cs2 w w1 w2 :
  only_called cs1 w w1 -> only_called cs2 w1 w2 -> only_called (cs1 ++ cs2) w w2.
Proof.
  intros (Hr1 & Ha1 & Hc1) (Hr2 & Ha2 & Hc2). split; [congruence|]. split; [congruence|].
  rewrite Hc2, Hc1, Ha1, fmap_app, app_assoc. done.
Qed.

Lemma engine_call_called op c w r w' : engine_call op c w = (r, w') -> only_called [c] w w'.
Proof. unfold engine_call. destruct (op _). intros [= _ <-]. done. Qed.

Lemma for_each_called {A} (f : A -> M (reconciler R) unit) (c : A -> call) l w r w' :
  (forall x w r w', f x w = (r, w') -> only_called [c x] w w') ->
  for_each f l w = (r, w') ->
  exists k, only_called (c <$> take k l) w w' /\ (r = inr tt -> take k l = l).
Proof.
  intros Hf. revert w. induction l as [|x l IH]; intros w; cbn [for_each].
  { intros [= <- <-]. exists 0%nat. split; [apply only_called_nil | done]. }
  unfold mbind, M_bind. destruct (f x w) as [[e|[]] w1] eqn:Hx; intros Hrun.
  - injection Hrun as <- <-. exists 1%nat. cbn. rewrite take_0. split; [eauto | done].
  - apply IH in Hrun as (k & Hk & Hall). exists (S k). cbn. split.
    + apply (only_called_app [c x] _ w w1 w'); eauto.
    + intros ->. by rewrite Hall.
Qed.

Lemma join_each_called {A} (f : A -> M (reconciler R) unit) (c : A -> call) l acc w r w' :
  (forall x w r w', f x w = (r, w') -> only_called [c x] w w') ->
  join_each f l acc w = (r, w') ->
  only_called (c <$> l) w w' /\ exists out, r = inr out /\ (acc <> None -> out <> None).
Proof.
  intros Hf. revert acc w. induction l as [|x l IH]; intros acc w; cbn [join_each].
  { intros [= <- <-]. split; [apply only_called_nil | eauto]. }
  unfold mbind, M_bind, attempt. destruct (f x w) as [rx w1] eqn:Hx. intros Hrun.
  apply IH in Hrun as (Hk & out & -> & Hacc). split.
  - apply (only_called_app [c x] _ w w1 w'); eauto.
  - exists out. split; [done|]. intros Ha. apply Hacc. by destruct acc, rx.
Qed.

Lemma StopAssigned_called rt id w r w' :
  StopAssigned rt id w = (r, w') -> only_called [CallStop id] w w'.
Proof. apply engine_call_called. Qed.
Lemma StartAssigned_called rt a w r w' :
  StartAssigned rt a w = (r, w') -> only_called [CallStart a] w w'.
Proof. apply engine_call_called. Qed.

(** A failed transaction: everything that could have been touched was told to
    stop while the candidate set was still published, then nothing is owned. *)
Lemma rollback_run rt rev previous candidate cause w r w' :
  rollback rt rev previous candidate cause w = (r, w') ->
  exists err, r = inr err /\ rc_revision w' = rev /\ rc_assignments w' = ∅ /\
    rc_calls w' = rc_calls w ++ ((fun id => (rc_assignments w, CallStop id)) <$>
                                 range_keys (dom previous ∪ dom candidate)).
Proof.
  unfold rollback, mbind, M_bind.
  destruct (join_each _ _ _ w) as [rj w1] eqn:Hj.
  apply (join_each_called _ CallStop) in Hj as ((Hr & Ha & Hc) & out & -> & _);
    [|apply StopAssigned_called].
  intros [= <- <-]. eexists. split; [done|]. split; [done|]. split; [done|].
  cbn. rewrite Hc, <- list_fmap_compose. done.
Qed.
End Reconciler.

(** ** What the loop over the snapshot computes *)

(** The assignment stays published; it is to be running; its device is here. *)
Definition to_run (now : GoTime) (a : Assignment) : bool := as_DesiredRun a && lease_live a now.
Definition retained (now : GoTime) (a : Assignment) : bool :=
  negb (as_DesiredRun a) || lease_live a now.
Definition device_paired (paired : gset string) (a : Assignment) : bool :=
  bool_decide (as_DeviceJID a ∈ paired).
Definition must_stop (now : GoTime) (previous : gmap string Assignment) (a : Assignment) : bool :=
  negb (to_run now a) &&
  match previous !! as_SessionID a with
  | Some p => as_DesiredRun p || negb (as_AssignmentEpoch p =? as_AssignmentEpoch a)
              || negb (bool_decide (as_OrganizationID p = as_OrganizationID a))
              || negb (lease_live a now)
  | None => false
  end.

Lemma elem_of_addStop id id' stops : id' ∈ addStop id stops <-> id' = id \/ id' ∈ stops.
Proof. unfold addStop. case_bool_decide; set_solver. Qed.

Lemma addStop_NoDup id stops : NoDup stops -> NoDup (addStop id stops).
Proof.
  unfold addStop. case_bool_decide; [done|]. intros Hn. apply NoDup_app. split; [done|].
  split; [set_solver | apply NoDup_singleton].
Qed.

(** The plan, field by field. *)
Record plan_ok (now : GoTime) (paired : gset string) (previous : gmap string Assignment)
  (l : list Assignment) (p : plan) : Prop := {
  ok_next : forall id a, pl_next p !! id = Some a <->
    a ∈ l /\ as_SessionID a = id /\ retained now a = true;
  ok_wanted : forall jid, jid ∈ pl_wanted p <-> jid <> "" /\ jid ∈ (as_DeviceJID <$> l);
  ok_missing : pl_missing p =
    as_DeviceJID <$> filter (fun a => to_run now a && negb (device_paired paired a) = true) l;
  ok_start : pl_start p = filter (fun a => to_run now a && device_paired paired a = true) l;
  ok_stop_nodup : NoDup (pl_stop p);
  ok_stop : forall id, id ∈ pl_stop p <->
    exists a, a ∈ l /\ as_SessionID a = id /\ must_stop now previous a = true;
}.

(** One more assignment updates each field independently. *)
Lemma plan_assignment_fields now paired previous p a :
  let p' := plan_assignment now paired previous p a in
  pl_next p' = (if retained now a then <[as_SessionID a := a]> (pl_next p) else pl_next p) /\
  pl_wanted p' = (if bool_decide (as_DeviceJID a = "") then pl_wanted p
                  else {[as_DeviceJID a]} ∪ pl_wanted p) /\
  pl_missing p' = pl_missing p ++
    (if to_run now a && negb (device_paired paired a) then [as_DeviceJID a] else []) /\
  pl_start p' = pl_start p ++ (if to_run now a && device_paired paired a then [a] else []) /\
  pl_stop p' = (if must_stop now previous a then addStop (as_SessionID a) (pl_stop p)
                else pl_stop p).
Proof.
  unfold plan_assignment, retained, to_run, device_paired, must_stop, to_run.
  destruct (as_DesiredRun a), (lease_live a now); cbn [negb orb andb];
    destruct (bool_decide (as_DeviceJID a ∈ paired)); cbn; rewrite ?app_nil_r;
    destruct (previous !! as_SessionID a); done.
Qed.

Lemma make_plan_ok now paired previous l :
  NoDup (as_SessionID <$> l) ->
  plan_ok now paired previous l (foldl (plan_assignment now paired previous) empty_plan l).
Proof.
  induction l as [|a l IH] using rev_ind; intros Hnd.
  { split; cbn; try done; try set_solver; try constructor. }
  rewrite fmap_app in Hnd. apply NoDup_app in Hnd as (Hnd & Hfresh & _).
  specialize (IH Hnd). rewrite foldl_snoc. set (p := foldl _ _ l) in *.
  destruct (plan_assignment_fields now paired previous p a) as (Hn & Hw & Hm & Hs & Ht).
  destruct IH as [Inext Iwanted Imiss Istart Ind Istop]. split.
  - clear -Hn Inext Hfresh. intros id b. rewrite Hn, elem_of_app, list_elem_of_singleton.
    destruct (retained now a) eqn:Hr; [destruct (decide (as_SessionID a = id)) as [<-|Hne]|].
    + rewrite lookup_insert_eq. split; [intros [= <-]; tauto|].
      intros ([Hb| ->] & Hid & _); [|done]. exfalso. apply (Hfresh (as_SessionID b)).
      * by apply list_elem_of_fmap_2.
      * rewrite Hid. by left.
    + rewrite lookup_insert_ne, Inext by done. split; [tauto|].
      intros ([Hb| ->] & Hid & Hrb); tauto.
    + rewrite Inext. split; [tauto|]. intros ([Hb| ->] & Hid & Hrb); [tauto | congruence].
  - clear -Hw Iwanted. intros jid. rewrite Hw, fmap_app, elem_of_app.
    rewrite (list_elem_of_singleton jid (as_DeviceJID a)).
    case_bool_decide; rewrite ?elem_of_union, Iwanted, ?elem_of_singleton; split; naive_solver.
  - rewrite Hm, Imiss, filter_app, fmap_app. f_equal.
    cbn. by destruct (to_run now a && negb (device_paired paired a)).
  - rewrite Hs, Istart, filter_app. f_equal.
    cbn. by destruct (to_run now a && device_paired paired a).
  - rewrite Ht. destruct (must_stop now previous a); [by apply addStop_NoDup | done].
  - intros id. rewrite exists_elem_snoc, Ht, <- Istop. clear.
    destruct (must_stop now previous a) eqn:Hms; rewrite ?elem_of_addStop; split; [|..].
    + intros [-> | ?]; tauto.
    + intros [?|[<- _]]; tauto.
    + tauto.
    + intros [?|[_ [=]]]; tauto.
Qed.


(** ** Valid snapshots *)

Definition assignment_ok (a : Assignment) : Prop :=
  as_SessionID a <> "" /\ as_OrganizationID a <> "" /\
  (as_DesiredRun a = true -> as_DeviceJID a <> "") /\
  as_AssignmentEpoch a <> 0 /\ as_LeaseExpiresAt a <> zero_time.

(** The devices named by a snapshot. *)
Definition devices (l : list Assignment) : list string :=
  filter (fun jid => jid <> "") (as_DeviceJID <$> l).

Lemma assignment_ok_spec a :
  bool_decide (as_SessionID a = "") || bool_decide (as_OrganizationID a = "")
  || (as_DesiredRun a && bool_decide (as_DeviceJID a = ""))
  || (as_AssignmentEpoch a =? 0) || IsZero (as_LeaseExpiresAt a) = false <-> assignment_ok a.
Proof.
  unfold IsZero, assignment_ok. rewrite !orb_false_iff, andb_false_iff, !bool_decide_eq_false,
    Z.eqb_neq. destruct (as_DesiredRun a); naive_solver.
Qed.

Lemma validate_loop_spec l ss ds :
  validate_loop l ss ds = None <->
  Forall assignment_ok l /\
  (NoDup (as_SessionID <$> l) /\ forall x, x ∈ (as_SessionID <$> l) -> x ∉ ss) /\
  (NoDup (devices l) /\ forall x, x ∈ devices l -> x ∉ ds).
Proof.
  revert ss ds. induction l as [|a l IH]; intros ss ds; cbn [validate_loop].
  { split; [|done]. intros _. unfold devices. cbn. split; [constructor|].
    split; (split; [constructor | by intros x ?%not_elem_of_nil]). }
  rewrite Forall_cons, fmap_cons.
  destruct (_ || _ || _ || _ || _) eqn:Hbad.
  { split; [discriminate|]. intros [[Hok%assignment_ok_spec _] _]. congruence. }
  apply assignment_ok_spec in Hbad.
  case_bool_decide as Hs.
  { split; [discriminate|]. intros (_ & (_ & Hn) & _). exfalso. eapply Hn, Hs. by left. }
  rewrite <- (seen_step _ _ _ Hs). unfold devices. rewrite fmap_cons, filter_cons.
  fold (devices l). case_bool_decide as Hd.
  { rewrite decide_False by auto. rewrite IH. tauto. }
  rewrite decide_True by done. case_bool_decide as Hd2.
  { split; [discriminate|]. intros (_ & _ & _ & Hn). exfalso. eapply Hn, Hd2. by left. }
  rewrite <- (seen_step _ _ _ Hd2), IH. tauto.
Qed.

Lemma validate_spec s :
  validate s = None <->
  sn_Revision s <> 0 /\ Forall assignment_ok (sn_Assignments s) /\
  NoDup (as_SessionID <$> sn_Assignments s) /\ NoDup (devices (sn_Assignments s)).
Proof.
  unfold validate. destruct (_ =? 0) eqn:Hr; to_prop; [naive_solver|].
  rewrite validate_loop_spec. split; [tauto|]. intros (_ & Hf & Hs & Hd).
  split; [done|]. split; (split; [done|]; intros; apply not_elem_of_empty).
Qed.

Lemma validate_error s e : validate s = Some e -> e = ErrInvalidSnapshot.
Proof.
  unfold validate. destruct (_ =? 0); [congruence|].
  generalize (∅ : gset string) at 1 as ss. generalize (∅ : gset string) as ds.
  induction (sn_Assignments s) as [|a l IH]; intros ds ss; cbn [validate_loop]; [done|].
  repeat split_if; try congruence; eauto.
Qed.

(** ** What [Apply] does *)

Section Apply.
Context {R : Type} `{Range : MapRange}.

Definition inventory_of (rt : Runtime R) (w : reconciler R) : goerr + Inventory :=
  (rt_Inventory rt (rc_engine w)).1.

(** The two loops of calls, which stop at the first failure. *)
Lemma call_loops (rt : Runtime R) stops starts w r w' :
  (for_each (StopAssigned rt) stops;; for_each (StartAssigned rt) starts) w = (r, w') ->
  exists cs, only_called cs w w' /\
    (r = inr tt -> cs = (CallStop <$> stops) ++ (CallStart <$> starts)).
Proof.
  unfold mbind, M_bind. destruct (for_each (StopAssigned rt) stops w) as [rs w1] eqn:Hstop.
  apply (for_each_called _ CallStop) in Hstop as (k1 & Hc1 & Hall1); [|apply StopAssigned_called].
  destruct rs as [err|[]].
  { intros [= <- <-]. eexists. split; [exact Hc1 | done]. }
  rewrite (Hall1 eq_refl) in Hc1. intros Hstart.
  apply (for_each_called _ CallStart) in Hstart as (k2 & Hc2 & Hall2);
    [|apply StartAssigned_called].
  eexists. split; [exact (only_called_app _ _ _ _ _ Hc1 Hc2)|].
  intros ->. by rewrite (Hall2 eq_refl).
Qed.

(** The three outcomes of a transaction on a valid snapshot that is not stale. *)
Lemma Apply_outcomes (rt : Runtime R) now snapshot w r w' :
  validate snapshot = None -> rc_revision w <= sn_Revision snapshot ->
  Apply (Some rt) now snapshot w = (r, w') ->
  (exists err, inventory_of rt w = inl err /\ r = inl err /\ only_called [] w w') \/
  (exists inventory, inventory_of rt w = inr inventory /\
   let p := make_plan now inventory (rc_assignments w) snapshot in
   let stops := stop_ids (rc_assignments w) p in
   let log := fun cs => rc_calls w ++ ((fun c => (pl_next p, c)) <$> cs) in
   (r = inr (apply_result snapshot inventory p) /\ rc_revision w' = sn_Revision snapshot /\
    rc_assignments w' = pl_next p /\
    rc_calls w' = log ((CallStop <$> stops) ++ (CallStart <$> pl_start p))) \/
   (exists err done_, r = inl err /\ rc_revision w' = rc_revision w /\ rc_assignments w' = ∅ /\
    rc_calls w' = log (done_ ++ (CallStop <$>
      range_keys (dom (rc_assignments w) ∪ dom (pl_next p)))))).
Proof.
  intros Hv Hrev. unfold Apply. rewrite Hv. unfold mbind, M_bind, gets.
  rewrite (proj2 (Z.ltb_ge _ _) Hrev). unfold inventory_call, inventory_of.
  destruct (rt_Inventory rt (rc_engine w)) as [[err|inventory] e]; cbn [fst].
  { intros [= <- <-]. left. exists err. split; [done|]. split; [done|].
    split; [done|]. split; [done|]. cbn. by rewrite app_nil_r. }
  intros Hrun. right. exists inventory. split; [done|]. cbv zeta.
  set (p := make_plan now inventory (rc_assignments w) snapshot) in *.
  unfold modify, attempt in Hrun. set (w0 := set_assignments (pl_next p) _) in Hrun.
  match type of Hrun with context [for_each ?f ?l w0] =>
    destruct ((for_each f l;; for_each (StartAssigned rt) (pl_start p)) w0) as [rs w2] eqn:Hcalls
  end.
  unfold mbind, M_bind in Hcalls. rewrite Hcalls in Hrun.
  apply call_loops in Hcalls as (cs & (Hr2 & Ha2 & Hc2) & Hall).
  destruct rs as [err|[]].
  - right. destruct (rollback _ _ _ _ _ w2) as [rb w3] eqn:Hrb.
    apply rollback_run in Hrb as (joined & -> & Hr3 & Ha3 & Hc3).
    unfold throw in Hrun. injection Hrun as <- <-. exists joined, cs.
    split; [done|]. split; [done|]. split; [done|].
    rewrite Hc3, Hc2, Ha2, fmap_app, <- app_assoc, <- list_fmap_compose. done.
  - left. injection Hrun as <- <-. split; [done|]. split; [done|]. split; [exact Ha2|].
    cbn. rewrite Hc2, (Hall eq_refl). done.
Qed.

Lemma make_plan_valid now inventory previous snapshot :
  validate snapshot = None ->
  plan_ok now (list_to_set (inv_PairedJIDs inventory)) previous (sn_Assignments snapshot)
          (make_plan now inventory previous snapshot).
Proof. intros (_ & _ & Hnd & _)%validate_spec. by apply make_plan_ok. Qed.

Lemma Apply_stale (rt : Runtime R) now snapshot w :
  validate snapshot = None -> sn_Revision snapshot < rc_revision w ->
  Apply (Some rt) now snapshot w = (inr (MkResult (rc_revision w) false [] [] [] []), w).
Proof.
  intros Hv Hlt. unfold Apply. rewrite Hv. unfold mbind, M_bind, gets.
  by rewrite (proj2 (Z.ltb_lt _ _) Hlt).
Qed.

Lemma Apply_valid (rt : Runtime R) now snapshot w res w' :
  Apply (Some rt) now snapshot w = (inr res, w') -> validate snapshot = None.
Proof. unfold Apply. by destruct (validate snapshot). Qed.


End Apply.

(** ** Properties of the reconciler *)

Section Properties.
Context {R : Type} `{Range : MapRange}.


(** C32: What a failed application has done. The revision never advances. The
    error is either one from before the first change - no runtime, an invalid
    snapshot, an unreadable inventory - and then the assignments stay and the
    engine was not called; or a stop or a start failed, and then no session stays
    assigned - so no mutation is allowed for anyone - and every session of the
    old or the new set was told to stop after the failure, while the new set was
    still published. *)
Theorem apply_failure_fails_closed (runtime : option (Runtime R)) (now : GoTime) (snapshot : Snapshot)
  (w w' : reconciler R) (err : goerr) :
  Apply runtime now snapshot w = (inl err, w') ->
  rc_revision w' = rc_revision w /\
  ((rc_assignments w' = rc_assignments w /\ rc_calls w' = rc_calls w /\
    (runtime = None \/ validate snapshot = Some err \/
     exists rt, runtime = Some rt /\ validate snapshot = None /\ inventory_of rt w = inl err)) \/
   (exists rt inventory candidate before,
      runtime = Some rt /\ validate snapshot = None /\ inventory_of rt w = inr inventory /\
      rc_calls w' = rc_calls w ++ before ++
        ((fun id => (candidate, CallStop id)) <$> range_keys (dom (rc_assignments w) ∪ dom candidate)) /\
      (forall id a, candidate !! id = Some a <->
         a ∈ sn_Assignments snapshot /\ as_SessionID a = id /\
         (as_DesiredRun a = false \/ lease_live a now = true)) /\
      rc_assignments w' = ∅ /\
      forall org id epoch t, AllowsMutation org id epoch t w' = false)).
Proof.
  intros Hrun. destruct runtime as [rt|]; [|by injection Hrun as _ <-; auto 6].
  destruct (validate snapshot) as [e|] eqn:Hv.
  { unfold Apply in Hrun. rewrite Hv in Hrun. injection Hrun as <- <-. auto 8. }
  destruct (Z.lt_ge_cases (sn_Revision snapshot) (rc_revision w)) as [Hlt|Hrev]; [by rewrite Apply_stale in Hrun|].
  destruct (Apply_outcomes _ _ _ _ _ _ Hv Hrev Hrun)
    as [(? & Hinv & [= <-] & Hr & Ha & Hc)|(inventory & Hinv & [([=] & _)|Ho])].
  { split; [done|]. left. split; [done|]. split; [by rewrite Hc, app_nil_r|]. eauto 8. }
  destruct Ho as (err' & before & _ & Hr & Ha & Hc). split; [done|]. right.
  set (p := make_plan now inventory (rc_assignments w) snapshot) in *.
  exists rt, inventory, (pl_next p), ((fun c => (pl_next p, c)) <$> before).
  split; [done|]. split; [done|]. split; [done|]. split; [|split; [|split; [done|]]].
  - by rewrite Hc, fmap_app, <- list_fmap_compose.
  - intros id a. unfold p. rewrite (ok_next _ _ _ _ _ (make_plan_valid now inventory _ _ Hv)).
    unfold retained.
    by rewrite orb_true_iff, negb_true_iff.
  - intros org id epoch t. unfold AllowsMutation. by rewrite Ha, lookup_empty.
Qed.

(** Replay after reconnect. A snapshot older than the applied revision is a
    no-op that reports the applied revision, and an invalid one is rejected
    with [ErrInvalidSnapshot]; neither touches the assignments or the engine. *)
Theorem apply_ignores_stale_and_invalid (rt : Runtime R) (now : GoTime) (snapshot : Snapshot)
  (w : reconciler R) :
  (validate snapshot <> None -> Apply (Some rt) now snapshot w = (inl ErrInvalidSnapshot, w)) /\
  (validate snapshot = None -> sn_Revision snapshot < rc_revision w ->
   Apply (Some rt) now snapshot w = (inr (MkResult (rc_revision w) false [] [] [] []), w)).
Proof.
  split; [|apply Apply_stale]. intros Hv. unfold Apply.
  destruct (validate snapshot) as [e|] eqn:He; [|done].
  by rewrite (validate_error _ _ He).
Qed.

(** The mutation fence. After a successful application, at any later time a
    mutation is allowed for exactly the organization, session and assignment
    epoch that the snapshot says is to run, and only while its lease lasts. *)
Theorem mutation_fence (rt : Runtime R) (now t : GoTime) (snapshot : Snapshot)
  (w w' : reconciler R) (res : Result) (org id : string) (epoch : Z) :
  Apply (Some rt) now snapshot w = (inr res, w') -> rc_revision w <= sn_Revision snapshot ->
  now <= t ->
  AllowsMutation org id epoch t w' = true <->
  exists a, a ∈ sn_Assignments snapshot /\ as_SessionID a = id /\ as_OrganizationID a = org /\
    as_AssignmentEpoch a = epoch /\ as_DesiredRun a = true /\ t < as_LeaseExpiresAt a.
Proof.
  intros Hrun Hrev Ht. pose proof (Apply_valid _ _ _ _ _ _ Hrun) as Hv.
  destruct (Apply_outcomes _ _ _ _ _ _ Hv Hrev Hrun) as [(? & _ & [=] & _)|(inventory & Hinv & Ho)].
  destruct Ho as [(_ & _ & Ha & _)|(? & ? & [=] & _)].
  pose proof (ok_next _ _ _ _ _ (make_plan_valid now inventory (rc_assignments w) snapshot Hv)) as Hn.
  unfold AllowsMutation. rewrite Ha. unfold lease_live, After, retained in *. split.
  - destruct (pl_next _ !! id) as [a|] eqn:Hl; [|done].
    apply Hn in Hl as (Hin & Hid & _). unfold assignmentActive, lease_live, After. intros Hact.
    to_prop. exists a. tauto.
  - intros (a & Hin & Hid & <- & <- & Hr & Hlt).
    assert (Hl : pl_next (make_plan now inventory (rc_assignments w) snapshot) !! id = Some a).
    { apply Hn. split; [done|]. split; [done|]. unfold lease_live, After.
      rewrite (proj2 (Z.ltb_lt _ _)) by lia. by rewrite orb_true_r. }
    rewrite Hl. unfold assignmentActive, lease_live, After.
    rewrite bool_decide_true, Hr, Z.eqb_refl, (proj2 (Z.ltb_lt _ _)) by done. done.
Qed.

Lemma expired_ids_spec now m id :
  id ∈ expired_ids now m <-> exists a, m !! id = Some a /\ lease_live a now = false.
Proof.
  unfold expired_ids. rewrite list_elem_of_filter, range_keys_elem, elem_of_dom.
  split.
  - intros [He [a Ha]]. rewrite Ha in He. cbn in He. apply negb_true_iff in He. eauto.
  - intros (a & Ha & He). rewrite Ha. cbn. rewrite He. eauto.
Qed.

Lemma Expire_outcome (rt : Runtime R) (now : GoTime) (w w' : reconciler R)
  (r : goerr + bool) :
  Expire rt now w = (r, w') ->
  rc_revision w' = rc_revision w /\
  rc_calls w' = rc_calls w ++ ((fun id => (filter (fun p => lease_live p.2 now = true)
                                                  (rc_assignments w), CallStop id))
                               <$> expired_ids now (rc_assignments w)) /\
  match r with
  | inr expired =>
      rc_assignments w' = filter (fun p => lease_live p.2 now = true) (rc_assignments w) /\
      (expired = true <->
       exists id a, rc_assignments w !! id = Some a /\ lease_live a now = false)
  | inl _ => rc_assignments w' = ∅
  end.
Proof.
  unfold Expire, mbind, M_bind, gets, modify.
  destruct (join_each _ _ _ _) as [rj w1] eqn:Hj.
  apply (join_each_called _ CallStop) in Hj as ((Hr & Ha & Hc) & out & -> & _);
    [|apply StopAssigned_called].
  cbn in Hr, Ha, Hc. rewrite <- list_fmap_compose in Hc.
  destruct out as [err|]; intros [= <- <-]; cbn; (split; [done|]; split; [exact Hc|]); [done|].
  split; [exact Ha|]. rewrite negb_true_iff, bool_decide_eq_false. split.
  - intros Hne. destruct (expired_ids now (rc_assignments w)) as [|id l] eqn:He; [done|].
    exists id. apply expired_ids_spec. rewrite He. by left.
  - intros (id & Hid) Hnil. apply (expired_ids_spec now) in Hid. rewrite Hnil in Hid.
    by apply not_elem_of_nil in Hid.
Qed.

(** Lease expiry. [Expire] tells exactly the sessions whose lease has run
    out to stop; when the stops succeed it keeps exactly the others assigned
    and reports whether there were any, and when one fails it fails closed. In
    both cases no expired assignment survives and the revision is unchanged. *)
Theorem expire_removes_exactly_expired (rt : Runtime R) (now : GoTime) (w w' : reconciler R)
  (r : goerr + bool) :
  Expire rt now w = (r, w') ->
  rc_revision w' = rc_revision w /\
  rc_calls w' = rc_calls w ++ ((fun id => (filter (fun p => lease_live p.2 now = true)
                                                  (rc_assignments w), CallStop id))
                               <$> expired_ids now (rc_assignments w)) /\
  match r with
  | inr expired =>
      rc_assignments w' = filter (fun p => lease_live p.2 now = true) (rc_assignments w) /\
      (expired = true <->
       exists id a, rc_assignments w !! id = Some a /\ lease_live a now = false)
  | inl _ => rc_assignments w' = ∅
  end.
Proof. apply Expire_outcome. Qed.

(** The callback that should close readiness is only ever called without
    an error: when a session fails to stop at its lease expiry, [Expire]
    returns false with the error, so [OnLeaseExpired] is not called at all. *)
Theorem lease_failure_is_not_reported (rt : Runtime R) (now : GoTime) (a a' : applier)
  (r : goerr + unit) :
  leaseTimerFired rt now a = (r, a') ->
  r = inr tt /\
  (ca_expired_calls a' = ca_expired_calls a \/ ca_expired_calls a' = ca_expired_calls a ++ [None]) /\
  ((exists err, (Expire rt now (ca_Reconciler a)).1 = inl err) ->
   ca_expired_calls a' = ca_expired_calls a /\ rc_assignments (ca_Reconciler a') = ∅).
Proof.
  unfold leaseTimerFired, on_reconciler, attempt, mbind, M_bind, modify.
  destruct (Expire rt now (ca_Reconciler a)) as [re w1] eqn:He. cbn [fst].
  pose proof (Expire_outcome _ _ _ _ _ He) as (_ & _ & Hf).
  destruct re as [err|expired]; [|destruct expired]; intros [= <- <-]; cbn.
  - split; [done|]. split; [by left|]. intros _. split; [done | exact Hf].
  - split; [done|]. split; [by right|]. by intros [err [=]].
  - split; [done|]. split; [by left|]. by intros [err [=]].
Qed.

(** The leases of the assignments that are to run. *)
Definition run_leases (m : gmap string Assignment) (ks : list string) : list GoTime :=
  omap (fun id => a ← m !! id; if as_DesiredRun a then Some (as_LeaseExpiresAt a) else None) ks.

Lemma elem_of_run_leases m ks t :
  t ∈ run_leases m ks <->
  exists id a, id ∈ ks /\ m !! id = Some a /\ as_DesiredRun a = true /\ as_LeaseExpiresAt a = t.
Proof.
  unfold run_leases. rewrite list_elem_of_omap. split.
  - intros (id & Hid & (a & Ha & He)%bind_Some). destruct (as_DesiredRun a) eqn:Hr; [|done].
    injection He as <-. eauto 10.
  - intros (id & a & Hid & Ha & Hr & <-). exists id. split; [done|]. rewrite Ha. cbn. by rewrite Hr.
Qed.

(** The loop of [NextLeaseExpiry] computes their minimum. *)
Lemma earlier_lease_fold (m : gmap string Assignment) ks :
  (forall id a, m !! id = Some a -> as_LeaseExpiresAt a <> zero_time) ->
  let e := foldl (fun e id => from_option (earlier_lease e) e (m !! id)) zero_time ks in
  (e = zero_time /\ run_leases m ks = []) \/
  (e <> zero_time /\ e ∈ run_leases m ks /\ Forall (fun t => e <= t) (run_leases m ks)).
Proof.
  intros Hnz. induction ks as [|k ks IH] using rev_ind; cbv zeta; [by left|].
  rewrite foldl_snoc. unfold run_leases in *. rewrite omap_app.
  cbv zeta in IH. set (e := foldl _ _ ks) in *. set (L := omap _ ks) in *. cbn.
  destruct (m !! k) as [a|] eqn:Hk; cbn; [|by rewrite app_nil_r].
  specialize (Hnz _ _ Hk). unfold earlier_lease, Before, IsZero.
  destruct (as_DesiredRun a); cbn; [|by rewrite app_nil_r]. right.
  destruct (bool_decide (e = zero_time)) eqn:Hz; to_prop; cbn.
  - destruct IH as [[_ ->]|[? _]]; [|done]. cbn. split; [done|]. split; [by left|].
    apply Forall_singleton. lia.
  - destruct IH as [[? _]|(_ & Hin & Hmin)]; [done|].
    destruct (as_LeaseExpiresAt a <? e) eqn:Hlt; to_prop.
    + split; [done|]. split; [apply elem_of_app; right; by left|].
      apply Forall_app. split; [eapply Forall_impl; [exact Hmin | cbn; lia]|].
      apply Forall_singleton. lia.
    + split; [done|]. split; [apply elem_of_app; by left|].
      apply Forall_app. split; [exact Hmin|]. by apply Forall_singleton.
Qed.

(** The lease timer. [NextLeaseExpiry] is the earliest lease among the
    assignments that are to run, and none when nothing is to run, whatever
    order the map is visited in; a timer armed for it fires when it is due and
    never before, and immediately when it is already past. *)
Theorem lease_timer_is_earliest (now : GoTime) (a : applier (R := R)) :
  let w := ca_Reconciler a in
  let a' := (resetLeaseTimer now a).2 in
  (forall id b, rc_assignments w !! id = Some b -> as_LeaseExpiresAt b <> zero_time) ->
  match ca_timer a' with
  | None => forall id b, rc_assignments w !! id = Some b -> as_DesiredRun b = false
  | Some delay =>
      exists id b, rc_assignments w !! id = Some b /\ as_DesiredRun b = true /\
        delay = Z.max 0 (TimeSub (as_LeaseExpiresAt b) now) /\
        forall id' b', rc_assignments w !! id' = Some b' -> as_DesiredRun b' = true ->
          as_LeaseExpiresAt b <= as_LeaseExpiresAt b'
  end.
Proof.
  intros w a' Hnz. unfold a', resetLeaseTimer, modify, NextLeaseExpiry. cbn.
  destruct (earlier_lease_fold (rc_assignments w) (range_keys (dom (rc_assignments w))) Hnz)
    as [[He HL]|(He & Hin & Hmin)]; fold w; set (e := foldl _ _ _) in *; unfold IsZero.
  - rewrite He, bool_decide_true by done. cbn. intros id b Hb.
    destruct (as_DesiredRun b) eqn:Hr; [|done].
    assert (Hl : as_LeaseExpiresAt b ∈ run_leases (rc_assignments w) (range_keys (dom (rc_assignments w)))).
    { apply elem_of_run_leases. exists id, b. split; [|done].
      apply range_keys_elem, elem_of_dom. eauto. }
    rewrite HL in Hl. by apply not_elem_of_nil in Hl.
  - rewrite bool_decide_false by done. cbn.
    apply elem_of_run_leases in Hin as (id & b & _ & Hb & Hr & Hl).
    exists id, b. split; [done|]. split; [done|]. split; [by rewrite Hl|].
    intros id' b' Hb' Hr'. rewrite Hl. rewrite Forall_forall in Hmin. apply Hmin.
    apply elem_of_run_leases. exists id', b'. split; [|done].
    apply range_keys_elem, elem_of_dom. eauto.
Qed.

(** The outcome the report gives for an assignment that was applied. *)
Definition item_status (now : GoTime) (inventory : Inventory) (item : SessionAssignment)
  : ReconciliationResultStatus :=
  let a := translate_assignment item in
  if to_run now a && negb (bool_decide (as_DeviceJID a ∈ inv_PairedJIDs inventory))
  then RECONCILIATION_RESULT_STATUS_KEYSTORE_MISSING
  else RECONCILIATION_RESULT_STATUS_APPLIED.

Lemma sorted_perm l : sorted l ≡ₚ l.
Proof. apply merge_sort_Permutation. Qed.

Lemma devices_NoDup_inj l a b :
  NoDup (devices l) -> a ∈ l -> b ∈ l -> as_DeviceJID a <> "" ->
  as_DeviceJID a = as_DeviceJID b -> a = b.
Proof.
  unfold devices. induction l as [|x l IH]; [by intros _ ?%not_elem_of_nil|].
  rewrite fmap_cons, filter_cons. intros Hnd [->|Ha]%elem_of_cons [->|Hb]%elem_of_cons Hne He; auto.
  - rewrite decide_True in Hnd by done. apply NoDup_cons in Hnd as [Hx _]. destruct Hx.
    apply list_elem_of_filter. split; [done|]. rewrite He. by apply list_elem_of_fmap_2.
  - rewrite decide_True in Hnd by congruence. apply NoDup_cons in Hnd as [Hx _]. destruct Hx.
    rewrite <- He. apply list_elem_of_filter. split; [done|]. by apply list_elem_of_fmap_2.
  - apply IH; try done. case_decide; [by apply NoDup_cons in Hnd as [_ ?] | done].
Qed.

Lemma missing_iff now inventory previous snapshot a :
  validate snapshot = None -> a ∈ sn_Assignments snapshot ->
  as_DeviceJID a ∈ rs_MissingDeviceJIDs
    (apply_result snapshot inventory (make_plan now inventory previous snapshot)) <->
  to_run now a = true /\ as_DeviceJID a ∉ inv_PairedJIDs inventory.
Proof.
  intros Hv Ha. pose proof (make_plan_valid now inventory previous snapshot Hv) as Hok.
  apply validate_spec in Hv as (_ & HF & _ & Hd). rewrite Forall_forall in HF.
  unfold apply_result. cbn [rs_MissingDeviceJIDs]. rewrite sorted_perm, (ok_missing _ _ _ _ _ Hok).
  unfold device_paired. split.
  - intros (b & He & [Hb Hbin]%list_elem_of_filter)%list_elem_of_fmap.
    apply andb_true_iff in Hb as [Hrun Hp]. apply negb_true_iff, bool_decide_eq_false in Hp.
    assert (a = b) as <-.
    { eapply devices_NoDup_inj; [exact Hd | done | done | | exact He].
      rewrite He. apply (HF _ Hbin). unfold to_run in Hrun. by apply andb_true_iff in Hrun as [? _]. }
    split; [done|]. by rewrite elem_of_list_to_set in Hp.
  - intros [Hrun Hp]. apply list_elem_of_fmap_2, list_elem_of_filter. split; [|done].
    rewrite Hrun. cbn. apply negb_true_iff, bool_decide_eq_false. by rewrite elem_of_list_to_set.
Qed.

(** The report is complete and truthful for a snapshot that was applied: it
    is stamped with this connection and revision, lists the local devices, has
    one result per assignment in order - missing keystore exactly for a
    session to run whose device is not here - then one per local device that
    no assignment names, then one per corrupt keystore. *)
Lemma report_matches_outcome (rt : Runtime R) (health : option KeystoreHealthState)
  (now : GoTime) (epoch : Z) (snapshot : DesiredStateSnapshot) (a a' : applier (R := R))
  (report : DesiredStateReport) :
  ApplyDesiredState (Some rt) health now epoch snapshot a = (inr report, a') ->
  rc_revision (ca_Reconciler a) <= ds_revision snapshot ->
  exists inventory unexpected corrupt,
    inventory_of rt (ca_Reconciler a) = inr inventory /\
    dr_connection_epoch report = epoch /\ dr_processed_revision report = ds_revision snapshot /\
    dr_keystore_health report = default KEYSTORE_HEALTH_STATE_HEALTHY health /\
    dr_local_devices report ≡ₚ inv_PairedJIDs inventory /\
    dr_results report =
      ((fun item => MkReconciliationResult (Some (sa_session_id item)) (sa_assignment_epoch item)
                      (default "" (sa_device_jid item)) (item_status now inventory item))
       <$> ds_assignments snapshot)
      ++ jidResults unexpected RECONCILIATION_RESULT_STATUS_UNEXPECTED_LOCAL_DEVICE
      ++ jidResults corrupt RECONCILIATION_RESULT_STATUS_KEYSTORE_CORRUPT /\
    (forall jid, jid ∈ unexpected <->
       jid ∈ inv_PairedJIDs inventory /\
       ~ (jid <> "" /\ exists item, item ∈ ds_assignments snapshot /\
                                    default "" (sa_device_jid item) = jid)) /\
    NoDup unexpected /\ corrupt ≡ₚ inv_CorruptJIDs inventory.
Proof.
  intros Hrun Hrev. unfold ApplyDesiredState in Hrun.
  set (sn := MkSnapshot (ds_revision snapshot) _) in Hrun.
  unfold mbind, M_bind, on_reconciler in Hrun.
  destruct (Apply (Some rt) now sn (ca_Reconciler a)) as [[err|res] w'] eqn:Ha; [discriminate|].
  pose proof (Apply_valid _ _ _ _ _ _ Ha) as Hv.
  destruct (Apply_outcomes _ _ sn _ _ _ Hv Hrev Ha) as [(? & _ & [=] & _)|(inventory & Hinv & Ho)].
  destruct Ho as [([= ->] & _)|(? & ? & [=] & _)].
  pose proof (make_plan_valid now inventory (rc_assignments (ca_Reconciler a)) sn Hv) as Hok.
  set (p := make_plan now inventory (rc_assignments (ca_Reconciler a)) sn) in *.
  injection Hrun as <- _. cbn.
  eexists inventory, _, _. split; [done|]. split; [done|]. split; [done|]. split; [done|].
  split; [apply sorted_perm|]. split; [|split; [|split]].
  - f_equal. unfold assignmentResults. rewrite <- list_fmap_compose.
    apply list_fmap_ext. intros i item Hitem. cbn.
    apply list_elem_of_lookup_2 in Hitem.
    assert (Hin : translate_assignment item ∈ sn_Assignments sn) by (by apply list_elem_of_fmap_2).
    pose proof (missing_iff now inventory (rc_assignments (ca_Reconciler a)) sn _ Hv Hin) as Hmiss.
    fold p in Hmiss. cbn in Hmiss.
    unfold item_status, missingKeystore. f_equal.
    destruct (to_run now (translate_assignment item)) eqn:Hr; cbn [andb].
    + case_bool_decide as Hm; case_bool_decide as Hp; cbn; tauto.
    + rewrite bool_decide_false; [done|]. intros Hm. by apply Hmiss in Hm as [? _].
  - intros jid. rewrite sorted_perm. unfold unexpected_jids.
    change (foldl _ empty_plan _) with p.
    rewrite list_elem_of_filter, range_keys_elem, elem_of_list_to_set, (ok_wanted _ _ _ _ _ Hok).
    cbn [sn_Assignments sn]. rewrite <- list_fmap_compose, list_elem_of_fmap. cbn.
    assert (Hx : (exists x, jid = default "" (sa_device_jid x) /\ x ∈ ds_assignments snapshot) <->
                 exists x, x ∈ ds_assignments snapshot /\ default "" (sa_device_jid x) = jid).
    { split; intros (x & ? & ?); eauto. }
    rewrite <- Hx. tauto.
  - rewrite sorted_perm. apply NoDup_filter, range_keys_NoDup.
  - apply sorted_perm.
Qed.

(** A snapshot that arrives after a newer one was applied is not applied,
    yet the report for it carries its revision and says every one of its
    assignments was applied. *)
Theorem stale_snapshot_reported_applied (rt : Runtime R) (health : option KeystoreHealthState)
  (now : GoTime) (epoch : Z) (snapshot : DesiredStateSnapshot) (a : applier (R := R)) :
  validate (MkSnapshot (ds_revision snapshot) (translate_assignment <$> ds_assignments snapshot)) = None ->
  ds_revision snapshot < rc_revision (ca_Reconciler a) ->
  exists report a', ApplyDesiredState (Some rt) health now epoch snapshot a = (inr report, a') /\
    ca_Reconciler a' = ca_Reconciler a /\
    dr_processed_revision report = ds_revision snapshot /\
    (rr_status <$> dr_results report) =
      ((fun _ => RECONCILIATION_RESULT_STATUS_APPLIED) <$> ds_assignments snapshot).
Proof.
  intros Hv Hlt. unfold ApplyDesiredState, mbind, M_bind, on_reconciler.
  rewrite (Apply_stale rt now (MkSnapshot _ _) _ Hv Hlt).
  eexists _, _. split; [reflexivity|]. split; [by destruct a|]. split; [done|]. cbn.
  rewrite app_nil_r. unfold assignmentResults. rewrite <- !list_fmap_compose. done.
Qed.
End Properties.

(** ** Concrete runs *)

(** An engine with fixed devices that refuses to stop the sessions of [bad]. *)
Definition demo_runtime (paired corrupt bad : list string) : Runtime unit := {|
  rt_Inventory := fun e => (inr (MkInventory paired corrupt), e);
  rt_StartAssigned := fun _ e => (inr tt, e);
  rt_StopAssigned := fun id e =>
    (if bool_decide (id ∈ bad) then inl (ErrMsg "stop failed") else inr tt, e);
|}.

#[local] Instance demo_range : MapRange := sorted_range.

Definition demo_assignment (id jid : string) (epoch : Z) (run : bool) : Assignment :=
  MkAssignment id "org_1" jid epoch 1000000000 run (MkAConfig 1 false false 20 600 0).

Definition demo_old : reconciler unit :=
  MkReconciler 1 {[ "s1" := demo_assignment "s1" "j1" 1 true;
                    "s2" := demo_assignment "s2" "j2" 1 true ]} tt [].
Definition demo_next : Snapshot :=
  MkSnapshot 2 [demo_assignment "s1" "j1" 1 true; demo_assignment "s3" "j3" 4 true].
Definition demo_rt : Runtime unit := demo_runtime ["j1"; "j9"] [] [].
Definition demo_bad_rt : Runtime unit := demo_runtime ["j1"; "j9"] [] ["s2"].
Definition demo_applied : reconciler unit := (Apply (Some demo_rt) 5 demo_next demo_old).2.

Lemma demo_next_valid : validate demo_next = None.
Proof. vm_compute. reflexivity. Qed.


Lemma apply_failure_fails_closed_witness :
  let w' := (Apply (Some demo_bad_rt) 5 demo_next demo_old).2 in
  rc_revision w' = rc_revision demo_old /\ rc_assignments w' = ∅.
Proof.
  intros w'. assert (Hrun : exists err, Apply (Some demo_bad_rt) 5 demo_next demo_old = (inl err, w')).
  { eexists. vm_compute. reflexivity. }
  destruct Hrun as [err Hrun].
  destruct (apply_failure_fails_closed (Some demo_bad_rt) 5 demo_next demo_old w' err Hrun) as [Hr _].
  split; [exact Hr | vm_compute; reflexivity].
Defined.

Lemma mutation_fence_witness :
  AllowsMutation "org_1" "s1" 1 7 demo_applied = true <->
  exists a, a ∈ sn_Assignments demo_next /\ as_SessionID a = "s1" /\ as_OrganizationID a = "org_1" /\
    as_AssignmentEpoch a = 1 /\ as_DesiredRun a = true /\ 7 < as_LeaseExpiresAt a.
Proof.
  apply (mutation_fence demo_rt 5 7 demo_next demo_old demo_applied
           (MkResult 2 false ["j3"] ["j9"] [] ["j1"; "j9"]));
    [vm_compute; reflexivity | vm_compute; discriminate | lia].
Defined.

Lemma expire_removes_exactly_expired_witness :
  let w' := (Expire demo_rt 1000000000 demo_old).2 in
  rc_revision w' = 1 /\ rc_assignments w' = ∅ /\ length (rc_calls w') = 2%nat.
Proof.
  intros w'. split; [|split; vm_compute; reflexivity].
  apply (expire_removes_exactly_expired demo_rt 1000000000 demo_old w' (inr true)).
  vm_compute. reflexivity.
Defined.

Lemma lease_failure_is_not_reported_witness :
  let a := MkApplier demo_old None [] in
  let a' := (leaseTimerFired demo_bad_rt 1000000000 a).2 in
  ca_expired_calls a' = [] /\ rc_assignments (ca_Reconciler a') = ∅.
Proof.
  apply (lease_failure_is_not_reported demo_bad_rt 1000000000 (MkApplier demo_old None [])
           (leaseTimerFired demo_bad_rt 1000000000 (MkApplier demo_old None [])).2 (inr tt)).
  - vm_compute. reflexivity.
  - eexists. vm_compute. reflexivity.
Defined.

Lemma lease_timer_is_earliest_witness :
  ca_timer (resetLeaseTimer 5 (MkApplier demo_old None [])).2 = Some 999999995 /\
  match ca_timer (resetLeaseTimer 5 (MkApplier demo_old None [])).2 with
  | None => forall id b, rc_assignments demo_old !! id = Some b -> as_DesiredRun b = false
  | Some delay =>
      exists id b, rc_assignments demo_old !! id = Some b /\ as_DesiredRun b = true /\
        delay = Z.max 0 (TimeSub (as_LeaseExpiresAt b) 5) /\
        forall id' b', rc_assignments demo_old !! id' = Some b' -> as_DesiredRun b' = true ->
          as_LeaseExpiresAt b <= as_LeaseExpiresAt b'
  end.
Proof.
  split; [vm_compute; reflexivity|].
  apply (lease_timer_is_earliest 5 (MkApplier demo_old None [])).
  intros id b Hb. cbn in Hb.
  apply lookup_insert_Some in Hb as [[_ <-]|[_ Hb]]; [discriminate|].
  apply lookup_singleton_Some in Hb as [_ <-]. discriminate.
Defined.

Definition demo_control_snapshot : DesiredStateSnapshot := MkDesiredStateSnapshot 2
  [MkSessionAssignment "s1" "org_1" 1 1000 None (Some "j1") SESSION_DESIRED_ACTION_RUN;
   MkSessionAssignment "s3" "org_1" 4 1000 None (Some "j3") SESSION_DESIRED_ACTION_RUN].

Lemma report_matches_outcome_witness :
  let a := MkApplier demo_old None [] in
  match (ApplyDesiredState (Some demo_rt) None 5 7 demo_control_snapshot a).1 with
  | inr report =>
      dr_connection_epoch report = 7 /\
      (rr_status <$> dr_results report) =
        [RECONCILIATION_RESULT_STATUS_APPLIED; RECONCILIATION_RESULT_STATUS_KEYSTORE_MISSING;
         RECONCILIATION_RESULT_STATUS_UNEXPECTED_LOCAL_DEVICE]
  | inl _ => False
  end.
Proof.
  intros a. destruct (ApplyDesiredState (Some demo_rt) None 5 7 demo_control_snapshot a)
    as [[err|report] a'] eqn:Hrun; [vm_compute in Hrun; discriminate|]. cbn [fst].
  destruct (report_matches_outcome demo_rt None 5 7 demo_control_snapshot a a' report Hrun
              ltac:(vm_compute; discriminate)) as (inventory & u & c & _ & He & _).
  split; [exact He|]. vm_compute in Hrun. injection Hrun as <- _. reflexivity.
Defined.

Lemma stale_snapshot_reported_applied_witness :
  let a := MkApplier demo_applied None [] in
  let old := MkDesiredStateSnapshot 1
    [MkSessionAssignment "s8" "org_1" 1 1000 None (Some "j8") SESSION_DESIRED_ACTION_RUN] in
  exists report a', ApplyDesiredState (Some demo_rt) None 5 7 old a = (inr report, a') /\
    ca_Reconciler a' = demo_applied /\ dr_processed_revision report = 1 /\
    (rr_status <$> dr_results report) = [RECONCILIATION_RESULT_STATUS_APPLIED].
Proof.
  apply (stale_snapshot_reported_applied demo_rt None 5 7 (MkDesiredStateSnapshot 1
    [MkSessionAssignment "s8" "org_1" 1 1000 None (Some "j8") SESSION_DESIRED_ACTION_RUN])
    (MkApplier demo_applied None [])); vm_compute; reflexivity.
Defined.

Lemma apply_ignores_stale_and_invalid_witness :
  Apply (Some demo_rt) 5 (MkSnapshot 0 []) demo_old = (inl ErrInvalidSnapshot, demo_old) /\
  Apply (Some demo_rt) 5 (MkSnapshot 1 []) demo_applied =
    (inr (MkResult 2 false [] [] [] []), demo_applied).
Proof.
  split.
  - apply (apply_ignores_stale_and_invalid demo_rt 5 (MkSnapshot 0 []) demo_old). discriminate.
  - apply (apply_ignores_stale_and_invalid demo_rt 5 (MkSnapshot 1 []) demo_applied);
      vm_compute; reflexivity.
Defined.
