(* ===== verification/OutboxStore.v ===== *)
(** * The durable send-command table

    Models [internal/store/outbox.go] over the statements of
    [internal/store/queries/outbox.sql]. The table maps ids to rows; the
    connection reports matched rows ([clientFoundRows]), so an update counts the
    row its WHERE clause selects. MySQL's collation of the idempotency key and
    its JSON columns ([json_column]: the document a column returns for the text
    written to it, [None] when it is not JSON) are the class [MySQL]; rows
    locked by other transactions are an argument of the SKIP LOCKED selects. Ids
    are ULIDs and compared exactly. *)

From S2P Require Import Prelude Journal Domain.

Class MySQL := {
  collate : string -> string;
  json_column : bytes -> option bytes;
  json_remove : list string -> bytes -> bytes;
}.

Abbreviation otable := (gmap string OutboxEntry).

(** The paths UpdateOutboxStatusAndStripMedia and CompleteOwnedOutbox remove. *)
Definition media_paths : list string := [
  "$.media.data"; "$.medias[0].data"; "$.medias[1].data"; "$.medias[2].data";
  "$.medias[3].data"; "$.medias[4].data"; "$.medias[5].data"; "$.medias[6].data";
  "$.medias[7].data"; "$.medias[8].data"; "$.medias[9].data"].

Definition defaultLimit : Z := 50.
Definition maxLimit : Z := 200.

Definition normLimit (limit : Z) : Z :=
  if limit <=? 0 then defaultLimit else if maxLimit <? limit then maxLimit else limit.

Definition rowsAffectedOrNotFound (n : Z) (resource : string) : option goerr :=
  if n =? 0 then Some (ErrNotFound (resource +:+ " not found")) else None.

(** ** The SET clauses *)

Definition set_result (status : OutboxStatus) (waID err : option string) (updatedAt : Z)
  (o : OutboxEntry) : OutboxEntry :=
  MkOutboxEntry (ob_ID o) (ob_OrganizationID o) (ob_SessionID o) (ob_IdempotencyKey o)
    (ob_Payload o) status (ob_Attempts o) (ob_NextAttemptAt o) (ob_ExpiresAt o)
    (ob_AcknowledgedAt o) (ob_EffectPossible o) waID err (ob_TerminalAt o) (ob_CreatedAt o)
    updatedAt.

Definition set_payload (payload : bytes) (o : OutboxEntry) : OutboxEntry :=
  MkOutboxEntry (ob_ID o) (ob_OrganizationID o) (ob_SessionID o) (ob_IdempotencyKey o)
    payload (ob_Status o) (ob_Attempts o) (ob_NextAttemptAt o) (ob_ExpiresAt o)
    (ob_AcknowledgedAt o) (ob_EffectPossible o) (ob_WAMessageID o) (ob_Error o)
    (ob_TerminalAt o) (ob_CreatedAt o) (ob_UpdatedAt o).

Definition set_terminal (at_ : Z) (o : OutboxEntry) : OutboxEntry :=
  MkOutboxEntry (ob_ID o) (ob_OrganizationID o) (ob_SessionID o) (ob_IdempotencyKey o)
    (ob_Payload o) (ob_Status o) (ob_Attempts o) (ob_NextAttemptAt o) (ob_ExpiresAt o)
    (ob_AcknowledgedAt o) (ob_EffectPossible o) (ob_WAMessageID o) (ob_Error o)
    (Some at_) (ob_CreatedAt o) (ob_UpdatedAt o).

Definition set_claimed (updatedAt : Z) (o : OutboxEntry) : OutboxEntry :=
  MkOutboxEntry (ob_ID o) (ob_OrganizationID o) (ob_SessionID o) (ob_IdempotencyKey o)
    (ob_Payload o) OutboxSending (ob_Attempts o + 1) (ob_NextAttemptAt o) (ob_ExpiresAt o)
    (ob_AcknowledgedAt o) (ob_EffectPossible o) (ob_WAMessageID o) (ob_Error o)
    (ob_TerminalAt o) (ob_CreatedAt o) updatedAt.

Definition set_rescheduled (note : string) (nextAttemptAt updatedAt : Z) (o : OutboxEntry)
  : OutboxEntry :=
  MkOutboxEntry (ob_ID o) (ob_OrganizationID o) (ob_SessionID o) (ob_IdempotencyKey o)
    (ob_Payload o) OutboxQueued (ob_Attempts o) nextAttemptAt (ob_ExpiresAt o)
    (ob_AcknowledgedAt o) (ob_EffectPossible o) (ob_WAMessageID o)
    (if bool_decide (note = "") then None else Some note)
    (ob_TerminalAt o) (ob_CreatedAt o) updatedAt.

Definition set_effect (effect : bool) (o : OutboxEntry) : OutboxEntry :=
  MkOutboxEntry (ob_ID o) (ob_OrganizationID o) (ob_SessionID o) (ob_IdempotencyKey o)
    (ob_Payload o) (ob_Status o) (ob_Attempts o) (ob_NextAttemptAt o) (ob_ExpiresAt o)
    (ob_AcknowledgedAt o) effect (ob_WAMessageID o) (ob_Error o)
    (ob_TerminalAt o) (ob_CreatedAt o) (ob_UpdatedAt o).

Definition set_acknowledged (waID : string) (acknowledgedAt : Z) (o : OutboxEntry) : OutboxEntry :=
  MkOutboxEntry (ob_ID o) (ob_OrganizationID o) (ob_SessionID o) (ob_IdempotencyKey o)
    (ob_Payload o) (ob_Status o) (ob_Attempts o) (ob_NextAttemptAt o) (ob_ExpiresAt o)
    (Some acknowledgedAt) (ob_EffectPossible o) (Some waID) (ob_Error o)
    (ob_TerminalAt o) (ob_CreatedAt o) (ob_UpdatedAt o).

(** [UPDATE outbox SET f WHERE id = id AND guard], with the rows matched. *)
Definition update_where (id : string) (guard : OutboxEntry -> bool) (f : OutboxEntry -> OutboxEntry)
  (t : otable) : Z * otable :=
  match t !! id with
  | Some o => if guard o then (1, <[id := f o]> t) else (0, t)
  | None => (0, t)
  end.

(** The WHERE clauses. *)
Definition is_status (st : OutboxStatus) (o : OutboxEntry) : bool := bool_decide (ob_Status o = st).
Definition no_terminal (o : OutboxEntry) : bool := bool_decide (ob_TerminalAt o = None).
Definition owned_by (ownerStamp : Z) (o : OutboxEntry) : bool :=
  is_status OutboxSending o && (ob_UpdatedAt o =? ownerStamp) && no_terminal o.
Definition claimable (staleBefore : Z) (o : OutboxEntry) : bool :=
  no_terminal o &&
  (is_status OutboxQueued o || is_status OutboxFailed o ||
   (is_status OutboxSending o && (ob_UpdatedAt o <=? staleBefore))).
Definition due (dueBefore staleBefore : Z) (o : OutboxEntry) : bool :=
  no_terminal o &&
  (((is_status OutboxQueued o || is_status OutboxFailed o) &&
    ((ob_NextAttemptAt o <=? dueBefore) ||
     from_option (fun e => e <=? dueBefore) false (ob_ExpiresAt o)))
   || (is_status OutboxSending o && (ob_UpdatedAt o <=? staleBefore))).

(** The ORDER BY clauses. *)
Definition created_le (a b : OutboxEntry) : Prop :=
  ob_CreatedAt a < ob_CreatedAt b \/
  (ob_CreatedAt a = ob_CreatedAt b /\ String.leb (ob_ID a) (ob_ID b) = true).
Definition due_le (a b : OutboxEntry) : Prop :=
  ob_NextAttemptAt a < ob_NextAttemptAt b \/
  (ob_NextAttemptAt a = ob_NextAttemptAt b /\ created_le a b).
#[export] Instance created_le_dec : RelDecision created_le.
Proof. intros a b. unfold created_le. apply _. Defined.
#[export] Instance due_le_dec : RelDecision due_le.
Proof. intros a b. unfold due_le. apply _. Defined.

Definition table_rows (t : otable) : list OutboxEntry := (map_to_list t).*2.

Section Repo.
Context `{DB : MySQL}.

(** Two rows collide on [UNIQUE (organization_id, idempotency_key)]. *)
Definition same_key (org key : string) (o : OutboxEntry) : bool :=
  bool_decide (collate (ob_OrganizationID o) = collate org) &&
  from_option (fun k => bool_decide (collate k = collate key)) false (ob_IdempotencyKey o).

Definition inserted (payload : bytes) (o : OutboxEntry) : OutboxEntry :=
  MkOutboxEntry (ob_ID o) (ob_OrganizationID o) (ob_SessionID o) (ob_IdempotencyKey o)
    payload (ob_Status o) (i32 (ob_Attempts o)) (ob_NextAttemptAt o) (ob_ExpiresAt o)
    None false (ob_WAMessageID o) (ob_Error o) (ob_TerminalAt o) (ob_CreatedAt o)
    (ob_UpdatedAt o).

Definition insert_row (o : OutboxEntry) (t : otable) : (goerr + unit) * otable :=
  let duplicate :=
    bool_decide (is_Some (t !! ob_ID o)) ||
    from_option (fun key => existsb (same_key (ob_OrganizationID o) key) (table_rows t))
      false (ob_IdempotencyKey o) in
  match json_column (ob_Payload o) with
  | None => (inl (ErrMsg "Error 3140: Invalid JSON text"), t)
  | Some payload =>
      if duplicate then (inl (ErrMsg "Error 1062: Duplicate entry"), t)
      else (inr tt, <[ob_ID o := inserted payload o]> t)
  end.

Definition Insert (o : OutboxEntry) : M (db otable) unit :=
  map_err (ErrWrap "store: insert outbox") (stmt (insert_row o)).

(** [notFound]: no row is the API's not-found error, any other is wrapped. *)
Definition get_row (f : otable -> option OutboxEntry) : M (db otable) OutboxEntry :=
  row ← map_err (ErrWrap "store: get outbox entry") (query f);
  match row with
  | Some o => mret o
  | None => throw (ErrNotFound "outbox entry not found")
  end.

Definition Get (id : string) : M (db otable) OutboxEntry := get_row (fun t => t !! id).

Definition GetByIdempotency (organizationID idempotencyKey : string) : M (db otable) OutboxEntry :=
  get_row (fun t => head (filter (fun o => same_key organizationID idempotencyKey o = true)
                                 (table_rows t))).

Definition strip_media (o : OutboxEntry) : OutboxEntry :=
  set_payload (json_remove media_paths (ob_Payload o)) o.

Definition UpdateOutboxStatus (id : string) (status : OutboxStatus) (waID err : option string)
  (updatedAt : Z) : M (db otable) Z :=
  exec (update_where id (fun _ => true) (set_result status waID err updatedAt)).

Definition CompleteOutbox (id : string) (status : OutboxStatus) (waID err : option string)
  (updatedAt : Z) : M (db otable) Z :=
  exec (update_where id (is_status OutboxSending)
    (fun o => set_terminal updatedAt (set_result status waID err updatedAt o))).

Definition UpdateOutboxStatusAndStripMedia (id : string) (status : OutboxStatus)
  (waID err : option string) (updatedAt : Z) : M (db otable) Z :=
  exec (update_where id (fun _ => true)
    (fun o => set_terminal updatedAt (strip_media (set_result status waID err updatedAt o)))).

Definition UpdateStatus (id : string) (status : OutboxStatus) (waMessageID errMsg : option string)
  (updatedAt : Z) : M (db otable) unit :=
  n ← map_err (ErrWrap "store: update outbox status")
    match status with
    | OutboxSent => UpdateOutboxStatusAndStripMedia id status waMessageID errMsg updatedAt
    | OutboxFailed | OutboxUnknown =>
        n ← CompleteOutbox id status waMessageID errMsg updatedAt;
        if (n =? 0) && bool_decide (status = OutboxFailed) then
          UpdateOutboxStatus id status waMessageID errMsg updatedAt
        else mret n
    | _ => UpdateOutboxStatus id status waMessageID errMsg updatedAt
    end;
  match rowsAffectedOrNotFound n "outbox entry" with
  | Some err => throw err
  | None => mret tt
  end.

Definition ClaimOutboxByID (id : string) (updatedAt staleBefore : Z) : M (db otable) Z :=
  exec (update_where id (claimable staleBefore) (set_claimed updatedAt)).

Definition ClaimByID (id : string) (updatedAt staleBefore : Z) : M (db otable) bool :=
  n ← map_err (ErrWrap ("store: claim outbox " +:+ id)) (ClaimOutboxByID id updatedAt staleBefore);
  if n =? 0 then mret false
  else if n =? 1 then mret true
  else throw (ErrMsg ("store: claim outbox " +:+ id +:+ " affected several rows")).

(** The loop over the selected rows: each is claimed by the same CAS. *)
Fixpoint claim_rows (selected : list OutboxEntry) (updatedAt staleBefore : Z)
  (out : list OutboxEntry) : M (db otable) (list OutboxEntry) :=
  match selected with
  | [] => mret out
  | row :: rest =>
      n ← map_err (ErrWrap ("store: claim outbox " +:+ ob_ID row))
                  (ClaimOutboxByID (ob_ID row) updatedAt staleBefore);
      if n =? 1 then
        claim_rows rest updatedAt staleBefore
          (out ++ [MkOutboxEntry (ob_ID row) (ob_OrganizationID row) (ob_SessionID row)
            (ob_IdempotencyKey row) (ob_Payload row) OutboxSending (ob_Attempts row + 1)
            (ob_NextAttemptAt row) (ob_ExpiresAt row) (ob_AcknowledgedAt row)
            (ob_EffectPossible row) (ob_WAMessageID row) (ob_Error row) (ob_TerminalAt row)
            (ob_CreatedAt row) updatedAt])
      else claim_rows rest updatedAt staleBefore out
  end.

Definition unlocked (locked : gset string) (o : OutboxEntry) : bool :=
  negb (bool_decide (ob_ID o ∈ locked)).

Definition SelectQueuedOutboxForClaim (locked : gset string) (sessionFilter : string) (limit : Z)
  (t : otable) : list OutboxEntry :=
  take (Z.to_nat limit) (merge_sort created_le
    (filter (fun o => is_status OutboxQueued o && no_terminal o &&
                      (bool_decide (sessionFilter = "") || bool_decide (ob_SessionID o = sessionFilter))
                      && unlocked locked o = true) (table_rows t))).

Definition SelectDueOutboxForClaim (locked : gset string) (dueBefore staleBefore limit : Z)
  (t : otable) : list OutboxEntry :=
  take (Z.to_nat limit) (merge_sort due_le
    (filter (fun o => due dueBefore staleBefore o && unlocked locked o = true) (table_rows t))).

Definition claimQueued (locked : gset string) (sessionID : string) (limit updatedAt : Z)
  : M (db otable) (list OutboxEntry) :=
  selected ← map_err (ErrWrap "store: select queued outbox")
                     (query (SelectQueuedOutboxForClaim locked sessionID limit));
  claim_rows selected updatedAt updatedAt [].

Definition claimQueuedForSession (locked : gset string) (sessionID : string) (limit updatedAt : Z)
  : M (db otable) (list OutboxEntry) :=
  let limit := normLimit limit in
  with_rollback (
    map_err (ErrWrap "store: begin claim queued outbox") begin_tx;;
    out ← claimQueued locked sessionID limit updatedAt;
    map_err (ErrWrap "store: commit claim queued outbox") commit_tx;;
    mret out).

Definition ClaimQueued (locked : gset string) (limit updatedAt : Z) : M (db otable) (list OutboxEntry) :=
  claimQueuedForSession locked "" limit updatedAt.

Definition claimDue (locked : gset string) (limit dueBefore staleBefore updatedAt : Z)
  : M (db otable) (list OutboxEntry) :=
  selected ← map_err (ErrWrap "store: select due outbox")
                     (query (SelectDueOutboxForClaim locked dueBefore staleBefore limit));
  claim_rows selected updatedAt staleBefore [].

Definition ClaimDue (locked : gset string) (limit dueBefore staleBefore updatedAt : Z)
  : M (db otable) (list OutboxEntry) :=
  let limit := normLimit limit in
  with_rollback (
    map_err (ErrWrap "store: begin claim due outbox") begin_tx;;
    out ← claimDue locked limit dueBefore staleBefore updatedAt;
    map_err (ErrWrap "store: commit claim due outbox") commit_tx;;
    mret out).

(** ** The operations fenced by the dispatch lease *)

Definition fenced (context id : string) (guard : OutboxEntry -> bool)
  (f : OutboxEntry -> OutboxEntry) : M (db otable) bool :=
  n ← map_err (ErrWrap (context +:+ id)) (exec (update_where id guard f));
  mret (n =? 1).

Definition Reschedule (id : string) (ownerStamp : Z) (note : string) (nextAttemptAt updatedAt : Z)
  : M (db otable) bool :=
  fenced "store: reschedule outbox " id (owned_by ownerStamp)
    (set_rescheduled note nextAttemptAt updatedAt).

Definition MarkDispatchPossible (id : string) (ownerStamp : Z) : M (db otable) bool :=
  fenced "store: mark outbox dispatch " id (owned_by ownerStamp) (set_effect true).

Definition ClearDispatchPossible (id : string) (ownerStamp : Z) : M (db otable) bool :=
  fenced "store: clear outbox dispatch " id
    (fun o => owned_by ownerStamp o && bool_decide (ob_AcknowledgedAt o = None)) (set_effect false).

Definition RecordAcknowledgement (id : string) (ownerStamp : Z) (waID : string)
  (acknowledgedAt : Z) : M (db otable) bool :=
  fenced "store: acknowledge outbox " id (owned_by ownerStamp)
    (set_acknowledged waID acknowledgedAt).

Definition complete_row (status : OutboxStatus) (waID note : option string) (updatedAt : Z)
  (o : OutboxEntry) : OutboxEntry :=
  let o' := set_terminal updatedAt
    (set_result status (match waID with Some w => Some w | None => ob_WAMessageID o end)
       note updatedAt o) in
  if bool_decide (status = OutboxSent) then strip_media o' else o'.

Definition CompleteOwned (id : string) (ownerStamp : Z) (status : OutboxStatus)
  (waID note : option string) (updatedAt : Z) : M (db otable) bool :=
  fenced "store: complete outbox " id (owned_by ownerStamp)
    (complete_row status waID note updatedAt).

(** ** How a row may evolve *)

(** Identity columns never change, attempts only grow, a terminal row is
    frozen, an acknowledgement is never lost and neither is, after it, the
    possibility of an effect. *)
Record row_evolves (o o' : OutboxEntry) : Prop := {
  ev_identity : ob_ID o' = ob_ID o /\ ob_OrganizationID o' = ob_OrganizationID o /\
    ob_SessionID o' = ob_SessionID o /\ ob_IdempotencyKey o' = ob_IdempotencyKey o /\
    ob_ExpiresAt o' = ob_ExpiresAt o /\ ob_CreatedAt o' = ob_CreatedAt o;
  ev_attempts : ob_Attempts o <= ob_Attempts o';
  ev_terminal : ob_TerminalAt o <> None -> o' = o;
  ev_acknowledged : ob_AcknowledgedAt o <> None ->
    ob_AcknowledgedAt o' <> None /\ (ob_WAMessageID o <> None -> ob_WAMessageID o' <> None) /\
    (ob_EffectPossible o = true -> ob_EffectPossible o' = true);
}.

#[export] Instance row_evolves_preorder : PreOrder row_evolves.
Proof.
  split.
  - intros o. by split.
  - intros a b c [Hi1 Ha1 Ht1 Hk1] [Hi2 Ha2 Ht2 Hk2]. split.
    + destruct Hi1 as (?&?&?&?&?&?), Hi2 as (?&?&?&?&?&?). repeat split; congruence.
    + lia.
    + intros Ht. pose proof (Ht1 Ht) as ->. auto.
    + intros Hk. destruct (Hk1 Hk) as (Hk' & Hw' & He'). destruct (Hk2 Hk') as (Hk'' & Hw'' & He'').
      split; [done|]. split; auto.
Qed.

(** Every row of [t] is still in [t'], evolved. *)
Definition evolves (t t' : otable) : Prop :=
  forall id o, t !! id = Some o -> exists o', t' !! id = Some o' /\ row_evolves o o'.

#[export] Instance evolves_preorder : PreOrder evolves.
Proof.
  split.
  - intros t id o Ho. exists o. split; [done | reflexivity].
  - intros a b c Hab Hbc id o Ho. destruct (Hab _ _ Ho) as (o1 & Ho1 & H1).
    destruct (Hbc _ _ Ho1) as (o2 & Ho2 & H2). exists o2. split; [done|]. by transitivity o1.
Qed.

Lemma update_where_evolves id guard f t :
  (forall o, guard o = true -> row_evolves o (f o)) -> evolves t (update_where id guard f t).2.
Proof.
  intros Hf. unfold update_where. destruct (t !! id) as [o|] eqn:Ho; [|reflexivity].
  destruct (guard o) eqn:Hg; [|reflexivity]. cbn. intros id' o' Ho'.
  destruct (decide (id = id')) as [<-|Hne].
  - exists (f o). rewrite lookup_insert_eq. simplify_eq. eauto.
  - exists o'. rewrite lookup_insert_ne by done. split; [done | reflexivity].
Qed.

Lemma owned_by_terminal stamp o : owned_by stamp o = true -> ob_TerminalAt o = None.
Proof. unfold owned_by, no_terminal. intros H. by to_prop. Qed.

Ltac row_step :=
  intros o Hg; try apply owned_by_terminal in Hg;
  split; [done | cbn; lia | congruence | try (cbn; tauto)].

Lemma Insert_evolves o : respects (on_rows evolves) (Insert o).
Proof.
  apply respects_map_err, respects_stmt; [apply _|]. intros t. unfold insert_row.
  destruct (json_column _); [|reflexivity].
  destruct (_ || _) eqn:Hd; [reflexivity|]. cbn. apply orb_false_iff in Hd as [Hd _].
  apply bool_decide_eq_false in Hd. intros id o' Ho'. exists o'. split; [|reflexivity].
  rewrite lookup_insert_ne; [done|]. intros <-. apply Hd. eauto.
Qed.

Lemma ClaimOutboxByID_evolves id upd stale : respects (on_rows evolves) (ClaimOutboxByID id upd stale).
Proof.
  apply respects_exec; [apply _|]. intros t. apply update_where_evolves.
  intros o Hg. unfold claimable, no_terminal in Hg. to_prop.
  split; [done | cbn; lia | congruence | cbn; tauto].
Qed.

Lemma fenced_evolves ctx id guard f :
  (forall o, guard o = true -> row_evolves o (f o)) -> respects (on_rows evolves) (fenced ctx id guard f).
Proof.
  intros Hf. unfold fenced. apply respects_bind; [apply _ | | intros; apply respects_ret, _].
  apply respects_map_err, respects_exec; [apply _|]. intros t. by apply update_where_evolves.
Qed.

Lemma claim_rows_respects (R : otable -> otable -> Prop) selected upd stale out :
  PreOrder R -> (forall id, respects (on_rows R) (ClaimOutboxByID id upd stale)) ->
  respects (on_rows R) (claim_rows selected upd stale out).
Proof.
  intros HR Hc. revert out. induction selected as [|row rest IH]; intros out; cbn [claim_rows].
  { apply respects_ret, _. }
  apply respects_bind; [apply _ | apply respects_map_err, Hc|]. intros n. destruct (n =? 1); apply IH.
Qed.

Lemma ClaimDue_respects (R : otable -> otable -> Prop) locked limit due stale upd :
  PreOrder R -> (forall id, respects (on_rows R) (ClaimOutboxByID id upd stale)) ->
  respects (on_rows R) (ClaimDue locked limit due stale upd).
Proof.
  intros HR Hc. unfold ClaimDue, claimDue. apply respects_with_rollback; [done|].
  repeat (apply respects_bind; [apply _ | | intros ?]);
    eauto using claim_rows_respects with golib typeclass_instances.
Qed.

Lemma claimQueued_respects (R : otable -> otable -> Prop) locked session limit upd :
  PreOrder R -> (forall id, respects (on_rows R) (ClaimOutboxByID id upd upd)) ->
  respects (on_rows R) (claimQueuedForSession locked session limit upd).
Proof.
  intros HR Hc. unfold claimQueuedForSession, claimQueued. apply respects_with_rollback; [done|].
  repeat (apply respects_bind; [apply _ | | intros ?]);
    eauto using claim_rows_respects with golib typeclass_instances.
Qed.

(** ** Runs of the table under any number of schedulers *)

Inductive ostep :=
  | OInsert (o : OutboxEntry)
  | OClaimByID (id : string) (updatedAt staleBefore : Z)
  | OClaimQueued (locked : gset string) (session : string) (limit updatedAt : Z)
  | OClaimDue (locked : gset string) (limit dueBefore staleBefore updatedAt : Z)
  | OReschedule (id : string) (ownerStamp : Z) (note : string) (nextAttemptAt updatedAt : Z)
  | OMark (id : string) (ownerStamp : Z)
  | OClear (id : string) (ownerStamp : Z)
  | OAcknowledge (id : string) (ownerStamp : Z) (waID : string) (at_ : Z)
  | OComplete (id : string) (ownerStamp : Z) (status : OutboxStatus) (waID note : option string)
      (updatedAt : Z).

Definition run_ostep (a : ostep) : M (db otable) unit :=
  match a with
  | OInsert o => Insert o
  | OClaimByID id upd stale => ClaimByID id upd stale;; mret tt
  | OClaimQueued locked session limit upd => claimQueuedForSession locked session limit upd;; mret tt
  | OClaimDue locked limit due stale upd => ClaimDue locked limit due stale upd;; mret tt
  | OReschedule id stamp note next upd => Reschedule id stamp note next upd;; mret tt
  | OMark id stamp => MarkDispatchPossible id stamp;; mret tt
  | OClear id stamp => ClearDispatchPossible id stamp;; mret tt
  | OAcknowledge id stamp waID at_ => RecordAcknowledgement id stamp waID at_;; mret tt
  | OComplete id stamp status waID note upd => CompleteOwned id stamp status waID note upd;; mret tt
  end.

(** One operation of one scheduler, under any script of MySQL failures. *)
Definition table_step (t t' : otable) : Prop :=
  exists a fs r d', run_ostep a (Db t fs) = (r, d') /\ t' = rows d'.

Lemma run_ostep_evolves a : respects (on_rows evolves) (run_ostep a).
Proof.
  destruct a; cbn [run_ostep]; try apply Insert_evolves;
    (apply respects_bind; [apply _ | | intros; apply respects_ret, _]).
  - unfold ClaimByID. apply respects_bind; [apply _ | apply respects_map_err, ClaimOutboxByID_evolves|].
    intros n. repeat split_if; eauto with golib typeclass_instances.
  - apply claimQueued_respects; [apply _ | intros; apply ClaimOutboxByID_evolves].
  - apply ClaimDue_respects; [apply _ | intros; apply ClaimOutboxByID_evolves].
  - apply fenced_evolves. row_step.
  - apply fenced_evolves. row_step.
  - apply fenced_evolves. intros o Hg. to_prop.
    match goal with H : owned_by _ _ = true |- _ => apply owned_by_terminal in H end.
    split; [done | cbn; lia | congruence | congruence].
  - apply fenced_evolves. row_step. cbn. intros _. split; [done|]. split; [done|]. tauto.
  - apply fenced_evolves. intros o Hg. apply owned_by_terminal in Hg.
    unfold complete_row. case_bool_decide; (split; [done | cbn; lia | congruence |]); cbn;
      intros Hk; (split; [done|]); (split; [|tauto]); destruct waID; done.
Qed.

Lemma table_steps_evolve t t' : rtc table_step t t' -> evolves t t'.
Proof.
  induction 1 as [t|t t1 t2 (a & fs & r & d' & Hrun & ->) _ IH]; [reflexivity|].
  transitivity (rows d'); [|exact IH]. exact (run_ostep_evolves a _ _ _ Hrun).
Qed.

(** ** Well-formed tables *)

Record table_wf (t : otable) : Prop := {
  wf_id : forall id o, t !! id = Some o -> ob_ID o = id;
  wf_key : forall id1 id2 o1 o2 key,
    t !! id1 = Some o1 -> t !! id2 = Some o2 -> ob_IdempotencyKey o2 = Some key ->
    same_key (ob_OrganizationID o2) key o1 = true -> id1 = id2;
  wf_ack : forall id o, t !! id = Some o -> ob_AcknowledgedAt o <> None -> ob_WAMessageID o <> None;
}.

(** The columns [table_wf] reads are kept by an update. *)
Definition keeps_identity (o o' : OutboxEntry) : Prop :=
  ob_ID o' = ob_ID o /\ ob_OrganizationID o' = ob_OrganizationID o /\
  ob_IdempotencyKey o' = ob_IdempotencyKey o /\
  ((ob_AcknowledgedAt o <> None -> ob_WAMessageID o <> None) ->
   ob_AcknowledgedAt o' <> None -> ob_WAMessageID o' <> None).

Lemma same_key_identity org key o o' :
  keeps_identity o o' -> same_key org key o' = same_key org key o.
Proof. intros (_ & Ho & Hk & _). unfold same_key. by rewrite Ho, Hk. Qed.

Lemma update_where_lookup id guard f t id' o' :
  (update_where id guard f t).2 !! id' = Some o' ->
  (id' = id /\ exists o, t !! id = Some o /\ guard o = true /\ o' = f o) \/ t !! id' = Some o'.
Proof.
  unfold update_where. destruct (t !! id) as [o|] eqn:Ho; [|by right].
  destruct (guard o) eqn:Hg; [|by right]. cbn.
  intros [[<- <-]|[_ ?]]%lookup_insert_Some; [left; eauto 10 | by right].
Qed.

Lemma update_where_wf id guard f t :
  (forall o, keeps_identity o (f o)) -> table_wf t -> table_wf (update_where id guard f t).2.
Proof.
  intros Hf [Hid Hkey Hack].
  assert (Hold : forall id' o', (update_where id guard f t).2 !! id' = Some o' ->
    exists o, t !! id' = Some o /\ keeps_identity o o').
  { intros id' o' [(-> & o & Ho & _ & ->)|Ho]%update_where_lookup; [eauto|].
    exists o'. split; [done|]. by unfold keeps_identity. }
  split.
  - intros id' o' (o & Ho & Hi & _)%Hold. rewrite Hi. by apply Hid.
  - intros id1 id2 o1 o2 key (p1 & Hp1 & K1)%Hold (p2 & Hp2 & K2)%Hold Hk Hs.
    rewrite (same_key_identity _ _ _ _ K1) in Hs. destruct K2 as (_ & Ho2 & Hk2 & _).
    rewrite Ho2 in Hs. rewrite Hk2 in Hk. eauto.
  - intros id' o' (o & Ho & _ & _ & _ & Ha)%Hold. eauto.
Qed.

Lemma elem_of_table_rows t o : table_wf t -> o ∈ table_rows t <-> t !! ob_ID o = Some o.
Proof.
  intros Hwf. unfold table_rows. rewrite list_elem_of_fmap. split.
  - intros ([id o'] & -> & Hin%elem_of_map_to_list). cbn. by rewrite (wf_id _ Hwf _ _ Hin).
  - intros Ho. exists (ob_ID o, o). split; [done|]. by apply elem_of_map_to_list.
Qed.

Lemma table_rows_NoDup t : table_wf t -> NoDup (ob_ID <$> table_rows t).
Proof.
  intros Hwf. unfold table_rows.
  rewrite <- list_fmap_compose.
  rewrite (list_fmap_ext (ob_ID ∘ snd) fst).
  - apply NoDup_fst_map_to_list.
  - intros i [id o] Hin. cbn. apply list_elem_of_lookup_2, elem_of_map_to_list in Hin.
    exact (wf_id _ Hwf _ _ Hin).
Qed.

Lemma same_key_sym org1 org2 k1 k2 o1 o2 :
  ob_OrganizationID o1 = org1 -> ob_OrganizationID o2 = org2 ->
  ob_IdempotencyKey o1 = Some k1 -> ob_IdempotencyKey o2 = Some k2 ->
  same_key org1 k1 o2 = true -> same_key org2 k2 o1 = true.
Proof.
  intros <- <- Hk1 Hk2. unfold same_key. rewrite Hk1, Hk2. cbn.
  rewrite !andb_true_iff, !bool_decide_eq_true. intuition congruence.
Qed.

Lemma insert_row_wf o t : table_wf t -> table_wf (insert_row o t).2.
Proof.
  intros Hwf. pose proof Hwf as [Hid Hkey Hack]. unfold insert_row.
  destruct (json_column _) as [payload|]; [|done].
  destruct (_ || _) eqn:Hd; [done|]. cbn. apply orb_false_iff in Hd as [Hnew Hdup].
  apply bool_decide_eq_false in Hnew.
  assert (Hfresh : forall id o2 key, t !! id = Some o2 -> ob_IdempotencyKey o = Some key ->
            same_key (ob_OrganizationID o) key o2 = false).
  { intros id o2 key Ho2 Hk. rewrite Hk in Hdup. cbn in Hdup.
    destruct (same_key _ _ _) eqn:Hs; [|done]. exfalso.
    assert (Hex : existsb (same_key (ob_OrganizationID o) key) (table_rows t) = true).
    { apply existsb_exists. exists o2. split; [|done]. apply list_elem_of_In.
      apply elem_of_table_rows; [done|]. by rewrite (Hid _ _ Ho2). }
    congruence. }
  split.
  - by intros id o' [[<- <-]|[_ ?]]%lookup_insert_Some; [|auto].
  - intros id1 id2 o1 o2 key [[<- <-]|[Hne1 H1]]%lookup_insert_Some
      [[<- <-]|[Hne2 H2]]%lookup_insert_Some Hk Hs; [done|..]; cbn in *.
    + exfalso. destruct (ob_IdempotencyKey o) as [k1|] eqn:Hk1.
      * pose proof (same_key_sym _ _ _ _ o2 o eq_refl eq_refl Hk Hk1) as Hsym.
        rewrite (Hfresh _ _ _ H2 eq_refl) in Hsym. apply (diff_false_true), Hsym.
        revert Hs. unfold same_key, inserted. cbn. by rewrite Hk1.
      * revert Hs. unfold same_key, inserted. cbn. by rewrite Hk1, andb_false_r.
    + by rewrite (Hfresh _ _ _ H1 Hk) in Hs.
    + eauto.
  - by intros id o' [[<- <-]|[_ ?]]%lookup_insert_Some; [|eauto].
Qed.

Lemma update_keeps_wf id guard f :
  (forall o, keeps_identity o (f o)) ->
  respects (on_rows (keeps table_wf)) (exec (update_where id guard f)).
Proof. intros Hf. apply respects_exec; [apply _|]. intros t Hwf. by apply update_where_wf. Qed.

Lemma fenced_keeps_wf ctx id guard f :
  (forall o, keeps_identity o (f o)) -> respects (on_rows (keeps table_wf)) (fenced ctx id guard f).
Proof.
  intros Hf. unfold fenced. apply respects_bind; [apply _ | | intros; apply respects_ret, _].
  by apply respects_map_err, update_keeps_wf.
Qed.

Lemma run_ostep_keeps_wf a : respects (on_rows (keeps table_wf)) (run_ostep a).
Proof.
  assert (Hclaim : forall id upd stale,
            respects (on_rows (keeps table_wf)) (ClaimOutboxByID id upd stale)).
  { intros. apply update_keeps_wf. by unfold keeps_identity. }
  destruct a; cbn [run_ostep];
    [|apply respects_bind; [apply _ | | intros; apply respects_ret, _]..].
  - apply respects_map_err, respects_stmt; [apply _|]. intros t Hwf. by apply insert_row_wf.
  - unfold ClaimByID. apply respects_bind; [apply _ | apply respects_map_err, Hclaim|].
    intros n. repeat split_if; eauto with golib typeclass_instances.
  - apply claimQueued_respects; [apply _ | auto].
  - apply ClaimDue_respects; [apply _ | auto].
  - apply fenced_keeps_wf. by unfold keeps_identity.
  - apply fenced_keeps_wf. by unfold keeps_identity.
  - apply fenced_keeps_wf. by unfold keeps_identity.
  - apply fenced_keeps_wf. by unfold keeps_identity.
  - apply fenced_keeps_wf. intros o. unfold keeps_identity, complete_row.
    case_bool_decide; cbn; (split; [done|]); (split; [done|]); (split; [done|]);
      destruct waID; done.
Qed.

Lemma table_steps_wf t t' : table_wf t -> rtc table_step t t' -> table_wf t'.
Proof.
  intros Hwf Hs. induction Hs as [t|t t1 t2 (a & fs & r & d' & Hrun & ->) _ IH]; [done|].
  apply IH. exact (run_ostep_keeps_wf a _ _ _ Hrun Hwf).
Qed.

(** ** What the claims return *)

Lemma claimed_entry_eq upd o :
  MkOutboxEntry (ob_ID o) (ob_OrganizationID o) (ob_SessionID o) (ob_IdempotencyKey o)
    (ob_Payload o) OutboxSending (ob_Attempts o + 1) (ob_NextAttemptAt o) (ob_ExpiresAt o)
    (ob_AcknowledgedAt o) (ob_EffectPossible o) (ob_WAMessageID o) (ob_Error o) (ob_TerminalAt o)
    (ob_CreatedAt o) upd = set_claimed upd o.
Proof. reflexivity. Qed.

(** Claiming distinct claimable rows claims all of them and nothing else. *)
Lemma claim_rows_returns selected upd stale out d res d' :
  NoDup (ob_ID <$> selected) ->
  (forall o, o ∈ selected -> rows d !! ob_ID o = Some o /\ claimable stale o = true) ->
  claim_rows selected upd stale out d = (inr res, d') ->
  res = out ++ (set_claimed upd <$> selected) /\
  (forall o, o ∈ selected -> rows d' !! ob_ID o = Some (set_claimed upd o)) /\
  (forall id, id ∉ (ob_ID <$> selected) -> rows d' !! id = rows d !! id).
Proof.
  revert out d. induction selected as [|o selected IH]; intros out d Hnd Hsel; cbn [claim_rows].
  { intros Hrun. run_inv. rewrite app_nil_r. split; [done|]. split; [|done].
    by intros o ?%not_elem_of_nil. }
  rewrite fmap_cons in Hnd. apply NoDup_cons in Hnd as [Hfresh Hnd].
  destruct (Hsel o ltac:(by left)) as [Ho Hcl].
  intros (n & d1 & Hclaim & Hrest)%bind_returns. unfold ClaimOutboxByID in Hclaim. run_inv.
  match goal with H : rows d1 = _ |- _ => rename H into Hd1 end.
  unfold update_where in Hrest, Hd1. rewrite Ho, Hcl in Hrest, Hd1. cbn in Hrest, Hd1.
  rewrite claimed_entry_eq in Hrest.
  apply IH in Hrest as (-> & Hin & Hout); [|done|].
  - split; [by rewrite <- app_assoc|]. split.
    + intros o' [->|Ho']%elem_of_cons; [|auto].
      rewrite Hout, Hd1 by done. by rewrite lookup_insert_eq.
    + intros id Hid. rewrite fmap_cons, not_elem_of_cons in Hid. destruct Hid as [Hne Hid].
      rewrite Hout, Hd1 by done. by rewrite lookup_insert_ne.
  - intros o' Ho'. destruct (Hsel o' ltac:(by right)) as [Hrow Hc]. split; [|done].
    rewrite Hd1, lookup_insert_ne; [done|]. intros He. apply Hfresh. rewrite He.
    by apply list_elem_of_fmap_2.
Qed.

Lemma due_claimable due_before stale o : due due_before stale o = true -> claimable stale o = true.
Proof.
  unfold due, claimable. intros [-> H]%andb_true_iff. cbn.
  apply orb_true_iff in H as [[-> _]%andb_true_iff| ->]; [done|]. by rewrite orb_true_r.
Qed.

#[export] Instance created_le_trans : Transitive created_le.
Proof.
  unfold created_le. intros a b c [H1|[H1 H1']] [H2|[H2 H2']]; [left; lia..|].
  right. split; [lia|]. exact (string_leb_trans _ _ _ H1' H2').
Qed.
#[export] Instance due_le_trans : Transitive due_le.
Proof.
  unfold due_le. intros a b c [H1|[H1 H1']] [H2|[H2 H2']]; [left; lia..|].
  right. split; [lia|]. by transitivity b.
Qed.
#[export] Instance due_le_total : Total due_le.
Proof.
  intros a b. unfold due_le, created_le.
  destruct (Z.lt_trichotomy (ob_NextAttemptAt a) (ob_NextAttemptAt b)) as [?|[?|?]];
    [left; left; lia| |right; left; lia].
  destruct (Z.lt_trichotomy (ob_CreatedAt a) (ob_CreatedAt b)) as [?|[?|?]];
    [left; right; auto| |right; right; auto].
  destruct (String.leb_total (ob_ID a) (ob_ID b)) as [?|?]; [left; right; auto | right; right; auto].
Qed.

(** The rows a due select returns, on a well-formed table. *)
Lemma SelectDue_spec locked db_ stale limit t :
  table_wf t ->
  let sel := SelectDueOutboxForClaim locked db_ stale limit t in
  NoDup (ob_ID <$> sel) /\ StronglySorted due_le sel /\ (length sel <= Z.to_nat limit)%nat /\
  (forall o, o ∈ sel ->
     t !! ob_ID o = Some o /\ due db_ stale o = true /\ ob_ID o ∉ locked) /\
  ((length sel < Z.to_nat limit)%nat -> forall id o, t !! id = Some o ->
     due db_ stale o = true -> id ∉ locked -> o ∈ sel).
Proof.
  intros Hwf sel. unfold sel, SelectDueOutboxForClaim.
  set (l := filter _ (table_rows t)). pose proof (merge_sort_Permutation due_le l) as Hp.
  assert (Hl : forall o, o ∈ l <-> t !! ob_ID o = Some o /\ due db_ stale o = true /\ ob_ID o ∉ locked).
  { intros o. unfold l. rewrite list_elem_of_filter, elem_of_table_rows by done. unfold unlocked.
    rewrite andb_true_iff, negb_true_iff, bool_decide_eq_false. tauto. }
  assert (Hnd : NoDup (ob_ID <$> merge_sort due_le l)).
  { rewrite Hp. unfold l. apply NoDup_fmap_filter, table_rows_NoDup, Hwf. }
  assert (Hs : StronglySorted due_le (merge_sort due_le l)) by (apply StronglySorted_merge_sort; apply _).
  rewrite length_take. split; [|split; [|split; [|split]]].
  - rewrite <- (take_drop (Z.to_nat limit) (merge_sort due_le l)), fmap_app in Hnd.
    by apply NoDup_app in Hnd as [? _].
  - rewrite <- (take_drop (Z.to_nat limit) (merge_sort due_le l)) in Hs.
    by apply StronglySorted_app_1_l in Hs.
  - lia.
  - intros o Ho. apply Hl. rewrite <- Hp. eapply subseteq_take, Ho.
  - intros Hlt id o Ho Hdue Hlock. rewrite take_ge by lia. rewrite Hp. apply Hl.
    rewrite (wf_id _ Hwf _ _ Ho). done.
Qed.

Lemma ClaimDue_outcome (locked : gset string) (limit dueBefore staleBefore updatedAt : Z)
  (d d' : db otable) (entries : list OutboxEntry) :
  table_wf (rows d) ->
  ClaimDue locked limit dueBefore staleBefore updatedAt d = (inr entries, d') ->
  exists selected,
    entries = set_claimed updatedAt <$> selected /\
    NoDup (ob_ID <$> selected) /\ StronglySorted due_le selected /\
    (length selected <= Z.to_nat (normLimit limit))%nat /\
    (forall o, o ∈ selected -> rows d !! ob_ID o = Some o /\ due dueBefore staleBefore o = true /\
       (ob_ID o ∉ locked) /\ rows d' !! ob_ID o = Some (set_claimed updatedAt o)) /\
    (forall id, id ∉ (ob_ID <$> selected) -> rows d' !! id = rows d !! id) /\
    ((length selected < Z.to_nat (normLimit limit))%nat -> forall id o, rows d !! id = Some o ->
       due dueBefore staleBefore o = true -> id ∉ locked -> o ∈ selected).
Proof.
  intros Hwf Hrun. unfold ClaimDue, claimDue in Hrun. run_inv. same_rows.
  match goal with Hc : claim_rows ?sel _ _ _ ?d0 = _ |- _ =>
    pose proof (SelectDue_spec locked dueBefore staleBefore (normLimit limit) (rows d) Hwf)
      as (Hnd & Hs & Hlen & Hsel & Hall);
    apply claim_rows_returns in Hc as (-> & Hin & Hout) end.
  - eexists. split; [reflexivity|]. split; [done|]. split; [done|]. split; [done|].
    split; [|split; [exact Hout | exact Hall]].
    intros o Ho. destruct (Hsel _ Ho) as (? & ? & ?). split; [done|]. split; [done|].
    split; [done|]. by apply Hin.
  - done.
  - intros o Ho. destruct (Hsel _ Ho) as (Hrow & Hdue & _). split; [done|].
    by eapply due_claimable.
Qed.

Lemma ClaimDue_entries locked limit dueBefore staleBefore updatedAt d d' entries :
  table_wf (rows d) ->
  ClaimDue locked limit dueBefore staleBefore updatedAt d = (inr entries, d') ->
  forall e, e ∈ entries ->
  exists o, ob_ID e = ob_ID o /\ rows d' !! ob_ID e = Some (set_claimed updatedAt o).
Proof.
  intros Hwf Hrun e He.
  destruct (ClaimDue_outcome _ _ _ _ _ _ _ _ Hwf Hrun) as (sel & -> & _ & _ & _ & Hsel & _).
  apply list_elem_of_fmap in He as (o & -> & Ho). exists o. split; [done|].
  destruct (Hsel _ Ho) as (_ & _ & _ & H). exact H.
Qed.

(** ** Properties of the command table *)

(** However many schedulers run the claims, fenced updates and inserts in
    whatever interleaving and with whatever MySQL failures, a row is never
    lost: its identity and deadline never change, a terminal row is frozen for
    ever, an acknowledgement once recorded survives with its message id, and
    ids, idempotency keys stay unique. *)
Theorem rows_are_durable (t t' : otable) (id : string) (o : OutboxEntry) :
  table_wf t -> rtc table_step t t' -> t !! id = Some o ->
  table_wf t' /\
  exists o', t' !! id = Some o' /\ row_evolves o o' /\
    (ob_TerminalAt o <> None -> o' = o) /\
    (ob_AcknowledgedAt o <> None -> ob_AcknowledgedAt o' <> None /\ ob_WAMessageID o' <> None).
Proof.
  intros Hwf Hs Ho. pose proof (table_steps_wf _ _ Hwf Hs) as Hwf'. split; [done|].
  destruct (table_steps_evolve _ _ Hs _ _ Ho) as (o' & Ho' & Hev).
  exists o'. split; [done|]. split; [done|]. split; [apply Hev|]. intros Ha.
  destruct (ev_acknowledged _ _ Hev Ha) as [Ha' _]. split; [done|]. exact (wf_ack _ Hwf' _ _ Ho' Ha').
Qed.

(** A due claim that commits leases exactly the rows it returns: they are
    distinct unlocked rows that were due or whose lease had run out, oldest due
    first, at most the normalized limit and all of them when fewer; each is
    now [sending] under the new stamp with one more attempt, and no other row
    changed. *)
Theorem claim_due_leases (locked : gset string) (limit dueBefore staleBefore updatedAt : Z)
  (d d' : db otable) (entries : list OutboxEntry) :
  table_wf (rows d) ->
  ClaimDue locked limit dueBefore staleBefore updatedAt d = (inr entries, d') ->
  exists selected,
    entries = set_claimed updatedAt <$> selected /\
    NoDup (ob_ID <$> selected) /\ StronglySorted due_le selected /\
    (length selected <= Z.to_nat (normLimit limit))%nat /\
    (forall o, o ∈ selected -> rows d !! ob_ID o = Some o /\ due dueBefore staleBefore o = true /\
       (ob_ID o ∉ locked) /\ rows d' !! ob_ID o = Some (set_claimed updatedAt o)) /\
    (forall id, id ∉ (ob_ID <$> selected) -> rows d' !! id = rows d !! id) /\
    ((length selected < Z.to_nat (normLimit limit))%nat -> forall id o, rows d !! id = Some o ->
       due dueBefore staleBefore o = true -> id ∉ locked -> o ∈ selected).
Proof. apply ClaimDue_outcome. Qed.

Lemma fenced_refused ctx id guard f t :
  (forall o, t !! id = Some o -> guard o = false) -> fenced ctx id guard f (Db t []) = (inr false, Db t []).
Proof.
  intros Hg. unfold fenced. run_db. unfold update_where.
  destruct (t !! id) as [o|] eqn:Ho; [rewrite (Hg _ eq_refl)|]; reflexivity.
Qed.

Lemma not_owned stamp o : ob_UpdatedAt o <> stamp -> owned_by stamp o = false.
Proof.
  intros Hne. unfold owned_by. rewrite (proj2 (Z.eqb_neq _ _) Hne). by rewrite andb_false_r.
Qed.

(** Mutual exclusion by the dispatch lease. Once a row has been claimed
    again, every update an earlier owner still attempts - reschedule, effect
    marker, acknowledgement, completion - is refused and changes nothing. *)
Theorem stale_owner_is_fenced (locked : gset string) (limit dueBefore staleBefore updatedAt : Z)
  (d d' : db otable) (entries : list OutboxEntry) (e : OutboxEntry) (stamp : Z) :
  table_wf (rows d) -> staleBefore < updatedAt ->
  ClaimDue locked limit dueBefore staleBefore updatedAt d = (inr entries, d') ->
  e ∈ entries ->
  stamp <= staleBefore ->
  let t := rows d' in
  (forall note next upd, Reschedule (ob_ID e) stamp note next upd (Db t []) = (inr false, Db t [])) /\
  MarkDispatchPossible (ob_ID e) stamp (Db t []) = (inr false, Db t []) /\
  ClearDispatchPossible (ob_ID e) stamp (Db t []) = (inr false, Db t []) /\
  (forall waID at_, RecordAcknowledgement (ob_ID e) stamp waID at_ (Db t []) = (inr false, Db t [])) /\
  (forall status waID note upd,
     CompleteOwned (ob_ID e) stamp status waID note upd (Db t []) = (inr false, Db t [])).
Proof.
  intros Hwf Hlt Hrun He Hstamp t.
  destruct (ClaimDue_entries locked limit dueBefore staleBefore updatedAt d d' entries Hwf Hrun e He)
    as (o & Hid & Ho).
  assert (Hno : forall o', t !! ob_ID e = Some o' -> owned_by stamp o' = false).
  { intros o' Ho'. unfold t in Ho'. rewrite Ho in Ho'. injection Ho' as <-.
    apply not_owned. cbn. lia. }
  split; [|split; [|split; [|split]]]; intros; apply fenced_refused; auto.
  intros o' Ho'. by rewrite (Hno _ Ho').
Qed.

(** Idempotency. Once a command with a key is inserted, the key finds that
    row - never another - after any further operations of any scheduler, and
    inserting a second command of the organization under the same key fails
    without changing the table. *)
Theorem idempotency_key_is_permanent (d d' : db otable) (o : OutboxEntry) (key : string)
  (t : otable) (o2 : OutboxEntry) (key2 : string) (fs : list (option goerr)) :
  table_wf (rows d) -> ob_IdempotencyKey o = Some key ->
  Insert o d = (inr tt, d') -> rtc table_step (rows d') t ->
  ob_IdempotencyKey o2 = Some key2 ->
  collate (ob_OrganizationID o2) = collate (ob_OrganizationID o) -> collate key2 = collate key ->
  (exists row, GetByIdempotency (ob_OrganizationID o2) key2 (Db t []) = (inr row, Db t []) /\
     ob_ID row = ob_ID o /\ ob_SessionID row = ob_SessionID o) /\
  (exists err, (Insert o2 (Db t fs)).1 = inl err) /\ rows (Insert o2 (Db t fs)).2 = t.
Proof.
  intros Hwf Hkey Hins Hsteps Hkey2 Horg Hcoll.
  unfold Insert in Hins. run_inv.
  assert (Hwf1 : table_wf (rows d')).
  { replace (rows d') with (insert_row o (rows d)).2 by (by rewrite Hins). by apply insert_row_wf. }
  assert (Hrow1 : exists o1, rows d' !! ob_ID o = Some o1 /\ ob_ID o1 = ob_ID o /\
            ob_OrganizationID o1 = ob_OrganizationID o /\ ob_SessionID o1 = ob_SessionID o /\
            ob_IdempotencyKey o1 = Some key).
  { revert Hins. unfold insert_row. destruct (json_column _); [|discriminate].
    destruct (_ || _); [discriminate|]. intros [= <-].
    rewrite lookup_insert_eq. eexists. split; [done|]. cbn. done. }
  destruct Hrow1 as (o1 & Ho1 & Hid1 & Horg1 & Hsess1 & Hkey1).
  pose proof (table_steps_wf _ _ Hwf1 Hsteps) as Hwft.
  destruct (table_steps_evolve _ _ Hsteps _ _ Ho1) as (o' & Ho' & Hev).
  destruct (ev_identity _ _ Hev) as (Hid' & Horg' & Hsess' & Hkey' & _).
  set (org2 := ob_OrganizationID o2) in *.
  assert (Hsame : same_key org2 key2 o' = true).
  { unfold same_key. rewrite Hkey', Hkey1, Horg', Horg1. cbn.
    rewrite !bool_decide_true by done. done. }
  assert (Hin : o' ∈ table_rows t).
  { apply elem_of_table_rows; [done|]. rewrite Hid', Hid1. exact Ho'. }
  assert (Hexists : existsb (same_key org2 key2) (table_rows t) = true).
  { apply existsb_exists. exists o'. split; [by apply list_elem_of_In | done]. }
  split.
  - unfold GetByIdempotency, get_row. run_db.
    destruct (filter (fun x => same_key org2 key2 x = true) (table_rows t)) as [|r l] eqn:Hf.
    { exfalso. assert (Hn : o' ∈ filter (fun x => same_key org2 key2 x = true) (table_rows t))
        by (by apply list_elem_of_filter). rewrite Hf in Hn. by apply not_elem_of_nil in Hn. }
    assert (Hr : r ∈ filter (fun x => same_key org2 key2 x = true) (table_rows t))
      by (rewrite Hf; by left).
    apply list_elem_of_filter in Hr as [Hrs Hrin]. apply elem_of_table_rows in Hrin; [|done].
    assert (Heq : ob_ID r = ob_ID o).
    { apply (wf_key _ Hwft (ob_ID r) (ob_ID o) r o' key Hrin Ho'); [congruence|].
      revert Hrs. unfold same_key. rewrite Horg', Horg1, Horg, <- Hcoll. done. }
    exists r. split; [done|]. split; [done|]. rewrite Heq in Hrin. congruence.
  - assert (Hdup : exists err, insert_row o2 t = (inl err, t)).
    { unfold insert_row. rewrite Hkey2. cbn. fold org2. rewrite Hexists, orb_true_r.
      destruct (json_column _); eauto. }
    destruct Hdup as [dup Hdup]. unfold Insert, map_err, stmt. cbn [faults rows].
    destruct (head fs) as [[err|]|]; cbn; rewrite ?Hdup; cbn; split; eauto.
Qed.
End Repo.

(** ** Concrete tables *)

#[local] Instance demo_mysql : MySQL := {| collate s := s; json_column p := Some p; json_remove _ p := p |}.

Definition demo_entry (id key : string) (status : OutboxStatus) (stamp : Z) : OutboxEntry :=
  MkOutboxEntry id "org_1" "sess_1" (Some key) ["{"%byte; "}"%byte] status 1 0 None None false
    None None None 100 stamp.
Definition demo_table : otable :=
  {[ "a" := demo_entry "a" "k1" OutboxSending 100; "b" := demo_entry "b" "k2" OutboxQueued 100 ]}.

Lemma demo_table_wf : table_wf demo_table.
Proof.
  assert (Hrow : forall id o, demo_table !! id = Some o ->
            (id = "a" /\ o = demo_entry "a" "k1" OutboxSending 100) \/
            (id = "b" /\ o = demo_entry "b" "k2" OutboxQueued 100)).
  { unfold demo_table. intros id o [[<- <-]|[_ H]]%lookup_insert_Some; [by left|].
    apply lookup_singleton_Some in H as [<- <-]. by right. }
  split.
  - by intros id o [[-> ->]|[-> ->]]%Hrow.
  - intros id1 id2 o1 o2 key [[-> ->]|[-> ->]]%Hrow [[-> ->]|[-> ->]]%Hrow [= <-]; done.
  - by intros id o [[-> ->]|[-> ->]]%Hrow.
Qed.

Definition demo_claim : (goerr + list OutboxEntry) * db otable :=
  ClaimDue ∅ 10 500 400 500 (Db demo_table []).

Lemma rows_are_durable_witness :
  exists o', rows demo_claim.2 !! "a" = Some o' /\ row_evolves (demo_entry "a" "k1" OutboxSending 100) o'.
Proof.
  destruct (rows_are_durable demo_table (rows demo_claim.2) "a" (demo_entry "a" "k1" OutboxSending 100)
              demo_table_wf) as (_ & o' & Ho' & Hev & _).
  - apply rtc_once. exists (OClaimDue ∅ 10 500 400 500), [].
    eexists _, _. split; [apply surjective_pairing|]. vm_compute. reflexivity.
  - reflexivity.
  - exists o'. split; [exact Ho' | exact Hev].
Defined.

Lemma claim_due_leases_witness :
  match demo_claim.1 with
  | inr entries => exists selected, entries = set_claimed 500 <$> selected /\ length selected = 2%nat
  | inl _ => False
  end.
Proof.
  destruct demo_claim as [[err|entries] d'] eqn:Hrun; [vm_compute in Hrun; discriminate|]. cbn [fst].
  destruct (claim_due_leases ∅ 10 500 400 500 (Db demo_table []) d' entries demo_table_wf Hrun)
    as (selected & He & _).
  exists selected. split; [exact He|]. vm_compute in Hrun. injection Hrun as Hentries _.
  apply (f_equal length) in He. rewrite length_fmap in He. rewrite <- He, <- Hentries. reflexivity.
Defined.

Lemma stale_owner_is_fenced_witness :
  let t := rows demo_claim.2 in
  MarkDispatchPossible "a" 100 (Db t []) = (inr false, Db t []).
Proof.
  assert (Hrun : exists entries, demo_claim = (inr entries, demo_claim.2) /\
            set_claimed 500 (demo_entry "a" "k1" OutboxSending 100) ∈ entries).
  { eexists. split; [vm_compute; reflexivity|]. left. }
  destruct Hrun as (entries & Hrun & Hin).
  apply (stale_owner_is_fenced ∅ 10 500 400 500 (Db demo_table []) demo_claim.2 entries
           (set_claimed 500 (demo_entry "a" "k1" OutboxSending 100)) 100 demo_table_wf
           ltac:(lia) Hrun Hin ltac:(lia)).
Defined.

Lemma idempotency_key_is_permanent_witness :
  let o := demo_entry "c" "k3" OutboxQueued 600 in
  let t := rows (Insert o (Db demo_table [])).2 in
  exists row, GetByIdempotency "org_1" "k3" (Db t []) = (inr row, Db t []) /\ ob_ID row = "c".
Proof.
  intros o t.
  assert (Hins : Insert o (Db demo_table []) = (inr tt, (Insert o (Db demo_table [])).2))
    by (vm_compute; reflexivity).
  destruct (idempotency_key_is_permanent (Db demo_table []) (Insert o (Db demo_table [])).2
              o "k3" t (demo_entry "d" "k3" OutboxQueued 700) "k3" []
              demo_table_wf eq_refl Hins (rtc_refl _ _)
              eq_refl eq_refl eq_refl) as [(row & Hget & Hid & _) _].
  exists row. split; [exact Hget | exact Hid].
Defined.
