(* ===== verification/Outbound.v ===== *)
(** * The outbound message vocabulary and its validation

    Models [internal/wa/outbound]: the results and options of a send
    ([outbound.go]), the validation of send requests and message operations
    ([validate.go]) and the message ids a durable command reserves
    ([command_message_id.go]). URL parsing, SHA-256 and the quoting of [%q]
    are the class [OutboundLib]. *)

From stdpp Require Export pretty.
From S2P Require Import Prelude Journal Domain.

Record URL := MkURL { u_Scheme : string; u_Host : string; u_HasUser : bool }.

Class OutboundLib := {
  url_Parse : string -> option URL;
  sha256_Sum256 : string -> list byte;
  go_quote : string -> string;
}.

(** [Sum256] returns 32 bytes. *)
Class OutboundLibLaws (L : OutboundLib) : Prop := {
  sha256_length s : length (sha256_Sum256 s) = 32%nat;
}.

Definition MaxMediaBytes : Z := 16 * 1024 * 1024.
Definition MinAlbumItems : Z := 2.
Definition MaxAlbumItems : Z := 10.
Definition MaxAlbumBytes : Z := 64 * 1024 * 1024.
Definition MaxReplyButtons : Z := 3.
Definition MaxReplyButtonTitleRunes : Z := 20.
Definition MaxInteractiveActionBytes : Z := 32 * 1024.

Definition ModeSync : string := "sync".
Definition ModeAsync : string := "async".

Record SendResult := MkSendResult {
  r_Mode : string;
  r_WAMessageID : string;
  r_ReservedMessageIDs : list string;
  r_Status : option MessageStatus;
  r_Timestamp : Z;
  r_OutboxID : string;
  r_Replayed : bool;
}.

(** The zero value. *)
Definition blank_result : SendResult := MkSendResult "" "" [] None 0 "" false.

Record SendOptions := MkSendOptions { so_Async : bool; so_IdempotencyKey : string }.

Definition OpReaction : string := "reaction".
Definition OpEdit : string := "edit".
Definition OpRevoke : string := "revoke".
Definition OpVote : string := "vote".
Definition OpForward : string := "forward".

Record OpRequest := MkOpRequest {
  or_Op : string;
  or_ExpiresAt : option Z;
  or_IdempotencyKey : string;
  or_Chat : string;
  or_Sender : string;
  or_MsgID : string;
  or_Emoji : string;
  or_NewText : string;
  or_Options : list string;
  or_To : string;
}.

(** ** Strings as UTF-8 bytes *)

Definition slen (s : string) : Z := Z.of_nat (String.length s).
Definition string_bytes (s : string) : list N := Ascii.N_of_ascii <$> String.list_ascii_of_string s.

Definition between (lo hi x : N) : bool := (N.leb lo x && N.leb x hi)%bool.
Definition cont (x : N) : bool := between 128 191 x.

(** The width Go decodes at the front of a byte string: an invalid sequence is
    one byte wide. *)
Definition rune_width (l : list N) : nat :=
  match l with
  | [] => 0
  | b0 :: l1 =>
      if N.ltb b0 194 then 1
      else match l1 with
      | [] => 1
      | b1 :: l2 =>
          if between 194 223 b0 then if cont b1 then 2 else 1
          else match l2 with
          | [] => 1
          | b2 :: l3 =>
              if between 224 239 b0 then
                let lo := if N.eqb b0 224 then 160%N else 128%N in
                let hi := if N.eqb b0 237 then 159%N else 191%N in
                if (between lo hi b1 && cont b2)%bool then 3 else 1
              else match l3 with
              | [] => 1
              | b3 :: _ =>
                  if between 240 244 b0 then
                    let lo := if N.eqb b0 240 then 144%N else 128%N in
                    let hi := if N.eqb b0 244 then 143%N else 191%N in
                    if (between lo hi b1 && cont b2 && cont b3)%bool then 4 else 1
                  else 1
              end
          end
      end
  end%nat.

(** The white space of [strings.TrimSpace], by its encodings. *)
Definition is_space (l : list N) : bool :=
  match l with
  | [b] => (between 9 13 b || N.eqb b 32)%bool
  | [194; b]%N => (N.eqb b 133 || N.eqb b 160)%bool
  | [225; 154; 128]%N => true
  | [226; 128; b]%N => (between 128 138 b || N.eqb b 168 || N.eqb b 169 || N.eqb b 175)%bool
  | [226; 129; 159]%N => true
  | [227; 128; 128]%N => true
  | _ => false
  end.

(** The runes of a byte string; the length is enough fuel, as every rune is at
    least one byte wide. *)
Fixpoint runes_fuel (fuel : nat) (l : list N) : list (list N) :=
  match fuel, l with
  | S fuel, _ :: _ => take (rune_width l) l :: runes_fuel fuel (drop (rune_width l) l)
  | _, _ => []
  end.
Definition runes (s : string) : list (list N) :=
  runes_fuel (String.length s) (string_bytes s).

(** [strings.TrimSpace(s) == ""] and [utf8.RuneCountInString]. *)
Definition blank (s : string) : bool := forallb is_space (runes s).
Definition RuneCountInString (s : string) : Z := Z.of_nat (length (runes s)).

Definition bytes_string (l : list N) : string :=
  String.string_of_list_ascii (Ascii.ascii_of_N <$> l).

(** [strings.TrimSpace] and [bytes.TrimSpace]. *)
Fixpoint drop_spaces (l : list (list N)) : list (list N) :=
  match l with [] => [] | r :: rest => if is_space r then drop_spaces rest else l end.
Definition TrimSpace (s : string) : string :=
  bytes_string (concat (reverse (drop_spaces (reverse (drop_spaces (runes s)))))).

Example runes_1 : RuneCountInString "ab" = 2. Proof. reflexivity. Qed.
Example runes_2 : RuneCountInString "é" = 1. Proof. reflexivity. Qed.
Example blank_1 : blank "  " = true. Proof. reflexivity. Qed.
Example trim_1 : TrimSpace "  a b  " = "a b". Proof. reflexivity. Qed.

(** ** Validation *)

Section Validate.
Context `{L : OutboundLib}.

Definition valid (ok : bool) (msg : string) : option goerr :=
  if ok then None else Some (ErrValidation msg).

(** [if cond { return err }] before the rest of the function. *)
Definition reject (cond : bool) (msg : string) (rest : option goerr) : option goerr :=
  if cond then Some (ErrValidation msg) else rest.

Definition approxDecodedLen (b64 : string) : Z := Z.quot (slen b64) 4 * 3.

(** [u, err := url.Parse(s); err != nil || u.Host == "" || scheme not http(s)]. *)
Definition bad_http_url (s : string) : bool :=
  match url_Parse s with
  | None => true
  | Some u => bool_decide (u_Host u = "") ||
              (negb (bool_decide (u_Scheme u = "http")) && negb (bool_decide (u_Scheme u = "https")))
  end.

Definition bad_https_url (s : string) : bool :=
  match url_Parse s with
  | None => true
  | Some u => negb (bool_decide (u_Scheme u = "https")) || bool_decide (u_Host u = "") || u_HasUser u
  end.

(** The closure [check] over the ids seen so far. *)
Definition check_selection (ids : gset string) (id title : string) : goerr + gset string :=
  if blank id || blank title then inl (ErrValidation "selection id and title are required")
  else if bool_decide (id ∈ ids) then inl (ErrValidation "selection ids must be unique")
  else inr ({[id]} ∪ ids).

Fixpoint validate_buttons (buttons : list ReplyButton) (ids : gset string) : option goerr :=
  match buttons with
  | [] => None
  | button :: rest =>
      reject (blank (rb_Title button)) "button title is required" (
      reject (MaxReplyButtonTitleRunes <? RuneCountInString (rb_Title button))
        "button title must be at most 20 characters" (
      if bool_decide (rb_Kind button = "") || bool_decide (rb_Kind button = "reply") then
        match check_selection ids (rb_ID button) (rb_Title button) with
        | inl err => Some err
        | inr ids' => validate_buttons rest ids'
        end
      else if bool_decide (rb_Kind button = "url") then
        reject (MaxInteractiveActionBytes <? slen (rb_URL button))
          "url button URL must be at most 32768 UTF-8 bytes" (
        reject (bad_https_url (rb_URL button)) "url button requires an HTTPS url"
          (validate_buttons rest ids))
      else if bool_decide (rb_Kind button = "copy") then
        reject (blank (rb_Code button)) "copy button requires code" (
        reject (MaxInteractiveActionBytes <? slen (rb_Code button))
          "copy button code must be at most 32768 UTF-8 bytes"
          (validate_buttons rest ids))
      else Some (ErrValidation "button kind must be reply, url, or copy")))
  end.

Definition validate_header_image (h : MediaPayload) : option goerr :=
  reject (Bool.eqb (blank (mp_Data h)) (blank (mp_URL h)))
    "headerImage requires exactly one of data or url" (
  reject (negb (bool_decide (mp_Mimetype h = "")) && negb (String.prefix "image/" (mp_Mimetype h)))
    "headerImage mimetype must be image/*" (
  reject (negb (bool_decide (mp_Data h = "")) && (MaxMediaBytes <? approxDecodedLen (mp_Data h)))
    ("headerImage exceeds the " +:+ pretty MaxMediaBytes +:+ " byte limit") (
  reject (negb (bool_decide (mp_URL h = "")) && bad_http_url (mp_URL h))
    "headerImage.url must be a valid http(s) URL" None))).

Fixpoint validate_rows (rows : list ListRow) (ids : gset string) : goerr + gset string :=
  match rows with
  | [] => inr ids
  | row :: rest =>
      match check_selection ids (lr_ID row) (lr_Title row) with
      | inl err => inl err
      | inr ids' => validate_rows rest ids'
      end
  end.

Fixpoint validate_sections (sections : list ListSection) (ids : gset string) : option goerr :=
  match sections with
  | [] => None
  | section :: rest =>
      reject (bool_decide (ls_Rows section = [])) "list sections require rows"
      match validate_rows (ls_Rows section) ids with
      | inl err => Some err
      | inr ids' => validate_sections rest ids'
      end
  end.


Definition validateInteractive (req : SendRequest) : option goerr :=
  reject (blank (sr_Text req)) "text is required for interactive messages" (
  if bool_decide (sr_Type req = SendTypeButtons) then
    reject (is_nil (sr_Buttons req) || negb (is_none (sr_List req)))
      "buttons requires choices and cannot include list" (
    reject (MaxReplyButtons <? len (sr_Buttons req)) "buttons supports at most 3 choices"
    match validate_buttons (sr_Buttons req) ∅ with
    | Some err => Some err
    | None => match sr_HeaderImage req with
              | Some h => validate_header_image h
              | None => None
              end
    end)
  else
    reject (negb (is_none (sr_HeaderImage req))) "headerImage is only supported for buttons"
    match sr_List req with
    | None => Some (ErrValidation "list requires a menu and cannot include buttons")
    | Some menu =>
        reject (negb (is_nil (sr_Buttons req))) "list requires a menu and cannot include buttons" (
        reject (blank (sl_Title menu) || is_nil (sl_Sections menu))
          "list title and sections are required"
          (validate_sections (sl_Sections menu) ∅))
    end).

(** Decimal degrees as binary64: 90 and 180. *)
Definition f90 : spec_float := S754_finite false 6333186975989760 (-46).
Definition f180 : spec_float := S754_finite false 6333186975989760 (-45).
Definition out_of_range (x bound : spec_float) : bool := SFltb x (SFopp bound) || SFltb bound x.

Definition is_media_type (t : string) : bool :=
  bool_decide (t ∈ [SendTypeImage; SendTypeVideo; SendTypeAudio; SendTypeDocument; SendTypeSticker]).

Definition validate_media (typ : string) (media : option MediaPayload) : option goerr :=
  match media with
  | None => Some (ErrValidation ("media is required for type '" +:+ typ +:+ "'"))
  | Some m =>
      let hasData := negb (blank (mp_Data m)) in
      let hasURL := negb (blank (mp_URL m)) in
      reject (Bool.eqb hasData hasURL)
        ("provide exactly one of media.data or media.url for type '" +:+ typ +:+ "'") (
      reject (hasData && (MaxMediaBytes <? approxDecodedLen (mp_Data m)))
        ("media exceeds the " +:+ pretty MaxMediaBytes +:+ " byte limit") (
      reject (hasURL && bad_http_url (mp_URL m)) "media.url must be a valid http(s) URL" None))
  end.

(** The loop over the album items, with the running total. *)
Fixpoint validate_album (i : nat) (items : list AlbumMediaPayload) (total : Z) : goerr + Z :=
  match items with
  | [] => inr total
  | item :: rest =>
      let typ := if bool_decide (am_Type item = "") then SendTypeImage else am_Type item in
      let hasData := negb (blank (am_Data item)) in
      let hasURL := negb (blank (am_URL item)) in
      let size := approxDecodedLen (am_Data item) in
      if negb (bool_decide (typ = SendTypeImage)) && negb (bool_decide (typ = SendTypeVideo)) then
        inl (ErrValidation ("medias[" +:+ pretty i +:+ "].type must be image or video"))
      else if Bool.eqb hasData hasURL then
        inl (ErrValidation ("provide exactly one of medias[" +:+ pretty i +:+ "].data or medias["
                            +:+ pretty i +:+ "].url"))
      else if hasData && (MaxMediaBytes <? size) then
        inl (ErrValidation ("medias[" +:+ pretty i +:+ "] exceeds the " +:+ pretty MaxMediaBytes
                            +:+ " byte item limit"))
      else if hasURL && bad_http_url (am_URL item) then
        inl (ErrValidation ("medias[" +:+ pretty i +:+ "].url must be a valid http(s) URL"))
      else validate_album (S i) rest (if hasData then total + size else total)
  end.

(** The [switch req.Type]. *)
Definition validate_body (req : SendRequest) : option goerr :=
  let t := sr_Type req in
  if bool_decide (t = SendTypeButtons) || bool_decide (t = SendTypeList) then validateInteractive req
  else if bool_decide (t = SendTypeText) then
    reject (bool_decide (sr_Text req = "")) "text is required for type 'text'" None
  else if bool_decide (t = SendTypePoll) then
    reject (bool_decide (sr_Name req = "")) "name is required for type 'poll'" (
    reject (len (sr_Options req) <? 2) "poll requires at least 2 options" (
    reject ((sr_SelectableCount req <? 0) || (len (sr_Options req) <? sr_SelectableCount req))
      "selectableCount must be between 0 and the number of options" (
    reject (sr_PollEndTime req <? 0)
      "pollEndTime must be a positive epoch millisecond timestamp" None)))
  else if bool_decide (t = SendTypeLocation) then
    reject (out_of_range (sr_Latitude req) f90) "latitude must be between -90 and 90" (
    reject (out_of_range (sr_Longitude req) f180) "longitude must be between -180 and 180" None)
  else if bool_decide (t = SendTypeContact) then
    match sr_Contact req with
    | None => Some (ErrValidation "contact is required for type 'contact'")
    | Some c =>
        reject (bool_decide (cc_VCard c = "") &&
                (bool_decide (cc_Name c = "") || bool_decide (cc_Phone c = "")))
          "contact requires either a vcard or both name and phone" None
    end
  else if is_media_type t then validate_media t (sr_Media req)
  else if bool_decide (t = SendTypeAlbum) then
    reject ((len (sr_Medias req) <? MinAlbumItems) || (MaxAlbumItems <? len (sr_Medias req)))
      ("album requires between " +:+ pretty MinAlbumItems +:+ " and " +:+ pretty MaxAlbumItems
       +:+ " medias")
    match validate_album 0 (sr_Medias req) 0 with
    | inl err => Some err
    | inr total =>
        reject (MaxAlbumBytes <? total)
          ("album exceeds the " +:+ pretty MaxAlbumBytes +:+ " byte aggregate limit") None
    end
  else Some (ErrValidation ("unknown send type " +:+ go_quote t)).

Definition validateRequest (req : SendRequest) : option goerr :=
  reject (bool_decide (sr_Type req = "")) "send type is required" (
  reject (bool_decide (sr_To req = "")) "recipient 'to' is required" (
  validate_body req)).

Definition Validate (req : SendRequest) : option goerr := validateRequest req.

Definition validateOp (req : OpRequest) : option goerr :=
  let op := or_Op req in
  reject (bool_decide (or_MsgID req = "")) "target message id is required" (
  reject (bool_decide (or_Chat req = "")) "chat is required" (
  if bool_decide (op = OpReaction) then None
  else if bool_decide (op = OpEdit) then
    reject (bool_decide (or_NewText req = "")) "newText is required for edit" None
  else if bool_decide (op = OpRevoke) then None
  else if bool_decide (op = OpVote) then
    reject (is_nil (or_Options req)) "at least one option is required for vote" None
  else if bool_decide (op = OpForward) then
    reject (bool_decide (or_To req = "")) "destination 'to' is required for forward" None
  else Some (ErrValidation ("unknown message op " +:+ go_quote op)))).

Definition ValidateOp (req : OpRequest) : option goerr := validateOp req.

(** ** Message ids of a durable command *)

Definition hex_digit (n : N) : string :=
  String (Ascii.ascii_of_N (if N.ltb n 10 then 48 + n else 55 + n)) "".

(** [strings.ToUpper(hex.EncodeToString(b))]. *)
Definition hex_upper (l : list byte) : string :=
  String.concat "" ((fun b => let n := Byte.to_N b in
    hex_digit (N.div n 16) +:+ hex_digit (N.modulo n 16)) <$> l).

Definition commandMessageID (commandID : string) (ordinal : Z) : string :=
  "3EB0" +:+ hex_upper (take 9 (sha256_Sum256 (commandID +:+ "/" +:+ pretty ordinal))).

(** The allocator of one execution: [sequence.next.Add(1) - 1] on a uint32. *)
Definition nextCommandMessageID (commandID : string) (next : Z) : string * Z :=
  let next' := (next + 1) `mod` 2 ^ 32 in
  (commandMessageID commandID ((next' - 1) `mod` 2 ^ 32), next').

Definition ReservedMessageIDs (commandID : string) (req : SendRequest) : list string :=
  let count := if bool_decide (sr_Type req = SendTypeAlbum) then S (length (sr_Medias req)) else 1%nat in
  (fun i => commandMessageID commandID (Z.of_nat i)) <$> seq 0 count.
End Validate.

(** ** What a valid request is *)

Section Spec.
Context `{L : OutboundLib}.

Definition http_url (s : string) : Prop :=
  exists u, url_Parse s = Some u /\ u_Host u <> "" /\ (u_Scheme u = "http" \/ u_Scheme u = "https").
Definition https_url (s : string) : Prop :=
  exists u, url_Parse s = Some u /\ u_Scheme u = "https" /\ u_Host u <> "" /\ u_HasUser u = false.

(** Exactly one of inline data, within the item limit, or a web URL. *)
Definition media_source_ok (data url : string) : Prop :=
  (blank data = false /\ blank url = true /\ approxDecodedLen data <= MaxMediaBytes) \/
  (blank data = true /\ blank url = false /\ http_url url).

Definition is_reply (b : ReplyButton) : bool :=
  bool_decide (rb_Kind b = "") || bool_decide (rb_Kind b = "reply").

Definition button_ok (b : ReplyButton) : Prop :=
  blank (rb_Title b) = false /\ RuneCountInString (rb_Title b) <= 20 /\
  ((is_reply b = true /\ blank (rb_ID b) = false) \/
   (rb_Kind b = "url" /\ slen (rb_URL b) <= 32768 /\ https_url (rb_URL b)) \/
   (rb_Kind b = "copy" /\ blank (rb_Code b) = false /\ slen (rb_Code b) <= 32768)).

Definition reply_ids (l : list ReplyButton) : list string :=
  rb_ID <$> filter (fun b => is_reply b = true) l.

Definition header_ok (h : MediaPayload) : Prop :=
  blank (mp_Data h) <> blank (mp_URL h) /\
  (mp_Mimetype h = "" \/ String.prefix "image/" (mp_Mimetype h) = true) /\
  (mp_Data h = "" \/ approxDecodedLen (mp_Data h) <= MaxMediaBytes) /\
  (mp_URL h = "" \/ http_url (mp_URL h)).

Definition row_ok (r : ListRow) : Prop := blank (lr_ID r) = false /\ blank (lr_Title r) = false.
Definition all_rows (l : list ListSection) : list ListRow := concat (ls_Rows <$> l).

Definition album_item_ok (m : AlbumMediaPayload) : Prop :=
  (am_Type m = "" \/ am_Type m = SendTypeImage \/ am_Type m = SendTypeVideo) /\
  media_source_ok (am_Data m) (am_URL m).
Definition album_bytes (l : list AlbumMediaPayload) : Z :=
  foldr (fun m acc => (if blank (am_Data m) then 0 else approxDecodedLen (am_Data m)) + acc) 0 l.

Inductive body_ok (req : SendRequest) : Prop :=
  | ok_text : sr_Type req = SendTypeText -> sr_Text req <> "" -> body_ok req
  | ok_poll : sr_Type req = SendTypePoll -> sr_Name req <> "" -> 2 <= len (sr_Options req) ->
      0 <= sr_SelectableCount req <= len (sr_Options req) -> 0 <= sr_PollEndTime req -> body_ok req
  | ok_location : sr_Type req = SendTypeLocation ->
      out_of_range (sr_Latitude req) f90 = false -> out_of_range (sr_Longitude req) f180 = false ->
      body_ok req
  | ok_contact c : sr_Type req = SendTypeContact -> sr_Contact req = Some c ->
      (cc_VCard c <> "" \/ (cc_Name c <> "" /\ cc_Phone c <> "")) -> body_ok req
  | ok_media m : is_media_type (sr_Type req) = true -> sr_Media req = Some m ->
      media_source_ok (mp_Data m) (mp_URL m) -> body_ok req
  | ok_album : sr_Type req = SendTypeAlbum -> 2 <= len (sr_Medias req) <= 10 ->
      Forall album_item_ok (sr_Medias req) -> album_bytes (sr_Medias req) <= MaxAlbumBytes ->
      body_ok req
  | ok_buttons : sr_Type req = SendTypeButtons -> blank (sr_Text req) = false ->
      sr_List req = None -> 1 <= len (sr_Buttons req) <= 3 ->
      Forall button_ok (sr_Buttons req) -> NoDup (reply_ids (sr_Buttons req)) ->
      (forall h, sr_HeaderImage req = Some h -> header_ok h) -> body_ok req
  | ok_list menu : sr_Type req = SendTypeList -> blank (sr_Text req) = false ->
      sr_List req = Some menu -> sr_Buttons req = [] -> sr_HeaderImage req = None ->
      blank (sl_Title menu) = false -> sl_Sections menu <> [] ->
      Forall (fun s => ls_Rows s <> []) (sl_Sections menu) ->
      Forall row_ok (all_rows (sl_Sections menu)) ->
      NoDup (lr_ID <$> all_rows (sl_Sections menu)) -> body_ok req.

Lemma reject_None c m rest : reject c m rest = None <-> c = false /\ rest = None.
Proof. unfold reject. destruct c; split; [done | by intros [[=] _] | done | by intros [_ ?]]. Qed.

Lemma bad_http_url_false s : bad_http_url s = false <-> http_url s.
Proof.
  unfold bad_http_url, http_url. destruct (url_Parse s) as [u|]; [|split; [done | by intros (? & [=] & _)]].
  rewrite orb_false_iff, andb_false_iff, !negb_false_iff, bool_decide_eq_false, !bool_decide_eq_true.
  split; [intros ?; by exists u | intros (? & [= <-] & ?); tauto].
Qed.

Lemma bad_https_url_false s : bad_https_url s = false <-> https_url s.
Proof.
  unfold bad_https_url, https_url. destruct (url_Parse s) as [u|]; [|split; [done | by intros (? & [=] & _)]].
  rewrite !orb_false_iff, negb_false_iff, bool_decide_eq_false, bool_decide_eq_true.
  split; [intros ?; exists u; tauto | intros (? & [= <-] & ?); tauto].
Qed.

Lemma check_selection_spec ids id title ids' :
  check_selection ids id title = inr ids' <->
  blank id = false /\ blank title = false /\ (id ∉ ids) /\ ids' = {[id]} ∪ ids.
Proof.
  unfold check_selection. destruct (blank id), (blank title); cbn; try naive_solver.
  case_bool_decide; naive_solver.
Qed.

Lemma validate_rows_spec rows ids :
  (forall ids', validate_rows rows ids = inr ids' ->
     ids' = list_to_set (lr_ID <$> rows) ∪ ids) /\
  ((exists ids', validate_rows rows ids = inr ids') <->
   Forall row_ok rows /\ NoDup (lr_ID <$> rows) /\ forall x, x ∈ (lr_ID <$> rows) -> x ∉ ids).
Proof.
  revert ids. induction rows as [|r rows IH]; intros ids; cbn [validate_rows].
  { cbn. split; [intros ? [= <-]; set_solver|]. split; [|eauto].
    intros _. split; [constructor|]. split; [constructor | by intros x ?%not_elem_of_nil]. }
  rewrite Forall_cons, fmap_cons. destruct (check_selection ids (lr_ID r) (lr_Title r)) as [e|ids1] eqn:Hc.
  - split; [done|]. split; [by intros [? [=]]|].
    intros ([[Hi Ht] _] & _ & Hn). exfalso.
    assert (check_selection ids (lr_ID r) (lr_Title r) = inr ({[lr_ID r]} ∪ ids)); [|congruence].
    apply check_selection_spec. split; [done|]. split; [done|]. split; [apply Hn; by left | done].
  - apply check_selection_spec in Hc as (Hi & Ht & Hn & ->). destruct (IH ({[lr_ID r]} ∪ ids)) as [IH1 IH2].
    split.
    + intros ids' ->%IH1. cbn. set_solver.
    + rewrite IH2, <- (seen_step _ _ _ Hn). unfold row_ok. tauto.
Qed.

Lemma validate_sections_spec sections ids :
  validate_sections sections ids = None <->
  Forall (fun s => ls_Rows s <> []) sections /\ Forall row_ok (all_rows sections) /\
  (NoDup (lr_ID <$> all_rows sections) /\ forall x, x ∈ (lr_ID <$> all_rows sections) -> x ∉ ids).
Proof.
  revert ids. induction sections as [|sec sections IH]; intros ids; cbn [validate_sections].
  { unfold all_rows. cbn. split; [|done]. intros _.
    split; [constructor|]. split; [constructor|]. split; [constructor|]. by intros x ?%not_elem_of_nil. }
  rewrite reject_None, bool_decide_eq_false, Forall_cons. unfold all_rows. cbn [fmap list_fmap concat].
  fold (all_rows sections). rewrite Forall_app, fmap_app, NoDup_app.
  destruct (validate_rows_spec (ls_Rows sec) ids) as [Hset Hok].
  destruct (validate_rows (ls_Rows sec) ids) as [e|ids1] eqn:Hv.
  - split; [by intros [_ [=]]|]. intros (_ & [Hr _] & [[Hn _] Hx]). exfalso.
    destruct Hok as [_ Hok]. destruct Hok as [? [=]]. split; [done|]. split; [done|].
    intros x Hin. apply Hx, elem_of_app. by left.
  - rewrite (Hset _ eq_refl). destruct Hok as [Hok _].
    destruct Hok as (Hrow & Hnd & Hfr); [eauto|]. rewrite IH. split.
    + intros (Hne & Hs & Hrs & Hn & Hx). split; [done|]. split; [done|].
      split; [|intros x [Hin|Hin]%elem_of_app; [auto|]; specialize (Hx _ Hin); set_solver].
      split; [done|]. split; [|done]. intros x Hin Hin2. specialize (Hx _ Hin2). set_solver.
    + intros ([Hne Hs] & [_ Hrs] & (Hn1 & Hdis & Hn2) & Hx). split; [done|]. split; [done|].
      split; [done|]. split; [done|]. intros x Hin.
      apply not_elem_of_union. split; [rewrite elem_of_list_to_set; intros H; by eapply Hdis|].
      apply Hx, elem_of_app. by right.
Qed.

Lemma validate_buttons_spec buttons ids :
  validate_buttons buttons ids = None <->
  Forall button_ok buttons /\
  (NoDup (reply_ids buttons) /\ forall x, x ∈ reply_ids buttons -> x ∉ ids).
Proof.
  revert ids. induction buttons as [|b buttons IH]; intros ids; cbn [validate_buttons].
  { unfold reply_ids. cbn. split; [|done]. intros _. split; [constructor|].
    split; [constructor | by intros x ?%not_elem_of_nil]. }
  rewrite !reject_None, Forall_cons. unfold reply_ids. rewrite filter_cons. unfold button_ok at 1.
  rewrite Z.ltb_ge. change MaxReplyButtonTitleRunes with 20.
  destruct (bool_decide (rb_Kind b = "") || bool_decide (rb_Kind b = "reply")) eqn:Hr;
    fold (is_reply b) in Hr; rewrite Hr.
  - rewrite decide_True by done. rewrite fmap_cons. fold (reply_ids buttons).
    assert (Hk : rb_Kind b <> "url" /\ rb_Kind b <> "copy").
    { unfold is_reply in Hr. apply orb_true_iff in Hr as [Hr|Hr]; to_prop; rewrite Hr; done. }
    destruct (check_selection ids (rb_ID b) (rb_Title b)) as [e|ids1] eqn:Hc.
    + split; [by intros (_ & _ & [=])|]. intros [[(Ht & _ & Hor) _] [_ Hx]]. exfalso.
      assert (Hid : blank (rb_ID b) = false) by tauto.
      assert (check_selection ids (rb_ID b) (rb_Title b) = inr ({[rb_ID b]} ∪ ids)); [|congruence].
      apply check_selection_spec. split; [done|]. split; [done|]. split; [apply Hx; by left | done].
    + apply check_selection_spec in Hc as (Hi & Ht & Hn & ->).
      rewrite IH, <- (seen_step _ _ _ Hn). tauto.
  - rewrite decide_False by congruence. fold (reply_ids buttons).
    destruct (bool_decide (rb_Kind b = "url")) eqn:Hu.
    + to_prop. rewrite !reject_None, Z.ltb_ge, bad_https_url_false, IH.
      change MaxInteractiveActionBytes with 32768. rewrite Hu. intuition discriminate.
    + destruct (bool_decide (rb_Kind b = "copy")) eqn:Hcp; to_prop.
      * rewrite !reject_None, Z.ltb_ge, IH. change MaxInteractiveActionBytes with 32768.
        intuition congruence.
      * split; [by intros (_ & _ & [=])|]. intuition congruence.
Qed.

Lemma validate_header_spec h : validate_header_image h = None <-> header_ok h.
Proof.
  unfold validate_header_image, header_ok.
  rewrite !reject_None, !andb_false_iff, !negb_false_iff,
    !bool_decide_eq_true, Z.ltb_ge, bad_http_url_false.
  assert (He : Bool.eqb (blank (mp_Data h)) (blank (mp_URL h)) = false <->
               blank (mp_Data h) <> blank (mp_URL h))
    by (destruct (blank (mp_Data h)), (blank (mp_URL h)); cbn; naive_solver).
  rewrite He. tauto.
Qed.

(** The checks that the media and album cases share. *)
Lemma media_source_spec data url :
  Bool.eqb (negb (blank data)) (negb (blank url)) = false /\
  negb (blank data) && (MaxMediaBytes <? approxDecodedLen data) = false /\
  negb (blank url) && bad_http_url url = false <-> media_source_ok data url.
Proof.
  unfold media_source_ok. destruct (blank data), (blank url); cbn;
    rewrite ?Z.ltb_ge, ?bad_http_url_false; intuition discriminate.
Qed.

Lemma validate_media_spec t media :
  validate_media t media = None <->
  exists m, media = Some m /\ media_source_ok (mp_Data m) (mp_URL m).
Proof.
  unfold validate_media. destruct media as [m|]; [|split; [done | by intros (? & [=] & _)]].
  rewrite !reject_None. pose proof (media_source_spec (mp_Data m) (mp_URL m)). split.
  - intros (? & ? & ? & _). exists m. tauto.
  - intros (? & [= <-] & ?). tauto.
Qed.

Lemma validate_album_spec i items total :
  (forall n, validate_album i items total = inr n -> n = total + album_bytes items) /\
  ((exists n, validate_album i items total = inr n) <-> Forall album_item_ok items).
Proof.
  revert i total. induction items as [|m items IH]; intros i total; cbn [validate_album].
  { unfold album_bytes. cbn. split; [intros n [= <-]; lia|]. split; [constructor | eauto]. }
  rewrite Forall_cons. unfold album_item_ok at 1. rewrite <- media_source_spec.
  set (typ := if bool_decide (am_Type m = "") then SendTypeImage else am_Type m).
  assert (Htyp : negb (bool_decide (typ = SendTypeImage)) && negb (bool_decide (typ = SendTypeVideo))
                 = false <-> am_Type m = "" \/ am_Type m = SendTypeImage \/ am_Type m = SendTypeVideo).
  { rewrite andb_false_iff, !negb_false_iff, !bool_decide_eq_true. unfold typ.
    case_bool_decide; intuition congruence. }
  destruct (negb (bool_decide (typ = _)) && _) eqn:Ht;
    [split; [done|]; split; [by intros [? [=]] | intuition discriminate]|].
  destruct (Bool.eqb _ _) eqn:H1; [split; [done|]; split; [by intros [? [=]] | intuition discriminate]|].
  destruct (_ && (MaxMediaBytes <? _)) eqn:H2;
    [split; [done|]; split; [by intros [? [=]] | intuition discriminate]|].
  destruct (_ && bad_http_url _) eqn:H3;
    [split; [done|]; split; [by intros [? [=]] | intuition discriminate]|].
  destruct (IH (S i) (if negb (blank (am_Data m)) then total + approxDecodedLen (am_Data m) else total))
    as [IH1 IH2]. split.
  - intros n ->%IH1. unfold album_bytes. cbn. destruct (blank (am_Data m)); cbn; lia.
  - rewrite IH2. tauto.
Qed.

Lemma interactive_buttons_spec req :
  sr_Type req = SendTypeButtons -> validateInteractive req = None <-> body_ok req.
Proof.
  intros Ht. unfold validateInteractive. rewrite bool_decide_true by done.
  rewrite !reject_None, orb_false_iff, negb_false_iff, Z.ltb_ge. change MaxReplyButtons with 3.
  pose proof (validate_buttons_spec (sr_Buttons req) ∅) as Hb.
  assert (Hlen : is_nil (sr_Buttons req) = false <-> 1 <= len (sr_Buttons req)).
  { destruct (sr_Buttons req); unfold len; cbn; split; done || lia. }
  assert (Hlist : is_none (sr_List req) = true <-> sr_List req = None) by (by destruct (sr_List req)).
  split.
  - intros (Htext & (Hne & Hl) & H3 & Hrest).
    destruct (validate_buttons _ _); [done|]. destruct (proj1 Hb eq_refl) as (HF & Hn & _).
    apply ok_buttons; try tauto. intros h Hh. rewrite Hh in Hrest.
    by apply validate_header_spec.
  - intros Hok. inversion Hok; try congruence; try (by rewrite Ht in *).
    rewrite (proj2 Hb) by (split; [done|]; split; [done|]; intros; apply not_elem_of_empty).
    split; [done|]. split; [split; [apply Hlen; lia | by apply Hlist]|]. split; [lia|].
    destruct (sr_HeaderImage req) as [h|]; [|done]. apply validate_header_spec. auto.
Qed.

Lemma interactive_list_spec req :
  sr_Type req = SendTypeList -> validateInteractive req = None <-> body_ok req.
Proof.
  intros Ht. unfold validateInteractive. rewrite bool_decide_false by (by rewrite Ht).
  rewrite !reject_None, negb_false_iff.
  assert (Hh : is_none (sr_HeaderImage req) = true <-> sr_HeaderImage req = None)
    by (by destruct (sr_HeaderImage req)).
  split.
  - intros (Htext & Himg & Hrest). destruct (sr_List req) as [menu|] eqn:Hm; [|done].
    rewrite !reject_None, negb_false_iff, orb_false_iff, validate_sections_spec in Hrest.
    destruct Hrest as (Hbt & (Htitle & Hsec) & Hne & Hrows & Hnd & _).
    apply (ok_list _ menu); try done; [by destruct (sr_Buttons req) | by apply Hh |].
    by intros Hs; rewrite Hs in Hsec.
  - intros Hok. inversion Hok; try congruence; try (by rewrite Ht in *).
    match goal with H : sr_List req = Some _ |- _ => rewrite H end.
    rewrite !reject_None, negb_false_iff, orb_false_iff, validate_sections_spec.
    match goal with H : sr_Buttons req = [] |- _ => rewrite H end.
    split; [done|]. split; [by apply Hh|]. split; [done|].
    split; [split; [done | by destruct (sl_Sections menu)]|].
    split; [done|]. split; [done|]. split; [done|]. intros; apply not_elem_of_empty.
Qed.

Ltac known_type H :=
  rewrite ?H; cbn [SendTypeButtons SendTypeList SendTypeText SendTypePoll SendTypeLocation
    SendTypeContact SendTypeImage SendTypeVideo SendTypeAudio SendTypeDocument SendTypeSticker
    SendTypeAlbum].

(** Each type has one rule: what a valid body of another type is excluded. *)
Lemma body_ok_simple req :
  (sr_Type req = SendTypeText -> body_ok req <-> sr_Text req <> "") /\
  (sr_Type req = SendTypePoll -> body_ok req <-> sr_Name req <> "" /\ 2 <= len (sr_Options req) /\
     0 <= sr_SelectableCount req <= len (sr_Options req) /\ 0 <= sr_PollEndTime req) /\
  (sr_Type req = SendTypeLocation -> body_ok req <->
     out_of_range (sr_Latitude req) f90 = false /\ out_of_range (sr_Longitude req) f180 = false) /\
  (sr_Type req = SendTypeContact -> body_ok req <-> exists c, sr_Contact req = Some c /\
     (cc_VCard c <> "" \/ (cc_Name c <> "" /\ cc_Phone c <> ""))) /\
  (is_media_type (sr_Type req) = true -> body_ok req <-> exists m, sr_Media req = Some m /\
     media_source_ok (mp_Data m) (mp_URL m)) /\
  (sr_Type req = SendTypeAlbum -> body_ok req <-> 2 <= len (sr_Medias req) <= 10 /\
     Forall album_item_ok (sr_Medias req) /\ album_bytes (sr_Medias req) <= MaxAlbumBytes).
Proof.
  assert (Hm : forall t, sr_Type req = t -> is_media_type (sr_Type req) = is_media_type t)
    by (by intros t ->).
  split; [|split; [|split; [|split; [|split]]]]; intros Ht; (split;
    [intros Hok; inversion Hok; try congruence; try (by rewrite Ht in *);
       try (by match goal with H : sr_Type req = _ |- _ => rewrite H in Ht end); eauto
    | intros Hok]).
  - by apply ok_text.
  - apply ok_poll; tauto.
  - apply ok_location; tauto.
  - destruct Hok as (c & ? & ?). by apply (ok_contact _ c).
  - destruct Hok as (m & ? & ?). by apply (ok_media _ m).
  - apply ok_album; tauto.
Qed.

Lemma unknown_type_rejected req :
  sr_Type req ∉ [SendTypeButtons; SendTypeList; SendTypeText; SendTypePoll; SendTypeLocation;
                 SendTypeContact; SendTypeAlbum] ->
  is_media_type (sr_Type req) = false -> ~ body_ok req.
Proof.
  intros Hn Hm Hok. inversion Hok; try congruence;
    match goal with H : sr_Type req = _ |- _ => rewrite H in Hn; apply Hn end;
    repeat (first [left | right]).
Qed.

Lemma validate_body_spec req : validate_body req = None <-> body_ok req.
Proof.
  destruct (body_ok_simple req) as (Htext & Hpoll & Hloc & Hcon & Hmed & Halb).
  unfold validate_body.
  destruct (decide (sr_Type req = SendTypeButtons)) as [Ht|N1].
  { rewrite (bool_decide_true _ Ht). cbn [orb]. by apply interactive_buttons_spec. }
  destruct (decide (sr_Type req = SendTypeList)) as [Ht|N2].
  { rewrite (bool_decide_true _ Ht), orb_true_r. by apply interactive_list_spec. }
  rewrite (bool_decide_false _ N1), (bool_decide_false _ N2). cbn [orb].
  case_bool_decide as N3.
  { rewrite (Htext N3), reject_None, bool_decide_eq_false. tauto. }
  case_bool_decide as N4.
  { rewrite (Hpoll N4), !reject_None, orb_false_iff, bool_decide_eq_false, !Z.ltb_ge. tauto. }
  case_bool_decide as N5.
  { rewrite (Hloc N5), !reject_None. tauto. }
  case_bool_decide as N6.
  { rewrite (Hcon N6). destruct (sr_Contact req) as [c|]; [|split; [done | by intros (? & [=] & _)]].
    rewrite reject_None, andb_false_iff, orb_false_iff, !bool_decide_eq_false.
    split; [intros [? _]; by exists c | intros (? & [= <-] & ?); tauto]. }
  destruct (is_media_type (sr_Type req)) eqn:N7.
  { rewrite (Hmed eq_refl). apply validate_media_spec. }
  case_bool_decide as N8.
  { rewrite (Halb N8), reject_None, orb_false_iff, !Z.ltb_ge.
    change MinAlbumItems with 2. change MaxAlbumItems with 10.
    destruct (validate_album_spec 0 (sr_Medias req) 0) as [Hsum HF].
    destruct (validate_album 0 (sr_Medias req) 0) as [e|n].
    - split; [by intros [_ [=]]|]. intros (_ & HF' & _). apply HF in HF' as [? [=]].
    - rewrite (Hsum _ eq_refl), reject_None, Z.ltb_ge, Z.add_0_l, <- HF. split; [|naive_solver lia].
      intros ([? ?] & ? & _). split; [lia|]. split; [eauto | done]. }
  split; [done|]. intros Hok. exfalso. apply (unknown_type_rejected req); [|done|done].
  intros Hin. repeat (apply elem_of_cons in Hin as [Hin|Hin]; [done|]). by apply not_elem_of_nil in Hin.
Qed.

(** Validation accepts exactly the well-formed requests: a recipient, a
    known type and the declarative rule of that type - polls with at least two
    options and a selectable count among them, coordinates in range, exactly
    one media source per item within the item and album limits and web URLs
    only, at most three buttons of the right kinds with distinct reply ids,
    and selection lists whose row ids are distinct across sections. *)
Theorem validate_accepts_exactly (req : SendRequest) :
  Validate req = None <-> sr_To req <> "" /\ body_ok req.
Proof.
  unfold Validate, validateRequest.
  rewrite !reject_None, !bool_decide_eq_false, validate_body_spec. split; [tauto|].
  intros [Hto Hok]. split; [|done]. intros He.
  apply (unknown_type_rejected req); [rewrite He | by rewrite He | done].
  rewrite !not_elem_of_cons. repeat (split; [done|]). apply not_elem_of_nil.
Qed.
End Spec.

(** ** Reserved message ids *)

(** The ids [n] successive sends of one execution are given. *)
Fixpoint allocate `{OutboundLib} (commandID : string) (n : nat) (next : Z) : list string :=
  match n with
  | O => []
  | S n => let '(id, next') := nextCommandMessageID commandID next in
           id :: allocate commandID n next'
  end.

Lemma allocate_seq `{OutboundLib} commandID n k :
  Z.of_nat (k + n) < 2 ^ 32 ->
  allocate commandID n (Z.of_nat k) =
    (fun i => commandMessageID commandID (Z.of_nat i)) <$> seq k n.
Proof.
  revert k. induction n as [|n IH]; intros k Hk; [done|]. cbn [allocate seq].
  unfold nextCommandMessageID. rewrite fmap_cons.
  rewrite (Z.mod_small (Z.of_nat k + 1)) by lia.
  replace (Z.of_nat k + 1 - 1) with (Z.of_nat k) by lia.
  rewrite (Z.mod_small (Z.of_nat k)) by lia. f_equal.
  replace (Z.of_nat k + 1) with (Z.of_nat (S k)) by lia. apply IH. lia.
Qed.

(** The ids reserved for a command are the ones its execution is given, in
    order, however often it is replayed: one for a single message, and for an
    album the container's followed by one per child. *)
Theorem reserved_ids_are_allocated `{OutboundLib} (commandID : string) (req : SendRequest) :
  let count := if bool_decide (sr_Type req = SendTypeAlbum) then S (length (sr_Medias req))
               else 1%nat in
  Z.of_nat count < 2 ^ 32 ->
  length (ReservedMessageIDs commandID req) = count /\
  ReservedMessageIDs commandID req = allocate commandID count 0.
Proof.
  intros count Hc. unfold ReservedMessageIDs. fold count.
  split; [by rewrite length_fmap, length_seq|].
  symmetry. apply (allocate_seq commandID count 0). lia.
Qed.

#[local] Instance demo_lib : OutboundLib := {|
  url_Parse s := if String.prefix "https://" s then Some (MkURL "https" "host" false) else None;
  sha256_Sum256 s := repeat "a"%byte 32;
  go_quote s := s;
|}.

Definition demo_album : SendRequest :=
  MkSendRequest SendTypeAlbum "1@g.us" None "" "" [] None [] None "" None "" [] 0 0 false
    (S754_zero false) (S754_zero false) None None
    [MkAlbumMediaPayload "" "AAAA" "" ""; MkAlbumMediaPayload "video" "" "https://x" ""] "".

Example demo_album_valid : Validate demo_album = None.
Proof. vm_compute. reflexivity. Qed.
Example nan_latitude_valid :
  out_of_range S754_nan f90 = false.
Proof. vm_compute. reflexivity. Qed.

Lemma reserved_ids_are_allocated_witness :
  length (ReservedMessageIDs "cmd" demo_album) = 3%nat /\
  ReservedMessageIDs "cmd" demo_album = allocate "cmd" 3 0.
Proof. apply (reserved_ids_are_allocated "cmd" demo_album). vm_compute. reflexivity. Defined.
