(* ===== verification/CommandStore.v ===== *)
(** * What the scheduler relies on from the command table

    The interface [outboundCommandStore] of
    [internal/service/outbound_scheduler.go] as a class, the laws the
    scheduler's theorems use, and the proof that the MySQL table of
    [OutboxStore] keeps them. *)

From S2P Require Import Prelude Journal Domain OutboxStore.

Class CommandStore (S : Type) := {
  st_rows : S -> otable;
  st_ok : S -> Prop;
  st_Insert : OutboxEntry -> M S unit;
  st_GetByIdempotency : string -> string -> M S OutboxEntry;
  st_UpdateStatus : string -> OutboxStatus -> option string -> option string -> Z -> M S unit;
  st_ClaimDue : Z -> Z -> Z -> Z -> M S (list OutboxEntry);
  st_Reschedule : string -> Z -> string -> Z -> Z -> M S bool;
  st_MarkDispatchPossible : string -> Z -> M S bool;
  st_ClearDispatchPossible : string -> Z -> M S bool;
  st_RecordAcknowledgement : string -> Z -> string -> Z -> M S bool;
  st_CompleteOwned : string -> Z -> OutboxStatus -> option string -> option string -> Z -> M S bool;
}.

(** [UPDATE ... WHERE id AND guard] matched its row. *)
Definition applied (id : string) (guard : OutboxEntry -> bool) (f : OutboxEntry -> OutboxEntry)
  (t t' : otable) : Prop :=
  exists o, t !! id = Some o /\ guard o = true /\ t' = <[id := f o]> t.

(** The stored row of an inserted command. *)
Definition inserted_as (o row : OutboxEntry) : Prop :=
  ob_ID row = ob_ID o /\ ob_OrganizationID row = ob_OrganizationID o /\
  ob_SessionID row = ob_SessionID o /\ ob_IdempotencyKey row = ob_IdempotencyKey o /\
  ob_Status row = ob_Status o /\ ob_ExpiresAt row = ob_ExpiresAt o /\
  ob_UpdatedAt row = ob_UpdatedAt o /\ ob_AcknowledgedAt row = None /\
  ob_EffectPossible row = false.

(** [op] keeps the table well-formed and its rows evolving, and relates its
    result to its effect by [post]. *)
Definition op_law {S A} `{CommandStore S} (op : M S A)
  (post : goerr + A -> otable -> otable -> Prop) : Prop :=
  forall s r s', st_ok s -> op s = (r, s') ->
  st_ok s' /\ evolves (st_rows s) (st_rows s') /\ post r (st_rows s) (st_rows s').

(** An update fenced by the lease: [true] means the owned row was updated,
    [false] that nothing was. A failed statement may still have been executed
    when only its reply was lost. *)
Definition fenced_post (id : string) (guard : OutboxEntry -> bool) (f : OutboxEntry -> OutboxEntry)
  (r : goerr + bool) (t t' : otable) : Prop :=
  match r with
  | inr true => applied id guard f t t'
  | inr false => t' = t
  | inl _ => t' = t \/ applied id guard f t t'
  end.

Class CommandStoreLaws (S : Type) `{CommandStore S} : Prop := {
  law_ok s id o : st_ok s -> st_rows s !! id = Some o -> ob_ID o = id;
  law_Insert o : op_law (st_Insert o) (fun r t t' =>
    let stored := t !! ob_ID o = None /\ exists row, inserted_as o row /\ t' = <[ob_ID o := row]> t in
    match r with inr _ => stored | inl _ => t' = t \/ stored end);
  law_GetByIdempotency org key : op_law (st_GetByIdempotency org key) (fun r t t' =>
    t' = t /\ match r with inr o => t !! ob_ID o = Some o | inl _ => True end);
  law_ClaimDue limit due stale upd : op_law (st_ClaimDue limit due stale upd) (fun r t t' =>
    match r with
    | inr entries => forall e, e ∈ entries -> exists o,
        e = set_claimed upd o /\ t !! ob_ID e = Some o /\ t' !! ob_ID e = Some e
    | inl _ => True
    end);
  law_Reschedule id stamp note next upd :
    op_law (st_Reschedule id stamp note next upd)
      (fenced_post id (owned_by stamp) (set_rescheduled note next upd));
  law_Mark id stamp :
    op_law (st_MarkDispatchPossible id stamp) (fenced_post id (owned_by stamp) (set_effect true));
  law_Clear id stamp :
    op_law (st_ClearDispatchPossible id stamp)
      (fenced_post id (fun o => owned_by stamp o && bool_decide (ob_AcknowledgedAt o = None))
         (set_effect false));
  law_Acknowledge id stamp waID at_ :
    op_law (st_RecordAcknowledgement id stamp waID at_)
      (fenced_post id (owned_by stamp) (set_acknowledged waID at_));
  law_Complete id stamp status waID note upd :
    op_law (st_CompleteOwned id stamp status waID note upd) (fun r t t' =>
      match r with
      | inr true => exists o o', t !! id = Some o /\ owned_by stamp o = true /\
          t' = <[id := o']> t /\ ob_Status o' = status /\ ob_TerminalAt o' = Some upd /\
          ob_WAMessageID o' = (match waID with Some w => Some w | None => ob_WAMessageID o end) /\
          ob_Error o' = note
      | inr false => t' = t
      | inl _ => True
      end);
}.

(** ** The MySQL table is such a store *)

Section Instance_.
Context `{DB : MySQL}.

(** A database handle with the rows other transactions hold locked at each
    claim. *)
Record replica := Replica { rp_db : db otable; rp_locked : list (gset string) }.

Definition on_db {A} (m : M (db otable) A) : M replica A := fun s =>
  let '(r, d) := m (rp_db s) in (r, Replica d (rp_locked s)).

#[export] Instance mysql_store : CommandStore replica := {|
  st_rows s := rows (rp_db s);
  st_ok s := table_wf (rows (rp_db s));
  st_Insert o := on_db (Insert o);
  st_GetByIdempotency org key := on_db (GetByIdempotency org key);
  st_UpdateStatus id status waID err upd := on_db (UpdateStatus id status waID err upd);
  st_ClaimDue limit due stale upd := fun s =>
    let '(r, d) := ClaimDue (default ∅ (head (rp_locked s))) limit due stale upd (rp_db s) in
    (r, Replica d (tail (rp_locked s)));
  st_Reschedule id stamp note next upd := on_db (Reschedule id stamp note next upd);
  st_MarkDispatchPossible id stamp := on_db (MarkDispatchPossible id stamp);
  st_ClearDispatchPossible id stamp := on_db (ClearDispatchPossible id stamp);
  st_RecordAcknowledgement id stamp waID at_ := on_db (RecordAcknowledgement id stamp waID at_);
  st_CompleteOwned id stamp status waID note upd :=
    on_db (CompleteOwned id stamp status waID note upd);
|}.

(** An operation that is a step of the table keeps its invariants. *)
Lemma on_db_law {A} (m : M (db otable) A) (a : ostep) post :
  run_ostep a = (m;; mret tt) ->
  (forall d r d', table_wf (rows d) -> m d = (r, d') -> post r (rows d) (rows d')) ->
  op_law (on_db m) post.
Proof.
  intros Ha Hpost s r s' Hok Hrun. unfold on_db in Hrun.
  destruct (m (rp_db s)) as [r0 d'] eqn:Hm. injection Hrun as -> <-. cbn.
  assert (Hstep : exists r1, run_ostep a (rp_db s) = (r1, d')).
  { rewrite Ha. unfold mbind, M_bind. rewrite Hm. destruct r; eauto. }
  destruct Hstep as [r1 Hstep].
  split; [exact (run_ostep_keeps_wf a _ _ _ Hstep Hok)|].
  split; [exact (run_ostep_evolves a _ _ _ Hstep) | eauto].
Qed.

Lemma exec_outcome {S A} (f : S -> A * S) (d : db S) r d' :
  exec f d = (r, d') ->
  (exists e, r = inl e /\ rows d' = rows d) \/ (r = inr (f (rows d)).1 /\ rows d' = (f (rows d)).2).
Proof.
  unfold exec, stmt. destruct (head (faults d)) as [[e|]|]; [intros [= <- <-]; left; eauto|..];
    destruct (f (rows d)); intros [= <- <-]; right; done.
Qed.

Lemma fenced_outcome ctx id guard f d r d' :
  fenced ctx id guard f d = (r, d') -> fenced_post id guard f r (rows d) (rows d').
Proof.
  unfold fenced, mbind, M_bind, map_err.
  destruct (exec (update_where id guard f) d) as [r0 d0] eqn:Hx.
  apply exec_outcome in Hx as [(e & -> & Hd)|[-> Hd]].
  - intros [= <- <-]. by left.
  - intros [= <- <-]. revert Hd. unfold update_where, applied.
    destruct (rows d !! id) as [o|] eqn:Ho; [|done]. destruct (guard o) eqn:Hg; [|done].
    cbn. intros ->. exists o. auto.
Qed.

Lemma CompleteOwned_outcome id stamp status waID note upd d r d' :
  CompleteOwned id stamp status waID note upd d = (r, d') ->
  match r with
  | inr true => exists o o', rows d !! id = Some o /\ owned_by stamp o = true /\
      rows d' = <[id := o']> (rows d) /\ ob_Status o' = status /\ ob_TerminalAt o' = Some upd /\
      ob_WAMessageID o' = (match waID with Some w => Some w | None => ob_WAMessageID o end) /\
      ob_Error o' = note
  | inr false => rows d' = rows d
  | inl _ => True
  end.
Proof.
  intros Hc%fenced_outcome. destruct r as [e|[|]]; [done | | exact Hc].
  destruct Hc as (o & Ho & Hown & Ht).
  exists o, (complete_row status waID note upd o). split; [done|]. split; [done|]. split; [done|].
  unfold complete_row. case_bool_decide; cbn; auto.
Qed.

Lemma Insert_outcome o d r d' :
  Insert o d = (r, d') ->
  let stored := rows d !! ob_ID o = None /\
    exists row, inserted_as o row /\ rows d' = <[ob_ID o := row]> (rows d) in
  match r with inr _ => stored | inl _ => rows d' = rows d \/ stored end.
Proof.
  intros Hrun stored. unfold Insert, map_err, stmt in Hrun.
  destruct (head (faults d)) as [[e|]|]; [injection Hrun as <- <-; by left|..];
    (destruct (insert_row o (rows d)) as [r0 t0] eqn:Hins; revert Hins; unfold insert_row;
     destruct (json_column _) as [p|];
     [|intros [= <- <-]; injection Hrun as <- <-; by left];
     destruct (_ || _) eqn:Hdup; intros [= <- <-]; injection Hrun as <- <-; [by left|];
     apply orb_false_iff in Hdup as [Hnew _];
     apply bool_decide_eq_false in Hnew; split;
     [by destruct (rows d !! ob_ID o) eqn:?; [destruct Hnew|]|];
     exists (inserted p o); split; [by unfold inserted_as | done]).
Qed.

Lemma GetByIdempotency_outcome org key d r d' :
  table_wf (rows d) -> GetByIdempotency org key d = (r, d') ->
  rows d' = rows d /\ match r with inr o => rows d !! ob_ID o = Some o | inl _ => True end.
Proof.
  intros Hwf. unfold GetByIdempotency, get_row, mbind, M_bind, map_err, query, stmt.
  assert (Hin : forall o l, filter (fun o => same_key org key o = true) (table_rows (rows d)) = o :: l ->
            rows d !! ob_ID o = Some o).
  { intros o l Hf. apply elem_of_table_rows; [done|].
    assert (Ho : o ∈ filter (fun o => same_key org key o = true) (table_rows (rows d)))
      by (rewrite Hf; by left).
    by apply list_elem_of_filter in Ho as [_ ?]. }
  destruct (head (faults d)) as [[e|]|]; [by intros [= <- <-]|..];
    (destruct (filter _ _) as [|o l] eqn:Hf; intros [= <- <-]; cbn; [done|]; split; [done|]; eauto).
Qed.

Lemma claim_outcome locked limit due stale upd d r d' :
  table_wf (rows d) -> ClaimDue locked limit due stale upd d = (r, d') ->
  match r with
  | inr entries => forall e, e ∈ entries -> exists o,
      e = set_claimed upd o /\ rows d !! ob_ID e = Some o /\ rows d' !! ob_ID e = Some e
  | inl _ => True
  end.
Proof.
  intros Hwf Hrun. destruct r as [|entries]; [done|].
  destruct (ClaimDue_outcome _ _ _ _ _ _ _ _ Hwf Hrun) as (sel & -> & _ & _ & _ & Hsel & _).
  intros e (o & -> & Ho)%list_elem_of_fmap. exists o.
  destruct (Hsel _ Ho) as (Hrow & _ & _ & Hrow'). auto.
Qed.

#[export] Instance mysql_store_laws : CommandStoreLaws replica.
Proof.
  split.
  - intros s id o Hok. apply (wf_id _ Hok).
  - intros o s r s' Hok Hrun. cbn in Hrun. unfold on_db in Hrun.
    destruct (Insert o (rp_db s)) as [r0 d'] eqn:Hm. injection Hrun as -> <-. cbn.
    split; [exact (run_ostep_keeps_wf (OInsert o) _ _ _ Hm Hok)|].
    split; [exact (run_ostep_evolves (OInsert o) _ _ _ Hm)|]. exact (Insert_outcome _ _ _ _ Hm).
  - intros org key s r s' Hok Hrun. cbn in Hrun. unfold on_db in Hrun.
    destruct (GetByIdempotency org key (rp_db s)) as [r0 d'] eqn:Hm. injection Hrun as -> <-. cbn.
    destruct (GetByIdempotency_outcome _ _ _ _ _ Hok Hm) as [-> Hr]. split; [exact Hok|].
    split; [reflexivity | done].
  - intros limit due stale upd s r s' Hok Hrun. cbn in Hrun.
    destruct (ClaimDue _ _ _ _ _ _) as [r0 d'] eqn:Hm. injection Hrun as -> <-. cbn.
    assert (Hstep : exists r1, run_ostep (OClaimDue (default ∅ (head (rp_locked s))) limit due stale upd)
                                 (rp_db s) = (r1, d')).
    { cbn. unfold mbind, M_bind. rewrite Hm. destruct r; eauto. }
    destruct Hstep as [r1 Hstep].
    split; [exact (run_ostep_keeps_wf _ _ _ _ Hstep Hok)|].
    split; [exact (run_ostep_evolves _ _ _ _ Hstep)|]. exact (claim_outcome _ _ _ _ _ _ _ _ Hok Hm).
  - intros. apply (on_db_law _ (OReschedule id stamp note next upd)); [done|].
    intros d r d' _. apply fenced_outcome.
  - intros. apply (on_db_law _ (OMark id stamp)); [done|]. intros d r d' _. apply fenced_outcome.
  - intros. apply (on_db_law _ (OClear id stamp)); [done|]. intros d r d' _. apply fenced_outcome.
  - intros. apply (on_db_law _ (OAcknowledge id stamp waID at_)); [done|].
    intros d r d' _. apply fenced_outcome.
  - intros. apply (on_db_law _ (OComplete id stamp status waID note upd)); [done|].
    intros d r d' _. apply CompleteOwned_outcome.
Qed.
End Instance_.
