(* ===== verification/Scheduler.v ===== *)
(** * The durable send pipeline

    Models [internal/service/outbound_scheduler.go]: the synchronous and
    asynchronous front doors ([Send], [ExecuteOp]), the idempotency lookup, the
    worker that claims due commands and the dispatch that drives a leased
    command to a terminal row or to its next attempt.

    The scheduler runs over a command store ([CommandStore]) and an environment
    of which every call is a parameter: the clock, the session source, the rate
    limiter, the private engine, the projections. Before each of the
    scheduler's store operations [others] lets every other replica act on the
    store. A world records, next to store and environment, the last reading of
    the clock and the log of what the scheduler did. A Go function that returns
    a result and a nil error returns it here; one that returns an error throws
    it (the result is the zero value in every such return, engine calls apart). *)

From S2P Require Import Prelude Journal Domain OutboxStore Outbound CommandStore.

#[local] Open Scope Z_scope.

(** ** application/gateway_engine.go *)

Record SendCommand := MkSendCommand {
  sc_CommandID : string;
  sc_OrganizationID : string;
  sc_SessionID : string;
  sc_AssignmentEpoch : Z;
  sc_Payload : SendRequest;
  sc_ExpiresAt : option Z;
}.

Record MessageOpCommand := MkMessageOpCommand {
  oc_CommandID : string;
  oc_OrganizationID : string;
  oc_SessionID : string;
  oc_Op : string;
  oc_ChatJID : string;
  oc_SenderJID : string;
  oc_MessageID : string;
  oc_Emoji : string;
  oc_NewText : string;
  oc_Options : list string;
  oc_ToJID : string;
  oc_ExpiresAt : option Z;
}.

(** [SendMessageResult]; a [MessageOpResult] has no prepared payload. *)
Record SendMessageResult := MkSendMessageResult {
  sm_WAMessageID : string;
  sm_SentAt : GoTime;
  sm_PreparedPayload : option SendRequest;
}.

Record MessageOpResult := MkMessageOpResult { mo_SentAt : GoTime; mo_WAMessageID : string }.

(** ** The projections of a sent message *)

Record MediaMeta := MkMediaMeta { mm_Mimetype : string; mm_Size : Z; mm_Filename : string }.

Record SentMessage := MkSentMessage {
  sent_SessionID : string;
  sent_WAMessageID : string;
  sent_ChatJID : string;
  sent_Type : string;
  sent_Body : string;
  sent_ReplyTo : string;
  sent_Mentions : list string;
  sent_HasMedia : bool;
  sent_MediaMeta : option MediaMeta;
  sent_PollOptions : list string;
  sent_PollSelectableCount : Z;
  sent_PollEndTime : Z;
  sent_PollHideVotes : bool;
  sent_TimestampMs : Z;
}.

Record MentionData := MkMentionData { md_PushName : string; md_Tag : string }.
Record PollData := MkPollData {
  pd_Name : string; pd_Options : list string; pd_SelectableCount : Z; pd_EndTime : Z;
  pd_HideVotes : bool;
}.
Record LocationData := MkLocationData {
  ld_Latitude : spec_float; ld_Longitude : spec_float; ld_Name : string; ld_Address : string;
}.
Record ContactData := MkContactData { cd_DisplayName : string; cd_VCard : string }.

(** The fields of [apitypes.MessagePayload] a sent message fills. *)
Record MessagePayload := MkMessagePayload {
  pl_WAMessageID : string;
  pl_ChatJID : string;
  pl_FromMe : bool;
  pl_Type : string;
  pl_Body : string;
  pl_QuotedMessageID : string;
  pl_HasMedia : bool;
  pl_Timestamp : Z;
  pl_Mentions : gmap string MentionData;
  pl_Poll : option PollData;
  pl_Location : option LocationData;
  pl_Contact : option ContactData;
}.

(** ** The durable encoding of message operations *)

Record opPayload := MkOpPayload {
  op_Type : string;
  op_ExpiresAt : option Z;
  op_Chat : string;
  op_Sender : string;
  op_MsgID : string;
  op_Emoji : string;
  op_NewText : string;
  op_Options : list string;
  op_To : string;
}.

Definition opRequestToPayload (req : OpRequest) : opPayload :=
  MkOpPayload (or_Op req) (or_ExpiresAt req) (or_Chat req) (or_Sender req) (or_MsgID req)
    (or_Emoji req) (or_NewText req) (or_Options req) (or_To req).

Definition toOpRequest (p : opPayload) : OpRequest :=
  MkOpRequest (op_Type p) (op_ExpiresAt p) "" (op_Chat p) (op_Sender p) (op_MsgID p)
    (op_Emoji p) (op_NewText p) (op_Options p) (op_To p).

Definition isOpType (t : string) : bool :=
  bool_decide (t ∈ [OpReaction; OpEdit; OpRevoke; OpVote; OpForward]).

(** [encoding/json] on the two payload types, and the wire form of the event
    payload. *)
Class SendCodec := {
  marshal_send : SendRequest -> goerr + bytes;
  unmarshal_send : bytes -> goerr + SendRequest;
  marshal_op : opPayload -> goerr + bytes;
  unmarshal_op : bytes -> goerr + opPayload;
  payload_json : MessagePayload -> json;
}.

(** A string JSON keeps: valid UTF-8, every rune one byte of ASCII or a longer
    sequence. *)
Definition utf8_valid (s : string) : bool :=
  forallb (fun r => match r with [b] => N.ltb b 128 | _ => true end) (runes s).

Definition op_strings (p : opPayload) : list string :=
  [op_Type p; op_Chat p; op_Sender p; op_MsgID p; op_Emoji p; op_NewText p; op_To p] ++ op_Options p.

(** What is decoded is what was encoded; decoding an operation as a request
    reads its [type] field. *)
Class SendCodecLaws (J : SendCodec) : Prop := {
  op_decodes p b : forallb utf8_valid (op_strings p) = true -> marshal_op p = inr b ->
    unmarshal_op b = inr p;
}.

(** ** Pure helpers *)

Definition isMediaType (t : string) : bool :=
  bool_decide (t ∈ [SendTypeImage; SendTypeVideo; SendTypeAudio; SendTypeDocument; SendTypeSticker]).

Definition outboundBody (req : SendRequest) : string :=
  if bool_decide (sr_Type req ∈ [SendTypeText; SendTypeButtons; SendTypeList]) then sr_Text req
  else if bool_decide (sr_Type req ∈ [SendTypePoll; SendTypeLocation]) then sr_Name req
  else if bool_decide (sr_Type req = SendTypeAlbum) then sr_Caption req
  else match sr_Media req with
       | Some m => if isMediaType (sr_Type req) then mp_Caption m else ""
       | None => ""
       end.

(** [base64.StdEncoding.DecodedLen]. *)
Definition approxDecodedLen (b64 : string) : Z := slen b64 / 4 * 3.

Definition outboundMedia (req : SendRequest) : option MediaMeta * bool :=
  if bool_decide (sr_Type req = SendTypeAlbum) then (None, true)
  else match isMediaType (sr_Type req), sr_Media req with
       | true, Some m =>
           let size := if blank (mp_Data m) then 0 else approxDecodedLen (mp_Data m) in
           (Some (MkMediaMeta (mp_Mimetype m) size (mp_Filename m)), true)
       | _, _ => (None, false)
       end.

Definition optionalString (value : string) : option string :=
  if bool_decide (value = "") then None else Some value.

Definition replayOutboxResult `{OutboundLib} `{SendCodec} (e : OutboxEntry) : SendResult :=
  let reserved := match unmarshal_send (ob_Payload e) with
                  | inr req => if negb (bool_decide (sr_Type req = "")) && negb (isOpType (sr_Type req))
                               then ReservedMessageIDs (ob_ID e) req else []
                  | inl _ => []
                  end in
  let r mode waID status ts := MkSendResult mode waID reserved status ts (ob_ID e) true in
  match ob_Status e with
  | OutboxSent => r ModeSync (default "" (ob_WAMessageID e)) (Some MessageSent) (ob_UpdatedAt e)
  | OutboxFailed => r ModeSync "" (Some MessageFailed) 0
  | OutboxUnknown => r ModeSync "" (Some MessageUnknown) 0
  | _ => r ModeAsync "" None 0
  end.

(** [backoff] of [ambiguous]: a shift on int64, capped. *)
Definition backoff (base cap attempt : Z) : Z :=
  let b := i64 (Z.shiftl base (attempt - 1)) in
  if (cap <? b) || (b <=? 0) then cap else b.

(** ** The scheduler and its environment *)

Section Types.
Context {E : Type}.

Record OutboundSchedulerConfig := MkConfig {
  cfg_Lease : Z;
  cfg_Batch : Z;
  cfg_Poll : Z;
  cfg_MaxAttempts : Z;
  cfg_BackoffBase : Z;
  cfg_BackoffCap : Z;
  cfg_Now : option (E -> GoTime * E);
}.

(** [outboundEngine]. *)
Record Engine := MkEngine {
  SendMessage : SendCommand -> E -> (SendMessageResult * option goerr) * E;
  EngineExecuteOp : MessageOpCommand -> E -> (MessageOpResult * option goerr) * E;
}.

(** [sch_now] is the clock of a validated configuration. *)
Record OutboundScheduler := MkOutboundScheduler {
  sch_sessions : string -> M E WASession;
  sch_engine : Engine;
  sch_limiter : string -> Z -> Z -> M E (bool * Z);
  sch_recorder : option (SentMessage -> M E unit);
  sch_captureMedia : option (string -> string -> string -> SendRequest -> M E unit);
  sch_publishSent : option (Event -> M E unit);
  sch_cfg : OutboundSchedulerConfig;
  sch_now : E -> GoTime * E;
}.

Definition normalize (c : OutboundSchedulerConfig) : option goerr :=
  let fail (cond : bool) msg (rest : option goerr) := if cond then Some (ErrMsg msg) else rest in
  fail (cfg_Lease c <=? 0) "outbound scheduler lease must be positive" (
  fail (cfg_Batch c <=? 0) "outbound scheduler batch must be positive" (
  fail (cfg_Poll c <=? 0) "outbound scheduler poll must be positive" (
  fail (cfg_MaxAttempts c <=? 0) "outbound scheduler max attempts must be positive" (
  fail ((cfg_BackoffBase c <=? 0) || (cfg_BackoffCap c <? cfg_BackoffBase c))
    "outbound scheduler backoff base/cap invalid" (
  fail (is_none (cfg_Now c)) "outbound scheduler clock is required" None))))).

Definition NewOutboundScheduler (sessions : option (string -> M E WASession))
  (engine : option Engine) (limiter : option (string -> Z -> Z -> M E (bool * Z)))
  (cfg : OutboundSchedulerConfig) : goerr + OutboundScheduler :=
  match sessions, engine with
  | Some sessions, Some engine =>
      match limiter with
      | None => inl (ErrMsg "outbound scheduler rate limiter is required")
      | Some limiter =>
          match normalize cfg, cfg_Now cfg with
          | Some err, _ => inl err
          | None, None => inl (ErrMsg "outbound scheduler clock is required")
          | None, Some now =>
              inr (MkOutboundScheduler sessions engine limiter None None None cfg now)
          end
      end
  | _, _ => inl (ErrMsg "outbound scheduler dependencies are required")
  end.

Definition SetMediaCapture capture (s : OutboundScheduler) : OutboundScheduler :=
  MkOutboundScheduler (sch_sessions s) (sch_engine s) (sch_limiter s) (sch_recorder s)
    capture (sch_publishSent s) (sch_cfg s) (sch_now s).

Definition SetMessageRecorder recorder (s : OutboundScheduler) : OutboundScheduler :=
  match recorder with
  | Some _ => MkOutboundScheduler (sch_sessions s) (sch_engine s) (sch_limiter s) recorder
                (sch_captureMedia s) (sch_publishSent s) (sch_cfg s) (sch_now s)
  | None => s
  end.

Definition SetSentEventPublisher publish (s : OutboundScheduler) : OutboundScheduler :=
  MkOutboundScheduler (sch_sessions s) (sch_engine s) (sch_limiter s) (sch_recorder s)
    (sch_captureMedia s) publish (sch_cfg s) (sch_now s).
End Types.
Arguments OutboundSchedulerConfig E : clear implicits.
Arguments Engine E : clear implicits.
Arguments OutboundScheduler E : clear implicits.

(** What the rest of the process and of the deployment does: identifiers, the
    wall clock, and the steps of the other replicas between two of ours. *)
Class Runtime (S E : Type) := {
  NewULID : E -> string * E;
  NewEventID : E -> string * E;
  NowMs : E -> Z * E;
  others : S * E -> S * E;
}.

(** The scheduler's log: each action with the command rows and the clock
    reading it was taken under. *)
Inductive action :=
  | ASend (cmd : SendCommand) (reply : SendMessageResult * option goerr)
  | AOp (cmd : MessageOpCommand) (reply : MessageOpResult * option goerr)
  | ACapture (waID : string) (req : SendRequest) (r : goerr + unit)
  | ARecord (m : SentMessage) (r : goerr + unit)
  | APublish (ev : Event) (r : goerr + unit)
  | AReschedule (id : string) (stamp : Z) (note : string) (nextAttemptAt updatedAt : Z)
  | AComplete (id : string) (stamp : Z) (status : OutboxStatus) (waID note : option string).

Record logged := Logged { lg_rows : otable; lg_clock : GoTime; lg_act : action }.

Record world (S E : Type) := World {
  w_store : S; w_env : E; w_clock : GoTime; w_log : list logged;
}.
Arguments World {S E} _ _ _ _.
Arguments w_store {S E} _.
Arguments w_env {S E} _.
Arguments w_clock {S E} _.
Arguments w_log {S E} _.

Section Scheduler.
Context {S E : Type} `{ST : CommandStore S} `{RT : Runtime S E}.
Context `{L : OutboundLib} `{J : SendCodec}.
Abbreviation W := (world S E).

(** ** Calls *)

Definition on_env {A} (f : E -> A * E) : M W A := fun w =>
  let '(a, e) := f (w_env w) in (inr a, World (w_store w) e (w_clock w) (w_log w)).

Definition call_env {A} (m : M E A) : M W A := fun w =>
  let '(r, e) := m (w_env w) in (r, World (w_store w) e (w_clock w) (w_log w)).

Definition on_store {A} (m : M S A) : M W A := fun w =>
  let '(st, e) := others (w_store w, w_env w) in
  let '(r, st') := m st in (r, World st' e (w_clock w) (w_log w)).

Definition log_action (a : action) : M W unit := fun w =>
  (inr tt, World (w_store w) (w_env w) (w_clock w)
             (Logged (st_rows (w_store w)) (w_clock w) a :: w_log w)).

(** A call to the engine returns both a result and a possibly nil error. *)
Definition call_engine {R} (call : E -> (R * option goerr) * E)
  (act : R * option goerr -> action) : M W (R * option goerr) :=
  reply ← on_env call;
  log_action (act reply);; mret reply.

Definition project (m : M E unit) (act : goerr + unit -> action) : M W unit :=
  r ← attempt (call_env m);
  log_action (act r);; lift_result r.

Context (s : OutboundScheduler E).

Definition now : M W GoTime := fun w =>
  let '(t, e) := sch_now s (w_env w) in (inr t, World (w_store w) e t (w_log w)).

(** ** The lease-fenced updates *)

Definition lease_changed : goerr := ErrConflict "outbox dispatch lease changed".

Definition owned_or_conflict (m : M S bool) : M W unit :=
  owned ← on_store m;
  if (owned : bool) then mret tt else throw lease_changed.

Definition complete (e : OutboxEntry) (status : OutboxStatus) (waID note : option string) (at_ : Z)
  : M W unit :=
  log_action (AComplete (ob_ID e) (ob_UpdatedAt e) status waID note);;
  owned_or_conflict (st_CompleteOwned (ob_ID e) (ob_UpdatedAt e) status waID note at_).

Definition markPossible (e : OutboxEntry) : M W unit :=
  owned_or_conflict (st_MarkDispatchPossible (ob_ID e) (ob_UpdatedAt e)).

Definition clearPossible (e : OutboxEntry) : M W unit :=
  owned_or_conflict (st_ClearDispatchPossible (ob_ID e) (ob_UpdatedAt e)).

Definition recordAck (e : OutboxEntry) (waID : string) (at_ : Z) : M W unit :=
  owned_or_conflict (st_RecordAcknowledgement (ob_ID e) (ob_UpdatedAt e) waID at_).

Definition reschedule (e : OutboxEntry) (note : string) (nextAttemptAt updatedAt : Z) : M W bool :=
  log_action (AReschedule (ob_ID e) (ob_UpdatedAt e) note nextAttemptAt updatedAt);;
  on_store (st_Reschedule (ob_ID e) (ob_UpdatedAt e) note nextAttemptAt updatedAt).

(** ** Expiry and retry *)

Definition expired (e : OutboxEntry) : M W bool :=
  match ob_ExpiresAt e with
  | None => mret false
  | Some x => t ← now; mret (x <=? UnixMilli t)
  end.

Definition expireClaim {A} (e : OutboxEntry) : M W A :=
  let status := if ob_EffectPossible e then OutboxUnknown else OutboxFailed in
  let note := if ob_EffectPossible e
              then "expired after dispatch may have started; remote outcome unknown"
              else "expired before WhatsApp dispatch" in
  t ← now;
  complete e status None (Some note) (UnixMilli t);;
  if bool_decide (status = OutboxUnknown) then throw (ErrUnavailable note)
  else throw (ErrValidation note).

Definition ambiguous {A} (e : OutboxEntry) (cause : string) : M W A :=
  x ← expired e;
  if (x : bool) then expireClaim e else
  let attempt := if ob_Attempts e <=? 0 then 1 else ob_Attempts e in
  let note := cause +:+ " (attempt " +:+ pretty attempt +:+ ")" in
  if cfg_MaxAttempts (sch_cfg s) <=? attempt then
    let status := if ob_EffectPossible e then OutboxUnknown else OutboxFailed in
    let message := (if ob_EffectPossible e then "no definite outcome after "
                    else "no WhatsApp dispatch after ")
                   +:+ pretty attempt +:+ " attempts; last error: " +:+ cause in
    t ← now;
    complete e status None (Some message) (UnixMilli t);;
    throw (ErrMsg note)
  else
    t ← now;
    let next := t + backoff (cfg_BackoffBase (sch_cfg s)) (cfg_BackoffCap (sch_cfg s)) attempt in
    t' ← now;
    reschedule e note (UnixMilli next) (UnixMilli t');;
    throw (ErrMsg note).

Definition deferProjection (e : OutboxEntry) (cause : goerr) : M W SendResult :=
  let note := "acknowledged send awaiting projection: " +:+ error_text cause in
  t ← now;
  t' ← now;
  owned ← reschedule e note (UnixMilli (t + cfg_BackoffBase (sch_cfg s))) (UnixMilli t');
  if (owned : bool) then mret (MkSendResult ModeAsync "" [] None 0 (ob_ID e) false)
  else throw lease_changed.

(** ** The projection of a sent message *)

Definition sent_payload (req : SendRequest) (waMessageID : string) (ts : Z) : MessagePayload :=
  let t := sr_Type req in
  MkMessagePayload waMessageID (sr_To req) true t (outboundBody req) (sr_ReplyTo req)
    (outboundMedia req).2 ts
    (list_to_map ((fun jid => (jid, MkMentionData "" "")) <$> sr_Mentions req))
    (if bool_decide (t = SendTypePoll) then
       Some (MkPollData (sr_Name req) (sr_Options req) (sr_SelectableCount req)
               (sr_PollEndTime req) (sr_PollHideVotes req))
     else None)
    (if bool_decide (t = SendTypeLocation) then
       Some (MkLocationData (sr_Latitude req) (sr_Longitude req) (sr_Name req) "")
     else None)
    (if bool_decide (t = SendTypeContact) then
       (fun c => MkContactData (cc_Name c) (cc_VCard c)) <$> sr_Contact req
     else None).

Definition sent_message (sessionID : string) (req : SendRequest) (waMessageID : string) (ts : Z)
  : SentMessage :=
  MkSentMessage sessionID waMessageID (sr_To req) (sr_Type req) (outboundBody req)
    (sr_ReplyTo req) (sr_Mentions req) (outboundMedia req).2 (outboundMedia req).1
    (sr_Options req) (sr_SelectableCount req) (sr_PollEndTime req) (sr_PollHideVotes req) ts.

Definition recordSent (organizationID sessionID : string) (req : SendRequest) (waMessageID : string)
  (ts : Z) (commandID : string) : M W unit :=
  let missingTarget := bool_decide (waMessageID = "") || bool_decide (sessionID = "") in
  let emptyRequest := bool_decide (sr_Type req = "") && bool_decide (sr_To req = "") in
  match sch_recorder s with
  | None => mret tt
  | Some record =>
      if missingTarget || emptyRequest then mret tt else
      ts ← (if ts =? 0 then on_env NowMs else mret ts);
      let m := sent_message sessionID req waMessageID ts in
      project (record m) (ARecord m);;
      match sch_publishSent s with
      | None => mret tt
      | Some publish =>
          id ← on_env NewEventID;
          nowMs ← on_env NowMs;
          let event := NewEvent id nowMs EventMessageFromMe sessionID organizationID
                         (payload_json (sent_payload req waMessageID ts)) in
          let event := MkEvent (ev_MediaSource event) (ev_Schema event) commandID (ev_Type event)
                         (ev_Session event) (ev_Organization event) ts (ev_Payload event) in
          project (publish event) (APublish event)
      end
  end.

(** ** Dispatch of a leased command *)

(** [entry.AcknowledgedAt == nil && s.expired(entry) && !entry.EffectPossible]. *)
Definition expired_unstarted (e : OutboxEntry) : M W bool :=
  if is_none (ob_AcknowledgedAt e) then
    x ← expired e;
    mret (x && negb (ob_EffectPossible e))
  else mret false.

(** The engine call of an attempt, or the acknowledgement already stored; the
    entry returned carries the effect marker of the local copy. *)
Definition transport {R} (acked : string -> GoTime -> R)
  (call : E -> (R * option goerr) * E) (act : R * option goerr -> action) (e : OutboxEntry)
  : M W (R * option goerr * OutboxEntry) :=
  match ob_AcknowledgedAt e, ob_WAMessageID e with
  | Some at_, Some waID => mret (acked waID (FromUnixMilli at_), None, e)
  | _, _ =>
      (if ob_EffectPossible e then mret tt else markPossible e);;
      reply ← call_engine call act;
      mret (reply, set_effect true e)
  end.

Definition has_code (codes : list string) (err : goerr) : bool :=
  from_option (fun c => bool_decide (c ∈ codes)) false (api_code err).

(** [if err != nil { ... }] after the engine call. *)
Definition settle_error (terminal_codes : list string) (wasPossible : bool) (e : OutboxEntry)
  (err : goerr) (timestamp : Z) : M W SendResult :=
  e ← (if negb wasPossible && is_no_dispatch err
       then clearPossible e;; mret (set_effect false e) else mret e);
  if negb wasPossible && has_code terminal_codes err then
    complete e OutboxFailed None (Some (error_text err)) timestamp;;
    throw err
  else
    x ← expired e;
    if (x : bool) then expireClaim e else ambiguous e (error_text err).

Definition acknowledge (e : OutboxEntry) (waID : string) (timestamp : Z) : M W unit :=
  if is_none (ob_AcknowledgedAt e) then recordAck e waID timestamp else mret tt.

Definition sent_result (e : OutboxEntry) (waID : string) (timestamp : Z) : SendResult :=
  MkSendResult ModeSync waID [] (Some MessageSent) timestamp (ob_ID e) false.

(** The commands handed to the engine. *)
Definition op_command (e : OutboxEntry) (payload : opPayload) : MessageOpCommand :=
  MkMessageOpCommand (ob_ID e) (ob_OrganizationID e) (ob_SessionID e) (op_Type payload)
    (op_Chat payload) (op_Sender payload) (op_MsgID payload) (op_Emoji payload)
    (op_NewText payload) (op_Options payload) (op_To payload) (ob_ExpiresAt e).

Definition send_command (e : OutboxEntry) (req : SendRequest) : SendCommand :=
  MkSendCommand (ob_ID e) (ob_OrganizationID e) (ob_SessionID e) 0 req (ob_ExpiresAt e).

Definition dispatchOp (e : OutboxEntry) (payload : opPayload) : M W SendResult :=
  x ← expired_unstarted e;
  if (x : bool) then expireClaim e else
  let wasPossible := ob_EffectPossible e in
  let cmd := op_command e payload in
  '(result, err, e) ← transport (fun waID at_ => MkMessageOpResult at_ waID)
                        (EngineExecuteOp (sch_engine s) cmd) (AOp cmd) e;
  t ← now;
  let timestamp := if IsZero (mo_SentAt result) then UnixMilli t else UnixMilli (mo_SentAt result) in
  match err with
  | Some err => settle_error [CodeValidationError] wasPossible e err timestamp
  | None =>
      let waID := mo_WAMessageID result in
      acknowledge e waID timestamp;;
      complete e OutboxSent (Some waID) None timestamp;;
      mret (sent_result e waID timestamp)
  end.

(** The session and rate checks of a worker attempt; every refusal throws. *)
Definition check_budget (e : OutboxEntry) (t : GoTime) : M W unit :=
  x ← expired e;
  if (x : bool) then mret tt else
  sess ← attempt (call_env (sch_sessions s (ob_SessionID e)));
  match sess with
  | inl err => ambiguous e ("session lookup: " +:+ error_text err)
  | inr sess =>
      allowed ← attempt (call_env (sch_limiter s (ob_SessionID e) (ws_RatePerMin sess) (ws_RatePerHour sess)));
      match allowed with
      | inl err => ambiguous e ("rate check: " +:+ error_text err)
      | inr (true, _) => mret tt
      | inr (false, retryAfter) =>
          x ← expired e;
          if (x : bool) && negb (ob_EffectPossible e) then expireClaim e else
          reschedule e "rate limited" (UnixMilli (t + retryAfter)) (UnixMilli t);;
          throw (ErrRateLimited "send deferred: rate limit")
      end
  end.

Definition capture (e : OutboxEntry) (waID : string) (req : SendRequest) : M W unit :=
  match sch_captureMedia s with
  | None => mret tt
  | Some f => project (f (ob_OrganizationID e) (ob_SessionID e) waID req) (ACapture waID req)
  end.

Definition dispatchSend (e : OutboxEntry) (req : SendRequest) (checkLimit : bool) : M W SendResult :=
  t ← now;
  (if checkLimit && is_none (ob_AcknowledgedAt e) then check_budget e t else mret tt);;
  x ← expired_unstarted e;
  if (x : bool) then expireClaim e else
  let wasPossible := ob_EffectPossible e in
  let cmd := send_command e req in
  '(result, err, e) ← transport (fun waID at_ => MkSendMessageResult waID at_ None)
                        (SendMessage (sch_engine s) cmd) (ASend cmd) e;
  t ← now;
  let timestamp := if is_none err && negb (IsZero (sm_SentAt result))
                   then UnixMilli (sm_SentAt result) else UnixMilli t in
  match err with
  | Some err => settle_error [CodeValidationError; CodeNotImplemented] wasPossible e err timestamp
  | None =>
      let waID := sm_WAMessageID result in
      acknowledge e waID timestamp;;
      captured ← attempt (capture e waID (default req (sm_PreparedPayload result)));
      match captured with
      | inl err => deferProjection e err
      | inr _ =>
          recorded ← attempt (recordSent (ob_OrganizationID e) (ob_SessionID e) req waID timestamp (ob_ID e));
          match recorded with
          | inl err => deferProjection e err
          | inr _ =>
              complete e OutboxSent (Some waID) None timestamp;;
              mret (sent_result e waID timestamp)
          end
      end
  end.

Definition dispatchClaimed (e : OutboxEntry) (req : SendRequest) (checkLimit : bool) : M W SendResult :=
  x ← expired_unstarted e;
  if (x : bool) then expireClaim e else
  if isOpType (sr_Type req) then
    match unmarshal_op (ob_Payload e) with
    | inl _ =>
        t ← now;
        complete e OutboxFailed None (Some "malformed stored op payload") (UnixMilli t);;
        throw (ErrMsg "malformed stored op payload")
    | inr payload => dispatchOp e payload
    end
  else dispatchSend e req checkLimit.

(** ** The worker *)

Definition process_entry (e : OutboxEntry) : M W unit :=
  match unmarshal_send (ob_Payload e) with
  | inl _ =>
      t ← now;
      attempt (complete e OutboxFailed None (Some "malformed stored payload") (UnixMilli t));; mret tt
  | inr req => attempt (dispatchClaimed e req true);; mret tt
  end.

Definition processDue : M W unit :=
  t ← now;
  let nowMs := UnixMilli t in
  entries ← attempt (on_store (st_ClaimDue (cfg_Batch (sch_cfg s)) nowMs
                        (i64 (nowMs - Z.quot (cfg_Lease (sch_cfg s)) 1000000)) nowMs));
  match entries with
  | inl _ => mret tt
  | inr entries => for_each process_entry entries
  end.

(** The ticks of [Run] before its context ends. *)
Fixpoint Run (ticks : nat) : M W unit :=
  match ticks with
  | O => mret tt
  | Datatypes.S ticks => processDue;; Run ticks
  end.

(** ** The front doors *)

Definition session (organizationID sessionID : string) : M W WASession :=
  sess ← call_env (sch_sessions s sessionID);
  if negb (bool_decide (ws_OrganizationID sess = organizationID))
  then throw (ErrNotFound "session not found")
  else mret sess.

Definition priorByIdempotency (organizationID key : string) : M W (option OutboxEntry) :=
  prior ← attempt (on_store (st_GetByIdempotency organizationID key));
  match prior with
  | inr prior => mret (Some prior)
  | inl err =>
      if bool_decide (api_code err = Some CodeNotFound) then mret None
      else throw (ErrWrap "idempotency lookup" err)
  end.

Definition not_this_session : goerr := ErrNotFound "outbox entry not found".

(** The replay of a prior command, for the session it belongs to. *)
Definition replay (sessionID : string) (prior : OutboxEntry) : M W SendResult :=
  if negb (bool_decide (ob_SessionID prior = sessionID)) then throw not_this_session
  else mret (replayOutboxResult prior).

Definition validateExpiry (expiresAt : option Z) : M W unit :=
  match expiresAt with
  | None => mret tt
  | Some x =>
      t ← now;
      if x <=? UnixMilli t
      then throw (ErrValidation "expiresAt must be a future UTC epoch millisecond")
      else mret tt
  end.

Definition newCommand (sess : WASession) (idempotencyKey : string) (status : OutboxStatus)
  (t : GoTime) (attempts : Z) (expiresAt : option Z) : M W OutboxEntry :=
  id ← on_env NewULID;
  mret (MkOutboxEntry id (ws_OrganizationID sess) (ws_ID sess) (optionalString idempotencyKey)
    [] status attempts 0 expiresAt None false None None None (UnixMilli t) (UnixMilli t)).

Definition insertCommand (e : OutboxEntry) (req : SendRequest) : M W unit :=
  match marshal_send req with
  | inl err => throw (ErrWrap "encode send payload" err)
  | inr payload => on_store (st_Insert (set_payload payload e))
  end.

(** A failed insert is a replay when the key names a command by now. *)
Definition insert_or_replay {A} (insert : M W A) (organizationID sessionID key : string)
  (continue : A -> M W SendResult) : M W SendResult :=
  r ← attempt insert;
  match r with
  | inr a => continue a
  | inl err =>
      if bool_decide (key = "") then throw err else
      prior ← attempt (priorByIdempotency organizationID key);
      match prior with
      | inr (Some prior) => replay sessionID prior
      | _ => throw err
      end
  end.

Definition enqueueAsync (sess : WASession) (req : SendRequest) (opts : SendOptions) : M W SendResult :=
  t ← now;
  e ← newCommand sess (so_IdempotencyKey opts) OutboxQueued t 0 (sr_ExpiresAt req);
  insert_or_replay (insertCommand e req) (ws_OrganizationID sess) (ws_ID sess) (so_IdempotencyKey opts)
    (fun _ => mret (MkSendResult ModeAsync "" (ReservedMessageIDs (ob_ID e) req) None 0 (ob_ID e) false)).

(** The limiter's verdict on a front-door call. *)
Definition check_rate (sess : WASession) : M W unit :=
  '(ok, _) ← map_err (ErrWrap "rate check")
    (call_env (sch_limiter s (ws_ID sess) (ws_RatePerMin sess) (ws_RatePerHour sess)));
  if (ok : bool) then mret tt else throw (ErrRateLimited "send rate limit exceeded").

Definition sendSync (sess : WASession) (req : SendRequest) (opts : SendOptions) : M W SendResult :=
  check_rate sess;;
  validateExpiry (sr_ExpiresAt req);;
  t ← now;
  e ← newCommand sess (so_IdempotencyKey opts) OutboxSending t 1 (sr_ExpiresAt req);
  insert_or_replay (insertCommand e req) (ws_OrganizationID sess) (ws_ID sess) (so_IdempotencyKey opts)
    (fun _ =>
      r ← dispatchClaimed e req false;
      mret (MkSendResult (r_Mode r) (r_WAMessageID r) (ReservedMessageIDs (ob_ID e) req)
              (r_Status r) (r_Timestamp r) (ob_ID e) (r_Replayed r))).

(** The idempotency check both front doors start with. *)
Definition unless_replayed (organizationID sessionID key : string) (k : M W SendResult)
  : M W SendResult :=
  prior ← (if bool_decide (key = "") then mret None else priorByIdempotency organizationID key);
  match prior with
  | Some prior => replay sessionID prior
  | None => k
  end.

Definition Send (organizationID sessionID : string) (req : SendRequest) (opts : SendOptions)
  : M W SendResult :=
  match Validate req with
  | Some err => throw err
  | None =>
      sess ← session organizationID sessionID;
      unless_replayed organizationID sessionID (so_IdempotencyKey opts) (
        validateExpiry (sr_ExpiresAt req);;
        if so_Async opts then enqueueAsync sess req opts else sendSync sess req opts)
  end.

Definition LookupByIdempotency (organizationID sessionID key : string) : M W SendResult :=
  if bool_decide (key = "") then throw (ErrValidation "key is required") else
  session organizationID sessionID;;
  prior ← priorByIdempotency organizationID key;
  match prior with
  | Some e => replay sessionID e
  | None => throw not_this_session
  end.

Definition ExecuteOp (organizationID sessionID : string) (req : OpRequest) : M W SendResult :=
  match ValidateOp req with
  | Some err => throw err
  | None =>
      sess ← session organizationID sessionID;
      unless_replayed organizationID sessionID (or_IdempotencyKey req) (
        validateExpiry (or_ExpiresAt req);;
        check_rate sess;;
        validateExpiry (or_ExpiresAt req);;
        t ← now;
        e ← newCommand sess (or_IdempotencyKey req) OutboxSending t 1 (or_ExpiresAt req);
        match marshal_op (opRequestToPayload req) with
        | inl err => throw (ErrWrap "encode op payload" err)
        | inr payload =>
            let e := set_payload payload e in
            insert_or_replay (on_store (st_Insert e)) organizationID sessionID (or_IdempotencyKey req)
              (fun _ => dispatchClaimed e (blank_request (or_Op req) "") false)
        end)
  end.

End Scheduler.
