(* ===== verification/SchedulerSpec.v ===== *)
(** * What the send pipeline guarantees

    The theorems about [Scheduler], over any command store with the laws of
    [CommandStoreLaws] and any environment whose other replicas follow them
    too ([RuntimeLaws]). *)

From S2P Require Import Prelude Journal Domain OutboxStore Outbound CommandStore Scheduler.

#[local] Open Scope Z_scope.

(** The other replicas keep the table well-formed and its rows evolving. *)
Class RuntimeLaws (S E : Type) `{CommandStore S} `{Runtime S E} : Prop := {
  others_ok st e : st_ok st ->
    st_ok (others (st, e)).1 /\ evolves (st_rows st) (st_rows (others (st, e)).1);
}.

Section Spec.
Context {S E : Type} `{ST : CommandStore S} `{RT : !Runtime S E}.
Context `{SL : !CommandStoreLaws S} `{RL : !RuntimeLaws S E}.
Context `{L : OutboundLib} `{J : SendCodec}.
Abbreviation W := (world S E).

Definition wrows (w : W) : otable := st_rows (w_store w).
Definition sound (w : W) : Prop := st_ok (w_store w).

(** ** Table safety of every operation *)

(** The table stays well-formed and its rows evolve. *)
Definition safe (w w' : W) : Prop := sound w -> sound w' /\ evolves (wrows w) (wrows w').

#[local] Instance safe_preorder : PreOrder safe.
Proof.
  unfold safe. split.
  - intros w H. split; [done | reflexivity].
  - intros a b c Hab Hbc Ha. destruct (Hab Ha) as [Hb E1], (Hbc Hb) as [Hc E2].
    split; [done | by etransitivity].
Qed.

(** ... and nothing is logged. *)
Definition quiet (w w' : W) : Prop := safe w w' /\ w_log w' = w_log w.

#[local] Instance quiet_preorder : PreOrder quiet.
Proof.
  unfold quiet. split.
  - intros w. split; reflexivity.
  - intros a b c [? ?] [? ?]. split; [by etransitivity | congruence].
Qed.

Lemma on_store_quiet {A} (m : M S A) post : op_law m post -> respects quiet (on_store m).
Proof.
  intros Hm w r w' Hrun. unfold on_store in Hrun. destruct (others _) as [st e] eqn:Ho.
  destruct (m st) as [r0 st'] eqn:Em. injection Hrun as _ <-. split; [|done].
  intros Hw. pose proof (others_ok (w_store w) (w_env w) Hw) as Hoth. rewrite Ho in Hoth.
  destruct Hoth as [Hok Hev]. destruct (Hm _ _ _ Hok Em) as (Hok' & Hev' & _).
  split; [exact Hok' | by transitivity (st_rows st)].
Qed.

Lemma on_env_quiet {A} (f : E -> A * E) : respects quiet (on_env f : M W A).
Proof.
  intros w r w' Hrun. unfold on_env in Hrun. destruct (f _). injection Hrun as _ <-.
  split; [|done]. intros ?. split; [done | reflexivity].
Qed.

Lemma call_env_quiet {A} (m : M E A) : respects quiet (call_env m : M W A).
Proof.
  intros w r w' Hrun. unfold call_env in Hrun. destruct (m _). injection Hrun as _ <-.
  split; [|done]. intros ?. split; [done | reflexivity].
Qed.

Section Sch.
Context (s : OutboundScheduler E).

Lemma now_quiet : respects quiet (now s : M W GoTime).
Proof.
  intros w r w' Hrun. unfold now in Hrun. destruct (sch_now _ _). injection Hrun as _ <-.
  split; [|done]. intros ?. split; [done | reflexivity].
Qed.

Lemma mark_quiet id stamp : respects quiet (on_store (st_MarkDispatchPossible id stamp)).
Proof. eapply on_store_quiet, law_Mark. Qed.
Lemma clear_quiet id stamp : respects quiet (on_store (st_ClearDispatchPossible id stamp)).
Proof. eapply on_store_quiet, law_Clear. Qed.
Lemma ack_quiet id stamp waID a : respects quiet (on_store (st_RecordAcknowledgement id stamp waID a)).
Proof. eapply on_store_quiet, law_Acknowledge. Qed.
Lemma complete_quiet id stamp status waID note a :
  respects quiet (on_store (st_CompleteOwned id stamp status waID note a)).
Proof. eapply on_store_quiet, law_Complete. Qed.
Lemma resched_quiet id stamp note next upd :
  respects quiet (on_store (st_Reschedule id stamp note next upd)).
Proof. eapply on_store_quiet, law_Reschedule. Qed.
Lemma insert_quiet o : respects quiet (on_store (st_Insert o)).
Proof. eapply on_store_quiet, law_Insert. Qed.
Lemma get_quiet org key : respects quiet (on_store (st_GetByIdempotency org key)).
Proof. eapply on_store_quiet, law_GetByIdempotency. Qed.
Lemma claim_quiet limit due stale upd : respects quiet (on_store (st_ClaimDue limit due stale upd)).
Proof. eapply on_store_quiet, law_ClaimDue. Qed.
Hint Resolve on_env_quiet call_env_quiet now_quiet mark_quiet clear_quiet ack_quiet complete_quiet
  resched_quiet insert_quiet get_quiet claim_quiet : golib.

(** Programs built from quiet calls are quiet. *)
Ltac quiet_run :=
  repeat first
    [ progress intros
    | solve [eauto with golib typeclass_instances]
    | apply respects_bind; [apply _| |]
    | match goal with |- respects _ (if ?b then _ else _) => destruct b end
    | match goal with |- respects _ (match ?x with _ => _ end) => destruct x end ].

Lemma owned_quiet m post : op_law m post -> respects quiet (owned_or_conflict m).
Proof.
  intros Hm. unfold owned_or_conflict. apply respects_bind; [apply _ | by eapply on_store_quiet|].
  quiet_run.
Qed.
Lemma markPossible_quiet e : respects quiet (markPossible e).
Proof. eapply owned_quiet, law_Mark. Qed.
Lemma clearPossible_quiet e : respects quiet (clearPossible e).
Proof. eapply owned_quiet, law_Clear. Qed.
Lemma recordAck_quiet e waID a : respects quiet (recordAck e waID a).
Proof. eapply owned_quiet, law_Acknowledge. Qed.
Lemma expired_quiet e : respects quiet (expired s e).
Proof. unfold expired. quiet_run. Qed.
Lemma session_quiet org id : respects quiet (session s org id).
Proof. unfold session. quiet_run. Qed.
Lemma prior_quiet org key : respects quiet (priorByIdempotency org key).
Proof. unfold priorByIdempotency. quiet_run. Qed.
Lemma validateExpiry_quiet x : respects quiet (validateExpiry s x).
Proof. unfold validateExpiry. quiet_run. Qed.
Lemma newCommand_quiet sess key status t n x : respects quiet (newCommand sess key status t n x).
Proof. unfold newCommand. quiet_run. Qed.
Lemma check_rate_quiet sess : respects quiet (check_rate s sess).
Proof. unfold check_rate. quiet_run. Qed.
Lemma insertCommand_quiet e req : respects quiet (insertCommand e req).
Proof. unfold insertCommand. quiet_run. Qed.
Lemma acknowledge_quiet e waID t : respects quiet (acknowledge e waID t).
Proof. pose proof recordAck_quiet. unfold acknowledge. quiet_run. Qed.
Lemma expired_unstarted_quiet e : respects quiet (expired_unstarted s e).
Proof. pose proof expired_quiet. unfold expired_unstarted. quiet_run. Qed.
Lemma replay_quiet id prior : respects quiet (replay id prior : M W SendResult).
Proof. unfold replay. quiet_run. Qed.
Hint Resolve markPossible_quiet clearPossible_quiet recordAck_quiet expired_quiet session_quiet
  prior_quiet validateExpiry_quiet newCommand_quiet check_rate_quiet insertCommand_quiet
  acknowledge_quiet expired_unstarted_quiet replay_quiet : golib.

(** ** Triples about the log *)

Definition on_log (F : list logged -> Prop) (w : W) : Prop := sound w /\ F (w_log w).

Lemma quiet_triple {A} F (m : M W A) :
  respects quiet m -> triple (on_log F) m (fun _ => on_log F) (on_log F).
Proof.
  intros Hm. apply (triple_respects _ _ _ _ _ Hm). intros w w' [Hw HF] [Hs Hl].
  assert (on_log F w') by (unfold on_log; rewrite Hl; split; [by apply Hs | done]). auto.
Qed.

Lemma log_triple F F' X a :
  (forall x l, lg_act x = a -> F l -> F' (x :: l)) ->
  triple (on_log F) (log_action a : M W unit) (fun _ => on_log F') X.
Proof. intros H w r w' [Hw HF] [= <- <-]. split; [done|]. by apply H. Qed.

Lemma complete_triple F F' e status waID note a :
  (forall x l, lg_act x = AComplete (ob_ID e) (ob_UpdatedAt e) status waID note -> F l -> F' (x :: l)) ->
  triple (on_log F) (complete e status waID note a) (fun _ => on_log F') (on_log F').
Proof.
  intros H. unfold complete. eapply triple_bind; [by apply log_triple|]. intros ?.
  apply quiet_triple. eapply owned_quiet, law_Complete.
Qed.

Lemma reschedule_triple F F' e note next upd :
  (forall x l, lg_act x = AReschedule (ob_ID e) (ob_UpdatedAt e) note next upd -> F l -> F' (x :: l)) ->
  triple (on_log F) (reschedule e note next upd) (fun _ => on_log F') (on_log F').
Proof.
  intros H. unfold reschedule. eapply triple_bind; [by apply log_triple|]. intros ?.
  apply quiet_triple. eauto with golib.
Qed.

Lemma now_triple F : triple (on_log F) (now s) (fun _ => on_log F) (on_log F).
Proof. apply quiet_triple, now_quiet. Qed.

(** A program that only throws, after one action. *)
Lemma throws_triple {A} F F' (m : M W unit) (e : goerr) :
  triple (on_log F) m (fun _ => on_log F') (on_log F') ->
  triple (on_log F) (m;; throw e : M W A) (fun _ _ => False) (on_log F').
Proof. intros Hm. eapply triple_bind; [exact Hm|]. intros ?. by apply triple_throw. Qed.

(** ** The audit of a dispatch *)

Definition is_call (a : action) : bool :=
  match a with ASend _ _ | AOp _ _ => true | _ => false end.

Definition reply_error (a : action) : option goerr :=
  match a with ASend _ r => r.2 | AOp _ r => r.2 | _ => None end.

Definition called (a : action) : option (string * string * option Z) :=
  match a with
  | ASend c _ => Some (sc_CommandID c, sc_SessionID c, sc_ExpiresAt c)
  | AOp c _ => Some (oc_CommandID c, oc_SessionID c, oc_ExpiresAt c)
  | _ => None
  end.

Definition uncalled (l : list logged) : Prop := forall y, y ∈ l -> is_call (lg_act y) = false.

(** The engine's answer proves that nothing was sent: the call was not made, or
    it was rejected for good. *)
Definition nothing_sent (err : goerr) : bool :=
  is_no_dispatch err || has_code [CodeValidationError; CodeNotImplemented] err.

(** The engine may be called: once per attempt, never for an acknowledged
    command, and for the first dispatch of a command only under its lease with
    the effect marker stored, before its deadline. *)
Definition call_ok (e : OutboxEntry) (x : logged) (pre : list logged) : Prop :=
  uncalled pre /\
  (ob_AcknowledgedAt e = None \/ ob_WAMessageID e = None) /\
  (ob_EffectPossible e = false ->
     (exists o, lg_rows x !! ob_ID e = Some o /\ owned_by (ob_UpdatedAt e) o = true /\
        ob_EffectPossible o = true) /\
     (ob_AcknowledgedAt e = None -> forall d, ob_ExpiresAt e = Some d -> UnixMilli (lg_clock x) < d)).

(** The command may be recorded as definitely not sent. *)
Definition failure_ok (e : OutboxEntry) (pre : list logged) : Prop :=
  (exists err, unmarshal_op (ob_Payload e) = inl err) \/
  (ob_EffectPossible e = false /\
   forall y, y ∈ pre -> is_call (lg_act y) = true ->
     exists err, reply_error (lg_act y) = Some err /\ nothing_sent err = true).

Definition audit1 (e : OutboxEntry) (x : logged) (pre : list logged) : Prop :=
  match lg_act x with
  | AComplete id stamp status _ _ =>
      id = ob_ID e /\ stamp = ob_UpdatedAt e /\ (status = OutboxFailed -> failure_ok e pre)
  | AReschedule id stamp _ _ _ => id = ob_ID e /\ stamp = ob_UpdatedAt e
  | ASend _ _ | AOp _ _ =>
      called (lg_act x) = Some (ob_ID e, ob_SessionID e, ob_ExpiresAt e) /\ call_ok e x pre
  | _ => True
  end.

(** Every entry of the log, newest first, with the ones before it. *)
Fixpoint audited (P : logged -> list logged -> Prop) (l : list logged) : Prop :=
  match l with
  | [] => True
  | x :: l => P x l /\ audited P l
  end.

Lemma audited_elem P l post x pre : audited P l -> l = post ++ x :: pre -> P x pre.
Proof.
  revert l. induction post as [|y post IH]; intros l Hl ->; [apply Hl|].
  destruct Hl as [_ Hl]. exact (IH _ Hl eq_refl).
Qed.

Definition clean (e : OutboxEntry) : list logged -> Prop := audited (audit1 e).

(** The local copy of the entry. *)
Definition same_lease (e e' : OutboxEntry) : Prop :=
  ob_ID e' = ob_ID e /\ ob_UpdatedAt e' = ob_UpdatedAt e.

Lemma complete_clean F e e' status waID note a :
  same_lease e e' ->
  (forall l, F l -> clean e l /\ (status = OutboxFailed -> failure_ok e l)) ->
  triple (on_log F) (complete e' status waID note a) (fun _ => on_log (clean e)) (on_log (clean e)).
Proof.
  intros [Hid Hst] HF. apply complete_triple. intros x l Hx [Hc Hf]%HF. split; [|exact Hc].
  unfold audit1. rewrite Hx. auto.
Qed.

Lemma reschedule_clean e e' note next upd :
  same_lease e e' ->
  triple (on_log (clean e)) (reschedule e' note next upd) (fun _ => on_log (clean e)) (on_log (clean e)).
Proof.
  intros [Hid Hst]. apply reschedule_triple. intros x l Hx Hc. split; [|exact Hc].
  unfold audit1. by rewrite Hx.
Qed.

(** What allows [expireClaim] and [ambiguous] to record their verdict. *)
Definition verdict_ok (e e' : OutboxEntry) (l : list logged) : Prop :=
  clean e l /\ (ob_EffectPossible e' = false -> failure_ok e l).

Lemma on_log_weaken (F F' : list logged -> Prop) :
  (forall l, F l -> F' l) -> forall w, on_log F w -> on_log F' w.
Proof. intros H w [Hw HF]. split; auto. Qed.

Lemma verdict_clean e e' l : verdict_ok e e' l -> clean e l.
Proof. by intros [? _]. Qed.
Hint Resolve on_log_weaken verdict_clean : golib.

(** A quiet call inside a program whose failures end in [clean]. *)
Lemma quiet_clean {A} F e (m : M W A) :
  respects quiet m -> (forall l, F l -> clean e l) ->
  triple (on_log F) m (fun _ => on_log F) (on_log (clean e)).
Proof.
  intros Hm HF. eapply triple_weaken; [by apply (quiet_triple F) | done | done |].
  by apply on_log_weaken.
Qed.

Lemma expireClaim_clean {A} e e' :
  same_lease e e' ->
  triple (on_log (verdict_ok e e')) (expireClaim s e' : M W A) (fun _ _ => False) (on_log (clean e)).
Proof.
  intros Hs. unfold expireClaim.
  eapply triple_bind; [apply quiet_clean; [apply now_quiet | apply verdict_clean]|].
  intros t. eapply triple_bind.
  - apply (complete_clean (verdict_ok e e') e); [exact Hs|]. intros l [Hc Hf]. split; [done|].
    destruct (ob_EffectPossible e'); [discriminate | auto].
  - intros ?. case_bool_decide; by apply triple_throw.
Qed.

Lemma ambiguous_clean {A} e e' cause :
  same_lease e e' ->
  triple (on_log (verdict_ok e e')) (ambiguous s e' cause : M W A) (fun _ _ => False)
    (on_log (clean e)).
Proof.
  intros Hs. unfold ambiguous.
  eapply triple_bind; [apply quiet_clean; [apply expired_quiet | apply verdict_clean]|].
  intros [|]; [by apply expireClaim_clean|].
  destruct (cfg_MaxAttempts (sch_cfg s) <=? _);
    (eapply triple_bind; [apply quiet_clean; [apply now_quiet | apply verdict_clean]|]; intros t).
  - apply (throws_triple _ (clean e)), complete_clean; [exact Hs|]. intros l [Hc Hf]. split; [done|].
    destruct (ob_EffectPossible e'); [discriminate | auto].
  - eapply triple_bind; [apply quiet_clean; [apply now_quiet | apply verdict_clean]|]. intros t'.
    apply (triple_bind _ _ _ (fun _ => on_log (clean e))); [|intros ?; by apply triple_throw].
    eapply triple_weaken; [by apply (reschedule_clean e e') | | done | done].
    apply on_log_weaken, verdict_clean.
Qed.

(** ** The engine call *)

Definition fresh (e : OutboxEntry) (l : list logged) : Prop := clean e l /\ uncalled l.

(** Every call so far was answered with the error [err]. *)
Definition answered (e : OutboxEntry) (err : goerr) (l : list logged) : Prop :=
  clean e l /\ forall y, y ∈ l -> is_call (lg_act y) = true -> reply_error (lg_act y) = Some err.

Lemma fresh_verdict e l : fresh e l -> verdict_ok e e l.
Proof.
  intros [Hc Hu]. split; [done|]. intros He. right. split; [done|]. intros y Hy Hcall.
  rewrite (Hu y Hy) in Hcall. discriminate.
Qed.

Lemma fresh_clean e l : fresh e l -> clean e l.
Proof. by intros [? _]. Qed.

Definition in_time (e : OutboxEntry) (t : GoTime) : Prop :=
  ob_AcknowledgedAt e = None -> ob_EffectPossible e = false ->
  forall d, ob_ExpiresAt e = Some d -> UnixMilli t < d.

Definition marked (e : OutboxEntry) (t : otable) : Prop :=
  exists o, t !! ob_ID e = Some o /\ owned_by (ob_UpdatedAt e) o = true /\ ob_EffectPossible o = true.

(** Ready to call: nothing called yet, the deadline not reached at the last
    reading of the clock. *)
Definition ready (e : OutboxEntry) (w : W) : Prop := on_log (fresh e) w /\ in_time e (w_clock w).

Lemma ready_clean e w : ready e w -> on_log (clean e) w.
Proof. intros [H _]. revert H. apply on_log_weaken, fresh_clean. Qed.

Lemma mark_triple e :
  triple (ready e) (if ob_EffectPossible e then mret tt else markPossible e : M W unit)
    (fun _ w => ready e w /\ (ob_EffectPossible e = false -> marked e (wrows w))) (on_log (clean e)).
Proof.
  destruct (ob_EffectPossible e); [by apply triple_ret|].
  intros w r w' [[Hw HF] Ht] Hrun. pose proof (markPossible_quiet e _ _ _ Hrun) as [Hsafe Hlog].
  assert (Hlog' : on_log (fresh e) w') by (split; [by apply Hsafe | by rewrite Hlog]).
  destruct r as [err|[]]; [by apply (on_log_weaken _ _ (fresh_clean e))|].
  unfold markPossible, owned_or_conflict in Hrun.
  apply bind_returns in Hrun as ([|] & w1 & Hst & Hret); [injection Hret as <-|discriminate].
  unfold on_store in Hst. pose proof (others_ok (w_store w) (w_env w) Hw) as [Hok _].
  destruct (others _) as [st e0]. cbn [fst] in Hok.
  destruct (st_MarkDispatchPossible _ _ st) as [r0 st'] eqn:Em. injection Hst as -> <-.
  destruct (law_Mark _ _ _ _ _ Hok Em) as (_ & _ & o & Ho & Hown & Ht').
  split; [by split|]. intros _. exists (set_effect true o).
  unfold wrows. cbn [w_store]. rewrite Ht', lookup_insert_eq. done.
Qed.

Lemma call_triple {R} e (call : E -> (R * option goerr) * E) act :
  (forall reply, is_call (act reply) = true /\ reply_error (act reply) = reply.2 /\
     called (act reply) = Some (ob_ID e, ob_SessionID e, ob_ExpiresAt e)) ->
  (ob_AcknowledgedAt e = None \/ ob_WAMessageID e = None) ->
  triple (fun w => ready e w /\ (ob_EffectPossible e = false -> marked e (wrows w)))
    (call_engine call act)
    (fun reply w => match reply.2 with
                    | None => on_log (clean e) w
                    | Some err => on_log (answered e err) w
                    end) (on_log (clean e)).
Proof.
  intros Hact Hack w r w' [[[Hw [Hc Hu]] Ht] Hm] Hrun.
  unfold call_engine, on_env, mbind, M_bind in Hrun. destruct (call _) as [reply e1].
  cbn in Hrun. injection Hrun as <- <-.
  set (x := Logged (st_rows (w_store w)) (w_clock w) (act reply)).
  destruct (Hact reply) as (Hcall & Herr & Hcalled).
  assert (Hx : audit1 e x (w_log w)).
  { assert (Hok : call_ok e x (w_log w)).
    { split; [done|]. split; [done|]. intros He. split; [by apply Hm|]. intros Ha. by apply Ht. }
    unfold audit1. cbn [x lg_act] in *. revert Hcall Hcalled. by destruct (act reply). }
  destruct reply.2 as [err|]; (split; [exact Hw|]); [|by split].
  split; [by split|]. intros y [->|Hy]%elem_of_cons Hyc; [exact Herr|].
  rewrite (Hu y Hy) in Hyc. discriminate.
Qed.

(** The outcome of [transport]. *)
Definition transported {R} (e : OutboxEntry) (out : R * option goerr * OutboxEntry) (w : W) : Prop :=
  let '(_, err, e') := out in
  (same_lease e e' /\ ob_ExpiresAt e' = ob_ExpiresAt e) /\
  match err with
  | None => on_log (clean e) w
  | Some err => ob_EffectPossible e' = true /\ on_log (answered e err) w
  end.

Lemma transport_triple {R} acked e (call : E -> (R * option goerr) * E) act :
  (forall reply, is_call (act reply) = true /\ reply_error (act reply) = reply.2 /\
     called (act reply) = Some (ob_ID e, ob_SessionID e, ob_ExpiresAt e)) ->
  triple (ready e) (transport acked call act e) (transported e) (on_log (clean e)).
Proof.
  intros Hact. unfold transport.
  assert (Hcall : (ob_AcknowledgedAt e = None \/ ob_WAMessageID e = None) ->
    triple (ready e) ((if ob_EffectPossible e then mret tt else markPossible e);;
      reply ← call_engine call act; mret (reply, set_effect true e)) (transported e) (on_log (clean e))).
  { intros Hack. eapply triple_bind; [apply mark_triple|]. intros ?.
    eapply triple_bind; [by apply call_triple|]. intros [res err]. apply triple_ret.
    intros w Hw. split; [done|]. by destruct err. }
  destruct (ob_AcknowledgedAt e) as [a|]; [destruct (ob_WAMessageID e) as [waID|]|]; auto.
  apply triple_ret. intros w Hw. split; [done|]. by apply ready_clean.
Qed.

(** ** A whole attempt *)

Lemma answered_clean e err l : answered e err l -> clean e l.
Proof. by intros [? _]. Qed.

Lemma answered_failure e err l :
  answered e err l -> ob_EffectPossible e = false -> nothing_sent err = true -> failure_ok e l.
Proof. intros [_ Hr] He Hn. right. split; [done|]. intros y Hy Hc. eauto. Qed.

Lemma settle_error_clean codes e e' err timestamp :
  same_lease e e' -> ob_EffectPossible e' = true ->
  (forall c, c ∈ codes -> c ∈ [CodeValidationError; CodeNotImplemented]) ->
  triple (on_log (answered e err)) (settle_error s codes (ob_EffectPossible e) e' err timestamp)
    (fun _ _ => False) (on_log (clean e)).
Proof.
  intros Hs He' Hcodes. unfold settle_error.
  assert (Hterm : has_code codes err = true -> nothing_sent err = true).
  { unfold nothing_sent, has_code. destruct (api_code err) as [c|]; cbn; [|discriminate].
    intros Hc. to_prop. apply orb_true_iff. right. apply bool_decide_eq_true. auto. }
  set (cleared := negb (ob_EffectPossible e) && is_no_dispatch err).
  apply (triple_bind _ _ _ (fun e'' w => (same_lease e e'' /\
    (ob_EffectPossible e'' = false -> ob_EffectPossible e = false /\ nothing_sent err = true)) /\
    on_log (answered e err) w)).
  { destruct cleared eqn:Hcl.
    - eapply triple_bind; [apply quiet_clean; [apply clearPossible_quiet | apply answered_clean]|].
      intros ?. apply triple_ret. intros w Hw. split; [|done]. split; [done|]. intros _.
      unfold cleared in Hcl. to_prop. split; [done|]. unfold nothing_sent. apply orb_true_iff. by left.
    - apply triple_ret. intros w Hw. split; [|done]. split; [done|]. congruence. }
  intros e''. apply triple_pure. intros [Hs'' Heff].
  assert (Hverdict : forall l, answered e err l -> verdict_ok e e'' l).
  { intros l Hl. split; [by eapply answered_clean|]. intros H.
    destruct (Heff H). by eapply answered_failure. }
  destruct (negb (ob_EffectPossible e) && has_code codes err) eqn:Hd.
  - to_prop. apply (throws_triple _ (clean e)), complete_clean; [done|].
    intros l Hl. split; [by eapply answered_clean|]. intros _. eapply answered_failure; eauto.
  - eapply triple_bind; [apply quiet_clean; [apply expired_quiet | apply answered_clean]|].
    intros [|]; (eapply triple_weaken; [first [by apply (expireClaim_clean e) | by apply (ambiguous_clean e)]
      | by apply on_log_weaken | done | done]).
Qed.

Lemma expired_in_time e (w : W) x w' :
  expired s e w = (inr x, w') -> x = false ->
  forall d, ob_ExpiresAt e = Some d -> UnixMilli (w_clock w') < d.
Proof.
  unfold expired. intros Hrun -> d Hd. rewrite Hd in Hrun. unfold now in Hrun.
  apply bind_returns in Hrun as (t & w1 & Hnow & Hret). destruct (sch_now _ _) as [t0 e0].
  injection Hnow as -> <-. injection Hret as Hx <-. cbn. by to_prop.
Qed.

Lemma expired_unstarted_triple e :
  triple (on_log (fresh e)) (expired_unstarted s e)
    (fun x w => if x then on_log (fresh e) w else ready e w) (on_log (clean e)).
Proof.
  intros w r w' Hw Hrun.
  pose proof (quiet_clean (fresh e) e _ (expired_unstarted_quiet e) (fresh_clean e) _ _ _ Hw Hrun) as Hq.
  destruct r as [|x]; [done|]. destruct x; [done|]. split; [done|].
  unfold expired_unstarted in Hrun. intros Ha He. rewrite Ha in Hrun. cbn in Hrun.
  apply bind_returns in Hrun as (x & w1 & Hx & Hret). injection Hret as Hxe <-.
  rewrite He, andb_true_r in Hxe. exact (expired_in_time _ _ _ _ Hx Hxe).
Qed.

(** The tail of an acknowledged send. *)
Lemma sent_clean e e' waID timestamp (r : SendResult) :
  same_lease e e' ->
  triple (on_log (clean e)) (complete e' OutboxSent (Some waID) None timestamp;; mret r)
    (fun _ => on_log (clean e)) (on_log (clean e)).
Proof.
  intros Hs. eapply triple_bind; [by apply (complete_clean (clean e) e)|]. intros ?. by apply triple_ret.
Qed.

Lemma dispatchOp_clean e payload :
  triple (on_log (fresh e)) (dispatchOp s e payload) (fun _ => on_log (clean e)) (on_log (clean e)).
Proof.
  unfold dispatchOp. eapply triple_bind; [apply expired_unstarted_triple|]. intros [|].
  { apply triple_throws. eapply triple_weaken; [by apply (expireClaim_clean e e) | | done | done].
    apply on_log_weaken, fresh_verdict. }
  eapply triple_bind; [by apply transport_triple|].
  intros [[result err] e']. apply triple_pure. intros [Hs _].
  destruct err as [err|].
  - apply triple_pure. intros He'.
    eapply triple_bind; [apply quiet_clean; [apply now_quiet | apply answered_clean]|]. intros t.
    apply triple_throws, settle_error_clean; [done | done|].
    intros c ->%list_elem_of_singleton. by left.
  - eapply triple_bind; [by apply quiet_clean; [apply now_quiet|]|]. intros t.
    eapply triple_bind; [by apply quiet_clean; [apply acknowledge_quiet|]|]. intros ?.
    by apply sent_clean.
Qed.

Lemma check_budget_clean e t :
  triple (on_log (fresh e)) (check_budget s e t) (fun _ => on_log (fresh e)) (on_log (clean e)).
Proof.
  assert (Hamb : forall cause, triple (on_log (fresh e)) (ambiguous s e cause : M W unit)
                   (fun _ => on_log (fresh e)) (on_log (clean e))).
  { intros cause. apply triple_throws.
    eapply triple_weaken; [by apply (ambiguous_clean e e) | | done | done].
    apply on_log_weaken, fresh_verdict. }
  assert (Hquiet : forall A (m : M W A), respects quiet m ->
    triple (on_log (fresh e)) m (fun _ => on_log (fresh e)) (on_log (clean e))).
  { intros A m Hm. by apply quiet_clean; [|apply fresh_clean]. }
  unfold check_budget. eapply triple_bind; [apply Hquiet, expired_quiet|]. intros [|]; [by apply triple_ret|].
  eapply triple_bind; [apply Hquiet, respects_attempt, call_env_quiet|]. intros [err|sess]; [apply Hamb|].
  eapply triple_bind; [apply Hquiet, respects_attempt, call_env_quiet|].
  intros [err|[[|] retryAfter]]; [apply Hamb | by apply triple_ret |].
  eapply triple_bind; [apply Hquiet, expired_quiet|]. intros x. destruct (x && _).
  - apply triple_throws. eapply triple_weaken; [by apply (expireClaim_clean e e) | | done | done].
    apply on_log_weaken, fresh_verdict.
  - apply (triple_bind _ _ _ (fun _ => on_log (clean e))); [|intros ?; by apply triple_throw].
    eapply triple_weaken; [by apply (reschedule_clean e e) | | done | done].
    apply on_log_weaken, fresh_clean.
Qed.

Lemma project_clean e m act :
  (forall r x l, lg_act x = act r -> audit1 e x l) ->
  triple (on_log (clean e)) (project m act : M W unit) (fun _ => on_log (clean e)) (on_log (clean e)).
Proof.
  intros Hact. unfold project.
  eapply triple_bind; [by apply quiet_clean; [apply respects_attempt, call_env_quiet|]|]. intros r.
  eapply triple_bind.
  - apply (log_triple _ (clean e)). intros x l Hx Hl. split; [by eapply Hact | done].
  - intros ?. apply triple_lift. intros w Hw. by destruct r.
Qed.

Lemma capture_clean e e' waID req :
  triple (on_log (clean e)) (capture s e' waID req : M W unit) (fun _ => on_log (clean e))
    (on_log (clean e)).
Proof.
  unfold capture. destruct (sch_captureMedia s); [|by apply triple_ret].
  apply project_clean. intros r x l Hx. unfold audit1. by rewrite Hx.
Qed.

Lemma recordSent_clean e org sess req waID ts id :
  triple (on_log (clean e)) (recordSent s org sess req waID ts id : M W unit)
    (fun _ => on_log (clean e)) (on_log (clean e)).
Proof.
  assert (Hq : forall A (m : M W A), respects quiet m ->
    triple (on_log (clean e)) m (fun _ => on_log (clean e)) (on_log (clean e))).
  { intros A m Hm. by apply quiet_clean. }
  unfold recordSent. destruct (sch_recorder s) as [record|]; [|by apply triple_ret].
  destruct (_ || _); [by apply triple_ret|].
  eapply triple_bind; [apply Hq; destruct (ts =? 0); eauto with golib typeclass_instances|]. intros ts'.
  eapply triple_bind;
    [apply (project_clean e); intros r x l Hx; unfold audit1; by rewrite Hx|]. intros ?.
  destruct (sch_publishSent s); [|by apply triple_ret].
  eapply triple_bind; [apply Hq, on_env_quiet|]. intros id'.
  eapply triple_bind; [apply Hq, on_env_quiet|]. intros ms.
  apply project_clean. intros r x l Hx. unfold audit1. by rewrite Hx.
Qed.

Lemma attempt_clean {A} e (m : M W A) :
  triple (on_log (clean e)) m (fun _ => on_log (clean e)) (on_log (clean e)) ->
  triple (on_log (clean e)) (attempt m) (fun _ => on_log (clean e)) (on_log (clean e)).
Proof. intros Hm. eapply triple_attempt; [exact Hm | done]. Qed.

Lemma deferProjection_clean e e' err :
  same_lease e e' ->
  triple (on_log (clean e)) (deferProjection s e' err : M W _) (fun _ => on_log (clean e))
    (on_log (clean e)).
Proof.
  intros Hs. unfold deferProjection.
  do 2 (eapply triple_bind; [by apply quiet_clean; [apply now_quiet|]|]; intros ?).
  eapply triple_bind; [by apply (reschedule_clean e e')|].
  intros [|]; [by apply triple_ret | by apply triple_throw].
Qed.

Lemma dispatchSend_clean e req checkLimit :
  triple (on_log (fresh e)) (dispatchSend s e req checkLimit) (fun _ => on_log (clean e))
    (on_log (clean e)).
Proof.
  unfold dispatchSend.
  eapply triple_bind; [apply quiet_clean; [apply now_quiet | apply fresh_clean]|]. intros t0.
  eapply triple_bind.
  { instantiate (1 := fun _ => on_log (fresh e)).
    destruct (_ && _); [apply check_budget_clean | by apply triple_ret]. }
  intros ?. eapply triple_bind; [apply expired_unstarted_triple|]. intros [|].
  { apply triple_throws. eapply triple_weaken; [by apply (expireClaim_clean e e) | | done | done].
    apply on_log_weaken, fresh_verdict. }
  eapply triple_bind; [by apply transport_triple|].
  intros [[result err] e']. apply triple_pure. intros [Hs _].
  destruct err as [err|].
  - apply triple_pure. intros He'.
    eapply triple_bind; [apply quiet_clean; [apply now_quiet | apply answered_clean]|]. intros t.
    by apply triple_throws, settle_error_clean.
  - eapply triple_bind; [by apply quiet_clean; [apply now_quiet|]|]. intros t.
    eapply triple_bind; [by apply quiet_clean; [apply acknowledge_quiet|]|]. intros ?.
    eapply triple_bind; [apply attempt_clean, capture_clean|].
    intros [cerr|[]]; [by apply deferProjection_clean|].
    eapply triple_bind; [apply attempt_clean, recordSent_clean|].
    intros [rerr|[]]; [by apply deferProjection_clean | by apply sent_clean].
Qed.

Lemma dispatchClaimed_clean e req checkLimit :
  triple (on_log (fresh e)) (dispatchClaimed s e req checkLimit) (fun _ => on_log (clean e))
    (on_log (clean e)).
Proof.
  unfold dispatchClaimed. eapply triple_bind; [apply expired_unstarted_triple|]. intros [|].
  { apply triple_throws. eapply triple_weaken; [by apply (expireClaim_clean e e) | | done | done].
    apply on_log_weaken, fresh_verdict. }
  eapply (triple_weaken (on_log (fresh e)) _ _ (fun _ => on_log (clean e)) _ (on_log (clean e)));
    [|by intros w [H _] | by intros | by intros].
  destruct (isOpType _); [|apply dispatchSend_clean].
  destruct (unmarshal_op _) as [derr|payload] eqn:Hd; [|apply dispatchOp_clean].
  eapply triple_bind; [apply quiet_clean; [apply now_quiet | apply fresh_clean]|]. intros t.
  apply triple_throws, (throws_triple _ (clean e)), complete_clean; [done|].
  intros l [Hc _]. split; [done|]. intros _. left. eauto.
Qed.

Lemma dispatch_audit e req checkLimit (w w' : W) r :
  sound w -> w_log w = [] -> dispatchClaimed s e req checkLimit w = (r, w') -> clean e (w_log w').
Proof.
  intros Hw Hl Hrun.
  assert (Hf : on_log (fresh e) w).
  { split; [done|]. rewrite Hl. split; [done|]. by intros y ?%not_elem_of_nil. }
  pose proof (dispatchClaimed_clean e req checkLimit w r w' Hf Hrun) as H. destruct r; apply H.
Qed.

Definition acked (o : OutboxEntry) : Prop := ob_AcknowledgedAt o <> None /\ ob_WAMessageID o <> None.

(** ** Invariants of a whole attempt

    [P] is kept by every quiet call and by logging what [allowed] lets through,
    which is everything but engine calls and those the attempt makes. *)
Section Stable.
Context (P : W -> Prop) (allowed : action -> Prop).
Context (P_quiet : forall w w', quiet w w' -> P w -> P w').
Context (P_log : forall x st e t l,
  allowed (lg_act x) -> P (World st e t l) -> P (World st e t (x :: l))).
Context (P_other : forall a, is_call a = false -> allowed a).

Lemma quiet_stable {A} (m : M W A) : respects quiet m -> respects (keeps P) m.
Proof. intros Hm w r w' Hrun. exact (P_quiet _ _ (Hm _ _ _ Hrun)). Qed.

Lemma log_stable a : allowed a -> respects (keeps P) (log_action a : M W unit).
Proof. intros Ha [st e t l] r w' [= _ <-] Hw. by apply P_log. Qed.

Ltac stable_run :=
  repeat first
    [ progress intros
    | solve [eauto with golib typeclass_instances]
    | solve [apply quiet_stable; eauto with golib typeclass_instances]
    | solve [apply log_stable, P_other; done]
    | apply respects_bind; [apply _| |]
    | apply respects_attempt
    | match goal with |- respects _ (if ?b then _ else _) => destruct b end
    | match goal with |- respects _ (match ?x with _ => _ end) => destruct x end ].

Lemma owned_stable m post : op_law m post -> respects (keeps P) (owned_or_conflict m).
Proof. intros Hm. by eapply quiet_stable, owned_quiet. Qed.

Lemma complete_stable e status waID note a : respects (keeps P) (complete e status waID note a).
Proof.
  pose proof (fun i st a b c d => owned_stable _ _ (law_Complete i st a b c d)).
  unfold complete. stable_run.
Qed.
Lemma reschedule_stable e note next upd : respects (keeps P) (reschedule e note next upd).
Proof. unfold reschedule. stable_run. Qed.
Lemma expireClaim_stable {A} e : respects (keeps P) (expireClaim s e : M W A).
Proof. pose proof complete_stable. unfold expireClaim. stable_run. Qed.
Lemma ambiguous_stable {A} e cause : respects (keeps P) (ambiguous s e cause : M W A).
Proof.
  pose proof complete_stable. pose proof reschedule_stable. pose proof (@expireClaim_stable A).
  unfold ambiguous. stable_run.
Qed.
Lemma deferProjection_stable e err : respects (keeps P) (deferProjection s e err).
Proof. pose proof reschedule_stable. unfold deferProjection. stable_run. Qed.
Lemma project_stable m act :
  (forall r, is_call (act r) = false) -> respects (keeps P) (project m act : M W unit).
Proof. intros Ha. unfold project. stable_run. Qed.
Lemma capture_stable e waID req : respects (keeps P) (capture s e waID req : M W unit).
Proof. unfold capture. destruct (sch_captureMedia s); [by apply project_stable | stable_run]. Qed.
Lemma recordSent_stable org sess req waID ts cid :
  respects (keeps P) (recordSent s org sess req waID ts cid : M W unit).
Proof. unfold recordSent. stable_run; by apply project_stable. Qed.
Lemma settle_error_stable codes was e err ts : respects (keeps P) (settle_error s codes was e err ts).
Proof.
  pose proof complete_stable. pose proof (@expireClaim_stable SendResult).
  pose proof (@ambiguous_stable SendResult). unfold settle_error. stable_run.
Qed.
Lemma check_budget_stable e t : respects (keeps P) (check_budget s e t).
Proof.
  pose proof reschedule_stable. pose proof (@expireClaim_stable unit).
  pose proof (@ambiguous_stable unit). unfold check_budget. stable_run.
Qed.

Lemma transport_stable {R} ackd (call : E -> (R * option goerr) * E) act e :
  acked e \/ (forall r, allowed (act r)) ->
  respects (keeps P) (transport ackd call act e : M W _).
Proof.
  intros He. unfold transport.
  assert (Hcall : (forall r, allowed (act r)) -> respects (keeps P) ((if ob_EffectPossible e
      then mret tt else markPossible e);; reply ← call_engine call act; mret (reply, set_effect true e))).
  { intros Hall. unfold call_engine. stable_run. by apply log_stable. }
  unfold acked in He.
  destruct (ob_AcknowledgedAt e); [destruct (ob_WAMessageID e)|]; [stable_run | |];
    (destruct He as [[? ?]|He]; [done | by apply Hcall]).
Qed.

Lemma dispatchOp_stable e payload :
  acked e \/ (forall r, allowed (AOp (op_command e payload) r)) ->
  respects (keeps P) (dispatchOp s e payload).
Proof.
  intros He. pose proof complete_stable. pose proof (@expireClaim_stable SendResult).
  pose proof settle_error_stable. unfold dispatchOp. apply respects_bind; [apply _ | stable_run|].
  intros [|]; [eauto|]. apply respects_bind; [apply _ | by apply transport_stable|]. stable_run.
Qed.

Lemma dispatchSend_stable e req checkLimit :
  acked e \/ (forall r, allowed (ASend (send_command e req) r)) ->
  respects (keeps P) (dispatchSend s e req checkLimit).
Proof.
  intros He. pose proof complete_stable. pose proof (@expireClaim_stable SendResult).
  pose proof settle_error_stable. pose proof check_budget_stable. pose proof capture_stable.
  pose proof recordSent_stable. pose proof deferProjection_stable.
  unfold dispatchSend. apply respects_bind; [apply _ | stable_run|]. intros t0.
  apply respects_bind; [apply _ | stable_run|]. intros _.
  apply respects_bind; [apply _ | stable_run|]. intros [|]; [eauto|].
  apply respects_bind; [apply _ | by apply transport_stable|]. stable_run.
Qed.

(** The calls an attempt of [e] may make. *)
Definition calls_allowed (e : OutboxEntry) (req : SendRequest) : Prop :=
  if isOpType (sr_Type req) then
    forall payload r, unmarshal_op (ob_Payload e) = inr payload -> allowed (AOp (op_command e payload) r)
  else forall r, allowed (ASend (send_command e req) r).

Lemma dispatchClaimed_stable e req checkLimit :
  acked e \/ calls_allowed e req -> respects (keeps P) (dispatchClaimed s e req checkLimit).
Proof.
  intros He. pose proof complete_stable. pose proof (@expireClaim_stable SendResult).
  unfold dispatchClaimed. apply respects_bind; [apply _ | stable_run|]. intros [|]; [eauto|].
  unfold calls_allowed in He. destruct (isOpType _).
  - destruct (unmarshal_op _) as [err|payload] eqn:Hp; [stable_run|].
    apply dispatchOp_stable. destruct He; eauto.
  - by apply dispatchSend_stable.
Qed.
End Stable.

(** ** An acknowledged command over the life of the pipeline *)

(** The row [id] holds its acknowledgement and no call was made for it. *)
Definition settled (id : string) (w : W) : Prop :=
  sound w /\ (exists o, wrows w !! id = Some o /\ acked o) /\
  forall y, y ∈ w_log w -> (fst ∘ fst <$> called (lg_act y)) <> Some id.

Section Settled.
Context (id : string).

Lemma settled_quiet_step w w' : quiet w w' -> settled id w -> settled id w'.
Proof.
  intros [Hs Hl] (Hw & (o & Ho & Ha & Hwa) & Hlog).
  destruct (Hs Hw) as [Hw' Hev]. destruct (Hev _ _ Ho) as (o' & Ho' & Hro).
  destruct (ev_acknowledged _ _ Hro Ha) as (Ha' & Hwa' & _).
  split; [done|]. split; [|by rewrite Hl]. exists o'. split; [done|]. split; auto.
Qed.

Lemma quiet_settled {A} (m : M W A) : respects quiet m -> respects (keeps (settled id)) m.
Proof. intros Hm w r w' Hrun. exact (settled_quiet_step _ _ (Hm _ _ _ Hrun)). Qed.

(** The entry is another command, or carries the acknowledgement. *)
Definition harmless (e : OutboxEntry) : Prop := ob_ID e = id -> acked e.

Lemma dispatchClaimed_settled e req checkLimit :
  harmless e -> respects (keeps (settled id)) (dispatchClaimed s e req checkLimit).
Proof.
  intros He. apply (dispatchClaimed_stable _ (fun a => (fst ∘ fst <$> called a) <> Some id)).
  - apply settled_quiet_step.
  - intros x st e0 t l Ha (Hw & Ho & Hlog). split; [done|]. split; [done|].
    intros y [->|Hy]%elem_of_cons; [done | auto].
  - by intros [].
  - destruct (decide (ob_ID e = id)) as [Hid|Hne]; [left; auto|]. right.
    unfold calls_allowed. destruct (isOpType _); intros; cbn; congruence.
Qed.

Lemma settled_triple {A} (m : M W A) :
  respects (keeps (settled id)) m -> triple (settled id) m (fun _ => settled id) (settled id).
Proof. apply triple_keeps. Qed.

(** A stored row is found again by what follows. *)
Lemma on_store_settled {A} (m : M S A) post w r w' :
  op_law m post -> settled id w -> on_store m w = (r, w') ->
  settled id w' /\ exists t, post r t (wrows w') /\ exists o, t !! id = Some o /\ acked o.
Proof.
  intros Hm Hw Hrun. pose proof (quiet_settled _ (on_store_quiet _ _ Hm) _ _ _ Hrun Hw) as Hw'.
  split; [done|]. destruct Hw as (Hok & (o & Ho & Ha & Hwa) & _).
  unfold on_store in Hrun. pose proof (others_ok (w_store w) (w_env w) Hok) as [Hok1 Hev].
  destruct (others _) as [st e]. cbn in Hok1, Hev. destruct (m st) as [r0 st'] eqn:Em.
  injection Hrun as -> <-. exists (st_rows st). split; [by apply (Hm _ _ _ Hok1 Em)|].
  destruct (Hev _ _ Ho) as (o1 & Ho1 & Hro). destruct (ev_acknowledged _ _ Hro Ha) as (Ha1 & Hwa1 & _).
  exists o1. split; [done|]. split; auto.
Qed.

Lemma insert_triple e :
  triple (settled id) (on_store (st_Insert e)) (fun _ w => harmless e /\ settled id w) (settled id).
Proof.
  intros w r w' Hw Hrun.
  destruct (on_store_settled _ _ _ _ _ (law_Insert e) Hw Hrun) as (Hw' & t & Hpost & o & Ho & _).
  destruct r as [|[]]; [done|]. split; [|done]. destruct Hpost as [Hnew _]. intros He. congruence.
Qed.

Lemma claim_triple limit due stale upd :
  triple (settled id) (on_store (st_ClaimDue limit due stale upd))
    (fun entries w => (forall e, e ∈ entries -> harmless e) /\ settled id w) (settled id).
Proof.
  intros w r w' Hw Hrun.
  destruct (on_store_settled _ _ _ _ _ (law_ClaimDue limit due stale upd) Hw Hrun)
    as (Hw' & t & Hpost & o & Ho & Ha).
  destruct r as [|entries]; [done|]. split; [|done]. intros e He Hid.
  destruct (Hpost e He) as (o' & -> & Ho' & _). rewrite Hid, Ho in Ho'. injection Ho' as <-.
  split; apply Ha.
Qed.

Lemma process_entry_settled e : harmless e -> respects (keeps (settled id)) (process_entry s e).
Proof.
  intros He. pose proof dispatchClaimed_settled. unfold process_entry.
  destruct (unmarshal_send _) as [err|req].
  - apply respects_bind; [apply _ | apply quiet_settled, now_quiet|]. intros t.
    apply respects_bind; [apply _ | | intros; apply respects_ret, _].
    apply respects_attempt, (complete_stable _ (fun a => (fst ∘ fst <$> called a) <> Some id));
      [apply settled_quiet_step | | by intros []].
    intros x st e0 t0 l Ha (Hw & Ho & Hlog). split; [done|]. split; [done|].
    intros y [->|Hy]%elem_of_cons; [done | auto].
  - apply respects_bind; [apply _ | apply respects_attempt; auto | intros; apply respects_ret, _].
Qed.

Lemma processDue_settled : triple (settled id) (processDue s) (fun _ => settled id) (settled id).
Proof.
  unfold processDue. eapply triple_bind; [apply settled_triple, quiet_settled, now_quiet|]. intros t.
  eapply triple_bind.
  - apply (triple_attempt _ _ (fun r w => match r with
      | inl _ => settled id w | inr entries => (forall e, e ∈ entries -> harmless e) /\ settled id w
      end) _ (settled id)); [apply claim_triple | done].
  - intros [err|entries]; [by apply triple_ret|]. apply triple_pure. intros Hh.
    apply triple_for_each. intros e He. apply settled_triple, process_entry_settled. auto.
Qed.

Lemma insert_or_replay_settled {A} (m : M W A) org sess key (k : A -> M W SendResult) (Q : A -> Prop) :
  triple (settled id) m (fun a w => Q a /\ settled id w) (settled id) ->
  (forall a, Q a -> triple (settled id) (k a) (fun _ => settled id) (settled id)) ->
  triple (settled id) (insert_or_replay m org sess key k) (fun _ => settled id) (settled id).
Proof.
  intros Hm Hk. unfold insert_or_replay. eapply triple_bind.
  - apply (triple_attempt _ _ (fun r w => match r with
      | inl _ => settled id w | inr a => Q a /\ settled id w end) _ (settled id)); [exact Hm | done].
  - intros [err|a]; [|by apply triple_pure, Hk]. apply settled_triple, quiet_settled. quiet_run.
Qed.

Lemma insertCommand_triple e req :
  triple (settled id) (insertCommand e req) (fun _ w => harmless e /\ settled id w) (settled id).
Proof.
  unfold insertCommand. destruct (marshal_send req) as [err|payload]; [by apply triple_throw|].
  eapply triple_weaken; [apply insert_triple | done | done | done].
Qed.

Ltac settled_quiet := apply settled_triple, quiet_settled; eauto with golib typeclass_instances.

Lemma enqueueAsync_settled sess req opts :
  triple (settled id) (enqueueAsync s sess req opts) (fun _ => settled id) (settled id).
Proof.
  unfold enqueueAsync. eapply triple_bind; [settled_quiet|]. intros t.
  eapply triple_bind; [settled_quiet|]. intros e.
  eapply (insert_or_replay_settled _ _ _ _ _ (fun _ => harmless e)); [apply insertCommand_triple|].
  intros ? _. by apply triple_ret.
Qed.

Lemma dispatch_then {A} e req checkLimit (f : SendResult -> A) :
  harmless e ->
  triple (settled id) (r ← dispatchClaimed s e req checkLimit; mret (f r)) (fun _ => settled id) (settled id).
Proof.
  intros He. eapply triple_bind; [by apply settled_triple, dispatchClaimed_settled|].
  intros r. by apply triple_ret.
Qed.

Lemma sendSync_settled sess req opts :
  triple (settled id) (sendSync s sess req opts) (fun _ => settled id) (settled id).
Proof.
  unfold sendSync. eapply triple_bind; [settled_quiet|]. intros ?.
  eapply triple_bind; [settled_quiet|]. intros ?.
  eapply triple_bind; [settled_quiet|]. intros t.
  eapply triple_bind; [settled_quiet|]. intros e.
  eapply (insert_or_replay_settled _ _ _ _ _ (fun _ => harmless e)); [apply insertCommand_triple|].
  intros ? He. by apply dispatch_then.
Qed.

Lemma unless_replayed_settled org sess key k :
  triple (settled id) k (fun _ => settled id) (settled id) ->
  triple (settled id) (unless_replayed org sess key k) (fun _ => settled id) (settled id).
Proof.
  intros Hk. unfold unless_replayed.
  eapply triple_bind; [destruct (bool_decide _); settled_quiet|].
  intros [prior|]; [settled_quiet | exact Hk].
Qed.

Lemma Send_settled org sess req opts :
  triple (settled id) (Send s org sess req opts) (fun _ => settled id) (settled id).
Proof.
  unfold Send. destruct (Validate req); [by apply triple_throw|].
  eapply triple_bind; [settled_quiet|]. intros sn. apply unless_replayed_settled.
  eapply triple_bind; [settled_quiet|]. intros ?.
  destruct (so_Async opts); [apply enqueueAsync_settled | apply sendSync_settled].
Qed.

Lemma ExecuteOp_settled org sess req :
  triple (settled id) (ExecuteOp s org sess req) (fun _ => settled id) (settled id).
Proof.
  unfold ExecuteOp. destruct (ValidateOp req); [by apply triple_throw|].
  eapply triple_bind; [settled_quiet|]. intros sn. apply unless_replayed_settled.
  eapply triple_bind; [settled_quiet|]. intros ?.
  eapply triple_bind; [settled_quiet|]. intros ?.
  eapply triple_bind; [settled_quiet|]. intros ?.
  eapply triple_bind; [settled_quiet|]. intros t.
  eapply triple_bind; [settled_quiet|]. intros e.
  destruct (marshal_op _) as [err|payload]; [by apply triple_throw|].
  eapply (insert_or_replay_settled _ _ _ _ _ (fun _ => harmless (set_payload payload e)));
    [apply insert_triple|].
  intros ? He. by apply settled_triple, dispatchClaimed_settled.
Qed.

Lemma Lookup_settled org sess key :
  triple (settled id) (LookupByIdempotency s org sess key) (fun _ => settled id) (settled id).
Proof.
  unfold LookupByIdempotency. destruct (bool_decide _); [by apply triple_throw|].
  eapply triple_bind; [settled_quiet|]. intros ?. eapply triple_bind; [settled_quiet|].
  intros [prior|]; [settled_quiet | by apply triple_throw].
Qed.
End Settled.

(** ** What an attempt returns *)

Lemma expireClaim_fails {A} e w (a : A) w' : expireClaim s e w = (inr a, w') -> False.
Proof. unfold expireClaim. intros Hrun. run_inv. by destruct (bool_decide _). Qed.

Lemma ambiguous_fails {A} e cause w (a : A) w' : ambiguous s e cause w = (inr a, w') -> False.
Proof.
  unfold ambiguous. intros Hrun. apply bind_returns in Hrun as ([|] & w1 & _ & Hrun);
    [by eapply expireClaim_fails|]. destruct (_ <=? _); run_inv.
Qed.

Lemma settle_error_fails codes was e err ts w a w' :
  settle_error s codes was e err ts w = (inr a, w') -> False.
Proof.
  unfold settle_error. intros Hrun. apply bind_returns in Hrun as (e' & w1 & _ & Hrun).
  destruct (_ && _); [run_inv|]. apply bind_returns in Hrun as ([|] & w2 & _ & Hrun);
    [by eapply expireClaim_fails | by eapply ambiguous_fails].
Qed.

(** A completion that returns wrote the owned row. *)
Lemma complete_returns e status waID note a (w w' : W) :
  sound w -> complete e status waID note a w = (inr tt, w') ->
  w_log w' = Logged (wrows w) (w_clock w) (AComplete (ob_ID e) (ob_UpdatedAt e) status waID note)
             :: w_log w /\
  exists o o', owned_by (ob_UpdatedAt e) o = true /\ wrows w' !! ob_ID e = Some o' /\
    ob_Status o' = status /\ ob_TerminalAt o' = Some a /\
    ob_WAMessageID o' = (match waID with Some x => Some x | None => ob_WAMessageID o end).
Proof.
  intros Hw Hrun. unfold complete, owned_or_conflict in Hrun.
  apply bind_returns in Hrun as (? & w1 & Hlog & Hrun). injection Hlog as _ <-.
  apply bind_returns in Hrun as ([|] & w2 & Hst & Hret); [injection Hret as <-|discriminate].
  unfold on_store in Hst. cbn [w_store w_env w_clock w_log] in Hst.
  pose proof (others_ok (w_store w) (w_env w) Hw) as [Hok _].
  destruct (others _) as [st e0]. cbn [fst] in Hok.
  destruct (st_CompleteOwned _ _ _ _ _ _ st) as [r0 st'] eqn:Em. injection Hst as -> <-.
  split; [done|]. destruct (law_Complete _ _ _ _ _ _ _ _ _ Hok Em)
    as (_ & _ & o & o' & _ & Hown & Ht & Hs & Hterm & Hwa & _).
  exists o, o'. unfold wrows. cbn [w_store]. rewrite Ht, lookup_insert_eq. auto.
Qed.

(** The projection of a sent message, when it is wired and has its target. *)
Lemma recordSent_returns org sess req waID ts id (w w' : W) :
  recordSent s org sess req waID ts id w = (inr tt, w') ->
  sch_recorder s <> None -> sch_publishSent s <> None ->
  waID <> "" -> sess <> "" -> sr_To req <> "" ->
  exists x y l ev m, w_log w' = x :: y :: l /\
    lg_act x = APublish ev (inr tt) /\ lg_act y = ARecord m (inr tt) /\
    m = sent_message sess req waID (sent_TimestampMs m) /\
    ev_ID ev = id /\ ev_Timestamp ev = sent_TimestampMs m /\ ev_Type ev = EventMessageFromMe /\
    ev_Session ev = sess /\ ev_Organization ev = org /\
    ev_Payload ev = payload_json (sent_payload req waID (sent_TimestampMs m)).
Proof.
  unfold recordSent. intros Hrun Hrec Hpub Hwa Hsess Hto.
  destruct (sch_recorder s) as [record|]; [|done]. destruct (sch_publishSent s) as [publish|]; [|done].
  rewrite (bool_decide_false (waID = "")), (bool_decide_false (sess = "")),
    (bool_decide_false (sr_To req = "")) in Hrun by done. rewrite andb_false_r in Hrun. cbn [orb] in Hrun.
  assert (Hproj : forall m act w0 u w1, project (E := E) (S := S) m act w0 = (inr u, w1) ->
            exists w2, w_log w1 = Logged (wrows w2) (w_clock w2) (act (inr u)) :: w_log w0).
  { intros m act w0 u w1 Hp. unfold project in Hp.
    apply bind_returns in Hp as (r & w2 & Hcall & Hp). apply bind_returns in Hp as (? & w3 & Hl & Hr).
    injection Hr as -> <-. injection Hl as _ <-. exists w2. cbn. f_equal.
    unfold attempt, call_env in Hcall. destruct (m _). injection Hcall as _ <-. done. }
  apply bind_returns in Hrun as (ts' & w1 & _ & Hrun).
  apply bind_returns in Hrun as ([] & w2 & Hp1 & Hrun). apply Hproj in Hp1 as (? & Hl1).
  apply bind_returns in Hrun as (id' & w3 & Hid & Hrun).
  apply bind_returns in Hrun as (ms & w4 & Hms & Hrun). apply Hproj in Hrun as (? & Hl2).
  pose proof (on_env_quiet _ _ _ _ Hid) as [_ Hl3]. pose proof (on_env_quiet _ _ _ _ Hms) as [_ Hl4].
  rewrite Hl4, Hl3, Hl1 in Hl2. do 5 eexists. split; [exact Hl2|]. cbn. done.
Qed.

Lemma transport_names {R} ackd (call : E -> (R * option goerr) * E) act e (w : W) res err e' w' :
  transport ackd call act e w = (inr (res, err, e'), w') ->
  ob_ID e' = ob_ID e /\ ob_UpdatedAt e' = ob_UpdatedAt e /\ ob_SessionID e' = ob_SessionID e /\
  ob_OrganizationID e' = ob_OrganizationID e.
Proof.
  unfold transport. intros Hrun.
  destruct (ob_AcknowledgedAt e); [destruct (ob_WAMessageID e)|];
    [injection Hrun as _ _ <- _; done | |];
    apply bind_returns in Hrun as (? & w1 & _ & Hrun);
    apply bind_returns in Hrun as (? & w2 & _ & Hrun); injection Hrun as _ <- _; done.
Qed.

Definition row_sent (id waID : string) (w : W) : Prop :=
  exists o, wrows w !! id = Some o /\ ob_Status o = OutboxSent /\ ob_TerminalAt o <> None /\
    ob_WAMessageID o = Some waID.

(** The last step of an attempt that succeeds. *)
Lemma sent_tail e e' waID ts (w w' : W) r :
  sound w -> ob_ID e' = ob_ID e -> ob_UpdatedAt e' = ob_UpdatedAt e ->
  (complete e' OutboxSent (Some waID) None ts;; mret (sent_result e' waID ts)) w = (inr r, w') ->
  r = sent_result e waID ts /\ row_sent (ob_ID e) waID w' /\
  exists x, w_log w' = x :: w_log w /\
    lg_act x = AComplete (ob_ID e) (ob_UpdatedAt e) OutboxSent (Some waID) None.
Proof.
  intros Hw Hid Hup Hrun. apply bind_returns in Hrun as ([] & w1 & Hc & Hret). injection Hret as <- <-.
  destruct (complete_returns _ _ _ _ _ _ _ Hw Hc) as (Hl & o & o' & _ & Ho' & Hs & Ht & Hwa).
  rewrite Hid, Hup in Hl. rewrite Hid in Ho'. split; [unfold sent_result; by rewrite Hid|].
  split; [exists o'; by rewrite Ht|]. by eexists.
Qed.

(** The table of an attempt stays sound, and its rows evolve. *)
Definition since (t : otable) (w : W) : Prop := sound w /\ evolves t (wrows w).

Lemma since_quiet t w w' : quiet w w' -> since t w -> since t w'.
Proof. intros [Hs _] [Hw Hev]. destruct (Hs Hw). split; [done | by etransitivity]. Qed.

Lemma since_log t (x : logged) (st : S) (e : E) c l :
  True -> since t (World st e c l) -> since t (World st e c (x :: l)).
Proof. done. Qed.

Lemma since_run {A} t (m : M W A) (w : W) r w' :
  respects (keeps (since t)) m -> since t w -> m w = (r, w') -> since t w'.
Proof. intros Hm Hw Hrun. exact (Hm _ _ _ Hrun Hw). Qed.

Lemma dispatchClaimed_since t e req checkLimit :
  respects (keeps (since t)) (dispatchClaimed s e req checkLimit).
Proof.
  apply (dispatchClaimed_stable _ (fun _ => True));
    [apply since_quiet | intros *; apply since_log | done|].
  right. unfold calls_allowed. by destruct (isOpType _).
Qed.

Lemma transport_since {R} t ackd (call : E -> (R * option goerr) * E) act e :
  respects (keeps (since t)) (transport ackd call act e : M W _).
Proof.
  apply (transport_stable _ (fun _ => True)); [apply since_quiet | intros *; apply since_log|].
  right. intros r. exact I.
Qed.

Ltac since_step :=
  first [ apply (quiet_stable _ (since_quiet _)); solve [eauto with golib typeclass_instances]
        | apply transport_since ].

(** An attempt that returns either deferred a projection or completed. *)
Definition attempt_result (e : OutboxEntry) (r : SendResult) (w' : W) : Prop :=
  r_OutboxID r = ob_ID e /\
  (r_Mode r = ModeAsync \/
   (exists ts, r = sent_result e (r_WAMessageID r) ts) /\
   row_sent (ob_ID e) (r_WAMessageID r) w' /\
   exists x l, w_log w' = x :: l /\
     lg_act x = AComplete (ob_ID e) (ob_UpdatedAt e) OutboxSent (Some (r_WAMessageID r)) None).

Lemma deferred_async e err (w : W) r w' :
  deferProjection s e err w = (inr r, w') -> r_Mode r = ModeAsync.
Proof.
  unfold deferProjection. intros Hrun. apply bind_returns in Hrun as (? & w1 & _ & Hrun).
  apply bind_returns in Hrun as (? & w2 & _ & Hrun).
  apply bind_returns in Hrun as ([|] & w3 & _ & Hrun); [|discriminate]. by injection Hrun as <- _.
Qed.

Lemma deferred_result e e' err (w : W) r w' :
  ob_ID e' = ob_ID e -> deferProjection s e' err w = (inr r, w') -> attempt_result e r w'.
Proof.
  unfold deferProjection. intros Hid Hrun. apply bind_returns in Hrun as (? & w1 & _ & Hrun).
  apply bind_returns in Hrun as (? & w2 & _ & Hrun).
  apply bind_returns in Hrun as ([|] & w3 & _ & Hrun); [|discriminate].
  injection Hrun as <- <-. split; [done | by left].
Qed.

Lemma tail_result e e' waID ts (w w' : W) r :
  sound w -> ob_ID e' = ob_ID e -> ob_UpdatedAt e' = ob_UpdatedAt e ->
  (complete e' OutboxSent (Some waID) None ts;; mret (sent_result e' waID ts)) w = (inr r, w') ->
  attempt_result e r w'.
Proof.
  intros Hw Hid Hup Hrun. destruct (sent_tail _ _ _ _ _ _ _ Hw Hid Hup Hrun) as (-> & Hrow & x & Hl & Hx).
  split; [done|]. right. split; [by eexists|]. split; [done|]. by exists x, (w_log w).
Qed.

Lemma dispatchOp_returns e payload (w : W) r w' :
  sound w -> dispatchOp s e payload w = (inr r, w') -> attempt_result e r w'.
Proof.
  intros Hw Hrun. unfold dispatchOp in Hrun.
  apply bind_returns in Hrun as ([|] & w1 & H1 & Hrun); [by apply expireClaim_fails in Hrun|].
  apply bind_returns in Hrun as ([[res err] e'] & w2 & H2 & Hrun).
  apply bind_returns in Hrun as (t & w3 & H3 & Hrun).
  destruct err as [err|]; [by apply settle_error_fails in Hrun|].
  apply bind_returns in Hrun as ([] & w4 & H4 & Hrun).
  destruct (transport_names _ _ _ _ _ _ _ _ _ H2) as (Hid & Hup & _).
  assert (Hs : since (wrows w) w) by (split; [done | reflexivity]).
  assert (H4' : since (wrows w) w4).
  { eapply since_run; [|eapply since_run; [|eapply since_run; [|eapply since_run; [|exact Hs|exact H1]|exact H2]|exact H3]|exact H4];
      since_step. }
  eapply tail_result; [apply H4' | exact Hid | exact Hup | exact Hrun].
Qed.

(** The projections of the success path. *)
Definition projected (e : OutboxEntry) (req : SendRequest) (waID : string) (l : list logged) : Prop :=
  sch_recorder s <> None -> sch_publishSent s <> None ->
  waID <> "" -> ob_SessionID e <> "" -> sr_To req <> "" ->
  exists x y l' ev m, l = x :: y :: l' /\
    lg_act x = APublish ev (inr tt) /\ lg_act y = ARecord m (inr tt) /\
    m = sent_message (ob_SessionID e) req waID (sent_TimestampMs m) /\
    ev_ID ev = ob_ID e /\ ev_Timestamp ev = sent_TimestampMs m /\ ev_Type ev = EventMessageFromMe /\
    ev_Session ev = ob_SessionID e /\ ev_Organization ev = ob_OrganizationID e /\
    ev_Payload ev = payload_json (sent_payload req waID (sent_TimestampMs m)).

Lemma capture_since t e waID req : respects (keeps (since t)) (capture s e waID req).
Proof.
  apply (capture_stable _ (fun _ => True)); [apply since_quiet | intros *; apply since_log | done].
Qed.

Lemma recordSent_since t org sess req waID ts cid :
  respects (keeps (since t)) (recordSent s org sess req waID ts cid).
Proof.
  apply (recordSent_stable _ (fun _ => True)); [apply since_quiet | intros *; apply since_log | done].
Qed.

Lemma check_budget_since t e t0 : respects (keeps (since t)) (check_budget s e t0).
Proof.
  apply (check_budget_stable _ (fun _ => True)); [apply since_quiet | intros *; apply since_log | done].
Qed.

Lemma attempt_inr {A} (m : M W A) (w : W) a w' : attempt m w = (inr (inr a), w') -> m w = (inr a, w').
Proof. unfold attempt. destruct (m w). congruence. Qed.

Lemma dispatchSend_returns e req checkLimit (w : W) r w' :
  sound w -> dispatchSend s e req checkLimit w = (inr r, w') ->
  attempt_result e r w' /\
  (r_Mode r = ModeSync -> projected e req (r_WAMessageID r) (tail (w_log w'))).
Proof.
  intros Hw Hrun. unfold dispatchSend in Hrun.
  apply bind_returns in Hrun as (t0 & w1 & H1 & Hrun).
  apply bind_returns in Hrun as ([] & w2 & H2 & Hrun).
  apply bind_returns in Hrun as ([|] & w3 & H3 & Hrun); [by apply expireClaim_fails in Hrun|].
  apply bind_returns in Hrun as ([[res err] e'] & w4 & H4 & Hrun).
  apply bind_returns in Hrun as (t & w5 & H5 & Hrun).
  destruct err as [err|]; [by apply settle_error_fails in Hrun|].
  destruct (transport_names _ _ _ _ _ _ _ _ _ H4) as (Hid & Hup & Hsess & Horg).
  set (ts := if _ && _ then _ else _) in Hrun.
  apply bind_returns in Hrun as ([] & w6 & H6 & Hrun).
  apply bind_returns in Hrun as ([err|[]] & w7 & H7 & Hrun).
  { split; [exact (deferred_result _ _ _ _ _ _ Hid Hrun)|].
    rewrite (deferred_async _ _ _ _ _ Hrun). discriminate. }
  apply bind_returns in Hrun as ([err|[]] & w8 & H8 & Hrun).
  { split; [exact (deferred_result _ _ _ _ _ _ Hid Hrun)|].
    rewrite (deferred_async _ _ _ _ _ Hrun). discriminate. }
  assert (Hs : since (wrows w) w) by (split; [done | reflexivity]).
  assert (H8' : since (wrows w) w8).
  { do 2 (eapply since_run; [| |eassumption];
      [apply respects_attempt; first [apply capture_since | apply recordSent_since]|]).
    do 3 (eapply since_run; [| |eassumption]; [since_step|]).
    eapply since_run; [| |eassumption]; [since_step|].
    eapply since_run; [|eapply since_run; [|exact Hs|exact H1]|exact H2]; [|since_step].
    destruct (_ && _); [apply check_budget_since | apply respects_ret, _]. }
  split; [eapply tail_result; [apply H8' | exact Hid | exact Hup | exact Hrun]|]. intros _.
  destruct (sent_tail _ _ _ _ _ _ _ (proj1 H8') Hid Hup Hrun) as (-> & _ & x & Hl & _).
  rewrite Hl. cbn [tail sent_result r_WAMessageID]. unfold projected. intros.
  apply attempt_inr in H8. rewrite Hsess, Horg, Hid in H8.
  by apply (recordSent_returns _ _ _ _ _ _ _ _ H8).
Qed.

Lemma dispatchClaimed_returns e req checkLimit (w : W) r w' :
  sound w -> dispatchClaimed s e req checkLimit w = (inr r, w') ->
  attempt_result e r w' /\
  (isOpType (sr_Type req) = false -> r_Mode r = ModeSync ->
   projected e req (r_WAMessageID r) (tail (w_log w'))).
Proof.
  intros Hw Hrun. unfold dispatchClaimed in Hrun.
  apply bind_returns in Hrun as ([|] & w1 & H1 & Hrun); [by apply expireClaim_fails in Hrun|].
  assert (Hw1 : sound w1).
  { pose proof (expired_unstarted_quiet _ _ _ _ H1) as [Hq _]. by apply Hq. }
  destruct (isOpType _).
  - destruct (unmarshal_op _) as [err|payload]; [run_inv|]. split; [|done].
    by eapply dispatchOp_returns.
  - destruct (dispatchSend_returns _ _ _ _ _ _ Hw1 Hrun). auto.
Qed.

(** ** Accepted commands *)

(** The row of a command, and its session. *)
Definition has_row (id sess : string) (w : W) : Prop :=
  sound w /\ exists o, wrows w !! id = Some o /\ ob_SessionID o = sess.

Lemma has_row_quiet id sess w w' : quiet w w' -> has_row id sess w -> has_row id sess w'.
Proof.
  intros [Hs _] [Hw (o & Ho & Hsess)]. destruct (Hs Hw) as [Hw' Hev]. split; [done|].
  destruct (Hev _ _ Ho) as (o' & Ho' & Hro). exists o'. split; [done|].
  destruct (ev_identity _ _ Hro) as (_ & _ & -> & _). done.
Qed.

Lemma dispatchClaimed_has_row id sess e req checkLimit :
  respects (keeps (has_row id sess)) (dispatchClaimed s e req checkLimit).
Proof.
  apply (dispatchClaimed_stable _ (fun _ => True)); [apply has_row_quiet | done | done|].
  right. unfold calls_allowed. by destruct (isOpType _).
Qed.

Lemma quiet_sound {A} (m : M W A) : respects quiet m -> triple sound m (fun _ => sound) sound.
Proof.
  intros Hm. apply (triple_respects _ _ _ _ _ Hm). intros w w' Hw [Hs _]. destruct (Hs Hw). auto.
Qed.

Lemma on_store_sound {A} (m : M S A) post :
  op_law m post ->
  triple sound (on_store m) (fun a w => sound w /\ exists t, post (inr a) t (wrows w)) sound.
Proof.
  intros Hm w r w' Hw Hrun. destruct (on_store_quiet _ _ Hm _ _ _ Hrun) as [Hs _].
  destruct (Hs Hw) as [Hw' _]. unfold on_store in Hrun.
  pose proof (others_ok (w_store w) (w_env w) Hw) as [Hok _]. destruct (others _) as [st e].
  cbn in Hok. destruct (m st) as [r0 st'] eqn:Em. injection Hrun as -> <-.
  destruct (Hm _ _ _ Hok Em) as (_ & _ & Hp). destruct r; eauto.
Qed.

Lemma prior_triple org key :
  triple sound (priorByIdempotency org key)
    (fun p w => sound w /\ match p with Some o => wrows w !! ob_ID o = Some o | None => True end) sound.
Proof.
  unfold priorByIdempotency. eapply triple_bind.
  - apply (triple_attempt _ _ (fun r w => sound w /\ match r with
      | inr o => wrows w !! ob_ID o = Some o | inl _ => True end) _ sound); [|done].
    eapply triple_weaken; [apply on_store_sound, law_GetByIdempotency | done | | done].
    intros o w [Hw (t & Ht & Ho)]. split; [done|]. unfold wrows in *. by rewrite Ht.
  - intros [err|o]; [|by apply triple_ret].
    destruct (bool_decide _); [apply triple_ret | apply triple_throw]; by intros w [? _].
Qed.

Definition accepted (sess : string) (r : SendResult) (w : W) : Prop := has_row (r_OutboxID r) sess w.

Lemma replay_triple sess prior :
  triple (fun w => sound w /\ wrows w !! ob_ID prior = Some prior) (replay sess prior)
    (accepted sess) sound.
Proof.
  unfold replay. destruct (bool_decide _) eqn:Hd; cbn [negb].
  - to_prop. apply triple_ret. intros w [Hw Ho]. split; [done|]. exists prior. split; [|done].
    unfold replayOutboxResult. by destruct (ob_Status prior).
  - apply triple_throw. by intros w [? _].
Qed.

Lemma insert_or_replay_accepted {A} (m : M W A) org sess key (k : A -> M W SendResult) R :
  triple sound m R sound ->
  (forall a, triple (R a) (k a) (accepted sess) sound) ->
  triple sound (insert_or_replay m org sess key k) (accepted sess) sound.
Proof.
  intros Hm Hk. unfold insert_or_replay. eapply triple_bind.
  - apply (triple_attempt _ _ (fun r w => match r with inl _ => sound w | inr a => R a w end) _ sound);
      [exact Hm | done].
  - intros [err|a]; [|apply Hk]. destruct (bool_decide _); [by apply triple_throw|].
    eapply triple_bind.
    + apply (triple_attempt _ _ (fun p w => sound w /\ match p with
        | inr (Some o) => wrows w !! ob_ID o = Some o | _ => True end) _ sound); [|done].
      apply prior_triple.
    + intros [err'|[o|]]; [| apply replay_triple |]; apply triple_throw; by intros w [? _].
Qed.

Lemma unless_replayed_accepted org sess key k :
  triple sound k (accepted sess) sound ->
  triple sound (unless_replayed org sess key k) (accepted sess) sound.
Proof.
  intros Hk. unfold unless_replayed.
  apply (triple_bind _ _ _ (fun p w => sound w /\
    match p with Some o => wrows w !! ob_ID o = Some o | None => True end)).
  - destruct (bool_decide _); [by apply triple_ret | apply prior_triple].
  - intros [o|]; [apply replay_triple|]. eapply triple_weaken; [exact Hk | by intros w [? _] | done | done].
Qed.

Lemma insert_row_triple e :
  triple sound (on_store (st_Insert e)) (fun _ => has_row (ob_ID e) (ob_SessionID e)) sound.
Proof.
  eapply triple_weaken; [apply on_store_sound, law_Insert | done | | done].
  intros [] w [Hw (t & _ & row & Hrow & Ht)]. split; [done|]. exists row. unfold wrows in *.
  rewrite Ht, lookup_insert_eq. split; [done|]. by destruct Hrow as (_ & _ & -> & _).
Qed.

Lemma insertCommand_row e req :
  triple sound (insertCommand e req) (fun _ => has_row (ob_ID e) (ob_SessionID e)) sound.
Proof.
  unfold insertCommand. destruct (marshal_send req) as [err|payload]; [by apply triple_throw|].
  exact (insert_row_triple (set_payload payload e)).
Qed.

Lemma newCommand_triple sess key status t n x :
  triple sound (newCommand sess key status t n x)
    (fun e w => ob_SessionID e = ws_ID sess /\ sound w) sound.
Proof.
  unfold newCommand. eapply triple_bind; [apply quiet_sound, on_env_quiet|]. intros id.
  by apply triple_ret.
Qed.

Ltac sound_step := eapply triple_bind; [apply quiet_sound; eauto with golib typeclass_instances|].

Lemma enqueueAsync_accepted sess req opts :
  triple sound (enqueueAsync s sess req opts) (accepted (ws_ID sess)) sound.
Proof.
  unfold enqueueAsync. sound_step. intros t.
  eapply triple_bind; [apply newCommand_triple|]. intros e. apply triple_pure. intros <-.
  eapply insert_or_replay_accepted; [apply insertCommand_row|]. intros []. by apply triple_ret.
Qed.

Lemma dispatch_accepted e req checkLimit sess :
  triple (has_row (ob_ID e) sess) (dispatchClaimed s e req checkLimit) (accepted sess) sound.
Proof.
  intros w r w' Hw Hrun. pose proof (dispatchClaimed_has_row _ _ _ _ _ _ _ _ Hrun Hw) as Hw'.
  destruct r as [err|r]; [apply Hw'|].
  destruct (dispatchClaimed_returns _ _ _ _ _ _ (proj1 Hw) Hrun) as [[Hid _] _].
  unfold accepted. by rewrite Hid.
Qed.

Lemma sendSync_accepted sess req opts :
  triple sound (sendSync s sess req opts) (accepted (ws_ID sess)) sound.
Proof.
  unfold sendSync. do 2 (sound_step; intros ?). sound_step. intros t.
  eapply triple_bind; [apply newCommand_triple|]. intros e. apply triple_pure. intros <-.
  eapply insert_or_replay_accepted; [apply insertCommand_row|]. intros [].
  eapply triple_bind; [eapply triple_weaken;
    [apply triple_keeps, dispatchClaimed_has_row | by intros w H; exact H | done | by intros w [? _]]|].
  intros r. by apply triple_ret.
Qed.

(** The session source answers with the session it was asked for. *)
Definition source_ok : Prop := forall id e sess e', sch_sessions s id e = (inr sess, e') -> ws_ID sess = id.

Lemma session_triple org id :
  source_ok ->
  triple sound (session s org id) (fun sess w => ws_ID sess = id /\ sound w) sound.
Proof.
  intros Hsrc. unfold session. eapply triple_bind.
  - instantiate (1 := fun sess w => ws_ID sess = id /\ sound w). intros w r w' Hw Hrun.
    unfold call_env in Hrun. destruct (sch_sessions s id (w_env w)) as [r0 e0] eqn:Hs.
    injection Hrun as <- <-. destruct r0; [done|]. split; [by eapply Hsrc | done].
  - intros sess. apply triple_pure. intros Hid.
    destruct (negb _); [by apply triple_throw | by apply triple_ret].
Qed.

Lemma Send_accepted org id req opts :
  source_ok -> triple sound (Send s org id req opts) (accepted id) sound.
Proof.
  intros Hsrc. unfold Send. destruct (Validate req); [by apply triple_throw|].
  eapply triple_bind; [by apply session_triple|]. intros sess. apply triple_pure. intros <-.
  apply unless_replayed_accepted. sound_step. intros ?.
  destruct (so_Async opts); [apply enqueueAsync_accepted | apply sendSync_accepted].
Qed.

Lemma ExecuteOp_accepted org id req :
  source_ok -> triple sound (ExecuteOp s org id req) (accepted id) sound.
Proof.
  intros Hsrc. unfold ExecuteOp. destruct (ValidateOp req); [by apply triple_throw|].
  eapply triple_bind; [by apply session_triple|]. intros sess. apply triple_pure. intros <-.
  apply unless_replayed_accepted. do 3 (sound_step; intros ?). sound_step. intros t.
  eapply triple_bind; [apply newCommand_triple|]. intros e. apply triple_pure. intros <-.
  destruct (marshal_op _) as [err|payload]; [by apply triple_throw|].
  eapply insert_or_replay_accepted; [apply (insert_row_triple (set_payload payload e))|]. intros ?.
  apply (dispatch_accepted (set_payload payload e)).
Qed.

(** ** What the calls carry *)

(** Every call in the log is [good]. *)
Definition all_calls (good : action -> Prop) (w : W) : Prop :=
  forall y, y ∈ w_log w -> is_call (lg_act y) = true -> good (lg_act y).

Lemma all_calls_quiet good w w' : quiet w w' -> all_calls good w -> all_calls good w'.
Proof. unfold all_calls. by intros [_ ->]. Qed.

Lemma all_calls_log good (x : logged) (st : S) (e : E) c l :
  (is_call (lg_act x) = true -> good (lg_act x)) ->
  all_calls good (World st e c l) -> all_calls good (World st e c (x :: l)).
Proof. intros Hx Hl y [->|Hy]%elem_of_cons; [exact Hx | exact (Hl y Hy)]. Qed.

Lemma dispatchClaimed_calls good e req checkLimit :
  calls_allowed (fun a => is_call a = true -> good a) e req ->
  triple (all_calls good) (dispatchClaimed s e req checkLimit) (fun _ => all_calls good) (all_calls good).
Proof.
  intros Hc. apply triple_keeps, (dispatchClaimed_stable _ (fun a => is_call a = true -> good a));
    [apply all_calls_quiet | intros *; apply all_calls_log | congruence | by right].
Qed.

Lemma quiet_calls {A} good (m : M W A) :
  respects quiet m -> triple (all_calls good) m (fun _ => all_calls good) (all_calls good).
Proof. intros Hm. apply triple_keeps. intros w r w' Hrun. exact (all_calls_quiet _ _ _ (Hm _ _ _ Hrun)). Qed.

Lemma newCommand_calls good sess key status t n x :
  triple (all_calls good) (newCommand sess key status t n x)
    (fun e w => (ob_ExpiresAt e = x /\ ob_SessionID e = ws_ID sess) /\ all_calls good w) (all_calls good).
Proof.
  unfold newCommand. eapply triple_bind; [apply quiet_calls, on_env_quiet|]. intros id.
  by apply triple_ret.
Qed.

Lemma insert_or_replay_calls {A} good (m : M W A) org sess key (k : A -> M W SendResult) :
  respects quiet m ->
  (forall a, triple (all_calls good) (k a) (fun _ => all_calls good) (all_calls good)) ->
  triple (all_calls good) (insert_or_replay m org sess key k) (fun _ => all_calls good) (all_calls good).
Proof.
  intros Hm Hk. unfold insert_or_replay.
  eapply triple_bind; [by apply quiet_calls, respects_attempt|]. intros [err|a]; [|apply Hk].
  apply quiet_calls. quiet_run.
Qed.

Lemma unless_replayed_calls good org sess key k :
  triple (all_calls good) k (fun _ => all_calls good) (all_calls good) ->
  triple (all_calls good) (unless_replayed org sess key k) (fun _ => all_calls good) (all_calls good).
Proof.
  intros Hk. unfold unless_replayed.
  eapply triple_bind; [apply quiet_calls; destruct (bool_decide _); quiet_run|].
  intros [o|]; [apply quiet_calls; quiet_run | exact Hk].
Qed.

Ltac calls_step := eapply triple_bind; [apply quiet_calls; eauto with golib typeclass_instances|].

Definition sends (req : SendRequest) (a : action) : Prop :=
  exists cmd reply, a = ASend cmd reply /\ sc_Payload cmd = req /\ sc_ExpiresAt cmd = sr_ExpiresAt req.

Definition executes (req : OpRequest) (a : action) : Prop :=
  exists cmd reply, a = AOp cmd reply /\ oc_Op cmd = or_Op req /\ oc_ChatJID cmd = or_Chat req /\
    oc_SenderJID cmd = or_Sender req /\ oc_MessageID cmd = or_MsgID req /\
    oc_Emoji cmd = or_Emoji req /\ oc_NewText cmd = or_NewText req /\
    oc_Options cmd = or_Options req /\ oc_ToJID cmd = or_To req /\
    oc_ExpiresAt cmd = or_ExpiresAt req.

Lemma valid_not_op req : Validate req = None -> isOpType (sr_Type req) = false.
Proof.
  intros Hv. unfold isOpType. apply bool_decide_eq_false. intros Hin.
  unfold Validate, validateRequest in Hv. apply reject_None in Hv as [_ Hv].
  apply reject_None in Hv as [_ Hv]. unfold validate_body, is_media_type in Hv. cbv zeta in Hv.
  repeat (apply elem_of_cons in Hin as [Hin|Hin]; [rewrite Hin in Hv; discriminate|]).
  by apply not_elem_of_nil in Hin.
Qed.

Lemma Send_calls org sess req opts :
  triple (all_calls (sends req)) (Send s org sess req opts) (fun _ => all_calls (sends req))
    (all_calls (sends req)).
Proof.
  unfold Send. destruct (Validate req) eqn:Hv; [by apply triple_throw|]. apply valid_not_op in Hv.
  calls_step. intros sn. apply unless_replayed_calls. calls_step. intros ?.
  destruct (so_Async opts).
  - unfold enqueueAsync. calls_step. intros t. calls_step. intros e.
    apply insert_or_replay_calls; [apply insertCommand_quiet|]. intros ?. by apply triple_ret.
  - unfold sendSync. do 2 (calls_step; intros ?). calls_step. intros t.
    eapply triple_bind; [apply newCommand_calls|]. intros e. apply triple_pure. intros [Hx _].
    apply insert_or_replay_calls; [apply insertCommand_quiet|]. intros ?.
    apply (triple_bind _ _ _ (fun _ => all_calls (sends req))); [|intros ?; by apply triple_ret].
    apply dispatchClaimed_calls. unfold calls_allowed. rewrite Hv. intros r _.
    exists (send_command e req), r. done.
Qed.

Lemma ExecuteOp_calls `{!SendCodecLaws J} org sess req :
  forallb utf8_valid (op_strings (opRequestToPayload req)) = true ->
  triple (all_calls (executes req)) (ExecuteOp s org sess req) (fun _ => all_calls (executes req))
    (all_calls (executes req)).
Proof.
  intros Hutf. unfold ExecuteOp. destruct (ValidateOp req) eqn:Hv; [by apply triple_throw|].
  calls_step. intros sn. apply unless_replayed_calls. do 3 (calls_step; intros ?). calls_step. intros t.
  eapply triple_bind; [apply newCommand_calls|]. intros e. apply triple_pure. intros [Hx _].
  destruct (marshal_op _) as [err|payload] eqn:Hm; [by apply triple_throw|].
  apply insert_or_replay_calls; [apply insert_quiet|]. intros ?.
  apply dispatchClaimed_calls. unfold calls_allowed. cbn [sr_Type blank_request].
  assert (Hop : isOpType (or_Op req) = true).
  { unfold isOpType. apply bool_decide_eq_true. unfold ValidateOp, validateOp in Hv.
    apply reject_None in Hv as [_ Hv]. apply reject_None in Hv as [_ Hv].
    match goal with |- ?P => destruct (decide P) as [|Hn]; [done|] end. exfalso.
    rewrite !not_elem_of_cons in Hn. destruct Hn as (? & ? & ? & ? & ? & _).
    rewrite !bool_decide_false in Hv by done. discriminate. }
  rewrite Hop. intros p r Hp _. cbn [ob_Payload set_payload] in Hp.
  rewrite (op_decodes _ _ Hutf Hm) in Hp. injection Hp as <-.
  exists (op_command (set_payload payload e) (opRequestToPayload req)), r. cbn. rewrite Hx. done.
Qed.
End Sch.

(** ** Runs of the pipeline *)

Inductive sched_op :=
  | OpSend (org session : string) (req : SendRequest) (opts : SendOptions)
  | OpExecute (org session : string) (req : OpRequest)
  | OpLookup (org session key : string)
  | OpProcessDue.

Definition run_op (s : OutboundScheduler E) (a : sched_op) : M W unit :=
  match a with
  | OpSend org sess req opts => Send s org sess req opts;; mret tt
  | OpExecute org sess req => ExecuteOp s org sess req;; mret tt
  | OpLookup org sess key => LookupByIdempotency s org sess key;; mret tt
  | OpProcessDue => processDue s
  end.

(** One operation of one replica; replicas may differ in configuration. *)
Definition pipeline_step (w w' : W) : Prop := exists s a r, run_op s a w = (r, w').

Lemma run_op_settled s a id : respects (keeps (settled id)) (run_op s a).
Proof.
  intros w r w' Hrun Hw.
  enough (Ht : triple (settled id) (run_op s a) (fun _ => settled id) (settled id)).
  { specialize (Ht _ _ _ Hw Hrun). by destruct r. }
  assert (Hret : forall A (m : M W A), triple (settled id) m (fun _ => settled id) (settled id) ->
            triple (settled id) (m;; mret tt) (fun _ => settled id) (settled id)).
  { intros A m Hm. eapply triple_bind; [exact Hm|]. intros ?. by apply triple_ret. }
  destruct a; cbn [run_op];
    auto using Send_settled, ExecuteOp_settled, Lookup_settled, processDue_settled.
Qed.

(** ** Properties *)

(** C8: No double send after an acknowledgement. Once a command row holds
    WhatsApp's acknowledgement, whatever sends, operations, lookups and worker
    rounds follow on any replica, with any interleaving of the others, failed
    statements, clock and engine, the engine is never called for it again and
    the row keeps its acknowledgement. *)
Theorem acknowledged_never_resent (w w' : W) (id : string) (o : OutboxEntry) :
  sound w -> w_log w = [] -> wrows w !! id = Some o ->
  ob_AcknowledgedAt o <> None -> ob_WAMessageID o <> None ->
  rtc pipeline_step w w' ->
  (forall x, x ∈ w_log w' -> (fst ∘ fst <$> called (lg_act x)) <> Some id) /\
  exists o', wrows w' !! id = Some o' /\ ob_AcknowledgedAt o' <> None /\ ob_WAMessageID o' <> None.
Proof.
  intros Hw Hl Ho Ha Hwa Hsteps.
  assert (Hset : settled id w).
  { split; [done|]. split; [by exists o|]. rewrite Hl. by intros y ?%not_elem_of_nil. }
  assert (settled id w') as (_ & Hrow & Hlog); [|done].
  clear Hw Hl Ho. induction Hsteps as [w|w w1 w2 (s & a & r & Hrun) _ IH]; [done|].
  apply IH. exact (run_op_settled s a id _ _ _ Hrun Hset).
Qed.

(** C34: Calls are made under the lease, marked and in time. In one attempt of a
    leased command the engine is called at most once, for that command and with
    its deadline, never when it is acknowledged; and a first dispatch starts
    only when the stored row is held under this attempt's lease with the effect
    marker set, and the last reading of the clock is before the deadline. *)
Theorem engine_called_under_lease (s : OutboundScheduler E) (e : OutboxEntry) (req : SendRequest)
  (checkLimit : bool) (w w' : W) r post x pre :
  sound w -> w_log w = [] ->
  dispatchClaimed s e req checkLimit w = (r, w') ->
  w_log w' = post ++ x :: pre -> is_call (lg_act x) = true ->
  called (lg_act x) = Some (ob_ID e, ob_SessionID e, ob_ExpiresAt e) /\ call_ok e x pre.
Proof.
  intros Hw Hl Hrun Hsplit Hcall. pose proof (dispatch_audit s e req checkLimit w w' r Hw Hl Hrun) as Hc.
  pose proof (audited_elem _ _ _ _ _ Hc Hsplit) as Hx. unfold audit1 in Hx.
  by destruct (lg_act x).
Qed.

(** C36: A failure is recorded only when nothing was sent. An attempt records
    its command as definitely failed, under its own id and lease, only when an
    earlier attempt cannot have reached WhatsApp and in this one the engine was
    not called, or proved that it did not dispatch, or rejected the command for
    good (a stored operation that cannot be decoded apart); every other outcome
    stays retryable or becomes unknown. *)
Theorem failure_means_nothing_sent (s : OutboundScheduler E) (e : OutboxEntry) (req : SendRequest)
  (checkLimit : bool) (w w' : W) r post x pre id stamp waID note :
  sound w -> w_log w = [] ->
  dispatchClaimed s e req checkLimit w = (r, w') ->
  w_log w' = post ++ x :: pre -> lg_act x = AComplete id stamp OutboxFailed waID note ->
  id = ob_ID e /\ stamp = ob_UpdatedAt e /\ failure_ok e pre.
Proof.
  intros Hw Hl Hrun Hsplit Hact. pose proof (dispatch_audit s e req checkLimit w w' r Hw Hl Hrun) as Hc.
  pose proof (audited_elem _ _ _ _ _ Hc Hsplit) as Hx. unfold audit1 in Hx. rewrite Hact in Hx.
  destruct Hx as (-> & -> & Hf). auto.
Qed.

(** Success means sent, projected and recorded. When an attempt returns a
    synchronous result, the stored row is terminally [sent] with the returned
    message id, the completion was the attempt's last action and, for a send
    whose recorder and publisher are wired, it directly followed the successful
    recording of the message and the successful publication of its event, which
    carries the command id. Any other return only defers the projection. *)
Theorem success_is_projected_and_recorded (s : OutboundScheduler E) (e : OutboxEntry)
  (req : SendRequest) (checkLimit : bool) (w w' : W) (r : SendResult) :
  sound w -> dispatchClaimed s e req checkLimit w = (inr r, w') ->
  r_OutboxID r = ob_ID e /\
  (r_Mode r = ModeAsync \/
   row_sent (ob_ID e) (r_WAMessageID r) w' /\
   exists x l, w_log w' = x :: l /\
     lg_act x = AComplete (ob_ID e) (ob_UpdatedAt e) OutboxSent (Some (r_WAMessageID r)) None /\
     (isOpType (sr_Type req) = false -> projected s e req (r_WAMessageID r) l)).
Proof.
  intros Hw Hrun. destruct (dispatchClaimed_returns s e req checkLimit w r w' Hw Hrun)
    as [(Hid & [Hm|(Hr & Hrow & x & l & Hl & Hx)]) Hp]; [auto|].
  split; [done|]. right. split; [done|]. exists x, l. split; [done|]. split; [done|].
  intros Hop. rewrite Hl in Hp. apply Hp; [done|]. destruct Hr as [ts ->]. done.
Qed.

(** Nothing is accepted without a durable row. Whenever [Send] or
    [ExecuteOp] returns a result - fresh, replayed, synchronous or queued - the
    outbox id it reports names a stored command of the session asked for,
    whatever the other replicas did meanwhile. *)
Theorem accepted_command_has_row (s : OutboundScheduler E) (org id : string) (w w' : W)
  (m : M W SendResult) (r : SendResult) :
  source_ok s -> sound w ->
  (exists req opts, m = Send s org id req opts) \/ (exists req, m = ExecuteOp s org id req) ->
  m w = (inr r, w') ->
  exists o, wrows w' !! r_OutboxID r = Some o /\ ob_SessionID o = id.
Proof.
  intros Hsrc Hw Hm Hrun.
  destruct Hm as [(req & opts & ->)|(req & ->)];
    [apply (Send_accepted s org id req opts Hsrc _ _ _ Hw Hrun)
    |apply (ExecuteOp_accepted s org id req Hsrc _ _ _ Hw Hrun)].
Qed.

(** A call carries the request. Whatever [Send] asks the engine is to send
    exactly the validated request with its deadline, and whatever [ExecuteOp]
    asks is the requested operation with all its arguments - although it is
    read back from the stored JSON payload, which shares a column with sends
    and is told apart by its type alone. *)
Theorem calls_carry_the_request `{!SendCodecLaws J} (s : OutboundScheduler E) (org id : string)
  (req : SendRequest) (opts : SendOptions) (op : OpRequest) (w ws wo : W) rs ro x :
  w_log w = [] -> forallb utf8_valid (op_strings (opRequestToPayload op)) = true ->
  Send s org id req opts w = (rs, ws) -> ExecuteOp s org id op w = (ro, wo) ->
  is_call (lg_act x) = true ->
  (x ∈ w_log ws -> sends req (lg_act x)) /\ (x ∈ w_log wo -> executes op (lg_act x)).
Proof.
  intros Hl Hutf Hs Ho Hcall.
  assert (H0 : forall good, all_calls good w) by (intros good y; by rewrite Hl, elem_of_nil).
  pose proof (Send_calls s org id req opts _ _ _ (H0 _) Hs) as H1.
  pose proof (ExecuteOp_calls s org id op Hutf _ _ _ (H0 _) Ho) as H2.
  split; intros Hx; [destruct rs; by apply (H1 x Hx) | destruct ro; by apply (H2 x Hx)].
Qed.

(** An idempotency key replays. When the key of a request already names a
    command, [Send] - synchronous or not - and [ExecuteOp] make no call,
    projection or update: they answer with the stored outcome when the command
    is the session's own and with not-found otherwise. *)
Theorem idempotent_replay_has_no_effect (s : OutboundScheduler E) (org id key : string) (w : W)
  (sess : WASession) (e1 : E) (st2 : S) (e2 : E) (prior : OutboxEntry) (st3 : S)
  (m : M W SendResult) :
  key <> "" -> sch_sessions s id (w_env w) = (inr sess, e1) -> ws_OrganizationID sess = org ->
  others (w_store w, e1) = (st2, e2) ->
  st_GetByIdempotency org key st2 = (inr prior, st3) ->
  (exists req async, Validate req = None /\ m = Send s org id req (MkSendOptions async key)) \/
  (exists req, ValidateOp req = None /\ or_IdempotencyKey req = key /\ m = ExecuteOp s org id req) ->
  m w = (if decide (ob_SessionID prior = id) then inr (replayOutboxResult prior)
         else inl (ErrNotFound "outbox entry not found"),
         World st3 e2 (w_clock w) (w_log w)).
Proof.
  intros Hkey Hs Horg Hoth Hget Hm.
  assert (Hrun : forall k : M W SendResult, (sn ← session s org id; unless_replayed org id key k) w =
    (if decide (ob_SessionID prior = id) then inr (replayOutboxResult prior)
     else inl (ErrNotFound "outbox entry not found"), World st3 e2 (w_clock w) (w_log w))).
  { intros k. unfold session, unless_replayed, priorByIdempotency, replay.
    rewrite (bool_decide_false _ Hkey). run_db. unfold call_env. rewrite Hs. cbn.
    rewrite (bool_decide_true _ Horg). cbn. unfold on_store. cbn. rewrite Hoth, Hget. cbn.
    case_decide as Hd; [rewrite (bool_decide_true _ Hd) | rewrite (bool_decide_false _ Hd)]; done. }
  destruct Hm as [(req & async & Hv & ->)|(req & Hv & Hk & ->)].
  - unfold Send. rewrite Hv. cbn [so_IdempotencyKey].
    unfold session in *. revert Hrun. run_db. unfold call_env. rewrite Hs. cbn.
    rewrite (bool_decide_true _ Horg). cbn. auto.
  - unfold ExecuteOp. rewrite Hv, Hk.
    unfold session in *. revert Hrun. run_db. unfold call_env. rewrite Hs. cbn.
    rewrite (bool_decide_true _ Horg). cbn. auto.
Qed.
End Spec.

(** The retry delay is bounded and doubles. Under a configuration that
    validates, the delay is always positive and at most the cap, whatever the
    attempt and however the shift overflows; as long as it does not overflow,
    attempt [n] waits [base * 2^(n-1)], capped. *)
Theorem backoff_bounded {E} (c : OutboundSchedulerConfig E) (attempt : Z) :
  normalize c = None -> 1 <= attempt ->
  let base := cfg_BackoffBase c in
  let cap := cfg_BackoffCap c in
  0 < backoff base cap attempt <= cap /\
  (base * 2 ^ (attempt - 1) < 2 ^ 63 ->
   backoff base cap attempt = Z.min (base * 2 ^ (attempt - 1)) cap).
Proof.
  intros Hn Ha base cap.
  assert (0 < base /\ base <= cap) as [Hb Hc].
  { revert Hn. unfold normalize. cbv beta zeta.
    destruct (cfg_Lease c <=? 0), (cfg_Batch c <=? 0), (cfg_Poll c <=? 0), (cfg_MaxAttempts c <=? 0);
      try discriminate.
    destruct ((cfg_BackoffBase c <=? 0) || (cfg_BackoffCap c <? cfg_BackoffBase c)) eqn:Hd;
      [discriminate|].
    intros _. to_prop. unfold base, cap. lia. }
  unfold backoff. split.
  - destruct (_ || _) eqn:Hd; [lia|]. to_prop. lia.
  - intros Hlt. rewrite Z.shiftl_mul_pow2 by lia.
    assert (0 < base * 2 ^ (attempt - 1)) by (apply Z.mul_pos_pos; [lia|apply Z.pow_pos_nonneg; lia]).
    rewrite i64_id by (unfold in_i64; lia).
    destruct (_ || _) eqn:Hd; to_prop; [apply orb_true_iff in Hd as [Hd|Hd]; to_prop|]; lia.
Qed.

(** ** A concrete pipeline

    The MySQL store, a clock that advances a millisecond per reading, an engine
    that acknowledges (or refuses before dispatch) every command and wired
    projections. *)

#[local] Instance demo_mysql : MySQL := {| collate s := s; json_column p := Some p; json_remove _ p := p |}.
#[local] Instance demo_outbound : OutboundLib := {|
  url_Parse s := None;
  sha256_Sum256 s := repeat "a"%byte 32;
  go_quote s := s;
|}.

Definition demo_req : SendRequest := 
  MkSendRequest SendTypeText "1@s.whatsapp.net" None "hi" "" [] None [] None "" None "" [] 0 0 false
    (S754_zero false) (S754_zero false) None None [] "".
Definition demo_op : OpRequest := MkOpRequest OpReaction None "" "1@g.us" "" "M1" "+" "" [] "".

#[local] Instance opPayload_eq_dec : EqDecision opPayload.
Proof. solve_decision. Defined.

#[local] Instance demo_codec : SendCodec := {|
  marshal_send _ := inr ["s"%byte];
  unmarshal_send _ := inr demo_req;
  marshal_op p := if decide (p = opRequestToPayload demo_op) then inr ["o"%byte]
                  else inl (ErrMsg "not the demo operation");
  unmarshal_op _ := inr (opRequestToPayload demo_op);
  payload_json _ := JNull;
|}.

#[local] Instance demo_codec_laws : SendCodecLaws demo_codec.
Proof. split. cbn. intros p b _. destruct (decide _) as [->|]; [done | discriminate]. Qed.

#[local] Instance demo_runtime : Runtime replica Z := {|
  NewULID e := ("n" +:+ pretty e, e + 1);
  NewEventID e := ("evt", e);
  NowMs e := (e, e);
  others se := se;
|}.

#[local] Instance demo_runtime_laws : RuntimeLaws replica Z.
Proof. split. intros st e Hok. split; [exact Hok | reflexivity]. Qed.

Definition demo_config : OutboundSchedulerConfig Z :=
  MkConfig 60000000000 32 2000000000 10 5000000000 600000000000 (Some (fun e => (e, e + 1000000))).

Definition demo_scheduler (err : option goerr) : OutboundScheduler Z :=
  MkOutboundScheduler (fun id e => (inr (MkWASession id "org_1" 60 600), e))
    (MkEngine (fun _ e => ((MkSendMessageResult "WA1" zero_time None, err), e))
              (fun _ e => ((MkMessageOpResult zero_time "WA2", err), e)))
    (fun _ _ _ e => (inr (true, 0), e))
    (Some (fun _ e => (inr tt, e))) None (Some (fun _ e => (inr tt, e)))
    demo_config (fun e => (e, e + 1000000)).

Definition demo_row (key : option string) (ack : option Z) (waID : option string) : OutboxEntry :=
  MkOutboxEntry "a" "org_1" "sess_1" key ["s"%byte] OutboxSending 1 0 None ack false waID None None 100 100.

Definition demo_store (o : OutboxEntry) : replica := Replica (Db {[ "a" := o ]} []) [].
Definition demo_world (o : OutboxEntry) : world replica Z :=
  World (demo_store o) 100000000000 0 [].

Lemma demo_sound key ack waID :
  (ack <> None -> waID <> None) -> sound (demo_world (demo_row key ack waID)).
Proof.
  intros Hack. unfold sound. cbn. split.
  - by intros id o [<- <-]%lookup_singleton_Some.
  - by intros id1 id2 o1 o2 k [<- <-]%lookup_singleton_Some [<- <-]%lookup_singleton_Some.
  - by intros id o [<- <-]%lookup_singleton_Some.
Qed.

Definition demo_dispatch (err : option goerr) : (goerr + SendResult) * world replica Z :=
  dispatchClaimed (demo_scheduler err) (demo_row None None None) demo_req true
    (demo_world (demo_row None None None)).

Lemma acknowledged_never_resent_witness :
  let w' := (processDue (demo_scheduler None) (demo_world (demo_row None (Some 100) (Some "WA1")))).2 in
  (forall x, x ∈ w_log w' -> (fst ∘ fst <$> called (lg_act x)) <> Some "a") /\
  length (w_log w') = 3%nat.
Proof.
  intros w'. split; [|vm_compute; reflexivity].
  apply (acknowledged_never_resent (demo_world (demo_row None (Some 100) (Some "WA1"))) w' "a"
           (demo_row None (Some 100) (Some "WA1"))); [by apply demo_sound | done | done | done | done |].
  apply rtc_once. exists (demo_scheduler None), OpProcessDue. eexists. apply surjective_pairing.
Defined.

Lemma engine_called_under_lease_witness :
  let l := w_log (demo_dispatch None).2 in
  let x := nth 3 l (Logged ∅ 0 (ACapture "" demo_req (inr tt))) in
  is_call (lg_act x) = true /\ called (lg_act x) = Some ("a", "sess_1", None) /\
  call_ok (demo_row None None None) x (drop 4 l).
Proof.
  intros l x. assert (Hcall : is_call (lg_act x) = true) by (vm_compute; reflexivity).
  split; [exact Hcall|].
  apply (engine_called_under_lease (demo_scheduler None) (demo_row None None None) demo_req true
           (demo_world (demo_row None None None)) (demo_dispatch None).2 (demo_dispatch None).1
           (take 3 l) x (drop 4 l)).
  - exact (demo_sound None None None (fun H => False_ind _ (H eq_refl))).
  - reflexivity.
  - unfold demo_dispatch. apply surjective_pairing.
  - vm_compute. reflexivity.
  - exact Hcall.
Defined.

Definition demo_refusal : option goerr := Some (ErrNoDispatch (ErrValidation "unknown recipient")).

Lemma failure_means_nothing_sent_witness :
  let l := w_log (demo_dispatch demo_refusal).2 in
  failure_ok (demo_row None None None) (tail l) /\ length l = 2%nat.
Proof.
  intros l. split; [|vm_compute; reflexivity].
  apply (failure_means_nothing_sent (demo_scheduler demo_refusal) (demo_row None None None) demo_req true
           (demo_world (demo_row None None None)) (demo_dispatch demo_refusal).2
           (demo_dispatch demo_refusal).1 []
           (nth 0 l (Logged ∅ 0 (ACapture "" demo_req (inr tt)))) (tail l)
           "a" 100 None (Some "validation_error: unknown recipient")).
  - exact (demo_sound None None None (fun H => False_ind _ (H eq_refl))).
  - reflexivity.
  - unfold demo_dispatch. apply surjective_pairing.
  - vm_compute. reflexivity.
  - vm_compute. reflexivity.
Defined.

Lemma success_is_projected_and_recorded_witness :
  match (demo_dispatch None).1 with
  | inr r => r_Mode r = ModeSync /\ r_OutboxID r = "a" /\
      (r_Mode r = ModeAsync \/ row_sent "a" (r_WAMessageID r) (demo_dispatch None).2)
  | inl _ => False
  end.
Proof.
  assert (Hr : exists r, (demo_dispatch None).1 = inr r /\ r_Mode r = ModeSync)
    by (eexists; split; vm_compute; reflexivity).
  destruct Hr as (r & Hr & Hmode). rewrite Hr. split; [exact Hmode|].
  destruct (success_is_projected_and_recorded (demo_scheduler None) (demo_row None None None) demo_req true
    (demo_world (demo_row None None None)) (demo_dispatch None).2 r
    (demo_sound None None None (fun H => False_ind _ (H eq_refl)))) as [Hid [Hm|[Hrow _]]].
  - rewrite <- Hr. unfold demo_dispatch. apply surjective_pairing.
  - split; [exact Hid|]. left. exact Hm.
  - split; [exact Hid|]. right. exact Hrow.
Defined.

Definition demo_send (async : bool) (key : string) : (goerr + SendResult) * world replica Z :=
  Send (demo_scheduler None) "org_1" "sess_1" demo_req (MkSendOptions async key)
    (demo_world (demo_row (Some "k1") None None)).

Lemma accepted_command_has_row_witness :
  match (demo_send true "k2").1 with
  | inr r => r_OutboxID r <> "a" /\
      exists o, wrows (demo_send true "k2").2 !! r_OutboxID r = Some o /\ ob_SessionID o = "sess_1"
  | inl _ => False
  end.
Proof.
  assert (Hr : exists r, (demo_send true "k2").1 = inr r /\ r_OutboxID r <> "a").
  { eexists. split; [vm_compute; reflexivity | vm_compute; discriminate]. }
  destruct Hr as (r & Hr & Hid). rewrite Hr. split; [exact Hid|].
  apply (accepted_command_has_row (demo_scheduler None) "org_1" "sess_1"
    (demo_world (demo_row (Some "k1") None None)) (demo_send true "k2").2
    (Send (demo_scheduler None) "org_1" "sess_1" demo_req (MkSendOptions true "k2")) r).
  - intros id e sess e' [= <- _]. reflexivity.
  - apply (demo_sound (Some "k1") None None (fun H => False_ind _ (H eq_refl))).
  - left. exists demo_req, (MkSendOptions true "k2"). reflexivity.
  - rewrite <- Hr. unfold demo_send. apply surjective_pairing.
Defined.

Definition demo_execute : (goerr + SendResult) * world replica Z :=
  ExecuteOp (demo_scheduler None) "org_1" "sess_1" demo_op (demo_world (demo_row (Some "k1") None None)).

Lemma calls_carry_the_request_witness :
  exists x, x ∈ w_log demo_execute.2 /\ is_call (lg_act x) = true /\ executes demo_op (lg_act x).
Proof.
  set (x := nth 1 (w_log demo_execute.2) (Logged ∅ 0 (ACapture "" demo_req (inr tt)))).
  assert (Hcall : is_call (lg_act x) = true) by (vm_compute; reflexivity).
  assert (Hx : x ∈ w_log demo_execute.2).
  { apply list_elem_of_In, nth_In. vm_compute. lia. }
  exists x. split; [exact Hx|]. split; [exact Hcall|].
  apply (calls_carry_the_request (demo_scheduler None) "org_1" "sess_1" demo_req
    (MkSendOptions false "") demo_op (demo_world (demo_row (Some "k1") None None))
    (demo_send false "").2 demo_execute.2 (demo_send false "").1 demo_execute.1 x).
  - reflexivity.
  - vm_compute. reflexivity.
  - unfold demo_send. apply surjective_pairing.
  - unfold demo_execute. apply surjective_pairing.
  - exact Hcall.
  - exact Hx.
Defined.

Lemma idempotent_replay_has_no_effect_witness :
  exists r, (demo_send false "k1").1 = inr r /\ r_OutboxID r = "a" /\ r_Replayed r = true /\
    w_log (demo_send false "k1").2 = [].
Proof.
  pose proof (idempotent_replay_has_no_effect (demo_scheduler None) "org_1" "sess_1" "k1"
    (demo_world (demo_row (Some "k1") None None)) (MkWASession "sess_1" "org_1" 60 600) 100000000000
    (demo_store (demo_row (Some "k1") None None)) 100000000000
    (demo_row (Some "k1") None None) (demo_store (demo_row (Some "k1") None None))
    (Send (demo_scheduler None) "org_1" "sess_1" demo_req (MkSendOptions false "k1"))
    ltac:(discriminate) eq_refl eq_refl eq_refl ltac:(vm_compute; reflexivity)
    ltac:(left; exists demo_req, false; split; [vm_compute; reflexivity | reflexivity])) as H.
  exists (replayOutboxResult (demo_row (Some "k1") None None)). unfold demo_send. rewrite H.
  cbn [fst snd w_log]. split; [reflexivity|]. split; [reflexivity|]. split; reflexivity.
Defined.

Lemma backoff_bounded_witness :
  normalize demo_config = None /\ backoff 5000000000 600000000000 3 = 20000000000.
Proof.
  assert (Hn : normalize demo_config = None) by reflexivity.
  split; [exact Hn|]. destruct (backoff_bounded demo_config 3 Hn ltac:(lia)) as [_ H]. cbn in H.
  rewrite H; [reflexivity | lia].
Defined.
