(* ===== verification/EventIngest.v ===== *)
(** * Durable ingestion of gateway events on the API side

    Models [internal/store/gateway_event_ingest.go],
    [internal/store/outgoing_event_claim.go] and [internal/store/event_log.go]:
    the fenced, deduplicating ingestion of a gateway's event batch, the claim
    that makes an API send and the gateway's echo of it one public event, the
    event log, and the leases of the post-commit work.

    Tables are maps and lists, transactions are [with_rollback] around
    statements of which the environment may fail any. [INSERT IGNORE] skips a
    duplicate key and a row its CHECK constraint refuses; values fit their
    columns. JSON decoding is the class [IngestCodec]. *)

From S2P Require Import Prelude Journal Domain OutboxStore.

#[local] Open Scope Z_scope.

(** [store.GatewayEvent]. *)
Record GatewayEvent := MkEnvelope {
  gv_EventID : string;
  gv_GatewayID : string;
  gv_SessionID : string;
  gv_OrganizationID : string;
  gv_Type : string;
  gv_ConnectionEpoch : Z;
  gv_AssignmentEpoch : Z;
  gv_Payload : bytes;
  gv_OccurredAt : Z;
}.

Record CommittedEventWork := MkWork {
  wk_Owner : string;
  wk_ClaimedAt : GoTime;
  wk_LeaseUntil : GoTime;
  wk_MaxItems : Z;
}.

(** A row of gateway_ingested_events; its key and [event_log_id] are both the
    event id. *)
Record IngestRow := MkIngestRow {
  ig_GatewayID : string;
  ig_ConnectionEpoch : Z;
  ig_SessionID : string;
  ig_AssignmentEpoch : Z;
  ig_OrganizationID : string;
  ig_EventLogID : string;
  ig_CommittedAt : Z;
  ig_ClaimedBy : option string;
  ig_LeaseUntil : option Z;
  ig_CompletedAt : option Z;
}.

Record EventLogEntry := MkLogEntry {
  el_ID : Z;
  el_EventID : string;
  el_OrganizationID : string;
  el_SessionID : string;
  el_Type : string;
  el_Payload : bytes;
  el_CreatedAt : Z;
}.

#[export] Instance EventLogEntry_eq_dec : EqDecision EventLogEntry.
Proof. solve_decision. Defined.

(** A domain event whose payload is the stored document. *)
Record RawEvent := MkRawEvent {
  re_Schema : string;
  re_ID : string;
  re_Type : string;
  re_Session : string;
  re_Organization : string;
  re_Timestamp : Z;
  re_Payload : bytes;
}.

(** organization, session, chat and WhatsApp message id of a sent message. *)
Definition outgoingEventIdentity : Type := string * string * string * string.

Record GatewayRow := MkGatewayRow { gr_ConnectionEpoch : Z; gr_DeletedAt : option Z }.

(** The tables: assignments by session (gateway and epoch), sessions
    (organization), gateways, ingested events by event id, the log in insertion
    order with its AUTO_INCREMENT mark, and the claims of outgoing events. *)
Record edb := MkEdb {
  t_assignments : gmap string (string * Z);
  t_sessions : gmap string string;
  t_gateways : gmap string GatewayRow;
  t_ingested : gmap string IngestRow;
  t_log : list EventLogEntry;
  t_autoinc : Z;
  t_claims : gmap outgoingEventIdentity (string * string);
}.

Definition with_ingested (m : gmap string IngestRow) (t : edb) : edb :=
  MkEdb (t_assignments t) (t_sessions t) (t_gateways t) m (t_log t) (t_autoinc t) (t_claims t).
Definition with_claims (m : gmap outgoingEventIdentity (string * string)) (t : edb) : edb :=
  MkEdb (t_assignments t) (t_sessions t) (t_gateways t) (t_ingested t) (t_log t) (t_autoinc t) m.
Definition with_log (l : list EventLogEntry) (mark : Z) (t : edb) : edb :=
  MkEdb (t_assignments t) (t_sessions t) (t_gateways t) (t_ingested t) l mark (t_claims t).

(** [encoding/json]: the identity fields of a sent message (message id, chat,
    from-me) and an object with raw members. *)
Class IngestCodec := {
  outgoing_identity : bytes -> option (string * string * bool);
  unmarshal_raw : bytes -> option (gmap string bytes);
  marshal_raw : gmap string bytes -> goerr + bytes;
}.

Definition ErrGatewayEventStale : goerr := ErrMsg "gateway event stale".
Definition errCommittedEventNotClaimed : goerr :=
  ErrMsg "committed event is not claimed by this owner".

Section Repo.
Context `{DB : MySQL} `{J : IngestCodec}.

(** ** The statements of an ingestion *)

(** [SELECT COUNT] over assignment, session and gateway: the primary keys leave
    at most one row. *)
Definition count_owned (ev : GatewayEvent) (t : edb) : Z :=
  match t_assignments t !! gv_SessionID ev, t_sessions t !! gv_SessionID ev with
  | Some (gw, epoch), Some org =>
      match t_gateways t !! gw with
      | Some g =>
          if bool_decide (gw = gv_GatewayID ev) && bool_decide (org = gv_OrganizationID ev) &&
             (epoch =? gv_AssignmentEpoch ev) && (gr_ConnectionEpoch g =? gv_ConnectionEpoch ev) &&
             is_none (gr_DeletedAt g)
          then 1 else 0
      | None => 0
      end
  | _, _ => 0
  end.

Definition insert_ingested (ev : GatewayEvent) (committedAt : Z) (t : edb) : Z * edb :=
  let ignored := bool_decide (is_Some (t_ingested t !! gv_EventID ev)) ||
                 (gv_ConnectionEpoch ev <=? 0) || (gv_AssignmentEpoch ev <=? 0) in
  if ignored then (0, t)
  else (1, with_ingested (<[gv_EventID ev :=
    MkIngestRow (gv_GatewayID ev) (gv_ConnectionEpoch ev) (gv_SessionID ev) (gv_AssignmentEpoch ev)
      (gv_OrganizationID ev) (gv_EventID ev) committedAt None None None]> (t_ingested t)) t).

Definition insert_claim (identity : outgoingEventIdentity) (eventID owner : string) (t : edb)
  : unit * edb :=
  let ignored := bool_decide (is_Some (t_claims t !! identity)) ||
                 existsb (fun p => bool_decide (p.2.1 = eventID)) (map_to_list (t_claims t)) in
  (tt, if ignored then t else with_claims (<[identity := (eventID, owner)]> (t_claims t)) t).

Definition log_has (eventID : string) (t : edb) : bool :=
  existsb (fun e => bool_decide (el_EventID e = eventID)) (t_log t).

(** [INSERT INTO event_log]. *)
Definition insert_log (eventID org sess typ : string) (payload : bytes) (createdAt : Z) (t : edb)
  : (goerr + Z) * edb :=
  match json_column payload with
  | None => (inl (ErrMsg "Error 3140: Invalid JSON text"), t)
  | Some doc =>
      if log_has eventID t then (inl (ErrMsg "Error 1062: Duplicate entry"), t)
      else let id := t_autoinc t + 1 in
           (inr id, with_log (t_log t ++ [MkLogEntry id eventID org sess typ doc createdAt]) id t)
  end.

(** [UPDATE gateway_ingested_events SET f WHERE event id AND guard]. *)
Definition update_ingested (id : string) (guard : IngestRow -> bool) (f : IngestRow -> IngestRow)
  (t : edb) : Z * edb :=
  match t_ingested t !! id with
  | Some r => if guard r then (1, with_ingested (<[id := f r]> (t_ingested t)) t) else (0, t)
  | None => (0, t)
  end.

Definition set_completed (at_ : Z) (r : IngestRow) : IngestRow :=
  MkIngestRow (ig_GatewayID r) (ig_ConnectionEpoch r) (ig_SessionID r) (ig_AssignmentEpoch r)
    (ig_OrganizationID r) (ig_EventLogID r) (ig_CommittedAt r) (ig_ClaimedBy r) (ig_LeaseUntil r)
    (Some at_).

Definition set_leased (owner : string) (leaseUntil : Z) (r : IngestRow) : IngestRow :=
  MkIngestRow (ig_GatewayID r) (ig_ConnectionEpoch r) (ig_SessionID r) (ig_AssignmentEpoch r)
    (ig_OrganizationID r) (ig_EventLogID r) (ig_CommittedAt r) (Some owner) (Some leaseUntil)
    (ig_CompletedAt r).

Definition claimOutgoingEvent (identity : outgoingEventIdentity) (eventID owner : string)
  : M (db edb) (string * string) :=
  map_err (ErrWrap "store: claim outgoing message event") (exec (insert_claim identity eventID owner));;
  row ← map_err (ErrWrap "store: read outgoing message event claim")
                (query (fun t => t_claims t !! identity));
  match row with
  | Some claimed => mret claimed
  | None => throw (ErrWrap "store: read outgoing message event claim" (ErrMsg "sql: no rows in result set"))
  end.

(** ** Ingestion *)

(** The identity under which a gateway event competes with an API send. *)
Definition echo_identity (ev : GatewayEvent) : option outgoingEventIdentity :=
  if bool_decide (gv_Type ev = EventMessageFromMe) then
    match outgoing_identity (gv_Payload ev) with
    | Some (waMessageID, chatJID, true) =>
        if negb (bool_decide (waMessageID = "")) && negb (bool_decide (chatJID = ""))
        then Some (gv_OrganizationID ev, gv_SessionID ev, chatJID, waMessageID) else None
    | _ => None
    end
  else None.

(** Whether this event is the public one of its message. *)
Definition claim_echo (ev : GatewayEvent) : M (db edb) bool :=
  match echo_identity ev with
  | None => mret true
  | Some identity =>
      '(claimedID, claimedOwner) ← claimOutgoingEvent identity (gv_EventID ev) "gateway";
      mret (bool_decide (claimedOwner = "gateway") && bool_decide (claimedID = gv_EventID ev))
  end.

(** Strip private descriptors when attachments are not captured. *)
Definition strip_media_source (payload : bytes) : goerr + bytes :=
  match unmarshal_raw payload with
  | Some m => if bool_decide (is_Some (m !! "_mediaSource"))
              then marshal_raw (delete "_mediaSource" m) else inr payload
  | None => inr payload
  end.

Context (MediaCapture : option (GatewayEvent -> goerr + bytes)).

Definition public_payload (ev : GatewayEvent) : goerr + bytes :=
  match MediaCapture with
  | Some capture =>
      match capture ev with
      | inl err => inl (ErrWrap ("store: capture gateway event " +:+ gv_EventID ev +:+ " ("
                                 +:+ gv_Type ev +:+ ")") err)
      | inr payload => inr payload
      end
  | None => strip_media_source (gv_Payload ev)
  end.

(** The body of the loop of [IngestBatch]. *)
Definition ingest_one (committedAt : Z) (ev : GatewayEvent) : M (db edb) unit :=
  n ← map_err (ErrWrap "store: check gateway event ownership") (query (count_owned ev));
  if negb (n =? 1) then throw ErrGatewayEventStale else
  affected ← exec (insert_ingested ev committedAt);
  if affected =? 0 then mret tt else
  public ← claim_echo ev;
  if negb public then
    map_err (ErrWrap "store: complete duplicate sent echo")
      (exec (update_ingested (gv_EventID ev) (fun _ => true) (set_completed committedAt)));;
    mret tt
  else
    payload ← lift_result (public_payload ev);
    stmt (insert_log (gv_EventID ev) (gv_OrganizationID ev) (gv_SessionID ev) (gv_Type ev) payload
            (gv_OccurredAt ev));;
    mret tt.

Definition IngestBatch (events : list GatewayEvent) (committedAt : Z) : M (db edb) unit :=
  if bool_decide (length events = 0%nat) then throw (ErrMsg "empty gateway event batch") else
  with_rollback (
    begin_tx;;
    for_each (ingest_one committedAt) events;;
    commit_tx).

Definition Ingest (event : GatewayEvent) (committedAt : Z) : M (db edb) unit :=
  IngestBatch [event] committedAt.

(** ** The event log *)

(** [INSERT IGNORE INTO event_log]. *)
Definition insert_log_ignore (e : EventLogEntry) (t : edb) : (goerr + unit) * edb :=
  if bool_decide (json_column (el_Payload e) = None) then (inl (ErrMsg "Error 3140: Invalid JSON text"), t)
  else if log_has (el_EventID e) t then (inr tt, t)
  else let '(_, t') := insert_log (el_EventID e) (el_OrganizationID e) (el_SessionID e) (el_Type e)
                         (el_Payload e) (el_CreatedAt e) t in (inr tt, t').

Definition find_log (eventID : string) (t : edb) : option EventLogEntry :=
  head (filter (fun e => el_EventID e = eventID) (t_log t)).

Definition AppendOwnSentOnce (e : EventLogEntry) (chatJID waMessageID : string) : M (db edb) bool :=
  if negb (bool_decide (el_Type e = EventMessageFromMe)) || bool_decide (chatJID = "")
     || bool_decide (waMessageID = "") then
    throw (ErrMsg "store: outgoing sent event identity is required")
  else with_rollback (
    map_err (ErrWrap "store: begin outgoing sent event") begin_tx;;
    '(claimedID, claimedOwner) ← claimOutgoingEvent
      (el_OrganizationID e, el_SessionID e, chatJID, waMessageID) (el_EventID e) "api";
    if negb (bool_decide (claimedOwner = "api")) then
      map_err (ErrWrap "store: commit gateway-owned sent event") commit_tx;;
      mret false
    else if negb (bool_decide (claimedID = el_EventID e)) then
      throw (ErrMsg "store: conflicting API sent event claim")
    else
      map_err (ErrWrap "store: append API sent event") (stmt (insert_log_ignore e));;
      row ← map_err (ErrWrap "store: verify API sent event") (query (find_log (el_EventID e)));
      match row with
      | None => throw (ErrWrap "store: verify API sent event" (ErrMsg "sql: no rows in result set"))
      | Some r =>
          if negb (bool_decide (el_OrganizationID r = el_OrganizationID e)) ||
             negb (bool_decide (el_SessionID r = el_SessionID e)) ||
             negb (bool_decide (el_Type r = el_Type e)) then
            throw (ErrMsg "store: API sent event identity collision")
          else
            map_err (ErrWrap "store: commit API sent event") commit_tx;;
            mret true
      end).

Definition AppendEvent (e : EventLogEntry) : M (db edb) Z :=
  map_err (ErrWrap "store: append event")
    (stmt (insert_log (el_EventID e) (el_OrganizationID e) (el_SessionID e) (el_Type e) (el_Payload e)
             (el_CreatedAt e))).

(** Stickers are expanded by another repository. *)
Context (ExpandPayload : bytes -> goerr + bytes).

Definition set_el_payload (p : bytes) (e : EventLogEntry) : EventLogEntry :=
  MkLogEntry (el_ID e) (el_EventID e) (el_OrganizationID e) (el_SessionID e) (el_Type e) p (el_CreatedAt e).

Fixpoint expand_all (rows : list EventLogEntry) (out : list EventLogEntry)
  : goerr + list EventLogEntry :=
  match rows with
  | [] => inr out
  | row :: rest =>
      match ExpandPayload (el_Payload row) with
      | inl err => inl err
      | inr p => expand_all rest (out ++ [set_el_payload p row])
      end
  end.

(** [ORDER BY id ASC]. *)
Definition id_le (a b : EventLogEntry) : Prop := el_ID a <= el_ID b.
#[export] Instance id_le_dec : RelDecision id_le.
Proof. intros a b. apply Z_le_dec. Defined.

Definition ListEventLogSince (org session : string) (after limit : Z) (t : edb) : list EventLogEntry :=
  take (Z.to_nat limit) (merge_sort id_le
    (filter (fun e => bool_decide (el_OrganizationID e = org) &&
                      (bool_decide (session = "") || bool_decide (el_SessionID e = session)) &&
                      (after <? el_ID e) && negb (IsBulkEvent (el_Type e)) = true) (t_log t))).

Definition ListSince (organizationID sessionID : string) (afterID limit : Z)
  : M (db edb) (list EventLogEntry) :=
  let limit := normLimit limit in
  rows ← map_err (ErrWrap "store: list events")
                 (query (ListEventLogSince organizationID sessionID afterID limit));
  lift_result (expand_all rows []).

Definition GetByEventID (eventID : string) : M (db edb) EventLogEntry :=
  row ← map_err (ErrWrap "store: get event") (query (find_log eventID));
  match row with
  | None => throw (ErrNotFound "event not found")
  | Some e =>
      match ExpandPayload (el_Payload e) with
      | inl err => throw err
      | inr p => mret (set_el_payload p e)
      end
  end.

Definition raw_event (e : EventLogEntry) : RawEvent :=
  MkRawEvent Schema (el_EventID e) (el_Type e) (el_SessionID e) (el_OrganizationID e)
    (el_CreatedAt e) (el_Payload e).

Definition GetEvent (eventID : string) : M (db edb) RawEvent :=
  e ← GetByEventID eventID;
  mret (raw_event e).

(** ** Retention of the log *)

Definition retentionDeleteBatchSize : Z := 1000.

(** [ORDER BY created_at, id]. *)
Definition age_le (a b : EventLogEntry) : Prop :=
  el_CreatedAt a < el_CreatedAt b \/ (el_CreatedAt a = el_CreatedAt b /\ el_ID a <= el_ID b).
#[export] Instance age_le_dec : RelDecision age_le.
Proof. intros a b. unfold age_le. apply _. Defined.

(** An entry is unfinished while an ingested event it logs is not completed. *)
Definition unfinished (t : edb) (eventID : string) : bool :=
  from_option (fun r => is_none (ig_CompletedAt r)) false (t_ingested t !! eventID).

(** [waiting] are the events a pending or failed webhook delivery refers to. *)
Definition unreferenced (waiting : gset string) (cutoff : Z) (t : edb) (e : EventLogEntry) : bool :=
  (el_CreatedAt e <? cutoff) && negb (bool_decide (el_EventID e ∈ waiting)) &&
  negb (unfinished t (el_EventID e)).

Definition DeleteUnreferencedEventLogBefore (waiting : gset string) (cutoff limit : Z) (t : edb) : Z * edb :=
  let doomed := take (Z.to_nat limit) (merge_sort age_le
                  (filter (fun e => unreferenced waiting cutoff t e = true) (t_log t))) in
  (Z.of_nat (length doomed), with_log (filter (fun e => e ∉ doomed) (t_log t)) (t_autoinc t) t).

(** Repeat a bounded delete until it removes less than a batch; [None] when
    the fuel runs out. *)
Fixpoint deleteBatches {W} (fuel : nat) (deleteBatch : M W Z) (total : Z) : M W (option Z) :=
  match fuel with
  | O => mret None
  | S fuel =>
      n ← deleteBatch;
      if n <? retentionDeleteBatchSize then mret (Some (total + n))
      else deleteBatches fuel deleteBatch (total + n)
  end.

Definition deleteUnreferencedEvents (fuel : nat) (waiting : gset string) (cutoffMs : Z)
  : M (db edb) (option Z) :=
  deleteBatches fuel (map_err (ErrWrap "store: delete event log")
    (exec (DeleteUnreferencedEventLogBefore waiting cutoffMs retentionDeleteBatchSize))) 0.

(** ** Leases of the post-commit work *)

(** [(prior.committed_at, prior.event_log_id) < (i.committed_at, i.event_log_id)]. *)
Definition committed_le (a b : IngestRow) : Prop :=
  ig_CommittedAt a < ig_CommittedAt b \/
  (ig_CommittedAt a = ig_CommittedAt b /\ String.leb (ig_EventLogID a) (ig_EventLogID b) = true).
#[export] Instance committed_le_dec : RelDecision committed_le.
Proof. intros a b. unfold committed_le. apply _. Defined.
Definition committed_before (a b : IngestRow) : bool :=
  (ig_CommittedAt a <? ig_CommittedAt b) ||
  ((ig_CommittedAt a =? ig_CommittedAt b) && String.ltb (ig_EventLogID a) (ig_EventLogID b)).

Definition leased (now : Z) (r : IngestRow) : bool :=
  from_option (fun until => now <? until) false (ig_LeaseUntil r).

Definition ingest_rows (t : edb) : list IngestRow := (map_to_list (t_ingested t)).*2.

Definition claimable_event (locked : gset string) (now : Z) (t : edb) (r : IngestRow) : bool :=
  log_has (ig_EventLogID r) t && is_none (ig_CompletedAt r) && negb (leased now r) &&
  negb (existsb (fun prior => bool_decide (ig_SessionID prior = ig_SessionID r) &&
          is_none (ig_CompletedAt prior) && leased now prior && committed_before prior r)
        (ingest_rows t)) &&
  negb (bool_decide (ig_EventLogID r ∈ locked)).

(** [ORDER BY ... LIMIT ... FOR UPDATE SKIP LOCKED]; [locked] are the events
    whose rows other transactions hold. *)
Definition claimable_rows (locked : gset string) (now limit : Z) (t : edb) : list IngestRow :=
  take (Z.to_nat limit) (merge_sort committed_le
    (filter (fun r => claimable_event locked now t r = true) (ingest_rows t))).

(** The columns selected are those of the joined log entry. *)
Definition select_claimable (locked : gset string) (now limit : Z) (t : edb) : list EventLogEntry :=
  omap (fun r => find_log (ig_EventLogID r) t) (claimable_rows locked now limit t).

Fixpoint lease_rows (owner : string) (leaseUntil : Z) (rows : list EventLogEntry)
  (out : list RawEvent) : M (db edb) (list RawEvent) :=
  match rows with
  | [] => mret out
  | row :: rest =>
      affected ← map_err (ErrWrap ("store: lease committed event " +:+ el_EventID row))
        (exec (update_ingested (el_EventID row) (fun r => is_none (ig_CompletedAt r))
                 (set_leased owner leaseUntil)));
      if negb (affected =? 1) then
        throw (ErrMsg ("store: lease committed event " +:+ el_EventID row +:+ ": lost claim"))
      else lease_rows owner leaseUntil rest (out ++ [raw_event row])
  end.

Definition ClaimCommittedEvents (locked : gset string) (work : CommittedEventWork)
  : M (db edb) (list RawEvent) :=
  if bool_decide (wk_Owner work = "") then
    throw (ErrMsg "store: committed event owner is required")
  else if wk_MaxItems work <=? 0 then
    throw (ErrMsg "store: committed event max items must be positive")
  else if IsZero (wk_ClaimedAt work) || negb (After (wk_LeaseUntil work) (wk_ClaimedAt work)) then
    throw (ErrMsg "store: committed event lease must end after claim time")
  else with_rollback (
    map_err (ErrWrap "store: begin claim committed events") begin_tx;;
    rows ← map_err (ErrWrap "store: select claimable committed events")
      (query (select_claimable locked (UnixMilli (wk_ClaimedAt work)) (wk_MaxItems work)));
    events ← lease_rows (wk_Owner work) (UnixMilli (wk_LeaseUntil work)) rows [];
    map_err (ErrWrap "store: commit claim committed events") commit_tx;;
    mret events).

Definition CompleteCommittedEvent (owner eventID : string) (completedAt : GoTime) : M (db edb) unit :=
  if bool_decide (owner = "") || bool_decide (eventID = "") then
    throw (ErrMsg "store: committed event owner and id are required")
  else
    affected ← map_err (ErrWrap ("store: complete committed event " +:+ eventID))
      (exec (update_ingested eventID
        (fun r => bool_decide (ig_ClaimedBy r = Some owner) && is_none (ig_CompletedAt r))
        (set_completed (UnixMilli completedAt))));
    if affected =? 1 then mret tt else
    row ← map_err (ErrWrap ("store: complete committed event " +:+ eventID))
      (query (fun t => t_ingested t !! eventID));
    match row with
    | None => throw errCommittedEventNotClaimed
    | Some r =>
        (* a NULL claimed_by makes the conjunction NULL when the event is completed *)
        match ig_ClaimedBy r, ig_CompletedAt r with
        | None, Some _ => throw (ErrWrap ("store: complete committed event " +:+ eventID)
                            (ErrMsg "sql: Scan error: converting NULL to bool is unsupported"))
        | claimedBy, completedAt =>
            if bool_decide (claimedBy = Some owner) && negb (is_none completedAt)
            then mret tt else throw errCommittedEventNotClaimed
        end
    end.
(** ** Runs of the tables *)

Inductive event_op :=
  | EIngest (events : list GatewayEvent) (committedAt : Z)
  | EOwnSent (e : EventLogEntry) (chatJID waMessageID : string)
  | EAppend (e : EventLogEntry)
  | EClaim (locked : gset string) (work : CommittedEventWork)
  | EComplete (owner eventID : string) (completedAt : GoTime)
  | ERetain (fuel : nat) (waiting : gset string) (cutoffMs : Z)
  | EFence (assignments : gmap string (string * Z)) (sessions : gmap string string)
      (gateways : gmap string GatewayRow).

(** Assignments, sessions and connections change by other components. *)
Definition set_fence a se g (t : edb) : edb :=
  MkEdb a se g (t_ingested t) (t_log t) (t_autoinc t) (t_claims t).

Definition run_event_op (a : event_op) : M (db edb) unit :=
  match a with
  | EIngest events at_ => IngestBatch events at_
  | EOwnSent e chat wa => AppendOwnSentOnce e chat wa;; mret tt
  | EAppend e => AppendEvent e;; mret tt
  | EClaim locked work => ClaimCommittedEvents locked work;; mret tt
  | EComplete owner id at_ => CompleteCommittedEvent owner id at_
  | ERetain fuel waiting cutoff => deleteUnreferencedEvents fuel waiting cutoff;; mret tt
  | EFence a se g => exec (fun t => (tt, set_fence a se g t))
  end.

Definition event_step (t t' : edb) : Prop :=
  exists a fs r d', run_event_op a (Db t fs) = (r, d') /\ t' = rows d'.

(** ** What only grows *)

Record row_grows (r r' : IngestRow) : Prop := {
  rg_identity : ig_EventLogID r' = ig_EventLogID r /\ ig_SessionID r' = ig_SessionID r /\
    ig_OrganizationID r' = ig_OrganizationID r /\ ig_CommittedAt r' = ig_CommittedAt r;
  rg_completed : ig_CompletedAt r <> None -> ig_CompletedAt r' <> None;
}.

(** Ingested events and claims are never lost or reassigned, and the log entry
    of an ingested event stays until the event is completed. *)
Record grows (t t' : edb) : Prop := {
  gr_rows : forall id r, t_ingested t !! id = Some r ->
    exists r', t_ingested t' !! id = Some r' /\ row_grows r r';
  gr_log : forall id r', is_Some (t_ingested t !! id) -> t_ingested t' !! id = Some r' ->
    log_has id t = true -> log_has id t' = true \/ ig_CompletedAt r' <> None;
  gr_claims : t_claims t ⊆ t_claims t';
}.

#[export] Instance row_grows_preorder : PreOrder row_grows.
Proof.
  split; [by split|]. intros a b c [(?&?&?&?) Hc1] [(?&?&?&?) Hc2].
  split; [repeat split; congruence | auto].
Qed.

#[export] Instance grows_preorder : PreOrder grows.
Proof.
  split.
  - intros t. split; [|auto|done]. intros id r Hr. exists r. split; [done | reflexivity].
  - intros a b c [R1 L1 C1] [R2 L2 C2]. split; [| |by etransitivity].
    + intros id r (r1 & Hr1 & G1)%R1. destruct (R2 _ _ Hr1) as (r2 & Hr2 & G2).
      exists r2. split; [done | by etransitivity].
    + intros id r' [r Hr] Hr' Hl. destruct (R1 _ _ Hr) as (r1 & Hr1 & _).
      destruct (L1 id r1 ltac:(eauto) Hr1 Hl) as [Hl1|Hc]; [by apply (L2 id r'); eauto|].
      right. destruct (R2 _ _ Hr1) as (r2 & Hr2 & G2). rewrite Hr' in Hr2. injection Hr2 as <-.
      by apply (rg_completed _ _ G2).
Qed.

Lemma log_has_spec id t : log_has id t = true <-> exists e, e ∈ t_log t /\ el_EventID e = id.
Proof.
  unfold log_has. rewrite existsb_exists. setoid_rewrite bool_decide_eq_true.
  by setoid_rewrite <- list_elem_of_In.
Qed.

Lemma log_has_false id t e : log_has id t = false -> e ∈ t_log t -> el_EventID e <> id.
Proof. intros Hf He Hid. assert (log_has id t = true) by (apply log_has_spec; eauto). congruence. Qed.

(** A statement that leaves the log alone or appends to it. *)
Lemma log_grows t t' :
  (forall id r, t_ingested t !! id = Some r -> exists r', t_ingested t' !! id = Some r' /\ row_grows r r') ->
  (forall e, e ∈ t_log t -> e ∈ t_log t') -> t_claims t ⊆ t_claims t' -> grows t t'.
Proof.
  intros Hr Hl Hc. split; [done| |done]. intros id r' _ _ (e & He & Hid)%log_has_spec.
  left. apply log_has_spec. eauto.
Qed.

Lemma insert_ingested_grows ev at_ t : grows t (insert_ingested ev at_ t).2.
Proof.
  unfold insert_ingested. destruct (_ || _) eqn:Hd; [reflexivity|]. cbn.
  apply orb_false_iff in Hd as [Hd _]. apply orb_false_iff in Hd as [Hd _].
  apply bool_decide_eq_false in Hd. apply log_grows; [|done..].
  intros id r Hr. exists r. split; [|reflexivity]. cbn. rewrite lookup_insert_ne; [done|].
  intros <-. eauto.
Qed.

Lemma insert_claim_grows identity id owner t : grows t (insert_claim identity id owner t).2.
Proof.
  unfold insert_claim. cbn. destruct (_ || _) eqn:Hd; [reflexivity|].
  apply orb_false_iff in Hd as [Hd _]. apply bool_decide_eq_false in Hd.
  apply log_grows; [|done|].
  - intros i r Hr. exists r. split; [done | reflexivity].
  - cbn. apply insert_subseteq. destruct (t_claims t !! identity) eqn:?; [destruct Hd; eauto | done].
Qed.

Lemma append_grows t l mark : grows t (with_log (t_log t ++ l) mark t).
Proof.
  apply log_grows; [|intros e He; apply elem_of_app; by left|done].
  intros i r Hr. exists r. split; [done | reflexivity].
Qed.

Lemma insert_log_grows id org sess typ p at_ t : grows t (insert_log id org sess typ p at_ t).2.
Proof.
  unfold insert_log. destruct (json_column p); [|reflexivity]. destruct (log_has _ _); [reflexivity|].
  apply append_grows.
Qed.

Lemma update_ingested_grows id guard f t :
  (forall r, guard r = true -> row_grows r (f r)) -> grows t (update_ingested id guard f t).2.
Proof.
  intros Hf. unfold update_ingested. destruct (t_ingested t !! id) as [r|] eqn:Hr; [|reflexivity].
  destruct (guard r) eqn:Hg; [|reflexivity]. cbn. apply log_grows; [|done|done]. intros id' r' Hr'. cbn.
  destruct (decide (id = id')) as [<-|Hne].
  - exists (f r). rewrite lookup_insert_eq. rewrite Hr in Hr'. injection Hr' as <-. eauto.
  - exists r'. rewrite lookup_insert_ne by done. split; [done | reflexivity].
Qed.

Lemma set_completed_grows at_ r : row_grows r (set_completed at_ r).
Proof. by split. Qed.
Lemma set_leased_grows owner until r : row_grows r (set_leased owner until r).
Proof. by split. Qed.

(** Only entries without unfinished work go. *)
Lemma retention_keeps waiting cutoff limit t e :
  e ∈ t_log t -> unreferenced waiting cutoff t e = false ->
  e ∈ t_log (DeleteUnreferencedEventLogBefore waiting cutoff limit t).2.
Proof.
  intros He Hu. cbn. apply list_elem_of_filter. split; [|done]. intros Hd%subseteq_take.
  rewrite merge_sort_Permutation in Hd. apply list_elem_of_filter in Hd as [Hd _]. congruence.
Qed.

Lemma retention_grows waiting cutoff limit t :
  grows t (DeleteUnreferencedEventLogBefore waiting cutoff limit t).2.
Proof.
  split; [|intros id r' _ Hr' (e & He & Hid)%log_has_spec|done].
  { intros i r Hr. exists r. split; [done | reflexivity]. }
  destruct (ig_CompletedAt r') eqn:Hc; [by right|]. left. apply log_has_spec. exists e. split; [|done].
  apply retention_keeps; [done|]. unfold unreferenced, unfinished. cbn in Hr'.
  rewrite Hid, Hr'. cbn. rewrite Hc. by rewrite andb_false_r.
Qed.

(** Statements respect what each of their effects respects. *)
Section Preserved.
Context (R : edb -> edb -> Prop) `{!PreOrder R}.
Context (R_ingested : forall ev at_ t, R t (insert_ingested ev at_ t).2).
Context (R_claim : forall k id owner t, R t (insert_claim k id owner t).2).
Context (R_log : forall id org sess typ p at_ t, R t (insert_log id org sess typ p at_ t).2).
Context (R_completed : forall id guard at_ t, R t (update_ingested id guard (set_completed at_) t).2).
Context (R_leased : forall id guard owner until t,
  R t (update_ingested id guard (set_leased owner until) t).2).

Context (R_retain : forall waiting cutoff limit t,
  R t (DeleteUnreferencedEventLogBefore waiting cutoff limit t).2).

Lemma retention_respects fuel waiting cutoff :
  respects (on_rows R) (deleteUnreferencedEvents fuel waiting cutoff).
Proof.
  unfold deleteUnreferencedEvents. generalize 0 at 1. induction fuel as [|fuel IH]; intros total;
    cbn [deleteBatches]; [apply respects_ret, _|].
  apply respects_bind; [apply _ | apply respects_map_err, respects_exec; [apply _ | auto] |].
  intros n. destruct (n <? _); [apply respects_ret, _ | apply IH].
Qed.

Lemma claimOutgoing_respects k id owner : respects (on_rows R) (claimOutgoingEvent k id owner).
Proof.
  unfold claimOutgoingEvent. apply respects_bind; [apply _ | | intros ?].
  - apply respects_map_err, respects_exec; [apply _ | auto].
  - apply respects_bind; [apply _ | apply respects_map_err, respects_query, _ | intros [?|]];
      auto with golib typeclass_instances.
Qed.

Lemma ingest_one_respects at_ ev : respects (on_rows R) (ingest_one at_ ev).
Proof.
  unfold ingest_one. apply respects_bind; [apply _ | apply respects_map_err, respects_query, _ |].
  intros n. destruct (negb (n =? 1)); [apply respects_throw, _|].
  apply respects_bind; [apply _ | apply respects_exec; [apply _ | auto] |]. intros affected.
  destruct (affected =? 0); [apply respects_ret, _|].
  apply respects_bind; [apply _ | |].
  - unfold claim_echo. destruct (echo_identity ev); [|apply respects_ret, _].
    apply respects_bind; [apply _ | apply claimOutgoing_respects | intros []; apply respects_ret, _].
  - intros [|]; cbn [negb].
    + apply respects_bind; [apply _ | apply respects_lift, _ |]. intros payload.
      apply respects_bind; [apply _ | | intros; apply respects_ret, _].
      apply respects_stmt; [apply _ | auto].
    + apply respects_bind; [apply _ | | intros; apply respects_ret, _].
      apply respects_map_err, respects_exec; [apply _ | auto].
Qed.

Lemma for_each_respects {A} (f : A -> M (db edb) unit) l :
  (forall x, respects (on_rows R) (f x)) -> respects (on_rows R) (for_each f l).
Proof.
  intros Hf. induction l as [|x l IH]; cbn [for_each]; [apply respects_ret, _|].
  apply respects_bind; [apply _ | apply Hf | intros; apply IH].
Qed.

Lemma IngestBatch_respects evs at_ : respects (on_rows R) (IngestBatch evs at_).
Proof.
  unfold IngestBatch. destruct (bool_decide _); [apply respects_throw, _|].
  apply respects_with_rollback; [done|]. apply respects_bind; [apply _ | by apply respects_begin|].
  intros _. apply respects_bind; [apply _ | apply for_each_respects, ingest_one_respects |].
  intros _. by apply respects_commit.
Qed.

Lemma insert_log_ignore_R e t : R t (insert_log_ignore e t).2.
Proof.
  unfold insert_log_ignore. destruct (bool_decide _); [reflexivity|]. destruct (log_has _ _); [reflexivity|].
  pose proof (R_log (el_EventID e) (el_OrganizationID e) (el_SessionID e) (el_Type e)
    (el_Payload e) (el_CreatedAt e) t) as H. by destruct (insert_log _ _ _ _ _ _ _).
Qed.

Lemma AppendOwnSentOnce_respects e chat wa : respects (on_rows R) (AppendOwnSentOnce e chat wa).
Proof.
  unfold AppendOwnSentOnce. destruct (_ || _); [apply respects_throw, _|].
  apply respects_with_rollback; [done|].
  apply respects_bind; [apply _ | by apply respects_map_err, respects_begin|]. intros _.
  apply respects_bind; [apply _ | apply claimOutgoing_respects|]. intros [cid owner].
  destruct (negb _).
  { apply respects_bind; [apply _ | by apply respects_map_err, respects_commit |].
    intros; apply respects_ret, _. }
  destruct (negb _); [apply respects_throw, _|].
  apply respects_bind; [apply _ | apply respects_map_err, respects_stmt; [apply _ | apply insert_log_ignore_R] |].
  intros _. apply respects_bind; [apply _ | apply respects_map_err, respects_query, _ |].
  intros [r|]; [|apply respects_throw, _]. destruct (_ || _); [apply respects_throw, _|].
  apply respects_bind; [apply _ | by apply respects_map_err, respects_commit | intros; apply respects_ret, _].
Qed.

Lemma lease_rows_respects owner until l out : respects (on_rows R) (lease_rows owner until l out).
Proof.
  revert out. induction l as [|e l IH]; intros out; cbn [lease_rows]; [apply respects_ret, _|].
  apply respects_bind; [apply _ | apply respects_map_err, respects_exec; [apply _ | auto] |].
  intros n. destruct (negb _); [apply respects_throw, _ | apply IH].
Qed.

Lemma ClaimCommittedEvents_respects locked work :
  respects (on_rows R) (ClaimCommittedEvents locked work).
Proof.
  unfold ClaimCommittedEvents. do 3 (destruct (bool_decide _) || destruct (_ <=? _) || destruct (_ || _);
    [apply respects_throw, _|]). apply respects_with_rollback; [done|].
  apply respects_bind; [apply _ | by apply respects_map_err, respects_begin|]. intros _.
  apply respects_bind; [apply _ | apply respects_map_err, respects_query, _ |]. intros l.
  apply respects_bind; [apply _ | apply lease_rows_respects |]. intros out.
  apply respects_bind; [apply _ | by apply respects_map_err, respects_commit | intros; apply respects_ret, _].
Qed.

Lemma Complete_respects owner id at_ : respects (on_rows R) (CompleteCommittedEvent owner id at_).
Proof.
  unfold CompleteCommittedEvent. destruct (_ || _); [apply respects_throw, _|].
  apply respects_bind; [apply _ | apply respects_map_err, respects_exec; [apply _ | auto] |].
  intros n. destruct (n =? 1); [apply respects_ret, _|].
  apply respects_bind; [apply _ | apply respects_map_err, respects_query, _ |].
  intros [r|]; [|apply respects_throw, _].
  destruct (ig_ClaimedBy r), (ig_CompletedAt r); try destruct (_ && _);
    auto with golib typeclass_instances.
Qed.

Lemma event_op_respects a :
  (forall a se g t, R t (set_fence a se g t)) -> respects (on_rows R) (run_event_op a).
Proof.
  intros Hfence. destruct a; cbn [run_event_op].
  - apply IngestBatch_respects.
  - apply respects_bind; [apply _ | apply AppendOwnSentOnce_respects | intros; apply respects_ret, _].
  - apply respects_bind; [apply _ | | intros; apply respects_ret, _].
    apply respects_map_err, respects_stmt; [apply _ | auto].
  - apply respects_bind; [apply _ | apply ClaimCommittedEvents_respects | intros; apply respects_ret, _].
  - apply Complete_respects.
  - apply respects_bind; [apply _ | apply retention_respects | intros; apply respects_ret, _].
  - apply respects_exec; [apply _|]. intros t. apply Hfence.
Qed.
End Preserved.
Lemma event_op_grows a : respects (on_rows grows) (run_event_op a).
Proof.
  apply event_op_respects; [apply _|..]; intros.
  - apply insert_ingested_grows.
  - apply insert_claim_grows.
  - apply insert_log_grows.
  - apply update_ingested_grows. intros. apply set_completed_grows.
  - apply update_ingested_grows. intros. apply set_leased_grows.
  - apply retention_grows.
  - apply log_grows; [|done|done]. intros i r0 Hr. exists r0. split; [done | reflexivity].
Qed.

Lemma event_step_grows t t' : event_step t t' -> grows t t'.
Proof. intros (a & fs & r & d' & Hrun & ->). exact (event_op_grows a _ _ _ Hrun). Qed.

Lemma event_steps_grow t t' : rtc event_step t t' -> grows t t'.
Proof. induction 1 as [t|t t1 t2 H _ IH]; [reflexivity|]. transitivity t1; [by apply event_step_grows | done]. Qed.

(** ** Well-formed tables *)

Record ingest_wf (t : edb) : Prop := {
  iw_id : forall id r, t_ingested t !! id = Some r -> ig_EventLogID r = id;
  iw_sorted : StronglySorted (fun a b => el_ID a < el_ID b) (t_log t);
  iw_mark : Forall (fun e => el_ID e <= t_autoinc t) (t_log t);
  iw_unique : NoDup (el_EventID <$> t_log t);
}.

Lemma insert_log_wf id org sess typ p at_ t : ingest_wf t -> ingest_wf (insert_log id org sess typ p at_ t).2.
Proof.
  intros [Hid Hs Hm Hu]. unfold insert_log. destruct (json_column p); [|done].
  destruct (log_has id t) eqn:Hh; [done|]. cbn. split; cbn; [done|..].
  - apply StronglySorted_app_2; [|done | repeat constructor].
    rewrite Forall_forall in Hm. intros x y Hx ->%list_elem_of_singleton. cbn. specialize (Hm x Hx). cbn in Hm. lia.
  - apply Forall_app. split; [|by repeat constructor]. eapply Forall_impl; [exact Hm|]. intros e He. cbn in *. lia.
  - rewrite fmap_app. apply NoDup_app. split; [done|]. split; [|apply NoDup_singleton].
    intros x (e & -> & He)%list_elem_of_fmap Hx%list_elem_of_singleton.
    exact (log_has_false _ _ _ Hh He Hx).
Qed.

Lemma update_ingested_wf id guard f t :
  (forall r, ig_EventLogID (f r) = ig_EventLogID r) -> ingest_wf t -> ingest_wf (update_ingested id guard f t).2.
Proof.
  intros Hf [Hid Hs Hm Hu]. unfold update_ingested. destruct (t_ingested t !! id) as [r|] eqn:Hr; [|done].
  destruct (guard r); [|done]. split; cbn; [|done..].
  intros i r' [[<- <-]|[_ Hr']]%lookup_insert_Some; [rewrite Hf; auto | auto].
Qed.

Lemma event_op_keeps_wf a : respects (on_rows (keeps ingest_wf)) (run_event_op a).
Proof.
  apply event_op_respects; [apply _|..]; unfold keeps; intros.
  - unfold insert_ingested. destruct (_ || _); [done|]. destruct H as [Hid Hs Hm Hu].
    split; cbn; [|done..]. by intros i r [[<- <-]|[_ Hr]]%lookup_insert_Some; [|auto].
  - unfold insert_claim. cbn. destruct (_ || _); [done|]. by destruct H.
  - by apply insert_log_wf.
  - by apply update_ingested_wf.
  - by apply update_ingested_wf.
  - destruct H as [Hid Hs Hm Hu]. split; cbn; [done|..].
    + by apply StronglySorted_filter.
    + by apply Forall_filter_keep.
    + by apply NoDup_fmap_filter.
  - by destruct H.
Qed.

Lemma event_steps_wf t t' : ingest_wf t -> rtc event_step t t' -> ingest_wf t'.
Proof.
  intros Hw Hs. induction Hs as [t|t t1 t2 (a & fs & r & d' & Hrun & ->) _ IH]; [done|].
  apply IH. exact (event_op_keeps_wf a _ _ _ Hrun Hw).
Qed.

(** ** What the ingestion of one event does *)

(** The claim step: whether the event is public, and the table it leaves. *)
Definition claim_outcome (ev : GatewayEvent) (t1 t2 : edb) (public : bool) : Prop :=
  match echo_identity ev with
  | None => public = true /\ t2 = t1
  | Some k =>
      t2 = (insert_claim k (gv_EventID ev) "gateway" t1).2 /\
      exists c, t_claims t2 !! k = Some c /\
        public = bool_decide (c.2 = "gateway") && bool_decide (c.1 = gv_EventID ev)
  end.

Lemma claimOutgoing_returns k id owner d c d' :
  claimOutgoingEvent k id owner d = (inr c, d') ->
  rows d' = (insert_claim k id owner (rows d)).2 /\ t_claims (rows d') !! k = Some c.
Proof.
  unfold claimOutgoingEvent. intros (? & d1 & H1 & Hrun)%bind_returns.
  apply map_err_returns, exec_returns in H1 as [_ H1].
  apply bind_returns in Hrun as (row & d2 & H2 & Hrun).
  apply map_err_returns, query_returns in H2 as [-> H2].
  destruct (t_claims (rows d1) !! k) as [c0|] eqn:Hc; [|discriminate]. injection Hrun as <- <-.
  by rewrite H2, <- H1.
Qed.
(** The table an ingested event leaves. *)
Definition ingested_as (committedAt : Z) (ev : GatewayEvent) (t t' : edb) : Prop :=
  count_owned ev t = 1 /\
  (((insert_ingested ev committedAt t).1 = 0 /\ t' = t) \/
   exists t1 t2 public, insert_ingested ev committedAt t = (1, t1) /\ claim_outcome ev t1 t2 public /\
     if public : bool then
       exists payload doc, public_payload ev = inr payload /\ json_column payload = Some doc /\
         log_has (gv_EventID ev) t2 = false /\
         t' = with_log (t_log t2 ++ [MkLogEntry (t_autoinc t2 + 1) (gv_EventID ev)
                (gv_OrganizationID ev) (gv_SessionID ev) (gv_Type ev) doc (gv_OccurredAt ev)])
                (t_autoinc t2 + 1) t2
     else t' = (update_ingested (gv_EventID ev) (fun _ => true) (set_completed committedAt) t2).2).

Lemma ingest_one_returns at_ ev d d' :
  ingest_one at_ ev d = (inr tt, d') -> ingested_as at_ ev (rows d) (rows d').
Proof.
  unfold ingest_one. intros (n & d0 & H0 & Hrun)%bind_returns.
  apply map_err_returns, query_returns in H0 as [-> H0].
  destruct (count_owned ev (rows d) =? 1) eqn:Hn; cbn [negb] in Hrun; [|discriminate].
  to_prop. split; [exact Hn|].
  apply bind_returns in Hrun as (affected & d1 & H1 & Hrun). apply exec_returns in H1 as [-> H1].
  rewrite H0 in H1, Hrun. destruct (insert_ingested ev at_ (rows d)) as [k t1] eqn:Hins.
  cbn [fst snd] in *.
  destruct (k =? 0) eqn:Hk; to_prop.
  { left. injection Hrun as <-. split; [done|]. rewrite H1. revert Hins. unfold insert_ingested.
    destruct (_ || _); intros [= <- <-]; done. }
  right. assert (k = 1) as ->.
  { revert Hins. unfold insert_ingested. destruct (_ || _); intros [= <- <-]; done. }
  apply bind_returns in Hrun as (public & d2 & H2 & Hrun). exists t1, (rows d2), public.
  split; [done|]. split.
  { unfold claim_outcome. unfold claim_echo in H2. destruct (echo_identity ev) as [key|].
    - apply bind_returns in H2 as ([cid owner] & d3 & H3 & Hret). injection Hret as <- <-.
      apply claimOutgoing_returns in H3 as [Ht Hc]. rewrite H1 in Ht. split; [done|]. by exists (cid, owner).
    - injection H2 as <- <-. by rewrite H1. }
  destruct public; cbn [negb] in Hrun.
  - apply bind_returns in Hrun as (payload & d3 & H3 & Hrun). injection H3 as Hpay <-.
    apply bind_returns in Hrun as (? & d4 & H4 & Hrun). injection Hrun as <-.
    apply stmt_returns in H4. unfold insert_log in H4.
    destruct (json_column payload) as [doc|] eqn:Hdoc; [|discriminate].
    destruct (log_has _ _) eqn:Hh; [discriminate|]. injection H4 as _ H4.
    exists payload, doc. auto.
  - apply bind_returns in Hrun as (? & d3 & H3 & Hrun). injection Hrun as <-.
    by apply map_err_returns, exec_returns in H3 as [_ H3].
Qed.

Lemma claim_outcome_grows ev t1 t2 public : claim_outcome ev t1 t2 public -> grows t1 t2.
Proof.
  unfold claim_outcome. destruct (echo_identity ev).
  - intros [-> _]. apply insert_claim_grows.
  - by intros [_ ->].
Qed.

(** A claim touches only the claims. *)
Lemma claim_outcome_frame ev t1 t2 public :
  claim_outcome ev t1 t2 public -> t2 = with_claims (t_claims t2) t1.
Proof.
  unfold claim_outcome, insert_claim. destruct (echo_identity ev), t1.
  - intros [-> _]. cbn. by destruct (_ || _).
  - by intros [_ ->].
Qed.

Lemma ingested_as_grows at_ ev t t' : ingested_as at_ ev t t' -> grows t t'.
Proof.
  intros [_ [[_ ->]|(t1 & t2 & public & Hins & Hcl & Hout)]]; [reflexivity|].
  transitivity t1. { pose proof (insert_ingested_grows ev at_ t) as H. by rewrite Hins in H. }
  transitivity t2; [by eapply claim_outcome_grows|].
  destruct public.
  - destruct Hout as (payload & doc & _ & _ & _ & ->). apply append_grows.
  - subst. apply update_ingested_grows. intros. apply set_completed_grows.
Qed.

(** The events of a batch one after the other. *)
Fixpoint ingested_all (committedAt : Z) (evs : list GatewayEvent) (t t' : edb) : Prop :=
  match evs with
  | [] => t' = t
  | ev :: evs => exists t1, ingested_as committedAt ev t t1 /\ ingested_all committedAt evs t1 t'
  end.

Lemma IngestBatch_returns evs at_ d d' :
  IngestBatch evs at_ d = (inr tt, d') -> evs <> [] /\ ingested_all at_ evs (rows d) (rows d').
Proof.
  unfold IngestBatch. destruct evs as [|ev0 evs0]; [discriminate|]. cbn [length]. intros Hrun.
  split; [done|]. rewrite bool_decide_false in Hrun by done.
  apply with_rollback_returns in Hrun. apply bind_returns in Hrun as (? & d1 & H1 & Hrun).
  apply query_returns in H1 as [_ H1]. apply bind_returns in Hrun as ([] & d2 & H2 & Hrun).
  apply query_returns in Hrun as [_ Hrun]. rewrite Hrun, <- H1. clear Hrun H1 d d'.
  revert d1 H2. induction (ev0 :: evs0) as [|ev evs IH]; intros d1; cbn [for_each ingested_all].
  { by intros [= <-]. }
  intros ([] & d3 & H3 & Hrest)%bind_returns. apply ingest_one_returns in H3. eauto.
Qed.

Lemma ingested_all_grows at_ evs t t' : ingested_all at_ evs t t' -> grows t t'.
Proof.
  revert t. induction evs as [|ev evs IH]; intros t; cbn; [by intros ->|].
  intros (t1 & H1 & H2). transitivity t1; [by eapply ingested_as_grows | auto].
Qed.

(** The fence is checked on tables the ingestion does not change. *)
Lemma ingested_as_fence at_ ev t t' ev' : ingested_as at_ ev t t' -> count_owned ev' t' = count_owned ev' t.
Proof.
  intros [_ [[_ ->]|(t1 & t2 & public & Hins & Hcl & Hout)]]; [done|].
  assert (H1 : count_owned ev' t1 = count_owned ev' t).
  { revert Hins. unfold insert_ingested. destruct (_ || _); by intros [= <-]. }
  assert (H2 : count_owned ev' t2 = count_owned ev' t1) by (by rewrite (claim_outcome_frame _ _ _ _ Hcl)).
  destruct public. { destruct Hout as (payload & doc & _ & _ & _ & Ht). rewrite Ht. exact (eq_trans H2 H1). } subst.
  rewrite <- H1, <- H2. unfold update_ingested. by destruct (t_ingested t2 !! _).
Qed.

Lemma ingested_all_each at_ evs t t' ev :
  ingested_all at_ evs t t' -> ev ∈ evs ->
  exists t1 t2, grows t t1 /\ ingested_as at_ ev t1 t2 /\ grows t2 t' /\ count_owned ev t = 1.
Proof.
  revert t. induction evs as [|ev0 evs IH]; intros t; cbn; [by intros _ ?%not_elem_of_nil|].
  intros (t1 & H1 & H2) [->|Hev]%elem_of_cons.
  - exists t, t1. split; [reflexivity|]. split; [done|]. split; [by eapply ingested_all_grows|]. apply H1.
  - destruct (IH _ H2 Hev) as (t2 & t3 & Hg & Hi & Hg' & Hc). exists t2, t3.
    split; [transitivity t1; [by eapply ingested_as_grows | done]|]. split; [done|]. split; [done|].
    rewrite <- Hc. symmetry. by eapply ingested_as_fence.
Qed.

(** ** Accounting *)

(** Every ingested event is in the log or completed (the echo of a message the
    API published). *)
Definition accounted (t : edb) : Prop :=
  forall id r, t_ingested t !! id = Some r -> log_has id t = true \/ ig_CompletedAt r <> None.

Lemma accounted_ingested_as at_ ev t t' : accounted t -> ingested_as at_ ev t t' -> accounted t'.
Proof.
  intros Ha Hi. pose proof (ingested_as_grows _ _ _ _ Hi) as Hg.
  destruct Hi as [_ [[_ ->]|(t1 & t2 & public & Hins & Hcl & Hout)]]; [done|].
  intros id r Hr.
  assert (H2 : t_ingested t2 = t_ingested t1).
  { by rewrite (claim_outcome_frame _ _ _ _ Hcl). }
  destruct (decide (id = gv_EventID ev)) as [->|Hne].
  - destruct public.
    + destruct Hout as (payload & doc & _ & _ & _ & ->). left. apply log_has_spec. eexists.
      split; [apply elem_of_app; right; by apply list_elem_of_singleton | done].
    + right. subst t'. unfold update_ingested in Hr.
      destruct (t_ingested t2 !! gv_EventID ev) eqn:Hl; cbn in Hr; [|congruence].
      rewrite lookup_insert_eq in Hr. injection Hr as <-. done.
  - assert (Hold : t_ingested t !! id = Some r).
    { assert (Hr2 : t_ingested t2 !! id = Some r).
      { destruct public; [by destruct Hout as (? & ? & _ & _ & _ & ->)|]. subst t'.
        unfold update_ingested in Hr. destruct (t_ingested t2 !! gv_EventID ev); cbn in Hr; [|done].
        by rewrite lookup_insert_ne in Hr. }
      rewrite H2 in Hr2. revert Hins Hr2. unfold insert_ingested. destruct (_ || _); intros [= <-].
      cbn. by rewrite lookup_insert_ne. }
    destruct (Ha _ _ Hold) as [Hh|Hc]; [|by right]. by apply (gr_log _ _ Hg); eauto.
Qed.

Lemma IngestBatch_accounted evs at_ : respects (on_rows (keeps accounted)) (IngestBatch evs at_).
Proof.
  intros d r d' Hrun Ha. destruct r as [e|[]].
  - revert Hrun. unfold IngestBatch. destruct (bool_decide _); [by intros [= _ <-]|].
    intros Hrun. apply with_rollback_error in Hrun. unfold on_rows. by rewrite Hrun.
  - apply IngestBatch_returns in Hrun as [_ Hall]. revert Hall Ha. generalize (rows d) as t.
    induction evs as [|ev evs IH]; intros t; cbn; [by intros ->|].
    intros (t1 & H1 & H2) Ha. eapply IH; [exact H2 | by eapply accounted_ingested_as].
Qed.

(** ** Acknowledged batches *)

Lemma insert_ingested_present ev at_ t r :
  t_ingested t !! gv_EventID ev = Some r -> insert_ingested ev at_ t = (0, t).
Proof. intros Hr. unfold insert_ingested. by rewrite Hr, bool_decide_true by done. Qed.

Lemma insert_ingested_refused ev at_ t :
  (insert_ingested ev at_ t).1 = 0 ->
  insert_ingested ev at_ t = (0, t) /\
  (0 < gv_ConnectionEpoch ev -> 0 < gv_AssignmentEpoch ev -> is_Some (t_ingested t !! gv_EventID ev)).
Proof.
  unfold insert_ingested. destruct (_ || _ || _) eqn:Hd; [|done]. intros _. split; [done|].
  intros Hc Ha. apply orb_true_iff in Hd as [Hd|Hd]; [apply orb_true_iff in Hd as [Hd|Hd]|]; to_prop; [done|lia..].
Qed.

(** An ingested event has its row from then on. *)
Lemma ingested_as_row at_ ev t t' :
  ingested_as at_ ev t t' -> 0 < gv_ConnectionEpoch ev -> 0 < gv_AssignmentEpoch ev ->
  is_Some (t_ingested t' !! gv_EventID ev).
Proof.
  intros [_ [[Hi ->]|(t1 & t2 & public & Hins & Hcl & Hout)]] Hc Ha.
  { apply insert_ingested_refused in Hi as [_ Hi]. auto. }
  assert (H2 : is_Some (t_ingested t2 !! gv_EventID ev)).
  { rewrite (claim_outcome_frame _ _ _ _ Hcl). cbn. revert Hins. unfold insert_ingested.
    destruct (_ || _); intros [= <-]. cbn. rewrite lookup_insert_eq. eauto. }
  destruct public; [by destruct Hout as (? & ? & _ & _ & _ & ->)|]. subst t'. unfold update_ingested.
  destruct H2 as [r Hr]. rewrite Hr. cbn. rewrite lookup_insert_eq. eauto.
Qed.

(** An event whose insert is a no-op now is one in every later table. *)
Lemma ingested_as_settled at_ ev t t' at2 :
  ingested_as at_ ev t t' -> (insert_ingested ev at2 t').1 = 0.
Proof.
  intros H. unfold insert_ingested. destruct (_ || _ || _) eqn:Hd; [done|]. exfalso. to_prop.
  match goal with Hn : ~ is_Some _ |- _ => apply Hn end. eapply ingested_as_row; eauto.
Qed.

Lemma insert_ingested_settled ev at_ at2 t t' :
  (insert_ingested ev at_ t).1 = 0 -> grows t t' -> insert_ingested ev at2 t' = (0, t').
Proof.
  intros H Hg. assert (H2 : (insert_ingested ev at2 t').1 = 0).
  { revert H. unfold insert_ingested. destruct (_ || _ || _) eqn:Hd; [|done]. intros _.
    destruct (bool_decide (is_Some (t_ingested t !! gv_EventID ev))) eqn:Hb.
    - to_prop. destruct Hb as [r Hr]. destruct (gr_rows _ _ Hg _ _ Hr) as (r' & Hr' & _).
      by rewrite Hr', bool_decide_true by eauto.
    - cbn in Hd. rewrite <- orb_assoc, Hd, orb_true_r. done. }
  by apply insert_ingested_refused in H2 as [? _].
Qed.

Lemma ingest_one_settled at_ ev t :
  insert_ingested ev at_ t = (0, t) ->
  triple (fun d => rows d = t) (ingest_one at_ ev) (fun _ d => rows d = t) (fun d => rows d = t).
Proof.
  intros Hset. unfold ingest_one.
  eapply triple_bind; [apply triple_map_err, (triple_query (fun s => s = t))|]. intros n.
  destruct (negb (n =? 1)); [by apply triple_throw; intros d [? _]|].
  apply triple_bind with (R := fun k d => k = 0 /\ rows d = t).
  - eapply triple_weaken; [apply (triple_exec (fun s => s = t) _ (fun k s => k = 0 /\ s = t) (fun s => s = t))|..];
      [by intros s ->; rewrite Hset | by intros d [? _] | done | done].
  - intros k. apply triple_pure. intros ->. by apply triple_ret.
Qed.

(** *** What becomes of an event *)

(** The row an ingestion stores. *)
Definition fresh_row (committedAt : Z) (ev : GatewayEvent) : IngestRow :=
  MkIngestRow (gv_GatewayID ev) (gv_ConnectionEpoch ev) (gv_SessionID ev) (gv_AssignmentEpoch ev)
    (gv_OrganizationID ev) (gv_EventID ev) committedAt None None None.

(** An event keeps the rows of the other events and every stored row. *)
Lemma ingested_as_rows at_ ev t t' id :
  ingested_as at_ ev t t' -> gv_EventID ev <> id \/ is_Some (t_ingested t !! id) ->
  t_ingested t' !! id = t_ingested t !! id /\ (forall e, e ∈ t_log t -> e ∈ t_log t') /\ t_claims t ⊆ t_claims t'.
Proof.
  intros Hi Hid. pose proof (gr_claims _ _ (ingested_as_grows _ _ _ _ Hi)) as Hcs.
  destruct Hi as [_ [[_ ->]|(t1 & t2 & public & Hins & Hcl & Hout)]]; [done|].
  pose proof (claim_outcome_frame _ _ _ _ Hcl) as Hfr. unfold insert_ingested in Hins.
  destruct (_ || _ || _) eqn:Hd; [discriminate|]. injection Hins as <-.
  apply orb_false_iff in Hd as [Hd _]. apply orb_false_iff in Hd as [Hd _]. apply bool_decide_eq_false in Hd.
  assert (Hne : gv_EventID ev <> id) by (destruct Hid as [?|Hs]; [done|by intros <-]).
  assert (Hrow : t_ingested t2 !! id = t_ingested t !! id /\ t_log t2 = t_log t)
    by (rewrite Hfr; cbn; by rewrite lookup_insert_ne). destruct Hrow as [Hrow Hlog].
  destruct public.
  - destruct Hout as (payload & doc & _ & _ & _ & Ht'). rewrite Ht' in Hcs |- *. cbn. rewrite Hlog. split; [done|]. split; [|done].
    intros e He. apply elem_of_app. by left.
  - rewrite Hout in Hcs |- *. unfold update_ingested in Hcs |- *. destruct (t_ingested t2 !! gv_EventID ev); cbn; rewrite Hlog; [|done].
    split; [|done]. by rewrite lookup_insert_ne.
Qed.

Lemma ingested_all_rows at_ evs t t' id :
  ingested_all at_ evs t t' -> (forall ev, ev ∈ evs -> gv_EventID ev <> id) \/ is_Some (t_ingested t !! id) ->
  t_ingested t' !! id = t_ingested t !! id /\ (forall e, e ∈ t_log t -> e ∈ t_log t') /\ t_claims t ⊆ t_claims t'.
Proof.
  revert t. induction evs as [|ev evs IH]; intros t; cbn; [by intros ->|].
  intros (t1 & H1 & H2) Hid. destruct (ingested_as_rows _ _ _ _ id H1) as (Hr & Hl & Hc).
  { destruct Hid as [Hid|Hid]; [left; apply Hid; left|by right]. }
  destruct (IH _ H2) as (Hr' & Hl' & Hc').
  { destruct Hid as [Hid|Hid]; [left; intros ev' Hev; apply Hid; by right|right; by rewrite Hr]. }
  split; [congruence|]. split; [auto|by etransitivity].
Qed.

Lemma ingested_all_app at_ evs evs' t t' :
  ingested_all at_ (evs ++ evs') t t' -> exists t1, ingested_all at_ evs t t1 /\ ingested_all at_ evs' t1 t'.
Proof.
  revert t. induction evs as [|ev evs IH]; intros t; cbn; [by exists t|].
  intros (t1 & H1 & (t2 & H2 & H3)%IH). exists t2. split; [by exists t1|done].
Qed.

(** What an acknowledged event left: it was a replay, and its row is what it was;
    or it is stored now, unfinished with exactly its public document in the log;
    or it is the gateway's echo of a message another event or the API published,
    and was stored as finished. *)
Inductive acknowledged (committedAt : Z) (ev : GatewayEvent) (t t' : edb) : Prop :=
  | AckReplay r :
      t_ingested t !! gv_EventID ev = Some r -> t_ingested t' !! gv_EventID ev = Some r ->
      acknowledged committedAt ev t t'
  | AckLogged n payload doc :
      t_ingested t !! gv_EventID ev = None -> t_ingested t' !! gv_EventID ev = Some (fresh_row committedAt ev) ->
      public_payload ev = inr payload -> json_column payload = Some doc ->
      MkLogEntry n (gv_EventID ev) (gv_OrganizationID ev) (gv_SessionID ev) (gv_Type ev) doc (gv_OccurredAt ev) ∈ t_log t' ->
      (forall k, echo_identity ev = Some k -> t_claims t' !! k = Some (gv_EventID ev, "gateway")) ->
      acknowledged committedAt ev t t'
  | AckEcho k c :
      t_ingested t !! gv_EventID ev = None ->
      t_ingested t' !! gv_EventID ev = Some (set_completed committedAt (fresh_row committedAt ev)) ->
      echo_identity ev = Some k -> t_claims t' !! k = Some c -> c <> (gv_EventID ev, "gateway") ->
      acknowledged committedAt ev t t'.

Lemma ingested_as_acknowledged at_ ev t t' :
  ingested_as at_ ev t t' -> 0 < gv_ConnectionEpoch ev -> 0 < gv_AssignmentEpoch ev -> acknowledged at_ ev t t'.
Proof.
  intros [_ [[Hi ->]|(t1 & t2 & public & Hins & Hcl & Hout)]] Hc Ha.
  { apply insert_ingested_refused in Hi as [_ Hi]. destruct (Hi Hc Ha) as [r Hr]. by apply AckReplay with r. }
  pose proof (claim_outcome_frame _ _ _ _ Hcl) as Hfr. unfold insert_ingested in Hins.
  destruct (_ || _ || _) eqn:Hd; [discriminate|]. injection Hins as <-.
  apply orb_false_iff in Hd as [Hd _]. apply orb_false_iff in Hd as [Hd _]. apply bool_decide_eq_false in Hd.
  assert (Hnone : t_ingested t !! gv_EventID ev = None) by (destruct (t_ingested t !! gv_EventID ev) eqn:Hr; [by destruct Hd|done]).
  assert (Hrow : t_ingested t2 !! gv_EventID ev = Some (fresh_row at_ ev)) by (rewrite Hfr; cbn; apply lookup_insert_eq).
  destruct public.
  - destruct Hout as (payload & doc & Hp & Hdoc & _ & ->). eapply (AckLogged _ _ _ _ _ payload doc); try done; cbn.
    + apply elem_of_app. right. by apply list_elem_of_singleton.
    + intros k Hk. unfold claim_outcome in Hcl. rewrite Hk in Hcl. destruct Hcl as (_ & [cid owner] & -> & Hb).
      cbn in Hb. symmetry in Hb. apply andb_true_iff in Hb as [->%bool_decide_eq_true ->%bool_decide_eq_true]. done.
  - unfold claim_outcome in Hcl. destruct (echo_identity ev) as [k|] eqn:Hk; [|by destruct Hcl].
    destruct Hcl as (_ & c & Hcl & Hb). rewrite Hout. unfold update_ingested. rewrite Hrow. cbn.
    apply (AckEcho _ _ _ _ k c); cbn; [done|apply lookup_insert_eq|done..|].
    intros ->. cbn in Hb. by rewrite (bool_decide_true (gv_EventID ev = gv_EventID ev)) in Hb.
Qed.

(** *** Completion *)

Definition open_row (id : string) (t : edb) : Prop :=
  exists r, t_ingested t !! id = Some r /\ ig_CompletedAt r = None.

(** A worker that had claimed the event completed it on the way from [t0] to [t]. *)
Definition completed_by_worker (id : string) (t0 t : edb) : Prop :=
  exists owner at_ t1 fs res d2 r1, rtc event_step t0 t1 /\
    CompleteCommittedEvent owner id at_ (Db t1 fs) = (res, d2) /\ rtc event_step (rows d2) t /\
    t_ingested t1 !! id = Some r1 /\ ig_ClaimedBy r1 = Some owner /\ ig_CompletedAt r1 = None /\
    t_ingested (rows d2) !! id = Some (set_completed (UnixMilli at_) r1).

Lemma keeps_open id (t t' : edb) : t_ingested t' !! id = t_ingested t !! id -> keeps (open_row id) t t'.
Proof. intros Heq (r & Hr & Hc). exists r. by rewrite Heq. Qed.

Lemma leased_keeps_open id id' guard owner until t :
  keeps (open_row id) t (update_ingested id' guard (set_leased owner until) t).2.
Proof.
  unfold update_ingested. destruct (t_ingested t !! id') as [r'|] eqn:Hr'; [|done]. destruct (guard r'); [|done].
  intros (r & Hr & Hc). unfold open_row. cbn. destruct (decide (id' = id)) as [->|Hne].
  - rewrite Hr in Hr'. injection Hr' as <-. exists (set_leased owner until r). by rewrite lookup_insert_eq.
  - exists r. by rewrite lookup_insert_ne.
Qed.

Lemma claim_keeps_open id k eid owner t : keeps (open_row id) t (insert_claim k eid owner t).2.
Proof. apply keeps_open. unfold insert_claim. cbn. by destruct (_ || _). Qed.
Lemma log_keeps_open id eid org sess typ p at_ t : keeps (open_row id) t (insert_log eid org sess typ p at_ t).2.
Proof. apply keeps_open. unfold insert_log. destruct (json_column p); [|done]. by destruct (log_has _ _). Qed.

(** Every operation but a completion of the event keeps it open. *)
Lemma op_keeps_open id a : (forall owner at_, a <> EComplete owner id at_) ->
  respects (on_rows (keeps (open_row id))) (run_event_op a).
Proof.
  intros Hne. destruct a as [evs at_|e chat wa|e|locked work|owner eid at_|fuel waiting cutoff|a se g]; cbn [run_event_op].
  - intros d r d' Hrun (row & Hrow & Hc). destruct r as [err|[]].
    + exists row. revert Hrun. unfold IngestBatch. destruct (bool_decide _); [by intros [= _ <-]|].
      intros Hrun. apply with_rollback_error in Hrun. by rewrite Hrun.
    + apply IngestBatch_returns in Hrun as [_ Hall]. exists row.
      destruct (ingested_all_rows _ _ _ _ id Hall) as (-> & _); [by right|done].
  - apply respects_bind; [apply _ | apply AppendOwnSentOnce_respects | intros; apply respects_ret, _];
      [apply _|intros; apply claim_keeps_open|intros; apply log_keeps_open].
  - apply respects_bind; [apply _ | | intros; apply respects_ret, _].
    apply respects_map_err, respects_stmt; [apply _|]. intros; apply log_keeps_open.
  - apply respects_bind; [apply _ | apply ClaimCommittedEvents_respects | intros; apply respects_ret, _]; [apply _|].
    intros. apply leased_keeps_open.
  - assert (Hid : eid <> id) by (intros ->; by eapply Hne). unfold CompleteCommittedEvent.
    destruct (_ || _); [apply respects_throw, _|].
    apply respects_bind; [apply _ | apply respects_map_err, respects_exec; [apply _|]|].
    + intros t. apply keeps_open. unfold update_ingested. destruct (t_ingested t !! eid); [|done].
      destruct (_ && _); [|done]. cbn. by rewrite lookup_insert_ne.
    + intros n. destruct (n =? 1); [apply respects_ret, _|].
      apply respects_bind; [apply _ | apply respects_map_err, respects_query, _ |].
      intros [r|]; [|apply respects_throw, _].
      destruct (ig_ClaimedBy r), (ig_CompletedAt r); try destruct (_ && _); auto with golib typeclass_instances.
  - apply respects_bind; [apply _ | apply retention_respects | intros; apply respects_ret, _]; [apply _|].
    intros. by apply keeps_open.
  - apply respects_exec; [apply _|]. intros t. by apply keeps_open.
Qed.

Lemma Complete_outcome owner id at_ t fs res d2 r :
  CompleteCommittedEvent owner id at_ (Db t fs) = (res, d2) -> t_ingested t !! id = Some r -> ig_CompletedAt r = None ->
  open_row id (rows d2) \/
  (ig_ClaimedBy r = Some owner /\ t_ingested (rows d2) !! id = Some (set_completed (UnixMilli at_) r)).
Proof.
  intros Hrun Hr Hc. unfold CompleteCommittedEvent in Hrun.
  destruct (_ || _); [injection Hrun as _ <-; left; by exists r|].
  unfold mbind, M_bind, map_err, exec, query, stmt in Hrun. cbn [faults rows] in Hrun. unfold update_ingested in Hrun.
  rewrite Hr, Hc in Hrun. cbn [is_none] in Hrun. rewrite andb_true_r in Hrun.
  assert (Hopen : t_ingested t !! id = Some r) by done.
  destruct (head fs) as [[e|]|]; cbn in Hrun; [injection Hrun as _ <-; left; by exists r| |];
    (destruct (bool_decide (ig_ClaimedBy r = Some owner)) eqn:Hb; [|
      left; exists r; split; [|done];
      cbn in Hrun; rewrite ?Hr in Hrun; destruct (head (tail fs)) as [[e'|]|]; cbn in Hrun; [by injection Hrun as _ <-|..];
      (destruct (ig_ClaimedBy r); rewrite Hc in Hrun; cbn in Hrun; [rewrite andb_false_r in Hrun|]; by injection Hrun as _ <-)];
     to_prop; right; split; [done|]; cbn in Hrun; injection Hrun as _ <-; cbn; by rewrite lookup_insert_eq).
Qed.

Lemma open_or_completed id t0 t : rtc event_step t0 t -> open_row id t0 -> open_row id t \/ completed_by_worker id t0 t.
Proof.
  intros Hs Ho. revert t Hs. refine (rtc_ind_r (fun t => open_row id t \/ completed_by_worker id t0 t) t0 (or_introl Ho) _).
  intros t1 t2 H01 Hstep [Ho1|(owner & at_ & ta & fs & res & d2 & r1 & Ha & Hrun & Hb & Hrest)].
  - destruct Hstep as (a & fs & res & d2 & Hrun & ->).
    assert (Hcase : (exists owner at_, a = EComplete owner id at_) \/ forall owner at_, a <> EComplete owner id at_).
    { destruct a as [| | | |owner eid at_| |]; try (by right). destruct (decide (eid = id)) as [->|Hne]; [left; by eexists _, _|].
      right. intros ? ? [= _ ? _]. congruence. }
    destruct Hcase as [(owner & at_ & ->)|Hne].
    2: { left. exact (op_keeps_open id a Hne _ _ _ Hrun Ho1). }
    destruct Ho1 as (r1 & Hr1 & Hc1). cbn in Hrun.
    destruct (Complete_outcome _ _ _ _ _ _ _ _ Hrun Hr1 Hc1) as [?|[Hown Hrow]]; [by left|right].
    exists owner, at_, t1, fs, res, d2, r1. by repeat (split; [first [done|reflexivity]|]).
  - right. exists owner, at_, ta, fs, res, d2, r1. split; [done|]. split; [done|]. split; [by eapply rtc_r|done].
Qed.

(** C19: A batch that [IngestBatch] acknowledged, event by event (the first of its
    id in the batch, with positive epochs). The event passed the ownership fence.
    Either it had been ingested before, and its row is untouched; or it is
    ingested now, unfinished, with its own public document in the log; or it is
    the echo of a message that another event or the API has claimed, and only
    then it is stored as finished. And in every later table its row is there; as
    long as a row is unfinished its log entry survives retention; and a row that
    was unfinished is finished only by the worker that had claimed it. *)
Theorem ingest_acknowledged evs before ev after at_ d d' :
  evs = before ++ ev :: after -> (forall ev', ev' ∈ before -> gv_EventID ev' <> gv_EventID ev) ->
  0 < gv_ConnectionEpoch ev -> 0 < gv_AssignmentEpoch ev ->
  accounted (rows d) -> IngestBatch evs at_ d = (inr tt, d') ->
  count_owned ev (rows d) = 1 /\ acknowledged at_ ev (rows d) (rows d') /\
  forall t, rtc event_step (rows d') t ->
    exists r, t_ingested t !! gv_EventID ev = Some r /\
      (ig_CompletedAt r = None -> log_has (gv_EventID ev) t = true) /\
      (open_row (gv_EventID ev) (rows d') -> ig_CompletedAt r <> None -> completed_by_worker (gv_EventID ev) (rows d') t).
Proof.
  intros -> Hfirst Hc Has Ha Hrun. pose proof (IngestBatch_accounted _ at_ _ _ _ Hrun Ha) as Ha'.
  apply IngestBatch_returns in Hrun as [_ Hall].
  destruct (ingested_all_each _ _ _ _ ev Hall) as (_ & _ & _ & _ & _ & Hown); [apply elem_of_app; right; left|].
  split; [done|]. apply ingested_all_app in Hall as (t1 & Hb & (t2 & Hi & Hd)).
  destruct (ingested_all_rows _ _ _ _ (gv_EventID ev) Hb) as (Hr1 & _ & _); [by left|].
  destruct (ingested_as_row _ _ _ _ Hi Hc Has) as [r2 Hr2].
  destruct (ingested_all_rows _ _ _ _ (gv_EventID ev) Hd) as (Hr3 & Hl3 & Hc3); [by right|].
  rewrite Hr2 in Hr3. split.
  - destruct (ingested_as_acknowledged _ _ _ _ Hi Hc Has)
      as [r Hr Hr'|n payload doc Hn Hr Hp Hdoc Hin Hk|k c Hn Hr Hk Hcl Hne]; rewrite Hr1 in *.
    + apply AckReplay with r; [done|congruence].
    + apply (AckLogged _ _ _ _ n payload doc); auto; [congruence|]. intros k Hek. exact (lookup_weaken _ _ _ _ (Hk k Hek) Hc3).
    + apply (AckEcho _ _ _ _ k c); auto; [congruence|]. exact (lookup_weaken _ _ _ _ Hcl Hc3).
  - intros t Hsteps. pose proof (event_steps_grow _ _ Hsteps) as Hgs.
    destruct (gr_rows _ _ Hgs _ _ Hr3) as (r & Hr & Hrg). exists r. split; [done|]. split.
    + intros Hopen. destruct (Ha' _ _ Hr3) as [Hl|Hcomp]; [|by destruct (rg_completed _ _ Hrg Hcomp)].
      destruct (gr_log _ _ Hgs _ r ltac:(eauto) Hr Hl) as [?|?]; done.
    + intros Hopen Hcomp. destruct (open_or_completed _ _ _ Hsteps Hopen) as [(r' & Hr' & Hnone)|?]; [congruence|done].
Qed.

Lemma ingested_all_settled at_ evs t t' ev :
  ingested_all at_ evs t t' -> ev ∈ evs ->
  forall t2 at2, grows t' t2 -> insert_ingested ev at2 t2 = (0, t2).
Proof.
  intros Hall Hev t2 at2 Hg2. destruct (ingested_all_each _ _ _ _ _ Hall Hev) as (ta & tb & _ & Hi & Hg & _).
  eapply insert_ingested_settled; [by eapply ingested_as_settled with (at2 := at_)|]. by transitivity t'.
Qed.

(** Replaying a committed batch after a lost acknowledgement changes nothing,
    whatever happened in between and whatever the replay returns. *)
Theorem ingest_replay_is_noop evs at_ d d' t at2 fs :
  IngestBatch evs at_ d = (inr tt, d') -> rtc event_step (rows d') t ->
  rows (IngestBatch evs at2 (Db t fs)).2 = t.
Proof.
  intros Hrun Hsteps. apply IngestBatch_returns in Hrun as [_ Hall].
  unfold IngestBatch. destruct (bool_decide (length evs = 0%nat)) eqn:Hnil; [done|]. to_prop.
  assert (Hset : forall ev, ev ∈ evs -> forall at3, insert_ingested ev at3 t = (0, t)).
  { intros ev Hev at3. eapply ingested_all_settled; [done..|]. by apply event_steps_grow. }
  match goal with |- rows ?run.2 = _ => destruct run as [r d2] eqn:Hr end. cbn [snd].
  enough (Ht : triple (fun d => rows d = t) (IngestBatch evs at2) (fun _ d => rows d = t) (fun d => rows d = t)).
  { specialize (Ht (Db t fs) r d2 eq_refl). unfold IngestBatch in Ht. rewrite bool_decide_false in Ht by done.
    specialize (Ht Hr). by destruct r. }
  unfold IngestBatch. rewrite bool_decide_false by done. apply (triple_with_rollback (fun s => s = t)) with (X := fun d => rows d = t).
  assert (Htx : forall m : M (db edb) unit, m = begin_tx \/ m = commit_tx ->
            triple (fun d => rows d = t) m (fun _ d => rows d = t) (fun d => rows d = t)).
  { intros m [->| ->]; (eapply triple_weaken; [apply (triple_query (fun s => s = t))|..]; [done | by intros ? ? [? ?] | done]). }
  apply triple_bind with (R := fun _ d => rows d = t); [by apply Htx; left|]. intros ?.
  apply triple_bind with (R := fun _ d => rows d = t); [|by intros ?; apply Htx; right].
  apply triple_for_each. intros ev Hev. by apply ingest_one_settled, Hset.
Qed.

(** A batch with a stale event is never acknowledged and leaves no trace: a
    gateway that lost its connection or an assignment cannot commit part of a
    batch. *)
Theorem stale_event_rejects_batch evs at_ t fs ev :
  ev ∈ evs -> count_owned ev t <> 1 ->
  exists err fs', IngestBatch evs at_ (Db t fs) = (inl err, Db t fs').
Proof.
  intros Hev Hstale. destruct (IngestBatch evs at_ (Db t fs)) as [[err|[]] [t' fs']] eqn:Hrun.
  - exists err, fs'. f_equal. f_equal. revert Hrun. unfold IngestBatch.
    destruct (bool_decide _); [by intros [= _ ->]|]. intros Hr%with_rollback_error. exact Hr.
  - exfalso. apply IngestBatch_returns in Hrun as [_ Hall]. cbn in Hall.
    destruct (ingested_all_each _ _ _ _ _ Hall Hev) as (_ & _ & _ & _ & _ & Hown). done.
Qed.

(** ** One public event per sent message *)

Lemma AppendOwnSentOnce_returns e chat wa d b d' :
  AppendOwnSentOnce e chat wa d = (inr b, d') ->
  exists c, t_claims (rows d') !! (el_OrganizationID e, el_SessionID e, chat, wa) = Some c /\
    if b then c = (el_EventID e, "api") else c.2 <> "api" /\ t_log (rows d') = t_log (rows d).
Proof.
  unfold AppendOwnSentOnce. destruct (_ || _); [discriminate|]. intros Hrun%with_rollback_returns.
  apply bind_returns in Hrun as (? & d1 & H1 & Hrun). apply map_err_returns, query_returns in H1 as [_ H1].
  apply bind_returns in Hrun as ([cid owner] & d2 & H2 & Hrun). apply claimOutgoing_returns in H2 as [Ht Hc].
  destruct (negb (bool_decide (owner = "api"))) eqn:Ho; to_prop.
  { apply bind_returns in Hrun as (? & d3 & H3 & Hrun). apply map_err_returns, query_returns in H3 as [_ H3].
    injection Hrun as <- <-. rewrite H3. exists (cid, owner). split; [done|]. split; [done|].
    rewrite Ht, H1. unfold insert_claim. cbn. by destruct (_ || _). }
  destruct (negb (bool_decide (cid = el_EventID e))) eqn:Hi; [discriminate|]. to_prop. subst cid owner.
  apply bind_returns in Hrun as (? & d3 & H3 & Hrun). apply map_err_returns, stmt_returns in H3.
  assert (Hc3 : t_claims (rows d3) = t_claims (rows d2)).
  { revert H3. unfold insert_log_ignore, insert_log. destruct (bool_decide _); [discriminate|].
    destruct (json_column _), (log_has _ _); by intros [= _ <-]. }
  apply bind_returns in Hrun as (row & d4 & H4 & Hrun). apply map_err_returns, query_returns in H4 as [_ H4].
  destruct row as [r|]; [|discriminate]. destruct (_ || _); [discriminate|].
  apply bind_returns in Hrun as (? & d5 & H5 & Hrun). apply map_err_returns, query_returns in H5 as [_ H5].
  injection Hrun as <- <-. rewrite H5, H4, Hc3. eauto.
Qed.

(** The event of an ingestion is logged only under its own gateway claim. *)
Lemma ingested_as_logged at_ ev t t' k :
  ingested_as at_ ev t t' -> echo_identity ev = Some k ->
  t_log t' = t_log t \/ t_claims t' !! k = Some (gv_EventID ev, "gateway").
Proof.
  intros [_ [[_ ->]|(t1 & t2 & public & Hins & Hcl & Hout)]] Hk; [by left|].
  assert (H1 : t_log t1 = t_log t).
  { revert Hins. unfold insert_ingested. destruct (_ || _); by intros [= <-]. }
  pose proof (claim_outcome_frame _ _ _ _ Hcl) as Hf. unfold claim_outcome in Hcl. rewrite Hk in Hcl.
  destruct Hcl as (_ & [cid owner] & Hc & ->). destruct (_ && _) eqn:Hpub; to_prop; cbn in *; subst.
  - right. destruct Hout as (? & ? & _ & _ & _ & ->). done.
  - left. rewrite <- H1. transitivity (t_log t2); [|by rewrite Hf].
    unfold update_ingested. by destruct (t_ingested t2 !! gv_EventID ev).
Qed.

Lemma Ingest_cases ev at_ t fs :
  rows (Ingest ev at_ (Db t fs)).2 = t \/ ingested_as at_ ev t (rows (Ingest ev at_ (Db t fs)).2).
Proof.
  destruct (Ingest ev at_ (Db t fs)) as [[e|[]] d'] eqn:Hrun.
  - left. revert Hrun. unfold Ingest, IngestBatch. destruct (bool_decide _); [by intros [= _ <-]|].
    apply with_rollback_error.
  - right. unfold Ingest in Hrun. apply IngestBatch_returns in Hrun as [_ (t1 & Hi & Ht)]. cbn in *. by subst.
Qed.

(** An API send and the gateway's echo of it are one public event: once the API
    published a sent message, ingesting its echo logs nothing, and once the
    gateway's echo was logged, the API send publishes and logs nothing, whatever
    the tables went through in between. *)
Theorem sent_message_is_published_once e chat wa ev at_ fs d d' t :
  echo_identity ev = Some (el_OrganizationID e, el_SessionID e, chat, wa) ->
  rtc event_step (rows d') t ->
  (AppendOwnSentOnce e chat wa d = (inr true, d') ->
     t_log (rows (Ingest ev at_ (Db t fs)).2) = t_log t) /\
  (Ingest ev at_ d = (inr tt, d') -> t_log (rows d') <> t_log (rows d) ->
     (AppendOwnSentOnce e chat wa (Db t fs)).1 <> inr true /\
     t_log (rows (AppendOwnSentOnce e chat wa (Db t fs)).2) = t_log t).
Proof.
  intros Hk Hsteps. pose proof (gr_claims _ _ (event_steps_grow _ _ Hsteps)) as Hg. split.
  - intros Hrun. apply AppendOwnSentOnce_returns in Hrun as (c & Hc & ->).
    destruct (Ingest_cases ev at_ t fs) as [->|Hi]; [done|].
    destruct (ingested_as_logged _ _ _ _ _ Hi Hk) as [?|Hc2]; [done|]. exfalso.
    pose proof (gr_claims _ _ (ingested_as_grows _ _ _ _ Hi)) as Hg2.
    pose proof (lookup_weaken _ _ _ _ (lookup_weaken _ _ _ _ Hc Hg) Hg2) as H.
    discriminate (eq_trans (eq_sym Hc2) H).
  - intros Hrun Hlog. unfold Ingest in Hrun. apply IngestBatch_returns in Hrun as [_ (t1 & Hi & Ht)].
    cbn in Ht. rewrite Ht in *. destruct (ingested_as_logged _ _ _ _ _ Hi Hk) as [?|Hc]; [done|].
    destruct (AppendOwnSentOnce e chat wa (Db t fs)) as [[err|b] d2] eqn:Hrun; cbn.
    + split; [done|]. revert Hrun. unfold AppendOwnSentOnce. destruct (_ || _); [by intros [= _ <-]|].
      intros Hr%with_rollback_error. by rewrite Hr.
    + pose proof (AppendOwnSentOnce_respects grows insert_claim_grows insert_log_grows e chat wa _ _ _ Hrun) as Hg2.
      apply gr_claims in Hg2. cbn in Hg2.
      apply AppendOwnSentOnce_returns in Hrun as (c & Hc2 & Hb).
      pose proof (lookup_weaken _ _ _ _ (lookup_weaken _ _ _ _ Hc Hg) Hg2) as Hc3.
      pose proof (eq_trans (eq_sym Hc2) Hc3) as [= ->]. destruct b; [discriminate Hb|].
      destruct Hb as [_ Hb]. by split.
Qed.

(** ** Leases *)

Lemma find_log_spec id t e : find_log id t = Some e -> e ∈ t_log t /\ el_EventID e = id.
Proof.
  unfold find_log. intros H. destruct (filter _ (t_log t)) as [|e0 l] eqn:Hf; [discriminate|].
  injection H as ->. assert (He : e ∈ filter (fun e => el_EventID e = id) (t_log t)) by (rewrite Hf; by left).
  apply list_elem_of_filter in He. tauto.
Qed.

Lemma find_log_total id t : log_has id t = true -> exists e, find_log id t = Some e.
Proof.
  intros (e & He & Hid)%log_has_spec. unfold find_log.
  destruct (filter _ (t_log t)) as [|e0 l] eqn:Hf; [|by exists e0].
  exfalso. apply (not_elem_of_nil e). rewrite <- Hf. by apply list_elem_of_filter.
Qed.

#[export] Instance committed_le_trans : Transitive committed_le.
Proof.
  unfold committed_le. intros a b c [H1|[H1 H1']] [H2|[H2 H2']]; [left; lia..|].
  right. split; [lia|]. exact (string_leb_trans _ _ _ H1' H2').
Qed.
#[export] Instance committed_le_total : Total committed_le.
Proof.
  intros a b. unfold committed_le.
  destruct (Z.lt_trichotomy (ig_CommittedAt a) (ig_CommittedAt b)) as [?|[?|?]];
    [left; left; lia| |right; left; lia].
  destruct (String.leb_total (ig_EventLogID a) (ig_EventLogID b)) as [?|?]; [left; right; auto | right; right; auto].
Qed.

Lemma ltb_leb a b : String.ltb a b = String.leb a b && negb (bool_decide (a = b)).
Proof.
  unfold String.ltb, String.leb. destruct (bool_decide (a = b)) eqn:Hab; to_prop.
  - subst. destruct (String.compare b b) eqn:E; [done| |done].
    pose proof (String.compare_antisym b b) as H. rewrite E in H. done.
  - destruct (String.compare a b) eqn:E; [|done|done]. by apply String.compare_eq_iff in E.
Qed.

Lemma committed_before_spec a b :
  committed_before a b = true <->
  committed_le a b /\ (ig_CommittedAt a = ig_CommittedAt b -> ig_EventLogID a <> ig_EventLogID b).
Proof.
  unfold committed_before, committed_le.
  rewrite orb_true_iff, andb_true_iff, Z.ltb_lt, Z.eqb_eq, ltb_leb, andb_true_iff, negb_true_iff,
    bool_decide_eq_false. intuition lia.
Qed.

Lemma committed_before_trans a b c :
  committed_before a b = true -> committed_before b c = true -> committed_before a c = true.
Proof.
  rewrite !committed_before_spec. intros [H1 N1] [H2 N2]. split; [by transitivity b|].
  intros Hat Heq. unfold committed_le in *. assert (Hab : ig_CommittedAt a = ig_CommittedAt b) by intuition lia.
  apply (N1 Hab). apply String.leb_antisym; [intuition lia|]. rewrite Heq. intuition lia.
Qed.

Lemma committed_le_antisym a b :
  committed_le a b -> committed_le b a -> ig_EventLogID a = ig_EventLogID b.
Proof. unfold committed_le. intros [?|[? ?]] [?|[? ?]]; try lia. by apply String.leb_antisym. Qed.

Lemma elem_of_ingest_rows t r : ingest_wf t -> r ∈ ingest_rows t <-> t_ingested t !! ig_EventLogID r = Some r.
Proof.
  intros Hw. unfold ingest_rows. split.
  - intros ([id r'] & -> & H%elem_of_map_to_list)%list_elem_of_fmap. cbn in *. by rewrite (iw_id _ Hw _ _ H).
  - intros H. apply list_elem_of_fmap. exists (ig_EventLogID r, r). split; [done | by apply elem_of_map_to_list].
Qed.

Lemma claimable_rows_elem locked now limit t r :
  r ∈ claimable_rows locked now limit t -> r ∈ ingest_rows t /\ claimable_event locked now t r = true.
Proof.
  intros H%subseteq_take. rewrite merge_sort_Permutation in H.
  apply list_elem_of_filter in H. tauto.
Qed.

(** The rows selected are the events returned, in order. *)
Lemma select_ids locked now limit t :
  el_EventID <$> select_claimable locked now limit t = ig_EventLogID <$> claimable_rows locked now limit t.
Proof.
  unfold select_claimable.
  assert (Hall : forall r, r ∈ claimable_rows locked now limit t -> log_has (ig_EventLogID r) t = true).
  { intros r [_ Hc]%claimable_rows_elem. unfold claimable_event in Hc. by to_prop. }
  induction (claimable_rows locked now limit t) as [|r l IH]; [done|]. cbn.
  destruct (find_log_total _ _ (Hall r ltac:(by left))) as [e He]. rewrite He. cbn.
  rewrite IH by (intros r' Hr'; apply Hall; by right). f_equal. by apply find_log_spec in He as [_ ->].
Qed.

Lemma lease_rows_returns owner until l out d evs d' :
  lease_rows owner until l out d = (inr evs, d') ->
  evs = out ++ (raw_event <$> l) /\
  forall id, t_ingested (rows d') !! id =
    if decide (id ∈ el_EventID <$> l) then set_leased owner until <$> t_ingested (rows d) !! id
    else t_ingested (rows d) !! id.
Proof.
  revert out d. induction l as [|e l IH]; intros out d; cbn [lease_rows].
  { intros [= <- <-]. split; [by rewrite app_nil_r|]. done. }
  intros (n & d1 & H1 & Hrun)%bind_returns. apply map_err_returns, exec_returns in H1 as [-> H1].
  destruct (negb _) eqn:Hn; [discriminate|]. to_prop. apply IH in Hrun as [-> Hids].
  split; [by rewrite <- app_assoc|]. intros id. rewrite Hids, H1. clear Hids H1 IH.
  revert Hn. unfold update_ingested. destruct (t_ingested (rows d) !! el_EventID e) as [r|] eqn:Hr; [|done].
  destruct (is_none _); [|done]. intros _. cbn [snd with_ingested t_ingested fmap list_fmap].
  destruct (decide (id = el_EventID e)) as [->|Hne].
  - rewrite lookup_insert_eq, Hr. rewrite (decide_True (P := _ ∈ _ :: _)) by by left. by destruct (decide _).
  - rewrite lookup_insert_ne by done. destruct (decide (id ∈ el_EventID <$> l)) as [Hin|Hin].
    + rewrite decide_True by by right. done.
    + rewrite decide_False; [done|]. by intros [->|?]%elem_of_cons.
Qed.

(** What a committed claim did: it returned the selected events and leased
    exactly their rows. *)
Lemma ClaimCommittedEvents_returns locked work d evs d' :
  ClaimCommittedEvents locked work d = (inr evs, d') ->
  let sel := claimable_rows locked (UnixMilli (wk_ClaimedAt work)) (wk_MaxItems work) (rows d) in
  re_ID <$> evs = ig_EventLogID <$> sel /\
  forall id, t_ingested (rows d') !! id =
    if decide (id ∈ ig_EventLogID <$> sel)
    then set_leased (wk_Owner work) (UnixMilli (wk_LeaseUntil work)) <$> t_ingested (rows d) !! id
    else t_ingested (rows d) !! id.
Proof.
  unfold ClaimCommittedEvents. destruct (bool_decide _); [discriminate|]. destruct (_ <=? _); [discriminate|].
  destruct (_ || _); [discriminate|]. intros Hrun%with_rollback_returns.
  apply bind_returns in Hrun as (? & d1 & H1 & Hrun). apply map_err_returns, query_returns in H1 as [_ H1].
  apply bind_returns in Hrun as (l & d2 & H2 & Hrun). apply map_err_returns, query_returns in H2 as [-> H2].
  apply bind_returns in Hrun as (events & d3 & H3 & Hrun).
  apply bind_returns in Hrun as (? & d4 & H4 & Hrun). apply map_err_returns, query_returns in H4 as [_ H4].
  injection Hrun as <- <-. apply lease_rows_returns in H3 as [-> Hids]. rewrite H1 in *. cbn [app].
  rewrite select_ids in Hids. split.
  - rewrite <- select_ids, <- list_fmap_compose. done.
  - intros id. by rewrite H4, Hids, H2.
Qed.

(** [id] is leased until [until]. *)
Definition holds (until : Z) (id : string) (t : edb) : Prop :=
  exists r, t_ingested t !! id = Some r /\ ig_LeaseUntil r = Some until.

(** The operations of a run whose claims are made before [until]. *)
Definition before (until : Z) (a : event_op) : Prop :=
  match a with EClaim _ work => UnixMilli (wk_ClaimedAt work) < until | _ => True end.
Definition event_step_before (until : Z) (t t' : edb) : Prop :=
  exists a fs r d', before until a /\ run_event_op a (Db t fs) = (r, d') /\ t' = rows d'.

Lemma update_ingested_holds until id id' guard f t :
  (forall r, ig_LeaseUntil (f r) = ig_LeaseUntil r) ->
  holds until id t -> holds until id (update_ingested id' guard f t).2.
Proof.
  intros Hf (r & Hr & Hl). unfold update_ingested. destruct (t_ingested t !! id') as [r'|] eqn:Hr'; [|by exists r].
  destruct (guard r'); [|by exists r]. destruct (decide (id' = id)) as [->|Hne]; unfold holds; cbn.
  - exists (f r'). rewrite lookup_insert_eq, Hf. split; [done|]. congruence.
  - exists r. by rewrite lookup_insert_ne.
Qed.

Lemma claimed_not_held until id locked work t :
  ingest_wf t -> holds until id t -> UnixMilli (wk_ClaimedAt work) < until ->
  id ∉ ig_EventLogID <$> claimable_rows locked (UnixMilli (wk_ClaimedAt work)) (wk_MaxItems work) t.
Proof.
  intros Hw (r & Hr & Hl) Hlt (r' & -> & [Hin Hc]%claimable_rows_elem)%list_elem_of_fmap.
  apply elem_of_ingest_rows in Hin; [|done]. rewrite Hin in Hr. injection Hr as ->.
  unfold claimable_event, leased in Hc. rewrite Hl in Hc. to_prop. cbn in *. to_prop. lia.
Qed.

Lemma op_holds until id a t fs r d' :
  before until a -> ingest_wf t -> holds until id t ->
  run_event_op a (Db t fs) = (r, d') -> holds until id (rows d').
Proof.
  intros Hb Hw Hh Hrun. destruct (match a with EClaim _ _ => true | _ => false end) eqn:Ha.
  - destruct a as [| | |locked work| | |]; try discriminate. cbn in Hb, Hrun. unfold mbind, M_bind in Hrun.
    destruct (ClaimCommittedEvents locked work (Db t fs)) as [[e|evs] d1] eqn:Hc.
    + injection Hrun as _ <-. revert Hc. unfold ClaimCommittedEvents.
      do 3 (destruct (bool_decide _) || destruct (_ <=? _) || destruct (_ || _); [by intros [= _ <-]|]).
      intros Hc%with_rollback_error. by rewrite Hc.
    + injection Hrun as _ <-. apply ClaimCommittedEvents_returns in Hc as [_ Hids]. unfold holds.
      rewrite Hids, decide_False; [done|]. by apply (claimed_not_held until).
  - assert (Hr : respects (on_rows (keeps (holds until id))) (run_event_op a)).
    { assert (Hins : forall ev at_ t, keeps (holds until id) t (insert_ingested ev at_ t).2).
      { intros ev at_ t0 (r0 & Hr0 & Hl). pose proof (gr_rows _ _ (insert_ingested_grows ev at_ t0) _ _ Hr0).
        unfold insert_ingested in *. destruct (_ || _) eqn:Hd; [by exists r0|]. to_prop.
        exists r0. cbn. rewrite lookup_insert_ne; [done|]. intros <-. eauto. }
      assert (Hcl : forall k i o t, keeps (holds until id) t (insert_claim k i o t).2).
      { intros k i o t0 Ht. unfold insert_claim. cbn. by destruct (_ || _). }
      assert (Hlog : forall i o s y p c t, keeps (holds until id) t (insert_log i o s y p c t).2).
      { intros i o s y p c t0 Ht. unfold insert_log. destruct (json_column p); [|done]. by destruct (log_has _ _). }
      assert (Hup : forall i g c t, keeps (holds until id) t (update_ingested i g (set_completed c) t).2).
      { intros i g c t0 Ht. by apply update_ingested_holds. }
      destruct a; cbn [run_event_op]; try discriminate.
      - by apply IngestBatch_respects; [apply _|..].
      - apply respects_bind; [apply _ | by apply AppendOwnSentOnce_respects; [apply _|..]
                             | intros; apply respects_ret, _].
      - apply respects_bind; [apply _ | | intros; apply respects_ret, _].
        apply respects_map_err, respects_stmt; [apply _ | auto].
      - by apply Complete_respects; [apply _|..].
      - apply respects_bind; [apply _ | | intros; apply respects_ret, _].
        apply retention_respects; [apply _|]. intros wt ct lim t0 Ht0. exact Ht0.
      - apply respects_exec; [apply _|]. by intros t0 Ht0. }
    exact (Hr _ _ _ Hrun Hh).
Qed.

Lemma steps_hold until id t t' :
  ingest_wf t -> holds until id t -> rtc (event_step_before until) t t' -> ingest_wf t' /\ holds until id t'.
Proof.
  intros Hw Hh. induction 1 as [t|t t1 t2 (a & fs & r & d' & Hb & Hrun & ->) _ IH]; [done|].
  apply IH; [exact (event_op_keeps_wf a _ _ _ Hrun Hw) | by eapply op_holds].
Qed.

(** A live lease is exclusive: the events a claim returned are not returned by
    any claim made before that lease ends, whatever ran in between. *)
Theorem live_lease_is_exclusive locked work d evs d' t locked2 work2 fs evs2 d2 :
  ingest_wf (rows d) ->
  ClaimCommittedEvents locked work d = (inr evs, d') ->
  rtc (event_step_before (UnixMilli (wk_LeaseUntil work))) (rows d') t ->
  UnixMilli (wk_ClaimedAt work2) < UnixMilli (wk_LeaseUntil work) ->
  ClaimCommittedEvents locked2 work2 (Db t fs) = (inr evs2, d2) ->
  forall ev, ev ∈ evs -> re_ID ev ∉ re_ID <$> evs2.
Proof.
  intros Hw H1 Hsteps Hlt H2 ev Hev.
  assert (Hw' : ingest_wf (rows d')).
  { refine (event_op_keeps_wf (EClaim locked work) d (inr tt) d' _ Hw). cbn. unfold mbind, M_bind. by rewrite H1. }
  apply ClaimCommittedEvents_returns in H1 as [Hids1 Hrows]. apply ClaimCommittedEvents_returns in H2 as [-> _].
  assert (Hin : re_ID ev ∈ ig_EventLogID <$> claimable_rows locked (UnixMilli (wk_ClaimedAt work))
            (wk_MaxItems work) (rows d)) by (rewrite <- Hids1; by apply list_elem_of_fmap_2).
  assert (Hh : holds (UnixMilli (wk_LeaseUntil work)) (re_ID ev) (rows d')).
  { unfold holds. rewrite Hrows, decide_True by done.
    apply list_elem_of_fmap in Hin as (r & -> & [Hr _]%claimable_rows_elem).
    apply elem_of_ingest_rows in Hr; [|done]. rewrite Hr. cbn. eauto. }
  destruct (steps_hold _ _ _ _ Hw' Hh Hsteps) as [Hwt Hht]. cbn. by apply (claimed_not_held (UnixMilli (wk_LeaseUntil work))).
Qed.

(** ** Order within a session *)

Lemma sorted_take_before {A} (R : A -> A -> Prop) (l : list A) n x y j :
  StronglySorted R l -> (forall a b, R a b -> R b a -> a ∈ l -> b ∈ l -> a = b) -> x <> y ->
  take n l !! j = Some x -> y ∈ l -> R y x -> exists i, (i < j)%nat /\ take n l !! i = Some y.
Proof.
  intros Hs Hanti Hne Hx [i Hi]%list_elem_of_lookup HR. apply lookup_take_Some in Hx as [Hx Hjn].
  destruct (lt_eq_lt_dec i j) as [[Hij|Hij]|Hij].
  - exists i. split; [done|]. by rewrite lookup_take_lt by lia.
  - subst. congruence.
  - exfalso. apply Hne. apply Hanti; [|done|by eapply list_elem_of_lookup_2..].
    exact (StronglySorted_lookup_lt R l j i x y Hs Hx Hi Hij).
Qed.

(** Post-commit order: an event is claimed only after every earlier incomplete
    event of its session that no other transaction holds locked. *)
Theorem claim_respects_session_order locked work d evs d' r prior j :
  ingest_wf (rows d) ->
  ClaimCommittedEvents locked work d = (inr evs, d') ->
  t_ingested (rows d) !! ig_EventLogID r = Some r -> (re_ID <$> evs) !! j = Some (ig_EventLogID r) ->
  t_ingested (rows d) !! ig_EventLogID prior = Some prior -> ig_SessionID prior = ig_SessionID r ->
  committed_before prior r = true ->
  ig_CompletedAt prior = None -> log_has (ig_EventLogID prior) (rows d) = true ->
  ig_EventLogID prior ∉ locked ->
  exists i, (i < j)%nat /\ (re_ID <$> evs) !! i = Some (ig_EventLogID prior).
Proof.
  intros Hw Hrun Hr Hj Hp Hsess Hbef Hcomp Hlog Hlock.
  apply ClaimCommittedEvents_returns in Hrun as [Hids _]. rewrite Hids in *. clear Hids.
  set (now := UnixMilli (wk_ClaimedAt work)) in *. set (t := rows d) in *.
  rewrite list_lookup_fmap in Hj. destruct (_ !! j) as [r'|] eqn:Hj'; [|discriminate]. injection Hj as Hid.
  assert (Hin : r' ∈ claimable_rows locked now (wk_MaxItems work) t) by by eapply list_elem_of_lookup_2.
  apply claimable_rows_elem in Hin as [Hin Hc]. apply elem_of_ingest_rows in Hin; [|done].
  rewrite Hid, Hr in Hin. injection Hin as ->. unfold claimable_event in Hc. to_prop.
  match goal with H : existsb _ _ = false |- _ => rename H into Hnone end.
  assert (Hno : forall p, p ∈ ingest_rows t -> ig_SessionID p = ig_SessionID r' -> ig_CompletedAt p = None ->
            committed_before p r' = true -> leased now p = false).
  { intros p Hp1 Hp2 Hp3 Hp4. destruct (leased now p) eqn:Hl; [|done]. exfalso.
    apply not_true_iff_false in Hnone. apply Hnone, existsb_exists. exists p.
    split; [by apply list_elem_of_In|]. rewrite bool_decide_true, Hp3, Hl, Hp4 by done. done. }
  assert (Hclaim : claimable_event locked now t prior = true).
  { unfold claimable_event. rewrite Hlog, Hcomp. cbn [is_none andb].
    rewrite Hno by (done || by apply elem_of_ingest_rows). cbn [negb andb].
    rewrite (bool_decide_false (_ ∈ locked)) by done. rewrite andb_true_r. apply negb_true_iff, not_true_iff_false.
    intros (p & Hp1 & Hp2)%existsb_exists. to_prop. apply list_elem_of_In in Hp1.
    assert (Hpc : ig_CompletedAt p = None) by by destruct (ig_CompletedAt p).
    rewrite (Hno p) in *; [discriminate|done|congruence|done|]. by apply (committed_before_trans p prior). }
  apply committed_before_spec in Hbef as [Hle Hneq].
  destruct (sorted_take_before committed_le _ (Z.to_nat (wk_MaxItems work)) r' prior j
    (StronglySorted_merge_sort committed_le (filter (fun r => claimable_event locked now t r = true) (ingest_rows t))))
    as (i & Hij & Hi); [..|done| |done|].
  - intros a b Hab Hba Ha Hb. rewrite merge_sort_Permutation in Ha, Hb.
    apply list_elem_of_filter in Ha as [_ Ha], Hb as [_ Hb].
    apply elem_of_ingest_rows in Ha, Hb; [|done..]. rewrite (committed_le_antisym _ _ Hab Hba) in Ha. congruence.
  - intros ->. by apply Hneq.
  - rewrite merge_sort_Permutation. apply list_elem_of_filter. split; [done | by apply elem_of_ingest_rows].
  - exists i. split; [done|]. unfold claimable_rows. by rewrite list_lookup_fmap, Hi.
Qed.
(** ** Retention *)

Lemma length_filter_split {A} (P : A -> Prop) `{!forall x, Decision (P x)} (l : list A) :
  length l = (length (filter P l) + length (filter (fun x => ~ P x) l))%nat.
Proof. induction l as [|x l IH]; [done|]. rewrite !filter_cons. repeat case_decide; cbn; try done; lia. Qed.

(** One batch removes the entries it counts, and all that may go when there are
    fewer than the limit. *)
Lemma retention_batch waiting cutoff t :
  ingest_wf t ->
  let '(n, t') := DeleteUnreferencedEventLogBefore waiting cutoff retentionDeleteBatchSize t in
  Z.of_nat (length (t_log t')) = Z.of_nat (length (t_log t)) - n /\
  t_ingested t' = t_ingested t /\
  (n < retentionDeleteBatchSize -> forall e, e ∈ t_log t' -> unreferenced waiting cutoff t' e = false).
Proof.
  intros Hw. cbn. set (gone := filter (fun e => unreferenced waiting cutoff t e = true) (t_log t)).
  set (doomed := take _ (merge_sort age_le gone)).
  assert (Hnd : NoDup (t_log t)) by (eapply NoDup_fmap_1, iw_unique, Hw).
  assert (Hs : NoDup (merge_sort age_le gone)).
  { rewrite merge_sort_Permutation. by apply NoDup_filter. }
  assert (Hin : forall e, e ∈ doomed -> e ∈ t_log t).
  { intros e He%subseteq_take. rewrite merge_sort_Permutation in He. by apply list_elem_of_filter in He as [_ ?]. }
  split; [|split; [done|]].
  - pose proof (length_filter_split (fun e => e ∈ doomed) (t_log t)) as Hl.
    enough (length (filter (fun e => e ∈ doomed) (t_log t)) = length doomed) by lia.
    apply Permutation_length, NoDup_Permutation; [by apply NoDup_filter| |].
    + unfold doomed. rewrite <- (take_drop (Z.to_nat retentionDeleteBatchSize) (merge_sort age_le gone)) in Hs.
      by apply NoDup_app in Hs as [? _].
    + intros e. rewrite list_elem_of_filter. split; [tauto|]. auto.
  - intros Hlt e [Hnot He]%list_elem_of_filter. apply not_true_iff_false. intros Hu. apply Hnot.
    assert (Hall : doomed = merge_sort age_le gone).
    { unfold doomed in *. apply take_ge. rewrite length_take in Hlt. unfold retentionDeleteBatchSize in *. lia. }
    rewrite Hall, merge_sort_Permutation. apply list_elem_of_filter. by split.
Qed.

Lemma deleteBatches_spec fuel waiting cutoff total t fs :
  ingest_wf t -> Z.of_nat (length (t_log t)) < retentionDeleteBatchSize * Z.of_nat fuel ->
  match deleteBatches fuel (map_err (ErrWrap "store: delete event log")
          (exec (DeleteUnreferencedEventLogBefore waiting cutoff retentionDeleteBatchSize))) total (Db t fs) with
  | (inl _, _) => True
  | (inr None, _) => False
  | (inr (Some n), d') =>
      n = total + Z.of_nat (length (t_log t)) - Z.of_nat (length (t_log (rows d'))) /\
      forall e, e ∈ t_log (rows d') -> unreferenced waiting cutoff (rows d') e = false
  end.
Proof.
  revert t fs total. induction fuel as [|fuel IH]; intros t fs total Hw Hf; [lia|].
  cbn [deleteBatches]. unfold mbind, M_bind.
  pose proof (retention_batch waiting cutoff t Hw) as Hb.
  assert (Hw' : ingest_wf (DeleteUnreferencedEventLogBefore waiting cutoff retentionDeleteBatchSize t).2).
  { destruct Hw as [Hid Hs Hm Hu]. split; cbn; [done|..].
    - by apply StronglySorted_filter.
    - by apply Forall_filter_keep.
    - by apply NoDup_fmap_filter. }
  unfold map_err, exec, stmt. cbn [rows faults].
  destruct (DeleteUnreferencedEventLogBefore waiting cutoff retentionDeleteBatchSize t) as [n t'] eqn:Hd.
  destruct Hb as (Hn & _ & Hlast). cbn [snd] in Hw'.
  assert (Hgo : forall fs', match (if n <? retentionDeleteBatchSize then mret (Some (total + n))
            else deleteBatches fuel (map_err (ErrWrap "store: delete event log")
                   (exec (DeleteUnreferencedEventLogBefore waiting cutoff retentionDeleteBatchSize)))
                   (total + n)) (Db t' fs') with
    | (inl _, _) => True
    | (inr None, _) => False
    | (inr (Some n), d') =>
        n = total + Z.of_nat (length (t_log t)) - Z.of_nat (length (t_log (rows d'))) /\
        forall e, e ∈ t_log (rows d') -> unreferenced waiting cutoff (rows d') e = false
    end).
  { intros fs'. destruct (n <? retentionDeleteBatchSize) eqn:Hc; to_prop.
    - cbn. split; [lia | auto].
    - specialize (IH t' fs' (total + n) Hw' ltac:(unfold retentionDeleteBatchSize in *; lia)).
      destruct (deleteBatches _ _ _ _) as [[e|[m|]] d']; [done| |done].
      destruct IH as [IH1 IH2]. split; [lia | done]. }
  destruct fs as [|[e|] fs]; cbn [head tail]; [apply Hgo|done|apply Hgo].
Qed.

(** C40: The retention loop ends after at most one round per thousand log entries,
    and when it returns every entry that may go is gone and the count it
    reports is the number of entries removed. *)
Theorem retention_terminates_and_cleans fuel waiting cutoff t fs :
  ingest_wf t -> Z.of_nat (length (t_log t)) < retentionDeleteBatchSize * Z.of_nat fuel ->
  match deleteUnreferencedEvents fuel waiting cutoff (Db t fs) with
  | (inl _, _) => True
  | (inr None, _) => False
  | (inr (Some n), d') =>
      n = Z.of_nat (length (t_log t)) - Z.of_nat (length (t_log (rows d'))) /\
      forall e, e ∈ t_log (rows d') -> unreferenced waiting cutoff (rows d') e = false
  end.
Proof. exact (deleteBatches_spec fuel waiting cutoff 0 t fs). Qed.
End Repo.

(** ** Concrete tables *)

#[local] Instance demo_mysql : MySQL := {| collate s := s; json_column p := Some p; json_remove _ p := p |}.
#[local] Instance demo_codec : IngestCodec := {|
  outgoing_identity _ := Some ("wa1", "c@s.whatsapp.net", true);
  unmarshal_raw _ := None;
  marshal_raw _ := inl (ErrMsg "unsupported");
|}.

Definition demo_event (id typ : string) (connection : Z) : GatewayEvent :=
  MkEnvelope id "gw" "s" "org" typ connection 1 ["{"%byte; "}"%byte] 5.
Definition demo_tables : edb :=
  MkEdb {["s" := ("gw", 1)]} {["s" := "org"]} {["gw" := MkGatewayRow 1 None]} ∅ [] 0 ∅.
Definition demo_ingested : (goerr + unit) * db edb :=
  IngestBatch None [demo_event "e1" "message" 1; demo_event "e2" "message" 1] 10 (Db demo_tables []).
Definition demo_work (owner : string) (at_ maxItems : Z) : CommittedEventWork :=
  MkWork owner (FromUnixMilli at_) (FromUnixMilli (at_ + 100)) maxItems.
Definition demo_sent : EventLogEntry := MkLogEntry 0 "api1" "org" "s" EventMessageFromMe ["{"%byte; "}"%byte] 7.

Lemma demo_ingested_runs : demo_ingested = (inr tt, demo_ingested.2).
Proof. vm_compute. reflexivity. Qed.

Lemma demo_tables_wf : ingest_wf demo_tables.
Proof. split; cbn; [|constructor..]. intros id r [=]. Qed.

Lemma demo_ingested_wf : ingest_wf (rows demo_ingested.2).
Proof.
  apply (event_steps_wf None demo_tables); [apply demo_tables_wf|]. apply rtc_once.
  exists (EIngest [demo_event "e1" "message" 1; demo_event "e2" "message" 1] 10), [].
  eexists _, _. split; [apply demo_ingested_runs | reflexivity].
Qed.

(** A claim whose select runs while another worker's claim of [e1] is not yet
    committed skips [e1], finds it without a lease, and takes the later [e2] of
    the same session. *)
Example locked_predecessor_is_overtaken :
  let t := rows demo_ingested.2 in
  (match (ClaimCommittedEvents ∅ (demo_work "a" 20 1) (Db t [])).1 with
   | inr evs => re_ID <$> evs = ["e1"] | inl _ => False end) /\
  (match (ClaimCommittedEvents {["e1"]} (demo_work "b" 20 1) (Db t [])).1 with
   | inr evs => re_ID <$> evs = ["e2"] | inl _ => False end).
Proof. vm_compute. split; reflexivity. Qed.

Lemma ingest_acknowledged_witness :
  acknowledged None 10 (demo_event "e1" "message" 1) demo_tables (rows demo_ingested.2) /\
  forall t, rtc (event_step None) (rows demo_ingested.2) t ->
    exists r, t_ingested t !! "e1" = Some r /\ (ig_CompletedAt r = None -> log_has "e1" t = true).
Proof.
  assert (Hwf : accounted (rows (Db demo_tables []))) by (intros id r [=]).
  destruct (ingest_acknowledged None _ [] (demo_event "e1" "message" 1) _ 10 (Db demo_tables []) demo_ingested.2
             eq_refl (fun ev' Hin => False_ind _ (not_elem_of_nil ev' Hin))
             eq_refl eq_refl Hwf demo_ingested_runs) as (_ & Hack & Hlater).
  split; [exact Hack|]. intros t Ht. destruct (Hlater t Ht) as (r & Hr & Hl & _). by exists r.
Defined.

Lemma ingest_replay_is_noop_witness :
  rows (IngestBatch None [demo_event "e1" "message" 1; demo_event "e2" "message" 1] 50
          (Db (rows demo_ingested.2) [])).2 = rows demo_ingested.2.
Proof.
  exact (ingest_replay_is_noop None _ 10 (Db demo_tables []) demo_ingested.2 (rows demo_ingested.2) 50 []
           demo_ingested_runs (rtc_refl _ _)).
Defined.

Lemma stale_event_rejects_batch_witness :
  exists err fs', IngestBatch None [demo_event "e1" "message" 1; demo_event "e2" "message" 7] 10
                    (Db demo_tables []) = (inl err, Db demo_tables fs').
Proof.
  apply (stale_event_rejects_batch None _ 10 demo_tables [] (demo_event "e2" "message" 7)).
  - right. left.
  - vm_compute. discriminate.
Defined.

Lemma sent_message_is_published_once_witness :
  let d' := (AppendOwnSentOnce demo_sent "c@s.whatsapp.net" "wa1" (Db demo_tables [])).2 in
  t_log (rows (Ingest None (demo_event "e1" EventMessageFromMe 1) 10 (Db (rows d') [])).2) = t_log (rows d').
Proof.
  intros d'.
  refine (proj1 (sent_message_is_published_once None demo_sent "c@s.whatsapp.net" "wa1"
    (demo_event "e1" EventMessageFromMe 1) 10 [] (Db demo_tables []) d' (rows d') _ (rtc_refl _ _)) _).
  - reflexivity.
  - vm_compute. reflexivity.
Defined.

Definition demo_claimed : (goerr + list RawEvent) * db edb :=
  ClaimCommittedEvents ∅ (demo_work "a" 20 10) (Db (rows demo_ingested.2) []).

Lemma live_lease_is_exclusive_witness :
  match demo_claimed.1, (ClaimCommittedEvents ∅ (demo_work "b" 60 10) (Db (rows demo_claimed.2) [])).1 with
  | inr evs, inr evs2 => length evs = 2%nat /\ forall ev, ev ∈ evs -> re_ID ev ∉ re_ID <$> evs2
  | _, _ => False
  end.
Proof.
  destruct demo_claimed as [[err|evs] d'] eqn:H1; [vm_compute in H1; discriminate|]. cbn [fst snd].
  destruct (ClaimCommittedEvents ∅ (demo_work "b" 60 10) (Db (rows d') [])) as [[err|evs2] d2] eqn:H2.
  { vm_compute in H1. injection H1 as _ <-. vm_compute in H2. discriminate. }
  cbn [fst]. split; [vm_compute in H1; injection H1 as <- _; reflexivity|].
  exact (live_lease_is_exclusive None ∅ (demo_work "a" 20 10) (Db (rows demo_ingested.2) []) evs d' (rows d') ∅
    (demo_work "b" 60 10) [] evs2 d2 demo_ingested_wf H1 (rtc_refl _ _) ltac:(vm_compute; reflexivity) H2).
Defined.

Definition demo_row (id : string) : IngestRow := MkIngestRow "gw" 1 "s" 1 "org" id 10 None None None.

Lemma claim_respects_session_order_witness :
  match demo_claimed.1 with
  | inr evs => exists i, (i < 1)%nat /\ (re_ID <$> evs) !! i = Some "e1"
  | inl _ => False
  end.
Proof.
  destruct demo_claimed as [[err|evs] d'] eqn:H1; [vm_compute in H1; discriminate|]. cbn [fst].
  refine (claim_respects_session_order ∅ (demo_work "a" 20 10) (Db (rows demo_ingested.2) []) evs d'
            (demo_row "e2") (demo_row "e1") 1 demo_ingested_wf H1 _ _ _ eq_refl _ eq_refl _ _);
    try (vm_compute; reflexivity).
  - vm_compute in H1. injection H1 as <- _. reflexivity.
  - apply not_elem_of_empty.
Defined.

Lemma retention_terminates_and_cleans_witness :
  match deleteUnreferencedEvents 1 {["e1"]} 100 (Db (rows demo_ingested.2) []) with
  | (inr (Some n), d') => n = 0 /\ length (t_log (rows d')) = 2%nat
  | _ => False
  end.
Proof.
  pose proof (retention_terminates_and_cleans 1 {["e1"]} 100 (rows demo_ingested.2) [] demo_ingested_wf
    ltac:(vm_compute; reflexivity)) as H.
  destruct (deleteUnreferencedEvents 1 {["e1"]} 100 (Db (rows demo_ingested.2) [])) as [[e|[n|]] d'] eqn:Hr.
  - vm_compute in Hr. discriminate.
  - assert (Hlen : length (t_log (rows d')) = 2%nat) by (vm_compute in Hr; by injection Hr as _ <-).
    destruct H as [-> _]. rewrite Hlen. split; [vm_compute|]; reflexivity.
  - exact H.
Defined.
