(* ===== verification/CommittedEvents.v ===== *)
(** * Post-commit fan-out of ingested events

    Models [internal/service/committed_events.go] and the port
    [CommittedEventWorkStore] of [internal/application/eventing.go]: the list
    of consumers, the dispatcher that hands one committed event to the
    projections, the publisher and the webhook enqueuer, and the worker that
    claims committed events, dispatches them and completes the ones every
    consumer accepted.

    Consumers, publisher and enqueuer are programs over a world of their own;
    the theorems hold for every such program. The worker is proved against the
    class [CommittedEventWorkStore] and its laws, which the tables of
    [EventIngest] discharge. *)

From S2P Require Import Prelude Journal Domain OutboxStore EventIngest.

#[local] Open Scope Z_scope.

(** ** Consumers *)

(** An [application.CommittedEventConsumer]; [Handling] is one that also
    implements [handledCommittedEventConsumer]. *)
Inductive consumer (W : Type) :=
  | Consuming (ConsumeCommittedEvent : RawEvent -> M W unit)
  | Handling (HandleCommittedEvent : RawEvent -> M W bool).
Arguments Consuming {W} _.
Arguments Handling {W} _.

Section Consumers.
Context {W : Type}.

(** Nil consumers are dropped. *)
Definition NewCommittedEventConsumers (consumers : list (option (consumer W))) : list (consumer W) :=
  omap id consumers.

Definition Add (c : list (consumer W)) (added : option (consumer W)) : list (consumer W) :=
  match added with None => c | Some x => c ++ [x] end.

(** [CommittedEventConsumers.HandleCommittedEvent]. *)
Fixpoint HandleCommittedEvent (consumers : list (consumer W)) (event : RawEvent) : M W bool :=
  match consumers with
  | [] => mret false
  | Handling handle :: rest =>
      consumed ← handle event;
      if consumed : bool then mret true else HandleCommittedEvent rest event
  | Consuming consume :: rest =>
      consume event;;
      HandleCommittedEvent rest event
  end.

Record CommittedEventDispatcher := MkDispatcher {
  d_projections : list (consumer W);
  d_publisher : option (RawEvent -> M W unit);
  d_webhooks : option (RawEvent -> M W Z);
}.

Definition NewCommittedEventDispatcher (projections : list (option (consumer W)))
  (publisher : option (RawEvent -> M W unit)) (webhooks : option (RawEvent -> M W Z))
  : CommittedEventDispatcher :=
  MkDispatcher (omap id projections) publisher webhooks.

(** The loop over the projections: whether one consumed the event. *)
Fixpoint project (projections : list (consumer W)) (event : RawEvent) : M W bool :=
  match projections with
  | [] => mret false
  | Handling handle :: rest =>
      consumed ← map_err (ErrWrap "consume committed event") (handle event);
      if consumed : bool then mret true else project rest event
  | Consuming consume :: rest =>
      map_err (ErrWrap "project committed event") (consume event);;
      project rest event
  end.

Definition ConsumeCommittedEvent (d : option CommittedEventDispatcher) (event : RawEvent) : M W unit :=
  match d with
  | None => throw (ErrMsg "committed event dispatcher is nil")
  | Some d =>
      if bool_decide (re_ID event = "") then throw (ErrMsg "committed event id is required") else
      consumed ← project (d_projections d) event;
      if consumed : bool then mret tt else
      match d_publisher d with
      | Some publish => map_err (ErrWrap "publish committed event") (publish event)
      | None => mret tt
      end;;
      match d_webhooks d with
      | Some enqueue => map_err (ErrWrap "enqueue committed event webhooks") (enqueue event);; mret tt
      | None => mret tt
      end
  end.
End Consumers.
Arguments CommittedEventDispatcher W : clear implicits.

(** ** The worker *)

Record CommittedEventClaim := MkClaim {
  cc_Owner : string;
  cc_ClaimedAt : GoTime;
  cc_LeaseUntil : GoTime;
  cc_MaxItems : Z;
}.

Class CommittedEventWorkStore (W : Type) := {
  ws_Claim : CommittedEventClaim -> M W (list RawEvent);
  ws_Complete : string -> string -> M W unit;
}.

Record CommittedEventWorkerConfig := MkWorkerConfig {
  cw_Owner : string;
  cw_Lease : Z;
  cw_Batch : Z;
  cw_Poll : Z;
  cw_Now : option GoTime;
}.

(** The checks of [NewCommittedEventWorker] on the configuration. *)
Definition check_worker_config (c : CommittedEventWorkerConfig) : option goerr :=
  if bool_decide (cw_Owner c = "") then Some (ErrMsg "committed event worker owner is required")
  else if (cw_Lease c <=? 0) || (cw_Batch c <=? 0) || (cw_Poll c <=? 0) then
    Some (ErrMsg "committed event worker lease, batch, and poll must be positive")
  else match cw_Now c with
       | None => Some (ErrMsg "committed event worker clock is required")
       | Some _ => None
       end.

Section Worker.
Context {W : Type} `{CommittedEventWorkStore W}.
Context (consume : RawEvent -> M W unit).

(** The loop of [RunOnce]: the number completed and the joined failures. *)
Fixpoint work_loop (owner : string) (events : list RawEvent) (failedSessions : gset string)
  (completed : Z) (failures : option goerr) : M W (Z * option goerr) :=
  match events with
  | [] => mret (completed, failures)
  | event :: rest =>
      if bool_decide (re_Session event ∈ failedSessions) then
        work_loop owner rest failedSessions completed failures
      else if bool_decide (re_ID event = "") then
        mret (completed, Some (ErrMsg "claimed committed event id is required"))
      else
        consumed ← attempt (consume event);
        match consumed with
        | inl err =>
            work_loop owner rest ({[re_Session event]} ∪ failedSessions) completed
              (errors_join failures (Some (ErrWrap ("dispatch committed event " +:+ re_ID event) err)))
        | inr _ =>
            done ← attempt (ws_Complete owner (re_ID event));
            match done with
            | inl err =>
                work_loop owner rest ({[re_Session event]} ∪ failedSessions) completed
                  (errors_join failures (Some (ErrWrap ("complete committed event " +:+ re_ID event) err)))
            | inr _ => work_loop owner rest failedSessions (completed + 1) failures
            end
        end
  end.

(** [RunOnce] returns a count and an error; [now] is the clock's reading. *)
Definition RunOnce (config : CommittedEventWorkerConfig) (now : GoTime) (maxItems : Z)
  : M W (Z * option goerr) :=
  if maxItems <=? 0 then mret (0, Some (ErrMsg "committed event worker max items must be positive")) else
  claimed ← attempt (ws_Claim (MkClaim (cw_Owner config) now (now + cw_Lease config) maxItems));
  match claimed with
  | inl err => mret (0, Some (ErrWrap "claim committed events" err))
  | inr events => work_loop (cw_Owner config) events ∅ 0 None
  end.

(** [Run] over the readings of the clock at each poll before the context ends;
    the failures of an attempt are only logged. *)
Fixpoint Run (config : CommittedEventWorkerConfig) (polls : list GoTime) : M W unit :=
  match polls with
  | [] => throw (ErrMsg "context canceled")
  | now :: polls => RunOnce config now (cw_Batch config);; Run config polls
  end.
End Worker.

(** ** Worlds of several parts *)

Definition on_fst {A B X} (m : M A X) : M (A * B) X := fun w =>
  let '(r, a) := m w.1 in (r, (a, w.2)).
Definition on_snd {A B X} (m : M B X) : M (A * B) X := fun w =>
  let '(r, b) := m w.2 in (r, (w.1, b)).

(** The repository behind the port, as [cmd/api/main.go] wires it: [locked] are
    the rows other claims hold at each claim, [completedAt] the clock at each
    completion. *)
#[local] Instance event_store `{MySQL} {S} (locked : CommittedEventClaim -> gset string)
  (completedAt : string -> GoTime) : CommittedEventWorkStore (db edb * S) := {|
  ws_Claim c := on_fst (ClaimCommittedEvents (locked c)
                  (MkWork (cc_Owner c) (cc_ClaimedAt c) (cc_LeaseUntil c) (cc_MaxItems c)));
  ws_Complete owner id := on_fst (CompleteCommittedEvent owner id (completedAt id));
|}.

(** A consumer that records its calls and whether they were accepted. *)
Definition traced {W} (consume : RawEvent -> M W unit) (event : RawEvent)
  : M (W * list (RawEvent * bool)) unit := fun w =>
  let '(r, w') := consume event w.1 in
  (r, (w', w.2 ++ [(event, match r with inr _ => true | inl _ => false end)])).

#[local] Instance traced_store {W} `{CommittedEventWorkStore W} {T}
  : CommittedEventWorkStore (W * T) := {|
  ws_Claim c := on_fst (ws_Claim c);
  ws_Complete owner id := on_fst (ws_Complete owner id);
|}.

(** ** Completion follows delivery *)

Section Completion.
Context {W : Type} `{CommittedEventWorkStore W}.

(** [sound] is what must hold of completed events, [delivered] what a consumer
    that accepted an event guarantees. Operations keep both, whatever other
    replicas do meanwhile; completing a delivered event keeps [sound]. *)
Context (sound : W -> Prop) (delivered : string -> W -> Prop).
Definition progress (w w' : W) : Prop :=
  (sound w -> sound w') /\ forall id, delivered id w -> delivered id w'.

Class WorkStoreLaws : Prop := {
  law_claim c : respects progress (ws_Claim c);
  law_complete owner id w r w' :
    delivered id w -> ws_Complete owner id w = (r, w') -> progress w w';
}.
Class ConsumerLaws (consume : RawEvent -> M W unit) : Prop := {
  law_consume ev : respects progress (consume ev);
  law_delivers ev w w' : consume ev w = (inr tt, w') -> delivered (re_ID ev) w';
}.

#[export] Instance progress_preorder : PreOrder progress.
Proof. unfold progress. split; [by intros w; split|]. intros a b c [] []; split; eauto. Qed.

Context `{!WorkStoreLaws} (consume : RawEvent -> M W unit) `{!ConsumerLaws consume}.

Lemma work_loop_progress owner events F c f : respects progress (work_loop consume owner events F c f).
Proof.
  revert F c f. induction events as [|ev rest IH]; intros F c f; cbn [work_loop]; [apply respects_ret, _|].
  destruct (bool_decide (_ ∈ F)); [apply IH|]. destruct (bool_decide _); [apply respects_ret, _|].
  intros w r w' Hrun. unfold mbind, M_bind, attempt in Hrun.
  destruct (consume ev w) as [[err|[]] w1] eqn:Hc; pose proof (law_consume ev _ _ _ Hc) as H1.
  { transitivity w1; [done | exact (IH _ _ _ _ _ _ Hrun)]. }
  apply law_delivers in Hc. destruct (ws_Complete owner (re_ID ev) w1) as [r2 w2] eqn:Hd.
  pose proof (law_complete _ _ _ _ _ Hc Hd) as H2.
  transitivity w1; [done|]. transitivity w2; [done|]. destruct r2; exact (IH _ _ _ _ _ _ Hrun).
Qed.

Lemma RunOnce_progress config now n : respects progress (RunOnce consume config now n).
Proof.
  unfold RunOnce. destruct (n <=? 0); [apply respects_ret, _|].
  apply respects_bind; [apply _ | apply respects_attempt, law_claim | intros [e|evs]].
  - apply respects_ret, _.
  - apply work_loop_progress.
Qed.

Lemma Run_progress config polls : respects progress (Run consume config polls).
Proof.
  induction polls as [|now polls IH]; cbn [Run]; [apply respects_throw, _|].
  apply respects_bind; [apply _ | apply RunOnce_progress | intros; apply IH].
Qed.
End Completion.

(** ** What the dispatcher guarantees *)

Section Dispatch.
Context {S : Type} (d : CommittedEventDispatcher S).
Context (received : consumer S -> string -> S -> Prop) (claimed published enqueued : string -> S -> Prop).

(** What sinks hold is never lost. *)
Definition kept (s s' : S) : Prop := forall id,
  (claimed id s -> claimed id s') /\ (published id s -> published id s') /\
  (enqueued id s -> enqueued id s') /\ forall c, received c id s -> received c id s'.

(** An event is dispatched when a handler claimed it for itself, or every
    projection received it and it was published and enqueued. *)
Definition dispatched (id : string) (s : S) : Prop :=
  claimed id s \/
  ((forall c, c ∈ d_projections d -> received c id s) /\
   (is_Some (d_publisher d) -> published id s) /\ (is_Some (d_webhooks d) -> enqueued id s)).

Record SinkLaws : Prop := {
  sl_consume f ev s r s' : Consuming f ∈ d_projections d -> f ev s = (r, s') ->
    kept s s' /\ (r = inr tt -> received (Consuming f) (re_ID ev) s');
  sl_handle f ev s r s' : Handling f ∈ d_projections d -> f ev s = (r, s') ->
    kept s s' /\ (r = inr false -> received (Handling f) (re_ID ev) s') /\
    (r = inr true -> claimed (re_ID ev) s');
  sl_publish f ev s r s' : d_publisher d = Some f -> f ev s = (r, s') ->
    kept s s' /\ (r = inr tt -> published (re_ID ev) s');
  sl_enqueue f ev s r s' n : d_webhooks d = Some f -> f ev s = (r, s') ->
    kept s s' /\ (r = inr n -> enqueued (re_ID ev) s');
}.
Context (Hsinks : SinkLaws).

#[export] Instance kept_preorder : PreOrder kept.
Proof.
  unfold kept. split; [intros s id; tauto|]. intros a b c H1 H2 id.
  destruct (H1 id) as (?&?&?&?), (H2 id) as (?&?&?&?). repeat split; auto.
Qed.

Lemma project_spec ev ps : ps ⊆ d_projections d ->
  forall s r s', project ps ev s = (r, s') ->
    kept s s' /\
    (r = inr false -> forall c, c ∈ ps -> received c (re_ID ev) s') /\
    (r = inr true -> claimed (re_ID ev) s').
Proof.
  induction ps as [|c ps IH]; intros Hsub s r s'; cbn [project].
  { intros [= <- <-]. split; [reflexivity|]. split; [|done]. by intros _ c ?%not_elem_of_nil. }
  assert (Hc : c ∈ d_projections d) by (apply Hsub; by left).
  assert (Hps : ps ⊆ d_projections d) by (intros x Hx; apply Hsub; by right).
  destruct c as [f|f]; unfold mbind, M_bind, map_err; destruct (f ev s) as [[e|a] s1] eqn:Hf.
  - intros [= <- <-]. split; [by eapply sl_consume|]. by split.
  - intros Hrun. apply IH in Hrun as (Hk & Hr & Hcl); [|done]. destruct a.
    destruct (sl_consume Hsinks _ _ _ _ _ Hc Hf) as [Hk1 Hr1].
    split; [by transitivity s1|]. split; [|done]. intros ->. 
    intros c [->|Hin]%elem_of_cons; [|by apply Hr]. destruct (Hk (re_ID ev)) as (_ & _ & _ & Hk'). by apply Hk', Hr1.
  - intros [= <- <-]. split; [by eapply sl_handle|]. by split.
  - destruct (sl_handle Hsinks _ _ _ _ _ Hc Hf) as (Hk1 & Hr1 & Hcl1). destruct a.
    { intros [= <- <-]. split; [done|]. split; [done|]. by intros _; apply Hcl1. }
    intros Hrun. apply IH in Hrun as (Hk & Hr & Hcl); [|done].
    split; [by transitivity s1|]. split; [|done]. intros ->.
    intros c [->|Hin]%elem_of_cons; [|by apply Hr]. destruct (Hk (re_ID ev)) as (_ & _ & _ & Hk'). by apply Hk', Hr1.
Qed.

Lemma dispatch_spec ev s r s' :
  ConsumeCommittedEvent (Some d) ev s = (r, s') ->
  kept s s' /\ (r = inr tt -> dispatched (re_ID ev) s').
Proof.
  cbn [ConsumeCommittedEvent]. destruct (bool_decide _); [by intros [= <- <-]|].
  unfold mbind, M_bind. destruct (project (d_projections d) ev s) as [[e|b] s1] eqn:Hp;
    apply project_spec in Hp as (Hk1 & Hr1 & Hc1); [by intros [= <- <-]|done| |done].
  destruct b. { intros [= <- <-]. split; [done|]. intros _. left. by apply Hc1. }
  specialize (Hr1 eq_refl). clear Hc1.
  assert (Hpub : forall r2 s2, (match d_publisher d with
      | Some publish => map_err (ErrWrap "publish committed event") (publish ev)
      | None => mret tt end) s1 = (r2, s2) ->
      kept s1 s2 /\ (r2 = inr tt -> is_Some (d_publisher d) -> published (re_ID ev) s2)).
  { intros r2 s2. destruct (d_publisher d) as [f|] eqn:Hd.
    - unfold map_err. destruct (f ev s1) as [[e|[]] s3] eqn:Hf; intros [= <- <-];
        destruct (sl_publish Hsinks _ _ _ _ _ Hd Hf); (split; [done|]; done || auto).
    - intros [= <- <-]. split; [reflexivity|]. by intros _ [? ?]. }
  destruct ((match d_publisher d with
      | Some publish => map_err (ErrWrap "publish committed event") (publish ev)
      | None => mret tt end) s1) as [[e|[]] s2] eqn:Hp2;
    destruct (Hpub _ _ eq_refl) as [Hk2 Hr2].
  { intros [= <- <-]. split; [by transitivity s1 | done]. }
  specialize (Hr2 eq_refl). clear Hpub Hp2. destruct (d_webhooks d) as [f|] eqn:Hd.
  - unfold map_err. destruct (f ev s2) as [[e|n] s3] eqn:Hf; intros [= <- <-].
    { destruct (sl_enqueue Hsinks _ _ _ _ _ 0 Hd Hf) as [Hk3 _]. split; [|done].
      transitivity s1; [done|]. by transitivity s2. }
    destruct (sl_enqueue Hsinks _ _ _ _ _ n Hd Hf) as [Hk3 Hr3].
    split; [transitivity s1; [done|]; by transitivity s2|]. intros _. right.
    destruct (Hk3 (re_ID ev)) as (_ & Hp3 & _ & Hc3). destruct (Hk2 (re_ID ev)) as (_ & _ & _ & Hc2).
    split; [intros c Hc; by apply Hc3, Hc2, Hr1|]. split; [auto|]. intros _. by apply Hr3.
  - intros [= <- <-]. split; [by transitivity s1|]. intros _. right.
    destruct (Hk2 (re_ID ev)) as (_ & _ & _ & Hc2).
    split; [intros c Hc; by apply Hc2, Hr1|]. split; [auto|]. rewrite Hd. by intros [? ?].
Qed.
End Dispatch.

(** ** The worker over the tables *)

Section Tables.
Context `{DB : MySQL} {S : Type} (d : CommittedEventDispatcher S).
Context (received : consumer S -> string -> S -> Prop) (claimed published enqueued : string -> S -> Prop).
Context (Hsinks : SinkLaws d received claimed published enqueued).
Context (locked : CommittedEventClaim -> gset string) (completedAt : string -> GoTime).
#[local] Existing Instance event_store.

Definition is_dispatched (id : string) (w : db edb * S) : Prop :=
  dispatched d received claimed published enqueued id w.2.

(** Every completed event of the public log was dispatched. *)
Definition completions_sound (w : db edb * S) : Prop := forall id r,
  t_ingested (rows w.1) !! id = Some r -> ig_CompletedAt r <> None -> log_has id (rows w.1) = true ->
  is_dispatched id w.

(** No logged event becomes completed. *)
Definition no_completion (t t' : edb) : Prop := forall id r',
  t_ingested t' !! id = Some r' -> ig_CompletedAt r' <> None -> log_has id t' = true ->
  exists r, t_ingested t !! id = Some r /\ ig_CompletedAt r <> None /\ log_has id t = true.

#[local] Instance no_completion_preorder : PreOrder no_completion.
Proof.
  split; [intros t id r' H1 H2 H3; by exists r'|]. intros a b c H1 H2 id r' Hr Hc Hl.
  destruct (H2 _ _ Hr Hc Hl) as (r & Hr' & Hc' & Hl'). by apply (H1 id r).
Qed.

Lemma claim_no_completion lk work :
  respects (on_rows no_completion) (ClaimCommittedEvents lk work).
Proof.
  apply ClaimCommittedEvents_respects; [apply _|]. intros id guard owner until t.
  unfold update_ingested. destruct (t_ingested t !! id) as [r|] eqn:Hr; [|reflexivity].
  destruct (guard r); [|reflexivity]. intros id' r' Hr' Hc Hl. cbn in *.
  apply lookup_insert_Some in Hr' as [[<- <-]|[_ Hr']]; [by exists r | by exists r'].
Qed.

Lemma Complete_effect owner id at_ dd r dd' :
  CompleteCommittedEvent owner id at_ dd = (r, dd') ->
  t_log (rows dd') = t_log (rows dd) /\
  forall id' r', t_ingested (rows dd') !! id' = Some r' -> id' = id \/ t_ingested (rows dd) !! id' = Some r'.
Proof.
  pose (R := fun t t' : edb => t_log t' = t_log t /\
    forall id' r', t_ingested t' !! id' = Some r' -> id' = id \/ t_ingested t !! id' = Some r').
  assert (PR : PreOrder R).
  { split; [by split; auto|]. intros a b c [L1 H1] [L2 H2]. split; [congruence|].
    intros id' r' [->|Hr]%H2; auto. }
  enough (HR : respects (on_rows R) (CompleteCommittedEvent owner id at_)) by exact (HR dd r dd').
  unfold CompleteCommittedEvent. destruct (_ || _); [apply respects_throw, _|].
  apply respects_bind; [apply _ | |].
  - apply respects_map_err, respects_exec; [apply _|]. intros t. unfold R, update_ingested.
    destruct (t_ingested t !! id) as [r0|]; [|by auto]. destruct (_ && _); [|by auto]. cbn.
    split; [done|]. by intros id' r' [[<- _]|[_ Hr]]%lookup_insert_Some; auto.
  - intros n. destruct (n =? 1); [apply respects_ret, _|].
    apply respects_bind; [apply _ | apply respects_map_err, respects_query, _ |].
    intros [r0|]; [|apply respects_throw, _].
    destruct (ig_ClaimedBy r0), (ig_CompletedAt r0); try destruct (_ && _); auto with golib typeclass_instances.
Qed.

Lemma log_has_same id t t' : t_log t' = t_log t -> log_has id t' = log_has id t.
Proof. unfold log_has. by intros ->. Qed.

Lemma event_store_laws :
  @WorkStoreLaws _ (event_store locked completedAt) completions_sound is_dispatched.
Proof.
  split.
  - intros c [dd s] r w' Hrun. cbn in Hrun. unfold on_fst in Hrun. cbn in Hrun.
    destruct (ClaimCommittedEvents _ _ dd) as [r0 dd'] eqn:Hc. injection Hrun as <- <-.
    apply claim_no_completion in Hc. split; [|done]. intros Hs id r' Hr Hcp Hl. cbn in *.
    destruct (Hc _ _ Hr Hcp Hl) as (r1 & H1 & H2 & H3). by apply (Hs id r1).
  - intros owner id [dd s] r w' Hdel Hrun. cbn in Hrun. unfold on_fst in Hrun. cbn in Hrun.
    destruct (CompleteCommittedEvent owner id (completedAt id) dd) as [r0 dd'] eqn:Hc. injection Hrun as <- <-.
    apply Complete_effect in Hc as [Hlog Hrows]. split; [|done]. intros Hs id' r' Hr Hcp Hl. cbn in *.
    destruct (Hrows _ _ Hr) as [->|Hr0]; [exact Hdel|]. apply (Hs id' r'); [done..|].
    cbn. by rewrite <- (log_has_same id' _ _ Hlog).
Qed.

Lemma dispatcher_laws :
  ConsumerLaws completions_sound is_dispatched (fun ev => on_snd (ConsumeCommittedEvent (Some d) ev)).
Proof.
  assert (Hmono : forall s s' id, kept received claimed published enqueued s s' ->
            dispatched d received claimed published enqueued id s ->
            dispatched d received claimed published enqueued id s').
  { intros s s' id Hk. destruct (Hk id) as (Hc & Hp & He & Hr). unfold dispatched.
    intros [?|(H1 & H2 & H3)]; [by left; auto|]. right. auto. }
  split.
  - intros ev [dd s] r w' Hrun. unfold on_snd in Hrun. cbn [fst snd] in Hrun.
    destruct (ConsumeCommittedEvent (Some d) ev s) as [r0 s'] eqn:Hc. injection Hrun as <- <-.
    apply (dispatch_spec d received claimed published enqueued Hsinks) in Hc as [Hk _].
    split; [|intros id; by apply Hmono]. intros Hs id r' Hr Hcp Hl. apply (Hmono s); [done|]. by apply (Hs id r').
  - intros ev [dd s] w' Hrun. unfold on_snd in Hrun. cbn [fst snd] in Hrun.
    destruct (ConsumeCommittedEvent (Some d) ev s) as [r0 s'] eqn:Hc. injection Hrun as -> <-.
    apply (dispatch_spec d received claimed published enqueued Hsinks) in Hc as [_ Hd]. by apply Hd.
Qed.

(** C21: An event is completed only after it was dispatched: running the worker for
    any number of polls, with every failure the tables and the sinks may have,
    leaves no completed event of the public log that was neither claimed
    exclusively by a handler nor received by every projection, published and
    enqueued for webhooks. *)
Theorem completed_means_dispatched config polls w r w' :
  completions_sound w ->
  Run (H := event_store locked completedAt)
    (fun ev => on_snd (ConsumeCommittedEvent (Some d) ev)) config polls w = (r, w') ->
  completions_sound w'.
Proof.
  intros Hs Hrun.
  pose proof event_store_laws as HL. pose proof dispatcher_laws as HC.
  exact (proj1 (Run_progress completions_sound is_dispatched _ config polls _ _ _ Hrun) Hs).
Qed.
End Tables.

(** ** Order of the dispatches *)

Section Order.
Context {W : Type} `{CommittedEventWorkStore W} (consume : RawEvent -> M W unit).
#[local] Existing Instance traced_store.

(** The calls of a session. *)
Definition calls_of (session : string) (tr : list (RawEvent * bool)) : list (RawEvent * bool) :=
  filter (fun c => re_Session c.1 = session) tr.
Definition events_of (session : string) (events : list RawEvent) : list RawEvent :=
  filter (fun e => re_Session e = session) events.

(** The calls of a session are the first of its claimed events, in order, and
    nothing follows a call that failed. *)
Definition in_order (events : list RawEvent) (tr : list (RawEvent * bool)) (session : string) : Prop :=
  (calls_of session tr).*1 `prefix_of` events_of session events /\
  forall k ev, calls_of session tr !! k = Some (ev, false) -> Datatypes.S k = length (calls_of session tr).

Lemma in_order_nil events tr session : calls_of session tr = [] -> in_order events tr session.
Proof. intros Hn. unfold in_order. rewrite Hn. split; [apply prefix_nil | done]. Qed.

Lemma in_order_last events tr ev ok session :
  (re_Session ev = session -> calls_of session tr = []) ->
  (re_Session ev <> session -> in_order events tr session) ->
  in_order (ev :: events) ((ev, ok) :: tr) session.
Proof.
  unfold in_order, calls_of, events_of. rewrite !filter_cons. cbn [fst].
  destruct (decide (re_Session ev = session)) as [Heq|Hne]; intros H1 H2.
  - rewrite (H1 Heq). split; [by apply prefix_cons, prefix_nil|]. by intros [|k].
  - by apply H2.
Qed.

Lemma in_order_more events tr ev session :
  in_order events tr session -> in_order (ev :: events) ((ev, true) :: tr) session.
Proof.
  unfold in_order, calls_of, events_of. rewrite !filter_cons. cbn [fst].
  destruct (decide (re_Session ev = session)) as [Heq|Hne]; intros [Hp Hk]; [|done].
  split; [by apply prefix_cons|]. intros [|k] ev' Hl; [discriminate|]. cbn in *. by rewrite (Hk _ _ Hl).
Qed.

Lemma in_order_skip events tr ev session :
  (re_Session ev = session -> calls_of session tr = []) ->
  in_order events tr session -> in_order (ev :: events) tr session.
Proof.
  intros H1 H2. destruct (decide (re_Session ev = session)) as [Heq|Hne]; [by apply in_order_nil, H1|].
  unfold in_order, events_of. by rewrite filter_cons_False.
Qed.

Lemma work_loop_order owner events F c f w tr0 res w' tr' :
  work_loop (H := traced_store) (traced consume) owner events F c f (w, tr0) = (res, (w', tr')) ->
  exists tr, tr' = tr0 ++ tr /\ tr.*1 `sublist_of` events /\ forall session,
    in_order events tr session /\ (session ∈ F -> calls_of session tr = []).
Proof.
  revert F c f w tr0. induction events as [|ev rest IH]; intros F c f w tr0; cbn [work_loop].
  { intros [= _ <- <-]. exists []. rewrite app_nil_r. repeat split; [|apply prefix_nil|done]. constructor. }
  destruct (bool_decide (_ ∈ F)) eqn:HF; to_prop.
  { intros (tr & -> & Hsub & Hall)%IH. exists tr. split; [done|]. split; [by constructor|]. intros session.
    destruct (Hall session) as [Ho Hn]. split; [|done]. apply in_order_skip; [|done]. intros <-. auto. }
  destruct (bool_decide _).
  { intros [= _ <- <-]. exists []. rewrite app_nil_r. split; [done|]. split; [apply sublist_nil_l|].
    intros session. split; [by apply in_order_nil | done]. }
  unfold mbind, M_bind, attempt, traced at 1. cbn [fst snd].
  (* the events after a failure: its session is not called again *)
  assert (Hstop : forall ok c2 f2 w2, work_loop (H := traced_store) (traced consume) owner rest
      ({[re_Session ev]} ∪ F) c2 f2 (w2, tr0 ++ [(ev, ok)]) = (res, (w', tr')) ->
    exists tr, tr' = tr0 ++ tr /\ tr.*1 `sublist_of` (ev :: rest) /\ forall session,
      in_order (ev :: rest) tr session /\ (session ∈ F -> calls_of session tr = [])).
  { intros ok c2 f2 w2 (tr & -> & Hsub & Hall)%IH. exists ((ev, ok) :: tr). rewrite <- app_assoc.
    split; [done|]. split; [by constructor|]. intros session. destruct (Hall session) as [Ho Hn]. split.
    - apply in_order_last; [|done]. intros <-. apply Hn. set_solver.
    - intros Hs. unfold calls_of. rewrite filter_cons_False by (cbn; congruence). apply Hn. set_solver. }
  destruct (consume ev w) as [[err|[]] w1]; [apply Hstop|].
  cbn [ws_Complete traced_store]. unfold on_fst. cbn [fst snd].
  destruct (ws_Complete owner (re_ID ev) w1) as [[err|[]] w2]; [apply Hstop|].
  intros (tr & -> & Hsub & Hall)%IH. exists ((ev, true) :: tr). rewrite <- app_assoc.
  split; [done|]. split; [by constructor|]. intros session. destruct (Hall session) as [Ho Hn].
  split; [by apply in_order_more|]. intros Hs. unfold calls_of. rewrite filter_cons_False by (cbn; congruence).
  by apply Hn.
Qed.

(** One attempt of the worker calls the consumer for claimed events only, in
    the order of the claim, and within a session stops at the first failure:
    the calls of a session are a prefix of its claimed events, and only the
    last may have failed. *)
Theorem dispatch_in_session_order config now n w res w' tr :
  RunOnce (H := traced_store) (traced consume) config now n (w, []) = (res, (w', tr)) ->
  tr = [] \/
  exists events w1,
    ws_Claim (MkClaim (cw_Owner config) now (now + cw_Lease config) n) w = (inr events, w1) /\
    tr.*1 `sublist_of` events /\ forall session, in_order events tr session.
Proof.
  unfold RunOnce. destruct (n <=? 0); [intros [= _ _ <-]; by left|].
  unfold mbind, M_bind, attempt. cbn [ws_Claim traced_store]. unfold on_fst. cbn [fst snd].
  destruct (ws_Claim _ w) as [[err|events] w1] eqn:Hc; [intros [= _ _ <-]; by left|].
  intros (tr2 & -> & Hsub & Hall)%work_loop_order. right. exists events, w1.
  split; [done|]. split; [done|]. intros session. apply Hall.
Qed.
End Order.

(** ** A worker over concrete tables *)

#[local] Existing Instance EventIngest.demo_mysql.

(** Sinks that remember the events they accept. *)
Definition remember (event : RawEvent) : M (list string) unit := fun s => (inr tt, re_ID event :: s).
Definition demo_dispatcher : CommittedEventDispatcher (list string) :=
  MkDispatcher [Consuming remember] (Some remember) None.
Definition demo_config : CommittedEventWorkerConfig :=
  MkWorkerConfig "a" (FromUnixMilli 100) 10 1 (Some 0).

Lemma demo_sinks :
  SinkLaws demo_dispatcher (fun _ id s => id ∈ s) (fun _ _ => False) (fun id s => id ∈ s) (fun _ _ => False).
Proof.
  assert (Hk : forall x s, kept (fun _ id s => id ∈ s) (fun _ _ => False) (fun id s => id ∈ s) (fun _ _ => False)
            s (x :: s)).
  { intros x s id. repeat split; auto; intros; by right. }
  split; cbn.
  - intros f ev s r s' [= ->]%list_elem_of_singleton [= <- <-]. split; [apply Hk|]. by left.
  - by intros f ev s r s' [=]%list_elem_of_singleton.
  - intros f ev s r s' [= <-] [= <- <-]. split; [apply Hk|]. by left.
  - done.
Qed.

Definition demo_run : (goerr + unit) * (db edb * list string) :=
  Run (H := event_store (fun _ => ∅) (fun _ => FromUnixMilli 30))
    (fun ev => on_snd (ConsumeCommittedEvent (Some demo_dispatcher) ev)) demo_config [FromUnixMilli 20]
    (Db (rows demo_ingested.2) [], []).

Lemma demo_tables_sound :
  completions_sound demo_dispatcher (fun _ id s => id ∈ s) (fun _ _ => False) (fun id s => id ∈ s) (fun _ _ => False)
    (Db (rows demo_ingested.2) [], []).
Proof.
  assert (Ht : t_ingested (rows demo_ingested.2) = {[ "e1" := demo_row "e1"; "e2" := demo_row "e2" ]})
    by (vm_compute; reflexivity).
  intros id r Hr Hc. cbn in Hr. rewrite Ht in Hr.
  apply lookup_insert_Some in Hr as [[_ <-]|[_ [_ <-]%lookup_singleton_Some]]; by destruct Hc.
Qed.

Lemma completed_means_dispatched_witness :
  (exists r, t_ingested (rows demo_run.2.1) !! "e2" = Some r /\ ig_CompletedAt r = Some 30) /\
  "e2" ∈ demo_run.2.2.
Proof.
  split; [eexists; vm_compute; split; reflexivity|].
  destruct (completed_means_dispatched demo_dispatcher (fun _ id s => id ∈ s) (fun _ _ => False)
    (fun id s => id ∈ s) (fun _ _ => False) demo_sinks (fun _ => ∅) (fun _ => FromUnixMilli 30)
    demo_config [FromUnixMilli 20] (Db (rows demo_ingested.2) [], []) demo_run.1 demo_run.2
    demo_tables_sound ltac:(apply surjective_pairing) "e2" (set_completed 30 (set_leased "a" 120 (demo_row "e2")))
    ltac:(vm_compute; reflexivity) ltac:(discriminate) ltac:(vm_compute; reflexivity))
    as [[]|(_ & Hp & _)].
  apply Hp. by exists remember.
Defined.

(** A consumer that refuses the first event of the session. *)
Definition refuse_first (event : RawEvent) : M (db edb * unit) unit :=
  if bool_decide (re_ID event = "e1") then throw (ErrMsg "projection failed") else mret tt.
#[local] Instance demo_store : CommittedEventWorkStore (db edb * unit) :=
  event_store (fun _ => ∅) (fun _ => FromUnixMilli 30).
Definition demo_once := RunOnce (H := traced_store) (traced refuse_first) demo_config (FromUnixMilli 20) 10
  ((Db (rows demo_ingested.2) [], tt), []).

Lemma dispatch_in_session_order_witness :
  (re_ID <$> demo_once.2.2.*1) = ["e1"] /\ exists events, in_order events demo_once.2.2 "s".
Proof.
  split; [vm_compute; reflexivity|].
  destruct demo_once as [res [w' tr]] eqn:Hrun.
  destruct (dispatch_in_session_order refuse_first demo_config (FromUnixMilli 20) 10
    (Db (rows demo_ingested.2) [], tt) res w' tr Hrun) as [->|(events & w1 & _ & _ & Hall)].
  - exists []. by apply in_order_nil.
  - exists events. apply Hall.
Defined.
