(* ===== verification/GatewayTables.v ===== *)
(** * The gateway registry tables

    The rows of [gateways], [wa_sessions] (the columns the control plane reads),
    [gateway_session_assignments], [gateway_reconciliation_results],
    [gateway_enrollment_tokens], [gateway_certificates] and [audit_events], as
    [migrations] create them, next to the event tables of EventIngest; what a guarded update of a gateway does, and
    handles that other processes write through as well. The columns of a gateway
    are grouped by what writes them. The driver counts matched rows
    ([clientFoundRows]); a row that violates [chk_gateway_revisions] and an
    increment past [BIGINT UNSIGNED] are statement errors. *)

From S2P Require Import Prelude Journal Domain EventIngest.

#[local] Open Scope Z_scope.

Record GatewayMeta := MkGatewayMeta {
  gm_Label : option string;
  gm_Notes : option string;
  gm_CreatedByUserID : option string;
  gm_Capacity : option Z;
  gm_CreatedAt : Z;
}.

Record GatewayReach := MkGatewayReach {
  gr_ConnectionMode : string;
  gr_BaseURL : option string;
  gr_GRPCEndpoint : option string;
  gr_SoftwareVersion : option string;
  gr_Capabilities : option bytes;
  gr_SessionCount : Z;
  gr_ConnectedAt : option Z;
  gr_LastSeenAt : option Z;
}.

Record GatewayIntent := MkGatewayIntent {
  gi_DesiredLifecycle : string;
  gi_DesiredRevision : Z;
  gi_AppliedRevision : Z;
}.

Record GatewayKeystore := MkGatewayKeystore {
  gk_ReconciliationStatus : string;
  gk_KeystorePresent : option bool;
  gk_KeystoreBytes : option Z;
  gk_KeystoreIntegrity : option string;
  gk_KeystoreCheckedAt : option Z;
}.

Record GatewayJournal := MkGatewayJournal {
  gj_State : option string;
  gj_Entries : option Z;
  gj_Bytes : option Z;
}.

(** A row of [gateways]; its key is the gateway id. *)
Record GatewayRecord := MkGatewayRecord {
  gw_Status : string;
  gw_ConnectionEpoch : Z;
  gw_EnrolledAt : option Z;
  gw_DeletedAt : option Z;
  gw_UpdatedAt : Z;
  gw_meta : GatewayMeta;
  gw_reach : GatewayReach;
  gw_intent : GatewayIntent;
  gw_keystore : GatewayKeystore;
  gw_journal : GatewayJournal;
}.

Record SessionRecord := MkSessionRecord {
  ss_OrganizationID : string;
  ss_GatewayID : string;
  ss_Status : SessionStatus;
  ss_WAJID : option string;
  ss_AutoRead : bool;
  ss_PresenceTyping : bool;
  ss_RatePerMin : Z;
  ss_RatePerHour : Z;
  ss_HistorySyncDays : Z;
  ss_UpdatedAt : Z;
}.

Record AssignmentRecord := MkAssignmentRecord {
  ga_GatewayID : string;
  ga_AssignmentEpoch : Z;
  ga_CreatedAt : Z;
  ga_UpdatedAt : Z;
}.

(** A row of [gateway_reconciliation_results], without its surrogate key. *)
Record ReconciliationRecord := MkReconciliationRecord {
  gl_GatewayID : string;
  gl_DeviceJID : option string;
  gl_SessionID : option string;
  gl_AssignmentEpoch : Z;
  gl_Status : string;
  gl_DesiredRevision : Z;
  gl_UpdatedAt : Z;
}.

(** [domain.EnrollmentToken]; an absent nonce or CSR hash is the empty slice. *)
Record EnrollmentToken := MkEnrollmentToken {
  et_GatewayID : string;
  et_TokenHash : bytes;
  et_TokenPrefix : string;
  et_Status : string;
  et_AttemptCount : Z;
  et_MaxAttempts : Z;
  et_ExpiresAt : Z;
  et_CreatedByUserID : string;
  et_RedemptionNonce : bytes;
  et_CSRSHA256 : bytes;
  et_RedeemingAt : option Z;
  et_LeaseExpiresAt : option Z;
  et_ConsumedAt : option Z;
  et_RevokedAt : option Z;
  et_CreatedAt : Z;
  et_UpdatedAt : Z;
}.

(** [domain.GatewayCertificate]. *)
Record GatewayCertificate := MkGatewayCertificate {
  gt_GatewayID : string;
  gt_AuthorityID : string;
  gt_IssuanceKind : string;
  gt_EnrollmentTokenID : option string;
  gt_CSRSHA256 : bytes;
  gt_SerialNumber : string;
  gt_CertificatePEM : string;
  gt_TrustBundlePEM : string;
  gt_Fingerprint : bytes;
  gt_NotBefore : Z;
  gt_NotAfter : Z;
  gt_RevokedAt : option Z;
  gt_RevocationReason : option string;
  gt_CreatedAt : Z;
}.

Record AuditEvent := MkAuditEvent {
  au_ID : string;
  au_OrganizationID : option string;
  au_ActorType : string;
  au_ActorID : option string;
  au_Action : string;
  au_ResourceType : string;
  au_ResourceID : option string;
  au_Outcome : string;
  au_RequestID : option string;
  au_SourceIP : bytes;
  au_Metadata : list (string * json);
  au_CreatedAt : Z;
}.

(** The tables only the event ingestion writes, by the fields of [edb]. *)
Record EventTables := MkEventTables {
  ev_ingested : gmap string IngestRow;
  ev_log : list EventLogEntry;
  ev_autoinc : Z;
  ev_claims : gmap outgoingEventIdentity (string * string);
}.

Record gdb := MkGdb {
  g_gateways : gmap string GatewayRecord;
  g_sessions : gmap string SessionRecord;
  g_assignments : gmap string AssignmentRecord;
  g_results : list ReconciliationRecord;
  g_tokens : gmap string EnrollmentToken;
  g_certificates : gmap string GatewayCertificate;
  g_audit : list AuditEvent;
  g_events : EventTables;
}.

#[export] Instance SessionStatus_eq_dec : EqDecision SessionStatus.
Proof. solve_decision. Defined.
#[export] Instance ReconciliationRecord_eq_dec : EqDecision ReconciliationRecord.
Proof. solve_decision. Defined.

Definition with_gateways (m : gmap string GatewayRecord) (t : gdb) : gdb :=
  MkGdb m (g_sessions t) (g_assignments t) (g_results t) (g_tokens t) (g_certificates t) (g_audit t) (g_events t).
Definition with_sessions (m : gmap string SessionRecord) (t : gdb) : gdb :=
  MkGdb (g_gateways t) m (g_assignments t) (g_results t) (g_tokens t) (g_certificates t) (g_audit t) (g_events t).
Definition with_assignments (m : gmap string AssignmentRecord) (t : gdb) : gdb :=
  MkGdb (g_gateways t) (g_sessions t) m (g_results t) (g_tokens t) (g_certificates t) (g_audit t) (g_events t).
Definition with_results (m : list ReconciliationRecord) (t : gdb) : gdb :=
  MkGdb (g_gateways t) (g_sessions t) (g_assignments t) m (g_tokens t) (g_certificates t) (g_audit t) (g_events t).
Definition with_tokens (m : gmap string EnrollmentToken) (t : gdb) : gdb :=
  MkGdb (g_gateways t) (g_sessions t) (g_assignments t) (g_results t) m (g_certificates t) (g_audit t) (g_events t).
Definition with_certificates (m : gmap string GatewayCertificate) (t : gdb) : gdb :=
  MkGdb (g_gateways t) (g_sessions t) (g_assignments t) (g_results t) (g_tokens t) m (g_audit t) (g_events t).
Definition with_audit (m : list AuditEvent) (t : gdb) : gdb :=
  MkGdb (g_gateways t) (g_sessions t) (g_assignments t) (g_results t) (g_tokens t) (g_certificates t) m (g_events t).
Definition with_events (m : EventTables) (t : gdb) : gdb :=
  MkGdb (g_gateways t) (g_sessions t) (g_assignments t) (g_results t) (g_tokens t) (g_certificates t) (g_audit t) m.

(** What the event ingestion sees of these tables, and a statement of it run on
    them. *)
Definition event_view (t : gdb) : edb :=
  MkEdb ((fun a => (ga_GatewayID a, ga_AssignmentEpoch a)) <$> g_assignments t)
    (ss_OrganizationID <$> g_sessions t)
    ((fun r => MkGatewayRow (gw_ConnectionEpoch r) (gw_DeletedAt r)) <$> g_gateways t)
    (ev_ingested (g_events t)) (ev_log (g_events t)) (ev_autoinc (g_events t)) (ev_claims (g_events t)).
Definition on_events {A} (m : M (db edb) A) : M (db gdb) A := fun d =>
  let '(r, d') := m (Db (event_view (rows d)) (faults d)) in
  let e := rows d' in
  (r, Db (with_events (MkEventTables (t_ingested e) (t_log e) (t_autoinc e) (t_claims e)) (rows d)) (faults d')).

(** ** Columns of one gateway *)

Definition set_status (status : string) (r : GatewayRecord) : GatewayRecord :=
  MkGatewayRecord status (gw_ConnectionEpoch r) (gw_EnrolledAt r) (gw_DeletedAt r) (gw_UpdatedAt r)
    (gw_meta r) (gw_reach r) (gw_intent r) (gw_keystore r) (gw_journal r).
Definition set_epoch (epoch : Z) (r : GatewayRecord) : GatewayRecord :=
  MkGatewayRecord (gw_Status r) epoch (gw_EnrolledAt r) (gw_DeletedAt r) (gw_UpdatedAt r)
    (gw_meta r) (gw_reach r) (gw_intent r) (gw_keystore r) (gw_journal r).
Definition set_enrolled (at_ : Z) (r : GatewayRecord) : GatewayRecord :=
  MkGatewayRecord (gw_Status r) (gw_ConnectionEpoch r) (Some at_) (gw_DeletedAt r) (gw_UpdatedAt r)
    (gw_meta r) (gw_reach r) (gw_intent r) (gw_keystore r) (gw_journal r).
Definition set_deleted (at_ : Z) (r : GatewayRecord) : GatewayRecord :=
  MkGatewayRecord (gw_Status r) (gw_ConnectionEpoch r) (gw_EnrolledAt r) (Some at_) (gw_UpdatedAt r)
    (gw_meta r) (gw_reach r) (gw_intent r) (gw_keystore r) (gw_journal r).
Definition set_updated (at_ : Z) (r : GatewayRecord) : GatewayRecord :=
  MkGatewayRecord (gw_Status r) (gw_ConnectionEpoch r) (gw_EnrolledAt r) (gw_DeletedAt r) at_
    (gw_meta r) (gw_reach r) (gw_intent r) (gw_keystore r) (gw_journal r).
Definition set_meta (m : GatewayMeta) (r : GatewayRecord) : GatewayRecord :=
  MkGatewayRecord (gw_Status r) (gw_ConnectionEpoch r) (gw_EnrolledAt r) (gw_DeletedAt r) (gw_UpdatedAt r)
    m (gw_reach r) (gw_intent r) (gw_keystore r) (gw_journal r).
Definition set_reach (m : GatewayReach) (r : GatewayRecord) : GatewayRecord :=
  MkGatewayRecord (gw_Status r) (gw_ConnectionEpoch r) (gw_EnrolledAt r) (gw_DeletedAt r) (gw_UpdatedAt r)
    (gw_meta r) m (gw_intent r) (gw_keystore r) (gw_journal r).
Definition set_intent (m : GatewayIntent) (r : GatewayRecord) : GatewayRecord :=
  MkGatewayRecord (gw_Status r) (gw_ConnectionEpoch r) (gw_EnrolledAt r) (gw_DeletedAt r) (gw_UpdatedAt r)
    (gw_meta r) (gw_reach r) m (gw_keystore r) (gw_journal r).
Definition set_keystore (m : GatewayKeystore) (r : GatewayRecord) : GatewayRecord :=
  MkGatewayRecord (gw_Status r) (gw_ConnectionEpoch r) (gw_EnrolledAt r) (gw_DeletedAt r) (gw_UpdatedAt r)
    (gw_meta r) (gw_reach r) (gw_intent r) m (gw_journal r).
Definition set_journal (m : GatewayJournal) (r : GatewayRecord) : GatewayRecord :=
  MkGatewayRecord (gw_Status r) (gw_ConnectionEpoch r) (gw_EnrolledAt r) (gw_DeletedAt r) (gw_UpdatedAt r)
    (gw_meta r) (gw_reach r) (gw_intent r) (gw_keystore r) m.

(** ** Guards of the statements *)

Definition live (r : GatewayRecord) : bool := is_none (gw_DeletedAt r).
(** [deleted_at IS NULL AND status NOT IN ('pending_enrollment','disabled')]. *)
Definition usable (r : GatewayRecord) : bool :=
  live r && negb (bool_decide (gw_Status r = GatewayPendingEnrollment)) &&
  negb (bool_decide (gw_Status r = GatewayDisabled)).
Definition connectable (r : GatewayRecord) : bool := usable r && negb (is_none (gw_EnrolledAt r)).
Definition at_epoch (epoch : Z) (r : GatewayRecord) : bool := gw_ConnectionEpoch r =? epoch.

(** [chk_gateway_revisions]. *)
Definition revisions_ok (r : GatewayRecord) : bool :=
  gi_AppliedRevision (gw_intent r) <=? gi_DesiredRevision (gw_intent r).

Definition ErrCheckViolated : goerr := ErrMsg "Error 3819: Check constraint 'chk_gateway_revisions' is violated".
Definition ErrOutOfRange : goerr := ErrMsg "Error 1690: BIGINT UNSIGNED value is out of range".

(** [UPDATE gateways SET f WHERE id = ? AND guard]: the rows matched. *)
Definition update_gateway (id : string) (guard : GatewayRecord -> bool)
  (f : GatewayRecord -> goerr + GatewayRecord) (t : gdb) : (goerr + Z) * gdb :=
  match g_gateways t !! id with
  | None => (inr 0, t)
  | Some r =>
      if guard r then
        match f r with
        | inl err => (inl err, t)
        | inr r' => if revisions_ok r' then (inr 1, with_gateways (<[id := r']> (g_gateways t)) t)
                    else (inl ErrCheckViolated, t)
        end
      else (inr 0, t)
  end.

(** [column + 1]. *)
Definition increment (n : Z) : goerr + Z := if n + 1 <? 2 ^ 64 then inr (n + 1) else inl ErrOutOfRange.

(** [desired_revision = desired_revision + 1, updated_at = ?]. *)
Definition advance_revision (at_ : Z) (r : GatewayRecord) : goerr + GatewayRecord :=
  match increment (gi_DesiredRevision (gw_intent r)) with
  | inl err => inl err
  | inr n => inr (set_updated at_ (set_intent (MkGatewayIntent (gi_DesiredLifecycle (gw_intent r)) n
                                     (gi_AppliedRevision (gw_intent r))) r))
  end.

Definition set_liveness (connectedAt lastSeenAt : option Z) (r : GatewayReach) : GatewayReach :=
  MkGatewayReach (gr_ConnectionMode r) (gr_BaseURL r) (gr_GRPCEndpoint r) (gr_SoftwareVersion r)
    (gr_Capabilities r) (gr_SessionCount r) connectedAt lastSeenAt.

(** [COALESCE(new, old)]. *)
Definition coalesce {A} (new old : option A) : option A := match new with Some _ => new | None => old end.

(** ** Shared handles

    A repository runs on a pool other processes write through as well: before
    each statement or transaction of its own the environment may change the
    rows. [sh_others] is the script of those changes, one entry per statement or
    transaction. *)
Record shared (S : Type) := MkShared {
  sh_db : db S;
  sh_others : list (S -> S);
}.
Arguments MkShared {S} _ _.
Arguments sh_db {S} _.
Arguments sh_others {S} _.

Definition sh_rows {S} (w : shared S) : S := rows (sh_db w).

Definition others_step {S} (w : shared S) : db S * list (S -> S) :=
  match sh_others w with
  | [] => (sh_db w, [])
  | f :: rest => (Db (f (rows (sh_db w))) (faults (sh_db w)), rest)
  end.

(** One statement or one transaction. *)
Definition atomically {S A} (m : M (db S) A) : M (shared S) A := fun w =>
  let '(d, rest) := others_step w in
  let '(r, d') := m d in
  (r, MkShared d' rest).

Definition ErrNoRows : goerr := ErrMsg "sql: no rows in result set".

(** [QueryRow]: no row is an error of its own. *)
Definition query_row {S A} (f : S -> option A) : M (db S) A :=
  stmt (fun s => match f s with Some a => (inr a, s) | None => (inl ErrNoRows, s) end).

(** [notFound]. *)
Definition notFound (resource : string) (err : goerr) : goerr :=
  if errors_is ErrNoRows err then ErrNotFound (resource +:+ " not found")
  else ErrWrap ("store: get " +:+ resource) err.

(** ** Reasoning about shared handles *)

Section Shared.
Context {S : Type}.
Implicit Types (R G : S -> S -> Prop) (w : shared S).

Lemma atomically_run {A} (m : M (db S) A) w r w' :
  atomically m w = (r, w') ->
  exists d', m (others_step w).1 = (r, d') /\ w' = MkShared d' (others_step w).2.
Proof.
  unfold atomically. destruct (others_step w) as [d rest]. destruct (m d) as [r0 d'] eqn:Hm.
  intros [= <- <-]. cbn. eauto.
Qed.

(** What the environment may do, by every entry of the script. *)
Definition relies R w : Prop := Forall (fun f => forall s, R s (f s)) (sh_others w).

Lemma relies_step R w : PreOrder R -> relies R w ->
  R (sh_rows w) (rows (others_step w).1) /\ Forall (fun f => forall s, R s (f s)) (others_step w).2.
Proof.
  intros HR. unfold relies, others_step, sh_rows. destruct (sh_others w) as [|f rest]; cbn.
  - by split.
  - intros [Hf Hrest]%Forall_cons. by split.
Qed.

(** Every step of a method and of its environment grows the rows. *)
Definition grows_under R w w' : Prop := relies R w -> R (sh_rows w) (sh_rows w') /\ relies R w'.

#[export] Instance grows_under_preorder R : PreOrder R -> PreOrder (grows_under R).
Proof.
  intros HR. split.
  - by intros w Hw.
  - intros w1 w2 w3 H12 H23 Hw. destruct (H12 Hw) as [HR12 Hw2]. destruct (H23 Hw2). split; [|done].
    by etransitivity.
Qed.

Lemma respects_atomically {A} R (m : M (db S) A) :
  PreOrder R -> respects (on_rows R) m -> respects (grows_under R) (atomically m).
Proof.
  intros HR Hm w r w' Hrun Hw. destruct (atomically_run _ _ _ _ Hrun) as (d' & Hd & ->).
  destruct (relies_step R w HR Hw) as [Hstep Hrest]. split; [|exact Hrest].
  etransitivity; [exact Hstep|]. exact (Hm _ _ _ Hd).
Qed.

(** A step of a method that returned, seen from where its environment left the
    rows. *)
Lemma atomically_returns {A} R (m : M (db S) A) w a w' :
  PreOrder R -> relies R w -> atomically m w = (inr a, w') ->
  exists d d', m d = (inr a, d') /\ R (sh_rows w) (rows d) /\ sh_rows w' = rows d' /\ relies R w'.
Proof.
  intros HR Hw Hrun. destruct (atomically_run _ _ _ _ Hrun) as (d' & Hd & ->).
  destruct (relies_step R w HR Hw) as [Hg Hrest]. eauto 10.
Qed.

(** Only the environment wrote. *)
Definition others_only w w' : Prop :=
  exists n, sh_others w' = drop n (sh_others w) /\
    sh_rows w' = foldl (fun s f => f s) (sh_rows w) (take n (sh_others w)).

Lemma others_only_refl w : others_only w w.
Proof. exists 0%nat. by rewrite drop_0, take_0. Qed.

Lemma others_only_trans w1 w2 w3 : others_only w1 w2 -> others_only w2 w3 -> others_only w1 w3.
Proof.
  intros (n & Hn & Hr) (k & Hk & Hs). exists (n + k)%nat. split.
  - by rewrite Hk, Hn, drop_drop.
  - by rewrite Hs, Hr, Hn, <- foldl_app, take_take_drop.
Qed.

Lemma others_only_step w d' : rows d' = rows (others_step w).1 ->
  others_only w (MkShared d' (others_step w).2).
Proof.
  unfold others_step, others_only, sh_rows. destruct (sh_others w) as [|f rest]; cbn; intros Hd.
  - by exists 0%nat.
  - by exists 1%nat.
Qed.

(** A condition [P] of the rows that the environment keeps, under which the
    statement changes nothing: the whole method writes nothing. *)
Definition idle (P : S -> Prop) w0 w : Prop :=
  others_only w0 w /\ P (sh_rows w) /\ relies (fun s s' => P s -> P s') w.

Lemma triple_idle {A} (P : S -> Prop) (phi : A -> Prop) w0 (m : M (db S) A) :
  (forall d r d', P (rows d) -> m d = (r, d') ->
     rows d' = rows d /\ match r with inr a => phi a | inl _ => True end) ->
  triple (idle P w0) (atomically m) (fun a w => phi a /\ idle P w0 w) (idle P w0).
Proof.
  intros Hm w r w' (Ho & HP & Hrely) Hrun. destruct (atomically_run _ _ _ _ Hrun) as (d' & Hd & ->).
  assert (HPO : PreOrder (fun s s' : S => P s -> P s')) by (split; red; auto).
  destruct (relies_step _ w HPO Hrely) as [Hstep Hrest].
  destruct (Hm _ _ _ (Hstep HP) Hd) as [Hrows Hphi].
  assert (Hidle : idle P w0 (MkShared d' (others_step w).2)).
  { split; [eapply others_only_trans; [exact Ho | by apply others_only_step]|].
    split; [|exact Hrest]. unfold sh_rows. cbn. rewrite Hrows. auto. }
  destruct r; [exact Hidle | by split].
Qed.

(** No other process writes and the database does not fail. *)
Definition quiet w : Prop := sh_others w = [] /\ faults (sh_db w) = [].

Lemma quiet_relies R w : quiet w -> relies R w.
Proof. unfold relies. intros [-> _]. constructor. Qed.

Lemma quiet_rows w : quiet w -> (others_step w).1 = sh_db w.
Proof. unfold others_step. by intros [-> _]. Qed.

Lemma stmt_quiet {A} (f : S -> (goerr + A) * S) : respects (keeps quiet) (atomically (stmt f)).
Proof.
  intros w r w' Hrun [Ho Hf]. destruct (atomically_run _ _ _ _ Hrun) as (d' & Hd & ->).
  unfold others_step, quiet in *. rewrite Ho in *. cbn in *. split; [done|]. unfold stmt in Hd. rewrite Hf in Hd.
  cbn in Hd. destruct (f _). by injection Hd as _ <-.
Qed.
End Shared.

#[export] Hint Resolve respects_atomically : golib.

(** ** The registry only grows

    Gateways are never removed, their connection epochs never decrease, and a
    deleted one stays deleted. *)
Record gateway_grows (r r' : GatewayRecord) : Prop := {
  gg_epoch : gw_ConnectionEpoch r <= gw_ConnectionEpoch r';
  gg_deleted : live r' = true -> live r = true;
}.
Definition registry_grows (t t' : gdb) : Prop :=
  forall id r, g_gateways t !! id = Some r -> exists r', g_gateways t' !! id = Some r' /\ gateway_grows r r'.

#[export] Instance gateway_grows_preorder : PreOrder gateway_grows.
Proof.
  split; [by split; auto|]. intros a b c [H1 H2] [H3 H4]. split; [lia|auto].
Qed.

#[export] Instance registry_grows_preorder : PreOrder registry_grows.
Proof.
  split.
  - intros t id r Hr. exists r. by split.
  - intros t1 t2 t3 H12 H23 id r Hr. destruct (H12 _ _ Hr) as (r2 & Hr2 & Hg).
    destruct (H23 _ _ Hr2) as (r3 & Hr3 & Hg'). exists r3. split; [done|]. by etransitivity.
Qed.

Lemma registry_grows_same t t' : g_gateways t' = g_gateways t -> registry_grows t t'.
Proof. intros Heq id r Hr. exists r. rewrite Heq. by split. Qed.

(** What an update of a gateway is: nothing, or one row replaced. *)
Lemma update_gateway_cases id guard f t r t' :
  update_gateway id guard f t = (r, t') ->
  (t' = t /\ (r = inr 0 \/ exists err, r = inl err)) \/
  exists g g', g_gateways t !! id = Some g /\ guard g = true /\ f g = inr g' /\ revisions_ok g' = true /\
    r = inr 1 /\ t' = with_gateways (<[id := g']> (g_gateways t)) t.
Proof.
  unfold update_gateway. destruct (g_gateways t !! id) as [g|] eqn:Hg; [|intros [= <- <-]; auto].
  destruct (guard g) eqn:Hguard; [|intros [= <- <-]; auto].
  destruct (f g) as [err|g'] eqn:Hf; [intros [= <- <-]; eauto|].
  destruct (revisions_ok g') eqn:Hok; intros [= <- <-]; [right|left]; eauto 10.
Qed.

Lemma registry_grows_insert id g g' t :
  g_gateways t !! id = Some g -> gateway_grows g g' ->
  registry_grows t (with_gateways (<[id := g']> (g_gateways t)) t).
Proof.
  intros Hg Hgrow id' r Hr. cbn. destruct (decide (id' = id)) as [->|Hne].
  - rewrite lookup_insert_eq. rewrite Hg in Hr. injection Hr as <-. eauto.
  - rewrite lookup_insert_ne by done. exists r. by split.
Qed.

(** An update keeps the epoch or raises it. *)
Definition raises (f : GatewayRecord -> goerr + GatewayRecord) : Prop :=
  forall r r', f r = inr r' -> gateway_grows r r'.

Lemma update_gateway_grows id guard f t :
  raises f -> registry_grows t (update_gateway id guard f t).2.
Proof.
  intros Hf. destruct (update_gateway id guard f t) as [r t'] eqn:Hu. cbn.
  apply update_gateway_cases in Hu as [[-> _]|(g & g' & Hg & _ & Hfg & _ & _ & ->)]; [done|].
  eapply registry_grows_insert; [exact Hg | by apply Hf].
Qed.

Lemma respects_update_gateway id guard f :
  raises f -> respects (on_rows registry_grows) (stmt (update_gateway id guard f)).
Proof. intros Hf. apply respects_stmt; [apply _|]. intros t. by apply update_gateway_grows. Qed.

(** ** Example rows *)

Definition example_gateway (status : string) (epoch revision : Z) : GatewayRecord :=
  MkGatewayRecord status epoch (Some 1) None 1 (MkGatewayMeta None None None None 1)
    (MkGatewayReach "control" None (Some "gw:1") None None 0 None None)
    (MkGatewayIntent "run" revision 0) (MkGatewayKeystore "pending" None None None None)
    (MkGatewayJournal None None None).
Definition example_session (gatewayID : string) : SessionRecord :=
  MkSessionRecord "o1" gatewayID SessionWorking (Some "1@wa") true false 20 100 30 1.
(** Gateway g1 runs session s1; gateway g2 runs nothing. *)
Definition example_tables : gdb := {|
  g_gateways := {["g1" := example_gateway GatewayActive 3 5; "g2" := example_gateway GatewayActive 1 2]};
  g_sessions := {["s1" := example_session "g1"]};
  g_assignments := {["s1" := MkAssignmentRecord "g1" 4 1 1]};
  g_results := [];
  g_tokens := ∅;
  g_certificates := ∅;
  g_audit := [];
  g_events := MkEventTables ∅ [] 0 ∅;
|}.
Definition example_handle : shared gdb := MkShared (Db example_tables []) [].
