(* ===== verification/GatewayStore.v ===== *)
(** * The gateway repository

    Models [internal/store/gateway.go] with its statements in
    [queries/gateway.sql]: registration, the allocation of connection epochs,
    the writes fenced by gateway and epoch, the complete desired state of a
    connection, routing and placement. Every method runs on a shared handle:
    between its statements other processes may write. *)

From S2P Require Import Prelude Journal Domain GatewayTables.

#[local] Open Scope Z_scope.

(** [json.Valid]. *)
Class JSONLib := { json_Valid : bytes -> bool }.

Definition connectionEpochAllocationAttempts : nat := 8.

(** [uint32(n)]. *)
Definition u32 (z : Z) : Z := z `mod` 2 ^ 32.

Record GatewayConnectionHello := MkConnectionHello {
  ch_GatewayID : string;
  ch_BaseURL : option string;
  ch_GRPCEndpoint : option string;
  ch_SoftwareVersion : option string;
  ch_Capabilities : bytes;
  ch_SessionCount : Z;
  ch_Status : string;
}.

Record GatewayAcceptedConnection := MkAcceptedConnection {
  ac_ConnectionEpoch : Z;
  ac_DesiredLifecycle : string;
  ac_DesiredRevision : Z;
}.

Record GatewayConnection := MkGatewayConnection {
  co_GatewayID : string;
  co_ConnectionEpoch : Z;
}.

Record GatewayHeartbeat := MkStoredHeartbeat {
  sh_Connection : GatewayConnection;
  sh_SessionCount : Z;
  sh_Status : string;
  sh_JournalState : option string;
  sh_JournalEntries : option Z;
  sh_JournalBytes : option Z;
}.

Record GatewayControlMetadata := MkControlMetadata {
  cm_GatewayID : string;
  cm_GRPCEndpoint : option string;
  cm_SoftwareVersion : option string;
  cm_Capabilities : bytes;
  cm_AppliedRevision : Z;
  cm_ConnectedAt : option Z;
}.

Record GatewayDesiredSession := MkDesiredSessionRow {
  dr_SessionID : string;
  dr_OrganizationID : string;
  dr_DeviceJID : string;
  dr_AssignmentEpoch : Z;
  dr_ConfigRevision : Z;
  dr_AutoRead : bool;
  dr_PresenceTyping : bool;
  dr_RatePerMin : Z;
  dr_RatePerHour : Z;
  dr_HistorySyncDays : Z;
  dr_DesiredRun : bool;
  dr_LeaseExpiresAt : Z;
}.

Record SessionEngineTarget := MkSessionEngineTarget {
  tg_SessionID : string;
  tg_OrganizationID : string;
  tg_GatewayID : string;
  tg_GRPCEndpoint : string;
  tg_AssignmentEpoch : Z;
  tg_ConnectionEpoch : Z;
  tg_DesiredRevision : Z;
  tg_AppliedRevision : Z;
}.

Definition gatewayReportedStatus (status : string) : bool :=
  bool_decide (status ∈ [GatewayJoining; GatewayActive; GatewayDraining; GatewayDrained; GatewayDegraded]).

(** A JSON column written from a possibly empty slice. *)
Definition json_param (b : bytes) : option bytes := if bool_decide (b = []) then None else Some b.

(** ** Registration *)

Record UpsertParams := MkUpsertParams {
  up_ID : string;
  up_Label : option string;
  up_Status : string;
  up_SessionCount : Z;
  up_Capacity : option Z;
  up_BaseURL : option string;
  up_LastSeenAt : option Z;
  up_CreatedAt : Z;
  up_UpdatedAt : Z;
}.

Definition pending_keystore : GatewayKeystore := MkGatewayKeystore "pending" None None None None.
Definition no_journal : GatewayJournal := MkGatewayJournal None None None.

(** [UpsertGateway]: [ON DUPLICATE KEY UPDATE] keeps what it does not name. *)
Definition upsert_gateway (p : UpsertParams) (t : gdb) : unit * gdb :=
  let row := match g_gateways t !! up_ID p with
  | None => MkGatewayRecord (up_Status p) 0 None None (up_UpdatedAt p)
      (MkGatewayMeta (up_Label p) None None (up_Capacity p) (up_CreatedAt p))
      (MkGatewayReach "legacy" (up_BaseURL p) None None None (u32 (up_SessionCount p)) None (up_LastSeenAt p))
      (MkGatewayIntent "run" 0 0) pending_keystore no_journal
  | Some r =>
      set_status (up_Status p) (set_updated (up_UpdatedAt p)
        (set_meta (MkGatewayMeta (up_Label p) (gm_Notes (gw_meta r)) (gm_CreatedByUserID (gw_meta r))
                     (up_Capacity p) (gm_CreatedAt (gw_meta r)))
        (set_reach (MkGatewayReach "legacy" (up_BaseURL p) (gr_GRPCEndpoint (gw_reach r))
                      (gr_SoftwareVersion (gw_reach r)) (gr_Capabilities (gw_reach r))
                      (gr_SessionCount (gw_reach r)) (gr_ConnectedAt (gw_reach r)) (up_LastSeenAt p)) r)))
  end in
  (tt, with_gateways (<[up_ID p := row]> (g_gateways t)) t).

Definition Upsert (p : UpsertParams) : M (shared gdb) unit :=
  map_err (ErrWrap "store: upsert gateway") (atomically (exec (upsert_gateway p))).

Definition create_gateway (id : string) (label notes : option string) (creator : string)
  (capacity : option Z) (desiredRevision createdAt updatedAt : Z) (t : gdb) : (goerr + unit) * gdb :=
  match g_gateways t !! id with
  | Some _ => (inl (ErrMsg "Error 1062: Duplicate entry"), t)
  | None =>
      let row := MkGatewayRecord GatewayPendingEnrollment 0 None None updatedAt
        (MkGatewayMeta label notes (Some creator) capacity createdAt)
        (MkGatewayReach "legacy" None None None None 0 None None)
        (MkGatewayIntent "run" desiredRevision 0) pending_keystore no_journal in
      if revisions_ok row then (inr tt, with_gateways (<[id := row]> (g_gateways t)) t)
      else (inl ErrCheckViolated, t)
  end.

(** [CreatePending], one statement of its caller's transaction. *)
Definition CreatePending (id : string) (label : option string) (capacity : option Z)
  (createdAt updatedAt : Z) (notes creatorID : option string) (desiredRevision : Z) : M (db gdb) unit :=
  match creatorID with
  | None | Some "" => throw (ErrMsg "store: gateway creator is required")
  | Some creator =>
      stmt (create_gateway id label notes creator capacity desiredRevision createdAt updatedAt)
  end.

(** [markEnrolledJoining], likewise. *)
Definition markEnrolledJoining (id : string) (at_ : Z) : M (db gdb) bool :=
  n ← stmt (update_gateway id
        (fun r => live r && bool_decide (gw_Status r = GatewayPendingEnrollment))
        (fun r => inr (set_status GatewayJoining (set_enrolled at_ (set_updated at_ r)))));
  mret (n =? 1).

Definition UpdateMetadata (id : string) (label notes : option string) (capacity : option Z)
  (revision at_ : Z) : M (shared gdb) bool :=
  n ← atomically (stmt (update_gateway id live (fun r =>
        inr (set_updated at_ (set_intent (MkGatewayIntent (gi_DesiredLifecycle (gw_intent r)) revision
                                    (gi_AppliedRevision (gw_intent r)))
          (set_meta (MkGatewayMeta label notes (gm_CreatedByUserID (gw_meta r)) capacity
                       (gm_CreatedAt (gw_meta r))) r))))));
  mret (n =? 1).

Definition Disable (id : string) (at_ : Z) : M (shared gdb) bool :=
  n ← atomically (stmt (update_gateway id
        (fun r => live r && negb (bool_decide (gw_Status r = GatewayDisabled)))
        (fun r => inr (set_status GatewayDisabled (set_updated at_ r)))));
  mret (n =? 1).

(** A token that may still be redeemed, and a certificate that is not revoked. *)
Definition live_token (id : string) (tk : EnrollmentToken) : bool :=
  bool_decide (et_GatewayID tk = id) &&
  (bool_decide (et_Status tk = "active") || bool_decide (et_Status tk = "redeeming")).
Definition live_certificate (id : string) (c : GatewayCertificate) : bool :=
  bool_decide (gt_GatewayID c = id) && is_none (gt_RevokedAt c).
Definition no_live_credentials (id : string) (t : gdb) : bool :=
  forallb (fun p => negb (live_token id p.2)) (map_to_list (g_tokens t)) &&
  forallb (fun p => negb (live_certificate id p.2)) (map_to_list (g_certificates t)).

Definition soft_delete_gateway (id : string) (statuses : list string) (at_ : Z) (t : gdb)
  : (goerr + Z) * gdb :=
  update_gateway id
    (fun r => live r && bool_decide (gw_Status r ∈ statuses) && no_live_credentials id t)
    (fun r => inr (set_status GatewayDisabled (set_deleted at_ (set_updated at_ r)))) t.

Definition SoftDelete (id : string) (at_ : Z) : M (shared gdb) bool :=
  n ← atomically (stmt (soft_delete_gateway id
        [GatewayPendingEnrollment; GatewayDrained; GatewayDisabled] at_));
  mret (n =? 1).

Section Repo.
Context `{JSONLib}.

Definition bad_capabilities (capabilities : bytes) : bool :=
  negb (bool_decide (capabilities = [])) && negb (json_Valid capabilities).

(** The columns a connection reports about itself. *)
Definition set_metadata (m : GatewayControlMetadata) (connectedAt lastSeenAt : option Z) (at_ : Z)
  (r : GatewayRecord) : GatewayRecord :=
  set_updated at_
    (set_intent (MkGatewayIntent (gi_DesiredLifecycle (gw_intent r)) (gi_DesiredRevision (gw_intent r))
                   (cm_AppliedRevision m))
    (set_reach (MkGatewayReach (gr_ConnectionMode (gw_reach r)) (gr_BaseURL (gw_reach r))
                  (cm_GRPCEndpoint m) (cm_SoftwareVersion m) (json_param (cm_Capabilities m))
                  (gr_SessionCount (gw_reach r)) connectedAt lastSeenAt) r)).

Definition UpdateConnectionMetadata (m : GatewayControlMetadata) (at_ : Z) : M (shared gdb) bool :=
  if bad_capabilities (cm_Capabilities m) then throw (ErrMsg "store: invalid gateway capabilities")
  else
    n ← atomically (stmt (update_gateway (cm_GatewayID m) live (fun r =>
          inr (set_metadata m (cm_ConnectedAt m) (gr_LastSeenAt (gw_reach r)) at_ r))));
    mret (n =? 1).

(** ** Connection epochs *)

(** [GetGatewayConnectionEpochForAllocation]. *)
Definition epoch_for_allocation (id : string) (t : gdb) : option Z :=
  r ← g_gateways t !! id; if connectable r then Some (gw_ConnectionEpoch r) else None.

(** [AllocateGatewayConnectionEpoch]. *)
Definition allocate_epoch (hello : GatewayConnectionHello) (current at_ : Z) (t : gdb)
  : (goerr + Z) * gdb :=
  update_gateway (ch_GatewayID hello) (fun r => connectable r && at_epoch current r)
    (fun r => match increment (gw_ConnectionEpoch r) with
      | inl err => inl err
      | inr epoch => inr (set_epoch epoch (set_status (ch_Status hello) (set_updated at_
          (set_reach (MkGatewayReach "control" (coalesce (ch_BaseURL hello) (gr_BaseURL (gw_reach r)))
             (ch_GRPCEndpoint hello) (ch_SoftwareVersion hello) (json_param (ch_Capabilities hello))
             (u32 (ch_SessionCount hello)) (Some at_) (Some at_)) r))))
      end) t.

(** [GetAcceptedGatewayDesiredLifecycle]. *)
Definition accepted_desired (id : string) (epoch : Z) (t : gdb) : option (string * Z) :=
  r ← g_gateways t !! id;
  if at_epoch epoch r && usable r
  then Some (gi_DesiredLifecycle (gw_intent r), gi_DesiredRevision (gw_intent r)) else None.

Fixpoint accept_loop (attempts : nat) (hello : GatewayConnectionHello) (at_ : Z)
  : M (shared gdb) GatewayAcceptedConnection :=
  match attempts with
  | O => throw (ErrMsg "store: allocate gateway connection epoch: concurrent allocation contention")
  | S attempts =>
      current ← map_err (notFound "connectable gateway")
        (atomically (query_row (epoch_for_allocation (ch_GatewayID hello))));
      n ← map_err (ErrWrap "store: allocate gateway connection epoch")
        (atomically (stmt (allocate_epoch hello current at_)));
      if n =? 1 then
        let epoch := u64 (current + 1) in
        '(lifecycle, revision) ← map_err (fun err =>
            if errors_is ErrNoRows err
            then ErrConflict "gateway connection was superseded during acceptance"
            else ErrWrap "store: read accepted gateway connection" err)
          (atomically (query_row (accepted_desired (ch_GatewayID hello) epoch)));
        mret (MkAcceptedConnection epoch lifecycle revision)
      else accept_loop attempts hello at_
  end.

Definition AcceptConnection (hello : GatewayConnectionHello) (at_ : Z)
  : M (shared gdb) GatewayAcceptedConnection :=
  let invalidHello := bool_decide (ch_GatewayID hello = "") || (ch_SessionCount hello <? 0) ||
    negb (gatewayReportedStatus (ch_Status hello)) in
  if invalidHello || bad_capabilities (ch_Capabilities hello) then
    throw (ErrMsg "store: invalid gateway connection hello")
  else accept_loop connectionEpochAllocationAttempts hello at_.

(** ** Fenced writes *)

(** [IsGatewayConnectionCurrent]. *)
Definition is_current (c : GatewayConnection) (t : gdb) : bool :=
  match g_gateways t !! co_GatewayID c with
  | Some r => at_epoch (co_ConnectionEpoch c) r && usable r
  | None => false
  end.

Definition fencedWriteApplied (changed : Z) (c : GatewayConnection) : M (shared gdb) bool :=
  if changed =? 1 then mret true
  else map_err (ErrWrap "store: verify gateway connection epoch") (atomically (query (is_current c))).

(** [UPDATE gateways ... WHERE id AND connection_epoch AND usable]. *)
Definition fenced_update (c : GatewayConnection) (f : GatewayRecord -> goerr + GatewayRecord)
  : M (shared gdb) Z :=
  atomically (stmt (update_gateway (co_GatewayID c)
    (fun r => at_epoch (co_ConnectionEpoch c) r && usable r) f)).

Definition gatewayJournalTelemetryParams (h : GatewayHeartbeat)
  : goerr + (option string * option Z * option Z) :=
  match sh_JournalState h with
  | None =>
      if negb (is_none (sh_JournalEntries h)) || negb (is_none (sh_JournalBytes h))
      then inl (ErrMsg "journal telemetry counts without state") else inr (None, None, None)
  | Some state =>
      if negb (bool_decide (state ∈ ["healthy"; "degraded"; "paused"; "critical"])) then
        inl (ErrMsg "unknown journal state")
      else match sh_JournalEntries h, sh_JournalBytes h with
      | Some entries, Some size => inr (Some state, Some (i64 entries), Some (i64 size))
      | _, _ => inl (ErrMsg "journal telemetry requires entry and byte counts")
      end
  end.

(** A [BIGINT UNSIGNED] column takes no negative value. *)
Definition unsigned_column (v : option Z) : bool := from_option (fun n => 0 <=? n) true v.

Definition set_heartbeat (h : GatewayHeartbeat) (params : option string * option Z * option Z) (at_ : Z)
  (r : GatewayRecord) : goerr + GatewayRecord :=
  let '(state, entries, size) := params in
  if negb (unsigned_column entries) || negb (unsigned_column size) then
    inl (ErrMsg "Error 1264: Out of range value")
  else inr (set_status (sh_Status h) (set_updated at_
    (set_reach (MkGatewayReach (gr_ConnectionMode (gw_reach r)) (gr_BaseURL (gw_reach r))
       (gr_GRPCEndpoint (gw_reach r)) (gr_SoftwareVersion (gw_reach r)) (gr_Capabilities (gw_reach r))
       (u32 (sh_SessionCount h)) (gr_ConnectedAt (gw_reach r)) (Some at_))
    (set_journal (MkGatewayJournal (coalesce state (gj_State (gw_journal r)))
       (coalesce entries (gj_Entries (gw_journal r))) (coalesce size (gj_Bytes (gw_journal r)))) r)))).

(** The accepted connection's desired lifecycle, and whether the write applied. *)
Definition HeartbeatForEpoch (h : GatewayHeartbeat) (at_ : Z)
  : M (shared gdb) (option GatewayAcceptedConnection) :=
  let c := sh_Connection h in
  if (co_ConnectionEpoch c =? 0) || (sh_SessionCount h <? 0) || negb (gatewayReportedStatus (sh_Status h)) then
    throw (ErrMsg "store: invalid fenced gateway heartbeat")
  else
    params ← map_err (ErrWrap "store: invalid fenced gateway heartbeat")
      (lift_result (gatewayJournalTelemetryParams h));
    n ← map_err (ErrWrap "store: fenced gateway heartbeat") (fenced_update c (set_heartbeat h params at_));
    applied ← fencedWriteApplied n c;
    if negb applied then mret None
    else
      r ← attempt (atomically (query_row (accepted_desired (co_GatewayID c) (co_ConnectionEpoch c))));
      match r with
      | inl err => if errors_is ErrNoRows err then mret None
                   else throw (ErrWrap "store: read fenced gateway desired lifecycle" err)
      | inr (lifecycle, revision) =>
          mret (Some (MkAcceptedConnection (co_ConnectionEpoch c) lifecycle revision))
      end.

Definition SetStatusForEpoch (c : GatewayConnection) (status : string) (at_ : Z) : M (shared gdb) bool :=
  if (co_ConnectionEpoch c =? 0) || negb (gatewayReportedStatus status) then
    throw (ErrMsg "store: invalid fenced gateway lifecycle")
  else
    n ← map_err (ErrWrap "store: fenced gateway lifecycle")
      (fenced_update c (fun r => inr (set_status status (set_updated at_ r))));
    fencedWriteApplied n c.

Definition DisconnectForEpoch (c : GatewayConnection) (at_ : Z) : M (shared gdb) bool :=
  if bool_decide (co_GatewayID c = "") || (co_ConnectionEpoch c =? 0) then
    throw (ErrMsg "store: invalid fenced gateway disconnect")
  else
    n ← map_err (ErrWrap "store: fenced gateway disconnect")
      (fenced_update c (fun r => inr (set_updated at_ (set_reach (set_liveness None None (gw_reach r)) r))));
    fencedWriteApplied n c.

Definition UpdateConnectionMetadataForEpoch (c : GatewayConnection) (m : GatewayControlMetadata) (at_ : Z)
  : M (shared gdb) bool :=
  if (co_ConnectionEpoch c =? 0) || negb (bool_decide (co_GatewayID c = cm_GatewayID m)) then
    throw (ErrMsg "store: gateway connection metadata id mismatch")
  else if bad_capabilities (cm_Capabilities m) then throw (ErrMsg "store: invalid gateway capabilities")
  else
    n ← map_err (ErrWrap "store: fenced gateway connection metadata")
      (fenced_update c (fun r => inr (set_metadata m (gr_ConnectedAt (gw_reach r)) (Some at_) at_ r)));
    fencedWriteApplied n c.

(** ** Desired state *)

(** [ListGatewayDesiredStateAssignments], [ORDER BY session_id]. *)
Definition session_le (a b : string * AssignmentRecord) : Prop := String.leb a.1 b.1 = true.
#[export] Instance session_le_dec : RelDecision session_le.
Proof. intros a b. unfold session_le. apply _. Defined.

Definition assignments_of (gatewayID : string) (t : gdb) : list (string * AssignmentRecord) :=
  filter (fun p => ga_GatewayID p.2 = gatewayID) (map_to_list (g_assignments t)).

Definition desired_rows (c : GatewayConnection) (revision : Z) (t : gdb)
  : list (string * AssignmentRecord * SessionRecord) :=
  match g_gateways t !! co_GatewayID c with
  | Some r =>
      if at_epoch (co_ConnectionEpoch c) r && (gi_DesiredRevision (gw_intent r) =? revision) && usable r
      then omap (fun p => s ← g_sessions t !! p.1; Some (p, s))
             (merge_sort session_le (assignments_of (co_GatewayID c) t))
      else []
  | None => []
  end.

Definition desired_run (s : SessionRecord) : bool :=
  from_option (fun jid => negb (bool_decide (jid = ""))) false (ss_WAJID s) &&
  match ss_Status s with SessionWorking | SessionStarting | SessionScanQR => true | _ => false end.

Definition desired_session (revision leaseExpiresAt : Z) (p : string * AssignmentRecord * SessionRecord)
  : GatewayDesiredSession :=
  let '(id, a, s) := p in {|
    dr_SessionID := id;
    dr_OrganizationID := ss_OrganizationID s;
    dr_DeviceJID := default "" (ss_WAJID s);
    dr_AssignmentEpoch := ga_AssignmentEpoch a;
    dr_ConfigRevision := revision;
    dr_AutoRead := ss_AutoRead s;
    dr_PresenceTyping := ss_PresenceTyping s;
    dr_RatePerMin := u32 (ss_RatePerMin s);
    dr_RatePerHour := u32 (ss_RatePerHour s);
    dr_HistorySyncDays := u32 (ss_HistorySyncDays s);
    dr_DesiredRun := desired_run s;
    dr_LeaseExpiresAt := leaseExpiresAt;
  |}.

(** The desired revision of a connection; [None] when it is not current. *)
Definition current_revision (what : string) (c : GatewayConnection) : M (shared gdb) (option Z) :=
  r ← attempt (atomically (query_row (accepted_desired (co_GatewayID c) (co_ConnectionEpoch c))));
  match r with
  | inl err => if errors_is ErrNoRows err then mret None else throw (ErrWrap what err)
  | inr (_, revision) => mret (Some revision)
  end.

Definition DesiredStateForEpoch (c : GatewayConnection) (revision leaseExpiresAt : Z)
  : M (shared gdb) (option (list GatewayDesiredSession)) :=
  current ← current_revision "store: get gateway desired revision" c;
  if negb (bool_decide (current = Some revision)) then mret None
  else
    found ← map_err (ErrWrap "store: list gateway desired state")
      (atomically (query (desired_rows c revision)));
    final ← current_revision "store: recheck gateway desired revision" c;
    if negb (bool_decide (final = Some revision)) then mret None
    else mret (Some (desired_session revision leaseExpiresAt <$> found)).

Definition AcknowledgeDesiredStateForEpoch (c : GatewayConnection) (revision at_ : Z)
  : M (shared gdb) bool :=
  n ← atomically (stmt (update_gateway (co_GatewayID c)
        (fun r => at_epoch (co_ConnectionEpoch c) r && (gi_DesiredRevision (gw_intent r) =? revision) &&
                  usable r && (gi_AppliedRevision (gw_intent r) <=? revision))
        (fun r => inr (set_updated at_ (set_intent (MkGatewayIntent (gi_DesiredLifecycle (gw_intent r))
                         (gi_DesiredRevision (gw_intent r)) revision) r)))));
  mret (n =? 1).

(** ** Legacy registry writes *)

Definition Heartbeat (id : string) (at_ sessionCount : Z) : M (shared gdb) unit :=
  map_err (ErrWrap "store: gateway heartbeat")
    (atomically (stmt (update_gateway id live (fun r =>
      inr (set_updated at_ (set_reach (MkGatewayReach (gr_ConnectionMode (gw_reach r))
        (gr_BaseURL (gw_reach r)) (gr_GRPCEndpoint (gw_reach r)) (gr_SoftwareVersion (gw_reach r))
        (gr_Capabilities (gw_reach r)) (u32 sessionCount) (gr_ConnectedAt (gw_reach r)) (Some at_)) r))))));;
  mret tt.

Definition SetStatus (id status : string) (at_ : Z) : M (shared gdb) unit :=
  map_err (ErrWrap "store: set gateway status")
    (atomically (stmt (update_gateway id live (fun r => inr (set_status status (set_updated at_ r))))));;
  mret tt.

(** [desired_lifecycle = ?, desired_revision = desired_revision + 1]. *)
Definition set_lifecycle (lifecycle : string) (at_ : Z) (r : GatewayRecord) : goerr + GatewayRecord :=
  match increment (gi_DesiredRevision (gw_intent r)) with
  | inl err => inl err
  | inr n => inr (set_updated at_ (set_intent (MkGatewayIntent lifecycle n
                                     (gi_AppliedRevision (gw_intent r))) r))
  end.

Definition SetDesiredLifecycle (id desired : string) (at_ : Z) : M (shared gdb) bool :=
  if negb (bool_decide (desired = "run")) && negb (bool_decide (desired = "drain")) then
    throw (ErrMsg "store: invalid gateway desired lifecycle")
  else
    n ← map_err (ErrWrap "store: set gateway desired lifecycle")
      (atomically (stmt (update_gateway id connectable (set_lifecycle desired at_))));
    mret (n =? 1).

(** ** Reads *)

(** [ResolveSessionEngineTarget]. *)
Definition engine_target (organizationID sessionID : string) (t : gdb) : option SessionEngineTarget :=
  s ← g_sessions t !! sessionID;
  a ← g_assignments t !! sessionID;
  g ← g_gateways t !! ga_GatewayID a;
  endpoint ← gr_GRPCEndpoint (gw_reach g);
  if bool_decide (ss_OrganizationID s = organizationID) && live g &&
     bool_decide (gr_ConnectionMode (gw_reach g) = "control") && bool_decide (gw_Status g = GatewayActive) &&
     bool_decide (gi_DesiredLifecycle (gw_intent g) = "run") &&
     bool_decide (gk_ReconciliationStatus (gw_keystore g) = "healthy") &&
     negb (is_none (gr_ConnectedAt (gw_reach g)))
  then Some (MkSessionEngineTarget sessionID (ss_OrganizationID s) (ga_GatewayID a) endpoint
               (ga_AssignmentEpoch a) (gw_ConnectionEpoch g) (gi_DesiredRevision (gw_intent g))
               (gi_AppliedRevision (gw_intent g)))
  else None.

Definition ResolveSessionEngineTarget (organizationID sessionID : string)
  : M (shared gdb) SessionEngineTarget :=
  map_err (notFound "session engine target") (atomically (query_row (engine_target organizationID sessionID))).

(** [PickGatewayForPlacement] and its order: least loaded, freshest, by id.
    MySQL sorts NULL last in descending order. *)
Definition placeable (r : GatewayRecord) : bool :=
  bool_decide (gw_Status r = GatewayActive) &&
  (bool_decide (gr_ConnectionMode (gw_reach r) = "legacy") ||
   bool_decide (gr_ConnectionMode (gw_reach r) = "control") &&
   bool_decide (gi_DesiredLifecycle (gw_intent r) = "run") &&
   bool_decide (gk_ReconciliationStatus (gw_keystore r) = "healthy")) &&
  live r && from_option (fun capacity => gr_SessionCount (gw_reach r) <? capacity) true (gm_Capacity (gw_meta r)).

Definition seen_key (r : GatewayRecord) : Z * Z :=
  match gr_LastSeenAt (gw_reach r) with Some at_ => (0, - at_) | None => (1, 0) end.
Definition placement_le (a b : string * GatewayRecord) : Prop :=
  let ka := (gr_SessionCount (gw_reach a.2), seen_key a.2) in
  let kb := (gr_SessionCount (gw_reach b.2), seen_key b.2) in
  ka.1 < kb.1 \/ (ka.1 = kb.1 /\
    (ka.2.1 < kb.2.1 \/ (ka.2.1 = kb.2.1 /\
      (ka.2.2 < kb.2.2 \/ (ka.2.2 = kb.2.2 /\ String.leb a.1 b.1 = true))))).
#[export] Instance placement_le_dec : RelDecision placement_le.
Proof. intros a b. unfold placement_le. apply _. Defined.

Definition pick_gateway (t : gdb) : option (string * GatewayRecord) :=
  head (merge_sort placement_le (filter (fun p => placeable p.2 = true) (map_to_list (g_gateways t)))).

Definition PickForPlacement : M (shared gdb) (string * GatewayRecord) :=
  map_err (notFound "placement gateway") (atomically (query_row pick_gateway)).

Definition Get (id : string) : M (shared gdb) GatewayRecord :=
  map_err (notFound "gateway")
    (atomically (query_row (fun t => r ← g_gateways t !! id; if live r then Some r else None))).
End Repo.

(** ** The registry only grows *)

Ltac raises_tac :=
  let r := fresh "r" in let r' := fresh "r'" in let Hr := fresh "Hr" in
  intros r r' Hr;
  repeat (match type of Hr with context [match ?x with _ => _ end] => destruct x eqn:?; try discriminate Hr end);
  injection Hr as <-; split; cbn; try lia; auto.

Section Growth.
Context `{JSONLib}.

Lemma increment_inr n m : increment n = inr m -> m = n + 1 /\ n + 1 < 2 ^ 64.
Proof. unfold increment. destruct (n + 1 <? 2 ^ 64) eqn:Hn; [|done]. intros [= <-]. to_prop. auto. Qed.

Lemma raises_advance at_ : raises (advance_revision at_).
Proof. unfold advance_revision. raises_tac. Qed.

Lemma raises_lifecycle lifecycle at_ : raises (set_lifecycle lifecycle at_).
Proof. unfold set_lifecycle. raises_tac. Qed.

Lemma raises_heartbeat h params at_ : raises (set_heartbeat h params at_).
Proof. unfold set_heartbeat. destruct params as [[state entries] size]. raises_tac. Qed.

Lemma upsert_grows p t : registry_grows t (upsert_gateway p t).2.
Proof.
  unfold upsert_gateway. cbn. intros id r Hr. cbn. destruct (decide (id = up_ID p)) as [->|Hne].
  - rewrite lookup_insert_eq, Hr. eexists. split; [done|]. by split; cbn.
  - rewrite lookup_insert_ne by done. exists r. by split.
Qed.

Lemma create_grows id label notes creator capacity rev c u t :
  registry_grows t (create_gateway id label notes creator capacity rev c u t).2.
Proof.
  unfold create_gateway. destruct (g_gateways t !! id) eqn:Hid; [done|]. destruct (revisions_ok _); [|done].
  intros id' r Hr. cbn. exists r. rewrite lookup_insert_ne; [done|]. intros ->. congruence.
Qed.

Lemma fenced_update_grows c f : raises f -> respects (grows_under registry_grows) (fenced_update c f).
Proof. intros Hf. apply respects_atomically; [apply _|]. by apply respects_update_gateway. Qed.

Lemma query_row_grows {A} (f : gdb -> option A) : respects (on_rows registry_grows) (query_row f).
Proof. apply respects_stmt; [apply _|]. intros t. by destruct (f t). Qed.

Lemma fencedWriteApplied_grows n c : respects (grows_under registry_grows) (fencedWriteApplied n c).
Proof.
  unfold fencedWriteApplied. destruct (n =? 1); [apply respects_ret, _|].
  apply respects_map_err, respects_atomically; [apply _|]. apply respects_query, _.
Qed.

End Growth.

#[export] Hint Resolve fenced_update_grows fencedWriteApplied_grows query_row_grows respects_update_gateway
  raises_advance raises_lifecycle raises_heartbeat : golib.
#[export] Hint Extern 1 (raises (fun _ => _)) => raises_tac : golib.
#[export] Hint Extern 1 (PreOrder _) => apply _ : golib.
#[export] Hint Extern 1 (Reflexive _) => apply _ : golib.
#[export] Hint Extern 1 (Transitive _) => apply _ : golib.

(** Growth of a method, statement by statement. *)
Ltac grows_tac :=
  repeat match goal with
  | |- respects _ (if ?b then _ else _) => destruct b
  | |- respects _ (match ?x with _ => _ end) => destruct x
  | |- respects _ (mbind _ _) => apply respects_bind; [apply _| |intros ?]
  | |- respects _ (map_err _ _) => apply respects_map_err
  | |- respects _ (attempt _) => apply respects_attempt
  | |- respects _ (throw _) => apply respects_throw, _
  | |- respects _ (mret _) => apply respects_ret, _
  | |- respects _ (lift_result _) => apply respects_lift, _
  | |- respects _ (atomically _) => apply respects_atomically; [apply _|]
  | |- respects _ (query _) => apply respects_query, _
  end; auto with golib.

Section Methods.
Context `{JSONLib}.

Lemma allocate_grows hello current at_ : respects (on_rows registry_grows) (stmt (allocate_epoch hello current at_)).
Proof.
  apply respects_update_gateway. intros r r' Hr. destruct (increment _) as [|e] eqn:He; [done|].
  apply increment_inr in He as [-> _]. injection Hr as <-. split; cbn; [lia|auto].
Qed.

Lemma AcceptConnection_grows hello at_ : respects (grows_under registry_grows) (AcceptConnection hello at_).
Proof.
  unfold AcceptConnection. cbn zeta. destruct (_ || _); [apply respects_throw, _|].
  induction connectionEpochAllocationAttempts as [|k IH]; cbn [accept_loop]; [apply respects_throw, _|].
  grows_tac; apply allocate_grows.
Qed.

Lemma Upsert_grows p : respects (grows_under registry_grows) (Upsert p).
Proof. unfold Upsert. grows_tac. apply respects_exec; [apply _|]. apply upsert_grows. Qed.

Lemma UpdateMetadata_grows id l n c rev at_ : respects (grows_under registry_grows) (UpdateMetadata id l n c rev at_).
Proof. unfold UpdateMetadata. grows_tac. Qed.

Lemma Disable_grows id at_ : respects (grows_under registry_grows) (Disable id at_).
Proof. unfold Disable. grows_tac. Qed.

Lemma soft_delete_grows id statuses at_ : respects (on_rows registry_grows) (stmt (soft_delete_gateway id statuses at_)).
Proof.
  apply respects_stmt; [apply _|]. intros t. apply update_gateway_grows. raises_tac.
Qed.

Lemma SoftDelete_grows id at_ : respects (grows_under registry_grows) (SoftDelete id at_).
Proof. unfold SoftDelete. grows_tac. apply soft_delete_grows. Qed.

Lemma UpdateConnectionMetadata_grows m at_ :
  respects (grows_under registry_grows) (UpdateConnectionMetadata m at_).
Proof. unfold UpdateConnectionMetadata. grows_tac. Qed.

Lemma HeartbeatForEpoch_grows h at_ : respects (grows_under registry_grows) (HeartbeatForEpoch h at_).
Proof. unfold HeartbeatForEpoch. grows_tac. Qed.

Lemma SetStatusForEpoch_grows c s at_ : respects (grows_under registry_grows) (SetStatusForEpoch c s at_).
Proof. unfold SetStatusForEpoch. grows_tac. Qed.

Lemma DisconnectForEpoch_grows c at_ : respects (grows_under registry_grows) (DisconnectForEpoch c at_).
Proof. unfold DisconnectForEpoch. grows_tac. Qed.

Lemma UpdateConnectionMetadataForEpoch_grows c m at_ :
  respects (grows_under registry_grows) (UpdateConnectionMetadataForEpoch c m at_).
Proof. unfold UpdateConnectionMetadataForEpoch. grows_tac. Qed.

Lemma DesiredStateForEpoch_grows c rev lease :
  respects (grows_under registry_grows) (DesiredStateForEpoch c rev lease).
Proof. unfold DesiredStateForEpoch, current_revision. grows_tac. Qed.

Lemma AcknowledgeDesiredStateForEpoch_grows c rev at_ :
  respects (grows_under registry_grows) (AcknowledgeDesiredStateForEpoch c rev at_).
Proof. unfold AcknowledgeDesiredStateForEpoch. grows_tac. Qed.

Lemma Heartbeat_grows id at_ n : respects (grows_under registry_grows) (Heartbeat id at_ n).
Proof. unfold Heartbeat. grows_tac. Qed.

Lemma SetStatus_grows id s at_ : respects (grows_under registry_grows) (SetStatus id s at_).
Proof. unfold SetStatus. grows_tac. Qed.

Lemma SetDesiredLifecycle_grows id l at_ : respects (grows_under registry_grows) (SetDesiredLifecycle id l at_).
Proof. unfold SetDesiredLifecycle. grows_tac. Qed.
End Methods.

(** ** Superseded connections *)

(** A later connection, a disablement or a re-enrollment raised the epoch, or the
    gateway was deleted. *)
Definition superseded (c : GatewayConnection) (t : gdb) : Prop :=
  exists r, g_gateways t !! co_GatewayID c = Some r /\
    (co_ConnectionEpoch c < gw_ConnectionEpoch r \/ live r = false).

Lemma superseded_grows c t t' : registry_grows t t' -> superseded c t -> superseded c t'.
Proof.
  intros Hg (r & Hr & Hs). destruct (Hg _ _ Hr) as (r' & Hr' & [He Hd]). exists r'. split; [done|].
  destruct Hs as [Hs|Hs]; [left; lia|right]. destruct (live r'); [|done]. by rewrite Hd in Hs.
Qed.

(** The methods fenced by gateway and epoch, and whether they took effect. *)
Inductive fenced_op :=
  | FencedHeartbeat (h : GatewayHeartbeat)
  | FencedStatus (c : GatewayConnection) (status : string)
  | FencedDisconnect (c : GatewayConnection)
  | FencedMetadata (c : GatewayConnection) (m : GatewayControlMetadata)
  | FencedDesiredState (c : GatewayConnection) (revision leaseExpiresAt : Z)
  | FencedAcknowledge (c : GatewayConnection) (revision : Z).

Definition op_connection (o : fenced_op) : GatewayConnection :=
  match o with
  | FencedHeartbeat h => sh_Connection h
  | FencedStatus c _ | FencedDisconnect c | FencedMetadata c _ | FencedDesiredState c _ _
  | FencedAcknowledge c _ => c
  end.

Section Fence.
Context `{JSONLib}.

Definition run_fenced (o : fenced_op) (at_ : Z) : M (shared gdb) bool :=
  match o with
  | FencedHeartbeat h => r ← HeartbeatForEpoch h at_; mret (negb (is_none r))
  | FencedStatus c status => SetStatusForEpoch c status at_
  | FencedDisconnect c => DisconnectForEpoch c at_
  | FencedMetadata c m => UpdateConnectionMetadataForEpoch c m at_
  | FencedDesiredState c revision lease => r ← DesiredStateForEpoch c revision lease; mret (negb (is_none r))
  | FencedAcknowledge c revision => AcknowledgeDesiredStateForEpoch c revision at_
  end.

Lemma superseded_guard c t r :
  superseded c t -> g_gateways t !! co_GatewayID c = Some r -> at_epoch (co_ConnectionEpoch c) r && usable r = false.
Proof.
  intros (r' & Hr' & Hs) Hr. rewrite Hr in Hr'. injection Hr' as <-. unfold at_epoch, usable.
  destruct Hs as [Hs| ->]; [|by rewrite andb_false_r]. rewrite (proj2 (Z.eqb_neq _ _)); [done|lia].
Qed.

Lemma superseded_stmt c (guard : GatewayRecord -> bool) f d r d' :
  (forall g, guard g = true -> at_epoch (co_ConnectionEpoch c) g && usable g = true) ->
  superseded c (rows d) -> stmt (update_gateway (co_GatewayID c) guard f) d = (r, d') ->
  rows d' = rows d /\ match r with inr n => n = 0 | inl _ => True end.
Proof.
  intros Hguard Hs. unfold stmt.
  assert (Hu : update_gateway (co_GatewayID c) guard f (rows d) = (inr 0, rows d)).
  { unfold update_gateway. destruct (g_gateways (rows d) !! co_GatewayID c) as [g|] eqn:Hg; [|done].
    destruct (guard g) eqn:Hgg; [|done]. apply Hguard in Hgg. by rewrite (superseded_guard c (rows d) g) in Hgg. }
  rewrite Hu. destruct (head (faults d)) as [[e|]|]; intros [= <- <-]; auto.
Qed.

Lemma superseded_query {A} (f : gdb -> A) (phi : A -> Prop) d r d' :
  phi (f (rows d)) -> query f d = (r, d') -> rows d' = rows d /\ match r with inr a => phi a | inl _ => True end.
Proof. unfold query, stmt. intros Hphi. destruct (head (faults d)) as [[e|]|]; intros [= <- <-]; auto. Qed.

Lemma superseded_query_row {A} (f : gdb -> option A) d r d' :
  f (rows d) = None -> query_row f d = (r, d') -> rows d' = rows d /\ match r with inr a => False | inl _ => True end.
Proof. unfold query_row, stmt. intros ->. destruct (head (faults d)) as [[e|]|]; intros [= <- <-]; auto. Qed.

Lemma superseded_accepted c t : superseded c t -> accepted_desired (co_GatewayID c) (co_ConnectionEpoch c) t = None.
Proof.
  intros Hs. unfold accepted_desired. destruct (g_gateways t !! co_GatewayID c) as [g|] eqn:Hg; [|done].
  cbn. by rewrite (superseded_guard c t g).
Qed.

Lemma superseded_current c t : superseded c t -> is_current c t = false.
Proof.
  intros Hs. unfold is_current. destruct (g_gateways t !! co_GatewayID c) as [g|] eqn:Hg; [|done].
  by rewrite (superseded_guard c t g).
Qed.

Abbreviation inert c w0 := (idle (superseded c) w0).

Lemma fenced_update_inert c f w0 :
  triple (inert c w0) (fenced_update c f) (fun n w => n = 0 /\ inert c w0 w) (inert c w0).
Proof. apply triple_idle. intros d r d' Hs. by apply superseded_stmt. Qed.

Lemma fencedWriteApplied_inert c w0 :
  triple (inert c w0) (fencedWriteApplied 0 c) (fun b w => b = false /\ inert c w0 w) (inert c w0).
Proof.
  unfold fencedWriteApplied. cbn. apply triple_map_err, triple_idle. intros d r d' Hs.
  by apply (superseded_query _ (fun b => b = false)), superseded_current.
Qed.

(** An update followed by its check. *)
Lemma fenced_write_inert c f what w0 :
  triple (inert c w0) (n ← map_err what (fenced_update c f); fencedWriteApplied n c)
    (fun b w => b = false /\ inert c w0 w) (inert c w0).
Proof.
  eapply triple_bind; [apply triple_map_err, fenced_update_inert|]. intros n.
  apply triple_pure. intros ->. apply fencedWriteApplied_inert.
Qed.

Lemma accepted_desired_inert c w0 :
  triple (inert c w0) (attempt (atomically (query_row (accepted_desired (co_GatewayID c) (co_ConnectionEpoch c)))))
    (fun r w => (exists e, r = inl e) /\ inert c w0 w) (inert c w0).
Proof.
  eapply triple_attempt with (X' := inert c w0); [|eauto]. eapply triple_weaken;
    [apply (triple_idle (superseded c) (fun _ => False))|done|by intros ?? [[] _]|done].
  intros d r d' Hs. by apply superseded_query_row, superseded_accepted.
Qed.

Lemma current_revision_inert what c w0 :
  triple (inert c w0) (current_revision what c) (fun r w => r = None /\ inert c w0 w) (inert c w0).
Proof.
  unfold current_revision. eapply triple_bind; [apply accepted_desired_inert|]. intros r.
  apply triple_pure. intros (e & ->). destruct (errors_is ErrNoRows e); [by apply triple_ret | by apply triple_throw].
Qed.

Lemma run_fenced_inert o at_ w0 :
  let c := op_connection o in
  triple (inert c w0) (run_fenced o at_) (fun b w => b = false /\ inert c w0 w) (inert c w0).
Proof.
  destruct o; cbn [run_fenced op_connection].
  - unfold HeartbeatForEpoch. set (c := sh_Connection h).
    eapply triple_bind with (R := fun r w => r = None /\ inert c w0 w);
      [|intros r; apply triple_pure; intros ->; by apply triple_ret].
    destruct (_ || _); [by apply triple_throw|].
    eapply triple_bind with (R := fun _ => inert c w0).
    { apply triple_map_err, triple_lift. intros w Hw. by destruct (gatewayJournalTelemetryParams h). }
    intros params. eapply triple_bind; [apply triple_map_err, fenced_update_inert|]. intros n.
    apply triple_pure. intros ->. eapply triple_bind; [apply fencedWriteApplied_inert|]. intros b.
    apply triple_pure. intros ->. cbn. by apply triple_ret.
  - unfold SetStatusForEpoch. destruct (_ || _); [by apply triple_throw | apply fenced_write_inert].
  - unfold DisconnectForEpoch. destruct (_ || _); [by apply triple_throw | apply fenced_write_inert].
  - unfold UpdateConnectionMetadataForEpoch. destruct (_ || _); [by apply triple_throw|].
    destruct (bad_capabilities _); [by apply triple_throw | apply fenced_write_inert].
  - unfold DesiredStateForEpoch. eapply triple_bind with (R := fun r w => r = None /\ inert c w0 w);
      [|intros r; apply triple_pure; intros ->; by apply triple_ret].
    eapply triple_bind; [apply current_revision_inert|]. intros r. apply triple_pure. intros ->.
    cbn. by apply triple_ret.
  - unfold AcknowledgeDesiredStateForEpoch. eapply triple_bind with (R := fun n w => n = 0 /\ inert c w0 w).
    + apply triple_idle. intros d r d' Hs. apply superseded_stmt; [|done]. intros g Hg.
      to_prop. by apply andb_true_iff.
    + intros n. apply triple_pure. intros ->. by apply triple_ret.
Qed.

(** Once a newer connection, a disablement or a re-enrollment raised the
    epoch of a gateway, or it was deleted, no fenced method of the older
    connection takes effect: it reports failure or "not applied", and every
    change to the rows while it runs is one of its environment, whatever that
    environment and the database do. *)
Theorem superseded_connection_is_inert o at_ w r w'
    (Hs : superseded (op_connection o) (sh_rows w)) (Hrely : relies registry_grows w)
    (Hrun : run_fenced o at_ w = (r, w')) :
  others_only w w' /\ r <> inr true.
Proof.
  assert (Hinert : inert (op_connection o) w w).
  { split; [apply others_only_refl|]. split; [done|]. unfold relies in *. eapply Forall_impl; [exact Hrely|].
    cbn. intros f Hf s. by apply superseded_grows. }
  pose proof (run_fenced_inert o at_ w w r w' Hinert Hrun) as Hpost. destruct r as [e|b].
  - by destruct Hpost.
  - destruct Hpost as [-> [Ho _]]. by split.
Qed.
End Fence.

(** ** Accepted connections *)

Section Accept.
Context `{JSONLib}.

(** The row a connection leaves when it is accepted. *)
Definition accepted_row (hello : GatewayConnectionHello) (at_ : Z) (r : GatewayRecord) : GatewayRecord :=
  set_epoch (gw_ConnectionEpoch r + 1) (set_status (ch_Status hello) (set_updated at_
    (set_reach (MkGatewayReach "control" (coalesce (ch_BaseURL hello) (gr_BaseURL (gw_reach r)))
       (ch_GRPCEndpoint hello) (ch_SoftwareVersion hello) (json_param (ch_Capabilities hello))
       (u32 (ch_SessionCount hello)) (Some at_) (Some at_)) r))).

Lemma query_row_returns {S A} (f : S -> option A) d a d' :
  query_row f d = (inr a, d') -> f (rows d) = Some a /\ rows d' = rows d.
Proof.
  unfold query_row. intros Hs%stmt_returns. destruct (f (rows d)); [by injection Hs as -> ->|discriminate].
Qed.

Lemma allocate_returns hello current at_ d n d' :
  stmt (allocate_epoch hello current at_) d = (inr n, d') ->
  (n = 0 /\ rows d' = rows d) \/
  exists r, n = 1 /\ g_gateways (rows d) !! ch_GatewayID hello = Some r /\ connectable r = true /\
    gw_ConnectionEpoch r = current /\ current + 1 < 2 ^ 64 /\
    rows d' = with_gateways (<[ch_GatewayID hello := accepted_row hello at_ r]> (g_gateways (rows d))) (rows d).
Proof.
  intros Hs%stmt_returns. unfold allocate_epoch in Hs.
  apply update_gateway_cases in Hs as [[-> [[= ->]|[? [=]]]]|(r & r' & Hr & Hg & Hf & _ & [= ->] & Heq)]; [by left|].
  right. exists r. apply andb_true_iff in Hg as [Hc He]. unfold at_epoch in He. apply Z.eqb_eq in He.
  destruct (increment _) as [|e] eqn:Hi; [done|]. apply increment_inr in Hi as [-> Hlt].
  injection Hf as <-. subst current. by rewrite Heq.
Qed.

Definition accepted (hello : GatewayConnectionHello) (at_ : Z) (t t' : gdb) (epoch : Z) : Prop :=
  exists before r,
    registry_grows t before /\ g_gateways before !! ch_GatewayID hello = Some r /\ connectable r = true /\
    epoch = u64 (gw_ConnectionEpoch r + 1) /\ gw_ConnectionEpoch r + 1 < 2 ^ 64 /\
    registry_grows (with_gateways (<[ch_GatewayID hello := accepted_row hello at_ r]> (g_gateways before)) before) t'.

Lemma accept_loop_returns attempts hello at_ w acc w' :
  relies registry_grows w -> accept_loop attempts hello at_ w = (inr acc, w') ->
  accepted hello at_ (sh_rows w) (sh_rows w') (ac_ConnectionEpoch acc).
Proof.
  revert w. induction attempts as [|k IH]; intros w Hw; cbn [accept_loop]; [discriminate|].
  intros (current & w1 & Hq & Hrun)%bind_returns. apply map_err_returns in Hq.
  destruct (atomically_returns registry_grows _ _ _ _ _ Hw Hq) as (d1 & d1' & Hq1 & Hg1 & Hr1 & Hw1).
  apply query_row_returns in Hq1 as [_ Hd1].
  apply bind_returns in Hrun as (n & w2 & Ha & Hrun). apply map_err_returns in Ha.
  destruct (atomically_returns registry_grows _ _ _ _ _ Hw1 Ha) as (d2 & d2' & Ha2 & Hg2 & Hr2 & Hw2).
  assert (Hstart : registry_grows (sh_rows w) (rows d2)).
  { etransitivity; [exact Hg1|]. rewrite <- Hd1, <- Hr1. exact Hg2. }
  apply allocate_returns in Ha2 as [[-> Hsame]|(r & -> & Hr & Hc & He & Hlt & Heq)].
  - cbn in Hrun. destruct (IH w2 Hw2 Hrun) as (before & r & Hb & Hrest). exists before, r.
    split; [|done]. etransitivity; [exact Hstart|]. by rewrite <- Hsame, <- Hr2.
  - cbn in Hrun. apply bind_returns in Hrun as ([lifecycle revision] & w3 & Hq3 & Hret).
    apply map_err_returns in Hq3. injection Hret as <- <-. cbn [ac_ConnectionEpoch].
    destruct (atomically_returns registry_grows _ _ _ _ _ Hw2 Hq3) as (d3 & d3' & Hq4 & Hg3 & Hr3 & _).
    apply query_row_returns in Hq4 as [_ Hd3]. exists (rows d2), r. subst current.
    split; [done|]. split; [done|]. split; [done|]. split; [done|]. split; [done|].
    rewrite <- Heq, <- Hr2, Hr3, Hd3. exact Hg3.
Qed.

(** Accepting a connection allocates an epoch of its own. It is larger than
    every epoch the gateway had before the call and at most the one it has
    afterwards; one statement raised the row from the epoch before it and wrote
    the reported columns, so no other call can be given the same epoch, and only
    an enrolled, enabled gateway is accepted - however other processes write
    meanwhile. *)
Theorem accepted_epoch_is_fresh hello at_ w acc w' r0
    (Hrely : relies registry_grows w)
    (Hr0 : g_gateways (sh_rows w) !! ch_GatewayID hello = Some r0) (Hpos : 0 <= gw_ConnectionEpoch r0)
    (Hrun : AcceptConnection hello at_ w = (inr acc, w')) :
  let e := ac_ConnectionEpoch acc in
  gw_ConnectionEpoch r0 < e < 2 ^ 64 /\
  (exists r', g_gateways (sh_rows w') !! ch_GatewayID hello = Some r' /\ e <= gw_ConnectionEpoch r') /\
  exists before r, registry_grows (sh_rows w) before /\
    g_gateways before !! ch_GatewayID hello = Some r /\ connectable r = true /\ gw_ConnectionEpoch r = e - 1 /\
    registry_grows
      (with_gateways (<[ch_GatewayID hello := accepted_row hello at_ r]> (g_gateways before)) before) (sh_rows w').
Proof.
  intros e. unfold AcceptConnection in Hrun. destruct (_ || _) in Hrun; [discriminate|].
  destruct (accept_loop_returns _ _ _ _ _ _ Hrely Hrun) as (before & r & Hb & Hr & Hc & He & Hlt & Ha).
  destruct (Hb _ _ Hr0) as (r1 & Hr1 & [Hle _]). rewrite Hr in Hr1. injection Hr1 as <-.
  rewrite u64_id in He by (unfold in_u64; lia). fold e in He.
  split; [lia|]. split.
  - destruct (Ha (ch_GatewayID hello) (accepted_row hello at_ r)) as (r' & Hr' & [Hle' _]).
    { cbn. apply lookup_insert_eq. }
    exists r'. split; [done|]. cbn in Hle'. lia.
  - exists before, r. repeat split; try done. lia.
Qed.
End Accept.

(** ** Witnesses *)

#[local] Instance no_json : JSONLib := {| json_Valid _ := false |}.

(** The connection of epoch 2 tells its status after the connection of epoch 3
    was accepted. *)
Lemma superseded_connection_is_inert_witness :
  let o := FencedStatus (MkGatewayConnection "g1" 2) GatewayDraining in
  (superseded (op_connection o) (sh_rows example_handle) /\ relies registry_grows example_handle) /\
 (others_only example_handle (run_fenced o 7 example_handle).2 /\
  (run_fenced o 7 example_handle).1 <> inr true).
Proof.
  intros o. assert (Hs : superseded (op_connection o) (sh_rows example_handle)).
  { exists (example_gateway GatewayActive 3 5). split; [by vm_compute|]. left. vm_compute. done. }
  assert (Hr : relies registry_grows example_handle) by constructor. split; [done|].
  exact (superseded_connection_is_inert o 7 example_handle _ _ Hs Hr (surjective_pairing _)).
Defined.

Definition demo_hello : GatewayConnectionHello :=
  MkConnectionHello "g1" None (Some "gw:1") None [] 0 GatewayActive.
(** Another process allocates epoch 4 between the read and the write, so the
    second attempt allocates 5. *)
Definition demo_rival (t : gdb) : gdb :=
  match g_gateways t !! "g1" with
  | Some r => with_gateways (<["g1" := set_epoch (gw_ConnectionEpoch r + 1) r]> (g_gateways t)) t
  | None => t
  end.
Definition demo_contended : shared gdb := MkShared (Db example_tables []) [id; demo_rival].
Definition demo_accept := AcceptConnection demo_hello 9 demo_contended.
Lemma demo_accept_eq : demo_accept = (inr (MkAcceptedConnection 5 "run" 5), demo_accept.2).
Proof. by vm_compute. Qed.

Lemma demo_rival_grows t : registry_grows t (demo_rival t).
Proof.
  unfold demo_rival. destruct (g_gateways t !! "g1") as [r|] eqn:Hr; [|done].
  eapply registry_grows_insert; [exact Hr|]. split; cbn; [lia|done].
Qed.

Lemma accepted_epoch_is_fresh_witness :
  relies registry_grows demo_contended /\
 gw_ConnectionEpoch (example_gateway GatewayActive 3 5) < 5 < 2 ^ 64.
Proof.
  assert (Hr : relies registry_grows demo_contended).
  { constructor; [by intros t|]. constructor; [exact demo_rival_grows|]. constructor. }
  split; [exact Hr|].
  exact (proj1 (accepted_epoch_is_fresh demo_hello 9 demo_contended _ _ (example_gateway GatewayActive 3 5)
    Hr eq_refl ltac:(by vm_compute) demo_accept_eq)).
Defined.
