(* ===== verification/GatewayAssignment.v ===== *)
(** * Session assignments

    Models [internal/store/gateway_assignment.go] and
    [internal/store/session_lifecycle.go]: the transactions that decide which
    gateway runs a session. Each one changes the assignment, the session's
    pin and the desired revision of every gateway concerned, or nothing. *)

From S2P Require Import Prelude Journal Domain EventIngest GatewayTables GatewayStore.

#[local] Open Scope Z_scope.

(** [UPDATE gateways SET desired_revision = desired_revision + 1, updated_at = ?
    WHERE id IN (ids) AND deleted_at IS NULL]: every row or none. *)
Fixpoint advance_all (ids : list string) (at_ : Z) (t : gdb) : goerr + (Z * gdb) :=
  match ids with
  | [] => inr (0, t)
  | id :: rest =>
      match update_gateway id live (advance_revision at_) t with
      | (inl err, _) => inl err
      | (inr n, t1) => match advance_all rest at_ t1 with
                       | inl err => inl err
                       | inr (m, t2) => inr (n + m, t2)
                       end
      end
  end.
Definition advance_gateways (ids : list string) (at_ : Z) (t : gdb) : (goerr + Z) * gdb :=
  match advance_all ids at_ t with
  | inl err => (inl err, t)
  | inr (n, t') => (inr n, t')
  end.

(** [UPDATE gateway_session_assignments SET gateway_id = ?,
    assignment_epoch = assignment_epoch + 1 WHERE session_id = ?]. *)
Definition move_assignment (sessionID gatewayID : string) (at_ : Z) (t : gdb) : (goerr + Z) * gdb :=
  match g_assignments t !! sessionID with
  | None => (inr 0, t)
  | Some a =>
      match increment (ga_AssignmentEpoch a) with
      | inl err => (inl err, t)
      | inr epoch => (inr 1, with_assignments (<[sessionID :=
          MkAssignmentRecord gatewayID epoch (ga_CreatedAt a) at_]> (g_assignments t)) t)
      end
  end.

Definition insert_assignment (sessionID gatewayID : string) (at_ : Z) (t : gdb) : (goerr + Z) * gdb :=
  match g_assignments t !! sessionID, g_sessions t !! sessionID, g_gateways t !! gatewayID with
  | Some _, _, _ => (inl (ErrMsg "Error 1062: Duplicate entry"), t)
  | None, Some _, Some _ =>
      (inr 1, with_assignments (<[sessionID := MkAssignmentRecord gatewayID 1 at_ at_]> (g_assignments t)) t)
  | None, _, _ => (inl (ErrMsg "Error 1452: a foreign key constraint fails"), t)
  end.

Definition delete_assignment (sessionID : string) (t : gdb) : Z * gdb :=
  match g_assignments t !! sessionID with
  | None => (0, t)
  | Some _ => (1, with_assignments (delete sessionID (g_assignments t)) t)
  end.

(** [UPDATE wa_sessions SET f WHERE id = ?]. *)
Definition update_session (sessionID : string) (f : SessionRecord -> SessionRecord) (t : gdb) : Z * gdb :=
  match g_sessions t !! sessionID with
  | None => (0, t)
  | Some s => (1, with_sessions (<[sessionID := f s]> (g_sessions t)) t)
  end.

Definition set_session_gateway (gatewayID : string) (at_ : Z) (s : SessionRecord) : SessionRecord :=
  MkSessionRecord (ss_OrganizationID s) gatewayID (ss_Status s) (ss_WAJID s) (ss_AutoRead s)
    (ss_PresenceTyping s) (ss_RatePerMin s) (ss_RatePerHour s) (ss_HistorySyncDays s) at_.
Definition set_session_config (autoRead presenceTyping : bool) (ratePerMin ratePerHour at_ : Z)
  (s : SessionRecord) : SessionRecord :=
  MkSessionRecord (ss_OrganizationID s) (ss_GatewayID s) (ss_Status s) (ss_WAJID s) autoRead
    presenceTyping ratePerMin ratePerHour (ss_HistorySyncDays s) at_.
Definition set_session_history (days at_ : Z) (s : SessionRecord) : SessionRecord :=
  MkSessionRecord (ss_OrganizationID s) (ss_GatewayID s) (ss_Status s) (ss_WAJID s) (ss_AutoRead s)
    (ss_PresenceTyping s) (ss_RatePerMin s) (ss_RatePerHour s) days at_.
(** [CASE WHEN run AND wa_jid IS NULL THEN status ELSE ? END]. *)
Definition set_session_desired (run : bool) (at_ : Z) (s : SessionRecord) : SessionRecord :=
  let status := if run then SessionStarting else SessionStopped in
  MkSessionRecord (ss_OrganizationID s) (ss_GatewayID s)
    (if run && is_none (ss_WAJID s) then ss_Status s else status) (ss_WAJID s) (ss_AutoRead s)
    (ss_PresenceTyping s) (ss_RatePerMin s) (ss_RatePerHour s) (ss_HistorySyncDays s) at_.

(** ** The transactions *)

(** [BeginTx] with its deferred rollback; the body ends in [Commit]. *)
Definition in_tx {A} (beginText : string) (body : M (db gdb) A) : M (shared gdb) A :=
  atomically (with_rollback (map_err (ErrWrap beginText) begin_tx;; body)).

(** [SELECT ... FROM gateway_session_assignments WHERE session_id=? FOR UPDATE]. *)
Definition lock_assignment (text sessionID : string) : M (db gdb) AssignmentRecord :=
  map_err (fun err => if errors_is ErrNoRows err then ErrNotFound "session assignment not found"
                      else ErrWrap text err)
    (query_row (fun t => g_assignments t !! sessionID)).

Definition eligible_target (gatewayID : string) (t : gdb) : Z :=
  match g_gateways t !! gatewayID with Some r => if usable r then 1 else 0 | None => 0 end.
Definition require_eligible (gatewayID : string) : M (db gdb) unit :=
  r ← attempt (query (eligible_target gatewayID));
  match r with
  | inr 1 => mret tt
  | _ => throw (ErrMsg "store: target gateway is not eligible")
  end.

Definition require_count (n expected : Z) (text : string) : M (db gdb) unit :=
  if n =? expected then mret tt else throw (ErrMsg text).

Definition Reassign (sessionID newGatewayID : string) (at_ : Z) : M (shared gdb) Z :=
  in_tx "store: begin session reassignment" (
    a ← lock_assignment "store: lock session assignment" sessionID;
    let oldGatewayID := ga_GatewayID a in
    let epoch := ga_AssignmentEpoch a in
    if bool_decide (oldGatewayID = newGatewayID) then
      map_err (ErrWrap "store: commit unchanged session assignment") commit_tx;; mret epoch
    else
      require_eligible newGatewayID;;
      n ← map_err (ErrWrap "store: update session assignment") (stmt (move_assignment sessionID newGatewayID at_));
      require_count n 1 "store: assignment update lost";;
      map_err (ErrWrap "store: update session gateway pin")
        (exec (update_session sessionID (set_session_gateway newGatewayID at_)));;
      n ← map_err (ErrWrap "store: advance assignment revisions")
        (stmt (advance_gateways [oldGatewayID; newGatewayID] at_));
      require_count n 2 "store: assignment revision update lost";;
      map_err (ErrWrap "store: commit session reassignment") commit_tx;;
      mret (u64 (epoch + 1))).

(** The three updates of one assigned session's row: the update, its gateway's
    revision, the commit. *)
Definition update_assigned (beginText lockText updateText advanceText sessionID : string)
  (f : SessionRecord -> SessionRecord) (at_ : Z) : M (shared gdb) unit :=
  in_tx beginText (
    a ← lock_assignment lockText sessionID;
    map_err (ErrWrap updateText) (exec (update_session sessionID f));;
    map_err (ErrWrap advanceText) (stmt (advance_gateways [ga_GatewayID a] at_));;
    commit_tx).

Definition UpdateConfig (sessionID : string) (autoRead presenceTyping : bool)
  (ratePerMin ratePerHour at_ : Z) : M (shared gdb) unit :=
  if (ratePerMin <? 0) || (ratePerHour <? 0) then throw (ErrMsg "store: session rates must be nonnegative")
  else update_assigned "store: begin session config update" "store: lock session configuration"
         "store: update session configuration" "store: advance config revision" sessionID
         (set_session_config autoRead presenceTyping ratePerMin ratePerHour at_) at_.

Definition UpdateHistorySyncDays (sessionID : string) (days at_ : Z) : M (shared gdb) unit :=
  if (days <? 0) || (65535 <? days) then throw (ErrValidation "historySyncDays out of range")
  else update_assigned "store: begin history window update" "store: lock session history window"
         "store: update session history window" "store: advance config revision" sessionID
         (set_session_history days at_) at_.

Definition SetSessionDesired (sessionID : string) (run : bool) (at_ : Z) : M (shared gdb) unit :=
  update_assigned "store: begin session desired update" "store: lock session assignment"
    "store: update session desired state" "store: advance desired revision" sessionID
    (set_session_desired run at_) at_.

(** [assignSession], inside its caller's transaction. *)
Definition assignSession (sessionID gatewayID : string) (at_ : Z) : M (db gdb) Z :=
  existing ← attempt (query_row (fun t => g_assignments t !! sessionID));
  match existing with
  | inr a => mret (ga_AssignmentEpoch a)
  | inl err =>
      if negb (errors_is ErrNoRows err) then throw (ErrWrap "store: lock session assignment" err)
      else
        require_eligible gatewayID;;
        n ← map_err (ErrWrap "store: insert session assignment") (stmt (insert_assignment sessionID gatewayID at_));
        require_count n 1 "store: assignment insert lost";;
        map_err (ErrWrap "store: advance assignment revision") (stmt (advance_gateways [gatewayID] at_));;
        mret 1
  end.

Definition Assign (sessionID gatewayID : string) (at_ : Z) : M (shared gdb) Z :=
  in_tx "store: begin session assignment" (
    epoch ← assignSession sessionID gatewayID at_; commit_tx;; mret epoch).

Definition Unassign (sessionID : string) (at_ : Z) : M (shared gdb) unit :=
  in_tx "store: begin session unassignment" (
    found ← attempt (query_row (fun t => g_assignments t !! sessionID));
    match found with
    | inl err => if errors_is ErrNoRows err then commit_tx
                 else throw (ErrWrap "store: lock session assignment" err)
    | inr a =>
        n ← map_err (ErrWrap "store: delete session assignment") (exec (delete_assignment sessionID));
        require_count n 1 "store: assignment delete lost";;
        map_err (ErrWrap "store: advance unassignment revision") (stmt (advance_gateways [ga_GatewayID a] at_));;
        commit_tx
    end).

(** *** Creating and deleting sessions *)

(** [CreateSession] of [queries/session.sql]; [wa_jid] is unique. *)
Definition insert_session (sessionID : string) (s : SessionRecord) (t : gdb) : (goerr + unit) * gdb :=
  let duplicate := bool_decide (is_Some (g_sessions t !! sessionID)) ||
    (negb (is_none (ss_WAJID s)) &&
     existsb (fun p => bool_decide (ss_WAJID p.2 = ss_WAJID s)) (map_to_list (g_sessions t))) in
  if duplicate then (inl (ErrMsg "Error 1062: Duplicate entry"), t)
  else (inr tt, with_sessions (<[sessionID := s]> (g_sessions t)) t).

Definition CreateSession (sessionID : string) (s : SessionRecord) (createdAt : Z) : M (shared gdb) unit :=
  in_tx "store: begin session creation" (
    map_err (ErrWrap "store: create session") (stmt (insert_session sessionID s));;
    assignSession sessionID (ss_GatewayID s) createdAt;;
    commit_tx).

Definition delete_session_events (sessionID : string) (t : gdb) : unit * gdb :=
  let e := g_events t in
  (tt, with_events (MkEventTables (filter (fun p => ig_SessionID p.2 <> sessionID) (ev_ingested e))
                      (ev_log e) (ev_autoinc e) (ev_claims e)) t).

(** [DELETE FROM wa_sessions]; assignment and reconciliation result cascade. *)
Definition delete_session (sessionID : string) (t : gdb) : Z * gdb :=
  match g_sessions t !! sessionID with
  | None => (0, t)
  | Some _ =>
      (1, with_sessions (delete sessionID (g_sessions t))
            (with_assignments (delete sessionID (g_assignments t))
              (with_results (filter (fun r => gl_SessionID r <> Some sessionID) (g_results t)) t)))
  end.

Definition DeleteSession (sessionID : string) (at_ : Z) : M (shared gdb) unit :=
  in_tx "store: begin session deletion" (
    gatewayID ← map_err (notFound "session") (query_row (fun t => ss_GatewayID <$> g_sessions t !! sessionID));
    map_err (ErrWrap "store: remove deleted session event work") (exec (delete_session_events sessionID));;
    n ← map_err (ErrWrap "store: delete session") (exec (delete_session sessionID));
    (if n =? 0 then throw (ErrNotFound "session not found") else mret tt);;
    map_err (ErrWrap "store: advance deleted session revision") (stmt (advance_gateways [gatewayID] at_));;
    commit_tx).

(** ** What the statements do *)

(** The row an advanced gateway gets. *)
Definition advanced (at_ : Z) (r : GatewayRecord) : GatewayRecord :=
  set_updated at_ (set_intent (MkGatewayIntent (gi_DesiredLifecycle (gw_intent r))
    (gi_DesiredRevision (gw_intent r) + 1) (gi_AppliedRevision (gw_intent r))) r).

Definition live_gateway (id : string) (t : gdb) (g : GatewayRecord) : Prop :=
  g_gateways t !! id = Some g /\ live g = true.

Lemma update_advance_returns id at_ t n t' :
  update_gateway id live (advance_revision at_) t = (inr n, t') ->
  (n = 0 /\ t' = t /\ forall g, ~ live_gateway id t g) \/
  (n = 1 /\ exists g, live_gateway id t g /\ gi_DesiredRevision (gw_intent g) + 1 < 2 ^ 64 /\
     t' = with_gateways (<[id := advanced at_ g]> (g_gateways t)) t).
Proof.
  intros Hu. unfold update_gateway in Hu. unfold live_gateway.
  destruct (g_gateways t !! id) as [g|]; [|injection Hu as <- <-; left; split; [done|]; split; [done|]; by intros ? [[=] _]].
  destruct (live g) eqn:Hl.
  - destruct (advance_revision at_ g) as [|g'] eqn:Ha; [done|]. unfold advance_revision in Ha.
    destruct (increment _) as [|m] eqn:Hi; [done|]. apply increment_inr in Hi as [-> Hlt]. injection Ha as <-.
    destruct (revisions_ok _); [|done]. injection Hu as <- <-. right. split; [done|]. eauto.
  - injection Hu as <- <-. left. split; [done|]. split; [done|]. intros g' [[= <-] Hl']. congruence.
Qed.

Lemma advance_one_returns id at_ t n t' :
  advance_gateways [id] at_ t = (inr n, t') ->
  (n = 0 /\ t' = t /\ forall g, ~ live_gateway id t g) \/
  (n = 1 /\ exists g, live_gateway id t g /\ gi_DesiredRevision (gw_intent g) + 1 < 2 ^ 64 /\
     t' = with_gateways (<[id := advanced at_ g]> (g_gateways t)) t).
Proof.
  unfold advance_gateways. cbn [advance_all].
  destruct (update_gateway _ _ _ _) as [[err|m] t1] eqn:Hu; [done|]. intros [= <- <-].
  rewrite Z.add_0_r. by apply update_advance_returns in Hu.
Qed.

Lemma advance_two_returns a b at_ t t' :
  a <> b -> advance_gateways [a; b] at_ t = (inr 2, t') ->
  exists ga gb, live_gateway a t ga /\ live_gateway b t gb /\
    t' = with_gateways (<[b := advanced at_ gb]> (<[a := advanced at_ ga]> (g_gateways t))) t.
Proof.
  intros Hab. unfold advance_gateways. cbn [advance_all].
  destruct (update_gateway a _ _ _) as [[err|n] t1] eqn:Ha; [done|].
  destruct (update_gateway b _ _ _) as [[err|m] t2] eqn:Hb; [done|]. intros [= Hn <-].
  apply update_advance_returns in Ha as [(-> & -> & _)|(-> & ga & Hga & _ & ->)];
    apply update_advance_returns in Hb as [(-> & -> & _)|(-> & gb & [Hgb Hlb] & _ & ->)]; try lia.
  exists ga, gb. cbn in Hgb. rewrite lookup_insert_ne in Hgb by done. split; [done|]. by split.
Qed.

Lemma lock_assignment_returns text sid d a d' :
  lock_assignment text sid d = (inr a, d') -> g_assignments (rows d) !! sid = Some a /\ rows d' = rows d.
Proof. intros Hl%map_err_returns. by apply (query_row_returns _ _ _ _ Hl). Qed.

Lemma require_eligible_returns gid d u d' :
  require_eligible gid d = (inr u, d') ->
  rows d' = rows d /\ exists r, g_gateways (rows d) !! gid = Some r /\ usable r = true.
Proof.
  unfold require_eligible. intros (r & d1 & Hq & Hrun)%bind_returns. unfold attempt in Hq.
  destruct (query (eligible_target gid) d) as [r0 d0] eqn:Hq0. injection Hq as -> ->.
  destruct r as [err|n]; [discriminate|]. apply query_returns in Hq0 as [-> Hd].
  unfold eligible_target in Hrun. destruct (g_gateways (rows d) !! gid) as [g|]; [|discriminate].
  destruct (usable g) eqn:Hu; [|discriminate]. injection Hrun as _ <-. eauto.
Qed.

Lemma require_count_returns n m text (d : db gdb) u d' :
  require_count n m text d = (inr u, d') -> n = m /\ d' = d.
Proof. unfold require_count. destruct (n =? m) eqn:Hn; [|discriminate]. intros [= _ <-]. to_prop. auto. Qed.

Lemma commit_returns text (d : db gdb) u d' :
  map_err text commit_tx d = (inr u, d') -> rows d' = rows d.
Proof. intros Hc%map_err_returns. by apply query_returns in Hc as [_ ?]. Qed.

(** A transaction returns what its body returns, or leaves the rows. *)
Lemma in_tx_cases {A} text (body : M (db gdb) A) w r w' :
  in_tx text body w = (r, w') ->
  match r with
  | inl _ => sh_rows w' = rows (others_step w).1
  | inr a => exists d d', body d = (inr a, d') /\ rows d = rows (others_step w).1 /\ rows d' = sh_rows w'
  end.
Proof.
  intros Hrun. destruct (atomically_run _ _ _ _ Hrun) as (d' & Hd & ->). unfold sh_rows. cbn. destruct r as [e|a].
  - by apply with_rollback_error in Hd.
  - apply with_rollback_returns, bind_returns in Hd as (u & d1 & Hb & Hbody).
    apply map_err_returns, query_returns in Hb as [_ Hd1]. eauto.
Qed.

(** ** Reassignment *)

(** The tables after session [sid], so far assigned by [a], moved to [gid]. *)
Definition moved (sid gid : string) (a : AssignmentRecord) (gold gnew : GatewayRecord) (at_ : Z) (t : gdb)
  : gdb :=
  MkGdb (<[gid := advanced at_ gnew]> (<[ga_GatewayID a := advanced at_ gold]> (g_gateways t)))
    (alter (set_session_gateway gid at_) sid (g_sessions t))
    (<[sid := MkAssignmentRecord gid (ga_AssignmentEpoch a + 1) (ga_CreatedAt a) at_]> (g_assignments t))
    (g_results t) (g_tokens t) (g_certificates t) (g_audit t) (g_events t).

Lemma update_session_eq sid f t :
  (update_session sid f t).2 = with_sessions (alter f sid (g_sessions t)) t.
Proof.
  unfold update_session. destruct (g_sessions t !! sid) as [s|] eqn:Hs; cbn.
  - f_equal. apply map_eq. intros k. destruct (decide (k = sid)) as [->|Hk].
    + by rewrite lookup_alter_eq, lookup_insert_eq, Hs.
    + by rewrite lookup_alter_ne, lookup_insert_ne.
  - rewrite (alter_id f) by (intros s Hs'; congruence). by destruct t.
Qed.

Lemma reassign_cases sid gid at_ w r w' :
  Reassign sid gid at_ w = (r, w') ->
  let t := rows (others_step w).1 in
  match r with
  | inl _ => sh_rows w' = t
  | inr epoch => exists a, g_assignments t !! sid = Some a /\
      ((ga_GatewayID a = gid /\ epoch = ga_AssignmentEpoch a /\ sh_rows w' = t) \/
       (ga_GatewayID a <> gid /\ epoch = u64 (ga_AssignmentEpoch a + 1) /\ ga_AssignmentEpoch a + 1 < 2 ^ 64 /\
        exists gold gnew, live_gateway (ga_GatewayID a) t gold /\ live_gateway gid t gnew /\
          usable gnew = true /\ sh_rows w' = moved sid gid a gold gnew at_ t))
  end.
Proof.
  intros Hrun t. pose proof (in_tx_cases _ _ _ _ _ Hrun) as Hcases. destruct r as [e|epoch]; [exact Hcases|].
  destruct Hcases as (d & d' & Hbody & Hd & Hd'). fold t in Hd.
  apply bind_returns in Hbody as (a & d1 & Hl & Hbody).
  apply lock_assignment_returns in Hl as [Ha Hd1]. rewrite Hd in Ha, Hd1. exists a. split; [done|].
  cbn zeta in Hbody. case_bool_decide as Hsame.
  - left. apply bind_returns in Hbody as (u & d2 & Hc & [= <- <-]). apply commit_returns in Hc.
    split; [done|]. split; [done|]. by rewrite <- Hd', Hc.
  - right. split; [done|].
    apply bind_returns in Hbody as (u & d2 & He & Hbody). apply require_eligible_returns in He as [Hd2 (gnew & Hgnew & Hu)].
    rewrite Hd1 in Hgnew, Hd2.
    apply bind_returns in Hbody as (n & d3 & Hm & Hbody). apply map_err_returns, stmt_returns in Hm. rewrite Hd2 in Hm.
    unfold move_assignment in Hm. rewrite Ha in Hm. destruct (increment _) as [|e] eqn:Hi; [discriminate|].
    apply increment_inr in Hi as [-> Hlt]. injection Hm as <- Hd3.
    apply bind_returns in Hbody as ([] & d4 & Hc & Hbody). apply require_count_returns in Hc as [_ ->].
    apply bind_returns in Hbody as (n & d5 & Hs & Hbody). apply map_err_returns, exec_returns in Hs as [_ Hd5].
    rewrite update_session_eq, <- Hd3 in Hd5.
    apply bind_returns in Hbody as (k & d6 & Hadv & Hbody). apply map_err_returns, stmt_returns in Hadv.
    apply bind_returns in Hbody as ([] & d7 & Hc & Hbody). apply require_count_returns in Hc as [-> ->].
    apply bind_returns in Hbody as ([] & d8 & Hc & [= <- <-]). apply commit_returns in Hc.
    rewrite Hd5 in Hadv. apply advance_two_returns in Hadv as (gold & gnew' & [Hgo Hlo] & [Hgn Hln] & Hd6); [|done].
    cbn in Hgo, Hgn. split; [done|]. split; [exact Hlt|].
    exists gold, gnew'. split; [done|]. split; [done|]. rewrite Hgnew in Hgn. injection Hgn as <-. split; [done|].
    by rewrite <- Hd', Hc, Hd6.
Qed.


(** Moving a session is all or nothing. A successful reassignment to
    another gateway, which exists, is neither deleted nor pending nor disabled,
    raises the assignment epoch by one, pins the session, and advances the
    desired revision of the old and the new owner by one; reassignment to the
    current owner changes nothing; every error leaves the tables as they were. *)
Theorem reassign_moves_or_keeps sid gid at_ w r w'
    (Hepochs : map_Forall (fun _ a => 0 < ga_AssignmentEpoch a) (g_assignments (rows (others_step w).1)))
    (Hrun : Reassign sid gid at_ w = (r, w')) :
  let t := rows (others_step w).1 in
  match r with
  | inl _ => sh_rows w' = t
  | inr epoch => exists a, g_assignments t !! sid = Some a /\
      ((ga_GatewayID a = gid /\ epoch = ga_AssignmentEpoch a /\ sh_rows w' = t) \/
       (ga_GatewayID a <> gid /\ epoch = ga_AssignmentEpoch a + 1 /\
        exists gold gnew, live_gateway (ga_GatewayID a) t gold /\ live_gateway gid t gnew /\
          usable gnew = true /\ sh_rows w' = moved sid gid a gold gnew at_ t))
  end.
Proof.
  intros t. pose proof (reassign_cases _ _ _ _ _ _ Hrun) as Hcases. destruct r as [e|epoch]; [exact Hcases|].
  destruct Hcases as (a & Ha & Hcases). exists a. split; [exact Ha|].
  destruct Hcases as [Hsame|(Hne & -> & Hlt & Hmoved)]; [by left | right]. split; [done|]. split; [|done].
  apply u64_id. unfold in_u64. specialize (Hepochs sid a Ha). cbn in Hepochs. lia.
Qed.

(** ** The revision identifies the content *)

(** What gateway [gid] is told about session [sid]. *)
Definition held (gid sid : string) (t : gdb) : option (AssignmentRecord * SessionRecord) :=
  a ← g_assignments t !! sid;
  s ← g_sessions t !! sid;
  if bool_decide (ga_GatewayID a = gid) then Some (a, s) else None.

Inductive assignment_op :=
  | OpReassign (sessionID newGatewayID : string)
  | OpUpdateConfig (sessionID : string) (autoRead presenceTyping : bool) (ratePerMin ratePerHour : Z)
  | OpUpdateHistory (sessionID : string) (days : Z)
  | OpSetDesired (sessionID : string) (run : bool)
  | OpAssign (sessionID gatewayID : string)
  | OpUnassign (sessionID : string)
  | OpCreateSession (sessionID : string) (s : SessionRecord)
  | OpDeleteSession (sessionID : string).

Definition run_assignment (o : assignment_op) (at_ : Z) : M (shared gdb) unit :=
  match o with
  | OpReassign sid gid => Reassign sid gid at_;; mret tt
  | OpUpdateConfig sid ar pt rm rh => UpdateConfig sid ar pt rm rh at_
  | OpUpdateHistory sid days => UpdateHistorySyncDays sid days at_
  | OpSetDesired sid run => SetSessionDesired sid run at_
  | OpAssign sid gid => Assign sid gid at_;; mret tt
  | OpUnassign sid => Unassign sid at_
  | OpCreateSession sid s => CreateSession sid s at_
  | OpDeleteSession sid => DeleteSession sid at_
  end.

(** A transaction that touched what the gateways [ids] hold advanced them. *)
Definition advances (ids : list string) (t t' : gdb) : Prop :=
  (forall gid, gid ∉ ids -> forall sid, held gid sid t' = held gid sid t) /\
  (forall gid g, gid ∈ ids -> live_gateway gid t g -> exists g', g_gateways t' !! gid = Some g' /\
     gi_DesiredRevision (gw_intent g') = gi_DesiredRevision (gw_intent g) + 1).

Lemma advances_one gid at_ t t1 n t' :
  g_gateways t1 = g_gateways t ->
  (forall gid' sid', gid' <> gid -> held gid' sid' t1 = held gid' sid' t) ->
  advance_gateways [gid] at_ t1 = (inr n, t') -> advances [gid] t t'.
Proof.
  intros Hg Hheld Hadv. unfold advances, live_gateway in *.
  assert (Hother : forall gid' sid', held gid' sid' t' = held gid' sid' t1).
  { by apply advance_one_returns in Hadv as [(_ & -> & _)|(_ & g & _ & _ & ->)]. }
  split.
  - intros gid' Hgid' sid'. rewrite Hother. apply Hheld. set_solver.
  - intros gid' g ->%list_elem_of_singleton [Hlook Hl].
    apply advance_one_returns in Hadv as [(_ & _ & Hno)|(_ & g1 & [Hg1 _] & _ & ->)].
    + exfalso. apply (Hno g). unfold live_gateway. by rewrite Hg.
    + rewrite Hg, Hlook in Hg1. injection Hg1 as <-. exists (advanced at_ g). cbn. by rewrite lookup_insert_eq.
Qed.

Lemma held_alter gid sid f t sid' a :
  g_assignments t !! sid = Some a -> gid <> ga_GatewayID a ->
  held gid sid' (with_sessions (alter f sid (g_sessions t)) t) = held gid sid' t.
Proof.
  intros Ha Hne. unfold held. cbn. destruct (decide (sid' = sid)) as [->|Hs].
  - rewrite Ha, lookup_alter_eq. cbn. destruct (g_sessions t !! sid); cbn; [|done].
    by rewrite !bool_decide_eq_false_2.
  - by rewrite lookup_alter_ne.
Qed.

(** What each transaction that returned had done when it advanced the gateways
    concerned; [t] are the tables it started from. *)
Lemma update_assigned_effect b l u a sid f at_ w r w' :
  update_assigned b l u a sid f at_ w = (r, w') ->
  let t := rows (others_step w).1 in
  match r with
  | inl _ => sh_rows w' = t
  | inr _ => exists asg n, g_assignments t !! sid = Some asg /\
      advance_gateways [ga_GatewayID asg] at_ (with_sessions (alter f sid (g_sessions t)) t) = (inr n, sh_rows w')
  end.
Proof.
  intros Hrun t. pose proof (in_tx_cases _ _ _ _ _ Hrun) as Hcases. destruct r as [e|[]]; [done|].
  destruct Hcases as (d & d' & Hbody & Hd & <-). fold t in Hd.
  apply bind_returns in Hbody as (asg & d1 & Hl & Hbody). apply lock_assignment_returns in Hl as [Ha Hd1].
  apply bind_returns in Hbody as (n & d2 & Hs & Hbody). apply map_err_returns, exec_returns in Hs as [_ Hd2].
  rewrite update_session_eq, Hd1, Hd in Hd2. rewrite Hd in Ha.
  apply bind_returns in Hbody as (k & d3 & Hadv & Hc). apply map_err_returns, stmt_returns in Hadv.
  apply query_returns in Hc as [_ ->]. rewrite Hd2 in Hadv. eauto.
Qed.

Lemma query_row_rows {A} (f : gdb -> option A) d r d' : query_row f d = (r, d') -> rows d' = rows d.
Proof.
  unfold query_row, stmt. destruct (head (faults d)) as [[e|]|]; [by intros [= _ <-]|..];
    destruct (f (rows d)); by intros [= _ <-].
Qed.

Definition fresh_assignment (gid : string) (at_ : Z) : AssignmentRecord := MkAssignmentRecord gid 1 at_ at_.

Lemma assignSession_effect sid gid at_ d n d' :
  assignSession sid gid at_ d = (inr n, d') ->
  rows d' = rows d \/
  exists k, g_assignments (rows d) !! sid = None /\ is_Some (g_sessions (rows d) !! sid) /\
    advance_gateways [gid] at_
      (with_assignments (<[sid := fresh_assignment gid at_]> (g_assignments (rows d))) (rows d)) = (inr k, rows d').
Proof.
  unfold assignSession. intros (found & d3 & Hq & Hassign)%bind_returns.
  unfold attempt in Hq. destruct (query_row _ d) as [r0 d0] eqn:Hq0. injection Hq as -> ->.
  pose proof (query_row_rows _ _ _ _ Hq0) as Hd3. destruct found as [err|a]; [|injection Hassign as _ <-; by left].
  destruct (negb _); [discriminate|]. right.
  apply bind_returns in Hassign as ([] & d4 & He & Hassign). apply require_eligible_returns in He as [Hd4 _].
  apply bind_returns in Hassign as (k & d5 & Hi & Hassign). apply map_err_returns, stmt_returns in Hi.
  apply bind_returns in Hassign as ([] & d6 & Hc & Hassign). apply require_count_returns in Hc as [_ ->].
  apply bind_returns in Hassign as (m & d7 & Hadv & [= <- <-]). apply map_err_returns, stmt_returns in Hadv.
  rewrite Hd4, Hd3 in Hi. unfold insert_assignment in Hi.
  destruct (g_assignments (rows d) !! sid) as [|] eqn:Ha; [discriminate|].
  destruct (g_sessions (rows d) !! sid) eqn:Hs; [|discriminate]. destruct (g_gateways (rows d) !! gid); [|discriminate].
  injection Hi as _ Hd5. rewrite <- Hd5 in Hadv. eauto.
Qed.

Lemma assign_effect sid gid at_ w r w' :
  Assign sid gid at_ w = (r, w') ->
  let t := rows (others_step w).1 in
  sh_rows w' = t \/
  exists k, g_assignments t !! sid = None /\ is_Some (g_sessions t !! sid) /\
    advance_gateways [gid] at_ (with_assignments (<[sid := fresh_assignment gid at_]> (g_assignments t)) t)
      = (inr k, sh_rows w').
Proof.
  intros Hrun t. pose proof (in_tx_cases _ _ _ _ _ Hrun) as Hcases. destruct r as [e|epoch]; [by left|].
  destruct Hcases as (d & d' & Hbody & Hd & <-). fold t in Hd. rewrite <- Hd.
  apply bind_returns in Hbody as (n & d1 & Hassign & Hbody).
  apply bind_returns in Hbody as ([] & d2 & Hc & [= <- <-]). apply query_returns in Hc as [_ ->].
  by apply assignSession_effect in Hassign.
Qed.

Lemma create_effect sid s at_ w r w' :
  CreateSession sid s at_ w = (r, w') ->
  let t := rows (others_step w).1 in
  let t1 := with_sessions (<[sid := s]> (g_sessions t)) t in
  match r with
  | inl _ => sh_rows w' = t
  | inr _ => g_sessions t !! sid = None /\
      (forall j sid' s', ss_WAJID s = Some j -> g_sessions t !! sid' = Some s' -> ss_WAJID s' <> Some j) /\
      (sh_rows w' = t1 \/
       exists k, g_assignments t !! sid = None /\ advance_gateways [ss_GatewayID s] at_
         (with_assignments (<[sid := fresh_assignment (ss_GatewayID s) at_]> (g_assignments t)) t1)
           = (inr k, sh_rows w'))
  end.
Proof.
  intros Hrun t. pose proof (in_tx_cases _ _ _ _ _ Hrun) as Hcases. destruct r as [e|[]]; [done|].
  destruct Hcases as (d & d' & Hbody & Hd & <-). fold t in Hd.
  apply bind_returns in Hbody as ([] & d1 & Hi & Hbody). apply map_err_returns, stmt_returns in Hi.
  rewrite Hd in Hi. unfold insert_session in Hi. destruct (_ || _) eqn:Hdup; [discriminate|]. injection Hi as Hd1.
  apply orb_false_iff in Hdup as [Hfresh Hjid]. apply bool_decide_eq_false, eq_None_not_Some in Hfresh.
  split; [done|]. split.
  - intros j sid' s' Hj Hs' Hj'. rewrite Hj in Hjid. cbn in Hjid.
    assert (Hex : existsb (fun p : string * SessionRecord => bool_decide (ss_WAJID p.2 = Some j))
                    (map_to_list (g_sessions t)) = true); [|congruence].
    apply existsb_exists. exists (sid', s'). split; [|by apply bool_decide_eq_true_2].
    by apply list_elem_of_In, elem_of_map_to_list.
  - apply bind_returns in Hbody as (n & d2 & Hassign & Hc). apply query_returns in Hc as [_ ->].
    apply assignSession_effect in Hassign. rewrite <- Hd1 in Hassign.
    destruct Hassign as [->|(k & Ha & _ & Hadv)]; [by left|right; eauto].
Qed.

Lemma delete_effect sid at_ w r w' :
  DeleteSession sid at_ w = (r, w') ->
  let t := rows (others_step w).1 in
  match r with
  | inl _ => sh_rows w' = t
  | inr _ => exists s n, g_sessions t !! sid = Some s /\
      advance_gateways [ss_GatewayID s] at_ (delete_session sid (delete_session_events sid t).2).2 = (inr n, sh_rows w')
  end.
Proof.
  intros Hrun t. pose proof (in_tx_cases _ _ _ _ _ Hrun) as Hcases. destruct r as [e|[]]; [done|].
  destruct Hcases as (d & d' & Hbody & Hd & <-). fold t in Hd.
  apply bind_returns in Hbody as (gid & d1 & Hq & Hbody). apply map_err_returns, query_row_returns in Hq as [Hg Hd1].
  rewrite Hd in Hg, Hd1. destruct (g_sessions t !! sid) as [s|] eqn:Hs; [|discriminate]. injection Hg as <-.
  apply bind_returns in Hbody as ([] & d2 & He & Hbody). apply map_err_returns, exec_returns in He as [_ Hd2].
  apply bind_returns in Hbody as (n & d3 & Hdel & Hbody). apply map_err_returns, exec_returns in Hdel as [-> Hd3].
  apply bind_returns in Hbody as ([] & d4 & Hn & Hbody).
  assert (d4 = d3) as -> by (destruct (_ =? 0); [discriminate|by injection Hn]).
  apply bind_returns in Hbody as (k & d5 & Hadv & Hc). apply map_err_returns, stmt_returns in Hadv.
  apply query_returns in Hc as [_ ->]. rewrite Hd3, Hd2, Hd1 in Hadv. eauto.
Qed.

Lemma unassign_effect sid at_ w r w' :
  Unassign sid at_ w = (r, w') ->
  let t := rows (others_step w).1 in
  sh_rows w' = t \/
  exists a n, g_assignments t !! sid = Some a /\
    advance_gateways [ga_GatewayID a] at_ (with_assignments (delete sid (g_assignments t)) t) = (inr n, sh_rows w').
Proof.
  intros Hrun t. pose proof (in_tx_cases _ _ _ _ _ Hrun) as Hcases. destruct r as [e|[]]; [by left|].
  destruct Hcases as (d & d' & Hbody & Hd & <-). fold t in Hd.
  apply bind_returns in Hbody as (found & d1 & Hq & Hbody).
  unfold attempt in Hq. destruct (query_row _ d) as [r0 d0] eqn:Hq0. injection Hq as -> ->.
  destruct found as [err|a].
  - left. destruct (errors_is ErrNoRows err); [|discriminate]. apply query_returns in Hbody as [_ ->].
    rewrite <- Hd. by eapply query_row_rows.
  - right. exists a. apply query_row_returns in Hq0 as [Ha Hd1]. rewrite Hd in Ha, Hd1.
    apply bind_returns in Hbody as (n & d2 & Hdel & Hbody). apply map_err_returns, exec_returns in Hdel as [_ Hd2].
    apply bind_returns in Hbody as ([] & d3 & Hc & Hbody). apply require_count_returns in Hc as [_ ->].
    apply bind_returns in Hbody as (k & d4 & Hadv & Hc). apply map_err_returns, stmt_returns in Hadv.
    apply query_returns in Hc as [_ ->]. unfold delete_assignment in Hd2. rewrite Hd1, Ha in Hd2. cbn in Hd2.
    rewrite Hd2 in Hadv. eauto.
Qed.

Lemma update_assigned_advances b l u a sid f at_ w r w' :
  update_assigned b l u a sid f at_ w = (r, w') ->
  sh_rows w' = rows (others_step w).1 \/ exists ids, advances ids (rows (others_step w).1) (sh_rows w').
Proof.
  intros Heff%update_assigned_effect. cbn zeta in Heff. destruct r as [e|[]]; [by left|right].
  destruct Heff as (asg & n & Ha & Hadv). exists [ga_GatewayID asg].
  eapply advances_one; [..|exact Hadv]; [done|]. intros gid' sid' Hne. by eapply held_alter.
Qed.

Lemma held_insert_ne gid sid' sid new t :
  ga_GatewayID new <> gid -> (forall a, g_assignments t !! sid = Some a -> ga_GatewayID a <> gid) ->
  held gid sid' (with_assignments (<[sid := new]> (g_assignments t)) t) = held gid sid' t.
Proof.
  intros Hnew Hold. unfold held. cbn. destruct (decide (sid' = sid)) as [->|Hne].
  - rewrite lookup_insert_eq. cbn. destruct (g_sessions t !! sid); cbn.
    + rewrite bool_decide_eq_false_2 by done. destruct (g_assignments t !! sid) as [a|]; [cbn|done].
      by rewrite bool_decide_eq_false_2 by auto.
    + by destruct (g_assignments t !! sid).
  - by rewrite lookup_insert_ne.
Qed.

Lemma held_moved gid' sid' sid gid a gold gnew at_ t :
  g_assignments t !! sid = Some a -> gid' <> gid -> gid' <> ga_GatewayID a ->
  held gid' sid' (moved sid gid a gold gnew at_ t) = held gid' sid' t.
Proof.
  intros Ha Hg Hne. set (t1 := with_sessions (alter (set_session_gateway gid at_) sid (g_sessions t)) t).
  transitivity (held gid' sid' t1); [|by eapply held_alter].
  apply (held_insert_ne gid' sid' sid (MkAssignmentRecord gid (ga_AssignmentEpoch a + 1) (ga_CreatedAt a) at_) t1).
  - by apply not_eq_sym.
  - cbn. intros a'. rewrite Ha. intros [= <-]. by apply not_eq_sym.
Qed.

Lemma reassign_advances sid gid at_ w r w' :
  Reassign sid gid at_ w = (r, w') ->
  sh_rows w' = rows (others_step w).1 \/ exists ids, advances ids (rows (others_step w).1) (sh_rows w').
Proof.
  intros Hrun. pose proof (reassign_cases _ _ _ _ _ _ Hrun) as Hcases. cbn zeta in Hcases.
  destruct r as [e|epoch]; [by left|].
  destruct Hcases as (a & Ha & [(_ & _ & Hsame)|(Hne & _ & _ & gold & gnew & [Hgo _] & [Hgn _] & _ & ->)]); [by left|].
  right. exists [ga_GatewayID a; gid]. split.
  - intros gid' Hni sid'. eapply held_moved; [exact Ha|set_solver..].
  - intros gid' g Hin [Hg _]. cbn. apply elem_of_cons in Hin as [-> | ->%list_elem_of_singleton].
    + rewrite lookup_insert_ne, lookup_insert_eq by done. rewrite Hgo in Hg. injection Hg as <-. by eexists.
    + rewrite lookup_insert_eq. rewrite Hgn in Hg. injection Hg as <-. by eexists.
Qed.

Lemma assigned_advances sid gid at_ t k t' :
  g_assignments t !! sid = None ->
  advance_gateways [gid] at_ (with_assignments (<[sid := fresh_assignment gid at_]> (g_assignments t)) t) = (inr k, t') ->
  advances [gid] t t'.
Proof.
  intros Ha Hadv. eapply advances_one; [..|exact Hadv]; [done|].
  intros gid' sid' Hne. apply held_insert_ne; [cbn; congruence|]. intros a'. by rewrite Ha.
Qed.

Lemma assign_advances sid gid at_ w r w' :
  Assign sid gid at_ w = (r, w') ->
  sh_rows w' = rows (others_step w).1 \/ exists ids, advances ids (rows (others_step w).1) (sh_rows w').
Proof.
  intros [Hsame|(k & Ha & _ & Hadv)]%assign_effect; [by left | right].
  eexists. by eapply assigned_advances.
Qed.

(** Inserting a session that has no assignment tells no gateway anything. *)
Lemma create_advances sid s at_ w r w' :
  CreateSession sid s at_ w = (r, w') ->
  g_assignments (rows (others_step w).1) !! sid = None ->
  sh_rows w' = rows (others_step w).1 \/ exists ids, advances ids (rows (others_step w).1) (sh_rows w').
Proof.
  intros Heff%create_effect Hnone. cbn zeta in Heff. destruct r as [e|[]]; [by left|right].
  destruct Heff as (_ & _ & Heff). set (t := rows (others_step w).1) in *.
  set (t1 := with_sessions (<[sid := s]> (g_sessions t)) t) in *.
  assert (Hheld : forall gid' sid', held gid' sid' t1 = held gid' sid' t).
  { intros gid' sid'. unfold held. cbn. destruct (decide (sid' = sid)) as [->|Hs];
      [by rewrite Hnone | by rewrite lookup_insert_ne]. }
  destruct Heff as [->|(k & Ha & Hadv)].
  - exists []. split; [by intros|]. by intros ? ? ?%not_elem_of_nil.
  - exists [ss_GatewayID s]. apply (assigned_advances _ _ _ t1) in Hadv as [Hkeep Hadv]; [|done]. split.
    + intros gid' Hni sid'. by rewrite Hkeep.
    + intros gid' g Hin Hl. by apply Hadv.
Qed.

(** The pin of an assigned session is its gateway. *)
Definition pinned (t : gdb) : Prop := forall sid a s,
  g_assignments t !! sid = Some a -> g_sessions t !! sid = Some s -> ga_GatewayID a = ss_GatewayID s.

Lemma delete_advances sid at_ w r w' :
  DeleteSession sid at_ w = (r, w') -> pinned (rows (others_step w).1) ->
  sh_rows w' = rows (others_step w).1 \/ exists ids, advances ids (rows (others_step w).1) (sh_rows w').
Proof.
  intros Heff%delete_effect Hpin. cbn zeta in Heff. destruct r as [e|[]]; [by left|right].
  set (t := rows (others_step w).1) in *. destruct Heff as (s & n & Hs & Hadv).
  unfold delete_session in Hadv. cbn in Hadv. rewrite Hs in Hadv. cbn in Hadv. exists [ss_GatewayID s].
  eapply advances_one; [..|exact Hadv]; [done|]. intros gid' sid' Hne. unfold held. cbn.
  destruct (decide (sid' = sid)) as [->|Hs'].
  - rewrite !lookup_delete_eq, Hs. destruct (g_assignments t !! sid) as [a|] eqn:Ha; cbn; [|done].
    rewrite bool_decide_eq_false_2; [done|]. rewrite (Hpin _ _ _ Ha Hs). by apply not_eq_sym.
  - by rewrite !lookup_delete_ne.
Qed.

Lemma unassign_advances sid at_ w r w' :
  Unassign sid at_ w = (r, w') ->
  sh_rows w' = rows (others_step w).1 \/ exists ids, advances ids (rows (others_step w).1) (sh_rows w').
Proof.
  intros [Hsame|(a & n & Ha & Hadv)]%unassign_effect; [by left | right]. set (t := rows (others_step w).1) in *.
  exists [ga_GatewayID a]. eapply advances_one; [..|exact Hadv]; [done|]. intros gid' sid' Hne. unfold held. cbn.
  destruct (decide (sid' = sid)) as [->|Hs].
  - rewrite lookup_delete_eq, Ha. cbn. destruct (g_sessions t !! sid); cbn; [|done].
    by rewrite bool_decide_eq_false_2.
  - by rewrite lookup_delete_ne.
Qed.

(** No session is created under an id that has an assignment: the foreign key. *)
Definition assignments_have_sessions (t : gdb) : Prop :=
  forall sid a, g_assignments t !! sid = Some a -> is_Some (g_sessions t !! sid).

Lemma run_assignment_advances o at_ w r w' :
  run_assignment o at_ w = (r, w') ->
  pinned (rows (others_step w).1) -> assignments_have_sessions (rows (others_step w).1) ->
  w' = w \/ sh_rows w' = rows (others_step w).1 \/ exists ids, advances ids (rows (others_step w).1) (sh_rows w').
Proof.
  assert (Hbind : forall (m : M (shared gdb) Z) w0, (m;; mret tt) w0 = (r, w') -> exists r0, m w0 = (r0, w')).
  { intros m w0. unfold mbind, M_bind. destruct (m w0) as [[e|n] w1]; intros [= _ <-]; eauto. }
  destruct o; cbn [run_assignment]; intros Hrun Hpin Hfk.
  - apply Hbind in Hrun as [r0 Hrun]. right. by eapply reassign_advances.
  - unfold UpdateConfig in Hrun. destruct (_ || _); [injection Hrun as _ <-; by left|].
    right. by eapply update_assigned_advances.
  - unfold UpdateHistorySyncDays in Hrun. destruct (_ || _); [injection Hrun as _ <-; by left|].
    right. by eapply update_assigned_advances.
  - right. by eapply update_assigned_advances.
  - apply Hbind in Hrun as [r0 Hrun]. right. by eapply assign_advances.
  - right. by eapply unassign_advances.
  - right. destruct (g_assignments (rows (others_step w).1) !! sessionID) as [a|] eqn:Ha; [|by eapply create_advances].
    left. pose proof (in_tx_cases _ _ _ _ _ Hrun) as Hcases. destruct r as [e|[]]; [done|].
    destruct Hcases as (d & d' & Hbody & Hd & _). rewrite <- Hd in *. destruct (Hfk _ _ Ha) as [s' Hs'].
    apply bind_returns in Hbody as ([] & d1 & Hi & _). apply map_err_returns, stmt_returns in Hi.
    unfold insert_session in Hi. by rewrite Hs' in Hi.
  - right. by eapply delete_advances.
Qed.

(** The eight assignment and lifecycle transactions advance revisions. Whatever
    assignment or session setting one of them changes, every live gateway whose
    assigned sessions changed has its desired revision advanced by exactly one in
    the same transaction; the others are told nothing new under the revision they
    have. (Pairing and status changes of a session are other transactions, which
    advance no revision.) *)
Theorem assignment_changes_advance_revisions o at_ w r w' gid g
    (Hpin : pinned (rows (others_step w).1)) (Hfk : assignments_have_sessions (rows (others_step w).1))
    (Hrun : run_assignment o at_ w = (r, w')) (Hg : live_gateway gid (rows (others_step w).1) g) :
  w' = w \/ (forall sid, held gid sid (sh_rows w') = held gid sid (rows (others_step w).1)) \/
  exists g', g_gateways (sh_rows w') !! gid = Some g' /\
    gi_DesiredRevision (gw_intent g') = gi_DesiredRevision (gw_intent g) + 1.
Proof.
  destruct (run_assignment_advances _ _ _ _ _ Hrun Hpin Hfk) as [->|[->|(ids & Hkeep & Hadv)]]; [by left|by right; left|].
  right. destruct (decide (gid ∈ ids)) as [Hin|Hni]; [right; by apply Hadv | left; by apply Hkeep].
Qed.

(** ** Well-formed assignments *)

(** What holds of the assignments and sessions between transactions. *)
Record assignments_wf (t : gdb) : Prop := {
  aw_epochs : map_Forall (fun _ a => 0 < ga_AssignmentEpoch a) (g_assignments t);
  aw_sessions : assignments_have_sessions t;
  aw_pinned : pinned t;
  aw_named : map_Forall (fun sid s => sid <> "" /\ ss_OrganizationID s <> "") (g_sessions t);
  aw_devices : forall sid s sid' s' j, g_sessions t !! sid = Some s -> g_sessions t !! sid' = Some s' ->
    ss_WAJID s = Some j -> ss_WAJID s' = Some j -> sid = sid';
}.

Lemma assignments_wf_same t t' :
  g_assignments t' = g_assignments t -> g_sessions t' = g_sessions t -> assignments_wf t -> assignments_wf t'.
Proof.
  intros Ha Hs [H1 H2 H3 H4 H5].
  split; unfold assignments_have_sessions, pinned in *; rewrite ?Ha, ?Hs; assumption.
Qed.

Lemma advance_all_keeps ids at_ t n t' :
  advance_all ids at_ t = inr (n, t') -> g_assignments t' = g_assignments t /\ g_sessions t' = g_sessions t.
Proof.
  revert t n. induction ids as [|id ids IH]; intros t n; cbn [advance_all]; [by intros [= _ <-]|].
  destruct (update_gateway _ _ _ _) as [[err|m] t1] eqn:Hu; [done|].
  destruct (advance_all ids at_ t1) as [|[k t2]] eqn:Hr; [done|]. intros [= _ <-].
  destruct (IH _ _ Hr) as [-> ->]. apply update_gateway_cases in Hu as [[-> _]|(g & g' & _ & _ & _ & _ & _ & ->)]; done.
Qed.

Lemma advance_wf ids at_ t n t' : advance_gateways ids at_ t = (inr n, t') -> assignments_wf t -> assignments_wf t'.
Proof.
  unfold advance_gateways. destruct (advance_all ids at_ t) as [|[m t1]] eqn:Ha; [done|]. intros [= _ <-].
  apply advance_all_keeps in Ha as [? ?]. by apply assignments_wf_same.
Qed.

(** An update of one session's columns that keeps what identifies it. *)
Lemma alter_session_wf sid f t :
  (forall s, ss_OrganizationID (f s) = ss_OrganizationID s /\ ss_WAJID (f s) = ss_WAJID s) ->
  (forall a s, g_assignments t !! sid = Some a -> g_sessions t !! sid = Some s -> ga_GatewayID a = ss_GatewayID (f s)) ->
  (forall sid' a s, sid' <> sid -> g_assignments t !! sid' = Some a -> g_sessions t !! sid' = Some s ->
     ga_GatewayID a = ss_GatewayID s) ->
  map_Forall (fun _ a => 0 < ga_AssignmentEpoch a) (g_assignments t) -> assignments_have_sessions t ->
  map_Forall (fun sid s => sid <> "" /\ ss_OrganizationID s <> "") (g_sessions t) ->
  (forall sid s sid' s' j, g_sessions t !! sid = Some s -> g_sessions t !! sid' = Some s' ->
    ss_WAJID s = Some j -> ss_WAJID s' = Some j -> sid = sid') ->
  assignments_wf (with_sessions (alter f sid (g_sessions t)) t).
Proof.
  intros Hf Hpin Hother H1 H2 H4 H5. split; unfold assignments_have_sessions, pinned in *; cbn; [done| | | |].
  - intros sid' a Ha. apply H2 in Ha as [s Hs]. destruct (decide (sid' = sid)) as [->|Hne].
    + rewrite lookup_alter_eq, Hs. by eexists.
    + rewrite lookup_alter_ne by done. by eexists.
  - intros sid' a s Ha [(-> & s0 & Hs0 & ->)|[Hne Hs]]%lookup_alter_Some; [by apply Hpin | by eapply Hother].
  - intros sid' s [(-> & s0 & Hs0 & ->)|[_ Hs]]%lookup_alter_Some; [|by apply H4].
    destruct (Hf s0) as [-> _]. by apply H4.
  - assert (Hjid : forall sid1 s1, alter f sid (g_sessions t) !! sid1 = Some s1 ->
      exists s0, g_sessions t !! sid1 = Some s0 /\ ss_WAJID s1 = ss_WAJID s0).
    { intros sid1 s1 [(-> & s0 & Hs0 & ->)|[_ Hs]]%lookup_alter_Some; [exists s0; split; [done|apply Hf]|eauto]. }
    intros sid1 s1 sid2 s2 j (s3 & H3 & ->)%Hjid (s6 & H6 & ->)%Hjid. by apply H5.
Qed.

Lemma new_assignment_wf sid gid at_ t :
  assignments_wf t -> (forall s, g_sessions t !! sid = Some s -> gid = ss_GatewayID s) -> is_Some (g_sessions t !! sid) ->
  assignments_wf (with_assignments (<[sid := fresh_assignment gid at_]> (g_assignments t)) t).
Proof.
  intros [H1 H2 H3 H4 H5] Hpin Hsome. split; unfold assignments_have_sessions, pinned in *; cbn; try done.
  - by apply map_Forall_insert_2.
  - intros sid' a [[<- <-]|[_ Ha]]%lookup_insert_Some; [done|by eapply H2].
  - intros sid' a s [[<- <-]|[_ Ha]]%lookup_insert_Some; [apply Hpin|by apply H3].
Qed.

(** A deleted assignment, with or without its session. *)
Lemma remove_wf t t' :
  (forall sid a, g_assignments t' !! sid = Some a -> g_assignments t !! sid = Some a /\ is_Some (g_sessions t' !! sid)) ->
  (forall sid s, g_sessions t' !! sid = Some s -> g_sessions t !! sid = Some s) ->
  assignments_wf t -> assignments_wf t'.
Proof.
  intros Ha Hs [H1 H2 H3 H4 H5]. split; unfold assignments_have_sessions, pinned in *.
  - intros sid a [Ha' _]%Ha. by apply (H1 sid a).
  - by intros sid a [_ ?]%Ha.
  - intros sid a s [Ha' _]%Ha Hs'%Hs. by eapply H3.
  - intros sid s Hs'%Hs. by apply H4.
  - intros sid s sid' s' j Hs1%Hs Hs2%Hs. by apply H5.
Qed.

Lemma new_session_wf sid s t :
  assignments_wf t -> g_sessions t !! sid = None -> sid <> "" -> ss_OrganizationID s <> "" ->
  (forall j sid' s', ss_WAJID s = Some j -> g_sessions t !! sid' = Some s' -> ss_WAJID s' <> Some j) ->
  assignments_wf (with_sessions (<[sid := s]> (g_sessions t)) t).
Proof.
  intros [H1 H2 H3 H4 H5] Hnone Hsid Horg Hjid. split; unfold assignments_have_sessions, pinned in *; cbn; try done.
  - intros sid' a Ha. apply H2 in Ha as [s' Hs']. rewrite lookup_insert_ne by congruence. by eexists.
  - intros sid' a s' Ha Hs'. rewrite lookup_insert_ne in Hs' by (intros <-; apply H2 in Ha as [? ?]; congruence).
    by apply (H3 sid').
  - by apply map_Forall_insert_2.
  - intros sid1 s1 sid2 s2 j [[<- <-]|[_ E1]]%lookup_insert_Some [[<- <-]|[_ E2]]%lookup_insert_Some J1 J2; [done| | |].
    + exfalso. by apply (Hjid j sid2 s2).
    + exfalso. by apply (Hjid j sid1 s1).
    + by eapply H5.
Qed.

(** What the callers of a transaction give it. *)
Definition op_ok (o : assignment_op) (t : gdb) : Prop :=
  match o with
  | OpAssign sid gid => forall s, g_sessions t !! sid = Some s -> gid = ss_GatewayID s
  | OpCreateSession sid s => sid <> "" /\ ss_OrganizationID s <> ""
  | _ => True
  end.

Lemma update_assigned_wf b l u a sid f at_ w r w' :
  (forall s, ss_GatewayID (f s) = ss_GatewayID s /\ ss_OrganizationID (f s) = ss_OrganizationID s /\
     ss_WAJID (f s) = ss_WAJID s) ->
  update_assigned b l u a sid f at_ w = (r, w') -> assignments_wf (rows (others_step w).1) -> assignments_wf (sh_rows w').
Proof.
  intros Hf Heff%update_assigned_effect Hwf. cbn zeta in Heff. destruct r as [e|[]]; [by rewrite Heff|].
  destruct Heff as (asg & n & _ & Hadv). eapply advance_wf; [exact Hadv|]. destruct Hwf as [H1 H2 H3 H4 H5].
  apply alter_session_wf; try done; [intros s; apply Hf| |intros ? ? ? _; apply H3].
  intros a' s Ha Hs. rewrite (proj1 (Hf s)). by eapply H3.
Qed.

Lemma moved_wf sid gid a gold gnew at_ t :
  assignments_wf t -> g_assignments t !! sid = Some a -> assignments_wf (moved sid gid a gold gnew at_ t).
Proof.
  intros [H1 H2 H3 H4 H5] Ha. set (t1 := with_assignments
    (<[sid := MkAssignmentRecord gid (ga_AssignmentEpoch a + 1) (ga_CreatedAt a) at_]> (g_assignments t)) t).
  apply (assignments_wf_same (with_sessions (alter (set_session_gateway gid at_) sid (g_sessions t1)) t1)); [done..|].
  apply alter_session_wf; cbn; try done.
  - intros a' s [[_ <-]|[? _]]%lookup_insert_Some _; done.
  - intros sid' a' s Hne. rewrite lookup_insert_ne by done. apply H3.
  - apply map_Forall_insert_2; [|done]. cbn. specialize (H1 sid a Ha). cbn in H1. lia.
  - intros sid' a' Ha'. unfold t1 in *. cbn in *. apply lookup_insert_Some in Ha' as [[<- _]|[_ Ha']]; by eapply H2.
Qed.

Lemma run_assignment_wf o at_ w r w' :
  run_assignment o at_ w = (r, w') -> op_ok o (rows (others_step w).1) ->
  assignments_wf (rows (others_step w).1) -> w' = w \/ assignments_wf (sh_rows w').
Proof.
  assert (Hbind : forall (m : M (shared gdb) Z) w0, (m;; mret tt) w0 = (r, w') -> exists r0, m w0 = (r0, w')).
  { intros m w0. unfold mbind, M_bind. destruct (m w0) as [[e|n] w1]; intros [= _ <-]; eauto. }
  intros Hrun Hok Hwf. destruct o; cbn [run_assignment op_ok] in *.
  - right. apply Hbind in Hrun as [r0 Hrun]. pose proof (reassign_cases _ _ _ _ _ _ Hrun) as Hc. cbn zeta in Hc.
    destruct r0; [by rewrite Hc|]. destruct Hc as (a & Ha & [(_ & _ & ->)|(_ & _ & _ & go & gn & _ & _ & _ & ->)]);
      [done|by apply moved_wf].
  - unfold UpdateConfig in Hrun. destruct (_ || _); [injection Hrun as _ <-; by left|].
    right. by eapply update_assigned_wf; [..|exact Hrun|].
  - unfold UpdateHistorySyncDays in Hrun. destruct (_ || _); [injection Hrun as _ <-; by left|].
    right. by eapply update_assigned_wf; [..|exact Hrun|].
  - right. by eapply update_assigned_wf; [..|exact Hrun|].
  - right. apply Hbind in Hrun as [r0 Hrun]. apply assign_effect in Hrun as [->|(k & _ & Hs & Hadv)]; [done|].
    eapply advance_wf; [exact Hadv|]. by apply new_assignment_wf.
  - right. apply unassign_effect in Hrun as [->|(a & n & _ & Hadv)]; [done|]. eapply advance_wf; [exact Hadv|].
    eapply remove_wf; [| |exact Hwf]; cbn; [|done]. intros sid a' [Hne Ha]%lookup_delete_Some.
    split; [done|]. by eapply (aw_sessions _ Hwf).
  - right. apply create_effect in Hrun. cbn zeta in Hrun. destruct r as [e|[]]; [by rewrite Hrun|].
    destruct Hrun as (Hnone & Hjid & Heff), Hok as [Hsid Horg].
    assert (Hwf1 : assignments_wf (with_sessions (<[sessionID := s]> (g_sessions (rows (others_step w).1))) (rows (others_step w).1)))
      by by apply new_session_wf.
    destruct Heff as [->|(k & _ & Hadv)]; [done|]. eapply advance_wf; [exact Hadv|].
    apply (new_assignment_wf _ _ _ _ Hwf1); cbn; rewrite lookup_insert_eq; [by intros s' [= <-]|by eexists].
  - right. apply delete_effect in Hrun. cbn zeta in Hrun. destruct r as [e|[]]; [by rewrite Hrun|].
    destruct Hrun as (s & n & Hs & Hadv). eapply advance_wf; [exact Hadv|]. eapply remove_wf; [| |exact Hwf];
      unfold delete_session; cbn; rewrite Hs; cbn.
    + intros sid a [Hne Ha]%lookup_delete_Some. split; [done|]. rewrite lookup_delete_ne by done.
      by eapply (aw_sessions _ Hwf).
    + by intros sid s' [_ ?]%lookup_delete_Some.
Qed.

(** The transactions keep the assignments well-formed: every assignment belongs
    to a session that is pinned to the gateway it is assigned to, epochs are
    positive, sessions are named, and no device is paired twice. [Assign] itself
    does not look at the pin; it keeps it when it is given the pinned gateway,
    and the session a creation stores is one with an id and an organization
    ([op_ok]). *)
Theorem assignments_stay_wellformed o at_ w r w'
    (Hrun : run_assignment o at_ w = (r, w')) (Hok : op_ok o (rows (others_step w).1))
    (Hwf : assignments_wf (sh_rows w)) (Hrely : relies (keeps assignments_wf) w) :
  assignments_wf (sh_rows w').
Proof.
  destruct (relies_step _ _ _ Hrely) as [Hstep _].
  by destruct (run_assignment_wf _ _ _ _ _ Hrun Hok (Hstep Hwf)) as [->|].
Qed.

(** ** Growth *)

Lemma advance_gateways_grows ids at_ : respects (on_rows registry_grows) (stmt (advance_gateways ids at_)).
Proof.
  apply respects_stmt; [apply _|]. intros t. unfold advance_gateways.
  enough (Hall : forall t0 n t', advance_all ids at_ t0 = inr (n, t') -> registry_grows t0 t').
  { destruct (advance_all ids at_ t) as [|[n t']] eqn:Ha; [done|]. by eapply Hall. }
  induction ids as [|id rest IH]; intros t0 n t'; cbn [advance_all]; [by intros [= _ <-]|].
  pose proof (update_gateway_grows id live (advance_revision at_) t0 (raises_advance at_)) as Hg.
  destruct (update_gateway _ _ _ _) as [[err|m] t1]; [done|].
  destruct (advance_all rest at_ t1) as [|[k t2]] eqn:Hr; [done|]. intros [= _ <-].
  etransitivity; [exact Hg | by eapply IH].
Qed.

(** A statement that leaves [gateways] alone. *)
Lemma keeps_gateways_grows {A} (f : gdb -> (goerr + A) * gdb) :
  (forall t, g_gateways (f t).2 = g_gateways t) -> respects (on_rows registry_grows) (stmt f).
Proof. intros Hf. apply respects_stmt; [apply _|]. intros t. by apply registry_grows_same. Qed.

Lemma keeps_gateways_exec_grows {A} (f : gdb -> A * gdb) :
  (forall t, g_gateways (f t).2 = g_gateways t) -> respects (on_rows registry_grows) (exec f).
Proof. intros Hf. apply respects_exec; [apply _|]. intros t. by apply registry_grows_same. Qed.

Lemma update_session_keeps sid f t : g_gateways (update_session sid f t).2 = g_gateways t.
Proof. unfold update_session. by destruct (g_sessions t !! sid). Qed.
Lemma move_assignment_keeps sid gid at_ t : g_gateways (move_assignment sid gid at_ t).2 = g_gateways t.
Proof. unfold move_assignment. destruct (g_assignments t !! sid); [|done]. by destruct (increment _). Qed.
Lemma insert_assignment_keeps sid gid at_ t : g_gateways (insert_assignment sid gid at_ t).2 = g_gateways t.
Proof.
  unfold insert_assignment. destruct (g_assignments t !! sid), (g_sessions t !! sid), (g_gateways t !! gid); done.
Qed.
Lemma insert_session_keeps sid s t : g_gateways (insert_session sid s t).2 = g_gateways t.
Proof. unfold insert_session. by destruct (_ || _). Qed.
Lemma delete_session_keeps sid t : g_gateways (delete_session sid t).2 = g_gateways t.
Proof. unfold delete_session. by destruct (g_sessions t !! sid). Qed.
Lemma delete_session_events_keeps sid t : g_gateways (delete_session_events sid t).2 = g_gateways t.
Proof. done. Qed.
Lemma delete_assignment_keeps sid t : g_gateways (delete_assignment sid t).2 = g_gateways t.
Proof. unfold delete_assignment. by destruct (g_assignments t !! sid). Qed.

#[export] Hint Resolve advance_gateways_grows keeps_gateways_grows keeps_gateways_exec_grows
  update_session_keeps move_assignment_keeps insert_assignment_keeps delete_assignment_keeps
  insert_session_keeps delete_session_keeps delete_session_events_keeps : golib.

Lemma in_tx_grows {A} text (body : M (db gdb) A) :
  respects (on_rows registry_grows) body -> respects (grows_under registry_grows) (in_tx text body).
Proof.
  intros Hb. apply respects_atomically; [apply _|]. apply respects_with_rollback; [apply _|].
  apply respects_bind; [apply _| |intros ?; exact Hb]. apply respects_map_err, respects_begin, _.
Qed.

Lemma run_assignment_grows o at_ : respects (grows_under registry_grows) (run_assignment o at_).
Proof.
  destruct o; cbn [run_assignment];
    repeat (apply respects_bind; [apply _| |intros ?; by apply respects_ret, _]);
    unfold Reassign, UpdateConfig, UpdateHistorySyncDays, SetSessionDesired, update_assigned, Assign,
      assignSession, Unassign, CreateSession, DeleteSession, assignSession;
    try (destruct (_ || _); [apply respects_throw, _|]);
    apply in_tx_grows; unfold lock_assignment, require_eligible, require_count, commit_tx; grows_tac.
Qed.

(** ** Witnesses *)

Definition demo_move := Reassign "s1" "g2" 9 example_handle.
Lemma demo_move_eq : demo_move = (inr 5, demo_move.2).
Proof. by vm_compute. Qed.

Lemma reassign_moves_or_keeps_witness :
  (exists a, g_assignments example_tables !! "s1" = Some a /\ ga_AssignmentEpoch a = 4) /\
 exists a, g_assignments example_tables !! "s1" = Some a /\
     ((ga_GatewayID a = "g2" /\ 5 = ga_AssignmentEpoch a /\ sh_rows demo_move.2 = example_tables) \/
       (ga_GatewayID a <> "g2" /\ 5 = ga_AssignmentEpoch a + 1 /\
       exists gold gnew, live_gateway (ga_GatewayID a) example_tables gold /\
         live_gateway "g2" example_tables gnew /\
         usable gnew = true /\ sh_rows demo_move.2 = moved "s1" "g2" a gold gnew 9 example_tables)).
Proof.
  split; [by eexists|].
  assert (Hpos : map_Forall (fun _ a => 0 < ga_AssignmentEpoch a)
            (g_assignments (rows (others_step example_handle).1))).
  { apply map_Forall_insert_2; [by vm_compute|]. apply map_Forall_empty. }
  exact (reassign_moves_or_keeps "s1" "g2" 9 example_handle _ _ Hpos demo_move_eq).
Defined.

Definition demo_config := run_assignment (OpUpdateConfig "s1" false false 10 50) 9 example_handle.
Lemma demo_config_eq : demo_config = (inr tt, demo_config.2).
Proof. by vm_compute. Qed.

Lemma example_assigned sid a : g_assignments example_tables !! sid = Some a ->
  sid = "s1" /\ a = MkAssignmentRecord "g1" 4 1 1.
Proof. intros Ha. cbn in Ha. apply lookup_singleton_Some in Ha as [<- <-]. done. Qed.

Lemma example_session_of sid s : g_sessions example_tables !! sid = Some s -> sid = "s1" /\ s = example_session "g1".
Proof. intros Hs. cbn in Hs. apply lookup_singleton_Some in Hs as [<- <-]. done. Qed.

Lemma example_wf : assignments_wf example_tables.
Proof.
  split.
  - intros sid a [-> ->]%example_assigned. by vm_compute.
  - intros sid a [-> ->]%example_assigned. vm_compute. by eexists.
  - intros sid a s [-> ->]%example_assigned [_ ->]%example_session_of. done.
  - intros sid s [-> ->]%example_session_of. done.
  - by intros sid s sid' s' j [-> ->]%example_session_of [-> ->]%example_session_of.
Qed.

(** The new settings of s1 are told g1 under revision 6. *)
Lemma assignment_changes_advance_revisions_witness :
  pinned example_tables /\ assignments_have_sessions example_tables /\
 (demo_config.2 = example_handle \/
   (forall sid, held "g1" sid (sh_rows demo_config.2) = held "g1" sid example_tables) \/
   exists g', g_gateways (sh_rows demo_config.2) !! "g1" = Some g' /\ gi_DesiredRevision (gw_intent g') = 6).
Proof.
  pose proof (aw_pinned _ example_wf) as Hpin. pose proof (aw_sessions _ example_wf) as Hfk.
  split; [exact Hpin|]. split; [exact Hfk|].
  exact (assignment_changes_advance_revisions (OpUpdateConfig "s1" false false 10 50) 9 example_handle
    _ _ "g1" (example_gateway GatewayActive 3 5) Hpin Hfk demo_config_eq (conj eq_refl eq_refl)).
Defined.

Definition demo_new : assignment_op :=
  OpCreateSession "s2" (MkSessionRecord "o2" "g2" SessionStopped None true true 1 1 1 9).
Definition demo_create := run_assignment demo_new 9 example_handle.
Lemma demo_create_eq : demo_create = (inr tt, demo_create.2).
Proof. by vm_compute. Qed.

Lemma assignments_stay_wellformed_witness :
  g_assignments (sh_rows demo_create.2) !! "s2" = Some (MkAssignmentRecord "g2" 1 9 9) /\
  assignments_wf (sh_rows demo_create.2).
Proof.
  split; [by vm_compute|].
  assert (Hok : op_ok demo_new (rows (others_step example_handle).1)) by (split; done).
  assert (Hrely : relies (keeps assignments_wf) example_handle) by constructor.
  exact (assignments_stay_wellformed demo_new 9 example_handle (inr tt) demo_create.2 demo_create_eq Hok
    example_wf Hrely).
Defined.
