(* ===== verification/Reconciliation.v ===== *)
(** * Persisting a gateway's reconciliation report

    Models [internal/store/gateway_reconciliation.go]: the transaction that
    checks a complete desired-state report against the assignments of the
    gateway, replaces its stored results, and advances the applied revision.
    [ENUM] columns, the check constraint and the unique keys of
    [gateway_reconciliation_results] are errors of the insert. *)

From S2P Require Import Prelude Journal Domain GatewayTables GatewayStore GatewayAssignment.

#[local] Open Scope Z_scope.

Record GatewayReconciliationResult := MkStoredResult {
  sr_SessionID : option string;
  sr_AssignmentEpoch : Z;
  sr_DeviceJID : string;
  sr_Status : string;
}.

Record GatewayReconciliationReport := MkStoredReport {
  rt_GatewayID : string;
  rt_Epoch : Z;
  rt_Revision : Z;
  rt_KeystoreState : string;
  rt_KeystoreBytes : option Z;
  rt_CheckedAt : option Z;
  rt_Results : list GatewayReconciliationResult;
  rt_LocalDevices : list string;
}.

(** ** The statements *)

(** [SELECT desired_revision FROM gateways WHERE id=? AND connection_epoch=? AND
    deleted_at IS NULL FOR UPDATE]. *)
Definition fenced_revision (id : string) (epoch : Z) (t : gdb) : option Z :=
  r ← g_gateways t !! id;
  if at_epoch epoch r && live r then Some (gi_DesiredRevision (gw_intent r)) else None.

(** The gateway's assignments: device and whether the session is to run. *)
Definition assigned_device (s : SessionRecord) : string * bool := (default "" (ss_WAJID s), desired_run s).
Definition assigned_sessions (gatewayID : string) (t : gdb) : gmap string (string * bool) :=
  merge (fun a s => match a, s with
                    | Some a, Some s => if bool_decide (ga_GatewayID a = gatewayID)
                                        then Some (assigned_device s) else None
                    | _, _ => None
                    end) (g_assignments t) (g_sessions t).

(** [SELECT COUNT] of the reported assignment. *)
Definition count_assignment (gatewayID sessionID : string) (epoch : Z) (device : string) (t : gdb) : Z :=
  match g_assignments t !! sessionID, g_sessions t !! sessionID with
  | Some a, Some s =>
      if bool_decide (ga_GatewayID a = gatewayID) && (ga_AssignmentEpoch a =? epoch) &&
         ((is_none (ss_WAJID s) && bool_decide (device = "")) || bool_decide (ss_WAJID s = Some device))
      then 1 else 0
  | _, _ => 0
  end.

Definition delete_results (gatewayID : string) (t : gdb) : unit * gdb :=
  (tt, with_results (filter (fun r => gl_GatewayID r <> gatewayID) (g_results t)) t).

Definition unexpected_status : string := "unexpected_local_device".
Definition result_statuses : list string :=
  ["applied"; "keystore_missing"; "keystore_corrupt"; unexpected_status].

(** [nullStringFromValue]. *)
Definition null_string (s : string) : option string := if bool_decide (s = "") then None else Some s.

Definition stored_result (rep : GatewayReconciliationReport) (at_ : Z) (r : GatewayReconciliationResult)
  : ReconciliationRecord :=
  MkReconciliationRecord (rt_GatewayID rep) (null_string (sr_DeviceJID r)) (sr_SessionID r)
    (sr_AssignmentEpoch r) (sr_Status r) (rt_Revision rep) at_.

(** [chk_gateway_reconciliation_result_shape] and the unique keys, which ignore
    NULLs. *)
Definition result_shape (r : ReconciliationRecord) : bool :=
  if bool_decide (gl_Status r = unexpected_status)
  then is_none (gl_SessionID r) && (gl_AssignmentEpoch r =? 0)
  else negb (is_none (gl_SessionID r)) && (0 <? gl_AssignmentEpoch r).
Definition results_collide (a b : ReconciliationRecord) : bool :=
  bool_decide (gl_GatewayID a = gl_GatewayID b) &&
  ((negb (is_none (gl_SessionID a)) && bool_decide (gl_SessionID a = gl_SessionID b)) ||
   (negb (is_none (gl_DeviceJID a)) && bool_decide (gl_DeviceJID a = gl_DeviceJID b))).

Definition insert_result (row : ReconciliationRecord) (t : gdb) : (goerr + unit) * gdb :=
  if negb (bool_decide (gl_Status row ∈ result_statuses)) then
    (inl (ErrMsg "Error 1265: Data truncated for column 'status'"), t)
  else if negb (result_shape row) then (inl (ErrMsg "Error 3819: Check constraint is violated"), t)
  else if negb (from_option (fun sid => bool_decide (is_Some (g_sessions t !! sid))) true (gl_SessionID row))
  then (inl (ErrMsg "Error 1452: a foreign key constraint fails"), t)
  else if existsb (results_collide row) (g_results t) then (inl (ErrMsg "Error 1062: Duplicate entry"), t)
  else (inr tt, with_results (g_results t ++ [row]) t).

Definition keystore_states : list string := ["healthy"; "missing"; "corrupt"].

Definition reported_row (rep : GatewayReconciliationReport) (degraded : bool) (at_ : Z) (r : GatewayRecord)
  : GatewayRecord :=
  set_updated at_ (set_intent (MkGatewayIntent (gi_DesiredLifecycle (gw_intent r))
      (gi_DesiredRevision (gw_intent r)) (rt_Revision rep))
    (set_keystore (MkGatewayKeystore (if degraded then "degraded" else "healthy")
      (Some (negb (bool_decide (rt_KeystoreState rep = "missing")))) (rt_KeystoreBytes rep)
      (Some (rt_KeystoreState rep)) (rt_CheckedAt rep)) r)).

Definition update_reported (rep : GatewayReconciliationReport) (degraded : bool) (at_ : Z) (t : gdb)
  : (goerr + Z) * gdb :=
  update_gateway (rt_GatewayID rep)
    (fun r => at_epoch (rt_Epoch rep) r && (gi_DesiredRevision (gw_intent r) =? rt_Revision rep))
    (fun r => if bool_decide (rt_KeystoreState rep ∈ keystore_states) then inr (reported_row rep degraded at_ r)
              else inl (ErrMsg "Error 1265: Data truncated for column 'keystore_integrity'")) t.

(** ** [Persist] *)

(** The loop over the reported inventory. *)
Fixpoint check_inventory (devices : list string) (inventory : gset string) : goerr + gset string :=
  match devices with
  | [] => inr inventory
  | device :: rest =>
      if bool_decide (device = "") || bool_decide (device ∈ inventory)
      then inl (ErrMsg "invalid local inventory")
      else check_inventory rest ({[device]} ∪ inventory)
  end.

(** The maps and the flag of the loop over the results. *)
Record checked := MkChecked {
  ck_seen : gset string;
  ck_classified : gset string;
  ck_degraded : bool;
}.

Definition classify (device : string) (seen : gset string) (degraded : bool) (st : checked) : checked :=
  MkChecked seen (if bool_decide (device = "") then ck_classified st else {[device]} ∪ ck_classified st)
    (ck_degraded st || degraded).

Definition check_result (rep : GatewayReconciliationReport) (assigned : gmap string (string * bool))
  (inventory : gset string) (st : checked) (result : GatewayReconciliationResult) : M (db gdb) checked :=
  let device := sr_DeviceJID result in
  if bool_decide (sr_Status result = unexpected_status) then
    if negb (is_none (sr_SessionID result)) || negb (sr_AssignmentEpoch result =? 0) ||
       bool_decide (device = "") || negb (bool_decide (device ∈ inventory))
    then throw (ErrMsg "unexpected device result has assignment")
    else mret (classify device (ck_seen st) true st)
  else match sr_SessionID result with
  | None => throw (ErrMsg "invalid assigned reconciliation result")
  | Some sid =>
      if (sr_AssignmentEpoch result =? 0) || bool_decide (sid ∈ ck_seen st) then
        throw (ErrMsg "invalid assigned reconciliation result")
      else match assigned !! sid with
      | None => throw (ErrMsg "assigned result device fence")
      | Some (assigned_jid, run) =>
          if negb (bool_decide (assigned_jid = device)) then throw (ErrMsg "assigned result device fence")
          else if bool_decide (sr_Status result = "applied") && run &&
                  (bool_decide (device = "") || negb (bool_decide (device ∈ inventory)))
          then throw (ErrMsg "running applied device absent from inventory")
          else if bool_decide (sr_Status result = "keystore_missing") && negb (bool_decide (device = "")) &&
                  bool_decide (device ∈ inventory)
          then throw (ErrMsg "missing device present in inventory")
          else
            n ← attempt (query (count_assignment (rt_GatewayID rep) sid (sr_AssignmentEpoch result) device));
            match n with
            | inr 1 => mret (classify device ({[sid]} ∪ ck_seen st)
                               (negb (bool_decide (sr_Status result = "applied"))) st)
            | _ => throw (ErrMsg "assigned reconciliation result fence")
            end
      end
  end.

Fixpoint check_results (rep : GatewayReconciliationReport) (assigned : gmap string (string * bool))
  (inventory : gset string) (results : list GatewayReconciliationResult) (st : checked)
  : M (db gdb) checked :=
  match results with
  | [] => mret st
  | result :: rest =>
      st ← check_result rep assigned inventory st result;
      check_results rep assigned inventory rest st
  end.

Definition persist_body (rep : GatewayReconciliationReport) (at_ : Z) : M (db gdb) unit :=
  desired ← map_err (ErrWrap "reconciliation fence")
    (query_row (fenced_revision (rt_GatewayID rep) (rt_Epoch rep)));
  if negb (desired =? rt_Revision rep) then throw (ErrMsg "reconciliation revision fence") else
  assigned ← query (assigned_sessions (rt_GatewayID rep));
  inventory ← lift_result (check_inventory (rt_LocalDevices rep) ∅);
  st ← check_results rep assigned inventory (rt_Results rep)
         (MkChecked ∅ ∅ (negb (bool_decide (rt_KeystoreState rep = "healthy"))));
  if negb (bool_decide (dom assigned ⊆ ck_seen st)) then throw (ErrMsg "missing assignment result") else
  if negb (bool_decide (inventory ⊆ ck_classified st)) then throw (ErrMsg "unclassified inventory device") else
  exec (delete_results (rt_GatewayID rep));;
  for_each (fun r => stmt (insert_result (stored_result rep at_ r))) (rt_Results rep);;
  n ← stmt (update_reported rep (ck_degraded st) at_);
  if negb (n =? 1) then throw (ErrMsg "reconciliation update fence") else
  commit_tx.

Definition Persist (rep : GatewayReconciliationReport) (at_ : Z) : M (shared gdb) unit :=
  atomically (with_rollback (begin_tx;; persist_body rep at_)).

(** ** The reports that are accepted *)

(** The result is true of the tables and of the reported inventory. *)
Definition result_true (t : gdb) (rep : GatewayReconciliationReport) (r : GatewayReconciliationResult) : Prop :=
  if bool_decide (sr_Status r = unexpected_status) then
    sr_SessionID r = None /\ sr_AssignmentEpoch r = 0 /\ sr_DeviceJID r <> "" /\
    sr_DeviceJID r ∈ rt_LocalDevices rep
  else exists sid a s, sr_SessionID r = Some sid /\
    g_assignments t !! sid = Some a /\ g_sessions t !! sid = Some s /\ ga_GatewayID a = rt_GatewayID rep /\
    sr_AssignmentEpoch r = ga_AssignmentEpoch a /\ ga_AssignmentEpoch a <> 0 /\
    sr_DeviceJID r = default "" (ss_WAJID s) /\
    (sr_Status r = "applied" -> desired_run s = true -> sr_DeviceJID r ∈ rt_LocalDevices rep) /\
    (sr_Status r = "keystore_missing" -> sr_DeviceJID r <> "" -> sr_DeviceJID r ∉ rt_LocalDevices rep).

(** One result per assigned session, one per device, every local device
    accounted for, under the revision and the epoch in force. *)
Record report_accepted (t : gdb) (rep : GatewayReconciliationReport) : Prop := {
  ra_fence : fenced_revision (rt_GatewayID rep) (rt_Epoch rep) t = Some (rt_Revision rep);
  ra_inventory : NoDup (rt_LocalDevices rep) /\ "" ∉ rt_LocalDevices rep;
  ra_results : Forall (result_true t rep) (rt_Results rep);
  ra_once : NoDup (omap sr_SessionID (rt_Results rep));
  ra_complete : forall sid a s, g_assignments t !! sid = Some a -> g_sessions t !! sid = Some s ->
    ga_GatewayID a = rt_GatewayID rep -> sid ∈ omap sr_SessionID (rt_Results rep);
  ra_classified : forall device, device ∈ rt_LocalDevices rep -> device ∈ sr_DeviceJID <$> rt_Results rep;
  ra_devices : NoDup (omap (fun r => null_string (sr_DeviceJID r)) (rt_Results rep));
  ra_enums : rt_KeystoreState rep ∈ keystore_states /\
    Forall (fun r => sr_Status r ∈ result_statuses) (rt_Results rep);
}.

Definition report_degraded (rep : GatewayReconciliationReport) : bool :=
  negb (bool_decide (rt_KeystoreState rep = "healthy")) ||
  existsb (fun r => negb (bool_decide (sr_Status r = "applied"))) (rt_Results rep).

(** The tables after the report of the gateway with row [g]. *)
Definition persisted (rep : GatewayReconciliationReport) (at_ : Z) (g : GatewayRecord) (t : gdb) : gdb :=
  with_gateways (<[rt_GatewayID rep := reported_row rep (report_degraded rep) at_ g]> (g_gateways t))
    (with_results (filter (fun r => gl_GatewayID r <> rt_GatewayID rep) (g_results t) ++
                   (stored_result rep at_ <$> rt_Results rep)) t).

(** ** The loops *)

Lemma check_inventory_spec devices inv inv' :
  check_inventory devices inv = inr inv' <->
  NoDup devices /\ ("" ∉ devices) /\ (forall d, d ∈ devices -> d ∉ inv) /\ inv' = (list_to_set devices ∪ inv).
Proof.
  revert inv. induction devices as [|d devices IH]; intros inv; cbn [check_inventory].
  - split.
    + intros [= <-]. split; [constructor|]. split; [by apply not_elem_of_nil|]. split; [by intros ? ?%elem_of_nil|set_solver].
    + intros (_ & _ & _ & ->). f_equal. set_solver.
  - destruct (bool_decide (d = "") || bool_decide (d ∈ inv)) eqn:Hb.
    + split; [done|]. intros (_ & Hne & Hni & _). apply orb_true_iff in Hb as [Hb|Hb]; to_prop.
      * subst. set_solver.
      * exfalso. by apply (Hni d); [left|].
    + to_prop. rewrite IH, NoDup_cons, list_to_set_cons. split.
      * intros (Hnd & Hne & Hni & ->). split; [|split; [set_solver|split; set_solver]].
        split; [|done]. intros Hin. apply (Hni d Hin). set_solver.
      * intros ([Hd Hnd] & Hne & Hni & ->). split; [done|]. split; [set_solver|]. split; set_solver.
Qed.

Lemma assigned_sessions_lookup gw t sid :
  assigned_sessions gw t !! sid =
    match g_assignments t !! sid, g_sessions t !! sid with
    | Some a, Some s => if bool_decide (ga_GatewayID a = gw) then Some (assigned_device s) else None
    | _, _ => None
    end.
Proof. unfold assigned_sessions. rewrite lookup_merge. by destruct (g_assignments t !! sid), (g_sessions t !! sid). Qed.

(** What passing a result adds. *)
Definition session_set (r : GatewayReconciliationResult) : gset string :=
  match sr_SessionID r with Some sid => {[sid]} | None => ∅ end.
Definition pass (st : checked) (r : GatewayReconciliationResult) : checked :=
  classify (sr_DeviceJID r) (session_set r ∪ ck_seen st) (negb (bool_decide (sr_Status r = "applied"))) st.

Section Check.
Variables (t : gdb) (rep : GatewayReconciliationReport).
Abbreviation inventory := (list_to_set (rt_LocalDevices rep) : gset string).
Abbreviation assigned := (assigned_sessions (rt_GatewayID rep) t).

Lemma count_assignment_one sid a s epoch device :
  g_assignments t !! sid = Some a -> g_sessions t !! sid = Some s -> ga_GatewayID a = rt_GatewayID rep ->
  device = default "" (ss_WAJID s) ->
  count_assignment (rt_GatewayID rep) sid epoch device t = if ga_AssignmentEpoch a =? epoch then 1 else 0.
Proof.
  intros Ha Hs Hg ->. unfold count_assignment. rewrite Ha, Hs, bool_decide_eq_true_2 by done. cbn.
  destruct (ga_AssignmentEpoch a =? epoch); [cbn|done]. destruct (ss_WAJID s) as [jid|]; cbn.
  - by rewrite bool_decide_eq_true_2.
  - by rewrite orb_true_l.
Qed.

(** The reported run condition: a session that runs has a device. *)
Lemma desired_run_device s : desired_run s = true -> default "" (ss_WAJID s) <> "".
Proof.
  unfold desired_run. intros [Hj _]%andb_true_iff. destruct (ss_WAJID s); cbn in *; [|done]. by to_prop.
Qed.

Lemma check_result_returns st r d st' d' :
  rows d = t -> check_result rep assigned inventory st r d = (inr st', d') ->
  rows d' = t /\ result_true t rep r /\ session_set r ## ck_seen st /\ st' = pass st r.
Proof.
  intros Hd. unfold check_result, result_true, pass, session_set.
  destruct (bool_decide (sr_Status r = unexpected_status)) eqn:Hst.
  - destruct (_ || _) eqn:Hb; [discriminate|]. intros [= <- <-]. to_prop. split; [done|].
    destruct (sr_SessionID r); [done|]. split; [|split; [set_solver|]].
    + repeat split; try done. set_solver.
    + rewrite Hst, union_empty_l_L. done.
  - destruct (sr_SessionID r) as [sid|] eqn:Hsid; [|discriminate].
    destruct (_ || _) eqn:Hb; [discriminate|]. to_prop. rewrite assigned_sessions_lookup.
    destruct (g_assignments t !! sid) as [a|] eqn:Ha; [|discriminate].
    destruct (g_sessions t !! sid) as [s|] eqn:Hs; [|discriminate].
    destruct (bool_decide (ga_GatewayID a = _)) eqn:Hg; [|discriminate]. cbn [assigned_device]. to_prop.
    destruct (negb (bool_decide (_ = sr_DeviceJID r))) eqn:Hdev; [discriminate|].
    destruct (bool_decide (sr_Status r = "applied") && _ && _) eqn:Happ; [discriminate|].
    destruct (bool_decide (sr_Status r = "keystore_missing") && _ && _) eqn:Hmiss; [discriminate|]. to_prop.
    intros (n & d1 & Hq & Hrun)%bind_returns. unfold attempt in Hq. destruct (query _ d) as [r0 d0] eqn:Hq0.
    injection Hq as -> ->. destruct n as [err|n]; [discriminate|]. apply query_returns in Hq0 as [-> Hd1].
    rewrite Hd, (count_assignment_one sid a s) in Hrun by done.
    destruct (ga_AssignmentEpoch a =? sr_AssignmentEpoch r) eqn:He; [|discriminate]. injection Hrun as <- <-. to_prop.
    split; [congruence|]. split; [|split; [set_solver|congruence]]. exists sid, a, s. repeat split; try done; try congruence.
    + intros Hap Hrun. rewrite Hap, Hrun in Happ. cbn in Happ.
      apply orb_false_iff in Happ as [_ Happ]. to_prop. set_solver.
    + intros Hap Hne Hin. apply not_true_iff_false in Hmiss. apply Hmiss.
      rewrite !andb_true_iff, negb_true_iff, bool_decide_eq_false, !bool_decide_eq_true. set_solver.
Qed.

Lemma check_result_run st r :
  result_true t rep r -> session_set r ## ck_seen st ->
  check_result rep assigned inventory st r (Db t []) = (inr (pass st r), Db t []).
Proof.
  unfold check_result, result_true, pass, session_set. intros Ht Hfresh.
  destruct (bool_decide (sr_Status r = unexpected_status)) eqn:Hst.
  - destruct Ht as (-> & -> & Hne & Hin). to_prop. cbn.
    rewrite (bool_decide_eq_false_2 (sr_DeviceJID r = "")), bool_decide_eq_true_2 by (done || set_solver).
    cbn. rewrite Hst, union_empty_l_L. done.
  - destruct Ht as (sid & a & s & Hsid & Ha & Hs & Hg & He & Hpos & Hdev & Happ & Hmiss). rewrite Hsid in *.
    rewrite (proj2 (Z.eqb_neq _ _)) by congruence. rewrite bool_decide_eq_false_2 by set_solver. cbn [orb].
    rewrite assigned_sessions_lookup, Ha, Hs, bool_decide_eq_true_2 by done. cbn [assigned_device].
    rewrite bool_decide_eq_true_2 by done. cbn [negb].
    destruct (bool_decide (sr_Status r = "applied") && desired_run s && _) eqn:H1.
    { exfalso. apply andb_true_iff in H1 as [H1 H3]. apply andb_true_iff in H1 as [H1 H2]. to_prop.
      specialize (Happ H1 H2). apply orb_true_iff in H3 as [H3|H3]; to_prop.
      - rewrite Hdev in H3. by apply (desired_run_device s).
      - apply H3. set_solver. }
    destruct (bool_decide (sr_Status r = "keystore_missing") && _ && _) eqn:H2.
    { exfalso. to_prop. apply (Hmiss ltac:(done) ltac:(done)). set_solver. }
    run_db. cbn. rewrite (count_assignment_one sid a s) by done. by rewrite He, Z.eqb_refl.
Qed.

Lemma check_results_returns results st d st' d' :
  rows d = t -> check_results rep assigned inventory results st d = (inr st', d') ->
  rows d' = t /\ Forall (result_true t rep) results /\ NoDup (omap sr_SessionID results) /\
  (forall sid, sid ∈ omap sr_SessionID results -> sid ∉ ck_seen st) /\ st' = foldl pass st results.
Proof.
  revert st d. induction results as [|r results IH]; intros st d Hd; cbn [check_results].
  - intros [= <- <-]. repeat split; try constructor; try done. by intros ? ?%elem_of_nil.
  - intros (st1 & d1 & Hr & Hrest)%bind_returns.
    destruct (check_result_returns _ _ _ _ _ Hd Hr) as (Hd1 & Ht & Hfresh & ->).
    destruct (IH _ _ Hd1 Hrest) as (Hd' & HF & Hnd & Hni & ->). split; [done|]. split; [by constructor|].
    unfold session_set in *. cbn [ck_seen pass classify] in Hni. cbn [foldl].
    destruct (sr_SessionID r) as [sid|] eqn:Hs; rewrite omap_cons, Hs.
    + split; [apply NoDup_cons; split; [|done]|].
      * intros Hin. specialize (Hni _ Hin). set_solver.
      * split; [|done]. intros sid' [-> | Hin]%elem_of_cons; [set_solver|]. specialize (Hni _ Hin). set_solver.
    + split; [done|]. split; [|done]. intros sid' Hin. specialize (Hni _ Hin). set_solver.
Qed.

Lemma check_results_run results st :
  Forall (result_true t rep) results -> NoDup (omap sr_SessionID results) ->
  (forall sid, sid ∈ omap sr_SessionID results -> sid ∉ ck_seen st) ->
  check_results rep assigned inventory results st (Db t []) = (inr (foldl pass st results), Db t []).
Proof.
  revert st. induction results as [|r results IH]; intros st HF Hnd Hni; [done|].
  apply Forall_cons in HF as [Hr HF]. cbn [check_results foldl].
  assert (Hfresh : session_set r ## ck_seen st).
  { unfold session_set. destruct (sr_SessionID r) as [sid|] eqn:Hs; [|set_solver].
    rewrite omap_cons, Hs in Hni. specialize (Hni sid ltac:(by left)). set_solver. }
  unfold mbind, M_bind. rewrite (check_result_run st r Hr Hfresh). apply IH; [done|..];
    destruct (sr_SessionID r) as [sid|] eqn:Hs;
    rewrite omap_cons, Hs in *.
  - by apply NoDup_cons in Hnd as [_ Hnd].
  - done.
  - apply NoDup_cons in Hnd as [Hsid _]. intros sid' Hin. cbn. unfold session_set. rewrite Hs.
    specialize (Hni sid' ltac:(by right)). set_solver.
  - intros sid' Hin. cbn. unfold session_set. rewrite Hs. specialize (Hni sid' Hin). set_solver.
Qed.
End Check.

Lemma pass_all results st :
  ck_seen (foldl pass st results) = list_to_set (omap sr_SessionID results) ∪ ck_seen st /\
  (forall d, d ∈ ck_classified (foldl pass st results) <->
     d ∈ ck_classified st \/ (d <> "" /\ d ∈ sr_DeviceJID <$> results)) /\
  ck_degraded (foldl pass st results) =
    ck_degraded st || existsb (fun r => negb (bool_decide (sr_Status r = "applied"))) results.
Proof.
  revert st. induction results as [|r results IH]; intros st; cbn [foldl].
  - split; [cbn; by rewrite union_empty_l_L|]. split; [set_solver|]. cbn. by rewrite orb_false_r.
  - destruct (IH (pass st r)) as (Hseen & Hcl & Hdeg). split; [|split].
    + rewrite Hseen. unfold pass, classify, session_set. cbn [ck_seen].
      destruct (sr_SessionID r) as [sid|] eqn:Hs;
        rewrite omap_cons, Hs, ?list_to_set_cons; set_solver.
    + intros d. rewrite Hcl. unfold pass, classify. cbn [ck_classified]. rewrite fmap_cons, elem_of_cons.
      case_bool_decide as Hd; set_solver.
    + rewrite Hdeg. unfold pass, classify. cbn [ck_degraded existsb]. by rewrite <- orb_assoc.
Qed.

(** ** Storing the results *)

Section Insert.
Variables (rep : GatewayReconciliationReport) (at_ : Z).
Abbreviation row := (stored_result rep at_).

(** Every row is admissible and meets no earlier one. *)
Fixpoint storable (sessions : gmap string SessionRecord) (before : list ReconciliationRecord) (rs : list GatewayReconciliationResult) : Prop :=
  match rs with
  | [] => True
  | r :: rest => sr_Status r ∈ result_statuses /\ result_shape (row r) = true /\
      (forall sid, sr_SessionID r = Some sid -> is_Some (sessions !! sid)) /\
      existsb (results_collide (row r)) before = false /\ storable sessions (before ++ [row r]) rest
  end.

Lemma insert_result_inr r t u t' :
  insert_result (row r) t = (inr u, t') <->
  sr_Status r ∈ result_statuses /\ result_shape (row r) = true /\
  (forall sid, sr_SessionID r = Some sid -> is_Some (g_sessions t !! sid)) /\
  existsb (results_collide (row r)) (g_results t) = false /\ t' = with_results (g_results t ++ [row r]) t.
Proof.
  unfold insert_result. cbn [stored_result gl_Status gl_SessionID].
  destruct (bool_decide (sr_Status r ∈ result_statuses)) eqn:H1; cbn [negb]; to_prop;
    [|split; [done|tauto]].
  destruct (result_shape _) eqn:H2; cbn [negb]; [|split; [done|by intros (_ & [=] & _)]].
  destruct (from_option _ _ _) eqn:H3; cbn [negb].
  - destruct (existsb _ _) eqn:H4; [split; [done|by intros (_ & _ & _ & [=] & _)]|].
    split; [intros [= <-]|intros (_ & _ & _ & _ & ->); by destruct u]. repeat split; try done.
    intros sid Hs. rewrite Hs in H3. cbn in H3. by to_prop.
  - split; [done|]. intros (_ & _ & Hfk & _). destruct (sr_SessionID r) as [sid|]; [|done]. cbn in H3.
    to_prop. exfalso. by apply H3, Hfk.
Qed.

Lemma insert_all_returns rs d u d' :
  for_each (fun r => stmt (insert_result (row r))) rs d = (inr u, d') ->
  storable (g_sessions (rows d)) (g_results (rows d)) rs /\
  rows d' = with_results (g_results (rows d) ++ (row <$> rs)) (rows d).
Proof.
  revert d. induction rs as [|r rs IH]; intros d; cbn [for_each storable].
  - intros [= _ <-]. split; [done|]. rewrite app_nil_r. by destruct (rows d).
  - intros ([] & d1 & Hs%stmt_returns%insert_result_inr & Hrest)%bind_returns.
    destruct Hs as (H1 & H2 & H3 & H4 & Hd1). destruct (IH _ Hrest) as [Hst ->].
    rewrite Hd1 in *. split; [done|]. cbn. by rewrite <- app_assoc.
Qed.

Lemma insert_all_run rs t :
  storable (g_sessions t) (g_results t) rs ->
  for_each (fun r => stmt (insert_result (row r))) rs (Db t []) =
    (inr tt, Db (with_results (g_results t ++ (row <$> rs)) t) []).
Proof.
  revert t. induction rs as [|r rs IH]; intros t; cbn [for_each storable].
  - intros _. rewrite app_nil_r. by destruct t.
  - intros (H1 & H2 & H3 & H4 & Hst). set (t1 := with_results (g_results t ++ [row r]) t).
    assert (Hi : insert_result (row r) t = (inr tt, t1)) by (by apply insert_result_inr).
    unfold mbind, M_bind. unfold stmt at 1. cbn [head faults rows tail]. rewrite Hi.
    rewrite (IH t1 Hst). unfold t1. cbn. by rewrite <- app_assoc.
Qed.

Lemma existsb_false {A} (f : A -> bool) l : existsb f l = false <-> Forall (fun x => f x = false) l.
Proof.
  induction l as [|x l IH]; cbn; [by split|]. rewrite orb_false_iff, IH, Forall_cons. done.
Qed.

Lemma rows_collide r r' :
  results_collide (row r) (row r') = false <->
  (forall sid, sr_SessionID r = Some sid -> sr_SessionID r' <> Some sid) /\
  (forall dev, null_string (sr_DeviceJID r) = Some dev -> null_string (sr_DeviceJID r') <> Some dev).
Proof.
  unfold results_collide. cbn [stored_result gl_GatewayID gl_SessionID gl_DeviceJID].
  rewrite bool_decide_eq_true_2 by done. cbn [andb]. rewrite orb_false_iff, !andb_false_iff, !bool_decide_eq_false.
  split.
  - intros [H1 H2]. split; intros x Hx Heq; [destruct H1 as [H1|H1]|destruct H2 as [H2|H2]];
      rewrite Hx in *; try done; congruence.
  - intros [H1 H2]. split; [destruct (sr_SessionID r) as [sid|]|destruct (null_string _) as [dev|]];
      try (by left); right; intros Heq; [by apply (H1 sid) | by apply (H2 dev)].
Qed.

Lemma fresh_cons {A} (f : GatewayReconciliationResult -> option A) r rs :
  NoDup (omap f (r :: rs)) <->
  (forall x, f r = Some x -> forall r', r' ∈ rs -> f r' <> Some x) /\ NoDup (omap f rs).
Proof.
  rewrite omap_cons. destruct (f r) as [x|] eqn:Hf.
  - rewrite NoDup_cons. split; intros [Hni Hnd]; (split; [|done]).
    + intros x' [= <-] r' Hin Hf'. apply Hni, list_elem_of_omap. eauto.
    + intros (r' & Hin & Hf')%list_elem_of_omap. by eapply Hni.
  - split; [by intros|by intros [_ ?]].
Qed.

(** No later row meets an earlier one. *)
Fixpoint collision_free (rs : list GatewayReconciliationResult) : Prop :=
  match rs with
  | [] => True
  | r :: rest => (forall r', r' ∈ rest -> results_collide (row r') (row r) = false) /\ collision_free rest
  end.

Definition admissible (t : gdb) (r : GatewayReconciliationResult) : Prop :=
  sr_Status r ∈ result_statuses /\ result_shape (row r) = true /\
  (forall sid, sr_SessionID r = Some sid -> is_Some (g_sessions t !! sid)).

Lemma storable_split t before rs :
  storable (g_sessions t) before rs <->
  Forall (admissible t) rs /\ collision_free rs /\
  (forall r b, r ∈ rs -> b ∈ before -> results_collide (row r) b = false).
Proof.
  revert before. induction rs as [|r rs IH]; intros before; cbn [storable collision_free].
  { split; [|done]. intros _. split; [constructor|]. split; [done|]. by intros ? ? ?%not_elem_of_nil. }
  rewrite IH, Forall_cons, existsb_false, Forall_forall. unfold admissible at 2. split.
  - intros (H1 & H2 & H3 & Hr & HF & Hc & Hb). split; [done|]. split.
    + split; [|done]. intros r' Hin. apply Hb; [done|]. apply elem_of_app. right. by left.
    + intros r' b [-> | Hin]%elem_of_cons Hbin; [by apply Hr|]. apply Hb; [done|]. apply elem_of_app. by left.
  - intros [[[H1 [H2 H3]] HF] [[Hr Hc] Hb]]. do 3 (split; [done|]). split.
    + intros b Hbin. apply Hb; [by left|done].
    + split; [done|]. split; [done|]. intros r' b Hin [Hbin| ->%list_elem_of_singleton]%elem_of_app; [|by apply Hr].
      apply Hb; [by right|done].
Qed.

Lemma collision_free_spec rs :
  collision_free rs <->
  NoDup (omap sr_SessionID rs) /\ NoDup (omap (fun r => null_string (sr_DeviceJID r)) rs).
Proof.
  induction rs as [|r rs IH]; cbn [collision_free]; [split; [split; constructor|done]|].
  rewrite !fresh_cons, IH. split.
  - intros [Hr [Hs Hd]]. split; (split; [|done]); intros x Hx r' Hin Hr'; apply Hr, rows_collide in Hin as [H1 H2].
    + by apply (H1 x).
    + by apply (H2 x).
  - intros [[Hs Hns] [Hd Hnd]]. split; [|done]. intros r' Hin. apply rows_collide.
    split; intros x Hx Hr; [by apply (Hs x Hr r') | by apply (Hd x Hr r')].
Qed.
End Insert.

(** ** The transaction *)

Lemma fenced_revision_row id epoch t rev :
  fenced_revision id epoch t = Some rev ->
  exists g, g_gateways t !! id = Some g /\ at_epoch epoch g = true /\ live g = true /\
    gi_DesiredRevision (gw_intent g) = rev.
Proof.
  unfold fenced_revision. destruct (g_gateways t !! id) as [g|]; cbn; [|done].
  destruct (at_epoch epoch g && live g) eqn:Hg; [|done]. intros [= <-]. apply andb_true_iff in Hg as [? ?]. eauto.
Qed.

Lemma assigned_complete t rep :
  dom (assigned_sessions (rt_GatewayID rep) t) ⊆@{gset string} list_to_set (omap sr_SessionID (rt_Results rep)) <->
  forall sid a s, g_assignments t !! sid = Some a -> g_sessions t !! sid = Some s ->
    ga_GatewayID a = rt_GatewayID rep -> sid ∈ omap sr_SessionID (rt_Results rep).
Proof.
  split.
  - intros Hsub sid a s Ha Hs Hg. apply (elem_of_list_to_set (C:=gset string)), Hsub, elem_of_dom.
    rewrite assigned_sessions_lookup, Ha, Hs, bool_decide_eq_true_2 by done. by eexists.
  - intros Hall sid [x Hx]%elem_of_dom. rewrite assigned_sessions_lookup in Hx.
    destruct (g_assignments t !! sid) as [a|] eqn:Ha; [|done]. destruct (g_sessions t !! sid) as [s|] eqn:Hs; [|done].
    case_bool_decide as Hg; [|done]. apply elem_of_list_to_set. by eapply Hall.
Qed.

Lemma update_reported_spec rep degraded at_ t g :
  g_gateways t !! rt_GatewayID rep = Some g -> at_epoch (rt_Epoch rep) g = true ->
  gi_DesiredRevision (gw_intent g) = rt_Revision rep ->
  update_reported rep degraded at_ t =
    if bool_decide (rt_KeystoreState rep ∈ keystore_states)
    then (inr 1, with_gateways (<[rt_GatewayID rep := reported_row rep degraded at_ g]> (g_gateways t)) t)
    else (inl (ErrMsg "Error 1265: Data truncated for column 'keystore_integrity'"), t).
Proof.
  intros Hg He Hrev. unfold update_reported, update_gateway. rewrite Hg, He, Hrev, Z.eqb_refl. cbn [andb].
  case_bool_decide; [|done]. unfold revisions_ok. cbn. by rewrite Hrev, Z.leb_refl.
Qed.

Definition start (rep : GatewayReconciliationReport) : checked :=
  MkChecked ∅ ∅ (negb (bool_decide (rt_KeystoreState rep = "healthy"))).

Lemma start_passed rep :
  let st := foldl pass (start rep) (rt_Results rep) in
  ck_seen st = list_to_set (omap sr_SessionID (rt_Results rep)) /\ ck_degraded st = report_degraded rep /\
  ("" ∉ rt_LocalDevices rep ->
   list_to_set (rt_LocalDevices rep) ⊆ ck_classified st <->
   forall device, device ∈ rt_LocalDevices rep -> device ∈ sr_DeviceJID <$> rt_Results rep).
Proof.
  destruct (pass_all (rt_Results rep) (start rep)) as (Hs & Hc & Hd). cbn zeta. rewrite Hs, Hd. cbn [start ck_seen].
  split; [by rewrite union_empty_r_L|]. split; [done|]. intros Hne. split.
  - intros Hsub dev Hin. assert (Hcl : dev ∈ ck_classified (foldl pass (start rep) (rt_Results rep))).
    { apply Hsub. by apply elem_of_list_to_set. }
    apply Hc in Hcl as [Hcl|[_ Hcl]]; [by apply elem_of_empty in Hcl|done].
  - intros Hall dev Hin%elem_of_list_to_set. apply Hc. right. split; [by intros ->|by apply Hall].
Qed.

Lemma result_admissible t rep at_ r :
  map_Forall (fun _ a => 0 < ga_AssignmentEpoch a) (g_assignments t) ->
  result_true t rep r -> sr_Status r ∈ result_statuses -> admissible rep at_ t r.
Proof.
  intros Hpos Ht Hst. split; [done|]. unfold result_true, result_shape in *.
  cbn [stored_result gl_Status gl_SessionID gl_AssignmentEpoch].
  destruct (bool_decide (sr_Status r = unexpected_status)).
  - destruct Ht as (-> & -> & _). by split.
  - destruct Ht as (sid & a & s & -> & Ha & Hs & _ & -> & _). cbn. split.
    + apply Z.ltb_lt. exact (Hpos sid a Ha).
    + intros sid' [= <-]. by eexists.
Qed.

Lemma persist_body_returns rep at_ d u d' :
  persist_body rep at_ d = (inr u, d') ->
  report_accepted (rows d) rep /\
  exists g, g_gateways (rows d) !! rt_GatewayID rep = Some g /\ rows d' = persisted rep at_ g (rows d).
Proof.
  unfold persist_body. set (t := rows d). intros (rev & d1 & Hf & Hrun)%bind_returns.
  apply map_err_returns, query_row_returns in Hf as [Hf Hd1]. fold t in Hf, Hd1.
  destruct (rev =? rt_Revision rep) eqn:Hrev; [cbn [negb] in Hrun|discriminate]. apply Z.eqb_eq in Hrev. subst rev.
  apply bind_returns in Hrun as (assigned & d2 & Hq & Hrun). apply query_returns in Hq as [-> Hd2].
  rewrite Hd1 in Hrun, Hd2.
  apply bind_returns in Hrun as (inv & d2' & [= Hi ->] & Hrun).
  apply check_inventory_spec in Hi as (Hnd & Hne & _ & Hinv).
  rewrite union_empty_r_L in Hinv. subst inv.
  apply bind_returns in Hrun as (st & d3 & Hc & Hrun).
  apply (check_results_returns t) in Hc as (Hd3 & HF & Hns & _ & ->); [|done]. fold (start rep) in Hrun.
  destruct (start_passed rep) as (Hseen & Hdeg & Hcl). rewrite Hseen, Hdeg in Hrun.
  destruct (bool_decide (dom _ ⊆ _)) eqn:Hdom; [cbn [negb] in Hrun|discriminate].
  apply bool_decide_eq_true in Hdom. pose proof (proj1 (assigned_complete _ _) Hdom) as Hcomp.
  destruct (bool_decide (_ ⊆ ck_classified _)) eqn:Hclass; [cbn [negb] in Hrun|discriminate].
  apply bool_decide_eq_true in Hclass. pose proof (proj1 (Hcl Hne) Hclass) as Hdevs.
  apply bind_returns in Hrun as ([] & d4 & Hdel & Hrun). apply exec_returns in Hdel as [_ Hd4].
  rewrite Hd3 in Hd4. cbn in Hd4.
  apply bind_returns in Hrun as ([] & d5 & Hins & Hrun). apply insert_all_returns in Hins as [Hst Hd5].
  apply storable_split in Hst as (Hadm & Hfree & _). apply collision_free_spec in Hfree as [_ Hdev].
  apply bind_returns in Hrun as (n & d6 & Hup & Hrun). apply stmt_returns in Hup.
  destruct (n =? 1) eqn:Hn; [cbn [negb] in Hrun|discriminate]. apply Z.eqb_eq in Hn. subst n.
  apply query_returns in Hrun as [_ ->].
  destruct (fenced_revision_row _ _ _ _ Hf) as (g & Hg & He & Hl & Hrev).
  assert (Hg5 : g_gateways (rows d5) !! rt_GatewayID rep = Some g) by (by rewrite Hd5, Hd4).
  rewrite (update_reported_spec _ _ _ _ g) in Hup by done. case_bool_decide as Hks; [|discriminate].
  injection Hup as Hd6. split.
  - split; try done. split; [done|]. eapply Forall_impl; [exact Hadm|]. by intros r [].
  - exists g. split; [done|]. by rewrite <- Hd6, Hd5, Hd4.
Qed.

Lemma persist_body_run rep at_ t :
  map_Forall (fun _ a => 0 < ga_AssignmentEpoch a) (g_assignments t) ->
  report_accepted t rep -> exists d', persist_body rep at_ (Db t []) = (inr tt, d').
Proof.
  intros Hpos [Hf [Hnd Hne] HF Hns Hcomp Hclass Hdev [Hks Hst]]. unfold persist_body.
  destruct (fenced_revision_row _ _ _ _ Hf) as (g & Hg & He & Hl & Hrev).
  destruct (start_passed rep) as (Hseen & Hdeg & Hcl).
  unfold mbind at 1, M_bind at 1, map_err at 1, query_row at 1, stmt at 1. cbn [head faults rows tail]. rewrite Hf, Z.eqb_refl.
  cbn [negb]. unfold mbind at 1, M_bind at 1, query at 1, stmt at 1. cbn [head faults rows tail].
  rewrite (proj2 (check_inventory_spec (rt_LocalDevices rep) ∅ (list_to_set (rt_LocalDevices rep))))
    by (split; [done|]; split; [done|]; split; [by intros ? ? ?%elem_of_empty|by rewrite union_empty_r_L]).
  unfold mbind at 1, M_bind at 1, lift_result at 1. unfold mbind at 1, M_bind at 1.
  rewrite (check_results_run t rep) by (try done; by intros ? ? ?%elem_of_empty). fold (start rep).
  rewrite Hseen, Hdeg, bool_decide_eq_true_2 by (by apply assigned_complete). cbn [negb].
  rewrite bool_decide_eq_true_2 by (by apply Hcl). cbn [negb].
  unfold mbind at 1, M_bind at 1, exec at 1, stmt at 1. cbn [head faults rows tail delete_results].
  unfold mbind at 1, M_bind at 1. set (t1 := with_results _ t).
  rewrite insert_all_run.
  - unfold mbind, M_bind, stmt at 1. cbn [head faults rows tail].
    rewrite (update_reported_spec _ _ _ _ g), bool_decide_eq_true_2 by done. cbn. eauto.
  - apply storable_split. split; [|split].
    + rewrite Forall_forall in HF, Hst |- *. intros r Hin. by apply (result_admissible t1 rep at_ r); [|apply HF|apply Hst].
    + by apply collision_free_spec.
    + intros r b Hr [Hb _]%list_elem_of_filter. unfold results_collide. cbn [stored_result gl_GatewayID].
      by rewrite bool_decide_eq_false_2 by (by apply not_eq_sym).
Qed.

Lemma Persist_result rep at_ w r w' :
  Persist rep at_ w = (r, w') ->
  let t := rows (others_step w).1 in
  match r with
  | inl _ => sh_rows w' = t
  | inr _ => report_accepted t rep /\
      exists g, g_gateways t !! rt_GatewayID rep = Some g /\ sh_rows w' = persisted rep at_ g t
  end.
Proof.
  intros Hrun t. destruct (atomically_run _ _ _ _ Hrun) as (d' & Hd & ->). fold t. unfold sh_rows. cbn [sh_db].
  destruct r as [e|u]; [by apply with_rollback_error in Hd|].
  apply with_rollback_returns, bind_returns in Hd as (v & d1 & Hb & Hbody). apply query_returns in Hb as [_ Hd1].
  apply persist_body_returns in Hbody. rewrite Hd1 in Hbody. exact Hbody.
Qed.

Lemma Persist_total rep at_ w r w' :
  Persist rep at_ w = (r, w') ->
  map_Forall (fun _ a => 0 < ga_AssignmentEpoch a) (g_assignments (rows (others_step w).1)) ->
  faults (sh_db w) = [] -> report_accepted (rows (others_step w).1) rep -> r = inr tt.
Proof.
  intros Hrun Hpos Hfaults Hacc. destruct (atomically_run _ _ _ _ Hrun) as (d' & Hd & ->).
  destruct (persist_body_run rep at_ _ Hpos Hacc) as (d1 & Hbody).
  assert (Hstep : (others_step w).1 = Db (rows (others_step w).1) []).
  { unfold others_step. rewrite <- Hfaults. destruct w as [[s fs] [|f rest]]; done. }
  rewrite Hstep in Hd. unfold with_rollback, begin_tx in Hd. unfold mbind, M_bind, query, stmt in Hd.
  cbn [head faults rows tail] in Hd. rewrite Hbody in Hd. by injection Hd as <- _.
Qed.

(** A desired-state report is stored exactly when it is complete and true.
    Whatever fails, the tables are as before; a stored report was under the
    connection epoch and the desired revision in force, had one true result for
    every assigned session and accounted for every local device, and replaced
    the gateway's results, its keystore health and its applied revision as one;
    and a database that does not fail stores every such report. *)
Theorem persist_accepts_exactly rep at_ w r w'
    (Hpos : map_Forall (fun _ a => 0 < ga_AssignmentEpoch a) (g_assignments (rows (others_step w).1)))
    (Hrun : Persist rep at_ w = (r, w')) :
  let t := rows (others_step w).1 in
  match r with
  | inl _ => sh_rows w' = t
  | inr _ => report_accepted t rep /\
      exists g, g_gateways t !! rt_GatewayID rep = Some g /\ sh_rows w' = persisted rep at_ g t
  end /\
  (faults (sh_db w) = [] -> report_accepted t rep -> r = inr tt).
Proof. split; [by apply Persist_result | intros ? ?; by eapply Persist_total]. Qed.

Lemma insert_result_keeps r t : g_gateways (insert_result r t).2 = g_gateways t.
Proof.
  unfold insert_result. destruct (negb _); [done|]. destruct (negb _); [done|]. destruct (negb _); [done|].
  by destruct (existsb _ _).
Qed.

Lemma Persist_grows rep at_ : respects (grows_under registry_grows) (Persist rep at_).
Proof.
  unfold Persist. apply respects_atomically; [apply _|]. apply respects_with_rollback; [apply _|].
  apply respects_bind; [apply _|apply respects_begin, _|intros _]. unfold persist_body.
  assert (Hloop : forall inv asg results st, respects (on_rows registry_grows) (check_results rep asg inv results st)).
  { intros inv asg results. induction results as [|r results IH]; intros st; cbn [check_results]; [grows_tac|].
    apply respects_bind; [apply _| |intros ?; apply IH]. unfold check_result. grows_tac. }
  grows_tac.
  - induction (rt_Results rep) as [|r rs IH]; cbn [for_each]; [grows_tac|].
    apply respects_bind; [apply _| |intros _; exact IH]. apply keeps_gateways_grows, insert_result_keeps.
  - apply respects_update_gateway. raises_tac.
Qed.

(** ** Witness *)

(** Gateway g1 holds the one device it is assigned. *)
Definition demo_report : GatewayReconciliationReport :=
  MkStoredReport "g1" 3 5 "healthy" (Some 10) (Some 8) [MkStoredResult (Some "s1") 4 "1@wa" "applied"] ["1@wa"].
Definition demo_persist := Persist demo_report 9 example_handle.
Lemma demo_persist_eq : demo_persist = (inr tt, demo_persist.2).
Proof. by vm_compute. Qed.

Lemma persist_accepts_exactly_witness :
  report_accepted example_tables demo_report /\
 exists g, g_gateways example_tables !! "g1" = Some g /\
   sh_rows demo_persist.2 = persisted demo_report 9 g example_tables.
Proof.
  assert (Hpos : map_Forall (fun _ a => 0 < ga_AssignmentEpoch a)
            (g_assignments (rows (others_step example_handle).1))).
  { apply map_Forall_insert_2; [by vm_compute|]. apply map_Forall_empty. }
  exact (proj1 (persist_accepts_exactly demo_report 9 example_handle _ _ Hpos demo_persist_eq)).
Defined.
