(* ===== verification/GatewayControl.v ===== *)
(** * The store behind the control stream

    Models [gatewayControlStore] of [cmd/api/private_grpc.go]: the adapter that
    implements the control server's store ([ControlStore]) on the gateway
    repository, the reconciliation repository and the event ingestion, all over
    the same tables. The clock and [domain.NewULID] are functions of the number
    of their calls. Decoding a gateway event's protobuf [Struct] is the class
    [EnvelopeCodec]. *)

From stdpp Require Import pretty.
From S2P Require Import Prelude Journal Domain OutboxStore EventIngest DesiredState.
From S2P Require Import GatewayTables GatewayStore GatewayAssignment Reconciliation.
From S2P Require Import Wire JournalControl ControlServer.

#[local] Open Scope Z_scope.

(** The members of the envelope; an absent [payload] is the empty slice. *)
Record EventEnvelope := MkEventEnvelope {
  ee_Schema : string;
  ee_ID : string;
  ee_Type : string;
  ee_Session : string;
  ee_Organization : string;
  ee_Payload : bytes;
}.

(** [proto.Unmarshal] into a [Struct], [protojson.Marshal], and [json.Unmarshal]
    into the envelope. *)
Class EnvelopeCodec := {
  struct_of : bytes -> goerr + bytes;
  envelope_of : bytes -> goerr + EventEnvelope;
}.

(** The handle on the tables, and how often the clock and the id source were
    read. *)
Record api_world := MkApiWorld {
  aw_handle : shared gdb;
  aw_ticks : nat;
  aw_ids : nat;
}.

Definition aw_rows (w : api_world) : gdb := sh_rows (aw_handle w).

(** ** Translations *)

Definition optionalString (value : string) : option string :=
  if bool_decide (value = "") then None else Some value.

Definition runtimeGatewayStatus (state : GatewayRuntimeState) : option string :=
  match state with
  | GATEWAY_RUNTIME_STATE_STARTING => Some GatewayJoining
  | GATEWAY_RUNTIME_STATE_READY => Some GatewayActive
  | GATEWAY_RUNTIME_STATE_DRAINING => Some GatewayDraining
  | GATEWAY_RUNTIME_STATE_DRAINED => Some GatewayDrained
  | GATEWAY_RUNTIME_STATE_DEGRADED => Some GatewayDegraded
  | _ => None
  end.

Definition desiredLifecycleForStoredValue (desired : string) : option LifecycleDirectiveAction :=
  if bool_decide (desired = "drain") then Some LIFECYCLE_DIRECTIVE_ACTION_DRAIN
  else if bool_decide (desired = "run") then Some LIFECYCLE_DIRECTIVE_ACTION_RUN
  else None.

(** [UNKNOWN] means no report this cycle. *)
Definition journalStateString (state : GatewayJournalState) : option string :=
  match state with
  | GATEWAY_JOURNAL_STATE_HEALTHY => Some "healthy"
  | GATEWAY_JOURNAL_STATE_DEGRADED => Some "degraded"
  | GATEWAY_JOURNAL_STATE_PAUSED => Some "paused"
  | GATEWAY_JOURNAL_STATE_CRITICAL => Some "critical"
  | _ => None
  end.

Definition journalCount (state : GatewayJournalState) (value : Z) : option Z :=
  if bool_decide (state = GATEWAY_JOURNAL_STATE_UNKNOWN) then None else Some value.

Definition sessionDesiredAction (run : bool) : SessionDesiredAction :=
  if run then SESSION_DESIRED_ACTION_RUN else SESSION_DESIRED_ACTION_STOP.

(** [json.Marshal] of the numbers of the enumeration; a nil slice is [null]. *)
Definition capability_number (c : GatewayCapability) : Z :=
  match c with
  | GATEWAY_CAPABILITY_UNKNOWN => 0
  | GATEWAY_CAPABILITY_SESSION_ENGINE => 1
  | GATEWAY_CAPABILITY_EVENT_STREAM => 2
  | GATEWAY_CAPABILITY_COMMAND_EXECUTION => 3
  | GatewayCapability_unnamed n => n
  end.
Definition marshal_capabilities (l : list GatewayCapability) : bytes :=
  String.list_byte_of_string
    (if bool_decide (l = []) then "null"
     else "[" +:+ String.concat "," ((fun c => pretty (capability_number c)) <$> l) +:+ "]").

Definition fencedStoreResult (r : goerr + bool) : option goerr :=
  match r with
  | inl err => Some (ErrBoth ErrUnavailable err)
  | inr updated => if updated then None else Some ErrStaleEpoch
  end.

Definition unavailable (err : goerr) : goerr := ErrBoth ErrUnavailable err.

(** The error of [AcceptConnection] as the control server's. *)
Definition accept_error (err : goerr) : goerr :=
  if errors_is ErrNoRows err || bool_decide (api_code err = Some CodeNotFound) then ErrUnauthorized
  else if bool_decide (api_code err = Some CodeConflict) then ControlServer.ErrConflict
  else unavailable err.

Definition desired_assignment (historySyncMaxDays : Z) (a : GatewayDesiredSession) : DesiredSession := {|
  de_SessionID := dr_SessionID a;
  de_OrganizationID := dr_OrganizationID a;
  de_DeviceJID := dr_DeviceJID a;
  de_DesiredAction := sessionDesiredAction (dr_DesiredRun a);
  de_AssignmentEpoch := dr_AssignmentEpoch a;
  de_ConfigRevision := dr_ConfigRevision a;
  de_AutoRead := dr_AutoRead a;
  de_PresenceTyping := dr_PresenceTyping a;
  de_RatePerMin := dr_RatePerMin a;
  de_RatePerHour := dr_RatePerHour a;
  de_HistorySyncDays := Z.min (dr_HistorySyncDays a) historySyncMaxDays;
  de_LeaseExpiresAt := FromUnixMilli (dr_LeaseExpiresAt a);
|}.

Definition stored_report (gatewayID : string) (epoch : Z) (report : ReconciliationReport)
  : GatewayReconciliationReport := {|
  rt_GatewayID := gatewayID;
  rt_Epoch := epoch;
  rt_Revision := re_Revision report;
  rt_KeystoreState := re_KeystoreState report;
  rt_KeystoreBytes := re_KeystoreBytes report;
  rt_CheckedAt := re_CheckedAt report;
  rt_Results := (fun r => MkStoredResult (rs_SessionID r) (rs_AssignmentEpoch r) (rs_DeviceJID r) (rs_Status r))
                  <$> re_Results report;
  rt_LocalDevices := re_LocalDevices report;
|}.

Section Decode.
Context `{JSONLib} `{EnvelopeCodec}.

Definition decodeGatewayEventPayload (event : ControlEvent) : goerr + bytes :=
  match struct_of (ce_Payload event) with
  | inl err => inl (ErrWrap "decode gateway event payload" err)
  | inr encoded =>
      match envelope_of encoded with
      | inl err => inl (ErrWrap "decode gateway event envelope" err)
      | inr e =>
          if negb (bool_decide (ee_Schema e = Schema)) || bool_decide (ee_ID e = "") ||
             negb (bool_decide (ee_ID e = ce_EventID event)) || bool_decide (ee_Type e = "") ||
             negb (bool_decide (ee_Type e = ce_Type event)) || negb (bool_decide (ee_Session e = ce_SessionID event)) ||
             negb (bool_decide (ee_Organization e = ce_OrganizationID event)) || bool_decide (ee_Payload e = []) ||
             negb (json_Valid (ee_Payload e))
          then inl (ErrMsg "gateway event envelope metadata mismatch")
          else inr (ee_Payload e)
      end
  end.

Definition stored_event (gatewayID : string) (epoch : Z) (event : ControlEvent) (payload : bytes)
  : EventIngest.GatewayEvent := {|
  gv_EventID := ce_EventID event;
  gv_GatewayID := gatewayID;
  gv_SessionID := ce_SessionID event;
  gv_OrganizationID := ce_OrganizationID event;
  gv_Type := ce_Type event;
  gv_ConnectionEpoch := epoch;
  gv_AssignmentEpoch := ce_AssignmentEpoch event;
  gv_Payload := payload;
  gv_OccurredAt := UnixMilli (ce_OccurredAt event);
|}.

(** The loop that builds the batch. *)
Fixpoint stored_batch (gatewayID : string) (epoch : Z) (events : list ControlEvent)
  : goerr + list EventIngest.GatewayEvent :=
  match events with
  | [] => inr []
  | event :: rest =>
      match decodeGatewayEventPayload event with
      | inl err => inl (unavailable err)
      | inr payload =>
          match stored_batch gatewayID epoch rest with
          | inl err => inl err
          | inr batch => inr (stored_event gatewayID epoch event payload :: batch)
          end
      end
  end.
End Decode.

(** ** The adapter *)

Section Adapter.
Context `{JSONLib} `{EnvelopeCodec} `{MySQL} `{IngestCodec}.
Context (Now : nat -> GoTime) (NewULID : nat -> string) (historySyncMaxDays : Z).
(** Whether the reconciliation and event repositories are configured, and the
    media capture of the latter. *)
Context (reconciliation eventIngest : bool).
Context (MediaCapture : option (EventIngest.GatewayEvent -> goerr + bytes)).

Definition repo {A} (m : M (shared gdb) A) : M api_world A := fun w =>
  let '(r, h) := m (aw_handle w) in (r, MkApiWorld h (aw_ticks w) (aw_ids w)).

(** [s.clock().UnixMilli()]. *)
Definition nowMillis : M api_world Z := fun w =>
  (inr (UnixMilli (Now (aw_ticks w))), MkApiWorld (aw_handle w) (S (aw_ticks w)) (aw_ids w)).

Definition newULID : M api_world string := fun w =>
  (inr (NewULID (aw_ids w)), MkApiWorld (aw_handle w) (aw_ticks w) (S (aw_ids w))).

Definition Accept (gatewayID : string) (hello : Hello) : M api_world Connection :=
  match runtimeGatewayStatus (he_RuntimeState hello) with
  | None => throw ControlServer.ErrConflict
  | Some runtimeStatus =>
      at_ ← nowMillis;
      accepted ← map_err accept_error (repo (AcceptConnection
        (MkConnectionHello gatewayID (optionalString (he_HTTPBaseURL hello)) (optionalString (he_GRPCEndpoint hello))
           (optionalString (he_SoftwareVersion hello)) (marshal_capabilities (he_Capabilities hello))
           (he_SessionCount hello) runtimeStatus) at_));
      match desiredLifecycleForStoredValue (ac_DesiredLifecycle accepted) with
      | None => throw ControlServer.ErrConflict
      | Some desiredLifecycle =>
          id ← newULID;
          mret (MkConnection id (ac_ConnectionEpoch accepted) DefaultHeartbeatInterval DefaultLeaseTimeout
                  desiredLifecycle (ac_DesiredRevision accepted))
      end
  end.

Definition heartbeat_report (gatewayID : string) (epoch : Z) (h : Heartbeat) (runtimeStatus : string)
  : GatewayStore.GatewayHeartbeat := {|
  sh_Connection := MkGatewayConnection gatewayID epoch;
  sh_SessionCount := hv_SessionCount h;
  sh_Status := runtimeStatus;
  sh_JournalState := journalStateString (hv_JournalState h);
  sh_JournalEntries := journalCount (hv_JournalState h) (hv_JournalEntries h);
  sh_JournalBytes := journalCount (hv_JournalState h) (hv_JournalBytes h);
|}.

(** A fenced repository call whose result carries a value when it applied. *)
Definition fenced {A} (m : M api_world (option A)) : M api_world A :=
  r ← attempt m;
  match r with
  | inr (Some a) => mret a
  | inr None => throw ErrStaleEpoch
  | inl err => throw (unavailable err)
  end.

Definition HeartbeatOf (gatewayID : string) (epoch : Z) (h : Heartbeat) : M api_world DesiredLifecycle :=
  match runtimeGatewayStatus (hv_RuntimeState h) with
  | None => throw ControlServer.ErrConflict
  | Some runtimeStatus =>
      at_ ← nowMillis;
      desired ← fenced (repo (HeartbeatForEpoch (heartbeat_report gatewayID epoch h runtimeStatus) at_));
      match desiredLifecycleForStoredValue (ac_DesiredLifecycle desired) with
      | Some action => if ac_ConnectionEpoch desired =? epoch
                       then mret (MkDesiredLifecycle action (ac_DesiredRevision desired))
                       else throw ControlServer.ErrConflict
      | None => throw ControlServer.ErrConflict
      end
  end.

Definition DesiredStateOf (gatewayID : string) (epoch revision : Z) (leaseExpiresAt : GoTime)
  : M api_world ControlServer.DesiredState :=
  assignments ← fenced (repo (DesiredStateForEpoch (MkGatewayConnection gatewayID epoch) revision
                                (UnixMilli leaseExpiresAt)));
  mret (MkDesiredState revision (desired_assignment historySyncMaxDays <$> assignments)).

Definition PersistDesiredStateReport (gatewayID : string) (epoch : Z) (report : ReconciliationReport)
  : M api_world unit :=
  if negb reconciliation then throw ErrUnavailable
  else
    at_ ← nowMillis;
    map_err unavailable (repo (Persist (stored_report gatewayID epoch report) at_)).

Definition IngestEvents (gatewayID : string) (epoch : Z) (events : list ControlEvent) : M api_world unit :=
  if negb eventIngest then throw ErrUnavailable
  else
    batch ← lift_result (stored_batch gatewayID epoch events);
    at_ ← nowMillis;
    map_err unavailable
      (repo (atomically (GatewayTables.on_events (IngestBatch MediaCapture batch at_)))).

(** A fenced repository write. *)
Definition fenced_write (m : M api_world bool) : M api_world unit :=
  r ← attempt m;
  match fencedStoreResult r with Some err => throw err | None => mret tt end.

Definition Lifecycle (gatewayID : string) (epoch : Z) (report : LifecycleReport) : M api_world unit :=
  match runtimeGatewayStatus (lv_State report) with
  | None => throw ControlServer.ErrConflict
  | Some lifecycle =>
      at_ ← nowMillis;
      fenced_write (repo (SetStatusForEpoch (MkGatewayConnection gatewayID epoch) lifecycle at_))
  end.

Definition Disconnect (gatewayID : string) (epoch : Z) : M api_world unit :=
  at_ ← nowMillis;
  fenced_write (repo (DisconnectForEpoch (MkGatewayConnection gatewayID epoch) at_)).

#[export] Instance gatewayControlStore : ControlStore api_world := {|
  cs_Accept := Accept;
  cs_Heartbeat := HeartbeatOf;
  cs_DesiredState := DesiredStateOf;
  cs_PersistDesiredStateReport := PersistDesiredStateReport;
  cs_IngestEvents := IngestEvents;
  cs_Lifecycle := Lifecycle;
  cs_Disconnect := Disconnect;
|}.
End Adapter.

(** ** Running the repositories *)

Section Runs.
Context `{JSONLib} `{EnvelopeCodec} `{MySQL} `{IngestCodec}.

Lemma repo_run {A} (m : M (shared gdb) A) w r w' :
  repo m w = (r, w') -> exists h, m (aw_handle w) = (r, h) /\ aw_handle w' = h.
Proof. unfold repo. destruct (m (aw_handle w)) as [r0 h]. intros [= <- <-]. eauto. Qed.

Lemma fenced_returns {A} (m : M api_world (option A)) w a w' :
  fenced m w = (inr a, w') -> m w = (inr (Some a), w').
Proof.
  unfold fenced. intros (r & w1 & Hm & Hrun)%bind_returns. unfold attempt in Hm.
  destruct (m w) as [r0 w0]. injection Hm as -> ->. destruct r as [err|[a0|]]; [discriminate| |discriminate].
  by injection Hrun as -> ->.
Qed.
End Runs.

(** ** Complete and valid snapshots

    Other processes raise epochs and desired revisions, never lower them, and a
    gateway out of service does not return to it under the same epoch and
    revision; they keep the assignments well-formed. *)
Record intent_grows (r r' : GatewayRecord) : Prop := {
  in_epoch : gw_ConnectionEpoch r <= gw_ConnectionEpoch r';
  in_revision : gi_DesiredRevision (gw_intent r) <= gi_DesiredRevision (gw_intent r');
  in_usable : gw_ConnectionEpoch r' = gw_ConnectionEpoch r ->
    gi_DesiredRevision (gw_intent r') = gi_DesiredRevision (gw_intent r) -> usable r' = true -> usable r = true;
}.
Record desired_step (t t' : gdb) : Prop := {
  dst_intent : forall id r, g_gateways t !! id = Some r ->
    exists r', g_gateways t' !! id = Some r' /\ intent_grows r r';
  dst_wf : keeps assignments_wf t t';
}.

#[export] Instance desired_step_preorder : PreOrder desired_step.
Proof.
  split.
  - intros t. split; [|by intros ?]. intros id r Hr. exists r. split; [done|]. by split.
  - intros t1 t2 t3 [H12 K12] [H23 K23]. split; [|by intros ?; apply K23, K12].
    intros id r Hr. destruct (H12 _ _ Hr) as (r2 & Hr2 & [E2 V2 U2]).
    destruct (H23 _ _ Hr2) as (r3 & Hr3 & [E3 V3 U3]). exists r3. split; [done|]. split; [lia|lia|].
    intros He Hv Hu. apply U2; [lia|lia|]. apply U3; [lia|lia|done].
Qed.

(** The gateway's connection is the accepted one, and [revision] is in force. *)
Definition in_force (c : GatewayConnection) (revision : Z) (t : gdb) : Prop :=
  exists r, g_gateways t !! co_GatewayID c = Some r /\ gw_ConnectionEpoch r = co_ConnectionEpoch c /\
    gi_DesiredRevision (gw_intent r) = revision /\ usable r = true.

Lemma accepted_desired_in_force c lifecycle revision t :
  accepted_desired (co_GatewayID c) (co_ConnectionEpoch c) t = Some (lifecycle, revision) -> in_force c revision t.
Proof.
  unfold accepted_desired, in_force. destruct (g_gateways t !! co_GatewayID c) as [r|]; cbn; [|done].
  destruct (at_epoch _ r && usable r) eqn:Hr; [|done]. intros [= _ <-]. to_prop.
  unfold at_epoch in *. to_prop. eauto.
Qed.

(** In force before and after, so in between. *)
Lemma in_force_between c revision t1 t2 t3 :
  in_force c revision t1 -> desired_step t1 t2 -> desired_step t2 t3 -> in_force c revision t3 ->
  in_force c revision t2.
Proof.
  intros (r1 & H1 & E1 & V1 & U1) [H12 _] [H23 _] (r3 & H3 & E3 & V3 & U3).
  destruct (H12 _ _ H1) as (r2 & H2 & [E12 V12 _]). destruct (H23 _ _ H2) as (r3' & H3' & [E23 V23 U23]).
  rewrite H3 in H3'. injection H3' as <-. exists r2. split; [done|]. split; [lia|]. split; [lia|]. apply U23; [lia|lia|done].
Qed.

Section Read.
Variable (R : gdb -> gdb -> Prop).
Context `{!PreOrder R} (HR : forall t t', R t t' -> desired_step t t').

Lemma current_revision_returns what c (w : shared gdb) revision w' :
  relies R w -> current_revision what c w = (inr (Some revision), w') ->
  exists t, R (sh_rows w) t /\ sh_rows w' = t /\ in_force c revision t /\ relies R w'.
Proof.
  intros Hw. unfold current_revision. intros (r & w1 & Ha & Hrun)%bind_returns.
  unfold attempt in Ha. destruct (atomically _ w) as [r0 w0] eqn:Hq. injection Ha as -> ->.
  destruct r as [err|[lifecycle rev]]; [by destruct (errors_is _ _)|]. injection Hrun as -> ->.
  destruct (atomically_returns R _ _ _ _ _ Hw Hq) as (d & d' & Hq' & Hstep & Hrows & Hrest).
  apply query_row_returns in Hq' as [Hacc Hd']. apply accepted_desired_in_force in Hacc.
  exists (rows d). split; [done|]. split; [congruence|]. done.
Qed.

Lemma DesiredStateForEpoch_returns c revision lease w l w' :
  relies R w -> DesiredStateForEpoch c revision lease w = (inr (Some l), w') ->
  exists t, R (sh_rows w) t /\ R t (sh_rows w') /\ in_force c revision t /\
    l = desired_session revision lease <$> desired_rows c revision t.
Proof.
  intros Hw. unfold DesiredStateForEpoch. intros (cur & w1 & Hcur & Hrun)%bind_returns.
  case_bool_decide as Hc; [|discriminate]. subst cur. cbn [negb] in Hrun.
  destruct (current_revision_returns _ _ _ _ _ Hw Hcur) as (t1 & Hs1 & Hr1 & Hf1 & Hw1).
  apply bind_returns in Hrun as (found & w2 & Hq & Hrun). apply map_err_returns in Hq.
  destruct (atomically_returns R _ _ _ _ _ Hw1 Hq) as (d2 & d2' & Hq2 & Hs2 & Hr2 & Hw2).
  apply query_returns in Hq2 as [-> Hd2].
  apply bind_returns in Hrun as (fin & w3 & Hfin & Hrun).
  case_bool_decide as Hc; [|discriminate]. subst fin. cbn [negb] in Hrun. injection Hrun as <- <-.
  destruct (current_revision_returns _ _ _ _ _ Hw2 Hfin) as (t3 & Hs3 & Hr3 & Hf3 & _).
  rewrite Hr1 in Hs2. rewrite Hr2, Hd2 in Hs3. rewrite Hr3.
  exists (rows d2). split; [by transitivity t1|]. split; [done|]. split; [|done].
  apply (in_force_between c revision t1 _ t3); auto.
Qed.
End Read.

(** ** The rows of a snapshot *)

Lemma omap_ids_sublist {A B} (f : string * A -> option (string * A * B)) l :
  (forall p q, f p = Some q -> q.1 = p) -> (fun q => q.1.1) <$> omap f l `sublist_of` l.*1.
Proof.
  intros Hf. induction l as [|p l IH]; [constructor|]. rewrite omap_cons. destruct (f p) as [q|] eqn:Hp; cbn.
  - apply Hf in Hp as ->. by constructor.
  - by constructor.
Qed.

Lemma assignments_of_elem gid t sid a :
  (sid, a) ∈ merge_sort session_le (assignments_of gid t) <->
  g_assignments t !! sid = Some a /\ ga_GatewayID a = gid.
Proof.
  rewrite merge_sort_Permutation. unfold assignments_of. rewrite list_elem_of_filter, elem_of_map_to_list. cbn. tauto.
Qed.

Lemma assignments_of_ids gid t : NoDup (merge_sort session_le (assignments_of gid t)).*1.
Proof.
  rewrite merge_sort_Permutation. unfold assignments_of.
  eapply sublist_NoDup; [apply (NoDup_fst_map_to_list (g_assignments t))|]. apply fmap_sublist, sublist_filter.
Qed.

Lemma desired_rows_in_force c revision t :
  in_force c revision t ->
  desired_rows c revision t = omap (fun p => s ← g_sessions t !! p.1; Some (p, s))
    (merge_sort session_le (assignments_of (co_GatewayID c) t)).
Proof.
  intros (r & Hr & He & Hv & Hu). unfold desired_rows, at_epoch. rewrite Hr, He, Hv, Hu, !Z.eqb_refl. done.
Qed.

Lemma desired_rows_ids c revision t :
  in_force c revision t -> NoDup ((fun q => q.1.1) <$> desired_rows c revision t).
Proof.
  intros Hf. rewrite (desired_rows_in_force _ _ _ Hf). eapply sublist_NoDup; [apply assignments_of_ids|].
  apply omap_ids_sublist. intros [sid a] q. cbn. destruct (g_sessions t !! sid); cbn; [|done]. by intros [= <-].
Qed.

Lemma desired_rows_elem c revision t sid a s :
  in_force c revision t ->
  (sid, a, s) ∈ desired_rows c revision t <-> held (co_GatewayID c) sid t = Some (a, s).
Proof.
  intros Hf. rewrite (desired_rows_in_force _ _ _ Hf), list_elem_of_omap. unfold held. split.
  - intros ([sid' a'] & [Ha Hg]%assignments_of_elem & Hs). cbn in Hs.
    destruct (g_sessions t !! sid') as [s'|] eqn:Hs'; [|done]. injection Hs as -> -> ->.
    rewrite Ha, Hs'. cbn. by rewrite bool_decide_eq_true_2.
  - destruct (g_assignments t !! sid) as [a'|] eqn:Ha; cbn; [|done].
    destruct (g_sessions t !! sid) as [s'|] eqn:Hs; cbn; [|done]. case_bool_decide as Hg; [|done].
    intros [= -> ->]. exists (sid, a). split; [by apply assignments_of_elem|]. cbn. by rewrite Hs.
Qed.

(** Rows with different ids have different non-empty names. *)
Lemma NoDup_named {A} (id_ name : A -> string) (l : list A) :
  NoDup (id_ <$> l) ->
  (forall x y, x ∈ l -> y ∈ l -> name x <> "" -> name x = name y -> id_ x = id_ y) ->
  NoDup (filter (fun n => n <> "") (name <$> l)).
Proof.
  induction l as [|x l IH]; rewrite ?fmap_nil, ?fmap_cons; [constructor|]. intros [Hx Hnd]%NoDup_cons Hinj.
  assert (IHl : NoDup (filter (fun n => n <> "") (name <$> l))).
  { apply IH; [done|]. intros y z Hy Hz. apply Hinj; by right. }
  rewrite filter_cons. case_decide as Hne; [|exact IHl]. apply NoDup_cons. split; [|exact IHl].
  intros [_ Hin]%list_elem_of_filter. apply list_elem_of_fmap in Hin as (y & Heq & Hy).
  apply Hx. rewrite (Hinj x y); [by apply list_elem_of_fmap_2|by left|by right|done|done].
Qed.

(** The message the control server sends, as the gateway's applier reads it. *)
Definition snapshot_of (d : ControlServer.DesiredState) : DesiredStateSnapshot :=
  MkDesiredStateSnapshot (dd_Revision d) (session_assignment <$> dd_Assignments d).

Definition told (historySyncMaxDays revision lease : Z) (p : string * AssignmentRecord * SessionRecord)
  : DesiredSession := desired_assignment historySyncMaxDays (desired_session revision lease p).

Lemma held_row gid sid t a s :
  held gid sid t = Some (a, s) <->
  g_assignments t !! sid = Some a /\ g_sessions t !! sid = Some s /\ ga_GatewayID a = gid.
Proof.
  unfold held. destruct (g_assignments t !! sid) as [a'|]; cbn; [|naive_solver].
  destruct (g_sessions t !! sid) as [s'|]; cbn; [|naive_solver]. case_bool_decide; naive_solver.
Qed.

Section Snapshot.
Variables (t : gdb) (c : GatewayConnection) (revision days : Z) (lease : GoTime).
Hypothesis (Hwf : assignments_wf t) (Hforce : in_force c revision t).

Abbreviation rows_of := (desired_rows c revision t).
Abbreviation told_of := (told days revision (UnixMilli lease)).

Lemma row_named sid a s : (sid, a, s) ∈ rows_of ->
  sid <> "" /\ ss_OrganizationID s <> "" /\ 0 < ga_AssignmentEpoch a.
Proof.
  intros (Ha & Hs & _)%(desired_rows_elem _ _ _ _ _ _ Hforce)%held_row. pose proof (aw_named _ Hwf sid s Hs) as [? ?].
  split; [done|]. split; [done|]. exact (aw_epochs _ Hwf sid a Ha).
Qed.

Lemma told_valid p : revision <> 0 -> p ∈ rows_of -> valid_assignment revision lease (told_of p) = true.
Proof.
  destruct p as [[sid a] s]. intros Hrev (Hsid & Horg & Hep)%row_named. unfold valid_assignment. cbn.
  rewrite !bool_decide_eq_false_2 by (try done; by destruct (desired_run s)).
  rewrite (proj2 (Z.eqb_neq _ 0)) by lia. rewrite Z.eqb_refl. cbn. unfold After.
  rewrite (proj2 (Z.ltb_lt _ _)); [done|]. unfold FromUnixMilli, UnixMilli, Millisecond.
  pose proof (Z.div_mod lease 1000000 ltac:(done)). pose proof (Z.mod_pos_bound lease 1000000 ltac:(done)). lia.
Qed.

Lemma told_device p : default "" (sa_device_jid (session_assignment (told_of p))) = default "" (ss_WAJID p.2).
Proof. destruct p as [[sid a] s]. cbn. by case_bool_decide as Hd. Qed.

Lemma rows_devices x y : x ∈ rows_of -> y ∈ rows_of -> default "" (ss_WAJID x.2) <> "" ->
  default "" (ss_WAJID x.2) = default "" (ss_WAJID y.2) -> x.1.1 = y.1.1.
Proof.
  destruct x as [[sid a] s], y as [[sid' a'] s']. cbn.
  intros (_ & Hs & _)%(desired_rows_elem _ _ _ _ _ _ Hforce)%held_row
         (_ & Hs' & _)%(desired_rows_elem _ _ _ _ _ _ Hforce)%held_row.
  destruct (ss_WAJID s) as [j|] eqn:Hj; cbn; [|done]. destruct (ss_WAJID s') as [j'|] eqn:Hj'; cbn; [|done].
  intros _ <-. by eapply (aw_devices _ Hwf).
Qed.

Lemma told_assignment_ok p :
  FromUnixMilli (UnixMilli lease) <> zero_time -> p ∈ rows_of ->
  assignment_ok (translate_assignment (session_assignment (told_of p))).
Proof.
  intros Hlease Hp. pose proof (told_device p) as Hdev. destruct p as [[sid a] s].
  destruct (row_named _ _ _ Hp) as (Hsid & Horg & Hep). unfold assignment_ok, translate_assignment.
  cbn [as_SessionID as_OrganizationID as_DesiredRun as_DeviceJID as_AssignmentEpoch as_LeaseExpiresAt].
  rewrite Hdev. cbn. split; [done|]. split; [done|]. split; [|split; [lia|]].
  - intros Hrun Hd. destruct (desired_run s) eqn:Hr; [|discriminate]. unfold desired_run in Hr.
    destruct (ss_WAJID s) as [j|]; cbn in *; [subst j; discriminate|done].
  - by rewrite UnixMilli_FromUnixMilli.
Qed.

Definition applied_snapshot : Snapshot :=
  MkSnapshot revision (translate_assignment <$> (session_assignment <$> (told_of <$> rows_of))).

Lemma applied_snapshot_valid :
  revision <> 0 -> FromUnixMilli (UnixMilli lease) <> zero_time -> validate applied_snapshot = None.
Proof.
  intros Hrev Hlease. apply validate_spec. unfold applied_snapshot. cbn [sn_Revision sn_Assignments].
  rewrite <- !list_fmap_compose. split; [done|]. split; [|split].
  - apply Forall_fmap, Forall_forall. intros p Hp. by apply told_assignment_ok.
  - rewrite (list_fmap_ext _ (fun q => q.1.1)); [by apply desired_rows_ids|]. by intros i [[sid a] s] _.
  - unfold devices. rewrite <- list_fmap_compose.
    rewrite (list_fmap_ext _ (fun q : string * AssignmentRecord * SessionRecord => default "" (ss_WAJID q.2)) rows_of).
    + apply (NoDup_named (fun q => q.1.1)); [by apply desired_rows_ids|]. by apply rows_devices.
    + intros i p _. exact (told_device p).
Qed.
End Snapshot.

Section Complete.
Context `{JSONLib}.

(** C17: the snapshot a gateway is given is complete, and both ends accept it. It
    is read under the gateway's accepted epoch and the desired revision in
    force, at one instant between the call and its return, although other
    processes write between its statements; it names every session assigned to
    the gateway then exactly once, with its device, epoch and settings; and it
    passes both the control server's validation and the gateway's own. *)
Theorem snapshot_is_complete_and_valid days gw epoch revision lease w d w'
    (Hwf : assignments_wf (aw_rows w)) (Hrely : relies desired_step (aw_handle w)) (Hrev : revision <> 0)
    (Hlease : FromUnixMilli (UnixMilli lease) <> zero_time)
    (Hrun : DesiredStateOf days gw epoch revision lease w = (inr d, w')) :
  dd_Revision d = revision /\ validDesiredState d lease = true /\
  validate (MkSnapshot (ds_revision (snapshot_of d)) (translate_assignment <$> ds_assignments (snapshot_of d))) = None /\
  exists t, desired_step (aw_rows w) t /\ desired_step t (aw_rows w') /\
    in_force (MkGatewayConnection gw epoch) revision t /\
    NoDup (de_SessionID <$> dd_Assignments d) /\
    forall x, x ∈ dd_Assignments d <-> exists sid a s, held gw sid t = Some (a, s) /\
      x = told days revision (UnixMilli lease) (sid, a, s).
Proof.
  unfold DesiredStateOf in Hrun. apply bind_returns in Hrun as (l & w1 & Hf & [= <- <-]). apply fenced_returns in Hf.
  apply repo_run in Hf as (h & Hrun & Hh).
  destruct (DesiredStateForEpoch_returns desired_step (fun _ _ H => H) _ _ _ _ _ _ Hrely Hrun) as (t & Hs1 & Hs2 & Hforce & ->).
  assert (Hwft : assignments_wf t) by by apply (dst_wf _ _ Hs1).
  cbn [dd_Revision dd_Assignments]. unfold validDesiredState, snapshot_of.
  cbn [dd_Revision dd_Assignments ds_revision ds_assignments]. rewrite <- list_fmap_compose.
  split; [done|]. split; [|split].
  - rewrite (proj2 (Z.eqb_neq revision 0)) by done. cbn. apply Is_true_true, forallb_True, Forall_fmap, Forall_forall. intros p Hp.
    apply Is_true_true. by apply (told_valid t (MkGatewayConnection gw epoch)).
  - pose proof (applied_snapshot_valid t _ revision days lease Hwft Hforce Hrev Hlease) as Hv. exact Hv.
  - exists t. split; [done|]. split; [unfold aw_rows; by rewrite Hh|]. split; [done|]. split.
    + rewrite <- list_fmap_compose. rewrite (list_fmap_ext _ (fun q => q.1.1)); [by eapply desired_rows_ids|].
      by intros i [[sid a] s] _.
    + intros x. rewrite list_elem_of_fmap. split.
      * intros ([[sid a] s] & -> & Hp%(desired_rows_elem _ _ _ _ _ _ Hforce)). eauto 10.
      * intros (sid & a & s & Hp & ->). exists (sid, a, s). split; [done|]. by apply desired_rows_elem.
Qed.
End Complete.

(** ** The gateway's report of an applied snapshot *)

Section Report.
Variables (t : gdb) (c : GatewayConnection) (revision : Z).
Hypothesis (Hwf : assignments_wf t) (Hforce : in_force c revision t).
Variables (paired unexpected : list string).
Hypothesis (Hpaired : NoDup paired) (Hnamed : "" ∉ paired).

Abbreviation rows_of := (desired_rows c revision t).
Abbreviation held_row_t := (string * AssignmentRecord * SessionRecord)%type.

Definition row_device (p : held_row_t) : string := default "" (ss_WAJID p.2).

(** The result of an assigned session, and of a device nobody assigned. *)
Definition row_result (p : held_row_t) : GatewayReconciliationResult :=
  MkStoredResult (Some p.1.1) (ga_AssignmentEpoch p.1.2) (row_device p)
    (if desired_run p.2 && negb (bool_decide (row_device p ∈ paired)) then "keystore_missing" else "applied").
Definition extra_result (jid : string) : GatewayReconciliationResult :=
  MkStoredResult None 0 jid unexpected_status.
Definition all_results : list GatewayReconciliationResult :=
  (row_result <$> rows_of) ++ (extra_result <$> unexpected).

Hypothesis (Hunexpected : NoDup unexpected /\
  forall jid, jid ∈ unexpected <-> jid ∈ paired /\ ~ (jid <> "" /\ exists p, p ∈ rows_of /\ row_device p = jid)).

Lemma unexpected_paired jid : jid ∈ unexpected <-> jid ∈ paired /\ jid ∉ row_device <$> rows_of.
Proof.
  destruct Hunexpected as [_ ->]. rewrite list_elem_of_fmap. split.
  - intros [Hin Hno]. split; [done|]. intros (p & -> & Hp). apply Hno. split; [|eauto]. intros He. by rewrite He in Hin.
  - intros [Hin Hno]. split; [done|]. intros (_ & p & Hp & Hd). apply Hno. eauto.
Qed.

Lemma all_sessions : omap sr_SessionID all_results = (fun p => p.1.1) <$> rows_of.
Proof.
  unfold all_results. rewrite omap_app, (omap_fmap_some _ _ (fun p => p.1.1)) by done.
  by rewrite omap_fmap_none, app_nil_r.
Qed.

Lemma all_devices : sr_DeviceJID <$> all_results = (row_device <$> rows_of) ++ unexpected.
Proof.
  unfold all_results. rewrite fmap_app, <- !list_fmap_compose. f_equal. by rewrite list_fmap_id.
Qed.

Lemma omap_null (l : list string) : omap null_string l = filter (fun n => n <> "") l.
Proof.
  induction l as [|n l IH]; [done|]. rewrite omap_cons, filter_cons, IH. unfold null_string.
  case_bool_decide; [by rewrite decide_False by auto|by rewrite decide_True].
Qed.

Lemma devices_once : NoDup (omap (fun r => null_string (sr_DeviceJID r)) all_results).
Proof.
  assert (Heq : omap (fun r => null_string (sr_DeviceJID r)) all_results = omap null_string (sr_DeviceJID <$> all_results)).
  { clear. induction all_results as [|r l IH]; [done|]. rewrite fmap_cons, !omap_cons, IH. done. }
  rewrite Heq, all_devices, omap_null, filter_app. apply NoDup_app. split; [|split].
  - apply (NoDup_named (fun q : held_row_t => q.1.1)); [by apply desired_rows_ids|].
    intros x y Hx Hy. by apply (rows_devices t c revision Hwf Hforce).
  - intros n [_ Hin]%list_elem_of_filter [_ Hu]%list_elem_of_filter. by apply unexpected_paired in Hu as [_ ?].
  - apply NoDup_filter, Hunexpected.
Qed.

Lemma row_true rep p :
  rt_GatewayID rep = co_GatewayID c -> rt_LocalDevices rep ≡ₚ paired ->
  p ∈ rows_of -> result_true t rep (row_result p).
Proof.
  intros Hgw Hlocal Hp. destruct p as [[sid a] s].
  pose proof (proj1 (desired_rows_elem _ _ _ _ _ _ Hforce) Hp) as (Ha & Hs & Hg)%held_row.
  destruct (row_named t c revision Hwf Hforce _ _ _ Hp) as (_ & _ & Hep).
  unfold result_true, row_result. cbn [sr_Status sr_SessionID sr_AssignmentEpoch sr_DeviceJID fst snd].
  rewrite bool_decide_eq_false_2 by (by destruct (_ && _)).
  exists sid, a, s. split; [done|]. split; [done|]. split; [done|]. split; [congruence|]. split; [done|].
  split; [lia|]. split; [done|]. rewrite Hlocal.
  case_bool_decide as Hin; cbn [negb]; [rewrite andb_false_r | rewrite andb_true_r]; split; try done.
  intros Hst Hrun. by rewrite Hrun in Hst.
Qed.

Lemma all_true rep :
  rt_GatewayID rep = co_GatewayID c -> rt_LocalDevices rep ≡ₚ paired ->
  Forall (result_true t rep) all_results.
Proof.
  intros Hgw Hlocal. apply Forall_app. split; apply Forall_fmap, Forall_forall.
  - intros p Hp. by apply row_true.
  - intros jid [Hin _]%unexpected_paired. unfold result_true, extra_result. cbn.
    split; [done|]. split; [done|]. rewrite Hlocal. split; [|done]. by intros ->.
Qed.

(** Such a report is one the API accepts. *)
Lemma report_of_snapshot_accepted rep :
  rt_GatewayID rep = co_GatewayID c -> rt_Epoch rep = co_ConnectionEpoch c -> rt_Revision rep = revision ->
  rt_KeystoreState rep ∈ keystore_states -> rt_LocalDevices rep ≡ₚ paired -> rt_Results rep = all_results ->
  report_accepted t rep.
Proof.
  intros Hgw He Hrev Hks Hlocal Hres. split; rewrite ?Hres.
  - destruct Hforce as (r & Hr & Her & Hv & Hu). unfold fenced_revision, at_epoch. rewrite Hgw, Hr. cbn.
    rewrite He, Her, Z.eqb_refl. unfold usable in Hu. destruct (live r); [|done]. cbn. congruence.
  - by rewrite Hlocal.
  - by apply all_true.
  - rewrite all_sessions. by apply desired_rows_ids.
  - rewrite all_sessions. intros sid a s Ha Hs Hg. rewrite Hgw in Hg. apply list_elem_of_fmap. exists (sid, a, s).
    split; [done|]. apply desired_rows_elem; [done|]. by apply held_row.
  - intros jid Hin. rewrite Hlocal in Hin. rewrite all_devices, elem_of_app.
    destruct (decide (jid ∈ row_device <$> rows_of)) as [Hw|Hw]; [by left|right]. by apply unexpected_paired.
  - exact devices_once.
  - split; [done|]. apply Forall_app. split; apply Forall_fmap, Forall_forall; intros x _; cbn; [|set_solver].
    destruct (_ && _); set_solver.
Qed.

(** It is healthy when every device to run is here and every device here is
    assigned. *)
Lemma report_of_snapshot_healthy rep :
  rt_Results rep = all_results ->
  report_degraded rep = false <->
  rt_KeystoreState rep = "healthy" /\
  (forall sid a s, held (co_GatewayID c) sid t = Some (a, s) -> desired_run s = true -> default "" (ss_WAJID s) ∈ paired) /\
  (forall jid, jid ∈ paired -> exists sid a s, held (co_GatewayID c) sid t = Some (a, s) /\ ss_WAJID s = Some jid).
Proof.
  intros Hres. unfold report_degraded. rewrite orb_false_iff, Hres. unfold all_results.
  rewrite existsb_app, orb_false_iff, !existsb_false, !Forall_fmap, !Forall_forall, negb_false_iff, bool_decide_eq_true.
  apply and_iff_compat_l. split.
  - intros [Hrows Hextra]. split.
    + intros sid a s Hh Hrun. specialize (Hrows (sid, a, s) (proj2 (desired_rows_elem _ _ _ _ _ _ Hforce) Hh)).
      unfold compose, row_result, row_device in Hrows. cbn [fst snd sr_Status] in Hrows. rewrite Hrun in Hrows.
      destruct (decide (default "" (ss_WAJID s) ∈ paired)) as [Hin|Hno]; [done|].
      by rewrite (bool_decide_eq_false_2 _ Hno) in Hrows.
    + intros jid Hin. destruct (decide (jid ∈ row_device <$> rows_of)) as [Hw|Hw].
      * apply list_elem_of_fmap in Hw as ([[sid a] s] & -> & Hp%(desired_rows_elem _ _ _ _ _ _ Hforce)).
        exists sid, a, s. split; [done|]. unfold row_device in *. cbn in *. destruct (ss_WAJID s); [done|by cbn in Hin].
      * assert (Hu : jid ∈ unexpected) by by apply unexpected_paired. by specialize (Hextra _ Hu).
  - intros [Hrun Hassigned]. split.
    + intros [[sid a] s] Hp%(desired_rows_elem _ _ _ _ _ _ Hforce). specialize (Hrun _ _ _ Hp).
      unfold compose, row_result, row_device. cbn [fst snd sr_Status].
      destruct (desired_run s); [|done]. by rewrite (bool_decide_eq_true_2 _ (Hrun eq_refl)).
    + intros jid [Hin Hno]%unexpected_paired. exfalso. apply Hno. destruct (Hassigned _ Hin) as (sid & a & s & Hh & Hj).
      apply list_elem_of_fmap. exists (sid, a, s). split; [unfold row_device; cbn; by rewrite Hj|].
      by apply desired_rows_elem.
Qed.
End Report.

(** The frame the gateway sends for its report. *)
Definition received (report : DesiredStateReport) (size checkedAt : option Z) : ReceivedReport :=
  MkReceivedReport (dr_connection_epoch report) (dr_processed_revision report)
    (Some (MkKeystoreHealth (dr_keystore_health report) size checkedAt)) (dr_local_devices report) (dr_results report).

Section Acknowledged.
Context `{JSONLib}.

Definition corrupt_result (jid : string) : GatewayReconciliationResult :=
  MkStoredResult None 0 jid "keystore_corrupt".

Lemma stored_results t gw epoch revision days lease now inventory unexpected corrupt :
  now < FromUnixMilli (UnixMilli lease) ->
  let c := MkGatewayConnection gw epoch in
  let d := MkDesiredState revision (told days revision (UnixMilli lease) <$> desired_rows c revision t) in
  (fun r => MkStoredResult (rr_session_id r) (rr_assignment_epoch r) (rr_device_jid r) (result_status (rr_status r))) <$>
    ((fun item => MkReconciliationResult (Some (sa_session_id item)) (sa_assignment_epoch item)
                    (default "" (sa_device_jid item)) (item_status now inventory item))
       <$> ds_assignments (snapshot_of d))
      ++ jidResults unexpected RECONCILIATION_RESULT_STATUS_UNEXPECTED_LOCAL_DEVICE
      ++ jidResults corrupt RECONCILIATION_RESULT_STATUS_KEYSTORE_CORRUPT
  = all_results t c revision (inv_PairedJIDs inventory) unexpected ++ (corrupt_result <$> corrupt).
Proof.
  intros Hlive c d. unfold snapshot_of, all_results. cbn [ds_assignments dd_Assignments d].
  rewrite !fmap_app, <- app_assoc. f_equal; [|unfold jidResults; by rewrite <- !list_fmap_compose].
  rewrite <- !list_fmap_compose. apply list_fmap_ext. intros i p _.
  pose proof (told_device revision days lease p) as Hdev. destruct p as [[sid a] s].
  unfold compose, row_result, row_device, item_status, to_run, lease_live, After.
  cbn [fst snd rr_session_id rr_assignment_epoch rr_device_jid rr_status translate_assignment
       as_DesiredRun as_DeviceJID as_LeaseExpiresAt]. rewrite Hdev. cbn [fst snd].
  cbn [told desired_assignment desired_session session_assignment sa_session_id sa_assignment_epoch
       sa_lease_expires_at_unix_ms sa_desired_action de_SessionID de_AssignmentEpoch de_LeaseExpiresAt
       de_DesiredAction dr_SessionID dr_AssignmentEpoch dr_LeaseExpiresAt dr_DesiredRun].
  rewrite !UnixMilli_FromUnixMilli, (proj2 (Z.ltb_lt _ _) Hlive), andb_true_r. f_equal.
  destruct (desired_run s); cbn [sessionDesiredAction].
  - rewrite bool_decide_eq_true_2 by done. by case_bool_decide.
  - by rewrite bool_decide_eq_false_2.
Qed.

(** The session to run and the devices here agree. *)
Definition inventory_agrees (gw : string) (t : gdb) (paired : list string) : Prop :=
  (forall sid a s, held gw sid t = Some (a, s) -> desired_run s = true -> default "" (ss_WAJID s) ∈ paired) /\
  (forall jid, jid ∈ paired -> exists sid a s, held gw sid t = Some (a, s) /\ ss_WAJID s = Some jid).

Lemma quiet_reads c revision lease : respects (keeps quiet) (DesiredStateForEpoch c revision lease).
Proof.
  unfold DesiredStateForEpoch, current_revision, query_row, query.
  repeat match goal with
  | |- respects _ (if ?b then _ else _) => destruct b
  | |- respects _ (match ?x with _ => _ end) => destruct x
  | |- respects _ (mbind _ _) => apply respects_bind; [apply _| |intros ?]
  | |- respects _ (map_err _ _) => apply respects_map_err
  | |- respects _ (attempt _) => apply respects_attempt
  | |- respects _ (throw _) => apply respects_throw, _
  | |- respects _ (mret _) => apply respects_ret, _
  end; apply stmt_quiet.
Qed.

Context `{EnvelopeCodec} `{MySQL} `{IngestCodec} `{MapRange} {E : Type}.
Context (Now : nat -> GoTime) (NewULID : nat -> string) (days : Z) (eventIngest : bool).
Context (MediaCapture : option (EventIngest.GatewayEvent -> goerr + bytes)).

#[local] Instance api_store : ControlStore api_world :=
  gatewayControlStore Now NewULID days true eventIngest MediaCapture.

(** The report of an applied snapshot, as the repository gets it. *)
Lemma applied_report_stored (rt : Runtime E) health now gw epoch revision lease w d w1 a report a' size checkedAt :
  quiet (aw_handle w) -> assignments_wf (aw_rows w) ->
  DesiredStateOf days gw epoch revision lease w = (inr d, w1) ->
  ApplyDesiredState (Some rt) health now epoch (snapshot_of d) a = (inr report, a') ->
  rc_revision (ca_Reconciler a) <= revision -> now < FromUnixMilli (UnixMilli lease) ->
  quiet (aw_handle w1) /\ aw_rows w1 = aw_rows w /\
  in_force (MkGatewayConnection gw epoch) revision (aw_rows w) /\
  exists inventory unexpected corrupt,
    inventory_of rt (ca_Reconciler a) = inr inventory /\ corrupt ≡ₚ inv_CorruptJIDs inventory /\
    dr_connection_epoch report = epoch /\
    (NoDup unexpected /\ forall jid, jid ∈ unexpected <-> jid ∈ inv_PairedJIDs inventory /\
       ~ (jid <> "" /\ exists p, p ∈ desired_rows (MkGatewayConnection gw epoch) revision (aw_rows w) /\ row_device p = jid)) /\
    forall hs, let stored := stored_report gw epoch
        (reconciliationReport (received report size checkedAt) (MkKeystoreHealth hs size checkedAt)) in
      rt_Revision stored = revision /\ rt_LocalDevices stored ≡ₚ inv_PairedJIDs inventory /\
      rt_Results stored = all_results (aw_rows w) (MkGatewayConnection gw epoch) revision
        (inv_PairedJIDs inventory) unexpected ++ (corrupt_result <$> corrupt) /\
      dr_keystore_health report = default KEYSTORE_HEALTH_STATE_HEALTHY health.
Proof.
  intros Hquiet Hwf Hrun Happly Hfresh Hlive.
  unfold DesiredStateOf in Hrun. apply bind_returns in Hrun as (l & w2 & Hf & [= <- <-]). apply fenced_returns in Hf.
  apply repo_run in Hf as (h & Hrun & Hh).
  destruct (DesiredStateForEpoch_returns eq ltac:(intros ? ? ->; reflexivity) _ _ _ _ _ _ (quiet_relies _ _ Hquiet) Hrun)
    as (t & Ht & Ht' & Hforce & ->).
  unfold aw_rows. rewrite Ht, Hh. split; [exact (quiet_reads _ _ _ _ _ _ Hrun Hquiet)|]. split; [congruence|]. split; [done|].
  set (c := MkGatewayConnection gw epoch) in *. set (rs := desired_rows c revision t) in *.
  assert (Hd : desired_assignment days <$> (desired_session revision (UnixMilli lease) <$> rs) =
               told days revision (UnixMilli lease) <$> rs) by (by rewrite <- list_fmap_compose).
  rewrite Hd in Happly.
  destruct (report_matches_outcome rt health now epoch _ a a' report Happly Hfresh)
    as (inventory & unexpected & corrupt & Hinv & He & Hrev & Hks & Hlocal & Hres & Hun & Hnd & Hcor).
  exists inventory, unexpected, corrupt. split; [done|]. split; [done|]. split; [done|]. split.
  - split; [done|]. intros jid. rewrite Hun. apply and_iff_compat_l, not_iff_compat, and_iff_compat_l.
    unfold snapshot_of. cbn [ds_assignments dd_Assignments]. split.
    + intros (item & (x & -> & (p & -> & Hp)%list_elem_of_fmap)%list_elem_of_fmap & Hdev). exists p.
      split; [done|]. by rewrite told_device in Hdev.
    + intros (p & Hp & Hdev). exists (session_assignment (told days revision (UnixMilli lease) p)).
      split; [by do 2 apply list_elem_of_fmap_2|]. by rewrite told_device.
  - intros hs. cbn [stored_report reconciliationReport received rt_Revision rt_LocalDevices rt_Results re_Revision
      re_LocalDevices re_Results rp_ProcessedRevision rp_LocalDevices rp_Results].
    split; [done|]. split; [done|]. split; [|done].
    pose proof (stored_results t gw epoch revision days lease now inventory unexpected corrupt Hlive) as Hst.
    cbn zeta in Hst. fold c in Hst. rewrite <- Hst, <- list_fmap_compose, Hres. done.
Qed.

(** What the report handler does with the report of an established connection. *)
Lemma handler_persists gw conn report size checkedAt st (wc : conn_world api_world) r wc' epoch :
  cn_Epoch conn = epoch -> epoch <> 0 -> dr_connection_epoch report = epoch ->
  dr_keystore_health report <> KEYSTORE_HEALTH_STATE_UNKNOWN ->
  on_report gw conn (Some (received report size checkedAt)) st wc = (r, wc') ->
  exists at_ h rp,
    Persist (stored_report gw epoch (reconciliationReport (received report size checkedAt)
               (MkKeystoreHealth (dr_keystore_health report) size checkedAt))) at_ (aw_handle (w_store wc)) = (rp, h) /\
    aw_handle (w_store wc') = h /\
    r = match rp with inl e => inl (storeStatus (unavailable e)) | inr _ => inr st end.
Proof.
  intros <- Hne He Hks. unfold on_report, validateDesiredStateReport, received.
  cbn [rp_KeystoreHealth rp_ConnectionEpoch kh_State]. rewrite He, (proj2 (Z.eqb_neq _ _) Hne), Z.eqb_refl.
  set (hs := dr_keystore_health report) in *.
  assert (Hv : forall A (x y : A), match hs with KEYSTORE_HEALTH_STATE_UNKNOWN => x | _ => y end = y) by (intros; by destruct hs).
  cbn [negb orb]. rewrite Hv. unfold mbind, M_bind, lift_result, map_err, call. cbn [cs_PersistDesiredStateReport api_store gatewayControlStore].
  unfold PersistDesiredStateReport. cbn [negb]. unfold mbind, M_bind, nowMillis, map_err, repo. cbn [aw_handle aw_ticks aw_ids].
  destruct (Persist _ _ (aw_handle (w_store wc))) as [rp h] eqn:Hp.
  intros Hrun. eexists _, _, rp. split; [exact Hp|]. destruct rp as [e|u]; injection Hrun as <- <-; done.
Qed.

(** The keystore state of the report, when the gateway names one. *)
Definition named_health (health : option KeystoreHealthState) : Prop :=
  health = None \/ health = Some KEYSTORE_HEALTH_STATE_HEALTHY \/
  health = Some KEYSTORE_HEALTH_STATE_MISSING \/ health = Some KEYSTORE_HEALTH_STATE_CORRUPT.

(** The loop of desired state closes. When nothing else writes and the
    database does not fail, the report the gateway makes of a snapshot it
    applied under a live lease is stored by the control server's report handler:
    the applied revision becomes the snapshot's, and the gateway is healthy
    exactly when its keystore is and its devices are those of its sessions. A
    report that names a corrupt device, however, is always refused, and the
    stored state stays what it was. *)
Theorem applied_snapshot_is_acknowledged (rt : Runtime E) health now gw epoch revision lease w d w1 a report a'
    size checkedAt inventory conn st (wc : conn_world api_world) r wc'
    (Hquiet : quiet (aw_handle w)) (Hwf : assignments_wf (aw_rows w))
    (Hrun : DesiredStateOf days gw epoch revision lease w = (inr d, w1))
    (Happly : ApplyDesiredState (Some rt) health now epoch (snapshot_of d) a = (inr report, a'))
    (Hfresh : rc_revision (ca_Reconciler a) <= revision) (Hlive : now < FromUnixMilli (UnixMilli lease))
    (Hinv : inventory_of rt (ca_Reconciler a) = inr inventory)
    (Hdevices : NoDup (inv_PairedJIDs inventory) /\ "" ∉ inv_PairedJIDs inventory) (Hhealth : named_health health)
    (Hepoch : cn_Epoch conn = epoch /\ epoch <> 0) (Hw1 : w_store wc = w1)
    (Hreport : on_report gw conn (Some (received report size checkedAt)) st wc = (r, wc')) :
  let t := aw_rows w in let t' := aw_rows (w_store wc') in
  if bool_decide (inv_CorruptJIDs inventory = []) then
    r = inr st /\ exists g', g_gateways t' !! gw = Some g' /\ gi_AppliedRevision (gw_intent g') = revision /\
      (gk_ReconciliationStatus (gw_keystore g') = "healthy" <->
       default KEYSTORE_HEALTH_STATE_HEALTHY health = KEYSTORE_HEALTH_STATE_HEALTHY /\
       inventory_agrees gw t (inv_PairedJIDs inventory))
  else (exists e, r = inl e) /\ t' = t.
Proof.
  intros t t'. destruct Hepoch as [Hep Hne], Hdevices as [Hnd Hnn].
  destruct (applied_report_stored rt health now gw epoch revision lease w d w1 a report a' size checkedAt
    Hquiet Hwf Hrun Happly Hfresh Hlive) as (Hq1 & Hr1 & Hforce & inv' & unexpected & corrupt & Hinv' & Hcor & Hre & Hun & Hstored).
  rewrite Hinv in Hinv'. injection Hinv' as <-. specialize (Hstored (dr_keystore_health report)).
  destruct Hstored as (Hrev & Hlocal & Hres & Hks). fold t in Hforce, Hun, Hres.
  set (stored := stored_report gw epoch _) in *.
  assert (Hkst : rt_KeystoreState stored = keystore_state (default KEYSTORE_HEALTH_STATE_HEALTHY health)).
  { unfold stored. cbn. by rewrite Hks. }
  destruct (handler_persists gw conn report size checkedAt st wc r wc' epoch Hep Hne Hre) as (at_ & h & rp & Hp & Hh & Hr);
    [by rewrite Hks; destruct Hhealth as [-> |[-> |[-> | ->]]] | exact Hreport|].
  fold stored in Hp. rewrite Hw1 in Hp.
  assert (Ht' : t' = sh_rows h) by (unfold t', aw_rows; by rewrite Hh). clearbody t'. subst t'.
  pose proof (Persist_result _ _ _ _ _ Hp) as Hresult. cbn zeta in Hresult.
  rewrite (quiet_rows _ Hq1) in Hresult. change (rows (sh_db (aw_handle w1))) with (aw_rows w1) in Hresult.
  rewrite Hr1 in Hresult. fold t in Hresult. case_bool_decide as Hc.
  - assert (corrupt = []) as -> by (apply Permutation_nil_r; by rewrite Hcor, Hc).
    rewrite app_nil_r in Hres.
    assert (Hacc : report_accepted t stored).
    { apply (report_of_snapshot_accepted t (MkGatewayConnection gw epoch) revision Hwf Hforce
        (inv_PairedJIDs inventory) unexpected Hnd Hnn Hun); try done.
      rewrite Hkst. unfold keystore_states. destruct Hhealth as [-> |[-> |[-> | ->]]]; cbn; set_solver. }
    assert (Hok : rp = inr tt).
    { eapply (Persist_total _ _ _ _ _ Hp); [|apply Hq1|]; rewrite (quiet_rows _ Hq1);
        change (rows (sh_db (aw_handle w1))) with (aw_rows w1); rewrite Hr1; [apply Hwf|exact Hacc]. }
    subst rp. split; [done|]. destruct Hresult as (_ & g & Hg & ->).
    exists (reported_row stored (report_degraded stored) at_ g). cbn [persisted with_gateways g_gateways].
    split; [apply lookup_insert_eq|]. split; [exact Hrev|].
    pose proof (report_of_snapshot_healthy t (MkGatewayConnection gw epoch) revision Hforce
      (inv_PairedJIDs inventory) unexpected Hnn Hun stored Hres) as Hhealthy.
    unfold inventory_agrees. cbn [co_GatewayID] in Hhealthy.
    assert (Hks' : rt_KeystoreState stored = "healthy" <->
      default KEYSTORE_HEALTH_STATE_HEALTHY health = KEYSTORE_HEALTH_STATE_HEALTHY).
    { rewrite Hkst. by destruct Hhealth as [-> |[-> |[-> | ->]]]. }
    rewrite <- Hks', <- Hhealthy. cbn. by destruct (report_degraded stored).
  - assert (Hno : ~ report_accepted t stored).
    { intros Hacc. pose proof (ra_results _ _ Hacc) as HF. rewrite Hres in HF. apply Forall_app in HF as [_ HF].
      destruct corrupt as [|jid corrupt]; [by apply Hc, Permutation_nil_r|].
      apply Forall_cons in HF as [Hbad _]. unfold result_true, corrupt_result in Hbad. cbn in Hbad.
      by destruct Hbad as (sid & a0 & s0 & [=] & _). }
    destruct rp as [e|u]; [|by destruct Hresult]. split; [eauto|exact Hresult].
Qed.
End Acknowledged.

(** ** A superseded stream *)

Section Superseded.
Context `{JSONLib} `{EnvelopeCodec} `{MySQL} `{IngestCodec} `{EventCodec}.
Context (Now : nat -> GoTime) (NewULID : nat -> string) (days : Z) (reconciliation eventIngest : bool).
Context (MediaCapture : option (EventIngest.GatewayEvent -> goerr + bytes)).

#[local] Instance superseded_store : ControlStore api_world :=
  gatewayControlStore Now NewULID days reconciliation eventIngest MediaCapture.

Variables (c : GatewayConnection) (h0 : shared gdb).
Abbreviation inert := (idle (superseded c) h0).
Abbreviation inert_api := (fun w : api_world => inert (aw_handle w)).
(** The call fails and writes nothing. *)
Abbreviation refused m := (triple inert_api m (fun _ _ => False) inert_api).

Lemma triple_repo {A} (P X : shared gdb -> Prop) (m : M (shared gdb) A) Q :
  triple P m Q X ->
  triple (fun w => P (aw_handle w)) (repo m) (fun a w => Q a (aw_handle w)) (fun w => X (aw_handle w)).
Proof.
  intros Hm w r w' Hw Hrun. destruct (repo_run _ _ _ _ Hrun) as (h & Hh & Heq). specialize (Hm _ _ _ Hw Hh).
  by destruct r; rewrite Heq.
Qed.

Lemma refused_tick {A} (k : Z -> M api_world A) : (forall at_, refused (k at_)) -> refused (at_ ← nowMillis Now; k at_).
Proof.
  intros Hk w r w' Hw Hrun. unfold mbind, M_bind, nowMillis in Hrun. by apply (Hk _ _ _ _ (Hw : inert_api (MkApiWorld _ _ _)) Hrun).
Qed.

(** What a method computes with its result does not matter. *)
Lemma triple_of_mapped {W A B} P (m : M W A) (f : A -> B) Q X :
  triple P (r ← m; mret (f r)) Q X -> triple P m (fun r => Q (f r)) X.
Proof.
  intros Hm w r w' Hw Hrun. specialize (Hm w (match r with inl e => inl e | inr a => inr (f a) end) w' Hw).
  unfold mbind, M_bind in Hm. rewrite Hrun in Hm. destruct r; by apply Hm.
Qed.

Lemma refused_fenced {A} (m : M (shared gdb) (option A)) :
  triple inert m (fun r h => negb (is_none r) = false /\ inert h) inert -> refused (fenced (repo m)).
Proof.
  intros Hm. unfold fenced. eapply triple_bind with (R := fun r w => (forall a, r <> inr (Some a)) /\ inert_api w).
  { eapply triple_attempt with (X' := inert_api); [|by intros e w Hw].
    eapply triple_weaken; [apply (triple_repo _ _ _ _ Hm)|done| |done]. intros [a|] w [Hr Hw]; [done|]. by split. }
  intros r. apply triple_pure. intros Hr. destruct r as [err|[a|]]; [by apply triple_throw| |by apply triple_throw].
  by destruct (Hr a).
Qed.

Lemma refused_write m :
  triple inert m (fun b h => b = false /\ inert h) inert -> refused (fenced_write (repo m)).
Proof.
  intros Hm. unfold fenced_write. eapply triple_bind with (R := fun r w => r <> inr true /\ inert_api w).
  { eapply triple_attempt with (X' := inert_api); [|by intros e w Hw].
    eapply triple_weaken; [apply (triple_repo _ _ _ _ Hm)|done| |done]. by intros b w [-> Hw]. }
  intros r. apply triple_pure. intros Hr. destruct r as [err|[|]]; [by apply triple_throw|done|by apply triple_throw].
Qed.

Lemma heartbeat_refused h : refused (HeartbeatOf Now (co_GatewayID c) (co_ConnectionEpoch c) h).
Proof.
  unfold HeartbeatOf. destruct (runtimeGatewayStatus _) as [s|]; [|by apply triple_throw].
  apply refused_tick. intros at_. eapply triple_bind with (R := fun _ _ => False); [|by intros a w r w' []].
  apply refused_fenced. set (hb := heartbeat_report _ _ _ _).
  apply (triple_of_mapped inert (HeartbeatForEpoch hb at_) (fun r => negb (is_none r)) (fun b w => b = false /\ inert w)).
  assert (Hc : c = op_connection (FencedHeartbeat hb)) by (by destruct c).
  pose proof (run_fenced_inert (FencedHeartbeat hb) at_ h0) as Hrun. cbn zeta in Hrun. rewrite <- Hc in Hrun. exact Hrun.
Qed.

Lemma desired_refused revision lease : refused (DesiredStateOf days (co_GatewayID c) (co_ConnectionEpoch c) revision lease).
Proof.
  unfold DesiredStateOf. eapply triple_bind with (R := fun _ _ => False); [|by intros a w r w' []].
  apply refused_fenced. replace (MkGatewayConnection _ _) with c by (by destruct c).
  apply (triple_of_mapped inert (DesiredStateForEpoch c revision (UnixMilli lease)) (fun r => negb (is_none r))
    (fun b w => b = false /\ inert w)).
  exact (run_fenced_inert (FencedDesiredState c revision (UnixMilli lease)) 0 h0).
Qed.

Lemma lifecycle_refused report : refused (Lifecycle Now (co_GatewayID c) (co_ConnectionEpoch c) report).
Proof.
  unfold Lifecycle. destruct (runtimeGatewayStatus _) as [s|]; [|by apply triple_throw].
  apply refused_tick. intros at_. replace (MkGatewayConnection _ _) with c by (by destruct c).
  apply refused_write. exact (run_fenced_inert (FencedStatus c s) at_ h0).
Qed.

Lemma report_refused report :
  refused (PersistDesiredStateReport Now reconciliation (co_GatewayID c) (co_ConnectionEpoch c) report).
Proof.
  unfold PersistDesiredStateReport. destruct reconciliation; cbn [negb]; [|by apply triple_throw].
  apply refused_tick. intros at_. apply triple_map_err, (triple_repo _ _ _ (fun _ _ => False)).
  eapply triple_weaken; [apply (triple_idle (superseded c) (fun _ => False))|done|by intros a w []|done].
  intros d r d' Hs Hd. destruct r as [e|u]; [by apply with_rollback_error in Hd|]. exfalso.
  apply with_rollback_returns, bind_returns in Hd as (v & d1 & Hb & Hbody). apply query_returns in Hb as [_ Hd1].
  apply persist_body_returns in Hbody as [[Hf _ _ _ _ _ _ _] _]. rewrite Hd1 in Hf.
  destruct (fenced_revision_row _ _ _ _ Hf) as (g & Hg & He & Hl & _). cbn in Hg, He.
  destruct Hs as (g' & Hg' & Hs). rewrite Hg in Hg'. injection Hg' as <-. unfold at_epoch in He. to_prop.
  destruct Hs as [Hs|Hs]; [lia|congruence].
Qed.

(** An event of the connection is not owned. *)
Lemma superseded_not_owned ev t :
  gv_GatewayID ev = co_GatewayID c -> gv_ConnectionEpoch ev = co_ConnectionEpoch c ->
  superseded c t -> count_owned ev (event_view t) <> 1.
Proof.
  intros Hgw He (g & Hg & Hs). unfold count_owned, event_view. cbn [t_assignments t_sessions t_gateways].
  rewrite !lookup_fmap. destruct (g_assignments t !! gv_SessionID ev) as [a|]; cbn; [|done].
  destruct (g_sessions t !! gv_SessionID ev) as [s|]; cbn; [|done].
  rewrite lookup_fmap. case_bool_decide as Ha.
  - rewrite Ha, Hgw, Hg. cbn. rewrite He. destruct Hs as [Hs|Hs].
    + rewrite (proj2 (Z.eqb_neq (gw_ConnectionEpoch g) _)) by lia. by rewrite !andb_false_r.
    + unfold live in Hs. rewrite Hs. by rewrite !andb_false_r.
  - by destruct (g_gateways t !! ga_GatewayID a).
Qed.

Lemma stored_batch_connection gw epoch events batch :
  stored_batch gw epoch events = inr batch ->
  Forall (fun ev => gv_GatewayID ev = gw /\ gv_ConnectionEpoch ev = epoch) batch.
Proof.
  revert batch. induction events as [|e events IH]; intros batch; cbn [stored_batch]; [intros [= <-]; constructor|].
  destruct (decodeGatewayEventPayload e); [done|]. destruct (stored_batch gw epoch events) as [|rest]; [done|].
  intros [= <-]. constructor; [done|auto].
Qed.

Lemma with_events_same t : with_events (MkEventTables (ev_ingested (g_events t)) (ev_log (g_events t))
  (ev_autoinc (g_events t)) (ev_claims (g_events t))) t = t.
Proof. by destruct t as [? ? ? ? ? ? ? []]. Qed.

Lemma events_refused events :
  refused (IngestEvents Now eventIngest MediaCapture (co_GatewayID c) (co_ConnectionEpoch c) events).
Proof.
  unfold IngestEvents. destruct eventIngest; cbn [negb]; [|by apply triple_throw].
  destruct (stored_batch _ _ events) as [err|batch] eqn:Hb; [by apply triple_throw|].
  apply stored_batch_connection in Hb. eapply triple_bind with (R := fun l w => l = batch /\ inert_api w);
    [by apply triple_lift|]. intros l. apply triple_pure. intros ->.
  apply refused_tick. intros at_. apply triple_map_err, (triple_repo _ _ _ (fun _ _ => False)).
  eapply triple_weaken; [apply (triple_idle (superseded c) (fun _ => False))|done|by intros a w []|done].
  intros d r d' Hs Hd. unfold GatewayTables.on_events in Hd.
  destruct (IngestBatch _ _ _ _) as [r0 d0] eqn:Hi. injection Hd as -> <-. cbn [rows]. destruct r as [e|[]].
  - assert (Hsame : rows d0 = event_view (rows d)).
    { unfold IngestBatch in Hi. destruct (bool_decide _); [by injection Hi as _ <-|]. by apply with_rollback_error in Hi. }
    split; [|done]. rewrite Hsame. cbn. apply with_events_same.
  - exfalso. apply IngestBatch_returns in Hi as [Hne Hall]. destruct batch as [|ev batch]; [done|].
    apply Forall_cons in Hb as [[Hgw He] _]. destruct Hall as (t1 & [Ho _] & _). by apply (superseded_not_owned ev (rows d)) in Ho.
Qed.
(** *** On the stream *)

Variable (frames : list ControlFrame).
Abbreviation silent := (fun wc : conn_world api_world =>
  inert (aw_handle (w_store wc)) /\ sent_frames (w_trace wc) = frames).
(** The frame ends the stream: nothing is sent and nothing written. *)
Abbreviation ends m := (triple silent m (fun _ _ => False) silent).

Lemma ends_call {A} (op : M api_world A) act :
  refused op -> (forall r, sent_frames [act r] = []) -> ends (map_err storeStatus (call op act)).
Proof.
  intros Hop Hact. apply triple_map_err. intros wc r wc' [Hi Hs] Hrun. unfold call in Hrun.
  destruct (op (w_store wc)) as [r0 s'] eqn:Hc. injection Hrun as <- <-. specialize (Hop _ _ _ Hi Hc).
  destruct r0 as [e|a]; [|done]. cbn. split; [exact Hop|]. unfold sent_frames in *. rewrite omap_app, Hs.
  pose proof (Hact (inl e)) as ->. by rewrite app_nil_r.
Qed.

Lemma ends_bind {A B} (m : M (conn_world api_world) A) (k : A -> M (conn_world api_world) B) :
  ends m -> ends (m ≫= k).
Proof. intros Hm. eapply triple_bind; [exact Hm|]. by intros a w r w' []. Qed.

Lemma ends_lift {A B} (r0 : goerr + A) (k : A -> M (conn_world api_world) B) :
  (forall a, ends (k a)) -> ends (lift_result r0 ≫= k).
Proof.
  intros Hk. eapply triple_bind with (R := fun _ => silent); [|exact Hk]. apply triple_lift. by destruct r0.
Qed.

Lemma frame_ends conn sequence payload st :
  cn_Epoch conn = co_ConnectionEpoch c -> ends (on_frame Now (co_GatewayID c) conn sequence payload st).
Proof.
  intros He. unfold on_frame. destruct payload as [p|p|p|p|p]; cbn zeta; [by apply triple_throw|..].
  - unfold on_heartbeat. apply ends_lift. intros h. destruct (negb _); [by apply triple_throw|]. cbn zeta.
    destruct (_ || _); [by apply triple_throw|]. rewrite He. apply ends_bind, ends_call; [apply heartbeat_refused|done].
  - unfold on_lifecycle. destruct (st_pending st) as [d|]; [|by apply triple_throw]. apply ends_lift. intros report.
    rewrite He. apply ends_bind, ends_call; [apply lifecycle_refused|done].
  - unfold on_report. apply ends_lift. intros [report health]. rewrite He.
    apply ends_bind, ends_call; [apply report_refused|done].
  - unfold on_events. rewrite He. apply ends_lift. intros events. apply ends_bind, ends_call; [apply events_refused|done].
Qed.

Lemma serve_silent conn arrivals expected st :
  cn_Epoch conn = co_ConnectionEpoch c ->
  triple silent (serve Now (co_GatewayID c) conn arrivals expected st) (fun _ => silent) silent.
Proof.
  intros He. destruct arrivals as [|[frame|err| |err] rest]; cbn [serve].
  - by apply triple_throw.
  - apply triple_throws, ends_lift. intros payload. apply ends_bind. by apply frame_ends.
  - destruct (errors_is EOF err); [by apply triple_ret|by apply triple_throw].
  - by apply triple_throw.
  - by apply triple_throw.
Qed.

Lemma serve_ends conn frame rest expected st :
  cn_Epoch conn = co_ConnectionEpoch c ->
  ends (serve Now (co_GatewayID c) conn (Arrived frame :: rest) expected st).
Proof. intros He. cbn [serve]. apply ends_lift. intros payload. apply ends_bind. by apply frame_ends. Qed.
End Superseded.

Section Silenced.
Context `{JSONLib} `{EnvelopeCodec} `{MySQL} `{IngestCodec} `{EventCodec}.
Context (Now : nat -> GoTime) (NewULID : nat -> string) (days : Z) (reconciliation eventIngest : bool).
Context (MediaCapture : option (EventIngest.GatewayEvent -> goerr + bytes)).

#[local] Instance silenced_store : ControlStore api_world :=
  gatewayControlStore Now NewULID days reconciliation eventIngest MediaCapture.

(** C9: a superseded stream is silenced. Once a newer connection, a disablement,
    a re-enrollment or a deletion superseded a control connection, the first
    frame the older one still receives ends it: whatever the frame, the clock
    and the database do, no frame is sent any more, no event acknowledged, and
    every later change of the tables is one of other processes. *)
Theorem superseded_stream_is_silenced gw conn arrivals expected st (wc : conn_world api_world) r wc'
    (Hs : superseded (MkGatewayConnection gw (cn_Epoch conn)) (aw_rows (w_store wc)))
    (Hrely : relies registry_grows (aw_handle (w_store wc)))
    (Hrun : serve Now gw conn arrivals expected st wc = (r, wc')) :
  others_only (aw_handle (w_store wc)) (aw_handle (w_store wc')) /\
  sent_frames (w_trace wc') = sent_frames (w_trace wc) /\
  (forall frame rest, arrivals = Arrived frame :: rest -> exists err, r = inl err).
Proof.
  set (c := MkGatewayConnection gw (cn_Epoch conn)) in *.
  assert (Hi : idle (superseded c) (aw_handle (w_store wc)) (aw_handle (w_store wc)) /\
               sent_frames (w_trace wc) = sent_frames (w_trace wc)).
  { split; [|done]. split; [apply others_only_refl|]. split; [exact Hs|].
    eapply Forall_impl; [exact Hrely|]. cbn. intros f Hf s. by apply superseded_grows. }
  pose proof (serve_silent Now NewULID days reconciliation eventIngest MediaCapture c (aw_handle (w_store wc))
    (sent_frames (w_trace wc)) conn arrivals expected st eq_refl wc r wc' Hi Hrun) as Hpost.
  split; [by destruct r; apply Hpost|]. split; [by destruct r; apply Hpost|].
  intros frame rest ->. destruct r as [e|u]; [eauto|]. exfalso.
  exact (serve_ends Now NewULID days reconciliation eventIngest MediaCapture c (aw_handle (w_store wc))
    (sent_frames (w_trace wc)) conn frame rest expected st eq_refl wc _ wc' Hi Hrun).
Qed.
End Silenced.

(** ** Witnesses *)

#[local] Instance no_json_lib : JSONLib := {| json_Valid _ := true |}.
#[local] Instance sorted_keys : MapRange := sorted_range.
#[local] Instance no_envelopes : EnvelopeCodec :=
  {| struct_of b := inr b; envelope_of _ := inl (ErrMsg "not an envelope") |}.
#[local] Instance plain_sql : MySQL := {| collate s := s; json_column b := Some b; json_remove _ b := b |}.
#[local] Instance no_documents : IngestCodec :=
  {| outgoing_identity _ := None; unmarshal_raw _ := None; marshal_raw _ := inl (ErrMsg "no document") |}.

Definition demo_clock (n : nat) : GoTime := FromUnixMilli 10.
Definition demo_ulid (n : nat) : string := "01C".
Definition demo_api : api_world := MkApiWorld example_handle 0 0.
Definition demo_lease : GoTime := 20000000000.
Definition demo_state : ControlServer.DesiredState :=
  MkDesiredState 5 [MkDesiredSession "s1" "o1" "1@wa" SESSION_DESIRED_ACTION_RUN 4 5 true false 20 100 7 demo_lease].
Lemma demo_state_eq : DesiredStateOf 7 "g1" 3 5 demo_lease demo_api = (inr demo_state, demo_api).
Proof. by vm_compute. Qed.

Lemma demo_api_wf : assignments_wf (aw_rows demo_api).
Proof. exact example_wf. Qed.

Lemma snapshot_is_complete_and_valid_witness :
  relies desired_step (aw_handle demo_api) /\
  validDesiredState demo_state demo_lease = true.
Proof.
  assert (Hrely : relies desired_step (aw_handle demo_api)) by constructor. split; [exact Hrely|].
  exact (proj1 (proj2 (snapshot_is_complete_and_valid 7 "g1" 3 5 demo_lease demo_api demo_state demo_api
    demo_api_wf Hrely ltac:(done) ltac:(by vm_compute) demo_state_eq))).
Defined.

Definition demo_applier : applier (R := unit) := MkApplier (MkReconciler 0 ∅ tt []) None [].
Definition demo_engine (corrupt : list string) : Runtime unit := demo_runtime ["1@wa"] corrupt [].
Definition demo_applied (corrupt : list string) :=
  ApplyDesiredState (Some (demo_engine corrupt)) None 12000000 3 (snapshot_of demo_state) demo_applier.
Definition demo_gateway_report (corrupt : list string) : DesiredStateReport :=
  MkDesiredStateReport 3 5 KEYSTORE_HEALTH_STATE_HEALTHY ["1@wa"]
    (MkReconciliationResult (Some "s1") 4 "1@wa" RECONCILIATION_RESULT_STATUS_APPLIED
     :: jidResults corrupt RECONCILIATION_RESULT_STATUS_KEYSTORE_CORRUPT).
Lemma demo_applied_eq : demo_applied [] = (inr (demo_gateway_report []), (demo_applied []).2).
Proof. by vm_compute. Qed.

Definition demo_connection : Connection := MkConnection "01C" 3 1 1 LIFECYCLE_DIRECTIVE_ACTION_RUN 5.
Definition demo_loop : conn_state := MkConnState 2 1 5 LIFECYCLE_DIRECTIVE_ACTION_RUN None.
Definition demo_stream : conn_world api_world := MkConnWorld demo_api [] 0 [].
#[local] Instance demo_store : ControlStore api_world := gatewayControlStore demo_clock demo_ulid 7 true true None.
Definition demo_reported :=
  on_report "g1" demo_connection (Some (received (demo_gateway_report []) None None)) demo_loop demo_stream.
Lemma demo_reported_eq : demo_reported = (demo_reported.1, demo_reported.2).
Proof. by destruct demo_reported. Qed.

Lemma applied_snapshot_is_acknowledged_witness :
  quiet (aw_handle demo_api) /\ demo_reported.1 = inr demo_loop.
Proof.
  assert (Hquiet : quiet (aw_handle demo_api)) by done. split; [exact Hquiet|].
  assert (Hdev : NoDup ["1@wa"] /\ ("" ∉ ["1@wa"])) by (split; [apply NoDup_singleton|set_solver]).
  assert (Hep : cn_Epoch demo_connection = 3 /\ 3 <> 0) by (by split).
  exact (proj1 (applied_snapshot_is_acknowledged demo_clock demo_ulid 7 true None (demo_engine []) None 12000000
    "g1" 3 5 demo_lease demo_api demo_state demo_api demo_applier (demo_gateway_report []) _ None None
    (MkInventory ["1@wa"] []) demo_connection demo_loop demo_stream _ _ Hquiet demo_api_wf demo_state_eq
    demo_applied_eq ltac:(by vm_compute) ltac:(by vm_compute) eq_refl Hdev (or_introl eq_refl)
    Hep eq_refl demo_reported_eq)).
Defined.

(** The connection of epoch 2 sends a heartbeat after epoch 3 was accepted. *)
#[local] Instance no_events : EventCodec := {|
  marshal_persisted _ := inl (ErrMsg "not marshalled"); unmarshal_persisted _ := inl (ErrMsg "not unmarshalled");
  encode_struct _ := inl (ErrMsg "not encoded"); proto_Size _ := 0 |}.
Definition demo_old_connection : Connection := MkConnection "01B" 2 1 1 LIFECYCLE_DIRECTIVE_ACTION_RUN 5.
Definition demo_late : list arrival := [Arrived (Some (MkGatewayFrame ProtocolVersion 9
  (Some (GatewayFrame_Heartbeat (Some (MkGatewayHeartbeat 2 1 5 1 GATEWAY_RUNTIME_STATE_READY
    GATEWAY_JOURNAL_STATE_UNKNOWN 0 0))))))].
Definition demo_serve := serve demo_clock "g1" demo_old_connection demo_late 9 demo_loop demo_stream.
Lemma demo_serve_eq : demo_serve = (demo_serve.1, demo_serve.2).
Proof. by destruct demo_serve. Qed.

Lemma superseded_stream_is_silenced_witness :
  superseded (MkGatewayConnection "g1" 2) (aw_rows demo_api) /\
  others_only example_handle (aw_handle (w_store demo_serve.2)) /\ sent_frames (w_trace demo_serve.2) = [] /\
  exists err, demo_serve.1 = inl err.
Proof.
  assert (Hs : superseded (MkGatewayConnection "g1" 2) (aw_rows demo_api)).
  { exists (example_gateway GatewayActive 3 5). split; [by vm_compute|]. left. vm_compute. done. }
  assert (Hrely : relies registry_grows (aw_handle demo_api)) by constructor.
  split; [exact Hs|].
  destruct (superseded_stream_is_silenced demo_clock demo_ulid 7 true true None "g1" demo_old_connection demo_late 9
    demo_loop demo_stream _ _ Hs Hrely demo_serve_eq) as (Ho & Hf & He).
  split; [exact Ho|]. split; [exact Hf|]. exact (He _ _ eq_refl).
Defined.
