(* ===== verification/Credentials.v ===== *)
(** * Enrollment tokens, certificates and the audit trail

    Models [internal/store/gateway_control.go] with its statements in
    [queries/gateway_control.sql] and the constraints of
    [migrations/0001_init.up.sql]. A fixed-width binary column pads what it
    stores; the widths of text columns and the reference to [pki_authorities]
    are left to the statement failures any run may have. *)

From S2P Require Import Prelude Journal Domain EventIngest GatewayTables GatewayStore.

#[local] Open Scope Z_scope.

Definition tokenStatusActive : string := "active".
Definition tokenStatusRedeeming : string := "redeeming".
Definition tokenStatusConsumed : string := "consumed".
Definition tokenStatusLocked : string := "locked".
Definition tokenStatusRevoked : string := "revoked".

Definition ErrDuplicateEntry : goerr := ErrMsg "Error 1062: Duplicate entry".
Definition ErrForeignKey : goerr := ErrMsg "Error 1452: a foreign key constraint fails".
Definition ErrDataTooLong : goerr := ErrMsg "Error 1406: Data too long for column".
Definition ErrConstraint (name : string) : goerr :=
  ErrMsg ("Error 3819: Check constraint '" +:+ name +:+ "' is violated").

(** A value stored in a [BINARY(n)] column. *)
Definition binary_column (n : nat) (b : bytes) : goerr + bytes :=
  if (length b <=? n)%nat then inr (b ++ repeat x00 (n - length b)) else inl ErrDataTooLong.

(** ** Constraints of a token row *)

Definition chk_enrollment_attempts (k : EnrollmentToken) : bool :=
  (0 <? et_MaxAttempts k) && (et_AttemptCount k <=? et_MaxAttempts k).
Definition chk_enrollment_validity (k : EnrollmentToken) : bool := et_CreatedAt k <? et_ExpiresAt k.
(** A comparison with NULL is unknown, and an unknown check passes. *)
Definition chk_enrollment_redeeming (k : EnrollmentToken) : bool :=
  if bool_decide (et_Status k = tokenStatusRedeeming) then
    negb (is_nil (et_RedemptionNonce k)) && negb (is_nil (et_CSRSHA256 k)) &&
    match et_RedeemingAt k with
    | None => false
    | Some at_ => from_option (fun lease => at_ <? lease) true (et_LeaseExpiresAt k)
    end
  else
    is_nil (et_RedemptionNonce k) && is_nil (et_CSRSHA256 k) && is_none (et_RedeemingAt k) &&
    is_none (et_LeaseExpiresAt k).
Definition chk_enrollment_terminal_time (k : EnrollmentToken) : bool :=
  Bool.eqb (negb (is_none (et_ConsumedAt k))) (bool_decide (et_Status k = tokenStatusConsumed)) &&
  Bool.eqb (negb (is_none (et_RevokedAt k))) (bool_decide (et_Status k = tokenStatusRevoked)).

(** The values of the [status] enumeration. *)
Definition token_statuses : list string :=
  [tokenStatusActive; tokenStatusRedeeming; tokenStatusConsumed; tokenStatusRevoked; tokenStatusLocked].

Definition check_token (k : EnrollmentToken) : option goerr :=
  if negb (bool_decide (et_Status k ∈ token_statuses)) then Some (ErrMsg "Error 1265: Data truncated for column 'status'")
  else if negb (chk_enrollment_attempts k) then Some (ErrConstraint "chk_enrollment_attempts")
  else if negb (chk_enrollment_validity k) then Some (ErrConstraint "chk_enrollment_validity")
  else if negb (chk_enrollment_redeeming k) then Some (ErrConstraint "chk_enrollment_redeeming")
  else if negb (chk_enrollment_terminal_time k) then Some (ErrConstraint "chk_enrollment_terminal_time")
  else None.

(** ** Token statements *)

(** The columns a state change sets. *)
Definition set_token_state (status : string) (attempts : Z) (nonce csr : bytes)
  (redeemingAt leaseExpiresAt consumedAt revokedAt : option Z) (at_ : Z) (k : EnrollmentToken) : EnrollmentToken :=
  MkEnrollmentToken (et_GatewayID k) (et_TokenHash k) (et_TokenPrefix k) status attempts (et_MaxAttempts k)
    (et_ExpiresAt k) (et_CreatedByUserID k) nonce csr redeemingAt leaseExpiresAt consumedAt revokedAt
    (et_CreatedAt k) at_.

(** [UPDATE gateway_enrollment_tokens SET f WHERE id = ? AND guard]. *)
Definition update_token (id : string) (guard : EnrollmentToken -> bool)
  (f : EnrollmentToken -> goerr + EnrollmentToken) (t : gdb) : (goerr + Z) * gdb :=
  match g_tokens t !! id with
  | None => (inr 0, t)
  | Some k =>
      if guard k then
        match f k with
        | inl err => (inl err, t)
        | inr k' => match check_token k' with
                    | Some err => (inl err, t)
                    | None => (inr 1, with_tokens (<[id := k']> (g_tokens t)) t)
                    end
        end
      else (inr 0, t)
  end.

(** [IssueGatewayEnrollmentToken]. *)
Definition issue_token (id : string) (k : EnrollmentToken) (t : gdb) : (goerr + unit) * gdb :=
  match binary_column 32 (et_TokenHash k) with
  | inl err => (inl err, t)
  | inr hash =>
      let row := MkEnrollmentToken (et_GatewayID k) hash (et_TokenPrefix k) tokenStatusActive 0
        (et_MaxAttempts k) (et_ExpiresAt k) (et_CreatedByUserID k) [] [] None None None None
        (et_CreatedAt k) (et_UpdatedAt k) in
      let duplicate := bool_decide (is_Some (g_tokens t !! id)) ||
        existsb (fun p => bool_decide (et_TokenHash p.2 = hash)) (map_to_list (g_tokens t)) in
      match check_token row with
      | Some err => (inl err, t)
      | None =>
          if duplicate then (inl ErrDuplicateEntry, t)
          else if is_none (g_gateways t !! et_GatewayID k) then (inl ErrForeignKey, t)
          else (inr tt, with_tokens (<[id := row]> (g_tokens t)) t)
      end
  end.

Definition live_status (k : EnrollmentToken) : bool :=
  bool_decide (et_Status k = tokenStatusActive) || bool_decide (et_Status k = tokenStatusRedeeming).

(** [BeginGatewayEnrollment]. *)
Definition begin_guard (csrHash : bytes) (now : Z) (k : EnrollmentToken) : bool :=
  (now <? et_ExpiresAt k) && (et_AttemptCount k <? et_MaxAttempts k) &&
  (bool_decide (et_Status k = tokenStatusActive) ||
   (bool_decide (et_Status k = tokenStatusRedeeming) &&
    from_option (fun lease => lease <=? now) false (et_LeaseExpiresAt k) &&
    negb (is_nil csrHash) && bool_decide (et_CSRSHA256 k = csrHash))).
Definition begin_enrollment (id : string) (nonce csrHash : bytes) (now leaseUntil : Z) : gdb -> (goerr + Z) * gdb :=
  update_token id (begin_guard csrHash now) (fun k =>
    match binary_column 16 nonce, binary_column 32 csrHash with
    | inr nonce', inr csr' =>
        inr (set_token_state tokenStatusRedeeming (et_AttemptCount k + 1)
               (if is_nil nonce then [] else nonce') (if is_nil csrHash then [] else csr')
               (Some now) (Some leaseUntil) (et_ConsumedAt k) (et_RevokedAt k) now k)
    | inl err, _ | _, inl err => inl err
    end).

(** The row [FinalizeGatewayEnrollment] and [ReleaseGatewayEnrollment] match: the
    caller's own unexpired lease. *)
Definition holds_lease (nonce csrHash : bytes) (now : Z) (k : EnrollmentToken) : bool :=
  bool_decide (et_Status k = tokenStatusRedeeming) &&
  negb (is_nil nonce) && bool_decide (et_RedemptionNonce k = nonce) &&
  negb (is_nil csrHash) && bool_decide (et_CSRSHA256 k = csrHash) &&
  from_option (fun lease => now <? lease) false (et_LeaseExpiresAt k).
Definition finalize_enrollment (id : string) (nonce csrHash : bytes) (now : Z) : gdb -> (goerr + Z) * gdb :=
  update_token id (holds_lease nonce csrHash now) (fun k =>
    inr (set_token_state tokenStatusConsumed (et_AttemptCount k) [] [] None None (Some now) (et_RevokedAt k) now k)).
Definition release_enrollment (id : string) (nonce csrHash : bytes) (now : Z) : gdb -> (goerr + Z) * gdb :=
  update_token id (holds_lease nonce csrHash now) (fun k =>
    inr (set_token_state tokenStatusActive (et_AttemptCount k) [] [] None None (et_ConsumedAt k) (et_RevokedAt k) now k)).

(** [LockGatewayEnrollmentToken]. *)
Definition lock_enrollment (id : string) (now : Z) : gdb -> (goerr + Z) * gdb :=
  update_token id live_status (fun k =>
    inr (set_token_state tokenStatusLocked (et_MaxAttempts k) [] [] None None (et_ConsumedAt k) (et_RevokedAt k) now k)).

(** [RevokeLiveGatewayEnrollmentTokens]. *)
Definition revoke_token (now : Z) (k : EnrollmentToken) : EnrollmentToken :=
  set_token_state tokenStatusRevoked (et_AttemptCount k) [] [] None None (et_ConsumedAt k) (Some now) now k.
Definition revoke_live_tokens (gatewayID : string) (now : Z) (t : gdb) : (goerr + Z) * gdb :=
  let hit := filter (fun p => live_token gatewayID p.2 = true) (map_to_list (g_tokens t)) in
  match omap (fun p => check_token (revoke_token now p.2)) hit with
  | err :: _ => (inl err, t)
  | [] => (inr (Z.of_nat (length hit)),
           with_tokens ((fun k => if live_token gatewayID k then revoke_token now k else k) <$> g_tokens t) t)
  end.

(** ** [enrollmentTokenRepo], on its caller's transaction *)

Definition issue (id : string) (k : EnrollmentToken) : M (db gdb) unit := stmt (issue_token id k).
Definition getForUpdate (id : string) : M (db gdb) EnrollmentToken := query_row (fun t => g_tokens t !! id).
Definition begin (id : string) (nonce csrHash : bytes) (now leaseUntil : Z) : M (db gdb) bool :=
  n ← stmt (begin_enrollment id nonce csrHash now leaseUntil); mret (n =? 1).
Definition finalize (id : string) (nonce csrHash : bytes) (now : Z) : M (db gdb) bool :=
  n ← stmt (finalize_enrollment id nonce csrHash now); mret (n =? 1).
Definition release (id : string) (nonce csrHash : bytes) (now : Z) : M (db gdb) bool :=
  n ← stmt (release_enrollment id nonce csrHash now); mret (n =? 1).
Definition lock (id : string) (now : Z) : M (db gdb) bool :=
  n ← stmt (lock_enrollment id now); mret (n =? 1).
Definition revokeLiveByGateway (gatewayID : string) (now : Z) : M (db gdb) Z :=
  stmt (revoke_live_tokens gatewayID now).

(** ** [gatewayCertificateRepo] *)

(** A certificate with its id. *)
Abbreviation certificate := (string * GatewayCertificate)%type.

Definition chk_certificate_issuance (c : GatewayCertificate) : bool :=
  if bool_decide (gt_IssuanceKind c = "enrollment") then negb (is_none (gt_EnrollmentTokenID c))
  else bool_decide (gt_IssuanceKind c = "renewal") && is_none (gt_EnrollmentTokenID c).

(** [uq_gateway_certificate_serial], [_fingerprint] and [_gateway_csr]. *)
Definition certificates_clash (c c' : GatewayCertificate) : bool :=
  (bool_decide (gt_AuthorityID c = gt_AuthorityID c') && bool_decide (gt_SerialNumber c = gt_SerialNumber c')) ||
  bool_decide (gt_Fingerprint c = gt_Fingerprint c') ||
  (bool_decide (gt_GatewayID c = gt_GatewayID c') && bool_decide (gt_CSRSHA256 c = gt_CSRSHA256 c')).

(** [InsertGatewayCertificate]. *)
Definition insert_certificate (id : string) (c : GatewayCertificate) (t : gdb) : (goerr + unit) * gdb :=
  match binary_column 32 (gt_CSRSHA256 c), binary_column 32 (gt_Fingerprint c) with
  | inr csr, inr fingerprint =>
      let row := MkGatewayCertificate (gt_GatewayID c) (gt_AuthorityID c) (gt_IssuanceKind c)
        (gt_EnrollmentTokenID c) csr (gt_SerialNumber c) (gt_CertificatePEM c) (gt_TrustBundlePEM c) fingerprint
        (gt_NotBefore c) (gt_NotAfter c) None None (gt_CreatedAt c) in
      if negb (gt_NotBefore c <? gt_NotAfter c) then (inl (ErrConstraint "chk_gateway_certificate_validity"), t)
      else if negb (chk_certificate_issuance c) then (inl (ErrConstraint "chk_gateway_certificate_issuance"), t)
      else if bool_decide (is_Some (g_certificates t !! id)) ||
              existsb (fun p => certificates_clash row p.2) (map_to_list (g_certificates t))
      then (inl ErrDuplicateEntry, t)
      else if is_none (g_gateways t !! gt_GatewayID c) ||
              from_option (fun tokenID => is_none (g_tokens t !! tokenID)) false (gt_EnrollmentTokenID c)
      then (inl ErrForeignKey, t)
      else (inr tt, with_certificates (<[id := row]> (g_certificates t)) t)
  | inl err, _ | _, inl err => (inl err, t)
  end.

(** [SELECT * FROM gateway_certificates WHERE ... ]: the first row. *)
Definition select_certificate (P : certificate -> bool) (t : gdb) : option certificate :=
  head (filter (fun p => P p = true) (map_to_list (g_certificates t))).

Definition issued_for (tokenID : string) (c : GatewayCertificate) : bool :=
  bool_decide (gt_IssuanceKind c = "enrollment") && bool_decide (gt_EnrollmentTokenID c = Some tokenID).

Definition insertCertificate (c : certificate) : M (db gdb) unit := stmt (insert_certificate c.1 c.2).
Definition getByTokenCSR (tokenID : string) (csr : bytes) : M (db gdb) certificate :=
  query_row (select_certificate (fun p => issued_for tokenID p.2 && bool_decide (gt_CSRSHA256 p.2 = csr))).
Definition getByGatewayCSR (gatewayID : string) (csr : bytes) : M (db gdb) certificate :=
  query_row (select_certificate (fun p =>
    bool_decide (gt_GatewayID p.2 = gatewayID) && bool_decide (gt_CSRSHA256 p.2 = csr))).
Definition getForRenewal (id gatewayID : string) (fingerprint : bytes) (serial : string)
  : M (db gdb) certificate :=
  query_row (select_certificate (fun p =>
    bool_decide (p.1 = id) && bool_decide (gt_GatewayID p.2 = gatewayID) &&
    bool_decide (gt_Fingerprint p.2 = fingerprint) && bool_decide (gt_SerialNumber p.2 = serial))).

(** ** [AuditRepo] *)

Definition has_suffix (suffix s : string) : bool :=
  (String.length suffix <=? String.length s)%nat &&
  bool_decide (String.substring (String.length s - String.length suffix) (String.length suffix) s = suffix).

Definition ascii_alnum_lower (c : Ascii.ascii) : option Ascii.ascii :=
  let n := Ascii.nat_of_ascii c in
  if ((97 <=? n) && (n <=? 122))%nat || ((48 <=? n) && (n <=? 57))%nat then Some c
  else if ((65 <=? n) && (n <=? 90))%nat then Some (Ascii.ascii_of_nat (n + 32)) else None.
Fixpoint ascii_normalize (s : string) : string :=
  match s with
  | EmptyString => ""
  | String c s' => match ascii_alnum_lower c with
                   | Some c' => String c' (ascii_normalize s')
                   | None => ascii_normalize s'
                   end
  end.
Fixpoint is_ascii (s : string) : bool :=
  match s with
  | EmptyString => true
  | String c s' => (Ascii.nat_of_ascii c <? 128)%nat && is_ascii s'
  end.

(** Letters and digits of a text in lower case ([strings.Map] over [unicode]),
    its quotation ([%q]), and the size of a document under [json.Marshal]. *)
Class AuditLib := {
  quote_key : string -> string;
  normalize_key : string -> string;
  normalize_key_ascii s : is_ascii s = true -> normalize_key s = ascii_normalize s;
  json_Marshal_size : list (string * json) -> goerr + Z;
}.

Section Audit.
Context `{AuditLib}.

Definition sensitive_words : list string :=
  ["token"; "secret"; "privatekey"; "authorization"; "csr"; "certificate"; "pem"].

Definition sensitive_key (key : string) : bool :=
  let normalized := normalize_key key in
  let allowed := has_suffix "id" normalized || has_suffix "fingerprint" normalized in
  existsb (fun bad => contains bad normalized && negb allowed) sensitive_words.

(** Fields are visited in the order listed; Go's map order is unspecified. *)
Fixpoint validateAuditMetadata (value : json) : option goerr :=
  match value with
  | JObj fields =>
      (fix visit (l : list (string * json)) : option goerr :=
         match l with
         | [] => None
         | (key, child) :: rest =>
             if sensitive_key key then Some (ErrMsg ("store: sensitive audit metadata key " +:+ quote_key key))
             else match validateAuditMetadata child with Some err => Some err | None => visit rest end
         end) fields
  | JArr items =>
      (fix visit (l : list json) : option goerr :=
         match l with
         | [] => None
         | child :: rest =>
             match validateAuditMetadata child with Some err => Some err | None => visit rest end
         end) items
  | _ => None
  end.

Definition audit_event_complete (e : AuditEvent) : bool :=
  negb (bool_decide (au_ID e = "")) && negb (bool_decide (au_Action e = "")) &&
  negb (bool_decide (au_ResourceType e = "")) &&
  bool_decide (au_ActorType e ∈ ["user"; "gateway"; "system"]) &&
  bool_decide (au_Outcome e ∈ ["success"; "denied"; "failure"]).

(** [AppendAuditEvent]. *)
Definition append_audit (e : AuditEvent) (t : gdb) : (goerr + unit) * gdb :=
  if existsb (fun e' => bool_decide (au_ID e' = au_ID e)) (g_audit t) then (inl ErrDuplicateEntry, t)
  else (inr tt, with_audit (g_audit t ++ [e]) t).

Definition Append (e : AuditEvent) : M (db gdb) unit :=
  if negb (audit_event_complete e) then throw (ErrMsg "store: invalid audit event")
  else match validateAuditMetadata (JObj (au_Metadata e)) with
  | Some err => throw err
  | None =>
      match json_Marshal_size (au_Metadata e) with
      | inl err => throw (ErrWrap "store: marshal audit metadata" err)
      | inr size =>
          if 16 * 1024 <? size then throw (ErrMsg "store: audit metadata exceeds 16384 bytes")
          else stmt (append_audit e)
      end
  end.
End Audit.

(** ** Constraints

    What the database guarantees of the rows between statements. *)
Record constraints (t : gdb) : Prop := {
  cn_token : forall id k, g_tokens t !! id = Some k ->
    check_token k = None /\ is_Some (g_gateways t !! et_GatewayID k);
  cn_certificate : forall id c, g_certificates t !! id = Some c ->
    chk_certificate_issuance c = true /\ is_Some (g_gateways t !! gt_GatewayID c) /\
    forall tokenID, gt_EnrollmentTokenID c = Some tokenID -> is_Some (g_tokens t !! tokenID);
  cn_unique : forall id id' c c', g_certificates t !! id = Some c -> g_certificates t !! id' = Some c' ->
    certificates_clash c c' = true -> id = id';
}.

(** ** Growth

    A token keeps its identity, counts its attempts up and is frozen once it is
    consumed, locked or revoked; a certificate changes by its revocation alone;
    the audit trail is only appended to. *)
Record token_grows (k k' : EnrollmentToken) : Prop := {
  tg_gateway : et_GatewayID k' = et_GatewayID k;
  tg_hash : et_TokenHash k' = et_TokenHash k;
  tg_max : et_MaxAttempts k' = et_MaxAttempts k;
  tg_expires : et_ExpiresAt k' = et_ExpiresAt k;
  tg_attempts : et_AttemptCount k <= et_AttemptCount k';
  tg_terminal : live_status k = false -> k' = k;
}.

Definition revoke_certificate (at_ : Z) (reason : string) (c : GatewayCertificate) : GatewayCertificate :=
  MkGatewayCertificate (gt_GatewayID c) (gt_AuthorityID c) (gt_IssuanceKind c) (gt_EnrollmentTokenID c)
    (gt_CSRSHA256 c) (gt_SerialNumber c) (gt_CertificatePEM c) (gt_TrustBundlePEM c) (gt_Fingerprint c)
    (gt_NotBefore c) (gt_NotAfter c) (Some at_) (Some reason) (gt_CreatedAt c).

Definition certificate_grows (c c' : GatewayCertificate) : Prop :=
  c' = c \/ (gt_RevokedAt c = None /\ exists at_ reason, c' = revoke_certificate at_ reason c).

Record credentials_grow (t t' : gdb) : Prop := {
  cg_registry : registry_grows t t';
  cg_tokens : forall id k, g_tokens t !! id = Some k -> exists k', g_tokens t' !! id = Some k' /\ token_grows k k';
  cg_certificates : forall id c, g_certificates t !! id = Some c ->
    exists c', g_certificates t' !! id = Some c' /\ certificate_grows c c';
  cg_audit : g_audit t `prefix_of` g_audit t';
}.

(** Under the constraints, both. *)
Definition extends (t t' : gdb) : Prop := constraints t -> constraints t' /\ credentials_grow t t'.

#[export] Instance token_grows_preorder : PreOrder token_grows.
Proof.
  split; [by split|]. intros a b c [? ? ? ? ? Hab] [? ? ? ? ? Hbc]. split; try congruence; [lia|].
  intros Hl. specialize (Hab Hl) as ->. auto.
Qed.

#[export] Instance certificate_grows_preorder : PreOrder certificate_grows.
Proof.
  split; [by left|]. intros a b c [->|(Ha & at_ & reason & ->)] [->|(Hb & at' & reason' & ->)]; unfold certificate_grows;
    eauto 10; discriminate.
Qed.

#[export] Instance credentials_grow_preorder : PreOrder credentials_grow.
Proof.
  split.
  - intros t. split; [done|..|done]; eauto.
    + intros id k Hk. exists k. by split.
    + intros id c Hc. exists c. by split; [|left].
  - intros t1 t2 t3 [Hr Ht Hc Ha] [Hr' Ht' Hc' Ha']. split; [by etransitivity|..|by etransitivity].
    + intros id k Hk. destruct (Ht _ _ Hk) as (k2 & Hk2 & Hg). destruct (Ht' _ _ Hk2) as (k3 & Hk3 & Hg').
      exists k3. split; [done|]. by etransitivity.
    + intros id c Hcc. destruct (Hc _ _ Hcc) as (c2 & Hc2 & Hg). destruct (Hc' _ _ Hc2) as (c3 & Hc3 & Hg').
      exists c3. split; [done|]. by etransitivity.
Qed.

#[export] Instance extends_preorder : PreOrder extends.
Proof.
  unfold extends. split.
  - by intros t Ht.
  - intros t1 t2 t3 H12 H23 H1. destruct (H12 H1) as [H2 G12]. destruct (H23 H2) as [H3 G23].
    split; [done|]. by etransitivity.
Qed.

(** A change that leaves tokens, certificates and the trail alone. *)
Lemma extends_registry t t' :
  registry_grows t t' -> g_tokens t' = g_tokens t -> g_certificates t' = g_certificates t -> g_audit t' = g_audit t ->
  extends t t'.
Proof.
  intros Hr Ht Hc Ha [Htok Hcert Huniq].
  assert (Hgw : forall id, is_Some (g_gateways t !! id) -> is_Some (g_gateways t' !! id)).
  { intros id [r Hg]. destruct (Hr _ _ Hg) as (r' & Hg' & _). by exists r'. }
  split; [split|split].
  - rewrite Ht. intros id k Hk. destruct (Htok _ _ Hk). auto.
  - rewrite Hc, Ht. intros id c Hcc. destruct (Hcert _ _ Hcc) as (? & ? & ?). auto.
  - rewrite Hc. exact Huniq.
  - done.
  - rewrite Ht. intros id k Hk. exists k. by split.
  - rewrite Hc. intros id c Hcc. exists c. by split; [|left].
  - by rewrite Ha.
Qed.

Lemma update_gateway_extends id guard f : raises f -> forall t, extends t (update_gateway id guard f t).2.
Proof.
  intros Hf t. destruct (update_gateway id guard f t) as [r t'] eqn:Hu. cbn.
  pose proof (update_gateway_grows id guard f t Hf) as Hg. rewrite Hu in Hg. cbn in Hg.
  apply update_gateway_cases in Hu as [[-> _]|(g & g' & _ & _ & _ & _ & _ & ->)]; [done|].
  by apply extends_registry.
Qed.

(** *** Tokens *)

Lemma update_token_cases id guard f t r t' :
  update_token id guard f t = (r, t') ->
  (t' = t /\ (r = inr 0 \/ exists err, r = inl err)) \/
  exists k k', g_tokens t !! id = Some k /\ guard k = true /\ f k = inr k' /\ check_token k' = None /\
    r = inr 1 /\ t' = with_tokens (<[id := k']> (g_tokens t)) t.
Proof.
  unfold update_token. destruct (g_tokens t !! id) as [k|] eqn:Hk; [|intros [= <- <-]; auto].
  destruct (guard k) eqn:Hg; [|intros [= <- <-]; auto].
  destruct (f k) as [err|k'] eqn:Hf; [intros [= <- <-]; eauto|].
  destruct (check_token k') as [err|] eqn:Hc; intros [= <- <-]; [left; eauto|]. right. by exists k, k'.
Qed.

Lemma with_token_extends id k k' t :
  g_tokens t !! id = Some k -> check_token k' = None -> (constraints t -> token_grows k k') ->
  extends t (with_tokens (<[id := k']> (g_tokens t)) t).
Proof.
  intros Hk Hck Hg Ht. specialize (Hg Ht). destruct Ht as [Htok Hcert Huniq]. split; [split|split]; cbn.
  - intros id' k2. destruct (decide (id' = id)) as [->|Hne].
    + rewrite lookup_insert_eq. intros [= <-]. split; [done|]. rewrite (tg_gateway _ _ Hg). apply (Htok _ _ Hk).
    + rewrite lookup_insert_ne by done. apply Htok.
  - intros id' c Hc. destruct (Hcert _ _ Hc) as (? & ? & Href). split; [done|]. split; [done|].
    intros tk Htk. destruct (decide (tk = id)) as [->|]; [by rewrite lookup_insert_eq|].
    rewrite lookup_insert_ne by done. auto.
  - exact Huniq.
  - by apply registry_grows_same.
  - intros id' k2 Hk2. destruct (decide (id' = id)) as [->|Hne].
    + rewrite lookup_insert_eq. rewrite Hk in Hk2. injection Hk2 as <-. eauto.
    + rewrite lookup_insert_ne by done. exists k2. by split.
  - intros id' c Hc. exists c. by split; [|left].
  - done.
Qed.

Lemma update_token_extends id guard f :
  (forall k k', guard k = true -> check_token k = None -> f k = inr k' -> token_grows k k') ->
  forall t, extends t (update_token id guard f t).2.
Proof.
  intros Hf t. destruct (update_token id guard f t) as [r t'] eqn:Hu. cbn.
  apply update_token_cases in Hu as [[-> _]|(k & k' & Hk & Hguard & Hfk & Hc & _ & ->)]; [done|].
  eapply with_token_extends; [exact Hk|done|]. intros Ht. apply (Hf k); auto. apply (cn_token _ Ht _ _ Hk).
Qed.

Lemma check_token_valid k : check_token k = None <->
  et_Status k ∈ token_statuses /\ chk_enrollment_attempts k = true /\ chk_enrollment_validity k = true /\
  chk_enrollment_redeeming k = true /\ chk_enrollment_terminal_time k = true.
Proof.
  unfold check_token. split.
  - intros H. repeat (destruct (negb _) eqn:? in H; [discriminate H|]). to_prop. done.
  - intros (Hs & -> & -> & -> & ->). by rewrite bool_decide_true.
Qed.

Lemma check_token_attempts k : check_token k = None -> et_AttemptCount k <= et_MaxAttempts k.
Proof. intros (_ & Ha & _)%check_token_valid. unfold chk_enrollment_attempts in Ha. to_prop. lia. Qed.

(** A valid row that is not live is consumed, revoked or locked. *)
Lemma check_token_live k : check_token k = None ->
  et_Status k <> tokenStatusConsumed -> et_Status k <> tokenStatusRevoked -> et_Status k <> tokenStatusLocked ->
  live_status k = true.
Proof.
  intros (Hs & _)%check_token_valid. unfold live_status, token_statuses in *. revert Hs.
  rewrite !elem_of_cons. intros [->|[->|[->|[->|[->|[]%not_elem_of_nil]]]]]; done.
Qed.

(** A state change of a live token. *)
Lemma set_token_state_grows status attempts nonce csr redeemingAt leaseAt consumedAt revokedAt at_ k :
  live_status k = true -> et_AttemptCount k <= attempts ->
  token_grows k (set_token_state status attempts nonce csr redeemingAt leaseAt consumedAt revokedAt at_ k).
Proof. intros Hl Ha. split; cbn; try done. rewrite Hl. discriminate. Qed.

Lemma begin_guard_live csr now k : begin_guard csr now k = true -> live_status k = true.
Proof.
  unfold begin_guard, live_status. intros H. to_prop. apply orb_true_iff in H0 as [->|H0]; [done|].
  to_prop. rewrite (bool_decide_true (et_Status k = tokenStatusRedeeming)) by done. by rewrite orb_true_r.
Qed.

Lemma holds_lease_redeeming nonce csr now k : holds_lease nonce csr now k = true -> et_Status k = tokenStatusRedeeming.
Proof. unfold holds_lease. intros H. to_prop. done. Qed.

Lemma redeeming_live k : et_Status k = tokenStatusRedeeming -> live_status k = true.
Proof. unfold live_status. intros ->. done. Qed.

Lemma holds_lease_live nonce csr now k : holds_lease nonce csr now k = true -> live_status k = true.
Proof. intros H. by eapply redeeming_live, holds_lease_redeeming. Qed.

#[export] Hint Resolve begin_guard_live holds_lease_live check_token_attempts : golib.

Lemma begin_extends id nonce csr now lease t : extends t (begin_enrollment id nonce csr now lease t).2.
Proof.
  apply update_token_extends. intros k k' Hg _ Hf.
  destruct (binary_column 16 nonce); [done|]. destruct (binary_column 32 csr); [done|]. injection Hf as <-.
  apply set_token_state_grows; [eauto with golib|lia].
Qed.

Lemma finalize_extends id nonce csr now t : extends t (finalize_enrollment id nonce csr now t).2.
Proof.
  apply update_token_extends. intros k k' Hg _ [= <-]. apply set_token_state_grows; [eauto with golib|lia].
Qed.

Lemma release_extends id nonce csr now t : extends t (release_enrollment id nonce csr now t).2.
Proof.
  apply update_token_extends. intros k k' Hg _ [= <-]. apply set_token_state_grows; [eauto with golib|lia].
Qed.

Lemma lock_extends id now t : extends t (lock_enrollment id now t).2.
Proof.
  apply update_token_extends. intros k k' Hg Hc [= <-]. apply set_token_state_grows; auto with golib.
Qed.

Lemma issue_token_cases id k t r t' :
  issue_token id k t = (r, t') ->
  (t' = t /\ exists err, r = inl err) \/
  exists hash, r = inr tt /\ g_tokens t !! id = None /\ binary_column 32 (et_TokenHash k) = inr hash /\
    let row := MkEnrollmentToken (et_GatewayID k) hash (et_TokenPrefix k) tokenStatusActive 0
      (et_MaxAttempts k) (et_ExpiresAt k) (et_CreatedByUserID k) [] [] None None None None
      (et_CreatedAt k) (et_UpdatedAt k) in
    check_token row = None /\ is_Some (g_gateways t !! et_GatewayID k) /\
    (forall id' k', g_tokens t !! id' = Some k' -> et_TokenHash k' <> hash) /\
    t' = with_tokens (<[id := row]> (g_tokens t)) t.
Proof.
  unfold issue_token. destruct (binary_column 32 (et_TokenHash k)) as [err|hash]; [intros [= <- <-]; eauto|].
  cbv zeta. destruct (check_token _) as [err|] eqn:Hc; [intros [= <- <-]; eauto|].
  destruct (_ || _) eqn:Hdup; [intros [= <- <-]; eauto|].
  destruct (g_gateways t !! et_GatewayID k) as [g|] eqn:Hg; cbn [is_none]; intros [= <- <-]; [right|left; eauto].
  apply orb_false_iff in Hdup as [Hd1 Hd2]. apply bool_decide_eq_false in Hd1.
  exists hash. split; [done|]. split; [by apply eq_None_not_Some|]. split; [done|]. split; [done|].
  split; [done|]. split; [|done]. intros id' k' Hk' Heq. enough (existsb (fun p : string * EnrollmentToken => bool_decide (et_TokenHash p.2 = hash))
    (map_to_list (g_tokens t)) = true) by congruence.
  apply existsb_exists. exists (id', k'). split; [|by apply bool_decide_true].
  by apply list_elem_of_In, elem_of_map_to_list.
Qed.

Lemma issue_extends id k t : extends t (issue_token id k t).2.
Proof.
  destruct (issue_token id k t) as [r t'] eqn:Hi. cbn.
  apply issue_token_cases in Hi as [[-> _]|(hash & _ & Hnone & _ & Hck & Hgw & _ & ->)]; [done|].
  set (row := MkEnrollmentToken _ _ _ _ _ _ _ _ _ _ _ _ _ _ _ _) in *.
  assert (Hkeep : forall id', is_Some (g_tokens t !! id') -> is_Some (<[id := row]> (g_tokens t) !! id')).
  { intros id' Hs. rewrite lookup_insert_is_Some'. by right. }
  intros [Htok Hcert Huniq]. split; [split|split]; cbn.
  - intros id' k'. destruct (decide (id' = id)) as [->|Hne].
    + rewrite lookup_insert_eq. by intros [= <-].
    + rewrite lookup_insert_ne by done. apply Htok.
  - intros id' c Hc. destruct (Hcert _ _ Hc) as (? & ? & ?). auto.
  - exact Huniq.
  - by apply registry_grows_same.
  - intros id' k' Hk'. rewrite lookup_insert_ne by congruence. exists k'. by split.
  - intros id' c Hc. exists c. by split; [|left].
  - done.
Qed.

Lemma live_token_live id k : live_token id k = true -> et_GatewayID k = id /\ live_status k = true.
Proof. unfold live_token, live_status. intros H. to_prop. done. Qed.

Lemma revoke_live_cases gatewayID now t r t' :
  revoke_live_tokens gatewayID now t = (r, t') ->
  (t' = t /\ exists err, r = inl err) \/
  (exists n, r = inr n) /\
    (forall id k, g_tokens t !! id = Some k -> live_token gatewayID k = true -> check_token (revoke_token now k) = None) /\
    t' = with_tokens ((fun k => if live_token gatewayID k then revoke_token now k else k) <$> g_tokens t) t.
Proof.
  unfold revoke_live_tokens. destruct (omap _ _) as [|err l] eqn:Ho; intros [= <- <-]; [right|left; eauto].
  split; [eauto|]. split; [|done]. intros id k Hk Hl.
  destruct (check_token (revoke_token now k)) as [err|] eqn:Hc; [|done].
  enough (err ∈ ([] : list goerr)) by (by apply not_elem_of_nil in H).
  rewrite <- Ho. apply list_elem_of_omap. exists (id, k). split; [|exact Hc].
  apply list_elem_of_filter. split; [done|]. by apply elem_of_map_to_list.
Qed.

Lemma revoke_live_extends gatewayID now t : extends t (revoke_live_tokens gatewayID now t).2.
Proof.
  destruct (revoke_live_tokens gatewayID now t) as [r t'] eqn:Hi. cbn.
  apply revoke_live_cases in Hi as [[-> _]|(_ & Hck & ->)]; [done|].
  set (f := fun k => if live_token gatewayID k then revoke_token now k else k).
  assert (Hgrow : forall k, token_grows k (f k)).
  { intros k. unfold f. destruct (live_token gatewayID k) eqn:Hl; [|done].
    apply live_token_live in Hl as [_ Hl]. apply set_token_state_grows; [done|lia]. }
  intros [Htok Hcert Huniq]. split; [split|split]; cbn.
  - intros id k' Hk'. rewrite lookup_fmap in Hk'. apply fmap_Some in Hk' as (k & Hk & ->).
    rewrite (tg_gateway _ _ (Hgrow k)). destruct (Htok _ _ Hk) as [Hok Hgw]. split; [|done].
    unfold f. destruct (live_token gatewayID k) eqn:Hl; [by eapply Hck|done].
  - intros id c Hc. destruct (Hcert _ _ Hc) as (? & ? & Href). split; [done|]. split; [done|].
    intros tk Htk. rewrite lookup_fmap. apply fmap_is_Some. auto.
  - exact Huniq.
  - by apply registry_grows_same.
  - intros id k Hk. exists (f k). split; [by rewrite lookup_fmap, Hk|]. apply Hgrow.
  - intros id c Hc. exists c. by split; [|left].
  - done.
Qed.

(** *** Certificates *)

Lemma insert_certificate_cases id c t r t' :
  insert_certificate id c t = (r, t') ->
  (t' = t /\ exists err, r = inl err) \/
  exists csr fingerprint, r = inr tt /\ g_certificates t !! id = None /\
    binary_column 32 (gt_CSRSHA256 c) = inr csr /\ binary_column 32 (gt_Fingerprint c) = inr fingerprint /\
    chk_certificate_issuance c = true /\ is_Some (g_gateways t !! gt_GatewayID c) /\
    (forall tokenID, gt_EnrollmentTokenID c = Some tokenID -> is_Some (g_tokens t !! tokenID)) /\
    let row := MkGatewayCertificate (gt_GatewayID c) (gt_AuthorityID c) (gt_IssuanceKind c)
      (gt_EnrollmentTokenID c) csr (gt_SerialNumber c) (gt_CertificatePEM c) (gt_TrustBundlePEM c) fingerprint
      (gt_NotBefore c) (gt_NotAfter c) None None (gt_CreatedAt c) in
    (forall id' c', g_certificates t !! id' = Some c' -> certificates_clash row c' = false) /\
    t' = with_certificates (<[id := row]> (g_certificates t)) t.
Proof.
  unfold insert_certificate. destruct (binary_column 32 (gt_CSRSHA256 c)) as [err|csr]; [intros [= <- <-]; eauto|].
  destruct (binary_column 32 (gt_Fingerprint c)) as [err|fp]; [intros [= <- <-]; eauto|]. cbv zeta.
  destruct (negb (_ <? _)); [intros [= <- <-]; eauto|].
  destruct (chk_certificate_issuance c) eqn:Hck; cbn [negb]; [|intros [= <- <-]; eauto].
  destruct (bool_decide _ || _) eqn:Hdup; [intros [= <- <-]; eauto|].
  apply orb_false_iff in Hdup as [Hd1 Hd2]. apply bool_decide_eq_false in Hd1.
  destruct (_ || _) eqn:Hfk; intros [= <- <-]; [eauto|right]. apply orb_false_iff in Hfk as [Hf1 Hf2].
  exists csr, fp. split; [done|]. split; [by apply eq_None_not_Some|]. do 3 (split; [done|]).
  split; [by destruct (g_gateways t !! gt_GatewayID c)|]. split.
  - intros tk Htk. rewrite Htk in Hf2. cbn in Hf2. by destruct (g_tokens t !! tk).
  - split; [|done]. intros id' c' Hc'. destruct (certificates_clash _ c') eqn:Hcl; [|done].
    rewrite <- Hd2. symmetry. apply existsb_exists. exists (id', c'). split; [|exact Hcl].
    by apply list_elem_of_In, elem_of_map_to_list.
Qed.

Lemma certificates_clash_sym c c' : certificates_clash c c' = certificates_clash c' c.
Proof.
  unfold certificates_clash.
  repeat match goal with |- context [bool_decide (?f c = ?f c')] =>
    rewrite (bool_decide_ext (f c = f c') (f c' = f c)) by (split; congruence) end. done.
Qed.

Lemma insert_certificate_extends id c t : extends t (insert_certificate id c t).2.
Proof.
  destruct (insert_certificate id c t) as [r t'] eqn:Hi. cbn.
  apply insert_certificate_cases in Hi as [[-> _]|(csr & fp & _ & Hnone & _ & _ & Hck & Hgw & Htk & Hcl & ->)]; [done|].
  set (row := MkGatewayCertificate _ _ _ _ _ _ _ _ _ _ _ _ _ _) in *.
  intros [Htok Hcert Huniq]. split; [split|split]; cbn.
  - exact Htok.
  - intros id' c'. destruct (decide (id' = id)) as [->|Hne].
    + rewrite lookup_insert_eq. by intros [= <-].
    + rewrite lookup_insert_ne by done. apply Hcert.
  - intros id1 id2 c1 c2. destruct (decide (id1 = id)) as [->|H1], (decide (id2 = id)) as [->|H2];
      rewrite ?lookup_insert_eq, ?lookup_insert_ne by done; try done; [| |apply Huniq].
    + intros [= <-] Hc2. by rewrite (Hcl _ _ Hc2).
    + intros Hc1 [= <-]. rewrite certificates_clash_sym. by rewrite (Hcl _ _ Hc1).
  - by apply registry_grows_same.
  - intros id' k' Hk'. exists k'. by split.
  - intros id' c' Hc'. rewrite lookup_insert_ne by congruence. exists c'. by split; [|left].
  - done.
Qed.

Lemma select_certificate_some P t p :
  select_certificate P t = Some p -> g_certificates t !! p.1 = Some p.2 /\ P p = true.
Proof.
  unfold select_certificate. intros Hh%head_Some_elem_of. apply list_elem_of_filter in Hh as [HP Hin].
  destruct p. by apply elem_of_map_to_list in Hin.
Qed.

Lemma select_certificate_none P t id c :
  select_certificate P t = None -> g_certificates t !! id = Some c -> P (id, c) = false.
Proof.
  unfold select_certificate. intros Hh Hc. destruct (filter _ _) as [|q l] eqn:Hf; [|done].
  destruct (P (id, c)) eqn:HP; [|done]. enough ((id, c) ∈ ([] : list certificate)) by (by apply not_elem_of_nil in H).
  rewrite <- Hf. apply list_elem_of_filter. split; [done|]. by apply elem_of_map_to_list.
Qed.

(** *** Audit events *)

Lemma extends_audit e t : extends t (with_audit (g_audit t ++ [e]) t).
Proof.
  intros [Htok Hcert Huniq]. split; [by split|split]; cbn.
  - by apply registry_grows_same.
  - intros id' k' Hk'. exists k'. by split.
  - intros id' c' Hc'. exists c'. by split; [|left].
  - by exists [e].
Qed.

Lemma append_audit_extends e t : extends t (append_audit e t).2.
Proof. unfold append_audit. destruct (existsb _ _); [done|]. apply extends_audit. Qed.

Lemma stmt_extends {A} (f : gdb -> (goerr + A) * gdb) :
  (forall t, extends t (f t).2) -> respects (on_rows extends) (stmt f).
Proof. intros Hf. apply respects_stmt; [apply _|exact Hf]. Qed.

Lemma query_row_extends {A} (f : gdb -> option A) : respects (on_rows extends) (query_row f).
Proof. apply stmt_extends. intros t. by destruct (f t). Qed.

Lemma audit_Append_extends `{AuditLib} e : respects (on_rows extends) (Append e).
Proof.
  unfold Append. grows_tac. apply stmt_extends. apply append_audit_extends.
Qed.

#[export] Hint Resolve stmt_extends query_row_extends audit_Append_extends issue_extends begin_extends finalize_extends
  release_extends lock_extends revoke_live_extends insert_certificate_extends update_gateway_extends : golib.
