(* ===== verification/Enrollment.v ===== *)
(** * Enrollment and renewal transactions

    Models [internal/store/enrollment_tx.go] and [internal/store/renewal_tx.go]:
    issuing bootstrap tokens, leasing one for redemption, turning the lease into
    a certificate, and renewing with the incumbent certificate. Each operation is
    one transaction holding the gateway's row and then the token's. *)

From S2P Require Import Prelude Journal Domain EventIngest GatewayTables GatewayStore Credentials.

#[local] Open Scope Z_scope.

Definition dispositionReplay : string := "replay".
Definition dispositionInvalid : string := "invalid".
Definition dispositionRateLimited : string := "rate_limited".
Definition dispositionInProgress : string := "in_progress".
Definition dispositionAcquired : string := "acquired".

Definition ErrEnrollmentState : goerr := ErrMsg "enrollment state mismatch".
Definition ErrRenewalState : goerr := ErrMsg "certificate renewal state mismatch".

(** [domain.Gateway], the fields a creation reads. *)
Record NewGateway := MkNewGateway {
  ng_ID : string;
  ng_Label : option string;
  ng_Capacity : option Z;
  ng_CreatedAt : Z;
  ng_UpdatedAt : Z;
}.

Record SelectorRecord := MkSelectorRecord {
  sr_TokenID : string;
  sr_GatewayID : string;
  sr_Status : string;
  sr_TokenHash : bytes;
}.

Record AcquireEnrollmentLeaseInput := MkAcquireInput {
  aq_GatewayID : string;
  aq_TokenID : string;
  aq_ExpectedHash : bytes;
  aq_CSRHash : bytes;
  aq_Nonce : bytes;
  aq_Now : Z;
  aq_LeaseUntil : Z;
  aq_CSRValid : bool;
  aq_StartedAudit : AuditEvent;
}.

Record AcquireEnrollmentLeaseResult := MkAcquireResult {
  ar_Disposition : string;
  ar_Certificate : option certificate;
}.

Record FinalizeEnrollmentIssuanceInput := MkFinalizeInput {
  fi_GatewayID : string;
  fi_TokenID : string;
  fi_ExpectedHash : bytes;
  fi_Nonce : bytes;
  fi_CSRHash : bytes;
  fi_Now : Z;
  fi_Certificate : certificate;
  fi_SucceededAudit : AuditEvent;
}.

Record ReleaseEnrollmentLeaseInput := MkReleaseInput {
  rl_GatewayID : string;
  rl_TokenID : string;
  rl_ExpectedHash : bytes;
  rl_Nonce : bytes;
  rl_CSRHash : bytes;
  rl_Now : Z;
  rl_FailureAudit : AuditEvent;
}.

Record RecoverEnrollmentIssuanceInput := MkRecoverInput {
  rc_GatewayID : string;
  rc_TokenID : string;
  rc_ExpectedHash : bytes;
  rc_CSRHash : bytes;
  rc_Now : Z;
}.

(** ** The transaction *)

Record enrollmentTx := MkEnrollmentTx {
  tx_gatewayID : string;
  tx_gatewayStatus : string;
  tx_gatewayDeleted : bool;
  tx_token : option EnrollmentToken;
}.

Definition tokenLocked (t : enrollmentTx) : bool := negb (is_none (tx_token t)).

Definition withTx {A} (fn : M (db gdb) A) : M (shared gdb) A :=
  atomically (with_rollback (begin_tx;; out ← fn; commit_tx;; mret out)).

(** [SELECT id,status,deleted_at FROM gateways WHERE id=? FOR UPDATE]. *)
Definition loadGateway (id : string) : M (db gdb) enrollmentTx :=
  query_row (fun t => r ← g_gateways t !! id;
    Some (MkEnrollmentTx id (gw_Status r) (negb (is_none (gw_DeletedAt r))) None)).

Definition withGatewayTx {A} (gatewayID : string) (fn : enrollmentTx -> M (db gdb) A) : M (shared gdb) A :=
  withTx (t ← loadGateway gatewayID; fn t).

Definition gatewayPending (t : enrollmentTx) : bool :=
  bool_decide (tx_gatewayStatus t = GatewayPendingEnrollment) && negb (tx_gatewayDeleted t).
Definition gatewayRecoveryEligible (t : enrollmentTx) : bool :=
  negb (tx_gatewayDeleted t) &&
  bool_decide (tx_gatewayStatus t ∈ [GatewayJoining; GatewayActive; GatewayDraining; GatewayDrained]).
Definition gatewayDuplicateFinalizeEligible (t : enrollmentTx) (duplicateIssuance : bool) : bool :=
  duplicateIssuance && negb (tx_gatewayDeleted t) && bool_decide (tx_gatewayStatus t = GatewayJoining).

Definition equalBytes (a b : bytes) : bool := bool_decide (a = b).

Definition certificateMatches (cert : GatewayCertificate) (gatewayID tokenID : string) (csrHash : bytes)
  (now : Z) : bool :=
  bool_decide (gt_GatewayID cert = gatewayID) && bool_decide (gt_IssuanceKind cert = "enrollment") &&
  bool_decide (gt_EnrollmentTokenID cert = Some tokenID) && equalBytes (gt_CSRSHA256 cert) csrHash &&
  (gt_NotBefore cert <=? now) && (now <? gt_NotAfter cert).

Definition lockToken (t : enrollmentTx) (id : string) : M (db gdb) (EnrollmentToken * enrollmentTx) :=
  if tokenLocked t then throw (ErrMsg "token already locked")
  else
    token ← getForUpdate id;
    if negb (bool_decide (et_GatewayID token = tx_gatewayID t)) then throw ErrEnrollmentState
    else mret (token, MkEnrollmentTx (tx_gatewayID t) (tx_gatewayStatus t) (tx_gatewayDeleted t) (Some token)).

Definition reverify (t : enrollmentTx) (hash : bytes) : bool :=
  match tx_token t with
  | None => false
  | Some token => Nat.eqb (length hash) (length (et_TokenHash token)) && bool_decide (hash = et_TokenHash token)
  end.

Definition loadToken (t : enrollmentTx) (id : string) (hash : bytes) : M (db gdb) EnrollmentToken :=
  r ← attempt (lockToken t id);
  match r with
  | inl _ => throw ErrEnrollmentState
  | inr (token, t') => if reverify t' hash then mret token else throw ErrEnrollmentState
  end.

(** ** Issuing tokens *)

Definition LookupSelector (id : string) : M (shared gdb) SelectorRecord :=
  atomically (query_row (fun t => k ← g_tokens t !! id;
    Some (MkSelectorRecord id (et_GatewayID k) (et_Status k) (et_TokenHash k)))).

Section Transactions.
Context `{AuditLib}.

Definition CreatePendingWithToken (g : NewGateway) (notes : option string) (creator tokenID : string)
  (token : EnrollmentToken) (audits : list AuditEvent) : M (shared gdb) unit :=
  withTx (
    CreatePending (ng_ID g) (ng_Label g) (ng_Capacity g) (ng_CreatedAt g) (ng_UpdatedAt g) notes (Some creator) 1;;
    issue tokenID token;;
    for_each Append audits).

Definition ReplaceLiveToken (gatewayID tokenID : string) (token : EnrollmentToken) (audit : AuditEvent) (now : Z)
  : M (shared gdb) unit :=
  map_err (fun err => if errors_is ErrNoRows err then ErrEnrollmentState else err)
    (withGatewayTx gatewayID (fun t =>
      if negb (gatewayPending t) then throw ErrEnrollmentState
      else revokeLiveByGateway gatewayID now;; issue tokenID token;; Append audit)).

(** ** Redeeming a token *)

(** The update of a redemption that presented an unusable CSR. *)
Definition reject_csr (status tokenID : string) (now : Z) : gdb -> (goerr + Z) * gdb :=
  update_token tokenID (fun _ => true) (fun k =>
    inr (set_token_state status (Z.min (et_AttemptCount k + 1) (et_MaxAttempts k)) [] [] None None
           (et_ConsumedAt k) (et_RevokedAt k) now k)).

Definition replay_consumed (t : enrollmentTx) (inp : AcquireEnrollmentLeaseInput)
  : M (db gdb) AcquireEnrollmentLeaseResult :=
  if negb (gatewayRecoveryEligible t) then throw ErrEnrollmentState
  else
    r ← attempt (getByTokenCSR (aq_TokenID inp) (aq_CSRHash inp));
    match r with
    | inl _ => throw ErrEnrollmentState
    | inr cert =>
        if certificateMatches cert.2 (aq_GatewayID inp) (aq_TokenID inp) (aq_CSRHash inp) (aq_Now inp)
        then mret (MkAcquireResult dispositionReplay (Some cert)) else throw ErrEnrollmentState
    end.

Definition acquire_tx (inp : AcquireEnrollmentLeaseInput) (t : enrollmentTx)
  : M (db gdb) AcquireEnrollmentLeaseResult :=
  let done_ disposition := mret (MkAcquireResult disposition None) in
  r ← attempt (loadToken t (aq_TokenID inp) (aq_ExpectedHash inp));
  match r with
  | inl _ => throw ErrEnrollmentState
  | inr token =>
      if bool_decide (et_Status token = tokenStatusConsumed) then replay_consumed t inp
      else if (et_ExpiresAt token <=? aq_Now inp) || bool_decide (et_Status token = tokenStatusRevoked)
      then throw ErrEnrollmentState
      else if bool_decide (et_Status token = tokenStatusLocked) then done_ dispositionRateLimited
      else if et_MaxAttempts token <=? et_AttemptCount token then
        lock (aq_TokenID inp) (aq_Now inp);; done_ dispositionRateLimited
      else
        let redeeming := bool_decide (et_Status token = tokenStatusRedeeming) in
        if redeeming && (is_none (et_LeaseExpiresAt token) || negb (equalBytes (et_CSRSHA256 token) (aq_CSRHash inp)))
        then throw ErrEnrollmentState
        else if redeeming && from_option (fun lease => aq_Now inp <? lease) false (et_LeaseExpiresAt token)
        then done_ dispositionInProgress
        else if negb (aq_CSRValid inp) then
          let locked := et_MaxAttempts token <=? et_AttemptCount token + 1 in
          stmt (reject_csr (if locked then tokenStatusLocked else tokenStatusActive) (aq_TokenID inp) (aq_Now inp));;
          done_ (if locked then dispositionRateLimited else dispositionInvalid)
        else
          ok ← begin (aq_TokenID inp) (aq_Nonce inp) (aq_CSRHash inp) (aq_Now inp) (aq_LeaseUntil inp);
          if negb ok then throw ErrEnrollmentState
          else Append (aq_StartedAudit inp);; done_ dispositionAcquired
  end.

Definition AcquireEnrollmentLease (inp : AcquireEnrollmentLeaseInput)
  : M (shared gdb) AcquireEnrollmentLeaseResult :=
  withGatewayTx (aq_GatewayID inp) (acquire_tx inp).

(** The certificate to return, and whether an earlier issuance had stored it. *)
Definition insert_or_reuse (inp : FinalizeEnrollmentIssuanceInput) : M (db gdb) (certificate * bool) :=
  r ← attempt (insertCertificate (fi_Certificate inp));
  match r with
  | inr _ => mret (fi_Certificate inp, false)
  | inl err =>
      found ← attempt (getByTokenCSR (fi_TokenID inp) (fi_CSRHash inp));
      match found with
      | inl _ => throw err
      | inr persisted => mret (persisted, true)
      end
  end.

(** The gateway joins, unless an earlier issuance already let it. *)
Definition enroll_gateway (inp : FinalizeEnrollmentIssuanceInput) (t : enrollmentTx) (duplicateIssuance : bool)
  : M (db gdb) unit :=
  if gatewayPending t then
    ok ← markEnrolledJoining (fi_GatewayID inp) (fi_Now inp);
    if (ok : bool) then mret tt else throw ErrEnrollmentState
  else if gatewayDuplicateFinalizeEligible t duplicateIssuance then mret tt
  else throw ErrEnrollmentState.

Definition finalize_tx (inp : FinalizeEnrollmentIssuanceInput) (t : enrollmentTx) : M (db gdb) certificate :=
  r ← attempt (loadToken t (fi_TokenID inp) (fi_ExpectedHash inp));
  match r with
  | inl _ => throw ErrEnrollmentState
  | inr token =>
      let leaseExpired := from_option (fun lease => lease <=? fi_Now inp) true (et_LeaseExpiresAt token) in
      let materialMismatch := negb (equalBytes (et_RedemptionNonce token) (fi_Nonce inp)) ||
        negb (equalBytes (et_CSRSHA256 token) (fi_CSRHash inp)) in
      if negb (bool_decide (et_Status token = tokenStatusRedeeming)) || materialMismatch || leaseExpired
      then throw ErrEnrollmentState
      else
        '(out, duplicateIssuance) ← insert_or_reuse inp;
        enroll_gateway inp t duplicateIssuance;;
        ok ← finalize (fi_TokenID inp) (fi_Nonce inp) (fi_CSRHash inp) (fi_Now inp);
        if negb ok then throw ErrEnrollmentState
        else Append (fi_SucceededAudit inp);; mret out
  end.

Definition FinalizeEnrollmentIssuance (inp : FinalizeEnrollmentIssuanceInput) : M (shared gdb) certificate :=
  withGatewayTx (fi_GatewayID inp) (finalize_tx inp).

Definition release_tx (inp : ReleaseEnrollmentLeaseInput) (t : enrollmentTx) : M (db gdb) bool :=
  r ← attempt (loadToken t (rl_TokenID inp) (rl_ExpectedHash inp));
  match r with
  | inl _ => mret false
  | inr token =>
      let materialMismatch := negb (equalBytes (et_RedemptionNonce token) (rl_Nonce inp)) ||
        negb (equalBytes (et_CSRSHA256 token) (rl_CSRHash inp)) in
      if negb (bool_decide (et_Status token = tokenStatusRedeeming)) || materialMismatch then mret false
      else
        ok ← release (rl_TokenID inp) (rl_Nonce inp) (rl_CSRHash inp) (rl_Now inp);
        if negb ok then mret false else Append (rl_FailureAudit inp);; mret true
  end.

Definition ReleaseEnrollmentLease (inp : ReleaseEnrollmentLeaseInput) : M (shared gdb) bool :=
  withGatewayTx (rl_GatewayID inp) (release_tx inp).

Definition recover_tx (inp : RecoverEnrollmentIssuanceInput) (t : enrollmentTx) : M (db gdb) certificate :=
  r ← attempt (loadToken t (rc_TokenID inp) (rc_ExpectedHash inp));
  match r with
  | inl _ => throw ErrEnrollmentState
  | inr token =>
      if negb (bool_decide (et_Status token = tokenStatusConsumed)) || negb (gatewayRecoveryEligible t)
      then throw ErrEnrollmentState
      else
        r ← attempt (getByTokenCSR (rc_TokenID inp) (rc_CSRHash inp));
        match r with
        | inl _ => throw ErrEnrollmentState
        | inr cert =>
            if certificateMatches cert.2 (rc_GatewayID inp) (rc_TokenID inp) (rc_CSRHash inp) (rc_Now inp)
            then mret cert else throw ErrEnrollmentState
        end
  end.

Definition RecoverEnrollmentIssuance (inp : RecoverEnrollmentIssuanceInput) : M (shared gdb) certificate :=
  withGatewayTx (rc_GatewayID inp) (recover_tx inp).

(** ** Renewal *)

Record RenewalCredential := MkRenewalCredential {
  nc_GatewayID : string;
  nc_CertificateID : string;
  nc_SerialNumber : string;
  nc_Fingerprint : bytes;
}.

Record PrepareRenewalInput := MkPrepareRenewalInput {
  pr_Credential : RenewalCredential;
  pr_CSRHash : bytes;
  pr_Now : Z;
}.

Record FinalizeRenewalInput := MkFinalizeRenewalInput {
  fr_Credential : RenewalCredential;
  fr_CSRHash : bytes;
  fr_Now : Z;
  fr_Certificate : certificate;
  fr_SucceededAudit : AuditEvent;
}.

Definition validateRenewalCredential (t : enrollmentTx) (credential : RenewalCredential) (now : Z)
  : M (db gdb) unit :=
  if negb (gatewayRecoveryEligible t) then throw ErrRenewalState
  else
    r ← attempt (getForRenewal (nc_CertificateID credential) (nc_GatewayID credential)
                   (nc_Fingerprint credential) (nc_SerialNumber credential));
    match r with
    | inl _ => throw ErrRenewalState
    | inr cert =>
        if negb (is_none (gt_RevokedAt cert.2)) || (now <? gt_NotBefore cert.2) || (gt_NotAfter cert.2 <=? now)
        then throw ErrRenewalState else mret tt
    end.

Definition newRenewalMatches (cert : GatewayCertificate) (gatewayID : string) (csr : bytes) (now : Z) : bool :=
  bool_decide (gt_GatewayID cert = gatewayID) && bool_decide (gt_IssuanceKind cert = "renewal") &&
  is_none (gt_EnrollmentTokenID cert) && equalBytes (gt_CSRSHA256 cert) csr &&
  (gt_NotBefore cert <=? now) && (now <? gt_NotAfter cert).

Definition renewalReplayMatches (cert : GatewayCertificate) (gatewayID : string) (csr : bytes) (now : Z) : bool :=
  newRenewalMatches cert gatewayID csr now && is_none (gt_RevokedAt cert).

Definition normalizeRenewalError (err : goerr) : goerr :=
  if errors_is ErrNoRows err then ErrRenewalState else err.

Definition prepare_tx (inp : PrepareRenewalInput) (t : enrollmentTx) : M (db gdb) (option certificate) :=
  let gatewayID := nc_GatewayID (pr_Credential inp) in
  validateRenewalCredential t (pr_Credential inp) (pr_Now inp);;
  r ← attempt (getByGatewayCSR gatewayID (pr_CSRHash inp));
  match r with
  | inl err => if errors_is ErrNoRows err then mret None else throw ErrRenewalState
  | inr cert =>
      if renewalReplayMatches cert.2 gatewayID (pr_CSRHash inp) (pr_Now inp) then mret (Some cert)
      else throw ErrRenewalState
  end.

Definition PrepareRenewal (inp : PrepareRenewalInput) : M (shared gdb) (option certificate) :=
  map_err normalizeRenewalError (withGatewayTx (nc_GatewayID (pr_Credential inp)) (prepare_tx inp)).

Definition renew_tx (inp : FinalizeRenewalInput) (t : enrollmentTx) : M (db gdb) certificate :=
  let gatewayID := nc_GatewayID (fr_Credential inp) in
  validateRenewalCredential t (fr_Credential inp) (fr_Now inp);;
  r ← attempt (getByGatewayCSR gatewayID (fr_CSRHash inp));
  match r with
  | inr persisted =>
      if renewalReplayMatches persisted.2 gatewayID (fr_CSRHash inp) (fr_Now inp) then mret persisted
      else throw ErrRenewalState
  | inl err =>
      if negb (errors_is ErrNoRows err) ||
         negb (newRenewalMatches (fr_Certificate inp).2 gatewayID (fr_CSRHash inp) (fr_Now inp))
      then throw ErrRenewalState
      else
        r ← attempt (insertCertificate (fr_Certificate inp));
        match r with
        | inr _ => Append (fr_SucceededAudit inp);; mret (fr_Certificate inp)
        | inl err =>
            found ← attempt (getByGatewayCSR gatewayID (fr_CSRHash inp));
            match found with
            | inr persisted =>
                if renewalReplayMatches persisted.2 gatewayID (fr_CSRHash inp) (fr_Now inp) then mret persisted
                else throw err
            | inl _ => throw err
            end
        end
  end.

Definition FinalizeRenewal (inp : FinalizeRenewalInput) : M (shared gdb) certificate :=
  map_err normalizeRenewalError (withGatewayTx (nc_GatewayID (fr_Credential inp)) (renew_tx inp)).
End Transactions.

(** ** Inverting the transactions *)

Lemma attempt_returns {W A} (m : M W A) w r w' : attempt m w = (inr r, w') -> m w = (r, w').
Proof. unfold attempt. destruct (m w) as [r0 w0]. by intros [= -> ->]. Qed.

Lemma query_row_run {S A} (f : S -> option A) (d : db S) r d' :
  query_row f d = (r, d') -> rows d' = rows d /\ match r with inr a => f (rows d) = Some a | inl _ => True end.
Proof.
  unfold query_row, stmt. destruct (head (faults d)) as [[e|]|]; [by intros [= <- <-]|..];
    (destruct (f (rows d)); intros [= <- <-]; done).
Qed.

Lemma stmt_run {S A} (f : S -> (goerr + A) * S) (d : db S) r d' :
  stmt f d = (r, d') -> (exists err, r = inl err) /\ rows d' = rows d \/ f (rows d) = (r, rows d').
Proof.
  unfold stmt. destruct (head (faults d)) as [[e|]|]; [intros [= <- <-]; eauto|..];
    (destruct (f (rows d)) as [r0 s']; intros [= <- <-]; auto).
Qed.

(** The transaction's view of its gateway. *)
Definition tx_of (id : string) (g : GatewayRecord) : enrollmentTx :=
  MkEnrollmentTx id (gw_Status g) (negb (is_none (gw_DeletedAt g))) None.

Lemma withTx_cases {A} (fn : M (db gdb) A) w r w' :
  withTx fn w = (r, w') ->
  let t0 := rows (others_step w).1 in
  sh_others w' = (others_step w).2 /\
  ((exists err, r = inl err) /\ sh_rows w' = t0 \/
   exists a d d', r = inr a /\ rows d = t0 /\ fn d = (inr a, d') /\ sh_rows w' = rows d').
Proof.
  intros Hrun. destruct (atomically_run _ _ _ _ Hrun) as (d' & Hd & ->). cbv zeta. split; [done|].
  unfold sh_rows. cbn. destruct r as [err|a]; [left; split; [eauto|]; by apply with_rollback_error in Hd|right].
  run_inv. exists a. eauto 10 with congruence.
Qed.

Lemma withGatewayTx_cases {A} id (fn : enrollmentTx -> M (db gdb) A) w r w' :
  withGatewayTx id fn w = (r, w') ->
  let t0 := rows (others_step w).1 in
  sh_others w' = (others_step w).2 /\
  ((exists err, r = inl err) /\ sh_rows w' = t0 \/
   exists a g d d', r = inr a /\ g_gateways t0 !! id = Some g /\ rows d = t0 /\
     fn (tx_of id g) d = (inr a, d') /\ sh_rows w' = rows d').
Proof.
  intros Hrun. apply withTx_cases in Hrun as [Ho [Herr|(a & d & d' & -> & Hd & Hfn & Hw)]]; (split; [exact Ho|]);
    [by left|right]. apply bind_returns in Hfn as (t & d1 & Hload & Hfn).
  apply query_row_run in Hload as [Hd1 Hload]. rewrite Hd in Hload.
  destruct (g_gateways _ !! id) as [g|] eqn:Hg; [|done]. injection Hload as <-.
  exists a, g, d1, d'. split; [done|]. split; [done|]. split; [congruence|]. by split.
Qed.

Lemma loadToken_returns t id hash d k d' :
  tx_token t = None -> loadToken t id hash d = (inr k, d') ->
  g_tokens (rows d) !! id = Some k /\ et_GatewayID k = tx_gatewayID t /\ et_TokenHash k = hash /\ rows d' = rows d.
Proof.
  intros Ht. unfold loadToken. intros (r & d1 & Hr%attempt_returns & Hrun)%bind_returns.
  destruct r as [err|[k1 t1]]; [discriminate|]. unfold lockToken, tokenLocked in Hr. rewrite Ht in Hr. cbn [is_none negb] in Hr.
  apply bind_returns in Hr as (k2 & d2 & [Hd2 Hk2]%query_row_run & Hr).
  destruct (negb (bool_decide _)) eqn:Hgw; [discriminate|]. injection Hr as <- <- <-.
  unfold reverify in Hrun. cbn [tx_token] in Hrun. destruct (_ && _) eqn:Hh; [|discriminate].
  injection Hrun as <- <-. to_prop. done.
Qed.

Lemma query_row_keeps {S A} (f : S -> option A) : respects (on_rows (=)) (query_row f).
Proof. intros d r d' [Hd _]%query_row_run. by symmetry. Qed.

Lemma loadToken_rows t id hash d r d' : loadToken t id hash d = (r, d') -> rows d' = rows d.
Proof.
  assert (Hk : respects (on_rows (=)) (loadToken t id hash)).
  { unfold loadToken, lockToken, getForUpdate. grows_tac; apply query_row_keeps. }
  intros Hrun. symmetry. exact (Hk _ _ _ Hrun).
Qed.

Lemma loadToken_attempt t id hash d k d' :
  tx_token t = None -> attempt (loadToken t id hash) d = (inr (inr k), d') ->
  g_tokens (rows d) !! id = Some k /\ et_GatewayID k = tx_gatewayID t /\ et_TokenHash k = hash /\ rows d' = rows d.
Proof. intros Ht Hr%attempt_returns. by apply loadToken_returns. Qed.

Lemma update_statement_returns (f : gdb -> (goerr + Z) * gdb) d b d' :
  (n ← stmt f; mret (n =? 1)) d = (inr b, d') -> exists n, f (rows d) = (inr n, rows d') /\ b = (n =? 1).
Proof. intros (n & d1 & Hs%stmt_returns & [= <- <-])%bind_returns. eauto. Qed.

Section Inversion.
Context `{AuditLib}.

Lemma audit_Append_returns e d u d' :
  Append e d = (inr u, d') ->
  rows d' = with_audit (g_audit (rows d) ++ [e]) (rows d) /\ Forall (fun e' => au_ID e' <> au_ID e) (g_audit (rows d)).
Proof.
  unfold Append. destruct (negb _); [discriminate|]. destruct (validateAuditMetadata _); [discriminate|].
  destruct (json_Marshal_size _) as [|size]; [discriminate|]. destruct (_ <? _); [discriminate|].
  intros Hs%stmt_returns. unfold append_audit in Hs. destruct (existsb _ _) eqn:Hex; [discriminate|].
  injection Hs as _ <-. split; [done|]. apply Forall_forall. intros e' Hin Heq.
  enough (existsb (fun e0 => bool_decide (au_ID e0 = au_ID e)) (g_audit (rows d)) = true) by congruence.
  apply existsb_exists. exists e'. split; [by apply list_elem_of_In|]. by apply bool_decide_true.
Qed.

(** What a transaction that holds a lease request leaves, by the state of the
    token. *)
Inductive acquire_outcome (inp : AcquireEnrollmentLeaseInput) (tx : enrollmentTx) (k : EnrollmentToken) (t : gdb)
  : AcquireEnrollmentLeaseResult -> gdb -> Prop :=
  | AcquireReplays p :
      et_Status k = tokenStatusConsumed -> gatewayRecoveryEligible tx = true ->
      g_certificates t !! p.1 = Some p.2 ->
      certificateMatches p.2 (aq_GatewayID inp) (aq_TokenID inp) (aq_CSRHash inp) (aq_Now inp) = true ->
      acquire_outcome inp tx k t (MkAcquireResult dispositionReplay (Some p)) t
  | AcquireIsLocked :
      et_Status k = tokenStatusLocked ->
      acquire_outcome inp tx k t (MkAcquireResult dispositionRateLimited None) t
  | AcquireLocks n t' :
      et_Status k <> tokenStatusConsumed -> aq_Now inp < et_ExpiresAt k -> et_MaxAttempts k <= et_AttemptCount k ->
      lock_enrollment (aq_TokenID inp) (aq_Now inp) t = (inr n, t') ->
      acquire_outcome inp tx k t (MkAcquireResult dispositionRateLimited None) t'
  | AcquireBusy lease :
      et_Status k = tokenStatusRedeeming -> et_CSRSHA256 k = aq_CSRHash inp ->
      et_LeaseExpiresAt k = Some lease -> aq_Now inp < lease ->
      acquire_outcome inp tx k t (MkAcquireResult dispositionInProgress None) t
  | AcquireRejects n t' :
      aq_CSRValid inp = false -> aq_Now inp < et_ExpiresAt k -> et_AttemptCount k < et_MaxAttempts k ->
      et_Status k <> tokenStatusConsumed -> et_Status k <> tokenStatusRevoked -> et_Status k <> tokenStatusLocked ->
      (forall lease, et_Status k = tokenStatusRedeeming -> et_LeaseExpiresAt k = Some lease -> lease <= aq_Now inp) ->
      let locked := et_MaxAttempts k <=? et_AttemptCount k + 1 in
      reject_csr (if locked then tokenStatusLocked else tokenStatusActive) (aq_TokenID inp) (aq_Now inp) t = (inr n, t') ->
      acquire_outcome inp tx k t
        (MkAcquireResult (if locked then dispositionRateLimited else dispositionInvalid) None) t'
  | AcquireGrants t' :
      aq_CSRValid inp = true -> aq_Now inp < et_ExpiresAt k -> et_AttemptCount k < et_MaxAttempts k ->
      begin_enrollment (aq_TokenID inp) (aq_Nonce inp) (aq_CSRHash inp) (aq_Now inp) (aq_LeaseUntil inp) t = (inr 1, t') ->
      acquire_outcome inp tx k t (MkAcquireResult dispositionAcquired None)
        (with_audit (g_audit t' ++ [aq_StartedAudit inp]) t').

Lemma replay_consumed_returns tx inp d res d' k :
  et_Status k = tokenStatusConsumed -> replay_consumed tx inp d = (inr res, d') ->
  acquire_outcome inp tx k (rows d) res (rows d').
Proof.
  intros Hk. unfold replay_consumed. destruct (gatewayRecoveryEligible tx) eqn:He; [|discriminate]. cbn [negb].
  intros (r & d1 & Hr%attempt_returns & Hrun)%bind_returns. apply query_row_run in Hr as [Hd1 Hr].
  destruct r as [err|p]; [discriminate|]. destruct (certificateMatches _ _ _ _ _) eqn:Hm; [|discriminate].
  injection Hrun as <- <-. rewrite Hd1. apply select_certificate_some in Hr as [Hp _].
  by eapply AcquireReplays.
Qed.

Lemma acquire_tx_returns inp tx d res d' :
  tx_token tx = None -> acquire_tx inp tx d = (inr res, d') ->
  exists k, g_tokens (rows d) !! aq_TokenID inp = Some k /\ et_GatewayID k = tx_gatewayID tx /\
    et_TokenHash k = aq_ExpectedHash inp /\ acquire_outcome inp tx k (rows d) res (rows d').
Proof.
  intros Htx. unfold acquire_tx. intros (r & d1 & Hr & Hrun)%bind_returns.
  destruct r as [err|k]; [discriminate|]. apply loadToken_attempt in Hr as (Hk & Hgw & Hh & Hd1); [|done].
  exists k. do 3 (split; [done|]). rewrite <- Hd1. clear Hd1 Hk.
  case_bool_decide as Hconsumed; [by eapply replay_consumed_returns|].
  destruct (_ || _) eqn:Hdead; [discriminate|]. to_prop.
  case_bool_decide as Hlocked; [injection Hrun as <- <-; by apply AcquireIsLocked|].
  destruct (et_MaxAttempts k <=? et_AttemptCount k) eqn:Hmax.
  { to_prop. apply bind_returns in Hrun as (b & d2 & Hl & [= <- <-]).
    apply update_statement_returns in Hl as (n & Hl & _). by eapply AcquireLocks. }
  destruct (_ && (is_none _ || _)) eqn:Hforeign; [discriminate|].
  destruct (_ && from_option _ _ _) eqn:Hbusy.
  { injection Hrun as <- <-. to_prop. destruct (et_LeaseExpiresAt k) as [lease|] eqn:Hlease; [|done]. cbn in *. to_prop.
    rewrite bool_decide_true in Hforeign by done. cbn in Hforeign. unfold equalBytes in Hforeign. to_prop.
    by apply AcquireBusy with lease. }
  to_prop. destruct (aq_CSRValid inp) eqn:Hcsr; cbn [negb] in Hrun.
  - apply bind_returns in Hrun as (ok & d2 & Hb & Hrun). apply update_statement_returns in Hb as (n & Hb & ->).
    destruct (n =? 1) eqn:Hn; [|discriminate]. to_prop. subst n. cbn [negb] in Hrun.
    apply bind_returns in Hrun as (u & d3 & Ha & [= <- <-]). apply audit_Append_returns in Ha as [-> _].
    by eapply AcquireGrants.
  - apply bind_returns in Hrun as (n & d2 & Hs%stmt_returns & [= <- <-]).
    eapply AcquireRejects; try done. intros lease Hst Hlease. rewrite Hlease, bool_decide_true in Hbusy by done. cbn in Hbusy. to_prop. lia.
Qed.

(** The certificate a finalization returns and the tables after storing it. *)
Inductive stored_certificate (inp : FinalizeEnrollmentIssuanceInput) (t : gdb) : certificate -> bool -> gdb -> Prop :=
  | StoredNow t' :
      insert_certificate (fi_Certificate inp).1 (fi_Certificate inp).2 t = (inr tt, t') ->
      stored_certificate inp t (fi_Certificate inp) false t'
  | StoredBefore p :
      g_certificates t !! p.1 = Some p.2 -> issued_for (fi_TokenID inp) p.2 = true ->
      gt_CSRSHA256 p.2 = fi_CSRHash inp ->
      stored_certificate inp t p true t.

Lemma insert_or_reuse_returns inp d out dup d' :
  insert_or_reuse inp d = (inr (out, dup), d') -> stored_certificate inp (rows d) out dup (rows d').
Proof.
  unfold insert_or_reuse. intros (r & d1 & Hr%attempt_returns & Hrun)%bind_returns. unfold insertCertificate in Hr.
  destruct r as [err|[]].
  - assert (Hd1 : rows d1 = rows d).
    { apply stmt_run in Hr as [[_ Hr]|Hr]; [done|].
      apply insert_certificate_cases in Hr as [[Hr _]|(? & ? & ? & _)]; [done|discriminate]. }
    apply bind_returns in Hrun as (found & d2 & Hf%attempt_returns & Hrun). apply query_row_run in Hf as [Hd2 Hf].
    destruct found as [err'|p]; [discriminate|]. injection Hrun as <- <- <-. rewrite Hd2, Hd1 in *.
    apply select_certificate_some in Hf as [Hp Hm]. to_prop. by apply StoredBefore.
  - injection Hrun as <- <- <-. apply stmt_returns in Hr. by apply StoredNow.
Qed.

(** How the gateway's row follows. *)
Inductive enrolls (inp : FinalizeEnrollmentIssuanceInput) (tx : enrollmentTx) (dup : bool) (t : gdb) : gdb -> Prop :=
  | EnrollsNow g :
      gatewayPending tx = true -> g_gateways t !! fi_GatewayID inp = Some g -> live g = true ->
      gw_Status g = GatewayPendingEnrollment ->
      enrolls inp tx dup t (with_gateways (<[fi_GatewayID inp :=
        set_status GatewayJoining (set_enrolled (fi_Now inp) (set_updated (fi_Now inp) g))]> (g_gateways t)) t)
  | EnrolledBefore :
      dup = true -> tx_gatewayDeleted tx = false -> tx_gatewayStatus tx = GatewayJoining ->
      enrolls inp tx dup t t.

Lemma enroll_gateway_returns inp tx dup d u d' :
  enroll_gateway inp tx dup d = (inr u, d') -> enrolls inp tx dup (rows d) (rows d').
Proof.
  unfold enroll_gateway. destruct (gatewayPending tx) eqn:Hp.
  - intros (ok & d1 & Hm & Hrun)%bind_returns. destruct ok; [|discriminate]. injection Hrun as _ <-.
    unfold markEnrolledJoining in Hm. apply update_statement_returns in Hm as (n & Hm & Hn).
    apply update_gateway_cases in Hm as [[_ [[= ->]|(? & [=])]]|(g & g' & Hg & Hgd & [= <-] & _ & [= ->] & ->)];
      [discriminate Hn|]. to_prop. by apply EnrollsNow.
  - unfold gatewayDuplicateFinalizeEligible. destruct (_ && _) eqn:He; [|discriminate]. intros [= _ <-]. to_prop.
    by apply EnrolledBefore.
Qed.

Record finalize_outcome (inp : FinalizeEnrollmentIssuanceInput) (tx : enrollmentTx) (k : EnrollmentToken)
  (t : gdb) (out : certificate) (t' : gdb) : Prop := {
  fo_status : et_Status k = tokenStatusRedeeming;
  fo_nonce : et_RedemptionNonce k = fi_Nonce inp;
  fo_csr : et_CSRSHA256 k = fi_CSRHash inp;
  fo_effect : exists dup t1 t2 t3,
    stored_certificate inp t out dup t1 /\ enrolls inp tx dup t1 t2 /\
    finalize_enrollment (fi_TokenID inp) (fi_Nonce inp) (fi_CSRHash inp) (fi_Now inp) t2 = (inr 1, t3) /\
    t' = with_audit (g_audit t3 ++ [fi_SucceededAudit inp]) t3;
}.

Lemma finalize_tx_returns inp tx d out d' :
  tx_token tx = None -> finalize_tx inp tx d = (inr out, d') ->
  exists k, g_tokens (rows d) !! fi_TokenID inp = Some k /\ et_GatewayID k = tx_gatewayID tx /\
    et_TokenHash k = fi_ExpectedHash inp /\ finalize_outcome inp tx k (rows d) out (rows d').
Proof.
  intros Htx. unfold finalize_tx. intros (r & d1 & Hr & Hrun)%bind_returns.
  destruct r as [err|k]; [discriminate|]. apply loadToken_attempt in Hr as (Hk & Hgw & Hh & Hd1); [|done].
  exists k. do 3 (split; [done|]). cbv zeta in Hrun. destruct (_ || from_option _ _ _) eqn:Hdead; [discriminate|].
  unfold equalBytes in Hdead. to_prop. split; [done..|].
  apply bind_returns in Hrun as ([out0 dup] & d2 & Hins%insert_or_reuse_returns & Hrun).
  apply bind_returns in Hrun as (u & d3 & Hen%enroll_gateway_returns & Hrun).
  apply bind_returns in Hrun as (ok & d4 & Hfin & Hrun). apply update_statement_returns in Hfin as (n & Hfin & ->).
  destruct (n =? 1) eqn:Hn; [|discriminate]. to_prop. subst n. cbn [negb] in Hrun.
  apply bind_returns in Hrun as (u2 & d5 & Ha & [= <- <-]). apply audit_Append_returns in Ha as [-> _].
  rewrite <- Hd1. eauto 10.
Qed.

(** *** Release, recovery, renewal *)

Lemma release_tx_returns inp tx d b d' :
  tx_token tx = None -> release_tx inp tx d = (inr b, d') ->
  (b = false /\ rows d' = rows d) \/
  b = true /\ exists k t1, g_tokens (rows d) !! rl_TokenID inp = Some k /\ et_GatewayID k = tx_gatewayID tx /\
    et_TokenHash k = rl_ExpectedHash inp /\
    release_enrollment (rl_TokenID inp) (rl_Nonce inp) (rl_CSRHash inp) (rl_Now inp) (rows d) = (inr 1, t1) /\
    rows d' = with_audit (g_audit t1 ++ [rl_FailureAudit inp]) t1.
Proof.
  intros Htx. unfold release_tx. intros (r & d1 & Hr & Hrun)%bind_returns. destruct r as [err|k].
  - injection Hrun as <- <-. left. split; [done|]. apply attempt_returns in Hr. by apply loadToken_rows in Hr.
  - apply loadToken_attempt in Hr as (Hk & Hgw & Hh & Hd1); [|done]. cbv zeta in Hrun.
    destruct (_ || _) eqn:Hdead; [injection Hrun as <- <-; auto|].
    apply bind_returns in Hrun as (ok & d2 & Hrel & Hrun). apply update_statement_returns in Hrel as (n & Hrel & ->).
    destruct (n =? 1) eqn:Hn; cbn [negb] in Hrun.
    + to_prop. subst n. apply bind_returns in Hrun as (u & d3 & Ha & [= <- <-]). apply audit_Append_returns in Ha as [-> _].
      right. split; [done|]. exists k, (rows d2). rewrite Hd1 in Hrel. auto.
    + injection Hrun as <- <-. left. split; [done|].
      apply update_token_cases in Hrel as [[-> _]|(? & ? & _ & _ & _ & _ & [= ->] & _)]; done.
Qed.
End Inversion.

(** ** Growth of the transactions *)

Lemma withTx_extends {A} (fn : M (db gdb) A) :
  (forall d a d', fn d = (inr a, d') -> extends (rows d) (rows d')) -> respects (grows_under extends) (withTx fn).
Proof.
  intros Hfn. apply respects_atomically; [apply _|]. apply respects_on_commit; [apply _|].
  intros d a d' (u & d1 & [_ Hd1]%query_returns & Hrun)%bind_returns.
  apply bind_returns in Hrun as (out & d2 & Hbody%Hfn & Hrun).
  apply bind_returns in Hrun as (u' & d3 & [_ Hd3]%query_returns & [= <- <-]). by rewrite Hd3, <- Hd1.
Qed.

Lemma respects_body {A} (R : gdb -> gdb -> Prop) (fn : M (db gdb) A) :
  respects (on_rows R) fn -> forall d a d', fn d = (inr a, d') -> R (rows d) (rows d').
Proof. intros Hfn d a d' Hrun. exact (Hfn _ _ _ Hrun). Qed.

Lemma withGatewayTx_extends {A} id (fn : enrollmentTx -> M (db gdb) A) :
  (forall g d a d', fn (tx_of id g) d = (inr a, d') -> extends (rows d) (rows d')) ->
  respects (grows_under extends) (withGatewayTx id fn).
Proof.
  intros Hfn. apply withTx_extends. intros d a d' (t & d1 & Hload & Hrun)%bind_returns.
  apply query_row_run in Hload as [Hd1 Hload]. destruct (g_gateways _ !! id) as [g|]; [|done]. injection Hload as <-.
  rewrite <- Hd1. by eapply Hfn.
Qed.

Lemma loadToken_extends t id hash : respects (on_rows extends) (loadToken t id hash).
Proof. intros d r d' Hrun%loadToken_rows. unfold on_rows. by rewrite Hrun. Qed.

#[export] Hint Resolve loadToken_extends : golib.

Ltac extends_tac :=
  unfold getByTokenCSR, getByGatewayCSR, getForRenewal, getForUpdate, insertCertificate, issue, begin, finalize, release,
    lock, revokeLiveByGateway, markEnrolledJoining;
  grows_tac; try apply query_row_extends; try (apply stmt_extends; intros ?);
  unfold begin_enrollment, finalize_enrollment, release_enrollment; auto with golib;
  try (apply update_gateway_extends; raises_tac).

Section Growth.
Context `{AuditLib}.

Lemma CreatePending_extends id label capacity createdAt updatedAt notes creator revision :
  respects (on_rows extends) (CreatePending id label capacity createdAt updatedAt notes creator revision).
Proof.
  unfold CreatePending. grows_tac. apply stmt_extends. intros t. unfold create_gateway.
  destruct (g_gateways t !! id) eqn:Hid; [done|]. destruct (revisions_ok _); [|done]. cbn.
  apply extends_registry; [|done..]. intros id' r Hr. cbn. rewrite lookup_insert_ne by congruence. exists r. by split.
Qed.

Lemma for_each_extends {A} (f : A -> M (db gdb) unit) l :
  (forall a, respects (on_rows extends) (f a)) -> respects (on_rows extends) (for_each f l).
Proof. intros Hf. induction l; cbn [for_each]; grows_tac. Qed.

Lemma CreatePendingWithToken_extends g notes creator tokenID token audits :
  respects (grows_under extends) (CreatePendingWithToken g notes creator tokenID token audits).
Proof.
  apply withTx_extends, respects_body. grows_tac; [apply CreatePending_extends|..].
  - apply stmt_extends. auto with golib.
  - apply for_each_extends. auto with golib.
Qed.

Lemma ReplaceLiveToken_extends gatewayID tokenID token audit now :
  respects (grows_under extends) (ReplaceLiveToken gatewayID tokenID token audit now).
Proof.
  unfold ReplaceLiveToken. apply respects_map_err, withGatewayTx_extends. intros g. apply respects_body. extends_tac.
Qed.

(** A rejected CSR counts one attempt of a token the transaction found open. *)
Lemma reject_csr_returns status id now t k n t' :
  g_tokens t !! id = Some k -> reject_csr status id now t = (inr n, t') ->
  let k' := set_token_state status (Z.min (et_AttemptCount k + 1) (et_MaxAttempts k)) [] [] None None
              (et_ConsumedAt k) (et_RevokedAt k) now k in
  check_token k' = None /\ t' = with_tokens (<[id := k']> (g_tokens t)) t.
Proof.
  intros Hk. unfold reject_csr, update_token. rewrite Hk. cbv zeta. destruct (check_token _) eqn:Hc; by intros [= _ <-].
Qed.

Lemma acquire_outcome_extends inp tx k t res t' :
  g_tokens t !! aq_TokenID inp = Some k -> acquire_outcome inp tx k t res t' -> extends t t'.
Proof.
  intros Hk Ho. destruct Ho as [| |n t' _ _ _ Hl| |n t' _ _ Ha Hc Hr Hlk _ locked Hrej|t' _ _ _ Hb]; [done|done| |done|..].
  - pose proof (lock_extends (aq_TokenID inp) (aq_Now inp) t) as He. by rewrite Hl in He.
  - apply (reject_csr_returns _ _ _ _ _ _ _ Hk) in Hrej as [Hck ->].
    eapply with_token_extends; [exact Hk|exact Hck|]. intros Hcn. apply set_token_state_grows; [|lia].
    apply check_token_live; try done. by apply (cn_token _ Hcn _ _ Hk).
  - transitivity t'.
    + pose proof (begin_extends (aq_TokenID inp) (aq_Nonce inp) (aq_CSRHash inp) (aq_Now inp) (aq_LeaseUntil inp) t) as He.
      by rewrite Hb in He.

    + apply extends_audit.
Qed.

Lemma AcquireEnrollmentLease_extends inp : respects (grows_under extends) (AcquireEnrollmentLease inp).
Proof.
  apply withGatewayTx_extends. intros g d a d' (k & Hk & _ & _ & Ho)%acquire_tx_returns; [|done].
  by eapply acquire_outcome_extends.
Qed.

Lemma FinalizeEnrollmentIssuance_extends inp : respects (grows_under extends) (FinalizeEnrollmentIssuance inp).
Proof.
  apply withGatewayTx_extends. intros g. apply respects_body. unfold finalize_tx, insert_or_reuse, enroll_gateway.
  extends_tac.
Qed.

Lemma ReleaseEnrollmentLease_extends inp : respects (grows_under extends) (ReleaseEnrollmentLease inp).
Proof. apply withGatewayTx_extends. intros g. apply respects_body. unfold release_tx. extends_tac. Qed.

Lemma RecoverEnrollmentIssuance_extends inp : respects (grows_under extends) (RecoverEnrollmentIssuance inp).
Proof. apply withGatewayTx_extends. intros g. apply respects_body. unfold recover_tx. extends_tac. Qed.

Lemma PrepareRenewal_extends inp : respects (grows_under extends) (PrepareRenewal inp).
Proof.
  apply respects_map_err, withGatewayTx_extends. intros g. apply respects_body.
  unfold prepare_tx, validateRenewalCredential. extends_tac.
Qed.

Lemma FinalizeRenewal_extends inp : respects (grows_under extends) (FinalizeRenewal inp).
Proof.
  apply respects_map_err, withGatewayTx_extends. intros g. apply respects_body.
  unfold renew_tx, validateRenewalCredential. extends_tac.
Qed.
End Growth.
