(* ===== verification/GatewayAdmin.v ===== *)
(** * Operator-originated gateway transitions

    Models [internal/store/gateway_admin_tx.go] and the query by which the
    private listener admits a client certificate
    ([AuthorizeGatewayCertificate] of [cmd/api/private_grpc.go]). Each transition
    is one transaction on the gateway's row with its audit events. *)

From S2P Require Import Prelude Journal Domain EventIngest GatewayTables GatewayStore Credentials Enrollment.

#[local] Open Scope Z_scope.

Definition ErrGatewayAdminState : goerr := ErrMsg "gateway administration state mismatch".

(** [changed]: a statement that did not match exactly one row is a state error. *)
Definition changed (m : M (db gdb) Z) : M (db gdb) unit :=
  n ← m; if n =? 1 then mret tt else throw ErrGatewayAdminState.

(** [withGateway]: the status of the locked gateway and whether it ever enrolled. *)
Definition withGateway {A} (gatewayID : string) (fn : string -> bool -> M (db gdb) A) : M (shared gdb) A :=
  atomically (with_rollback (
    begin_tx;;
    '(status, enrolled) ← map_err (fun err => if errors_is ErrNoRows err then ErrGatewayAdminState else err)
      (query_row (fun t => r ← g_gateways t !! gatewayID;
         if live r then Some (gw_Status r, negb (is_none (gw_EnrolledAt r))) else None));
    out ← fn status enrolled;
    commit_tx;;
    mret out)).

(** [desired_lifecycle = ?, desired_revision = desired_revision + 1]. *)
Definition advance_lifecycle (lifecycle : string) (r : GatewayRecord) : goerr + GatewayRecord :=
  match increment (gi_DesiredRevision (gw_intent r)) with
  | inl err => inl err
  | inr revision => inr (set_intent (MkGatewayIntent lifecycle revision (gi_AppliedRevision (gw_intent r))) r)
  end.

Definition not_disabled (r : GatewayRecord) : bool := live r && negb (bool_decide (gw_Status r = GatewayDisabled)).

Section Admin.
Context `{AuditLib}.

Definition transition (gatewayID : string) (audit : AuditEvent) (apply : string -> bool -> M (db gdb) unit)
  : M (shared gdb) unit :=
  withGateway gatewayID (fun status enrolled => apply status enrolled;; Append audit).

Definition Drain (gatewayID : string) (at_ : Z) (audit : AuditEvent) : M (shared gdb) unit :=
  transition gatewayID audit (fun status enrolled =>
    let drainable := bool_decide (status ∈ [GatewayJoining; GatewayActive; GatewayDegraded]) in
    if negb enrolled || negb drainable then throw ErrGatewayAdminState
    else changed (stmt (update_gateway gatewayID not_disabled (fun r =>
           match advance_lifecycle "drain" r with inl err => inl err | inr r' => inr (set_updated at_ r') end)))).

Definition Resume (gatewayID : string) (at_ : Z) (audit : AuditEvent) : M (shared gdb) unit :=
  transition gatewayID audit (fun status enrolled =>
    let resumable := bool_decide (status ∈ [GatewayDraining; GatewayDrained]) in
    if negb enrolled || negb resumable then throw ErrGatewayAdminState
    else changed (stmt (update_gateway gatewayID not_disabled (fun r =>
           match advance_lifecycle "run" r with inl err => inl err | inr r' => inr (set_updated at_ r') end)))).

Definition DisableGateway (gatewayID : string) (at_ : Z) (audit : AuditEvent) : M (shared gdb) unit :=
  transition gatewayID audit (fun status _ =>
    if bool_decide (status = GatewayDisabled) then throw ErrGatewayAdminState
    else changed (stmt (update_gateway gatewayID live (fun r =>
           match increment (gw_ConnectionEpoch r) with
           | inl err => inl err
           | inr epoch => inr (set_status GatewayDisabled (set_epoch epoch (set_updated at_ r)))
           end)))).

Definition Reenable (gatewayID : string) (at_ : Z) (audit : AuditEvent) : M (shared gdb) unit :=
  transition gatewayID audit (fun status enrolled =>
    if negb (bool_decide (status = GatewayDisabled)) then throw ErrGatewayAdminState
    else
      let next := if enrolled then GatewayJoining else GatewayPendingEnrollment in
      changed (stmt (update_gateway gatewayID
        (fun r => live r && bool_decide (gw_Status r = GatewayDisabled)) (fun r =>
          match advance_lifecycle "run" r with
          | inl err => inl err
          | inr r' => inr (set_status next (set_updated at_ r'))
          end)))).

(** [UPDATE gateway_certificates SET revoked_at=?, revocation_reason='re_enrollment'
    WHERE gateway_id=? AND revoked_at IS NULL]. *)
Definition revoke_certificates (gatewayID : string) (at_ : Z) (t : gdb) : unit * gdb :=
  (tt, with_certificates
    ((fun c => if live_certificate gatewayID c then revoke_certificate at_ "re_enrollment" c else c)
       <$> g_certificates t) t).

(** The gateway's row of a re-enrollment. *)
Definition reenroll_row (at_ : Z) (r : GatewayRecord) : goerr + GatewayRecord :=
  match advance_lifecycle "run" r, increment (gw_ConnectionEpoch r) with
  | inr r', inr epoch =>
      inr (set_status GatewayPendingEnrollment (set_epoch epoch (set_updated at_
             (set_reach (set_liveness None None (gw_reach r')) r'))))
  | inl err, _ | _, inl err => inl err
  end.

Definition reenroll_tx (gatewayID tokenID : string) (token : EnrollmentToken) (at_ : Z) (audits : list AuditEvent)
  (status : string) (enrolled : bool) : M (db gdb) unit :=
  let reenrollable := bool_decide (status ∈ [GatewayDrained; GatewayDisabled]) in
  if negb enrolled || negb reenrollable then throw ErrGatewayAdminState
  else
    revokeLiveByGateway gatewayID at_;;
    exec (revoke_certificates gatewayID at_);;
    stmt (update_gateway gatewayID live (reenroll_row at_));;
    issue tokenID token;;
    for_each Append audits.

Definition Reenroll (gatewayID tokenID : string) (token : EnrollmentToken) (at_ : Z) (audits : list AuditEvent)
  : M (shared gdb) unit :=
  withGateway gatewayID (reenroll_tx gatewayID tokenID token at_ audits).

(** [SELECT COUNT( * ) FROM wa_sessions WHERE gateway_id=?]. *)
Definition count_sessions (gatewayID : string) (t : gdb) : Z :=
  Z.of_nat (length (filter (fun p => ss_GatewayID p.2 = gatewayID) (map_to_list (g_sessions t)))).

Definition delete_tx (gatewayID : string) (at_ : Z) (audit : AuditEvent) (status : string) (enrolled : bool)
  : M (db gdb) unit :=
  let deletable := bool_decide (status ∈ [GatewayDrained; GatewayDisabled]) in
  if negb deletable then throw ErrGatewayAdminState
  else
    assigned ← query (count_sessions gatewayID);
    if negb (assigned =? 0) then throw ErrGatewayAdminState
    else
      changed (stmt (soft_delete_gateway gatewayID [GatewayDrained; GatewayDisabled] at_));;
      Append audit.

Definition Delete (gatewayID : string) (acknowledged : bool) (at_ : Z) (audit : AuditEvent) : M (shared gdb) unit :=
  if negb acknowledged then throw ErrGatewayAdminState
  else withGateway gatewayID (delete_tx gatewayID at_ audit).
End Admin.

(** ** Admission of a client certificate *)

(** [AuthorizeGatewayCertificate]: the certificate's id and authority. *)
Definition authorizing (gatewayID serialNumber : string) (fingerprint : bytes) (now : Z) (c : GatewayCertificate) : bool :=
  bool_decide (gt_GatewayID c = gatewayID) && bool_decide (gt_SerialNumber c = serialNumber) &&
  bool_decide (gt_Fingerprint c = fingerprint) && is_none (gt_RevokedAt c) &&
  (gt_NotBefore c <=? now) && (now <? gt_NotAfter c).
Definition authorized_certificate (gatewayID serialNumber : string) (fingerprint : bytes) (now : Z) (t : gdb)
  : option (string * string) :=
  match g_gateways t !! gatewayID with
  | None => None
  | Some g =>
      if not_disabled g then
        (fun p => (p.1, gt_AuthorityID p.2)) <$>
          select_certificate (fun p => authorizing gatewayID serialNumber fingerprint now p.2) t
      else None
  end.
Definition AuthorizeGatewayCertificate (gatewayID serialNumber : string) (fingerprint : bytes) (now : Z)
  : M (shared gdb) (string * string) :=
  atomically (query_row (authorized_certificate gatewayID serialNumber fingerprint now)).

(** ** Inverting the transactions *)

Lemma withGateway_cases {A} id (fn : string -> bool -> M (db gdb) A) w r w' :
  withGateway id fn w = (r, w') ->
  let t0 := rows (others_step w).1 in
  sh_others w' = (others_step w).2 /\
  ((exists err, r = inl err) /\ sh_rows w' = t0 \/
   exists a g d d', r = inr a /\ g_gateways t0 !! id = Some g /\ live g = true /\ rows d = t0 /\
     fn (gw_Status g) (negb (is_none (gw_EnrolledAt g))) d = (inr a, d') /\ sh_rows w' = rows d').
Proof.
  intros Hrun. destruct (atomically_run _ _ _ _ Hrun) as (d' & Hd & ->). cbv zeta. split; [done|].
  unfold sh_rows. cbn [sh_db]. destruct r as [err|a]; [left; split; [eauto|]; by apply with_rollback_error in Hd|right].
  apply with_rollback_returns in Hd. apply bind_returns in Hd as (u & d1 & [_ Hd1]%query_returns & Hd).
  apply bind_returns in Hd as ([status enrolled] & d2 & Hq%map_err_returns & Hd).
  apply query_row_run in Hq as [Hd2 Hq]. apply bind_returns in Hd as (out & d3 & Hfn & Hd).
  apply bind_returns in Hd as (u' & d4 & [_ Hd4]%query_returns & [= <- <-]).
  rewrite Hd1 in Hq. destruct (g_gateways _ !! id) as [g|] eqn:Hg; [|done]. cbn in Hq.
  destruct (live g) eqn:Hl; [|done]. injection Hq as <- <-. exists out, g, d2, d3. split; [done|]. split; [done|].
  split; [done|]. split; [congruence|]. split; [done|]. congruence.
Qed.

Lemma changed_returns (m : M (db gdb) Z) d u d' : changed m d = (inr u, d') -> m d = (inr 1, d').
Proof.
  unfold changed. intros (n & d1 & Hm & Hrun)%bind_returns. destruct (n =? 1) eqn:Hn; [|discriminate]. to_prop.
  injection Hrun as _ <-. by subst n.
Qed.

(** A guarded update of one gateway that had to match. *)
Lemma changed_gateway id guard f d u d' :
  changed (stmt (update_gateway id guard f)) d = (inr u, d') ->
  exists g g', g_gateways (rows d) !! id = Some g /\ guard g = true /\ f g = inr g' /\
    rows d' = with_gateways (<[id := g']> (g_gateways (rows d))) (rows d).
Proof.
  intros Hc%changed_returns%stmt_returns.
  apply update_gateway_cases in Hc as [[_ [[=]|[? [=]]]]|(g & g' & Hg & Hgd & Hf & _ & _ & ->)]. by exists g, g'.
Qed.

Lemma advance_lifecycle_inr l r r' : advance_lifecycle l r = inr r' ->
  gw_Status r' = gw_Status r /\ gw_ConnectionEpoch r' = gw_ConnectionEpoch r /\ gw_DeletedAt r' = gw_DeletedAt r /\
  gw_EnrolledAt r' = gw_EnrolledAt r /\ gi_DesiredLifecycle (gw_intent r') = l /\
  gi_DesiredRevision (gw_intent r') = gi_DesiredRevision (gw_intent r) + 1.
Proof.
  unfold advance_lifecycle. destruct (increment _) as [|n] eqn:Hi; [done|]. intros [= <-].
  apply increment_inr in Hi as [-> _]. done.
Qed.

Lemma raises_lifecycle_update l (f : GatewayRecord -> GatewayRecord) :
  (forall r, gw_ConnectionEpoch (f r) = gw_ConnectionEpoch r /\ gw_DeletedAt (f r) = gw_DeletedAt r) ->
  raises (fun r => match advance_lifecycle l r with inl err => inl err | inr r' => inr (f r') end).
Proof.
  intros Hf r r'. destruct (advance_lifecycle l r) as [|r1] eqn:Ha; [done|]. intros [= <-].
  apply advance_lifecycle_inr in Ha as (_ & He & Hd & _). destruct (Hf r1) as [Hfe Hfd].
  split; unfold live; rewrite ?Hfe, ?Hfd, ?He, ?Hd; [lia|done].
Qed.

Lemma raises_disable at_ : raises (fun r => match increment (gw_ConnectionEpoch r) with
  | inl err => inl err
  | inr epoch => inr (set_status GatewayDisabled (set_epoch epoch (set_updated at_ r))) end).
Proof.
  intros r r'. destruct (increment _) as [|e] eqn:He; [done|]. intros [= <-].
  apply increment_inr in He as [-> _]. split; cbn; [lia|done].
Qed.

Lemma reenroll_row_inr at_ r r' : reenroll_row at_ r = inr r' ->
  gw_Status r' = GatewayPendingEnrollment /\ gw_ConnectionEpoch r' = gw_ConnectionEpoch r + 1 /\
  gw_DeletedAt r' = gw_DeletedAt r.
Proof.
  unfold reenroll_row. destruct (advance_lifecycle _ r) as [|r1] eqn:Ha; [done|].
  destruct (increment _) as [|e] eqn:He; [done|]. intros [= <-]. apply increment_inr in He as [-> _].
  by apply advance_lifecycle_inr in Ha as (_ & _ & Hd & _).
Qed.

Lemma raises_reenroll at_ : raises (reenroll_row at_).
Proof. intros r r' (_ & He & Hd)%reenroll_row_inr. split; unfold live; rewrite ?He, ?Hd; [lia|done]. Qed.

#[export] Hint Resolve raises_disable raises_reenroll : golib.

(** ** Growth *)

Lemma withGateway_extends {A} id (fn : string -> bool -> M (db gdb) A) :
  (forall status enrolled, respects (on_rows extends) (fn status enrolled)) ->
  respects (grows_under extends) (withGateway id fn).
Proof.
  intros Hfn. apply respects_atomically; [apply _|]. apply respects_with_rollback; [apply _|]. grows_tac; by apply query_row_extends.
Qed.

Lemma revoke_certificates_extends gatewayID at_ t : extends t (revoke_certificates gatewayID at_ t).2.
Proof.
  set (f := fun c => if live_certificate gatewayID c then revoke_certificate at_ "re_enrollment" c else c).
  assert (Hf : forall c, certificate_grows c (f c)).
  { intros c. unfold f. destruct (live_certificate gatewayID c) eqn:Hl; [right|by left].
    unfold live_certificate in Hl. to_prop. destruct (gt_RevokedAt c); [done|]. eauto. }
  assert (Hid : forall c, gt_GatewayID (f c) = gt_GatewayID c /\ gt_IssuanceKind (f c) = gt_IssuanceKind c /\
      gt_EnrollmentTokenID (f c) = gt_EnrollmentTokenID c /\ gt_AuthorityID (f c) = gt_AuthorityID c /\
      gt_SerialNumber (f c) = gt_SerialNumber c /\ gt_Fingerprint (f c) = gt_Fingerprint c /\
      gt_CSRSHA256 (f c) = gt_CSRSHA256 c).
  { intros c. unfold f. by destruct (live_certificate gatewayID c). }
  intros [Htok Hcert Huniq]. split; [split|split]; cbn; fold f.
  - exact Htok.
  - intros id c' Hc'. rewrite lookup_fmap in Hc'. apply fmap_Some in Hc' as (c & Hc & ->).
    destruct (Hid c) as (-> & Hk & -> & _). destruct (Hcert _ _ Hc) as (Hi & Hg & Ht).
    split; [|by split]. unfold chk_certificate_issuance in *. destruct (Hid c) as (_ & -> & -> & _). exact Hi.
  - intros id id' c1 c2 H1 H2. rewrite lookup_fmap in H1, H2.
    apply fmap_Some in H1 as (c & Hc & ->), H2 as (c' & Hc' & ->). unfold certificates_clash.
    destruct (Hid c) as (-> & _ & _ & -> & -> & -> & ->), (Hid c') as (-> & _ & _ & -> & -> & -> & ->).
    by apply Huniq.
  - by apply registry_grows_same.
  - intros id k Hk. exists k. by split.
  - intros id c Hc. exists (f c). rewrite lookup_fmap, Hc. split; [done|]. apply Hf.
  - done.
Qed.

Section AdminGrowth.
Context `{AuditLib}.

Lemma transition_extends id audit fn :
  (forall status enrolled, respects (on_rows extends) (fn status enrolled)) ->
  respects (grows_under extends) (transition id audit fn).
Proof. intros Hfn. apply withGateway_extends. intros status enrolled. grows_tac. Qed.

Lemma changed_extends m : respects (on_rows extends) m -> respects (on_rows extends) (changed m).
Proof. intros Hm. unfold changed. grows_tac. Qed.

Lemma Drain_extends id at_ audit : respects (grows_under extends) (Drain id at_ audit).
Proof.
  apply transition_extends. intros status enrolled. cbv zeta. grows_tac. apply changed_extends, stmt_extends, update_gateway_extends.
  by apply raises_lifecycle_update.
Qed.

Lemma Resume_extends id at_ audit : respects (grows_under extends) (Resume id at_ audit).
Proof.
  apply transition_extends. intros status enrolled. cbv zeta. grows_tac. apply changed_extends, stmt_extends, update_gateway_extends.
  by apply raises_lifecycle_update.
Qed.

Lemma DisableGateway_extends id at_ audit : respects (grows_under extends) (DisableGateway id at_ audit).
Proof.
  apply transition_extends. intros status enrolled. grows_tac. apply changed_extends, stmt_extends, update_gateway_extends.
  auto with golib.
Qed.

Lemma Reenable_extends id at_ audit : respects (grows_under extends) (Reenable id at_ audit).
Proof.
  apply transition_extends. intros status enrolled. cbv zeta.
  destruct (negb _); [apply respects_throw, _|]. apply changed_extends, stmt_extends, update_gateway_extends.
  apply (raises_lifecycle_update "run" (fun r' => set_status _ (set_updated at_ r'))). done.
Qed.

Lemma Reenroll_extends id tokenID token at_ audits :
  respects (grows_under extends) (Reenroll id tokenID token at_ audits).
Proof.
  apply withGateway_extends. intros status enrolled. unfold reenroll_tx, revokeLiveByGateway, issue. cbv zeta. grows_tac.
  - apply respects_exec; [apply _|]. apply revoke_certificates_extends.
  - apply for_each_extends. auto with golib.
Qed.

Lemma Delete_extends id ack at_ audit : respects (grows_under extends) (Delete id ack at_ audit).
Proof.
  unfold Delete. destruct (negb ack); [apply respects_throw, _|]. apply withGateway_extends. intros status enrolled.
  unfold delete_tx. cbv zeta. grows_tac. apply changed_extends, stmt_extends. intros t.
  apply update_gateway_extends. raises_tac.
Qed.
End AdminGrowth.
