(* ===== verification/CredentialHistory.v ===== *)
(** * Histories of credential operations

    The invariant of tokens and certificates ([credentials_wf]), its preservation
    by every transaction of Enrollment and GatewayAdmin, and histories of these
    operations by any number of callers on tables other processes grow as
    well. *)

From S2P Require Import Prelude Journal Domain EventIngest GatewayTables GatewayStore Credentials Enrollment GatewayAdmin.

#[local] Open Scope Z_scope.

(** ** The invariant *)

(** A token is consumed exactly when one certificate was issued for it. *)
Record single_use (t : gdb) : Prop := {
  su_consumed : forall id c tokenID, g_certificates t !! id = Some c -> gt_EnrollmentTokenID c = Some tokenID ->
    exists k, g_tokens t !! tokenID = Some k /\ et_Status k = tokenStatusConsumed /\ et_GatewayID k = gt_GatewayID c;
  su_issued : forall tokenID k, g_tokens t !! tokenID = Some k -> et_Status k = tokenStatusConsumed ->
    exists id c, g_certificates t !! id = Some c /\ gt_EnrollmentTokenID c = Some tokenID;
  su_single : forall id id' c c' tokenID, g_certificates t !! id = Some c -> g_certificates t !! id' = Some c' ->
    gt_EnrollmentTokenID c = Some tokenID -> gt_EnrollmentTokenID c' = Some tokenID -> id = id';
}.

(** A gateway holds a way in: an unrevoked certificate or a token that was
    neither consumed nor revoked. *)
Definition open_token (k : EnrollmentToken) : bool := live_status k || bool_decide (et_Status k = tokenStatusLocked).
Definition accounted (gatewayID : string) (t : gdb) : Prop :=
  (exists id k, g_tokens t !! id = Some k /\ et_GatewayID k = gatewayID /\ open_token k = true) \/
  (exists id c, g_certificates t !! id = Some c /\ live_certificate gatewayID c = true).

Record credentials_wf (t : gdb) : Prop := {
  cw_constraints : constraints t;
  cw_single_use : single_use t;
  cw_accounted : forall id g, g_gateways t !! id = Some g -> live g = true -> accounted id t;
}.

(** What the callers of the transactions give them. *)
Definition finalize_input_ok (inp : FinalizeEnrollmentIssuanceInput) : Prop :=
  gt_GatewayID (fi_Certificate inp).2 = fi_GatewayID inp /\
  gt_EnrollmentTokenID (fi_Certificate inp).2 = Some (fi_TokenID inp).

(** No gateway came to life. *)
Definition no_new_gateways (t t' : gdb) : Prop :=
  forall id g', g_gateways t' !! id = Some g' -> live g' = true ->
    exists g, g_gateways t !! id = Some g /\ live g = true.

Lemma no_new_gateways_insert id g g' t :
  g_gateways t !! id = Some g -> (live g' = true -> live g = true) ->
  no_new_gateways t (with_gateways (<[id := g']> (g_gateways t)) t).
Proof.
  intros Hg Hl id' g2. cbn. destruct (decide (id' = id)) as [->|Hne].
  - rewrite lookup_insert_eq. intros [= <-] Hl'. eauto.
  - rewrite lookup_insert_ne by done. eauto.
Qed.

(** A change of the registry and the trail alone keeps the invariant. *)
Lemma wf_registry t t' :
  extends t t' -> no_new_gateways t t' -> g_tokens t' = g_tokens t -> g_certificates t' = g_certificates t ->
  credentials_wf t -> credentials_wf t'.
Proof.
  intros He Hn Ht Hc [Hcn [Hs1 Hs2 Hs3] Ha]. split.
  - by apply He.
  - split; rewrite ?Ht, ?Hc; done.
  - intros id g' Hg' Hl'. destruct (Hn _ _ Hg' Hl') as (g & Hg & Hl). unfold accounted. rewrite Ht, Hc. by eapply Ha.
Qed.

(** *** One token changes *)

Lemma live_not_consumed k : live_status k = true -> et_Status k <> tokenStatusConsumed.
Proof. unfold live_status. intros Hl Heq. by rewrite Heq in Hl. Qed.

Lemma live_open k : live_status k = true -> open_token k = true.
Proof. unfold open_token. by intros ->. Qed.

(** An open token stays one. *)
Lemma wf_token id k k' t t' :
  g_tokens t !! id = Some k -> live_status k = true -> et_GatewayID k' = et_GatewayID k -> open_token k' = true ->
  t' = with_tokens (<[id := k']> (g_tokens t)) t -> constraints t' -> credentials_wf t -> credentials_wf t'.
Proof.
  intros Hk Hl Hgw Ho -> Hcn' [Hcn [Hs1 Hs2 Hs3] Ha]. split; [exact Hcn'|split|]; cbn.
  - intros cid c tok Hc Htok. destruct (Hs1 _ _ _ Hc Htok) as (k2 & Hk2 & Hst & Hg2).
    destruct (decide (tok = id)) as [->|Hne].
    + rewrite Hk in Hk2. injection Hk2 as <-. by destruct (live_not_consumed k Hl).
    + rewrite lookup_insert_ne by done. eauto.
  - intros tok k2. destruct (decide (tok = id)) as [->|Hne].
    + rewrite lookup_insert_eq. intros [= <-] Hst. unfold open_token, live_status in Ho. by rewrite Hst in Ho.
    + rewrite lookup_insert_ne by done. apply Hs2.
  - exact Hs3.
  - intros gid g Hg Hlg. destruct (Ha _ _ Hg Hlg) as [(tid & k2 & Hk2 & Hgid & Hop)|Hcert]; [left|by right].
    destruct (decide (tid = id)) as [->|Hne].
    + rewrite Hk in Hk2. injection Hk2 as <-. exists id, k'. cbn. rewrite lookup_insert_eq. split; [done|]. by split; [congruence|].
    + exists tid, k2. cbn. by rewrite lookup_insert_ne by done.
Qed.

(** A renewed certificate. *)
Lemma wf_renewal id c t t' :
  insert_certificate id c t = (inr tt, t') -> gt_EnrollmentTokenID c = None -> credentials_wf t -> credentials_wf t'.
Proof.
  intros Hi Hnone [Hcn [Hs1 Hs2 Hs3] Ha].
  pose proof (insert_certificate_extends id c t) as He. rewrite Hi in He. cbn in He. destruct (He Hcn) as [Hcn' _].
  apply insert_certificate_cases in Hi as [[_ [? [=]]]|(csr & fp & _ & Hfree & _ & _ & _ & _ & _ & _ & Ht')].
  assert (Hold : forall cid c' tok, g_certificates t' !! cid = Some c' -> gt_EnrollmentTokenID c' = Some tok ->
    g_certificates t !! cid = Some c').
  { intros cid c' tok. rewrite Ht'. cbn. destruct (decide (cid = id)) as [->|Hne].
    - rewrite lookup_insert_eq. intros [= <-]. cbn. congruence.
    - by rewrite lookup_insert_ne. }
  assert (Hkeep : forall cid c', g_certificates t !! cid = Some c' -> g_certificates t' !! cid = Some c').
  { intros cid c' Hc'. rewrite Ht'. cbn. rewrite lookup_insert_ne by congruence. done. }
  assert (Htk : g_tokens t' = g_tokens t) by by rewrite Ht'.
  split; [exact Hcn'|split|].
  - intros cid c' tok Hc' Htok. rewrite Htk. eauto.
  - intros tok k Hk Hst. rewrite Htk in Hk. destruct (Hs2 _ _ Hk Hst) as (cid & c' & Hc' & Htok). eauto.
  - intros cid cid' c1 c2 tok H1 H2 Ht1 Ht2. eauto.
  - intros gid g Hg Hl. rewrite Ht' in Hg. destruct (Ha _ _ Hg Hl) as [Htoken|(cid & c' & Hc' & Hlc)].
    + left. by rewrite Htk.
    + right. eauto.
Qed.

(** A token becomes its certificate, while the gateway's row changes. *)
Lemma wf_issuance inp k t t1 t1' t2 :
  finalize_input_ok inp -> g_tokens t !! fi_TokenID inp = Some k -> et_GatewayID k = fi_GatewayID inp ->
  live_status k = true ->
  insert_certificate (fi_Certificate inp).1 (fi_Certificate inp).2 t = (inr tt, t1) ->
  extends t1 t1' -> no_new_gateways t t1' -> g_tokens t1' = g_tokens t1 -> g_certificates t1' = g_certificates t1 ->
  finalize_enrollment (fi_TokenID inp) (fi_Nonce inp) (fi_CSRHash inp) (fi_Now inp) t1' = (inr 1, t2) ->
  credentials_wf t -> credentials_wf t2.
Proof.
  intros [Hgw Htk] Hk Hkg Hl Hi He1' Hnew Htok1 Hcert1 Hf [Hcn [Hs1 Hs2 Hs3] Ha].
  pose proof (insert_certificate_extends (fi_Certificate inp).1 (fi_Certificate inp).2 t) as He1. rewrite Hi in He1.
  pose proof (finalize_extends (fi_TokenID inp) (fi_Nonce inp) (fi_CSRHash inp) (fi_Now inp) t1') as He2. rewrite Hf in He2.
  destruct (He1 Hcn) as [Hcn1 _]. destruct (He1' Hcn1) as [Hcn1' _]. destruct (He2 Hcn1') as [Hcn2 _].
  clear He1 He1' He2. cbn in Hcn2.
  apply insert_certificate_cases in Hi as [[_ [? [=]]]|(csr & fp & _ & Hfree & _ & _ & _ & _ & _ & _ & Ht1)].
  apply update_token_cases in Hf as [[_ [[=]|[? [=]]]]|(k1 & k2 & Hk1 & _ & [= <-] & _ & _ & Ht2)].
  assert (k1 = k) as ->. { rewrite Htok1, Ht1 in Hk1. cbn in Hk1. congruence. } clear Hk1.
  set (row := MkGatewayCertificate _ _ _ _ _ _ _ _ _ _ _ _ _ _) in *.
  set (k' := set_token_state _ _ _ _ _ _ _ _ _ k) in *. set (id := (fi_Certificate inp).1) in *.
  assert (Hc2 : g_certificates t2 = <[id := row]> (g_certificates t)).
  { rewrite Ht2. cbn. by rewrite Hcert1, Ht1. }
  assert (Hk2 : g_tokens t2 = <[fi_TokenID inp := k']> (g_tokens t)).
  { rewrite Ht2. cbn. by rewrite Htok1, Ht1. }
  assert (Hfresh : forall cid c, g_certificates t !! cid = Some c -> gt_EnrollmentTokenID c <> Some (fi_TokenID inp)).
  { intros cid c Hc Htok. destruct (Hs1 _ _ _ Hc Htok) as (k2 & Hk2' & Hst & _). rewrite Hk in Hk2'. injection Hk2' as <-.
    by destruct (live_not_consumed k Hl). }
  split; [exact Hcn2|split|]; rewrite ?Hc2, ?Hk2.
  - intros cid c tok. destruct (decide (cid = id)) as [->|Hne].
    + rewrite lookup_insert_eq. intros [= <-]. cbn. rewrite Htk. intros [= <-]. exists k'. rewrite lookup_insert_eq.
      split; [done|]. split; [done|]. cbn. congruence.
    + rewrite lookup_insert_ne by done. intros Hc Htok. destruct (Hs1 _ _ _ Hc Htok) as (k3 & Hk3 & Hst & Hg3).
      exists k3. rewrite lookup_insert_ne; [done|]. intros <-. by destruct (Hfresh _ _ Hc).
  - intros tok k3. destruct (decide (tok = fi_TokenID inp)) as [->|Hne].
    + intros _ _. exists id, row. rewrite lookup_insert_eq. by split.
    + rewrite lookup_insert_ne by done. intros Hk3 Hst. destruct (Hs2 _ _ Hk3 Hst) as (cid & c & Hc & Htok).
      exists cid, c. rewrite lookup_insert_ne by congruence. by split.
  - intros id1 id2 c1 c2 tok. destruct (decide (id1 = id)) as [->|H1], (decide (id2 = id)) as [->|H2];
      rewrite ?lookup_insert_eq, ?lookup_insert_ne by done; try done; [| |apply Hs3].
    + intros [= <-] Hc' Ht1' Ht2'. cbn in Ht1'. rewrite Htk in Ht1'. injection Ht1' as <-. by destruct (Hfresh _ _ Hc').
    + intros Hc' [= <-] Ht1' Ht2'. cbn in Ht2'. rewrite Htk in Ht2'. injection Ht2' as <-. by destruct (Hfresh _ _ Hc').
  - intros gid g' Hg' Hlg'. rewrite Ht2 in Hg'. destruct (Hnew _ _ Hg' Hlg') as (g & Hg0 & Hlg).
    unfold accounted. rewrite Hc2, Hk2. destruct (Ha _ _ Hg0 Hlg) as [(tid & k3 & Hk3 & Hgid & Hop)|(cid & c & Hc & Hlc)].
    + destruct (decide (tid = fi_TokenID inp)) as [->|Hne].
      * right. exists id, row. rewrite lookup_insert_eq. split; [done|]. unfold live_certificate. cbn.
        apply andb_true_iff. split; [|done]. apply bool_decide_true. congruence.
      * left. exists tid, k3. by rewrite lookup_insert_ne.
    + right. exists cid, c. rewrite lookup_insert_ne by congruence. by split.
Qed.

(** *** Credentials are replaced

    Inside the transaction the gateway [gid] may have no way in. *)
Record wf_but (gid : string) (t : gdb) : Prop := {
  wb_constraints : constraints t;
  wb_single_use : single_use t;
  wb_accounted : forall id g, id <> gid -> g_gateways t !! id = Some g -> live g = true -> accounted id t;
}.

Lemma wf_wf_but gid t : credentials_wf t -> wf_but gid t.
Proof. intros [Hc Hs Ha]. split; eauto. Qed.

Lemma revoke_live_wf gid now t r t' : revoke_live_tokens gid now t = (r, t') -> wf_but gid t -> wf_but gid t'.
Proof.
  intros Hr [Hcn [Hs1 Hs2 Hs3] Ha]. pose proof (revoke_live_extends gid now t) as He. rewrite Hr in He.
  destruct (He Hcn) as [Hcn' _]. cbn in Hcn'. apply revoke_live_cases in Hr as [[-> _]|(_ & _ & Ht')]; [by split|].
  set (f := fun k => if live_token gid k then revoke_token now k else k) in *.
  assert (Hf : forall k, f k = k \/ (et_GatewayID k = gid /\ live_status k = true /\ f k = revoke_token now k)).
  { intros k. unfold f. destruct (live_token gid k) eqn:Hl; [right|by left]. apply live_token_live in Hl as [? ?]. done. }
  split; [exact Hcn'|rewrite Ht'; split|]; cbn.
  - intros id c tok Hc Htok. destruct (Hs1 _ _ _ Hc Htok) as (k & Hk & Hst & Hg). exists (f k).
    rewrite lookup_fmap, Hk. split; [done|]. destruct (Hf k) as [->|(_ & Hl & _)]; [done|]. by destruct (live_not_consumed k Hl).
  - intros tok k' Hk' Hst. rewrite lookup_fmap in Hk'. apply fmap_Some in Hk' as (k & Hk & ->).
    destruct (Hf k) as [Heq|(_ & _ & Heq)]; rewrite Heq in Hst; [eauto|done].
  - exact Hs3.
  - intros id g Hne Hg Hl. rewrite Ht' in Hg. unfold accounted. rewrite Ht'. cbn in *.
    destruct (Ha _ _ Hne Hg Hl) as [(tid & k & Hk & Hgid & Ho)|?]; [left|by right].
    exists tid, (f k). rewrite lookup_fmap, Hk. split; [done|]. destruct (Hf k) as [->|(Hgk & _ & _)]; [done|congruence].
Qed.

Lemma revoke_certificates_wf gid at_ t : wf_but gid t -> wf_but gid (revoke_certificates gid at_ t).2.
Proof.
  intros [Hcn [Hs1 Hs2 Hs3] Ha]. destruct (revoke_certificates_extends gid at_ t Hcn) as [Hcn' _]. cbn.
  set (f := fun c => if live_certificate gid c then revoke_certificate at_ "re_enrollment" c else c).
  assert (Hid : forall c, gt_GatewayID (f c) = gt_GatewayID c /\ gt_EnrollmentTokenID (f c) = gt_EnrollmentTokenID c).
  { intros c. unfold f. by destruct (live_certificate gid c). }
  assert (Hlk : forall id c', (f <$> g_certificates t) !! id = Some c' -> exists c, g_certificates t !! id = Some c /\ c' = f c).
  { intros id c' Hc'. rewrite lookup_fmap in Hc'. apply fmap_Some in Hc' as (c & ? & ->). eauto. }
  split; [exact Hcn'|split|]; cbn; fold f.
  - intros id c' tok (c & Hc & ->)%Hlk. destruct (Hid c) as [-> ->]. eauto.
  - intros tok k Hk Hst. destruct (Hs2 _ _ Hk Hst) as (id & c & Hc & Htok). exists id, (f c).
    rewrite lookup_fmap, Hc. split; [done|]. by destruct (Hid c) as [_ ->].
  - intros id id' c1 c2 tok (c & Hc & ->)%Hlk (c' & Hc' & ->)%Hlk. destruct (Hid c) as [_ ->], (Hid c') as [_ ->]. eauto.
  - intros id g Hne Hg Hl. unfold accounted. cbn. fold f.
    destruct (Ha _ _ Hne Hg Hl) as [?|(cid & c & Hc & Hlc)]; [by left|right].
    exists cid, (f c). rewrite lookup_fmap, Hc. split; [done|]. unfold f.
    destruct (live_certificate gid c) eqn:Hlg; [|done]. unfold live_certificate in *. to_prop. congruence.
Qed.

Lemma registry_wf_but gid t t' :
  extends t t' -> (forall id g', id <> gid -> g_gateways t' !! id = Some g' -> live g' = true ->
    exists g, g_gateways t !! id = Some g /\ live g = true) ->
  g_tokens t' = g_tokens t -> g_certificates t' = g_certificates t -> wf_but gid t -> wf_but gid t'.
Proof.
  intros He Hn Ht Hc [Hcn [Hs1 Hs2 Hs3] Ha]. split.
  - by apply He.
  - split; rewrite ?Ht, ?Hc; done.
  - intros id g' Hne Hg' Hl'. destruct (Hn _ _ Hne Hg' Hl') as (g & Hg & Hl). unfold accounted. rewrite Ht, Hc. by eapply Ha.
Qed.

Lemma issue_wf gid id k t t' :
  issue_token id k t = (inr tt, t') -> et_GatewayID k = gid -> wf_but gid t -> credentials_wf t'.
Proof.
  intros Hi Hgid [Hcn [Hs1 Hs2 Hs3] Ha]. pose proof (issue_extends id k t) as He. rewrite Hi in He.
  destruct (He Hcn) as [Hcn' _]. cbn in Hcn'.
  apply issue_token_cases in Hi as [[_ [? [=]]]|(hash & _ & Hfree & _ & _ & _ & _ & Ht')].
  set (row := MkEnrollmentToken _ _ _ _ _ _ _ _ _ _ _ _ _ _ _ _) in *.
  split; [exact Hcn'|rewrite Ht'; split|]; cbn.
  - intros cid c tok Hc Htok. destruct (Hs1 _ _ _ Hc Htok) as (k' & Hk' & ?). exists k'.
    by rewrite lookup_insert_ne by congruence.
  - intros tok k'. destruct (decide (tok = id)) as [->|Hne]; [rewrite lookup_insert_eq; by intros [= <-]|].
    rewrite lookup_insert_ne by done. apply Hs2.
  - exact Hs3.
  - intros gid' g Hg Hl. rewrite Ht' in Hg. unfold accounted. rewrite Ht'. cbn in *.
    destruct (decide (gid' = gid)) as [->|Hne].
    + left. exists id, row. rewrite lookup_insert_eq. by split.
    + destruct (Ha _ _ Hne Hg Hl) as [(tid & k' & Hk' & ?)|?]; [left|by right].
      exists tid, k'. by rewrite lookup_insert_ne by congruence.
Qed.

(** *** The transactions *)

(** A transaction that keeps the invariant when it commits. *)
Lemma withTx_wf {A} (fn : M (db gdb) A) :
  (forall d a d', fn d = (inr a, d') -> credentials_wf (rows d) -> credentials_wf (rows d')) ->
  respects (grows_under (keeps credentials_wf)) (withTx fn).
Proof.
  intros Hfn w r w' Hrun Hrely. destruct (withTx_cases _ _ _ _ Hrun) as [Ho Hc]. cbv zeta in Hc.
  destruct (relies_step (keeps credentials_wf) w _ Hrely) as [Hstep Hrest].
  split; [|unfold relies; by rewrite Ho]. intros Hw. specialize (Hstep Hw).
  destruct Hc as [[_ ->]|(a & d & d' & -> & Hd & Hrun' & ->)]; [done|]. eapply Hfn; [exact Hrun'|]. by rewrite Hd.
Qed.

Lemma withGatewayTx_wf {A} id (fn : enrollmentTx -> M (db gdb) A) :
  (forall g d a d', g_gateways (rows d) !! id = Some g -> fn (tx_of id g) d = (inr a, d') ->
     credentials_wf (rows d) -> credentials_wf (rows d')) ->
  respects (grows_under (keeps credentials_wf)) (withGatewayTx id fn).
Proof.
  intros Hfn. apply withTx_wf. intros d a d' (t & d1 & Hload & Hrun)%bind_returns Hw.
  apply query_row_run in Hload as [Hd1 Hload]. destruct (g_gateways _ !! id) as [g|] eqn:Hg; [|done]. injection Hload as <-.
  eapply Hfn; [|exact Hrun|]; by rewrite Hd1.
Qed.

Lemma withGateway_wf {A} id (fn : string -> bool -> M (db gdb) A) :
  (forall g d a d', g_gateways (rows d) !! id = Some g -> live g = true ->
     fn (gw_Status g) (negb (is_none (gw_EnrolledAt g))) d = (inr a, d') ->
     credentials_wf (rows d) -> credentials_wf (rows d')) ->
  respects (grows_under (keeps credentials_wf)) (withGateway id fn).
Proof.
  intros Hfn w r w' Hrun Hrely. destruct (withGateway_cases _ _ _ _ _ Hrun) as [Ho Hc]. cbv zeta in Hc.
  destruct (relies_step (keeps credentials_wf) w _ Hrely) as [Hstep Hrest].
  split; [|unfold relies; by rewrite Ho]. intros Hw. specialize (Hstep Hw).
  destruct Hc as [[_ ->]|(a & g & d & d' & -> & Hg & Hl & Hd & Hrun' & ->)]; [done|].
  eapply Hfn; [|exact Hl|exact Hrun'|]; by rewrite Hd.
Qed.

(** The audit trail does not matter to the invariant. *)
Lemma wf_audit t a : credentials_wf t -> constraints (with_audit a t) /\ credentials_wf (with_audit a t).
Proof.
  intros [[Hc1 Hc2 Hc3] [Hs1 Hs2 Hs3] Ha]. split; [by split|]. split; [by split|by split|exact Ha].
Qed.

Section Transactions.
Context `{AuditLib}.

Lemma Append_wf e d u d' : Append e d = (inr u, d') -> credentials_wf (rows d) -> credentials_wf (rows d').
Proof. intros [-> _]%audit_Append_returns Hw. by apply wf_audit. Qed.

Lemma for_each_Append_wf audits d u d' :
  for_each Append audits d = (inr u, d') -> credentials_wf (rows d) -> credentials_wf (rows d').
Proof.
  revert d. induction audits as [|e l IH]; intros d; cbn [for_each]; [by intros [= _ <-]|].
  intros (u' & d1 & Ha & Hrun)%bind_returns Hw. eapply IH; [exact Hrun|]. by eapply Append_wf.
Qed.

Lemma CreatePendingWithToken_wf g notes creator tokenID token audits :
  et_GatewayID token = ng_ID g ->
  respects (grows_under (keeps credentials_wf)) (CreatePendingWithToken g notes creator tokenID token audits).
Proof.
  intros Hgid. apply withTx_wf. intros d a d' (u & d1 & Hcreate & Hrun)%bind_returns Hw.
  apply bind_returns in Hrun as ([] & d2 & Hissue%stmt_returns & Haudits).
  eapply for_each_Append_wf; [exact Haudits|]. eapply issue_wf; [exact Hissue|exact Hgid|].
  pose proof (CreatePending_extends _ _ _ _ _ _ _ _ _ _ _ Hcreate) as He. unfold CreatePending in Hcreate.
  destruct creator; [discriminate|]. apply stmt_returns in Hcreate. unfold create_gateway in Hcreate.
  destruct (g_gateways (rows d) !! ng_ID g) eqn:Hfree; [discriminate|]. destruct (revisions_ok _); [|discriminate].
  injection Hcreate as _ Hd1. eapply registry_wf_but; [exact He|..|by apply wf_wf_but]; rewrite <- Hd1; try done.
  intros id g' Hne. cbn. rewrite lookup_insert_ne by done. eauto.
Qed.

Lemma ReplaceLiveToken_wf gatewayID tokenID token audit now :
  et_GatewayID token = gatewayID ->
  respects (grows_under (keeps credentials_wf)) (ReplaceLiveToken gatewayID tokenID token audit now).
Proof.
  intros Hgid. apply respects_map_err, withGatewayTx_wf. intros g d a d' _ Hrun Hw.
  destruct (negb _); [discriminate|]. apply bind_returns in Hrun as (n & d1 & Hrevoke%stmt_returns & Hrun).
  apply bind_returns in Hrun as ([] & d2 & Hissue%stmt_returns & Haudit). eapply Append_wf; [exact Haudit|].
  eapply issue_wf; [exact Hissue|exact Hgid|]. eapply revoke_live_wf; [exact Hrevoke|by apply wf_wf_but].
Qed.

Lemma acquire_outcome_wf inp tx k t res t' :
  g_tokens t !! aq_TokenID inp = Some k -> acquire_outcome inp tx k t res t' -> credentials_wf t -> credentials_wf t'.
Proof.
  intros Hk Ho Hw. pose proof (acquire_outcome_extends _ _ _ _ _ _ Hk Ho) as He.
  destruct (He (cw_constraints _ Hw)) as [Hcn' _].
  destruct Ho as [| |n t' _ _ _ Hl| |n t' _ _ _ Hs1 Hs2 Hs3 _ locked Hr|t' _ _ _ Hb]; [done|done| |done|..].
  - apply update_token_cases in Hl as [[-> _]|(k1 & k2 & Hk1 & Hg & [= <-] & _ & _ & Ht')]; [done|].
    eapply wf_token; [exact Hk1|exact Hg|..|exact Ht'|exact Hcn'|exact Hw]; done.
  - apply (reject_csr_returns _ _ _ _ _ _ _ Hk) in Hr as [_ Ht'].
    eapply wf_token; [exact Hk|..|exact Ht'|exact Hcn'|exact Hw]; [|done|].
    + apply check_token_live; try done. by apply (cn_token _ (cw_constraints _ Hw) _ _ Hk).
    + cbn. by destruct locked.
  - apply wf_audit. assert (Hcn1 : constraints t').
    { pose proof (begin_extends (aq_TokenID inp) (aq_Nonce inp) (aq_CSRHash inp) (aq_Now inp) (aq_LeaseUntil inp) t) as Hb1.
      rewrite Hb in Hb1. by apply Hb1, cw_constraints. }
    apply update_token_cases in Hb as [[_ [[=]|[? [=]]]]|(k1 & k2 & Hk1 & Hg & Hf & _ & _ & Ht')].
    destruct (binary_column 16 _); [done|]. destruct (binary_column 32 _); [done|]. injection Hf as <-.
    eapply wf_token; [exact Hk1|eauto with golib|..|exact Ht'|exact Hcn1|exact Hw]; done.
Qed.

Lemma AcquireEnrollmentLease_wf inp : respects (grows_under (keeps credentials_wf)) (AcquireEnrollmentLease inp).
Proof.
  apply withGatewayTx_wf. intros g d a d' _ (k & Hk & _ & _ & Ho)%acquire_tx_returns; [|done].
  by eapply acquire_outcome_wf.
Qed.

(** Under the invariant a finalization stores its certificate: an earlier one for
    the token would have consumed it. *)
Lemma finalize_stores inp tx k t out t' :
  credentials_wf t -> g_tokens t !! fi_TokenID inp = Some k -> finalize_outcome inp tx k t out t' ->
  out = fi_Certificate inp /\ gatewayPending tx = true /\
  exists t1 g t3, insert_certificate (fi_Certificate inp).1 (fi_Certificate inp).2 t = (inr tt, t1) /\
    g_gateways t !! fi_GatewayID inp = Some g /\ live g = true /\
    let t2 := with_gateways (<[fi_GatewayID inp :=
      set_status GatewayJoining (set_enrolled (fi_Now inp) (set_updated (fi_Now inp) g))]> (g_gateways t1)) t1 in
    finalize_enrollment (fi_TokenID inp) (fi_Nonce inp) (fi_CSRHash inp) (fi_Now inp) t2 = (inr 1, t3) /\
    t' = with_audit (g_audit t3 ++ [fi_SucceededAudit inp]) t3.
Proof.
  intros Hw Hk [Hst _ _ (dup & t1 & t2 & t3 & Hstored & Hen & Hfin & Ht')].
  destruct Hstored as [t1 Hi|p Hp Hissued _].
  - destruct Hen as [g Hpend Hg Hl _|[=]]. split; [done|]. split; [done|]. exists t1, g, t3.
    assert (Hgs : g_gateways t1 = g_gateways t).
    { by apply insert_certificate_cases in Hi as [[_ [? [=]]]|(? & ? & _ & _ & _ & _ & _ & _ & _ & _ & ->)]. }
    split; [done|]. by rewrite <- Hgs.
  - unfold issued_for in Hissued. to_prop.
    destruct (su_consumed _ (cw_single_use _ Hw) _ _ _ Hp H1) as (k' & Hk' & Hcons & _). rewrite Hk in Hk'.
    injection Hk' as <-. by rewrite Hst in Hcons.
Qed.

Lemma finalize_wf inp g d out d' :
  finalize_input_ok inp -> finalize_tx inp (tx_of (fi_GatewayID inp) g) d = (inr out, d') ->
  credentials_wf (rows d) -> credentials_wf (rows d').
Proof.
  intros Hok (k & Hk & Hkg & _ & Ho)%finalize_tx_returns Hw; [|done].
  pose proof (fo_status _ _ _ _ _ _ Ho) as Hst.
  destruct (finalize_stores _ _ _ _ _ _ Hw Hk Ho) as (_ & _ & t1 & g0 & t3 & Hi & Hg0 & Hl0 & Hfin & ->).
  apply wf_audit. assert (Hgs : g_gateways t1 = g_gateways (rows d)).
  { by apply insert_certificate_cases in Hi as [[_ [? [=]]]|(? & ? & _ & _ & _ & _ & _ & _ & _ & _ & ->)]. }
  eapply wf_issuance; [exact Hok|exact Hk|exact Hkg|by apply redeeming_live|exact Hi|..|exact Hfin|exact Hw]; try done.
  - apply extends_registry; try done. eapply registry_grows_insert; [by rewrite Hgs|]. by split.
  - rewrite Hgs. intros id g'. cbn. destruct (decide (id = fi_GatewayID inp)) as [->|Hne].
    + rewrite lookup_insert_eq. eauto.
    + rewrite lookup_insert_ne by done. eauto.
Qed.

Lemma FinalizeEnrollmentIssuance_wf inp :
  finalize_input_ok inp -> respects (grows_under (keeps credentials_wf)) (FinalizeEnrollmentIssuance inp).
Proof. intros Hok. apply withGatewayTx_wf. intros g d a d' _ Hrun. by eapply finalize_wf. Qed.

Lemma ReleaseEnrollmentLease_wf inp : respects (grows_under (keeps credentials_wf)) (ReleaseEnrollmentLease inp).
Proof.
  apply withGatewayTx_wf. intros g d b d' _ Hrun Hw.
  apply release_tx_returns in Hrun as [[_ ->]|(_ & k & t1 & Hk & _ & _ & Hrel & ->)]; [done| |done].
  apply wf_audit. pose proof (release_extends (rl_TokenID inp) (rl_Nonce inp) (rl_CSRHash inp) (rl_Now inp) (rows d)) as He.
  rewrite Hrel in He. destruct (He (cw_constraints _ Hw)) as [Hcn1 _].
  apply update_token_cases in Hrel as [[_ [[=]|[? [=]]]]|(k1 & k2 & Hk1 & Hg & [= <-] & _ & _ & Ht1)].
  eapply wf_token; [exact Hk1|eauto with golib|..|exact Ht1|exact Hcn1|exact Hw]; done.
Qed.

(** Reads leave the rows alone. *)
Lemma validateRenewalCredential_rows tx cred now d r d' :
  validateRenewalCredential tx cred now d = (r, d') -> rows d' = rows d.
Proof.
  intros Hrun. assert (Hr : respects (on_rows (=)) (validateRenewalCredential tx cred now)).
  { unfold validateRenewalCredential, getForRenewal. grows_tac; apply query_row_keeps. }
  symmetry. exact (Hr _ _ _ Hrun).
Qed.

Lemma RecoverEnrollmentIssuance_wf inp : respects (grows_under (keeps credentials_wf)) (RecoverEnrollmentIssuance inp).
Proof.
  apply withGatewayTx_wf. intros g d b d' _ Hrun Hw. enough (rows d' = rows d) by congruence. symmetry. revert Hrun.
  assert (Hr : respects (on_rows (=)) (recover_tx inp (tx_of (rc_GatewayID inp) g))); [|by intros Hx%Hr].
  assert (Hload : forall tx id hash, respects (on_rows (=)) (loadToken tx id hash)).
  { intros tx id hash d1 r1 d1' H1%loadToken_rows. by symmetry. }
  unfold recover_tx, getByTokenCSR. grows_tac; apply query_row_keeps.
Qed.

Lemma PrepareRenewal_wf inp : respects (grows_under (keeps credentials_wf)) (PrepareRenewal inp).
Proof.
  apply respects_map_err, withGatewayTx_wf. intros g d b d' _ Hrun Hw. enough (rows d' = rows d) by congruence.
  symmetry. revert Hrun. assert (Hr : respects (on_rows (=)) (prepare_tx inp (tx_of (nc_GatewayID (pr_Credential inp)) g)));
    [|by intros Hx%Hr].
  unfold prepare_tx, getByGatewayCSR. cbv zeta. grows_tac; try apply query_row_keeps.
  intros d1 r1 d1' H1%validateRenewalCredential_rows. by symmetry.
Qed.

(** What a renewal that commits did. *)
Inductive renewal_outcome (inp : FinalizeRenewalInput) (t : gdb) : certificate -> gdb -> Prop :=
  | RenewalReplays p :
      g_certificates t !! p.1 = Some p.2 ->
      renewalReplayMatches p.2 (nc_GatewayID (fr_Credential inp)) (fr_CSRHash inp) (fr_Now inp) = true ->
      renewal_outcome inp t p t
  | RenewalStores t1 :
      newRenewalMatches (fr_Certificate inp).2 (nc_GatewayID (fr_Credential inp)) (fr_CSRHash inp) (fr_Now inp) = true ->
      insert_certificate (fr_Certificate inp).1 (fr_Certificate inp).2 t = (inr tt, t1) ->
      renewal_outcome inp t (fr_Certificate inp) (with_audit (g_audit t1 ++ [fr_SucceededAudit inp]) t1).

Lemma renew_tx_returns inp tx d out d' :
  renew_tx inp tx d = (inr out, d') -> renewal_outcome inp (rows d) out (rows d').
Proof.
  unfold renew_tx. cbv zeta. intros (u & d1 & Hv%validateRenewalCredential_rows & Hrun)%bind_returns. rewrite <- Hv.
  apply bind_returns in Hrun as (r & d2 & Hq%attempt_returns & Hrun). apply query_row_run in Hq as [Hd2 Hq].
  rewrite <- Hd2 in Hq |- *. clear Hd2. destruct r as [err|p].
  - destruct (_ || _) eqn:Hguard; [discriminate|]. to_prop.
    apply bind_returns in Hrun as (r & d3 & Hi%attempt_returns & Hrun). unfold insertCertificate in Hi. destruct r as [err'|[]].
    + assert (Hd3 : rows d3 = rows d2).
      { apply stmt_run in Hi as [[_ Hi]|Hi]; [done|].
        apply insert_certificate_cases in Hi as [[Hi _]|(? & ? & ? & _)]; [done|discriminate]. }
      apply bind_returns in Hrun as (found & d4 & Hf%attempt_returns & Hrun). apply query_row_run in Hf as [Hd4 Hf].
      destruct found as [err''|p]; [discriminate|]. destruct (renewalReplayMatches _ _ _ _) eqn:Hm; [|discriminate].
      injection Hrun as <- <-. rewrite Hd4, Hd3 in *. apply select_certificate_some in Hf as [Hp _]. by apply RenewalReplays.
    + apply stmt_returns in Hi. apply bind_returns in Hrun as (u' & d4 & Ha & [= <- <-]).
      apply audit_Append_returns in Ha as [-> _]. by eapply RenewalStores.
  - destruct (renewalReplayMatches _ _ _ _) eqn:Hm; [|discriminate]. injection Hrun as <- <-.
    apply select_certificate_some in Hq as [Hp _]. by apply RenewalReplays.
Qed.

Lemma FinalizeRenewal_wf inp : respects (grows_under (keeps credentials_wf)) (FinalizeRenewal inp).
Proof.
  apply respects_map_err, withGatewayTx_wf. intros g d out d' _ Hrun%renew_tx_returns Hw.
  destruct Hrun as [p|t1 Hm Hi]; [done|]. apply wf_audit. eapply wf_renewal; [exact Hi| |exact Hw].
  unfold newRenewalMatches in Hm. to_prop. by destruct (gt_EnrollmentTokenID _).
Qed.
End Transactions.

(** *** The operator's transactions *)

(** An update of one gateway that revives nothing. *)
Lemma changed_wf id guard f d u d' :
  raises f -> changed (stmt (update_gateway id guard f)) d = (inr u, d') ->
  credentials_wf (rows d) -> credentials_wf (rows d').
Proof.
  intros Hf Hrun Hw. pose proof (changed_extends _ (stmt_extends _ (update_gateway_extends id guard f Hf)) _ _ _ Hrun) as He.
  apply changed_gateway in Hrun as (g & g' & Hg & _ & Hfg & Hd'). eapply wf_registry; [exact He|..|exact Hw];
    rewrite Hd'; try done.
  eapply no_new_gateways_insert; [exact Hg|]. apply (gg_deleted _ _ (Hf _ _ Hfg)).
Qed.

Section Admin.
Context `{AuditLib}.

Lemma transition_wf id audit (fn : string -> bool -> M (db gdb) unit) :
  (forall status enrolled d u d', fn status enrolled d = (inr u, d') -> credentials_wf (rows d) -> credentials_wf (rows d')) ->
  respects (grows_under (keeps credentials_wf)) (transition id audit fn).
Proof.
  intros Hfn. apply withGateway_wf. intros g d u d' _ _ (u' & d1 & Hf & Ha)%bind_returns Hw.
  eapply Append_wf; [exact Ha|]. by eapply Hfn.
Qed.

Lemma Drain_wf id at_ audit : respects (grows_under (keeps credentials_wf)) (Drain id at_ audit).
Proof.
  apply transition_wf. intros status enrolled d u d'. cbv zeta. destruct (_ || _); [discriminate|].
  apply changed_wf. by apply raises_lifecycle_update.
Qed.

Lemma Resume_wf id at_ audit : respects (grows_under (keeps credentials_wf)) (Resume id at_ audit).
Proof.
  apply transition_wf. intros status enrolled d u d'. cbv zeta. destruct (_ || _); [discriminate|].
  apply changed_wf. by apply raises_lifecycle_update.
Qed.

Lemma DisableGateway_wf id at_ audit : respects (grows_under (keeps credentials_wf)) (DisableGateway id at_ audit).
Proof.
  apply transition_wf. intros status enrolled d u d'. destruct (bool_decide _); [discriminate|].
  apply changed_wf. auto with golib.
Qed.

Lemma Reenable_wf id at_ audit : respects (grows_under (keeps credentials_wf)) (Reenable id at_ audit).
Proof.
  apply transition_wf. intros status enrolled d u d'. cbv zeta. destruct (negb _); [discriminate|].
  apply changed_wf. by apply (raises_lifecycle_update "run" (fun r' => set_status _ (set_updated at_ r'))).
Qed.

(** What a re-enrollment that commits did. *)
Record reenroll_outcome (gatewayID tokenID : string) (token : EnrollmentToken) (at_ : Z) (t t4 : gdb) : Prop := {
  ro_effect : exists n t1 g g',
    revoke_live_tokens gatewayID at_ t = (inr n, t1) /\
    g_gateways t !! gatewayID = Some g /\ live g = true /\ reenroll_row at_ g = inr g' /\
    let t2 := (revoke_certificates gatewayID at_ t1).2 in
    let t3 := with_gateways (<[gatewayID := g']> (g_gateways t2)) t2 in
    issue_token tokenID token t3 = (inr tt, t4);
}.

Lemma reenroll_tx_returns gatewayID tokenID token at_ audits status enrolled g d u d' :
  g_gateways (rows d) !! gatewayID = Some g -> live g = true ->
  reenroll_tx gatewayID tokenID token at_ audits status enrolled d = (inr u, d') ->
  exists d4, reenroll_outcome gatewayID tokenID token at_ (rows d) (rows d4) /\ for_each Append audits d4 = (inr u, d').
Proof.
  intros Hg Hl. unfold reenroll_tx. cbv zeta. destruct (_ || _); [discriminate|].
  intros (n & d1 & Hr%stmt_returns & Hrun)%bind_returns.
  apply bind_returns in Hrun as ([] & d2 & [_ Hc]%exec_returns & Hrun).
  apply bind_returns in Hrun as (m & d3 & Hu%stmt_returns & Hrun).
  apply bind_returns in Hrun as ([] & d4 & Hi%stmt_returns & Hrun).
  exists d4. split; [|done].
  assert (Hg1 : g_gateways (rows d1) = g_gateways (rows d)).
  { by apply revoke_live_cases in Hr as [[-> _]|(_ & _ & ->)]. }
  assert (Hg2 : g_gateways (rows d2) !! gatewayID = Some g) by (rewrite Hc; cbn; congruence).
  unfold update_gateway in Hu. rewrite Hg2, Hl in Hu. destruct (reenroll_row at_ g) as [err|g'] eqn:Hrow; [discriminate|].
  destruct (revisions_ok g'); [|discriminate]. injection Hu as _ Hd3.
  split. exists n, (rows d1), g, g'. cbv zeta. rewrite <- Hc, Hd3. auto.
Qed.

Lemma reenroll_outcome_wf gatewayID tokenID token at_ t t4 :
  et_GatewayID token = gatewayID -> reenroll_outcome gatewayID tokenID token at_ t t4 ->
  credentials_wf t -> credentials_wf t4.
Proof.
  intros Hgid [(n & t1 & g & g' & Hr & Hg & Hl & Hrow & Hi)] Hw. eapply issue_wf; [exact Hi|exact Hgid|].
  assert (Hg1 : g_gateways t1 = g_gateways t).
  { by apply revoke_live_cases in Hr as [[-> _]|(_ & _ & ->)]. }
  set (t2 := (revoke_certificates gatewayID at_ t1).2).
  assert (Hg2 : g_gateways t2 !! gatewayID = Some g) by (cbn; congruence).
  eapply registry_wf_but; [|..|apply revoke_certificates_wf; eapply revoke_live_wf; [exact Hr|by apply wf_wf_but]]; try done.
  - apply extends_registry; try done. eapply registry_grows_insert; [exact Hg2|]. by apply (raises_reenroll at_).
  - intros id g2 Hne. cbn. rewrite lookup_insert_ne by done. eauto.
Qed.

(** The gateway's epoch moved, its tokens are closed and its certificates revoked. *)
Lemma reenroll_outcome_effect gatewayID tokenID token at_ t t4 :
  reenroll_outcome gatewayID tokenID token at_ t t4 ->
  (forall g, g_gateways t !! gatewayID = Some g ->
     exists g4, g_gateways t4 !! gatewayID = Some g4 /\ gw_ConnectionEpoch g4 = gw_ConnectionEpoch g + 1) /\
  (forall id k, g_tokens t !! id = Some k -> et_GatewayID k = gatewayID ->
     exists k4, g_tokens t4 !! id = Some k4 /\ live_status k4 = false /\
       (et_Status k4 = tokenStatusConsumed -> et_Status k = tokenStatusConsumed)) /\
  (forall id c, g_certificates t !! id = Some c -> gt_GatewayID c = gatewayID ->
     exists c4, g_certificates t4 !! id = Some c4 /\ gt_RevokedAt c4 <> None /\ gt_Fingerprint c4 = gt_Fingerprint c /\
       gt_EnrollmentTokenID c4 = gt_EnrollmentTokenID c).
Proof.
  intros [(n & t1 & g & g' & Hr & Hg & Hl & Hrow & Hi)].
  apply revoke_live_cases in Hr as [[_ [? [=]]]|(_ & _ & ->)].
  apply issue_token_cases in Hi as [[_ [? [=]]]|(hash & _ & Hfree & _ & _ & _ & _ & ->)]. cbn in *.
  apply reenroll_row_inr in Hrow as (_ & He & _). split; [|split].
  - intros g0 Hg0. exists g'. rewrite lookup_insert_eq. split; [done|congruence].
  - intros id k Hk Hkg. rewrite lookup_insert_ne by (intros <-; by rewrite lookup_fmap, Hk in Hfree).
    rewrite lookup_fmap, Hk. cbn. eexists. split; [done|]. destruct (live_token gatewayID k) eqn:Hlt; [done|]. split; [|done].
    unfold live_token in Hlt. rewrite bool_decide_true in Hlt by done. exact Hlt.
  - intros id c Hc Hcg. rewrite lookup_fmap, Hc. cbn. eexists. split; [done|].
    destruct (live_certificate gatewayID c) eqn:Hlc; [done|]. split; [|by split].
    unfold live_certificate in Hlc. rewrite bool_decide_true in Hlc by done. by destruct (gt_RevokedAt c).
Qed.

Lemma Reenroll_wf gatewayID tokenID token at_ audits :
  et_GatewayID token = gatewayID ->
  respects (grows_under (keeps credentials_wf)) (Reenroll gatewayID tokenID token at_ audits).
Proof.
  intros Hgid. apply withGateway_wf. intros g0 d u d' Hg0 Hl0 Hrun Hw.
  apply (reenroll_tx_returns _ _ _ _ _ _ _ g0) in Hrun as (d4 & [Ho] & Ha); [|done..].
  eapply for_each_Append_wf; [exact Ha|]. eapply reenroll_outcome_wf; [exact Hgid|split; exact Ho|exact Hw].
Qed.

Lemma Delete_wf gatewayID acknowledged at_ audit :
  respects (grows_under (keeps credentials_wf)) (Delete gatewayID acknowledged at_ audit).
Proof.
  unfold Delete. destruct (negb acknowledged); [apply respects_throw, _|]. apply withGateway_wf.
  intros g d u d' _ _. unfold delete_tx. cbv zeta. destruct (negb (bool_decide _)); [discriminate|].
  intros (n & d1 & [_ Hd1]%query_returns & Hrun)%bind_returns Hw. destruct (negb _); [discriminate|].
  apply bind_returns in Hrun as (u' & d2 & Hc & Ha). eapply Append_wf; [exact Ha|]. rewrite <- Hd1 in Hw.
  revert Hc Hw. unfold soft_delete_gateway. intros Hc%changed_returns%stmt_returns Hw.
  pose proof (update_gateway_extends gatewayID
    (fun r => live r && bool_decide (gw_Status r ∈ [GatewayDrained; GatewayDisabled]) && no_live_credentials gatewayID (rows d1))
    (fun r => inr (set_status GatewayDisabled (set_deleted at_ (set_updated at_ r)))) ltac:(raises_tac) (rows d1)) as He.
  rewrite Hc in He. apply update_gateway_cases in Hc as [[_ [[=]|[? [=]]]]|(g1 & g' & Hg & _ & [= <-] & _ & _ & Hd2)].
  eapply wf_registry; [exact He|..|exact Hw]; rewrite Hd2; try done. by eapply no_new_gateways_insert.
Qed.
End Admin.

(** ** Histories

    The operations as data, run one after the other; what other processes and
    the database do in between is in the handle. *)

(** Certificates and tokens are only written by lawful changes. *)
Definition lawful (t t' : gdb) : Prop := extends t t' /\ keeps credentials_wf t t'.

#[export] Instance lawful_preorder : PreOrder lawful.
Proof.
  split; [by split|]. intros a b c [H1 H2] [H3 H4]. split; etransitivity; eauto.
Qed.

(** What the registry does otherwise, an accepted connection, a heartbeat or a
    lifecycle, is lawful. *)
Lemma registry_is_lawful t t' :
  registry_grows t t' -> no_new_gateways t t' -> g_tokens t' = g_tokens t -> g_certificates t' = g_certificates t ->
  g_audit t' = g_audit t -> lawful t t'.
Proof.
  intros Hr Hn Ht Hc Ha. assert (He : extends t t') by by apply extends_registry. split; [exact He|].
  intros Hw. by eapply wf_registry.
Qed.

Lemma relies_both w : relies lawful w <-> relies extends w /\ relies (keeps credentials_wf) w.
Proof.
  unfold relies. rewrite <- Forall_and. apply Forall_iff. intros f. unfold lawful. split; [intros H; split; intros t; apply H|].
  intros [H1 H2] t. by split.
Qed.

Lemma respects_lawful {A} (m : M (shared gdb) A) :
  respects (grows_under extends) m -> respects (grows_under (keeps credentials_wf)) m ->
  respects (grows_under lawful) m.
Proof.
  intros H1 H2 w r w' Hrun [Hr1 Hr2]%relies_both. destruct (H1 _ _ _ Hrun Hr1) as [Hg1 Hw1].
  destruct (H2 _ _ _ Hrun Hr2) as [Hg2 Hw2]. split; [by split|]. by apply relies_both.
Qed.

Inductive credential_op :=
  | OpCreate (g : NewGateway) (notes : option string) (creator tokenID : string) (token : EnrollmentToken)
      (audits : list AuditEvent)
  | OpReplace (gatewayID tokenID : string) (token : EnrollmentToken) (audit : AuditEvent) (now : Z)
  | OpAcquire (inp : AcquireEnrollmentLeaseInput)
  | OpFinalize (inp : FinalizeEnrollmentIssuanceInput)
  | OpRelease (inp : ReleaseEnrollmentLeaseInput)
  | OpRecover (inp : RecoverEnrollmentIssuanceInput)
  | OpPrepare (inp : PrepareRenewalInput)
  | OpRenew (inp : FinalizeRenewalInput)
  | OpDrain (gatewayID : string) (at_ : Z) (audit : AuditEvent)
  | OpResume (gatewayID : string) (at_ : Z) (audit : AuditEvent)
  | OpDisable (gatewayID : string) (at_ : Z) (audit : AuditEvent)
  | OpReenable (gatewayID : string) (at_ : Z) (audit : AuditEvent)
  | OpReenroll (gatewayID tokenID : string) (token : EnrollmentToken) (at_ : Z) (audits : list AuditEvent)
  | OpDelete (gatewayID : string) (acknowledged : bool) (at_ : Z) (audit : AuditEvent).

Inductive credential_reply :=
  | Done
  | Leased (r : AcquireEnrollmentLeaseResult)
  | Issued (c : certificate)
  | Released (b : bool)
  | Prepared (c : option certificate).

(** The arguments the services build: a token is issued to the gateway the call is
    about, a certificate to the token and gateway of its finalization. *)
Definition op_ok (o : credential_op) : Prop :=
  match o with
  | OpCreate g _ _ _ token _ => et_GatewayID token = ng_ID g
  | OpReplace gatewayID _ token _ _ => et_GatewayID token = gatewayID
  | OpReenroll gatewayID _ token _ _ => et_GatewayID token = gatewayID
  | OpFinalize inp => finalize_input_ok inp
  | _ => True
  end.

#[export] Hint Resolve CreatePendingWithToken_extends CreatePendingWithToken_wf ReplaceLiveToken_extends
  ReplaceLiveToken_wf AcquireEnrollmentLease_extends AcquireEnrollmentLease_wf FinalizeEnrollmentIssuance_extends
  FinalizeEnrollmentIssuance_wf ReleaseEnrollmentLease_extends ReleaseEnrollmentLease_wf RecoverEnrollmentIssuance_extends
  RecoverEnrollmentIssuance_wf PrepareRenewal_extends PrepareRenewal_wf FinalizeRenewal_extends FinalizeRenewal_wf
  Drain_extends Drain_wf Resume_extends Resume_wf DisableGateway_extends DisableGateway_wf Reenable_extends Reenable_wf
  Reenroll_extends Reenroll_wf Delete_extends Delete_wf : golib.

Section Histories.
Context `{AuditLib}.

Definition run_op (o : credential_op) : M (shared gdb) credential_reply :=
  match o with
  | OpCreate g notes creator tokenID token audits =>
      CreatePendingWithToken g notes creator tokenID token audits;; mret Done
  | OpReplace gatewayID tokenID token audit now => ReplaceLiveToken gatewayID tokenID token audit now;; mret Done
  | OpAcquire inp => r ← AcquireEnrollmentLease inp; mret (Leased r)
  | OpFinalize inp => c ← FinalizeEnrollmentIssuance inp; mret (Issued c)
  | OpRelease inp => b ← ReleaseEnrollmentLease inp; mret (Released b)
  | OpRecover inp => c ← RecoverEnrollmentIssuance inp; mret (Issued c)
  | OpPrepare inp => c ← PrepareRenewal inp; mret (Prepared c)
  | OpRenew inp => c ← FinalizeRenewal inp; mret (Issued c)
  | OpDrain gatewayID at_ audit => Drain gatewayID at_ audit;; mret Done
  | OpResume gatewayID at_ audit => Resume gatewayID at_ audit;; mret Done
  | OpDisable gatewayID at_ audit => DisableGateway gatewayID at_ audit;; mret Done
  | OpReenable gatewayID at_ audit => Reenable gatewayID at_ audit;; mret Done
  | OpReenroll gatewayID tokenID token at_ audits => Reenroll gatewayID tokenID token at_ audits;; mret Done
  | OpDelete gatewayID acknowledged at_ audit => Delete gatewayID acknowledged at_ audit;; mret Done
  end.

Fixpoint run_ops (ops : list credential_op) (w : shared gdb) : list (goerr + credential_reply) * shared gdb :=
  match ops with
  | [] => ([], w)
  | o :: rest =>
      let '(r, w1) := run_op o w in
      let '(rs, w2) := run_ops rest w1 in (r :: rs, w2)
  end.

Lemma run_op_lawful o : op_ok o -> respects (grows_under lawful) (run_op o).
Proof.
  intros Hok. destruct o; cbn in Hok; cbn [run_op]; (apply respects_bind; [apply _| |intros ?; apply respects_ret, _]);
    apply respects_lawful; auto with golib.
Qed.

Lemma run_ops_lawful ops w rs w' :
  Forall op_ok ops -> run_ops ops w = (rs, w') -> grows_under lawful w w'.
Proof.
  revert w rs. induction ops as [|o ops IH]; intros w rs Hok Hrun; cbn in Hrun; [by injection Hrun as <- <-|].
  apply Forall_cons in Hok as [Ho Hok]. destruct (run_op o w) as [r w1] eqn:Hr. destruct (run_ops ops w1) as [rs1 w2] eqn:Hrs.
  injection Hrun as <- <-. transitivity w1; [exact (run_op_lawful o Ho _ _ _ Hr)|by eapply IH].
Qed.

End Histories.

Lemma lawful_grows t t' : credentials_wf t -> lawful t t' -> credentials_wf t' /\ credentials_grow t t'.
Proof. intros Hw [He Hk]. split; [by apply Hk|]. by apply He, cw_constraints. Qed.
