(* ===== verification/EnrollmentSpec.v ===== *)
(** * What enrollment promises

    Theorems over the transactions of Enrollment and GatewayAdmin, interleaved in
    any order by any number of callers on tables other processes grow as well: a
    token becomes at most one certificate, attempts are bounded, a replay returns
    what was issued, revocation is final, and which gateways an operator can
    still delete. *)

From S2P Require Import Prelude Journal Domain EventIngest GatewayTables GatewayStore Credentials Enrollment GatewayAdmin CredentialHistory.

#[local] Open Scope Z_scope.

Section Histories.
Context `{AuditLib}.

(** An answer that spent an attempt of the token. *)
Definition spends (tokenID : string) (p : credential_op * (goerr + credential_reply)) : bool :=
  match p with
  | (OpAcquire inp, inr (Leased r)) =>
      bool_decide (aq_TokenID inp = tokenID) &&
      bool_decide (ar_Disposition r ∈ [dispositionAcquired; dispositionInvalid])
  | _ => false
  end.

Lemma acquire_outcome_spends inp tx k t res t' :
  g_tokens t !! aq_TokenID inp = Some k -> acquire_outcome inp tx k t res t' ->
  ar_Disposition res ∈ [dispositionAcquired; dispositionInvalid] ->
  exists k', g_tokens t' !! aq_TokenID inp = Some k' /\ et_AttemptCount k + 1 <= et_AttemptCount k'.
Proof.
  intros Hk Ho. destruct Ho as [| | | |n t' _ _ Ha _ _ _ _ locked Hr|t' _ _ _ Hb]; cbn [ar_Disposition];
    rewrite !elem_of_cons; intros Hd; try (by destruct Hd as [?|[?|[]%not_elem_of_nil]]).
  - apply (reject_csr_returns _ _ _ _ _ _ _ Hk) in Hr as [_ ->]. cbn. rewrite lookup_insert_eq. eexists. split; [done|].
    cbn. lia.
  - apply update_token_cases in Hb as [[_ [[=]|[? [=]]]]|(k1 & k2 & Hk1 & _ & Hf & _ & _ & ->)].
    rewrite Hk in Hk1. injection Hk1 as <-. destruct (binary_column 16 _); [done|]. destruct (binary_column 32 _); [done|].
    injection Hf as <-. cbn. rewrite lookup_insert_eq. eexists. split; [done|]. cbn. lia.
Qed.

(** What a lease request that was answered found and left. *)
Lemma Acquire_returns inp w res w' :
  AcquireEnrollmentLease inp w = (inr res, w') ->
  let t0 := rows (others_step w).1 in
  exists g k, g_gateways t0 !! aq_GatewayID inp = Some g /\ g_tokens t0 !! aq_TokenID inp = Some k /\
    et_GatewayID k = aq_GatewayID inp /\ et_TokenHash k = aq_ExpectedHash inp /\
    acquire_outcome inp (tx_of (aq_GatewayID inp) g) k t0 res (sh_rows w').
Proof.
  intros Hrun. apply withGatewayTx_cases in Hrun as [_ [[[? [=]] _]|(a & g & d & d' & [= <-] & Hg & Hd & Hfn & ->)]].
  apply acquire_tx_returns in Hfn as (k & Hk & Hgw & Hh & Ho); [|done]. rewrite Hd in *. cbv zeta.
  exists g, k. by repeat split.
Qed.

(** The count of a token's attempts over an operation. *)
Lemma run_op_attempts o w r w' tokenID k :
  op_ok o -> relies lawful w -> credentials_wf (sh_rows w) -> g_tokens (sh_rows w) !! tokenID = Some k ->
  run_op o w = (r, w') ->
  exists k', g_tokens (sh_rows w') !! tokenID = Some k' /\ et_MaxAttempts k' = et_MaxAttempts k /\
    et_AttemptCount k + (if spends tokenID (o, r) then 1 else 0) <= et_AttemptCount k'.
Proof.
  intros Hok Hrely Hw Hk Hrun. destruct (run_op_lawful o Hok _ _ _ Hrun Hrely) as [Hlaw _].
  destruct (lawful_grows _ _ Hw Hlaw) as [_ Hg]. destruct (cg_tokens _ _ Hg _ _ Hk) as (k' & Hk' & Htg).
  exists k'. split; [done|]. split; [apply (tg_max _ _ Htg)|]. destruct (spends tokenID (o, r)) eqn:Hs;
    [|pose proof (tg_attempts _ _ Htg); lia].
  destruct o; try done. destruct r as [|[|res| | |]]; try done. cbn in Hs. to_prop. subst tokenID.
  cbn in Hrun. apply bind_returns in Hrun as (res' & w1 & Hacq & [= -> <-]).
  destruct (relies_step lawful w _ Hrely) as [Hstep _]. destruct (lawful_grows _ _ Hw Hstep) as [_ Hg0].
  destruct (cg_tokens _ _ Hg0 _ _ Hk) as (k0 & Hk0 & Htg0).
  apply Acquire_returns in Hacq as (g & k1 & _ & Hk1 & _ & _ & Ho). rewrite Hk0 in Hk1. injection Hk1 as <-.
  destruct (acquire_outcome_spends _ _ _ _ _ _ Hk0 Ho H1) as (k2 & Hk2 & Hle). rewrite Hk' in Hk2. injection Hk2 as <-.
  pose proof (tg_attempts _ _ Htg0). lia.
Qed.

Lemma run_ops_attempts ops w rs w' tokenID k :
  Forall op_ok ops -> relies lawful w -> credentials_wf (sh_rows w) -> g_tokens (sh_rows w) !! tokenID = Some k ->
  run_ops ops w = (rs, w') ->
  exists k', g_tokens (sh_rows w') !! tokenID = Some k' /\ et_MaxAttempts k' = et_MaxAttempts k /\
    et_AttemptCount k + Z.of_nat (length (filter (fun p => spends tokenID p = true) (zip ops rs))) <= et_AttemptCount k'.
Proof.
  revert w rs k. induction ops as [|o ops IH]; intros w rs k Hok Hrely Hw Hk Hrun; cbn in Hrun.
  - injection Hrun as <- <-. exists k. cbn. split; [done|]. split; [done|lia].
  - apply Forall_cons in Hok as [Ho Hok]. destruct (run_op o w) as [r w1] eqn:Hr.
    destruct (run_ops ops w1) as [rs1 w2] eqn:Hrs. injection Hrun as <- <-.
    destruct (run_op_lawful o Ho _ _ _ Hr Hrely) as [Hlaw Hrely1]. destruct (lawful_grows _ _ Hw Hlaw) as [Hw1 _].
    destruct (run_op_attempts _ _ _ _ _ _ Ho Hrely Hw Hk Hr) as (k1 & Hk1 & Hm1 & Hle1).
    destruct (IH _ _ _ Hok Hrely1 Hw1 Hk1 Hrs) as (k2 & Hk2 & Hm2 & Hle2).
    exists k2. split; [done|]. split; [congruence|]. cbn [zip zip_with]. rewrite filter_cons.
    destruct (spends tokenID (o, r)) eqn:Hs; case_decide; try done; cbn [length]; lia.
Qed.

(** Whatever order leases, finalizations, releases, renewals and operator
    actions come in, and however other lawful writers and database failures
    interleave, a token grants a lease or rejects a CSR at most [max_attempts]
    times, counting those it had already spent. *)
Theorem attempts_are_bounded ops w rs w' tokenID k :
  Forall op_ok ops -> relies lawful w -> credentials_wf (sh_rows w) -> g_tokens (sh_rows w) !! tokenID = Some k ->
  run_ops ops w = (rs, w') ->
  Z.of_nat (length (filter (fun p => spends tokenID p = true) (zip ops rs))) <= et_MaxAttempts k - et_AttemptCount k.
Proof.
  intros Hok Hrely Hw Hk Hrun. destruct (run_ops_attempts _ _ _ _ _ _ Hok Hrely Hw Hk Hrun) as (k' & Hk' & Hm & Hle).
  destruct (run_ops_lawful _ _ _ _ Hok Hrun Hrely) as [Hlaw _]. destruct (lawful_grows _ _ Hw Hlaw) as [Hw' _].
  pose proof (check_token_attempts k' (proj1 (cn_token _ (cw_constraints _ Hw') _ _ Hk'))). lia.
Qed.

(** Every interleaving of the operations keeps the invariant: a token is
    consumed exactly when one certificate was issued for it, rows satisfy their
    constraints, every gateway that was not deleted has a certificate or token
    left; and tokens, certificates and the audit trail only move forward. *)
Theorem credentials_stay_wellformed ops w rs w' :
  Forall op_ok ops -> relies lawful w -> credentials_wf (sh_rows w) -> run_ops ops w = (rs, w') ->
  credentials_wf (sh_rows w') /\ credentials_grow (sh_rows w) (sh_rows w').
Proof.
  intros Hok Hrely Hw Hrun. destruct (run_ops_lawful _ _ _ _ Hok Hrun Hrely) as [Hlaw _]. by apply lawful_grows.
Qed.

(** *** After an issuance *)

(** What a gateway is given of a certificate. *)
Definition same_material (c c' : GatewayCertificate) : Prop :=
  gt_GatewayID c' = gt_GatewayID c /\ gt_CertificatePEM c' = gt_CertificatePEM c /\
  gt_TrustBundlePEM c' = gt_TrustBundlePEM c /\ gt_AuthorityID c' = gt_AuthorityID c /\
  gt_SerialNumber c' = gt_SerialNumber c /\ gt_NotBefore c' = gt_NotBefore c /\ gt_NotAfter c' = gt_NotAfter c.

Lemma same_material_grows c c1 c2 : same_material c c1 -> certificate_grows c1 c2 -> same_material c c2.
Proof. intros Hs [->|(_ & at_ & reason & ->)]; exact Hs. Qed.

(** The token became the certificate [c]. *)
Definition issued_as (tokenID : string) (c : certificate) (t : gdb) : Prop :=
  (exists k, g_tokens t !! tokenID = Some k /\ et_Status k = tokenStatusConsumed) /\
  exists c', g_certificates t !! c.1 = Some c' /\ gt_EnrollmentTokenID c' = Some tokenID /\ same_material c.2 c'.

Lemma issued_as_lawful tokenID c t t' : credentials_wf t -> lawful t t' -> issued_as tokenID c t -> issued_as tokenID c t'.
Proof.
  intros Hw Hlaw [(k & Hk & Hst) (c' & Hc' & Htok & Hm)]. destruct (lawful_grows _ _ Hw Hlaw) as [_ Hg]. split.
  - destruct (cg_tokens _ _ Hg _ _ Hk) as (k' & Hk' & Htg). exists k'. split; [done|].
    rewrite (tg_terminal _ _ Htg); [done|]. unfold live_status. by rewrite Hst.
  - destruct (cg_certificates _ _ Hg _ _ Hc') as (c2 & Hc2 & Hcg). exists c2. split; [done|].
    split; [|by eapply same_material_grows]. by destruct Hcg as [->|(_ & ? & ? & ->)].
Qed.

(** A successful finalization consumed the token, stored its certificate and let
    the gateway join. *)
Lemma Finalize_returns inp w c w' :
  finalize_input_ok inp -> relies lawful w -> credentials_wf (sh_rows w) ->
  FinalizeEnrollmentIssuance inp w = (inr c, w') ->
  c = fi_Certificate inp /\ issued_as (fi_TokenID inp) c (sh_rows w') /\
  (exists g, g_gateways (sh_rows w') !! fi_GatewayID inp = Some g /\ gw_Status g = GatewayJoining /\
     gw_EnrolledAt g = Some (fi_Now inp) /\ live g = true) /\
  exists k, g_tokens (rows (others_step w).1) !! fi_TokenID inp = Some k /\ et_GatewayID k = fi_GatewayID inp /\
    et_TokenHash k = fi_ExpectedHash inp /\ holds_lease (fi_Nonce inp) (fi_CSRHash inp) (fi_Now inp) k = true.
Proof.
  intros Hok Hrely Hw Hrun. destruct (relies_step lawful w _ Hrely) as [Hstep _].
  destruct (lawful_grows _ _ Hw Hstep) as [Hw0 _].
  apply withGatewayTx_cases in Hrun as [_ [[[? [=]] _]|(a & g & d & d' & [= <-] & Hg & Hd & Hfn & Hw')]].
  apply finalize_tx_returns in Hfn as (k & Hk & Hgw & Hh & Ho); [|done]. rewrite Hd in *. rewrite Hw'. clear Hw'.
  destruct (finalize_stores _ _ _ _ _ _ Hw0 Hk Ho) as (-> & _ & t1 & g0 & t3 & Hi & Hg0 & Hl0 & Hfin & ->).
  destruct Hok as [_ Htok]. split; [done|].
  apply insert_certificate_cases in Hi as [[_ [? [=]]]|(csr & fp & _ & _ & _ & _ & _ & _ & _ & _ & Ht1)].
  apply update_token_cases in Hfin as [[_ [[=]|[? [=]]]]|(k1 & k2 & Hk1 & Hlease & [= <-] & _ & _ & ->)].
  assert (k1 = k) as ->. { rewrite Ht1 in Hk1. cbn in Hk1. congruence. }
  rewrite Ht1. cbn. split; [|split].
  - split; cbn.
    + eexists. rewrite lookup_insert_eq. by split.
    + eexists. rewrite lookup_insert_eq. split; [done|]. by split.
  - rewrite lookup_insert_eq. eexists. by repeat split.
  - exists k. by repeat split.
Qed.

(** The answers that concern a token which became [c]. *)
Definition answers_issued (tokenID : string) (c : certificate) (p : credential_op * (goerr + credential_reply)) : Prop :=
  match p with
  | (OpFinalize inp, inr _) => fi_TokenID inp <> tokenID
  | (OpAcquire inp, inr (Leased r)) => aq_TokenID inp = tokenID ->
      ar_Disposition r = dispositionReplay /\
      exists c', ar_Certificate r = Some (c.1, c') /\ same_material c.2 c' /\ gt_CSRSHA256 c' = aq_CSRHash inp
  | (OpRecover inp, inr (Issued p)) => rc_TokenID inp = tokenID ->
      p.1 = c.1 /\ same_material c.2 p.2 /\ gt_CSRSHA256 p.2 = rc_CSRHash inp
  | _ => True
  end.

Lemma certificateMatches_true c gid tok csr now : certificateMatches c gid tok csr now = true ->
  gt_GatewayID c = gid /\ gt_EnrollmentTokenID c = Some tok /\ gt_CSRSHA256 c = csr /\ gt_NotBefore c <= now < gt_NotAfter c.
Proof. unfold certificateMatches, equalBytes. intros H0. to_prop. done. Qed.

(** The only certificate of the token. *)
Lemma issued_unique tokenID c t p :
  credentials_wf t -> issued_as tokenID c t -> g_certificates t !! p.1 = Some p.2 ->
  gt_EnrollmentTokenID p.2 = Some tokenID -> p.1 = c.1 /\ same_material c.2 p.2.
Proof.
  intros Hw [_ (c' & Hc' & Htok & Hm)] Hp Htp.
  assert (Heq : p.1 = c.1) by exact (su_single _ (cw_single_use _ Hw) _ _ _ _ _ Hp Hc' Htp Htok).
  split; [done|]. rewrite Heq, Hc' in Hp. by injection Hp as <-.
Qed.

Lemma recover_tx_returns inp tx d p d' :
  recover_tx inp tx d = (inr p, d') ->
  g_certificates (rows d) !! p.1 = Some p.2 /\
  certificateMatches p.2 (rc_GatewayID inp) (rc_TokenID inp) (rc_CSRHash inp) (rc_Now inp) = true /\ rows d' = rows d.
Proof.
  unfold recover_tx. intros (r & d1 & Hr%attempt_returns & Hrun)%bind_returns. destruct r as [err|k]; [discriminate|].
  apply loadToken_rows in Hr. destruct (_ || _); [discriminate|].
  apply bind_returns in Hrun as (r & d2 & Hq%attempt_returns & Hrun). apply query_row_run in Hq as [Hd2 Hq].
  destruct r as [err|q]; [discriminate|]. destruct (certificateMatches _ _ _ _ _) eqn:Hm; [|discriminate].
  injection Hrun as <- <-. apply select_certificate_some in Hq as [Hp _]. rewrite Hr in Hp.
  split; [done|]. split; [done|congruence].
Qed.

Lemma run_op_issued o w r w' tokenID c :
  op_ok o -> relies lawful w -> credentials_wf (sh_rows w) -> issued_as tokenID c (sh_rows w) ->
  run_op o w = (r, w') -> answers_issued tokenID c (o, r).
Proof.
  intros Hok Hrely Hw Hiss Hrun. destruct (relies_step lawful w _ Hrely) as [Hstep _].
  destruct (lawful_grows _ _ Hw Hstep) as [Hw0 _]. pose proof (issued_as_lawful _ _ _ _ Hw Hstep Hiss) as Hiss0.
  destruct o as [| |inp|inp| |inp| | | | | | | |]; try done; cbn [run_op] in Hrun.
  - destruct r as [|r]; [done|]. apply bind_returns in Hrun as (res & w1 & Hacq & [= <- _]). intros <-.
    apply Acquire_returns in Hacq as (g & k & _ & Hk & _ & _ & Ho). destruct Hiss0 as [(k' & Hk' & Hst) Hc].
    pose proof (conj (ex_intro _ k' (conj Hk' Hst)) Hc : issued_as _ _ _) as Hiss0.
    rewrite Hk in Hk'. injection Hk' as <-.
    destruct Ho as [p _ _ Hp Hm|Hl|n t' Hne|lease Hr|n t' _ _ _ Hne|t' _ _ _ Hb]; try congruence.
    + apply certificateMatches_true in Hm as (_ & Htok & Hcsr & _).
      destruct (issued_unique _ _ _ _ Hw0 Hiss0 Hp Htok) as [Hid Hmat]. split; [done|]. exists p.2.
      split; [|done]. cbn. rewrite <- Hid. by destruct p.
    + by rewrite Hst in Hl.
    + by rewrite Hst in Hr.
    + apply update_token_cases in Hb as [[_ [[=]|[? [=]]]]|(k1 & k2 & Hk1 & Hg & _)]. rewrite Hk in Hk1. injection Hk1 as <-.
      apply begin_guard_live in Hg. by destruct (live_not_consumed k Hg).
  - destruct r as [|r]; [done|]. apply bind_returns in Hrun as (res & w1 & Hfin & _). intros Heq.
    destruct (Finalize_returns _ _ _ _ Hok Hrely Hw Hfin) as (_ & _ & _ & k & Hk & _ & _ & Hl).
    destruct Hiss0 as [(k' & Hk' & Hst) _]. rewrite <- Heq, Hk in Hk'. injection Hk' as <-.
    apply holds_lease_redeeming in Hl. by rewrite Hst in Hl.
  - destruct r as [|r]; [done|]. apply bind_returns in Hrun as (p & w1 & Hrec & [= <- _]). intros <-.
    apply withGatewayTx_cases in Hrec as [_ [[[? [=]] _]|(a & g & d & d' & [= <-] & Hg & Hd & Hfn & _)]].
    apply recover_tx_returns in Hfn as (Hp & Hm & _). rewrite Hd in Hp.
    apply certificateMatches_true in Hm as (_ & Htok & Hcsr & _).
    by destruct (issued_unique _ _ _ _ Hw0 Hiss0 Hp Htok).
Qed.

Lemma run_ops_issued ops w rs w' tokenID c :
  Forall op_ok ops -> relies lawful w -> credentials_wf (sh_rows w) -> issued_as tokenID c (sh_rows w) ->
  run_ops ops w = (rs, w') -> Forall (answers_issued tokenID c) (zip ops rs).
Proof.
  revert w rs. induction ops as [|o ops IH]; intros w rs Hok Hrely Hw Hiss Hrun; cbn in Hrun.
  - by injection Hrun as <- <-.
  - apply Forall_cons in Hok as [Ho Hok]. destruct (run_op o w) as [r w1] eqn:Hr.
    destruct (run_ops ops w1) as [rs1 w2] eqn:Hrs. injection Hrun as <- <-.
    destruct (run_op_lawful o Ho _ _ _ Hr Hrely) as [Hlaw Hrely1]. destruct (lawful_grows _ _ Hw Hlaw) as [Hw1 _].
    cbn [zip zip_with]. apply Forall_cons. split; [exact (run_op_issued o w r w1 tokenID c Ho Hrely Hw Hiss Hr)|].
    eapply IH; [exact Hok|exact Hrely1|exact Hw1| |exact Hrs].
    exact (issued_as_lawful _ _ _ _ Hw Hlaw Hiss).
Qed.

(** C14: an enrollment token is used once. A finalization that returns stored
    exactly the certificate it was given, from the caller's own unexpired lease,
    consumed the token and let the gateway join; and in every later history no
    other finalization of the token succeeds, and each redemption or recovery that
    is answered gets the material of that one certificate, for the CSR it was
    issued for. *)
Theorem token_is_single_use inp w c w1 ops rs w2 :
  finalize_input_ok inp -> relies lawful w -> credentials_wf (sh_rows w) ->
  FinalizeEnrollmentIssuance inp w = (inr c, w1) ->
  Forall op_ok ops -> run_ops ops w1 = (rs, w2) ->
  c = fi_Certificate inp /\ issued_as (fi_TokenID inp) c (sh_rows w1) /\
  (exists g, g_gateways (sh_rows w1) !! fi_GatewayID inp = Some g /\ gw_Status g = GatewayJoining /\
     gw_EnrolledAt g = Some (fi_Now inp) /\ live g = true) /\
  (exists k, g_tokens (rows (others_step w).1) !! fi_TokenID inp = Some k /\ et_GatewayID k = fi_GatewayID inp /\
     et_TokenHash k = fi_ExpectedHash inp /\ holds_lease (fi_Nonce inp) (fi_CSRHash inp) (fi_Now inp) k = true) /\
  Forall (answers_issued (fi_TokenID inp) c) (zip ops rs).
Proof.
  intros Hok Hrely Hw Hfin Hops Hrun. destruct (Finalize_returns _ _ _ _ Hok Hrely Hw Hfin) as (Hc & Hiss & Hg & Hk).
  do 4 (split; [done|]).
  assert (Hlaw : grows_under lawful w w1).
  { apply (respects_lawful _ (FinalizeEnrollmentIssuance_extends inp) (FinalizeEnrollmentIssuance_wf inp Hok) _ _ _ Hfin). }
  destruct (Hlaw Hrely) as [Hl Hrely1]. destruct (lawful_grows _ _ Hw Hl) as [Hw1 _].
  by apply (run_ops_issued ops w1 rs w2).
Qed.

(** *** Leases *)

(** The tables a transaction on the handle finds. *)
Definition found (w : shared gdb) : gdb := rows (others_step w).1.

Lemma Acquire_cases inp w r w' :
  AcquireEnrollmentLease inp w = (r, w') ->
  (exists err, r = inl err) /\ sh_rows w' = found w \/
  exists g k res, r = inr res /\ g_gateways (found w) !! aq_GatewayID inp = Some g /\
    g_tokens (found w) !! aq_TokenID inp = Some k /\
    acquire_outcome inp (tx_of (aq_GatewayID inp) g) k (found w) res (sh_rows w').
Proof.
  intros Hrun. destruct r as [err|res].
  - apply withGatewayTx_cases in Hrun as [_ [[? ?]|(? & ? & ? & ? & [=] & _)]]. by left.
  - right. apply Acquire_returns in Hrun as (g & k & ? & ? & _ & _ & ?). by exists g, k, res.
Qed.

Lemma Finalize_cases inp w r w' :
  FinalizeEnrollmentIssuance inp w = (r, w') ->
  (exists err, r = inl err) /\ sh_rows w' = found w \/
  exists g k c, r = inr c /\ g_tokens (found w) !! fi_TokenID inp = Some k /\
    finalize_outcome inp (tx_of (fi_GatewayID inp) g) k (found w) c (sh_rows w').
Proof.
  intros Hrun. apply withGatewayTx_cases in Hrun as [_ [?|(c & g & d & d' & -> & _ & Hd & Hfn & ->)]]; [by left|right].
  apply finalize_tx_returns in Hfn as (k & Hk & _ & _ & Ho); [|done]. rewrite Hd in *. by exists g, k, c.
Qed.

Lemma Release_cases inp w r w' :
  ReleaseEnrollmentLease inp w = (r, w') ->
  r <> inr true /\ sh_rows w' = found w \/
  exists k t1, r = inr true /\ g_tokens (found w) !! rl_TokenID inp = Some k /\
    release_enrollment (rl_TokenID inp) (rl_Nonce inp) (rl_CSRHash inp) (rl_Now inp) (found w) = (inr 1, t1).
Proof.
  intros Hrun. apply withGatewayTx_cases in Hrun as [_ [[[err ->] ?]|(b & g & d & d' & -> & _ & Hd & Hfn & ->)]]; [by left|].
  apply release_tx_returns in Hfn as [[-> ->]|(-> & k & t1 & Hk & _ & _ & Hrel & _)]; [|right|done].
  - left. split; [congruence|done].
  - rewrite Hd in *. by exists k, t1.
Qed.

(** While a redemption's lease runs and attempts remain, nobody else moves
    the token: another lease request is told to wait or refused, a finalization
    or a release with another nonce is refused, and none of them writes. *)
Theorem running_lease_excludes_others w tokenID k lease :
  g_tokens (found w) !! tokenID = Some k -> et_Status k = tokenStatusRedeeming ->
  et_LeaseExpiresAt k = Some lease -> et_AttemptCount k < et_MaxAttempts k ->
  (forall inp r w', aq_TokenID inp = tokenID -> aq_Now inp < lease -> AcquireEnrollmentLease inp w = (r, w') ->
     sh_rows w' = found w /\
     ((exists err, r = inl err) \/
      (r = inr (MkAcquireResult dispositionInProgress None) /\ aq_CSRHash inp = et_CSRSHA256 k))) /\
  (forall inp r w', fi_TokenID inp = tokenID -> fi_Nonce inp <> et_RedemptionNonce k ->
     FinalizeEnrollmentIssuance inp w = (r, w') -> sh_rows w' = found w /\ exists err, r = inl err) /\
  (forall inp r w', rl_TokenID inp = tokenID -> rl_Nonce inp <> et_RedemptionNonce k ->
     ReleaseEnrollmentLease inp w = (r, w') -> sh_rows w' = found w /\ r <> inr true).
Proof.
  intros Hk Hst Hlease Hleft. split; [|split].
  - intros inp r w' <- Hnow [[Herr ->]|(g & k1 & res & -> & _ & Hk1 & Ho)]%Acquire_cases; [by eauto|].
    rewrite Hk in Hk1. injection Hk1 as <-. revert Hnow.
    destruct Ho as [p Hc|Hl|n t' _ _ Hmax|lease' _ Hcsr|n t' _ _ _ _ _ _ Hover locked Hr|t' _ _ _ Hb]; intros Hnow.
    + by rewrite Hst in Hc.
    + by rewrite Hst in Hl.
    + lia.
    + eauto.
    + specialize (Hover lease Hst Hlease). lia.
    + apply update_token_cases in Hb as [[_ [[=]|[? [=]]]]|(k1 & k2 & Hk1 & Hg & _)]. rewrite Hk in Hk1. injection Hk1 as <-.
      exfalso. unfold begin_guard in Hg. rewrite Hst, Hlease in Hg. cbn in Hg. to_prop. apply orb_true_iff in H1 as [?|?]; to_prop; [done|].
      lia.
  - intros inp r w' <- Hne [[Herr ->]|(g & k1 & c & -> & Hk1 & Ho)]%Finalize_cases; [done|].
    rewrite Hk in Hk1. injection Hk1 as <-. by destruct Hne; rewrite (fo_nonce _ _ _ _ _ _ Ho).
  - intros inp r w' <- Hne [[? ?]|(k1 & t1 & _ & Hk1 & Hrel)]%Release_cases; [done|]. exfalso.
    apply update_token_cases in Hrel as [[_ [[=]|[? [=]]]]|(k2 & k3 & Hk2 & Hg & _)]. rewrite Hk in Hk2. injection Hk2 as <-.
    unfold holds_lease in Hg. to_prop. congruence.
Qed.

(** On a database that does not fail, a statement is its effect. *)
Lemma stmt_run_quiet {S A} (f : S -> (goerr + A) * S) s : stmt f (Db s []) = ((f s).1, Db (f s).2 []).
Proof. unfold stmt. cbn. by destruct (f s). Qed.

Lemma query_row_run_quiet {S A} (f : S -> option A) s a :
  f s = Some a -> query_row f (Db s []) = (inr a, Db s []).
Proof. intros Hf. unfold query_row. rewrite stmt_run_quiet, Hf. done. Qed.

Lemma bind_run {W A B} (m : M W A) (k : A -> M W B) w a w1 : m w = (inr a, w1) -> (m ≫= k) w = k a w1.
Proof. intros Hm. unfold mbind, M_bind. by rewrite Hm. Qed.

Lemma withGatewayTx_quiet {A} id (fn : enrollmentTx -> M (db gdb) A) t g a t' :
  g_gateways t !! id = Some g -> fn (tx_of id g) (Db t []) = (inr a, Db t' []) ->
  withGatewayTx id fn (MkShared (Db t []) []) = (inr a, MkShared (Db t' []) []).
Proof.
  intros Hg Hfn. unfold withGatewayTx, withTx, atomically, with_rollback. cbn [others_step sh_others sh_db].
  unfold mbind at 1, M_bind at 1. unfold begin_tx, query. rewrite stmt_run_quiet. cbn [fst snd].
  erewrite bind_run; [|erewrite bind_run; [exact Hfn|]; unfold loadGateway; apply query_row_run_quiet; by rewrite Hg].
  unfold mbind, M_bind, commit_tx, query. by rewrite stmt_run_quiet.
Qed.

Lemma loadToken_quiet tx id t k :
  tx_token tx = None -> g_tokens t !! id = Some k -> et_GatewayID k = tx_gatewayID tx ->
  loadToken tx id (et_TokenHash k) (Db t []) = (inr k, Db t []).
Proof.
  intros Htx Hk Hgw. unfold loadToken. erewrite bind_run.
  2: { unfold attempt, lockToken, tokenLocked. rewrite Htx. cbn [is_none negb].
       erewrite bind_run; [|apply query_row_run_quiet, Hk]. rewrite bool_decide_true by done. done. }
  cbn. rewrite Nat.eqb_refl, bool_decide_true by done. done.
Qed.

(** The last attempt is not protected by its lease. When a redemption in
    progress used the last of the attempts, another request with the same token
    locks it although the lease is running, whatever CSR it presents, and the
    finalization of the redemption in progress is then refused. *)
Theorem last_attempt_is_locked_out inp t k g :
  g_gateways t !! aq_GatewayID inp = Some g ->
  g_tokens t !! aq_TokenID inp = Some k -> check_token k = None ->
  et_GatewayID k = aq_GatewayID inp -> et_TokenHash k = aq_ExpectedHash inp ->
  et_Status k = tokenStatusRedeeming -> et_AttemptCount k = et_MaxAttempts k -> aq_Now inp < et_ExpiresAt k ->
  exists w', AcquireEnrollmentLease inp (MkShared (Db t []) []) = (inr (MkAcquireResult dispositionRateLimited None), w') /\
    forall fin r w'', fi_TokenID fin = aq_TokenID inp -> FinalizeEnrollmentIssuance fin w' = (r, w'') -> exists err, r = inl err.
Proof.
  intros Hg Hk Hck Hgw Hh Hst Hmax Hnow.
  set (k' := set_token_state tokenStatusLocked (et_MaxAttempts k) [] [] None None (et_ConsumedAt k) (et_RevokedAt k)
               (aq_Now inp) k).
  assert (Hck' : check_token k' = None).
  { apply check_token_valid in Hck as (_ & Ha & Hv & _ & Ht). apply check_token_valid.
    unfold chk_enrollment_attempts, chk_enrollment_terminal_time in *. rewrite Hst in Ht. to_prop.
    split; [cbn; unfold token_statuses; rewrite !elem_of_cons; tauto|]. split; [|split; [exact Hv|]].
    - cbn -[Z.ltb Z.leb]. rewrite Z.leb_refl. apply andb_true_iff. split; [by apply Z.ltb_lt|done].
    - split; [done|]. cbn in *. by destruct (et_ConsumedAt k), (et_RevokedAt k). }
  set (t' := with_tokens (<[aq_TokenID inp := k']> (g_tokens t)) t).
  exists (MkShared (Db t' []) []). split.
  - apply (withGatewayTx_quiet _ _ _ g _ _ Hg). unfold acquire_tx. erewrite bind_run.
    2: { unfold attempt. rewrite <- Hh. by rewrite (loadToken_quiet (tx_of (aq_GatewayID inp) g) _ _ _ eq_refl Hk Hgw). }
    cbv beta iota. rewrite bool_decide_false by by rewrite Hst.
    rewrite (bool_decide_false (et_Status k = tokenStatusRevoked)) by by rewrite Hst.
    replace (et_ExpiresAt k <=? aq_Now inp) with false by lia. cbn [orb].
    rewrite bool_decide_false by by rewrite Hst. replace (et_MaxAttempts k <=? et_AttemptCount k) with true by lia.
    erewrite bind_run; [done|]. unfold lock. erewrite bind_run; [done|]. rewrite stmt_run_quiet.
    unfold lock_enrollment, update_token. rewrite Hk. rewrite redeeming_live by done. fold k'. by rewrite Hck'.
  - intros fin r w'' Htok Hfin. apply Finalize_cases in Hfin as [[? _]|(g' & k2 & c & -> & Hk2 & Ho)]; [done|].
    unfold found in Hk2. cbn in Hk2. rewrite Htok, lookup_insert_eq in Hk2. injection Hk2 as <-.
    by pose proof (fo_status _ _ _ _ _ _ Ho).
Qed.

(** *** Deletion and re-enrollment *)

Lemma no_live_credentials_true id t : no_live_credentials id t = true <->
  (forall tid k, g_tokens t !! tid = Some k -> live_token id k = false) /\
  (forall cid c, g_certificates t !! cid = Some c -> live_certificate id c = false).
Proof.
  unfold no_live_credentials. rewrite andb_true_iff, !forallb_forall. split.
  - intros [Hk Hc]. split.
    + intros tid k Hl. apply negb_true_iff. apply (Hk (tid, k)). by apply list_elem_of_In, elem_of_map_to_list.
    + intros cid c Hl. apply negb_true_iff. apply (Hc (cid, c)). by apply list_elem_of_In, elem_of_map_to_list.
  - intros [Hk Hc]. split; intros [i x] Hin%list_elem_of_In%elem_of_map_to_list; apply negb_true_iff; cbn; eauto.
Qed.

(** What a deletion that committed found and left. *)
Lemma Delete_returns gatewayID ack at_ audit w u w' :
  Delete gatewayID ack at_ audit w = (inr u, w') ->
  ack = true /\ exists g, g_gateways (found w) !! gatewayID = Some g /\ live g = true /\
    gw_Status g ∈ [GatewayDrained; GatewayDisabled] /\ count_sessions gatewayID (found w) = 0 /\
    no_live_credentials gatewayID (found w) = true /\
    sh_rows w' = with_audit (g_audit (found w) ++ [audit])
      (with_gateways (<[gatewayID := set_status GatewayDisabled (set_deleted at_ (set_updated at_ g))]>
         (g_gateways (found w))) (found w)).
Proof.
  unfold Delete. destruct ack; [|discriminate]. cbn [negb]. intros Hrun. split; [done|].
  apply withGateway_cases in Hrun as [_ [[[? [=]] _]|(a & g & d & d' & [= <-] & Hg & Hl & Hd & Hfn & ->)]].
  unfold delete_tx in Hfn. cbv zeta in Hfn. destruct (bool_decide _) eqn:Hst; [|discriminate]. cbn [negb] in Hfn.
  apply bind_returns in Hfn as (n & d1 & [-> Hd1]%query_returns & Hfn). destruct (_ =? 0) eqn:Hn; [|discriminate].
  cbn [negb] in Hfn. apply bind_returns in Hfn as (u' & d2 & Hc & [-> _]%audit_Append_returns). to_prop.
  apply changed_returns, stmt_returns in Hc. unfold soft_delete_gateway in Hc.
  apply update_gateway_cases in Hc as [[_ [[=]|[? [=]]]]|(g1 & g' & Hg1 & Hguard & [= <-] & _ & _ & Hd2)].
  to_prop. fold (found w) in *. rewrite Hd1, Hd in *. rewrite Hg in Hg1. injection Hg1 as <-.
  exists g. do 5 (split; [done|]). by rewrite Hd2.
Qed.

(** A deletion that succeeds removes a drained or disabled gateway without
    sessions, unredeemed tokens or unrevoked certificates, which is then connected
    to, enrolled and administered no more; and, in any history the operations
    allow, the only gateways it can succeed on are those with a locked token:
    nothing else leaves a gateway without credentials. *)
Theorem delete_needs_a_locked_token gatewayID ack at_ audit w u w' :
  relies lawful w -> credentials_wf (sh_rows w) ->
  Delete gatewayID ack at_ audit w = (inr u, w') ->
  ack = true /\ count_sessions gatewayID (sh_rows w') = 0 /\
  (exists g, g_gateways (found w) !! gatewayID = Some g /\ gw_Status g ∈ [GatewayDrained; GatewayDisabled]) /\
  (exists g', g_gateways (sh_rows w') !! gatewayID = Some g' /\ live g' = false /\ gw_Status g' = GatewayDisabled) /\
  (forall tid k, g_tokens (sh_rows w') !! tid = Some k -> live_token gatewayID k = false) /\
  (forall cid c, g_certificates (sh_rows w') !! cid = Some c -> live_certificate gatewayID c = false) /\
  exists tid k, g_tokens (sh_rows w') !! tid = Some k /\ et_GatewayID k = gatewayID /\ et_Status k = tokenStatusLocked.
Proof.
  intros Hrely Hw (-> & g & Hg & Hl & Hst & Hn & Hno & Hw')%Delete_returns.
  destruct (relies_step lawful w _ Hrely) as [Hstep _]. fold (found w) in Hstep.
  destruct (lawful_grows _ _ Hw Hstep) as [Hw0 _]. apply no_live_credentials_true in Hno as [Hnt Hnc].
  split; [done|]. rewrite Hw'. split; [done|]. split; [eauto|]. split; [|split; [exact Hnt|split; [exact Hnc|]]].
  - cbn. rewrite lookup_insert_eq. eexists. split; [done|]. done.
  - cbn. destruct (cw_accounted _ Hw0 _ _ Hg Hl) as [(tid & k & Hk & Hgid & Ho)|(cid & c & Hc & Hlc)].
    + exists tid, k. split; [done|]. split; [done|]. specialize (Hnt _ _ Hk). unfold live_token in Hnt.
      rewrite bool_decide_true in Hnt by done. unfold open_token, live_status, tokenStatusActive, tokenStatusRedeeming in Ho.
      cbn [andb] in Hnt. rewrite Hnt in Ho. cbn [orb] in Ho. by to_prop.
    + by rewrite (Hnc _ _ Hc) in Hlc.
Qed.

(** *** Renewal *)

(** The incumbent a renewal was authenticated with, as the database has it. *)
Definition live_incumbent (cred : RenewalCredential) (now : Z) (t : gdb) : Prop :=
  (exists g, g_gateways t !! nc_GatewayID cred = Some g /\ live g = true /\
     gw_Status g ∈ [GatewayJoining; GatewayActive; GatewayDraining; GatewayDrained]) /\
  exists c, g_certificates t !! nc_CertificateID cred = Some c /\ gt_GatewayID c = nc_GatewayID cred /\
    gt_Fingerprint c = nc_Fingerprint cred /\ gt_SerialNumber c = nc_SerialNumber cred /\
    gt_RevokedAt c = None /\ gt_NotBefore c <= now < gt_NotAfter c.

Lemma validateRenewalCredential_returns g cred now d u d' :
  g_gateways (rows d) !! nc_GatewayID cred = Some g ->
  validateRenewalCredential (tx_of (nc_GatewayID cred) g) cred now d = (inr u, d') ->
  live_incumbent cred now (rows d) /\ rows d' = rows d.
Proof.
  intros Hg Hrun. split; [|by eapply validateRenewalCredential_rows]. unfold validateRenewalCredential in Hrun.
  destruct (gatewayRecoveryEligible _) eqn:He; [|discriminate]. cbn [negb] in Hrun.
  apply bind_returns in Hrun as (r & d1 & Hq%attempt_returns & Hrun). apply query_row_run in Hq as [_ Hq].
  destruct r as [err|p]; [discriminate|]. destruct (_ || _) eqn:Hbad; [discriminate|]. to_prop.
  apply select_certificate_some in Hq as [Hp Hm]. to_prop. split.
  - exists g. split; [done|]. unfold gatewayRecoveryEligible, tx_of in He. cbn in He. to_prop. unfold live. by split.
  - exists p.2. rewrite <- H3. split; [done|]. destruct (gt_RevokedAt p.2); [done|]. by repeat split.
Qed.

Lemma FinalizeRenewal_returns inp w c w' :
  FinalizeRenewal inp w = (inr c, w') ->
  live_incumbent (fr_Credential inp) (fr_Now inp) (found w) /\ renewal_outcome inp (found w) c (sh_rows w').
Proof.
  intros Hrun%map_err_returns.
  apply withGatewayTx_cases in Hrun as [_ [[[? [=]] _]|(a & g & d & d' & [= <-] & Hg & Hd & Hfn & ->)]].
  fold (found w) in *. pose proof (renew_tx_returns _ _ _ _ _ Hfn) as Ho. rewrite Hd in Ho. split; [|done].
  unfold renew_tx in Hfn. cbv zeta in Hfn. apply bind_returns in Hfn as (u & d1 & Hv & _).
  apply validateRenewalCredential_returns in Hv as [Hv _]; [|by rewrite Hd]. by rewrite Hd in Hv.
Qed.

Lemma PrepareRenewal_returns inp w r w' :
  PrepareRenewal inp w = (inr r, w') -> live_incumbent (pr_Credential inp) (pr_Now inp) (found w).
Proof.
  intros Hrun%map_err_returns.
  apply withGatewayTx_cases in Hrun as [_ [[[? [=]] _]|(a & g & d & d' & [= <-] & Hg & Hd & Hfn & _)]].
  fold (found w) in *. unfold prepare_tx in Hfn. cbv zeta in Hfn. apply bind_returns in Hfn as (u & d1 & Hv & _).
  apply validateRenewalCredential_returns in Hv as [Hv _]; [|by rewrite Hd]. by rewrite Hd in Hv.
Qed.

Lemma newRenewalMatches_true c gid csr now : newRenewalMatches c gid csr now = true ->
  gt_GatewayID c = gid /\ gt_IssuanceKind c = "renewal" /\ gt_EnrollmentTokenID c = None /\ gt_CSRSHA256 c = csr /\
  gt_NotBefore c <= now < gt_NotAfter c.
Proof. unfold newRenewalMatches, equalBytes. intros H0. to_prop. by destruct (gt_EnrollmentTokenID c). Qed.

Lemma renewalReplayMatches_true c gid csr now : renewalReplayMatches c gid csr now = true ->
  newRenewalMatches c gid csr now = true /\ gt_RevokedAt c = None.
Proof. unfold renewalReplayMatches. intros H0. to_prop. by destruct (gt_RevokedAt c). Qed.

(** The renewed certificate of a CSR, as the database has it. *)
Definition renewed_as (gatewayID : string) (csr : bytes) (c : certificate) (t : gdb) : Prop :=
  exists c', g_certificates t !! c.1 = Some c' /\ same_material c.2 c' /\ gt_GatewayID c' = gatewayID /\
    gt_IssuanceKind c' = "renewal" /\ gt_EnrollmentTokenID c' = None /\ binary_column 32 csr = inr (gt_CSRSHA256 c').

Lemma binary_column_full n b b' : binary_column n b = inr b' -> length b = n -> b' = b.
Proof.
  unfold binary_column. destruct (_ <=? _)%nat; [|done]. intros [= <-] ->. by rewrite Nat.sub_diag, app_nil_r.
Qed.

Lemma renewal_outcome_stored inp t c t' :
  length (fr_CSRHash inp) = 32%nat -> renewal_outcome inp t c t' ->
  gt_GatewayID c.2 = nc_GatewayID (fr_Credential inp) /\ gt_NotBefore c.2 <= fr_Now inp < gt_NotAfter c.2 /\
  renewed_as (nc_GatewayID (fr_Credential inp)) (fr_CSRHash inp) c t' /\
  exists c', g_certificates t' !! c.1 = Some c' /\ gt_RevokedAt c' = None.
Proof.
  intros Hlen [p Hp Hm|t1 Hm Hi].
  - apply renewalReplayMatches_true in Hm as [(Hg & Hkind & Htok & Hcsr & Hv)%newRenewalMatches_true Hrev].
    do 2 (split; [done|]). split; [|eauto]. exists p.2. repeat (split; [done|]).
    rewrite Hcsr. unfold binary_column. rewrite Hlen. cbn. by rewrite app_nil_r.
  - apply newRenewalMatches_true in Hm as (Hg & Hkind & Htok & Hcsr & Hv).
    apply insert_certificate_cases in Hi as [[_ [? [=]]]|(csr & fp & _ & _ & Hcol & _ & _ & _ & _ & _ & ->)].
    do 2 (split; [done|]). split; [|cbn; rewrite lookup_insert_eq; eexists; done].
    eexists. cbn. rewrite lookup_insert_eq. split; [done|]. cbn. rewrite Hcsr in Hcol.
    pose proof (binary_column_full _ _ _ Hcol Hlen) as ->. repeat (split; [done|]). done.
Qed.

(** A renewal is answered only for a gateway that may serve and whose
    authenticated certificate is stored, current and not revoked at that instant;
    the certificate returned is stored, is for that gateway and CSR and is not
    revoked; and every later renewal with the same CSR that is answered returns
    the same certificate. *)
Theorem renewal_is_authorized_and_exact inp w c w' :
  length (fr_CSRHash inp) = 32%nat -> relies lawful w -> credentials_wf (sh_rows w) ->
  FinalizeRenewal inp w = (inr c, w') ->
  live_incumbent (fr_Credential inp) (fr_Now inp) (found w) /\
  gt_NotBefore c.2 <= fr_Now inp < gt_NotAfter c.2 /\
  renewed_as (nc_GatewayID (fr_Credential inp)) (fr_CSRHash inp) c (sh_rows w') /\
  (exists c', g_certificates (sh_rows w') !! c.1 = Some c' /\ gt_RevokedAt c' = None) /\
  forall inp' w2 c2 w2',
    lawful (sh_rows w') (sh_rows w2) -> relies lawful w2 ->
    nc_GatewayID (fr_Credential inp') = nc_GatewayID (fr_Credential inp) -> fr_CSRHash inp' = fr_CSRHash inp ->
    FinalizeRenewal inp' w2 = (inr c2, w2') ->
    c2.1 = c.1 /\ same_material c.2 c2.2 /\ g_certificates (sh_rows w2') = g_certificates (found w2).
Proof.
  intros Hlen Hrely Hw Hrun.
  pose proof (FinalizeRenewal_returns _ _ _ _ Hrun) as [Hinc Ho].
  destruct (renewal_outcome_stored _ _ _ _ Hlen Ho) as (Hg & Hvalid & Hst & Hlive).
  destruct (respects_lawful _ (FinalizeRenewal_extends inp) (FinalizeRenewal_wf inp) _ _ _ Hrun Hrely) as [Hlaw _].
  destruct (lawful_grows _ _ Hw Hlaw) as [Hw1 _]. do 4 (split; [done|]).
  intros inp' w2 c2 w2' Hlater Hrely2 Hgw Hcsr Hrun2.
  destruct (relies_step lawful w2 _ Hrely2) as [Hstep2 _]. fold (found w2) in Hstep2.
  assert (Hlaw2 : lawful (sh_rows w') (found w2)) by (etransitivity; eauto).
  destruct (lawful_grows _ _ Hw1 Hlaw2) as [Hw2 Hgrow2].
  destruct Hst as (c' & Hc' & Hmat & Hgid & _ & _ & Hcol).
  destruct (cg_certificates _ _ Hgrow2 _ _ Hc') as (c3 & Hc3 & Hcg).
  assert (Hid3 : same_material c.2 c3 /\ gt_GatewayID c3 = nc_GatewayID (fr_Credential inp) /\
    gt_CSRSHA256 c3 = fr_CSRHash inp).
  { split; [by eapply same_material_grows|]. apply binary_column_full in Hcol; [|done].
    by destruct Hcg as [->|(_ & ? & ? & ->)]. }
  destruct Hid3 as (Hmat3 & Hg3 & Hcsr3).
  apply FinalizeRenewal_returns in Hrun2 as [_ Ho2]. destruct Ho2 as [p Hp Hm|t1 Hm Hi].
  - apply renewalReplayMatches_true in Hm as [(Hgp & _ & _ & Hcsrp & _)%newRenewalMatches_true _].
    assert (Heq : p.1 = c.1).
    { apply (cn_unique _ (cw_constraints _ Hw2) _ _ _ _ Hp Hc3). unfold certificates_clash.
      rewrite (bool_decide_true (gt_GatewayID p.2 = gt_GatewayID c3)) by congruence.
      rewrite (bool_decide_true (gt_CSRSHA256 p.2 = gt_CSRSHA256 c3)) by congruence. by rewrite orb_true_r. }
    split; [done|]. rewrite Heq, Hc3 in Hp. injection Hp as <-. by split.
  - exfalso. apply newRenewalMatches_true in Hm as (Hgp & _ & _ & Hcsrp & _).
    apply insert_certificate_cases in Hi as [[_ [? [=]]]|(csr & fp & _ & _ & Hcsr2 & _ & _ & _ & _ & Hcl & _)].
    specialize (Hcl _ _ Hc3). apply orb_false_iff in Hcl as [_ Hcl].
    rewrite Hcsrp, Hcsr in Hcsr2. apply binary_column_full in Hcsr2; [|done]. cbn in Hcl.
    rewrite (bool_decide_true (gt_GatewayID _ = _)) in Hcl by congruence.
    rewrite (bool_decide_true (csr = _)) in Hcl by congruence. done.
Qed.

(** *** Superseding a gateway's credentials *)

Lemma Disable_returns gatewayID at_ audit w u w' :
  DisableGateway gatewayID at_ audit w = (inr u, w') ->
  exists g g', g_gateways (found w) !! gatewayID = Some g /\ live g = true /\
    g_gateways (sh_rows w') !! gatewayID = Some g' /\ gw_Status g' = GatewayDisabled /\
    gw_ConnectionEpoch g' = gw_ConnectionEpoch g + 1 /\
    g_tokens (sh_rows w') = g_tokens (found w) /\ g_certificates (sh_rows w') = g_certificates (found w).
Proof.
  intros Hrun. apply withGateway_cases in Hrun as [_ [[[? [=]] _]|(a & g & d & d' & [= <-] & Hg & Hl & Hd & Hfn & ->)]].
  fold (found w) in *. apply bind_returns in Hfn as (u' & d1 & Hc & [-> _]%audit_Append_returns).
  destruct (bool_decide _); [discriminate|]. apply changed_gateway in Hc as (g1 & g' & Hg1 & _ & Hf & Hd1).
  rewrite Hd in *. assert (g1 = g) as -> by congruence. destruct (increment _) as [|e] eqn:He; [done|]. injection Hf as <-.
  apply increment_inr in He as [-> _]. eexists g, _. do 2 (split; [done|]). rewrite Hd1. cbn. rewrite lookup_insert_eq.
  by repeat split.
Qed.

Lemma Reenroll_returns gatewayID tokenID token at_ audits w u w' :
  et_GatewayID token = gatewayID -> relies lawful w -> credentials_wf (sh_rows w) ->
  Reenroll gatewayID tokenID token at_ audits w = (inr u, w') ->
  exists g t4, g_gateways (found w) !! gatewayID = Some g /\ live g = true /\
    reenroll_outcome gatewayID tokenID token at_ (found w) t4 /\ lawful t4 (sh_rows w') /\ credentials_wf t4.
Proof.
  intros Hgid Hrely Hw Hrun. destruct (relies_step lawful w _ Hrely) as [Hstep _]. fold (found w) in Hstep.
  destruct (lawful_grows _ _ Hw Hstep) as [Hw0 _].
  apply withGateway_cases in Hrun as [_ [[[? [=]] _]|(a & g & d & d' & [= <-] & Hg & Hl & Hd & Hfn & ->)]].
  fold (found w) in *. apply (reenroll_tx_returns _ _ _ _ _ _ _ g) in Hfn as (d4 & Ho & Ha); [|by rewrite Hd|done].
  rewrite Hd in Ho. exists g, (rows d4). split; [done|]. split; [done|]. split; [done|].
  assert (Hwf4 : credentials_wf (rows d4)) by exact (reenroll_outcome_wf _ _ _ _ _ _ Hgid Ho Hw0).
  split; [|done]. split; [exact (for_each_extends Append audits audit_Append_extends _ _ _ Ha)|].
  intros _. by eapply for_each_Append_wf.
Qed.

(** A token that no longer redeems: it is closed, and what was issued for it is
    revoked. *)
Definition retired_token (id : string) (t : gdb) : Prop :=
  (exists k, g_tokens t !! id = Some k /\ live_status k = false) /\
  forall p, g_certificates t !! p.1 = Some p.2 -> gt_EnrollmentTokenID p.2 = Some id -> gt_RevokedAt p.2 <> None.

(** Nobody gets a lease or a new certificate with it; what it can still be
    answered is that it is locked, or the revoked certificate it became. *)
Lemma retired_token_answers id w : credentials_wf (found w) -> retired_token id (found w) ->
  (forall inp r w', aq_TokenID inp = id -> AcquireEnrollmentLease inp w = (r, w') ->
     (exists err, r = inl err) \/ r = inr (MkAcquireResult dispositionRateLimited None) \/
     exists p, r = inr (MkAcquireResult dispositionReplay (Some p)) /\ gt_RevokedAt p.2 <> None) /\
  (forall inp r w', fi_TokenID inp = id -> FinalizeEnrollmentIssuance inp w = (r, w') -> exists err, r = inl err) /\
  (forall inp r w', rl_TokenID inp = id -> ReleaseEnrollmentLease inp w = (r, w') -> r <> inr true) /\
  (forall inp r w', rc_TokenID inp = id -> RecoverEnrollmentIssuance inp w = (r, w') ->
     (exists err, r = inl err) \/ exists p, r = inr p /\ gt_RevokedAt p.2 <> None).
Proof.
  intros Hw [(k & Hk & Hdead) Hrev].
  assert (Hred : et_Status k <> tokenStatusRedeeming) by (intros Hst; unfold live_status in Hdead; by rewrite Hst in Hdead).
  split_and!.
  - intros inp r w' <- [[Herr _]|(g & k1 & res & -> & _ & Hk1 & Ho)]%Acquire_cases; [by left|right].
    rewrite Hk in Hk1. injection Hk1 as <-.
    destruct Ho as [p Hc _ Hp Hm|Hl|n t' _ _ Hmax|lease Hst|n t' _ _ _ Hc Hr Hl _ locked _|t' _ _ _ Hb]; auto.
    + right. exists p. split; [done|]. apply certificateMatches_true in Hm as (_ & Htok & _). by apply Hrev.
    + done.
    + exfalso. assert (Hin : et_Status k ∈ token_statuses).
      { pose proof (proj1 (cn_token _ (cw_constraints _ Hw) _ _ Hk)) as Hck. unfold check_token in Hck.
        case_bool_decide; done. }
      unfold live_status in Hdead. apply orb_false_iff in Hdead as [Ha Hb]. apply bool_decide_eq_false in Ha, Hb.
      unfold token_statuses in Hin. set_solver.
    + apply update_token_cases in Hb as [[_ [[=]|[? [=]]]]|(k1 & k2 & Hk1 & Hg & _)]. rewrite Hk in Hk1. injection Hk1 as <-.
      apply begin_guard_live in Hg. congruence.
  - intros inp r w' <- [[Herr _]|(g & k1 & c & -> & Hk1 & Ho)]%Finalize_cases; [done|].
    rewrite Hk in Hk1. injection Hk1 as <-. by destruct (fo_status _ _ _ _ _ _ Ho).
  - intros inp r w' <- [[Hr _]|(k1 & t1 & _ & Hk1 & Hrel)]%Release_cases; [done|]. exfalso.
    apply update_token_cases in Hrel as [[_ [[=]|[? [=]]]]|(k2 & k3 & Hk2 & Hg & _)]. rewrite Hk in Hk2. injection Hk2 as <-.
    by apply holds_lease_redeeming in Hg.
  - intros inp r w' <- [_ [[? _]|(p & g & d & d' & -> & _ & Hd & Hfn & _)]]%withGatewayTx_cases; [by left|right].
    apply recover_tx_returns in Hfn as (Hp & Hm & _). rewrite Hd in Hp. exists p. split; [done|].
    apply certificateMatches_true in Hm as (_ & Htok & _). by apply Hrev.
Qed.

(** C18: After a re-enrollment commits, what the gateway held before is closed for
    good, in every later state. Its connections are superseded. With a token that
    was stored before, active, leased or already consumed, nobody gets a lease or
    a certificate: a redemption is refused or told the token is locked, and a
    consumed token's replay or recovery answers only a certificate that is
    revoked. A certificate stored before is not admitted by the private listener,
    and neither prepares nor finalizes a renewal. *)
Theorem reenroll_revokes_everything gatewayID tokenID token at_ audits w u w' w2 :
  et_GatewayID token = gatewayID -> relies lawful w -> credentials_wf (sh_rows w) ->
  Reenroll gatewayID tokenID token at_ audits w = (inr u, w') ->
  relies lawful w2 -> lawful (sh_rows w') (sh_rows w2) ->
  (forall c g, co_GatewayID c = gatewayID -> g_gateways (found w) !! gatewayID = Some g ->
     co_ConnectionEpoch c <= gw_ConnectionEpoch g -> superseded c (sh_rows w2)) /\
  (forall id k, g_tokens (found w) !! id = Some k -> et_GatewayID k = gatewayID ->
     (exists k', g_tokens (sh_rows w2) !! id = Some k' /\ live_token gatewayID k' = false) /\
     (forall inp r w3, aq_TokenID inp = id -> AcquireEnrollmentLease inp w2 = (r, w3) ->
        (exists err, r = inl err) \/ r = inr (MkAcquireResult dispositionRateLimited None) \/
        exists p, r = inr (MkAcquireResult dispositionReplay (Some p)) /\ gt_RevokedAt p.2 <> None) /\
     (forall inp r w3, fi_TokenID inp = id -> FinalizeEnrollmentIssuance inp w2 = (r, w3) -> exists err, r = inl err) /\
     (forall inp r w3, rl_TokenID inp = id -> ReleaseEnrollmentLease inp w2 = (r, w3) -> r <> inr true) /\
     (forall inp r w3, rc_TokenID inp = id -> RecoverEnrollmentIssuance inp w2 = (r, w3) ->
        (exists err, r = inl err) \/ exists p, r = inr p /\ gt_RevokedAt p.2 <> None)) /\
  (forall id c, g_certificates (found w) !! id = Some c -> gt_GatewayID c = gatewayID ->
     (forall now r w3, AuthorizeGatewayCertificate gatewayID (gt_SerialNumber c) (gt_Fingerprint c) now w2 = (r, w3) ->
        exists err, r = inl err) /\
     (forall inp r w3, nc_CertificateID (pr_Credential inp) = id -> PrepareRenewal inp w2 = (r, w3) ->
        exists err, r = inl err) /\
     (forall inp r w3, nc_CertificateID (fr_Credential inp) = id -> FinalizeRenewal inp w2 = (r, w3) ->
        exists err, r = inl err)).
Proof.
  intros Hgid Hrely Hw Hrun Hrely2 Hlater. destruct (relies_step lawful w _ Hrely) as [Hstep _]. fold (found w) in Hstep.
  destruct (lawful_grows _ _ Hw Hstep) as [Hw0 _].
  destruct (Reenroll_returns _ _ _ _ _ _ _ _ Hgid Hrely Hw Hrun) as (g & t4 & Hg & Hl & [Ho] & Hlaw4 & Hw4).
  destruct (relies_step lawful w2 _ Hrely2) as [Hstep2 _]. fold (found w2) in Hstep2.
  assert (H4 : lawful t4 (sh_rows w2)) by (etransitivity; eauto).
  assert (H4' : lawful t4 (found w2)) by (etransitivity; eauto).
  destruct (lawful_grows _ _ Hw4 H4) as [_ Hgr2]. destruct (lawful_grows _ _ Hw4 H4') as [Hwf2 Hgr2'].
  destruct (reenroll_outcome_effect _ _ _ _ _ _ (Build_reenroll_outcome _ _ _ _ _ _ Ho)) as (He & Hk & Hc).
  assert (Hrevoked : forall id c, g_certificates (found w) !! id = Some c -> gt_GatewayID c = gatewayID ->
    exists c2, g_certificates (found w2) !! id = Some c2 /\ gt_RevokedAt c2 <> None /\
      gt_Fingerprint c2 = gt_Fingerprint c /\ gt_EnrollmentTokenID c2 = gt_EnrollmentTokenID c).
  { intros id c Hc0 Hcg. destruct (Hc _ _ Hc0 Hcg) as (c4 & Hc4 & Hrev & Hfp & Htok).
    destruct (cg_certificates _ _ Hgr2' _ _ Hc4) as (c2 & Hc2 & Hcg2). exists c2. split; [done|].
    by destruct Hcg2 as [->|[Hn _]]. }
  split; [|split].
  - intros c g0 Hcg Hg0 Hle. destruct (He _ Hg0) as (g4 & Hg4 & Hep).
    apply (superseded_grows c t4); [apply (cg_registry _ _ Hgr2)|]. exists g4. rewrite Hcg. split; [done|]. left. lia.
  - intros id k Hk0 Hkg. destruct (Hk _ _ Hk0 Hkg) as (k4 & Hk4 & Hdead & Hcons). split.
    + destruct (cg_tokens _ _ Hgr2 _ _ Hk4) as (k' & Hk' & Htg). exists k'. split; [done|].
      rewrite (tg_terminal _ _ Htg); [|done]. unfold live_token. unfold live_status in Hdead.
      unfold tokenStatusActive, tokenStatusRedeeming in Hdead. by rewrite Hdead, andb_false_r.
    + apply retired_token_answers; [done|]. destruct (cg_tokens _ _ Hgr2' _ _ Hk4) as (k' & Hk' & Htg).
      rewrite (tg_terminal _ _ Htg) in Hk' by done. split; [by exists k4|]. intros p Hp Htok.
      destruct (su_consumed _ (cw_single_use _ Hwf2) _ _ _ Hp Htok) as (k2 & Hk2 & Hst & _).
      rewrite Hk' in Hk2. injection Hk2 as <-. specialize (Hcons Hst).
      destruct (su_issued _ (cw_single_use _ Hw0) _ _ Hk0 Hcons) as (cid & c & Hc0 & Hct).
      destruct (su_consumed _ (cw_single_use _ Hw0) _ _ _ Hc0 Hct) as (k0 & Hk0' & _ & Hgw).
      rewrite Hk0 in Hk0'. injection Hk0' as <-.
      destruct (Hrevoked cid c Hc0) as (c2 & Hc2 & Hr2 & _ & Ht2); [congruence|].
      assert (Heq : p.1 = cid) by (eapply (su_single _ (cw_single_use _ Hwf2)); [exact Hp|exact Hc2|exact Htok|congruence]).
      rewrite Heq, Hc2 in Hp. by injection Hp as <-.
  - intros id c Hc0 Hcg. destruct (Hrevoked _ _ Hc0 Hcg) as (c2 & Hc2 & Hr2 & Hf2 & _). split; [|split].
    + intros now r w3 Hauth. destruct (atomically_run _ _ _ _ Hauth) as (d' & Hd & _).
      apply query_row_run in Hd as [_ Hd]. fold (found w2) in Hd. destruct r as [err|p]; [by eexists|exfalso].
      unfold authorized_certificate in Hd. destruct (g_gateways (found w2) !! gatewayID) as [g2|]; [|done].
      destruct (not_disabled g2); [|done]. apply fmap_Some in Hd as (q & Hq & _).
      apply select_certificate_some in Hq as [Hq Hm]. unfold authorizing in Hm. to_prop.
      assert (Heq : q.1 = id).
      { apply (cn_unique _ (cw_constraints _ Hwf2) _ _ _ _ Hq Hc2). unfold certificates_clash.
        rewrite (bool_decide_true (gt_Fingerprint q.2 = gt_Fingerprint c2)) by congruence. by rewrite orb_true_r. }
      rewrite Heq, Hc2 in Hq. injection Hq as Hq. rewrite <- Hq in *. by destruct (gt_RevokedAt c2).
    + intros inp r w3 Hid Hren. destruct r as [err|p]; [by eexists|exfalso].
      apply PrepareRenewal_returns in Hren as [_ (c3 & Hc3 & _ & _ & _ & Hr3 & _)].
      rewrite Hid, Hc2 in Hc3. by injection Hc3 as <-.
    + intros inp r w3 Hid Hren. destruct r as [err|p]; [by eexists|exfalso].
      apply FinalizeRenewal_returns in Hren as [[_ (c3 & Hc3 & _ & _ & _ & Hr3 & _)] _].
      rewrite Hid, Hc2 in Hc3. by injection Hc3 as <-.
Qed.
(** *** Audit *)

(** The events an operation that returned must have recorded. *)
Definition op_audits (o : credential_op) (r : credential_reply) : list AuditEvent :=
  match o, r with
  | OpCreate _ _ _ _ _ audits, _ | OpReenroll _ _ _ _ audits, _ => audits
  | OpReplace _ _ _ audit _, _ | OpDrain _ _ audit, _ | OpResume _ _ audit, _ | OpDisable _ _ audit, _
  | OpReenable _ _ audit, _ | OpDelete _ _ _ audit, _ => [audit]
  | OpAcquire inp, Leased res =>
      if bool_decide (ar_Disposition res = dispositionAcquired) then [aq_StartedAudit inp] else []
  | OpFinalize inp, _ => [fi_SucceededAudit inp]
  | OpRelease inp, Released true => [rl_FailureAudit inp]
  | _, _ => []
  end.

(** A transaction that leaves nothing when it fails, and when it returns the
    events [audits] of its result. *)
Definition records {A} (m : M (shared gdb) A) (audits : A -> list AuditEvent) : Prop :=
  forall w r w', m w = (r, w') ->
    match r with
    | inl _ => sh_rows w' = found w \/ w' = w
    | inr a => forall e, e ∈ audits a -> e ∈ g_audit (sh_rows w')
    end.

Lemma records_map_err {A} f (m : M (shared gdb) A) audits : records m audits -> records (map_err f m) audits.
Proof.
  intros Hm w r w' Hrun. unfold map_err in Hrun. destruct (m w) as [r0 w0] eqn:Hmw. specialize (Hm _ _ _ Hmw).
  destruct r0; injection Hrun as <- <-; exact Hm.
Qed.

Lemma records_withTx {A} (fn : M (db gdb) A) audits :
  (forall d a d', fn d = (inr a, d') -> forall e, e ∈ audits a -> e ∈ g_audit (rows d')) -> records (withTx fn) audits.
Proof.
  intros Hfn w r w' Hrun. apply withTx_cases in Hrun as [_ [[[err ->] ?]|(a & d & d' & -> & _ & Hrun & ->)]]; [by left|].
  by eapply Hfn.
Qed.

Lemma records_withGatewayTx {A} id (fn : enrollmentTx -> M (db gdb) A) audits :
  (forall g d a d', fn (tx_of id g) d = (inr a, d') -> forall e, e ∈ audits a -> e ∈ g_audit (rows d')) ->
  records (withGatewayTx id fn) audits.
Proof.
  intros Hfn w r w' Hrun.
  apply withGatewayTx_cases in Hrun as [_ [[[err ->] ?]|(a & g & d & d' & -> & _ & _ & Hrun & ->)]]; [by left|].
  by eapply Hfn.
Qed.

Lemma records_withGateway {A} id (fn : string -> bool -> M (db gdb) A) audits :
  (forall status enrolled d a d', fn status enrolled d = (inr a, d') ->
     forall e, e ∈ audits a -> e ∈ g_audit (rows d')) ->
  records (withGateway id fn) audits.
Proof.
  intros Hfn w r w' Hrun.
  apply withGateway_cases in Hrun as [_ [[[err ->] ?]|(a & g & d & d' & -> & _ & _ & _ & Hrun & ->)]]; [by left|].
  by eapply Hfn.
Qed.

Lemma Append_records e d u d' : Append e d = (inr u, d') -> forall e', e' ∈ [e] -> e' ∈ g_audit (rows d').
Proof. intros [-> _]%audit_Append_returns e' He. cbn. apply elem_of_app. by right. Qed.

Lemma for_each_Append_keeps audits d u d' : for_each Append audits d = (inr u, d') ->
  forall e, e ∈ g_audit (rows d) \/ e ∈ audits -> e ∈ g_audit (rows d').
Proof.
  revert d. induction audits as [|e0 l IH]; intros d; cbn [for_each].
  - intros [= _ <-] e [?|[]%not_elem_of_nil]. done.
  - intros (u' & d1 & [Ha _]%audit_Append_returns & Hrun)%bind_returns e He. apply (IH _ Hrun). rewrite Ha. cbn.
    rewrite elem_of_app, list_elem_of_singleton. rewrite elem_of_cons in He. tauto.
Qed.

Lemma records_transition id audit fn : records (transition id audit fn) (fun _ => [audit]).
Proof.
  apply records_withGateway. intros status enrolled d u d' (u' & d1 & _ & Ha)%bind_returns. exact (Append_records _ _ _ _ Ha).
Qed.

Lemma records_ret {A} (m : M (shared gdb) A) (f : A -> credential_reply) o :
  records m (fun a => op_audits o (f a)) -> records (a ← m; mret (f a)) (op_audits o).
Proof.
  intros Hm w r w' Hrun. unfold mbind, M_bind in Hrun. destruct (m w) as [[err|a] w1] eqn:Hmw; injection Hrun as <- <-;
    exact (Hm _ _ _ Hmw).
Qed.

Lemma run_op_records o : records (run_op o) (op_audits o).
Proof.
  destruct o; cbn [run_op]; apply records_ret; try apply records_map_err; try apply records_transition.
  - apply records_withTx. intros d u d' (? & d1 & _ & Hrun)%bind_returns. apply bind_returns in Hrun as (? & d2 & _ & Ha).
    intros e He. apply (for_each_Append_keeps _ _ _ _ Ha). by right.
  - apply records_withGatewayTx. intros g d u d' Hrun. destruct (negb _); [discriminate|].
    apply bind_returns in Hrun as (? & d1 & _ & Hrun). apply bind_returns in Hrun as (? & d2 & _ & Ha).
    exact (Append_records _ _ _ _ Ha).
  - apply records_withGatewayTx. intros g d res d' (k & _ & _ & _ & Ho)%acquire_tx_returns; [|done].
    destruct Ho as [| | | |? ? ? ? ? ? ? ? ? locked|]; cbn [ar_Disposition op_audits]; try (intros e []%not_elem_of_nil);
      try (by destruct locked; intros e []%not_elem_of_nil).
    intros e He. cbn. apply elem_of_app. right. exact He.
  - apply records_withGatewayTx. intros g d c d' (k & _ & _ & _ & Ho)%finalize_tx_returns; [|done].
    destruct (fo_effect _ _ _ _ _ _ Ho) as (dup & t1 & t2 & t3 & _ & _ & _ & ->). intros e He. cbn. apply elem_of_app. by right.
  - apply records_withGatewayTx. intros g d b d' [[-> _]|(-> & k & t1 & _ & _ & _ & _ & ->)]%release_tx_returns; [| |done].
    + intros e []%not_elem_of_nil.
    + intros e He. cbn. apply elem_of_app. by right.
  - apply records_withGatewayTx. intros g d c d' _ e []%not_elem_of_nil.
  - apply records_withGatewayTx. intros g d c d' _ e []%not_elem_of_nil.
  - apply records_withGatewayTx. intros g d c d' _ e []%not_elem_of_nil.
  - apply records_withGateway. intros status enrolled d u d'. unfold reenroll_tx. destruct (_ || _); [discriminate|].
    intros (? & d1 & _ & Hrun)%bind_returns. apply bind_returns in Hrun as (? & d2 & _ & Hrun).
    apply bind_returns in Hrun as (? & d3 & _ & Hrun). apply bind_returns in Hrun as (? & d4 & _ & Ha).
    intros e He. apply (for_each_Append_keeps _ _ _ _ Ha). by right.
  - unfold Delete. destruct acknowledged; [|by intros w r w' [= <- <-]; right]. apply records_withGateway.
    intros status enrolled d u d'. unfold delete_tx. destruct (negb _); [discriminate|].
    intros (n & d1 & _ & Hrun)%bind_returns. destruct (negb _); [discriminate|].
    apply bind_returns in Hrun as (? & d2 & _ & Ha). exact (Append_records _ _ _ _ Ha).
Qed.

(** Every credential operation is one transaction with its audit events: when
    it fails the rows are as it found them, when it returns each event it owes is
    in the trail, and the trail never loses an event afterwards. *)
Theorem operations_are_audited ops o w r w1 rs w2 :
  op_ok o -> Forall op_ok ops -> relies lawful w -> credentials_wf (sh_rows w) ->
  run_op o w = (r, w1) -> run_ops ops w1 = (rs, w2) ->
  match r with
  | inl _ => sh_rows w1 = found w \/ w1 = w
  | inr reply => forall e, e ∈ op_audits o reply -> e ∈ g_audit (sh_rows w1) /\ e ∈ g_audit (sh_rows w2)
  end.
Proof.
  intros Hok Hops Hrely Hw Hrun Hrun2. pose proof (run_op_records o _ _ _ Hrun) as Hrec. destruct r as [err|reply]; [done|].
  intros e He. specialize (Hrec e He). split; [done|].
  destruct (run_op_lawful o Hok _ _ _ Hrun Hrely) as [Hlaw Hrely1]. destruct (lawful_grows _ _ Hw Hlaw) as [Hw1 _].
  destruct (run_ops_lawful _ _ _ _ Hops Hrun2 Hrely1) as [Hlaw2 _]. destruct (lawful_grows _ _ Hw1 Hlaw2) as [_ Hg].
  destruct (cg_audit _ _ Hg) as [l ->]. apply elem_of_app. by left.
Qed.
End Histories.

(** ** Concrete runs *)

#[export] Instance demo_audit : AuditLib := {|
  quote_key s := s;
  normalize_key := ascii_normalize;
  normalize_key_ascii _ _ := eq_refl;
  json_Marshal_size _ := inr 2;
|}.

Definition empty_tables : gdb := MkGdb ∅ ∅ ∅ [] ∅ ∅ [] (MkEventTables ∅ [] 0 ∅).
Definition handle (t : gdb) : shared gdb := MkShared (Db t []) [].

Definition demo_event (id action : string) : AuditEvent :=
  MkAuditEvent id None "gateway" (Some "g1") action "gateway" (Some "g1") "success" None []
    [("gateway_id", JStr "g1")] 1.
Definition demo_hash (b : byte) : bytes := repeat b 32.
Definition demo_nonce (b : byte) : bytes := repeat b 16.
Definition demo_token (b : byte) (maxAttempts createdAt : Z) : EnrollmentToken :=
  MkEnrollmentToken "g1" (demo_hash b) "qwg_enroll_v1_01" "" 0 maxAttempts (createdAt + 900) "u1" [] [] None None None None
    createdAt createdAt.
Definition demo_create (maxAttempts : Z) : credential_op :=
  OpCreate (MkNewGateway "g1" None None 1 1) None "u1" "k1" (demo_token "001"%byte maxAttempts 1) [demo_event "a1" "created"].
Definition demo_acquire (auditID : string) (nonce csr : byte) (now : Z) : AcquireEnrollmentLeaseInput :=
  MkAcquireInput "g1" "k1" (demo_hash "001") (demo_hash csr) (demo_nonce nonce) now (now + 60) true
    (demo_event auditID "started").
Definition demo_certificate : certificate :=
  ("c1", MkGatewayCertificate "g1" "ca" "enrollment" (Some "k1") (demo_hash "003") "77" "PEM" "BUNDLE" (demo_hash "004")
           5 2000 None None 20).
Definition demo_finalize : FinalizeEnrollmentIssuanceInput :=
  MkFinalizeInput "g1" "k1" (demo_hash "001") (demo_nonce "002") (demo_hash "003") 20 demo_certificate
    (demo_event "a3" "succeeded").
Definition demo_enrolled_ops : list credential_op :=
  [demo_create 5; OpAcquire (demo_acquire "a2" "002" "003" 10); OpFinalize demo_finalize].
Definition demo_start : shared gdb := handle empty_tables.
Definition demo_leased : shared gdb := (run_ops (take 2 demo_enrolled_ops) demo_start).2.
Definition demo_enrolled : shared gdb := (run_ops demo_enrolled_ops demo_start).2.

Lemma empty_wf : credentials_wf empty_tables.
Proof. split; [split|split|]; intros *; cbn; rewrite ?lookup_empty; discriminate. Qed.

Lemma handle_relies t : relies lawful (handle t).
Proof. constructor. Qed.

(** What a history from the empty tables reaches. *)
Lemma demo_reach ops : Forall op_ok ops ->
  credentials_wf (sh_rows (run_ops ops demo_start).2) /\ relies lawful (run_ops ops demo_start).2.
Proof.
  intros Hok. destruct (run_ops ops demo_start) as [rs w'] eqn:Hrun. cbn.
  destruct (run_ops_lawful ops _ _ _ Hok Hrun (handle_relies _)) as [Hlaw Hrely].
  split; [|exact Hrely]. exact (proj1 (lawful_grows _ _ empty_wf Hlaw)).
Qed.

Lemma demo_ops_ok : Forall op_ok demo_enrolled_ops.
Proof. repeat constructor. Qed.

Example demo_enrolls : (run_ops demo_enrolled_ops demo_start).1 =
  [inr Done; inr (Leased (MkAcquireResult dispositionAcquired None)); inr (Issued demo_certificate)].
Proof. vm_compute. reflexivity. Qed.

Lemma run_eq {A} (ops : list credential_op) (w : shared gdb) (P : A) :
  run_ops ops w = ((run_ops ops w).1, (run_ops ops w).2).
Proof. by destruct (run_ops ops w). Qed.

Definition demo_admin (id action : string) : AuditEvent := demo_event id action.
Definition demo_disabled_ops : list credential_op :=
  demo_enrolled_ops ++ [OpDisable "g1" 30 (demo_admin "a4" "disabled")].
Definition demo_reenroll : credential_op :=
  OpReenroll "g1" "k2" (demo_token "005" 5 40) 40 [demo_admin "a5" "reenrolled"; demo_admin "a6" "issued"].

Lemma credentials_stay_wellformed_witness :
  exists rs w', run_ops (demo_disabled_ops ++ [demo_reenroll]) demo_start = (rs, w') /\
    Forall (fun r => match r with inr _ => True | inl _ => False end) rs /\
    credentials_wf (sh_rows w') /\ credentials_grow (sh_rows demo_start) (sh_rows w').
Proof.
  exists (run_ops (demo_disabled_ops ++ [demo_reenroll]) demo_start).1, (run_ops (demo_disabled_ops ++ [demo_reenroll]) demo_start).2.
  split; [apply (run_eq _ _ tt)|]. split; [vm_compute; repeat constructor|].
  exact (credentials_stay_wellformed (demo_disabled_ops ++ [demo_reenroll]) demo_start _ _
           ltac:(repeat constructor) (handle_relies _) empty_wf (run_eq _ _ tt)).
Defined.

(** Two attempts: one is granted and released, one is granted, a third request
    locks the token. *)
Definition demo_attempts : list credential_op :=
  [OpAcquire (demo_acquire "a2" "002" "003" 10);
   OpRelease (MkReleaseInput "g1" "k1" (demo_hash "001") (demo_nonce "002") (demo_hash "003") 11 (demo_event "a3" "failed"));
   OpAcquire (demo_acquire "a4" "006" "003" 12); OpAcquire (demo_acquire "a5" "007" "003" 13)].
Definition demo_created : shared gdb := (run_ops [demo_create 2] demo_start).2.

Lemma demo_created_ok : credentials_wf (sh_rows demo_created) /\ relies lawful demo_created.
Proof. apply (demo_reach [demo_create 2]). repeat constructor. Qed.

Lemma attempts_are_bounded_witness :
  exists k, g_tokens (sh_rows demo_created) !! "k1" = Some k /\
    Z.of_nat (length (filter (fun p => spends "k1" p = true) (zip demo_attempts (run_ops demo_attempts demo_created).1))) = 2 /\
    Z.of_nat (length (filter (fun p => spends "k1" p = true) (zip demo_attempts (run_ops demo_attempts demo_created).1)))
      <= et_MaxAttempts k - et_AttemptCount k.
Proof.
  eexists. split; [vm_compute; reflexivity|]. split; [vm_compute; reflexivity|].
  exact (attempts_are_bounded demo_attempts demo_created _ (run_ops demo_attempts demo_created).2 "k1" _
           ltac:(repeat constructor) (proj2 demo_created_ok) (proj1 demo_created_ok)
           ltac:(vm_compute; reflexivity) (run_eq _ _ tt)).
Defined.

Definition demo_later : list credential_op :=
  [OpAcquire (demo_acquire "a7" "006" "003" 30); OpFinalize demo_finalize; OpAcquire (demo_acquire "a8" "006" "009" 31)].

Lemma demo_leased_ok : credentials_wf (sh_rows demo_leased) /\ relies lawful demo_leased.
Proof. apply (demo_reach (take 2 demo_enrolled_ops)). repeat constructor. Qed.

Definition demo_issued : shared gdb := (FinalizeEnrollmentIssuance demo_finalize demo_leased).2.

Lemma token_is_single_use_witness :
  issued_as "k1" demo_certificate (sh_rows demo_issued) /\
  Forall (answers_issued "k1" demo_certificate) (zip demo_later (run_ops demo_later demo_issued).1) /\
  (run_ops demo_later demo_issued).1 =
    [inr (Leased (MkAcquireResult dispositionReplay (Some demo_certificate))); inl ErrEnrollmentState; inl ErrEnrollmentState].
Proof.
  assert (Hrun : FinalizeEnrollmentIssuance demo_finalize demo_leased = (inr demo_certificate, demo_issued))
    by (vm_compute; reflexivity).
  destruct (token_is_single_use demo_finalize demo_leased demo_certificate demo_issued demo_later _ _
              (conj eq_refl eq_refl) (proj2 demo_leased_ok) (proj1 demo_leased_ok) Hrun
              ltac:(repeat constructor) (run_eq _ _ tt)) as (_ & Hiss & _ & _ & Hall).
  split; [exact Hiss|]. split; [exact Hall|]. vm_compute. reflexivity.
Defined.

Lemma running_lease_excludes_others_witness :
  sh_rows (AcquireEnrollmentLease (demo_acquire "a9" "006" "003" 20) demo_leased).2 = found demo_leased /\
  (AcquireEnrollmentLease (demo_acquire "a9" "006" "003" 20) demo_leased).1 = inr (MkAcquireResult dispositionInProgress None).
Proof.
  assert (Hr : (AcquireEnrollmentLease (demo_acquire "a9" "006" "003" 20) demo_leased).1
      = inr (MkAcquireResult dispositionInProgress None)) by (vm_compute; reflexivity).
  assert (Hkv : exists k, g_tokens (found demo_leased) !! "k1" = Some k /\ et_Status k = tokenStatusRedeeming /\
      et_LeaseExpiresAt k = Some 70 /\ et_AttemptCount k < et_MaxAttempts k)
    by (eexists; split; [vm_compute; reflexivity|repeat split]).
  destruct Hkv as (k & Hk & Hst & Hl & Hm).
  destruct (running_lease_excludes_others demo_leased "k1" k 70 Hk Hst Hl Hm) as (Hacq & _ & _).
  destruct (Hacq (demo_acquire "a9" "006" "003" 20) _ _ eq_refl eq_refl (surjective_pairing _)) as [Hrows [[err Herr]|[_ _]]].
  - exfalso. congruence.
  - by split.
Defined.

(** A token of one attempt, leased for its first redemption. *)
Definition demo_last : gdb := sh_rows (run_ops [demo_create 1; OpAcquire (demo_acquire "a2" "002" "003" 10)] demo_start).2.

Lemma last_attempt_is_locked_out_witness :
  exists w', AcquireEnrollmentLease (demo_acquire "a9" "006" "003" 20) (handle demo_last)
      = (inr (MkAcquireResult dispositionRateLimited None), w') /\
    forall fin r w'', fi_TokenID fin = "k1" -> FinalizeEnrollmentIssuance fin w' = (r, w'') -> exists err, r = inl err.
Proof.
  destruct (g_tokens demo_last !! "k1") as [k|] eqn:Hk; [|vm_compute in Hk; discriminate].
  destruct (g_gateways demo_last !! "g1") as [g|] eqn:Hg; [|vm_compute in Hg; discriminate].
  assert (Hk2 := Hk). vm_compute in Hk2. injection Hk2 as Hk2.
  apply (last_attempt_is_locked_out (demo_acquire "a9" "006" "003" 20) demo_last k g Hg Hk); rewrite <- Hk2; vm_compute; reflexivity.
Defined.

(** The one attempt is spent, the next request locks the token, and only then the
    disabled gateway can be deleted. *)
Definition demo_locked_ops : list credential_op :=
  [demo_create 1; OpAcquire (demo_acquire "a2" "002" "003" 10); OpAcquire (demo_acquire "a3" "006" "003" 20);
   OpDisable "g1" 30 (demo_admin "a4" "disabled")].
Definition demo_locked : shared gdb := (run_ops demo_locked_ops demo_start).2.

Lemma demo_locked_ok : credentials_wf (sh_rows demo_locked) /\ relies lawful demo_locked.
Proof. apply (demo_reach demo_locked_ops). repeat constructor. Qed.

Definition demo_deleted : shared gdb := (Delete "g1" true 40 (demo_admin "a5" "deleted") demo_locked).2.

Lemma delete_needs_a_locked_token_witness :
  Delete "g1" true 40 (demo_admin "a5" "deleted") demo_locked = (inr tt, demo_deleted) /\
  exists tid k, g_tokens (sh_rows demo_deleted) !! tid = Some k /\ et_GatewayID k = "g1" /\ et_Status k = tokenStatusLocked.
Proof.
  assert (Hrun : Delete "g1" true 40 (demo_admin "a5" "deleted") demo_locked = (inr tt, demo_deleted))
    by (vm_compute; reflexivity).
  split; [exact Hrun|].
  destruct (delete_needs_a_locked_token "g1" true 40 (demo_admin "a5" "deleted") demo_locked tt _
              (proj2 demo_locked_ok) (proj1 demo_locked_ok) Hrun) as (_ & _ & _ & _ & _ & _ & Hlocked).
  exact Hlocked.
Defined.

(** An expired token keeps a gateway that never enrolled from being deleted. *)
Example delete_refused_on_expired_token :
  (run_ops [demo_create 5; OpDisable "g1" 5000 (demo_admin "a4" "disabled"); OpDelete "g1" true 6000 (demo_admin "a5" "deleted")]
     demo_start).1 = [inr Done; inr Done; inl ErrGatewayAdminState].
Proof. vm_compute. reflexivity. Qed.

Definition demo_renewed : certificate :=
  ("c2", MkGatewayCertificate "g1" "ca" "renewal" None (demo_hash "010") "78" "PEM2" "BUNDLE" (demo_hash "011")
           25 3000 None None 30).
Definition demo_renewal : FinalizeRenewalInput :=
  MkFinalizeRenewalInput (MkRenewalCredential "g1" "c1" "77" (demo_hash "004")) (demo_hash "010") 30 demo_renewed
    (demo_event "b1" "renewed").

Lemma demo_enrolled_ok : credentials_wf (sh_rows demo_enrolled) /\ relies lawful demo_enrolled.
Proof. apply (demo_reach demo_enrolled_ops). repeat constructor. Qed.

Lemma renewal_is_authorized_and_exact_witness :
  live_incumbent (fr_Credential demo_renewal) 30 (found demo_enrolled) /\
  renewed_as "g1" (demo_hash "010") demo_renewed (sh_rows (FinalizeRenewal demo_renewal demo_enrolled).2).
Proof.
  assert (Hrun : FinalizeRenewal demo_renewal demo_enrolled
    = (inr demo_renewed, (FinalizeRenewal demo_renewal demo_enrolled).2)) by (vm_compute; reflexivity).
  destruct (renewal_is_authorized_and_exact demo_renewal demo_enrolled demo_renewed _ eq_refl
              (proj2 demo_enrolled_ok) (proj1 demo_enrolled_ok) Hrun) as (Hinc & _ & Hst & _).
  by split.
Defined.

Definition demo_disabled : shared gdb := (run_ops demo_disabled_ops demo_start).2.

Lemma demo_disabled_ok : credentials_wf (sh_rows demo_disabled) /\ relies lawful demo_disabled.
Proof. apply (demo_reach demo_disabled_ops). repeat constructor. Qed.

Definition demo_reenrolled : shared gdb :=
  (Reenroll "g1" "k2" (demo_token "005" 5 40) 40 [demo_admin "a5" "reenrolled"; demo_admin "a6" "issued"] demo_disabled).2.

Lemma reenroll_revokes_everything_witness :
  superseded (MkGatewayConnection "g1" 1) (sh_rows demo_reenrolled) /\
  forall now r w3, AuthorizeGatewayCertificate "g1" "77" (demo_hash "004") now demo_reenrolled = (r, w3) -> exists err, r = inl err.
Proof.
  assert (Hrun : Reenroll "g1" "k2" (demo_token "005" 5 40) 40 [demo_admin "a5" "reenrolled"; demo_admin "a6" "issued"] demo_disabled
    = (inr tt, demo_reenrolled)) by (vm_compute; reflexivity).
  assert (Hrely2 : relies lawful demo_reenrolled) by (vm_compute; constructor).
  assert (Hc : g_certificates (found demo_disabled) !! "c1" = Some demo_certificate.2) by (vm_compute; reflexivity).
  assert (Hgw : exists g, g_gateways (found demo_disabled) !! "g1" = Some g /\ 1 <= gw_ConnectionEpoch g)
    by (eexists; split; [vm_compute; reflexivity|vm_compute; discriminate]).
  destruct Hgw as (g & Hg & Hep).
  destruct (reenroll_revokes_everything "g1" "k2" (demo_token "005" 5 40) 40 _ demo_disabled tt demo_reenrolled demo_reenrolled eq_refl
              (proj2 demo_disabled_ok) (proj1 demo_disabled_ok) Hrun Hrely2 (reflexivity _)) as (Hsup & _ & Hcert).
  split.
  - exact (Hsup (MkGatewayConnection "g1" 1) g eq_refl Hg Hep).
  - exact (proj1 (Hcert "c1" demo_certificate.2 Hc eq_refl)).
Defined.

Lemma operations_are_audited_witness :
  demo_admin "a4" "disabled" ∈ g_audit (sh_rows (run_ops [demo_reenroll] demo_disabled).2).
Proof.
  assert (Hrun : run_op (OpDisable "g1" 30 (demo_admin "a4" "disabled")) demo_enrolled = (inr Done, demo_disabled))
    by (vm_compute; reflexivity).
  apply (operations_are_audited [demo_reenroll] (OpDisable "g1" 30 (demo_admin "a4" "disabled")) demo_enrolled (inr Done)
           demo_disabled _ _ I ltac:(repeat constructor) (proj2 demo_enrolled_ok) (proj1 demo_enrolled_ok) Hrun (run_eq _ _ tt)).
  by apply list_elem_of_singleton.
Defined.

(** *** What the runs show beside the theorems *)

(** The certificate a re-enrollment revoked is still the answer to its consumed
    token. *)
Definition demo_second : list credential_op :=
  [OpAcquire (MkAcquireInput "g1" "k2" (demo_hash "005") (demo_hash "013") (demo_nonce "002") 50 110 true (demo_event "a7" "started"));
   OpFinalize (MkFinalizeInput "g1" "k2" (demo_hash "005") (demo_nonce "002") (demo_hash "013") 60
     ("c3", MkGatewayCertificate "g1" "ca" "enrollment" (Some "k2") (demo_hash "013") "79" "PEM3" "BUNDLE" (demo_hash "014")
              45 2000 None None 60) (demo_event "a8" "succeeded"));
   OpAcquire (demo_acquire "a9" "002" "003" 70)].

Example revoked_certificate_is_replayed :
  let rs := (run_ops (demo_disabled_ops ++ [demo_reenroll] ++ demo_second) demo_start).1 in
  last rs = Some (inr (Leased (MkAcquireResult dispositionReplay
    (Some ("c1", revoke_certificate 40 "re_enrollment" demo_certificate.2))))).
Proof. vm_compute. reflexivity. Qed.

(** Disabled and enabled again after a re-enrollment, the gateway is joining with
    no certificate, and its new token can no longer be finalized. *)
Example reenable_strands_reenrollment :
  let rs := (run_ops (demo_disabled_ops ++ [demo_reenroll; OpDisable "g1" 42 (demo_admin "b1" "disabled");
    OpReenable "g1" 43 (demo_admin "b2" "reenabled")] ++ take 2 demo_second) demo_start).1 in
  drop 5 rs = [inr Done; inr Done; inr (Leased (MkAcquireResult dispositionAcquired None)); inl ErrEnrollmentState].
Proof. vm_compute. reflexivity. Qed.
