(* ===== verification/Concurrency.v ===== *)
(** Goroutines: programs cut at their atomic actions, systems of threads that
    interleave them, and a rely/guarantee logic for the invariants of every
    interleaving. A handler that several goroutines run at once is written as a
    [proc]; each access to shared memory, the database or a collaborator is one
    [Atomic] action. *)
From stdpp Require Import base gmap list option strings.
From Stdlib Require Import Lia.
From S2P Require Import Prelude.

(** ** Programs

    [Return] is a finished call [(A, error)]; [Atomic m k] performs [m] in one
    step, or waits while [m] answers [None]; [Select p q] is a [select] over two
    ready or blocked communications. *)
Inductive proc (W A : Type) : Type :=
  | Return (r : goerr + A)
  | Atomic (B : Type) (m : W -> option (B * W)) (k : B -> proc W A)
  | Select (p q : proc W A).
Arguments Return {W A} r.
Arguments Atomic {W A B} m k.
Arguments Select {W A} p q.

(** Run [p] to its result, error included, and go on. *)
Fixpoint pthen {W A B} (p : proc W A) (k : goerr + A -> proc W B) : proc W B :=
  match p with
  | Return r => k r
  | Atomic m c => Atomic m (fun b => pthen (c b) k)
  | Select p q => Select (pthen p k) (pthen q k)
  end.

#[export] Instance proc_ret W : MRet (proc W) := fun A a => Return (inr a).
#[export] Instance proc_bind W : MBind (proc W) := fun A B k p =>
  pthen p (fun r => match r with inl e => Return (inl e) | inr a => k a end).

Definition pthrow {W A} (e : goerr) : proc W A := Return (inl e).

(** One action that may fail, and a wait for a condition. *)
Definition act {W A} (m : M W A) : proc W A := Atomic (fun w => Some (m w)) Return.
Definition await {W A} (f : W -> option (goerr + A)) : proc W A :=
  Atomic (fun w => (fun r => (r, w)) <$> f w) Return.

(** [defer cleanup]: it runs with the result of [p], on every return path. *)
Definition finally {W A} (p : proc W A) (cleanup : goerr + A -> proc W unit) : proc W A :=
  pthen p (fun r => pthen (cleanup r) (fun _ => Return r)).

(** [v, err := p]. *)
Definition ptry {W A} (p : proc W A) : proc W (goerr + A) := pthen p (fun r => Return (inr r)).
Definition pmap_err {W A} (f : goerr -> goerr) (p : proc W A) : proc W A :=
  pthen p (fun r => Return (match r with inl e => inl (f e) | inr a => inr a end)).
Definition pmap {W A B} (f : A -> B) (p : proc W A) : proc W B :=
  pthen p (fun r => Return (match r with inl e => inl e | inr a => inr (f a) end)).

(** ** Steps

    [advance left p w]: the next atomic step of [p]; [left] resolves a [select]. *)
Fixpoint advance {W A} (left : bool) (p : proc W A) (w : W) : option (proc W A * W) :=
  match p with
  | Return _ => None
  | Atomic m k => '(b, w') ← m w; Some (k b, w')
  | Select p q => if left then advance left p w else advance left q w
  end.

Definition result {W A} (p : proc W A) : option (goerr + A) :=
  match p with Return r => Some r | _ => None end.

(** [p] running alone for at most [fuel] steps. *)
Fixpoint run_alone {W A} (fuel : nat) (left : bool) (p : proc W A) (w : W)
  : option ((goerr + A) * W) :=
  match fuel, p with
  | _, Return r => Some (r, w)
  | O, _ => None
  | S n, p => '(p', w') ← advance left p w; run_alone n left p' w'
  end.

Record system (W A : Type) := MkSystem { sy_world : W; sy_threads : gmap nat (proc W A) }.
Arguments MkSystem {W A} _ _.
Arguments sy_world {W A} _.
Arguments sy_threads {W A} _.

(** Thread [t] takes one step. *)
Definition step_thread {W A} (t : nat) (left : bool) (s : system W A) : option (system W A) :=
  p ← sy_threads s !! t;
  '(p', w') ← advance left p (sy_world s);
  Some (MkSystem w' (<[t := p']> (sy_threads s))).


(** Thread steps, in the order of a schedule. *)
Fixpoint run_threads {W A} (sched : list (nat * bool)) (s : system W A) : option (system W A) :=
  match sched with
  | [] => Some s
  | (t, side) :: rest => s' ← step_thread t side s; run_threads rest s'
  end.

(** ** Equivalence: the same actions in the same order, whatever they answer *)

Fixpoint proc_eq {W A} (p q : proc W A) : Prop :=
  match p with
  | Return r => q = Return r
  | Atomic m k => exists k', q = Atomic m k' /\ forall b, proc_eq (k b) (k' b)
  | Select p1 p2 => exists q1 q2, q = Select q1 q2 /\ proc_eq p1 q1 /\ proc_eq p2 q2
  end.
#[export] Instance proc_equiv W A : Equiv (proc W A) := proc_eq.

#[export] Instance proc_equivalence W A : Equivalence (≡@{proc W A}).
Proof.
  split.
  - intros p. induction p as [r|B m k IH|p IHp q IHq]; [done| |by exists p, q]. by exists k.
  - intros p. induction p as [r|B m k IH|p IHp q IHq]; intros p'; cbn.
    + by intros ->.
    + intros (k' & -> & Hk). exists k. split; [done|]. intros b. by apply IH.
    + intros (q1 & q2 & -> & H1 & H2). exists p, q. split; [done|]. split; [by apply IHp|by apply IHq].
  - intros p. induction p as [r|B m k IH|p IHp q IHq]; intros p' p''; cbn.
    + by intros ->.
    + intros (k' & -> & Hk) (k'' & -> & Hk'). exists k''. split; [done|]. intros b. exact (IH b _ _ (Hk b) (Hk' b)).
    + intros (q1 & q2 & -> & H1 & H2) (r1 & r2 & -> & H1' & H2'). exists r1, r2. split; [done|].
      split; [exact (IHp _ _ H1 H1')|exact (IHq _ _ H2 H2')].
Qed.

#[export] Instance pthen_proper {W A B} :
  Proper ((≡) ==> pointwise_relation _ (≡) ==> (≡)) (@pthen W A B).
Proof.
  intros p. induction p as [r|X m c IH|p IHp q IHq]; intros p' Hp k k' Hk; cbn in Hp.
  - rewrite Hp. apply Hk.
  - destruct Hp as (c' & -> & Hc). exists (fun b => pthen (c' b) k'). split; [done|]. intros b. by apply IH.
  - destruct Hp as (q1 & q2 & -> & H1 & H2). exists (pthen q1 k'), (pthen q2 k'). split; [done|].
    split; [by apply IHp|by apply IHq].
Qed.

Lemma pthen_congr_l {W A B} (p q : proc W A) (k : goerr + A -> proc W B) : p ≡ q -> pthen p k ≡ pthen q k.
Proof. intros Hpq. apply pthen_proper; [done|]. intros r. reflexivity. Qed.

Lemma pthen_assoc {W A B C} (p : proc W A) (k : goerr + A -> proc W B) (l : goerr + B -> proc W C) :
  pthen (pthen p k) l ≡ pthen p (fun r => pthen (k r) l).
Proof.
  induction p as [r|X m c IH|p IHp q IHq]; cbn; [reflexivity| |].
  - eexists. split; [reflexivity|]. exact IH.
  - eexists _, _. split; [reflexivity|]. by split.
Qed.

Lemma pthen_return {W A} (p : proc W A) : pthen p Return ≡ p.
Proof.
  induction p as [r|X m c IH|p IHp q IHq]; cbn; [reflexivity| |].
  - eexists. split; [reflexivity|]. exact IH.
  - eexists _, _. split; [reflexivity|]. by split.
Qed.

(** Equivalent programs take the same steps. *)
Lemma advance_equiv {W A} left (p q : proc W A) w : p ≡ q ->
  match advance left p w, advance left q w with
  | Some (p', w'), Some (q', w'') => p' ≡ q' /\ w' = w''
  | None, None => True
  | _, _ => False
  end.
Proof.
  revert q. induction p as [r|B m k IH|p1 IH1 p2 IH2]; intros q; cbn.
  - by intros ->.
  - intros (k' & -> & Hk). cbn. destruct (m w) as [[b w']|]; cbn; [|done]. split; [apply Hk|done].
  - intros (q1 & q2 & -> & H1 & H2). cbn. destruct left; [by apply IH1|by apply IH2].
Qed.

Lemma run_alone_equiv {W A} n left (p q : proc W A) w : p ≡ q -> run_alone n left p w = run_alone n left q w.
Proof.
  revert p q w. induction n as [|n IH]; intros p q w Hpq; pose proof (advance_equiv left p q w Hpq) as Ha.
  - destruct p; cbn in Hpq; [by rewrite Hpq|by destruct Hpq as (k' & -> & _)|by destruct Hpq as (q1 & q2 & -> & _)].
  - destruct p as [r|B m k|p1 p2]; cbn in Hpq; [by rewrite Hpq|destruct Hpq as (k' & -> & Hk)|destruct Hpq as (q1 & q2 & -> & H1 & H2)];
      cbn [run_alone]; revert Ha; generalize (advance left (W:=W) (A:=A)); intros adv;
      repeat match goal with |- context [adv ?x w] => generalize (adv x w); intros [[? ?]|] end; try done;
      intros [Hp ->]; by apply IH.
Qed.

(** ** Bounded programs: at most [n] steps, whatever the actions answer. *)
Fixpoint bounded {W A} (n : nat) (p : proc W A) : Prop :=
  match p with
  | Return _ => True
  | Atomic m k => match n with O => False | S n => forall b, bounded n (k b) end
  | Select p q => bounded n p /\ bounded n q
  end.

Lemma bounded_mono {W A} n m (p : proc W A) : (n <= m)%nat -> bounded n p -> bounded m p.
Proof.
  revert n m. induction p as [r|B a k IH|p IHp q IHq]; intros n m Hle; cbn; [done| |].
  - destruct n as [|n]; [done|]. destruct m as [|m]; [lia|]. intros Hb b. by apply (IH b n); [lia|].
  - intros [Hp Hq]. split; [by apply (IHp n)|by apply (IHq n)].
Qed.

Lemma bounded_then {W A B} n m (p : proc W A) (k : goerr + A -> proc W B) :
  bounded n p -> (forall r, bounded m (k r)) -> bounded (n + m) (pthen p k).
Proof.
  revert n. induction p as [r|X a c IH|p IHp q IHq]; intros n; cbn; intros Hp Hk.
  - apply (bounded_mono m); [lia|apply Hk].
  - destruct n as [|n]; [done|]. cbn. intros b. by apply IH.
  - destruct Hp. split; auto.
Qed.

Lemma bounded_bind {W A B} n m (p : proc W A) (k : A -> proc W B) :
  bounded n p -> (forall a, bounded m (k a)) -> bounded (n + m) (p ≫= k).
Proof. intros Hp Hk. apply bounded_then; [done|]. intros [e|a]; [done|apply Hk]. Qed.

Lemma bounded_advance {W A} n left (p p' : proc W A) w w' :
  bounded n p -> advance left p w = Some (p', w') -> exists m, n = S m /\ bounded m p'.
Proof.
  induction p as [r|X a c IH|p IHp q IHq]; cbn; intros Hb Hadv; [discriminate| |].
  - destruct n as [|n]; [done|]. destruct (a w) as [[b w1]|]; [|discriminate]. injection Hadv as <- <-. by exists n.
  - destruct Hb. destruct left; auto.
Qed.

(** Each thread of a bounded program takes at most its bound of steps. *)
Lemma run_threads_bounded {W A} sched (s s' : system W A) t p n :
  run_threads sched s = Some s' -> sy_threads s !! t = Some p -> bounded n p ->
  (length (filter (fun x => x.1 = t) sched) <= n)%nat.
Proof.
  revert s p n. induction sched as [|[u side] sched IH]; intros s p n Hrun Hp Hb; [cbn; lia|].
  cbn in Hrun. apply bind_Some in Hrun as (s1 & Hstep & Hrun). unfold step_thread in Hstep.
  apply bind_Some in Hstep as (q & Hq & ([q' w'] & Hadv & [= <-])%bind_Some).
  rewrite filter_cons. cbn [fst]. destruct (decide (u = t)) as [->|Hne]; cbn [length].
  - rewrite Hp in Hq. injection Hq as <-. destruct (bounded_advance _ _ _ _ _ _ Hb Hadv) as (m & -> & Hb').
    apply le_n_S. eapply IH; [exact Hrun| |exact Hb']. apply lookup_insert_eq.
  - eapply IH; [exact Hrun| |exact Hb]. cbn. by rewrite lookup_insert_ne.
Qed.

(** ** Rely and guarantee

    [Inv] is an invariant of the world, [guar t] what a step of thread [t] may do
    to it and [env] what the rest of the process may do. A thread is verified
    against the steps of all others by [pspec], an assertion at every atomic
    action, each stable under those steps; it may wait only where [block] holds,
    the second alternative of a [select] aside ([free]). *)
Section RelyGuarantee.
Context {W A : Type} (Inv : W -> Prop) (guar : nat -> W -> W -> Prop) (env : W -> W -> Prop)
  (block : nat -> W -> Prop).

Definition rely (t : nat) (w w' : W) : Prop := env w w' \/ exists u, u <> t /\ guar u w w'.

Definition stable (t : nat) (P : W -> Prop) : Prop :=
  forall w w', Inv w -> Inv w' -> rely t w w' -> P w -> P w'.

Fixpoint pspec_at {B} (free : bool) (t : nat) (p : proc W B) (P : W -> Prop) (Q : goerr + B -> W -> Prop) : Prop :=
  match p with
  | Return r => forall w, Inv w -> P w -> Q r w
  | Atomic m k => exists R,
      (forall w b w', Inv w -> P w -> m w = Some (b, w') -> guar t w w' /\ Inv w' /\ R b w') /\
      (free = false -> forall w, Inv w -> P w -> m w = None -> block t w) /\
      (forall b, stable t (R b)) /\ forall b, pspec_at false t (k b) (R b) Q
  | Select p q => result p = None /\ pspec_at free t p P Q /\ pspec_at true t q P Q
  end.

Definition pspec {B} := @pspec_at B false.

Lemma pspec_free {B} free t (p : proc W B) P Q : pspec t p P Q -> pspec_at free t p P Q.
Proof.
  unfold pspec. revert free. induction p as [r|X m k IH|p IHp q IHq]; cbn; intros free Hp; [done| |].
  - destruct Hp as (R & Hm & Hb & Hst & Hk). exists R. auto.
  - destruct Hp as (Hr & Hp & Hq). auto.
Qed.

Lemma pspec_at_pre {B} free t (p : proc W B) P P' Q :
  pspec_at free t p P Q -> (forall w, Inv w -> P' w -> P w) -> pspec_at free t p P' Q.
Proof.
  revert free. induction p as [r|X m k IH|p IHp q IHq]; cbn; intros free Hp HP.
  - intros w Hi Hw. by apply Hp; [|apply HP].
  - destruct Hp as (R & Hm & Hb & Hst & Hk). exists R. split; [|split; [|by split]].
    + intros w b w' Hi Hw. by apply Hm; [|apply HP].
    + intros Hfree w Hi Hw. by apply Hb; [|auto|apply HP].
  - destruct Hp as (Hr & Hp & Hq). split; [done|]. split; [by apply IHp|by apply IHq].
Qed.

Lemma pspec_pre {B} t (p : proc W B) P P' Q :
  pspec t p P Q -> (forall w, Inv w -> P' w -> P w) -> pspec t p P' Q.
Proof. apply pspec_at_pre. Qed.

Lemma stable_and t (P Q : W -> Prop) : stable t P -> stable t Q -> stable t (fun w => P w /\ Q w).
Proof. intros HP HQ w w' Hi Hi' Hr [Hp Hq]. split; [exact (HP _ _ Hi Hi' Hr Hp)|exact (HQ _ _ Hi Hi' Hr Hq)]. Qed.
Lemma stable_ex t {X} (P : X -> W -> Prop) : (forall x, stable t (P x)) -> stable t (fun w => exists x, P x w).
Proof. intros HP w w' Hi Hi' Hr [x Hp]. exists x. exact (HP x _ _ Hi Hi' Hr Hp). Qed.
Lemma stable_imp t (phi : Prop) (P : W -> Prop) : stable t P -> stable t (fun w => phi -> P w).
Proof. intros HP w w' Hi Hi' Hr Hp Hphi. exact (HP _ _ Hi Hi' Hr (Hp Hphi)). Qed.
Lemma stable_pure t (P : Prop) : stable t (fun _ => P).
Proof. by intros w w' _ _ _. Qed.
Lemma stable_or t (P Q : W -> Prop) : stable t P -> stable t Q -> stable t (fun w => P w \/ Q w).
Proof. intros HP HQ w w' Hi Hi' Hr [Hp|Hq]; [left; exact (HP _ _ Hi Hi' Hr Hp)|right; exact (HQ _ _ Hi Hi' Hr Hq)]. Qed.

Lemma pspec_at_or {B} free t (p : proc W B) P P' Q :
  pspec_at free t p P Q -> pspec_at free t p P' Q -> pspec_at free t p (fun w => P w \/ P' w) Q.
Proof.
  revert free P P'. induction p as [r|X m k IH|p IHp q IHq]; cbn; intros free P P'.
  - intros Hp Hp' w Hi [Hw|Hw]; auto.
  - intros (R1 & Hm1 & Hb1 & Hst1 & Hk1) (R2 & Hm2 & Hb2 & Hst2 & Hk2). exists (fun b w => R1 b w \/ R2 b w).
    split; [|split; [|split]].
    + intros w b w' Hi [Hw|Hw] Hrun.
      * destruct (Hm1 _ _ _ Hi Hw Hrun) as (? & ? & ?). auto.
      * destruct (Hm2 _ _ _ Hi Hw Hrun) as (? & ? & ?). auto.
    + intros Hfree w Hi [Hw|Hw]; [by apply Hb1|by apply Hb2].
    + intros b. by apply stable_or.
    + intros b. by apply IH.
  - intros (Hr & Hp & Hq) (_ & Hp' & Hq'). split; [done|]. split; [by apply IHp|by apply IHq].
Qed.

Lemma pspec_pre_or {B} t (p : proc W B) P P' Q :
  pspec t p P Q -> pspec t p P' Q -> pspec t p (fun w => P w \/ P' w) Q.
Proof. apply pspec_at_or. Qed.

Lemma pspec_at_post {B} free t (p : proc W B) P (Q Q' : goerr + B -> W -> Prop) :
  pspec_at free t p P Q -> (forall r w, Inv w -> Q r w -> Q' r w) -> pspec_at free t p P Q'.
Proof.
  intros Hp HQ. revert free P Hp. induction p as [r|X m k IH|p IHp q IHq]; cbn; intros free P Hp.
  - auto.
  - destruct Hp as (R & Hm & Hb & Hst & Hk). exists R. auto.
  - destruct Hp as (Hr & Hp & Hq). auto.
Qed.

Lemma pspec_post {B} t (p : proc W B) P (Q Q' : goerr + B -> W -> Prop) :
  pspec t p P Q -> (forall r w, Inv w -> Q r w -> Q' r w) -> pspec t p P Q'.
Proof. apply pspec_at_post. Qed.

Lemma pspec_at_then {B C} free t (p : proc W B) (k : goerr + B -> proc W C) P Q Q' :
  pspec_at free t p P Q -> (forall r, pspec t (k r) (Q r) Q') -> pspec_at free t (pthen p k) P Q'.
Proof.
  intros Hp Hk. revert free P Hp. induction p as [r|X m c IH|p IHp q IHq]; cbn; intros free P Hp.
  - exact (pspec_at_pre _ _ _ _ _ _ (pspec_free _ _ _ _ _ (Hk r)) Hp).
  - destruct Hp as (R & Hm & Hb & Hst & Hc). exists R. split; [done|]. split; [done|]. split; [done|].
    intros b. by apply IH.
  - destruct Hp as (Hr & Hp & Hq). split; [by destruct p|]. split; [by apply IHp|by apply IHq].
Qed.

Lemma pspec_then {B C} t (p : proc W B) (k : goerr + B -> proc W C) P Q Q' :
  pspec t p P Q -> (forall r, pspec t (k r) (Q r) Q') -> pspec t (pthen p k) P Q'.
Proof. apply pspec_at_then. Qed.

Lemma pspec_select {B} t (p q : proc W B) P Q :
  result p = None -> pspec t p P Q -> pspec_at true t q P Q -> pspec t (Select p q) P Q.
Proof. intros Hr Hp Hq. split; [done|]. by split. Qed.

Lemma pspec_return {B} t (r : goerr + B) (P : W -> Prop) (Q : goerr + B -> W -> Prop) :
  (forall w, Inv w -> P w -> Q r w) -> pspec t (Return r) P Q.
Proof. done. Qed.

Lemma pspec_bind {B C} t (p : proc W B) (k : B -> proc W C) P (Q : goerr + B -> W -> Prop) Q' :
  pspec t p P Q -> (forall e w, Inv w -> Q (inl e) w -> Q' (inl e) w) ->
  (forall b, pspec t (k b) (Q (inr b)) Q') -> pspec t (p ≫= k) P Q'.
Proof. intros Hp He Hk. apply (pspec_then t p _ P Q); [done|]. intros [e|b]; [exact (He e)|apply Hk]. Qed.

(** The two ways an action is verified: by what one run of it does, or, for a
    wait, by what the awaited condition gives. *)
Lemma pspec_act {B} t (m : M W B) P (Q : goerr + B -> W -> Prop) :
  (forall r, stable t (Q r)) ->
  (forall w r w', Inv w -> P w -> m w = (r, w') -> guar t w w' /\ Inv w' /\ Q r w') ->
  pspec t (act m) P Q.
Proof.
  intros Hst Hm. exists Q. split; [|split; [done|split; [done|]]].
  - intros w r w' Hi HP [= Hrun]. by apply Hm.
  - intros r w Hi HQ. exact HQ.
Qed.

Lemma pspec_await {B} free t (f : W -> option (goerr + B)) (P : W -> Prop) (Q : goerr + B -> W -> Prop) :
  (forall r, stable t (Q r)) -> (forall w, Inv w -> guar t w w) ->
  (free = false -> forall w, Inv w -> P w -> f w = None -> block t w) ->
  (forall w r, Inv w -> P w -> f w = Some r -> Q r w) -> pspec_at free t (await f) P Q.
Proof.
  intros Hst Hrefl Hb Hf. exists Q. split; [|split; [|split; [done|]]].
  - intros w r w' Hi HP Hrun. destruct (f w) as [r'|] eqn:Hr; [|discriminate]. injection Hrun as <- <-.
    split; [by apply Hrefl|]. split; [done|]. by apply Hf.
  - intros Hfree w Hi HP Hnone. apply Hb; [done..|]. by destruct (f w).
  - intros r w Hi HQ. exact HQ.
Qed.

(** A fact about the arguments is kept. *)
Lemma pspec_at_frame {B} free t (phi : Prop) (p : proc W B) P (Q : goerr + B -> W -> Prop) :
  pspec_at free t p P Q -> pspec_at free t p (fun w => phi /\ P w) (fun r w => phi /\ Q r w).
Proof.
  revert free P. induction p as [r|X m k IH|p IHp q IHq]; cbn; intros free P.
  - intros Hp w Hi [Hphi Hw]. split; [done|]. by apply Hp.
  - intros (R & Hm & Hb & Hst & Hk). exists (fun b w => phi /\ R b w). split; [|split; [|split]].
    + intros w b w' Hi [Hphi Hw] Hrun. destruct (Hm _ _ _ Hi Hw Hrun) as (? & ? & ?). auto.
    + intros Hfree w Hi [_ Hw]. by apply Hb.
    + intros b w w' Hi Hi' Hr [Hphi HR]. split; [done|]. exact (Hst b w w' Hi Hi' Hr HR).
    + intros b. by apply IH.
  - intros (Hr & Hp & Hq). split; [done|]. split; [by apply IHp|by apply IHq].
Qed.

Lemma pspec_frame {B} t (phi : Prop) (p : proc W B) P (Q : goerr + B -> W -> Prop) :
  pspec t p P Q -> pspec t p (fun w => phi /\ P w) (fun r w => phi /\ Q r w).
Proof. apply pspec_at_frame. Qed.

(** So is an assertion that neither this thread nor the others can break. *)
Lemma pspec_at_keep {B} free t (K : W -> Prop) (p : proc W B) P (Q : goerr + B -> W -> Prop) :
  (forall w w', Inv w -> Inv w' -> guar t w w' -> K w -> K w') -> stable t K ->
  pspec_at free t p P Q -> pspec_at free t p (fun w => P w /\ K w) (fun r w => Q r w /\ K w).
Proof.
  intros Hown Hst. revert free P. induction p as [r|X m k IH|p IHp q IHq]; cbn; intros free P.
  - intros Hp w Hi [Hw HK]. split; [by apply Hp|done].
  - intros (R & Hm & Hb & HR & Hk). exists (fun b w => R b w /\ K w). split; [|split; [|split]].
    + intros w b w' Hi [Hw HK] Hrun. destruct (Hm _ _ _ Hi Hw Hrun) as (Hg & Hi' & HRb). split; [done|]. split; [done|].
      split; [done|]. exact (Hown _ _ Hi Hi' Hg HK).
    + intros Hfree w Hi [Hw _]. by apply Hb.
    + intros b w w' Hi Hi' Hr [HRb HK]. split; [exact (HR b w w' Hi Hi' Hr HRb)|exact (Hst w w' Hi Hi' Hr HK)].
    + intros b. by apply IH.
  - intros (Hr & Hp & Hq). split; [done|]. split; [by apply IHp|by apply IHq].
Qed.

Lemma pspec_keep {B} t (K : W -> Prop) (p : proc W B) P (Q : goerr + B -> W -> Prop) :
  (forall w w', Inv w -> Inv w' -> guar t w w' -> K w -> K w') -> stable t K ->
  pspec t p P Q -> pspec t p (fun w => P w /\ K w) (fun r w => Q r w /\ K w).
Proof. apply pspec_at_keep. Qed.

Lemma pspec_try {B} t (p : proc W B) P (Q : goerr + B -> W -> Prop) (Q' : goerr + (goerr + B) -> W -> Prop) :
  pspec t p P Q -> (forall r w, Inv w -> Q r w -> Q' (inr r) w) -> pspec t (ptry p) P Q'.
Proof. intros Hp HQ. apply (pspec_then t p _ P Q); [done|]. intros r w Hi Hw. by apply HQ. Qed.

Lemma pspec_finally {B} t (p : proc W B) cleanup P (Q Q' : goerr + B -> W -> Prop) :
  pspec t p P Q -> (forall r, pspec t (cleanup r) (Q r) (fun _ => Q' r)) -> pspec t (finally p cleanup) P Q'.
Proof.
  intros Hp Hc. apply (pspec_then t p _ P Q); [done|]. intros r. apply (pspec_then t _ _ _ (fun _ => Q' r)); [apply Hc|].
  by intros r' w Hi Hw.
Qed.

Lemma pspec_gets {B} t (f : W -> B) (P : W -> Prop) :
  stable t P -> (forall w, Inv w -> guar t w w) -> pspec t (act (gets f)) P (fun _ => P).
Proof. intros Hst Hg. apply pspec_act; [done|]. intros w r w' Hi HP [= <- <-]. auto. Qed.

(** ** Soundness *)

Definition thread_ok (t : nat) (p : proc W A) (Q : goerr + A -> W -> Prop) (w : W) : Prop :=
  exists P, stable t P /\ P w /\ pspec t p P Q.

Lemma advance_at free t left (p p' : proc W A) P Q w w' :
  Inv w -> P w -> pspec_at free t p P Q -> advance left p w = Some (p', w') ->
  guar t w w' /\ Inv w' /\ thread_ok t p' Q w'.
Proof.
  intros Hi HP Hp Hadv. revert free Hp.
  induction p as [r|B m k IH|p IHp q IHq]; intros free Hp; [discriminate| |].
  - cbn in Hadv, Hp. destruct (m w) as [[b w1]|] eqn:Hm; [|discriminate]. injection Hadv as <- <-.
    destruct Hp as (R & Hstep & _ & HR & Hk). destruct (Hstep _ _ _ Hi HP Hm) as (Hg & Hi' & HRb).
    split; [exact Hg|]. split; [exact Hi'|]. exists (R b). split; [apply HR|]. split; [done|apply Hk].
  - destruct Hp as (_ & Hp & Hq). destruct left; [exact (IHp Hadv _ Hp)|exact (IHq Hadv _ Hq)].
Qed.

Lemma advance_ok t left (p p' : proc W A) Q w w' :
  Inv w -> thread_ok t p Q w -> advance left p w = Some (p', w') ->
  guar t w w' /\ Inv w' /\ thread_ok t p' Q w'.
Proof. intros Hi (P & Hst & HP & Hp). exact (advance_at _ _ _ _ _ _ _ _ _ Hi HP Hp). Qed.

(** A thread that cannot step is finished or waits where it may. *)
Lemma stuck_ok t (p : proc W A) Q w :
  Inv w -> thread_ok t p Q w -> advance true p w = None -> (exists r, p = Return r) \/ block t w.
Proof.
  intros Hi (P & Hst & HP & Hp) Hstuck. unfold pspec in Hp. induction p as [r|B m k IH|p IHp q IHq]; [by left; exists r| |].
  - right. destruct Hp as (R & _ & Hb & _). cbn in Hstuck.
    destruct (m w) as [[b w1]|] eqn:Hm; [discriminate|]. exact (Hb eq_refl w Hi HP Hm).
  - destruct Hp as (Hr & Hp & Hq). destruct (IHp Hp Hstuck) as [[r ->]|Hb]; [done|by right].
Qed.

Lemma thread_ok_rely t p Q w w' :
  Inv w -> Inv w' -> rely t w w' -> thread_ok t p Q w -> thread_ok t p Q w'.
Proof. intros Hi Hi' Hr (P & Hst & HP & Hp). exists P. split; [done|]. split; [exact (Hst _ _ Hi Hi' Hr HP)|done]. Qed.

Lemma thread_ok_result t r Q w : Inv w -> thread_ok t (Return r) Q w -> Q r w.
Proof. intros Hi (P & _ & HP & Hp). by apply Hp. Qed.

(** Every thread of a system is verified, against a postcondition of its own. *)
Definition system_ok (Q : nat -> goerr + A -> W -> Prop) (s : system W A) : Prop :=
  Inv (sy_world s) /\ forall t p, sy_threads s !! t = Some p -> thread_ok t p (Q t) (sy_world s).

Lemma step_thread_ok Q s t left s' :
  system_ok Q s -> step_thread t left s = Some s' ->
  guar t (sy_world s) (sy_world s') /\ system_ok Q s'.
Proof.
  intros [Hi Hall] Hstep. unfold step_thread in Hstep.
  apply bind_Some in Hstep as (p & Hp & ([p' w'] & Hadv & [= <-])%bind_Some).
  destruct (advance_ok _ _ _ _ _ _ _ Hi (Hall _ _ Hp) Hadv) as (Hg & Hi' & Hok).
  split; [exact Hg|]. split; [exact Hi'|]. cbn. intros u q. rewrite lookup_insert_Some.
  intros [[<- <-]|[Hne Hq]]; [exact Hok|].
  eapply thread_ok_rely; [exact Hi|exact Hi'| |by apply Hall]. right. by exists t.
Qed.

Lemma env_step_ok Q s w' :
  system_ok Q s -> env (sy_world s) w' -> Inv w' -> system_ok Q (MkSystem w' (sy_threads s)).
Proof.
  intros [Hi Hall] He Hi'. split; [exact Hi'|]. cbn. intros t p Hp.
  eapply thread_ok_rely; [exact Hi|exact Hi'| |by apply Hall]. by left.
Qed.

Lemma spawn_ok Q s t (p : proc W A) (P : W -> Prop) :
  system_ok Q s -> stable t P -> P (sy_world s) -> pspec t p P (Q t) ->
  system_ok Q (MkSystem (sy_world s) (<[t := p]> (sy_threads s))).
Proof.
  intros [Hi Hall] Hst HP Hp. split; [exact Hi|]. cbn. intros u q. rewrite lookup_insert_Some.
  intros [[<- <-]|[Hne Hq]]; [by exists P|by apply Hall].
Qed.

Lemma system_ok_result Q s t r :
  system_ok Q s -> sy_threads s !! t = Some (Return r) -> Q t r (sy_world s).
Proof. intros [Hi Hall] Ht. eapply thread_ok_result; [exact Hi|by apply Hall]. Qed.
End RelyGuarantee.
