(* ===== verification/Base64.v ===== *)
(** The base64 codecs of the Go standard library ([encoding/base64]) in the four
    shapes the repository uses: the standard and the URL alphabet, with and
    without padding, and strict or lenient about trailing bits. As in Go, a
    decoder skips carriage returns and newlines anywhere. *)
From stdpp Require Import base list option strings.
From Stdlib Require Import NArith Lia.
From S2P Require Import Prelude.

#[local] Open Scope N_scope.

Record encoding := MkEncoding { enc_url : bool; enc_padded : bool; enc_strict : bool }.

Definition StdEncoding : encoding := MkEncoding false true false.
Definition RawStdEncoding : encoding := MkEncoding false false false.
Definition RawURLEncodingStrict : encoding := MkEncoding true false true.

(** ** The alphabet *)

Definition code_of (url : bool) (v : N) : N :=
  if v <? 26 then 65 + v
  else if v <? 52 then 97 + (v - 26)
  else if v <? 62 then 48 + (v - 52)
  else if v =? 62 then (if url then 45 else 43)
  else if url then 95 else 47.

Definition in_range (lo hi c : N) : bool := (lo <=? c) && (c <=? hi).

Definition value_of (url : bool) (c : N) : option N :=
  if in_range 65 90 c then Some (c - 65)
  else if in_range 97 122 c then Some (c - 97 + 26)
  else if in_range 48 57 c then Some (c - 48 + 52)
  else if c =? (if url then 45 else 43) then Some 62
  else if c =? (if url then 95 else 47) then Some 63
  else None.

Definition pad_code : N := 61.
Definition is_newline (c : N) : bool := (c =? 10) || (c =? 13).

(** ** Encoding, over byte values *)

Fixpoint encode_values (enc : encoding) (l : list N) : list N :=
  let code v := code_of (enc_url enc) v in
  let pad n := if enc_padded enc then repeat pad_code n else [] in
  match l with
  | [] => []
  | [a] => code (a / 4) :: code (a mod 4 * 16) :: pad 2%nat
  | [a; b] => code (a / 4) :: code (a mod 4 * 16 + b / 16) :: code (b mod 16 * 4) :: pad 1%nat
  | a :: b :: c :: l' =>
      code (a / 4) :: code (a mod 4 * 16 + b / 16) :: code (b mod 16 * 4 + c / 64) :: code (c mod 64)
      :: encode_values enc l'
  end.

(** ** Decoding

    A final quantum of two or three characters yields one or two bytes; a strict
    decoder also wants its unused bits to be zero. *)
Definition final_quantum (enc : encoding) (l : list N) : option (list N) :=
  match l with
  | [] => Some []
  | [x; y] =>
      a ← value_of (enc_url enc) x; b ← value_of (enc_url enc) y;
      if enc_strict enc && negb (b mod 16 =? 0) then None else Some [a * 4 + b / 16]
  | [x; y; z] =>
      a ← value_of (enc_url enc) x; b ← value_of (enc_url enc) y; c ← value_of (enc_url enc) z;
      if enc_strict enc && negb (c mod 4 =? 0) then None
      else Some [a * 4 + b / 16; b mod 16 * 16 + c / 4]
  | _ => None
  end.

(** Four characters at a time; with padding, the last quantum ends in one or two
    pad characters and nothing follows them. *)
Fixpoint decode_values (enc : encoding) (l : list N) : option (list N) :=
  match l with
  | x :: y :: z :: w :: l' =>
      if enc_padded enc && (w =? pad_code) then
        if is_nil l' then
          if z =? pad_code then final_quantum enc [x; y] else final_quantum enc [x; y; z]
        else None
      else
        a ← value_of (enc_url enc) x; b ← value_of (enc_url enc) y;
        c ← value_of (enc_url enc) z; d ← value_of (enc_url enc) w;
        rest ← decode_values enc l';
        Some (a * 4 + b / 16 :: b mod 16 * 16 + c / 4 :: c mod 4 * 64 + d :: rest)
  | [] => Some []
  | _ => if enc_padded enc then None else final_quantum enc l
  end.

(** ** Strings and bytes *)

Definition codes (s : string) : list N := Ascii.N_of_ascii <$> String.list_ascii_of_string s.
Definition of_codes (l : list N) : string := String.string_of_list_ascii (Ascii.ascii_of_N <$> l).
Definition byte_of (n : N) : byte := default "000"%byte (Byte.of_N n).

Definition EncodeToString (enc : encoding) (l : list byte) : string :=
  of_codes (encode_values enc (Byte.to_N <$> l)).

Definition DecodeString (enc : encoding) (s : string) : option (list byte) :=
  match decode_values enc (filter (fun c => is_newline c = false) (codes s)) with
  | Some l => Some (map byte_of l)
  | None => None
  end.

(** ** Round trip *)

Lemma value_of_code url v : v < 64 -> value_of url (code_of url v) = Some v.
Proof.
  intros Hv. assert (Hall : forallb (fun n => bool_decide (value_of url (code_of url n) = Some n))
    (N.of_nat <$> seq 0 64) = true) by (destruct url; vm_compute; reflexivity).
  rewrite forallb_forall in Hall. specialize (Hall v). apply bool_decide_eq_true in Hall; [done|].
  apply list_elem_of_In. apply list_elem_of_fmap. exists (N.to_nat v). split; [lia|].
  apply elem_of_seq. lia.
Qed.

Lemma code_of_plain url v : v < 64 -> code_of url v <> pad_code /\ is_newline (code_of url v) = false /\ code_of url v < 256.
Proof.
  intros Hv. assert (Hall : forallb (fun n => negb (code_of url n =? pad_code) && negb (is_newline (code_of url n)) &&
      (code_of url n <? 256)) (N.of_nat <$> seq 0 64) = true) by (destruct url; vm_compute; reflexivity).
  rewrite forallb_forall in Hall. specialize (Hall v). rewrite !andb_true_iff, !negb_true_iff in Hall.
  destruct Hall as [[H1 H2] H3]; [|split; [by apply N.eqb_neq|]; split; [done|by apply N.ltb_lt]].
  apply list_elem_of_In. apply list_elem_of_fmap. exists (N.to_nat v). split; [lia|].
  apply elem_of_seq. lia.
Qed.

Lemma value_of_pad url : value_of url pad_code = None.
Proof. destruct url; reflexivity. Qed.

(** Three bytes and the four sextets they are cut into. *)
Lemma sextets a b c : a < 256 -> b < 256 -> c < 256 ->
  a / 4 < 64 /\ a mod 4 * 16 + b / 16 < 64 /\ b mod 16 * 4 + c / 64 < 64 /\ c mod 64 < 64 /\
  a / 4 * 4 + (a mod 4 * 16 + b / 16) / 16 = a /\
  (a mod 4 * 16 + b / 16) mod 16 * 16 + (b mod 16 * 4 + c / 64) / 4 = b /\
  (b mod 16 * 4 + c / 64) mod 4 * 64 + c mod 64 = c.
Proof. intros. repeat split; zify; Z.to_euclidean_division_equations; lia. Qed.

Definition byte_values (l : list N) : Prop := Forall (fun b => b < 256) l.

(** Induction three elements at a time. *)
Lemma triples_ind {A} (P : list A -> Prop) :
  P [] -> (forall a, P [a]) -> (forall a b, P [a; b]) ->
  (forall a b c l, P l -> P (a :: b :: c :: l)) -> forall l, P l.
Proof.
  intros H0 H1 H2 H3 l. enough (P l /\ (forall a, P (a :: l)) /\ forall a b, P (a :: b :: l)) by tauto.
  induction l as [|x l (IH0 & IH1 & IH2)]; [auto|]. split; [apply IH1|]. split; [intros a; apply IH2|].
  intros a b. by apply H3.
Qed.

Lemma decode_encode_values enc l :
  byte_values l -> decode_values enc (encode_values enc l) = Some l.
Proof.
  induction l as [|a|a b|a b c l IH] using triples_ind; intros Hl; unfold byte_values in Hl;
    rewrite ?Forall_cons in Hl.
  - reflexivity.
  - destruct Hl as [Ha _]. destruct (sextets a 0 0) as (H1 & H2 & _ & _ & H5 & _); [lia..|].
    rewrite N.add_0_r in *. destruct enc as [url [] strict]; cbn -[N.div N.modulo N.mul code_of value_of].
    all: rewrite ?value_of_code by done; cbn -[N.div N.modulo N.mul code_of value_of].
    all: rewrite ?N.Div0.mod_mul, H5, ?andb_false_r; reflexivity.
  - destruct Hl as (Ha & Hb & _). destruct (sextets a b 0) as (H1 & H2 & H3 & _ & H5 & H6 & _); [lia..|].
    rewrite N.add_0_r in *. destruct (code_of_plain (enc_url enc) (b mod 16 * 4) H3) as (Hz & _ & _).
    assert (Hm : b mod 16 * 4 mod 4 = 0) by apply N.Div0.mod_mul.
    destruct enc as [url [] strict]; cbn -[N.div N.modulo N.mul code_of value_of pad_code] in *.
    1: rewrite (proj2 (N.eqb_neq _ _) Hz).
    all: rewrite ?value_of_code by done; cbn -[N.div N.modulo N.mul code_of value_of].
    all: rewrite Hm, H5, H6, ?andb_false_r; reflexivity.
  - destruct Hl as (Ha & Hb & Hc & Hl). destruct (sextets a b c) as (H1 & H2 & H3 & H4 & H5 & H6 & H7); [done..|].
    destruct (code_of_plain (enc_url enc) (c mod 64) H4) as (Hz & _ & _).
    cbn -[N.div N.modulo N.mul code_of value_of pad_code]. rewrite (proj2 (N.eqb_neq _ _) Hz), andb_false_r.
    rewrite !value_of_code by done. cbn -[N.div N.modulo N.mul code_of value_of].
    rewrite (IH Hl). cbn -[N.div N.modulo N.mul]. rewrite H5, H6, H7. reflexivity.
Qed.

Lemma encode_values_plain enc l :
  byte_values l -> Forall (fun c => c < 256 /\ is_newline c = false) (encode_values enc l).
Proof.
  assert (Hc : forall v, v < 64 -> code_of (enc_url enc) v < 256 /\ is_newline (code_of (enc_url enc) v) = false)
    by (intros v Hv; destruct (code_of_plain (enc_url enc) v Hv) as (_ & ? & ?); done).
  assert (Hp : forall n, Forall (fun c => c < 256 /\ is_newline c = false) (if enc_padded enc then repeat pad_code n else []))
    by (intros n; destruct (enc_padded enc); [apply Forall_forall; intros x Hx%list_elem_of_In%repeat_spec; by subst|constructor]).
  induction l as [|a|a b|a b c l IH] using triples_ind; intros Hl; unfold byte_values in Hl;
    rewrite ?Forall_cons in Hl; cbn -[N.div N.modulo N.mul code_of repeat].
  - constructor.
  - destruct Hl as [Ha _]. destruct (sextets a 0 0) as (H1 & H2 & _); [lia..|]. rewrite N.add_0_r in *. eauto 6.
  - destruct Hl as (Ha & Hb & _). destruct (sextets a b 0) as (H1 & H2 & H3 & _); [lia..|].
    rewrite N.add_0_r in *. eauto 7.
  - destruct Hl as (Ha & Hb & Hc' & Hl). destruct (sextets a b c) as (H1 & H2 & H3 & H4 & _); [done..|].
    repeat constructor; try by apply Hc. by apply IH.
Qed.

Lemma codes_of_codes l : byte_values l -> codes (of_codes l) = l.
Proof.
  unfold codes, of_codes. rewrite String.list_ascii_of_string_of_list_ascii.
  induction 1 as [|x l Hx _ IH]; [done|]. cbn. rewrite IH, Ascii.N_ascii_embedding by done. reflexivity.
Qed.

Lemma byte_of_to_N (b : byte) : byte_of (Byte.to_N b) = b.
Proof. unfold byte_of. by rewrite Byte.of_to_N. Qed.

Lemma to_N_values (l : list byte) : byte_values (Byte.to_N <$> l).
Proof. apply Forall_fmap, Forall_forall. intros b _. cbn. pose proof (Byte.to_N_bounded b). lia. Qed.

Lemma filter_plain l :
  Forall (fun c => is_newline c = false) l -> filter (fun c => is_newline c = false) l = l.
Proof. induction 1 as [|c l Hc _ IH]; [done|]. by rewrite filter_cons_True, IH. Qed.

Theorem decode_encode enc l : DecodeString enc (EncodeToString enc l) = Some l.
Proof.
  unfold DecodeString, EncodeToString.
  pose proof (encode_values_plain enc _ (to_N_values l)) as Hp.
  rewrite codes_of_codes by (eapply Forall_impl; [exact Hp|]; cbn; tauto).
  rewrite filter_plain by (eapply Forall_impl; [exact Hp|]; cbn; tauto).
  rewrite decode_encode_values by apply to_N_values. f_equal.
  clear Hp. induction l as [|b l IH]; [done|]. cbn. by rewrite byte_of_to_N, IH.
Qed.

Lemma encode_length enc l :
  length (encode_values enc l) = if enc_padded enc then (4 * ((length l + 2) / 3))%nat else ((length l * 4 + 2) / 3)%nat.
Proof.
  induction l as [|a|a b|a b c l IH] using triples_ind; try by destruct enc as [? [] ?].
  cbn [encode_values length]. rewrite IH. destruct (enc_padded enc).
  - replace (S (S (S (length l))) + 2)%nat with (1 * 3 + (length l + 2))%nat by lia. rewrite Nat.div_add_l by lia. lia.
  - replace (S (S (S (length l))) * 4 + 2)%nat with (4 * 3 + (length l * 4 + 2))%nat by lia. rewrite Nat.div_add_l by lia. lia.
Qed.
