(* ===== verification/GatewayEngine.v ===== *)
(** The boundary between the private engine RPCs and the WhatsApp runtime of a
    gateway: the commands and results of [internal/application/gateway_engine.go]
    and [internal/domain/liveops.go], the ports of
    [internal/wa/application_adapter.go] as classes, and the dispatcher of
    [cmd/gateway/engine_dispatcher.go] that routes a validated send to one call
    of the session's WhatsApp client. *)
From stdpp Require Import base list option strings.
From S2P Require Import Prelude Domain Outbound Base64.

#[local] Open Scope Z_scope.

(** ** Commands *)

Definition AccountPresenceOnline : string := "online".
Definition AccountPresenceOffline : string := "offline".

Record SessionStateQuery := MkSessionStateQuery {
  sq_OrganizationID : string;
  sq_SessionID : string;
  sq_GatewayID : string;
  sq_AssignmentEpoch : Z;
}.

Record SessionState := MkSessionState {
  ss_OrganizationID : string;
  ss_SessionID : string;
  ss_GatewayID : string;
  ss_Status : SessionStatus;
  ss_Connected : bool;
  ss_LoggedIn : bool;
}.

(** Every mutation names its command, its target and the assignment it was
    routed under; a [MutationResult] echoes them. *)
Record MutationResult := MkMutationResult {
  mr_CommandID : string;
  mr_OrganizationID : string;
  mr_SessionID : string;
  mr_GatewayID : string;
  mr_AssignmentEpoch : Z;
}.

#[export] Instance MutationResult_eq_dec : EqDecision MutationResult.
Proof. solve_decision. Defined.

Record SetPresenceCommand := MkSetPresenceCommand { sp_Target : MutationResult; sp_State : string }.

Record MarkReadCommand := MkMarkReadCommand {
  mk_Target : MutationResult;
  mk_ChatJID : string;
  mk_SenderJID : string;
  mk_MessageIDs : list string;
  mk_ReadAt : GoTime;
}.

Record SendCommand := MkSendCommand {
  snd_Target : MutationResult;
  snd_Payload : SendRequest;
  snd_ExpiresAt : option Z;
}.

Record MessageOpCommand := MkMessageOpCommand {
  opc_Target : MutationResult;
  opc_Op : string;
  opc_ChatJID : string;
  opc_SenderJID : string;
  opc_MessageID : string;
  opc_Emoji : string;
  opc_NewText : string;
  opc_Options : list string;
  opc_ToJID : string;
  opc_ExpiresAt : option Z;
}.

Record LookupContactCommand := MkLookupContactCommand { lk_Query : SessionStateQuery; lk_Phones : list string }.

Record ContactJIDCommand := MkContactJIDCommand {
  cj_Target : MutationResult;
  cj_JID : string;
  cj_Blocked : bool;
}.

Inductive GroupMutationKind :=
  | GroupOpCreate | GroupOpUpdateSettings | GroupOpUpdateParticipants | GroupOpLeave | GroupOpOther (text : string).

Definition kind_text (k : GroupMutationKind) : string :=
  match k with
  | GroupOpCreate => "create"
  | GroupOpUpdateSettings => "update_settings"
  | GroupOpUpdateParticipants => "update_participants"
  | GroupOpLeave => "leave"
  | GroupOpOther text => text
  end.

Definition GroupActionAdd : string := "add".
Definition GroupActionRemove : string := "remove".
Definition GroupActionPromote : string := "promote".
Definition GroupActionDemote : string := "demote".

Record GroupSettings := MkGroupSettings {
  gs_Subject : option string;
  gs_Description : option string;
  gs_Announce : option bool;
  gs_Locked : option bool;
}.

Record GroupMutationCommand := MkGroupMutationCommand {
  gm_Target : MutationResult;
  gm_Kind : GroupMutationKind;
  gm_GroupJID : string;
  gm_Name : string;
  gm_Participants : list string;
  gm_Action : string;
  gm_Settings : GroupSettings;
}.

Record ChatPresenceCommand := MkChatPresenceCommand {
  cpr_Query : SessionStateQuery;
  cpr_ChatJID : string;
  cpr_State : string;
}.

(** ** Results *)

Record ContactLookup := MkContactLookup { cl_Query : string; cl_JID : string; cl_IsIn : bool }.

(** [domain.GroupInfo]; its wire counterpart [GroupInfoResult] narrows the
    number of participants to 32 bits. *)
Record GroupInfo := MkGroupInfo {
  gi_GroupJID : string;
  gi_Subject : string;
  gi_Description : string;
  gi_OwnerJID : string;
  gi_Participants : Z;
  gi_IsAnnounce : bool;
  gi_IsLocked : bool;
}.

Definition GroupInfoResult : Type := GroupInfo.
Definition blank_group : GroupInfo := MkGroupInfo "" "" "" "" 0 false false.
Definition groupInfoResult (info : GroupInfo) : GroupInfoResult :=
  MkGroupInfo (gi_GroupJID info) (gi_Subject info) (gi_Description info) (gi_OwnerJID info)
    (i32 (gi_Participants info)) (gi_IsAnnounce info) (gi_IsLocked info).

Record ProfilePicture := MkProfilePicture { pp_URL : string; pp_ID : string }.

Record PresenceStatus := MkPresenceStatus {
  ps_ChatJID : string;
  ps_From : string;
  ps_State : string;
  ps_Media : string;
  ps_Unavailable : bool;
  ps_LastSeen : Z;
}.

Record BackfillContact := MkBackfillContact {
  bc_LID : string;
  bc_PhoneJID : string;
  bc_PhoneNumber : string;
  bc_Name : string;
  bc_BusinessName : string;
}.

Record BackfillMember := MkBackfillMember {
  bm_LID : string;
  bm_JID : string;
  bm_PhoneNumber : string;
  bm_Tag : string;
  bm_Name : string;
  bm_Role : string;
}.

Record BackfillGroup := MkBackfillGroup {
  bg_GroupJID : string;
  bg_Subject : string;
  bg_Description : string;
  bg_OwnerJID : string;
  bg_Participants : Z;
  bg_IsAnnounce : bool;
  bg_IsLocked : bool;
  bg_CreatedAtWA : Z;
  bg_Members : list BackfillMember;
}.

Record BackfillSnapshot := MkBackfillSnapshot {
  bf_Contacts : list BackfillContact;
  bf_Groups : list BackfillGroup;
}.

Record PairingSnapshot := MkPairingSnapshot { pr_Code : string; pr_ExpiresAt : Z }.

(** One definite terminal outcome, as the ledger stores it. *)
Record CommandResultRecord := MkCommandResultRecord {
  rec_CommandID : string;
  rec_SessionID : string;
  rec_Status : string;
  rec_WAMessageID : string;
  rec_Error : string;
  rec_UpdatedAt : GoTime;
}.

Record SendMessageResult := MkSendMessageResult {
  smr_Mutation : MutationResult;
  smr_WAMessageID : string;
  smr_SentAt : GoTime;
}.

Record MessageOpResult := MkMessageOpResult {
  mor_Mutation : MutationResult;
  mor_SentAt : GoTime;
  mor_WAMessageID : string;
}.

Record GroupCreateResult := MkGroupCreateResult {
  gcr_Mutation : MutationResult;
  gcr_CreatedGroup : GroupInfoResult;
}.

(** ** The WhatsApp client of the sessions

    [outbound.WAClient] as the dispatcher calls it: the context carries the
    session, the command the message IDs are derived from and the deadline. *)
Record dispatch_ctx := MkDispatchCtx {
  dc_SessionID : string;
  dc_CommandID : string;
  dc_ExpiresAt : option Z;
}.

Record QuoteInfo := MkQuoteInfo {
  q_ID : string;
  q_ChatJID : string;
  q_SenderJID : string;
  q_Type : string;
  q_Body : string;
  q_FromMe : bool;
}.

Record AlbumMedia := MkAlbumMedia { alb_Type : string; alb_Data : list byte; alb_Mimetype : string }.

Class WAClient (L : Type) := {
  SendText : dispatch_ctx -> string -> string -> QuoteInfo -> list string -> M L (string * Z);
  SendInteractive : dispatch_ctx -> SendRequest -> QuoteInfo -> M L (string * Z);
  SendPoll : dispatch_ctx -> string -> string -> list string -> Z -> Z -> bool -> M L (string * Z);
  SendLocation : dispatch_ctx -> string -> spec_float -> spec_float -> string -> M L (string * Z);
  SendContact : dispatch_ctx -> string -> string -> string -> string -> M L (string * Z);
  SendMedia : dispatch_ctx -> string -> string -> list byte -> string -> string -> string ->
    QuoteInfo -> list string -> M L (string * Z);
  SendAlbum : dispatch_ctx -> string -> string -> list AlbumMedia -> QuoteInfo -> list string -> M L (string * Z);
  React : dispatch_ctx -> string -> string -> string -> string -> M L (string * Z);
  Edit : dispatch_ctx -> string -> string -> string -> M L (string * Z);
  Revoke : dispatch_ctx -> string -> string -> string -> M L (string * Z);
  Vote : dispatch_ctx -> string -> string -> string -> list string -> M L (string * Z);
  Forward : dispatch_ctx -> string -> string -> string -> string -> M L (string * Z);
}.

(** The live-operation and lifecycle ports of the session manager:
    [engineLiveOps], [sessionController], [sessionStateSource], and the
    third-party JID parser, which yields a user and one of its server names. *)
Class LiveOps (L : Type) := {
  ConnectionState : string -> L -> option (SessionStatus * bool * bool);
  SetPresence : string -> string -> M L unit;
  SendReadReceiptAt : string -> string -> string -> list string -> GoTime -> M L unit;
  IsOnWhatsApp : string -> list string -> M L (list ContactLookup);
  LiveProfilePicture : string -> string -> M L ProfilePicture;
  About : string -> string -> M L string;
  LiveSetBlocked : string -> string -> bool -> M L unit;
  LiveCreateGroup : string -> string -> list string -> M L GroupInfo;
  UpdateParticipants : string -> string -> list string -> string -> M L unit;
  UpdateSettings : string -> string -> GroupSettings -> M L unit;
  GetInviteLink : string -> string -> bool -> M L string;
  JoinWithLink : string -> string -> M L string;
  Leave : string -> string -> M L unit;
  GetPresence : string -> string -> M L PresenceStatus;
  LiveSetChatPresence : string -> string -> string -> M L unit;
  EnsureDevice : string -> string -> L -> L;
  StartQR : string -> M L unit;
  StartPairingCode : string -> string -> M L string;
  LiveLogout : string -> M L unit;
  Forget : string -> L -> L;
  LatestQR : string -> L -> string * Z;
  BackfillSessionData : string -> M L BackfillSnapshot;
  ParseJID : string -> option (string * string);
  DefaultUserServer : string;
  LegacyUserServer : string;
  GroupServer : string;
  HiddenUserServer : string;
}.

(** ** cmd/gateway/engine_dispatcher.go *)

Definition decodeBase64Payload (s : string) : option (list byte) :=
  match DecodeString StdEncoding s with
  | Some b => Some b
  | None => DecodeString RawStdEncoding s
  end.

Definition engineMediaBytes (media : option MediaPayload) : goerr + list byte :=
  match media with
  | None => inl (ErrValidation "media data is required")
  | Some m =>
      if bool_decide (mp_Data m = "") then inl (ErrValidation "media data is required")
      else match decodeBase64Payload (mp_Data m) with
           | Some data => inr data
           | None => inl (ErrValidation "media data must be base64")
           end
  end.

Definition quoteForSend (req : SendRequest) : QuoteInfo :=
  let quote := MkQuoteInfo (sr_ReplyTo req) "" "" "" "" false in
  match sr_QuoteContext req with
  | Some c =>
      if bool_decide (sr_ReplyTo req = "") || negb (bool_decide (qc_ChatJID c = sr_To req)) then quote
      else MkQuoteInfo (sr_ReplyTo req) (qc_ChatJID c) (qc_SenderJID c) (qc_Type c) (qc_Body c) (qc_FromMe c)
  | None => quote
  end.

(** The items of an album, decoded in order; a failing item is reported by its
    index and the text of its error. *)
Fixpoint album_medias (i : nat) (items : list AlbumMediaPayload) : goerr + list AlbumMedia :=
  match items with
  | [] => inr []
  | item :: rest =>
      match engineMediaBytes (Some (MkMediaPayload (am_Data item) (am_URL item) (am_Mimetype item) "" "")) with
      | inl e => inl (ErrMsg ("medias[" +:+ pretty i +:+ "]: " +:+ error_text e))
      | inr data =>
          match album_medias (S i) rest with
          | inl e => inl e
          | inr l =>
              inr (MkAlbumMedia (if bool_decide (am_Type item = "") then SendTypeImage else am_Type item)
                     data (am_Mimetype item) :: l)
          end
      end
  end.

Definition is_media_send (typ : string) : bool :=
  bool_decide (typ ∈ [SendTypeImage; SendTypeVideo; SendTypeAudio; SendTypeDocument; SendTypeSticker]).

Section Dispatcher.
Context {L : Type} `{OutboundLib} `{WAClient L}.

(** [engineDispatcher.Dispatch]: one validated send to one client call. *)
Definition Dispatch (ctx : dispatch_ctx) (req : SendRequest) : M L (string * Z) :=
  let quote := quoteForSend req in
  let typ := sr_Type req in
  if bool_decide (typ = SendTypeText) then SendText ctx (sr_To req) (sr_Text req) quote (sr_Mentions req)
  else if bool_decide (typ ∈ [SendTypeButtons; SendTypeList]) then SendInteractive ctx req quote
  else if bool_decide (typ = SendTypePoll) then
    SendPoll ctx (sr_To req) (sr_Name req) (sr_Options req) (sr_SelectableCount req) (sr_PollEndTime req) (sr_PollHideVotes req)
  else if bool_decide (typ = SendTypeLocation) then
    SendLocation ctx (sr_To req) (sr_Latitude req) (sr_Longitude req) (sr_Name req)
  else if bool_decide (typ = SendTypeContact) then
    match sr_Contact req with
    | Some c => SendContact ctx (sr_To req) (cc_Name c) (cc_Phone c) (cc_VCard c)
    | None => SendContact ctx (sr_To req) "" "" ""
    end
  else if is_media_send typ then
    data ← lift_result (engineMediaBytes (sr_Media req));
    match sr_Media req with
    | Some m => SendMedia ctx (sr_To req) typ data (mp_Mimetype m) (mp_Caption m) (mp_Filename m) quote (sr_Mentions req)
    | None => SendMedia ctx (sr_To req) typ data "" "" "" quote (sr_Mentions req)
    end
  else if bool_decide (typ = SendTypeAlbum) then
    medias ← lift_result (album_medias 0 (sr_Medias req));
    SendAlbum ctx (sr_To req) (sr_Caption req) medias quote (sr_Mentions req)
  else throw (ErrValidation ("unsupported send type " +:+ go_quote typ)).

(** [engineDispatcher.DispatchOp]: the acknowledged message id and timestamp. *)
Definition DispatchOp (ctx : dispatch_ctx) (req : OpRequest) : M L (string * Z) :=
  let op := or_Op req in
  if bool_decide (op = OpReaction) then React ctx (or_Chat req) (or_Sender req) (or_MsgID req) (or_Emoji req)
  else if bool_decide (op = OpEdit) then Edit ctx (or_Chat req) (or_MsgID req) (or_NewText req)
  else if bool_decide (op = OpRevoke) then Revoke ctx (or_Chat req) (or_Sender req) (or_MsgID req)
  else if bool_decide (op = OpVote) then Vote ctx (or_Chat req) (or_Sender req) (or_MsgID req) (or_Options req)
  else if bool_decide (op = OpForward) then Forward ctx (or_To req) (or_Chat req) (or_Sender req) (or_MsgID req)
  else throw (ErrValidation ("unknown message op " +:+ go_quote op)).
End Dispatcher.
