(* ===== verification/CommandExecution.v ===== *)
(** The command executor of a gateway: [internal/wa/command_execution.go] and the
    methods of [ApplicationGatewayAdapter] in [internal/wa/application_*.go],
    over the journal's command ledger ([journalCommandLedger] of
    [cmd/gateway/main.go]), the assignment fence and the WhatsApp client. A
    request runs as a program of [Concurrency]: every access to the shared map of
    flights, the ledger, the fence, the clock and WhatsApp is one atomic action,
    between which other requests run. *)
From stdpp Require Import base gmap list option strings.
From S2P Require Import Prelude Journal Domain DesiredState Outbound GatewayEngine Concurrency.

#[local] Open Scope Z_scope.

(** ** Flights

    The value of a flight's [result any] and [err], with the static type it was
    stored under. *)
Inductive flight_result :=
  | SendFlight (r : goerr + SendMessageResult)
  | OpFlight (r : goerr + MessageOpResult)
  | MutationFlight (r : goerr + MutationResult)
  | GroupFlight (r : goerr + GroupCreateResult).

(** [flight.result = result] and the type assertion [flight.result.(T)]. *)
Class FlightResult (T : Type) := {
  to_flight : goerr + T -> flight_result;
  of_flight : flight_result -> option (goerr + T);
  of_to_flight r : of_flight (to_flight r) = Some r;
}.

#[export] Program Instance send_flight : FlightResult SendMessageResult :=
  {| to_flight := SendFlight; of_flight f := match f with SendFlight r => Some r | _ => None end |}.
Solve All Obligations with done.
#[export] Program Instance op_flight : FlightResult MessageOpResult :=
  {| to_flight := OpFlight; of_flight f := match f with OpFlight r => Some r | _ => None end |}.
Solve All Obligations with done.
#[export] Program Instance mutation_flight : FlightResult MutationResult :=
  {| to_flight := MutationFlight; of_flight f := match f with MutationFlight r => Some r | _ => None end |}.
Solve All Obligations with done.
#[export] Program Instance group_flight : FlightResult GroupCreateResult :=
  {| to_flight := GroupFlight; of_flight f := match f with GroupFlight r => Some r | _ => None end |}.
Solve All Obligations with done.

(** [fl_outcome] is filled when [done] is closed. *)
Record commandFlight := MkFlight {
  fl_target : MutationResult;
  fl_operation : string;
  fl_outcome : option flight_result;
}.

(** The history of the process, in order: the answers of the fence and the
    WhatsApp calls of durable commands, with the request that made them, and the
    rows the ledger held when a lookup or a save of their command was done. *)
Inductive engine_event :=
  | Fenced (t : nat) (target : MutationResult) (stopped : bool) (at_ : GoTime) (allowed : bool)
  | Executed (t : nat) (commandID : string)
  | Held (commandID : string) (row : CmdRow).

(** [ApplicationGatewayAdapter]'s fixed part: whether a fence and a ledger are
    configured. *)
Record adapter := MkAdapter {
  ad_gatewayID : string;
  ad_fence : bool;
  ad_ledger : bool;
  ad_maxFutureSkew : Z;
}.

Definition DefaultReadReceiptFutureSkew : Z := 30 * 1000000000.

(** The constructor configures both. *)
Definition NewApplicationGatewayAdapter (gatewayID : string) : adapter :=
  MkAdapter gatewayID true true DefaultReadReceiptFutureSkew.

(** The process: journal, reconciler (the fence), WhatsApp, clock, the map of
    running commands, the flights (a flight is addressed by the request that
    allocated it), the ended request contexts, and the events. *)
Record engine (L R : Type) := MkEngine {
  en_journal : db jdb;
  en_fence : reconciler R;
  en_live : L;
  en_now : GoTime;
  en_inFlight : gmap string nat;
  en_flights : gmap nat commandFlight;
  en_contexts : gmap nat goerr;
  en_trace : list engine_event;
}.
Arguments MkEngine {L R} _ _ _ _ _ _ _ _.
Arguments en_journal {L R} _.
Arguments en_fence {L R} _.
Arguments en_live {L R} _.
Arguments en_now {L R} _.
Arguments en_inFlight {L R} _.
Arguments en_flights {L R} _.
Arguments en_contexts {L R} _.
Arguments en_trace {L R} _.

Section Engine.
Context {L R : Type} `{OutboundLib} `{WAClient L} `{LiveOps L}.
Abbreviation E := (engine L R).

Definition set_journal (d : db jdb) (w : E) : E :=
  MkEngine d (en_fence w) (en_live w) (en_now w) (en_inFlight w) (en_flights w) (en_contexts w) (en_trace w).
Definition set_live (l : L) (w : E) : E :=
  MkEngine (en_journal w) (en_fence w) l (en_now w) (en_inFlight w) (en_flights w) (en_contexts w) (en_trace w).
Definition set_flights (inFlight : gmap string nat) (flights : gmap nat commandFlight) (w : E) : E :=
  MkEngine (en_journal w) (en_fence w) (en_live w) (en_now w) inFlight flights (en_contexts w) (en_trace w).
Definition log_event (ev : engine_event) (w : E) : E :=
  MkEngine (en_journal w) (en_fence w) (en_live w) (en_now w) (en_inFlight w) (en_flights w) (en_contexts w)
    (en_trace w ++ [ev]).

Definition on_journal {A} (m : M (db jdb) A) : M E A := fun w =>
  let '(r, d) := m (en_journal w) in (r, set_journal d w).
Definition on_live {A} (m : M L A) : M E A := fun w =>
  let '(r, l) := m (en_live w) in (r, set_live l w).

(** A call of the ledger for a command; the history notes the row it leaves. *)
Definition note_row (commandID : string) (w : E) : E :=
  match command_results (rows (en_journal w)) !! commandID with
  | Some row => log_event (Held commandID row) w
  | None => w
  end.
Definition on_ledger {A} (commandID : string) (m : M (db jdb) A) : M E A := fun w =>
  let '(r, w') := on_journal m w in (r, note_row commandID w').

(** [a.now()]. *)
Definition read_clock : proc E GoTime := act (gets en_now).

(** A WhatsApp call of a durable command. *)
Definition perform {A} (t : nat) (commandID : string) (m : M L A) : proc E A :=
  act (modify (log_event (Executed t commandID));; on_live m).

(** ** cmd/gateway/main.go: the ledger port over the journal *)

Definition ledger_LookupCommand (commandID : string) : M (db jdb) (option CommandResultRecord) :=
  result ← LookupCommand commandID;
  mret ((fun r => MkCommandResultRecord (c_CommandID r) (c_SessionID r) (c_Status r) (c_WAMessageID r)
                    (c_Error r) (c_UpdatedAt r)) <$> result).

Definition ledger_SaveCommandResult (r : CommandResultRecord) : M (db jdb) unit :=
  SaveCommandResult (MkCommandResult (rec_CommandID r) (rec_SessionID r) (rec_Status r) (rec_WAMessageID r)
                       (rec_Error r) (rec_UpdatedAt r)).

Section Adapter.
Variable a : adapter.

(** ** command_execution.go *)

Definition validateTarget (organizationID sessionID gatewayID : string) : option goerr :=
  if bool_decide (organizationID = "") || bool_decide (sessionID = "") || bool_decide (gatewayID = "") then
    Some (ErrValidation "organization_id, session_id, and gateway_id are required")
  else if negb (bool_decide (gatewayID = ad_gatewayID a)) then
    Some (ErrNotFound "gateway target does not match this gateway")
  else None.

Definition validateMutation (target : MutationResult) : option goerr :=
  if bool_decide (mr_CommandID target = "") then Some (ErrValidation "command_id is required")
  else validateTarget (mr_OrganizationID target) (mr_SessionID target) (mr_GatewayID target).

(** [durableCommand]. *)
Record durableCommand (T : Type) := MkDurable {
  du_Target : MutationResult;
  du_Operation : string;
  du_Replay : CommandResultRecord -> goerr + T;
  du_Execute : proc E T;
  du_AllowStopped : bool;
  du_ExpiresAt : option Z;
}.
Arguments MkDurable {T} _ _ _ _ _ _.
Arguments du_Target {T} _.
Arguments du_Operation {T} _.
Arguments du_Replay {T} _ _.
Arguments du_Execute {T} _.
Arguments du_AllowStopped {T} _.
Arguments du_ExpiresAt {T} _.

Definition same_owner (x y : MutationResult) : bool :=
  bool_decide (mr_OrganizationID x = mr_OrganizationID y) && bool_decide (mr_SessionID x = mr_SessionID y) &&
  bool_decide (mr_GatewayID x = mr_GatewayID y).

(** Under [inFlightMu]: the flight that leads the command, and whether the
    request [t] only follows it. *)
Definition joinCommand (t : nat) (target : MutationResult) (operation : string) : M E (nat * bool) := fun w =>
  match en_inFlight w !! mr_CommandID target with
  | Some u =>
      match en_flights w !! u with
      | Some flight =>
          if negb (same_owner (fl_target flight) target) || negb (bool_decide (fl_operation flight = operation)) then
            (inl (ErrConflict "command id is already executing for another target or operation"), w)
          else (inr (u, true), w)
      | None => (inr (u, true), w)
      end
  | None =>
      (inr (t, false), set_flights (<[mr_CommandID target := t]> (en_inFlight w))
                         (<[t := MkFlight target operation None]> (en_flights w)) w)
  end.

(** [case <-flight.done] and [case <-ctx.Done()]. *)
Definition flight_done (u : nat) : proc E flight_result :=
  await (fun w => inr <$> (en_flights w !! u ≫= fl_outcome)).
Definition ctx_done {A} (t : nat) : proc E A := await (fun w => inl <$> en_contexts w !! t).

Definition lookupCommand (commandID : string) : proc E (option CommandResultRecord) :=
  if negb (ad_ledger a) then pthrow (ErrValidation "gateway command ledger is not configured")
  else act (on_ledger commandID (map_err (ErrWrap "lookup command result") (ledger_LookupCommand commandID))).

Definition saveCommand (r : CommandResultRecord) : proc E unit :=
  act (on_ledger (rec_CommandID r) (map_err (ErrWrap ("save command result " +:+ rec_CommandID r)) (ledger_SaveCommandResult r))).

(** The fence, asked right before the command runs. *)
Definition check_fence (t : nat) (target : MutationResult) (stopped : bool) : M E bool := fun w =>
  if negb (ad_fence a) then (inr true, w)
  else
    let allowed := (if stopped then OwnsAssignment else AllowsMutation)
      (mr_OrganizationID target) (mr_SessionID target) (mr_AssignmentEpoch target) (en_now w) (en_fence w) in
    (inr allowed, log_event (Fenced t target stopped (en_now w) allowed) w).

Definition command_expired (expiresAt : option Z) : M E bool := fun w =>
  (inr (match expiresAt with Some e => e <=? UnixMilli (en_now w) | None => false end), w).

(** The leader, once it owns the flight. *)
Definition lead {T} (t : nat) (command : durableCommand T) : proc E T :=
  let target := du_Target command in
  record ← lookupCommand (mr_CommandID target);
  match record with
  | Some r =>
      if negb (bool_decide (rec_SessionID r = mr_SessionID target)) then
        pthrow (ErrConflict "command id belongs to another session")
      else Return (du_Replay command r)
  | None =>
      allowed ← act (check_fence t target (du_AllowStopped command));
      if negb allowed then pthrow (ErrConflict "session assignment epoch is stale or lease expired")
      else
        expired ← act (command_expired (du_ExpiresAt command));
        if (expired : bool) then pthrow (ErrValidation "outbound command expired before dispatch")
        else du_Execute command
  end.

(** The deferred publication: the outcome reaches the waiters, then the command
    leaves the map. *)
Definition publish {T} `{FlightResult T} (t : nat) (commandID : string) (r : goerr + T) : proc E unit :=
  act (modify (fun w => set_flights (en_inFlight w)
        (alter (fun f => MkFlight (fl_target f) (fl_operation f) (Some (to_flight r))) t (en_flights w)) w));;
  act (modify (fun w => set_flights (delete commandID (en_inFlight w)) (en_flights w) w)).

Definition follow {T} `{FlightResult T} (t u : nat) : proc E T :=
  Select
    (pthen (flight_done u) (fun o =>
       match o with
       | inl e => Return (inl e)
       | inr f => match of_flight f with
                  | Some r => Return r
                  | None => pthrow (ErrConflict "command id is already executing another operation")
                  end
       end))
    (ctx_done t).

Definition runDurableCommand {T} `{FlightResult T} (t : nat) (command : durableCommand T) : proc E T :=
  let target := du_Target command in
  match validateMutation target with
  | Some e => pthrow e
  | None =>
      if mr_AssignmentEpoch target =? 0 then pthrow (ErrValidation "assignment_epoch must be at least 1")
      else
        j ← act (joinCommand t target (du_Operation command));
        if (j.2 : bool) then follow t j.1
        else finally (lead t command) (publish t (mr_CommandID target))
  end.

(** ** application_messages.go *)

(** [var apiErr *domain.APIError; errors.As(err, &apiErr) && apiErr.Code == ...]. *)
Definition is_validation (err : goerr) : bool := bool_decide (api_code err = Some CodeValidationError).

(** A deterministic rejection before the dispatch is recorded as a terminal
    failure; any other error stays unrecorded. The error is returned either way,
    unless the save fails. *)
Definition reject_command {A} (target : MutationResult) (err : goerr) : proc E A :=
  (if is_validation err then
     now ← read_clock;
     saveCommand (MkCommandResultRecord (mr_CommandID target) (mr_SessionID target) CommandFailed "" (error_text err) now)
   else mret tt);;
  pthrow err.

(** [sentAt := a.now(); if ts > 0 { sentAt = time.UnixMilli(ts) }]. *)
Definition sent_at (ts : Z) : proc E GoTime :=
  now ← read_clock;
  mret (if 0 <? ts then FromUnixMilli ts else now).

Definition executeSend (t : nat) (command : SendCommand) : proc E SendMessageResult :=
  let target := snd_Target command in
  let ctx := MkDispatchCtx (mr_SessionID target) (mr_CommandID target) (snd_ExpiresAt command) in
  dispatched ← ptry (perform t (mr_CommandID target) (Dispatch ctx (snd_Payload command)));
  match dispatched with
  | inl dispatchErr => reject_command target dispatchErr
  | inr (waMessageID, ts) =>
      sentAt ← sent_at ts;
      saveCommand (MkCommandResultRecord (mr_CommandID target) (mr_SessionID target) CommandSent waMessageID "" sentAt);;
      mret (MkSendMessageResult target waMessageID sentAt)
  end.

(** The metadata of a replayed result: the stored command id under the routing
    of the current request. *)
Definition replayed_target (target : MutationResult) (r : CommandResultRecord) : MutationResult :=
  MkMutationResult (rec_CommandID r) (mr_OrganizationID target) (mr_SessionID target) (mr_GatewayID target)
    (mr_AssignmentEpoch target).

(** The three cases of the status switch of every replay. *)
Definition replayed {T} (r : CommandResultRecord) (sent : T) (failed : string) : goerr + T :=
  if bool_decide (rec_Status r = CommandSent) then inr sent
  else if bool_decide (rec_Status r = CommandFailed) then inl (ErrValidation (failed +:+ rec_Error r))
  else inl (ErrMsg ("unknown stored command status " +:+ go_quote (rec_Status r))).

Definition replayedSendResult (command : SendCommand) (r : CommandResultRecord) : goerr + SendMessageResult :=
  replayed r (MkSendMessageResult (replayed_target (snd_Target command) r) (rec_WAMessageID r) (rec_UpdatedAt r))
    "send previously failed: ".

Definition send_command (t : nat) (command : SendCommand) : durableCommand SendMessageResult :=
  MkDurable (snd_Target command) "send" (replayedSendResult command) (executeSend t command) false
    (snd_ExpiresAt command).

Definition SendMessage (t : nat) (command : SendCommand) : proc E SendMessageResult :=
  runDurableCommand t (send_command t command).

Definition validReceiptChatJID (jid : string * string) : bool :=
  negb (bool_decide (jid.1 = "")) &&
  bool_decide (jid.2 ∈ [DefaultUserServer; LegacyUserServer; GroupServer; HiddenUserServer]).
Definition validReceiptSenderJID (jid : string * string) : bool :=
  negb (bool_decide (jid.1 = "")) &&
  bool_decide (jid.2 ∈ [DefaultUserServer; LegacyUserServer; HiddenUserServer]).

Definition op_request (command : MessageOpCommand) : OpRequest :=
  MkOpRequest (opc_Op command) None "" (opc_ChatJID command) (opc_SenderJID command) (opc_MessageID command)
    (opc_Emoji command) (opc_NewText command) (opc_Options command) (opc_ToJID command).

Definition executeOp (t : nat) (command : MessageOpCommand) : proc E MessageOpResult :=
  let target := opc_Target command in
  let ctx := MkDispatchCtx (mr_SessionID target) (mr_CommandID target) (opc_ExpiresAt command) in
  dispatched ← ptry (perform t (mr_CommandID target) (DispatchOp ctx (op_request command)));
  match dispatched with
  | inl opErr => reject_command target opErr
  | inr (waMessageID, ts) =>
      sentAt ← sent_at ts;
      saveCommand (MkCommandResultRecord (mr_CommandID target) (mr_SessionID target) CommandSent waMessageID "" sentAt);;
      mret (MkMessageOpResult target sentAt waMessageID)
  end.

Definition replayedMutation (command : MessageOpCommand) (r : CommandResultRecord) : goerr + MessageOpResult :=
  replayed r (MkMessageOpResult (replayed_target (opc_Target command) r) (rec_UpdatedAt r) (rec_WAMessageID r))
    "op previously failed: ".

Definition op_command (t : nat) (command : MessageOpCommand) : durableCommand MessageOpResult :=
  MkDurable (opc_Target command) ("message-op:" +:+ opc_Op command) (replayedMutation command) (executeOp t command)
    false (opc_ExpiresAt command).

Definition ExecuteOp (t : nat) (command : MessageOpCommand) : proc E MessageOpResult :=
  runDurableCommand t (op_command t command).

(** ** application_resources.go: durable mutations *)

(** The success of a mutation without a WhatsApp message id: the current clock
    stamps the record. *)
Definition record_mutation (target : MutationResult) (waMessageID : string) : proc E unit :=
  now ← read_clock;
  saveCommand (MkCommandResultRecord (mr_CommandID target) (mr_SessionID target) CommandSent waMessageID "" now).

Definition executeSetBlocked (t : nat) (command : ContactJIDCommand) : proc E MutationResult :=
  let target := cj_Target command in
  perform t (mr_CommandID target) (LiveSetBlocked (mr_SessionID target) (cj_JID command) (cj_Blocked command));;
  record_mutation target "";;
  mret target.

(** A replayed success carries the command id only. *)
Definition replayedBlockingMutation (r : CommandResultRecord) : goerr + MutationResult :=
  replayed r (MkMutationResult (rec_CommandID r) "" "" "" 0) "op previously failed: ".

Definition blocked_command (t : nat) (command : ContactJIDCommand) : durableCommand MutationResult :=
  MkDurable (cj_Target command) (if cj_Blocked command then "blocked:true" else "blocked:false")
    replayedBlockingMutation (executeSetBlocked t command) false None.

Definition SetBlocked (t : nat) (command : ContactJIDCommand) : proc E MutationResult :=
  runDurableCommand t (blocked_command t command).

Definition no_settings (s : GroupSettings) : bool :=
  is_none (gs_Subject s) && is_none (gs_Description s) && is_none (gs_Announce s) && is_none (gs_Locked s).

(** Validation first, then the one live call of the kind. *)
Definition executeGroupMutation (t : nat) (command : GroupMutationCommand) : proc E GroupInfo :=
  let target := gm_Target command in
  let session := mr_SessionID target in
  let live {A} (m : M L A) : proc E A := perform t (mr_CommandID target) m in
  match gm_Kind command with
  | GroupOpCreate =>
      if is_nil (gm_Participants command) then pthrow (ErrValidation "at least one participant is required")
      else live (LiveCreateGroup session (gm_Name command) (gm_Participants command))
  | GroupOpUpdateSettings =>
      if no_settings (gm_Settings command) then pthrow (ErrValidation "no group settings to update")
      else live (UpdateSettings session (gm_GroupJID command) (gm_Settings command));; mret blank_group
  | GroupOpUpdateParticipants =>
      if is_nil (gm_Participants command) then pthrow (ErrValidation "at least one participant is required")
      else if negb (bool_decide (gm_Action command ∈
                      [GroupActionAdd; GroupActionRemove; GroupActionPromote; GroupActionDemote])) then
        pthrow (ErrValidation "invalid participant action")
      else
        live (UpdateParticipants session (gm_GroupJID command) (gm_Participants command) (gm_Action command));;
        mret blank_group
  | GroupOpLeave => live (Leave session (gm_GroupJID command));; mret blank_group
  | GroupOpOther _ => pthrow (ErrValidation "invalid group operation")
  end.

Definition executeGroup (t : nat) (command : GroupMutationCommand) : proc E GroupCreateResult :=
  let target := gm_Target command in
  ran ← ptry (executeGroupMutation t command);
  match ran with
  | inl groupErr => reject_command target groupErr
  | inr info =>
      record_mutation target (gi_GroupJID info);;
      mret (MkGroupCreateResult target (groupInfoResult info))
  end.

Definition is_create (k : GroupMutationKind) : bool := match k with GroupOpCreate => true | _ => false end.

Definition replayedGroupMutation (command : GroupMutationCommand) (r : CommandResultRecord) : goerr + GroupCreateResult :=
  replayed r
    (MkGroupCreateResult (replayed_target (gm_Target command) r)
       (if is_create (gm_Kind command) then MkGroupInfo (rec_WAMessageID r) "" "" "" 0 false false else blank_group))
    "group op previously failed: ".

Definition group_command (t : nat) (command : GroupMutationCommand) : durableCommand GroupCreateResult :=
  MkDurable (gm_Target command) ("group:" +:+ kind_text (gm_Kind command)) (replayedGroupMutation command)
    (executeGroup t command) false None.

Definition MutateGroup (t : nat) (command : GroupMutationCommand) : proc E GroupCreateResult :=
  runDurableCommand t (group_command t command).

(** ** application_lifecycle.go: logout *)

Definition executeLogout (t : nat) (command : ContactJIDCommand) : proc E MutationResult :=
  let target := cj_Target command in
  perform t (mr_CommandID target) (LiveLogout (mr_SessionID target));;
  record_mutation target "";;
  mret target.

Definition logout_command (t : nat) (command : ContactJIDCommand) : durableCommand MutationResult :=
  MkDurable (cj_Target command) "logout" replayedBlockingMutation (executeLogout t command) true None.

Definition LogoutSession (t : nat) (command : ContactJIDCommand) : proc E MutationResult :=
  runDurableCommand t (logout_command t command).

(** ** Reads and mutations outside the ledger *)

(** A question to the fence, answered at the current clock; an adapter without a
    fence allows everything. *)
Definition ask_fence (answer : GoTime -> reconciler R -> bool) : proc E bool :=
  act (gets (fun w => negb (ad_fence a) || answer (en_now w) (en_fence w))).

Definition require (ok : bool) (err : goerr) : proc E unit := if ok then mret tt else pthrow err.
Definition refuse (err : option goerr) : proc E unit := match err with Some e => pthrow e | None => mret tt end.
Definition live {A} (m : M L A) : proc E A := act (on_live m).

Definition query_target (q : SessionStateQuery) : option goerr :=
  validateTarget (sq_OrganizationID q) (sq_SessionID q) (sq_GatewayID q).

Definition fenceQuery (q : SessionStateQuery) : proc E unit :=
  refuse (query_target q);;
  owns ← ask_fence (fun now f => negb (sq_AssignmentEpoch q =? 0) &&
                      OwnsSession (sq_OrganizationID q) (sq_SessionID q) (sq_AssignmentEpoch q) now f);
  require owns (ErrConflict "session assignment is not live").

Definition GetSessionState (q : SessionStateQuery) : proc E SessionState :=
  fenceQuery q;;
  found ← act (gets (fun w => ConnectionState (sq_SessionID q) (en_live w)));
  match found with
  | Some (status, connected, loggedIn) =>
      mret (MkSessionState (sq_OrganizationID q) (sq_SessionID q) (sq_GatewayID q) status connected loggedIn)
  | None => pthrow (ErrNotFound "session not found")
  end.

Definition mutation_fence (target : MutationResult) : proc E unit :=
  refuse (validateMutation target);;
  require (negb (mr_AssignmentEpoch target =? 0)) (ErrValidation "assignment_epoch must be at least 1");;
  allowed ← ask_fence (AllowsMutation (mr_OrganizationID target) (mr_SessionID target) (mr_AssignmentEpoch target));
  require allowed (ErrConflict "session assignment epoch is stale or lease expired").

Definition SetAccountPresence (command : SetPresenceCommand) : proc E MutationResult :=
  let target := sp_Target command in
  mutation_fence target;;
  require (bool_decide (sp_State command = AccountPresenceOnline) || bool_decide (sp_State command = AccountPresenceOffline))
    (ErrValidation "presence state must be online or offline");;
  live (SetPresence (mr_SessionID target) (sp_State command));;
  mret target.

Definition valid_jid (ok : string * string -> bool) (jid : string) : bool :=
  match ParseJID jid with Some j => ok j | None => false end.
Definition is_group_jid (jid : string) : bool :=
  valid_jid (fun j => bool_decide (j.2 = GroupServer)) jid.

(** The checks of a read receipt, in order. *)
Definition receipt_error (command : MarkReadCommand) (now : GoTime) : option goerr :=
  let chat := mk_ChatJID command in
  let sender := mk_SenderJID command in
  if negb (valid_jid validReceiptChatJID chat) then Some (ErrValidation "chat_jid is invalid")
  else if is_group_jid chat && bool_decide (sender = "") then
    Some (ErrValidation "sender_jid is required for group read receipts")
  else if negb (bool_decide (sender = "")) && negb (valid_jid validReceiptSenderJID sender) then
    Some (ErrValidation "sender_jid is invalid")
  else if bool_decide ("" ∈ mk_MessageIDs command) then
    Some (ErrValidation "message_ids must not contain empty values")
  else if After (mk_ReadAt command) (now + ad_maxFutureSkew a) then
    Some (ErrValidation "read_at exceeds allowed future clock skew")
  else None.

Definition MarkRead (command : MarkReadCommand) : proc E MutationResult :=
  let target := mk_Target command in
  mutation_fence target;;
  require (negb (bool_decide (mk_ChatJID command = "") || is_nil (mk_MessageIDs command) || IsZero (mk_ReadAt command)))
    (ErrValidation "chat_jid, message_ids, and read_at are required");;
  now ← read_clock;
  refuse (receipt_error command now);;
  live (SendReadReceiptAt (mr_SessionID target) (mk_ChatJID command) (mk_SenderJID command) (mk_MessageIDs command)
          (mk_ReadAt command));;
  mret target.

(** A fenced read of a field that must not be empty. *)
Definition fenced_read {A} (q : SessionStateQuery) (present : bool) (missing : string) (m : M L A) : proc E A :=
  fenceQuery q;;
  require present (ErrValidation missing);;
  live m.

Definition LookupContact (command : LookupContactCommand) : proc E (list ContactLookup) :=
  fenced_read (lk_Query command) (negb (is_nil (lk_Phones command))) "phones must not be empty"
    (IsOnWhatsApp (sq_SessionID (lk_Query command)) (lk_Phones command)).

Definition GetContactPicture (q : SessionStateQuery) (jid : string) : proc E ProfilePicture :=
  fenced_read q (negb (bool_decide (jid = ""))) "jid is required" (LiveProfilePicture (sq_SessionID q) jid).

Definition GetContactAbout (q : SessionStateQuery) (jid : string) : proc E string :=
  fenced_read q (negb (bool_decide (jid = ""))) "jid is required" (About (sq_SessionID q) jid).

Definition GetGroupInviteLink (q : SessionStateQuery) (groupJID : string) (reset : bool) : proc E string :=
  fenced_read q (negb (bool_decide (groupJID = ""))) "group_jid is required" (GetInviteLink (sq_SessionID q) groupJID reset).

Definition JoinGroup (q : SessionStateQuery) (invite : string) : proc E string :=
  fenced_read q (negb (bool_decide (invite = ""))) "invite is required" (JoinWithLink (sq_SessionID q) invite).

Definition GetChatPresence (q : SessionStateQuery) (chatJID : string) : proc E PresenceStatus :=
  fenced_read q (negb (bool_decide (chatJID = ""))) "chat_jid is required" (GetPresence (sq_SessionID q) chatJID).

Definition SetChatPresence (command : ChatPresenceCommand) : proc E unit :=
  fenced_read (cpr_Query command) (bool_decide (cpr_State command ∈ ["composing"; "paused"; "recording"]))
    "invalid chat presence state"
    (LiveSetChatPresence (sq_SessionID (cpr_Query command)) (cpr_ChatJID command) (cpr_State command)).

Definition BackfillSession (q : SessionStateQuery) : proc E BackfillSnapshot :=
  fenceQuery q;;
  live (BackfillSessionData (sq_SessionID q)).

(** ** application_lifecycle.go *)

Definition PrepareSession (q : SessionStateQuery) : proc E MutationResult :=
  refuse (query_target q);;
  live (modify (EnsureDevice (sq_SessionID q) (sq_OrganizationID q)));;
  mret (MkMutationResult "" (sq_OrganizationID q) (sq_SessionID q) (sq_GatewayID q) (sq_AssignmentEpoch q)).

Definition fencePairing (q : SessionStateQuery) : proc E unit :=
  refuse (query_target q);;
  owns ← ask_fence (fun now f => negb (sq_AssignmentEpoch q =? 0) &&
                      OwnsAssignment (sq_OrganizationID q) (sq_SessionID q) (sq_AssignmentEpoch q) now f);
  require owns (ErrConflict "session assignment is not live").

Definition latest_qr (id : string) : proc E PairingSnapshot :=
  act (gets (fun w => let '(code, exp) := LatestQR id (en_live w) in MkPairingSnapshot code exp)).

Definition BeginPairing (q : SessionStateQuery) : proc E PairingSnapshot :=
  fencePairing q;;
  current ← latest_qr (sq_SessionID q);
  if negb (bool_decide (pr_Code current = "")) then mret current
  else
    live (StartQR (sq_SessionID q));;
    latest_qr (sq_SessionID q).

Definition PairPhone (q : SessionStateQuery) (phone : string) : proc E string :=
  fencePairing q;;
  require (negb (bool_decide (phone = ""))) (ErrValidation "phone is required");;
  live (StartPairingCode (sq_SessionID q) phone).

Definition ForgetSession (organizationID sessionID : string) : proc E unit :=
  refuse (validateTarget organizationID sessionID (ad_gatewayID a));;
  live (modify (Forget sessionID)).

End Adapter.
End Engine.

Arguments MkDurable {L R T} _ _ _ _ _ _.
Arguments du_Target {L R T} _.
Arguments du_Operation {L R T} _.
Arguments du_Replay {L R T} _ _.
Arguments du_Execute {L R T} _.
Arguments du_AllowStopped {L R T} _.
Arguments du_ExpiresAt {L R T} _.
