(* ===== verification/CommandSafety.v ===== *)
(** What the command executor guarantees under every interleaving of its
    requests with each other, with the rest of the process and with crashes:
    invariants, the rely/guarantee proof of each program of [CommandExecution],
    and the theorems about runs. *)
From stdpp Require Import base gmap list option strings relations.
From S2P Require Import Prelude Journal Domain DesiredState Outbound GatewayEngine Concurrency CommandExecution.

#[local] Open Scope Z_scope.

(** ** Requests *)

(** The durable commands a gateway serves. *)
Inductive request :=
  | ReqSend (c : SendCommand)
  | ReqOp (c : MessageOpCommand)
  | ReqBlocked (c : ContactJIDCommand)
  | ReqGroup (c : GroupMutationCommand)
  | ReqLogout (c : ContactJIDCommand).

Definition req_target (q : request) : MutationResult :=
  match q with
  | ReqSend c => snd_Target c
  | ReqOp c => opc_Target c
  | ReqBlocked c | ReqLogout c => cj_Target c
  | ReqGroup c => gm_Target c
  end.

Definition event_thread (ev : engine_event) : option nat :=
  match ev with Fenced t _ _ _ _ => Some t | Executed t _ => Some t | Held _ _ => None end.
Definition events_of (t : nat) (l : list engine_event) : list engine_event := filter (fun ev => event_thread ev = Some t) l.

(** The commands a request has called WhatsApp for. *)
Definition calls_by (t : nat) (l : list engine_event) : list string :=
  omap (fun ev => match ev with Executed u id => if decide (u = t) then Some id else None | _ => None end) l.

(** The ledger held the row, and the request has made no call since. *)
Definition noted (t : nat) (id : string) (r : CmdRow) (l : list engine_event) : Prop :=
  exists l1 l2, l = l1 ++ Held id r :: l2 /\ calls_by t l2 = [].

Lemma calls_by_app t l l' : calls_by t (l ++ l') = calls_by t l ++ calls_by t l'.
Proof. apply omap_app. Qed.

Lemma calls_by_other t ev : event_thread ev <> Some t -> calls_by t [ev] = [].
Proof. destruct ev as [| u id |]; [done| |done]. cbn. intros Hne. by rewrite decide_False by congruence. Qed.

Lemma noted_app t id r l l' : calls_by t l' = [] -> noted t id r l -> noted t id r (l ++ l').
Proof.
  intros Hl' (l1 & l2 & -> & Hl2). exists l1, (l2 ++ l'). split; [by rewrite <- (assoc_L (++))|]. by rewrite calls_by_app, Hl2.
Qed.

Lemma noted_new t id r l : noted t id r (l ++ [Held id r]).
Proof. by exists l, []. Qed.

Definition executes (id : string) (ev : engine_event) : bool :=
  match ev with Executed _ x => bool_decide (x = id) | _ => false end.
(** How often WhatsApp was called for a command. *)
Definition executions (id : string) (l : list engine_event) : nat := length (filter (fun ev => executes id ev = true) l).

(** The kind of a flight's value, and the kind its operation announces. *)
Definition flight_kind (o : flight_result) : nat :=
  match o with SendFlight _ => 0 | OpFlight _ => 1 | MutationFlight _ => 2 | GroupFlight _ => 3 end.
Definition operation_kind (op : string) : nat :=
  if bool_decide (op = "send") then 0
  else if String.prefix "message-op:" op then 1
  else if String.prefix "group:" op then 3 else 2.

Lemma prefix_append p s : String.prefix p (p +:+ s) = true.
Proof. induction p as [|c p IH]; [by destruct s|]. change (String c p +:+ s) with (String c (p +:+ s)). cbn. by destruct (Ascii.ascii_dec c c). Qed.

(** A flight's answer is an error, or a success with the message id it reports. *)
Definition flight_message (o : flight_result) : option string :=
  match o with
  | SendFlight (inr v) => Some (smr_WAMessageID v)
  | OpFlight (inr v) => Some (mor_WAMessageID v)
  | MutationFlight (inr v) => Some ""
  | GroupFlight (inr v) => Some (gi_GroupJID (gcr_CreatedGroup v))
  | _ => None
  end.

Section Safety.
Context {L R : Type} `{OutboundLib} `{WAClient L} `{LiveOps L}.
Abbreviation E := (engine L R).
Variable a : adapter.

Definition serve (t : nat) (q : request) : proc E flight_result :=
  match q with
  | ReqSend c => pthen (SendMessage a t c) (fun r => Return (inr (to_flight r)))
  | ReqOp c => pthen (ExecuteOp a t c) (fun r => Return (inr (to_flight r)))
  | ReqBlocked c => pthen (SetBlocked a t c) (fun r => Return (inr (to_flight r)))
  | ReqGroup c => pthen (MutateGroup a t c) (fun r => Return (inr (to_flight r)))
  | ReqLogout c => pthen (LogoutSession a t c) (fun r => Return (inr (to_flight r)))
  end.

Definition ledger (w : E) : gmap string CmdRow := command_results (rows (en_journal w)).

(** ** The invariant *)

(** Every WhatsApp call of a command follows a positive answer of the fence to
    the same request for the same command. *)
Definition trace_ok (l : list engine_event) : Prop :=
  forall l1 t id l2, l = l1 ++ Executed t id :: l2 -> ad_fence a = true ->
  exists g stopped at_, Fenced t g stopped at_ true ∈ l1 /\ mr_CommandID g = id.

Definition pruned (now : GoTime) (r : CmdRow) : Prop := cr_expires_at r < UnixMilli now.

(** A row the ledger held at a moment of the history after which the request has
    made no call, and still holds or held until its retention ran out. *)
Definition seen (t : nat) (id : string) (r : CmdRow) (w : E) : Prop :=
  noted t id r (en_trace w) /\ (ledger w !! id = Some r \/ pruned (en_now w) r).

(** After the request's calls the ledger held a success of the command under the
    session. *)
Definition sent_row (t : nat) (g : MutationResult) (w : E) : Prop :=
  exists row, seen t (mr_CommandID g) row w /\ cr_session_id row = mr_SessionID g /\ cr_status row = CommandSent.

Record engine_ok (w : E) : Prop := {
  ok_flights id u : en_inFlight w !! id = Some u ->
    exists f, en_flights w !! u = Some f /\ mr_CommandID (fl_target f) = id;
  ok_kinds u f o : en_flights w !! u = Some f -> fl_outcome f = Some o -> flight_kind o = operation_kind (fl_operation f);
  ok_published u f o m : en_flights w !! u = Some f -> fl_outcome f = Some o -> flight_message o = Some m ->
    sent_row u (fl_target f) w;
  ok_trace : trace_ok (en_trace w);
}.

(** ** What a step may do *)

(** The answer [check_fence] gives. *)
Definition fence_answer (g : MutationResult) (stopped : bool) (w : E) : bool :=
  (if stopped then OwnsAssignment else AllowsMutation)
    (mr_OrganizationID g) (mr_SessionID g) (mr_AssignmentEpoch g) (en_now w) (en_fence w).

Definition fence_passed (t : nat) (g : MutationResult) (w : E) : Prop :=
  ad_fence a = true -> exists stopped at_, Fenced t g stopped at_ true ∈ en_trace w.

(** Request [t] leads the command of target [g]. *)
Definition leads (t : nat) (g : MutationResult) (op : string) (w : E) : Prop :=
  en_inFlight w !! mr_CommandID g = Some t /\ en_flights w !! t = Some (MkFlight g op None).

Inductive event_allowed (t : nat) (w w' : E) : engine_event -> Prop :=
  | fenced_allowed g stopped :
      event_allowed t w w' (Fenced t g stopped (en_now w) (fence_answer g stopped w))
  | executed_allowed g op :
      leads t g op w -> ledger w !! mr_CommandID g = None -> fence_passed t g w ->
      event_allowed t w w' (Executed t (mr_CommandID g))
  | held_allowed id row :
      ledger w' !! id = Some row -> event_allowed t w w' (Held id row).

Definition flight_grows (f f' : option commandFlight) : Prop :=
  match f, f' with
  | None, _ => True
  | Some f, Some f' => fl_target f' = fl_target f /\ fl_operation f' = fl_operation f /\
      (forall o, fl_outcome f = Some o -> f' = f)
  | Some _, None => False
  end.

(** A step of request [t] touches only the flights and the commands it leads. *)
Record guar (t : nat) (w w' : E) : Prop := {
  g_flights u : u <> t -> en_flights w' !! u = en_flights w !! u;
  g_mine : flight_grows (en_flights w !! t) (en_flights w' !! t);
  g_inFlight id u : u <> t -> (en_inFlight w' !! id = Some u <-> en_inFlight w !! id = Some u);
  g_ledger id : ledger w' !! id = ledger w !! id \/ (ledger w !! id = None /\ en_inFlight w !! id = Some t);
  g_now : en_now w' = en_now w;
  g_trace : en_trace w' = en_trace w \/ exists ev, en_trace w' = en_trace w ++ [ev] /\ event_allowed t w w' ev;
}.

(** The rest of the process: the clock advances, journal maintenance prunes
    expired results, desired state, WhatsApp sessions and request contexts
    change. *)
Record env (w w' : E) : Prop := {
  e_flights : en_flights w' = en_flights w;
  e_inFlight : en_inFlight w' = en_inFlight w;
  e_ledger id : ledger w' !! id = ledger w !! id \/
    (ledger w' !! id = None /\ exists r, ledger w !! id = Some r /\ pruned (en_now w') r);
  e_now : en_now w <= en_now w';
  e_trace : en_trace w' = en_trace w;
}.

(** A crash and restart: the requests and the map of flights are gone, the
    journal file stays. *)
Record crashed (w w' : E) : Prop := {
  c_flights : en_flights w' = ∅;
  c_inFlight : en_inFlight w' = ∅;
  c_ledger : ledger w' = ledger w;
  c_now : en_now w <= en_now w';
  c_trace : en_trace w' = en_trace w;
}.

(** A request waits only when another one leads its command and has not answered. *)
Definition waiting (t : nat) (w : E) : Prop :=
  en_flights w !! t = None /\ exists u f, u <> t /\ en_flights w !! u = Some f /\ fl_outcome f = None.

Abbreviation rely_ := (rely guar env).
Abbreviation stable_ := (stable engine_ok guar env).
Abbreviation pspec_ := (pspec engine_ok guar env waiting).

Lemma guar_refl t w : guar t w w.
Proof. constructor; auto. by destruct (en_flights w !! t). Qed.

Lemma pruned_mono r (now now' : GoTime) : now <= now' -> pruned now r -> pruned now' r.
Proof. unfold pruned. intros Hle%UnixMilli_mono Hp. lia. Qed.

Lemma event_allowed_thread t w w' ev : event_allowed t w w' ev -> event_thread ev = Some t \/ event_thread ev = None.
Proof. destruct 1; auto. Qed.

Lemma env_seen t w w' id r : env w w' -> seen t id r w -> seen t id r w'.
Proof.
  intros He [Hn Hs]. split; [by rewrite (e_trace _ _ He)|]. destruct Hs as [Hs|Hp].
  - destruct (e_ledger _ _ He id) as [Heq|[_ (r' & Hr' & Hpr)]]; [left; congruence|right]. by simplify_eq.
  - right. exact (pruned_mono _ _ _ (e_now _ _ He) Hp).
Qed.

(** A step of another request, or a step of its own that makes no call. *)
Lemma guar_seen t u w w' id r :
  guar t w w' -> u <> t \/ calls_by u (en_trace w') = calls_by u (en_trace w) -> seen u id r w -> seen u id r w'.
Proof.
  intros Hg Hu [Hn Hs]. split.
  - destruct (g_trace _ _ _ Hg) as [->|(ev & Htr & Hev)]; [done|]. rewrite Htr in Hu |- *. apply noted_app; [|done].
    destruct Hu as [Hu|Hu].
    + apply calls_by_other. destruct (event_allowed_thread _ _ _ _ Hev) as [->| ->]; congruence.
    + rewrite calls_by_app in Hu. apply (app_inv_head (calls_by u (en_trace w))). by rewrite app_nil_r.
  - destruct Hs as [Hs|Hp]; [left|right; by rewrite (g_now _ _ _ Hg)].
    destruct (g_ledger _ _ _ Hg id) as [->|[Hnone _]]; congruence.
Qed.

Lemma sent_row_mono u g w w' : (forall id r, seen u id r w -> seen u id r w') -> sent_row u g w -> sent_row u g w'.
Proof. intros Hs (row & Hrow & Hrest). exists row. split; [by apply Hs|done]. Qed.

(** A change that leaves the flights alone and forgets no row a flight published. *)
Lemma engine_ok_frame w w' :
  en_flights w' = en_flights w -> en_inFlight w' = en_inFlight w -> trace_ok (en_trace w') ->
  (forall u f o, en_flights w !! u = Some f -> fl_outcome f = Some o -> forall id r, seen u id r w -> seen u id r w') ->
  engine_ok w -> engine_ok w'.
Proof.
  intros Hf Hin Ht Hs [Hok1 Hok2 Hok3 _]. constructor; rewrite ?Hf, ?Hin; auto.
  intros u f o m Hu Ho Hm. exact (sent_row_mono _ _ _ _ (Hs u f o Hu Ho) (Hok3 _ _ _ _ Hu Ho Hm)).
Qed.

Lemma env_ok w w' : env w w' -> engine_ok w -> engine_ok w'.
Proof.
  intros He Hi. apply (engine_ok_frame w); try apply He; [|by intros u f o _ _ id r; apply env_seen|done].
  rewrite (e_trace _ _ He). apply Hi.
Qed.

Lemma crashed_ok w w' : crashed w w' -> engine_ok w -> engine_ok w'.
Proof.
  intros [Hf Hi _ _ Ht] [_ _ _ Hok]. constructor; rewrite ?Hf, ?Hi, ?Ht; [..|done]; intros *; by rewrite lookup_empty.
Qed.

(** ** Stable assertions *)

(** Request [t] has done nothing yet; the commands it has called WhatsApp for. *)
Definition fresh (t : nat) (w : E) : Prop := en_flights w !! t = None /\ events_of t (en_trace w) = [].
Definition executed_by (t : nat) (w : E) : list string := calls_by t (en_trace w).

(** [u] leads or led a command of the same owner and operation, and answered [o]. *)
Definition flight_of (u : nat) (g : MutationResult) (op : string) (w : E) : Prop :=
  exists f, en_flights w !! u = Some f /\ fl_operation f = op /\ same_owner (fl_target f) g = true /\
    mr_CommandID (fl_target f) = mr_CommandID g.
Definition answered (u : nat) (g : MutationResult) (op : string) (o : flight_result) (w : E) : Prop :=
  exists f, en_flights w !! u = Some f /\ fl_operation f = op /\ same_owner (fl_target f) g = true /\
    mr_CommandID (fl_target f) = mr_CommandID g /\ fl_outcome f = Some o.

(** The events of the others are not the request's own. *)
Lemma others_trace t w w' : rely_ t w w' -> exists l,
  en_trace w' = en_trace w ++ l /\ forall ev, ev ∈ l -> event_thread ev <> Some t.
Proof.
  intros [He|(u & Hne & Hg)]; [exists []; rewrite (e_trace _ _ He), app_nil_r; split; [done|by intros ev ?%not_elem_of_nil]|].
  destruct (g_trace _ _ _ Hg) as [->|(ev & -> & Hev)]; [exists []; rewrite app_nil_r; split; [done|by intros ev ?%not_elem_of_nil]|].
  exists [ev]. split; [done|]. intros ev' ->%list_elem_of_singleton.
  destruct (event_allowed_thread _ _ _ _ Hev) as [->| ->]; congruence.
Qed.

Lemma no_calls t l : (forall ev, ev ∈ l -> event_thread ev <> Some t) -> calls_by t l = [].
Proof.
  induction l as [|ev l IH]; [done|]. intros Hl. change (ev :: l) with ([ev] ++ l).
  rewrite calls_by_app, IH, (calls_by_other t ev); [done|apply Hl; left|intros ev' Hin; apply Hl; by right].
Qed.

Lemma trace_of_others t w w' : rely_ t w w' -> events_of t (en_trace w') = events_of t (en_trace w).
Proof.
  intros (l & -> & Hl)%others_trace. unfold events_of. rewrite filter_app. rewrite <- (app_nil_r (filter _ (en_trace w))) at 2.
  f_equal. induction l as [|ev l IH]; [done|]. rewrite filter_cons_False by (apply Hl; left).
  apply IH. intros ev' Hin. apply Hl. by right.
Qed.

Lemma executed_by_others t w w' : rely_ t w w' -> executed_by t w' = executed_by t w.
Proof. intros (l & Htr & Hl)%others_trace. unfold executed_by. by rewrite Htr, calls_by_app, (no_calls _ _ Hl), app_nil_r. Qed.

Lemma trace_grows t w w' ev : rely_ t w w' -> ev ∈ en_trace w -> ev ∈ en_trace w'.
Proof.
  intros [He|(u & _ & Hg)] Hin; [by rewrite (e_trace _ _ He)|].
  destruct (g_trace _ _ _ Hg) as [->|(ev' & -> & _)]; [done|]. apply elem_of_app. by left.
Qed.

Lemma flight_others t w w' : rely_ t w w' -> en_flights w' !! t = en_flights w !! t.
Proof. intros [He|(u & Hne & Hg)]; [by rewrite (e_flights _ _ He)|apply (g_flights _ _ _ Hg); congruence]. Qed.

Lemma inFlight_others t w w' id : rely_ t w w' -> en_inFlight w' !! id = Some t <-> en_inFlight w !! id = Some t.
Proof. intros [He|(u & Hne & Hg)]; [by rewrite (e_inFlight _ _ He)|apply (g_inFlight _ _ _ Hg); congruence]. Qed.

Lemma fresh_stable t : stable_ t (fresh t).
Proof. intros w w' _ _ Hr [Hf He]. split; [by rewrite (flight_others _ _ _ Hr)|by rewrite (trace_of_others _ _ _ Hr)]. Qed.

Lemma leads_stable t g op : stable_ t (leads t g op).
Proof. intros w w' _ _ Hr [Hi Hf]. split; [by apply (inFlight_others _ _ _ _ Hr)|by rewrite (flight_others _ _ _ Hr)]. Qed.

Lemma executed_stable t l : stable_ t (fun w => executed_by t w = l).
Proof. intros w w' _ _ Hr Hl. by rewrite (executed_by_others _ _ _ Hr). Qed.

Lemma passed_stable t g : stable_ t (fence_passed t g).
Proof. intros w w' _ _ Hr Hp Ha. destruct (Hp Ha) as (s & x & Hin). exists s, x. exact (trace_grows _ _ _ _ Hr Hin). Qed.

(** While [t] leads a command nobody else writes its result. *)
Lemma clean_stable t g op : stable_ t (fun w => leads t g op w /\ ledger w !! mr_CommandID g = None).
Proof.
  intros w w' Hi Hi' Hr [Hl Hn]. split; [exact (leads_stable _ _ _ _ _ Hi Hi' Hr Hl)|].
  destruct Hr as [He|(u & Hne & Hg)].
  - destruct (e_ledger _ _ He (mr_CommandID g)) as [->|[-> _]]; done.
  - destruct (g_ledger _ _ _ Hg (mr_CommandID g)) as [->|[_ Hu]]; [done|]. destruct Hl as [Ht _]. congruence.
Qed.

Lemma seen_stable t id r : stable_ t (seen t id r).
Proof. intros w w' _ _ [He|(u & Hne & Hg)]; [by apply env_seen|]. apply (guar_seen _ _ _ _ _ _ Hg). by left. Qed.

Lemma flight_rely t u w w' f : rely_ t w w' -> en_flights w !! u = Some f ->
  exists f', en_flights w' !! u = Some f' /\ fl_target f' = fl_target f /\ fl_operation f' = fl_operation f /\
    (forall o, fl_outcome f = Some o -> fl_outcome f' = Some o).
Proof.
  intros [He|(v & _ & Hg)] Hf.
  - rewrite (e_flights _ _ He). eauto.
  - destruct (decide (u = v)) as [->|Hne].
    + pose proof (g_mine _ _ _ Hg) as Hm. rewrite Hf in Hm. cbn in Hm.
      destruct (en_flights w' !! v) as [f'|]; [|done]. destruct Hm as (Ht & Ho & Hr). exists f'.
      split; [done|]. split; [done|]. split; [done|]. intros o Hout. by rewrite (Hr _ Hout).
    + rewrite (g_flights _ _ _ Hg) by done. eauto.
Qed.

Lemma flight_of_stable t u g op : stable_ t (flight_of u g op).
Proof.
  intros w w' _ _ Hr (f & Hf & Hop & Hs & Hid). destruct (flight_rely _ _ _ _ _ Hr Hf) as (f' & Hf' & Ht & Ho & _).
  exists f'. rewrite Ht, Ho. split_and!; auto.
Qed.

Lemma answered_stable t u g op o : stable_ t (answered u g op o).
Proof.
  intros w w' _ _ Hr (f & Hf & Hop & Hs & Hid & Hout). destruct (flight_rely _ _ _ _ _ Hr Hf) as (f' & Hf' & Ht & Ho & Hk).
  exists f'. rewrite Ht, Ho. split_and!; auto.
Qed.

(** Nothing of [t] is left in the map of commands, and its own flight, if it had
    one, has its answer. *)
Definition released (t : nat) (w : E) : Prop :=
  (forall id, en_inFlight w !! id <> Some t) /\ forall f, en_flights w !! t = Some f -> is_Some (fl_outcome f).
Definition unled (t : nat) (w : E) : Prop := en_flights w !! t = None.

Lemma released_stable t : stable_ t (released t).
Proof.
  intros w w' _ _ Hr [Hin Hf]. split.
  - intros id Ht. apply (inFlight_others _ _ _ _ Hr) in Ht. by apply (Hin id).
  - rewrite (flight_others _ _ _ Hr). exact Hf.
Qed.
Lemma unled_stable t : stable_ t (unled t).
Proof. intros w w' _ _ Hr Hu. unfold unled. by rewrite (flight_others _ _ _ Hr). Qed.
Lemma unled_released t w : engine_ok w -> unled t w -> released t w.
Proof.
  intros Hi Hu. split; [|intros f Hf; unfold unled in Hu; congruence].
  intros id Hin. destruct (ok_flights _ Hi _ _ Hin) as (f & Hf & _). unfold unled in Hu. congruence.
Qed.

(** ** The atomic actions *)

Lemma trace_ok_snoc l ev : trace_ok l ->
  (forall t id, ev = Executed t id -> ad_fence a = true ->
     exists g stopped at_, Fenced t g stopped at_ true ∈ l /\ mr_CommandID g = id) -> trace_ok (l ++ [ev]).
Proof.
  intros Hl Hev l1 t id l2 Heq Ha. destruct (decide (l2 = [])) as [->|Hne].
  - apply app_inj_tail in Heq as [<- Heq]. exact (Hev _ _ Heq Ha).
  - destruct (exists_last Hne) as (l2' & ev' & ->). rewrite app_comm_cons, app_assoc in Heq.
    apply app_inj_tail in Heq as [Heq _]. exact (Hl _ _ _ _ Heq Ha).
Qed.

Lemma fresh_executed t w : fresh t w -> executed_by t w = [].
Proof.
  intros [_ He]. apply no_calls. intros ev Hin Ht. eapply filter_nil_not_elem_of; [exact He|exact Ht|exact Hin].
Qed.

Definition leader0 (t : nat) (g : MutationResult) (op : string) (w : E) : Prop :=
  leads t g op w /\ executed_by t w = [].
Definition clean (t : nat) (g : MutationResult) (op : string) (l : list string) (w : E) : Prop :=
  (leads t g op w /\ ledger w !! mr_CommandID g = None) /\ executed_by t w = l.
Definition ready (t : nat) (g : MutationResult) (op : string) (w : E) : Prop :=
  clean t g op [] w /\ fence_passed t g w.

Lemma leader0_stable t g op : stable_ t (leader0 t g op).
Proof. apply stable_and; [apply leads_stable|apply executed_stable]. Qed.
Lemma clean_l_stable t g op l : stable_ t (clean t g op l).
Proof. apply stable_and; [apply clean_stable|apply executed_stable]. Qed.
Lemma ready_stable t g op : stable_ t (ready t g op).
Proof. apply stable_and; [apply clean_l_stable|apply passed_stable]. Qed.

Lemma joinCommand_spec t g op :
  pspec_ t (act (joinCommand t g op)) (fresh t) (fun r w =>
    match r with
    | inl _ => unled t w /\ executed_by t w = []
    | inr (u, false) => u = t /\ leader0 t g op w
    | inr (u, true) => (u <> t /\ flight_of u g op w) /\ unled t w /\ executed_by t w = []
    end).
Proof.
  apply pspec_act.
  - intros [e|[u []]]; [apply stable_and; [apply unled_stable|apply executed_stable]| |].
    + apply stable_and; [apply stable_and; [apply stable_pure|apply flight_of_stable]|].
      apply stable_and; [apply unled_stable|apply executed_stable].
    + apply stable_and; [apply stable_pure|apply leader0_stable].
  - intros w r w' Hi Hf Hrun. pose proof (fresh_executed _ _ Hf) as Hex. destruct Hf as [Hnone Hev].
    unfold joinCommand in Hrun. destruct (en_inFlight w !! mr_CommandID g) as [u|] eqn:Hin.
    + destruct (ok_flights _ Hi _ _ Hin) as (f & Hfl & Hid). rewrite Hfl in Hrun.
      destruct (negb (same_owner (fl_target f) g)) eqn:Hs; cbn [orb] in Hrun;
        [injection Hrun as <- <-; split; [apply guar_refl|by split]|].
      destruct (negb (bool_decide (fl_operation f = op))) eqn:Ho; injection Hrun as <- <-;
        (split; [apply guar_refl|split; [done|]]); [done|].
      split; [|done]. split; [congruence|]. exists f. apply negb_false_iff in Hs, Ho. apply bool_decide_eq_true in Ho. done.
    + injection Hrun as <- <-. split; [|split].
      * constructor; cbn; auto.
        -- intros u Hu. by rewrite lookup_insert_ne.
        -- by rewrite Hnone.
        -- intros id u Hu. destruct (decide (id = mr_CommandID g)) as [->|Hid].
           ++ rewrite lookup_insert_eq, Hin. split; congruence.
           ++ by rewrite lookup_insert_ne.
      * constructor; cbn.
        -- intros id u. rewrite lookup_insert_Some. intros [[<- <-]|[Hid Hu]].
           ++ eexists. by rewrite lookup_insert_eq.
           ++ destruct (ok_flights _ Hi _ _ Hu) as (f & Hfl & Hf). exists f. split; [|done].
              rewrite lookup_insert_ne; [done|congruence].
        -- intros u f o. rewrite lookup_insert_Some. intros [[<- <-]|[Hid Hu]] Ho; [discriminate|].
           exact (ok_kinds _ Hi _ _ _ Hu Ho).
        -- intros u f o m. rewrite lookup_insert_Some. intros [[<- <-]|[Hid Hu]] Ho; [discriminate|].
           exact (ok_published _ Hi _ _ _ _ Hu Ho).
        -- exact (ok_trace _ Hi).
      * split; [done|]. split; [|exact Hex]. split; cbn; apply lookup_insert_eq.
Qed.

(** A call of the ledger that only adds the result of a command [t] leads; the
    history then has the row the ledger holds for it. *)
Lemma ledger_step t g op w d :
  let w' := note_row (mr_CommandID g) (set_journal d w) in
  engine_ok w -> leads t g op w ->
  (forall id, command_results (rows d) !! id = ledger w !! id \/
     (ledger w !! id = None /\ id = mr_CommandID g)) ->
  guar t w w' /\ engine_ok w' /\ leads t g op w' /\ executed_by t w' = executed_by t w /\
  ledger w' = command_results (rows d) /\
  (forall row, ledger w' !! mr_CommandID g = Some row -> seen t (mr_CommandID g) row w').
Proof.
  intros w' Hi Hl Hd.
  assert (Hw' : w' = set_journal d w \/ exists row, command_results (rows d) !! mr_CommandID g = Some row /\
    w' = log_event (Held (mr_CommandID g) row) (set_journal d w)).
  { unfold w', note_row. cbn. destruct (command_results (rows d) !! mr_CommandID g) as [row|]; [right|by left]. by exists row. }
  assert (Hled : ledger w' = command_results (rows d)) by (destruct Hw' as [->|(row & _ & ->)]; done).
  assert (Hcalls : forall u, calls_by u (en_trace w') = calls_by u (en_trace w)).
  { intros u. destruct Hw' as [->|(row & _ & ->)]; [done|]. cbn [log_event en_trace]. by rewrite calls_by_app, app_nil_r. }
  assert (Hl' : leads t g op w') by (destruct Hw' as [->|(row & _ & ->)]; exact Hl).
  assert (Hg : guar t w w').
  { assert (Hfl : en_flights w' = en_flights w /\ en_inFlight w' = en_inFlight w /\ en_now w' = en_now w)
      by (destruct Hw' as [->|(row & _ & ->)]; done). destruct Hfl as (Hf & Hin & Hnow).
    constructor; rewrite ?Hf, ?Hin; auto; [by destruct (en_flights w !! t)| |].
    - intros id. rewrite Hled. destruct (Hd id) as [Hs|[Hn ->]]; [by left|]. right. split; [done|apply Hl].
    - destruct Hw' as [Heq|(row & Hrow & Heq)]; [left; by rewrite Heq|right]. exists (Held (mr_CommandID g) row).
      split; [by rewrite Heq|]. constructor. by rewrite Hled. }
  split; [done|]. split; [|split; [done|split; [apply Hcalls|split; [done|]]]].
  - apply (engine_ok_frame w); [by destruct Hw' as [->|(row & _ & ->)]..| | |done].
    + destruct Hw' as [->|(row & _ & ->)]; [apply Hi|]. apply trace_ok_snoc; [apply Hi|]. discriminate.
    + intros u f o _ _ id r. apply (guar_seen _ _ _ _ _ _ Hg). right. apply Hcalls.
  - intros row Hrow. split; [|by left]. rewrite Hled in Hrow.
    destruct Hw' as [Heq|(row' & Hrow' & Heq)].
    + unfold w', note_row in Heq. cbn in Heq. rewrite Hrow in Heq. unfold w', note_row. cbn. rewrite Hrow. apply noted_new.
    + rewrite Heq. simplify_eq. apply noted_new.
Qed.

Definition row_record (id : string) (r : CmdRow) : CommandResultRecord :=
  MkCommandResultRecord id (cr_session_id r) (cr_status r) (cr_wa_message_id r) (cr_error r) (FromUnixMilli (cr_updated_at r)).

Lemma LookupCommand_run id d r d' :
  ledger_LookupCommand id d = (r, d') ->
  rows d' = rows d /\ (forall o, r = inr o -> o = row_record id <$> command_results (rows d) !! id).
Proof.
  unfold ledger_LookupCommand, LookupCommand. intros Hrun.
  destruct (bool_decide (id = "")); [by injection Hrun as <- <-|].
  unfold map_err, query, stmt, mbind, M_bind in Hrun.
  destruct (head (faults d)) as [[e|]|]; cbn in Hrun; injection Hrun as <- <-; (split; [done|]); [done| |];
    intros o [= <-]; by destruct (command_results (rows d) !! id).
Qed.

Lemma lookup_spec t g op :
  pspec_ t (lookupCommand a (mr_CommandID g)) (leader0 t g op) (fun r w =>
    match r with
    | inl _ => leader0 t g op w
    | inr None => clean t g op [] w
    | inr (Some rec) => leader0 t g op w /\ exists row, seen t (mr_CommandID g) row w /\ rec = row_record (mr_CommandID g) row
    end).
Proof.
  unfold lookupCommand. destruct (ad_ledger a); cbn [negb]; [|by intros w Hi Hw].
  apply pspec_act.
  - intros [e|[rec|]]; [apply leader0_stable| |apply clean_l_stable].
    apply stable_and; [apply leader0_stable|]. apply stable_ex. intros row.
    apply stable_and; [apply seen_stable|apply stable_pure].
  - intros w r w' Hi [Hl Hex] Hrun. unfold on_ledger, on_journal in Hrun.
    destruct (map_err _ _ _) as [r' d] eqn:Hmap. injection Hrun as <- <-.
    unfold map_err in Hmap. destruct (ledger_LookupCommand (mr_CommandID g) (en_journal w)) as [r0 d0] eqn:Hlk.
    apply LookupCommand_run in Hlk as [Hrows Hval].
    assert (Hd : d = d0) by (destruct r0; congruence). subst d0.
    destruct (ledger_step t g op w d Hi Hl) as (Hg & Hi' & Hl' & Hx & Hled & Hseen); [intros id; left; by rewrite Hrows|].
    split; [exact Hg|]. split; [exact Hi'|]. rewrite <- Hx in Hex.
    destruct r0 as [e|o]; injection Hmap as <-; [by split|]. rewrite (Hval o eq_refl), <- Hrows, <- Hled.
    match goal with |- context [row_record _ <$> ?x] => destruct x as [row|] eqn:Hrow end; cbn.
    + split; [by split|]. exists row. split; [by apply Hseen|done].
    + split; [by split|done].
Qed.

Lemma fence_spec t g op stopped :
  pspec_ t (act (check_fence a t g stopped)) (clean t g op []) (fun r w =>
    match r with inr true => ready t g op w | _ => clean t g op [] w end).
Proof.
  apply pspec_act; [intros [e|[]]; [apply clean_l_stable|apply ready_stable|apply clean_l_stable]|].
  intros w r w' Hi Hc Hrun. unfold check_fence in Hrun. destruct (ad_fence a) eqn:Ha; cbn [negb] in Hrun.
  - injection Hrun as <- <-. fold (fence_answer g stopped w).
    assert (Hc' : clean t g op [] (log_event (Fenced t g stopped (en_now w) (fence_answer g stopped w)) w)).
    { destruct Hc as [[Hl Hn] Hex]. split; [by split|]. unfold executed_by in *. cbn [log_event en_trace]. by rewrite calls_by_app, Hex. }
    assert (Hg : guar t w (log_event (Fenced t g stopped (en_now w) (fence_answer g stopped w)) w))
      by (constructor; cbn; auto; [by destruct (en_flights w !! t)|]; right; eexists; split; [done|]; constructor).
    split; [exact Hg|split].
    + apply (engine_ok_frame w); [done..| | |done]; [apply trace_ok_snoc; [apply Hi|]; discriminate|].
      intros u f o _ _ id r. apply (guar_seen _ _ _ _ _ _ Hg). right. cbn [log_event en_trace]. by rewrite calls_by_app, app_nil_r.
    + destruct (fence_answer g stopped w) eqn:Hans; [|done]. split; [done|]. intros _.
      exists stopped, (en_now w). cbn. apply elem_of_app. right. by apply list_elem_of_singleton.
  - injection Hrun as <- <-. split; [apply guar_refl|]. split; [done|]. split; [done|]. congruence.
Qed.

Lemma expired_spec t g op x :
  pspec_ t (act (command_expired x)) (ready t g op) (fun _ => ready t g op).
Proof. apply pspec_gets; [apply ready_stable|intros w _; apply guar_refl]. Qed.

Lemma clock_spec t P : stable_ t P -> pspec_ t read_clock P (fun _ => P).
Proof. intros HP. apply pspec_gets; [done|intros w _; apply guar_refl]. Qed.

Lemma perform_spec {A} t g op (m : M L A) :
  pspec_ t (perform t (mr_CommandID g) m) (ready t g op) (fun _ => clean t g op [mr_CommandID g]).
Proof.
  apply pspec_act; [intros _; apply clean_l_stable|].
  intros w r w' Hi [[[Hl Hn] Hex] Hp] Hrun. unfold mbind, M_bind, modify, on_live in Hrun.
  destruct (m _) as [r' l'] eqn:Hm. injection Hrun as <- <-.
  match goal with |- guar t w ?x /\ _ => assert (Hg : guar t w x) end.
  { constructor; cbn; auto; [by destruct (en_flights w !! t)|]. right. eexists. split; [done|].
    by apply (executed_allowed t w _ g op). }
  split; [exact Hg|split].
  - apply (engine_ok_frame w); [done..| | |done].
    + apply trace_ok_snoc; [apply Hi|]. intros t' id [= <- <-] Ha. destruct (Hp Ha) as (s & x & Hin). by exists g, s, x.
    + intros u f o Hu Ho id row. apply (guar_seen _ _ _ _ _ _ Hg). left. intros ->. destruct Hl as [_ Hfl]. by simplify_eq.
  - split; [by split|]. unfold executed_by in *. cbn [log_event set_live en_trace]. rewrite calls_by_app, Hex. cbn. by rewrite decide_True.
Qed.

(** The row a saved record leaves. *)
Definition record_row (r : CommandResultRecord) : CmdRow := {|
  cr_session_id := rec_SessionID r; cr_status := rec_Status r; cr_wa_message_id := rec_WAMessageID r;
  cr_error := rec_Error r; cr_updated_at := UnixMilli (rec_UpdatedAt r);
  cr_expires_at := UnixMilli (rec_UpdatedAt r + CommandResultRetention) |}.

Lemma SaveCommand_run r d r' d' :
  ledger_SaveCommandResult r d = (r', d') -> command_results (rows d) !! rec_CommandID r = None ->
  (rows d' = rows d /\ exists e, r' = inl e) \/
  (r' = inr tt /\ command_results (rows d') = <[rec_CommandID r := record_row r]> (command_results (rows d))).
Proof.
  intros Hrun Hnone. unfold ledger_SaveCommandResult, SaveCommandResult in Hrun.
  destruct (_ || _ || _); [injection Hrun as <- <-; eauto|]. destruct (_ && _); [injection Hrun as <- <-; eauto|].
  unfold map_err, exec, stmt in Hrun. cbn [c_CommandID c_SessionID c_Status c_WAMessageID c_Error c_UpdatedAt] in Hrun.
  destruct (head (faults d)) as [[e|]|]; [injection Hrun as <- <-; eauto| |];
    rewrite Hnone in Hrun; injection Hrun as <- <-; right; done.
Qed.

Lemma save_spec t g op l r :
  rec_CommandID r = mr_CommandID g ->
  pspec_ t (saveCommand r) (clean t g op l) (fun res w =>
    (leads t g op w /\ executed_by t w = l) /\ (res = inr tt -> seen t (mr_CommandID g) (record_row r) w)).
Proof.
  intros Hid. apply pspec_act.
  - intros res. apply stable_and; [apply stable_and; [apply leads_stable|apply executed_stable]|].
    intros w w' Hi Hi' Hr Hs Hres. exact (seen_stable _ _ _ _ _ Hi Hi' Hr (Hs Hres)).
  - intros w res w' Hi [[Hl Hn] Hex] Hrun. unfold on_ledger, on_journal in Hrun. rewrite Hid in Hrun.
    destruct (map_err _ _ _) as [r' d] eqn:Hmap. injection Hrun as <- <-.
    unfold map_err in Hmap. destruct (ledger_SaveCommandResult r (en_journal w)) as [r0 d0] eqn:Hsv.
    assert (Hd : d = d0) by (destruct r0; congruence). subst d0.
    apply SaveCommand_run in Hsv as [[Hrows [e ->]]|[-> Hres]]; [| |by rewrite Hid].
    + destruct (ledger_step t g op w d Hi Hl) as (Hg & Hi' & Hl' & Hx & _); [intros id; left; by rewrite Hrows|].
      injection Hmap as <-. split; [done|]. split; [done|]. rewrite <- Hx in Hex. by split.
    + injection Hmap as <-. destruct (ledger_step t g op w d Hi Hl) as (Hg & Hi' & Hl' & Hx & Hled & Hseen).
      { intros id. rewrite Hres, Hid. destruct (decide (id = mr_CommandID g)) as [->|Hne].
        - right. by split.
        - left. by rewrite lookup_insert_ne. }
      split; [done|]. split; [done|]. rewrite <- Hx in Hex. split; [by split|]. intros _. apply Hseen.
      rewrite Hled, Hres, Hid. apply lookup_insert_eq.
Qed.

(** ** The bodies of the commands

    A body leaves the command to its leader, has called WhatsApp at most once,
    and answers a success only after the row with its message id is in the
    ledger. *)
Definition seen_message (t : nat) (g : MutationResult) (m : string) (w : E) : Prop :=
  exists row, seen t (mr_CommandID g) row w /\ cr_session_id row = mr_SessionID g /\ cr_status row = CommandSent /\
    cr_wa_message_id row = m.

Definition ran (t : nat) (g : MutationResult) (o : flight_result) (w : E) : Prop :=
  ((executed_by t w = [] /\ flight_message o = None) \/ executed_by t w = [mr_CommandID g]) /\
  (forall m, flight_message o = Some m -> seen_message t g m w).

Definition settled (t : nat) (g : MutationResult) (op : string) (o : flight_result) (w : E) : Prop :=
  leads t g op w /\ ran t g o w.

Lemma ran_stable t g o : stable_ t (ran t g o).
Proof.
  apply stable_and; [apply stable_or; [apply stable_and; [apply executed_stable|apply stable_pure]|apply executed_stable]|].
  intros w w' Hi Hi' Hr Hs m Hm. destruct (Hs m Hm) as (row & Hrow & Hrest). exists row.
  split; [exact (seen_stable _ _ _ _ _ Hi Hi' Hr Hrow)|done].
Qed.

Lemma settled_stable t g op o : stable_ t (settled t g op o).
Proof. apply stable_and; [apply leads_stable|apply ran_stable]. Qed.

Definition body_ok {T} `{FlightResult T} (t : nat) (g : MutationResult) (op : string) (p : proc E T) : Prop :=
  pspec_ t p (ready t g op) (fun r => settled t g op (to_flight r)).

(** Answers that report no success. *)
Definition failure (o : flight_result) : Prop := flight_message o = None.

Lemma settled_failure t g op o w l :
  failure o -> leads t g op w -> executed_by t w = l -> l = [] \/ l = [mr_CommandID g] -> settled t g op o w.
Proof.
  intros Hf Hl He Hl'. split; [done|]. split; [|intros m Hm; by rewrite Hf in Hm].
  rewrite He. destruct Hl' as [->| ->]; [by left|by right].
Qed.

Class FlightLaws (T : Type) `{FlightResult T} : Prop := {
  flight_error e : failure (to_flight (inl e : goerr + T));
  flight_kind_const (r r' : goerr + T) : flight_kind (to_flight r) = flight_kind (to_flight r');
  flight_kind_of o (r : goerr + T) : flight_kind o = flight_kind (to_flight r) -> exists r', o = to_flight r';
}.

#[export] Instance send_laws : FlightLaws SendMessageResult.
Proof. split; [done|done|]. intros o r Hk. destruct o; try discriminate; by eexists. Qed.
#[export] Instance op_laws : FlightLaws MessageOpResult.
Proof. split; [done|done|]. intros o r Hk. destruct o; try discriminate; by eexists. Qed.
#[export] Instance mutation_laws : FlightLaws MutationResult.
Proof. split; [done|done|]. intros o r Hk. destruct o; try discriminate; by eexists. Qed.
#[export] Instance group_laws : FlightLaws GroupCreateResult.
Proof. split; [done|done|]. intros o r Hk. destruct o; try discriminate; by eexists. Qed.

Lemma reject_spec {T} `{FlightLaws T} t g op l e :
  l = [] \/ l = [mr_CommandID g] ->
  pspec_ t (reject_command g e : proc E T) (clean t g op l) (fun r => settled t g op (to_flight r)).
Proof.
  intros Hl. unfold reject_command.
  apply pspec_bind with (Q := fun _ w => leads t g op w /\ executed_by t w = l).
  - destruct (is_validation e); [|by intros w _ [[Hle _] He]].
    apply pspec_bind with (Q := fun _ => clean t g op l); [apply clock_spec, clean_l_stable|by intros e' w _ [[? _] ?]|].
    intros now. eapply pspec_post; [by apply save_spec|]. by intros r w _ [? _].
  - intros e' w _ [Hle He]. exact (settled_failure _ _ _ _ _ _ (flight_error e') Hle He Hl).
  - intros [] w _ [Hle He]. exact (settled_failure _ _ _ _ _ _ (flight_error e) Hle He Hl).
Qed.

(** Stamp, save, answer: the common end of every body. *)
Lemma save_answer_spec {T} `{FlightLaws T} t g op r (v : T) :
  let l := [mr_CommandID g] in rec_CommandID r = mr_CommandID g -> rec_SessionID r = mr_SessionID g ->
  rec_Status r = CommandSent -> (forall m, flight_message (to_flight (inr v)) = Some m -> m = rec_WAMessageID r) ->
  pspec_ t (saveCommand r;; mret v) (clean t g op l) (fun res => settled t g op (to_flight res)).
Proof.
  intros l Hid Hse Hst Hm. assert (Hl : l = [] \/ l = [mr_CommandID g]) by by right.
  apply pspec_bind with (Q := fun res w => (leads t g op w /\ executed_by t w = l) /\
    (res = inr tt -> seen t (mr_CommandID g) (record_row r) w)); [by apply save_spec| |].
  - intros e w _ [[Hle He] _]. exact (settled_failure _ _ _ _ _ _ (flight_error e) Hle He Hl).
  - intros [] w _ [[Hle He] Hs]. split; [done|]. split; [by right|]. intros m Hfm. rewrite (Hm _ Hfm).
    exists (record_row r). split; [by apply Hs|done].
Qed.

Lemma clock_bind_spec {T} t P (k : GoTime -> proc E T) Q :
  stable_ t P -> (forall e w, P w -> Q (inl e) w) -> (forall now, pspec_ t (k now) P Q) -> pspec_ t (read_clock ≫= k) P Q.
Proof.
  intros HP He Hk. apply pspec_bind with (Q := fun _ => P); [by apply clock_spec| |done]. intros e w _. apply He.
Qed.

Lemma clean_failure {T} `{FlightLaws T} t g op l e w :
  l = [] \/ l = [mr_CommandID g] -> clean t g op l w -> settled t g op (to_flight (inl e : goerr + T)) w.
Proof. intros Hl [[Hle _] He]. exact (settled_failure _ _ _ _ _ _ (flight_error e) Hle He Hl). Qed.

(** The send and the message operation: dispatch, then record either answer. *)
Lemma dispatched_spec {T} `{FlightLaws T} t g op (m : M L (string * Z)) (mk : string -> GoTime -> T) :
  (forall id at_ x, flight_message (to_flight (inr (mk id at_))) = Some x -> x = id) ->
  body_ok t g op (
    dispatched ← ptry (perform t (mr_CommandID g) m);
    match dispatched with
    | inl e => reject_command g e
    | inr (waMessageID, ts) =>
        sentAt ← sent_at ts;
        saveCommand (MkCommandResultRecord (mr_CommandID g) (mr_SessionID g) CommandSent waMessageID "" sentAt);;
        mret (mk waMessageID sentAt)
    end).
Proof.
  intros Hmk. unfold body_ok.
  apply pspec_bind with (Q := fun r => clean t g op [mr_CommandID g]).
  - eapply pspec_try; [apply perform_spec|done].
  - intros e w _. apply clean_failure. by right.
  - intros [e|[id ts]]; [apply reject_spec; by right|].
    apply pspec_bind with (Q := fun _ => clean t g op [mr_CommandID g]).
    + apply clock_bind_spec; [apply clean_l_stable|done|]. by intros now w _.
    + intros e w _. apply clean_failure. by right.
    + intros at_. apply save_answer_spec; [done|done|done|]. intros x Hx. exact (Hmk _ _ _ Hx).
Qed.

Lemma executeSend_ok t op c : body_ok t (snd_Target c) op (executeSend t c).
Proof. unfold executeSend. apply dispatched_spec. by intros id at_ x [= <-]. Qed.

Lemma executeOp_ok t op c : body_ok t (opc_Target c) op (executeOp t c).
Proof.
  unfold executeOp. apply (dispatched_spec t (opc_Target c) op _ (fun id at_ => MkMessageOpResult (opc_Target c) at_ id)).
  by intros id at_ x [= <-].
Qed.

(** The recorded end of a mutation without a message id. *)
Lemma record_mutation_spec {T} `{FlightLaws T} t g op m (v : T) :
  let l := [mr_CommandID g] in (forall x, flight_message (to_flight (inr v)) = Some x -> x = m) ->
  pspec_ t (record_mutation g m;; mret v) (clean t g op l) (fun r => settled t g op (to_flight r)).
Proof.
  intros l Hm. assert (Hl : l = [] \/ l = [mr_CommandID g]) by by right.
  apply pspec_bind with (Q := fun res w => (leads t g op w /\ executed_by t w = l) /\
    (res = inr tt -> seen_message t g m w)).
  - apply clock_bind_spec; [apply clean_l_stable|by intros e w [[? _] ?]|].
    intros now. eapply pspec_post; [by apply save_spec|]. intros res w _ [Hle Hs]. split; [done|]. intros Hres.
    eexists. split; [exact (Hs Hres)|done].
  - intros e w _ [[Hle He] _]. exact (settled_failure _ _ _ _ _ _ (flight_error e) Hle He Hl).
  - intros [] w _ [[Hle He] Hs]. split; [done|]. split; [by right|]. intros x Hx. rewrite (Hm _ Hx). by apply Hs.
Qed.

Lemma performed_spec {X} t g op (m : M L X) :
  body_ok t g op (perform t (mr_CommandID g) m;; record_mutation g "";; mret g).
Proof.
  unfold body_ok. apply pspec_bind with (Q := fun _ => clean t g op [mr_CommandID g]); [apply perform_spec| |].
  - intros e w _. apply clean_failure. by right.
  - intros _. apply record_mutation_spec. by intros x [= <-].
Qed.

Lemma executeSetBlocked_ok t op c : body_ok t (cj_Target c) op (executeSetBlocked t c).
Proof. apply performed_spec. Qed.
Lemma executeLogout_ok t op c : body_ok t (cj_Target c) op (executeLogout t c).
Proof. apply performed_spec. Qed.

(** A group mutation is rejected before it calls WhatsApp, or calls it once; a
    success has called it. *)
Definition group_ran (t : nat) (g : MutationResult) (op : string) (r : goerr + GroupInfo) (w : E) : Prop :=
  (exists e, r = inl e /\ clean t g op [] w) \/ clean t g op [mr_CommandID g] w.

Lemma executeGroupMutation_spec t op c :
  pspec_ t (executeGroupMutation t c) (ready t (gm_Target c) op) (group_ran t (gm_Target c) op).
Proof.
  assert (Hpure : forall e, pspec_ t (pthrow e : proc E GroupInfo) (ready t (gm_Target c) op) (group_ran t (gm_Target c) op))
    by (intros e w _ [Hc _]; left; by exists e).
  assert (Hcall : forall X (m : M L X) (k : X -> GroupInfo), pspec_ t (perform t (mr_CommandID (gm_Target c)) m ≫= fun x => Return (inr (k x)))
    (ready t (gm_Target c) op) (group_ran t (gm_Target c) op)).
  { intros X m k. apply pspec_bind with (Q := fun _ => clean t (gm_Target c) op [mr_CommandID (gm_Target c)]);
      [apply perform_spec|intros e w _ Hc; by right|]. intros x w _ Hc. by right. }
  unfold executeGroupMutation. destruct (gm_Kind c).
  - destruct (is_nil (gm_Participants c)); [apply Hpure|]. eapply pspec_post; [apply perform_spec|]. intros r w _ Hc. by right.
  - destruct (no_settings (gm_Settings c)); [apply Hpure|]. apply (Hcall _ _ (fun _ => blank_group)).
  - destruct (is_nil (gm_Participants c)); [apply Hpure|]. destruct (negb _); [apply Hpure|].
    apply (Hcall _ _ (fun _ => blank_group)).
  - apply (Hcall _ _ (fun _ => blank_group)).
  - apply Hpure.
Qed.

Lemma executeGroup_ok t op c : body_ok t (gm_Target c) op (executeGroup t c).
Proof.
  unfold body_ok, executeGroup. set (g := gm_Target c).
  apply pspec_bind with (Q := fun r w => match r with
    | inr (inl _) => clean t g op [] w \/ clean t g op [mr_CommandID g] w
    | inr (inr _) => clean t g op [mr_CommandID g] w
    | inl _ => clean t g op [] w \/ clean t g op [mr_CommandID g] w end).
  - eapply pspec_try; [apply executeGroupMutation_spec|]. intros [e|info] w _ [(e' & He & Hc)|Hc]; auto; discriminate.
  - intros e w _ [Hc|Hc]; (eapply clean_failure; [|exact Hc]); [by left|by right].
  - intros [e|info].
    + apply pspec_pre_or; apply reject_spec; [by left|by right].
    + apply record_mutation_spec. by intros x [= <-].
Qed.

(** ** The executor *)

(** How a request that leads, or is refused, ends: refused without a call;
    replayed from the row of its session; or run by itself. *)
Inductive own_outcome (t : nat) (g : MutationResult) (replay : CommandResultRecord -> flight_result)
  (o : flight_result) (w : E) : Prop :=
  | refused : failure o -> executed_by t w = [] -> own_outcome t g replay o w
  | replayed_row row : seen t (mr_CommandID g) row w -> cr_session_id row = mr_SessionID g ->
      o = replay (row_record (mr_CommandID g) row) -> executed_by t w = [] -> own_outcome t g replay o w
  | executed : ran t g o w -> own_outcome t g replay o w.

(** A request may also be answered by the flight it followed. *)
Inductive outcome (t : nat) (g : MutationResult) (op : string) (replay : CommandResultRecord -> flight_result)
  (o : flight_result) (w : E) : Prop :=
  | followed u : u <> t -> answered u g op o w -> executed_by t w = [] -> outcome t g op replay o w
  | by_itself : own_outcome t g replay o w -> outcome t g op replay o w.

Lemma own_outcome_stable t g replay o : stable_ t (own_outcome t g replay o).
Proof.
  intros w w' Hi Hi' Hr Ho.
  assert (Hex : executed_by t w = [] -> executed_by t w' = []) by (intros Hx; by rewrite (executed_by_others _ _ _ Hr)).
  destruct Ho as [Hf Hx|row Hs Hse Heq Hx|Hrun].
  - apply refused; auto.
  - apply (replayed_row _ _ _ _ _ row); auto. exact (seen_stable _ _ _ _ _ Hi Hi' Hr Hs).
  - apply executed. exact (ran_stable _ _ _ _ _ Hi Hi' Hr Hrun).
Qed.

Lemma outcome_stable t g op replay o : stable_ t (outcome t g op replay o).
Proof.
  intros w w' Hi Hi' Hr [u Hu Ha Hx|Ho].
  - apply (followed _ _ _ _ _ _ u); [done|exact (answered_stable _ _ _ _ _ _ _ Hi Hi' Hr Ha)|by rewrite (executed_by_others _ _ _ Hr)].
  - apply by_itself. exact (own_outcome_stable _ _ _ _ _ _ Hi Hi' Hr Ho).
Qed.

(** The leader's own last steps touch its flight and the map only. *)
Lemma outcome_own t g replay o w w' :
  en_trace w' = en_trace w -> en_journal w' = en_journal w -> en_now w' = en_now w ->
  own_outcome t g replay o w -> own_outcome t g replay o w'.
Proof.
  intros Htr Hj Hn Ho.
  assert (Hex : forall l, executed_by t w = l -> executed_by t w' = l) by (intros l; unfold executed_by; by rewrite Htr).
  assert (Hseen : forall id row, seen t id row w -> seen t id row w')
    by (intros id row; unfold seen, ledger; by rewrite Hj, Hn, Htr).
  destruct Ho as [Hf Hx|row Hs Hse Heq Hx|[Hx Hr]].
  - apply refused; auto.
  - apply (replayed_row _ _ _ _ _ row); auto.
  - apply executed. split; [destruct Hx as [[Hx Hm]|Hx]; auto|]. intros m Hm. destruct (Hr m Hm) as (row & Hrow & Hrest).
    exists row. split; [by apply Hseen|done].
Qed.

(** A success has its row, however it was obtained. *)
Definition replay_law (replay : CommandResultRecord -> flight_result) : Prop :=
  forall r m, flight_message (replay r) = Some m -> rec_Status r = CommandSent.

Lemma same_owner_session x y : same_owner x y = true -> mr_SessionID x = mr_SessionID y.
Proof. unfold same_owner. intros [[_ Hs%bool_decide_eq_true]%andb_true_iff _]%andb_true_iff. done. Qed.

Lemma own_outcome_sent t g replay o w m :
  replay_law replay -> own_outcome t g replay o w -> flight_message o = Some m -> sent_row t g w.
Proof.
  intros Hlaw Ho Hm. destruct Ho as [Hf Hx|row Hs Hse -> Hx|[Hx Hr]].
  - unfold failure in Hf. congruence.
  - exists row. split; [done|]. split; [done|]. exact (Hlaw _ _ Hm).
  - destruct (Hr m Hm) as (row & Hrow & Hse & Hst & _). by exists row.
Qed.

(** The request whose work the answer is: the one it followed, or itself. *)
Definition worked (t u : nat) (g : MutationResult) (op : string) (o : flight_result) (w : E) : Prop :=
  u = t \/ answered u g op o w.

Lemma outcome_sent t g op replay o w m :
  engine_ok w -> replay_law replay -> outcome t g op replay o w -> flight_message o = Some m ->
  exists u, worked t u g op o w /\ sent_row u g w.
Proof.
  intros Hi Hlaw [u Hu Ha Hx|Ho] Hm.
  - exists u. split; [by right|]. destruct Ha as (f & Hf & Hop & Hown & Hid & Hout).
    destruct (ok_published _ Hi _ _ _ _ Hf Hout Hm) as (row & Hrow & Hse & Hst). rewrite Hid in Hrow.
    exists row. split; [done|]. by rewrite <- (same_owner_session _ _ Hown).
  - exists t. split; [by left|]. exact (own_outcome_sent _ _ _ _ _ _ Hlaw Ho Hm).
Qed.

Definition replays {T} `{FlightResult T} (c : @durableCommand L R T) (r : CommandResultRecord) : flight_result :=
  to_flight (du_Replay c r).

Lemma lead_spec {T} `{FlightLaws T} t (c : @durableCommand L R T) :
  let g := du_Target c in let op := du_Operation c in
  (forall op', body_ok t g op' (du_Execute c)) ->
  pspec_ t (lead a t c) (leader0 t g op) (fun r w => leads t g op w /\ own_outcome t g (replays c) (to_flight r) w).
Proof.
  intros g op Hbody. unfold lead. fold g.
  assert (Hfail : forall e w, leader0 t g op w ->
    leads t g op w /\ own_outcome t g (replays c) (to_flight (inl e : goerr + T)) w).
  { intros e w [Hl Hx]. split; [done|]. apply refused; [apply flight_error|done]. }
  assert (Hclean : forall w, clean t g op [] w -> leader0 t g op w) by (intros w [[Hl _] Hx]; by split).
  eapply pspec_bind; [apply lookup_spec|intros e w _; apply Hfail|]. intros [rec|]; cbn beta iota.
  - destruct (negb (bool_decide (rec_SessionID rec = mr_SessionID g))) eqn:Hse; [by intros w _ [Hw _]; apply Hfail|].
    intros w _ [[Hl Hx] (row & Hrow & ->)]. split; [done|]. apply negb_false_iff, bool_decide_eq_true in Hse.
    by apply (replayed_row _ _ _ _ _ row).
  - eapply pspec_bind; [apply fence_spec|by intros e w _ Hw; apply Hfail, Hclean|]. intros [|]; cbn beta iota; cbn [negb].
    2: { intros w _ Hw. by apply Hfail, Hclean. }
    eapply pspec_bind; [apply expired_spec|by intros e w _ [Hw _]; apply Hfail, Hclean|]. intros [|].
    + intros w _ [Hw _]. by apply Hfail, Hclean.
    + eapply pspec_post; [apply Hbody|]. intros r w _ [Hl Hr]. split; [done|]. by apply executed.
Qed.

Lemma publish_spec {T} `{FlightLaws T} t g op replay (r : goerr + T) :
  flight_kind (to_flight r) = operation_kind op -> replay_law replay ->
  pspec_ t (publish t (mr_CommandID g) r) (fun w => leads t g op w /\ own_outcome t g replay (to_flight r) w)
    (fun _ w => own_outcome t g replay (to_flight r) w /\ released t w).
Proof.
  intros Hk Hlaw. unfold publish.
  apply pspec_bind with (Q := fun res w => is_Some (match res with inr u => Some u | inl _ => None end) /\
    en_inFlight w !! mr_CommandID g = Some t /\
    en_flights w !! t = Some (MkFlight g op (Some (to_flight r))) /\ own_outcome t g replay (to_flight r) w).
  - apply pspec_act.
    { intros res. apply stable_and; [apply stable_pure|]. apply stable_and; [|apply stable_and; [|apply own_outcome_stable]].
      - intros w w' _ _ Hr Hin. by apply (inFlight_others _ _ _ _ Hr).
      - intros w w' _ _ Hr Hf. by rewrite (flight_others _ _ _ Hr). }
    intros w res w' Hi [[Hin Hfl] Ho] [= <- <-]. set (f' := MkFlight g op (Some (to_flight r))).
    assert (Halt : alter (fun f => MkFlight (fl_target f) (fl_operation f) (Some (to_flight r))) t (en_flights w)
      = <[t := f']> (en_flights w)) by (apply map_eq; intros u; destruct (decide (u = t)) as [->|Hne];
        [by rewrite lookup_alter_eq, Hfl, lookup_insert_eq|by rewrite lookup_alter_ne, lookup_insert_ne]).
    rewrite Halt. split; [|split].
    + constructor; cbn; auto.
      * intros u Hu. by rewrite lookup_insert_ne.
      * by rewrite lookup_insert_eq, Hfl.
    + constructor; cbn; [| | |exact (ok_trace _ Hi)].
      * intros id u Hu. destruct (ok_flights _ Hi _ _ Hu) as (f & Hf & Hid). destruct (decide (u = t)) as [->|Hne].
        -- exists f'. split; [by rewrite lookup_insert_eq|]. by simplify_eq.
        -- exists f. by rewrite lookup_insert_ne.
      * intros u f o. rewrite lookup_insert_Some. intros [[<- <-]|[Hne Hu]] Hout; [by injection Hout as <-|].
        exact (ok_kinds _ Hi _ _ _ Hu Hout).
      * intros u f o m. rewrite lookup_insert_Some. intros [[<- <-]|[Hne Hu]] Hout Hm.
        -- injection Hout as <-. exact (own_outcome_sent _ _ _ _ _ _ Hlaw Ho Hm).
        -- exact (ok_published _ Hi _ _ _ _ Hu Hout Hm).
    + split; [by eexists|]. split; [done|]. split; [by apply lookup_insert_eq|]. eapply outcome_own; [..|exact Ho]; done.
  - intros e w Hi [[u Hu] _]. discriminate.
  - intros []. apply pspec_act; [intros _; apply stable_and; [apply own_outcome_stable|apply released_stable]|].
    intros w res w' Hi (_ & Hin & Hf & Ho) [= <- <-]. split; [|split].
    + constructor; cbn; auto.
      * by destruct (en_flights w !! t).
      * intros id u Hu. destruct (decide (id = mr_CommandID g)) as [->|Hne].
        -- rewrite lookup_delete_eq, Hin. split; congruence.
        -- by rewrite lookup_delete_ne.
    + constructor; cbn; [|exact (ok_kinds _ Hi)|exact (ok_published _ Hi)|exact (ok_trace _ Hi)].
      intros id u. rewrite lookup_delete_Some. intros [_ Hu]. exact (ok_flights _ Hi _ _ Hu).
    + split; [eapply outcome_own; [..|exact Ho]; done|]. split; cbn.
      * intros id. rewrite lookup_delete_Some. intros [Hne Hu]. destruct (ok_flights _ Hi _ _ Hu) as (f & Hft & Hid).
        rewrite Hf in Hft. injection Hft as <-. cbn in Hid. congruence.
      * intros f Hft. rewrite Hf in Hft. injection Hft as <-. by eexists.
Qed.

(** A follower waits for the flight it joined; the value it finds there has the
    type of its own operation. *)
Lemma follow_spec {T} `{FlightLaws T} t u g op replay :
  (forall r : goerr + T, flight_kind (to_flight r) = operation_kind op) ->
  pspec_ t (follow t u : proc E T) (fun w => (u <> t /\ flight_of u g op w) /\ unled t w /\ executed_by t w = [])
    (fun r w => outcome t g op replay (to_flight r) w /\ unled t w).
Proof.
  intros Hk. assert (Hwait : forall w, (u <> t /\ flight_of u g op w) /\ unled t w /\ executed_by t w = [] ->
    (en_flights w !! u ≫= fl_outcome) = None -> waiting t w).
  { intros w [[Hu (f & Hf & _)] [Hun _]] Hnone. split; [done|]. exists u, f. rewrite Hf in Hnone. done. }
  apply pspec_select; [done| |].
  - apply pspec_then with (Q := fun o w => (u <> t /\ unled t w /\ executed_by t w = []) /\
      match o with
      | inr o => answered u g op o w /\ flight_kind o = operation_kind op
      | inl _ => True
      end).
    + apply pspec_await; [|intros w _; apply guar_refl| |].
      * intros o. apply stable_and; [apply stable_and; [apply stable_pure|apply stable_and; [apply unled_stable|apply executed_stable]]|].
        destruct o as [e|o]; [apply stable_pure|]. apply stable_and; [apply answered_stable|apply stable_pure].
      * intros _ w _ Hw Hnone. apply (Hwait w Hw). by destruct (en_flights w !! u ≫= fl_outcome).
      * intros w o Hi [[Hu (f & Hf & Hop & Hs & Hid)] [Hun Hx]] Ho. rewrite Hf in Ho. cbn in Ho.
        destruct (fl_outcome f) as [o'|] eqn:Hout; [|discriminate]. injection Ho as <-. split; [done|].
        split; [by exists f|]. rewrite (ok_kinds _ Hi _ _ _ Hf Hout). by rewrite Hop.
    + intros [e|o]; [by intros w _ [(_ & Hun & Hx) _]; split; [apply by_itself, refused; [apply flight_error|]|]|].
      destruct (of_flight o) as [r|] eqn:Hof; cbn.
      * intros w _ [(Hu & Hun & Hx) [Ha Hko]]. split; [|done].
        destruct (flight_kind_of o (inl (ErrMsg "") : goerr + T)) as [r' ->]; [rewrite Hko; symmetry; apply Hk|].
        rewrite of_to_flight in Hof. injection Hof as ->. by apply (followed _ _ _ _ _ _ u).
      * intros w _ [(Hu & Hun & Hx) [Ha Hko]]. split; [|done]. apply by_itself, refused; [apply flight_error|done].
  - apply pspec_await; [|intros w _; apply guar_refl| |].
    + intros r. apply stable_and; [apply outcome_stable|apply unled_stable].
    + discriminate.
    + intros w r Hi [_ [Hun Hx]] Hr. destruct (en_contexts w !! t) as [e|]; [|discriminate]. injection Hr as <-.
      split; [apply by_itself, refused; [apply flight_error|done]|done].
Qed.

Lemma runDurableCommand_spec {T} `{FlightLaws T} t (c : @durableCommand L R T) :
  (forall op, body_ok t (du_Target c) op (du_Execute c)) ->
  (forall r : goerr + T, flight_kind (to_flight r) = operation_kind (du_Operation c)) -> replay_law (replays c) ->
  pspec_ t (runDurableCommand a t c) (fresh t)
    (fun r w => outcome t (du_Target c) (du_Operation c) (replays c) (to_flight r) w /\ released t w).
Proof.
  intros Hbody Hk Hlaw. unfold runDurableCommand. set (g := du_Target c). set (op := du_Operation c).
  assert (Hrefuse : forall e w, engine_ok w -> unled t w /\ executed_by t w = [] ->
    outcome t g op (replays c) (to_flight (inl e : goerr + T)) w /\ released t w)
    by (intros e w Hi [Hu Hx]; split; [apply by_itself, refused; [apply flight_error|done]|by apply unled_released]).
  assert (Hno : forall e, pspec_ t (pthrow e : proc E T) (fresh t)
    (fun r w => outcome t g op (replays c) (to_flight r) w /\ released t w)).
  { intros e w Hi Hf. apply Hrefuse; [done|]. split; [apply Hf|by apply fresh_executed]. }
  destruct (validateMutation a g); [apply Hno|]. destruct (_ =? 0); [apply Hno|].
  eapply pspec_bind; [apply joinCommand_spec|exact Hrefuse|].
  intros [u []]; cbn [fst snd]; cbn beta iota.
  - eapply pspec_post; [by apply follow_spec|]. intros r w Hi [Ho Hu]. split; [done|]. by apply unled_released.
  - apply pspec_finally with (Q := fun r w => leads t g op w /\ own_outcome t g (replays c) (to_flight r) w).
    + eapply pspec_pre; [by apply lead_spec|]. by intros w _ [_ Hw].
    + intros r. eapply pspec_post; [by apply publish_spec|]. intros r' w _ [Ho Hrel]. split; [by apply by_itself|done].
Qed.

(** *** The requests *)

Definition req_operation (q : request) : string :=
  match q with
  | ReqSend c => "send"
  | ReqOp c => "message-op:" +:+ opc_Op c
  | ReqBlocked c => if cj_Blocked c then "blocked:true" else "blocked:false"
  | ReqGroup c => "group:" +:+ kind_text (gm_Kind c)
  | ReqLogout c => "logout"
  end.

(** What a recorded row answers. *)
Definition req_replay (q : request) (r : CommandResultRecord) : flight_result :=
  match q with
  | ReqSend c => to_flight (replayedSendResult c r)
  | ReqOp c => to_flight (replayedMutation c r)
  | ReqBlocked _ | ReqLogout _ => to_flight (replayedBlockingMutation r)
  | ReqGroup c => to_flight (replayedGroupMutation c r)
  end.

Lemma served {T} `{FlightLaws T} t (c : @durableCommand L R T) g op replay :
  pspec_ t (runDurableCommand a t c) (fresh t) (fun r w => outcome t g op replay (to_flight r) w /\ released t w) ->
  pspec_ t (pthen (runDurableCommand a t c) (fun r => Return (inr (to_flight r)))) (fresh t)
    (fun r w => (exists o, r = inr o /\ outcome t g op replay o w) /\ released t w).
Proof. intros Hc. eapply pspec_then; [exact Hc|]. intros r w _ [Ho Hre]. split; [by eexists|done]. Qed.

Lemma replayed_law {T} `{FlightLaws T} (mk : CommandResultRecord -> T) failed :
  replay_law (fun r => to_flight (replayed r (mk r) failed)).
Proof.
  intros r m. unfold replayed. case_bool_decide as Hs; [done|].
  destruct (bool_decide _); intros Hm; by rewrite (flight_error _ : flight_message _ = None) in Hm.
Qed.

Lemma serve_spec t q :
  pspec_ t (serve t q) (fresh t)
    (fun r w => (exists o, r = inr o /\ outcome t (req_target q) (req_operation q) (req_replay q) o w) /\ released t w).
Proof.
  destruct q as [c|c|c|c|c]; cbn [serve req_target req_operation req_replay];
    unfold SendMessage, ExecuteOp, SetBlocked, MutateGroup, LogoutSession; apply served.
  - apply (runDurableCommand_spec t (send_command t c)); [intros op; apply executeSend_ok|done|apply replayed_law].
  - apply (runDurableCommand_spec t (op_command t c)); [intros op; apply executeOp_ok| |apply replayed_law].
    intros r. cbn. unfold operation_kind. rewrite bool_decide_eq_false_2 by discriminate. by rewrite prefix_append.
  - apply (runDurableCommand_spec t (blocked_command t c)); [intros op; apply executeSetBlocked_ok| |apply replayed_law].
    intros r. cbn. by destruct (cj_Blocked c).
  - apply (runDurableCommand_spec t (group_command t c)); [intros op; apply executeGroup_ok| |apply replayed_law].
    intros r. cbn. unfold operation_kind. rewrite bool_decide_eq_false_2 by discriminate. rewrite prefix_append. reflexivity.
  - apply (runDurableCommand_spec t (logout_command t c)); [intros op; apply executeLogout_ok|done|apply replayed_law].
Qed.

Lemma req_replay_law q : replay_law (req_replay q).
Proof. destruct q; apply replayed_law. Qed.
End Safety.
