(* ===== verification/CommandSpec.v ===== *)
(** The theorems about whole runs of a gateway's command executor: any number of
    requests, interleaved with each other, with journal maintenance, with changes
    of the desired state and with crashes. *)
From stdpp Require Import base gmap list option strings relations.
From Stdlib Require Import Lia.
From S2P Require Import Prelude Journal Domain DesiredState Outbound GatewayEngine Concurrency CommandExecution CommandSafety.

#[local] Open Scope Z_scope.

Section Runs.
Context {L R : Type} `{OutboundLib} `{WAClient L} `{LiveOps L}.
Abbreviation E := (engine L R).
Abbreviation sys := (system E flight_result).
Variable a : adapter.

(** The requests ever made, numbered in the order of their arrival. *)
Variable reqs : nat -> request.

(** A process that has just started: no request, an empty history; the journal
    may hold results of earlier lives. *)
Definition started (s : sys) : Prop :=
  sy_threads s = ∅ /\ en_inFlight (sy_world s) = ∅ /\ en_flights (sy_world s) = ∅ /\ en_trace (sy_world s) = [].

Inductive sys_step (s : sys) : sys -> Prop :=
  | step_request t side s' : step_thread t side s = Some s' -> sys_step s s'
  | step_arrival t : sy_threads s !! t = None -> fresh t (sy_world s) ->
      sys_step s (MkSystem (sy_world s) (<[t := serve a t (reqs t)]> (sy_threads s)))
  | step_process w' : env (sy_world s) w' -> sys_step s (MkSystem w' (sy_threads s))
  | step_crash w' : crashed (sy_world s) w' -> sys_step s (MkSystem w' ∅).

Abbreviation steps := (rtc sys_step).

Definition reachable (s : sys) : Prop := exists s0, started s0 /\ steps s0 s.

(** ** The invariant of a run *)

Definition answer_ok (t : nat) (r : goerr + flight_result) (w : E) : Prop :=
  (exists o, r = inr o /\ outcome t (req_target (reqs t)) (req_operation (reqs t)) (req_replay (reqs t)) o w) /\
  released t w.

Record run_ok (s : sys) : Prop := {
  run_system : system_ok (engine_ok a) (guar a) env waiting answer_ok s;
  run_owned u f : en_flights (sy_world s) !! u = Some f -> is_Some (sy_threads s !! u);
  run_bounded t p : sy_threads s !! t = Some p -> bounded 9 p;
}.

Lemma bounded_act {A} n (m : M E A) : bounded (S n) (act m).
Proof. by intros b. Qed.

Lemma bounded_save n r : bounded (S n) (saveCommand r : proc E unit).
Proof. by intros b. Qed.

Lemma bounded_save_answer {T} r (v : T) : bounded 1 (saveCommand r;; mret v : proc E T).
Proof. apply (bounded_bind 1 0); [apply bounded_save|done]. Qed.

Lemma bounded_reject {T} g e : bounded 2 (reject_command g e : proc E T).
Proof.
  apply (bounded_bind 2 0); [|done]. destruct (is_validation e); [|done].
  apply (bounded_bind 1 1); [apply bounded_act|]. intros now. apply bounded_save.
Qed.

Lemma bounded_try {A} n (p : proc E A) : bounded n p -> bounded n (ptry p).
Proof. intros Hp. rewrite <- (Nat.add_0_r n). by apply bounded_then. Qed.

Lemma bounded_dispatched {T} t id g (m : M L (string * Z)) (k : string -> Z -> GoTime -> proc E T) :
  (forall x ts at_, bounded 1 (k x ts at_)) ->
  bounded 3 (dispatched ← ptry (perform t id m);
             match dispatched with
             | inl e => reject_command g e
             | inr (waMessageID, ts) => sentAt ← sent_at ts; k waMessageID ts sentAt
             end).
Proof.
  intros Hk. apply (bounded_bind 1 2); [apply bounded_try, bounded_act|]. intros [e|[x ts]]; [apply bounded_reject|].
  apply (bounded_bind 1 1); [apply (bounded_bind 1 0); [apply bounded_act|done]|]. intros at_. apply Hk.
Qed.

Lemma bounded_record {T} g m (v : T) : bounded 2 (record_mutation g m;; mret v : proc E T).
Proof.
  apply (bounded_bind 2 0); [|done]. apply (bounded_bind 1 1); [apply bounded_act|]. intros now. apply bounded_save.
Qed.

Lemma bounded_group t c : bounded 1 (executeGroupMutation t c : proc E GroupInfo).
Proof.
  unfold executeGroupMutation. destruct (gm_Kind c); repeat match goal with |- bounded _ (if ?b then _ else _) => destruct b end;
    try done; try apply bounded_act; (apply (bounded_bind 1 0); [apply bounded_act|done]).
Qed.

Lemma bounded_run {T} `{FlightResult T} t (c : @durableCommand L R T) :
  bounded 3 (du_Execute c) -> bounded 9 (runDurableCommand a t c).
Proof.
  intros Hb. unfold runDurableCommand. destruct (validateMutation _ _); [done|]. destruct (_ =? 0); [done|].
  apply (bounded_bind 1 8); [apply bounded_act|]. intros [u []]; cbn [fst snd]; cbn beta iota.
  - split; [|by intros b]. apply (bounded_then 1 7); [by intros b|]. intros [e|o]; [done|]. by destruct (of_flight o).
  - apply (bounded_then 6 2).
    + unfold lead. apply (bounded_bind 1 5); [unfold lookupCommand; destruct (negb _); [done|apply bounded_act]|].
      intros [rec|]; [by destruct (negb _)|]. apply (bounded_bind 1 4); [apply bounded_act|]. intros [|]; [|done].
      apply (bounded_bind 1 3); [apply bounded_act|]. by intros [|].
    + intros r. apply (bounded_then 2 0); [|done]. apply (bounded_bind 1 1); [apply bounded_act|]. intros u'. apply bounded_act.
Qed.

Lemma bounded_serve t q : bounded 9 (serve a t q : proc E flight_result).
Proof.
  destruct q as [c|c|c|c|c]; apply (bounded_then 9 0); try done; apply bounded_run; cbn [du_Execute send_command op_command
    blocked_command group_command logout_command].
  - unfold executeSend. apply bounded_dispatched. intros x ts at_. apply bounded_save_answer.
  - unfold executeOp. apply bounded_dispatched. intros x ts at_. apply bounded_save_answer.
  - apply (bounded_bind 1 2); [apply bounded_act|]. intros u. apply bounded_record.
  - apply (bounded_bind 1 2); [apply bounded_try, bounded_group|]. intros [e|info]; [apply bounded_reject|apply bounded_record].
  - apply (bounded_bind 1 2); [apply bounded_act|]. intros u. apply bounded_record.
Qed.

Lemma started_ok s : started s -> run_ok s.
Proof.
  intros (Ht & Hin & Hf & Htr). split.
  - split.
    + split; rewrite ?Hin, ?Hf, ?Htr; try (intros *; by rewrite lookup_empty).
      intros l1 t id l2 Heq. by destruct l1.
    + intros t p. by rewrite Ht, lookup_empty.
  - intros u f. by rewrite Hf, lookup_empty.
  - intros t p. by rewrite Ht, lookup_empty.
Qed.

Lemma step_ok s s' : run_ok s -> sys_step s s' -> run_ok s'.
Proof.
  intros [Hsys Hown Hb] Hstep. destruct Hstep as [t side s' Hst|t Hnone Hfr|w' He|w' Hc].
  - destruct (step_thread_ok _ _ _ _ _ _ _ _ _ Hsys Hst) as [Hg Hsys'].
    unfold step_thread in Hst. apply bind_Some in Hst as (p & Hp & ([p' w'] & Hadv & [= <-])%bind_Some).
    cbn in *. split; [exact Hsys'| |].
    + intros u f Hf. cbn in Hf |- *. rewrite lookup_insert_is_Some. destruct (decide (t = u)) as [->|Hne]; [by left|right].
      split; [done|]. rewrite (g_flights _ _ _ _ Hg) in Hf by congruence. by eapply Hown.
    + intros u q. cbn. rewrite lookup_insert_Some. intros [[<- <-]|[Hne Hq]]; [|by eapply Hb].
      destruct (bounded_advance _ _ _ _ _ _ (Hb _ _ Hp) Hadv) as (m & Hm & Hb'). injection Hm as <-.
      by apply (bounded_mono 8); [lia|].
  - split.
    + eapply spawn_ok; [exact Hsys|apply fresh_stable|exact Hfr|apply serve_spec].
    + intros u f Hf. cbn in Hf |- *. rewrite lookup_insert_is_Some. destruct (decide (t = u)) as [->|Hne]; [by left|right].
      split; [done|]. by eapply Hown.
    + intros u q. cbn. rewrite lookup_insert_Some. intros [[<- <-]|[Hne Hq]]; [apply bounded_serve|by eapply Hb].
  - split; [|cbn; rewrite (e_flights _ _ He); exact Hown|exact Hb].
    apply env_step_ok; [exact Hsys|exact He|]. eapply env_ok; [exact He|apply Hsys].
  - split.
    + split; [eapply crashed_ok; [exact Hc|apply Hsys]|]. intros t p Hp. cbn in Hp. by apply lookup_empty_Some in Hp.
    + intros u f Hf. change (en_flights w' !! u = Some f) in Hf. by rewrite (c_flights _ _ Hc), lookup_empty in Hf.
    + intros t p Hp. cbn in Hp. by apply lookup_empty_Some in Hp.
Qed.

Lemma steps_ok s s' : run_ok s -> steps s s' -> run_ok s'.
Proof. intros Hok Hs. revert Hok. induction Hs as [|s s1 s2 Hstep _ IH]; [done|]. intros Hok. by apply IH, (step_ok s). Qed.

Lemma reachable_ok s : reachable s -> run_ok s.
Proof. intros (s0 & H0' & Hs). eapply steps_ok; [by apply started_ok|done]. Qed.

(** ** Histories *)

Lemma executions_app id l l' : executions id (l ++ l') = (executions id l + executions id l')%nat.
Proof. unfold executions. by rewrite filter_app, length_app. Qed.

(** One step extends the history by at most one event, allowed where it happens. *)
Lemma step_trace s s' : run_ok s -> sys_step s s' ->
  en_trace (sy_world s') = en_trace (sy_world s) \/
  exists t ev, en_trace (sy_world s') = en_trace (sy_world s) ++ [ev] /\ event_allowed a t (sy_world s) (sy_world s') ev.
Proof.
  intros [Hsys _ _] Hstep. destruct Hstep as [t side s' Hst|t Hnone Hfr|w' He|w' Hc].
  - destruct (step_thread_ok _ _ _ _ _ _ _ _ _ Hsys Hst) as [Hg _].
    destruct (g_trace _ _ _ _ Hg) as [Heq|(ev & Heq & Hev)]; [by left|]. right. by exists t, ev.
  - by left.
  - left. apply (e_trace _ _ He).
  - left. apply (c_trace _ _ Hc).
Qed.

(** A row stays until its retention has run out, and as long as it stays its
    command is not executed. *)
Lemma step_row s s' id r : run_ok s -> sys_step s s' -> ledger (sy_world s) !! id = Some r ->
  pruned (en_now (sy_world s')) r \/
  (ledger (sy_world s') !! id = Some r /\
   executions id (en_trace (sy_world s')) = executions id (en_trace (sy_world s))).
Proof.
  intros Hok Hstep Hrow.
  assert (Hex : ledger (sy_world s') !! id = Some r \/ pruned (en_now (sy_world s')) r).
  { destruct Hok as [Hsys _ _]. destruct Hstep as [t side s' Hst|t Hnone Hfr|w' He|w' Hc]; [| | |].
    - destruct (step_thread_ok _ _ _ _ _ _ _ _ _ Hsys Hst) as [Hg _]. left.
      destruct (g_ledger _ _ _ _ Hg id) as [->|[Hn _]]; [done|congruence].
    - by left.
    - destruct (e_ledger _ _ He id) as [Heq|(_ & r' & Hr' & Hp)]; [left; cbn; congruence|right]. by simplify_eq.
    - left. cbn. by rewrite (c_ledger _ _ Hc). }
  destruct Hex as [Hex|Hp]; [right|by left]. split; [done|].
  destruct (step_trace _ _ Hok Hstep) as [->|(t & ev & -> & Hev)]; [done|]. rewrite executions_app.
  destruct Hev as [g stopped|g op Hl Hn Hp|id' row Hl]; [apply Nat.add_0_r| |apply Nat.add_0_r]. unfold executions at 2.
  rewrite filter_cons_False; [apply Nat.add_0_r|]. cbn. intros Hid%bool_decide_eq_true. congruence.
Qed.

Lemma now_mono s s' : run_ok s -> sys_step s s' -> en_now (sy_world s) <= en_now (sy_world s').
Proof.
  intros [Hsys _ _] Hstep. destruct Hstep as [t side s' Hst|t Hnone Hfr|w' He|w' Hc]; [|done|apply He|apply Hc].
  destruct (step_thread_ok _ _ _ _ _ _ _ _ _ Hsys Hst) as [Hg _]. rewrite (g_now _ _ _ _ Hg). done.
Qed.

Lemma steps_now s s' : run_ok s -> steps s s' -> en_now (sy_world s) <= en_now (sy_world s').
Proof.
  intros Hok Hs. revert Hok. induction Hs as [s|s s1 s2 Hstep _ IH]; [done|]. intros Hok.
  etransitivity; [by apply now_mono|]. apply IH. by eapply step_ok.
Qed.

Lemma steps_row s s' id r : run_ok s -> steps s s' -> ledger (sy_world s) !! id = Some r ->
  ~ pruned (en_now (sy_world s')) r ->
  ledger (sy_world s') !! id = Some r /\ executions id (en_trace (sy_world s')) = executions id (en_trace (sy_world s)).
Proof.
  intros Hok Hs. revert Hok. induction Hs as [s|s s1 s2 Hstep Hs IH]; [done|]. intros Hok Hrow Hnp.
  destruct (step_row _ _ _ _ Hok Hstep Hrow) as [Hp|[Hrow1 Hx]].
  - exfalso. apply Hnp. eapply pruned_mono; [|exact Hp]. apply steps_now; [by eapply step_ok|done].
  - destruct (IH (step_ok _ _ Hok Hstep) Hrow1 Hnp) as [Hrow2 Hx2]. split; [done|]. congruence.
Qed.

(** Every event of a history was made by a step from a state that allowed it. *)
Lemma trace_event s0 s l1 ev l2 : run_ok s0 -> en_trace (sy_world s0) = [] -> steps s0 s ->
  en_trace (sy_world s) = l1 ++ ev :: l2 ->
  exists s1 s2 t, steps s0 s1 /\ sys_step s1 s2 /\ steps s2 s /\ en_trace (sy_world s1) = l1 /\
    en_trace (sy_world s2) = l1 ++ [ev] /\ event_allowed a t (sy_world s1) (sy_world s2) ev.
Proof.
  intros Hok Hnil Hs. revert l1 ev l2. revert s Hs.
  refine (rtc_ind_r (fun s => forall l1 ev l2, en_trace (sy_world s) = l1 ++ ev :: l2 -> exists s1 s2 t,
    steps s0 s1 /\ sys_step s1 s2 /\ steps s2 s /\ en_trace (sy_world s1) = l1 /\
    en_trace (sy_world s2) = l1 ++ [ev] /\ event_allowed a t (sy_world s1) (sy_world s2) ev) s0 _ _).
  - intros l1 ev l2 Heq. rewrite Hnil in Heq. by destruct l1.
  - intros s1 s2 Hs Hstep IH l1 ev l2 Heq. assert (Hok1 : run_ok s1) by exact (steps_ok _ _ Hok Hs).
    assert (Hpast : forall l, en_trace (sy_world s1) = l1 ++ ev :: l -> exists s1' s2' t, steps s0 s1' /\ sys_step s1' s2' /\
      steps s2' s2 /\ en_trace (sy_world s1') = l1 /\ en_trace (sy_world s2') = l1 ++ [ev] /\
      event_allowed a t (sy_world s1') (sy_world s2') ev).
    { intros l Hl. destruct (IH _ _ _ Hl) as (s' & s'' & t & Ha & Hb & Hc & Hd). exists s', s'', t.
      split; [done|]. split; [done|]. split; [by eapply rtc_r|done]. }
    destruct (step_trace _ _ Hok1 Hstep) as [Htr|(t & ev' & Htr & Hev)].
    + rewrite Htr in Heq. by eapply Hpast.
    + pose proof Htr as Hnew. rewrite Heq in Htr. destruct (decide (l2 = [])) as [->|Hne].
      * apply app_inj_tail in Htr as [-> <-]. exists s1, s2, t. done.
      * destruct (exists_last Hne) as (l3 & ev2 & ->). rewrite app_comm_cons, app_assoc in Htr.
        apply app_inj_tail in Htr as [Hl _]. by eapply Hpast.
Qed.

(** A row the history notes was in the ledger at that moment. *)
Lemma noted_row s0 s l1 id r l2 : started s0 -> steps s0 s -> en_trace (sy_world s) = l1 ++ Held id r :: l2 ->
  exists s1, steps s0 s1 /\ steps s1 s /\ ledger (sy_world s1) !! id = Some r /\
    en_trace (sy_world s1) = l1 ++ [Held id r].
Proof.
  intros Hst Hs Htr. pose proof (started_ok _ Hst) as Hok0. destruct Hst as (_ & _ & _ & Hnil).
  destruct (trace_event _ _ _ _ _ Hok0 Hnil Hs Htr) as (s1 & s2 & t & Ha & Hb & Hc & _ & Htr2 & Hev).
  exists s2. split; [by eapply rtc_r|]. split; [done|]. split; [|done]. by inversion Hev.
Qed.

(** ** The theorems *)

(** C3: A success is never repeated. A request is answered a success only when,
    at a moment of the run after the last WhatsApp call of the request whose work
    the answer is (itself, or the leader it followed), the ledger held a row that
    records a success of the command under its session; and from that moment on,
    until the row's retention has run out, the row stays and no interleaving of
    requests, maintenance and crashes makes a WhatsApp call for the command. *)
Theorem success_is_never_repeated s0 s t o m :
  started s0 -> steps s0 s -> sy_threads s !! t = Some (Return (inr o)) -> flight_message o = Some m ->
  exists u r s1, worked t u (req_target (reqs t)) (req_operation (reqs t)) o (sy_world s) /\
    steps s0 s1 /\ steps s1 s /\ ledger (sy_world s1) !! mr_CommandID (req_target (reqs t)) = Some r /\
    executed_by u (sy_world s1) = executed_by u (sy_world s) /\
    cr_status r = CommandSent /\ cr_session_id r = mr_SessionID (req_target (reqs t)) /\
    forall s', steps s s' -> UnixMilli (en_now (sy_world s')) <= cr_expires_at r ->
      ledger (sy_world s') !! mr_CommandID (req_target (reqs t)) = Some r /\
      executions (mr_CommandID (req_target (reqs t))) (en_trace (sy_world s')) =
        executions (mr_CommandID (req_target (reqs t))) (en_trace (sy_world s1)).
Proof.
  intros Hst Hs Ht Hm. pose proof (steps_ok _ _ (started_ok _ Hst) Hs) as Hok. destruct (run_system _ Hok) as [Hi Hall].
  destruct (system_ok_result _ _ _ _ _ _ _ _ (run_system _ Hok) Ht) as [(o' & [= <-] & Hout) _].
  destruct (outcome_sent _ _ _ _ _ _ _ _ Hi (req_replay_law (reqs t)) Hout Hm) as (u & Hu & r & [Hn _] & Hse & Hsent).
  destruct Hn as (l1 & l2 & Htr & Hl2). destruct (noted_row _ _ _ _ _ _ Hst Hs Htr) as (s1 & Ha & Hb & Hrow & Htr1).
  exists u, r, s1. split_and!; try done.
  - unfold executed_by. rewrite Htr1, Htr, (cons_middle _ l1 l2), app_assoc, (calls_by_app _ (l1 ++ [_])), Hl2. by rewrite app_nil_r.
  - intros s' Hs' Hnow. apply (steps_row s1); [exact (steps_ok _ _ (started_ok _ Hst) Ha)|by etransitivity|done|].
    unfold pruned. lia.
Qed.

Lemma executed_event u (w w' : E) t id : event_allowed a u w w' (Executed t id) ->
  u = t /\ exists g op, leads t g op w /\ ledger w !! mr_CommandID g = None /\ fence_passed a t g w /\ mr_CommandID g = id.
Proof. inversion 1; subst. split; [done|]. by eexists _, _. Qed.

Lemma fenced_event u (w w' : E) t g stopped at_ ok : event_allowed a u w w' (Fenced t g stopped at_ ok) ->
  at_ = en_now w /\ u = t /\ fence_answer g stopped w = ok.
Proof. by inversion 1. Qed.

(** C6: Every WhatsApp call of a durable command is made by the one request that
    leads the command, while the ledger has no result of it, and after the
    assignment fence allowed the command's organization, session and epoch to
    that request, in every interleaving and across crashes. *)
Theorem calls_are_led_and_fenced s0 s t id l1 l2 :
  started s0 -> steps s0 s -> en_trace (sy_world s) = l1 ++ Executed t id :: l2 ->
  exists s1, steps s0 s1 /\ steps s1 s /\ en_trace (sy_world s1) = l1 /\
    en_inFlight (sy_world s1) !! id = Some t /\ ledger (sy_world s1) !! id = None /\
    (ad_fence a = true -> exists s2 g stopped l, steps s0 s2 /\ steps s2 s1 /\ mr_CommandID g = id /\
       fence_answer g stopped (sy_world s2) = true /\
       l1 = en_trace (sy_world s2) ++ Fenced t g stopped (en_now (sy_world s2)) true :: l).
Proof.
  intros Hst Hs Htr. pose proof (started_ok _ Hst) as Hok0. destruct Hst as (_ & _ & _ & Hnil).
  destruct (trace_event _ _ _ _ _ Hok0 Hnil Hs Htr) as (s1 & s1' & u & Ha & Hstep & Hb' & Hl & _ & Hev).
  assert (Hb : steps s1 s) by (by eapply rtc_l).
  apply executed_event in Hev as (<- & g & op & [Hin Hfl] & Hn & Hp & <-).
  exists s1. split; [done|]. split; [done|]. split; [done|]. split; [done|]. split; [done|]. intros Hfence.
  rewrite <- Hl.
  destruct (Hp Hfence) as (stopped & at_ & Hin2). apply list_elem_of_split in Hin2 as (l3 & l4 & Heq).
  destruct (trace_event _ _ _ _ _ Hok0 Hnil Ha Heq) as (s2 & s2' & v & Hc & Hstep2 & Hd' & Hl2 & _ & Hev2).
  assert (Hd : steps s2 s1) by (by eapply rtc_l).
  apply fenced_event in Hev2 as (-> & ->%eq_sym & Hans). exists s2, g, stopped, l4. by rewrite Hl2.
Qed.

(** A thread that is not finished can step, or waits for an unfinished leader. *)
Lemma waiting_for s t : run_ok s -> waiting t (sy_world s) ->
  exists u p, sy_threads s !! u = Some p /\ result p = None /\ ~ waiting u (sy_world s).
Proof.
  intros Hok (Hun & u & f & Hne & Hf & Hout). destruct (run_owned _ Hok _ _ Hf) as [p Hp]. exists u, p.
  split; [done|]. split.
  - destruct p as [r| |]; [|done..]. exfalso.
    destruct (system_ok_result _ _ _ _ _ _ _ _ (run_system _ Hok) Hp) as [_ [_ Hrel]].
    destruct (Hrel f Hf) as [o Ho]. congruence.
  - intros [Hu _]. congruence.
Qed.

(** C22: Every request is answered: whatever the schedule, a request takes at
    most nine steps of its own, and when no request can take a step (the clock,
    the journal and WhatsApp standing still) every request has its answer and no
    command is left in flight. A follower never waits forever. *)
Theorem every_request_is_answered s sched s' :
  reachable s -> run_threads sched s = Some s' ->
  (forall t p, sy_threads s !! t = Some p -> (length (filter (fun x => x.1 = t) sched) <= 9)%nat) /\
  ((forall t, step_thread t true s' = None) ->
    (forall t p, sy_threads s' !! t = Some p -> exists o, p = Return (inr o)) /\ en_inFlight (sy_world s') = ∅).
Proof.
  intros Hreach Hrun. pose proof (reachable_ok _ Hreach) as Hok. split.
  { intros t p Hp. exact (run_threads_bounded _ _ _ _ _ _ Hrun Hp (run_bounded _ Hok _ _ Hp)). }
  assert (Hok' : run_ok s').
  { clear Hreach. revert s Hok Hrun. induction sched as [|[t side] sched IH]; intros s Hok Hrun; [by injection Hrun as <-|].
    cbn in Hrun. apply bind_Some in Hrun as (s1 & Hst & Hrun). apply (IH s1); [|done].
    eapply step_ok; [exact Hok|]. by eapply step_request. }
  intros Hstuck. pose proof (run_system _ Hok') as Hsys.
  assert (Hfree : forall t p, sy_threads s' !! t = Some p -> (exists r, p = Return r) \/ waiting t (sy_world s')).
  { intros t p Hp. apply (stuck_ok _ _ _ _ t p (answer_ok t) _ (proj1 Hsys) (proj2 Hsys _ _ Hp)). specialize (Hstuck t). unfold step_thread in Hstuck.
    rewrite Hp in Hstuck. cbn in Hstuck. by destruct (advance true p (sy_world s')) as [[p' w']|]. }
  assert (Hdone : forall t p, sy_threads s' !! t = Some p -> exists r, p = Return r).
  { intros t p Hp. destruct (Hfree _ _ Hp) as [?|Hw]; [done|]. destruct (waiting_for _ _ Hok' Hw) as (u & q & Hq & Hr & Hnw).
    destruct (Hfree _ _ Hq) as [[r ->]|?]; [done|contradiction]. }
  split.
  - intros t p Hp. destruct (Hdone _ _ Hp) as [r ->].
    destruct (system_ok_result _ _ _ _ _ _ _ _ Hsys Hp) as [(o & -> & _) _]. by exists o.
  - apply map_eq. intros id. rewrite lookup_empty. destruct (en_inFlight (sy_world s') !! id) as [u|] eqn:Hin; [|done].
    exfalso. destruct (ok_flights _ _ (proj1 Hsys) _ _ Hin) as (f & Hf & _). destruct (run_owned _ Hok' _ _ Hf) as [p Hp].
    destruct (Hdone _ _ Hp) as [r ->]. destruct (system_ok_result _ _ _ _ _ _ _ _ Hsys Hp) as [_ [Hrel _]].
    exact (Hrel id Hin).
Qed.

(** The answer a finished request returns is one of four: an error without
    any WhatsApp call by it; exactly the answer another request of the same
    command, owner and operation published; what a row of its own session
    replays, found in the ledger at a moment of the run; or the answer of its own
    single call, which it returns as a success only when after that call the
    ledger held a row of its session with the very message id. A row the history
    names was in the ledger of an earlier state of the run. *)
Theorem answers_are_accounted_for s0 s t r :
  started s0 -> steps s0 s -> sy_threads s !! t = Some (Return r) ->
  (exists o, r = inr o /\ outcome t (req_target (reqs t)) (req_operation (reqs t)) (req_replay (reqs t)) o (sy_world s) /\
    (length (executed_by t (sy_world s)) <= 1)%nat) /\
  (forall l1 id row l2, en_trace (sy_world s) = l1 ++ Held id row :: l2 ->
    exists s1, steps s0 s1 /\ steps s1 s /\ ledger (sy_world s1) !! id = Some row /\
      en_trace (sy_world s1) = l1 ++ [Held id row]).
Proof.
  intros Hst Hs Ht. pose proof (steps_ok _ _ (started_ok _ Hst) Hs) as Hok. split.
  2: { intros l1 id row l2 Htr. exact (noted_row _ _ _ _ _ _ Hst Hs Htr). }
  destruct (system_ok_result _ _ _ _ _ _ _ _ (run_system _ Hok) Ht) as [(o & -> & Ho) _].
  exists o. split; [done|]. split; [done|].
  destruct Ho as [u _ _ ->|[_ ->|row _ _ _ ->|[[[-> _]| ->] _]]]; cbn; lia.
Qed.
End Runs.

(** ** Concrete runs *)

Section Moves.
Context {L R : Type} `{OutboundLib} `{WAClient L} `{LiveOps L}.
Variable a : adapter.
Variable reqs : nat -> request.

(** Schedules with arrivals and a running clock. *)
Inductive move := Arrive (t : nat) | Run (t : nat) | Tick (by_ : Z).

Definition tick (d : Z) (w : engine L R) : engine L R :=
  MkEngine (en_journal w) (en_fence w) (en_live w) (en_now w + Z.max 0 d) (en_inFlight w) (en_flights w)
    (en_contexts w) (en_trace w).

Definition make_move (m : move) (s : system (engine L R) flight_result) : option (system (engine L R) flight_result) :=
  match m with
  | Arrive t =>
      match sy_threads s !! t with
      | Some _ => None
      | None => if decide (en_flights (sy_world s) !! t = None) then
                  if decide (events_of t (en_trace (sy_world s)) = []) then
                    Some (MkSystem (sy_world s) (<[t := serve a t (reqs t)]> (sy_threads s)))
                  else None
                else None
      end
  | Run t => step_thread t true s
  | Tick d => Some (MkSystem (tick d (sy_world s)) (sy_threads s))
  end.

Fixpoint make_moves (ms : list move) (s : system (engine L R) flight_result) : option (system (engine L R) flight_result) :=
  match ms with
  | [] => Some s
  | m :: rest => s' ← make_move m s; make_moves rest s'
  end.

Lemma make_move_step m s s' : make_move m s = Some s' -> sys_step a reqs s s'.
Proof.
  destruct m as [t|t|d]; cbn; intros Hm.
  - destruct (sy_threads s !! t) eqn:Ht; [discriminate|]. destruct (decide _) as [Hf|]; [|discriminate].
    destruct (decide _) as [He|]; [|discriminate]. injection Hm as <-. apply step_arrival; [done|by split].
  - by eapply step_request.
  - injection Hm as <-. apply step_process. constructor; cbn; auto. lia.
Qed.

Lemma make_moves_steps ms s s' : make_moves ms s = Some s' -> rtc (sys_step a reqs) s s'.
Proof.
  revert s. induction ms as [|m ms IH]; intros s; [by intros [= <-]|].
  intros (s1 & Hm & Hs)%bind_Some. eapply rtc_l; [by eapply make_move_step|by apply IH].
Qed.
End Moves.

(** A WhatsApp that acknowledges every send as ["3EB0"] at second 7. *)
#[local] Instance demo_lib : OutboundLib :=
  {| url_Parse _ := None; sha256_Sum256 _ := []; go_quote s := s |}.
Definition acked : M nat (string * Z) := fun n => (inr ("3EB0", 7000), S n).
Definition quietly {A} (x : A) : M nat A := fun n => (inr x, S n).
#[local] Instance demo_client : WAClient nat := {|
  SendText _ _ _ _ _ := acked; SendInteractive _ _ _ := acked; SendPoll _ _ _ _ _ _ _ := acked;
  SendLocation _ _ _ _ _ := acked; SendContact _ _ _ _ _ := acked; SendMedia _ _ _ _ _ _ _ _ _ := acked;
  SendAlbum _ _ _ _ _ _ := acked; React _ _ _ _ _ := acked; Edit _ _ _ _ := acked; Revoke _ _ _ _ := acked;
  Vote _ _ _ _ _ := acked; Forward _ _ _ _ _ := acked |}.
#[local] Instance demo_live : LiveOps nat := {|
  ConnectionState _ _ := Some (SessionWorking, true, true); SetPresence _ _ := quietly tt;
  SendReadReceiptAt _ _ _ _ _ := quietly tt; IsOnWhatsApp _ _ := quietly []; LiveProfilePicture _ _ := quietly (MkProfilePicture "" "");
  About _ _ := quietly ""; LiveSetBlocked _ _ _ := quietly tt; LiveCreateGroup _ _ _ := quietly blank_group;
  UpdateParticipants _ _ _ _ := quietly tt; UpdateSettings _ _ _ := quietly tt; GetInviteLink _ _ _ := quietly "";
  JoinWithLink _ _ := quietly ""; Leave _ _ := quietly tt; GetPresence _ _ := quietly (MkPresenceStatus "" "" "" "" false 0);
  LiveSetChatPresence _ _ _ := quietly tt; EnsureDevice _ _ n := n; StartQR _ := quietly tt; StartPairingCode _ _ := quietly "";
  LiveLogout _ := quietly tt; Forget _ n := n; LatestQR _ _ := ("", 0); BackfillSessionData _ := quietly (MkBackfillSnapshot [] []);
  ParseJID _ := None; DefaultUserServer := "s.whatsapp.net"; LegacyUserServer := "c.us"; GroupServer := "g.us";
  HiddenUserServer := "lid" |}.

Definition demo_adapter : adapter := NewApplicationGatewayAdapter "g1".
Definition demo_target (epoch : Z) : MutationResult := MkMutationResult "cmd1" "org_1" "s1" "g1" epoch.
Definition demo_text : SendRequest :=
  MkSendRequest SendTypeText "1@s" None "hi" "" [] None [] None "" None "" [] 0 0 false
    (S754_zero false) (S754_zero false) None None [] "".
(** Requests 0 and 1 send the same command; request 2 logs out under its id. *)
Definition demo_reqs (t : nat) : request :=
  match t with
  | 2%nat => ReqLogout (MkContactJIDCommand (demo_target 4) "" false)
  | _ => ReqSend (MkSendCommand (demo_target 4) demo_text None)
  end.

Definition demo_engine : engine nat unit :=
  MkEngine (Db empty_jdb []) (MkReconciler 1 {["s1" := demo_assignment "s1" "j1" 4 true]} tt [])
    0%nat 5 ∅ ∅ ∅ [].
Definition demo_begin : system (engine nat unit) flight_result := MkSystem demo_engine ∅.

(** A run that does not get stuck, without looking at the unfinished programs. *)
Lemma some_default {A} (o : option A) (d : A) : is_none o = false -> o = Some (default d o).
Proof. by destruct o. Qed.

Definition demo_race : list move :=
  [Arrive 0; Arrive 1; Run 0; Run 1; Run 0; Run 0; Tick 10; Run 0; Run 0; Run 0; Run 0; Run 0; Run 0; Run 1].
Definition demo_raced : system (engine nat unit) flight_result :=
  default demo_begin (make_moves demo_adapter demo_reqs demo_race demo_begin).

Definition demo_answer : flight_result := SendFlight (inr (MkSendMessageResult (demo_target 4) "3EB0" 7000000000)).

Lemma demo_raced_eq : make_moves demo_adapter demo_reqs demo_race demo_begin = Some demo_raced.
Proof. vm_compute. reflexivity. Qed.

Lemma demo_started : started demo_begin.
Proof. by repeat split. Qed.

Lemma demo_raced_steps : rtc (sys_step demo_adapter demo_reqs) demo_begin demo_raced.
Proof. exact (make_moves_steps _ _ _ _ _ demo_raced_eq). Qed.

Lemma demo_raced_reachable : reachable demo_adapter demo_reqs demo_raced.
Proof. exists demo_begin. split; [apply demo_started|apply demo_raced_steps]. Qed.

(** Request 1 followed request 0; a later logout under the same id replays. *)
Definition demo_more : list move := [Arrive 2; Run 2; Run 2; Run 2; Run 2].
Definition demo_later : system (engine nat unit) flight_result :=
  default demo_raced (make_moves demo_adapter demo_reqs demo_more demo_raced).

Lemma demo_later_eq : make_moves demo_adapter demo_reqs demo_more demo_raced = Some demo_later.
Proof. vm_compute. reflexivity. Qed.

Lemma success_is_never_repeated_witness :
  sy_threads demo_raced !! 1%nat = Some (Return (inr demo_answer)) /\
  exists u r s1, rtc (sys_step demo_adapter demo_reqs) s1 demo_raced /\ ledger (sy_world s1) !! "cmd1" = Some r /\
    cr_status r = CommandSent /\ executed_by u (sy_world s1) = executed_by u (sy_world demo_raced) /\
    (UnixMilli (en_now (sy_world demo_later)) <= cr_expires_at r ->
     ledger (sy_world demo_later) !! "cmd1" = Some r).
Proof.
  assert (Ht : sy_threads demo_raced !! 1%nat = Some (Return (inr demo_answer))) by (vm_compute; reflexivity).
  split; [exact Ht|].
  destruct (success_is_never_repeated demo_adapter demo_reqs demo_begin demo_raced 1 demo_answer "3EB0" demo_started demo_raced_steps Ht eq_refl)
    as (u & r & s1 & _ & _ & Hs1 & Hrow & Hx & Hst & _ & Hlater).
  exists u, r, s1. split; [exact Hs1|]. split; [exact Hrow|]. split; [exact Hst|]. split; [exact Hx|]. intros Hnow.
  exact (proj1 (Hlater demo_later (make_moves_steps _ _ _ _ _ demo_later_eq) Hnow)).
Defined.

Lemma calls_are_led_and_fenced_witness :
  exists s1 : system (engine nat unit) flight_result, en_trace (sy_world s1) = [Fenced 0 (demo_target 4) false 5 true] /\
    en_inFlight (sy_world s1) !! "cmd1" = Some 0%nat /\ ledger (sy_world s1) !! "cmd1" = None.
Proof.
  assert (Htr : en_trace (sy_world demo_raced) = [Fenced 0 (demo_target 4) false 5 true] ++ Executed 0 "cmd1" ::
    [Held "cmd1" (MkCmdRow "s1" CommandSent "3EB0" "" 7000 604807000)])
    by (vm_compute; reflexivity).
  destruct (calls_are_led_and_fenced demo_adapter demo_reqs demo_begin demo_raced 0 "cmd1" _ _ demo_started demo_raced_steps Htr)
    as (s1 & _ & _ & Hl & Hin & Hn & _).
  exists s1. split; [exact Hl|]. split; [exact Hin|exact Hn].
Defined.

Definition demo_half : system (engine nat unit) flight_result :=
  default demo_begin (make_moves demo_adapter demo_reqs (take 3 demo_race) demo_begin).
Definition demo_sched : list (nat * bool) := [(0%nat, true); (1%nat, true)].
Definition demo_stepped : system (engine nat unit) flight_result := default demo_half (run_threads demo_sched demo_half).

Lemma demo_half_reachable : reachable demo_adapter demo_reqs demo_half.
Proof.
  exists demo_begin. split; [apply demo_started|]. apply (make_moves_steps _ _ (take 3 demo_race)).
  apply some_default. vm_compute. reflexivity.
Qed.

Lemma demo_stepped_eq : run_threads demo_sched demo_half = Some demo_stepped.
Proof. apply some_default. vm_compute. reflexivity. Qed.

Lemma every_request_is_answered_witness :
  run_threads demo_sched demo_half = Some demo_stepped /\
  (length (filter (fun x : nat * bool => x.1 = 1%nat) demo_sched) <= 9)%nat.
Proof.
  split; [exact demo_stepped_eq|].
  destruct (sy_threads demo_half !! 1%nat) as [p|] eqn:Hp.
  2: { assert (Hsome : is_none (sy_threads demo_half !! 1%nat) = false) by (vm_compute; reflexivity).
       by rewrite Hp in Hsome. }
  exact (proj1 (every_request_is_answered demo_adapter demo_reqs demo_half _ _ demo_half_reachable demo_stepped_eq) 1%nat p Hp).
Defined.

Lemma answers_are_accounted_for_witness :
  exists o, inr demo_answer = inr (A := goerr) o /\
    outcome 1 (demo_target 4) "send" (req_replay (demo_reqs 1)) o (sy_world demo_raced).
Proof.
  assert (Ht : sy_threads demo_raced !! 1%nat = Some (Return (inr demo_answer))) by (vm_compute; reflexivity).
  destruct (answers_are_accounted_for demo_adapter demo_reqs demo_begin demo_raced 1 (inr demo_answer) demo_started demo_raced_steps Ht)
    as ((o & Ho & Hout & _) & _).
  exists o. split; [exact Ho|exact Hout].
Defined.

(** The ledger does not record the operation: a logout that reuses the id of a
    recorded send succeeds without logging out ([demo_live] counts the calls). *)
Example replay_ignores_the_operation :
  sy_threads demo_later !! 2%nat = Some (Return (inr (MutationFlight (inr (MkMutationResult "cmd1" "" "" "" 0))))) /\
  en_live (sy_world demo_later) = 1%nat.
Proof. vm_compute. split; reflexivity. Qed.
