(* ===== verification/WebhookStore.v ===== *)
(** * Webhooks and their deliveries, as stored

    Models [internal/store/webhook.go], [internal/store/webhook_delivery.go]
    with the statements of [internal/store/queries/webhook.sql] and
    [webhook_delivery.sql], the delivery pass of [internal/store/retention.go],
    the CRUD service [internal/service/webhook.go] and the adapters of
    [internal/service/webhook_adapters.go]. The tables map ids to rows; rows of
    equal sort key come in the order of their ids. JSON coding and the AES-GCM
    encryption of the signing secret are parameters. *)

From stdpp Require Import pretty.
From S2P Require Import Prelude Journal Domain Outbound OutboxStore Scheduler EventIngest GatewayTables.

#[local] Open Scope Z_scope.

(** ** [domain/entities.go] *)

Record RetryPolicy := MkRetryPolicy { rp_Policy : string; rp_DelaySeconds : Z; rp_Attempts : Z }.

(** [wh_CustomHeaders] is [None] for a nil map; [wh_HMACSecret] is empty when no
    secret is configured. *)
Record Webhook := MkWebhook {
  wh_ID : string;
  wh_OrganizationID : string;
  wh_SessionID : option string;
  wh_URL : string;
  wh_Events : list string;
  wh_HMACSecret : bytes;
  wh_CustomHeaders : option (gmap string string);
  wh_RetryPolicy : RetryPolicy;
  wh_Active : bool;
  wh_CreatedAt : Z;
  wh_UpdatedAt : Z;
}.

(** The zero value of the struct. *)
Definition zero_webhook : Webhook :=
  MkWebhook "" "" None "" [] [] None (MkRetryPolicy "" 0 0) false 0 0.

Record WebhookDelivery := MkDelivery {
  dl_ID : Z;
  dl_WebhookID : string;
  dl_EventID : string;
  dl_Status : WebhookDeliveryStatus;
  dl_Attempts : Z;
  dl_ResponseCode : option Z;
  dl_NextRetryAt : option Z;
  dl_LastError : option string;
  dl_CreatedAt : Z;
}.

(** A row of [webhooks]: the JSON columns as the documents they hold. *)
Record WebhookRow := MkWebhookRow {
  wr_OrganizationID : string;
  wr_SessionID : option string;
  wr_Url : string;
  wr_Events : bytes;
  wr_HmacSecret : bytes;
  wr_CustomHeaders : option bytes;
  wr_RetryPolicy : bytes;
  wr_Active : bool;
  wr_CreatedAt : Z;
  wr_UpdatedAt : Z;
}.

#[export] Instance RetryPolicy_eq_dec : EqDecision RetryPolicy.
Proof. solve_decision. Defined.
#[export] Instance WebhookDelivery_eq_dec : EqDecision WebhookDelivery.
Proof. solve_decision. Defined.
#[export] Instance WebhookRow_eq_dec : EqDecision WebhookRow.
Proof. solve_decision. Defined.

(** The two tables; [ht_next] is the AUTO_INCREMENT mark of the deliveries. *)
Record htables := MkHtables {
  ht_webhooks : gmap string WebhookRow;
  ht_deliveries : gmap Z WebhookDelivery;
  ht_next : Z;
}.

Definition with_webhooks (m : gmap string WebhookRow) (t : htables) : htables :=
  MkHtables m (ht_deliveries t) (ht_next t).
Definition with_deliveries (m : gmap Z WebhookDelivery) (t : htables) : htables :=
  MkHtables (ht_webhooks t) m (ht_next t).

(** [encoding/json] on the JSON columns of a webhook. *)
Class WebhookCodec := {
  marshal_strings : list string -> goerr + bytes;
  unmarshal_strings : bytes -> goerr + list string;
  marshal_headers : gmap string string -> goerr + bytes;
  unmarshal_headers : bytes -> goerr + option (gmap string string);
  marshal_policy : RetryPolicy -> goerr + bytes;
  unmarshal_policy : bytes -> goerr + RetryPolicy;
}.

(** ** [store/webhook.go] *)

Definition scanErr (table : string) (err : goerr) : goerr := ErrWrap ("store: scan " +:+ table) err.

Section WebhookRepo.
Context `{DB : MySQL} `{J : WebhookCodec}.

(** [if len(column) > 0 { json.Unmarshal(column, &field) }]. *)
Definition scan_column {A} (table : string) (decode : bytes -> goerr + A) (zero : A) (column : bytes)
  : goerr + A :=
  if is_nil column then inr zero else
  match decode column with inl err => inl (scanErr table err) | inr a => inr a end.

Definition webhookFromRow (id : string) (row : WebhookRow) : goerr + Webhook :=
  match scan_column "webhooks.events" unmarshal_strings [] (wr_Events row) with
  | inl err => inl err
  | inr events =>
      match scan_column "webhooks.custom_headers" unmarshal_headers None
              (default [] (wr_CustomHeaders row)) with
      | inl err => inl err
      | inr headers =>
          match scan_column "webhooks.retry_policy" unmarshal_policy (MkRetryPolicy "" 0 0)
                  (wr_RetryPolicy row) with
          | inl err => inl err
          | inr policy =>
              inr (MkWebhook id (wr_OrganizationID row) (wr_SessionID row) (wr_Url row) events
                     (wr_HmacSecret row) headers policy (wr_Active row) (wr_CreatedAt row)
                     (wr_UpdatedAt row))
          end
      end
  end.

Definition webhookJSON (w : Webhook) : goerr + (bytes * bytes * bytes) :=
  match marshal_strings (wh_Events w) with
  | inl err => inl (ErrWrap "store: marshal events" err)
  | inr events =>
      match match wh_CustomHeaders w with None => inr [] | Some h => marshal_headers h end with
      | inl err => inl (ErrWrap "store: marshal custom_headers" err)
      | inr customHeaders =>
          match marshal_policy (wh_RetryPolicy w) with
          | inl err => inl (ErrWrap "store: marshal retry_policy" err)
          | inr retryPolicy => inr (events, customHeaders, retryPolicy)
          end
      end
  end.

(** [nullableJSON], then [NULLIF(?, '')]. *)
Definition nullableJSON (b : bytes) : option bytes := if is_nil b then None else Some b.

(** What the JSON columns hold for the documents written to them. *)
Definition stored_columns (columns : bytes * bytes * bytes) : option (bytes * option bytes * bytes) :=
  let '(events, customHeaders, retryPolicy) := columns in
  events ← json_column events;
  customHeaders ← match nullableJSON customHeaders with
                  | None => Some None
                  | Some b => Some <$> json_column b
                  end;
  retryPolicy ← json_column retryPolicy;
  Some (events, customHeaders, retryPolicy).

Definition invalidJSON : goerr := ErrMsg "Error 3140 (22032): Invalid JSON text".
Definition duplicateKey (key : string) : goerr :=
  ErrMsg ("Error 1062 (23000): Duplicate entry for key '" +:+ key +:+ "'").

(** [CreateWebhook]. *)
Definition insert_webhook (w : Webhook) (columns : bytes * bytes * bytes) (t : htables)
  : (goerr + unit) * htables :=
  match stored_columns columns with
  | None => (inl invalidJSON, t)
  | Some (events, customHeaders, retryPolicy) =>
      match ht_webhooks t !! wh_ID w with
      | Some _ => (inl (duplicateKey "webhooks.PRIMARY"), t)
      | None =>
          (inr tt, with_webhooks (<[wh_ID w :=
             MkWebhookRow (wh_OrganizationID w) (wh_SessionID w) (wh_URL w) events
               (wh_HMACSecret w) customHeaders retryPolicy (wh_Active w) (wh_CreatedAt w)
               (wh_UpdatedAt w)]> (ht_webhooks t)) t)
      end
  end.

Definition CreateWebhook (w : Webhook) : M (db htables) unit :=
  columns ← lift_result (webhookJSON w);
  map_err (ErrWrap "store: create webhook") (stmt (insert_webhook w columns)).

Definition GetWebhook (id : string) : M (db htables) Webhook :=
  row ← map_err (notFound "webhook")
          (stmt (fun t => match ht_webhooks t !! id with
                          | Some row => (inr row, t)
                          | None => (inl ErrNoRows, t)
                          end));
  lift_result (webhookFromRow id row).

(** [ORDER BY created_at DESC]. *)
Definition newer (a b : string * WebhookRow) : Prop := wr_CreatedAt b.2 <= wr_CreatedAt a.2.
#[local] Instance newer_dec : RelDecision newer.
Proof. intros a b. unfold newer. apply _. Defined.

Definition select_webhooks (sel : WebhookRow -> bool) (t : htables) : list (string * WebhookRow) :=
  merge_sort newer (filter (fun p => sel p.2 = true) (map_to_list (ht_webhooks t))).

Fixpoint webhooks_of_rows (rows : list (string * WebhookRow)) : goerr + list Webhook :=
  match rows with
  | [] => inr []
  | (id, row) :: rest =>
      match webhookFromRow id row with
      | inl err => inl err
      | inr w =>
          match webhooks_of_rows rest with inl err => inl err | inr ws => inr (w :: ws) end
      end
  end.

Definition ListByOrg (organizationID : string) : M (db htables) (list Webhook) :=
  rows ← map_err (ErrWrap "store: list webhooks")
           (query (select_webhooks (fun r => bool_decide (wr_OrganizationID r = organizationID))));
  lift_result (webhooks_of_rows rows).

Definition active_for (organizationID sessionID : string) (r : WebhookRow) : bool :=
  bool_decide (wr_OrganizationID r = organizationID) && wr_Active r &&
  match wr_SessionID r with None => true | Some s => bool_decide (s = sessionID) end.

Definition ListActiveForEvent (organizationID sessionID : string) : M (db htables) (list Webhook) :=
  rows ← map_err (ErrWrap "store: list active webhooks")
           (query (select_webhooks (active_for organizationID sessionID)));
  lift_result (webhooks_of_rows rows).

(** [UpdateWebhook]: the rows matched. *)
Definition update_webhook (w : Webhook) (columns : bytes * bytes * bytes) (t : htables)
  : (goerr + Z) * htables :=
  match stored_columns columns with
  | None => (inl invalidJSON, t)
  | Some (events, customHeaders, retryPolicy) =>
      match ht_webhooks t !! wh_ID w with
      | None => (inr 0, t)
      | Some r =>
          (inr 1, with_webhooks (<[wh_ID w :=
             MkWebhookRow (wr_OrganizationID r) (wh_SessionID w) (wh_URL w) events
               (wh_HMACSecret w) customHeaders retryPolicy (wh_Active w) (wr_CreatedAt r)
               (wh_UpdatedAt w)]> (ht_webhooks t)) t)
      end
  end.

(** [return rowsAffectedOrNotFound(n, resource)]. *)
Definition affected {W} (n : Z) (resource : string) : M W unit :=
  match rowsAffectedOrNotFound n resource with Some err => throw err | None => mret tt end.

Definition UpdateWebhook (w : Webhook) : M (db htables) unit :=
  columns ← lift_result (webhookJSON w);
  n ← map_err (ErrWrap "store: update webhook") (stmt (update_webhook w columns));
  affected n "webhook".

Definition delete_webhook (id : string) (t : htables) : Z * htables :=
  match ht_webhooks t !! id with
  | None => (0, t)
  | Some _ => (1, with_webhooks (delete id (ht_webhooks t)) t)
  end.

Definition DeleteWebhook (id : string) : M (db htables) unit :=
  n ← map_err (ErrWrap "store: delete webhook") (exec (delete_webhook id));
  affected n "webhook".
End WebhookRepo.

(** ** [store/webhook_delivery.go] *)

Definition webhookAttemptLeaseMs : Z := 60000.

(** [deliveryFromRow]: a row's INT columns already fit the Go integers. *)
Definition deliveryFromRow (row : WebhookDelivery) : WebhookDelivery := row.

Definition delivery_rows (t : htables) : list WebhookDelivery := (map_to_list (ht_deliveries t)).*2.

Definition of_pair (webhookID eventID : string) (d : WebhookDelivery) : bool :=
  bool_decide (dl_WebhookID d = webhookID) && bool_decide (dl_EventID d = eventID).

(** [EnqueueWebhookDelivery]: the id MySQL reports. The row that holds the
    unique (webhook, event) pair is left as it is; the mark advances either way. *)
Definition insert_delivery (webhookID eventID : string) (nextRetryAt createdAt : Z) (t : htables)
  : Z * htables :=
  match filter (fun d => of_pair webhookID eventID d = true) (delivery_rows t) with
  | d :: _ => (dl_ID d, MkHtables (ht_webhooks t) (ht_deliveries t) (ht_next t + 1))
  | [] =>
      let d := MkDelivery (ht_next t) webhookID eventID DeliveryPending 0 None
                 (Some nextRetryAt) None createdAt in
      (ht_next t, MkHtables (ht_webhooks t) (<[ht_next t := d]> (ht_deliveries t)) (ht_next t + 1))
  end.

Definition EnqueueDelivery (webhookID eventID : string) (createdAt : Z) : M (db htables) Z :=
  map_err (ErrWrap "store: enqueue delivery")
    (exec (insert_delivery webhookID eventID createdAt createdAt)).

(** [WHERE status IN ('pending','failed') AND next_retry_at IS NOT NULL AND
    next_retry_at <= now], and the other half of the statuses. *)
Definition is_terminal (d : WebhookDelivery) : bool :=
  bool_decide (dl_Status d = DeliveryDelivered) || bool_decide (dl_Status d = DeliveryDead).
Definition due_delivery (now : Z) (d : WebhookDelivery) : bool :=
  (bool_decide (dl_Status d = DeliveryPending) || bool_decide (dl_Status d = DeliveryFailed)) &&
  from_option (fun t => t <=? now) false (dl_NextRetryAt d).

Definition retry_le (a b : WebhookDelivery) : Prop :=
  default 0 (dl_NextRetryAt a) <= default 0 (dl_NextRetryAt b).
#[local] Instance retry_le_dec : RelDecision retry_le.
Proof. intros a b. unfold retry_le. apply _. Defined.

(** [ClaimDueWebhookDeliveries]: [locked] are the rows other transactions hold. *)
Definition select_due (locked : gset Z) (now limit : Z) (t : htables) : list WebhookDelivery :=
  take (Z.to_nat limit)
    (merge_sort retry_le
       (filter (fun d => due_delivery now d = true /\ dl_ID d ∉ locked) (delivery_rows t))).

(** [UPDATE webhook_deliveries SET f WHERE id = ?], with the rows matched. *)
Definition update_delivery (id : Z) (f : WebhookDelivery -> WebhookDelivery) (t : htables)
  : Z * htables :=
  match ht_deliveries t !! id with
  | None => (0, t)
  | Some d => (1, with_deliveries (<[id := f d]> (ht_deliveries t)) t)
  end.

Definition set_lease (leaseUntil : Z) (d : WebhookDelivery) : WebhookDelivery :=
  MkDelivery (dl_ID d) (dl_WebhookID d) (dl_EventID d) (dl_Status d) (dl_Attempts d)
    (dl_ResponseCode d) (Some leaseUntil) (dl_LastError d) (dl_CreatedAt d).

(** The loop over the selected rows, [i] being the position of the first. *)
Fixpoint lease_rows (now : Z) (i : Z) (rows : list WebhookDelivery)
  : M (db htables) (list WebhookDelivery) :=
  match rows with
  | [] => mret []
  | row :: rest =>
      let leaseUntil := i64 (now + i64 (webhookAttemptLeaseMs * i64 (i + 1))) in
      map_err (ErrWrap ("store: lease webhook delivery " +:+ pretty (Z.to_N (dl_ID row))))
        (exec (update_delivery (dl_ID row) (set_lease leaseUntil)));;
      out ← lease_rows now (i + 1) rest;
      mret (deliveryFromRow row :: out)
  end.

Definition claimDue (locked : gset Z) (now limit : Z) : M (db htables) (list WebhookDelivery) :=
  rows ← map_err (ErrWrap "store: claim due deliveries") (query (select_due locked now limit));
  lease_rows now 0 rows.

(** What a repository is built over: [*sql.DB], [*sql.Tx] or something else. *)
Inductive dbtx := OverDB | OverTx | OverOther.

Definition ClaimDue (handle : dbtx) (locked : gset Z) (now limit : Z)
  : M (db htables) (list WebhookDelivery) :=
  let limit := normLimit limit in
  match handle with
  | OverTx => claimDue locked now limit
  | OverOther => throw (ErrMsg "store: claim due deliveries requires *sql.DB or *sql.Tx")
  | OverDB =>
      map_err (ErrWrap "store: begin claim due deliveries") begin_tx;;
      with_rollback (
        rows ← claimDue locked now limit;
        map_err (ErrWrap "store: commit claim due deliveries") commit_tx;;
        mret rows)
  end.

(** The SET clauses of the three outcomes: [attempts + 1] must fit INT and
    [last_error] must be text of [utf8mb4]. *)
Definition record_outcome (id : Z) (status : WebhookDeliveryStatus) (responseCode : option Z)
  (lastError : option string) (nextRetryAt : option Z) (t : htables) : (goerr + Z) * htables :=
  match ht_deliveries t !! id with
  | None => (inr 0, t)
  | Some d =>
      if 2 ^ 31 - 1 <=? dl_Attempts d then
        (inl (ErrMsg "Error 1264 (22003): Out of range value for column 'attempts'"), t)
      else if negb (utf8_valid (default "" lastError)) then
        (inl (ErrMsg "Error 1366 (HY000): Incorrect string value for column 'last_error'"), t)
      else (inr 1, with_deliveries (<[id :=
             MkDelivery (dl_ID d) (dl_WebhookID d) (dl_EventID d) status (dl_Attempts d + 1)
               responseCode nextRetryAt lastError (dl_CreatedAt d)]> (ht_deliveries t)) t)
  end.

Definition MarkDelivered (id responseCode : Z) : M (db htables) unit :=
  n ← map_err (ErrWrap "store: mark delivered")
        (stmt (record_outcome id DeliveryDelivered (Some (i32 responseCode)) None None));
  affected n "webhook delivery".

Definition MarkFailed (id : Z) (responseCode : option Z) (lastError : string) (nextRetryAt : Z)
  : M (db htables) unit :=
  n ← map_err (ErrWrap "store: mark failed")
        (stmt (record_outcome id DeliveryFailed (i32 <$> responseCode) (Some lastError)
                 (Some nextRetryAt)));
  affected n "webhook delivery".

Definition MarkDead (id : Z) (responseCode : option Z) (lastError : string) : M (db htables) unit :=
  n ← map_err (ErrWrap "store: mark dead")
        (stmt (record_outcome id DeliveryDead (i32 <$> responseCode) (Some lastError) None));
  affected n "webhook delivery".

(** [Create] stores the id and the status in the caller's delivery. *)
Definition CreateDelivery (d : WebhookDelivery) : M (db htables) WebhookDelivery :=
  id ← EnqueueDelivery (dl_WebhookID d) (dl_EventID d) (dl_CreatedAt d);
  mret (MkDelivery id (dl_WebhookID d) (dl_EventID d) DeliveryPending (dl_Attempts d)
          (dl_ResponseCode d) (dl_NextRetryAt d) (dl_LastError d) (dl_CreatedAt d)).

Definition terminal_exists (webhookID eventID : string) (t : htables) : bool :=
  existsb (fun d => of_pair webhookID eventID d && is_terminal d) (delivery_rows t).

Definition ExistsTerminal (webhookID eventID : string) : M (db htables) bool :=
  map_err (ErrWrap "store: exists terminal delivery") (query (terminal_exists webhookID eventID)).

(** ** The delivery pass of [store/retention.go] *)

Definition old_delivery_le (a b : WebhookDelivery) : Prop :=
  dl_CreatedAt a < dl_CreatedAt b \/ (dl_CreatedAt a = dl_CreatedAt b /\ dl_ID a <= dl_ID b).
#[local] Instance old_delivery_le_dec : RelDecision old_delivery_le.
Proof. intros a b. unfold old_delivery_le. apply _. Defined.

Definition DeleteTerminalWebhookDeliveriesBefore (cutoff limit : Z) (t : htables) : Z * htables :=
  let gone := take (Z.to_nat limit) (merge_sort old_delivery_le
                (filter (fun d => (dl_CreatedAt d <? cutoff) && is_terminal d = true)
                   (delivery_rows t))) in
  (Z.of_nat (length gone),
   with_deliveries (filter (fun p => p.1 ∉ dl_ID <$> gone) (ht_deliveries t)) t).

Definition deleteTerminalDeliveries (fuel : nat) (cutoffMs : Z) : M (db htables) (option Z) :=
  deleteBatches fuel (map_err (ErrWrap "store: delete terminal webhook deliveries")
    (exec (DeleteTerminalWebhookDeliveriesBefore cutoffMs retentionDeleteBatchSize))) 0.

(** ** [service/webhook.go] *)

Record WebhookInput := MkWebhookInput {
  wi_SessionID : option string;
  wi_URL : string;
  wi_Events : option (list string);
  wi_Secret : option string;
  wi_CustomHeaders : option (gmap string string);
  wi_RetryPolicy : option RetryPolicy;
  wi_Active : option bool;
}.

(** [crypto] is [None] when no encryption is configured. *)
Record WebhookService := MkWebhookService {
  sv_crypto : option (string -> goerr + bytes);
  sv_defaultDelay : Z;
  sv_defaultTries : Z;
}.

Definition NewWebhookService (crypto : option (string -> goerr + bytes)) (defaultDelay defaultTries : Z)
  : WebhookService :=
  MkWebhookService crypto
    (if defaultDelay <=? 0 then 2 else defaultDelay)
    (if defaultTries <=? 0 then 15 else defaultTries).

Section Service.
Context `{DB : MySQL} `{J : WebhookCodec} (s : WebhookService).

Definition defaultRetry : RetryPolicy := MkRetryPolicy "exponential" (sv_defaultDelay s) (sv_defaultTries s).

Definition encryptSecret (plaintext : string) : goerr + bytes :=
  match sv_crypto s with
  | None => inl (ErrInternal "encryption is not configured")
  | Some encrypt =>
      match encrypt plaintext with
      | inl _ => inl (ErrInternal "failed to encrypt secret")
      | inr enc => inr enc
      end
  end.

Definition set_secret (enc : bytes) (w : Webhook) : Webhook :=
  MkWebhook (wh_ID w) (wh_OrganizationID w) (wh_SessionID w) (wh_URL w) (wh_Events w) enc
    (wh_CustomHeaders w) (wh_RetryPolicy w) (wh_Active w) (wh_CreatedAt w) (wh_UpdatedAt w).

(** The secret of a new webhook, and of an updated one. *)
Definition created_secret (input : option string) (w : Webhook) : M (db htables) Webhook :=
  match input with
  | None => mret w
  | Some secret =>
      if bool_decide (secret = "") then mret w else
      enc ← lift_result (encryptSecret secret); mret (set_secret enc w)
  end.
Definition updated_secret (input : option string) (w : Webhook) : M (db htables) Webhook :=
  match input with
  | None => mret w
  | Some secret =>
      if bool_decide (secret = "") then mret (set_secret [] w) else
      enc ← lift_result (encryptSecret secret); mret (set_secret enc w)
  end.

(** [newID] is [domain.NewWebhookID()], [now] the clock. *)
Definition ServiceCreate (newID : string) (now : Z) (organizationID : string) (input : WebhookInput)
  : M (db htables) Webhook :=
  if bool_decide (wi_URL input = "") then throw (ErrValidation "url is required") else
  if is_nil (default [] (wi_Events input)) then throw (ErrValidation "events is required") else
  let w := MkWebhook newID organizationID (wi_SessionID input) (wi_URL input)
             (default [] (wi_Events input)) [] (wi_CustomHeaders input)
             (default defaultRetry (wi_RetryPolicy input)) (default true (wi_Active input)) now now in
  w ← created_secret (wi_Secret input) w;
  CreateWebhook w;;
  mret w.

Definition ServiceList (organizationID : string) : M (db htables) (list Webhook) := ListByOrg organizationID.

Definition ServiceGet (organizationID id : string) : M (db htables) Webhook :=
  w ← GetWebhook id;
  if bool_decide (wh_OrganizationID w = organizationID) then mret w
  else throw (ErrNotFound "webhook not found").

(** The fields a partial update sets, the secret aside. *)
Definition merge_input (now : Z) (input : WebhookInput) (w : Webhook) : Webhook :=
  MkWebhook (wh_ID w) (wh_OrganizationID w) (wi_SessionID input)
    (if bool_decide (wi_URL input = "") then wh_URL w else wi_URL input)
    (default (wh_Events w) (wi_Events input)) (wh_HMACSecret w)
    (match wi_CustomHeaders input with Some h => Some h | None => wh_CustomHeaders w end)
    (default (wh_RetryPolicy w) (wi_RetryPolicy input)) (default (wh_Active w) (wi_Active input))
    (wh_CreatedAt w) now.

Definition ServiceUpdate (now : Z) (organizationID id : string) (input : WebhookInput)
  : M (db htables) Webhook :=
  w ← ServiceGet organizationID id;
  let w := merge_input now input w in
  w ← updated_secret (wi_Secret input) w;
  UpdateWebhook w;;
  mret w.

Definition ServiceDelete (organizationID id : string) : M (db htables) unit :=
  ServiceGet organizationID id;;
  DeleteWebhook id.
End Service.
