(* ===== verification/Webhooks.v ===== *)
(** * Webhook delivery

    Models [internal/webhooks]: the subscription rule ([match.go]), the retry
    schedule ([backoff.go]), the enqueuer ([enqueuer.go]) and the dispatcher
    ([dispatcher.go]) over the interfaces of [webhooks.go], each call of a
    collaborator being one action of a program of [Concurrency]. [domain.Event]
    is the event whose payload is the stored document. Logging is dropped. *)

From stdpp Require Import pretty.
From S2P Require Import Prelude Journal Domain Outbound OutboxStore EventIngest WebhookStore Concurrency.

#[local] Open Scope Z_scope.

(** ** match.go *)

Definition EventMatches (events : list string) (eventType : string) : bool :=
  let bulk := IsBulkEvent eventType in
  existsb (fun e => bool_decide (e = eventType) || (bool_decide (e = "*") && negb bulk)) events.

(** ** backoff.go *)

Definition DefaultDelaySeconds : Z := 2.
Definition DefaultAttempts : Z := 15.
Definition maxBackoffShift : Z := 30.

Definition backoffSeconds (policy : string) (delaySeconds attempt : Z) : Z :=
  let delaySeconds := if delaySeconds <=? 0 then DefaultDelaySeconds else delaySeconds in
  let attempt := if attempt <? 1 then 1 else attempt in
  if negb (bool_decide (policy = "exponential")) then delaySeconds else
  let shift := attempt - 1 in
  let shift := if maxBackoffShift <? shift then maxBackoffShift else shift in
  i64 (delaySeconds * Z.shiftl 1 shift).

Definition maxAttempts (p : RetryPolicy) : Z :=
  if rp_Attempts p <=? 0 then DefaultAttempts else rp_Attempts p.

(** ** HTTP *)

Definition HeaderRequestID : string := "X-Webhook-Request-Id".
Definition HeaderTimestamp : string := "X-Webhook-Timestamp".
Definition HeaderHMAC : string := "X-Webhook-Hmac".
Definition HeaderHMACAlgorithm : string := "X-Webhook-Hmac-Algorithm".
Definition HMACAlgorithm : string := "sha512".

(** [net/textproto.CanonicalMIMEHeaderKey]: a key with a byte no header name
    holds is kept; otherwise letters after a hyphen are capitals, others small. *)
Definition token_byte (c : N) : bool :=
  between 48 57 c || between 65 90 c || between 94 122 c ||
  bool_decide (c ∈ [33; 35; 36; 37; 38; 39; 42; 43; 45; 46; 124; 126]%N).

Fixpoint canonical_bytes (upper : bool) (l : list N) : list N :=
  match l with
  | [] => []
  | c :: rest =>
      let c' := if upper && between 97 122 c then (c - 32)%N
                else if negb upper && between 65 90 c then (c + 32)%N else c in
      c' :: canonical_bytes (N.eqb c' 45) rest
  end.

Definition CanonicalMIMEHeaderKey (key : string) : string :=
  let l := string_bytes key in
  if forallb token_byte l then bytes_string (canonical_bytes true l) else key.

Record Request := MkRequest {
  rq_URL : string;
  rq_Header : gmap string string;
  rq_Body : bytes;
}.

(** [req.Header.Set(key, value)]. *)
Definition set_header (key value : string) (h : gmap string string) : gmap string string :=
  <[CanonicalMIMEHeaderKey key := value]> h.

(** A response: its status and the bytes of its body that can be read. *)
Record Response := MkResponse { rs_StatusCode : Z; rs_Body : string }.

Definition maxResponseBodyRead : nat := 4096.

(** ** The collaborators ([webhooks.go]) *)

Class WebhookRepo (W : Type) := {
  wr_ListMatching : string -> string -> string -> M W (list Webhook);
  wr_Get : string -> M W Webhook;
}.

Class EventStore (W : Type) := { es_GetEvent : string -> M W RawEvent }.

Class WebhookDeliveryRepo (W : Type) := {
  dr_Create : WebhookDelivery -> M W unit;
  dr_ClaimDue : Z -> Z -> M W (list WebhookDelivery);
  dr_MarkDelivered : Z -> Z -> Z -> M W unit;
  dr_MarkFailed : Z -> Z -> Z -> option Z -> string -> M W unit;
  dr_MarkDead : Z -> Z -> option Z -> string -> M W unit;
  dr_ExistsTerminal : string -> string -> M W bool;
}.

Class HTTPDoer (W : Type) := { hd_Do : Request -> M W Response }.
Class Clock (W : Type) := { cl_NowMs : M W Z }.

(** [encoding/json] on an event, the URL check of [http.NewRequest] and the
    lowercase hexadecimal HMAC-SHA512 of [SignHMAC]. *)
Class WebhookLib := {
  marshal_event : RawEvent -> goerr + bytes;
  parse_url : string -> option goerr;
  sign : bytes -> bytes -> string;
}.

(** [SignHMAC]. *)
Definition SignHMAC `{WebhookLib} (secret body : bytes) : string := sign secret body.

(** ** enqueuer.go *)

Section Enqueuer.
Context {W : Type} `{WebhookRepo W} `{WebhookDeliveryRepo W} `{Clock W}.

(** The body of the loop over the hooks: [Some] joins the failures, the flag
    says whether a delivery was created. *)
Definition enqueue_hook (now : Z) (evt : RawEvent) (h : Webhook) : proc W (bool * option goerr) :=
  if negb (EventMatches (wh_Events h) (re_Type evt)) then mret (false, None) else
  terminal ← ptry (act (dr_ExistsTerminal (wh_ID h) (re_ID evt)));
  match terminal with
  | inl err => mret (false, Some err)
  | inr true => mret (false, None)
  | inr false =>
      let d := MkDelivery 0 (wh_ID h) (re_ID evt) DeliveryPending 0 None (Some now) None now in
      made ← ptry (act (dr_Create d));
      match made with
      | inl err => mret (false, Some err)
      | inr _ => mret (true, None)
      end
  end.

Fixpoint enqueue_loop (now : Z) (evt : RawEvent) (hooks : list Webhook) (created : Z)
  (failures : option goerr) : proc W (Z * option goerr) :=
  match hooks with
  | [] => mret (created, failures)
  | h :: rest =>
      r ← enqueue_hook now evt h;
      enqueue_loop now evt rest (if r.1 : bool then created + 1 else created)
        (errors_join failures r.2)
  end.

(** The number of deliveries created and the joined failures. *)
Definition Enqueue (evt : RawEvent) : proc W (Z * option goerr) :=
  hooks ← ptry (act (wr_ListMatching (re_Organization evt) (re_Session evt) (re_Type evt)));
  match hooks with
  | inl err => mret (0, Some (ErrWrap "list matching webhooks" err))
  | inr hooks => now ← act cl_NowMs; enqueue_loop now evt hooks 0 None
  end.
End Enqueuer.

(** ** dispatcher.go *)

Definition DefaultClaimLimit : Z := 50.

(** [isNotFound]. *)
Definition isNotFound (err : goerr) : bool := bool_decide (api_code err = Some CodeNotFound).

Section Dispatcher.
Context {W : Type} `{WebhookRepo W} `{WebhookDeliveryRepo W} `{EventStore W} `{HTTPDoer W} `{Clock W}.
Context `{WebhookLib} `{MapRange} (decryptor : option (bytes -> goerr + bytes)).

(** [fail]. *)
Definition fail (del : WebhookDelivery) (hook : Webhook) (attempts : Z) (responseCode : option Z)
  (lastErr : string) : proc W unit :=
  if maxAttempts (wh_RetryPolicy hook) <=? attempts then
    act (dr_MarkDead (dl_ID del) attempts responseCode lastErr)
  else
    let delay := backoffSeconds (rp_Policy (wh_RetryPolicy hook))
                   (rp_DelaySeconds (wh_RetryPolicy hook)) attempts in
    now ← act cl_NowMs;
    let next := i64 (now + i64 (delay * 1000)) in
    act (dr_MarkFailed (dl_ID del) attempts next responseCode lastErr).

(** [for k, v := range hook.CustomHeaders { req.Header.Set(k, v) }]. *)
Definition custom_headers (headers : gmap string string) : gmap string string :=
  foldl (fun h k => match headers !! k with Some v => set_header k v h | None => h end) ∅
    (range_keys (dom headers)).

Definition protocol_headers (evt : RawEvent) (now : Z) (h : gmap string string) : gmap string string :=
  set_header HeaderTimestamp (pretty now)
    (set_header HeaderRequestID (re_ID evt) (set_header "Content-Type" "application/json" h)).

(** The signature headers, when the hook has a secret. *)
Definition sign_request (hook : Webhook) (body : bytes) (h : gmap string string)
  : goerr + gmap string string :=
  if is_nil (wh_HMACSecret hook) then inr h else
  match decryptor with
  | None => inl (ErrMsg ("webhook " +:+ wh_ID hook +:+ " has hmac secret but no decryptor configured"))
  | Some decrypt =>
      match decrypt (wh_HMACSecret hook) with
      | inl err => inl (ErrWrap "decrypt hmac secret" err)
      | inr secret =>
          inr (set_header HeaderHMACAlgorithm HMACAlgorithm
                 (set_header HeaderHMAC (SignHMAC secret body) h))
      end
  end.

Definition buildRequest (hook : Webhook) (evt : RawEvent) (body : bytes) : proc W Request :=
  match parse_url (wh_URL hook) with
  | Some err => pthrow (ErrWrap "build request" err)
  | None =>
      now ← act cl_NowMs;
      match sign_request hook body
              (protocol_headers evt now (custom_headers (default ∅ (wh_CustomHeaders hook)))) with
      | inl err => pthrow err
      | inr header => mret (MkRequest (wh_URL hook) header body)
      end
  end.

(** The text of a failed reply. *)
Definition reply_error (resp : Response) : string :=
  "non-2xx status " +:+ pretty (rs_StatusCode resp) +:+ ": " +:+
  TrimSpace (String.substring 0 maxResponseBodyRead (rs_Body resp)).

Definition success_code (code : Z) : bool := (200 <=? code) && (code <? 300).

(** The request, sent, and what its reply means. *)
Definition send_and_record (del : WebhookDelivery) (hook : Webhook) (attempts : Z) (req : Request)
  : proc W unit :=
  resp ← ptry (act (hd_Do req));
  match resp with
  | inl err => fail del hook attempts None ("http do: " +:+ error_text err)
  | inr resp =>
      if success_code (rs_StatusCode resp) then
        act (dr_MarkDelivered (dl_ID del) attempts (rs_StatusCode resp))
      else fail del hook attempts (Some (rs_StatusCode resp)) (reply_error resp)
  end.

(** The webhook of a failed load is the zero value. *)
Definition Deliver (del : WebhookDelivery) : proc W unit :=
  let attempts := i64 (dl_Attempts del + 1) in
  hook ← ptry (act (wr_Get (dl_WebhookID del)));
  match hook with
  | inl err =>
      if isNotFound err then
        act (dr_MarkDead (dl_ID del) attempts None ("webhook " +:+ dl_WebhookID del +:+ " not found"))
      else fail del zero_webhook attempts None ("load webhook: " +:+ error_text err)
  | inr hook =>
      evt ← ptry (act (es_GetEvent (dl_EventID del)));
      match evt with
      | inl err =>
          if isNotFound err then
            act (dr_MarkDead (dl_ID del) attempts None ("event " +:+ dl_EventID del +:+ " not found"))
          else fail del hook attempts None ("load event: " +:+ error_text err)
      | inr evt =>
          match marshal_event evt with
          | inl err =>
              act (dr_MarkDead (dl_ID del) attempts None ("marshal event: " +:+ error_text err))
          | inr body =>
              req ← ptry (buildRequest hook evt body);
              match req with
              | inl err => fail del hook attempts None (error_text err)
              | inr req => send_and_record del hook attempts req
              end
          end
      end
  end.

(** The failures to record an outcome are logged only. *)
Fixpoint deliver_all (due : list WebhookDelivery) : proc W unit :=
  match due with
  | [] => mret tt
  | del :: rest => ptry (Deliver del);; deliver_all rest
  end.

Definition DeliverDue (limit : Z) : proc W Z :=
  let limit := if limit <=? 0 then DefaultClaimLimit else limit in
  now ← act cl_NowMs;
  due ← ptry (act (dr_ClaimDue now limit));
  match due with
  | inl err => pthrow (ErrWrap "claim due deliveries" err)
  | inr due => deliver_all due;; mret (Z.of_nat (length due))
  end.

(** [startWebhookDispatchLoop] of [cmd/api/main.go], for a number of ticks. *)
Fixpoint dispatch_loop (ticks : nat) : proc W unit :=
  match ticks with
  | O => mret tt
  | S ticks => ptry (DeliverDue DefaultClaimLimit);; dispatch_loop ticks
  end.
End Dispatcher.

Example canonical_1 : CanonicalMIMEHeaderKey "x-WEBHOOK-hmac" = HeaderHMAC. Proof. reflexivity. Qed.
Example canonical_2 : CanonicalMIMEHeaderKey "x y" = "x y". Proof. reflexivity. Qed.
Example backoff_1 : backoffSeconds "exponential" 2 <$> [1; 2; 3; 4] = [2; 4; 8; 16]. Proof. reflexivity. Qed.
