(* ===== verification/WebhookSafety.v ===== *)
(** * Concurrent webhook delivery

    The API process of [cmd/api/main.go] as webhook delivery sees it: the tables
    of [WebhookStore], the event log, the clock and the endpoints' answers,
    shared by any number of dispatch passes and enqueues, with a trace of what
    the passes asked of their collaborators. This file holds that world, the
    invariant of its interleavings and the proofs that every action keeps it. *)

From S2P Require Import Prelude Journal Domain Outbound OutboxStore EventIngest GatewayTables.
From S2P Require Import WebhookStore Concurrency Webhooks.

#[local] Open Scope Z_scope.

(** ** The world *)

(** What a pass did, with the wall clock. *)
Inductive hook_call :=
  | CClock (now : Z)
  | CClaim (rows : list WebhookDelivery)
  | CPost (req : Request) (reply : goerr + Response) (at_ : Z)
  | CMark (id : Z) (status : WebhookDeliveryStatus) (ok : bool) (at_ : Z)
  | CCrash.

(** [hk_locked] are the deliveries other transactions hold, [hk_replies] the
    endpoints' next answers. *)
Record hooks := MkHooks {
  hk_db : db htables;
  hk_events : db edb;
  hk_now : Z;
  hk_replies : list (goerr + Response);
  hk_locked : gset Z;
  hk_trace : list (nat * hook_call);
}.

Definition hk_tables (w : hooks) : htables := rows (hk_db w).
Definition deliveries (w : hooks) : gmap Z WebhookDelivery := ht_deliveries (hk_tables w).

Definition on_tables {A} (m : M (db htables) A) : M hooks A := fun w =>
  let '(r, d) := m (hk_db w) in
  (r, MkHooks d (hk_events w) (hk_now w) (hk_replies w) (hk_locked w) (hk_trace w)).
Definition on_log {A} (m : M (db edb) A) : M hooks A := fun w =>
  let '(r, d) := m (hk_events w) in
  (r, MkHooks (hk_db w) d (hk_now w) (hk_replies w) (hk_locked w) (hk_trace w)).
Definition log_call (me : nat) (c : hook_call) (w : hooks) : hooks :=
  MkHooks (hk_db w) (hk_events w) (hk_now w) (hk_replies w) (hk_locked w) (hk_trace w ++ [(me, c)]).

Definition is_ok {A} (r : goerr + A) : bool := match r with inr _ => true | inl _ => false end.

(** An action whose call and result are recorded. *)
Definition logged {A} (me : nat) (call : hooks -> goerr + A -> hook_call) (m : M hooks A) : M hooks A := fun w =>
  let '(r, w') := m w in (r, log_call me (call w r) w').

(** ** [service/webhook_adapters.go] and the other collaborators *)

Section World.
Context `{DB : MySQL} `{J : WebhookCodec} `{Lib : WebhookLib} `{MR : MapRange}.
Context (ExpandPayload : bytes -> goerr + bytes) (decryptor : option (bytes -> goerr + bytes)).

(** [WebhookRepoAdapter]. *)
Definition ListMatching (organization session eventType : string) : M (db htables) (list Webhook) :=
  hooks ← ListActiveForEvent organization session;
  mret (filter (fun h => EventMatches (wh_Events h) eventType = true) hooks).

#[export] Instance WebhookRepoAdapter : WebhookRepo hooks := {|
  wr_ListMatching organization session eventType := on_tables (ListMatching organization session eventType);
  wr_Get id := on_tables (GetWebhook id);
|}.

#[export] Instance EventLogStore : EventStore hooks := {| es_GetEvent id := on_log (GetEvent ExpandPayload id) |}.

(** [WebhookDeliveryRepoAdapter], the caller's attempt count being dropped. *)
Definition WebhookDeliveryRepoAdapter (me : nat) : WebhookDeliveryRepo hooks := {|
  dr_Create d := on_tables (CreateDelivery d;; mret tt);
  dr_ClaimDue now limit :=
    logged me (fun _ r => CClaim (match r with inr rows => rows | inl _ => [] end))
      (fun w => on_tables (ClaimDue OverDB (hk_locked w) now limit) w);
  dr_MarkDelivered id _ responseCode :=
    logged me (fun w r => CMark id DeliveryDelivered (is_ok r) (hk_now w))
      (on_tables (MarkDelivered id responseCode));
  dr_MarkFailed id _ nextRetryAt responseCode lastErr :=
    logged me (fun w r => CMark id DeliveryFailed (is_ok r) (hk_now w))
      (on_tables (MarkFailed id responseCode lastErr nextRetryAt));
  dr_MarkDead id _ responseCode lastErr :=
    logged me (fun w r => CMark id DeliveryDead (is_ok r) (hk_now w))
      (on_tables (MarkDead id responseCode lastErr));
  dr_ExistsTerminal webhookID eventID := on_tables (ExistsTerminal webhookID eventID);
|}.

(** The endpoints answer in order; without an answer the connection fails. *)
Definition next_reply : M hooks Response := fun w =>
  match hk_replies w with
  | r :: rest => (r, MkHooks (hk_db w) (hk_events w) (hk_now w) rest (hk_locked w) (hk_trace w))
  | [] => (inl (ErrMsg "connection refused"), w)
  end.
Definition Endpoints (me : nat) : HTTPDoer hooks := {|
  hd_Do req := logged me (fun w r => CPost req r (hk_now w)) next_reply;
|}.

Definition SystemClock : Clock hooks := {| cl_NowMs := gets hk_now |}.
Definition PassClock (me : nat) : Clock hooks := {|
  cl_NowMs := logged me (fun w _ => CClock (hk_now w)) (gets hk_now);
|}.

(** What runs: a dispatch pass or the enqueue of a committed event. *)
Inductive task := Dispatch (limit : Z) | EnqueueEvent (evt : RawEvent).

Definition dispatch_pass (me : nat) (limit : Z) : proc hooks Z :=
  DeliverDue (H0 := WebhookDeliveryRepoAdapter me) (H2 := Endpoints me) (H3 := PassClock me) decryptor limit.
Definition enqueue_event (me : nat) (evt : RawEvent) : proc hooks Z :=
  pmap fst (Enqueue (H0 := WebhookDeliveryRepoAdapter me) (H1 := SystemClock) evt).
Definition serve_task (me : nat) (q : task) : proc hooks Z :=
  match q with Dispatch limit => dispatch_pass me limit | EnqueueEvent evt => enqueue_event me evt end.
End World.

(** ** Passes

    What the trace says a pass is doing: about to claim, with the time it read,
    or serving the deliveries still in its hands, with the time it began the
    first of them. *)
Inductive phase :=
  | Idle
  | Claiming (since : Z)
  | Serving (since : Z) (hand : list WebhookDelivery).

Definition next_phase (p : phase) (c : hook_call) : phase :=
  match c, p with
  | CClock now, Idle => Claiming now
  | CClaim [], _ => Idle
  | CClaim rows, Claiming since => Serving since rows
  | CMark _ _ _ at_, Serving _ (_ :: rest) => if is_nil rest then Idle else Serving at_ rest
  | CMark _ _ _ _, _ => Idle
  | CCrash, _ => Idle
  | _, _ => p
  end.

Definition phase_of (me : nat) (trace : list (nat * hook_call)) : phase :=
  foldl (fun p e => if decide (e.1 = me) then next_phase p e.2 else p) Idle trace.

Definition last_call (me : nat) (trace : list (nat * hook_call)) : option hook_call :=
  snd <$> last (filter (fun e => e.1 = me) trace).

#[global] Arguments phase_of : simpl never.
#[global] Arguments last_call : simpl never.

(** The time the current step of a busy pass began, and what it holds. *)
Definition busy_since (p : phase) : option Z :=
  match p with Idle => None | Claiming since | Serving since _ => Some since end.
Definition in_hand (p : phase) : list WebhookDelivery :=
  match p with Serving _ hand => hand | _ => [] end.

Lemma phase_of_snoc me trace u c :
  phase_of me (trace ++ [(u, c)]) =
  if decide (u = me) then next_phase (phase_of me trace) c else phase_of me trace.
Proof. unfold phase_of. by rewrite foldl_app. Qed.

Lemma phase_of_others me trace es :
  Forall (fun e => e.1 <> me) es -> phase_of me (trace ++ es) = phase_of me trace.
Proof.
  unfold phase_of. rewrite foldl_app. generalize (foldl (fun p e => if decide (e.1 = me) then next_phase p e.2 else p) Idle trace).
  induction 1 as [|e es He Hes IH]; [done|]. cbn. by rewrite decide_False.
Qed.

Lemma last_call_snoc me trace u c :
  last_call me (trace ++ [(u, c)]) = if decide (u = me) then Some c else last_call me trace.
Proof.
  unfold last_call. rewrite filter_app, filter_cons, filter_nil. cbn [fst]. case_decide.
  - by rewrite last_snoc.
  - by rewrite app_nil_r.
Qed.

Lemma last_call_others me trace es :
  Forall (fun e => e.1 <> me) es -> last_call me (trace ++ es) = last_call me trace.
Proof.
  intros Hes. unfold last_call. rewrite filter_app.
  replace (filter (fun e => e.1 = me) es) with (@nil (nat * hook_call)); [by rewrite app_nil_r|].
  induction Hes as [|e es He Hes IH]; [done|]. by rewrite filter_cons_False.
Qed.

(** ** The tables *)

(** Keys are ids below the mark; a pair has one delivery. *)
Record deliveries_wf (t : htables) : Prop := {
  dw_key id d : ht_deliveries t !! id = Some d -> dl_ID d = id /\ id < ht_next t;
  dw_pair id d id' d' : ht_deliveries t !! id = Some d -> ht_deliveries t !! id' = Some d' ->
    dl_WebhookID d = dl_WebhookID d' -> dl_EventID d = dl_EventID d' -> id = id';
}.

(** A delivery is kept, with what it delivers, until it is terminal; then it is
    frozen until retention removes it. Ids are not used again. *)
Record deliveries_evolve (t t' : htables) : Prop := {
  ev_next : ht_next t <= ht_next t';
  ev_frozen id d : ht_deliveries t !! id = Some d -> is_terminal d = true ->
    ht_deliveries t' !! id = Some d \/ (ht_deliveries t' !! id = None /\ id < ht_next t');
  ev_kept id d : ht_deliveries t !! id = Some d -> is_terminal d = false ->
    exists d', ht_deliveries t' !! id = Some d' /\
      dl_WebhookID d' = dl_WebhookID d /\ dl_EventID d' = dl_EventID d;
  ev_new id d' : ht_deliveries t' !! id = Some d' -> ht_deliveries t !! id = None -> ht_next t <= id;
}.

Lemma evolve_same t t' :
  deliveries_wf t -> ht_deliveries t' = ht_deliveries t -> ht_next t <= ht_next t' -> deliveries_evolve t t'.
Proof.
  intros Hw Heq Hn. split; rewrite ?Heq; [done| | |by intros id d' ->].
  - intros id d Hd _. by left.
  - intros id d Hd _. by exists d.
Qed.

(** Without retention every stored delivery stays. *)
Definition deliveries_advance (t t' : htables) : Prop :=
  deliveries_evolve t t' /\ forall id, is_Some (ht_deliveries t !! id) -> is_Some (ht_deliveries t' !! id).

Lemma advance_same t t' :
  deliveries_wf t -> ht_deliveries t' = ht_deliveries t -> ht_next t <= ht_next t' -> deliveries_advance t t'.
Proof. intros Hw Heq Hn. split; [by apply evolve_same|]. intros id. by rewrite Heq. Qed.

Lemma elem_of_delivery_rows t d :
  deliveries_wf t -> d ∈ delivery_rows t <-> ht_deliveries t !! dl_ID d = Some d.
Proof.
  intros Hw. unfold delivery_rows. rewrite list_elem_of_fmap. split.
  - intros ([id d'] & -> & Hd%elem_of_map_to_list). cbn in *. by destruct (dw_key _ Hw _ _ Hd) as [-> _].
  - intros Hd. exists (dl_ID d, d). split; [done|]. by apply elem_of_map_to_list.
Qed.

Lemma delivery_rows_NoDup t : deliveries_wf t -> NoDup (dl_ID <$> delivery_rows t).
Proof.
  intros Hw. unfold delivery_rows.
  replace (dl_ID <$> (map_to_list (ht_deliveries t)).*2) with ((map_to_list (ht_deliveries t)).*1);
    [apply NoDup_fst_map_to_list|].
  rewrite <- list_fmap_compose. apply list_fmap_ext. intros i [id d] Hi. cbn.
  apply list_elem_of_lookup_2, elem_of_map_to_list in Hi. by destruct (dw_key _ Hw _ _ Hi) as [<- _].
Qed.

(** An insertion keeps what is there; a known pair keeps its row. *)
Lemma insert_delivery_spec webhookID eventID next created t n t' :
  deliveries_wf t -> insert_delivery webhookID eventID next created t = (n, t') ->
  deliveries_wf t' /\ deliveries_advance t t' /\ (forall id d, ht_deliveries t !! id = Some d -> ht_deliveries t' !! id = Some d) /\
  (exists d, ht_deliveries t' !! n = Some d /\ of_pair webhookID eventID d = true) /\ ht_webhooks t' = ht_webhooks t.
Proof.
  intros Hw. unfold insert_delivery. destruct (filter _ (delivery_rows t)) as [|d0 l] eqn:Hf; intros [= <- <-].
  - assert (Hfresh : ht_deliveries t !! ht_next t = None).
    { destruct (ht_deliveries t !! ht_next t) eqn:Hd; [|done]. destruct (dw_key _ Hw _ _ Hd); lia. }
    assert (Hno : forall id d, ht_deliveries t !! id = Some d -> of_pair webhookID eventID d = false).
    { intros id d Hd. destruct (of_pair webhookID eventID d) eqn:Hp; [|done].
      assert (Hin : d ∈ filter (fun d => of_pair webhookID eventID d = true) (delivery_rows t)); [|rewrite Hf in Hin; by apply not_elem_of_nil in Hin].
      apply list_elem_of_filter. split; [done|]. apply elem_of_delivery_rows; [done|].
      by destruct (dw_key _ Hw _ _ Hd) as [-> _]. }
    assert (Hkeep : forall id d, ht_deliveries t !! id = Some d ->
      <[ht_next t := MkDelivery (ht_next t) webhookID eventID DeliveryPending 0 None (Some next) None created]>
        (ht_deliveries t) !! id = Some d).
    { intros id d Hd. rewrite lookup_insert_ne; [done|]. intros <-. by rewrite Hfresh in Hd. }
    assert (Hnew : forall id d, <[ht_next t := MkDelivery (ht_next t) webhookID eventID DeliveryPending 0 None (Some next) None created]>
        (ht_deliveries t) !! id = Some d ->
      id = ht_next t /\ dl_ID d = ht_next t /\ dl_WebhookID d = webhookID /\ dl_EventID d = eventID \/
      ht_deliveries t !! id = Some d /\ of_pair webhookID eventID d = false).
    { intros id d. rewrite lookup_insert_Some. intros [[<- <-]|[Hne Hd]]; [by left|right]. split; [done|by eapply Hno]. }
    cbn. split; [|split; [|split; [exact Hkeep|split; [|done]]]].
    + split; cbn.
      * intros id d [(-> & Hid & _)|[Hd _]]%Hnew; [split; [done|lia]|]. destruct (dw_key _ Hw _ _ Hd). split; [done|lia].
      * intros id d id' d' Hd Hd' Hww Hee. apply Hnew in Hd as [(-> & _ & Hdw & Hde)|[Hd Hp]], Hd' as [(-> & _ & Hdw' & Hde')|[Hd' Hp']]; [done| | |by eapply (dw_pair _ Hw)].
        -- unfold of_pair in Hp'. rewrite <- Hww, <- Hee, Hdw, Hde in Hp'. by rewrite !bool_decide_true in Hp'.
        -- unfold of_pair in Hp. rewrite Hww, Hee, Hdw', Hde' in Hp. by rewrite !bool_decide_true in Hp.
    + split; [split|intros id [d Hd]; exists d; by apply Hkeep]; cbn; [lia| | |].
      * intros id d Hd _. left. by apply Hkeep.
      * intros id d Hd _. exists d. split; [by apply Hkeep|done].
      * intros id d' [(-> & _)|[Hd _]]%Hnew Hn; [lia|]. by rewrite Hn in Hd.
    + exists (MkDelivery (ht_next t) webhookID eventID DeliveryPending 0 None (Some next) None created).
      split; [by rewrite lookup_insert_eq|]. unfold of_pair. cbn. by rewrite !bool_decide_true.
  - assert (Hin : d0 ∈ filter (fun d => of_pair webhookID eventID d = true) (delivery_rows t)) by (rewrite Hf; left).
    apply list_elem_of_filter in Hin as [Hp Hin]. apply (elem_of_delivery_rows _ _ Hw) in Hin. cbn.
    split; [|split; [|split; [done|split; [by exists d0|done]]]].
    + split; cbn; [|exact (dw_pair _ Hw)]. intros id d Hd. destruct (dw_key _ Hw _ _ Hd). split; [done|lia].
    + apply advance_same; cbn; [done|done|lia].
Qed.

(** A row of the table is rewritten in place. *)
Lemma rewrite_row t id d d' :
  deliveries_wf t -> ht_deliveries t !! id = Some d -> is_terminal d = false ->
  dl_ID d' = dl_ID d -> dl_WebhookID d' = dl_WebhookID d -> dl_EventID d' = dl_EventID d ->
  deliveries_wf (with_deliveries (<[id := d']> (ht_deliveries t)) t) /\
  deliveries_advance t (with_deliveries (<[id := d']> (ht_deliveries t)) t).
Proof.
  intros Hw Hd Ht Hid Hww Hee. split; [|split; [|intros i Hi; cbn; rewrite lookup_insert_is_Some; by destruct (decide (id = i)); auto]];
    split; cbn; [| |lia| | |].
  - intros i x. rewrite lookup_insert_Some. intros [[<- <-]|[_ Hx]]; [|by apply (dw_key _ Hw)].
    rewrite Hid. by apply (dw_key _ Hw).
  - intros i x i' x' Hx Hx' Hxw Hxe.
    assert (Hold : forall j y, <[id := d']> (ht_deliveries t) !! j = Some y ->
      exists y0, ht_deliveries t !! j = Some y0 /\ dl_WebhookID y0 = dl_WebhookID y /\ dl_EventID y0 = dl_EventID y).
    { intros j y. rewrite lookup_insert_Some. intros [[<- <-]|[_ Hy]]; [by exists d|by exists y]. }
    apply Hold in Hx as (y & Hy & Hyw & Hye), Hx' as (y' & Hy' & Hyw' & Hye').
    eapply (dw_pair _ Hw); [exact Hy|exact Hy'|congruence..].
  - intros i x Hx Htx. left. rewrite lookup_insert_ne; [done|]. intros ->. rewrite Hd in Hx. injection Hx as ->. by rewrite Ht in Htx.
  - intros i x Hx Htx. destruct (decide (id = i)) as [<-|Hne].
    + rewrite Hd in Hx. injection Hx as ->. exists d'. by rewrite lookup_insert_eq.
    + exists x. by rewrite lookup_insert_ne.
  - intros i x. rewrite lookup_insert_Some. intros [[<- _]|[_ Hx]] Hn; [by rewrite Hd in Hn|by rewrite Hx in Hn].
Qed.

(** Retention removes old terminal deliveries only. *)
Lemma prune_deliveries_spec cutoff limit t :
  deliveries_wf t ->
  let t' := (DeleteTerminalWebhookDeliveriesBefore cutoff limit t).2 in
  deliveries_wf t' /\ deliveries_evolve t t' /\
  (forall id d, ht_deliveries t' !! id = Some d -> ht_deliveries t !! id = Some d).
Proof.
  intros Hw. cbn. set (gone := take _ _).
  assert (Hgone : forall d, d ∈ gone -> is_terminal d = true /\ ht_deliveries t !! dl_ID d = Some d).
  { intros d Hd. apply elem_of_take in Hd as (i & Hd & _). apply list_elem_of_lookup_2 in Hd.
    rewrite merge_sort_Permutation in Hd. apply list_elem_of_filter in Hd as [Hc Hd]. to_prop.
    split; [done|]. by apply elem_of_delivery_rows. }
  assert (Hsub : forall id d, filter (fun p : Z * WebhookDelivery => p.1 ∉ dl_ID <$> gone) (ht_deliveries t) !! id = Some d ->
    ht_deliveries t !! id = Some d) by (intros id d; by intros [Hd _]%map_lookup_filter_Some).
  split; [|split; [|exact Hsub]].
  - split; cbn.
    + intros id d Hd%Hsub. by apply (dw_key _ Hw).
    + intros id d id' d' Hd%Hsub Hd'%Hsub. by apply (dw_pair _ Hw).
  - split; cbn; [lia| | |].
    + intros id d Hd _. destruct (decide (id ∈ dl_ID <$> gone)) as [Hin|Hout]; [right|left].
      * split; [apply map_lookup_filter_None; right; intros x Hx Hn; by apply Hn|]. by destruct (dw_key _ Hw _ _ Hd).
      * by apply map_lookup_filter_Some.
    + intros id d Hd Ht. exists d. split; [|done]. apply map_lookup_filter_Some. split; [done|]. cbn.
      intros (x & Hx & Hin)%list_elem_of_fmap. destruct (Hgone _ Hin) as [Htx Hx']. rewrite <- Hx, Hd in Hx'.
      injection Hx' as <-. by rewrite Ht in Htx.
    + intros id d' Hd Hn. apply Hsub in Hd. by rewrite Hn in Hd.
Qed.

(** ** Claims *)

Lemma due_not_terminal now d : due_delivery now d = true -> is_terminal d = false.
Proof. unfold due_delivery, is_terminal. by destruct (dl_Status d). Qed.

Lemma select_due_spec locked now limit t :
  deliveries_wf t ->
  NoDup (dl_ID <$> select_due locked now limit t) /\ Z.of_nat (length (select_due locked now limit t)) <= Z.max 0 limit /\
  forall d, d ∈ select_due locked now limit t ->
    ht_deliveries t !! dl_ID d = Some d /\ due_delivery now d = true /\ dl_ID d ∉ locked.
Proof.
  intros Hw. unfold select_due. split; [|split].
  - eapply (sublist_NoDup (dl_ID <$> take _ (merge_sort retry_le _)) (dl_ID <$> merge_sort retry_le _));
      [|apply fmap_sublist, sublist_take].
    rewrite merge_sort_Permutation. apply NoDup_fmap_filter. by apply delivery_rows_NoDup.
  - rewrite length_take. lia.
  - intros d (i & Hd & _)%elem_of_take. apply list_elem_of_lookup_2 in Hd.
    rewrite merge_sort_Permutation in Hd. apply list_elem_of_filter in Hd as [[Hc Hl] Hd].
    split; [by apply elem_of_delivery_rows|done].
Qed.

Definition lease_end (now : Z) (i : nat) : Z := now + webhookAttemptLeaseMs * (Z.of_nat i + 1).

Lemma lease_end_i64 now i :
  - 2 ^ 62 <= now < 2 ^ 62 -> Z.of_nat i <= 200 ->
  i64 (now + i64 (webhookAttemptLeaseMs * i64 (Z.of_nat i + 1))) = lease_end now i.
Proof.
  unfold lease_end, webhookAttemptLeaseMs. intros Hn Hi.
  rewrite (i64_id (Z.of_nat i + 1)) by (unfold in_i64; lia).
  rewrite (i64_id (60000 * _)) by (unfold in_i64; lia).
  apply i64_id. unfold in_i64. lia.
Qed.

(** The leases of a claimed batch: the rows, by position, and nothing else. *)
Record leased (now : Z) (i : nat) (claimed : list WebhookDelivery) (t t' : htables) : Prop := {
  ls_webhooks : ht_webhooks t' = ht_webhooks t;
  ls_next : ht_next t' = ht_next t;
  ls_rows k d : claimed !! k = Some d ->
    ht_deliveries t' !! dl_ID d = Some (set_lease (lease_end now (i + k)) d);
  ls_other id : id ∉ dl_ID <$> claimed -> ht_deliveries t' !! id = ht_deliveries t !! id;
}.

Lemma lease_rows_spec now claimed : forall i d out d',
  - 2 ^ 62 <= now < 2 ^ 62 -> Z.of_nat (i + length claimed) <= 200 ->
  NoDup (dl_ID <$> claimed) ->
  (forall x, x ∈ claimed -> ht_deliveries (rows d) !! dl_ID x = Some x) ->
  lease_rows now (Z.of_nat i) claimed d = (inr out, d') ->
  out = claimed /\ leased now i claimed (rows d) (rows d').
Proof.
  induction claimed as [|x claimed IH]; intros i d out d' Hn Hlen Hnd Hin Hrun; cbn [lease_rows] in Hrun.
  - run_inv. split; [done|]. split; [done..|by intros k d Hk|done].
  - cbn [length] in Hlen. rewrite lease_end_i64 in Hrun by lia. run_inv.
    rewrite fmap_cons in Hnd. apply NoDup_cons in Hnd as [Hx Hnd].
    assert (Hd0 : ht_deliveries (rows d) !! dl_ID x = Some x) by (apply Hin; left).
    unfold update_delivery in *. rewrite Hd0 in *. cbn [fst snd] in *.
    replace (Z.of_nat i + 1) with (Z.of_nat (S i)) in * by lia.
    match goal with H : lease_rows _ _ _ ?dm = _, Hr : rows ?dm = _ |- _ => rename H into Hrest; rename Hr into Hm end.
    apply IH in Hrest as [-> Hl]; [|lia|lia|done|].
    + rewrite Hm in Hl. split; [done|]. destruct Hl as [Hwh Hnx Hr Ho]. split; [done|done| |].
      * intros [|k] y; cbn.
        -- intros [= <-]. rewrite Ho by done. cbn. by rewrite lookup_insert_eq, Nat.add_0_r.
        -- intros Hy. rewrite Nat.add_succ_r, <- Nat.add_succ_l. by apply Hr.
      * intros id. rewrite fmap_cons. intros [Hne Hid]%not_elem_of_cons. rewrite Ho by done. cbn. by rewrite lookup_insert_ne.
    + intros y Hy. rewrite Hm. cbn. rewrite lookup_insert_ne; [apply Hin; by right|].
      intros Heq. apply Hx. rewrite Heq. by apply list_elem_of_fmap_2.
Qed.

Lemma leased_evolves now i claimed t t' :
  deliveries_wf t -> NoDup (dl_ID <$> claimed) ->
  (forall x, x ∈ claimed -> ht_deliveries t !! dl_ID x = Some x /\ is_terminal x = false) ->
  leased now i claimed t t' -> deliveries_wf t' /\ deliveries_advance t t'.
Proof.
  intros Hw Hnd Hin [_ Hnx Hr Ho].
  assert (Hold : forall id d', ht_deliveries t' !! id = Some d' -> exists d, ht_deliveries t !! id = Some d /\
    dl_ID d' = dl_ID d /\ dl_WebhookID d' = dl_WebhookID d /\ dl_EventID d' = dl_EventID d).
  { intros id d' Hd'. destruct (decide (id ∈ dl_ID <$> claimed)) as [(x & -> & Hx)%list_elem_of_fmap|Hno].
    - apply list_elem_of_lookup in Hx as [k Hk]. rewrite (Hr _ _ Hk) in Hd'. injection Hd' as <-.
      exists x. split; [|done]. by destruct (Hin _ (list_elem_of_lookup_2 _ _ _ Hk)).
    - rewrite Ho in Hd' by done. by exists d'. }
  assert (Hkept : forall id, is_Some (ht_deliveries t !! id) -> is_Some (ht_deliveries t' !! id)).
  { intros id Hid. destruct (decide (id ∈ dl_ID <$> claimed)) as [(x & -> & Hx)%list_elem_of_fmap|Hno]; [|by rewrite Ho].
    apply list_elem_of_lookup in Hx as [k Hk]. by rewrite (Hr _ _ Hk). }
  split; [|split; [|exact Hkept]]; split; rewrite ?Hnx.
  - intros id d' (d & Hd & -> & _)%Hold. by apply (dw_key _ Hw).
  - intros id d id' d' (x & Hx & _ & Hxw & Hxe)%Hold (x' & Hx' & _ & Hxw' & Hxe')%Hold Hww Hee.
    eapply (dw_pair _ Hw); [exact Hx|exact Hx'|congruence..].
  - lia.
  - intros id d Hd Ht. left. rewrite Ho; [done|]. intros (x & -> & Hx)%list_elem_of_fmap.
    destruct (Hin _ Hx) as [Hxd Hxt]. rewrite Hd in Hxd. injection Hxd as ->. by rewrite Ht in Hxt.
  - intros id d Hd Ht. destruct (decide (id ∈ dl_ID <$> claimed)) as [(x & -> & Hx)%list_elem_of_fmap|Hno].
    + destruct (Hin _ Hx) as [Hxd _]. rewrite Hd in Hxd. injection Hxd as ->.
      apply list_elem_of_lookup in Hx as [k Hk]. rewrite (Hr _ _ Hk). by eexists.
    + exists d. by rewrite Ho.
  - intros id d' (d & Hd & _)%Hold Hn. by rewrite Hn in Hd.
Qed.

Lemma begin_rows {S} f (d : db S) r d' : map_err f begin_tx d = (r, d') -> rows d' = rows d.
Proof.
  unfold map_err, begin_tx, query, stmt. by destruct (head (faults d)) as [[e|]|]; intros [= _ <-].
Qed.

(** A claim that fails changes nothing; one that succeeds leases the deliveries
    it returns, all due and none locked. *)
Lemma ClaimDue_spec locked now limit d r d' :
  deliveries_wf (rows d) -> - 2 ^ 62 <= now < 2 ^ 62 ->
  ClaimDue OverDB locked now limit d = (r, d') ->
  match r with
  | inl _ => rows d' = rows d
  | inr claimed => NoDup (dl_ID <$> claimed) /\ leased now 0 claimed (rows d) (rows d') /\
      forall x, x ∈ claimed -> ht_deliveries (rows d) !! dl_ID x = Some x /\ due_delivery now x = true
  end.
Proof.
  intros Hw Hn Hrun. unfold ClaimDue in Hrun. destruct r as [e|claimed].
  - unfold mbind, M_bind in Hrun. destruct (map_err _ begin_tx d) as [[e0|[]] d1] eqn:Hb;
      apply begin_rows in Hb; [by injection Hrun as _ <-|].
    apply with_rollback_error in Hrun. by rewrite Hrun.
  - unfold claimDue in Hrun. run_inv. same_rows.
    match goal with H : lease_rows _ _ _ _ = _ |- _ => rename H into Hl end.
    destruct (select_due_spec locked now (normLimit limit) _ Hw) as (Hnd & Hlen & Hsel).
    assert (normLimit limit <= 200).
    { unfold normLimit, defaultLimit, maxLimit. destruct (_ <=? 0); [lia|]. destruct (200 <? limit) eqn:?; to_prop; lia. }
    apply (lease_rows_spec now _ 0) in Hl as [-> Hl]; [|done|cbn; lia|done|intros x Hx; by apply Hsel].
    cbn in Hl. split; [done|]. split; [done|]. intros x Hx. by destruct (Hsel _ Hx) as (? & ? & _).
Qed.

(** The three outcomes: one row is rewritten, or the error leaves everything. *)
Lemma record_outcome_spec id status code err next d r d' msg :
  (n ← map_err (ErrWrap msg) (stmt (record_outcome id status code err next)); affected n "webhook delivery") d = (r, d') ->
  (rows d' = rows d /\ is_ok r = false) \/
  exists x, r = inr tt /\ ht_deliveries (rows d) !! id = Some x /\
    rows d' = with_deliveries (<[id := MkDelivery (dl_ID x) (dl_WebhookID x) (dl_EventID x) status
       (dl_Attempts x + 1) code next err (dl_CreatedAt x)]> (ht_deliveries (rows d))) (rows d).
Proof.
  unfold mbind, M_bind, map_err, stmt, affected, rowsAffectedOrNotFound. intros Hrun.
  destruct (head (faults d)) as [[e|]|]; [injection Hrun as <- <-; by left| |].
  all: destruct (record_outcome id status code err next (rows d)) as [[e|n] t'] eqn:Ho; unfold record_outcome in Ho;
    destruct (ht_deliveries (rows d) !! id) as [x|] eqn:Hx;
    repeat match type of Ho with context [if ?b then _ else _] => destruct b end;
    injection Ho as <- <- || discriminate Ho.
  all: cbn in Hrun; injection Hrun as <- <-; first [by left | right; exists x; auto].
Qed.

(** ** The invariant *)

(** [d] waits for a pass, leased until [until] at least. *)
Definition held (w : hooks) (d : WebhookDelivery) (until : Z) : Prop :=
  exists lease, deliveries w !! dl_ID d = Some (set_lease lease d) /\ is_terminal d = false /\ until <= lease.

(** A recorded terminal outcome. *)
Definition finished (trace : list (nat * hook_call)) (id : Z) : Prop :=
  exists u st at_, (u, CMark id st true at_) ∈ trace /\ (st = DeliveryDelivered \/ st = DeliveryDead).

(** At this point of the trace the pass [me] is working on the delivery [d]: it
    holds it alone, its lease runs for its whole attempt, and the delivery has
    no outcome yet. *)
Definition working (me : nat) (trace : list (nat * hook_call)) (d : WebhookDelivery) (at_ : Z) : Prop :=
  (exists since rest, phase_of me trace = Serving since (d :: rest) /\ since <= at_ < since + webhookAttemptLeaseMs) /\
  (forall u, u <> me -> dl_ID d ∉ dl_ID <$> in_hand (phase_of u trace)) /\
  ~ finished trace (dl_ID d).

(** What a call of the trace must find before it. *)
Definition justified (me : nat) (trace : list (nat * hook_call)) (c : hook_call) : Prop :=
  match c with
  | CPost req _ at_ => exists d, working me trace d at_ /\ rq_Header req !! HeaderRequestID = Some (dl_EventID d)
  | CMark id st _ at_ =>
      (exists d, working me trace d at_ /\ dl_ID d = id) /\
      (st = DeliveryDelivered -> exists req resp at', last_call me trace = Some (CPost req (inr resp) at') /\
         success_code (rs_StatusCode resp) = true)
  | _ => True
  end.

Definition all_calls_justified (trace : list (nat * hook_call)) : Prop :=
  forall l1 me c l2, trace = l1 ++ (me, c) :: l2 -> justified me l1 c.

Record hook_inv (w : hooks) : Prop := {
  hi_wf : deliveries_wf (hk_tables w);
  hi_clock : 0 <= hk_now w < 2 ^ 62;
  hi_prompt me since : busy_since (phase_of me (hk_trace w)) = Some since ->
    since <= hk_now w < since + webhookAttemptLeaseMs;
  hi_serving me since hand : phase_of me (hk_trace w) = Serving since hand ->
    hand <> [] /\ NoDup (dl_ID <$> hand) /\ forall i d, hand !! i = Some d -> held w d (lease_end since i);
  hi_apart me u d : me <> u -> d ∈ in_hand (phase_of me (hk_trace w)) ->
    dl_ID d ∉ dl_ID <$> in_hand (phase_of u (hk_trace w));
  hi_finished id : finished (hk_trace w) id -> id < ht_next (hk_tables w) /\
    forall d, deliveries w !! id = Some d -> is_terminal d = true;
  hi_calls : all_calls_justified (hk_trace w);
}.

(** What a pass may do to the rest, and what the rest of the process may do: the
    clock advances while no step of a pass takes as long as the lease of one
    attempt; enqueues, retention and CRUD change the tables, endpoints, faults,
    events and locks are free. *)
Record guar (me : nat) (w w' : hooks) : Prop := {
  gu_trace : exists es, hk_trace w' = hk_trace w ++ es /\ Forall (fun e => e.1 = me) es;
  gu_rows : deliveries_advance (hk_tables w) (hk_tables w');
}.

Record env (w w' : hooks) : Prop := {
  en_trace : hk_trace w' = hk_trace w;
  en_clock : hk_now w <= hk_now w' < 2 ^ 62;
  en_prompt me since : busy_since (phase_of me (hk_trace w)) = Some since ->
    hk_now w' < since + webhookAttemptLeaseMs;
  en_wf : deliveries_wf (hk_tables w');
  en_rows : deliveries_evolve (hk_tables w) (hk_tables w');
  en_open id d : deliveries w !! id = Some d -> is_terminal d = false -> deliveries w' !! id = Some d;
}.

Definition never (me : nat) (w : hooks) : Prop := False.

Lemma held_terminal w d until : held w d until -> exists x, deliveries w !! dl_ID d = Some x /\ is_terminal x = false.
Proof. intros (lease & Hd & Ht & _). by exists (set_lease lease d). Qed.

Lemma deliveries_finished t t' id :
  deliveries_evolve t t' -> id < ht_next t -> (forall d, ht_deliveries t !! id = Some d -> is_terminal d = true) ->
  id < ht_next t' /\ forall d, ht_deliveries t' !! id = Some d -> is_terminal d = true.
Proof.
  intros He Hlt Hall. pose proof (ev_next _ _ He). split; [lia|]. intros d' Hd'.
  destruct (ht_deliveries t !! id) as [d|] eqn:Hd.
  - destruct (ev_frozen _ _ He _ _ Hd (Hall _ eq_refl)) as [Heq|[Heq _]]; rewrite Heq in Hd'; [|done].
    injection Hd' as <-. by apply Hall.
  - pose proof (ev_new _ _ He _ _ Hd' Hd). lia.
Qed.

(** The environment keeps the invariant. *)
Lemma env_inv w w' : hook_inv w -> env w w' -> hook_inv w'.
Proof.
  intros Hi He. pose proof (hi_clock _ Hi). pose proof (en_clock _ _ He). split; rewrite ?(en_trace _ _ He); [apply He|lia| | |apply Hi| |apply Hi].
  - intros me since Hb. pose proof (hi_prompt _ Hi _ _ Hb). pose proof (en_prompt _ _ He _ _ Hb). lia.
  - intros me since hand Hp. destruct (hi_serving _ Hi _ _ _ Hp) as (Hne & Hnd & Hh). split; [done|]. split; [done|].
    intros i d Hd. destruct (Hh _ _ Hd) as (lease & Hl & Ht & Hle). exists lease. split; [|done].
    by apply (en_open _ _ He).
  - intros id Hf. destruct (hi_finished _ Hi _ Hf) as [Hlt Hall]. eapply deliveries_finished; [apply He|done|exact Hall].
Qed.

(** An action of the pass [me] that only touches the tables of no open delivery,
    such as a read or an enqueue. *)
Lemma quiet_inv w w' me :
  hook_inv w -> hk_trace w' = hk_trace w -> hk_now w' = hk_now w -> deliveries_wf (hk_tables w') ->
  deliveries_advance (hk_tables w) (hk_tables w') ->
  (forall id d, deliveries w !! id = Some d -> is_terminal d = false -> deliveries w' !! id = Some d) ->
  guar me w w' /\ hook_inv w'.
Proof.
  intros Hi Htr Hnow Hwf Hev Hopen. split.
  - split; [|done]. exists []. rewrite app_nil_r. by split.
  - pose proof (hi_clock _ Hi). eapply env_inv; [exact Hi|]. split; [done|lia| |done|apply Hev|done].
    intros u since Hb. pose proof (hi_prompt _ Hi _ _ Hb). lia.
Qed.

Lemma finished_snoc trace u c id :
  finished (trace ++ [(u, c)]) id <->
  finished trace id \/ exists st at_, c = CMark id st true at_ /\ (st = DeliveryDelivered \/ st = DeliveryDead).
Proof.
  unfold finished. split.
  - intros (v & st & at_ & [Hin|[= -> <-]%list_elem_of_singleton]%elem_of_app & Hst); [left; unfold finished; eauto|right; eauto].
  - intros [(v & st & at_ & Hin & Hst)|(st & at_ & -> & Hst)]; [exists v, st, at_|exists u, st, at_]; (split; [apply elem_of_app|done]); [by left|].
    right. by apply list_elem_of_singleton.
Qed.

Lemma calls_snoc trace me c :
  all_calls_justified trace -> justified me trace c -> all_calls_justified (trace ++ [(me, c)]).
Proof.
  intros Hall Hc l1 u c' l2 Heq.
  destruct (decide (l2 = [])) as [->|Hne].
  - apply app_inj_tail in Heq as [-> [= -> ->]]. done.
  - destruct (exists_last Hne) as (l2' & x & ->). rewrite app_comm_cons, app_assoc in Heq.
    apply app_inj_tail in Heq as [-> _]. by apply (Hall l1 u c' l2').
Qed.

(** ** Actions of a pass *)

(** An action of the pass [me] that ends with the call [c] of its trace. *)
Lemma log_inv me c w w1 :
  hook_inv w -> hk_trace w1 = hk_trace w -> hk_now w1 = hk_now w -> deliveries_wf (hk_tables w1) ->
  deliveries_advance (hk_tables w) (hk_tables w1) ->
  (forall u d until, u <> me -> d ∈ in_hand (phase_of u (hk_trace w)) -> held w d until -> held w1 d until) ->
  justified me (hk_trace w) c ->
  (forall since, busy_since (next_phase (phase_of me (hk_trace w)) c) = Some since ->
     since <= hk_now w < since + webhookAttemptLeaseMs) ->
  (forall since hand, next_phase (phase_of me (hk_trace w)) c = Serving since hand ->
     hand <> [] /\ NoDup (dl_ID <$> hand) /\ forall i d, hand !! i = Some d -> held w1 d (lease_end since i)) ->
  (forall u d, u <> me -> d ∈ in_hand (next_phase (phase_of me (hk_trace w)) c) ->
     dl_ID d ∉ dl_ID <$> in_hand (phase_of u (hk_trace w))) ->
  (forall id st at_, c = CMark id st true at_ -> st = DeliveryDelivered \/ st = DeliveryDead ->
     id < ht_next (hk_tables w1) /\ forall d, deliveries w1 !! id = Some d -> is_terminal d = true) ->
  guar me w (log_call me c w1) /\ hook_inv (log_call me c w1).
Proof.
  intros Hi Htr Hnow Hwf Hev Hothers Hj Hprompt Hserv Hapart Hfin. split.
  - split; [|exact Hev]. exists [(me, c)]. cbn. rewrite Htr. split; [done|by constructor].
  - assert (Hphase : forall u, phase_of u (hk_trace (log_call me c w1)) =
      if decide (me = u) then next_phase (phase_of me (hk_trace w)) c else phase_of u (hk_trace w)).
    { intros u. cbn. rewrite Htr, phase_of_snoc. by case_decide; subst. }
    split; [exact Hwf|cbn; rewrite Hnow; apply Hi| | | | |].
    + intros u since. rewrite Hphase. cbn [hk_now log_call]. rewrite Hnow.
      case_decide; [apply Hprompt|apply (hi_prompt _ Hi)].
    + intros u since hand. rewrite Hphase. case_decide as Hu; [apply Hserv|]. intros Hp.
      destruct (hi_serving _ Hi _ _ _ Hp) as (Hne & Hnd & Hh). split; [done|]. split; [done|]. intros i d Hd.
      apply (Hothers u); [congruence| |by apply Hh]. rewrite Hp. by apply list_elem_of_lookup_2 in Hd.
    + intros u v d Huv. rewrite !Hphase. case_decide as Hu; case_decide as Hv; subst; [done| | |by apply (hi_apart _ Hi)].
      * intros Hd. apply Hapart; [congruence|done].
      * intros Hd (x & Hx & Hin)%list_elem_of_fmap. apply (Hapart u x); [congruence|done|].
        rewrite <- Hx. by apply list_elem_of_fmap_2.
    + intros id Hf. cbn in Hf. rewrite Htr in Hf. apply finished_snoc in Hf as [Hf|(st & at_ & -> & Hst)]; [|by eapply Hfin].
      destruct (hi_finished _ Hi _ Hf) as [Hlt Hall]. eapply deliveries_finished; [exact (proj1 Hev)|done|exact Hall].
    + cbn. rewrite Htr. apply calls_snoc; [apply Hi|done].
Qed.

(** The delivery a pass works on. *)
Lemma serving_working me w since d rest :
  hook_inv w -> phase_of me (hk_trace w) = Serving since (d :: rest) ->
  working me (hk_trace w) d (hk_now w) /\ held w d (since + webhookAttemptLeaseMs).
Proof.
  intros Hi Hp. destruct (hi_serving _ Hi _ _ _ Hp) as (_ & _ & Hh).
  assert (Hheld : held w d (since + webhookAttemptLeaseMs)).
  { specialize (Hh 0%nat d eq_refl). unfold lease_end in Hh. by replace (since + _) with (since + webhookAttemptLeaseMs * (Z.of_nat 0 + 1)) by lia. }
  split; [|done]. split; [|split].
  - exists since, rest. split; [done|]. apply (hi_prompt _ Hi me). by rewrite Hp.
  - intros u Hu. apply (hi_apart _ Hi me u); [congruence|]. rewrite Hp. by left.
  - intros Hf. destruct (hi_finished _ Hi _ Hf) as [_ Hall]. destruct (held_terminal _ _ _ Hheld) as (x & Hx & Ht).
    by rewrite (Hall _ Hx) in Ht.
Qed.

(** Calls that leave the tables alone and the hand as it is. *)
Lemma look_inv me c w w1 :
  hook_inv w -> hk_trace w1 = hk_trace w -> hk_now w1 = hk_now w -> hk_tables w1 = hk_tables w ->
  justified me (hk_trace w) c -> next_phase (phase_of me (hk_trace w)) c = phase_of me (hk_trace w) ->
  (forall id st at_, c <> CMark id st true at_) ->
  guar me w (log_call me c w1) /\ hook_inv (log_call me c w1).
Proof.
  intros Hi Htr Hnow Htab Hj Hp Hc. apply log_inv; rewrite ?Htab, ?Hp; try done.
  - apply Hi.
  - apply advance_same; [apply Hi|done|lia].
  - intros u d until _ _ (lease & Hl & Hrest). exists lease. split; [|done]. unfold deliveries. by rewrite Htab.
  - apply (hi_prompt _ Hi).
  - intros since hand Hs. destruct (hi_serving _ Hi _ _ _ Hs) as (Hne & Hnd & Hh). split; [done|]. split; [done|].
    intros i d Hd. destruct (Hh _ _ Hd) as (lease & Hl & Hrest). exists lease. split; [|done]. unfold deliveries. by rewrite Htab.
  - intros u d Hu Hd. apply (hi_apart _ Hi me u); [congruence|done].
  - intros id st at_ Heq. by destruct (Hc id st at_).
Qed.

(** The clock read that opens a pass. *)
Lemma open_inv me w :
  hook_inv w -> phase_of me (hk_trace w) = Idle ->
  let w' := log_call me (CClock (hk_now w)) w in
  guar me w w' /\ hook_inv w' /\ phase_of me (hk_trace w') = Claiming (hk_now w).
Proof.
  intros Hi Hp w'. enough (guar me w w' /\ hook_inv w') as [Hg Hi'].
  { split; [done|]. split; [done|]. unfold w'; cbn. by rewrite phase_of_snoc, decide_True, Hp. }
  apply log_inv; rewrite ?Hp; try done; try apply Hi.
  - apply advance_same; [apply Hi|done|lia].
  - cbn. intros since [= <-]. unfold webhookAttemptLeaseMs. lia.
  - cbn. intros u d _ Hd. by apply not_elem_of_nil in Hd.
Qed.

(** The claim: what other passes hold is not due. *)
Lemma claim_inv me w now limit r w1 :
  hook_inv w -> phase_of me (hk_trace w) = Claiming now ->
  on_tables (ClaimDue OverDB (hk_locked w) now limit) w = (r, w1) ->
  let claimed := match r with inr claimed => claimed | inl _ => [] end in
  let w' := log_call me (CClaim claimed) w1 in
  guar me w w' /\ hook_inv w' /\
  phase_of me (hk_trace w') = if is_nil claimed then Idle else Serving now claimed.
Proof.
  intros Hi Hp Hrun claimed w'. unfold on_tables in Hrun.
  destruct (ClaimDue OverDB (hk_locked w) now limit (hk_db w)) as [r0 d] eqn:Hc. injection Hrun as -> Hw1.
  assert (Htr : hk_trace w1 = hk_trace w) by by rewrite <- Hw1.
  assert (Hnow : hk_now w1 = hk_now w) by by rewrite <- Hw1.
  assert (Htab : hk_tables w1 = rows d) by by rewrite <- Hw1.
  assert (Hb : now <= hk_now w < now + webhookAttemptLeaseMs) by (apply (hi_prompt _ Hi me); by rewrite Hp).
  pose proof (hi_clock _ Hi) as Hclock. pose proof (hi_wf _ Hi) as Hwf.
  assert (Hnext : next_phase (phase_of me (hk_trace w)) (CClaim claimed) =
    if is_nil claimed then Idle else Serving now claimed) by (rewrite Hp; by destruct claimed).
  enough (guar me w w' /\ hook_inv w') as [Hg Hi'].
  { split; [done|]. split; [done|]. unfold w'; cbn. by rewrite Htr, phase_of_snoc, decide_True, Hnext. }
  unfold w'. assert (Hrange : - 2 ^ 62 <= now < 2 ^ 62) by (unfold webhookAttemptLeaseMs in Hb; lia).
  pose proof (ClaimDue_spec _ _ _ _ _ _ Hwf Hrange Hc) as Hspec.
  destruct r as [e|rows0]; cbn in claimed.
  - (* nothing was claimed *)
    rewrite <- Htab in Hspec. fold (hk_tables w) in Hspec. apply log_inv; rewrite ?Hspec, ?Hnext; try done.
    + by apply advance_same; [|reflexivity|lia].
    + intros u x until _ _ (lease & Hl & Hrest). exists lease. split; [|done]. unfold deliveries. by rewrite Hspec.
    + intros u x _ Hx. by apply not_elem_of_nil in Hx.
  - destruct Hspec as (Hnd & Hleased & Hdue). fold (hk_tables w) in Hleased, Hdue. rewrite <- Htab in Hleased.
    assert (Hopen : forall x, x ∈ rows0 -> ht_deliveries (hk_tables w) !! dl_ID x = Some x /\ is_terminal x = false).
    { intros x Hx. destruct (Hdue _ Hx) as [? ?%due_not_terminal]. done. }
    destruct (leased_evolves _ _ _ _ _ Hwf Hnd Hopen Hleased) as [Hwf' Hev].
    assert (Hfree : forall u x y, y ∈ rows0 -> x ∈ in_hand (phase_of u (hk_trace w)) -> dl_ID x <> dl_ID y).
    { intros u x y Hy Hx Heq. destruct (phase_of u (hk_trace w)) as [| |since hand] eqn:Hu; [by apply not_elem_of_nil in Hx..|].
      apply list_elem_of_lookup in Hx as [i Hx]. destruct (hi_serving _ Hi _ _ _ Hu) as (_ & _ & Hh).
      destruct (Hh _ _ Hx) as (lease & Hl & _ & Hle). destruct (Hdue _ Hy) as [Hyd Hdy].
      unfold deliveries in Hl. rewrite Heq, Hyd in Hl. injection Hl as ->. unfold due_delivery in Hdy. cbn in Hdy. to_prop.
      pose proof (hi_prompt _ Hi u since ltac:(by rewrite Hu)). unfold lease_end, webhookAttemptLeaseMs in *. lia. }
    apply log_inv; rewrite ?Hnext; try done.
    + intros u x until Hu Hx (lease & Hl & Hrest). exists lease. split; [|done]. unfold deliveries.
      rewrite (ls_other _ _ _ _ _ Hleased); [done|]. intros (y & Heq & Hy)%list_elem_of_fmap.
      by apply (Hfree u x y).
    + intros since. by destruct (is_nil claimed); [|intros [= <-]].
    + intros since hand Hs. destruct (is_nil claimed) eqn:Hnil; [done|]. injection Hs as <- <-.
      split; [by intros Hz; rewrite Hz in Hnil|]. split; [done|]. intros i x Hx. exists (lease_end now i). split; [|split; [|lia]].
      * apply (ls_rows _ _ _ _ _ Hleased). exact Hx.
      * apply list_elem_of_lookup_2 in Hx. by destruct (Hdue _ Hx) as [_ ?%due_not_terminal].
    + intros u x Hu Hx (y & Heq & Hy)%list_elem_of_fmap. apply (Hfree u y x); [|done|done].
      by destruct (is_nil claimed); [apply not_elem_of_nil in Hx|].
Qed.

(** The request. *)
Lemma post_inv me w req r w1 since d rest :
  hook_inv w -> phase_of me (hk_trace w) = Serving since (d :: rest) ->
  rq_Header req !! HeaderRequestID = Some (dl_EventID d) ->
  next_reply w = (r, w1) ->
  let w' := log_call me (CPost req r (hk_now w)) w1 in
  guar me w w' /\ hook_inv w' /\ phase_of me (hk_trace w') = Serving since (d :: rest) /\
  last_call me (hk_trace w') = Some (CPost req r (hk_now w)).
Proof.
  intros Hi Hp Hreq Hr w'.
  assert (Hw1 : hk_trace w1 = hk_trace w /\ hk_now w1 = hk_now w /\ hk_tables w1 = hk_tables w).
  { unfold next_reply in Hr. by destruct (hk_replies w); injection Hr as _ <-. }
  destruct Hw1 as (Htr & Hnow & Htab). enough (guar me w w' /\ hook_inv w') as [Hg Hi'].
  { split; [done|]. split; [done|]. unfold w'; cbn. by rewrite Htr, phase_of_snoc, last_call_snoc, !decide_True, Hp. }
  apply look_inv; try done. exists d. split; [|done]. by eapply serving_working.
Qed.

Lemma held_other w w1 d x y until :
  deliveries w1 = <[dl_ID d := x]> (deliveries w) -> dl_ID y <> dl_ID d -> held w y until -> held w1 y until.
Proof.
  intros Hd Hne (lease & Hl & Hrest). exists lease. split; [|done]. rewrite Hd. by rewrite lookup_insert_ne.
Qed.

(** The record of an outcome, whether the database accepts it or not. *)
Lemma mark_inv me w st code err next msg r w1 since d rest :
  hook_inv w -> phase_of me (hk_trace w) = Serving since (d :: rest) ->
  (st = DeliveryDelivered -> exists req resp at_, last_call me (hk_trace w) = Some (CPost req (inr resp) at_) /\
     success_code (rs_StatusCode resp) = true) ->
  on_tables (n ← map_err (ErrWrap msg) (stmt (record_outcome (dl_ID d) st code err next)); affected n "webhook delivery") w = (r, w1) ->
  let w' := log_call me (CMark (dl_ID d) st (is_ok r) (hk_now w)) w1 in
  guar me w w' /\ hook_inv w' /\
  phase_of me (hk_trace w') = if is_nil rest then Idle else Serving (hk_now w) rest.
Proof.
  intros Hi Hp Hlast Hrun w'. unfold on_tables in Hrun.
  match type of Hrun with (let '(_, _) := ?m in _) = _ => destruct m as [r0 d1] eqn:Hm end. injection Hrun as -> Hw1.
  apply record_outcome_spec in Hm. fold (hk_tables w) in Hm.
  assert (Htr : hk_trace w1 = hk_trace w) by by rewrite <- Hw1.
  assert (Hnow : hk_now w1 = hk_now w) by by rewrite <- Hw1.
  assert (Htab : hk_tables w1 = rows d1) by by rewrite <- Hw1.
  rewrite <- Htab in Hm. clear Hw1 Htab.
  assert (Hnext : next_phase (phase_of me (hk_trace w)) (CMark (dl_ID d) st (is_ok r) (hk_now w)) =
    if is_nil rest then Idle else Serving (hk_now w) rest) by by rewrite Hp.
  enough (guar me w w' /\ hook_inv w') as [Hg Hi'].
  { split; [done|]. split; [done|]. unfold w'; cbn. by rewrite Htr, phase_of_snoc, decide_True, Hnext. }
  destruct (serving_working _ _ _ _ _ Hi Hp) as [Hwork (lease & Hd & Ht & _)].
  pose proof (hi_prompt _ Hi me since ltac:(by rewrite Hp)) as Hprompt.
  destruct (hi_serving _ Hi _ _ _ Hp) as (_ & Hnd & Hh). rewrite fmap_cons in Hnd. apply NoDup_cons in Hnd as [Hfresh Hnd].
  assert (Hrows : deliveries_wf (hk_tables w1) /\ deliveries_advance (hk_tables w) (hk_tables w1) /\
    (forall y until, dl_ID y <> dl_ID d -> held w y until -> held w1 y until) /\
    (is_ok r = true -> st = DeliveryDelivered \/ st = DeliveryDead ->
     dl_ID d < ht_next (hk_tables w1) /\ forall x, deliveries w1 !! dl_ID d = Some x -> is_terminal x = true)).
  { destruct Hm as [[Heq Hok]|(x & -> & Hx & Heq)].
    - rewrite Heq. split; [apply Hi|]. split; [apply advance_same; [apply Hi|done|lia]|]. split; [|by rewrite Hok].
      intros y until _ (l & Hl & Hrest). exists l. split; [|done]. unfold deliveries. by rewrite Heq.
    - unfold deliveries in Hd. rewrite Hd in Hx. injection Hx as <-.
      rewrite Heq. destruct (rewrite_row (hk_tables w) (dl_ID d) (set_lease lease d)
        (MkDelivery (dl_ID d) (dl_WebhookID d) (dl_EventID d) st (dl_Attempts d + 1) code next err (dl_CreatedAt d))
        (hi_wf _ Hi) Hd) as [Hwf Hev]; try done.
      split; [exact Hwf|]. split; [exact Hev|]. split.
      + intros y until Hne. eapply held_other; [|done]. unfold deliveries. by rewrite Heq.
      + intros _ Hst. split; [by destruct (dw_key _ (hi_wf _ Hi) _ _ Hd)|]. intros x. unfold deliveries. rewrite Heq. cbn.
        rewrite lookup_insert_eq. intros [= <-]. unfold is_terminal. cbn. by destruct Hst as [-> | ->]. }
  destruct Hrows as (Hwf & Hev & Hkeep & Hfinal).
  apply log_inv; rewrite ?Hnext; try done.
  - intros u y until Hu Hy. apply Hkeep. intros Heq. apply (hi_apart _ Hi me u d); [congruence|rewrite Hp; left|].
    rewrite <- Heq. by apply list_elem_of_fmap_2.
  - cbn. split; [by exists d|done].
  - intros s. destruct (is_nil rest); [done|]. intros [= <-]. unfold webhookAttemptLeaseMs. lia.
  - intros s hand Hs. destruct (is_nil rest) eqn:Hnil; [done|]. injection Hs as <- <-. split; [by intros ->|]. split; [done|].
    intros i y Hy. apply Hkeep.
    + intros Heq. apply Hfresh. rewrite <- Heq. by eapply list_elem_of_fmap_2, list_elem_of_lookup_2.
    + destruct (Hh (S i) y Hy) as (l & Hl & Hty & Hle). exists l. split; [done|]. split; [done|].
      unfold lease_end, webhookAttemptLeaseMs in *. lia.
  - intros u y Hu Hy. destruct (is_nil rest); [by apply not_elem_of_nil in Hy|].
    apply (hi_apart _ Hi me u); [congruence|]. rewrite Hp. by right.
  - intros id s at_ [= <- <- Hok _] Hst. by apply Hfinal.
Qed.

(** ** Programs of a pass *)

Abbreviation spec := (pspec hook_inv guar env never).

(** An assertion about what a pass has done itself. *)
Definition own (me : nat) (P : phase -> option hook_call -> Prop) (w : hooks) : Prop :=
  P (phase_of me (hk_trace w)) (last_call me (hk_trace w)).

Lemma own_stable me P : stable hook_inv guar env me (own me P).
Proof.
  intros w w' _ _ [He|(u & Hu & Hg)] HP; unfold own in *.
  - by rewrite (en_trace _ _ He).
  - destruct (gu_trace _ _ _ Hg) as (es & -> & Hes).
    assert (Hoth : Forall (fun e : nat * hook_call => e.1 <> me) es) by (eapply Forall_impl; [exact Hes|]; cbn; congruence).
    by rewrite phase_of_others, last_call_others.
Qed.

Lemma stable_const me (phi : Prop) P : stable hook_inv guar env me (fun w => phi /\ own me P w).
Proof. intros w w' Hi Hi' Hr [Hphi HP]. split; [done|]. exact (own_stable me P _ _ Hi Hi' Hr HP). Qed.

(** An action that changes neither the tables nor the clock nor the trace. *)
Definition quiet {A} (m : M hooks A) (Phi : goerr + A -> Prop) : Prop :=
  forall w r w', m w = (r, w') ->
    Phi r /\ hk_trace w' = hk_trace w /\ hk_now w' = hk_now w /\ hk_tables w' = hk_tables w.

Lemma quiet_spec {A} me (m : M hooks A) Phi P :
  quiet m Phi -> spec me (act m) (own me P) (fun r w => Phi r /\ own me P w).
Proof.
  intros Hq. apply pspec_act; [intros r; apply stable_const|]. intros w r w' Hi HP Hrun.
  destruct (Hq _ _ _ Hrun) as (Hphi & Htr & Hnow & Htab).
  destruct (quiet_inv w w' me Hi Htr Hnow) as [Hg Hi'].
  - rewrite Htab. apply Hi.
  - rewrite Htab. apply advance_same; [apply Hi|done|lia].
  - intros id d. unfold deliveries. by rewrite Htab.
  - split; [done|]. split; [done|]. split; [done|]. unfold own. by rewrite Htr.
Qed.

Lemma tables_quiet {A} (m : M (db htables) A) : respects (on_rows eq) m -> quiet (on_tables m) (fun _ => True).
Proof.
  intros Hm w r w'. unfold on_tables. destruct (m (hk_db w)) as [r0 d] eqn:Hrun. intros [= <- <-].
  apply Hm in Hrun. split; [done|]. split; [done|]. split; [done|]. by symmetry.
Qed.

Lemma log_quiet {A} (m : M (db edb) A) Phi :
  (forall d r d', m d = (r, d') -> Phi r) -> quiet (on_log m) Phi.
Proof.
  intros Hm w r w'. unfold on_log. destruct (m (hk_events w)) as [r0 d] eqn:Hrun. intros [= <- <-].
  split; [by eapply Hm|done].
Qed.

(** [r, err := p] and what follows. *)
Lemma try_bind {A B} me (p : proc hooks A) (k : goerr + A -> proc hooks B) P Q Q' :
  spec me p P Q -> (forall r, spec me (k r) (Q r) Q') -> spec me (ptry p ≫= k) P Q'.
Proof.
  intros Hp Hk. eapply pspec_bind with (Q := fun r w => match r with inr r0 => Q r0 w | inl _ => False end); [|done|exact Hk].
  eapply pspec_try; [exact Hp|]. done.
Qed.

Section PassSpec.
Context `{DB : MySQL} `{J : WebhookCodec} `{Lib : WebhookLib} `{MR : MapRange}.
Context (ExpandPayload : bytes -> goerr + bytes) (decryptor : option (bytes -> goerr + bytes)).
Variable me : nat.

#[local] Existing Instance WebhookRepoAdapter.
#[local] Instance events_here : EventStore hooks := EventLogStore ExpandPayload.
#[local] Instance deliveries_here : WebhookDeliveryRepo hooks := WebhookDeliveryRepoAdapter me.
#[local] Instance endpoints_here : HTTPDoer hooks := Endpoints me.
#[local] Instance clock_here : Clock hooks := PassClock me.

(** The pass works on [d], with [rest] to come; it is done with [d]. *)
Definition at_work (d : WebhookDelivery) (rest : list WebhookDelivery) (p : phase) : Prop :=
  exists since, p = Serving since (d :: rest).
Definition in_phase (P : phase -> Prop) : hooks -> Prop := own me (fun p _ => P p).
Definition to_serve (due : list WebhookDelivery) (p : phase) : Prop :=
  if is_nil due then p = Idle else exists since, p = Serving since due.

Lemma get_webhook_quiet id : quiet (wr_Get id) (fun _ => True).
Proof.
  apply tables_quiet. unfold GetWebhook. apply respects_bind; [apply _|apply respects_map_err, respects_stmt; [apply _|]|].
  - intros s. by destruct (ht_webhooks s !! id).
  - intros row. apply respects_lift, _.
Qed.

Lemma GetEvent_id id d e d' : GetEvent ExpandPayload id d = (inr e, d') -> re_ID e = id.
Proof.
  unfold GetEvent, GetByEventID. intros Hrun. run_inv. case_match; [|run_inv].
  case_match; run_inv. cbn.
  match goal with H : find_log _ _ = Some _ |- _ => unfold find_log in H; rename H into Hf end.
  destruct (filter _ _) as [|y l] eqn:Hl in Hf; [done|]. injection Hf as ->.
  assert (Hin : e ∈ e :: l) by left. rewrite <- Hl in Hin. by apply list_elem_of_filter in Hin as [? _].
Qed.

Lemma get_event_quiet id :
  quiet (es_GetEvent id) (fun r => match r with inr e => re_ID e = id | inl _ => True end).
Proof. apply log_quiet. intros d [e|e] d' Hrun; [done|]. by eapply GetEvent_id. Qed.

(** Reading the clock while serving. *)
Lemma hook_clock_spec d rest :
  spec me (act cl_NowMs) (in_phase (at_work d rest)) (fun r w => is_ok r = true /\ in_phase (at_work d rest) w).
Proof.
  apply pspec_act; [intros r; apply stable_const|]. intros w r w' Hi (since & Hp) [= <- <-].
  destruct (look_inv me (CClock (hk_now w)) w w Hi) as [Hg Hi']; try done; [by rewrite Hp|].
  split; [exact Hg|]. split; [exact Hi'|]. split; [done|]. exists since. cbn. by rewrite phase_of_snoc, decide_True, Hp.
Qed.

(** The three records. *)
Lemma mark_spec (m : M hooks unit) st d rest (P : option hook_call -> Prop) :
  (exists code err next msg, m = logged me (fun w r => CMark (dl_ID d) st (is_ok r) (hk_now w))
     (on_tables (n ← map_err (ErrWrap msg) (stmt (record_outcome (dl_ID d) st code err next)); affected n "webhook delivery"))) ->
  (st = DeliveryDelivered -> forall c, P c -> exists req resp at_, c = Some (CPost req (inr resp) at_) /\
     success_code (rs_StatusCode resp) = true) ->
  spec me (act m) (own me (fun p c => at_work d rest p /\ P c)) (fun _ => in_phase (to_serve rest)).
Proof.
  intros (code & err & next & msg & ->) Hst. apply pspec_act; [intros r; apply own_stable|].
  intros w r w' Hi [(since & Hp) Hc] Hrun. unfold logged in Hrun.
  match type of Hrun with (let '(_, _) := ?m in _) = _ => destruct m as [r0 w1] eqn:Hm end. injection Hrun as -> <-.
  destruct (mark_inv me w st code err next msg r w1 since d rest Hi Hp) as (Hg & Hi' & Hp'); [by intros Heq; apply Hst|exact Hm|].
  split; [exact Hg|]. split; [exact Hi'|]. unfold in_phase, own. rewrite Hp'. unfold to_serve.
  destruct (is_nil rest); [done|]. by eexists.
Qed.

Lemma fail_spec d rest hook attempts code text :
  spec me (fail d hook attempts code text) (in_phase (at_work d rest)) (fun _ => in_phase (to_serve rest)).
Proof.
  assert (Hpre : forall w, hook_inv w -> in_phase (at_work d rest) w -> own me (fun p c => at_work d rest p /\ True) w) by done.
  unfold fail. destruct (_ <=? attempts).
  - eapply pspec_pre; [|exact Hpre]. apply (mark_spec _ DeliveryDead); [|done]. by do 4 eexists.
  - eapply pspec_bind; [apply hook_clock_spec|by intros e w Hi [Hw _]|intros now].
    eapply pspec_pre; [|intros w Hi [_ Hw]; exact (Hpre w Hi Hw)].
    apply (mark_spec _ DeliveryFailed); [|done]. by do 4 eexists.
Qed.

(** Every request names the event, whatever the custom headers are. *)
Lemma request_id_kept key value h :
  CanonicalMIMEHeaderKey key <> HeaderRequestID ->
  set_header key value h !! HeaderRequestID = h !! HeaderRequestID.
Proof. intros Hne. unfold set_header. by rewrite lookup_insert_ne. Qed.

Lemma protocol_request_id evt now h : protocol_headers evt now h !! HeaderRequestID = Some (re_ID evt).
Proof.
  unfold protocol_headers. rewrite request_id_kept by by vm_compute. unfold set_header at 1.
  replace (CanonicalMIMEHeaderKey HeaderRequestID) with HeaderRequestID by by vm_compute.
  by rewrite lookup_insert_eq.
Qed.

Lemma signed_request_id hook body h h' :
  sign_request decryptor hook body h = inr h' -> h' !! HeaderRequestID = h !! HeaderRequestID.
Proof.
  unfold sign_request. destruct (is_nil _); [by intros [= ->]|]. destruct decryptor as [decrypt|]; [|done].
  destruct (decrypt _) as [e|secret]; [done|]. intros [= <-]. by rewrite !request_id_kept by by vm_compute.
Qed.

Lemma build_spec hook evt body d rest :
  spec me (buildRequest decryptor hook evt body) (in_phase (at_work d rest))
    (fun r w => match r with inr req => rq_Header req !! HeaderRequestID = Some (re_ID evt) | inl _ => True end /\
                in_phase (at_work d rest) w).
Proof.
  unfold buildRequest. destruct (parse_url _); [by apply pspec_return|].
  eapply pspec_bind; [apply hook_clock_spec|by intros e w Hi [Hw _]|]. intros now.
  destruct (sign_request _ _ _ _) as [e|header] eqn:Hs; apply pspec_return; intros w Hi [_ Hw]; (split; [|done]); [done|].
  cbn. apply signed_request_id in Hs. by rewrite Hs, protocol_request_id.
Qed.

Lemma send_spec d rest hook attempts req :
  spec me (send_and_record d hook attempts req)
    (fun w => rq_Header req !! HeaderRequestID = Some (dl_EventID d) /\ in_phase (at_work d rest) w)
    (fun _ => in_phase (to_serve rest)).
Proof.
  unfold send_and_record.
  eapply try_bind with (Q := fun r => own me (fun p c => at_work d rest p /\ exists at_, c = Some (CPost req r at_))).
  - apply pspec_act; [intros r; apply own_stable|]. intros w r w' Hi [Hreq (since & Hp)] Hrun. cbn in Hrun. unfold logged in Hrun.
    destruct (next_reply w) as [r0 w1] eqn:Hr. injection Hrun as -> <-.
    destruct (post_inv me w req r w1 since d rest Hi Hp Hreq Hr) as (Hg & Hi' & Hp' & Hl).
    split; [exact Hg|]. split; [exact Hi'|]. unfold own. rewrite Hp', Hl. split; [by eexists|by eexists].
  - assert (Hpre : forall r w, hook_inv w ->
      own me (fun p c => at_work d rest p /\ exists at_, c = Some (CPost req r at_)) w -> in_phase (at_work d rest) w).
    { by intros r w _ [Hw _]. }
    intros [e|resp]; [eapply pspec_pre; [apply fail_spec|by apply Hpre]|].
    destruct (success_code _) eqn:Hcode; [|eapply pspec_pre; [apply fail_spec|by apply Hpre]].
    apply (mark_spec _ DeliveryDelivered); [by do 4 eexists|]. intros _ c [at_ ->]. eauto 10.
Qed.

Lemma Deliver_spec d rest :
  spec me (Deliver decryptor d) (in_phase (at_work d rest)) (fun _ => in_phase (to_serve rest)).
Proof.
  assert (Hfail : forall phi hook attempts text, spec me (fail d hook attempts None text)
    (fun w => phi /\ in_phase (at_work d rest) w) (fun _ => in_phase (to_serve rest))).
  { intros phi hook attempts text. eapply pspec_pre; [apply fail_spec|by intros w _ [_ Hw]]. }
  assert (Hdead : forall phi attempts text, spec me (act (dr_MarkDead (dl_ID d) attempts None text))
    (fun w => phi /\ in_phase (at_work d rest) w) (fun _ => in_phase (to_serve rest))).
  { intros phi attempts text. eapply pspec_pre with (P := own me (fun p c => at_work d rest p /\ True)); [|by intros w _ [_ Hw]].
    apply (mark_spec _ DeliveryDead); [|done]. by do 4 eexists. }
  unfold Deliver. eapply try_bind; [apply quiet_spec, get_webhook_quiet|]. intros [e|hook]; [by destruct (isNotFound e)|].
  eapply try_bind.
  { eapply pspec_pre; [apply (quiet_spec _ _ _ (fun p _ => at_work d rest p) (get_event_quiet _))|by intros w _ [_ Hw]]. }
  intros [e|evt]; [by destruct (isNotFound e)|]. destruct (marshal_event evt) as [e|body]; [done|].
  eapply try_bind; [apply pspec_frame, (build_spec hook evt body d rest)|].
  intros [e|req]; [eapply pspec_pre; [apply (Hfail True)|by intros w _ (_ & _ & Hw)]|].
  eapply pspec_pre; [apply send_spec|]. intros w _ (<- & Hreq & Hw). by split.
Qed.

Lemma deliver_all_spec due :
  spec me (deliver_all decryptor due) (in_phase (to_serve due)) (fun _ => in_phase (fun p => p = Idle)).
Proof.
  induction due as [|d rest IH]; cbn [deliver_all]; [by apply pspec_return|].
  eapply try_bind; [apply (Deliver_spec d rest)|]. intros r. exact IH.
Qed.

(** A pass leaves nothing in its hands. *)
Lemma DeliverDue_spec limit :
  spec me (DeliverDue decryptor limit) (in_phase (fun p => p = Idle)) (fun _ => in_phase (fun p => p = Idle)).
Proof.
  unfold DeliverDue.
  eapply pspec_bind with (Q := fun r => in_phase (fun p => match r with inr now => p = Claiming now | inl _ => False end)).
  - apply pspec_act; [intros r; apply own_stable|]. intros w r w' Hi Hp [= <- <-].
    by apply open_inv.
  - by intros e w Hi Hw.
  - intros now.
    eapply try_bind with (Q := fun r => in_phase (match r with inr claimed => to_serve claimed | inl _ => fun p => p = Idle end)).
    + apply pspec_act; [intros r; apply own_stable|]. intros w r w' Hi Hp Hrun. cbn in Hrun. unfold logged in Hrun.
      match type of Hrun with (let '(_, _) := ?m in _) = _ => destruct m as [r0 w1] eqn:Hm end. injection Hrun as -> <-.
      destruct (claim_inv me w now _ r w1 Hi Hp Hm) as (Hg & Hi' & Hp'). split; [exact Hg|]. split; [exact Hi'|].
      unfold in_phase, own. rewrite Hp'. destruct r as [e|claimed]; [done|]. unfold to_serve. destruct (is_nil claimed); [done|by eexists].
    + intros [e|claimed]; [by apply pspec_return|]. eapply pspec_bind; [apply deliver_all_spec|by intros e w Hi Hw|].
      intros u. by apply pspec_return.
Qed.
End PassSpec.

(** ** Enqueues *)

Section EnqueueSpec.
Context `{DB : MySQL} `{J : WebhookCodec}.
Variable me : nat.

#[local] Existing Instance WebhookRepoAdapter.
#[local] Instance enqueued_here : WebhookDeliveryRepo hooks := WebhookDeliveryRepoAdapter me.
#[local] Existing Instance SystemClock.

Abbreviation idle := (in_phase me (fun p => p = Idle)).

Lemma list_matching_quiet org session typ : quiet (wr_ListMatching org session typ) (fun _ => True).
Proof.
  apply tables_quiet. unfold ListMatching, ListActiveForEvent.
  repeat first [apply respects_bind; [apply _| |intros ?] | apply respects_map_err, respects_query; apply _
    | apply respects_lift, _ | apply respects_ret, _].
Qed.

Lemma exists_terminal_quiet webhookID eventID : quiet (dr_ExistsTerminal webhookID eventID) (fun _ => True).
Proof. apply tables_quiet. apply respects_map_err, respects_query, _. Qed.

Lemma create_spec d : spec me (act (dr_Create d)) idle (fun _ => idle).
Proof.
  apply pspec_act; [intros r; apply own_stable|]. intros w r w' Hi Hp Hrun. cbn in Hrun. unfold on_tables in Hrun.
  match type of Hrun with (let '(_, _) := ?m in _) = _ => destruct m as [r0 d1] eqn:Hm end. injection Hrun as -> <-.
  assert (Hrows : rows d1 = hk_tables w \/
    exists n, (n, rows d1) = insert_delivery (dl_WebhookID d) (dl_EventID d) (dl_CreatedAt d) (dl_CreatedAt d) (hk_tables w)).
  { unfold CreateDelivery, EnqueueDelivery, mbind, M_bind, map_err, exec, stmt, mret, M_ret in Hm. fold (hk_tables w) in Hm.
    destruct (insert_delivery _ _ _ _ _) as [n t'] eqn:Hins.
    destruct (head (faults (hk_db w))) as [[e|]|]; injection Hm as _ <-; [by left|right; by exists n..]. }
  match goal with |- guar _ _ ?w1 /\ _ => destruct (quiet_inv w w1 me Hi) as [Hg Hi'] end; try done.
  - destruct Hrows as [Heq|(n & Heq)]; unfold hk_tables at 1; cbn; [rewrite Heq; apply Hi|].
    symmetry in Heq. by apply (insert_delivery_spec _ _ _ _ _ _ _ (hi_wf _ Hi)) in Heq as (? & _).
  - destruct Hrows as [Heq|(n & Heq)]; unfold hk_tables at 2; cbn; [rewrite Heq; apply advance_same; [apply Hi|done|lia]|].
    symmetry in Heq. by apply (insert_delivery_spec _ _ _ _ _ _ _ (hi_wf _ Hi)) in Heq as (_ & ? & _).
  - intros id x Hx _. destruct Hrows as [Heq|(n & Heq)]; unfold deliveries, hk_tables; cbn; [by rewrite Heq|].
    symmetry in Heq. apply (insert_delivery_spec _ _ _ _ _ _ _ (hi_wf _ Hi)) in Heq as (_ & _ & Hk & _). by apply Hk.
Qed.

Lemma enqueue_hook_spec now evt h : spec me (enqueue_hook now evt h) idle (fun _ => idle).
Proof.
  unfold enqueue_hook. destruct (negb _); [by apply pspec_return|].
  eapply try_bind; [apply (quiet_spec me _ (fun _ => True) (fun p _ => p = Idle)), exists_terminal_quiet|].
  intros [e|[|]]; [by apply pspec_return; intros w _ [_ Hw]..|].
  eapply try_bind; [eapply pspec_pre; [apply create_spec|by intros w _ [_ Hw]]|].
  intros [e|u]; by apply pspec_return.
Qed.

Lemma enqueue_loop_spec now evt hs : forall created failures,
  spec me (enqueue_loop now evt hs created failures) idle (fun _ => idle).
Proof.
  induction hs as [|h hs IH]; intros created failures; cbn [enqueue_loop]; [by apply pspec_return|].
  eapply pspec_bind; [apply enqueue_hook_spec|done|]. intros [b f]. apply IH.
Qed.

Lemma Enqueue_spec evt : spec me (Enqueue evt) idle (fun _ => idle).
Proof.
  unfold Enqueue. eapply try_bind; [apply (quiet_spec me _ (fun _ => True) (fun p _ => p = Idle)), list_matching_quiet|].
  intros [e|hs]; [by apply pspec_return; intros w _ [_ Hw]|].
  eapply pspec_bind with (Q := fun _ => idle); [|done|intros now; apply enqueue_loop_spec].
  eapply pspec_pre; [|intros w _ [_ Hw]; exact Hw]. apply pspec_gets; [apply own_stable|].
  intros w Hi. split; [exists []; by rewrite app_nil_r|]. apply advance_same; [apply Hi|done|lia].
Qed.
End EnqueueSpec.
