(* ===== verification/WebhookSpec.v ===== *)
(** * What webhook delivery promises

    The theorems about any interleaving of dispatch passes, enqueues, retention,
    webhook changes and crashes ([WebhookSafety]), about one attempt, about one
    enqueue, about the retry schedule and about the CRUD service. *)

From stdpp Require Import relations.
From S2P Require Import Prelude Journal Domain Outbound OutboxStore Scheduler EventIngest GatewayTables.
From S2P Require Import WebhookStore Concurrency Webhooks WebhookSafety.

#[local] Open Scope Z_scope.

Section Runs.
Context `{DB : MySQL} `{J : WebhookCodec} `{Lib : WebhookLib} `{MR : MapRange}.
Context (ExpandPayload : bytes -> goerr + bytes) (decryptor : option (bytes -> goerr + bytes)).

Abbreviation sys := (system hooks Z).

Definition program (t : nat) (q : task) : proc hooks Z := serve_task ExpandPayload decryptor t q.

(** A pass or an enqueue starts under a number of its own. *)
Definition new_task (t : nat) (w : hooks) : Prop := Forall (fun e => e.1 <> t) (hk_trace w).

Inductive hook_step (s : sys) : sys -> Prop :=
  | hook_action t side s' : step_thread t side s = Some s' -> hook_step s s'
  | hook_start t q : sy_threads s !! t = None -> new_task t (sy_world s) ->
      hook_step s (MkSystem (sy_world s) (<[t := program t q]> (sy_threads s)))
  | hook_process w' : env (sy_world s) w' -> hook_step s (MkSystem w' (sy_threads s))
  | hook_crash t p : sy_threads s !! t = Some p ->
      hook_step s (MkSystem (log_call t CCrash (sy_world s)) (delete t (sy_threads s))).

Abbreviation hook_steps := (rtc hook_step).

(** The process has just started on tables that are well formed. *)
Definition booted (s : sys) : Prop :=
  sy_threads s = ∅ /\ hk_trace (sy_world s) = [] /\ deliveries_wf (hk_tables (sy_world s)) /\
  0 <= hk_now (sy_world s) < 2 ^ 62.

Definition hook_reachable (s : sys) : Prop := exists s0, booted s0 /\ hook_steps s0 s.

(** A finished task holds nothing. *)
Definition nothing_in_hand (t : nat) (r : goerr + Z) (w : hooks) : Prop := phase_of t (hk_trace w) = Idle.

Definition run_ok (s : sys) : Prop := system_ok hook_inv guar env never nothing_in_hand s.

Lemma booted_ok s : booted s -> run_ok s.
Proof.
  intros (Ht & Htr & Hwf & Hnow). split; [|intros t p; by rewrite Ht, lookup_empty].
  split; rewrite ?Htr; try done.
  - intros me u d _ Hd. by apply not_elem_of_nil in Hd.
  - intros id (u & st & at_ & Hin & _). by apply not_elem_of_nil in Hin.
  - intros l1 me c l2 Heq. by destruct l1.
Qed.

Lemma new_task_idle t w : new_task t w -> phase_of t (hk_trace w) = Idle.
Proof. intros Hn. rewrite <- (app_nil_l (hk_trace w)). by rewrite phase_of_others. Qed.

Lemma program_spec t q : spec t (program t q) (in_phase t (fun p => p = Idle)) (nothing_in_hand t).
Proof.
  destruct q as [limit|evt]; unfold program, serve_task.
  - apply DeliverDue_spec.
  - unfold enqueue_event, pmap. eapply (pspec_then _ _ _ _ t _ _ _ (fun _ => in_phase t (fun p => p = Idle))).
    + apply Enqueue_spec.
    + intros [e|[n f]]; intros w Hi Hw; exact Hw.
Qed.

Lemma crash_ok s t : run_ok s -> run_ok (MkSystem (log_call t CCrash (sy_world s)) (delete t (sy_threads s))).
Proof.
  intros [Hi Hall].
  assert (Hc : guar t (sy_world s) (log_call t CCrash (sy_world s)) /\ hook_inv (log_call t CCrash (sy_world s))).
  { assert (Hn : forall p, next_phase p CCrash = Idle) by by intros [].
    apply log_inv; rewrite ?Hn; try done; try apply Hi; [apply advance_same; [apply Hi|done|lia]|].
    intros u d _ Hd. by apply not_elem_of_nil in Hd. }
  destruct Hc as [Hg Hi']. split; [exact Hi'|]. cbn. intros u p Hp. apply lookup_delete_Some in Hp as [Hne Hp].
  eapply thread_ok_rely; [exact Hi|exact Hi'| |by apply Hall]. right. by exists t.
Qed.

Lemma hooks_step_ok s s' : run_ok s -> hook_step s s' ->
  run_ok s' /\ deliveries_evolve (hk_tables (sy_world s)) (hk_tables (sy_world s')).
Proof.
  intros Hok Hstep. destruct Hstep as [t side s' Hst|t q Hnone Hnew|w' He|t p Hp].
  - destruct (step_thread_ok _ _ _ _ _ _ _ _ _ Hok Hst) as [Hg Hok']. split; [done|apply Hg].
  - split; [|apply evolve_same; [apply Hok|done|reflexivity]].
    eapply spawn_ok; [exact Hok|apply (own_stable t (fun p _ => p = Idle))|by apply new_task_idle|apply program_spec].
  - split; [|apply He]. apply env_step_ok; [exact Hok|exact He|]. eapply env_inv; [apply Hok|done].
  - split; [by apply crash_ok|]. apply evolve_same; [apply Hok|done|reflexivity].
Qed.

Lemma hooks_steps_ok s s' : run_ok s -> hook_steps s s' -> run_ok s'.
Proof. intros Hok Hs. induction Hs as [s|s s1 s' Hst _ IH]; [done|]. apply IH. by eapply hooks_step_ok. Qed.

Lemma hooks_reachable_ok s : hook_reachable s -> run_ok s.
Proof. intros (s0 & H0 & Hs). eapply hooks_steps_ok; [by apply booted_ok|exact Hs]. Qed.

(** C20: however passes, enqueues, retention, webhook changes and crashes
    interleave, as long as no attempt takes as long as its lease: every request
    a pass posts carries the event of a delivery that this pass alone holds,
    under a running lease, and that has no recorded outcome yet; every outcome
    is recorded by that pass, "delivered" only right after an endpoint answered
    2xx; and a finished pass holds nothing. *)
Theorem deliveries_are_exclusive (s : sys) :
  hook_reachable s ->
  let trace := hk_trace (sy_world s) in
  (forall l1 t req reply at_ l2, trace = l1 ++ (t, CPost req reply at_) :: l2 ->
     exists d, working t l1 d at_ /\ rq_Header req !! HeaderRequestID = Some (dl_EventID d)) /\
  (forall l1 t id st ok at_ l2, trace = l1 ++ (t, CMark id st ok at_) :: l2 ->
     (exists d, working t l1 d at_ /\ dl_ID d = id) /\
     (st = DeliveryDelivered -> exists req resp at', last_call t l1 = Some (CPost req (inr resp) at') /\
        success_code (rs_StatusCode resp) = true)) /\
  (forall t r, sy_threads s !! t = Some (Return r) -> in_hand (phase_of t trace) = []).
Proof.
  intros Hs%hooks_reachable_ok trace. pose proof (hi_calls _ (proj1 Hs)) as Hall. split; [|split].
  - intros l1 t req reply at_ l2 Heq. exact (Hall _ _ _ _ Heq).
  - intros l1 t id st ok at_ l2 Heq. exact (Hall _ _ _ _ Heq).
  - intros t r Ht. pose proof (system_ok_result _ _ _ _ _ _ _ _ Hs Ht) as Hr. unfold nothing_in_hand in Hr. unfold trace. by rewrite Hr.
Qed.

(** *** What else writes the tables

    The webhook operations and the retention job, each as its own program; beside
    them the clock, the endpoints, the locks and the event log move. *)
Inductive hook_write :=
  | WriteCreate (h : Webhook)
  | WriteUpdate (h : Webhook)
  | WriteDelete (id : string)
  | WriteRetention (fuel : nat) (cutoffMs : Z).

Definition run_write (o : hook_write) : M (db htables) unit :=
  match o with
  | WriteCreate h => CreateWebhook h
  | WriteUpdate h => UpdateWebhook h
  | WriteDelete id => DeleteWebhook id
  | WriteRetention fuel cutoffMs => deleteTerminalDeliveries fuel cutoffMs;; mret tt
  end.

Record process_step (o : option hook_write) (w w' : hooks) : Prop := {
  ps_trace : hk_trace w' = hk_trace w;
  ps_clock : hk_now w <= hk_now w' < 2 ^ 62;
  ps_prompt me since : busy_since (phase_of me (hk_trace w)) = Some since ->
    hk_now w' < since + webhookAttemptLeaseMs;
  ps_rows : match o with
    | Some o => exists fs r d', run_write o (Db (hk_tables w) fs) = (r, d') /\ hk_tables w' = rows d'
    | None => hk_tables w' = hk_tables w
    end;
}.

(** Steps whose writers of the tables are all programs of the repository. *)
Inductive live_step (s : sys) : option hook_write -> sys -> Prop :=
  | live_action t side s' : step_thread t side s = Some s' -> live_step s None s'
  | live_start t q : sy_threads s !! t = None -> new_task t (sy_world s) ->
      live_step s None (MkSystem (sy_world s) (<[t := program t q]> (sy_threads s)))
  | live_process o w' : process_step o (sy_world s) w' -> live_step s o (MkSystem w' (sy_threads s))
  | live_crash t p : sy_threads s !! t = Some p ->
      live_step s None (MkSystem (log_call t CCrash (sy_world s)) (delete t (sy_threads s))).

Definition live_steps : relation sys := rtc (fun s s' => exists o, live_step s o s').

(** What a writer may remove: old terminal deliveries, by retention. *)
Definition removable (o : hook_write) (d : WebhookDelivery) : Prop :=
  exists fuel cutoffMs, o = WriteRetention fuel cutoffMs /\ is_terminal d = true /\ dl_CreatedAt d < cutoffMs.

Record writes (o : hook_write) (t t' : htables) : Prop := {
  wr_next : ht_next t' = ht_next t;
  wr_sub : ht_deliveries t' ⊆ ht_deliveries t;
  wr_gone id d : ht_deliveries t !! id = Some d -> ht_deliveries t' !! id = Some d \/ removable o d;
}.

#[local] Instance writes_preorder o : PreOrder (writes o).
Proof.
  split; [split; auto|]. intros a b c [Hn Hs Hg] [Hn' Hs' Hg']. split; [congruence|by etransitivity|].
  intros id d Hd. destruct (Hg _ _ Hd) as [Hb|?]; [|by right]. by apply Hg'.
Qed.

Lemma writes_same o t t' : ht_next t' = ht_next t -> ht_deliveries t' = ht_deliveries t -> writes o t t'.
Proof. intros Hn Hd. split; rewrite ?Hd; auto. Qed.

(** The deletion takes deliveries of the table that are terminal and older. *)
Lemma prune_writes fuel cutoff limit t : deliveries_wf t ->
  writes (WriteRetention fuel cutoff) t (DeleteTerminalWebhookDeliveriesBefore cutoff limit t).2.
Proof.
  intros Hw. cbn. set (gone := take _ _). split; cbn; [done|apply map_filter_subseteq|].
  intros id d Hd. destruct (decide (id ∈ dl_ID <$> gone)) as [(x & -> & Hx)%list_elem_of_fmap|Hout].
  - right. apply elem_of_take in Hx as (i & Hx & _). apply list_elem_of_lookup_2 in Hx.
    rewrite merge_sort_Permutation in Hx. apply list_elem_of_filter in Hx as [Hc Hx]. to_prop.
    apply elem_of_delivery_rows in Hx; [|done]. rewrite Hd in Hx. injection Hx as <-. by exists fuel, cutoff.
  - left. by apply map_lookup_filter_Some.
Qed.

Lemma sub_wf t t' : ht_next t' = ht_next t -> ht_deliveries t' ⊆ ht_deliveries t -> deliveries_wf t -> deliveries_wf t'.
Proof.
  intros Hn Hs Hw. split.
  - intros id d Hd. rewrite Hn. apply (dw_key _ Hw). exact (lookup_weaken _ _ _ _ Hd Hs).
  - intros id d id' d' Hd Hd'. apply (dw_pair _ Hw); [exact (lookup_weaken _ _ _ _ Hd Hs)|exact (lookup_weaken _ _ _ _ Hd' Hs)].
Qed.

(** A write on well-formed tables. *)
Definition wf_writes (o : hook_write) (t t' : htables) : Prop := deliveries_wf t -> writes o t t'.

#[local] Instance wf_writes_preorder o : PreOrder (wf_writes o).
Proof.
  split; [by intros t _|]. intros a b c Hab Hbc Hw. specialize (Hab Hw). transitivity b; [done|]. apply Hbc.
  eapply sub_wf; [apply Hab|apply Hab|done].
Qed.

Lemma affected_respects (R : htables -> htables -> Prop) `{!PreOrder R} n what : respects (on_rows R) (affected n what).
Proof. unfold affected. destruct (rowsAffectedOrNotFound n what); [apply respects_throw, _|apply respects_ret, _]. Qed.

Lemma run_write_respects o : respects (on_rows (wf_writes o)) (run_write o).
Proof.
  assert (Hsame : forall t t', ht_next t' = ht_next t -> ht_deliveries t' = ht_deliveries t -> wf_writes o t t')
    by (intros t t' ? ? _; by apply writes_same).
  destruct o as [h|h|id|fuel cutoff]; cbn [run_write].
  - apply respects_bind; [apply _|apply respects_lift, _|]. intros columns.
    apply respects_map_err, respects_stmt; [apply _|]. intros t. unfold insert_webhook.
    destruct (stored_columns columns) as [[[? ?] ?]|]; [|by apply Hsame].
    by destruct (ht_webhooks t !! wh_ID h); apply Hsame.
  - apply respects_bind; [apply _|apply respects_lift, _|]. intros columns.
    apply respects_bind; [apply _|apply respects_map_err, respects_stmt; [apply _|]|intros n; by apply affected_respects, _].
    intros t. unfold update_webhook. destruct (stored_columns columns) as [[[? ?] ?]|]; [|by apply Hsame].
    by destruct (ht_webhooks t !! wh_ID h); apply Hsame.
  - unfold DeleteWebhook. apply respects_bind; [apply _|apply respects_map_err, respects_exec; [apply _|]|intros n; by apply affected_respects, _].
    intros t. unfold delete_webhook. by destruct (ht_webhooks t !! id); apply Hsame.
  - apply respects_bind; [apply _| |intros; apply respects_ret, _]. unfold deleteTerminalDeliveries.
    generalize 0 as total. generalize fuel at 2 as n. induction n as [|n IH]; intros total; cbn [deleteBatches]; [apply respects_ret, _|].
    apply respects_bind; [apply _|apply respects_map_err, respects_exec; [apply _|]|].
    + intros t Hw. by apply prune_writes.
    + intros k. destruct (k <? _); [apply respects_ret, _|apply IH].
Qed.

(** The written tables are well formed, and what is open is untouched. *)
Lemma writes_env o t t' : deliveries_wf t -> writes o t t' ->
  deliveries_wf t' /\ deliveries_evolve t t' /\
  forall id d, ht_deliveries t !! id = Some d -> is_terminal d = false -> ht_deliveries t' !! id = Some d.
Proof.
  intros Hw [Hn Hs Hg]. split; [by eapply sub_wf|].
  assert (Hopen : forall id d, ht_deliveries t !! id = Some d -> is_terminal d = false -> ht_deliveries t' !! id = Some d).
  { intros id d Hd Ht. destruct (Hg _ _ Hd) as [?|(? & ? & _ & Ht' & _)]; [done|congruence]. }
  split; [|exact Hopen]. split; rewrite ?Hn; [done| | |].
  - intros id d Hd _. destruct (ht_deliveries t' !! id) as [d'|] eqn:Hd'; [left|right].
    + by rewrite (lookup_weaken _ _ _ _ Hd' Hs) in Hd.
    + split; [done|]. by destruct (dw_key _ Hw _ _ Hd).
  - intros id d Hd Ht. exists d. split; [by apply Hopen|done].
  - intros id d' Hd' Hnone. by rewrite (lookup_weaken _ _ _ _ Hd' Hs) in Hnone.
Qed.

(** Such a step is one of the steps above. *)
Lemma process_step_env o w w' : hook_inv w -> process_step o w w' -> env w w'.
Proof.
  intros Hi [Htr Hclock Hprompt Hrows].
  assert (Hw : deliveries_wf (hk_tables w') /\ deliveries_evolve (hk_tables w) (hk_tables w') /\
    forall id d, deliveries w !! id = Some d -> is_terminal d = false -> deliveries w' !! id = Some d).
  { destruct o as [o|].
    - destruct Hrows as (fs & r & d' & Hrun & Heq). unfold deliveries. rewrite Heq. apply (writes_env o); [apply Hi|].
      apply (run_write_respects o _ _ _ Hrun), Hi.
    - unfold deliveries. rewrite Hrows. split; [apply Hi|]. split; [apply evolve_same; [apply Hi|done|reflexivity]|done]. }
  by destruct Hw as (? & ? & ?).
Qed.

Lemma live_step_hook s o s' : run_ok s -> live_step s o s' -> hook_step s s'.
Proof.
  intros Hok Hs. destruct Hs as [t side s' Hst|t q Hn Hnew|o w' Hp|t p Hp]; [by eapply hook_action|by apply hook_start| |by eapply hook_crash].
  apply hook_process. eapply process_step_env; [apply Hok|exact Hp].
Qed.

(** A stored delivery stays stored, unless retention removes it. *)
Lemma live_step_keeps s o s' id d : run_ok s -> live_step s o s' -> deliveries (sy_world s) !! id = Some d ->
  is_Some (deliveries (sy_world s') !! id) \/ exists w, o = Some w /\ removable w d.
Proof.
  intros Hok Hs Hd. destruct Hs as [t side s' Hst|t q Hn Hnew|o w' Hp|t p Hp]; [|left; by exists d| |left; by exists d].
  - left. destruct (step_thread_ok _ _ _ _ _ _ _ _ _ Hok Hst) as [Hg _]. apply (proj2 (gu_rows _ _ _ Hg)). by exists d.
  - destruct Hp as [_ _ _ Hrows]. destruct o as [o|]; cbn.
    + destruct Hrows as (fs & r & d' & Hrun & Heq).
      assert (Hwr : writes o (hk_tables (sy_world s)) (rows d')) by (apply (run_write_respects o _ _ _ Hrun), Hok).
      destruct (wr_gone _ _ _ Hwr _ _ Hd) as [Hd'|Hr]; [left|right; by exists o].
      exists d. unfold deliveries. by rewrite Heq.
    + left. exists d. unfold deliveries. by rewrite Hrows.
Qed.

Lemma live_steps_ok s s' : run_ok s -> live_steps s s' -> run_ok s'.
Proof.
  intros Hok Hs. induction Hs as [s|s s1 s' (o & Hst) _ IH]; [done|]. apply IH.
  by destruct (hooks_step_ok _ _ Hok (live_step_hook _ _ _ Hok Hst)).
Qed.

(** Retention removed the delivery, old and terminal, between the two states. *)
Definition removed_by_retention (s s' : sys) (id : Z) (d : WebhookDelivery) : Prop :=
  exists s1 s2 fuel cutoffMs, live_steps s s1 /\ live_step s1 (Some (WriteRetention fuel cutoffMs)) s2 /\ live_steps s2 s' /\
    deliveries (sy_world s1) !! id = Some d /\ deliveries (sy_world s2) !! id = None /\ dl_CreatedAt d < cutoffMs.

Lemma terminal_stays s s' id d : run_ok s -> live_steps s s' -> deliveries (sy_world s) !! id = Some d -> is_terminal d = true ->
  deliveries (sy_world s') !! id = Some d \/ removed_by_retention s s' id d.
Proof.
  intros Hok Hs. revert d. induction Hs as [s|s s1 s' (o & Hst) Hrest IH]; intros d Hd Ht; [by left|].
  destruct (hooks_step_ok _ _ Hok (live_step_hook _ _ _ Hok Hst)) as [Hok1 Hev].
  destruct (ev_frozen _ _ Hev _ _ Hd Ht) as [Hd1|[Hnone _]].
  - destruct (IH Hok1 d Hd1 Ht) as [?|(sa & sb & fuel & cutoff & Ha & Hab & Hb & Hrem)]; [by left|right].
    exists sa, sb, fuel, cutoff. split; [|done]. eapply rtc_l; [by exists o|done].
  - right. destruct (live_step_keeps _ _ _ _ _ Hok Hst Hd) as [[x Hx]|(w & -> & fuel & cutoff & -> & _ & Hold)].
    + unfold deliveries in Hx. by rewrite Hnone in Hx.
    + exists s, s1, fuel, cutoff. split; [apply rtc_refl|]. split; [done|]. by repeat split.
Qed.

(** C33: Deliveries are durable. However passes, enqueues, the webhook operations,
    retention and crashes interleave, as long as no attempt takes as long as its
    lease: a stored delivery that is neither delivered nor dead stays, for the same
    webhook and event, until it is; and one that is delivered or dead is never
    changed, and leaves the table only by the retention job, for a cutoff later
    than its creation. *)
Theorem deliveries_are_durable_and_final (s s' : sys) (id : Z) (d : WebhookDelivery) :
  hook_reachable s -> live_steps s s' -> deliveries (sy_world s) !! id = Some d ->
  (is_terminal d = true -> deliveries (sy_world s') !! id = Some d \/ removed_by_retention s s' id d) /\
  (is_terminal d = false ->
     (exists d', deliveries (sy_world s') !! id = Some d' /\
        dl_WebhookID d' = dl_WebhookID d /\ dl_EventID d' = dl_EventID d) \/
     exists s1 d1, live_steps s s1 /\ live_steps s1 s' /\ deliveries (sy_world s1) !! id = Some d1 /\
        dl_WebhookID d1 = dl_WebhookID d /\ dl_EventID d1 = dl_EventID d /\ is_terminal d1 = true).
Proof.
  intros Hs%hooks_reachable_ok Hsteps Hd. split; [by apply terminal_stays|]. intros Ht.
  revert d Hd Ht. induction Hsteps as [s|s s1 s' (o & Hst) Hrest IH]; intros d Hd Ht; [left; by exists d|].
  destruct (hooks_step_ok _ _ Hs (live_step_hook _ _ _ Hs Hst)) as [Hs1 Hev].
  destruct (ev_kept _ _ Hev _ _ Hd Ht) as (d1 & Hd1 & Hw1 & He1).
  assert (Hone : live_steps s s1) by (apply rtc_once; by exists o).
  destruct (is_terminal d1) eqn:Ht1; [right; exists s1, d1; by repeat (split; [done|])|].
  destruct (IH Hs1 d1 Hd1 Ht1) as [(d' & Hd' & Hw' & He')|(s2 & d2 & H02 & H2' & Hd2 & Hw2 & He2 & Ht2)].
  + left. exists d'. split; [done|]. split; congruence.
  + right. exists s2, d2. split; [by etransitivity|]. split; [done|]. split; [done|]. split; [congruence|]. split; [congruence|done].
Qed.
End Runs.

(** ** One attempt *)

Section Attempt.
Context `{Lib : WebhookLib} `{J : WebhookCodec} `{MR : MapRange}.
Context (ExpandPayload : bytes -> goerr + bytes) (decryptor : option (bytes -> goerr + bytes)).
Variable me : nat.

#[local] Existing Instance WebhookRepoAdapter.
#[local] Instance attempt_events : EventStore hooks := EventLogStore ExpandPayload.
#[local] Instance attempt_deliveries : WebhookDeliveryRepo hooks := WebhookDeliveryRepoAdapter me.
#[local] Instance attempt_endpoints : HTTPDoer hooks := Endpoints me.
#[local] Instance attempt_clock : Clock hooks := PassClock me.

Abbreviation attempt d := (Deliver decryptor d).

(** The requests of the pass. *)
Definition posts (w : hooks) : list Request :=
  omap (fun e => match e with (u, CPost req _ _) => if decide (u = me) then Some req else None | _ => None end)
    (hk_trace w).

Definition reply_text (reply : goerr + Response) : string :=
  match reply with inl err => "http do: " +:+ error_text err | inr resp => reply_error resp end.
Definition reply_code (reply : goerr + Response) : option Z :=
  match reply with inl _ => None | inr resp => Some (i32 (rs_StatusCode resp)) end.
Definition accepted (reply : goerr + Response) : bool :=
  match reply with inl _ => false | inr resp => success_code (rs_StatusCode resp) end.

(** What the row of the delivery is after an attempt at [now]. *)
Definition after_attempt (x : WebhookDelivery) (status : WebhookDeliveryStatus) (code : option Z)
  (text : option string) (next : option Z) : WebhookDelivery :=
  MkDelivery (dl_ID x) (dl_WebhookID x) (dl_EventID x) status (dl_Attempts x + 1) code next text (dl_CreatedAt x).
Definition after_reply (policy : RetryPolicy) (now : Z) (reply : goerr + Response) (x : WebhookDelivery)
  : WebhookDelivery :=
  if accepted reply then after_attempt x DeliveryDelivered (reply_code reply) None None
  else if maxAttempts policy <=? dl_Attempts x + 1 then
    after_attempt x DeliveryDead (reply_code reply) (Some (reply_text reply)) None
  else after_attempt x DeliveryFailed (reply_code reply) (Some (reply_text reply))
         (Some (i64 (now + i64 (1000 * backoffSeconds (rp_Policy policy) (rp_DelaySeconds policy)
                                         (dl_Attempts x + 1))))).

(** Nothing the attempt reads is failing, and its delivery is as it was claimed. *)
Record attemptable (w : hooks) (d x : WebhookDelivery) : Prop := {
  at_tables : faults (hk_db w) = [];
  at_events : faults (hk_events w) = [];
  at_row : deliveries w !! dl_ID d = Some x;
  at_attempts : dl_Attempts x = dl_Attempts d /\ 0 <= dl_Attempts d < 2 ^ 31 - 1;
}.

Definition hook_of (w : hooks) (id : string) : goerr + Webhook :=
  match ht_webhooks (hk_tables w) !! id with
  | None => inl (ErrNotFound "webhook not found")
  | Some row => webhookFromRow id row
  end.

Lemma get_run w id :
  faults (hk_db w) = [] -> wr_Get id w = (hook_of w id, w).
Proof.
  intros Hf. destruct w as [[t fs] ev now rs lk tr]. cbn in Hf. subst fs. unfold hook_of, hk_tables. cbn.
  unfold on_tables, GetWebhook, map_err, stmt, mbind, M_bind. cbn. by destruct (ht_webhooks t !! id).
Qed.

Lemma event_run w id :
  faults (hk_events w) = [] -> exists r, es_GetEvent id w = (r, w) /\ (GetEvent ExpandPayload id (hk_events w)).1 = r.
Proof.
  intros Hf. destruct w as [db [t fs] now rs lk tr]. cbn in Hf. subst fs. cbn. unfold on_log, GetEvent, GetByEventID.
  unfold map_err, query, stmt, mbind, M_bind, mret, M_ret, throw. cbn.
  destruct (find_log id t) as [e|]; [|by eexists]. destruct (ExpandPayload (el_Payload e)); by eexists.
Qed.

(** Running a program alone, action by action. *)
Lemma run_try {A B} n (m : M hooks A) (k : goerr + A -> proc hooks B) w r w' :
  m w = (r, w') -> run_alone (S n) true (ptry (act m) ≫= k) w = run_alone n true (k r) w'.
Proof. intros Hm. cbn. by rewrite Hm. Qed.

Lemma run_act {A B} n (m : M hooks A) (k : A -> proc hooks B) w a w' :
  m w = (inr a, w') -> run_alone (S n) true (act m ≫= k) w = run_alone n true (k a) w'.
Proof. intros Hm. cbn. by rewrite Hm. Qed.

Lemma run_last {A} n (m : M hooks A) w r w' :
  m w = (r, w') -> run_alone (S n) true (act m) w = Some (r, w').
Proof. intros Hm. cbn. rewrite Hm. by destruct n. Qed.

(** Recording an outcome. *)
Lemma record_run w id x st code text next msg :
  faults (hk_db w) = [] -> deliveries w !! id = Some x -> dl_Attempts x < 2 ^ 31 - 1 ->
  let m := on_tables (n ← map_err (ErrWrap msg) (stmt (record_outcome id st code text next)); affected n "webhook delivery") in
  if utf8_valid (default "" text) then
    exists w', m w = (inr tt, w') /\ hk_trace w' = hk_trace w /\
      deliveries w' = <[id := after_attempt x st code text next]> (deliveries w)
  else exists e w', m w = (inl e, w') /\ hk_trace w' = hk_trace w /\ deliveries w' = deliveries w.
Proof.
  intros Hf Hx Hlt m. destruct w as [[t fs] ev now rs lk tr]. cbn in Hf. subst fs. unfold deliveries, hk_tables in Hx. cbn in Hx.
  unfold m, on_tables, map_err, stmt, mbind, M_bind, record_outcome. cbn. rewrite Hx.
  replace (2 ^ 31 - 1 <=? dl_Attempts x) with false by (symmetry; apply Z.leb_gt; lia).
  destruct (utf8_valid _); cbn; by repeat eexists.
Qed.

Lemma posts_snoc w u c w' :
  hk_trace w' = hk_trace w ++ [(u, c)] ->
  posts w' = posts w ++ match c with CPost req _ _ => if decide (u = me) then [req] else [] | _ => [] end.
Proof.
  intros Htr. unfold posts. rewrite Htr, omap_app. f_equal. destruct c; try done. cbn. by case_decide.
Qed.

(** A failed attempt is scheduled again or, when the budget is spent, dead. *)
Lemma fail_run w d x hook code text :
  faults (hk_db w) = [] -> deliveries w !! dl_ID d = Some x -> dl_Attempts x < 2 ^ 31 - 1 ->
  let p := fail d hook (dl_Attempts x + 1) code text in
  let policy := wh_RetryPolicy hook in
  if utf8_valid text then
    exists w', run_alone 2 true p w = Some (inr tt, w') /\ posts w' = posts w /\
      deliveries w' = <[dl_ID d :=
        if maxAttempts policy <=? dl_Attempts x + 1 then after_attempt x DeliveryDead (i32 <$> code) (Some text) None
        else after_attempt x DeliveryFailed (i32 <$> code) (Some text)
               (Some (i64 (hk_now w + i64 (1000 * backoffSeconds (rp_Policy policy) (rp_DelaySeconds policy)
                                                   (dl_Attempts x + 1)))))]> (deliveries w)
  else exists e w', run_alone 2 true p w = Some (inl e, w') /\ posts w' = posts w /\ deliveries w' = deliveries w.
Proof.
  intros Hf Hx Hlt p policy. unfold p, fail. fold policy.
  assert (Hlog : forall w1 c w2, hk_trace w1 = hk_trace w -> w2 = log_call me c w1 ->
    (forall req r at_, c <> CPost req r at_) -> posts w2 = posts w).
  { intros w1 c w2 Htr -> Hc. erewrite (posts_snoc w me c); [|cbn; by rewrite Htr].
    destruct c; try (by rewrite app_nil_r). by edestruct Hc. }
  destruct (maxAttempts policy <=? dl_Attempts x + 1).
  - pose proof (record_run w (dl_ID d) x DeliveryDead (i32 <$> code) (Some text) None "store: mark dead" Hf Hx Hlt) as Hr.
    cbv zeta in Hr. change (default "" (Some text)) with text in Hr. destruct (utf8_valid text).
    + destruct Hr as (w1 & Hm & Htr & Hd). exists (log_call me (CMark (dl_ID d) DeliveryDead true (hk_now w)) w1).
      split; [|split; [|exact Hd]]; [|by eapply Hlog]. apply run_last. cbn. unfold logged, MarkDead. by rewrite Hm.
    + destruct Hr as (e & w1 & Hm & Htr & Hd). exists e, (log_call me (CMark (dl_ID d) DeliveryDead false (hk_now w)) w1).
      split; [|split; [|exact Hd]]; [|by eapply Hlog]. apply run_last. cbn. unfold logged, MarkDead. by rewrite Hm.
  - set (w0 := log_call me (CClock (hk_now w)) w).
    assert (Hp0 : posts w0 = posts w) by (by eapply Hlog).
    rewrite (run_act 1 _ _ w (hk_now w) w0) by done.
    set (next := Some (i64 (hk_now w + i64 (1000 * backoffSeconds (rp_Policy policy) (rp_DelaySeconds policy) (dl_Attempts x + 1))))).
    rewrite (Z.mul_comm _ 1000).
    pose proof (record_run w0 (dl_ID d) x DeliveryFailed (i32 <$> code) (Some text) next "store: mark failed" Hf Hx Hlt) as Hr.
    cbv zeta in Hr. change (default "" (Some text)) with text in Hr. destruct (utf8_valid text).
    + destruct Hr as (w1 & Hm & Htr & Hd). exists (log_call me (CMark (dl_ID d) DeliveryFailed true (hk_now w)) w1).
      split; [|split; [|exact Hd]].
      * apply run_last. cbn [dr_MarkFailed attempt_deliveries WebhookDeliveryRepoAdapter]. unfold logged, MarkFailed.
        fold next. by rewrite Hm.
      * rewrite <- Hp0. erewrite (posts_snoc w0 me); [|cbn; by rewrite Htr]. by rewrite app_nil_r.
    + destruct Hr as (e & w1 & Hm & Htr & Hd). exists e, (log_call me (CMark (dl_ID d) DeliveryFailed false (hk_now w)) w1).
      split; [|split; [|exact Hd]].
      * apply run_last. cbn [dr_MarkFailed attempt_deliveries WebhookDeliveryRepoAdapter]. unfold logged, MarkFailed.
        fold next. by rewrite Hm.
      * rewrite <- Hp0. erewrite (posts_snoc w0 me); [|cbn; by rewrite Htr]. by rewrite app_nil_r.
Qed.

(** The attempt reaches its endpoint: the webhook and the event load, the request
    builds, and the endpoint answers [reply]. *)
Record reaches (w : hooks) (d x : WebhookDelivery) (hook : Webhook) (body : bytes) (reply : goerr + Response) : Prop := {
  rc_ready : attemptable w d x;
  rc_hook : hook_of w (dl_WebhookID d) = inr hook;
  rc_event : exists evt, (GetEvent ExpandPayload (dl_EventID d) (hk_events w)).1 = inr evt /\ marshal_event evt = inr body;
  rc_url : parse_url (wh_URL hook) = None;
  rc_signed : wh_HMACSecret hook <> [] ->
    exists decrypt secret, decryptor = Some decrypt /\ decrypt (wh_HMACSecret hook) = inr secret;
  rc_reply : head (hk_replies w) = Some reply;
}.

(** The request of the webhook [hook] for the event [id]. *)
Definition request_for (hook : Webhook) (id : string) (body : bytes) (req : Request) : Prop :=
  rq_URL req = wh_URL hook /\ rq_Body req = body /\ rq_Header req !! HeaderRequestID = Some id /\
  (wh_HMACSecret hook <> [] -> exists decrypt secret, decryptor = Some decrypt /\
     decrypt (wh_HMACSecret hook) = inr secret /\ rq_Header req !! HeaderHMAC = Some (SignHMAC secret body)).

Lemma build_run w hook evt body :
  parse_url (wh_URL hook) = None ->
  (wh_HMACSecret hook <> [] -> exists decrypt secret, decryptor = Some decrypt /\ decrypt (wh_HMACSecret hook) = inr secret) ->
  exists req, request_for hook (re_ID evt) body req /\
    forall (B : Type) n (k : goerr + Request -> proc hooks B),
      run_alone (S n) true (ptry (buildRequest decryptor hook evt body) ≫= k) w =
      run_alone n true (k (inr req)) (log_call me (CClock (hk_now w)) w).
Proof.
  intros Hurl Hsec. unfold buildRequest. rewrite Hurl.
  set (h := protocol_headers evt (hk_now w) (custom_headers (default ∅ (wh_CustomHeaders hook)))).
  assert (Hid : h !! HeaderRequestID = Some (re_ID evt)) by apply protocol_request_id.
  assert (Hs : exists header, sign_request decryptor hook body h = inr header /\ header !! HeaderRequestID = Some (re_ID evt) /\
    (wh_HMACSecret hook <> [] -> exists decrypt secret, decryptor = Some decrypt /\
       decrypt (wh_HMACSecret hook) = inr secret /\ header !! HeaderHMAC = Some (SignHMAC secret body))).
  { destruct (is_nil (wh_HMACSecret hook)) eqn:Hnil.
    - exists h. unfold sign_request. rewrite Hnil. split; [done|]. split; [done|]. intros Hne. by destruct (wh_HMACSecret hook).
    - destruct Hsec as (decrypt & secret & Hd & Hdec); [by intros Hz; rewrite Hz in Hnil|].
      destruct (sign_request decryptor hook body h) as [e|header] eqn:Hsig.
      + unfold sign_request in Hsig. by rewrite Hnil, Hd, Hdec in Hsig.
      + exists header. split; [done|]. split; [by rewrite (signed_request_id _ _ _ _ _ Hsig)|]. intros _. exists decrypt, secret.
        split; [done|]. split; [done|]. unfold sign_request in Hsig. rewrite Hnil, Hd, Hdec in Hsig. injection Hsig as <-.
        unfold set_header at 1. rewrite lookup_insert_ne by by vm_compute. unfold set_header at 1.
        replace (CanonicalMIMEHeaderKey HeaderHMAC) with HeaderHMAC by by vm_compute. by rewrite lookup_insert_eq. }
  destruct Hs as (header & Hsig & Hid' & Hmac). exists (MkRequest (wh_URL hook) header body).
  split; [done|]. intros B n k. cbn. fold h. by rewrite Hsig.
Qed.

(** The attempt up to its request. *)
Lemma attempt_run w d x hook body reply :
  reaches w d x hook body reply ->
  exists req rest, request_for hook (dl_EventID d) body req /\ hk_replies w = reply :: rest /\
    run_alone 6 true (attempt d) w =
    run_alone 3 true (send_and_record d hook (dl_Attempts x + 1) req) (log_call me (CClock (hk_now w)) w).
Proof.
  intros [[Hft Hfe Hx [Hax Hlt]] Hhook (evt & Hevt & Hbody) Hurl Hsec Hreply].
  unfold Deliver. rewrite <- Hax in *. rewrite i64_id by (unfold in_i64; lia).
  rewrite (run_try 5 _ _ w (inr hook) w) by (rewrite <- Hhook; by apply get_run).
  destruct (event_run w (dl_EventID d) Hfe) as (r & Hr & Hr'). rewrite Hevt in Hr'. subst r.
  rewrite (run_try 4 _ _ w (inr evt) w) by exact Hr. rewrite Hbody.
  destruct (build_run w hook evt body Hurl Hsec) as (req & Hreq & Hrun). exists req.
  destruct (hk_replies w) as [|r0 rest] eqn:Hreps; [done|]. injection Hreply as ->. exists rest.
  assert (Hid : re_ID evt = dl_EventID d).
  { destruct (GetEvent ExpandPayload (dl_EventID d) (hk_events w)) as [r1 d1] eqn:Hg. cbn in Hevt. subst r1. by eapply GetEvent_id. }
  rewrite Hid in Hreq. split; [done|]. split; [done|]. by rewrite Hrun.
Qed.

(** The rest of it: the request is posted, and its reply recorded or refused. *)
Lemma send_run w d x hook body reply :
  reaches w d x hook body reply ->
  exists w' req, request_for hook (dl_EventID d) body req /\ posts w' = posts w ++ [req] /\
    if accepted reply || utf8_valid (reply_text reply) then
      run_alone 6 true (attempt d) w = Some (inr tt, w') /\
      deliveries w' = <[dl_ID d := after_reply (wh_RetryPolicy hook) (hk_now w) reply x]> (deliveries w)
    else (exists e, run_alone 6 true (attempt d) w = Some (inl e, w')) /\ deliveries w' = deliveries w.
Proof.
  intros Hr. destruct (attempt_run _ _ _ _ _ _ Hr) as (req & rest & Hreq & Hreps & Hrun). rewrite Hrun. clear Hrun.
  destruct Hr as [[Hft Hfe Hx [Hax Hlt]] _ _ _ _ _].
  set (w1 := log_call me (CClock (hk_now w)) w).
  set (w2 := log_call me (CPost req reply (hk_now w))
    (MkHooks (hk_db w) (hk_events w) (hk_now w) rest (hk_locked w) (hk_trace w1))).
  assert (Hp : posts w2 = posts w ++ [req]).
  { rewrite (posts_snoc w1 me (CPost req reply (hk_now w)) w2) by done. rewrite decide_True by done. f_equal.
    rewrite (posts_snoc w me (CClock (hk_now w)) w1) by done. by rewrite app_nil_r. }
  unfold send_and_record. rewrite (run_try 2 _ _ w1 reply w2); [|cbn; unfold logged, next_reply; cbn; by rewrite Hreps].
  assert (Hlt' : dl_Attempts x < 2 ^ 31 - 1) by lia.
  destruct reply as [e|resp]; cbn [accepted orb].
  - pose proof (fail_run w2 d x hook None ("http do: " +:+ error_text e) Hft Hx Hlt') as Hf. cbv zeta in Hf.
    change (reply_text (inl e)) with ("http do: " +:+ error_text e). destruct (utf8_valid _).
    + destruct Hf as (w' & Hrun & Hpw & Hd). exists w', req. rewrite Hrun, Hpw, Hp, Hd. done.
    + destruct Hf as (err & w' & Hrun & Hpw & Hd). exists w', req. rewrite Hrun, Hpw, Hp, Hd. eauto.
  - destruct (success_code (rs_StatusCode resp)) eqn:Hcode; cbn [orb].
    + pose proof (record_run w2 (dl_ID d) x DeliveryDelivered (Some (i32 (rs_StatusCode resp))) None None
        "store: mark delivered" Hft Hx Hlt') as (w3 & Hm & Htr & Hd).
      exists (log_call me (CMark (dl_ID d) DeliveryDelivered true (hk_now w)) w3), req. split; [done|]. split.
      * rewrite <- Hp. erewrite (posts_snoc w2 me); [|cbn; by rewrite Htr]. by rewrite app_nil_r.
      * split; [apply run_last; cbn; unfold logged, MarkDelivered; by rewrite Hm|].
        transitivity (deliveries w3); [done|]. rewrite Hd. unfold after_reply, accepted, reply_code. by rewrite Hcode.
    + pose proof (fail_run w2 d x hook (Some (rs_StatusCode resp)) (reply_error resp) Hft Hx Hlt') as Hf. cbv zeta in Hf.
      change (reply_text (inr resp)) with (reply_error resp). unfold after_reply, accepted, reply_code. rewrite Hcode.
      destruct (utf8_valid _).
      * destruct Hf as (w' & Hrun & Hpw & Hd). exists w', req. rewrite Hrun, Hpw, Hp, Hd. done.
      * destruct Hf as (err & w' & Hrun & Hpw & Hd). exists w', req. rewrite Hrun, Hpw, Hp, Hd. eauto.
Qed.

(** An attempt at a delivery whose webhook, event and request can be built, on a
    database that answers, posts exactly one request, the event's document under
    the webhook's signature and the event's id, and records what came of it: a 2xx
    reply delivers; any other outcome is dead when the webhook's attempts are
    spent, and otherwise due again after the policy's delay for this attempt. The
    webhook need not be active: a delivery enqueued before it was deactivated is
    still attempted. *)
Theorem attempt_outcome (w : hooks) (d x : WebhookDelivery) (hook : Webhook) (body : bytes) (reply : goerr + Response) :
  reaches w d x hook body reply -> accepted reply = true \/ utf8_valid (reply_text reply) = true ->
  exists w' req, run_alone 6 true (attempt d) w = Some (inr tt, w') /\
    request_for hook (dl_EventID d) body req /\ posts w' = posts w ++ [req] /\
    deliveries w' = <[dl_ID d := after_reply (wh_RetryPolicy hook) (hk_now w) reply x]> (deliveries w).
Proof.
  intros Hr Hok. destruct (send_run _ _ _ _ _ _ Hr) as (w' & req & Hreq & Hp & Hrest). exists w', req.
  replace (accepted reply || utf8_valid (reply_text reply)) with true in Hrest
    by (symmetry; apply orb_true_iff; tauto).
  tauto.
Qed.

(** A refusal whose text is not UTF-8, such as a binary error page, is
    never recorded: the attempt is posted, but the row keeps its status, its
    attempts and its lease, so the delivery is posted again when the lease ends
    and its attempts are never spent. *)
Theorem undecodable_refusal_is_not_recorded (w : hooks) (d x : WebhookDelivery) (hook : Webhook) (body : bytes)
  (reply : goerr + Response) :
  reaches w d x hook body reply -> accepted reply = false -> utf8_valid (reply_text reply) = false ->
  exists w' req err, run_alone 6 true (attempt d) w = Some (inl err, w') /\
    posts w' = posts w ++ [req] /\ deliveries w' = deliveries w.
Proof.
  intros Hr Ha Hu. destruct (send_run _ _ _ _ _ _ Hr) as (w' & req & _ & Hp & Hrest). rewrite Ha, Hu in Hrest.
  destruct Hrest as [[err Hrun] Hd]. exists w', req, err. done.
Qed.

(** A delivery whose webhook or event is gone is dead at once, and nothing is
    posted. *)
Theorem orphaned_delivery_is_dead (w : hooks) (d x : WebhookDelivery) :
  attemptable w d x -> utf8_valid ("webhook " +:+ dl_WebhookID d +:+ " not found") = true ->
  utf8_valid ("event " +:+ dl_EventID d +:+ " not found") = true ->
  ht_webhooks (hk_tables w) !! dl_WebhookID d = None \/
  (exists hook, hook_of w (dl_WebhookID d) = inr hook) /\ find_log (dl_EventID d) (rows (hk_events w)) = None ->
  exists w' text, run_alone 6 true (attempt d) w = Some (inr tt, w') /\ posts w' = posts w /\
    deliveries w' = <[dl_ID d := after_attempt x DeliveryDead None (Some text) None]> (deliveries w).
Proof.
  intros [Hft Hfe Hx [Hax Hlt]] Hu1 Hu2 Hgone. unfold Deliver. rewrite <- Hax in *. rewrite i64_id by (unfold in_i64; lia).
  assert (Hlt' : dl_Attempts x < 2 ^ 31 - 1) by lia.
  assert (Hdead : forall n text, utf8_valid text = true -> exists w',
    run_alone (S n) true (act (dr_MarkDead (dl_ID d) (dl_Attempts x + 1) None text)) w = Some (inr tt, w') /\ posts w' = posts w /\
    deliveries w' = <[dl_ID d := after_attempt x DeliveryDead None (Some text) None]> (deliveries w)).
  { intros n text Hu. pose proof (record_run w (dl_ID d) x DeliveryDead (i32 <$> None) (Some text) None "store: mark dead" Hft Hx Hlt') as Hr.
    cbv zeta in Hr. change (default "" (Some text)) with text in Hr. rewrite Hu in Hr. destruct Hr as (w1 & Hm & Htr & Hd).
    exists (log_call me (CMark (dl_ID d) DeliveryDead true (hk_now w)) w1).
    split; [apply run_last; cbn; unfold logged, MarkDead; by rewrite Hm|]. split; [|exact Hd].
    erewrite (posts_snoc w me); [|cbn; by rewrite Htr]. by rewrite app_nil_r. }
  destruct Hgone as [Hnone|[[hook Hhook] Hnone]].
  - rewrite (run_try 5 _ _ w (inl (ErrNotFound "webhook not found")) w)
      by (erewrite get_run by done; unfold hook_of; by rewrite Hnone).
    destruct (Hdead 4%nat _ Hu1) as (w' & Hrest). eexists w', _. exact Hrest.
  - rewrite (run_try 5 _ _ w (inr hook) w) by (rewrite <- Hhook; by apply get_run).
    destruct (event_run w (dl_EventID d) Hfe) as (r & Hr & Hr'). unfold GetEvent, GetByEventID, map_err, query, stmt in Hr'.
    unfold mbind, M_bind in Hr'. rewrite Hfe in Hr'. cbn in Hr'. rewrite Hnone in Hr'. cbn in Hr'. subst r.
    rewrite (run_try 4 _ _ w (inl (ErrNotFound "event not found")) w) by exact Hr.
    destruct (Hdead 3%nat _ Hu2) as (w' & Hrest). eexists w', _. exact Hrest.
Qed.
End Attempt.

(** ** One enqueue *)

Section Enqueues.
Context `{J : WebhookCodec}.
Variable me : nat.

#[local] Existing Instance WebhookRepoAdapter.
#[local] Instance enqueue_deliveries : WebhookDeliveryRepo hooks := WebhookDeliveryRepoAdapter me.
#[local] Existing Instance SystemClock.

(** What the enqueue of [evt] for some webhooks adds: only fresh deliveries of
    the event to subscribed webhooks, due at once, one per webhook. *)
Record enqueued (evt : RawEvent) (hs : list Webhook) (w w' : hooks) : Prop := {
  eq_calm : faults (hk_db w') = [];
  eq_wf : deliveries_wf (hk_tables w');
  eq_webhooks : ht_webhooks (hk_tables w') = ht_webhooks (hk_tables w);
  eq_now : hk_now w' = hk_now w;
  eq_kept id d : deliveries w !! id = Some d -> deliveries w' !! id = Some d;
  eq_reached h : h ∈ hs -> EventMatches (wh_Events h) (re_Type evt) = true ->
    exists id d, deliveries w' !! id = Some d /\ of_pair (wh_ID h) (re_ID evt) d = true;
  eq_new id d : deliveries w' !! id = Some d -> deliveries w !! id = None ->
    d = MkDelivery id (dl_WebhookID d) (re_ID evt) DeliveryPending 0 None (Some (hk_now w)) None (hk_now w) /\
    exists h, h ∈ hs /\ wh_ID h = dl_WebhookID d /\ EventMatches (wh_Events h) (re_Type evt) = true;
  eq_again : (forall h, h ∈ hs -> EventMatches (wh_Events h) (re_Type evt) = true ->
      exists id d, deliveries w !! id = Some d /\ of_pair (wh_ID h) (re_ID evt) d = true) ->
    deliveries w' = deliveries w;
}.

Lemma enqueued_nil evt w : faults (hk_db w) = [] -> deliveries_wf (hk_tables w) -> enqueued evt [] w w.
Proof.
  intros Hf Hw. split; try done; [by intros h Hh%not_elem_of_nil|]. intros id d Hd Hn. by rewrite Hn in Hd.
Qed.

Lemma enqueued_app evt hs hs' a b c : enqueued evt hs a b -> enqueued evt hs' b c -> enqueued evt (hs ++ hs') a c.
Proof.
  intros Hab Hbc. split.
  - apply Hbc.
  - apply Hbc.
  - rewrite (eq_webhooks _ _ _ _ Hbc). apply Hab.
  - rewrite (eq_now _ _ _ _ Hbc). apply Hab.
  - intros id d Hd. by apply (eq_kept _ _ _ _ Hbc), (eq_kept _ _ _ _ Hab).
  - intros h [Hh|Hh]%elem_of_app Hm.
    + destruct (eq_reached _ _ _ _ Hab h Hh Hm) as (id & d & Hd & Hp). exists id, d. split; [by apply (eq_kept _ _ _ _ Hbc)|done].
    + by apply (eq_reached _ _ _ _ Hbc).
  - intros id d Hd Hn. destruct (deliveries b !! id) as [db|] eqn:Hb.
    + pose proof (eq_kept _ _ _ _ Hbc _ _ Hb) as Hd'. rewrite Hd in Hd'. injection Hd' as <-.
      destruct (eq_new _ _ _ _ Hab _ _ Hb Hn) as (Heq & h & Hh & Hrest). split; [done|]. exists h. split; [apply elem_of_app; by left|done].
    + destruct (eq_new _ _ _ _ Hbc _ _ Hd Hb) as (Heq & h & Hh & Hrest). rewrite (eq_now _ _ _ _ Hab) in Heq.
      split; [done|]. exists h. split; [apply elem_of_app; by right|done].
  - intros Hall. assert (Hb : deliveries b = deliveries a).
    { apply (eq_again _ _ _ _ Hab). intros h Hh. apply Hall. apply elem_of_app. by left. }
    rewrite <- Hb. apply (eq_again _ _ _ _ Hbc). intros h Hh Hm. rewrite Hb. apply Hall; [|done]. apply elem_of_app. by right.
Qed.

Lemma exists_terminal_run w webhookID eventID :
  faults (hk_db w) = [] -> dr_ExistsTerminal webhookID eventID w = (inr (terminal_exists webhookID eventID (hk_tables w)), w).
Proof.
  intros Hf. destruct w as [[t fs] ev now rs lk tr]. cbn in Hf. by subst fs.
Qed.

(** A terminal delivery is a delivery. *)
Lemma terminal_exists_row t webhookID eventID :
  deliveries_wf t -> terminal_exists webhookID eventID t = true ->
  exists id d, ht_deliveries t !! id = Some d /\ of_pair webhookID eventID d = true.
Proof.
  intros Hw (d & Hd & Hp)%existsb_exists. to_prop. apply list_elem_of_In, (elem_of_delivery_rows _ _ Hw) in Hd. eauto.
Qed.

Lemma create_run w webhookID eventID :
  faults (hk_db w) = [] -> deliveries_wf (hk_tables w) ->
  exists w', dr_Create (MkDelivery 0 webhookID eventID DeliveryPending 0 None (Some (hk_now w)) None (hk_now w)) w = (inr tt, w') /\
    faults (hk_db w') = [] /\ hk_now w' = hk_now w /\
    exists n, (n, hk_tables w') = insert_delivery webhookID eventID (hk_now w) (hk_now w) (hk_tables w).
Proof.
  intros Hf Hw. destruct w as [[t fs] ev now rs lk tr]. cbn in Hf. subst fs. cbn.
  unfold on_tables, CreateDelivery, EnqueueDelivery, exec, map_err, stmt, mbind, M_bind, mret, M_ret. cbn.
  unfold hk_tables. cbn. destruct (insert_delivery webhookID eventID now now t) as [n t'] eqn:Hi.
  eexists. split; [done|]. split; [done|]. split; [done|]. by exists n.
Qed.

Lemma insert_delivery_new webhookID eventID next created t n t' :
  deliveries_wf t -> insert_delivery webhookID eventID next created t = (n, t') ->
  (forall id d, ht_deliveries t' !! id = Some d -> ht_deliveries t !! id = None ->
     d = MkDelivery id webhookID eventID DeliveryPending 0 None (Some next) None created) /\
  ((exists id d, ht_deliveries t !! id = Some d /\ of_pair webhookID eventID d = true) ->
     ht_deliveries t' = ht_deliveries t).
Proof.
  intros Hw. unfold insert_delivery. destruct (filter _ (delivery_rows t)) as [|d0 l] eqn:Hf; intros [= <- <-]; cbn; split.
  - intros id d. rewrite lookup_insert_Some. intros [[<- <-]|[_ Hd]] Hn; [done|by rewrite Hn in Hd].
  - intros (id & d & Hd & Hp). exfalso.
    assert (Hin : d ∈ filter (fun d => of_pair webhookID eventID d = true) (delivery_rows t)); [|rewrite Hf in Hin; by apply not_elem_of_nil in Hin].
    apply list_elem_of_filter. split; [done|]. apply elem_of_delivery_rows; [done|]. by destruct (dw_key _ Hw _ _ Hd) as [-> _].
  - intros id d Hd Hn. by rewrite Hn in Hd.
  - done.
Qed.

(** One webhook, in at most two actions. *)
Lemma hook_run {B} evt h w (k : bool * option goerr -> proc hooks B) fuel :
  faults (hk_db w) = [] -> deliveries_wf (hk_tables w) ->
  exists b j w', (j <= 2)%nat /\ enqueued evt [h] w w' /\
    run_alone (2 + fuel) true (enqueue_hook (hk_now w) evt h ≫= k) w = run_alone (2 + fuel - j) true (k (b, None)) w'.
Proof.
  intros Hf Hw. unfold enqueue_hook. destruct (EventMatches (wh_Events h) (re_Type evt)) eqn:Hm; cbn [negb].
  2:{ exists false, 0%nat, w. split; [lia|]. split; [|by rewrite Nat.sub_0_r].
      destruct (enqueued_nil evt w Hf Hw). split; try done; [by intros h' ->%list_elem_of_singleton; rewrite Hm|].
      intros id d Hd Hn. by rewrite Hn in Hd. }
  pose proof (exists_terminal_run w (wh_ID h) (re_ID evt) Hf) as Ht.
  destruct (terminal_exists (wh_ID h) (re_ID evt) (hk_tables w)) eqn:Hterm.
  - exists false, 1%nat, w. split; [lia|]. split.
    + pose proof (terminal_exists_row _ _ _ Hw Hterm) as Hrow. destruct (enqueued_nil evt w Hf Hw). split; try done.
      * by intros h' ->%list_elem_of_singleton _.
      * intros id d Hd Hn. by rewrite Hn in Hd.
    + change (2 + fuel)%nat with (S (S fuel)). replace (S (S fuel) - 1)%nat with (S fuel) by lia.
      cbn -[dr_ExistsTerminal]. rewrite Ht. done.
  - destruct (create_run w (wh_ID h) (re_ID evt) Hf Hw) as (w1 & Hrun & Hf1 & Hn1 & n & Hins). symmetry in Hins.
    exists true, 2%nat, w1. split; [lia|]. split.
    + destruct (insert_delivery_spec _ _ _ _ _ _ _ Hw Hins) as (Hw1 & _ & Hkept & (d & Hd & Hp) & Hwh).
      destruct (insert_delivery_new _ _ _ _ _ _ _ Hw Hins) as [Hnew Hsame]. split; try done.
      * intros h' ->%list_elem_of_singleton _. by exists n, d.
      * intros id x Hx Hnone. rewrite (Hnew id x Hx Hnone). split; [done|]. exists h. split; [by apply list_elem_of_singleton|done].
      * intros Hall. apply Hsame, Hall; [by apply list_elem_of_singleton|done].
    + change (2 + fuel)%nat with (S (S fuel)). replace (S (S fuel) - 2)%nat with fuel by lia.
      cbn -[dr_ExistsTerminal dr_Create]. rewrite Ht. cbn -[dr_Create]. rewrite Hrun. by destruct fuel.
Qed.

Lemma loop_run evt hs : forall w created fuel,
  faults (hk_db w) = [] -> deliveries_wf (hk_tables w) -> (2 * length hs <= fuel)%nat ->
  exists n w', enqueued evt hs w w' /\
    run_alone fuel true (enqueue_loop (hk_now w) evt hs created None) w = Some (inr (n, None), w').
Proof.
  induction hs as [|h hs IH]; intros w created fuel Hf Hw Hfuel; cbn [enqueue_loop].
  - exists created, w. split; [by apply enqueued_nil|]. by destruct fuel.
  - cbn [length] in Hfuel. destruct fuel as [|[|fuel]]; [lia..|].
    destruct (hook_run evt h w (fun r => enqueue_loop (hk_now w) evt hs (if r.1 : bool then created + 1 else created)
      (errors_join None r.2)) fuel Hf Hw) as (b & j & w1 & Hj & He & Hrun).
    change (S (S fuel)) with (2 + fuel)%nat. rewrite Hrun. cbn [fst snd errors_join].
    rewrite <- (eq_now _ _ _ _ He).
    destruct (IH w1 (if b then created + 1 else created) (2 + fuel - j)%nat) as (n & w' & He' & Hrun').
    + apply He.
    + apply He.
    + lia.
    + exists n, w'. split; [|exact Hrun']. by apply (enqueued_app evt [h] hs w w1 w').
Qed.

(** The active webhooks whose scope covers the event. *)
Definition subscribers (evt : RawEvent) (t : htables) : list (string * WebhookRow) :=
  select_webhooks (active_for (re_Organization evt) (re_Session evt)) t.

Lemma elem_of_subscribers evt t id row :
  (id, row) ∈ subscribers evt t <->
  ht_webhooks t !! id = Some row /\ active_for (re_Organization evt) (re_Session evt) row = true.
Proof.
  unfold subscribers, select_webhooks. rewrite merge_sort_Permutation, list_elem_of_filter, elem_of_map_to_list. cbn. tauto.
Qed.

Lemma webhooks_of_rows_elem l hs : webhooks_of_rows l = inr hs ->
  forall h, h ∈ hs <-> exists id row, (id, row) ∈ l /\ webhookFromRow id row = inr h.
Proof.
  revert hs. induction l as [|[id row] l IH]; intros hs; cbn.
  - intros [= <-] h. split; [by intros Hh%not_elem_of_nil|]. by intros (id & row & Hin%not_elem_of_nil & _).
  - destruct (webhookFromRow id row) as [e|w] eqn:Hw; [done|]. destruct (webhooks_of_rows l) as [e|ws]; [done|].
    intros [= <-] h. rewrite elem_of_cons, (IH ws eq_refl). split.
    + intros [->|(id' & row' & Hin & Heq)]; [exists id, row; split; [left|done]|exists id', row'; split; [by right|done]].
    + intros (id' & row' & [[= -> ->]|Hin]%elem_of_cons & Heq); [left; congruence|right; eauto].
Qed.

Lemma enqueue_run evt w hs fuel :
  faults (hk_db w) = [] -> deliveries_wf (hk_tables w) -> webhooks_of_rows (subscribers evt (hk_tables w)) = inr hs ->
  (2 + 2 * length hs <= fuel)%nat ->
  exists n w', enqueued evt (filter (fun h => EventMatches (wh_Events h) (re_Type evt) = true) hs) w w' /\
    run_alone fuel true (Enqueue evt) w = Some (inr (n, None), w').
Proof.
  intros Hf Hw Hhs Hfuel. destruct fuel as [|[|fuel]]; [lia..|].
  set (hs' := filter (fun h => EventMatches (wh_Events h) (re_Type evt) = true) hs).
  assert (Hlist : wr_ListMatching (re_Organization evt) (re_Session evt) (re_Type evt) w = (inr hs', w)).
  { destruct w as [[t fs] ev now rs lk tr]. cbn in Hf. subst fs. cbn. unfold on_tables, ListMatching, ListActiveForEvent.
    unfold query, map_err, stmt, mbind, M_bind, mret, M_ret, lift_result. cbn. unfold subscribers, hk_tables in Hhs. cbn in Hhs.
    by rewrite Hhs. }
  destruct (loop_run evt hs' w 0 fuel Hf Hw) as (n & w' & He & Hrun).
  { assert (length hs' <= length hs)%nat by apply length_filter. lia. }
  exists n, w'. split; [exact He|]. unfold Enqueue. rewrite (run_try (S fuel) _ _ w (inr hs') w Hlist). by rewrite (run_act fuel _ _ w (hk_now w) w).
Qed.

(** An enqueue that finds its database working leaves a delivery of the
    event for every active webhook of the organization whose scope and
    subscriptions cover it, adds nothing else, changes no existing delivery, and
    adds nothing when it is repeated. *)
Theorem enqueue_reaches_every_subscriber (evt : RawEvent) (w : hooks) (hs : list Webhook) :
  faults (hk_db w) = [] -> deliveries_wf (hk_tables w) -> webhooks_of_rows (subscribers evt (hk_tables w)) = inr hs ->
  let fuel := (2 + 2 * length hs)%nat in
  exists n w', run_alone fuel true (Enqueue evt) w = Some (inr (n, None), w') /\
    (forall id d, deliveries w !! id = Some d -> deliveries w' !! id = Some d) /\
    (forall id row h, ht_webhooks (hk_tables w) !! id = Some row ->
       active_for (re_Organization evt) (re_Session evt) row = true -> webhookFromRow id row = inr h ->
       EventMatches (wh_Events h) (re_Type evt) = true ->
       exists did d, deliveries w' !! did = Some d /\ dl_WebhookID d = id /\ dl_EventID d = re_ID evt) /\
    (forall id d, deliveries w' !! id = Some d -> deliveries w !! id = None ->
       d = MkDelivery id (dl_WebhookID d) (re_ID evt) DeliveryPending 0 None (Some (hk_now w)) None (hk_now w) /\
       exists row h, ht_webhooks (hk_tables w) !! dl_WebhookID d = Some row /\
         active_for (re_Organization evt) (re_Session evt) row = true /\ webhookFromRow (dl_WebhookID d) row = inr h /\
         EventMatches (wh_Events h) (re_Type evt) = true) /\
    (exists n' w'', run_alone fuel true (Enqueue evt) w' = Some (inr (n', None), w'') /\ deliveries w'' = deliveries w').
Proof.
  intros Hf Hw Hhs fuel. pose proof (webhooks_of_rows_elem _ _ Hhs) as Helem.
  assert (Hid : forall id row h, webhookFromRow id row = inr h -> wh_ID h = id).
  { intros id row h. unfold webhookFromRow. do 3 (destruct (scan_column _ _ _ _); [done|]). by intros [= <-]. }
  destruct (enqueue_run evt w hs fuel Hf Hw Hhs (le_n _)) as (n & w' & He & Hrun). exists n, w'.
  split; [exact Hrun|]. split; [apply He|]. split; [|split].
  - intros id row h Hrow Hact Hdec Hm. destruct (eq_reached _ _ _ _ He h) as (did & d & Hd & Hp); [|done|].
    + apply list_elem_of_filter. split; [done|]. apply Helem. exists id, row. split; [by apply elem_of_subscribers|done].
    + unfold of_pair in Hp. to_prop. exists did, d. split; [done|]. rewrite <- (Hid _ _ _ Hdec). done.
  - intros id d Hd Hn. destruct (eq_new _ _ _ _ He _ _ Hd Hn) as (Heq & h & [Hm Hh]%list_elem_of_filter & Hwid & _).
    split; [done|]. apply Helem in Hh as (id' & row & [Hrow Hact]%elem_of_subscribers & Hdec).
    rewrite <- Hwid, (Hid _ _ _ Hdec). by exists row, h.
  - assert (Hhs' : webhooks_of_rows (subscribers evt (hk_tables w')) = inr hs).
    { unfold subscribers, select_webhooks. by rewrite (eq_webhooks _ _ _ _ He). }
    destruct (enqueue_run evt w' hs fuel (eq_calm _ _ _ _ He) (eq_wf _ _ _ _ He) Hhs' (le_n _)) as (n' & w'' & He' & Hrun').
    exists n', w''. split; [exact Hrun'|]. apply (eq_again _ _ _ _ He'). apply He.
Qed.
End Enqueues.

(** ** The retry schedule *)

(** A constant policy waits its base delay; the exponential one doubles it
    with every attempt until the thirty-first and is then constant, never
    shorter than the base; all this while the largest delay fits an [int64].
    A base delay of 2^33 seconds no longer does: its thirty-first retry is due
    in the past, at once. *)
Theorem backoff_schedule (policy : string) (delaySeconds attempt : Z) :
  (policy <> "exponential" -> backoffSeconds policy delaySeconds attempt =
     if delaySeconds <=? 0 then DefaultDelaySeconds else delaySeconds) /\
  (0 < delaySeconds < 2 ^ 33 -> 1 <= attempt ->
     backoffSeconds "exponential" delaySeconds attempt = delaySeconds * 2 ^ Z.min (attempt - 1) maxBackoffShift /\
     delaySeconds <= backoffSeconds "exponential" delaySeconds attempt < 2 ^ 63 /\
     backoffSeconds "exponential" delaySeconds attempt <= backoffSeconds "exponential" delaySeconds (attempt + 1) /\
     (attempt <= 30 -> backoffSeconds "exponential" delaySeconds (attempt + 1) =
        2 * backoffSeconds "exponential" delaySeconds attempt)) /\
  backoffSeconds "exponential" (2 ^ 33) 31 < 0.
Proof.
  assert (Hexp : forall delay n, 0 < delay < 2 ^ 33 -> 1 <= n ->
    backoffSeconds "exponential" delay n = delay * 2 ^ Z.min (n - 1) maxBackoffShift).
  { intros delay n Hd Hn. unfold backoffSeconds, maxBackoffShift. rewrite bool_decide_true by done. cbn [negb].
    replace (delay <=? 0) with false by (symmetry; apply Z.leb_gt; lia).
    replace (n <? 1) with false by (symmetry; apply Z.ltb_ge; lia).
    replace (if 30 <? n - 1 then 30 else n - 1) with (Z.min (n - 1) 30)
      by (destruct (30 <? n - 1) eqn:?; to_prop; lia).
    rewrite Z.shiftl_1_l. apply i64_id.
    assert (0 < 2 ^ Z.min (n - 1) 30 <= 2 ^ 30) by (split; [apply Z.pow_pos_nonneg; lia|apply Z.pow_le_mono_r; lia]).
    unfold in_i64. nia. }
  split; [|split].
  - intros Hp. unfold backoffSeconds. by rewrite bool_decide_false.
  - intros Hd Ha. rewrite !Hexp by lia. unfold maxBackoffShift.
    set (k := Z.min (attempt - 1) 30).
    assert (Hk : 0 < 2 ^ k <= 2 ^ 30) by (split; [apply Z.pow_pos_nonneg; lia|apply Z.pow_le_mono_r; lia]).
    split; [done|]. split; [nia|]. split.
    + apply Z.mul_le_mono_nonneg_l; [lia|]. apply Z.pow_le_mono_r; lia.
    + intros Hle. replace (Z.min (attempt + 1 - 1) 30) with (Z.succ k) by lia. rewrite Z.pow_succ_r by lia. lia.
  - vm_compute. done.
Qed.

(** ** The CRUD service *)

Section Crud.
Context `{DB : MySQL} `{J : WebhookCodec} (sv : WebhookService).

(** The requests of one organization. *)
Inductive hook_request :=
  | RCreate (newID : string) (now : Z) (input : WebhookInput)
  | RList
  | RGet (id : string)
  | RUpdate (now : Z) (id : string) (input : WebhookInput)
  | RDelete (id : string).

Definition serve_request (organizationID : string) (q : hook_request) : M (db htables) (list Webhook) :=
  match q with
  | RCreate newID now input => w ← ServiceCreate sv newID now organizationID input; mret [w]
  | RList => ServiceList organizationID
  | RGet id => w ← ServiceGet organizationID id; mret [w]
  | RUpdate now id input => w ← ServiceUpdate sv now organizationID id input; mret [w]
  | RDelete id => ServiceDelete organizationID id;; mret []
  end.

(** What a request may do to the tables. *)
Record only_own (organizationID : string) (t t' : htables) : Prop := {
  oo_others id row : wr_OrganizationID row <> organizationID ->
    ht_webhooks t !! id = Some row <-> ht_webhooks t' !! id = Some row;
  oo_deliveries : ht_deliveries t' = ht_deliveries t /\ ht_next t' = ht_next t;
}.

#[local] Instance only_own_preorder org : PreOrder (only_own org).
Proof.
  split; [by intros t; split|]. intros a b c [Ho1 [Hd1 Hn1]] [Ho2 [Hd2 Hn2]]. split; [|split; congruence].
  intros id row Hr. rewrite (Ho1 id row Hr). by apply Ho2.
Qed.

Lemma GetWebhook_returns id d w d' :
  GetWebhook id d = (inr w, d') ->
  rows d' = rows d /\ wh_ID w = id /\ exists row, ht_webhooks (rows d) !! id = Some row /\
    webhookFromRow id row = inr w /\ wr_OrganizationID row = wh_OrganizationID w.
Proof.
  unfold GetWebhook. intros Hrun. run_inv. case_match; simplify_eq/=.
  unfold lift_result in *. simplify_eq/=. split; [done|].
  match goal with H : webhookFromRow id ?r = inr w |- _ => rename H into Hw; rename r into row end.
  pose proof Hw as Hw'. unfold webhookFromRow in Hw'. do 3 (destruct (scan_column _ _ _ _); [done|]). injection Hw' as <-.
  split; [done|]. by exists row.
Qed.

Lemma ServiceGet_returns org id d w d' :
  ServiceGet org id d = (inr w, d') ->
  rows d' = rows d /\ wh_ID w = id /\ wh_OrganizationID w = org /\
  exists row, ht_webhooks (rows d) !! id = Some row /\ wr_OrganizationID row = org.
Proof.
  unfold ServiceGet. intros Hrun. run_inv.
  match goal with H : GetWebhook _ _ = _ |- _ => apply GetWebhook_returns in H as (Hr & Hid & row & Hrow & Hdec & Horg) end.
  case_bool_decide as Ho; run_inv. rewrite Hr in *. split; [done|]. split; [done|]. split; [done|]. exists row. split; [done|congruence].
Qed.

Lemma ServiceGet_reads org id : respects (on_rows eq) (ServiceGet org id).
Proof.
  unfold ServiceGet, GetWebhook. apply respects_bind; [apply _|apply respects_bind; [apply _| |]|].
  - apply respects_map_err, respects_stmt; [apply _|]. intros t. by destruct (ht_webhooks t !! id).
  - intros row. apply respects_lift, _.
  - intros w. case_bool_decide; [apply respects_ret, _|apply respects_throw, _].
Qed.

Lemma only_own_set org t id row row' :
  ht_webhooks t !! id = Some row -> wr_OrganizationID row = org -> wr_OrganizationID row' = org ->
  only_own org t (with_webhooks (<[id := row']> (ht_webhooks t)) t).
Proof.
  intros Hrow Ho Ho'. split; [|done]. intros i x Hx. cbn. rewrite lookup_insert_Some. split.
  - intros Hi. right. split; [|done]. intros ->. rewrite Hrow in Hi. injection Hi as ->. by destruct Hx.
  - intros [[-> ->]|[_ Hi]]; [by destruct Hx|done].
Qed.

Lemma UpdateWebhook_own org w d r d' :
  (exists row, ht_webhooks (rows d) !! wh_ID w = Some row /\ wr_OrganizationID row = org) ->
  UpdateWebhook w d = (r, d') -> only_own org (rows d) (rows d').
Proof.
  intros (row & Hrow & Ho). unfold UpdateWebhook, map_err, stmt, mbind, M_bind, lift_result, affected, rowsAffectedOrNotFound.
  destruct (webhookJSON w) as [e|columns]; [by intros [= <- <-]|].
  destruct (head (faults d)) as [[e|]|]; [by intros [= <- <-]| |];
    unfold update_webhook; destruct (stored_columns columns) as [[[ev ch] rp]|]; try (by intros [= <- <-]);
    rewrite Hrow; cbn; intros [= <- <-]; by eapply only_own_set.
Qed.

Lemma CreateWebhook_own w d r d' :
  CreateWebhook w d = (r, d') -> only_own (wh_OrganizationID w) (rows d) (rows d').
Proof.
  unfold CreateWebhook, map_err, stmt, mbind, M_bind, lift_result.
  destruct (webhookJSON w) as [e|columns]; [by intros [= <- <-]|].
  destruct (head (faults d)) as [[e|]|]; [by intros [= <- <-]| |];
    unfold insert_webhook; destruct (stored_columns columns) as [[[ev ch] rp]|]; try (by intros [= <- <-]);
    (destruct (ht_webhooks (rows d) !! wh_ID w) as [row|] eqn:Hrow; [by intros [= <- <-]|]; intros [= <- <-]; split; [|done];
     intros i x Hx; cbn; rewrite lookup_insert_Some; split;
     [intros Hi; right; split; [intros <-; by rewrite Hrow in Hi|done]|intros [[<- <-]|[_ Hi]]; [by destruct Hx|done]]).
Qed.

Lemma DeleteWebhook_own org id d r d' :
  (exists row, ht_webhooks (rows d) !! id = Some row /\ wr_OrganizationID row = org) ->
  DeleteWebhook id d = (r, d') -> only_own org (rows d) (rows d').
Proof.
  intros (row & Hrow & Ho). unfold DeleteWebhook, map_err, exec, stmt, mbind, M_bind, affected, rowsAffectedOrNotFound.
  destruct (head (faults d)) as [[e|]|]; [by intros [= <- <-]| |]; unfold delete_webhook; rewrite Hrow; cbn; intros [= <- <-];
    (split; [|done]; intros i x Hx; cbn; rewrite lookup_delete_Some; split; [|tauto];
     intros Hi; split; [|done]; intros <-; rewrite Hrow in Hi; injection Hi as ->; by destruct Hx).
Qed.

Lemma rows_of_org org l ws :
  (forall p, p ∈ l -> wr_OrganizationID p.2 = org) -> webhooks_of_rows l = inr ws -> Forall (fun w => wh_OrganizationID w = org) ws.
Proof.
  intros Hl Hws. apply Forall_forall. intros w (id & row & Hin & Hdec)%(webhooks_of_rows_elem _ _ Hws).
  rewrite <- (Hl _ Hin). unfold webhookFromRow in Hdec. do 3 (destruct (scan_column _ _ _ _); [done|]). by injection Hdec as <-.
Qed.

(** Run what comes first. *)
Lemma bind_cases {W A B} (m : M W A) (k : A -> M W B) w r w' :
  (m ≫= k) w = (r, w') ->
  (exists e, m w = (inl e, w') /\ r = inl e) \/ exists a w1, m w = (inr a, w1) /\ k a w1 = (r, w').
Proof.
  unfold mbind, M_bind. destruct (m w) as [[e|a] w1]; [intros [= <- <-]; left; eauto|right; eauto].
Qed.

(** The secret a request sets does not change whose webhook it is. *)
Definition same_owner (w0 : Webhook) (r : goerr + Webhook) : Prop :=
  forall w, r = inr w -> wh_ID w = wh_ID w0 /\ wh_OrganizationID w = wh_OrganizationID w0.

Lemma created_secret_step input w0 d r d' :
  created_secret sv input w0 d = (r, d') -> d' = d /\ same_owner w0 r.
Proof.
  unfold created_secret, same_owner, mbind, M_bind, lift_result. destruct input as [secret|]; [case_bool_decide|].
  2: destruct (encryptSecret sv secret).
  all: intros [= <- <-]; split; [done|]; by intros w [= <-].
Qed.

Lemma updated_secret_step input w0 d r d' :
  updated_secret sv input w0 d = (r, d') -> d' = d /\ same_owner w0 r.
Proof.
  unfold updated_secret, same_owner, mbind, M_bind, lift_result. destruct input as [secret|]; [case_bool_decide|].
  2: destruct (encryptSecret sv secret).
  all: intros [= <- <-]; split; [done|]; by intros w [= <-].
Qed.

Lemma create_own newID now org input d r d' :
  ServiceCreate sv newID now org input d = (r, d') ->
  only_own org (rows d) (rows d') /\ forall w, r = inr w -> wh_OrganizationID w = org.
Proof.
  unfold ServiceCreate. case_bool_decide; [by intros [= <- <-]|]. destruct (is_nil _); [by intros [= <- <-]|].
  intros Hrun. apply bind_cases in Hrun as [(e & Hs & ->)|(w & d1 & Hs & Hrun)]; apply created_secret_step in Hs as [-> Hw];
    [by split|]. destruct (Hw w eq_refl) as [_ Ho]. cbn in Ho.
  apply bind_cases in Hrun as [(e & Hc & ->)|([] & d1 & Hc & [= <- <-])]; apply CreateWebhook_own in Hc; rewrite Ho in Hc;
    (split; [done|]); [by intros w'|by intros w' [= <-]].
Qed.

Lemma update_own now org id input d r d' :
  ServiceUpdate sv now org id input d = (r, d') ->
  only_own org (rows d) (rows d') /\ forall w, r = inr w -> wh_OrganizationID w = org.
Proof.
  unfold ServiceUpdate. intros Hrun. apply bind_cases in Hrun as [(e & Hg & ->)|(w0 & d1 & Hg & Hrun)].
  { apply ServiceGet_reads in Hg. rewrite Hg. by split. }
  apply ServiceGet_returns in Hg as (Hr & Hid & Horg & Hrow). rewrite <- Hr in *. clear Hr.
  apply bind_cases in Hrun as [(e & Hs & ->)|(w & d2 & Hs & Hrun)]; apply updated_secret_step in Hs as [-> Hw];
    [by split|]. destruct (Hw w eq_refl) as [Hi Ho]. cbn in Hi, Ho.
  apply bind_cases in Hrun as [(e & Hc & ->)|([] & d2 & Hc & [= <- <-])];
    (eapply UpdateWebhook_own in Hc; [|rewrite Hi, Hid; exact Hrow]; split; [done|]); [by intros w'|].
  intros w' [= <-]. congruence.
Qed.

(** Whatever an organization asks for and however it ends, the webhooks of
    other organizations and all deliveries stay exactly as they are, and every
    webhook it gets back is its own. *)
Theorem webhooks_are_isolated (org : string) (q : hook_request) (d d' : db htables) (r : goerr + list Webhook) :
  serve_request org q d = (r, d') ->
  (forall id row, wr_OrganizationID row <> org ->
     ht_webhooks (rows d) !! id = Some row <-> ht_webhooks (rows d') !! id = Some row) /\
  ht_deliveries (rows d') = ht_deliveries (rows d) /\
  (forall ws, r = inr ws -> Forall (fun w => wh_OrganizationID w = org) ws).
Proof.
  intros Hrun. enough (only_own org (rows d) (rows d') /\ forall ws, r = inr ws -> Forall (fun w => wh_OrganizationID w = org) ws)
    as [[Ho [Hd _]] Hws]; [done|].
  destruct q as [newID now input| |id|now id input|id]; cbn [serve_request] in Hrun.
  - apply bind_cases in Hrun as [(e & Hc & ->)|(w & d1 & Hc & [= <- <-])].
    + split; [|by intros ws]. by eapply create_own in Hc as [Hc _].
    + apply create_own in Hc as [Hc Hw]. split; [done|]. intros ws [= <-]. apply Forall_singleton. by apply Hw.
  - unfold ServiceList, ListByOrg in Hrun. apply bind_cases in Hrun as [(e & Hc & ->)|(l & d1 & Hc & Hl)].
    + split; [|by intros ws]. apply (respects_map_err (on_rows eq)) in Hc; [by rewrite Hc|apply respects_query, _].
    + injection Hl as <- <-. apply map_err_returns, query_returns in Hc as [-> Hc]. rewrite Hc. split; [done|]. intros ws Hws.
      eapply rows_of_org; [|exact Hws]. intros p Hp. unfold select_webhooks in Hp. rewrite merge_sort_Permutation in Hp.
      apply list_elem_of_filter in Hp as [Hp _]. by to_prop.
  - apply bind_cases in Hrun as [(e & Hc & ->)|(w & d1 & Hc & [= <- <-])].
    + split; [|by intros ws]. apply ServiceGet_reads in Hc. by rewrite Hc.
    + apply ServiceGet_returns in Hc as (Hr & _ & Ho & _). rewrite Hr. split; [done|]. intros ws [= <-]. by apply Forall_singleton.
  - apply bind_cases in Hrun as [(e & Hc & ->)|(w & d1 & Hc & [= <- <-])].
    + split; [|by intros ws]. by eapply update_own in Hc as [Hc _].
    + apply update_own in Hc as [Hc Hw]. split; [done|]. intros ws [= <-]. apply Forall_singleton. by apply Hw.
  - unfold ServiceDelete in Hrun. apply bind_cases in Hrun as [(e & Hc & ->)|([] & d1 & Hc & [= <- <-])].
    + split; [|by intros ws]. apply bind_cases in Hc as [(e' & Hg & _)|(w & d1 & Hg & Hdel)].
      * apply ServiceGet_reads in Hg. by rewrite Hg.
      * apply ServiceGet_returns in Hg as (Hr & _ & _ & Hrow). rewrite <- Hr in *. by eapply DeleteWebhook_own.
    + split; [|by intros ws [= <-]]. apply bind_cases in Hc as [(e' & Hg & [=])|(w & d2 & Hg & Hdel)].
      apply ServiceGet_returns in Hg as (Hr & _ & _ & Hrow). rewrite <- Hr in *. by eapply DeleteWebhook_own.
Qed.
End Crud.

(** ** Storage of a webhook *)

(** What [encoding/json] and a JSON column keep: strings of valid UTF-8. *)
Class WebhookCodecLaws `{DB : MySQL} (J : WebhookCodec) : Prop := {
  strings_kept l : forallb utf8_valid l = true ->
    exists b c, marshal_strings l = inr b /\ json_column b = Some c /\ c <> [] /\ unmarshal_strings c = inr l;
  headers_kept h : forallb (fun p => utf8_valid p.1 && utf8_valid p.2) (map_to_list h) = true ->
    exists b c, marshal_headers h = inr b /\ b <> [] /\ json_column b = Some c /\ c <> [] /\
      unmarshal_headers c = inr (Some h);
  policy_kept p : utf8_valid (rp_Policy p) = true ->
    exists b c, marshal_policy p = inr b /\ json_column b = Some c /\ c <> [] /\ unmarshal_policy c = inr p;
}.

Section RoundTrip.
Context `{DB : MySQL} `{J : WebhookCodec} `{L : !WebhookCodecLaws J}.

Definition storable (w : Webhook) : Prop :=
  forallb utf8_valid (wh_Events w) = true /\ utf8_valid (rp_Policy (wh_RetryPolicy w)) = true /\
  forallb (fun p => utf8_valid p.1 && utf8_valid p.2) (map_to_list (default ∅ (wh_CustomHeaders w))) = true.

Lemma scan_kept {A} table (decode : bytes -> goerr + A) zero c a :
  c <> [] -> decode c = inr a -> scan_column table decode zero c = inr a.
Proof. intros Hc Hd. unfold scan_column. destruct c; [done|]. cbn. by rewrite Hd. Qed.

(** The columns of a storable webhook read back as the webhook. *)
Lemma columns_kept w :
  storable w -> exists columns ev ch rp, webhookJSON w = inr columns /\ stored_columns columns = Some (ev, ch, rp) /\
    forall created, webhookFromRow (wh_ID w) (MkWebhookRow (wh_OrganizationID w) (wh_SessionID w) (wh_URL w) ev
      (wh_HMACSecret w) ch rp (wh_Active w) created (wh_UpdatedAt w)) =
    inr (MkWebhook (wh_ID w) (wh_OrganizationID w) (wh_SessionID w) (wh_URL w) (wh_Events w) (wh_HMACSecret w)
           (wh_CustomHeaders w) (wh_RetryPolicy w) (wh_Active w) created (wh_UpdatedAt w)).
Proof.
  intros (Hev & Hpol & Hh). destruct (strings_kept _ Hev) as (be & ce & Hme & Hce & Hne & Hue).
  destruct (policy_kept _ Hpol) as (bp & cp & Hmp & Hcp & Hnp & Hup). unfold webhookJSON, webhookFromRow. rewrite Hme, Hmp.
  destruct (wh_CustomHeaders w) as [h|] eqn:Hhd.
  - destruct (headers_kept h Hh) as (bh & ch & Hmh & Hnb & Hch & Hnh & Huh). rewrite Hmh.
    exists (be, bh, bp), ce, (Some ch), cp. split; [done|]. split.
    + unfold stored_columns, nullableJSON. rewrite Hce. cbn. destruct bh; [done|]. cbn. rewrite Hch. cbn. by rewrite Hcp.
    + intros created. cbn. by rewrite !(scan_kept _ _ _ _ _ Hne Hue), (scan_kept _ _ _ _ _ Hnh Huh), (scan_kept _ _ _ _ _ Hnp Hup).
  - exists (be, [], bp), ce, None, cp. split; [done|]. split.
    + unfold stored_columns. rewrite Hce. cbn. by rewrite Hcp.
    + intros created. cbn. by rewrite (scan_kept _ _ _ _ _ Hne Hue), (scan_kept _ _ _ _ _ Hnp Hup).
Qed.

Lemma get_stored id row w t :
  ht_webhooks t !! id = Some row -> webhookFromRow id row = inr w -> GetWebhook id (Db t []) = (inr w, Db t []).
Proof. intros Hrow Hdec. unfold GetWebhook, map_err, stmt, mbind, M_bind. cbn. by rewrite Hrow, <- Hdec. Qed.

(** A webhook that is created reads back as it was given, and so does every
    update of it: scope, subscriptions, encrypted secret, custom headers (absent
    or empty), retry policy and flags are all kept. *)
Theorem webhook_round_trip (w w' : Webhook) (t : htables) :
  storable w -> storable w' -> ht_webhooks t !! wh_ID w = None ->
  wh_ID w' = wh_ID w -> wh_OrganizationID w' = wh_OrganizationID w -> wh_CreatedAt w' = wh_CreatedAt w ->
  exists t1 t2, CreateWebhook w (Db t []) = (inr tt, Db t1 []) /\ GetWebhook (wh_ID w) (Db t1 []) = (inr w, Db t1 []) /\
    UpdateWebhook w' (Db t1 []) = (inr tt, Db t2 []) /\ GetWebhook (wh_ID w) (Db t2 []) = (inr w', Db t2 []).
Proof.
  intros Hs Hs' Hnone Hid Horg Hcr.
  destruct (columns_kept w Hs) as (columns & ev & ch & rp & Hj & Hst & Hread).
  destruct (columns_kept w' Hs') as (columns' & ev' & ch' & rp' & Hj' & Hst' & Hread').
  set (row := MkWebhookRow (wh_OrganizationID w) (wh_SessionID w) (wh_URL w) ev (wh_HMACSecret w) ch rp (wh_Active w)
    (wh_CreatedAt w) (wh_UpdatedAt w)).
  set (row' := MkWebhookRow (wh_OrganizationID w) (wh_SessionID w') (wh_URL w') ev' (wh_HMACSecret w') ch' rp' (wh_Active w')
    (wh_CreatedAt w) (wh_UpdatedAt w')).
  set (t1 := with_webhooks (<[wh_ID w := row]> (ht_webhooks t)) t).
  set (t2 := with_webhooks (<[wh_ID w := row']> (ht_webhooks t1)) t1).
  assert (H1 : ht_webhooks t1 !! wh_ID w = Some row) by (cbn; apply lookup_insert_eq).
  exists t1, t2. split; [|split; [|split]].
  - unfold CreateWebhook, map_err, stmt, mbind, M_bind, lift_result. rewrite Hj. cbn. unfold insert_webhook. rewrite Hst, Hnone. done.
  - apply (get_stored _ row); [done|]. unfold row. rewrite Hread. by destruct w.
  - unfold UpdateWebhook, map_err, stmt, mbind, M_bind, lift_result. rewrite Hj'. cbn [head faults rows tail].
    unfold update_webhook. rewrite Hst', Hid, H1. done.
  - apply (get_stored _ row'); [cbn; apply lookup_insert_eq|]. unfold row'. rewrite <- Horg, <- Hid, <- Hcr, Hread'. by destruct w'.
Qed.
End RoundTrip.

(** A run that does not get stuck, without looking at the unfinished programs. *)
Lemma default_some {A} (o : option A) (d : A) : is_none o = false -> o = Some (default d o).
Proof. by destruct o. Qed.

(** ** An example *)

(** Documents as the bits of their [Countable] encoding. *)
Fixpoint pos_bytes (p : positive) : bytes :=
  match p with xH => ["c"%byte] | xO p => "a"%byte :: pos_bytes p | xI p => "b"%byte :: pos_bytes p end.
Fixpoint bytes_pos (l : bytes) : option positive :=
  match l with
  | ["c"%byte] => Some xH
  | "a"%byte :: l => xO <$> bytes_pos l
  | "b"%byte :: l => xI <$> bytes_pos l
  | _ => None
  end.

Lemma bytes_pos_bytes p : bytes_pos (pos_bytes p) = Some p.
Proof. induction p as [p IH|p IH|]; cbn; [by rewrite IH..|done]. Qed.

Definition undocument {A} `{Countable A} (b : bytes) : goerr + A :=
  match bytes_pos b ≫= decode with Some a => inr a | None => inl (ErrMsg "invalid document") end.
Definition document {A} `{Countable A} (a : A) : bytes := pos_bytes (encode a).

Lemma undocument_document {A} `{Countable A} (a : A) : undocument (document a) = inr a.
Proof. unfold undocument, document. rewrite bytes_pos_bytes. cbn. by rewrite decode_encode. Qed.

#[local] Instance demo_mysql : MySQL := {| collate s := s; json_column b := Some b; json_remove _ b := b |}.
#[local] Instance demo_codec : WebhookCodec := {|
  marshal_strings l := inr (document l);
  unmarshal_strings := undocument;
  marshal_headers h := inr (document h);
  unmarshal_headers b := match undocument b with inl e => inl e | inr h => inr (Some h) end;
  marshal_policy p := inr (document (rp_Policy p, rp_DelaySeconds p, rp_Attempts p));
  unmarshal_policy b := match undocument b with
                        | inl e => inl e
                        | inr (policy, delay, attempts) => inr (MkRetryPolicy policy delay attempts)
                        end;
|}.
#[local] Instance demo_lib : WebhookLib := {|
  marshal_event e := inr (re_Payload e);
  parse_url url := if bool_decide (url = "") then Some (ErrMsg "empty url") else None;
  sign _ _ := "5ec2e7";
|}.
#[local] Existing Instance sorted_range.

Definition demo_policy : RetryPolicy := MkRetryPolicy "exponential" 2 5.
Definition demo_row : WebhookRow :=
  MkWebhookRow "org" None "https://example.com/hook" (document ["*"]) [] None
    (document (rp_Policy demo_policy, rp_DelaySeconds demo_policy, rp_Attempts demo_policy)) true 1 1.
Definition demo_delivery : WebhookDelivery :=
  MkDelivery 1 "wh" "evt" DeliveryPending 0 None (Some 1000) None 1000.
Definition demo_log : edb :=
  MkEdb ∅ ∅ ∅ ∅ [MkLogEntry 1 "evt" "org" "s1" "message" ["{"%byte; "}"%byte] 1000] 2 ∅.

Definition demo_hooks (replies : list (goerr + Response)) : hooks :=
  MkHooks (Db (MkHtables {["wh" := demo_row]} {[1 := demo_delivery]} 2) []) (Db demo_log []) 2000 replies ∅ [].

Abbreviation demo_program := (program (fun b => inr b) None).

Definition demo_start : system hooks Z :=
  MkSystem (demo_hooks [inr (MkResponse 200 "ok")])
    {[1%nat := demo_program 1 (Dispatch 0); 2%nat := demo_program 2 (Dispatch 0)]}.
Definition demo_schedule : list (nat * bool) :=
  [(1%nat, true); (2%nat, true); (1%nat, true); (2%nat, true); (1%nat, true); (1%nat, true); (1%nat, true);
   (1%nat, true); (1%nat, true)].
Definition demo_end : system hooks Z := default demo_start (run_threads demo_schedule demo_start).


Lemma run_threads_steps `{WebhookCodec} `{WebhookLib} `{MapRange} expand decryptor sched s s' :
  run_threads sched s = Some s' -> rtc (hook_step expand decryptor) s s'.
Proof.
  revert s. induction sched as [|[t side] sched IH]; intros s; cbn; [by intros [= ->]|].
  destruct (step_thread t side s) as [s1|] eqn:Hst; cbn; [|done]. intros Hrun.
  eapply rtc_l; [by eapply hook_action|by apply IH].
Qed.

Definition demo_boot : system hooks Z := MkSystem (demo_hooks [inr (MkResponse 200 "ok")]) ∅.
Abbreviation demo_reachable := (hook_reachable (fun b => inr b) None).
Abbreviation demo_steps := (rtc (hook_step (fun b => inr b) None)).

Lemma demo_booted : booted demo_boot.
Proof.
  split; [done|]. split; [done|]. split; [|cbn; lia]. split; cbn.
  - intros id d Hd%lookup_singleton_Some. destruct Hd as [<- <-]. split; [done|cbn; lia].
  - by intros id d id' d' [<- _]%lookup_singleton_Some [<- _]%lookup_singleton_Some.
Qed.

Lemma demo_run : demo_steps demo_boot demo_end.
Proof.
  eapply rtc_l; [apply (hook_start _ _ demo_boot 2 (Dispatch 0)); [reflexivity|constructor]|].
  eapply rtc_l; [apply (hook_start _ _ (MkSystem _ _) 1 (Dispatch 0)); [reflexivity|constructor]|].
  apply run_threads_steps with demo_schedule. unfold demo_end. apply default_some. vm_compute. reflexivity.
Qed.

Lemma demo_end_reachable : demo_reachable demo_end.
Proof. exists demo_boot. split; [apply demo_booted|apply demo_run]. Qed.

Definition demo_trace : list (nat * hook_call) := hk_trace (sy_world demo_end).
Definition demo_request : Request :=
  match demo_trace !! 5%nat with Some (_, CPost req _ _) => req | _ => MkRequest "" ∅ [] end.

Lemma deliveries_are_exclusive_witness :
  demo_reachable demo_end /\
  exists d, working 1 (take 5 demo_trace) d 2000 /\ rq_Header demo_request !! HeaderRequestID = Some (dl_EventID d).
Proof.
  split; [exact demo_end_reachable|].
  apply (proj1 (deliveries_are_exclusive (fun b => inr b) None demo_end demo_end_reachable)
           (take 5 demo_trace) 1%nat demo_request (inr (MkResponse 200 "ok")) 2000 (drop 6 demo_trace)).
  vm_compute. reflexivity.
Defined.

Abbreviation demo_live := (live_steps (fun b => inr b) None).

Lemma run_threads_live sched s s' : run_threads sched s = Some s' -> demo_live s s'.
Proof.
  revert s. induction sched as [|[t side] sched IH]; intros s; cbn; [intros [= <-]; apply rtc_refl|].
  intros (s1 & Hst & Hs)%bind_Some. eapply rtc_l; [exists None; by eapply live_action|by apply IH].
Qed.

Lemma demo_live_run : demo_live demo_boot demo_end.
Proof.
  eapply rtc_l; [exists None; apply (live_start _ _ demo_boot 2 (Dispatch 0)); [reflexivity|constructor]|].
  eapply rtc_l; [exists None; apply (live_start _ _ (MkSystem _ _) 1 (Dispatch 0)); [reflexivity|constructor]|].
  apply run_threads_live with demo_schedule. unfold demo_end. apply default_some. vm_compute. reflexivity.
Qed.

Lemma deliveries_are_durable_and_final_witness :
  deliveries (sy_world demo_boot) !! 1 = Some demo_delivery /\ is_terminal demo_delivery = false /\
  ((exists d', deliveries (sy_world demo_end) !! 1 = Some d' /\ dl_WebhookID d' = "wh" /\ dl_EventID d' = "evt") \/
   exists s1 d1, demo_live demo_boot s1 /\ demo_live s1 demo_end /\ deliveries (sy_world s1) !! 1 = Some d1 /\
     dl_WebhookID d1 = "wh" /\ dl_EventID d1 = "evt" /\ is_terminal d1 = true).
Proof.
  split; [reflexivity|]. split; [reflexivity|].
  apply (deliveries_are_durable_and_final (fun b => inr b) None demo_boot demo_end 1 demo_delivery); try reflexivity.
  - exists demo_boot. split; [exact demo_booted|apply rtc_refl].
  - exact demo_live_run.
Defined.

(** The outcome of a pass that outlives its lease is not refused: here another
    pass has claimed the delivery after the first one's lease ended and has
    delivered it; the first pass then records its own failure, and the finished
    delivery is failed and due again. *)
Definition set_clock (now : Z) (s : system hooks Z) : system hooks Z :=
  let w := sy_world s in
  MkSystem (MkHooks (hk_db w) (hk_events w) now (hk_replies w) (hk_locked w) (hk_trace w)) (sy_threads s).
Definition late_start : system hooks Z :=
  MkSystem (demo_hooks [inr (MkResponse 200 "ok"); inr (MkResponse 500 "late")]) (sy_threads demo_start).
Definition late_claimed : system hooks Z := default late_start (run_threads [(1%nat, true); (1%nat, true)] late_start).
Definition late_delivered : system hooks Z :=
  default late_start (run_threads (replicate 7 (2%nat, true)) (set_clock 62001 late_claimed)).
Definition late_end : system hooks Z :=
  default late_start (run_threads (replicate 6 (1%nat, true)) late_delivered).

Example late_mark_reopens_a_delivery :
  dl_Status <$> deliveries (sy_world late_delivered) !! 1 = Some DeliveryDelivered /\
  dl_Status <$> deliveries (sy_world late_end) !! 1 = Some DeliveryFailed /\
  (deliveries (sy_world late_end) !! 1 ≫= dl_NextRetryAt) = Some 64001.
Proof. vm_compute. done. Qed.

Definition demo_hook : Webhook :=
  MkWebhook "wh" "org" None "https://example.com/hook" ["*"] [] None demo_policy true 1 1.

Lemma demo_reaches reply :
  reaches (fun b => inr b) None (demo_hooks [reply]) demo_delivery demo_delivery demo_hook ["{"%byte; "}"%byte] reply.
Proof.
  split; [|by vm_compute| |done|done|done].
  - split; [done|done|done|]. split; [done|]. cbn. lia.
  - exists (MkRawEvent Schema "evt" "message" "s1" "org" 1000 ["{"%byte; "}"%byte]). split; [vm_compute; reflexivity|reflexivity].
Qed.

Lemma attempt_outcome_witness :
  exists w' req, run_alone 6 true
      (Deliver (H := WebhookRepoAdapter) (H0 := WebhookDeliveryRepoAdapter 1) (H1 := EventLogStore (fun b => inr b))
         (H2 := Endpoints 1) (H3 := PassClock 1) None demo_delivery) (demo_hooks [inr (MkResponse 503 "busy")]) =
      Some (inr tt, w') /\
    request_for None demo_hook "evt" ["{"%byte; "}"%byte] req /\ posts 1 w' = [] ++ [req] /\
    deliveries w' = <[1 := MkDelivery 1 "wh" "evt" DeliveryFailed 1 (Some 503) (Some 4000)
      (Some "non-2xx status 503: busy") 1000]> {[1 := demo_delivery]}.
Proof.
  apply (attempt_outcome (fun b => inr b) None 1 (demo_hooks [inr (MkResponse 503 "busy")]) demo_delivery demo_delivery
           demo_hook ["{"%byte; "}"%byte] (inr (MkResponse 503 "busy"))).
  - apply demo_reaches.
  - right. vm_compute. reflexivity.
Defined.

(** A reply whose body is not UTF-8. *)
Definition binary_reply : goerr + Response := inr (MkResponse 500 (String (Ascii.ascii_of_nat 255) "")).

Lemma undecodable_refusal_is_not_recorded_witness :
  exists w' req err, run_alone 6 true
      (Deliver (H := WebhookRepoAdapter) (H0 := WebhookDeliveryRepoAdapter 1) (H1 := EventLogStore (fun b => inr b))
         (H2 := Endpoints 1) (H3 := PassClock 1) None demo_delivery) (demo_hooks [binary_reply]) = Some (inl err, w') /\
    posts 1 w' = [] ++ [req] /\ deliveries w' = {[1 := demo_delivery]}.
Proof.
  apply (undecodable_refusal_is_not_recorded (fun b => inr b) None 1 (demo_hooks [binary_reply]) demo_delivery demo_delivery
           demo_hook ["{"%byte; "}"%byte] binary_reply).
  - apply demo_reaches.
  - reflexivity.
  - vm_compute. reflexivity.
Defined.

Definition demo_event : RawEvent := MkRawEvent Schema "evt2" "message" "s1" "org" 1500 [].

Lemma enqueue_reaches_every_subscriber_witness :
  exists n w', run_alone 4 true (Enqueue (H := WebhookRepoAdapter) (H0 := WebhookDeliveryRepoAdapter 3) (H1 := SystemClock)
      demo_event) (demo_hooks []) = Some (inr (n, None), w') /\
    exists did d, deliveries w' !! did = Some d /\ dl_WebhookID d = "wh" /\ dl_EventID d = "evt2".
Proof.
  assert (Hhooks : webhooks_of_rows (subscribers demo_event (hk_tables (demo_hooks []))) = inr [demo_hook])
    by (vm_compute; reflexivity).
  destruct (enqueue_reaches_every_subscriber 3 demo_event (demo_hooks []) [demo_hook] eq_refl
              (proj1 (proj2 (proj2 demo_booted))) Hhooks) as (n & w' & Hrun & _ & Hall & _).
  exists n, w'. split; [exact Hrun|].
  apply (Hall "wh" demo_row demo_hook); vm_compute; reflexivity.
Defined.


Lemma document_nonempty {A} `{Countable A} (a : A) : document a <> [].
Proof. unfold document. by destruct (encode a). Qed.

#[local] Instance demo_codec_laws : WebhookCodecLaws demo_codec.
Proof.
  split.
  - intros l _. exists (document l), (document l). cbn. rewrite undocument_document. repeat split. apply document_nonempty.
  - intros h _. exists (document h), (document h). cbn. rewrite undocument_document. repeat split; apply document_nonempty.
  - intros [p delay attempts] _. exists (document (p, delay, attempts)), (document (p, delay, attempts)). cbn.
    rewrite undocument_document. repeat split. apply document_nonempty.
Qed.

Lemma webhook_round_trip_witness :
  exists t1 t2, CreateWebhook demo_hook (Db (MkHtables ∅ ∅ 1) []) = (inr tt, Db t1 []) /\
    GetWebhook "wh" (Db t1 []) = (inr demo_hook, Db t1 []) /\
    UpdateWebhook (set_secret ["k"%byte] demo_hook) (Db t1 []) = (inr tt, Db t2 []) /\
    GetWebhook "wh" (Db t2 []) = (inr (set_secret ["k"%byte] demo_hook), Db t2 []).
Proof.
  apply (webhook_round_trip demo_hook (set_secret ["k"%byte] demo_hook) (MkHtables ∅ ∅ 1)); try reflexivity.
  - split; [|split]; vm_compute; reflexivity.
  - split; [|split]; vm_compute; reflexivity.
Defined.

Lemma webhooks_are_isolated_witness :
  serve_request (NewWebhookService None 0 0) "other" (RDelete "wh") (Db (MkHtables {["wh" := demo_row]} ∅ 1) []) =
    (inl (ErrNotFound "webhook not found"), Db (MkHtables {["wh" := demo_row]} ∅ 1) []) /\
  ("org" <> "other" ->
   ht_webhooks (MkHtables {["wh" := demo_row]} ∅ 1) !! "wh" = Some demo_row <->
   ht_webhooks (MkHtables {["wh" := demo_row]} ∅ 1) !! "wh" = Some demo_row).
Proof.
  assert (Hrun : serve_request (NewWebhookService None 0 0) "other" (RDelete "wh") (Db (MkHtables {["wh" := demo_row]} ∅ 1) []) =
    (inl (ErrNotFound "webhook not found"), Db (MkHtables {["wh" := demo_row]} ∅ 1) [])) by (vm_compute; reflexivity).
  split; [exact Hrun|]. intros Hne. exact (proj1 (webhooks_are_isolated _ _ _ _ _ _ Hrun) "wh" demo_row Hne).
Defined.
