(* ===== verification/EngineServer.v ===== *)
(** The gateway's end of the private engine RPCs: the messages of
    [proto/gateway/v1/gateway_engine.proto], and the handlers of
    [internal/gateway/enginegrpc], which check the routing of a request, hand it
    to the engine ([application.GatewayEngine], a class) and translate the
    result. Errors leave as gRPC statuses. *)
From S2P Require Import Prelude Journal Domain Outbound Scheduler GatewayEngine Concurrency.

#[local] Open Scope Z_scope.

(** ** gateway_engine.proto

    A message field is an [option], as is an [optional] scalar; an enum has the
    declared values and the others a peer may send. *)

Inductive GatewaySessionStatus :=
  | GATEWAY_SESSION_STATUS_UNSPECIFIED | GATEWAY_SESSION_STATUS_STOPPED | GATEWAY_SESSION_STATUS_STARTING
  | GATEWAY_SESSION_STATUS_SCAN_QR | GATEWAY_SESSION_STATUS_WORKING | GATEWAY_SESSION_STATUS_LOGGED_OUT
  | GATEWAY_SESSION_STATUS_OTHER (n : Z).

Inductive AccountPresence :=
  | ACCOUNT_PRESENCE_UNSPECIFIED | ACCOUNT_PRESENCE_ONLINE | ACCOUNT_PRESENCE_OFFLINE | ACCOUNT_PRESENCE_OTHER (n : Z).

Inductive GroupParticipantChange :=
  | GROUP_PARTICIPANT_CHANGE_UNSPECIFIED | GROUP_PARTICIPANT_CHANGE_ADD | GROUP_PARTICIPANT_CHANGE_REMOVE
  | GROUP_PARTICIPANT_CHANGE_PROMOTE | GROUP_PARTICIPANT_CHANGE_DEMOTE | GROUP_PARTICIPANT_CHANGE_OTHER (n : Z).

Record SessionTarget := MkSessionTarget {
  t_OrganizationId : string;
  t_SessionId : string;
  t_GatewayId : string;
}.

(** [QuotedMessageContext] has the fields of [domain.SendQuoteContext], and
    [GroupInfo], [ChatPresenceStatus], [ContactLookup] and the messages of a
    [BackfillSnapshot] those of the domain types of the same name, numbers of
    participants being [int32]. *)
Definition QuotedMessageContext : Type := SendQuoteContext.

(** The responses. *)
Record DownloadMediaResponse := MkDownloadMediaResponse { dm_data : bytes }.
Record GetSessionStateResponse := MkGetSessionStateResponse {
  gss_target : option SessionTarget; gss_status : GatewaySessionStatus; gss_connected : bool; gss_logged_in : bool;
}.
Record SetAccountPresenceResponse := MkSetAccountPresenceResponse {
  sap_command_id : string; sap_target : option SessionTarget; sap_assignment_epoch : Z;
}.
Record MarkReadResponse := MkMarkReadResponse {
  mrr_command_id : string; mrr_target : option SessionTarget; mrr_assignment_epoch : Z;
}.
Record SendMessageResponse := MkSendMessageResponse {
  sme_command_id : string; sme_target : option SessionTarget; sme_assignment_epoch : Z; sme_wa_message_id : string;
  sme_sent_at_unix_ms : Z;
}.
Record MessageOpResponse := MkMessageOpResponse {
  mop_command_id : string; mop_target : option SessionTarget; mop_assignment_epoch : Z; mop_wa_message_id : string;
  mop_sent_at_unix_ms : Z;
}.
Record LookupContactResponse := MkLookupContactResponse { lcr_results : list ContactLookup }.
Record GetContactPictureResponse := MkGetContactPictureResponse { gcp_url : string; gcp_id : string }.
Record GetContactAboutResponse := MkGetContactAboutResponse { gca_about : string }.
Record SetBlockedResponse := MkSetBlockedResponse {
  sbr_command_id : string; sbr_target : option SessionTarget; sbr_assignment_epoch : Z;
}.
Record CreateGroupResponse := MkCreateGroupResponse {
  cgr_command_id : string; cgr_target : option SessionTarget; cgr_assignment_epoch : Z; cgr_group : option GroupInfo;
}.
Record UpdateGroupSettingsResponse := MkUpdateGroupSettingsResponse {
  ugs_command_id : string; ugs_target : option SessionTarget; ugs_assignment_epoch : Z;
}.
Record UpdateGroupParticipantsResponse := MkUpdateGroupParticipantsResponse {
  ugp_command_id : string; ugp_target : option SessionTarget; ugp_assignment_epoch : Z;
}.
Record GetGroupInviteLinkResponse := MkGetGroupInviteLinkResponse { gil_link : string }.
Record JoinGroupResponse := MkJoinGroupResponse { jgr_group_jid : string }.
Record LeaveGroupResponse := MkLeaveGroupResponse {
  lgr_command_id : string; lgr_target : option SessionTarget; lgr_assignment_epoch : Z;
}.
Record GetChatPresenceResponse := MkGetChatPresenceResponse { gcpr_presence : option PresenceStatus }.
Record SetChatPresenceResponse := MkSetChatPresenceResponse {}.
Record BackfillSessionResponse := MkBackfillSessionResponse { bsr_snapshot : option BackfillSnapshot }.
Record PrepareSessionResponse := MkPrepareSessionResponse {
  psr_target : option SessionTarget; psr_assignment_epoch : Z;
}.
Record BeginPairingResponse := MkBeginPairingResponse {
  bpr_target : option SessionTarget; bpr_assignment_epoch : Z; bpr_qr_code : option string;
  bpr_qr_expires_at_unix_ms : option Z;
}.
Record PairPhoneResponse := MkPairPhoneResponse {
  ppr_target : option SessionTarget; ppr_assignment_epoch : Z; ppr_pairing_code : string;
}.
Record LogoutSessionResponse := MkLogoutSessionResponse {
  lsr_command_id : string; lsr_target : option SessionTarget; lsr_assignment_epoch : Z;
}.
Record ForgetSessionResponse := MkForgetSessionResponse { fsr_target : option SessionTarget }.

(** The requests of [GatewayEngineService], their fields in the order of the
    declarations, indexed by the response of the method. *)
Inductive EngineRequest : Type -> Type :=
  | DownloadMediaRequest (target : option SessionTarget) (assignment_epoch : Z) (source : bytes)
      : EngineRequest DownloadMediaResponse
  | GetSessionStateRequest (target : option SessionTarget) (assignment_epoch : Z)
      : EngineRequest GetSessionStateResponse
  | SetAccountPresenceRequest (target : option SessionTarget) (assignment_epoch : Z) (command_id : string)
      (state : AccountPresence) : EngineRequest SetAccountPresenceResponse
  | MarkReadRequest (target : option SessionTarget) (assignment_epoch : Z) (command_id chat_jid sender_jid : string)
      (message_ids : list string) (read_at_unix_ms : Z) : EngineRequest MarkReadResponse
  | SendMessageRequest (target : option SessionTarget) (assignment_epoch : Z) (command_id : string)
      (payload_json : bytes) (expires_at_unix_ms : option Z) (quote_context : option QuotedMessageContext)
      : EngineRequest SendMessageResponse
  | MessageOpRequest (target : option SessionTarget) (assignment_epoch : Z)
      (command_id op chat_jid sender_jid message_id emoji new_text : string) (options : list string)
      (to_jid : string) (expires_at_unix_ms : option Z) : EngineRequest MessageOpResponse
  | LookupContactRequest (target : option SessionTarget) (assignment_epoch : Z) (phones : list string)
      : EngineRequest LookupContactResponse
  | GetContactPictureRequest (target : option SessionTarget) (assignment_epoch : Z) (jid : string)
      : EngineRequest GetContactPictureResponse
  | GetContactAboutRequest (target : option SessionTarget) (assignment_epoch : Z) (jid : string)
      : EngineRequest GetContactAboutResponse
  | SetBlockedRequest (target : option SessionTarget) (assignment_epoch : Z) (command_id jid : string) (blocked : bool)
      : EngineRequest SetBlockedResponse
  | CreateGroupRequest (target : option SessionTarget) (assignment_epoch : Z) (command_id name : string)
      (participants : list string) : EngineRequest CreateGroupResponse
  | UpdateGroupSettingsRequest (target : option SessionTarget) (assignment_epoch : Z) (command_id group_jid : string)
      (subject description : option string) (announce locked : option bool)
      : EngineRequest UpdateGroupSettingsResponse
  | UpdateGroupParticipantsRequest (target : option SessionTarget) (assignment_epoch : Z)
      (command_id group_jid : string) (participants : list string) (action : GroupParticipantChange)
      : EngineRequest UpdateGroupParticipantsResponse
  | GetGroupInviteLinkRequest (target : option SessionTarget) (assignment_epoch : Z) (group_jid : string) (reset : bool)
      : EngineRequest GetGroupInviteLinkResponse
  | JoinGroupRequest (target : option SessionTarget) (assignment_epoch : Z) (invite : string)
      : EngineRequest JoinGroupResponse
  | LeaveGroupRequest (target : option SessionTarget) (assignment_epoch : Z) (command_id group_jid : string)
      : EngineRequest LeaveGroupResponse
  | GetChatPresenceRequest (target : option SessionTarget) (assignment_epoch : Z) (chat_jid : string)
      : EngineRequest GetChatPresenceResponse
  | SetChatPresenceRequest (target : option SessionTarget) (assignment_epoch : Z) (chat_jid state : string)
      : EngineRequest SetChatPresenceResponse
  | BackfillSessionRequest (target : option SessionTarget) (assignment_epoch : Z)
      : EngineRequest BackfillSessionResponse
  | PrepareSessionRequest (target : option SessionTarget) (assignment_epoch : Z)
      : EngineRequest PrepareSessionResponse
  | BeginPairingRequest (target : option SessionTarget) (assignment_epoch : Z) : EngineRequest BeginPairingResponse
  | PairPhoneRequest (target : option SessionTarget) (assignment_epoch : Z) (phone : string)
      : EngineRequest PairPhoneResponse
  | LogoutSessionRequest (target : option SessionTarget) (assignment_epoch : Z) (command_id : string)
      : EngineRequest LogoutSessionResponse
  | ForgetSessionRequest (target : option SessionTarget) : EngineRequest ForgetSessionResponse.

(** ** [application.GatewayEngine]

    [ge_DownloadMedia] is [None] for an engine without that method. *)
Class GatewayEngine (W : Type) := {
  ge_GetSessionState : SessionStateQuery -> proc W SessionState;
  ge_SetAccountPresence : SetPresenceCommand -> proc W MutationResult;
  ge_MarkRead : MarkReadCommand -> proc W MutationResult;
  ge_SendMessage : SendCommand -> proc W SendMessageResult;
  ge_ExecuteOp : MessageOpCommand -> proc W MessageOpResult;
  ge_LookupContact : LookupContactCommand -> proc W (list ContactLookup);
  ge_GetContactPicture : SessionStateQuery -> string -> proc W ProfilePicture;
  ge_GetContactAbout : SessionStateQuery -> string -> proc W string;
  ge_SetBlocked : ContactJIDCommand -> proc W MutationResult;
  ge_MutateGroup : GroupMutationCommand -> proc W GroupCreateResult;
  ge_GetGroupInviteLink : SessionStateQuery -> string -> bool -> proc W string;
  ge_JoinGroup : SessionStateQuery -> string -> proc W string;
  ge_GetChatPresence : SessionStateQuery -> string -> proc W PresenceStatus;
  ge_SetChatPresence : ChatPresenceCommand -> proc W unit;
  ge_BackfillSession : SessionStateQuery -> proc W BackfillSnapshot;
  ge_PrepareSession : SessionStateQuery -> proc W MutationResult;
  ge_BeginPairing : SessionStateQuery -> proc W PairingSnapshot;
  ge_PairPhone : SessionStateQuery -> string -> proc W string;
  ge_LogoutSession : ContactJIDCommand -> proc W MutationResult;
  ge_ForgetSession : string -> string -> proc W unit;
  ge_DownloadMedia : option (SessionStateQuery -> bytes -> proc W bytes);
}.

(** ** [grpcError] *)

Definition grpcError (err : goerr) : goerr :=
  if errors_is Canceled err then ErrStatus "Canceled" "request canceled"
  else if errors_is DeadlineExceeded err then ErrStatus "DeadlineExceeded" "deadline exceeded"
  else match api_code err with
       | Some code =>
           if bool_decide (code = CodeValidationError) then ErrStatus "InvalidArgument" "invalid request"
           else if bool_decide (code = CodeNotImplemented) then
             ErrStatus "Unimplemented" (default "" (api_message err))
           else if bool_decide (code = CodeNotFound) then ErrStatus "NotFound" "not found"
           else if bool_decide (code = CodeConflict) then ErrStatus "FailedPrecondition" "assignment precondition failed"
           else if bool_decide (code = CodeForbidden) then ErrStatus "PermissionDenied" "permission denied"
           else ErrStatus "Internal" "gateway engine unavailable"
       | None => ErrStatus "Internal" "gateway engine unavailable"
       end.

(** ** Conversions *)

Definition sessionStatus (value : SessionStatus) : GatewaySessionStatus :=
  match value with
  | SessionStopped => GATEWAY_SESSION_STATUS_STOPPED
  | SessionStarting => GATEWAY_SESSION_STATUS_STARTING
  | SessionScanQR => GATEWAY_SESSION_STATUS_SCAN_QR
  | SessionWorking => GATEWAY_SESSION_STATUS_WORKING
  | SessionLoggedOut => GATEWAY_SESSION_STATUS_LOGGED_OUT
  | SessionFailed => GATEWAY_SESSION_STATUS_UNSPECIFIED
  end.

Definition participantChange (action : GroupParticipantChange) : string * bool :=
  match action with
  | GROUP_PARTICIPANT_CHANGE_ADD => (GroupActionAdd, true)
  | GROUP_PARTICIPANT_CHANGE_REMOVE => (GroupActionRemove, true)
  | GROUP_PARTICIPANT_CHANGE_PROMOTE => (GroupActionPromote, true)
  | GROUP_PARTICIPANT_CHANGE_DEMOTE => (GroupActionDemote, true)
  | _ => ("", false)
  end.

Definition targetResponse (value : MutationResult) : SessionTarget :=
  MkSessionTarget (mr_OrganizationID value) (mr_SessionID value) (mr_GatewayID value).

Definition sessionQuery (target : SessionTarget) (assignmentEpoch : Z) : SessionStateQuery :=
  MkSessionStateQuery (t_OrganizationId target) (t_SessionId target) (t_GatewayId target) assignmentEpoch.

Definition targetProto (query : SessionStateQuery) : SessionTarget :=
  MkSessionTarget (sq_OrganizationID query) (sq_SessionID query) (sq_GatewayID query).

Definition groupInfoProto (info : GroupInfoResult) : GroupInfo :=
  MkGroupInfo (gi_GroupJID info) (gi_Subject info) (gi_Description info) (gi_OwnerJID info) (gi_Participants info)
    (gi_IsAnnounce info) (gi_IsLocked info).

Definition presenceStatusProto (status : PresenceStatus) : PresenceStatus :=
  MkPresenceStatus (ps_ChatJID status) (ps_From status) (ps_State status) (ps_Media status) (ps_Unavailable status)
    (ps_LastSeen status).

Definition contact_proto (c : BackfillContact) : BackfillContact :=
  MkBackfillContact (bc_LID c) (bc_PhoneJID c) (bc_PhoneNumber c) (bc_Name c) (bc_BusinessName c).
Definition member_proto (m : BackfillMember) : BackfillMember :=
  MkBackfillMember (bm_LID m) (bm_JID m) (bm_PhoneNumber m) (bm_Tag m) (bm_Name m) (bm_Role m).
Definition group_proto (g : BackfillGroup) : BackfillGroup :=
  MkBackfillGroup (bg_GroupJID g) (bg_Subject g) (bg_Description g) (bg_OwnerJID g) (i32 (bg_Participants g))
    (bg_IsAnnounce g) (bg_IsLocked g) (bg_CreatedAtWA g) (member_proto <$> bg_Members g).

Definition backfillSnapshotProto (snapshot : BackfillSnapshot) : BackfillSnapshot :=
  MkBackfillSnapshot (contact_proto <$> bf_Contacts snapshot) (group_proto <$> bf_Groups snapshot).

(** ** The handlers *)

Record Server := MkServer { sv_GatewayID : string; sv_Engine : bool }.

Section Handlers.
Context {W : Type} `{GatewayEngine W} `{SendCodec}.
Variable s : Server.

(** [status.Error(codes.InvalidArgument, msg)]. *)
Definition invalid (msg : string) : goerr := ErrStatus "InvalidArgument" msg.

Definition target (target : option SessionTarget) : goerr + SessionTarget :=
  let misconfigured := negb (sv_Engine s) || bool_decide (sv_GatewayID s = "") in
  match target with
  | Some t =>
      let incomplete := bool_decide (t_OrganizationId t = "") || bool_decide (t_SessionId t = "") in
      let foreign := negb (bool_decide (t_GatewayId t = sv_GatewayID s)) in
      if misconfigured || incomplete || foreign then inl (ErrValidation "invalid gateway target") else inr t
  | None => inl (ErrValidation "invalid gateway target")
  end.

Definition queryTarget (t : option SessionTarget) (assignmentEpoch : Z) : goerr + SessionStateQuery :=
  match target t with
  | inl err => inl err
  | inr value =>
      if assignmentEpoch =? 0 then inl (ErrValidation "assignment_epoch must be at least 1")
      else inr (MkSessionStateQuery (t_OrganizationId value) (t_SessionId value) (t_GatewayId value) assignmentEpoch)
  end.

(** [v, err := f(); if err != nil { return nil, grpcError(err) }]. *)
Definition checked {A} (r : goerr + A) : proc W A := Return (match r with inl e => inl (grpcError e) | inr a => inr a end).
Definition engine {A} (p : proc W A) : proc W A := pmap_err grpcError p.
Definition guard (bad : bool) (msg : string) : proc W unit := if bad then pthrow (invalid msg) else mret tt.

(** The routing metadata of a mutation. *)
Definition mutation (commandID : string) (t : SessionTarget) (epoch : Z) : MutationResult :=
  MkMutationResult commandID (t_OrganizationId t) (t_SessionId t) (t_GatewayId t) epoch.

(** [GetAssignmentEpoch() == 0 || GetCommandId() == ""]. *)
Definition missing_command (epoch : Z) (commandID : string) : bool := (epoch =? 0) || bool_decide (commandID = "").

Definition GetSessionState t epoch : proc W GetSessionStateResponse :=
  target ← checked (target t);
  guard (epoch =? 0) "invalid session-state request";;
  value ← engine (ge_GetSessionState (sessionQuery target epoch));
  mret (MkGetSessionStateResponse (Some target) (sessionStatus (ss_Status value)) (ss_Connected value) (ss_LoggedIn value)).

Definition SetAccountPresence t epoch commandID state : proc W SetAccountPresenceResponse :=
  target ← checked (target t);
  guard (missing_command epoch commandID) "invalid mutation request";;
  state ← (match state with
           | ACCOUNT_PRESENCE_ONLINE => mret AccountPresenceOnline
           | ACCOUNT_PRESENCE_OFFLINE => mret AccountPresenceOffline
           | _ => pthrow (invalid "invalid presence state")
           end);
  result ← engine (ge_SetAccountPresence (MkSetPresenceCommand (mutation commandID target epoch) state));
  mret (MkSetAccountPresenceResponse (mr_CommandID result) (Some (targetResponse result)) (mr_AssignmentEpoch result)).

Definition MarkRead t epoch commandID chatJID senderJID messageIDs readAt : proc W MarkReadResponse :=
  target ← checked (target t);
  guard ((epoch =? 0) || bool_decide (commandID = "") || is_nil messageIDs || (readAt <=? 0)) "invalid mark-read request";;
  result ← engine (ge_MarkRead (MkMarkReadCommand (mutation commandID target epoch) chatJID senderJID messageIDs
                                  (FromUnixMilli readAt)));
  mret (MkMarkReadResponse (mr_CommandID result) (Some (targetResponse result)) (mr_AssignmentEpoch result)).

(** [(payload.ExpiresAt == nil) != (req.ExpiresAtUnixMs == nil) || ...]. *)
Definition expiry_disagrees (payload request : option Z) : bool := negb (bool_decide (payload = request)).
Definition bad_expiry (expiresAt : option Z) : bool := from_option (fun e => e <=? 0) false expiresAt.

Definition with_quote (quote : option SendQuoteContext) (payload : SendRequest) : SendRequest :=
  MkSendRequest (sr_Type payload) (sr_To payload) (sr_ExpiresAt payload) (sr_Text payload) (sr_ReplyTo payload)
    (sr_Mentions payload) quote (sr_Buttons payload) (sr_List payload) (sr_Footer payload) (sr_HeaderImage payload)
    (sr_Name payload) (sr_Options payload) (sr_SelectableCount payload) (sr_PollEndTime payload)
    (sr_PollHideVotes payload) (sr_Latitude payload) (sr_Longitude payload) (sr_Contact payload) (sr_Media payload)
    (sr_Medias payload) (sr_Caption payload).

Definition attach_quote (quote : option QuotedMessageContext) (payload : SendRequest) : SendRequest :=
  match quote with
  | Some q =>
      if bool_decide (sr_ReplyTo payload = "") then payload
      else with_quote (Some (MkSendQuoteContext (qc_ChatJID q) (qc_SenderJID q) (qc_Type q) (qc_Body q) (qc_FromMe q))) payload
  | None => payload
  end.

Definition SendMessage t epoch commandID payloadJSON expiresAt quote : proc W SendMessageResponse :=
  target ← checked (target t);
  guard (missing_command epoch commandID || is_nil payloadJSON) "invalid send-message request";;
  guard (bad_expiry expiresAt) "expires_at_unix_ms must be positive";;
  payload ← (match unmarshal_send payloadJSON with
             | inl _ => pthrow (invalid "invalid send payload")
             | inr payload => mret payload
             end);
  guard (expiry_disagrees (sr_ExpiresAt payload) expiresAt) "send expiry disagrees with private command deadline";;
  result ← engine (ge_SendMessage (MkSendCommand (mutation commandID target epoch) (attach_quote quote payload) expiresAt));
  mret (MkSendMessageResponse (mr_CommandID (smr_Mutation result)) (Some (targetResponse (smr_Mutation result)))
          (mr_AssignmentEpoch (smr_Mutation result)) (smr_WAMessageID result) (UnixMilli (smr_SentAt result))).

Definition MessageOp t epoch commandID op chatJID senderJID messageID emoji newText options toJID expiresAt : proc W MessageOpResponse :=
  target ← checked (target t);
  guard (missing_command epoch commandID || bool_decide (op = "") || bool_decide (messageID = ""))
    "invalid message-op request";;
  guard (bad_expiry expiresAt) "expires_at_unix_ms must be positive";;
  result ← engine (ge_ExecuteOp (MkMessageOpCommand (mutation commandID target epoch) op chatJID senderJID messageID
                                   emoji newText options toJID expiresAt));
  mret (MkMessageOpResponse (mr_CommandID (mor_Mutation result)) (Some (targetResponse (mor_Mutation result)))
          (mr_AssignmentEpoch (mor_Mutation result)) (mor_WAMessageID result) (UnixMilli (mor_SentAt result))).

Definition LookupContact t epoch phones : proc W LookupContactResponse :=
  target ← checked (target t);
  guard ((epoch =? 0) || is_nil phones) "invalid contact-lookup request";;
  results ← engine (ge_LookupContact (MkLookupContactCommand (sessionQuery target epoch) phones));
  mret (MkLookupContactResponse ((fun r => MkContactLookup (cl_Query r) (cl_JID r) (cl_IsIn r)) <$> results)).

Definition GetContactPicture t epoch jid : proc W GetContactPictureResponse :=
  query ← checked (queryTarget t epoch);
  picture ← engine (ge_GetContactPicture query jid);
  mret (MkGetContactPictureResponse (pp_URL picture) (pp_ID picture)).

Definition GetContactAbout t epoch jid : proc W GetContactAboutResponse :=
  query ← checked (queryTarget t epoch);
  about ← engine (ge_GetContactAbout query jid);
  mret (MkGetContactAboutResponse about).

Definition SetBlocked t epoch commandID jid blocked : proc W SetBlockedResponse :=
  target ← checked (target t);
  guard (missing_command epoch commandID || bool_decide (jid = "")) "invalid set-blocked request";;
  result ← engine (ge_SetBlocked (MkContactJIDCommand (mutation commandID target epoch) jid blocked));
  mret (MkSetBlockedResponse (mr_CommandID result) (Some (targetResponse result)) (mr_AssignmentEpoch result)).

Definition no_target : MutationResult := MkMutationResult "" "" "" "" 0.
Definition blank_settings : GroupSettings := MkGroupSettings None None None None.

Definition CreateGroup t epoch commandID name participants : proc W CreateGroupResponse :=
  target ← checked (target t);
  guard (missing_command epoch commandID || bool_decide (name = "") || is_nil participants)
    "invalid create-group request";;
  result ← engine (ge_MutateGroup (MkGroupMutationCommand (mutation commandID target epoch) GroupOpCreate "" name
                                     participants "" blank_settings));
  mret (MkCreateGroupResponse (mr_CommandID (gcr_Mutation result)) (Some (targetResponse (gcr_Mutation result)))
          (mr_AssignmentEpoch (gcr_Mutation result)) (Some (groupInfoProto (gcr_CreatedGroup result)))).

Definition UpdateGroupSettings t epoch commandID groupJID subject description announce locked : proc W UpdateGroupSettingsResponse :=
  target ← checked (target t);
  let settings := MkGroupSettings subject description announce locked in
  let noSettingGiven := is_none subject && is_none description && is_none announce && is_none locked in
  guard (missing_command epoch commandID || bool_decide (groupJID = "") || noSettingGiven)
    "invalid update-group-settings request";;
  result ← engine (ge_MutateGroup (MkGroupMutationCommand (mutation commandID target epoch) GroupOpUpdateSettings groupJID
                                     "" [] "" settings));
  mret (MkUpdateGroupSettingsResponse (mr_CommandID (gcr_Mutation result)) (Some (targetResponse (gcr_Mutation result)))
          (mr_AssignmentEpoch (gcr_Mutation result))).

Definition UpdateGroupParticipants t epoch commandID groupJID participants action : proc W UpdateGroupParticipantsResponse :=
  target ← checked (target t);
  let '(action, validAction) := participantChange action in
  guard (missing_command epoch commandID || bool_decide (groupJID = "") || is_nil participants || negb validAction)
    "invalid update-group-participants request";;
  result ← engine (ge_MutateGroup (MkGroupMutationCommand (mutation commandID target epoch) GroupOpUpdateParticipants
                                     groupJID "" participants action blank_settings));
  mret (MkUpdateGroupParticipantsResponse (mr_CommandID (gcr_Mutation result)) (Some (targetResponse (gcr_Mutation result)))
          (mr_AssignmentEpoch (gcr_Mutation result))).

Definition GetGroupInviteLink t epoch groupJID reset : proc W GetGroupInviteLinkResponse :=
  query ← checked (queryTarget t epoch);
  guard (bool_decide (groupJID = "")) "invalid invite-link request";;
  link ← engine (ge_GetGroupInviteLink query groupJID reset);
  mret (MkGetGroupInviteLinkResponse link).

Definition JoinGroup t epoch invite : proc W JoinGroupResponse :=
  query ← checked (queryTarget t epoch);
  guard (bool_decide (invite = "")) "invalid join-group request";;
  groupJID ← engine (ge_JoinGroup query invite);
  mret (MkJoinGroupResponse groupJID).

Definition LeaveGroup t epoch commandID groupJID : proc W LeaveGroupResponse :=
  target ← checked (target t);
  guard (missing_command epoch commandID || bool_decide (groupJID = "")) "invalid leave-group request";;
  result ← engine (ge_MutateGroup (MkGroupMutationCommand (mutation commandID target epoch) GroupOpLeave groupJID "" [] ""
                                     blank_settings));
  mret (MkLeaveGroupResponse (mr_CommandID (gcr_Mutation result)) (Some (targetResponse (gcr_Mutation result)))
          (mr_AssignmentEpoch (gcr_Mutation result))).

Definition GetChatPresence t epoch chatJID : proc W GetChatPresenceResponse :=
  query ← checked (queryTarget t epoch);
  guard (bool_decide (chatJID = "")) "invalid chat-presence request";;
  presence ← engine (ge_GetChatPresence query chatJID);
  mret (MkGetChatPresenceResponse (Some (presenceStatusProto presence))).

Definition SetChatPresence t epoch chatJID state : proc W SetChatPresenceResponse :=
  target ← checked (target t);
  guard ((epoch =? 0) || bool_decide (chatJID = "") || bool_decide (state = "")) "invalid chat-presence mutation request";;
  engine (ge_SetChatPresence (MkChatPresenceCommand (sessionQuery target epoch) chatJID state));;
  mret MkSetChatPresenceResponse.

Definition BackfillSession t epoch : proc W BackfillSessionResponse :=
  query ← checked (queryTarget t epoch);
  snapshot ← engine (ge_BackfillSession query);
  mret (MkBackfillSessionResponse (Some (backfillSnapshotProto snapshot))).

Definition PrepareSession t epoch : proc W PrepareSessionResponse :=
  target ← checked (target t);
  guard (epoch =? 0) "invalid prepare-session request";;
  result ← engine (ge_PrepareSession (sessionQuery target epoch));
  mret (MkPrepareSessionResponse (Some target) (mr_AssignmentEpoch result)).

Definition BeginPairing t epoch : proc W BeginPairingResponse :=
  query ← checked (queryTarget t epoch);
  snapshot ← engine (ge_BeginPairing query);
  let present := negb (bool_decide (pr_Code snapshot = "")) in
  mret (MkBeginPairingResponse (Some (targetProto query)) (sq_AssignmentEpoch query)
          (if present then Some (pr_Code snapshot) else None) (if present then Some (pr_ExpiresAt snapshot) else None)).

Definition PairPhone t epoch phone : proc W PairPhoneResponse :=
  query ← checked (queryTarget t epoch);
  guard (bool_decide (phone = "")) "invalid pair-phone request";;
  code ← engine (ge_PairPhone query phone);
  mret (MkPairPhoneResponse (Some (targetProto query)) (sq_AssignmentEpoch query) code).

Definition LogoutSession t epoch commandID : proc W LogoutSessionResponse :=
  target ← checked (target t);
  guard (missing_command epoch commandID) "invalid logout-session request";;
  result ← engine (ge_LogoutSession (MkContactJIDCommand (mutation commandID target epoch) "" false));
  mret (MkLogoutSessionResponse (mr_CommandID result) (Some (targetResponse result)) (mr_AssignmentEpoch result)).

Definition ForgetSession t : proc W ForgetSessionResponse :=
  target ← checked (target t);
  engine (ge_ForgetSession (t_OrganizationId target) (t_SessionId target));;
  mret (MkForgetSessionResponse (Some target)).

Definition DownloadMedia t epoch source : proc W DownloadMediaResponse :=
  target ← checked (target t);
  match ge_DownloadMedia with
  | None => pthrow (ErrStatus "Unimplemented" "media download unavailable")
  | Some downloader =>
      guard (epoch =? 0) "assignment epoch required";;
      data ← engine (downloader (sessionQuery target epoch) source);
      mret (MkDownloadMediaResponse data)
  end.

(** The service: one handler per request. *)
Definition serve {A} (req : EngineRequest A) : proc W A :=
  match req with
  | DownloadMediaRequest t epoch source => DownloadMedia t epoch source
  | GetSessionStateRequest t epoch => GetSessionState t epoch
  | SetAccountPresenceRequest t epoch id state => SetAccountPresence t epoch id state
  | MarkReadRequest t epoch id chat sender ids readAt => MarkRead t epoch id chat sender ids readAt
  | SendMessageRequest t epoch id payload expiresAt quote => SendMessage t epoch id payload expiresAt quote
  | MessageOpRequest t epoch id op chat sender msg emoji text options to expiresAt =>
      MessageOp t epoch id op chat sender msg emoji text options to expiresAt
  | LookupContactRequest t epoch phones => LookupContact t epoch phones
  | GetContactPictureRequest t epoch jid => GetContactPicture t epoch jid
  | GetContactAboutRequest t epoch jid => GetContactAbout t epoch jid
  | SetBlockedRequest t epoch id jid blocked => SetBlocked t epoch id jid blocked
  | CreateGroupRequest t epoch id name participants => CreateGroup t epoch id name participants
  | UpdateGroupSettingsRequest t epoch id jid subject description announce locked =>
      UpdateGroupSettings t epoch id jid subject description announce locked
  | UpdateGroupParticipantsRequest t epoch id jid participants action =>
      UpdateGroupParticipants t epoch id jid participants action
  | GetGroupInviteLinkRequest t epoch jid reset => GetGroupInviteLink t epoch jid reset
  | JoinGroupRequest t epoch invite => JoinGroup t epoch invite
  | LeaveGroupRequest t epoch id jid => LeaveGroup t epoch id jid
  | GetChatPresenceRequest t epoch jid => GetChatPresence t epoch jid
  | SetChatPresenceRequest t epoch jid state => SetChatPresence t epoch jid state
  | BackfillSessionRequest t epoch => BackfillSession t epoch
  | PrepareSessionRequest t epoch => PrepareSession t epoch
  | BeginPairingRequest t epoch => BeginPairing t epoch
  | PairPhoneRequest t epoch phone => PairPhone t epoch phone
  | LogoutSessionRequest t epoch id => LogoutSession t epoch id
  | ForgetSessionRequest t => ForgetSession t
  end.
End Handlers.
