(* ===== verification/EngineMedia.v ===== *)
(** Media on its way to the engine: [internal/wa/outbound/engine_media.go] and
    [resolveMedia] of [sender.go], which turn the media of a validated send into
    inline base64 of known size and type. A download is one call of the HTTP
    client, a class. *)
From Stdlib Require Import Ascii.
From S2P Require Import Prelude Journal Domain Outbound Base64.

#[local] Open Scope Z_scope.

(** The bytes of a response body that can be read before an error, if any. *)
Record MediaReply := MkMediaReply {
  md_StatusCode : Z;
  md_ContentLength : Z;
  md_ContentType : string;
  md_Body : list byte;
  md_ReadError : bool;
}.

(** [http.NewRequest]'s check of the address, and [http.DefaultClient.Do] under
    a time limit. *)
Class MediaHTTP (X : Type) := {
  mh_ValidURL : string -> bool;
  mh_Get : Z -> string -> M X MediaReply;
}.


(** [strings.IndexByte], [strings.HasPrefix]. *)
Definition IndexByte (s : string) (c : Ascii.ascii) : option nat := String.index 0 (String c "") s.
Definition HasPrefix (s prefix : string) : bool := String.prefix prefix s.
Definition slice_to (s : string) (i : nat) : string := String.substring 0 i s.
Definition slice_from (s : string) (i : nat) : string := String.substring i (String.length s - i) s.

Definition exceeds_limit (what : string) (limit : Z) : goerr :=
  ErrValidation (what +:+ " exceeds the " +:+ pretty limit +:+ " byte limit").

(** [decodeBase64]: padded, else unpadded. *)
Definition decodeBase64 (s : string) : option (list byte) :=
  match DecodeString StdEncoding s with
  | Some b => Some b
  | None => DecodeString RawStdEncoding s
  end.

(** The text before the first semicolon, or all of it. *)
Definition before_semicolon (s : string) : string :=
  match IndexByte s ";"%char with Some j => slice_to s j | None => s end.

(** The payload and the type of a [data:] URI; a text without a comma is taken
    as base64. *)
Definition data_uri (raw mimetype : string) : string * string :=
  if HasPrefix raw "data:" then
    match IndexByte raw ","%char with
    | Some i =>
        let header := slice_from (slice_to raw i) 5 in
        (slice_from raw (i + 1), if bool_decide (mimetype = "") then before_semicolon header else mimetype)
    | None => (raw, mimetype)
    end
  else (raw, mimetype).

Definition decodeMedia (m : MediaPayload) : goerr + list byte * string :=
  if blank (mp_Data m) then inl (ErrValidation "media.data (base64) is required when media.url is not provided") else
  let '(raw, mimetype) := data_uri (TrimSpace (mp_Data m)) (mp_Mimetype m) in
  match decodeBase64 raw with
  | None => inl (ErrValidation "media.data must be valid base64")
  | Some data =>
      if is_nil data then inl (ErrValidation "media.data decoded to empty")
      else if MaxMediaBytes <? Z.of_nat (length data) then inl (exceeds_limit "media" MaxMediaBytes)
      else inr (data, mimetype)
  end.

Section Media.
Context {X : Type} `{OutboundLib} `{MediaHTTP X}.

(** What is made of a response. *)
Definition fetched (m : MediaPayload) (resp : MediaReply) : goerr + list byte * string :=
  if (md_StatusCode resp <? 200) || (300 <=? md_StatusCode resp) then
    inl (ErrValidation ("media.url returned HTTP " +:+ pretty (md_StatusCode resp)))
  else if MaxMediaBytes <? md_ContentLength resp then inl (exceeds_limit "media" MaxMediaBytes)
  else
    let body := take (Z.to_nat (MaxMediaBytes + 1)) (md_Body resp) in
    if md_ReadError resp && (Z.of_nat (length (md_Body resp)) <? MaxMediaBytes + 1) then
      inl (ErrValidation "media.url could not be read")
    else if is_nil body then inl (ErrValidation "media.url downloaded an empty file")
    else if MaxMediaBytes <? Z.of_nat (length body) then inl (exceeds_limit "media" MaxMediaBytes)
    else
      let mimetype :=
        if bool_decide (mp_Mimetype m = "") then
          match IndexByte (md_ContentType resp) ";"%char with
          | Some i => TrimSpace (slice_to (md_ContentType resp) i)
          | None => md_ContentType resp
          end
        else mp_Mimetype m in
      inr (body, mimetype).

Definition fetchMediaURL (m : MediaPayload) : M X (list byte * string) :=
  let url := TrimSpace (mp_URL m) in
  if negb (mh_ValidURL url) then throw (ErrValidation "media.url must be a valid http(s) URL")
  else
    resp ← map_err (fun _ => ErrValidation "media.url could not be downloaded") (mh_Get (30 * Second) url);
    lift_result (fetched m resp).

Definition resolveMedia (m : option MediaPayload) : M X (list byte * string) :=
  match m with
  | None => throw (ErrValidation "media is required")
  | Some m => if negb (blank (mp_URL m)) then fetchMediaURL m else lift_result (decodeMedia m)
  end.

(** [if err := Validate(req); err != nil { return ... }]. *)
Definition validated (req : SendRequest) : M X unit :=
  match Validate req with Some err => throw err | None => mret tt end.

(** The media inline: its bytes, no address, the type that was found. *)
Definition inline_media (m : MediaPayload) (data : list byte) (mimetype : string) : MediaPayload :=
  MkMediaPayload (EncodeToString StdEncoding data) "" mimetype (mp_Caption m) (mp_Filename m).

Definition with_header_image (image : option MediaPayload) (r : SendRequest) : SendRequest :=
  MkSendRequest (sr_Type r) (sr_To r) (sr_ExpiresAt r) (sr_Text r) (sr_ReplyTo r) (sr_Mentions r) (sr_QuoteContext r)
    (sr_Buttons r) (sr_List r) (sr_Footer r) image (sr_Name r) (sr_Options r) (sr_SelectableCount r)
    (sr_PollEndTime r) (sr_PollHideVotes r) (sr_Latitude r) (sr_Longitude r) (sr_Contact r) (sr_Media r)
    (sr_Medias r) (sr_Caption r).
Definition with_media (media : option MediaPayload) (medias : list AlbumMediaPayload) (r : SendRequest) : SendRequest :=
  MkSendRequest (sr_Type r) (sr_To r) (sr_ExpiresAt r) (sr_Text r) (sr_ReplyTo r) (sr_Mentions r) (sr_QuoteContext r)
    (sr_Buttons r) (sr_List r) (sr_Footer r) (sr_HeaderImage r) (sr_Name r) (sr_Options r) (sr_SelectableCount r)
    (sr_PollEndTime r) (sr_PollHideVotes r) (sr_Latitude r) (sr_Longitude r) (sr_Contact r) media medias (sr_Caption r).

(** The items of an album, the [i]-th first; [total] bytes precede them. *)
Fixpoint prepare_album (i : nat) (items : list AlbumMediaPayload) (total : Z) : M X (list AlbumMediaPayload) :=
  match items with
  | [] => mret []
  | item :: rest =>
      '(data, mimetype) ← map_err (ErrWrap ("medias[" +:+ pretty i +:+ "]"))
          (resolveMedia (Some (MkMediaPayload (am_Data item) (am_URL item) (am_Mimetype item) "" "")));
      let total := total + Z.of_nat (length data) in
      if MaxAlbumBytes <? total then
        throw (ErrValidation ("album exceeds the " +:+ pretty MaxAlbumBytes +:+ " byte aggregate limit"))
      else
        rest ← prepare_album (S i) rest total;
        mret (MkAlbumMediaPayload (am_Type item) (EncodeToString StdEncoding data) "" mimetype :: rest)
  end.

Definition PrepareEngineMedia (req : SendRequest) : M X SendRequest :=
  let typ := sr_Type req in
  if bool_decide (typ = SendTypeButtons) then
    validated req;;
    match sr_HeaderImage req with
    | None => mret req
    | Some image =>
        '(data, mimetype) ← resolveMedia (Some image);
        if negb (HasPrefix mimetype "image/") then throw (ErrValidation "headerImage must be an image")
        else mret (with_header_image (Some (inline_media image data mimetype)) req)
    end
  else if bool_decide (typ ∈ [SendTypeImage; SendTypeVideo; SendTypeAudio; SendTypeDocument; SendTypeSticker]) then
    validated req;;
    '(data, mimetype) ← resolveMedia (sr_Media req);
    match sr_Media req with
    | Some media => mret (with_media (Some (inline_media media data mimetype)) (sr_Medias req) req)
    | None => mret req
    end
  else if bool_decide (typ = SendTypeAlbum) then
    validated req;;
    medias ← prepare_album 0 (sr_Medias req) 0;
    mret (with_media (sr_Media req) medias req)
  else mret req.
End Media.
