(* ===== verification/EngineClient.v ===== *)
(** The API's end of the private engine RPCs: [internal/api/gateway]
    [engine_client.go], [media.go], [liveops_facade.go] and [session_facade.go].
    A call resolves the session's gateway, takes the pooled connection to its
    endpoint, issues one RPC, records the health of the endpoint and maps the
    status it gets. Methods are programs of [Concurrency]: many requests share
    the pool. The route resolver, the dialer, the wire and the clock are the
    class [Deployment]. *)
From S2P Require Import ControlServer Prelude Journal Domain Outbound Scheduler GatewayStore GatewayEngine Concurrency.
From S2P Require Import EngineServer EngineMedia.

#[local] Open Scope Z_scope.

Definition MaxEngineMessageBytes : Z := Z.shiftl 68 20.

(** The fields of a stored message the quote of a reply is made of. *)
Record QuotedMessage := MkQuotedMessage {
  qm_ChatJID : string;
  qm_Type : string;
  qm_FromMe : bool;
  qm_Body : option string;
  qm_SenderLID : option string;
  qm_SenderJID : option string;
}.

(** A [*grpc.ClientConn]: its identity, the gateway its TLS handshakes are bound
    to and the endpoint. *)
Record ClientConn := MkClientConn { cn_ID : nat; cn_GatewayID : string; cn_Endpoint : string }.

(** What the client is built over. The first argument of an operation is the time
    its context leaves it. [dp_GetByWAID] is [None] without a [QuoteResolver]. *)
Class Deployment (X : Type) := {
  dp_Resolve : Z -> string -> string -> M X SessionEngineTarget;
  dp_Dial : Z -> string -> string -> M X unit;
  dp_CloseConn : ClientConn -> M X unit;
  dp_Invoke : forall {A}, Z -> ClientConn -> EngineRequest A -> proc X A;
  dp_GetByWAID : option (Z -> string -> string -> M X QuotedMessage);
  dp_Now : X -> GoTime;
  dp_NewULID : X -> string * X;
}.

Record EngineHealth := MkEngineHealth {
  eh_GatewayID : string;
  eh_Endpoint : string;
  eh_LastAttempt : GoTime;
  eh_LastSuccess : GoTime;
  eh_LastError : string;
}.

(** What the client asks of its collaborators, in order: the connections a
    request dials and drops, and the RPCs it issues. *)
Inductive client_event :=
  | Dialed (t : nat) (conn : ClientConn)
  | Dropped (t : nat) (conn : ClientConn)
  | Issued (t : nat) (conn : ClientConn) (A : Type) (req : EngineRequest A).
Arguments Issued _ _ {_} _.

(** The pool of connections and the health table, the next connection object,
    the events so far, and the rest of the deployment. *)
Record pool (X : Type) := MkPool {
  pl_conns : gmap string ClientConn;
  pl_health : gmap string EngineHealth;
  pl_next : nat;
  pl_trace : list client_event;
  pl_rest : X;
}.
Arguments MkPool {X} _ _ _ _ _.
Arguments pl_conns {X} _.
Arguments pl_health {X} _.
Arguments pl_next {X} _.
Arguments pl_trace {X} _.
Arguments pl_rest {X} _.

(** [EngineClient]'s settings. *)
Record EngineClient := MkEngineClient { ec_deadline : Z; ec_sendDeadline : Z }.

Definition NewEngineClient {X} (deadline sendDeadline : Z) (rest : X) : goerr + EngineClient * pool X :=
  if deadline <=? 0 then inl (ErrMsg "gateway engine unary deadline is required")
  else if sendDeadline <=? 0 then inl (ErrMsg "gateway engine send deadline is required")
  else inr (MkEngineClient deadline sendDeadline, MkPool ∅ ∅ 0 [] rest).

(** A [SendMessageResult] with its [PreparedPayload]. *)
Record SentResult := MkSentResult { se_Result : SendMessageResult; se_PreparedPayload : option SendRequest }.

(** ** Conversions *)

Definition sessionTargetProto (query : SessionEngineTarget) : SessionTarget :=
  MkSessionTarget (tg_OrganizationID query) (tg_SessionID query) (tg_GatewayID query).

Definition protoGroupInfo (info : option GroupInfo) : GroupInfoResult :=
  match info with
  | None => blank_group
  | Some i => MkGroupInfo (gi_GroupJID i) (gi_Subject i) (gi_Description i) (gi_OwnerJID i) (gi_Participants i)
                (gi_IsAnnounce i) (gi_IsLocked i)
  end.

Definition participantChangeProto (action : string) : GroupParticipantChange * bool :=
  if bool_decide (action = GroupActionAdd) then (GROUP_PARTICIPANT_CHANGE_ADD, true)
  else if bool_decide (action = GroupActionRemove) then (GROUP_PARTICIPANT_CHANGE_REMOVE, true)
  else if bool_decide (action = GroupActionPromote) then (GROUP_PARTICIPANT_CHANGE_PROMOTE, true)
  else if bool_decide (action = GroupActionDemote) then (GROUP_PARTICIPANT_CHANGE_DEMOTE, true)
  else (GROUP_PARTICIPANT_CHANGE_UNSPECIFIED, false).

Definition client_sessionStatus (value : GatewaySessionStatus) : goerr + SessionStatus :=
  match value with
  | GATEWAY_SESSION_STATUS_STOPPED => inr SessionStopped
  | GATEWAY_SESSION_STATUS_STARTING => inr SessionStarting
  | GATEWAY_SESSION_STATUS_SCAN_QR => inr SessionScanQR
  | GATEWAY_SESSION_STATUS_WORKING => inr SessionWorking
  | GATEWAY_SESSION_STATUS_LOGGED_OUT => inr SessionLoggedOut
  | _ => inl (ErrValidation "gateway returned unknown session status")
  end.

(** [status.Convert(err).Message()]. *)
Definition status_message (e : goerr) : string :=
  match e with ErrStatus _ m => m | _ => error_text e end.

Definition mapEngineError (err : goerr) : goerr :=
  let code := status_code err in
  if bool_decide (code = "NotFound") then ErrNotFound "gateway session not found"
  else if bool_decide (code = "FailedPrecondition") then ErrConflict "gateway assignment changed"
  else if bool_decide (code = "Unavailable") then ErrUnavailable "gateway unavailable"
  else if bool_decide (code = "InvalidArgument") then ErrValidation "gateway rejected request"
  else if bool_decide (code = "Unimplemented") then ErrNotImplemented (status_message err)
  else ErrWrap "gateway engine" err.

(** The snapshot, its numbers of participants as [int]. *)
Definition proto_snapshot (snapshot : BackfillSnapshot) : BackfillSnapshot :=
  MkBackfillSnapshot (contact_proto <$> bf_Contacts snapshot)
    ((fun g => MkBackfillGroup (bg_GroupJID g) (bg_Subject g) (bg_Description g) (bg_OwnerJID g) (bg_Participants g)
                 (bg_IsAnnounce g) (bg_IsLocked g) (bg_CreatedAtWA g) (member_proto <$> bg_Members g))
     <$> bf_Groups snapshot).

Section Client.
Context {X : Type} `{Deployment X} `{MediaHTTP X} `{SendCodec} `{OutboundLib}.
Abbreviation P := (pool X).

Definition set_conns (conns : gmap string ClientConn) (w : P) : P :=
  MkPool conns (pl_health w) (pl_next w) (pl_trace w) (pl_rest w).
Definition set_health (health : gmap string EngineHealth) (w : P) : P :=
  MkPool (pl_conns w) health (pl_next w) (pl_trace w) (pl_rest w).
Definition set_rest (x : X) (w : P) : P := MkPool (pl_conns w) (pl_health w) (pl_next w) (pl_trace w) x.
Definition log_client (ev : client_event) (w : P) : P :=
  MkPool (pl_conns w) (pl_health w) (pl_next w) (pl_trace w ++ [ev]) (pl_rest w).

(** The rest of the deployment, reached through the client. *)
Definition outside {A} (m : M X A) : M P A := fun w => let '(r, x) := m (pl_rest w) in (r, set_rest x w).
Fixpoint on_rest {A} (p : proc X A) : proc P A :=
  match p with
  | Return r => Return r
  | Atomic m k => Atomic (fun w => '(b, x) ← m (pl_rest w); Some (b, set_rest x w)) (fun b => on_rest (k b))
  | Select p q => Select (on_rest p) (on_rest q)
  end.

Definition pool_key (gatewayID endpoint : string) : string := gatewayID +:+ String Ascii.zero endpoint.

(** ** The pool and the health table; [c.mu] is held for each action *)

Definition Health : M P (list EngineHealth) := gets (fun w => (map_to_list (pl_health w)).*2).

Definition recorded (gatewayID endpoint : string) (err : option goerr) (w : P) : P :=
  let key := pool_key gatewayID endpoint in
  let value := default (MkEngineHealth "" "" zero_time zero_time "") (pl_health w !! key) in
  let now := dp_Now (pl_rest w) in
  set_health (<[key := match err with
                       | None => MkEngineHealth gatewayID endpoint now now ""
                       | Some e => MkEngineHealth gatewayID endpoint now (eh_LastSuccess value) (error_text e)
                       end]> (pl_health w)) w.
Definition record (gatewayID endpoint : string) (err : option goerr) : proc P unit :=
  act (modify (recorded gatewayID endpoint err)).

Definition error_of {A} (r : goerr + A) : option goerr := match r with inl e => Some e | inr _ => None end.

(** [Close] keeps the first error of the connections. *)
Fixpoint close_all (t : nat) (keys : list string) (first : option goerr) : M P (option goerr) :=
  match keys with
  | [] => mret first
  | k :: keys => fun w =>
      match pl_conns w !! k with
      | None => close_all t keys first w
      | Some conn =>
          (r ← attempt (modify (log_client (Dropped t conn));; outside (dp_CloseConn conn));
           modify (fun w => set_conns (delete k (pl_conns w)) w);;
           close_all t keys (match first with Some e => Some e | None => error_of r end)) w
      end
  end.
Definition Close `{MapRange} (t : nat) : M P unit := fun w =>
  (first ← close_all t (range_keys (dom (pl_conns w))) None;
   match first with Some e => throw e | None => mret tt end) w.

(** The check for a connection installed meanwhile, and the installation. *)
Definition install (key : string) (conn : ClientConn) : M P (option ClientConn) := fun w =>
  match pl_conns w !! key with
  | Some old => (inr (Some old), w)
  | None => (inr None, set_conns (<[key := conn]> (pl_conns w)) w)
  end.

Section Request.
Variable t : nat.

(** [c.dial]: a new connection object. *)
Definition new_conn (gatewayID endpoint : string) : M P ClientConn := fun w =>
  let conn := MkClientConn (pl_next w) gatewayID endpoint in
  (inr conn, MkPool (pl_conns w) (pl_health w) (S (pl_next w)) (pl_trace w ++ [Dialed t conn]) (pl_rest w)).
Definition dial (ctx : Z) (gatewayID endpoint : string) : M P ClientConn :=
  outside (dp_Dial ctx gatewayID endpoint);;
  new_conn gatewayID endpoint.

(** [_ = conn.Close()]. *)
Definition drop_conn (conn : ClientConn) : M P unit :=
  modify (log_client (Dropped t conn));; attempt (outside (dp_CloseConn conn));; mret tt.

Definition conn (ctx : Z) (gatewayID endpoint : string) : proc P ClientConn :=
  let key := pool_key gatewayID endpoint in
  cached ← act (gets (fun w => pl_conns w !! key));
  match cached with
  | Some conn => mret conn
  | None =>
      dialed ← ptry (act (dial ctx gatewayID endpoint));
      record gatewayID endpoint (error_of dialed);;
      match dialed with
      | inl err => pthrow err
      | inr conn =>
          old ← act (install key conn);
          match old with
          | Some old => act (drop_conn conn);; mret old
          | None => mret conn
          end
      end
  end.

(** ** One call *)

Variable c : EngineClient.

Definition resolve (ctx : Z) (org session : string) : proc P SessionEngineTarget :=
  act (outside (dp_Resolve ctx org session)).

Definition readQuery (ctx : Z) (org session : string) : proc P (SessionEngineTarget * ClientConn) :=
  target ← resolve ctx org session;
  conn ← conn ctx (tg_GatewayID target) (tg_GRPCEndpoint target);
  mret (target, conn).

(** The generated stub. *)
Definition invoke {A} (ctx : Z) (conn : ClientConn) (req : EngineRequest A) : proc P A :=
  act (modify (log_client (Issued t conn req)));; on_rest (dp_Invoke ctx conn req).

(** [c.record(..., err)] and the mapping of the error. *)
Definition rpc {A} (ctx : Z) (target : SessionEngineTarget) (conn : ClientConn) (req : EngineRequest A) : proc P A :=
  r ← ptry (invoke ctx conn req);
  record (tg_GatewayID target) (tg_GRPCEndpoint target) (error_of r);;
  Return (match r with inl e => inl (mapEngineError e) | inr a => inr a end).

Definition no_dispatch {A} (p : proc P A) : proc P A := pmap_err ErrNoDispatch p.
Definition new_ulid : proc P string := act (outside (fun x => let '(id, x) := dp_NewULID x in (inr id, x))).

(** The routing fields of a request and of the result that echoes it. *)
Definition route (target : SessionEngineTarget) : option SessionTarget := Some (sessionTargetProto target).
Definition routed (commandID : string) (target : SessionEngineTarget) : MutationResult :=
  MkMutationResult commandID (tg_OrganizationID target) (tg_SessionID target) (tg_GatewayID target)
    (tg_AssignmentEpoch target).

Definition GetSessionState (org session : string) : proc P SessionState :=
  '(target, conn) ← readQuery (ec_deadline c) org session;
  response ← rpc (ec_deadline c) target conn (GetSessionStateRequest (route target) (tg_AssignmentEpoch target));
  state ← Return (client_sessionStatus (gss_status response));
  mret (MkSessionState (tg_OrganizationID target) (tg_SessionID target) (tg_GatewayID target) state
          (gss_connected response) (gss_logged_in response)).

Definition SetAccountPresence (org session presence : string) : proc P unit :=
  '(target, conn) ← readQuery (ec_deadline c) org session;
  let state := if bool_decide (presence = AccountPresenceOffline) then ACCOUNT_PRESENCE_OFFLINE
               else ACCOUNT_PRESENCE_ONLINE in
  id ← new_ulid;
  rpc (ec_deadline c) target conn
    (SetAccountPresenceRequest (route target) (tg_AssignmentEpoch target) id state);;
  mret tt.

(** [!errors.As(err, &apiErr) || apiErr.Code != domain.CodeNotFound]. *)
Definition is_not_found (err : goerr) : bool := bool_decide (api_code err = Some CodeNotFound).

Definition quote_of (msg : QuotedMessage) : QuotedMessageContext :=
  let sender :=
    if qm_FromMe msg then ""
    else match qm_SenderLID msg, qm_SenderJID msg with
         | Some lid, jid => if bool_decide (lid = "") then default "" jid else lid
         | None, jid => default "" jid
         end in
  MkSendQuoteContext (qm_ChatJID msg) sender (qm_Type msg) (default "" (qm_Body msg)) (qm_FromMe msg).

Definition resolveQuote (ctx : Z) (sessionID : string) (req : SendRequest) : proc P (option QuotedMessageContext) :=
  if bool_decide (sr_ReplyTo req = "") then mret None
  else match dp_GetByWAID with
       | None => mret None
       | Some getByWAID =>
           r ← ptry (act (outside (getByWAID ctx sessionID (sr_ReplyTo req))));
           match r with
           | inl err => if is_not_found err then mret None else pthrow (ErrWrap "resolve quoted message" err)
           | inr msg => if negb (bool_decide (qm_ChatJID msg = sr_To req)) then mret None else mret (Some (quote_of msg))
           end
       end.

(** [command.ExpiresAt == nil || time.Now().UnixMilli() < *command.ExpiresAt]. *)
Definition before_deadline (expiresAt : option Z) : proc P bool :=
  match expiresAt with
  | None => mret true
  | Some e => act (gets (fun w => UnixMilli (dp_Now (pl_rest w)) <? e))
  end.

Definition SendMessage (command : SendCommand) : proc P SentResult :=
  let ctx := ec_sendDeadline c in
  let commandID := mr_CommandID (snd_Target command) in
  if bool_decide (commandID = "") then pthrow (ErrValidation "send command id is required")
  else
    '(target, conn) ← no_dispatch (readQuery ctx (mr_OrganizationID (snd_Target command)) (mr_SessionID (snd_Target command)));
    fresh ← before_deadline (snd_ExpiresAt command);
    '(prepared, forProjection, quote) ←
      (if (fresh : bool) then
         prepared ← no_dispatch (act (outside (PrepareEngineMedia (snd_Payload command))));
         quote ← no_dispatch (resolveQuote ctx (mr_SessionID (snd_Target command)) prepared);
         mret (prepared, Some prepared, quote)
       else mret (snd_Payload command, None, None));
    payload ← no_dispatch (pmap_err (ErrWrap "encode send payload") (Return (marshal_send prepared)));
    response ← rpc ctx target conn
                 (SendMessageRequest (route target) (tg_AssignmentEpoch target) commandID payload (snd_ExpiresAt command) quote);
    mret (MkSentResult (MkSendMessageResult (routed (sme_command_id response) target) (sme_wa_message_id response)
                          (FromUnixMilli (sme_sent_at_unix_ms response)))
            forProjection).

Definition ExecuteOp (command : MessageOpCommand) : proc P MessageOpResult :=
  let ctx := ec_sendDeadline c in
  let commandID := mr_CommandID (opc_Target command) in
  if bool_decide (commandID = "") then pthrow (ErrValidation "op command id is required")
  else
    '(target, conn) ← no_dispatch (readQuery ctx (mr_OrganizationID (opc_Target command)) (mr_SessionID (opc_Target command)));
    response ← rpc ctx target conn
                 (MessageOpRequest (route target) (tg_AssignmentEpoch target) commandID (opc_Op command) (opc_ChatJID command)
                    (opc_SenderJID command) (opc_MessageID command) (opc_Emoji command) (opc_NewText command)
                    (opc_Options command) (opc_ToJID command) (opc_ExpiresAt command));
    mret (MkMessageOpResult (routed (mop_command_id response) target) (FromUnixMilli (mop_sent_at_unix_ms response))
            (mop_wa_message_id response)).

(** [LookupContact] of the client, and of the facade, which only renames the
    type of its results. *)
Definition LookupContact (org session : string) (phones : list string) : proc P (list ContactLookup) :=
  '(target, conn) ← readQuery (ec_deadline c) org session;
  response ← rpc (ec_deadline c) target conn (LookupContactRequest (route target) (tg_AssignmentEpoch target) phones);
  mret ((fun r => MkContactLookup (cl_Query r) (cl_JID r) (cl_IsIn r)) <$> lcr_results response).

Definition GetContactPicture (org session jid : string) : proc P ProfilePicture :=
  '(target, conn) ← readQuery (ec_deadline c) org session;
  response ← rpc (ec_deadline c) target conn (GetContactPictureRequest (route target) (tg_AssignmentEpoch target) jid);
  mret (MkProfilePicture (gcp_url response) (gcp_id response)).

Definition GetContactAbout (org session jid : string) : proc P string :=
  '(target, conn) ← readQuery (ec_deadline c) org session;
  response ← rpc (ec_deadline c) target conn (GetContactAboutRequest (route target) (tg_AssignmentEpoch target) jid);
  mret (gca_about response).

Definition SetBlocked (org session jid : string) (blocked : bool) : proc P unit :=
  '(target, conn) ← readQuery (ec_deadline c) org session;
  id ← new_ulid;
  rpc (ec_deadline c) target conn (SetBlockedRequest (route target) (tg_AssignmentEpoch target) id jid blocked);;
  mret tt.

Definition MutateGroup (command : GroupMutationCommand) : proc P GroupCreateResult :=
  let ctx := ec_sendDeadline c in
  let commandID := mr_CommandID (gm_Target command) in
  if bool_decide (commandID = "") then pthrow (ErrValidation "group command id is required")
  else
    '(target, conn) ← readQuery ctx (mr_OrganizationID (gm_Target command)) (mr_SessionID (gm_Target command));
    let base := routed commandID target in
    let epoch := tg_AssignmentEpoch target in
    match gm_Kind command with
    | GroupOpCreate =>
        response ← rpc ctx target conn
          (CreateGroupRequest (route target) epoch commandID (gm_Name command) (gm_Participants command));
        mret (MkGroupCreateResult base (protoGroupInfo (cgr_group response)))
    | GroupOpUpdateSettings =>
        let settings := gm_Settings command in
        rpc ctx target conn
          (UpdateGroupSettingsRequest (route target) epoch commandID (gm_GroupJID command) (gs_Subject settings)
             (gs_Description settings) (gs_Announce settings) (gs_Locked settings));;
        mret (MkGroupCreateResult base blank_group)
    | GroupOpUpdateParticipants =>
        let '(action, validAction) := participantChangeProto (gm_Action command) in
        if negb validAction then pthrow (ErrValidation "invalid participant action")
        else
          rpc ctx target conn
            (UpdateGroupParticipantsRequest (route target) epoch commandID (gm_GroupJID command)
               (gm_Participants command) action);;
          mret (MkGroupCreateResult base blank_group)
    | GroupOpLeave =>
        rpc ctx target conn (LeaveGroupRequest (route target) epoch commandID (gm_GroupJID command));;
        mret (MkGroupCreateResult base blank_group)
    | GroupOpOther _ => pthrow (ErrValidation "invalid group operation")
    end.

Definition GetGroupInviteLink (org session groupJID : string) (reset : bool) : proc P string :=
  '(target, conn) ← readQuery (ec_deadline c) org session;
  response ← rpc (ec_deadline c) target conn
    (GetGroupInviteLinkRequest (route target) (tg_AssignmentEpoch target) groupJID reset);
  mret (gil_link response).

Definition JoinGroup (org session invite : string) : proc P string :=
  '(target, conn) ← readQuery (ec_deadline c) org session;
  response ← rpc (ec_deadline c) target conn (JoinGroupRequest (route target) (tg_AssignmentEpoch target) invite);
  mret (jgr_group_jid response).

(** The getters of a nil message answer zero values. *)
Definition GetChatPresence (org session chatJID : string) : proc P PresenceStatus :=
  '(target, conn) ← readQuery (ec_deadline c) org session;
  response ← rpc (ec_deadline c) target conn (GetChatPresenceRequest (route target) (tg_AssignmentEpoch target) chatJID);
  mret (match gcpr_presence response with
        | Some p => MkPresenceStatus (ps_ChatJID p) (ps_From p) (ps_State p) (ps_Media p) (ps_Unavailable p) (ps_LastSeen p)
        | None => MkPresenceStatus "" "" "" "" false 0
        end).

Definition SetChatPresence (org session chatJID state : string) : proc P unit :=
  '(target, conn) ← readQuery (ec_deadline c) org session;
  rpc (ec_deadline c) target conn (SetChatPresenceRequest (route target) (tg_AssignmentEpoch target) chatJID state);;
  mret tt.

(** A response without a snapshot is a nil dereference, a panic of the caller. *)
Definition BackfillSession (org session : string) : proc P BackfillSnapshot :=
  '(target, conn) ← readQuery (ec_sendDeadline c) org session;
  response ← rpc (ec_sendDeadline c) target conn (BackfillSessionRequest (route target) (tg_AssignmentEpoch target));
  match bsr_snapshot response with
  | Some snapshot => mret (proto_snapshot snapshot)
  | None => pthrow (ErrMsg "panic: nil pointer dereference")
  end.

(** The wait for the gateway to apply its new assignment: [polls] times 100
    milliseconds before the context ends. *)
Fixpoint await_route (ctx : Z) (polls : nat) (org session : string) : proc P SessionEngineTarget :=
  let again := match polls with
               | O => pthrow (ErrUnavailable "gateway did not reconcile the new session")
               | S polls => await_route ctx polls org session
               end in
  resolved ← ptry (resolve ctx org session);
  match resolved with
  | inr target => if tg_DesiredRevision target =? tg_AppliedRevision target then mret target else again
  | inl err => if is_not_found err then again else pthrow err
  end.

Definition PrepareSession (polls : nat) (org session : string) : proc P unit :=
  let ctx := DefaultHeartbeatInterval + ec_deadline c in
  target ← await_route ctx polls org session;
  conn ← conn ctx (tg_GatewayID target) (tg_GRPCEndpoint target);
  rpc (ec_deadline c) target conn (PrepareSessionRequest (route target) (tg_AssignmentEpoch target));;
  mret tt.

Definition BeginPairing (org session : string) : proc P PairingSnapshot :=
  '(target, conn) ← readQuery (ec_deadline c) org session;
  response ← rpc (ec_deadline c) target conn (BeginPairingRequest (route target) (tg_AssignmentEpoch target));
  mret (MkPairingSnapshot (default "" (bpr_qr_code response)) (default 0 (bpr_qr_expires_at_unix_ms response))).

Definition PairPhone (org session phone : string) : proc P string :=
  '(target, conn) ← readQuery (ec_sendDeadline c) org session;
  response ← rpc (ec_sendDeadline c) target conn (PairPhoneRequest (route target) (tg_AssignmentEpoch target) phone);
  mret (ppr_pairing_code response).

Definition LogoutSession (org session : string) : proc P unit :=
  '(target, conn) ← readQuery (ec_deadline c) org session;
  id ← new_ulid;
  rpc (ec_deadline c) target conn (LogoutSessionRequest (route target) (tg_AssignmentEpoch target) id);;
  mret tt.

Definition ForgetSession (org session : string) : proc P unit :=
  '(target, conn) ← readQuery (ec_deadline c) org session;
  rpc (ec_deadline c) target conn (ForgetSessionRequest (route target));;
  mret tt.

(** [media.go]: the health of the endpoint is not recorded. *)
Definition DownloadMedia (org session : string) (source : bytes) : proc P bytes :=
  '(target, conn) ← readQuery (ec_sendDeadline c) org session;
  result ← pmap_err mapEngineError
    (invoke (ec_sendDeadline c) conn (DownloadMediaRequest (route target) (tg_AssignmentEpoch target) source));
  mret (dm_data result).

(** ** The group operations of [LiveOpsFacade] *)

Definition facade_command (org session : string) (kind : GroupMutationKind) (groupJID name : string)
  (participants : list string) (action : string) (settings : GroupSettings) : proc P GroupMutationCommand :=
  id ← new_ulid;
  mret (MkGroupMutationCommand (MkMutationResult id org session "" 0) kind groupJID name participants action settings).

Definition groupInfoFromResult (info : GroupInfoResult) : GroupInfo :=
  MkGroupInfo (gi_GroupJID info) (gi_Subject info) (gi_Description info) (gi_OwnerJID info) (gi_Participants info)
    (gi_IsAnnounce info) (gi_IsLocked info).

Definition CreateGroup (org session name : string) (participants : list string) : proc P GroupInfo :=
  command ← facade_command org session GroupOpCreate "" name participants "" blank_settings;
  result ← MutateGroup command;
  mret (groupInfoFromResult (gcr_CreatedGroup result)).

Definition UpdateParticipants (org session groupJID : string) (participants : list string) (action : string) : proc P unit :=
  command ← facade_command org session GroupOpUpdateParticipants groupJID "" participants action blank_settings;
  MutateGroup command;;
  mret tt.

Definition UpdateSettings (org session groupJID : string) (s : GroupSettings) : proc P unit :=
  command ← facade_command org session GroupOpUpdateSettings groupJID "" [] ""
              (MkGroupSettings (gs_Subject s) (gs_Description s) (gs_Announce s) (gs_Locked s));
  MutateGroup command;;
  mret tt.

Definition Leave (org session groupJID : string) : proc P unit :=
  command ← facade_command org session GroupOpLeave groupJID "" [] "" blank_settings;
  MutateGroup command;;
  mret tt.
End Request.
End Client.
