(* ===== verification/EngineClientSpec.v ===== *)
(** The API's engine client under concurrency: any number of requests share the
    pool of connections. Every connection that is dialed ends up pooled or
    closed, RPCs go only over pooled connections bound to the gateway they name,
    and a [NoDispatchError] means that no RPC was issued. *)
From stdpp Require Import relations.
From S2P Require Import Prelude Journal Domain Outbound Scheduler GatewayStore GatewayEngine Concurrency.
From S2P Require Import EngineServer EngineMedia EngineClient.

#[local] Open Scope Z_scope.

(** The routing a request carries. *)
Definition request_target {A} (req : EngineRequest A) : option SessionTarget :=
  match req with
  | DownloadMediaRequest g _ _ | GetSessionStateRequest g _ | SetAccountPresenceRequest g _ _ _
  | MarkReadRequest g _ _ _ _ _ _ | SendMessageRequest g _ _ _ _ _ | MessageOpRequest g _ _ _ _ _ _ _ _ _ _ _
  | LookupContactRequest g _ _ | GetContactPictureRequest g _ _ | GetContactAboutRequest g _ _
  | SetBlockedRequest g _ _ _ _ | CreateGroupRequest g _ _ _ _ | UpdateGroupSettingsRequest g _ _ _ _ _ _ _
  | UpdateGroupParticipantsRequest g _ _ _ _ _ | GetGroupInviteLinkRequest g _ _ _ | JoinGroupRequest g _ _
  | LeaveGroupRequest g _ _ _ | GetChatPresenceRequest g _ _ | SetChatPresenceRequest g _ _ _
  | BackfillSessionRequest g _ | PrepareSessionRequest g _ | BeginPairingRequest g _ | PairPhoneRequest g _ _
  | LogoutSessionRequest g _ _ | ForgetSessionRequest g => g
  end.

(** Every outcome of a program satisfies [Phi]; a [select] starts with a
    communication. *)
Fixpoint answers {W A} (Phi : goerr + A -> Prop) (p : proc W A) : Prop :=
  match p with
  | Return r => Phi r
  | Atomic m k => forall b, answers Phi (k b)
  | Select p q => result p = None /\ answers Phi p /\ answers Phi q
  end.

(** The error of a stub is a gRPC status, never a [NoDispatchError]. *)
Definition no_proof {A} (r : goerr + A) : Prop := match r with inl e => is_no_dispatch e = false | inr _ => True end.
Class DeploymentLaws (X : Type) `{Deployment X} : Prop := {
  invoke_statuses A ctx conn (req : EngineRequest A) : answers no_proof (dp_Invoke ctx conn req);
}.

(** The calls of the API's services; the answers themselves do not matter here. *)
Inductive client_call :=
  | CallGetSessionState (org session : string)
  | CallSetAccountPresence (org session presence : string)
  | CallSendMessage (command : SendCommand)
  | CallExecuteOp (command : MessageOpCommand)
  | CallLookupContact (org session : string) (phones : list string)
  | CallGetContactPicture (org session jid : string)
  | CallGetContactAbout (org session jid : string)
  | CallSetBlocked (org session jid : string) (blocked : bool)
  | CallMutateGroup (command : GroupMutationCommand)
  | CallGetGroupInviteLink (org session groupJID : string) (reset : bool)
  | CallJoinGroup (org session invite : string)
  | CallGetChatPresence (org session chatJID : string)
  | CallSetChatPresence (org session chatJID state : string)
  | CallBackfillSession (org session : string)
  | CallPrepareSession (polls : nat) (org session : string)
  | CallBeginPairing (org session : string)
  | CallPairPhone (org session phone : string)
  | CallLogoutSession (org session : string)
  | CallForgetSession (org session : string)
  | CallDownloadMedia (org session : string) (source : bytes).

Definition perform_call {X} `{Deployment X} `{MediaHTTP X} `{SendCodec} `{OutboundLib} (c : EngineClient) (t : nat)
  (q : client_call) : proc (pool X) unit :=
  let done {A} (p : proc (pool X) A) := pmap (fun _ => tt) p in
  match q with
  | CallGetSessionState org session => done (GetSessionState t c org session)
  | CallSetAccountPresence org session presence => SetAccountPresence t c org session presence
  | CallSendMessage command => done (SendMessage t c command)
  | CallExecuteOp command => done (ExecuteOp t c command)
  | CallLookupContact org session phones => done (LookupContact t c org session phones)
  | CallGetContactPicture org session jid => done (GetContactPicture t c org session jid)
  | CallGetContactAbout org session jid => done (GetContactAbout t c org session jid)
  | CallSetBlocked org session jid blocked => SetBlocked t c org session jid blocked
  | CallMutateGroup command => done (MutateGroup t c command)
  | CallGetGroupInviteLink org session groupJID reset => done (GetGroupInviteLink t c org session groupJID reset)
  | CallJoinGroup org session invite => done (JoinGroup t c org session invite)
  | CallGetChatPresence org session chatJID => done (GetChatPresence t c org session chatJID)
  | CallSetChatPresence org session chatJID state => SetChatPresence t c org session chatJID state
  | CallBackfillSession org session => done (BackfillSession t c org session)
  | CallPrepareSession polls org session => PrepareSession t c polls org session
  | CallBeginPairing org session => done (BeginPairing t c org session)
  | CallPairPhone org session phone => done (PairPhone t c org session phone)
  | CallLogoutSession org session => LogoutSession t c org session
  | CallForgetSession org session => ForgetSession t c org session
  | CallDownloadMedia org session source => done (DownloadMedia t c org session source)
  end.

(** A text without NUL bytes, as gateway ids are. *)
Definition nul_free (s : string) : bool :=
  forallb (fun a => negb (bool_decide (a = Ascii.zero))) (String.list_ascii_of_string s).

Lemma pool_key_inj g g' ep ep' : nul_free g = true -> nul_free g' = true -> pool_key g ep = pool_key g' ep' -> g = g'.
Proof.
  revert g'. induction g as [|a g IH]; intros [|a' g']; unfold nul_free, pool_key; cbn; intros Hg Hg' Heq; try done.
  - injection Heq as <- _. by rewrite bool_decide_eq_true_2 in Hg'.
  - injection Heq as -> _. by rewrite bool_decide_eq_true_2 in Hg.
  - apply andb_true_iff in Hg as [_ Hg], Hg' as [_ Hg']. injection Heq as <- Heq. f_equal. by apply IH.
Qed.

Section Pool.
Context {X : Type} `{HD : Deployment X} `{HM : MediaHTTP X} `{HJ : SendCodec} `{HL : OutboundLib} {laws : DeploymentLaws X}.
Abbreviation P := (pool X).

Definition key_of (conn : ClientConn) : string := pool_key (cn_GatewayID conn) (cn_Endpoint conn).
Definition pooled (conn : ClientConn) (w : P) : Prop := pl_conns w !! key_of conn = Some conn.

(** The connection of an RPC was dialed for the key of the gateway it names. *)
Definition bound_to {A} (conn : ClientConn) (req : EngineRequest A) : Prop :=
  forall g, request_target req = Some g -> exists endpoint, key_of conn = pool_key (t_GatewayId g) endpoint.

Record pool_inv (w : P) : Prop := {
  pi_fresh t c : Dialed t c ∈ pl_trace w -> (cn_ID c < pl_next w)%nat;
  pi_unique t c t' c' : Dialed t c ∈ pl_trace w -> Dialed t' c' ∈ pl_trace w -> cn_ID c = cn_ID c' -> t = t' /\ c = c';
  pi_pooled key c : pl_conns w !! key = Some c -> key = key_of c /\ exists t, Dialed t c ∈ pl_trace w;
  pi_dropped t c : Dropped t c ∈ pl_trace w -> Dialed t c ∈ pl_trace w /\ ~ pooled c w;
  pi_issued t c A (req : EngineRequest A) : Issued t c req ∈ pl_trace w -> pooled c w /\ bound_to c req;
}.

Definition caller (ev : client_event) : nat :=
  match ev with Dialed t _ | Dropped t _ | Issued t _ _ => t end.

(** What a request may do to the pool: append its own events and install
    connections it dialed. *)
Definition guar (t : nat) (w w' : P) : Prop :=
  (exists l, pl_trace w' = pl_trace w ++ l /\ Forall (fun ev => caller ev = t) l) /\
  pl_conns w ⊆ pl_conns w' /\
  (forall key c, pl_conns w' !! key = Some c -> pl_conns w !! key = Some c \/ Dialed t c ∈ pl_trace w').

(** The rest of the process and of the deployment. *)
Definition env (w w' : P) : Prop :=
  pl_conns w' = pl_conns w /\ pl_trace w' = pl_trace w /\ pl_next w' = pl_next w.

Definition anywhere (t : nat) (w : P) : Prop := True.
Abbreviation spec := (pspec pool_inv guar env anywhere).
Abbreviation stable := (stable pool_inv guar env).

#[local] Instance env_preorder : PreOrder env.
Proof. split; [by intros w|]. intros w w1 w2 (?&?&?) (?&?&?). repeat split; congruence. Qed.

Lemma pool_env_inv w w' : pool_inv w -> env w w' -> pool_inv w'.
Proof.
  intros Hi (Hc & Ht & Hn). destruct Hi as [F U Po D I].
  split; unfold pooled in *; rewrite ?Hc, ?Ht, ?Hn; eauto.
Qed.

Lemma env_stable t Q w w' : pool_inv w -> stable t Q -> env w w' -> Q w -> Q w'.
Proof. intros Hi HQ He Hw. apply (HQ w w' Hi (pool_env_inv _ _ Hi He)); [by left|done]. Qed.

Lemma env_guar t w w' : env w w' -> guar t w w'.
Proof.
  intros (Hc & Ht & Hn). split; [|split].
  - exists []. by rewrite app_nil_r.
  - by rewrite Hc.
  - intros key c. rewrite Hc. auto.
Qed.

Lemma rely_grows t w w' : rely guar env t w w' -> pl_conns w ⊆ pl_conns w' /\
  (forall ev, ev ∈ pl_trace w -> ev ∈ pl_trace w') /\
  (forall ev, ev ∈ pl_trace w' -> ev ∈ pl_trace w \/ caller ev <> t) /\
  (forall key c, pl_conns w' !! key = Some c ->
     pl_conns w !! key = Some c \/ exists u, u <> t /\ Dialed u c ∈ pl_trace w').
Proof.
  intros [(Hc & Ht & _)|(u & Hne & (l & Ht & Hl) & Hc & Hnew)].
  - rewrite Hc, Ht. auto.
  - split; [done|]. rewrite Ht. split; [|split].
    + intros ev Hev. apply elem_of_app. by left.
    + intros ev [Hev|Hev]%elem_of_app; [by left|right]. rewrite Forall_forall in Hl. by rewrite (Hl ev Hev).
    + intros key c Hk. rewrite <- Ht. destruct (Hnew key c Hk) as [Ho|Hd]; [by left|right]. by exists u.
Qed.

(** *** Assertions *)

Definition quiet (t : nat) (w : P) : Prop := forall c A (req : EngineRequest A), ~ (Issued t c req ∈ pl_trace w).
Definition settled (t : nat) (w : P) : Prop :=
  forall c, Dialed t c ∈ pl_trace w -> pooled c w \/ Dropped t c ∈ pl_trace w.

(** [c] is dialed and neither pooled nor closed yet. *)
Definition in_hand (t : nat) (c : ClientConn) (w : P) : Prop :=
  Dialed t c ∈ pl_trace w /\ ~ pooled c w /\ (Dropped t c ∉ pl_trace w) /\
  forall c', Dialed t c' ∈ pl_trace w -> c' = c \/ pooled c' w \/ Dropped t c' ∈ pl_trace w.

Lemma pooled_stable t c : stable t (pooled c).
Proof. intros w w' _ _ (Hc & _)%rely_grows. unfold pooled. intros Hp. by eapply lookup_weaken. Qed.

Lemma quiet_call_stable t : stable t (quiet t).
Proof.
  intros w w' _ _ (_ & _ & Hold & _)%rely_grows Hq c A req Hin.
  destruct (Hold _ Hin) as [Hin'|Hne]; [exact (Hq _ _ _ Hin')|done].
Qed.

Lemma settled_call_stable t : stable t (settled t).
Proof.
  intros w w' _ _ (Hc & Hnew & Hold & _)%rely_grows Hs c Hin.
  destruct (Hold _ Hin) as [Hin'|Hne]; [|done]. destruct (Hs c Hin') as [Hp|Hd]; [left|right; auto].
  unfold pooled in *. by eapply lookup_weaken.
Qed.

Lemma in_hand_stable t c : stable t (in_hand t c).
Proof.
  intros w w' Hi Hi' Hr (Hd & Hp & Hn & Hrest). pose proof (rely_grows _ _ _ Hr) as (Hc & Hnew & Hold & Hk).
  split; [auto|]. split; [|split].
  - intros Hp'. destruct (Hk _ _ Hp') as [Ho|(u & Hne & Hu)]; [done|].
    destruct (pi_unique _ Hi' _ _ _ _ Hu (Hnew _ Hd) eq_refl). done.
  - intros Hin. by destruct (Hold _ Hin) as [?|?].
  - intros c' Hc'. destruct (Hold _ Hc') as [Hin|?]; [|done].
    destruct (Hrest c' Hin) as [->|[Hpo|Hdr]]; [by left|right; left|right; right; auto].
    unfold pooled in *. by eapply lookup_weaken.
Qed.

Create HintDb pool.
#[local] Hint Resolve pooled_stable quiet_call_stable settled_call_stable in_hand_stable stable_and stable_imp stable_pure : pool.

(** *** Actions on the rest of the deployment *)

Lemma outside_env {A} (m : M X A) : respects env (outside m).
Proof. intros w r w'. unfold outside. destruct (m (pl_rest w)). by intros [= _ <-]. Qed.

Lemma env_act {A} t (m : M P A) Q : respects env m -> stable t Q -> spec t (act m) Q (fun _ => Q).
Proof.
  intros Hm HQ. apply pspec_act; [done|]. intros w r w' Hi Hw Hrun. pose proof (Hm _ _ _ Hrun) as He.
  assert (Hi' : pool_inv w') by by eapply pool_env_inv.
  split; [by apply env_guar|]. split; [done|]. apply (HQ w w' Hi Hi'); [by left|done].
Qed.

Lemma on_rest_spec {A} t free (p : proc X A) Phi Q : answers Phi p -> stable t Q ->
  pspec_at pool_inv guar env anywhere free t (on_rest p) Q (fun r w => Q w /\ Phi r).
Proof.
  intros Hp HQ. revert free Hp. induction p as [r|B m k IH|p IHp q IHq]; cbn; intros free Hp.
  - by intros w _ Hw.
  - exists (fun _ => Q). split; [|split; [done|split; [by intros _|intros b; by apply IH]]].
    intros w b w' Hi Hw Hrun. destruct (m (pl_rest w)) as [[b' x]|]; [|discriminate]. injection Hrun as <- <-.
    assert (He : env w (set_rest x w)) by done. assert (Hi' : pool_inv (set_rest x w)) by by eapply pool_env_inv.
    split; [by apply env_guar|]. split; [done|]. apply (HQ w _ Hi Hi'); [by left|done].
  - destruct Hp as (Hr & Hp & Hq). split; [by destruct p|]. split; [by apply IHp|by apply IHq].
Qed.

(** Recording the health of an endpoint does not fail. *)
Lemma record_spec t g ep err Q : stable t Q ->
  spec t (record g ep err) Q (fun r w => Q w /\ exists u, r = inr u).
Proof.
  intros HQ. apply pspec_act; [intros r; auto with pool|]. intros w r w' Hi Hw [= <- <-].
  assert (He : env w (recorded g ep err w)) by done. split; [by apply env_guar|]. split; [by eapply pool_env_inv|].
  split; [by eapply env_stable|by eexists].
Qed.

(** *** The pool *)

Lemma dial_env_new t ctx g ep w r w' : dial t ctx g ep w = (r, w') ->
  (exists e, r = inl e /\ env w w') \/
  exists w1, env w w1 /\ new_conn t g ep w1 = (r, w').
Proof.
  unfold dial, mbind, M_bind. destruct (outside _ w) as [[e|[]] w1] eqn:Ho; intros Hrun.
  - injection Hrun as <- <-. left. exists e. split; [done|exact (outside_env _ _ _ _ Ho)].
  - right. exists w1. split; [exact (outside_env _ _ _ _ Ho)|done].
Qed.

Lemma elem_of_snoc {A} (l : list A) a b : a ∈ l ++ [b] <-> a ∈ l \/ a = b.
Proof. by rewrite elem_of_app, list_elem_of_singleton. Qed.

Lemma log_guar t ev w w' : caller ev = t -> pl_trace w' = pl_trace w ++ [ev] -> pl_conns w' = pl_conns w -> guar t w w'.
Proof.
  intros Hev Ht Hc. split; [|split].
  - exists [ev]. split; [done|by repeat constructor].
  - by rewrite Hc.
  - intros key c. rewrite Hc. auto.
Qed.

Lemma new_conn_inv t g ep w : pool_inv w -> pool_inv (new_conn t g ep w).2.
Proof.
  intros Hi. destruct Hi as [F U Po D I]. cbn. split; cbn; unfold pooled in *; cbn in *.
  - intros u c [Hin|[= -> ->]]%elem_of_snoc; [pose proof (F _ _ Hin)|cbn]; lia.
  - intros u c u' c' [Hin|[= -> ->]]%elem_of_snoc [Hin'|[= -> ->]]%elem_of_snoc Heq; eauto.
    + pose proof (F _ _ Hin) as Hlt. cbn in Heq. lia.
    + pose proof (F _ _ Hin') as Hlt. cbn in Heq. lia.
  - intros key c Hk. destruct (Po _ _ Hk) as (-> & u & Hu). split; [done|]. exists u. apply elem_of_snoc. by left.
  - intros u c [Hin|?]%elem_of_snoc; [|done]. destruct (D _ _ Hin) as [Hd Hp]. split; [|done]. apply elem_of_snoc. by left.
  - intros u c A req [Hin|?]%elem_of_snoc; [|done]. eauto.
Qed.

(** [Q] is kept by every step of other requests and by the connections this one
    dials, installs and drops. *)
Lemma dial_spec t ctx g ep :
  spec t (act (dial t ctx g ep)) (fun w => settled t w /\ quiet t w)
    (fun r w => quiet t w /\ match r with
                            | inl _ => settled t w
                            | inr c => in_hand t c w /\ key_of c = pool_key g ep
                            end).
Proof.
  apply pspec_act.
  { intros [e|c]; auto with pool. }
  intros w r w' Hi [Hs Hq] Hrun. destruct (dial_env_new _ _ _ _ _ _ _ Hrun) as [(e & -> & He)|(w1 & He & Hnew)].
  - split; [by apply env_guar|]. split; [by eapply pool_env_inv|].
    split; [exact (env_stable t _ _ _ Hi (quiet_call_stable t) He Hq)|exact (env_stable t _ _ _ Hi (settled_call_stable t) He Hs)].
  - pose proof (pool_env_inv _ _ Hi He) as Hi1. pose proof (env_stable t _ _ _ Hi (quiet_call_stable t) He Hq) as Hq1.
    pose proof (env_stable t _ _ _ Hi (settled_call_stable t) He Hs) as Hs1.
    injection Hnew as <- <-. pose proof (new_conn_inv t g ep w1 Hi1) as Hi'. set (c := MkClientConn (pl_next w1) g ep).
    assert (Hfresh : forall u, ~ (Dialed u c ∈ pl_trace w1)).
    { intros u Hin. pose proof (pi_fresh _ Hi1 _ _ Hin) as Hlt. cbn in Hlt. lia. }
    split; [|split; [exact Hi'|]].
    + destruct He as (Hc & Ht & _).
      apply (log_guar t (Dialed t c)); [done|cbn; by rewrite Ht|cbn; by rewrite Hc].
    + split.
      * intros c' A req [Hin|?]%elem_of_snoc; [exact (Hq1 _ _ _ Hin)|done].
      * split; [|done]. split; [cbn; apply elem_of_snoc; by right|]. split; [|split].
        -- intros Hp. destruct (pi_pooled _ Hi1 _ _ Hp) as (_ & u & Hu). by apply (Hfresh u).
        -- intros [Hin|?]%elem_of_snoc; [|done]. by apply (Hfresh t), (pi_dropped _ Hi1).
        -- intros c' [Hin|[= ->]]%elem_of_snoc; [right|by left].
           destruct (Hs1 _ Hin) as [Hp|Hd]; [by left|right]. cbn. apply elem_of_snoc. by left.
Qed.

Lemma install_inv t c w : pool_inv w -> in_hand t c w -> pl_conns w !! key_of c = None ->
  pool_inv (set_conns (<[key_of c := c]> (pl_conns w)) w).
Proof.
  intros Hi (Hd & Hp & Hn & _) Hnone. destruct Hi as [F U Po D I].
  assert (Hkeep : forall d, pooled d w -> pooled d (set_conns (<[key_of c := c]> (pl_conns w)) w)).
  { intros d Hpd. unfold pooled in *. cbn. rewrite lookup_insert_ne; [done|]. intros Heq. congruence. }
  split; cbn; [done|done| | |].
  - intros key d. rewrite lookup_insert_Some. intros [[<- <-]|[_ Hk]]; [|eauto]. split; [done|by exists t].
  - intros u d Hin. destruct (D _ _ Hin) as [Hud Hnp]. split; [done|]. unfold pooled. cbn.
    rewrite lookup_insert_Some. intros [[_ <-]|[_ Hk]]; [|done]. by destruct (U _ _ _ _ Hud Hd eq_refl) as [-> _].
  - intros u d A req Hin. destruct (I _ _ _ _ Hin) as [Hpd Hb]. split; [by apply Hkeep|done].
Qed.

Lemma install_spec t key c :
  spec t (act (install key c)) (fun w => quiet t w /\ in_hand t c w /\ key_of c = key)
    (fun r w => quiet t w /\ match r with
                            | inr None => settled t w /\ pooled c w /\ key_of c = key
                            | inr (Some old) => in_hand t c w /\ pooled old w /\ key_of old = key
                            | inl _ => False
                            end).
Proof.
  apply pspec_act.
  { intros [e|[old|]]; eauto 6 with pool. }
  intros w r w' Hi (Hq & Hh & <-). unfold install. destruct (pl_conns w !! key_of c) as [old|] eqn:Hk; intros [= <- <-].
  - destruct (pi_pooled _ Hi _ _ Hk) as [Hkey _]. assert (He : env w w) by done.
    split; [by apply env_guar|]. split; [done|]. split; [done|]. split; [done|]. split; [|done].
    unfold pooled. by rewrite <- Hkey.
  - pose proof (install_inv t c w Hi Hh Hk) as Hi'. destruct Hh as (Hd & _ & _ & Hrest).
    split; [|split; [done|split; [done|]]].
    + split; [exists []; by rewrite app_nil_r|]. split; [by apply insert_subseteq|].
      intros key d. cbn. rewrite lookup_insert_Some. intros [[<- <-]|[_ Hd']]; [by right|by left].
    + assert (Hpc : pooled c (set_conns (<[key_of c := c]> (pl_conns w)) w)) by apply lookup_insert_eq.
      split; [|by split]. intros c' Hc'. destruct (Hrest _ Hc') as [->|[Hp|Hdr]]; [by left|left|by right].
      unfold pooled in *. cbn. rewrite lookup_insert_ne; [done|congruence].
Qed.

Lemma drop_spec t c :
  spec t (act (drop_conn t c)) (fun w => in_hand t c w /\ quiet t w)
    (fun r w => settled t w /\ quiet t w).
Proof.
  apply pspec_act; [intros _; auto with pool|]. intros w r w' Hi [Hh Hq] Hrun.
  set (w1 := log_client (Dropped t c) w).
  assert (He : env w1 w').
  { unfold drop_conn in Hrun. eapply (respects_bind env (attempt (outside (dp_CloseConn c))) (fun _ => mret tt)); [apply _| | |exact Hrun].
    - apply respects_attempt, outside_env.
    - intros _. apply respects_ret, _. }
  destruct Hh as (Hd & Hp & Hn & Hrest).
  assert (Hi1 : pool_inv w1).
  { destruct Hi as [F U Po D I]. split; unfold pooled in *; cbn.
    - intros u d [Hin|?]%elem_of_snoc; [eauto|done].
    - intros u d u' d' [Hin|?]%elem_of_snoc [Hin'|?]%elem_of_snoc Heq; by eauto.
    - intros key d Hk. destruct (Po _ _ Hk) as (-> & u & Hu). split; [done|]. exists u. apply elem_of_snoc. by left.
    - intros u d [Hin|[= -> ->]]%elem_of_snoc.
      + destruct (D _ _ Hin). split; [|done]. apply elem_of_snoc. by left.
      + split; [apply elem_of_snoc; by left|done].
    - intros u d A req [Hin|?]%elem_of_snoc; [eauto|done]. }
  split; [|split; [by eapply pool_env_inv|]].
  - destruct He as (Hc & Ht & _). apply (log_guar t (Dropped t c)); [done|by rewrite Ht|by rewrite Hc].
  - split.
    + apply (env_stable t _ w1); [done|apply settled_call_stable|done|]. intros c' [Hc'|?]%elem_of_snoc; [|done].
      destruct (Hrest _ Hc') as [->|[Hpc|Hdr]]; [right|by left|right]; cbn; apply elem_of_snoc; [by right|by left].
    + apply (env_stable t _ w1); [done|apply quiet_call_stable|done|]. intros d A req [Hin|?]%elem_of_snoc; [exact (Hq _ _ _ Hin)|done].
Qed.

Definition idle (t : nat) (w : P) : Prop := settled t w /\ quiet t w.
Lemma idle_stable t : stable t (idle t).
Proof. apply stable_and; auto with pool. Qed.
#[local] Hint Resolve idle_stable : pool.

(** A connection for the endpoint of a gateway, pooled. *)
Lemma conn_spec t ctx g ep :
  spec t (conn t ctx g ep) (idle t)
    (fun r w => idle t w /\ match r with inl _ => True | inr c => pooled c w /\ key_of c = pool_key g ep end).
Proof.
  unfold conn. eapply (pspec_bind _ _ _ _ t _ _ _ (fun r w => idle t w /\
    match r with inr (Some c) => pooled c w /\ key_of c = pool_key g ep | _ => True end)).
  { apply pspec_act; [intros [e|[c|]]; auto with pool|]. intros w r w' Hi Hw [= <- <-]. assert (He : env w w) by done.
    split; [by apply env_guar|]. split; [done|]. split; [done|]. destruct (pl_conns w !! _) as [c|] eqn:Hk; [|done].
    destruct (pi_pooled _ Hi _ _ Hk) as [Hkey _]. split; [|done]. unfold pooled. by rewrite <- Hkey. }
  { by intros e w _ [Hw _]. }
  intros [c|]; [by intros w _ Hw|]. eapply (pspec_bind _ _ _ _ t _ _ _ (fun r w => quiet t w /\
    match r with inr (inl _) => settled t w | inr (inr c) => in_hand t c w /\ key_of c = pool_key g ep | inl _ => False end)).
  { eapply pspec_try; [eapply pspec_pre; [apply dial_spec|by intros w _ [Hw _]]|]. intros [e|c] w _ Hw; exact Hw. }
  { by intros e w _ [_ []]. }
  intros dialed. eapply pspec_bind; [apply record_spec; destruct dialed; auto with pool|by intros e w _ [_ [? ?]]|].
  intros []. destruct dialed as [e|c]; [intros w _ [[Hq Hs] _]; by repeat split|].
  eapply pspec_bind; [eapply pspec_pre; [apply install_spec|by intros w _ [Hw _]]|by intros e w _ [_ []]|].
  intros [old|]; [|by intros w _ (Hq & Hs & Hp & Hk)].
  eapply pspec_bind with (Q := fun _ w => idle t w /\ pooled old w /\ key_of old = pool_key g ep);
    [|by intros e w _ [Hw _]|by intros _ w _ Hw].
  eapply pspec_pre; [eapply pspec_post; [apply (pspec_keep _ _ _ _ t (fun w => pooled old w /\ key_of old = pool_key g ep)),
    drop_spec|]|].
  - intros w w' _ _ (_ & Hsub & _) [Hp Hk]. split; [|done]. by eapply lookup_weaken.
  - auto with pool.
  - intros r w _ [[Hs Hq] HK]. exact (conj (conj Hs Hq) HK).
  - intros w _ (Hq & Hh & Hp & Hk). exact (conj (conj Hh Hq) (conj Hp Hk)).
Qed.

(** *** One call *)

Section Request.
Variables (c : EngineClient) (t : nat).

(** A target with a pooled connection for it. *)
Definition reached (x : SessionEngineTarget * ClientConn) (w : P) : Prop :=
  pooled x.2 w /\ key_of x.2 = pool_key (tg_GatewayID x.1) (tg_GRPCEndpoint x.1).
Lemma reached_stable x : stable t (reached x).
Proof. apply stable_and; auto with pool. Qed.
#[local] Hint Resolve reached_stable : pool.

Lemma readQuery_spec ctx org session :
  spec t (readQuery t ctx org session) (idle t)
    (fun r w => idle t w /\ match r with inr x => reached x w | inl _ => True end).
Proof.
  unfold readQuery. eapply pspec_bind; [apply env_act; [apply outside_env|auto with pool]|by intros e w _ Hw|].
  intros target. eapply pspec_bind; [apply conn_spec|by intros e w _ [Hw _]|].
  intros conn w _ Hw. exact Hw.
Qed.

(** What a finished call leaves: nothing in hand, and no RPC if it proves so. *)
Definition finished {A} (r : goerr + A) (w : P) : Prop :=
  settled t w /\ match r with inl e => is_no_dispatch e = true -> quiet t w | inr _ => True end.

Lemma issue_spec target conn {A} (req : EngineRequest A) : request_target req = route target ->
  spec t (act (modify (log_client (Issued t conn req)))) (fun w => settled t w /\ reached (target, conn) w)
    (fun r w => settled t w /\ exists u, r = inr u).
Proof.
  intros Hroute. apply pspec_act; [intros r; auto with pool|]. intros w r w' Hi [Hs [Hp Hkey]] [= <- <-].
  assert (Hb : bound_to conn req).
  { intros g Hg. rewrite Hroute in Hg. injection Hg as <-. by eexists. }
  set (w' := log_client (Issued t conn req) w). assert (Hi' : pool_inv w').
  { destruct Hi as [F U Po D I]. split; unfold pooled in *; cbn.
    - intros u d [Hin|?]%elem_of_snoc; [eauto|done].
    - intros u d u' d' [Hin|?]%elem_of_snoc [Hin'|?]%elem_of_snoc Heq; by eauto.
    - intros key d Hk. destruct (Po _ _ Hk) as (-> & u & Hu). split; [done|]. exists u. apply elem_of_snoc. by left.
    - intros u d [Hin|?]%elem_of_snoc; [|done]. destruct (D _ _ Hin). split; [|done]. apply elem_of_snoc. by left.
    - intros u d B req' [Hin|Heq]%elem_of_snoc; [eauto|].
      change (match Issued u d req' with Issued _ d r => pl_conns w !! key_of d = Some d /\ bound_to d r | _ => True end).
      by rewrite Heq. }
  split; [by apply (log_guar t (Issued t conn req))|]. split; [done|]. split; [|by eexists].
  intros d [Hin|?]%elem_of_snoc; [|done]. destruct (Hs _ Hin) as [Hpd|Hd]; [by left|right]. cbn. apply elem_of_snoc. by left.
Qed.

Lemma invoke_spec ctx target conn {A} (req : EngineRequest A) : request_target req = route target ->
  spec t (invoke t ctx conn req) (fun w => settled t w /\ reached (target, conn) w) (fun r w => settled t w /\ no_proof r).
Proof.
  intros Hb. unfold invoke. eapply pspec_bind; [by apply issue_spec|by intros e w _ [_ [? ?]]|].
  intros u. eapply pspec_pre; [apply on_rest_spec; [apply invoke_statuses|auto with pool]|by intros w _ [Hw _]].
Qed.

Lemma mapped_no_proof e : is_no_dispatch e = false -> is_no_dispatch (mapEngineError e) = false.
Proof. intros He. unfold mapEngineError. by repeat case_bool_decide. Qed.

Lemma rpc_spec ctx target conn {A} (req : EngineRequest A) : request_target req = route target ->
  spec t (rpc t ctx target conn req) (fun w => settled t w /\ reached (target, conn) w) (fun r w => settled t w /\ no_proof r).
Proof.
  intros Hb. unfold rpc. eapply (pspec_bind _ _ _ _ t _ _ _ (fun r w => settled t w /\ exists r', r = inr r' /\ no_proof r')).
  - eapply pspec_try; [by apply invoke_spec|]. intros r w _ [Hs Hr]. eauto.
  - by intros e w _ [_ (r' & ? & _)].
  - intros r. eapply pspec_bind.
    + eapply pspec_pre; [apply (record_spec t _ _ _ (fun w => settled t w /\ no_proof r))|].
      * auto with pool.
      * intros w _ [Hs (r' & [= ->] & Hr)]. by split.
    + by intros e w _ [_ [? ?]].
    + intros [] w _ [[Hs Hr] _]. split; [done|]. destruct r as [e|a]; [|done]. by apply mapped_no_proof.
Qed.

(** The two ways a call goes on once it is routed: it makes its RPC, or fails
    before. *)
Definition at_hand (x : SessionEngineTarget * ClientConn) (w : P) : Prop := idle t w /\ reached x w.
Lemma at_hand_stable x : stable t (at_hand x).
Proof. apply stable_and; auto with pool. Qed.
#[local] Hint Resolve at_hand_stable : pool.

Lemma answered {A} (r : goerr + A) w : settled t w -> no_proof r -> finished r w.
Proof. intros Hs Hr. split; [done|]. destruct r as [e|]; [|done]. cbn in Hr. by rewrite Hr. Qed.

Lemma call_rpc ctx target conn {A B} (req : EngineRequest A) (k : A -> proc P B) :
  request_target req = route target ->
  (forall a, spec t (k a) (settled t) (fun r w => settled t w /\ no_proof r)) ->
  spec t (rpc t ctx target conn req ≫= k) (at_hand (target, conn)) finished.
Proof.
  intros Hr Hk. eapply pspec_bind; [eapply pspec_pre; [by apply (rpc_spec ctx target conn)|]| |].
  - by intros w _ [[Hs _] Hre].
  - intros e w _ [Hs He]. by apply answered.
  - intros a. eapply pspec_post; [eapply pspec_pre; [apply Hk|by intros w _ [Hs _]]|].
    intros r w _ [Hs He]. by apply answered.
Qed.

Lemma call_routed ctx org session {A} (k : SessionEngineTarget * ClientConn -> proc P A) :
  (forall x, spec t (k x) (at_hand x) finished) ->
  spec t (readQuery t ctx org session ≫= k) (idle t) finished.
Proof.
  intros Hk. eapply pspec_bind; [apply readQuery_spec| |].
  - intros e w _ [[Hs Hq] _]. by split.
  - intros x. eapply pspec_pre; [apply Hk|]. by intros w _ [Hw Hx].
Qed.

Lemma call_refused {A} (e : goerr) (Q : P -> Prop) : (forall w, Q w -> idle t w) -> spec t (pthrow e : proc P A) Q finished.
Proof. intros HQ w _ Hw. destruct (HQ w Hw). by split. Qed.

Lemma call_ulid {A} x (k : string -> proc P A) :
  (forall id, spec t (k id) (at_hand x) finished) -> spec t (new_ulid ≫= k) (at_hand x) finished.
Proof.
  intros Hk. eapply pspec_bind; [apply env_act; [apply outside_env|auto with pool]| |exact Hk].
  intros e w _ [[Hs Hq] _]. by split.
Qed.

Lemma settled_return {A} (r : goerr + A) : no_proof r -> spec t (Return r) (settled t) (fun r w => settled t w /\ no_proof r).
Proof. by intros Hr w _ Hw. Qed.

(** A part of a call that makes no RPC of its own, whatever it returns. *)
Definition keeps {A} (Q : P -> Prop) (p : proc P A) : Prop := spec t p Q (fun _ => Q).

Lemma keeps_return {A} Q (r : goerr + A) : keeps Q (Return r).
Proof. by intros w _ Hw. Qed.
Lemma keeps_act {A} Q (m : M P A) : respects env m -> stable t Q -> keeps Q (act m).
Proof. intros Hm HQ. by apply env_act. Qed.
Lemma keeps_bind {A B} Q (p : proc P A) (k : A -> proc P B) : keeps Q p -> (forall a, keeps Q (k a)) -> keeps Q (p ≫= k).
Proof. intros Hp Hk. eapply pspec_bind; [exact Hp|by intros e w _ Hw|exact Hk]. Qed.
Lemma keeps_map_err {A} Q f (p : proc P A) : keeps Q p -> keeps Q (pmap_err f p).
Proof. intros Hp. eapply pspec_then; [exact Hp|]. by intros r w _ Hw. Qed.
Lemma keeps_try {A} Q (p : proc P A) : keeps Q p -> keeps Q (ptry p).
Proof. intros Hp. eapply pspec_try; [exact Hp|]. by intros r w _ Hw. Qed.

Lemma call_step {A B} x (p : proc P A) (k : A -> proc P B) : keeps (at_hand x) p ->
  (forall a, spec t (k a) (at_hand x) finished) -> spec t (p ≫= k) (at_hand x) finished.
Proof. intros Hp Hk. eapply pspec_bind; [exact Hp| |exact Hk]. intros e w _ [[Hs Hq] _]. by split. Qed.

Lemma call_routed_guarded ctx org session {A} (k : SessionEngineTarget * ClientConn -> proc P A) :
  (forall x, spec t (k x) (at_hand x) finished) ->
  spec t (no_dispatch (readQuery t ctx org session) ≫= k) (idle t) finished.
Proof.
  intros Hk. eapply (pspec_bind _ _ _ _ t _ _ _ (fun r w => idle t w /\ match r with inr x => reached x w | inl _ => True end)).
  - eapply pspec_then; [apply readQuery_spec|]. intros [e|x] w _ Hw; exact Hw.
  - intros e w _ [[Hs Hq] _]. by split.
  - intros x. eapply pspec_pre; [apply Hk|]. by intros w _ [Hw Hx].
Qed.

Lemma keeps_quote x ctx sessionID req : keeps (at_hand x) (resolveQuote ctx sessionID req).
Proof.
  unfold resolveQuote. case_bool_decide; [apply keeps_return|]. destruct dp_GetByWAID as [get|]; [|apply keeps_return].
  apply keeps_bind; [apply keeps_try, keeps_act; [apply outside_env|auto with pool]|].
  intros [e|msg]; [destruct (is_not_found e)|destruct (negb _)]; apply keeps_return.
Qed.

Lemma keeps_deadline x expiresAt : keeps (at_hand x) (before_deadline expiresAt).
Proof. destruct expiresAt; [|apply keeps_return]. apply keeps_act; [|auto with pool]. by intros w r w' [= _ <-]. Qed.

(** *** The calls *)

Ltac call_end := apply call_rpc; [reflexivity|intros ?; try (apply settled_return; done)].

Lemma SendMessage_spec command : spec t (SendMessage t c command) (idle t) finished.
Proof.
  unfold SendMessage. case_bool_decide; [by apply call_refused|].
  apply call_routed_guarded. intros [target conn]. apply call_step; [apply keeps_deadline|]. intros fresh.
  apply call_step; [|intros [[prepared projected] quote]; apply call_step].
  - destruct fresh; [|apply keeps_return]. apply keeps_bind.
    + apply keeps_map_err, keeps_act; [apply outside_env|auto with pool].
    + intros prepared. apply keeps_bind; [apply keeps_map_err, keeps_quote|]. intros quote. apply keeps_return.
  - apply keeps_map_err, keeps_map_err, keeps_return.
  - intros payload. call_end.
Qed.

Lemma ExecuteOp_spec command : spec t (ExecuteOp t c command) (idle t) finished.
Proof.
  unfold ExecuteOp. case_bool_decide; [by apply call_refused|].
  apply call_routed_guarded. intros [target conn]. call_end.
Qed.

Lemma refused_at_hand {A} x (e : goerr) : spec t (pthrow e : proc P A) (at_hand x) finished.
Proof. apply call_refused. by intros w [Hw _]. Qed.

Lemma MutateGroup_spec command : spec t (MutateGroup t c command) (idle t) finished.
Proof.
  unfold MutateGroup. case_bool_decide; [by apply call_refused|]. apply call_routed. intros [target conn].
  destruct (gm_Kind command); try call_end; [|apply refused_at_hand].
  destruct (participantChangeProto _) as [action [|]]; [call_end|apply refused_at_hand].
Qed.

Lemma await_route_spec ctx polls org session :
  keeps (idle t) (await_route ctx polls org session).
Proof.
  induction polls as [|polls IH]; cbn [await_route];
    (apply keeps_bind; [apply keeps_try, keeps_act; [apply outside_env|auto with pool]|];
     intros [e|target]; [destruct (is_not_found e)|destruct (_ =? _)]; try apply keeps_return; exact IH).
Qed.

Lemma PrepareSession_spec polls org session : spec t (PrepareSession t c polls org session) (idle t) finished.
Proof.
  unfold PrepareSession. eapply pspec_bind; [apply await_route_spec|intros e w _ [Hs Hq]; by split|].
  intros target. eapply pspec_bind; [apply conn_spec|intros e w _ [[Hs Hq] _]; by split|].
  intros conn. eapply pspec_pre; [call_end|]. by intros w _ Hw.
Qed.

Lemma DownloadMedia_spec org session source : spec t (DownloadMedia t c org session source) (idle t) finished.
Proof.
  unfold DownloadMedia. apply call_routed. intros [target conn].
  eapply (pspec_bind _ _ _ _ t _ _ _ (fun r w => settled t w /\ no_proof r)).
  - eapply pspec_then; [eapply pspec_pre; [by apply (invoke_spec _ target)|by intros w _ [[Hs _] Hr]]|].
    intros r w _ [Hs Hr]. split; [done|]. destruct r as [e|]; [by apply mapped_no_proof|done].
  - intros e w _ [Hs Hr]. by apply answered.
  - intros result w _ [Hs _]. by split.
Qed.

Lemma finished_map {A B} (f : A -> B) (p : proc P A) Q : spec t p Q finished -> spec t (pmap f p) Q finished.
Proof. intros Hp. eapply pspec_then; [exact Hp|]. intros [e|a] w _ Hw; exact Hw. Qed.

Lemma perform_call_spec q : spec t (perform_call c t q) (idle t) finished.
Proof.
  destruct q; cbn [perform_call]; try apply finished_map.
  all: try first [apply SendMessage_spec|apply ExecuteOp_spec|apply MutateGroup_spec|apply PrepareSession_spec|apply DownloadMedia_spec].
  all: apply call_routed; intros [target conn]; try (apply call_ulid; intros id); call_end.
  - unfold client_sessionStatus. destruct (gss_status _); apply settled_return; done.
  - destruct (bsr_snapshot _); apply settled_return; done.
Qed.
End Request.

(** *** Any number of calls

    A call starts under a number of its own; between the steps of the calls the
    rest of the process and of the deployment takes its own. *)
Abbreviation sys := (system P unit).

Inductive pool_step (c : EngineClient) (s : sys) : sys -> Prop :=
  | pool_action t side s' : step_thread t side s = Some s' -> pool_step c s s'
  | pool_call t q : sy_threads s !! t = None -> Forall (fun ev => caller ev <> t) (pl_trace (sy_world s)) ->
      pool_step c s (MkSystem (sy_world s) (<[t := perform_call c t q]> (sy_threads s)))
  | pool_rest w' : env (sy_world s) w' -> pool_step c s (MkSystem w' (sy_threads s)).

(** [NewEngineClient] has just returned. *)
Definition fresh_pool (s : sys) : Prop :=
  sy_threads s = ∅ /\ pl_conns (sy_world s) = ∅ /\ pl_trace (sy_world s) = [].

Definition pool_reachable (c : EngineClient) (s : sys) : Prop := exists s0, fresh_pool s0 /\ rtc (pool_step c) s0 s.
Definition pool_ok (s : sys) : Prop := system_ok pool_inv guar env anywhere (fun t => finished t) s.

(** A connection that is dialed is in hand, pooled or closed. *)
Lemma pool_reachable_ok c s : pool_reachable c s -> pool_ok s /\
  forall t conn, Dialed t conn ∈ pl_trace (sy_world s) -> is_Some (sy_threads s !! t).
Proof.
  intros (s0 & (Ht & Hc & Htr) & Hs). assert (H0 : pool_ok s0 /\
    forall t conn, Dialed t conn ∈ pl_trace (sy_world s0) -> is_Some (sy_threads s0 !! t)).
  { split; [|rewrite Htr; by intros t conn ?%not_elem_of_nil]. split; [|intros t p; by rewrite Ht, lookup_empty].
    split; rewrite ?Htr; try (intros; exfalso; by eapply not_elem_of_nil).
    intros key conn. by rewrite Hc, lookup_empty. }
  clear Ht Hc Htr. induction Hs as [s|s s1 s' Hst _ IH]; [done|]. apply IH. clear IH.
  destruct H0 as [Hok Hown]. destruct Hst as [t side s1 Hst|t q Hnone Hnew|w' He].
  - destruct (step_thread_ok _ _ _ _ _ _ _ _ _ Hok Hst) as [[(l & Hl & Hcall) _] Hok1]. split; [done|].
    unfold step_thread in Hst. apply bind_Some in Hst as (p & Hp & ([p' w1] & _ & [= <-])%bind_Some). cbn in *.
    intros u conn. rewrite Hl. intros [Hin|Hin]%elem_of_app.
    + apply Hown in Hin. destruct (decide (u = t)) as [->|Hne]; [rewrite lookup_insert_eq; by eexists|by rewrite lookup_insert_ne].
    + rewrite Forall_forall in Hcall. rewrite <- (Hcall _ Hin). cbn. rewrite lookup_insert_eq. by eexists.
  - split.
    + eapply spawn_ok; [exact Hok|apply idle_stable| |apply perform_call_spec]. rewrite Forall_forall in Hnew.
      split; [intros conn Hin|intros conn A req Hin]; by destruct (Hnew _ Hin).
    + intros u conn Hin. cbn in *. apply Hown in Hin.
      destruct (decide (u = t)) as [->|Hne]; [rewrite lookup_insert_eq; by eexists|by rewrite lookup_insert_ne].
  - split; [by apply env_step_ok, (pool_env_inv (sy_world s)); [|exact He|apply Hok|]|].
    destruct He as (_ & Htr & _). cbn. rewrite Htr. exact Hown.
Qed.

(** The pool, whatever calls run at once and however their steps interleave.
    An RPC is issued only over a connection that is in the pool, was never
    closed, and was dialed - its TLS handshake pinned - for the very gateway the
    request names. A finished call leaves nothing behind: each connection it
    dialed is either the pooled one of its endpoint or has been closed. *)
Theorem rpcs_use_pooled_connections c s : pool_reachable c s ->
  let trace := pl_trace (sy_world s) in
  (forall t conn A (req : EngineRequest A), Issued t conn req ∈ trace ->
     pooled conn (sy_world s) /\ (forall u, ~ (Dropped u conn ∈ trace)) /\
     forall g, request_target req = Some g -> nul_free (t_GatewayId g) = true -> nul_free (cn_GatewayID conn) = true ->
       cn_GatewayID conn = t_GatewayId g) /\
  (forall t conn r, sy_threads s !! t = Some (Return r) -> Dialed t conn ∈ trace ->
     (pooled conn (sy_world s) /\ forall u, ~ (Dropped u conn ∈ trace)) \/
     (Dropped t conn ∈ trace /\ ~ pooled conn (sy_world s))).
Proof.
  intros [[Hi Hok] _]%pool_reachable_ok trace. split.
  - intros t conn A req Hin. destruct (pi_issued _ Hi _ _ _ _ Hin) as [Hp Hb]. split; [done|]. split.
    + intros u Hd. by destruct (pi_dropped _ Hi _ _ Hd).
    + intros g Hg Hn Hn'. destruct (Hb g Hg) as [ep Hep]. by eapply pool_key_inj.
  - intros t conn r Ht Hd. destruct (thread_ok_result _ _ _ _ _ _ _ _ Hi (Hok _ _ Ht)) as [Hs _].
    destruct (Hs _ Hd) as [Hp|Hdr]; [left; split; [done|]|right; split; [done|]].
    + intros u Hdr. by destruct (pi_dropped _ Hi _ _ Hdr).
    + by apply (pi_dropped _ Hi _ _ Hdr).
Qed.

(** C10: A [NoDispatchError] is the proof it is meant to be: a call that ends with
    one, whatever else runs, has issued no RPC. *)
Theorem no_dispatch_means_no_call c s t e : pool_reachable c s ->
  sy_threads s !! t = Some (Return (inl e)) -> is_no_dispatch e = true ->
  forall conn A (req : EngineRequest A), ~ (Issued t conn req ∈ pl_trace (sy_world s)).
Proof.
  intros [[Hi Hok] _]%pool_reachable_ok Ht He.
  destruct (thread_ok_result _ _ _ _ _ _ _ _ Hi (Hok _ _ Ht)) as [_ Hq]. exact (Hq He).
Qed.

Lemma pool_runs c sched s s' : run_threads sched s = Some s' -> rtc (pool_step c) s s'.
Proof.
  revert s. induction sched as [|[t side] sched IH]; intros s Hrun; [by injection Hrun as ->|].
  cbn in Hrun. apply bind_Some in Hrun as (s1 & Hst & Hrun). eapply rtc_l; [by eapply pool_action|by apply IH].
Qed.

(** Calls that start one after the other. *)
Definition start_calls (c : EngineClient) (s : sys) (calls : list (nat * client_call)) : sys :=
  foldl (fun s q => MkSystem (sy_world s) (<[q.1 := perform_call c q.1 q.2]> (sy_threads s))) s calls.

Lemma pool_starts c calls s : pl_trace (sy_world s) = [] -> NoDup calls.*1 ->
  (forall t, t ∈ calls.*1 -> sy_threads s !! t = None) -> rtc (pool_step c) s (start_calls c s calls).
Proof.
  revert s. induction calls as [|[t q] calls IH]; intros s Htr Hnd Hnone; [reflexivity|].
  apply NoDup_cons in Hnd as [Hnotin Hnd]. eapply rtc_l; [apply (pool_call c s t q)|apply IH]; cbn; try done.
  - apply Hnone. by left.
  - by rewrite Htr.
  - intros u Hu. rewrite lookup_insert_ne by (intros ->; done). apply Hnone. by right.
Qed.
End Pool.

(** ** A concrete deployment: one gateway, one session *)

#[local] Instance demo_deployment : Deployment Z := {|
  dp_Resolve _ org session :=
    if bool_decide (session = "s1") then mret (MkSessionEngineTarget "s1" "org" "g1" "10.0.0.1:9000" 1 1 1 1)
    else throw (ErrNotFound "session has no gateway");
  dp_Dial _ _ _ := mret tt;
  dp_CloseConn _ := mret tt;
  dp_Invoke A _ _ req :=
    match req in EngineRequest A return proc Z A with
    | SetBlockedRequest g epoch id _ _ => Atomic (fun x => Some (tt, x + 1)) (fun _ => Return (inr (MkSetBlockedResponse id g epoch)))
    | _ => Return (inl (ErrStatus "Unavailable" "not served"))
    end;
  dp_GetByWAID := None;
  dp_Now x := 1700000000 * Second;
  dp_NewULID x := ("01JD", x);
|}.

#[local] Instance demo_deployment_laws : DeploymentLaws Z.
Proof. split. intros A ctx conn req. by destruct req. Qed.

#[local] Instance demo_http : MediaHTTP Z := {|
  mh_ValidURL _ := false; mh_Get _ _ := throw (ErrMsg "unreachable");
|}.
#[local] Instance demo_json : SendCodec := {|
  marshal_send _ := inr ["s"%byte]; unmarshal_send _ := inl (ErrMsg "unused");
  marshal_op _ := inl (ErrMsg "unused"); unmarshal_op _ := inl (ErrMsg "unused"); payload_json _ := JNull;
|}.
#[local] Instance demo_lib : OutboundLib := {| url_Parse _ := None; sha256_Sum256 _ := []; go_quote s := s |}.

Definition demo_client : EngineClient := MkEngineClient Second (30 * Second).
Definition demo_begin : system (pool Z) unit := MkSystem (MkPool ∅ ∅ 0 [] 0) ∅.
Definition demo_calls : list (nat * client_call) :=
  [(0%nat, CallSetBlocked "org" "s1" "a" true); (1%nat, CallSetBlocked "org" "s1" "b" true);
   (2%nat, CallExecuteOp (MkMessageOpCommand (MkMutationResult "cmd" "org" "gone" "" 0) "react" "" "" "m" "" "" [] "" None))].
Definition demo_started : system (pool Z) unit := start_calls demo_client demo_begin demo_calls.

(** Calls 0 and 1 both find the pool empty and dial; 0 installs first. *)
Definition demo_schedule : list (nat * bool) :=
  (fun t => (t, true)) <$> [0; 1; 0; 1; 0; 1; 0; 1; 0; 1; 1; 0; 0; 0; 0; 1; 1; 1; 1; 2]%nat.
Definition demo_finished : system (pool Z) unit := default demo_begin (run_threads demo_schedule demo_started).

Definition demo_conn (n : nat) : ClientConn := MkClientConn n "g1" "10.0.0.1:9000".

Lemma demo_finished_eq : run_threads demo_schedule demo_started = Some demo_finished.
Proof. vm_compute. reflexivity. Qed.


Lemma demo_reachable : pool_reachable demo_client demo_finished.
Proof.
  exists demo_begin. split; [done|]. transitivity demo_started; [|apply pool_runs with demo_schedule, demo_finished_eq].
  apply pool_starts; [done|by apply (bool_decide_unpack _); vm_compute|]. intros t _. apply lookup_empty.
Qed.

(** Call 1 closed the connection it had dialed and used the one of call 0. *)
Lemma rpcs_use_pooled_connections_witness :
  pool_reachable demo_client demo_finished /\
  pooled (demo_conn 0) (sy_world demo_finished) /\ Dropped 1 (demo_conn 1) ∈ pl_trace (sy_world demo_finished) /\
  ~ pooled (demo_conn 1) (sy_world demo_finished).
Proof.
  assert (Hr : pool_reachable demo_client demo_finished) by exact demo_reachable. split; [exact Hr|].
  destruct (rpcs_use_pooled_connections demo_client demo_finished Hr) as [Hissued Hdialed].
  assert (H1 : sy_threads demo_finished !! 1%nat = Some (Return (inr tt))) by (vm_compute; reflexivity).
  assert (Hd : Dialed 1 (demo_conn 1) ∈ pl_trace (sy_world demo_finished)) by (vm_compute; right; left).
  split; [|].
  - apply (Hissued 1%nat (demo_conn 0) _ (SetBlockedRequest (Some (MkSessionTarget "org" "s1" "g1")) 1 "01JD" "b" true)).
    vm_compute. do 4 right. left.
  - destruct (Hdialed 1%nat (demo_conn 1) (inr tt) H1 Hd) as [[Hp _]|H]; [|exact H].
    exfalso. vm_compute in Hp. discriminate.
Defined.

Lemma no_dispatch_means_no_call_witness :
  sy_threads demo_finished !! 2%nat = Some (Return (inl (ErrNoDispatch (ErrNotFound "session has no gateway")))) /\
  forall conn A (req : EngineRequest A), ~ (Issued 2 conn req ∈ pl_trace (sy_world demo_finished)).
Proof.
  assert (H2 : sy_threads demo_finished !! 2%nat = Some (Return (inl (ErrNoDispatch (ErrNotFound "session has no gateway")))))
    by (vm_compute; reflexivity).
  split; [exact H2|]. exact (no_dispatch_means_no_call demo_client demo_finished 2 _ demo_reachable H2 eq_refl).
Defined.
