(* ===== verification/EngineRpc.v ===== *)
(** The two ends of the engine RPCs put together. A call of the API's client is
    shown to be the engine's operation, run at the resolved gateway under the
    resolved routing with the caller's arguments, between which only the listed
    faults of the wire stand; which error codes survive the way back; and what
    becomes of media. *)
From S2P Require Import Prelude Journal Domain Outbound Scheduler GatewayStore GatewayEngine Concurrency Base64.
From S2P Require Import EngineServer EngineMedia EngineClient EngineClientSpec.

#[local] Open Scope Z_scope.

(** ** Errors *)

(** The code an API error has after crossing the wire. *)
Definition wire_code (err : goerr) : option string :=
  if errors_is Canceled err || errors_is DeadlineExceeded err then None
  else match api_code err with
       | Some code =>
           if bool_decide (code ∈ [CodeValidationError; CodeNotImplemented; CodeNotFound; CodeConflict]) then Some code
           else None
       | None => None
       end.

Lemma api_code_message err : is_none (api_code err) = is_none (api_message err).
Proof. by induction err; cbn; try done; destruct (api_code err1), (api_message err1). Qed.

(** What the API learns of an engine error. Four codes cross the wire as they
    are - validation, not implemented (with its message), not found and conflict;
    every other error, "forbidden" and cancellation included, arrives without a
    code; and none ever arrives as a [NoDispatchError]. *)
Theorem error_codes_over_the_wire err :
  api_code (mapEngineError (grpcError err)) = wire_code err /\
  is_no_dispatch (mapEngineError (grpcError err)) = false /\
  (wire_code err = Some CodeNotImplemented ->
     api_message (mapEngineError (grpcError err)) = api_message err).
Proof.
  unfold wire_code, grpcError. destruct (errors_is Canceled err); [done|]. destruct (errors_is DeadlineExceeded err); [done|].
  cbn [orb]. destruct (api_code err) as [code|] eqn:Hc; [|done].
  destruct (decide (code = CodeValidationError)) as [->|H1]; [done|].
  destruct (decide (code = CodeNotImplemented)) as [->|H2].
  { split; [done|]. split; [done|]. intros _. cbn. destruct (api_message err) eqn:Hm; [done|].
    pose proof (api_code_message err) as Hn. by rewrite Hc, Hm in Hn. }
  destruct (decide (code = CodeNotFound)) as [->|H3]; [done|]. destruct (decide (code = CodeConflict)) as [->|H4]; [done|].
  rewrite !(bool_decide_eq_false_2 (code = _)) by done. rewrite (bool_decide_eq_false_2 (code ∈ _)).
  - by case_bool_decide.
  - rewrite !not_elem_of_cons. repeat split; try done. by apply not_elem_of_nil.
Qed.

(** ** The wire *)

(** A request that does not arrive, and a reply that does not. *)
Inductive wire_fault := RequestLost (e : goerr) | ReplyLost (e : goerr).

Section Loopback.
Context {X : Type} `{HD : Deployment X} `{HE : GatewayEngine X} `{HM : MediaHTTP X} `{HJ : SendCodec} `{HL : OutboundLib}.

(** The server behind an endpoint, the next fault of the wire, and the encoded
    size of a message. *)
Variables (hosts : string -> Server) (next_fault : M X (option wire_fault)) (size : forall A, EngineRequest A -> Z).

Definition too_large : goerr := ErrStatus "ResourceExhausted" "trying to send message larger than max".

(** One delivery: the request runs unless it is lost, also when its reply is. *)
Definition carried {A} (large : bool) (p : proc X A) : proc X A :=
  if large then pthrow too_large
  else
    fault ← act next_fault;
    match fault with
    | None => p
    | Some (RequestLost e) => pthrow e
    | Some (ReplyLost e) => ptry p;; pthrow e
    end.

Definition oversized {A} (req : EngineRequest A) : bool := MaxEngineMessageBytes <? size A req.

#[local] Instance loopback : Deployment X := {|
  dp_Resolve := @dp_Resolve X HD;
  dp_Dial := @dp_Dial X HD;
  dp_CloseConn := @dp_CloseConn X HD;
  dp_Invoke A _ conn req := carried (oversized req) (serve (hosts (cn_Endpoint conn)) req);
  dp_GetByWAID := @dp_GetByWAID X HD;
  dp_Now := @dp_Now X HD;
  dp_NewULID := @dp_NewULID X HD;
|}.

(** ** What a remote call is

    [p] is what the gateway runs; the RPC around it is issued, recorded and its
    error mapped as for every call. *)
Definition remote {R B} (t : nat) (target : SessionEngineTarget) (conn : ClientConn) (req : EngineRequest R) (p : proc X B)
  : proc (pool X) B :=
  r ← ptry (act (modify (log_client (Issued t conn req)));; on_rest (carried (oversized req) p));
  record (tg_GatewayID target) (tg_GRPCEndpoint target) (error_of r);;
  Return (match r with inl e => inl (mapEngineError e) | inr a => inr a end).

(** The server takes the routing of a target. *)
Definition routes_to (s : Server) (target : SessionEngineTarget) : bool :=
  sv_Engine s && negb (bool_decide (sv_GatewayID s = "")) && negb (bool_decide (tg_OrganizationID target = "")) &&
  negb (bool_decide (tg_SessionID target = "")) && bool_decide (tg_GatewayID target = sv_GatewayID s).

(** The message of the first check that fails. *)
Fixpoint refusal (checks : list (bool * string)) : option string :=
  match checks with
  | [] => None
  | (bad, message) :: rest => if bad then Some message else refusal rest
  end.

(** The gateway's part of a call: refused for its routing, refused for its
    arguments, or the operation of the engine. *)
Definition admitted {B} (routable : bool) (checks : list (bool * string)) (p : proc X B) : proc X B :=
  if negb routable then pthrow (ErrStatus "InvalidArgument" "invalid request")
  else match refusal checks with
       | Some message => pthrow (ErrStatus "InvalidArgument" message)
       | None => pmap_err grpcError p
       end.

Definition at_gateway (conn : ClientConn) (target : SessionEngineTarget) : bool := routes_to (hosts (cn_Endpoint conn)) target.
Definition query_at_gateway (conn : ClientConn) (target : SessionEngineTarget) : bool :=
  at_gateway conn target && negb (tg_AssignmentEpoch target =? 0).
Definition query_of (target : SessionEngineTarget) : SessionStateQuery :=
  MkSessionStateQuery (tg_OrganizationID target) (tg_SessionID target) (tg_GatewayID target) (tg_AssignmentEpoch target).

(** *** Fusion *)

#[local] Instance on_rest_proper {A} : Proper ((≡) ==> (≡)) (@on_rest X A).
Proof.
  intros p. induction p as [r|B m k IH|p IHp q IHq]; intros p'; cbn.
  - by intros ->.
  - intros (k' & -> & Hk). eexists. split; [reflexivity|]. intros b. by apply IH.
  - intros (q1 & q2 & -> & H1 & H2). eexists _, _. split; [reflexivity|]. split; [by apply IHp|by apply IHq].
Qed.

Lemma on_rest_then {A B} (p : proc X A) (k : goerr + A -> proc X B) :
  on_rest (pthen p k) ≡ pthen (on_rest p) (fun r => on_rest (k r)).
Proof.
  induction p as [r|Y m c IH|p IHp q IHq]; cbn; [reflexivity| |].
  - eexists. split; [reflexivity|]. exact IH.
  - eexists _, _. split; [reflexivity|]. by split.
Qed.

Definition map_ok {A B} (f : A -> B) (r : goerr + A) : goerr + B := match r with inl e => inl e | inr a => inr (f a) end.

Lemma pmap_bind {W A B C} (f : A -> B) (p : proc W A) (k : B -> proc W C) : pmap f p ≫= k ≡ p ≫= (fun a => k (f a)).
Proof. unfold pmap, mbind, proc_bind. rewrite pthen_assoc. apply pthen_proper; [reflexivity|]. by intros [e|a]. Qed.

#[local] Instance bind_proper {W A B} : Proper (pointwise_relation _ (≡) ==> (≡) ==> (≡)) (@mbind (proc W) _ A B).
Proof. intros k k' Hk p p' Hp. apply pthen_proper; [done|]. intros [e|a]; [reflexivity|apply Hk]. Qed.

Lemma bind_congr {W A B} (p : proc W A) (k k' : A -> proc W B) : (forall a, k a ≡ k' a) -> p ≫= k ≡ p ≫= k'.
Proof. intros Hk. apply pthen_proper; [reflexivity|]. intros [e|a]; [reflexivity|apply Hk]. Qed.

Lemma carried_map {A B} (f : A -> B) large (p : proc X A) : carried large (pmap f p) ≡ pmap f (carried large p).
Proof.
  unfold carried. destruct large; [reflexivity|]. unfold pmap, mbind, proc_bind. rewrite pthen_assoc.
  apply pthen_proper; [reflexivity|]. intros [e|[[e|e]|]]; [reflexivity..| |reflexivity].
  unfold ptry. rewrite !pthen_assoc. apply pthen_proper; [reflexivity|]. intros [e'|a]; reflexivity.
Qed.

#[local] Instance carried_proper {A} large : Proper ((≡) ==> (≡)) (@carried A large).
Proof.
  intros p q Hpq. unfold carried. destruct large; [reflexivity|]. apply bind_congr.
  intros [[e|e]|]; [reflexivity| |exact Hpq]. unfold ptry, mbind, proc_bind.
  apply pthen_proper; [apply pthen_proper; [exact Hpq|]|]; by intros r.
Qed.

Lemma on_rest_map {A B} (f : A -> B) (p : proc X A) : on_rest (pmap f p) ≡ pmap f (on_rest p).
Proof. unfold pmap. rewrite on_rest_then. apply pthen_proper; [reflexivity|]. by intros [e|a]. Qed.

(** A handler that answers with the image of what the engine returns makes its
    RPC a remote call. *)
Lemma rpc_remote {R B} t ctx target conn (req : EngineRequest R) (respond : B -> R) (p : proc X B) :
  serve (hosts (cn_Endpoint conn)) req ≡ pmap respond p ->
  rpc t ctx target conn req ≡ pmap respond (remote t target conn req p).
Proof.
  intros Hs. assert (Hin : on_rest (carried (oversized req) (serve (hosts (cn_Endpoint conn)) req)) ≡
                           pmap respond (on_rest (carried (oversized req) p))) by by rewrite Hs, carried_map, on_rest_map.
  unfold rpc, invoke, remote, pmap, ptry, mbind, proc_bind in *. cbn [dp_Invoke loopback]. rewrite !pthen_assoc.
  apply pthen_proper; [reflexivity|]. intros [e|[]]; cbn [pthen].
  - symmetry. etransitivity; [apply pthen_assoc|]. apply pthen_proper; [reflexivity|]. by intros [e'|[]].
  - etransitivity; [apply pthen_congr_l, Hin|]. etransitivity; [apply pthen_assoc|].
    apply pthen_proper; [reflexivity|]. intros [e|a]; cbn [pthen]; symmetry; (etransitivity; [apply pthen_assoc|]);
      (apply pthen_proper; [reflexivity|]); by intros [e'|[]].
Qed.

Lemma rpc_call {R B A} t ctx target conn (req : EngineRequest R) (respond : B -> R) (p : proc X B)
  (k : R -> proc (pool X) A) (k' : B -> proc (pool X) A) :
  serve (hosts (cn_Endpoint conn)) req ≡ pmap respond p -> (forall v, k (respond v) ≡ k' v) ->
  rpc t ctx target conn req ≫= k ≡ remote t target conn req p ≫= k'.
Proof.
  intros Hs Hk. etransitivity; [apply pthen_congr_l, (rpc_remote _ _ _ _ _ _ _ Hs)|].
  etransitivity; [apply pmap_bind|]. by apply bind_congr.
Qed.

(** *** The handlers, on the requests the client makes *)

Lemma target_route sv tg : EngineServer.target sv (route tg) =
  if routes_to sv tg then inr (sessionTargetProto tg) else inl (ErrValidation "invalid gateway target").
Proof.
  unfold EngineServer.target, routes_to, route, sessionTargetProto. cbn.
  destruct (sv_Engine sv), (bool_decide (sv_GatewayID sv = "")), (bool_decide (tg_OrganizationID tg = "")),
    (bool_decide (tg_SessionID tg = "")), (bool_decide (tg_GatewayID tg = sv_GatewayID sv)); reflexivity.
Qed.

Lemma query_route sv tg epoch : queryTarget sv (route tg) epoch =
  if routes_to sv tg then
    if epoch =? 0 then inl (ErrValidation "assignment_epoch must be at least 1")
    else inr (MkSessionStateQuery (tg_OrganizationID tg) (tg_SessionID tg) (tg_GatewayID tg) epoch)
  else inl (ErrValidation "invalid gateway target").
Proof. unfold queryTarget. rewrite target_route. by destruct (routes_to sv tg). Qed.

(** A handler follows the shape of [admitted]: routing, arguments, engine. *)
Ltac serves := unfold admitted, query_at_gateway, at_gateway, missing_command, checked, EngineServer.guard, engine, invalid;
  rewrite ?target_route, ?query_route; destruct (routes_to _ _); [|reflexivity]; cbn [fst snd refusal participantChange negb]; rewrite ?orb_assoc, ?orb_false_r;
  try (destruct (tg_AssignmentEpoch _ =? 0); [reflexivity|]); cbn;
  repeat match goal with |- context [if ?b then pthrow _ else mret tt] => destruct b; [reflexivity|]; cbn end;
  apply pthen_proper; [reflexivity|]; by intros [?|?].

Ltac routed_call := apply bind_congr; intros [tgt conn].

(** The command of a message operation and of a send, as the gateway executes it. *)
Definition delivered_op (command : MessageOpCommand) (target : SessionEngineTarget) : MessageOpCommand :=
  MkMessageOpCommand (routed (mr_CommandID (opc_Target command)) target) (opc_Op command) (opc_ChatJID command)
    (opc_SenderJID command) (opc_MessageID command) (opc_Emoji command) (opc_NewText command) (opc_Options command)
    (opc_ToJID command) (opc_ExpiresAt command).

Definition remote_op t c (command : MessageOpCommand) : proc (pool X) MessageOpResult :=
  let id := mr_CommandID (opc_Target command) in
  if bool_decide (id = "") then pthrow (ErrValidation "op command id is required")
  else
    '(target, conn) ← no_dispatch (readQuery t (ec_sendDeadline c) (mr_OrganizationID (opc_Target command))
                                     (mr_SessionID (opc_Target command)));
    result ← remote t target conn
      (MessageOpRequest (route target) (tg_AssignmentEpoch target) id (opc_Op command) (opc_ChatJID command)
         (opc_SenderJID command) (opc_MessageID command) (opc_Emoji command) (opc_NewText command)
         (opc_Options command) (opc_ToJID command) (opc_ExpiresAt command))
      (admitted (at_gateway conn target)
         [(missing_command (tg_AssignmentEpoch target) id || bool_decide (opc_Op command = "") ||
           bool_decide (opc_MessageID command = ""), "invalid message-op request");
          (bad_expiry (opc_ExpiresAt command), "expires_at_unix_ms must be positive")]
         (ge_ExecuteOp (delivered_op command target)));
    mret (MkMessageOpResult (routed (mr_CommandID (mor_Mutation result)) target)
            (FromUnixMilli (UnixMilli (mor_SentAt result))) (mor_WAMessageID result)).

(** The payload decoded again, and the quote attached to it. *)
Definition redecoded (payload : bytes) : SendRequest :=
  match unmarshal_send payload with inr r => r | inl _ => blank_request "" "" end.

Definition remote_send t c (command : SendCommand) : proc (pool X) SentResult :=
  let ctx := ec_sendDeadline c in
  let id := mr_CommandID (snd_Target command) in
  let session := mr_SessionID (snd_Target command) in
  if bool_decide (id = "") then pthrow (ErrValidation "send command id is required")
  else
    '(target, conn) ← no_dispatch (readQuery t ctx (mr_OrganizationID (snd_Target command)) session);
    fresh ← before_deadline (snd_ExpiresAt command);
    '(prepared, forProjection, quote) ←
      (if (fresh : bool) then
         prepared ← no_dispatch (act (outside (PrepareEngineMedia (snd_Payload command))));
         quote ← no_dispatch (resolveQuote ctx session prepared);
         mret (prepared, Some prepared, quote)
       else mret (snd_Payload command, None, None));
    payload ← no_dispatch (pmap_err (ErrWrap "encode send payload") (Return (marshal_send prepared)));
    result ← remote t target conn
      (SendMessageRequest (route target) (tg_AssignmentEpoch target) id payload (snd_ExpiresAt command) quote)
      (admitted (at_gateway conn target)
         [(missing_command (tg_AssignmentEpoch target) id || is_nil payload, "invalid send-message request");
          (bad_expiry (snd_ExpiresAt command), "expires_at_unix_ms must be positive");
          (match unmarshal_send payload with inl _ => true | inr _ => false end, "invalid send payload");
          (expiry_disagrees (sr_ExpiresAt (redecoded payload)) (snd_ExpiresAt command),
           "send expiry disagrees with private command deadline")]
         (ge_SendMessage (MkSendCommand (routed id target) (attach_quote quote (redecoded payload)) (snd_ExpiresAt command))));
    mret (MkSentResult (MkSendMessageResult (routed (mr_CommandID (smr_Mutation result)) target) (smr_WAMessageID result)
                          (FromUnixMilli (UnixMilli (smr_SentAt result))))
            forProjection).

Lemma send_handler conn target id payload expiresAt quote :
  serve (hosts (cn_Endpoint conn)) (SendMessageRequest (route target) (tg_AssignmentEpoch target) id payload expiresAt quote)
  ≡ pmap (fun result => MkSendMessageResponse (mr_CommandID (smr_Mutation result)) (Some (targetResponse (smr_Mutation result)))
                          (mr_AssignmentEpoch (smr_Mutation result)) (smr_WAMessageID result) (UnixMilli (smr_SentAt result)))
    (admitted (at_gateway conn target)
       [(missing_command (tg_AssignmentEpoch target) id || is_nil payload, "invalid send-message request");
        (bad_expiry expiresAt, "expires_at_unix_ms must be positive");
        (match unmarshal_send payload with inl _ => true | inr _ => false end, "invalid send payload");
        (expiry_disagrees (sr_ExpiresAt (redecoded payload)) expiresAt, "send expiry disagrees with private command deadline")]
       (ge_SendMessage (MkSendCommand (routed id target) (attach_quote quote (redecoded payload)) expiresAt))).
Proof.
  cbn [serve]. unfold EngineServer.SendMessage, redecoded, admitted, at_gateway, checked, EngineServer.guard, engine, invalid.
  rewrite target_route. destruct (routes_to _ _); [|reflexivity]. cbn. destruct (_ || is_nil payload); [reflexivity|]. cbn.
  destruct (bad_expiry _); [reflexivity|]. cbn. destruct (unmarshal_send payload) as [e|d]; [reflexivity|]. cbn.
  destruct (expiry_disagrees _ _); [reflexivity|]. cbn. apply pthen_proper; [reflexivity|]. by intros [?|?].
Qed.

(** C11: A durable command of the API is one execution of the gateway's engine:
    [SendMessage] and [ExecuteOp] resolve the session's gateway, make the media
    inline and resolve the quote, and run the engine's operation once, at the
    resolved gateway, under the stable command id and the resolved assignment
    epoch, with the caller's arguments, deadline and quote; what comes back is
    the engine's own result. The only other outcomes are refusals before the
    engine is called, by the routing or argument checks listed, and the faults
    of the wire. *)
Theorem commands_reach_the_engine t c :
  (forall command, SendMessage t c command ≡ remote_send t c command) /\
  (forall command, ExecuteOp t c command ≡ remote_op t c command).
Proof.
  split; intros command.
  - unfold SendMessage, remote_send. case_bool_decide; [reflexivity|]. routed_call.
    apply bind_congr. intros fresh. apply bind_congr. intros [[prepared projected] quote]. apply bind_congr. intros payload.
    eapply rpc_call; [apply send_handler|]. reflexivity.
  - unfold ExecuteOp, remote_op. case_bool_decide; [reflexivity|]. routed_call.
    eapply rpc_call; [cbn [serve]; unfold MessageOp; serves|]. reflexivity.
Qed.

(** A live operation: routed, run once at the gateway, read back. A mutation gets
    an id of its own. *)
Definition remote_read {R B A} t ctx org session (req : SessionEngineTarget -> EngineRequest R)
  (gate : ClientConn -> SessionEngineTarget -> bool) (checks : SessionEngineTarget -> list (bool * string))
  (run : SessionEngineTarget -> proc X B) (read : SessionEngineTarget -> B -> goerr + A) : proc (pool X) A :=
  '(target, conn) ← readQuery t ctx org session;
  v ← remote t target conn (req target) (admitted (gate conn target) (checks target) (run target));
  Return (read target v).

Definition remote_mutation {R B} t ctx org session (req : SessionEngineTarget -> string -> EngineRequest R)
  (checks : SessionEngineTarget -> string -> list (bool * string)) (run : MutationResult -> proc X B) : proc (pool X) unit :=
  '(target, conn) ← readQuery t ctx org session;
  id ← new_ulid;
  remote t target conn (req target id) (admitted (at_gateway conn target) (checks target id) (run (routed id target)));;
  mret tt.

(** What the API reads from an answer. *)
Definition read_state (target : SessionEngineTarget) (v : SessionState) : goerr + SessionState :=
  match ss_Status v with
  | SessionFailed => inl (ErrValidation "gateway returned unknown session status")
  | status => inr (MkSessionState (tg_OrganizationID target) (tg_SessionID target) (tg_GatewayID target) status
                     (ss_Connected v) (ss_LoggedIn v))
  end.
Definition read_pairing (_ : SessionEngineTarget) (v : PairingSnapshot) : goerr + PairingSnapshot :=
  inr (if bool_decide (pr_Code v = "") then MkPairingSnapshot "" 0 else v).
(** The numbers of participants cross the wire as [int32]. *)
Definition narrow_group (g : BackfillGroup) : BackfillGroup :=
  MkBackfillGroup (bg_GroupJID g) (bg_Subject g) (bg_Description g) (bg_OwnerJID g) (i32 (bg_Participants g))
    (bg_IsAnnounce g) (bg_IsLocked g) (bg_CreatedAtWA g) (bg_Members g).
Definition read_snapshot (_ : SessionEngineTarget) (v : BackfillSnapshot) : goerr + BackfillSnapshot :=
  inr (MkBackfillSnapshot (bf_Contacts v) (narrow_group <$> bf_Groups v)).
Definition as_is {A} (_ : SessionEngineTarget) (v : A) : goerr + A := inr v.
Definition unread {A} (_ : SessionEngineTarget) (_ : A) : goerr + unit := inr tt.

Definition epoch_missing (target : SessionEngineTarget) : bool := tg_AssignmentEpoch target =? 0.

Ltac handled := cbn [serve];
  unfold EngineServer.GetSessionState, EngineServer.SetAccountPresence, EngineServer.LookupContact, EngineServer.GetContactPicture,
    EngineServer.GetContactAbout, EngineServer.SetBlocked, EngineServer.GetGroupInviteLink, EngineServer.JoinGroup,
    EngineServer.GetChatPresence, EngineServer.SetChatPresence, EngineServer.BackfillSession, EngineServer.BeginPairing,
    EngineServer.PairPhone, EngineServer.LogoutSession, EngineServer.ForgetSession, epoch_missing; serves.

Lemma member_proto_id m : member_proto m = m.
Proof. by destruct m. Qed.
Lemma contact_proto_id x : contact_proto x = x.
Proof. by destruct x. Qed.
Lemma fmap_same {A} (f : A -> A) (l : list A) : (forall x, f x = x) -> f <$> l = l.
Proof. intros Hf. induction l as [|x l IH]; [done|]. cbn. by rewrite Hf, IH. Qed.
Lemma snapshot_read v : proto_snapshot (backfillSnapshotProto v) = MkBackfillSnapshot (bf_Contacts v) (narrow_group <$> bf_Groups v).
Proof.
  unfold proto_snapshot, backfillSnapshotProto. cbn. f_equal; [by rewrite !(fmap_same contact_proto) by apply contact_proto_id|].
  rewrite <- list_fmap_compose. apply list_fmap_ext. intros i g _. unfold narrow_group, group_proto. cbn.
  by rewrite !(fmap_same member_proto) by apply member_proto_id.
Qed.

(** The live operations of the API named below (group mutations, the preparation
    of a session and downloads are not among them) are the engine's operations at
    the resolved gateway, with the caller's arguments, and answer what the engine
    answers, with the exceptions stated by [read_state], [read_pairing] and
    [read_snapshot]: a session that has failed is reported as an error, an empty
    pairing code without its expiry, and participants modulo 2^32. *)
Theorem live_calls_reach_the_engine t c org session :
  GetSessionState t c org session ≡
    remote_read t (ec_deadline c) org session (fun g => GetSessionStateRequest (route g) (tg_AssignmentEpoch g)) at_gateway
      (fun g => [(epoch_missing g, "invalid session-state request")]) (fun g => ge_GetSessionState (query_of g)) read_state /\
  (forall phones, LookupContact t c org session phones ≡
    remote_read t (ec_deadline c) org session (fun g => LookupContactRequest (route g) (tg_AssignmentEpoch g) phones) at_gateway
      (fun g => [(epoch_missing g || is_nil phones, "invalid contact-lookup request")])
      (fun g => ge_LookupContact (MkLookupContactCommand (query_of g) phones)) as_is) /\
  (forall jid, GetContactPicture t c org session jid ≡
    remote_read t (ec_deadline c) org session (fun g => GetContactPictureRequest (route g) (tg_AssignmentEpoch g) jid)
      query_at_gateway (fun _ => []) (fun g => ge_GetContactPicture (query_of g) jid) as_is) /\
  (forall jid, GetContactAbout t c org session jid ≡
    remote_read t (ec_deadline c) org session (fun g => GetContactAboutRequest (route g) (tg_AssignmentEpoch g) jid)
      query_at_gateway (fun _ => []) (fun g => ge_GetContactAbout (query_of g) jid) as_is) /\
  (forall jid reset, GetGroupInviteLink t c org session jid reset ≡
    remote_read t (ec_deadline c) org session (fun g => GetGroupInviteLinkRequest (route g) (tg_AssignmentEpoch g) jid reset)
      query_at_gateway (fun _ => [(bool_decide (jid = ""), "invalid invite-link request")])
      (fun g => ge_GetGroupInviteLink (query_of g) jid reset) as_is) /\
  (forall invite, JoinGroup t c org session invite ≡
    remote_read t (ec_deadline c) org session (fun g => JoinGroupRequest (route g) (tg_AssignmentEpoch g) invite)
      query_at_gateway (fun _ => [(bool_decide (invite = ""), "invalid join-group request")])
      (fun g => ge_JoinGroup (query_of g) invite) as_is) /\
  (forall jid, GetChatPresence t c org session jid ≡
    remote_read t (ec_deadline c) org session (fun g => GetChatPresenceRequest (route g) (tg_AssignmentEpoch g) jid)
      query_at_gateway (fun _ => [(bool_decide (jid = ""), "invalid chat-presence request")])
      (fun g => ge_GetChatPresence (query_of g) jid) as_is) /\
  (forall jid state, SetChatPresence t c org session jid state ≡
    remote_read t (ec_deadline c) org session (fun g => SetChatPresenceRequest (route g) (tg_AssignmentEpoch g) jid state)
      at_gateway (fun g => [(epoch_missing g || bool_decide (jid = "") || bool_decide (state = ""),
                             "invalid chat-presence mutation request")])
      (fun g => ge_SetChatPresence (MkChatPresenceCommand (query_of g) jid state)) unread) /\
  BackfillSession t c org session ≡
    remote_read t (ec_sendDeadline c) org session (fun g => BackfillSessionRequest (route g) (tg_AssignmentEpoch g))
      query_at_gateway (fun _ => []) (fun g => ge_BackfillSession (query_of g)) read_snapshot /\
  BeginPairing t c org session ≡
    remote_read t (ec_deadline c) org session (fun g => BeginPairingRequest (route g) (tg_AssignmentEpoch g))
      query_at_gateway (fun _ => []) (fun g => ge_BeginPairing (query_of g)) read_pairing /\
  (forall phone, PairPhone t c org session phone ≡
    remote_read t (ec_sendDeadline c) org session (fun g => PairPhoneRequest (route g) (tg_AssignmentEpoch g) phone)
      query_at_gateway (fun _ => [(bool_decide (phone = ""), "invalid pair-phone request")])
      (fun g => ge_PairPhone (query_of g) phone) as_is) /\
  ForgetSession t c org session ≡
    remote_read t (ec_deadline c) org session (fun g => ForgetSessionRequest (route g))
      at_gateway (fun _ => []) (fun g => ge_ForgetSession (tg_OrganizationID g) (tg_SessionID g)) unread /\
  (forall jid blocked, SetBlocked t c org session jid blocked ≡
    remote_mutation t (ec_deadline c) org session
      (fun g id => SetBlockedRequest (route g) (tg_AssignmentEpoch g) id jid blocked)
      (fun g id => [(missing_command (tg_AssignmentEpoch g) id || bool_decide (jid = ""), "invalid set-blocked request")])
      (fun m => ge_SetBlocked (MkContactJIDCommand m jid blocked))) /\
  (forall presence, SetAccountPresence t c org session presence ≡
    remote_mutation t (ec_deadline c) org session
      (fun g id => SetAccountPresenceRequest (route g) (tg_AssignmentEpoch g) id
                     (if bool_decide (presence = AccountPresenceOffline) then ACCOUNT_PRESENCE_OFFLINE else ACCOUNT_PRESENCE_ONLINE))
      (fun g id => [(missing_command (tg_AssignmentEpoch g) id, "invalid mutation request")])
      (fun m => ge_SetAccountPresence (MkSetPresenceCommand m
         (if bool_decide (presence = AccountPresenceOffline) then AccountPresenceOffline else AccountPresenceOnline)))) /\
  LogoutSession t c org session ≡
    remote_mutation t (ec_deadline c) org session (fun g id => LogoutSessionRequest (route g) (tg_AssignmentEpoch g) id)
      (fun g id => [(missing_command (tg_AssignmentEpoch g) id, "invalid logout-session request")])
      (fun m => ge_LogoutSession (MkContactJIDCommand m "" false)).
Proof.
  repeat split; intros; (apply bind_congr; intros [tgt conn]); try (apply bind_congr; intros id).
  1: { eapply rpc_call; [handled|]. intros v. unfold read_state. cbn. by destruct (ss_Status v). }
  1: { eapply rpc_call; [handled|]. intros v. cbn. rewrite !fmap_same by (by intros []). reflexivity. }
  7: { eapply rpc_call; [handled|]. intros v. unfold read_snapshot. cbn. by rewrite snapshot_read. }
  7: { eapply rpc_call; [handled|]. intros v. unfold read_pairing. cbn. case_bool_decide; [reflexivity|]. by destruct v. }
  all: try by (eapply rpc_call; [handled|]; intros v; cbn; try destruct v; reflexivity).
  all: case_bool_decide; (eapply rpc_call; [handled|]; reflexivity).
Qed.

(** A group command as the gateway executes it: the fields its kind uses. *)
Definition delivered_group (command : GroupMutationCommand) (g : MutationResult) : GroupMutationCommand :=
  match gm_Kind command with
  | GroupOpCreate => MkGroupMutationCommand g GroupOpCreate "" (gm_Name command) (gm_Participants command) "" blank_settings
  | GroupOpUpdateSettings =>
      MkGroupMutationCommand g GroupOpUpdateSettings (gm_GroupJID command) "" [] "" (gm_Settings command)
  | GroupOpUpdateParticipants =>
      MkGroupMutationCommand g GroupOpUpdateParticipants (gm_GroupJID command) "" (gm_Participants command)
        (gm_Action command) blank_settings
  | kind => MkGroupMutationCommand g kind (gm_GroupJID command) "" [] "" blank_settings
  end.

Definition group_action (action : string) : bool :=
  bool_decide (action ∈ [GroupActionAdd; GroupActionRemove; GroupActionPromote; GroupActionDemote]).

(** Its check at the gateway, and its message. *)
Definition group_check (command : GroupMutationCommand) : bool * string :=
  match gm_Kind command with
  | GroupOpCreate =>
      (bool_decide (gm_Name command = "") || is_nil (gm_Participants command), "invalid create-group request")
  | GroupOpUpdateSettings =>
      let s := gm_Settings command in
      (bool_decide (gm_GroupJID command = "") ||
       (is_none (gs_Subject s) && is_none (gs_Description s) && is_none (gs_Announce s) && is_none (gs_Locked s)),
       "invalid update-group-settings request")
  | GroupOpUpdateParticipants =>
      (bool_decide (gm_GroupJID command = "") || is_nil (gm_Participants command), "invalid update-group-participants request")
  | _ => (bool_decide (gm_GroupJID command = ""), "invalid leave-group request")
  end.

Definition remote_group t c (command : GroupMutationCommand) {R} (req : SessionEngineTarget -> EngineRequest R)
  : proc (pool X) GroupCreateResult :=
  let id := mr_CommandID (gm_Target command) in
  '(target, conn) ← readQuery t (ec_sendDeadline c) (mr_OrganizationID (gm_Target command)) (mr_SessionID (gm_Target command));
  result ← remote t target conn (req target)
    (admitted (at_gateway conn target)
       [(missing_command (tg_AssignmentEpoch target) id || (group_check command).1, (group_check command).2)]
       (ge_MutateGroup (delivered_group command (routed id target))));
  mret (MkGroupCreateResult (routed id target)
          (match gm_Kind command with GroupOpCreate => gcr_CreatedGroup result | _ => blank_group end)).

(** Group commands likewise; one of another kind, or with another participant
    action, is refused before any RPC. *)
Theorem group_commands_reach_the_engine t c command : mr_CommandID (gm_Target command) <> "" ->
  match gm_Kind command with
  | GroupOpOther _ => False
  | GroupOpUpdateParticipants => group_action (gm_Action command) = true
  | _ => True
  end ->
  exists R (req : SessionEngineTarget -> EngineRequest R),
    (forall g, request_target (req g) = route g) /\ MutateGroup t c command ≡ remote_group t c command req.
Proof.
  intros Hid Hk. unfold MutateGroup, remote_group, delivered_group, group_check. rewrite bool_decide_eq_false_2 by done.
  destruct (gm_Kind command); [| | | |done].
  4: { eexists _, (fun g => LeaveGroupRequest _ _ _ _). split; [intros g; reflexivity|]. apply bind_congr. intros [tgt conn].
       eapply rpc_call; [cbn [serve]; unfold EngineServer.LeaveGroup; serves|]. reflexivity. }
  - eexists _, (fun g => CreateGroupRequest _ _ _ _ _). split; [intros g; reflexivity|]. apply bind_congr. intros [tgt conn].
    eapply rpc_call; [cbn [serve fst snd]; unfold EngineServer.CreateGroup; serves|]. intros v. by destruct v as [? []].
  - destruct (gm_Settings command) as [subject description announce locked].
    eexists _, (fun g => UpdateGroupSettingsRequest _ _ _ _ _ _ _ _). split; [intros g; reflexivity|]. apply bind_congr. intros [tgt conn].
    eapply rpc_call; [cbn [serve fst snd]; unfold EngineServer.UpdateGroupSettings; serves|]. reflexivity.
  - eexists _, (fun g => UpdateGroupParticipantsRequest _ _ _ _ _ (participantChangeProto (gm_Action command)).1).
    split; [intros g; reflexivity|]. apply bind_congr. intros [tgt conn].
    apply bool_decide_eq_true_1 in Hk. rewrite !elem_of_cons in Hk.
    destruct Hk as [Ha|[Ha|[Ha|[Ha|[]%not_elem_of_nil]]]]; rewrite Ha;
      match goal with |- context [participantChangeProto ?a] =>
        let v := eval vm_compute in (participantChangeProto a) in change (participantChangeProto a) with v end; cbn [fst];
      (eapply rpc_call; [cbn [serve fst snd]; unfold EngineServer.UpdateGroupParticipants; serves|]; reflexivity).
Qed.
End Loopback.

(** ** Media *)

Lemma string_of_list_length l : String.length (String.string_of_list_ascii l) = length l.
Proof. induction l as [|a l IH]; [done|]. cbn. by rewrite IH. Qed.

Lemma encoded_length data :
  Z.of_nat (String.length (EncodeToString StdEncoding data)) = 4 * ((Z.of_nat (length data) + 2) / 3).
Proof.
  unfold EncodeToString, of_codes. rewrite string_of_list_length, length_fmap, encode_length, length_fmap. cbn [enc_padded StdEncoding].
  rewrite Nat2Z.inj_mul, Nat2Z.inj_div, Nat2Z.inj_add. reflexivity.
Qed.

(** What the gateway decodes is what the API encoded. *)
Lemma inline_decodes data url mimetype caption filename : data <> [] ->
  engineMediaBytes (Some (MkMediaPayload (EncodeToString StdEncoding data) url mimetype caption filename)) = inr data.
Proof.
  intros Hd. unfold engineMediaBytes, decodeBase64Payload. cbn. rewrite decode_encode, bool_decide_eq_false_2; [done|].
  intros He. pose proof (encoded_length data) as Hl. rewrite He in Hl. cbn in Hl.
  destruct data as [|b data]; [done|]. cbn [length] in Hl. pose proof (Z.div_le_lower_bound (Z.of_nat (S (length data)) + 2) 3 1). lia.
Qed.

Definition within_limit (data : list byte) : Prop := 0 < Z.of_nat (length data) <= MaxMediaBytes.
Lemma within_limit_nonempty data : within_limit data -> data <> [].
Proof. intros [H _] ->. cbn in H. lia. Qed.
Lemma checked_limit data : is_nil data = false -> (MaxMediaBytes <? Z.of_nat (length data)) = false -> within_limit data.
Proof. intros Hn Hm. apply Z.ltb_ge in Hm. split; [|done]. destruct data; [done|]. cbn. lia. Qed.

Section Media.
Context {X : Type} `{HL : OutboundLib} `{HM : MediaHTTP X}.

Lemma decodeMedia_limit m data mimetype : decodeMedia m = inr (data, mimetype) -> within_limit data.
Proof.
  unfold decodeMedia. destruct (blank _); [done|]. destruct (data_uri _ _) as [raw mime].
  destruct (decodeBase64 raw) as [d|]; [|done]. destruct (is_nil d) eqn:Hn; [done|].
  destruct (MaxMediaBytes <? _) eqn:Hm; [done|]. intros [= -> ->]. by apply checked_limit.
Qed.

Lemma fetched_limit m resp data mimetype : fetched m resp = inr (data, mimetype) -> within_limit data.
Proof.
  unfold fetched. destruct (_ || _); [done|]. destruct (MaxMediaBytes <? md_ContentLength resp); [done|].
  destruct (_ && _); [done|]. destruct (is_nil (take _ _)) eqn:Hn; [done|].
  destruct (MaxMediaBytes <? Z.of_nat (length (take _ _))) eqn:Hm; [done|]. intros [= <- _]. by apply checked_limit.
Qed.

(** Media that resolves is neither empty nor above the limit. *)
Lemma resolveMedia_limit m x data mimetype x' :
  resolveMedia m x = (inr (data, mimetype), x') -> within_limit data.
Proof.
  unfold resolveMedia. destruct m as [m|]; [|done]. destruct (negb _).
  - unfold fetchMediaURL. destruct (negb (mh_ValidURL _)); [done|].
    intros (resp & x1 & _ & Hf)%bind_returns. injection Hf as Hf _. by eapply fetched_limit.
  - intros [= Hd _]. by eapply decodeMedia_limit.
Qed.

(** An item of an album and what becomes of it. *)
Definition prepared_item (item item' : AlbumMediaPayload) (data : list byte) : Prop :=
  am_Type item' = am_Type item /\ am_Data item' = EncodeToString StdEncoding data /\ am_URL item' = "" /\ within_limit data /\
  exists x x', resolveMedia (Some (MkMediaPayload (am_Data item) (am_URL item) (am_Mimetype item) "" "")) x =
               (inr (data, am_Mimetype item'), x').

Definition total_bytes (l : list (list byte)) : Z := Z.of_nat (length (concat l)).

Lemma prepare_album_spec items : forall i total items' x x',
  prepare_album i items total x = (inr items', x') -> 0 <= total <= MaxAlbumBytes ->
  exists datas, Forall3 prepared_item items items' datas /\ total + total_bytes datas <= MaxAlbumBytes.
Proof.
  induction items as [|item items IH]; intros i total items' x x' Hrun Htot.
  - injection Hrun as <- <-. exists []. split; [constructor|]. unfold total_bytes. cbn [concat length]. lia.
  - cbn [prepare_album] in Hrun. apply bind_returns in Hrun as ([data mimetype] & x1 & Hres%map_err_returns & Hrun).
    destruct (MaxAlbumBytes <? _) eqn:Hmax; [discriminate|]. apply Z.ltb_ge in Hmax.
    apply bind_returns in Hrun as (rest & x2 & Hrest & [= <- <-]).
    assert (Htot' : 0 <= total + Z.of_nat (length data) <= MaxAlbumBytes) by lia.
    destruct (IH _ _ _ _ _ Hrest Htot') as (datas & Hall & Hle). exists (data :: datas). split.
    + constructor; [|exact Hall]. repeat split; try (by apply (resolveMedia_limit _ _ _ _ _ Hres)).
      by exists x, x1.
    + unfold total_bytes in *. cbn [concat]. rewrite length_app. lia.
Qed.

(** The gateway decodes the items again. *)
Lemma album_decodes items items' datas : Forall3 prepared_item items items' datas -> forall i,
  exists l, album_medias i items' = inr l /\ alb_Data <$> l = datas /\ alb_Mimetype <$> l = am_Mimetype <$> items' /\
    alb_Type <$> l = (fun m => if bool_decide (am_Type m = "") then SendTypeImage else am_Type m) <$> items.
Proof.
  induction 1 as [|item item' data items items' datas (Ht & Hd & Hu & Hl & _) _ IH]; intros i; [by exists []|].
  destruct (IH (S i)) as (l & Hm & Hdatas & Hmime & Htypes). cbn [album_medias]. rewrite Hd.
  rewrite inline_decodes by by apply within_limit_nonempty. rewrite Hm. eexists. split; [reflexivity|]. cbn.
  by rewrite Hdatas, Hmime, Htypes, Ht.
Qed.

(** C39: The media of a send arrives as it was resolved. If the API prepares a
    request, then at the gateway the media decodes, without error, to exactly the
    bytes that were uploaded or downloaded, none empty and none above the limit
    for its kind, item by item and in order for an album; everything else in the
    request is as it was. *)
Theorem prepared_media_is_delivered req req' (x x' : X) : PrepareEngineMedia req x = (inr req', x') ->
  req' = with_header_image (sr_HeaderImage req') (with_media (sr_Media req') (sr_Medias req') req) /\
  (is_media_send (sr_Type req) = true -> exists m data mimetype,
     sr_Media req = Some m /\ (exists x1 x2, resolveMedia (Some m) x1 = (inr (data, mimetype), x2)) /\ within_limit data /\
     sr_Media req' = Some (inline_media m data mimetype) /\ engineMediaBytes (sr_Media req') = inr data) /\
  (sr_Type req = SendTypeAlbum -> exists datas l,
     Forall3 prepared_item (sr_Medias req) (sr_Medias req') datas /\ total_bytes datas <= MaxAlbumBytes /\
     album_medias 0 (sr_Medias req') = inr l /\ alb_Data <$> l = datas).
Proof.
  unfold PrepareEngineMedia. destruct (decide (sr_Type req = SendTypeButtons)) as [Hb|Hb].
  - rewrite bool_decide_eq_true_2 by done. intros ([] & x1 & _ & Hrun)%bind_returns. unfold is_media_send. rewrite Hb.
    split; [|done]. destruct (sr_HeaderImage req) as [image|] eqn:Hi.
    + apply bind_returns in Hrun as ([data mimetype] & x2 & _ & Hrun). destruct (negb _); [discriminate|].
      injection Hrun as <- _. by destruct req.
    + injection Hrun as <- _. by destruct req.
  - rewrite bool_decide_eq_false_2 by done. unfold is_media_send. case_bool_decide as Hm.
    + intros ([] & x1 & _ & Hrun)%bind_returns. apply bind_returns in Hrun as ([data mimetype] & x2 & Hres & Hrun).
      destruct (sr_Media req) as [m|] eqn:Hmedia; [|by injection Hres]. injection Hrun as <- _. split; [by destruct req|].
      pose proof (resolveMedia_limit _ _ _ _ _ Hres) as Hl. split.
      * intros _. exists m, data, mimetype. split; [done|]. split; [by eauto|]. split; [done|]. split; [done|].
        exact (inline_decodes _ _ _ _ _ (within_limit_nonempty _ Hl)).
      * intros Ha. exfalso. rewrite Ha in Hm. by apply (bool_decide_eq_true_2 (_ ∈ _)) in Hm.
    + case_bool_decide as Ha.
      * intros ([] & x1 & _ & Hrun)%bind_returns. apply bind_returns in Hrun as (medias & x2 & Hp & [= <- _]).
        split; [by destruct req|]. split; [done|]. intros _.
        destruct (prepare_album_spec _ _ _ _ _ _ Hp) as (datas & Hall & Hle); [by vm_compute|].
        destruct (album_decodes _ _ _ Hall 0) as (l & Hl & Hd & _). by exists datas, l.
      * intros [= <- _]. split; [by destruct req|done].
Qed.
End Media.

(** ** Albums and the size of a message *)

Fixpoint inline_bytes (items : list AlbumMediaPayload) : Z :=
  match items with [] => 0 | m :: items => Z.of_nat (String.length (am_Data m)) + inline_bytes items end.

(** JSON writes the base64 texts out, and the message contains the payload. *)
Class WireSizes (J : SendCodec) (size : forall A, EngineRequest A -> Z) : Prop := {
  payload_covers r b : marshal_send r = inr b -> inline_bytes (sr_Medias r) <= Z.of_nat (length b);
  message_covers g epoch id payload expiresAt quote :
    Z.of_nat (length payload) <= size _ (SendMessageRequest g epoch id payload expiresAt quote);
}.

Section AlbumSize.
Context {X : Type} `{HL : OutboundLib} `{HM : MediaHTTP X} `{HJ : SendCodec}.
Variables (next_fault : M X (option wire_fault)) (size : forall A, EngineRequest A -> Z).

Lemma encoded_covers data : 4 * Z.of_nat (length data) <= 3 * Z.of_nat (String.length (EncodeToString StdEncoding data)).
Proof. rewrite encoded_length. pose proof (Z.div_mod (Z.of_nat (length data) + 2) 3). pose proof (Z.mod_pos_bound (Z.of_nat (length data) + 2) 3). lia. Qed.

Lemma inline_covers items items' datas : Forall3 prepared_item items items' datas ->
  4 * total_bytes datas <= 3 * inline_bytes items'.
Proof.
  unfold total_bytes. induction 1 as [|item item' data items items' datas (_ & Hd & _) _ IH]; [done|].
  cbn [inline_bytes concat]. rewrite Hd, length_app. pose proof (encoded_covers data). cbn. lia.
Qed.

(** The limit of one engine message is too small for the albums the validation
    admits. An album of more than 51 MiB - the limit is 64 - is downloaded and
    prepared without complaint, but its base64 text alone exceeds the 68 MiB of a
    message, so its RPC always fails before it reaches the gateway, with an error
    that has no API code and is no [NoDispatchError]: one the scheduler can only
    take for an ambiguous outcome. *)
Theorem large_albums_cannot_be_sent `{!WireSizes HJ size} {A} req req' (x x' : X) datas payload g epoch id expiresAt quote
    (p : proc X A) :
  PrepareEngineMedia req x = (inr req', x') -> Forall3 prepared_item (sr_Medias req) (sr_Medias req') datas ->
  51 * 2 ^ 20 < total_bytes datas -> marshal_send req' = inr payload ->
  carried next_fault (oversized size (SendMessageRequest g epoch id payload expiresAt quote)) p = pthrow too_large /\
  api_code (mapEngineError too_large) = None /\ is_no_dispatch (mapEngineError too_large) = false.
Proof.
  intros _ Hitems Hbig Hm. split; [|done].
  pose proof (inline_covers _ _ _ Hitems). pose proof (payload_covers _ _ Hm).
  pose proof (message_covers g epoch id payload expiresAt quote) as Hsize.
  assert (Hover : oversized size (SendMessageRequest g epoch id payload expiresAt quote) = true).
  { apply Z.ltb_lt. change MaxEngineMessageBytes with (68 * 2 ^ 20). lia. }
  unfold carried. by rewrite Hover.
Qed.
End AlbumSize.

(** ** Concrete instances *)

Lemma error_codes_over_the_wire_witness :
  wire_code (ErrNotImplemented "media downloader") = Some CodeNotImplemented /\
  api_message (mapEngineError (grpcError (ErrNotImplemented "media downloader"))) =
    api_message (ErrNotImplemented "media downloader").
Proof.
  assert (H : wire_code (ErrNotImplemented "media downloader") = Some CodeNotImplemented) by (vm_compute; reflexivity).
  split; [exact H|]. by apply (error_codes_over_the_wire (ErrNotImplemented "media downloader")).
Defined.

#[local] Instance album_lib : OutboundLib :=
  {| url_Parse _ := Some (MkURL "https" "cdn.example" false); sha256_Sum256 _ := []; go_quote s := s |}.

(** A server whose every file is [data]. *)
Definition album_http (data : list byte) : MediaHTTP unit := {|
  mh_ValidURL _ := true; mh_Get _ _ := mret (MkMediaReply 200 (-1) "image/png; charset=x" data false);
|}.

(** A codec that writes as many bytes as the items have. *)
#[local] Instance album_codec : SendCodec := {|
  marshal_send r := inr (replicate (Z.to_nat (inline_bytes (sr_Medias r))) "000"%byte);
  unmarshal_send _ := inl (ErrMsg "unused"); marshal_op _ := inl (ErrMsg "unused");
  unmarshal_op _ := inl (ErrMsg "unused"); payload_json _ := JNull;
|}.
Definition album_size A (req : EngineRequest A) : Z :=
  match req with SendMessageRequest _ _ _ payload _ _ => Z.of_nat (length payload) | _ => 0 end.

Lemma inline_bytes_nonneg items : 0 <= inline_bytes items.
Proof. induction items as [|m items IH]; cbn; lia. Qed.

#[local] Instance album_wire : WireSizes album_codec album_size.
Proof.
  split; [|done]. intros r b [= <-]. rewrite length_replicate, Z2Nat.id by apply inline_bytes_nonneg. done.
Qed.

Lemma album_fetched data m : within_limit data -> mp_Mimetype m = "" ->
  fetched m (MkMediaReply 200 (-1) "image/png; charset=x" data false) = inr (data, "image/png").
Proof.
  intros [Hpos Hmax] Hm. unfold fetched. cbn [md_StatusCode md_ContentLength md_ReadError md_Body md_ContentType].
  rewrite take_ge by (unfold MaxMediaBytes in *; lia). rewrite (proj2 (Z.ltb_ge _ _) Hmax), Hm.
  destruct data; [done|]. vm_compute (is_nil _). by vm_compute (TrimSpace _).
Qed.

Definition album_request (n : nat) : SendRequest :=
  MkSendRequest SendTypeAlbum "628@s.whatsapp.net" None "" "" [] None [] None "" None "" [] 0 0 false
    (S754_zero false) (S754_zero false) None None
    (replicate n (MkAlbumMediaPayload SendTypeImage "" "https://cdn.example/a" "")) "".

Definition album_sent (n : nat) (data : list byte) : SendRequest :=
  with_media None (replicate n (MkAlbumMediaPayload SendTypeImage (EncodeToString StdEncoding data) "" "image/png"))
    (album_request n).

Lemma album_resolves data : within_limit data ->
  @resolveMedia unit (album_http data) (Some (MkMediaPayload "" "https://cdn.example/a" "" "" "")) tt =
    (inr (data, "image/png"), tt).
Proof.
  intros Hd. unfold resolveMedia. replace (negb _) with true by (vm_compute; reflexivity).
  unfold fetchMediaURL. change (negb _) with false. cbv iota.
  transitivity (lift_result (W := unit) (fetched (MkMediaPayload "" "https://cdn.example/a" "" "" "")
    (MkMediaReply 200 (-1) "image/png; charset=x" data false)) tt); [reflexivity|]. by rewrite album_fetched.
Qed.

(** The items one after the other, [data] at a time. *)
Lemma album_prepares n i total data : within_limit data -> total + Z.of_nat n * Z.of_nat (length data) <= MaxAlbumBytes ->
  @prepare_album unit (album_http data) i (sr_Medias (album_request n)) total tt =
    (inr (sr_Medias (album_sent n data)), tt).
Proof.
  intros Hd. revert i total. induction n as [|n IH]; intros i total Hle; [done|].
  change (sr_Medias (album_request (S n))) with
    (MkAlbumMediaPayload SendTypeImage "" "https://cdn.example/a" "" :: sr_Medias (album_request n)).
  cbn [prepare_album am_Data am_URL am_Mimetype]. unfold mbind at 1, M_bind at 1. unfold map_err at 1.
  rewrite album_resolves by done. rewrite (proj2 (Z.ltb_ge _ _)) by lia.
  unfold mbind at 1, M_bind at 1. rewrite IH by lia. done.
Qed.

Lemma large_file : exists data : list byte, Z.of_nat (length data) = 14 * 2 ^ 20.
Proof. exists (replicate (Z.to_nat (14 * 2 ^ 20)) "000"%byte). by rewrite length_replicate, Z2Nat.id. Qed.

(** Four files of 14 MiB: the album is prepared, and its RPC fails. *)
Lemma large_albums_cannot_be_sent_witness : exists (data : list byte) (payload : list byte),
  Z.of_nat (length data) = 14 * 2 ^ 20 /\
  @PrepareEngineMedia unit _ (album_http data) (album_request 4) tt = (inr (album_sent 4 data), tt) /\
  marshal_send (album_sent 4 data) = inr payload /\
  @carried unit (mret None) unit (oversized album_size (SendMessageRequest None 1 "cmd" payload None None)) (Return (inr tt)) =
    pthrow too_large.
Proof.
  destruct large_file as [data Hlen]. exists data.
  destruct (marshal_send (album_sent 4 data)) as [e|payload] eqn:Hm; [discriminate|]. exists payload.
  assert (Hd : within_limit data) by (unfold within_limit; rewrite Hlen; by vm_compute).
  assert (Hv : Validate (album_request 4) = None) by (vm_compute; reflexivity).
  assert (Hp : @PrepareEngineMedia unit _ (album_http data) (album_request 4) tt = (inr (album_sent 4 data), tt)).
  { unfold PrepareEngineMedia. cbn [album_request sr_Type]. rewrite !(bool_decide_eq_false_2 _) by
      (rewrite ?not_elem_of_cons; repeat split; try done; apply not_elem_of_nil).
    rewrite bool_decide_eq_true_2 by done. unfold validated. rewrite Hv.
    transitivity (let (r, u) := @prepare_album unit (album_http data) 0 (sr_Medias (album_request 4)) 0 tt in
      (match r with inl e => inl e | inr items => inr (with_media None items (album_request 4)) end, u)).
    - unfold mbind, M_bind. cbn [mret M_ret].
      by destruct (prepare_album _ _ _ _) as [[?|?] ?].
    - by rewrite (album_prepares 4 0 0 data) by (done || (rewrite Hlen; by vm_compute)). }
  split; [exact Hlen|]. split; [exact Hp|]. split; [reflexivity|].
  set (item := MkAlbumMediaPayload SendTypeImage "" "https://cdn.example/a" "").
  assert (Hitem : @prepared_item unit (album_http data) item
            (MkAlbumMediaPayload SendTypeImage (EncodeToString StdEncoding data) "" "image/png") data).
  { repeat split; try apply Hd. exists tt, tt. by apply album_resolves. }
  refine (proj1 (@large_albums_cannot_be_sent unit _ (album_http data) _ (mret None) album_size _ unit _ _ tt tt
    (replicate 4 data) payload None 1 "cmd" None None (Return (inr tt)) Hp _ _ Hm)).
  - change (sr_Medias (album_request 4)) with (replicate 4 item). cbn [album_sent sr_Medias with_media replicate]. do 4 (constructor; [exact Hitem|]). constructor.
  - unfold total_bytes. cbn [replicate concat]. rewrite !length_app, !Nat2Z.inj_add, Hlen. by vm_compute.
Defined.

Definition picture : SendRequest :=
  with_media (Some (MkMediaPayload "data:image/png;x,iVBORw==" "" "" "a caption" "")) [] (blank_request SendTypeImage "628@s.whatsapp.net").

Lemma prepared_media_is_delivered_witness : exists req', 
  @PrepareEngineMedia unit _ (album_http []) picture tt = (inr req', tt) /\
  engineMediaBytes (sr_Media req') = inr ["137"; "080"; "078"; "071"]%byte.
Proof.
  eexists. assert (Hp : @PrepareEngineMedia unit _ (album_http []) picture tt =
    (inr (with_media (Some (MkMediaPayload "iVBORw==" "" "image/png" "a caption" "")) [] picture), tt)) by (vm_compute; reflexivity).
  split; [exact Hp|].
  destruct (@prepared_media_is_delivered unit _ (album_http []) _ _ _ _ Hp) as (_ & Himg & _).
  destruct (Himg eq_refl) as (m & data & mimetype & Hm & (x1 & x2 & Hr) & _ & _ & Hout).
  injection Hm as <-. vm_compute in Hr. injection Hr as <- <-. exact Hout.
Defined.
