(* ===== verification/Supervisor.v ===== *)
(** The gateway's end of the control stream:
    [internal/gateway/controlsupervisor/supervisor.go]. The supervisor opens a
    stream, proves who it is with a hello, and then a single goroutine, the loop
    of [controlStream], answers frames and timers until the stream ends; it
    reconnects with backoff. What a [select] yields is a list of [input]s, of
    which only those that can happen are taken. Runtime, applier, journal, clock
    and transport are the class [SupervisorEnv]; during each call of it the other
    goroutines of the process may act on the shared status. *)
From S2P Require Import Prelude Journal Domain Wire JournalControl.

#[local] Open Scope Z_scope.

Definition ProtocolVersion : Z := 1.
Definition Millisecond : Z := 1000000.

Record RuntimeSnapshot := MkRuntimeSnapshot {
  rt_State : GatewayRuntimeState;
  rt_SessionCount : Z;
}.

Record JournalPressure := MkJournalPressure {
  jp_State : GatewayJournalState;
  jp_Entries : Z;
  jp_Bytes : Z;
}.

(** [LifecycleDirective] of the supervisor: the message and its sequence. *)
Record Directive := MkDirective {
  di_ID : string;
  di_ConnectionEpoch : Z;
  di_Sequence : Z;
  di_Action : LifecycleDirectiveAction;
  di_DrainDeadline : GoTime;
  di_Reason : LifecycleDirectiveReason;
}.

#[export] Instance Directive_eq_dec : EqDecision Directive.
Proof. solve_decision. Defined.

Record Status := MkStatus {
  s_Ready : bool;
  s_Connected : bool;
  s_ConfirmedHeartbeat : bool;
  s_Stable : bool;
  s_ConnectionEpoch : Z;
  s_LastControlSequence : Z;
  s_AcknowledgedRuntime : GatewayRuntimeState;
  s_DesiredLifecycle : LifecycleDirectiveAction;
  s_DesiredStateRevision : Z;
  s_DesiredStateApplied : bool;
  s_DesiredStateHealthy : bool;
  s_Directive : option Directive;
  s_LastError : option goerr;
}.

(** The zero value. *)
Definition blank_status : Status :=
  MkStatus false false false false 0 0 GATEWAY_RUNTIME_STATE_UNKNOWN LIFECYCLE_DIRECTIVE_ACTION_UNKNOWN
    0 false false None None.

(** The configuration; of the interfaces in it, whether they are set. *)
Record SupervisorConfig := MkSupervisorConfig {
  sc_InstanceID : string;
  sc_SoftwareVersion : string;
  sc_HTTPBaseURL : string;
  sc_GRPCEndpoint : string;
  sc_StartedAt : GoTime;
  sc_Runtime : bool;
  sc_DesiredState : bool;
  sc_EventJournal : bool;
  sc_AssignmentJournal : bool;
  sc_JournalMetrics : bool;
  sc_MinHeartbeat : Z;
  sc_MaxHeartbeat : Z;
  sc_HandshakeTimeout : Z;
}.

(** What the [select] around a [stream.Send] yields. *)
Inductive send_outcome :=
  | SendDone (err : option goerr)
  | SendTimedOut
  | SendCancelled (err : goerr).

Class SupervisorEnv (X : Type) := {
  se_Snapshot : X -> RuntimeSnapshot;
  se_Now : X -> GoTime;
  se_Open : M X unit;
  se_Send : GatewayFrame -> X -> send_outcome * X;
  se_ApplyDesiredState : Z -> DesiredStateSnapshot -> M X (option ReceivedReport);
  se_NextEventBatch : Z -> M X (list GatewayEvent);
  se_AckEvents : Z -> M X unit;
  se_ResetDesiredAssignments : X -> X;
  se_SetDesiredAssignments : DesiredStateSnapshot -> X -> X;
  se_JournalMetrics : M X JournalPressure;
  se_Delay : nat -> X -> Z;
}.

(** ** Validation *)

Definition protocol_error (detail : string) : goerr := ErrWith ErrProtocol detail.

Definition validLifecycleAction (action : LifecycleDirectiveAction) : bool :=
  match action with
  | LIFECYCLE_DIRECTIVE_ACTION_RUN | LIFECYCLE_DIRECTIVE_ACTION_DRAIN | LIFECYCLE_DIRECTIVE_ACTION_DISABLE => true
  | _ => false
  end.

Definition validDirectiveReason (reason : LifecycleDirectiveReason) : bool :=
  match reason with
  | LIFECYCLE_DIRECTIVE_REASON_OPERATOR | LIFECYCLE_DIRECTIVE_REASON_MAINTENANCE
  | LIFECYCLE_DIRECTIVE_REASON_CAPACITY | LIFECYCLE_DIRECTIVE_REASON_POLICY => true
  | _ => false
  end.

Definition validRuntimeState (state : GatewayRuntimeState) : bool :=
  match state with
  | GATEWAY_RUNTIME_STATE_STARTING | GATEWAY_RUNTIME_STATE_READY | GATEWAY_RUNTIME_STATE_DRAINING
  | GATEWAY_RUNTIME_STATE_DRAINED | GATEWAY_RUNTIME_STATE_DEGRADED => true
  | _ => false
  end.

Definition validateWelcome (frame : option ControlFrame) : goerr + ControlWelcome :=
  match frame with
  | None => inl (protocol_error "invalid welcome envelope")
  | Some f =>
      if negb (cf_ProtocolVersion f =? ProtocolVersion) || negb (cf_Sequence f =? 1) then
        inl (protocol_error "invalid welcome envelope")
      else match cf_Payload f with
           | Some (ControlFrame_Welcome welcome) =>
               if bool_decide (cw_ConnectionId welcome = "") || (cw_ConnectionEpoch welcome =? 0) ||
                  (cw_ServerTimeUnixMs welcome <=? 0) then inl (protocol_error "invalid welcome")
               else if negb (validLifecycleAction (cw_DesiredLifecycle welcome)) then
                 inl (protocol_error "invalid desired lifecycle")
               else inr welcome
           | _ => inl (protocol_error "invalid welcome")
           end
  end.

Definition validAssignment (a : SessionAssignment) : bool :=
  let runs := bool_decide (sa_desired_action a = SESSION_DESIRED_ACTION_RUN) in
  let knownAction := runs || bool_decide (sa_desired_action a = SESSION_DESIRED_ACTION_STOP) in
  let runWithoutDevice := runs && is_none (sa_device_jid a) in
  negb (bool_decide (sa_session_id a = "")) && negb (bool_decide (sa_organization_id a = "")) &&
  negb (sa_assignment_epoch a =? 0) && (0 <? sa_lease_expires_at_unix_ms a) && knownAction &&
  negb runWithoutDevice.

Fixpoint check_assignments (seen : gset string) (l : list SessionAssignment) : option goerr :=
  match l with
  | [] => None
  | a :: rest =>
      if negb (validAssignment a) then Some (protocol_error "invalid session assignment")
      else if bool_decide (sa_session_id a ∈ seen) then Some (protocol_error "duplicate session assignment")
      else check_assignments ({[sa_session_id a]} ∪ seen) rest
  end.

Definition validateDesiredState (snapshot : DesiredStateSnapshot) : option goerr :=
  if ds_revision snapshot =? 0 then Some (protocol_error "invalid desired state snapshot")
  else check_assignments ∅ (ds_assignments snapshot).

Definition validateDirective (directive : LifecycleDirective) (epoch : Z) (now : GoTime) : option goerr :=
  if bool_decide (ld_DirectiveId directive = "") || negb (ld_ConnectionEpoch directive =? epoch) ||
     negb (validLifecycleAction (ld_Action directive)) || negb (validDirectiveReason (ld_Reason directive)) then
    Some (protocol_error "invalid lifecycle directive")
  else if negb (bool_decide (ld_Action directive = LIFECYCLE_DIRECTIVE_ACTION_DRAIN)) then
    if is_none (ld_DrainDeadlineUnixMs directive) then None else Some (protocol_error "unexpected drain deadline")
  else if from_option (fun d => d <=? UnixMilli now) false (ld_DrainDeadlineUnixMs directive) then
    Some (protocol_error "invalid drain deadline")
  else None.

Definition valid_heartbeat_ack (payload : option ControlPayload) (epoch gatewaySequence : Z) : bool :=
  match payload with
  | Some (ControlFrame_HeartbeatAck acknowledged connectionEpoch serverTime) =>
      (connectionEpoch =? epoch) && (acknowledged =? gatewaySequence) && (0 <? serverTime) && (1 <? gatewaySequence)
  | _ => false
  end.

Definition validateControl (frame : option ControlFrame) (sequence epoch gatewaySequence : Z) (now : GoTime)
  : goerr + ControlFrame :=
  match frame with
  | None => inl (protocol_error "invalid control envelope")
  | Some f =>
      if negb (cf_ProtocolVersion f =? ProtocolVersion) || negb (cf_Sequence f =? sequence) then
        inl (protocol_error "invalid control envelope")
      else
        let checked (err : option goerr) := match err with Some e => inl e | None => inr f end in
        match cf_Payload f with
        | Some (ControlFrame_LifecycleDirective directive) => checked (validateDirective directive epoch now)
        | Some (ControlFrame_DesiredStateSnapshot snapshot) => checked (validateDesiredState snapshot)
        | Some (ControlFrame_EventAck n) =>
            if n =? 0 then inl (protocol_error "invalid event acknowledgement") else inr f
        | payload =>
            if valid_heartbeat_ack payload epoch gatewaySequence then inr f
            else inl (protocol_error "invalid heartbeat acknowledgement")
        end
  end.

Definition validateLifecycleReport (directive : Directive) (state : GatewayRuntimeState) (failure : LifecycleFailure)
  : option goerr :=
  if bool_decide (di_ID directive = "") || (di_ConnectionEpoch directive =? 0) || (di_Sequence directive =? 0) ||
     negb (validLifecycleAction (di_Action directive)) || negb (validDirectiveReason (di_Reason directive)) ||
     negb (validRuntimeState state) then Some (protocol_error "invalid lifecycle report")
  else match failure with
       | LIFECYCLE_FAILURE_NONE | LIFECYCLE_FAILURE_BUSY | LIFECYCLE_FAILURE_TIMEOUT | LIFECYCLE_FAILURE_INTERNAL => None
       | _ => Some (protocol_error "invalid lifecycle failure")
       end.

Definition lifecycleDirectiveValue (directive : LifecycleDirective) (sequence : Z) : Directive :=
  MkDirective (ld_DirectiveId directive) (ld_ConnectionEpoch directive) sequence (ld_Action directive)
    (from_option FromUnixMilli zero_time (ld_DrainDeadlineUnixMs directive)) (ld_Reason directive).

(** A result is healthy when the keystore is and every session was applied. *)
Definition desiredStateHealthy (report : ReceivedReport) : bool :=
  match rp_KeystoreHealth report with
  | Some (MkKeystoreHealth KEYSTORE_HEALTH_STATE_HEALTHY _ _) =>
      forallb (fun r => bool_decide (rr_status r = RECONCILIATION_RESULT_STATUS_APPLIED)) (rp_Results report)
  | _ => false
  end.

(** The message of the first gRPC status of the chain. *)
Fixpoint status_detail (e : goerr) : option string :=
  match e with
  | ErrStatus _ m => Some m
  | ErrWrap _ c | ErrWith c _ | ErrNoDispatch c => status_detail c
  | ErrBoth a b | ErrJoin a b => match status_detail a with Some m => Some m | None => status_detail b end
  | ErrMsg _ | ErrAPI _ _ | ErrSQLite _ _ => None
  end.

(** Whether [Run] gives up after an error. *)
Definition terminal (err : option goerr) : bool :=
  match err with
  | None => false
  | Some e =>
      if bool_decide (status_of e = Some "FailedPrecondition") &&
         bool_decide (status_detail e = Some "stale gateway connection epoch") then false
      else if errors_is ErrProtocol e then true
      else bool_decide (status_code e ∈ ["Unauthenticated"; "PermissionDenied"; "InvalidArgument"; "FailedPrecondition"])
  end.

(** ** The supervisor *)

(** What other goroutines do: the applier's lease timer reports an expiry, and
    somebody asks for a heartbeat. *)
Inductive other := OtherMarksUnhealthy | OtherReportsNow.

(** What happened, in order: a stream was opened, a frame was handed to it, a
    frame of the API passed its checks, a report was answered, the stream ended, a
    backoff began. *)
Inductive sup_event :=
  | Opened
  | Handed (frame : GatewayFrame) (outcome : send_outcome)
  | Took (frame : ControlFrame)
  | Answered (directive : Directive) (err : option goerr)
  | Ended (err : option goerr)
  | BackedOff (attempt : nat) (delay : Z).

(** [su_report] is the buffered signal, [su_changed] the number of times waiters
    were signalled, [su_others] what other goroutines do during each of the coming
    calls of the environment. *)
Record supervisor (X : Type) := MkSupervisor {
  su_status : Status;
  su_report : bool;
  su_changed : nat;
  su_others : list (list other);
  su_trace : list sup_event;
  su_env : X;
}.
Arguments MkSupervisor {X} _ _ _ _ _ _.
Arguments su_status {X} _.
Arguments su_report {X} _.
Arguments su_changed {X} _.
Arguments su_others {X} _.
Arguments su_trace {X} _.
Arguments su_env {X} _.

Section Supervisor.
Context {X : Type} `{SupervisorEnv X}.
Abbreviation S := (supervisor X).

(** The defers of a locked section: the new status, and [signalChangedLocked]. *)
Definition signal_with (f : Status -> Status) (s : S) : S :=
  MkSupervisor (f (su_status s)) (su_report s) (Datatypes.S (su_changed s)) (su_others s) (su_trace s) (su_env s).
Definition set_report (b : bool) (s : S) : S :=
  MkSupervisor (su_status s) b (su_changed s) (su_others s) (su_trace s) (su_env s).
Definition log_event (ev : sup_event) (s : S) : S :=
  MkSupervisor (su_status s) (su_report s) (su_changed s) (su_others s) (su_trace s ++ [ev]) (su_env s).
Definition with_env (x : X) (s : S) : S :=
  MkSupervisor (su_status s) (su_report s) (su_changed s) (su_others s) (su_trace s) x.

(** *** Status *)

Definition connected_status (welcome : ControlWelcome) (st : Status) : Status :=
  MkStatus false true false false (cw_ConnectionEpoch welcome) 1 GATEWAY_RUNTIME_STATE_UNKNOWN
    (cw_DesiredLifecycle welcome) 0 false false None None.
Definition connected (welcome : ControlWelcome) : S -> S := signal_with (connected_status welcome).

Definition unhealthy_status (st : Status) : Status :=
  MkStatus false (s_Connected st) (s_ConfirmedHeartbeat st) (s_Stable st) (s_ConnectionEpoch st)
    (s_LastControlSequence st) (s_AcknowledgedRuntime st) (s_DesiredLifecycle st) (s_DesiredStateRevision st)
    (s_DesiredStateApplied st) false (s_Directive st) (s_LastError st).
Definition MarkDesiredStateUnhealthy : S -> S := signal_with unhealthy_status.

Definition applied_status (revision : Z) (healthy : bool) (st : Status) : Status :=
  MkStatus (s_Ready st) (s_Connected st) (s_ConfirmedHeartbeat st) (s_Stable st) (s_ConnectionEpoch st)
    (s_LastControlSequence st) (s_AcknowledgedRuntime st) (s_DesiredLifecycle st) revision true healthy
    (s_Directive st) (s_LastError st).
Definition desiredStateApplied (revision : Z) (healthy : bool) : S -> S := signal_with (applied_status revision healthy).

Definition acknowledged_status (sequence : Z) (runtime : GatewayRuntimeState) (stable : bool) (st : Status) : Status :=
  let runAndReady := bool_decide (s_DesiredLifecycle st = LIFECYCLE_DIRECTIVE_ACTION_RUN) &&
    bool_decide (runtime = GATEWAY_RUNTIME_STATE_READY) && s_DesiredStateApplied st && s_DesiredStateHealthy st in
  MkStatus runAndReady (s_Connected st) true stable (s_ConnectionEpoch st) sequence runtime (s_DesiredLifecycle st)
    (s_DesiredStateRevision st) (s_DesiredStateApplied st) (s_DesiredStateHealthy st) (s_Directive st) (s_LastError st).
Definition heartbeatAcknowledged (sequence : Z) (runtime : GatewayRuntimeState) (stable : bool) : S -> S :=
  signal_with (acknowledged_status sequence runtime stable).

Definition directive_status (directive : Directive) (st : Status) : Status :=
  MkStatus false (s_Connected st) (s_ConfirmedHeartbeat st) (s_Stable st) (s_ConnectionEpoch st)
    (di_Sequence directive) (s_AcknowledgedRuntime st) (di_Action directive) (s_DesiredStateRevision st)
    (s_DesiredStateApplied st) (s_DesiredStateHealthy st) (Some directive) (s_LastError st).
Definition directiveReceived (directive : Directive) : S -> S := signal_with (directive_status directive).

Definition matchesActiveDirective (directive : Directive) (s : S) : bool :=
  s_Connected (su_status s) && bool_decide (s_Directive (su_status s) = Some directive).

Definition reported_status (st : Status) : Status :=
  MkStatus (s_Ready st) (s_Connected st) (s_ConfirmedHeartbeat st) (s_Stable st) (s_ConnectionEpoch st)
    (s_LastControlSequence st) (s_AcknowledgedRuntime st) (s_DesiredLifecycle st) (s_DesiredStateRevision st)
    (s_DesiredStateApplied st) (s_DesiredStateHealthy st) None (s_LastError st).
Definition directiveReported (directive : Directive) (s : S) : S :=
  if bool_decide (s_Directive (su_status s) = Some directive) then signal_with reported_status s else s.

Definition disconnected_status (err : option goerr) (st : Status) : Status :=
  MkStatus false false false false 0 0 (s_AcknowledgedRuntime st) (s_DesiredLifecycle st) (s_DesiredStateRevision st)
    (s_DesiredStateApplied st) (s_DesiredStateHealthy st) (s_Directive st) err.
Definition disconnected (err : option goerr) : S -> S := signal_with (disconnected_status err).

(** A send on the buffered channel, or nothing when it is full. *)
Definition ReportNow : S -> S := set_report true.

(** *** Calls of the environment *)

Definition act_other (o : other) : S -> S :=
  match o with OtherMarksUnhealthy => MarkDesiredStateUnhealthy | OtherReportsNow => ReportNow end.
Definition act_others (l : list other) (s : S) : S := foldl (fun s o => act_other o s) s l.
Definition drop_others (s : S) : S :=
  MkSupervisor (su_status s) (su_report s) (su_changed s) (tail (su_others s)) (su_trace s) (su_env s).
Definition interfere (s : S) : S := act_others (default [] (head (su_others s))) (drop_others s).

Definition external {A} (m : M X A) : M S A := fun s =>
  let '(r, x) := m (su_env s) in (r, interfere (with_env x s)).
Definition Snapshot : M S RuntimeSnapshot := external (fun x => (inr (se_Snapshot x), x)).

(** [sendWithin] and [sendHandshake], which differ in the text of the timeout. *)
Definition send_frame (timeout : string) (frame : GatewayFrame) : M S unit := fun s =>
  let '(outcome, x) := se_Send frame (su_env s) in
  let s' := log_event (Handed frame outcome) (interfere (with_env x s)) in
  match outcome with
  | SendDone None => (inr tt, s')
  | SendDone (Some err) | SendCancelled err => (inl err, s')
  | SendTimedOut => (inl (ErrMsg timeout), s')
  end.

(** ** One stream *)

(** The mutable state of an established stream. A timer is the duration it was
    last armed with, [None] the nil channel. *)
Record controlStream := MkControlStream {
  l_welcome : ControlWelcome;
  l_heartbeatInterval : Z;
  l_leaseTimeout : Z;
  l_nextGatewaySequence : Z;
  l_lastGatewaySequence : Z;
  l_lastControlSequence : Z;
  l_runtime : RuntimeSnapshot;
  l_heartbeat : option Z;
  l_acknowledgedCycles : Z;
  l_pendingReport : bool;
  l_eventInFlight : bool;
  l_expectedEventAck : Z;
}.

Definition epoch_of (l : controlStream) : Z := cw_ConnectionEpoch (l_welcome l).

(** Assignments to its fields. *)
Definition with_next (n : Z) (l : controlStream) : controlStream :=
  MkControlStream (l_welcome l) (l_heartbeatInterval l) (l_leaseTimeout l) n (l_lastGatewaySequence l)
    (l_lastControlSequence l) (l_runtime l) (l_heartbeat l) (l_acknowledgedCycles l) (l_pendingReport l)
    (l_eventInFlight l) (l_expectedEventAck l).
Definition with_last_gateway (n : Z) (l : controlStream) : controlStream :=
  MkControlStream (l_welcome l) (l_heartbeatInterval l) (l_leaseTimeout l) (l_nextGatewaySequence l) n
    (l_lastControlSequence l) (l_runtime l) (l_heartbeat l) (l_acknowledgedCycles l) (l_pendingReport l)
    (l_eventInFlight l) (l_expectedEventAck l).
Definition with_last_control (n : Z) (l : controlStream) : controlStream :=
  MkControlStream (l_welcome l) (l_heartbeatInterval l) (l_leaseTimeout l) (l_nextGatewaySequence l)
    (l_lastGatewaySequence l) n (l_runtime l) (l_heartbeat l) (l_acknowledgedCycles l) (l_pendingReport l)
    (l_eventInFlight l) (l_expectedEventAck l).
Definition with_runtime (r : RuntimeSnapshot) (l : controlStream) : controlStream :=
  MkControlStream (l_welcome l) (l_heartbeatInterval l) (l_leaseTimeout l) (l_nextGatewaySequence l)
    (l_lastGatewaySequence l) (l_lastControlSequence l) r (l_heartbeat l) (l_acknowledgedCycles l) (l_pendingReport l)
    (l_eventInFlight l) (l_expectedEventAck l).
Definition with_heartbeat (h : option Z) (l : controlStream) : controlStream :=
  MkControlStream (l_welcome l) (l_heartbeatInterval l) (l_leaseTimeout l) (l_nextGatewaySequence l)
    (l_lastGatewaySequence l) (l_lastControlSequence l) (l_runtime l) h (l_acknowledgedCycles l) (l_pendingReport l)
    (l_eventInFlight l) (l_expectedEventAck l).
Definition with_cycles (n : Z) (l : controlStream) : controlStream :=
  MkControlStream (l_welcome l) (l_heartbeatInterval l) (l_leaseTimeout l) (l_nextGatewaySequence l)
    (l_lastGatewaySequence l) (l_lastControlSequence l) (l_runtime l) (l_heartbeat l) n (l_pendingReport l)
    (l_eventInFlight l) (l_expectedEventAck l).
Definition with_pending (b : bool) (l : controlStream) : controlStream :=
  MkControlStream (l_welcome l) (l_heartbeatInterval l) (l_leaseTimeout l) (l_nextGatewaySequence l)
    (l_lastGatewaySequence l) (l_lastControlSequence l) (l_runtime l) (l_heartbeat l) (l_acknowledgedCycles l) b
    (l_eventInFlight l) (l_expectedEventAck l).
Definition with_in_flight (b : bool) (n : Z) (l : controlStream) : controlStream :=
  MkControlStream (l_welcome l) (l_heartbeatInterval l) (l_leaseTimeout l) (l_nextGatewaySequence l)
    (l_lastGatewaySequence l) (l_lastControlSequence l) (l_runtime l) (l_heartbeat l) (l_acknowledgedCycles l)
    (l_pendingReport l) b n.

(** [l.nextGatewaySequence++]. *)
Definition bump (l : controlStream) : controlStream := with_next (u64 (l_nextGatewaySequence l + 1)) l.

Variable cfg : SupervisorConfig.

Definition frame_of (sequence : Z) (payload : GatewayPayload) : GatewayFrame :=
  MkGatewayFrame ProtocolVersion sequence (Some payload).
Definition send (l : controlStream) (payload : GatewayPayload) : M S unit :=
  send_frame "control supervisor: send timeout" (frame_of (l_nextGatewaySequence l) payload).

Definition newHelloFrame (runtime : RuntimeSnapshot) : GatewayFrame :=
  let optional (v : string) := if bool_decide (v = "") then None else Some v in
  frame_of 1 (GatewayFrame_Hello (Some (MkGatewayHello (sc_InstanceID cfg) (sc_SoftwareVersion cfg) []
    (optional (sc_GRPCEndpoint cfg)) (UnixMilli (sc_StartedAt cfg)) (rt_SessionCount runtime) (rt_State runtime)
    (optional (sc_HTTPBaseURL cfg))))).

Definition newGatewayHeartbeat (connectionEpoch lastControlSequence : Z) (snapshot : RuntimeSnapshot) (now : GoTime)
  : GatewayHeartbeat :=
  MkGatewayHeartbeat connectionEpoch lastControlSequence (UnixMilli now) (rt_SessionCount snapshot) (rt_State snapshot)
    GATEWAY_JOURNAL_STATE_UNKNOWN 0 0.

Definition with_pressure (pressure : option JournalPressure) (h : GatewayHeartbeat) : GatewayHeartbeat :=
  match pressure with
  | Some p => MkGatewayHeartbeat (hb_ConnectionEpoch h) (hb_LastControlSequence h) (hb_SentAtUnixMs h) (hb_SessionCount h)
                (hb_RuntimeState h) (jp_State p) (jp_Entries p) (jp_Bytes p)
  | None => h
  end.

(** Telemetry that cannot be read is left out. *)
Definition journalPressure : M S (option JournalPressure) :=
  if sc_JournalMetrics cfg then
    r ← attempt (external se_JournalMetrics);
    mret (match r with inl _ => None | inr pressure => Some pressure end)
  else mret None.

Definition sendEventBatch (l : controlStream) : M S controlStream :=
  if negb (sc_EventJournal cfg) || l_eventInFlight l then mret l
  else
    events ← map_err (ErrWrap "read journal batch") (external (se_NextEventBatch (epoch_of l)));
    match last events with
    | None => mret l
    | Some e =>
        map_err (ErrWrap "send journal batch") (send l (GatewayFrame_EventBatch (Some (Some <$> events))));;
        mret (with_in_flight true (ge_JournalSequence e) (bump l))
    end.

Definition sendHeartbeat (l : controlStream) : M S controlStream :=
  runtime ← Snapshot;
  let l := with_runtime runtime l in
  if negb (validRuntimeState (rt_State runtime)) then throw (protocol_error "invalid runtime state")
  else
    now ← gets (fun s => se_Now (su_env s));
    pressure ← journalPressure;
    map_err (ErrWrap "send heartbeat") (send l (GatewayFrame_Heartbeat (Some (with_pressure pressure
      (newGatewayHeartbeat (epoch_of l) (l_lastControlSequence l) runtime now)))));;
    let l := bump (with_last_gateway (l_nextGatewaySequence l) l) in
    l ← sendEventBatch l;
    mret (with_heartbeat None l).

Definition acknowledgeHeartbeat (l : controlStream) : M S controlStream :=
  let l := with_cycles ((l_acknowledgedCycles l + 1) `mod` 2 ^ 32) l in
  let stable := 2 <=? l_acknowledgedCycles l in
  modify (heartbeatAcknowledged (l_lastControlSequence l) (rt_State (l_runtime l)) stable);;
  mret (if l_pendingReport l then with_heartbeat (Some 0) (with_pending false l)
        else with_heartbeat (Some (l_heartbeatInterval l)) l).

Definition handleEventAck (acknowledged : Z) (l : controlStream) : M S controlStream :=
  if negb (sc_EventJournal cfg) then throw (protocol_error "unexpected event acknowledgement")
  else if negb (l_eventInFlight l) || negb (acknowledged =? l_expectedEventAck l) then
    throw (protocol_error "event acknowledgement does not match in-flight batch")
  else
    map_err (ErrWrap "ack journal events") (external (se_AckEvents acknowledged));;
    sendEventBatch (with_in_flight false 0 l).

(** The report of [ApplyDesiredState] names this connection and revision. *)
Definition report_valid (epoch revision : Z) (report : option ReceivedReport) : bool :=
  match report with
  | Some r => (rp_ConnectionEpoch r =? epoch) && (rp_ProcessedRevision r =? revision)
  | None => false
  end.

Definition applyDesiredState (snapshot : DesiredStateSnapshot) (l : controlStream) : M S controlStream :=
  if negb (sc_DesiredState cfg) then throw (protocol_error "received desired state without applier")
  else match validateDesiredState snapshot with
  | Some err => throw err
  | None =>
      report ← map_err (ErrWrap "apply desired state") (external (se_ApplyDesiredState (epoch_of l) snapshot));
      match report with
      | Some r =>
          if negb (report_valid (epoch_of l) (ds_revision snapshot) report) then
            throw (protocol_error "invalid desired-state report")
          else
            (if sc_AssignmentJournal cfg then
               external (fun x => (inr tt, se_SetDesiredAssignments snapshot x)) else mret tt);;
            map_err (ErrWrap "send desired state acknowledgement") (send l (GatewayFrame_DesiredStateReport (Some r)));;
            modify (desiredStateApplied (ds_revision snapshot) (desiredStateHealthy r));;
            mret (bump l)
      | None => throw (protocol_error "invalid desired-state report")
      end
  end.

(** [handleFrame] after its checks. *)
Definition takeControl (frame : ControlFrame) (l : controlStream) : M S controlStream :=
  modify (log_event (Took frame));;
  let l := with_last_control (cf_Sequence frame) l in
  match cf_Payload frame with
  | Some (ControlFrame_EventAck n) => handleEventAck n l
  | Some (ControlFrame_LifecycleDirective directive) =>
      modify (directiveReceived (lifecycleDirectiveValue directive (cf_Sequence frame)));;
      mret l
  | Some (ControlFrame_DesiredStateSnapshot snapshot) => applyDesiredState snapshot l
  | _ => acknowledgeHeartbeat l
  end.

(** A frame, or the error of [stream.Recv]. *)
Definition handleFrame (result : goerr + option ControlFrame) (l : controlStream) : M S controlStream :=
  match result with
  | inl err =>
      throw (if errors_is EOF err then ErrMsg "control supervisor: stream closed" else ErrWrap "receive control frame" err)
  | inr frame =>
      now ← gets (fun s => se_Now (su_env s));
      frame ← lift_result (validateControl frame (u64 (l_lastControlSequence l + 1)) (epoch_of l)
                             (l_lastGatewaySequence l) now);
      takeControl frame l
  end.

(** [lifecycleReportRequest] without its result channel, which is the trace. *)
Record reportRequest := MkReportRequest {
  rq_directive : Directive;
  rq_state : GatewayRuntimeState;
  rq_failure : LifecycleFailure;
}.

Definition answer (request : reportRequest) (err : option goerr) : M S unit :=
  modify (log_event (Answered (rq_directive request) err)).

Definition sendLifecycleReport (request : reportRequest) (l : controlStream) : M S controlStream :=
  let directive := rq_directive request in
  r ← attempt (send l (GatewayFrame_LifecycleReport (Some (MkGatewayLifecycleReport (di_ConnectionEpoch directive)
        (di_ID directive) (rq_state request) (rq_failure request)))));
  match r with
  | inl err =>
      answer request (Some (ErrWrap "send lifecycle report" err));;
      throw (ErrWrap "send lifecycle report" err)
  | inr _ =>
      modify (directiveReported directive);;
      answer request None;;
      mret (bump l)
  end.

Definition ErrDirectiveSuperseded : goerr := ErrMsg "control supervisor: lifecycle directive superseded".

(** *** The loop *)

Inductive input :=
  | Cancelled
  | LeaseFired
  | Received (result : goerr + option ControlFrame)
  | HeartbeatFired
  | ReportSignal
  | Requested (request : reportRequest)
  | Meanwhile (o : other).

(** A case of the [select] can be taken: a nil channel blocks, the signal must
    have been given, and only [ReportLifecycle] sends requests. *)
Definition ready (i : input) (l : controlStream) (s : S) : bool :=
  match i with
  | HeartbeatFired => negb (is_none (l_heartbeat l))
  | ReportSignal => su_report s
  | Requested q => is_none (validateLifecycleReport (rq_directive q) (rq_state q) (rq_failure q))
  | _ => true
  end.

(** One iteration; [None] when the loop returns nil. *)
Definition on_input (i : input) (l : controlStream) : M S (option controlStream) :=
  match i with
  | Cancelled => mret None
  | LeaseFired => throw (ErrMsg "control supervisor: control lease expired")
  | Received result => l ← handleFrame result l; mret (Some l)
  | HeartbeatFired => l ← sendHeartbeat l; mret (Some l)
  | ReportSignal =>
      modify (set_report false);;
      if is_none (l_heartbeat l) then mret (Some (with_pending true l))
      else l ← sendHeartbeat l; mret (Some l)
  | Requested q =>
      active ← gets (matchesActiveDirective (rq_directive q));
      if negb active then answer q (Some ErrDirectiveSuperseded);; mret (Some l)
      else l ← sendLifecycleReport q l; mret (Some l)
  | Meanwhile o => modify (act_other o);; mret (Some l)
  end.

(** The stream after a list of inputs, those that cannot be taken passed over;
    [None] when the loop has returned nil. *)
Fixpoint loop (inputs : list input) (l : controlStream) : M S (option controlStream) :=
  match inputs with
  | [] => mret (Some l)
  | i :: rest => fun s =>
      if ready i l s then
        (next ← on_input i l;
         match next with None => mret None | Some l => loop rest l end) s
      else loop rest l s
  end.

(** *** The handshake *)

(** What the wait for the welcome yields. *)
Inductive welcome_wait :=
  | WaitCancelled
  | WaitTimedOut
  | WaitReceived (result : goerr + option ControlFrame).

(** [None] is a clean shutdown. *)
Definition receiveWelcome (wait : welcome_wait) : M S (option (option ControlFrame)) :=
  match wait with
  | WaitCancelled => mret None
  | WaitTimedOut => throw (ErrMsg "control supervisor: welcome timeout")
  | WaitReceived (inl err) => throw (ErrWrap "receive welcome" err)
  | WaitReceived (inr frame) => mret (Some frame)
  end.

Definition sendHandshake (frame : GatewayFrame) : M S unit := send_frame "control supervisor: hello timeout" frame.

Definition interval_of (welcome : ControlWelcome) : Z := i64 (cw_HeartbeatIntervalMs welcome * Millisecond).
Definition lease_of (welcome : ControlWelcome) : Z := i64 (cw_LeaseTimeoutMs welcome * Millisecond).

(** The stream after its welcome frame, which [validateWelcome] numbers 1. *)
Definition new_session (welcome : ControlWelcome) (runtime : RuntimeSnapshot) : controlStream :=
  MkControlStream welcome (interval_of welcome) (lease_of welcome) 2 1 1 runtime
    (Some (if sc_EventJournal cfg then 0 else interval_of welcome)) 0 false false 0.

(** A nil frame without an error is taken for a shutdown. *)
Definition openSession (wait : welcome_wait) : M S (option controlStream) :=
  (if sc_AssignmentJournal cfg then external (fun x => (inr tt, se_ResetDesiredAssignments x)) else mret tt);;
  runtime ← Snapshot;
  if negb (validRuntimeState (rt_State runtime)) then throw (protocol_error "invalid runtime state")
  else
    map_err (ErrWrap "send hello") (sendHandshake (newHelloFrame runtime));;
    received ← receiveWelcome wait;
    match received with
    | None | Some None => mret None
    | Some frame =>
        welcome ← lift_result (validateWelcome frame);
        if (interval_of welcome <? sc_MinHeartbeat cfg) || (sc_MaxHeartbeat cfg <? interval_of welcome) then
          throw (protocol_error "invalid heartbeat interval")
        else if lease_of welcome <=? interval_of welcome then throw (protocol_error "invalid lease timeout")
        else
          modify (log_event (Took (MkControlFrame ProtocolVersion 1 (Some (ControlFrame_Welcome welcome)))));;
          modify (connected welcome);;
          mret (Some (new_session welcome runtime))
    end.

(** *** Streams one after the other *)

(** One stream's part of the run: its inputs, and whether the supervisor's
    context is cancelled by the time it has ended, or during the backoff. *)
Record stream_script := MkScript {
  sp_wait : welcome_wait;
  sp_inputs : list input;
  sp_cancelled : bool;
  sp_cancelled_waiting : bool;
}.

(** [runStream]: [Some l] is a loop that still waits. *)
Definition runStream (script : stream_script) : M S (option controlStream) :=
  map_err (ErrWrap "open control stream") (external se_Open);;
  modify (log_event Opened);;
  session ← openSession (sp_wait script);
  match session with
  | None => mret None
  | Some l => loop (sp_inputs script) l
  end.

Inductive run_result :=
  | Running
  | Returned (err : option goerr).

Definition stream_ended (err : option goerr) (s : S) : S := log_event (Ended err) (disconnected err s).

(** [Run] after the [running] flag was taken. *)
Fixpoint run (attempt : nat) (scripts : list stream_script) (s : S) : run_result * S :=
  match scripts with
  | [] => (Running, s)
  | script :: rest =>
      match runStream script s with
      | (inr (Some _), s) => (Running, s)
      | (r, s) =>
          let err := match r with inl e => Some e | inr _ => None end in
          let stable := s_Stable (su_status s) in
          let s := stream_ended err s in
          if sp_cancelled script then (Returned None, s)
          else if terminal err then (Returned err, s)
          else
            let attempt := if stable then 0%nat else attempt in
            let s := log_event (BackedOff attempt (se_Delay attempt (su_env s))) s in
            if sp_cancelled_waiting script then (Returned None, s)
            else run (Datatypes.S attempt) rest s
      end
  end.

(** ** Callers of the supervisor

    Each [Wait] is a loop that inspects the status under the lock and sleeps on
    the current [changed] channel: here the inspection, [None] to sleep. *)

(** The last error, if it ended the run for good. *)
Definition gave_up (st : Status) : option goerr := if terminal (s_LastError st) then s_LastError st else None.

Definition WaitForWelcome (st : Status) : option (goerr + Status) :=
  if s_Connected st then Some (inr st) else inl <$> gave_up st.

Definition WaitForDesiredState (epoch : Z) (st : Status) : option (goerr + Status) :=
  if s_Connected st && (epoch <=? s_ConnectionEpoch st) && s_DesiredStateApplied st then Some (inr st)
  else inl <$> gave_up st.

Definition WaitForLifecycleChange (epoch : Z) (desired : LifecycleDirectiveAction) (st : Status) : option Status :=
  if s_Connected st && (negb (s_ConnectionEpoch st =? epoch) || negb (bool_decide (s_DesiredLifecycle st = desired)))
  then Some st else None.

Definition WaitForDirective (afterSequence : Z) (st : Status) : option Directive :=
  match s_Directive st with
  | Some directive => if s_Connected st && (afterSequence <? di_Sequence directive) then Some directive else None
  | None => None
  end.

Definition WaitForStatusChange (previous st : Status) : option Status :=
  if negb (Bool.eqb (s_Ready st) (s_Ready previous)) || negb (Bool.eqb (s_Connected st) (s_Connected previous)) ||
     negb (s_ConnectionEpoch st =? s_ConnectionEpoch previous) ||
     negb (bool_decide (s_DesiredLifecycle st = s_DesiredLifecycle previous)) then Some st else None.

Definition WaitForRuntimeAck (state : GatewayRuntimeState) (st : Status) : bool :=
  s_Connected st && bool_decide (s_AcknowledgedRuntime st = state).

Definition flush_confirmed (state : GatewayRuntimeState) (initial st : Status) : bool :=
  s_Connected st && bool_decide (s_AcknowledgedRuntime st = state) &&
  (negb (s_ConnectionEpoch st =? s_ConnectionEpoch initial) || (s_LastControlSequence initial <? s_LastControlSequence st)).

(** One inspection of [Flush]: [None] when it returns, otherwise whether it asks
    for a heartbeat again, and the epoch of the last connection it did so on. *)
Definition Flush (state : GatewayRuntimeState) (initial : Status) (lastReportEpoch : Z) (st : Status) : option (bool * Z) :=
  if flush_confirmed state initial st then None
  else if s_Connected st && negb (s_ConnectionEpoch st =? lastReportEpoch) then Some (true, s_ConnectionEpoch st)
  else Some (false, lastReportEpoch).

(** The request of [ReportLifecycle], if it passes the validation. *)
Definition ReportLifecycle (directive : Directive) (state : GatewayRuntimeState) (failure : LifecycleFailure)
  : goerr + input :=
  match validateLifecycleReport directive state failure with
  | Some err => inl err
  | None => inr (Requested (MkReportRequest directive state failure))
  end.

(** [SetDesiredState]. *)
Definition SetDesiredState (c : SupervisorConfig) : SupervisorConfig :=
  MkSupervisorConfig (sc_InstanceID c) (sc_SoftwareVersion c) (sc_HTTPBaseURL c) (sc_GRPCEndpoint c) (sc_StartedAt c)
    (sc_Runtime c) true (sc_EventJournal c) (sc_AssignmentJournal c) (sc_JournalMetrics c) (sc_MinHeartbeat c)
    (sc_MaxHeartbeat c) (sc_HandshakeTimeout c).

(** *** [ProveCurrentConnection]

    It runs on a stream of its own and touches the status nowhere; while it does,
    [handshakeMu] keeps [runStream] from opening another stream. *)

Inductive ack_wait :=
  | AckCancelled (err : goerr)
  | AckTimedOut
  | AckReceived (result : goerr + option ControlFrame).

Definition is_snapshot (frame : option ControlFrame) : bool :=
  match frame with
  | Some (MkControlFrame _ _ (Some (ControlFrame_DesiredStateSnapshot _))) => true
  | _ => false
  end.

Definition validateReplacementAck (result : goerr + option ControlFrame) (previous : Z) (welcome : ControlWelcome)
  (now : GoTime) : goerr + unit :=
  match result with
  | inl err => inl (ErrWrap "receive replacement heartbeat acknowledgement" err)
  | inr frame =>
      match validateControl frame (u64 (previous + 1)) (cw_ConnectionEpoch welcome) 2 now with
      | inl err => inl err
      | inr f =>
          match cf_Payload f with
          | Some (ControlFrame_HeartbeatAck _ _ _) => inr tt
          | _ => inl (protocol_error "replacement control frame is not a heartbeat acknowledgement")
          end
      end
  end.

(** Snapshots may precede the acknowledgement; [None] is a wait that goes on. *)
Fixpoint awaitReplacementAck (waits : list ack_wait) (previous : Z) (welcome : ControlWelcome) : M S (option unit) :=
  match waits with
  | [] => mret None
  | AckCancelled err :: _ => throw err
  | AckTimedOut :: _ => throw (ErrMsg "control supervisor: replacement heartbeat acknowledgement timeout")
  | AckReceived result :: rest =>
      now ← gets (fun s => se_Now (su_env s));
      match result with
      | inr frame =>
          if is_snapshot frame then
            f ← lift_result (validateControl frame (u64 (previous + 1)) (cw_ConnectionEpoch welcome) 2 now);
            awaitReplacementAck rest (cf_Sequence f) welcome
          else lift_result (validateReplacementAck result previous welcome now);; mret (Some tt)
      | inl _ => lift_result (validateReplacementAck result previous welcome now);; mret (Some tt)
      end
  end.

Definition receiveReplacementWelcome (wait : welcome_wait) (ctx_err : goerr) : goerr + ControlWelcome :=
  match wait with
  | WaitCancelled => inl ctx_err
  | WaitTimedOut => inl (ErrMsg "control supervisor: replacement welcome timeout")
  | WaitReceived (inl err) => inl (ErrWrap "receive replacement welcome" err)
  | WaitReceived (inr frame) => validateWelcome frame
  end.

Definition probeReplacementHeartbeat (welcome : ControlWelcome) (runtime : RuntimeSnapshot) (waits : list ack_wait)
  : M S (option unit) :=
  if (interval_of welcome <? sc_MinHeartbeat cfg) || (sc_MaxHeartbeat cfg <? interval_of welcome) ||
     (lease_of welcome <=? interval_of welcome) then throw (protocol_error "invalid replacement timing")
  else
    now ← gets (fun s => se_Now (su_env s));
    map_err (ErrWrap "send replacement heartbeat")
      (send_frame "control supervisor: send timeout" (frame_of 2 (GatewayFrame_Heartbeat (Some
         (newGatewayHeartbeat (cw_ConnectionEpoch welcome) 1 runtime now)))));;
    awaitReplacementAck waits 1 welcome.

Definition ProveCurrentConnection (wait : welcome_wait) (ctx_err : goerr) (waits : list ack_wait) : M S (option unit) :=
  map_err (ErrWrap "open replacement control stream") (external se_Open);;
  runtime ← Snapshot;
  if negb (validRuntimeState (rt_State runtime)) then throw (protocol_error "invalid runtime state")
  else
    map_err (ErrWrap "send replacement hello") (sendHandshake (newHelloFrame runtime));;
    welcome ← lift_result (receiveReplacementWelcome wait ctx_err);
    probeReplacementHeartbeat welcome runtime waits.
End Supervisor.

(** ** Construction and backoff *)

Record BaseURL := MkBaseURL {
  bu_Scheme : string;
  bu_Host : string;
  bu_HasUser : bool;
  bu_Path : string;
  bu_RawQuery : string;
  bu_Fragment : string;
}.
Class BaseURLLib := { base_url_Parse : string -> option BaseURL }.

Definition validHTTPBaseURL `{BaseURLLib} (raw : string) : bool :=
  if (512 <? Z.of_nat (String.length raw)) || HasSuffix raw "/" then false
  else match base_url_Parse raw with
       | None => false
       | Some u => (bool_decide (bu_Scheme u = "http") || bool_decide (bu_Scheme u = "https")) &&
                   negb (bool_decide (bu_Host u = "")) && negb (bu_HasUser u) && bool_decide (bu_Path u = "") &&
                   bool_decide (bu_RawQuery u = "") && bool_decide (bu_Fragment u = "")
       end.

(** [New]; a configuration without a clock gets the real one, [now]. *)
Definition New `{BaseURLLib} (now : GoTime) (c : SupervisorConfig) (opener : bool) : goerr + SupervisorConfig :=
  if negb opener || bool_decide (sc_InstanceID c = "") || bool_decide (sc_SoftwareVersion c = "") || negb (sc_Runtime c) then
    inl (ErrMsg "control supervisor: invalid configuration")
  else if negb (bool_decide (sc_HTTPBaseURL c = "")) && negb (validHTTPBaseURL (sc_HTTPBaseURL c)) then
    inl (ErrMsg "control supervisor: invalid HTTP base URL")
  else
    let minimum := if sc_MinHeartbeat c <=? 0 then 100 * Millisecond else sc_MinHeartbeat c in
    let maximum := if sc_MaxHeartbeat c <=? 0 then 60 * Second else sc_MaxHeartbeat c in
    let handshake := if sc_HandshakeTimeout c <=? 0 then 10 * Second else sc_HandshakeTimeout c in
    let started := if IsZero (sc_StartedAt c) then now else sc_StartedAt c in
    if maximum <? minimum then inl (ErrMsg "control supervisor: invalid heartbeat bounds")
    else inr (MkSupervisorConfig (sc_InstanceID c) (sc_SoftwareVersion c) (sc_HTTPBaseURL c) (sc_GRPCEndpoint c) started
                (sc_Runtime c) (sc_DesiredState c) (sc_EventJournal c) (sc_AssignmentJournal c) (sc_JournalMetrics c)
                minimum maximum handshake).

Record ExponentialBackoff := MkExponentialBackoff { xb_Min : Z; xb_Max : Z; xb_Jitter : bool }.

Fixpoint double_until (max : Z) (attempt : nat) (delay : Z) : Z :=
  match attempt with
  | O => delay
  | S attempt => if Z.quot max 2 <=? delay then delay else double_until max attempt (i64 (delay * 2))
  end.

(** [scale] is the multiplication by [rand.Float64]; of the jitter only whether
    it is positive matters. *)
Definition Delay (b : ExponentialBackoff) (scale : Z -> Z) (attempt : nat) : Z :=
  let min := if xb_Min b <=? 0 then 250 * Millisecond else xb_Min b in
  let max := if xb_Max b <? min then 30 * Second else xb_Max b in
  let delay := double_until max attempt min in
  let delay := if max <? delay then max else delay in
  if xb_Jitter b then scale delay else delay.
