(* ===== verification/SupervisorSpec.v ===== *)
(** What the supervisor promises the API and its own process: every stream
    follows the control protocol, written here as an executable automaton over the
    events of a stream; readiness is only ever claimed on evidence; a run over the
    journal is a run of the event lane of JournalControl; waiters miss no change;
    retries are bounded. *)
From S2P Require Import Prelude Journal Domain Wire JournalControl Supervisor.

#[local] Open Scope Z_scope.

(** ** The protocol of one stream, as its peer sees it *)

(** [p_open]: the stream can still carry frames. Numbers are those of the next
    gateway frame, the last control frame (0 before the welcome) and the last
    heartbeat. [p_heartbeat] and [p_batch] are what waits for an acknowledgement,
    [p_snapshot] for a report, [p_directive] for its outcome. The last four are
    what the gateway last told, or was told. *)
Record peer := MkPeer {
  p_open : bool;
  p_next : Z;
  p_control : Z;
  p_epoch : Z;
  p_last : Z;
  p_heartbeat : bool;
  p_batch : option Z;
  p_snapshot : option Z;
  p_directive : option string;
  p_lifecycle : LifecycleDirectiveAction;
  p_runtime : GatewayRuntimeState;
  p_acked : GatewayRuntimeState;
  p_applied : option bool;
}.

Definition no_stream : peer :=
  MkPeer false 1 0 0 1 false None None None LIFECYCLE_DIRECTIVE_ACTION_UNKNOWN GATEWAY_RUNTIME_STATE_UNKNOWN
    GATEWAY_RUNTIME_STATE_UNKNOWN None.
Definition new_stream : peer :=
  MkPeer true 1 0 0 1 false None None None LIFECYCLE_DIRECTIVE_ACTION_UNKNOWN GATEWAY_RUNTIME_STATE_UNKNOWN
    GATEWAY_RUNTIME_STATE_UNKNOWN None.

Definition welcomed (p : peer) : bool := negb (p_epoch p =? 0).

(** A gateway frame with its number already checked. *)
Definition hand (p : peer) (payload : GatewayPayload) : option peer :=
  let next := u64 (p_next p + 1) in
  match payload with
  | GatewayFrame_Hello (Some h) =>
      if p_next p =? 1 then
        Some (MkPeer true next 0 0 1 false None None None (p_lifecycle p) (gh_RuntimeState h) (p_acked p) None)
      else None
  | GatewayFrame_Heartbeat (Some h) =>
      if welcomed p && negb (p_heartbeat p) && (hb_ConnectionEpoch h =? p_epoch p) &&
         (hb_LastControlSequence h =? p_control p) && validRuntimeState (hb_RuntimeState h) then
        Some (MkPeer true next (p_control p) (p_epoch p) (p_next p) true (p_batch p) (p_snapshot p) (p_directive p)
                (p_lifecycle p) (hb_RuntimeState h) (p_acked p) (p_applied p))
      else None
  | GatewayFrame_EventBatch (Some events) =>
      match p_batch p, last events with
      | None, Some (Some e) =>
          if welcomed p then
            Some (MkPeer true next (p_control p) (p_epoch p) (p_last p) (p_heartbeat p) (Some (ge_JournalSequence e))
                    (p_snapshot p) (p_directive p) (p_lifecycle p) (p_runtime p) (p_acked p) (p_applied p))
          else None
      | _, _ => None
      end
  | GatewayFrame_LifecycleReport (Some r) =>
      if bool_decide (p_directive p = Some (lr_DirectiveId r)) && (lr_ConnectionEpoch r =? p_epoch p) then
        Some (MkPeer true next (p_control p) (p_epoch p) (p_last p) (p_heartbeat p) (p_batch p) (p_snapshot p) None
                (p_lifecycle p) (p_runtime p) (p_acked p) (p_applied p))
      else None
  | GatewayFrame_DesiredStateReport (Some r) =>
      if bool_decide (p_snapshot p = Some (rp_ProcessedRevision r)) && (rp_ConnectionEpoch r =? p_epoch p) then
        Some (MkPeer true next (p_control p) (p_epoch p) (p_last p) (p_heartbeat p) (p_batch p) None (p_directive p)
                (p_lifecycle p) (p_runtime p) (p_acked p) (Some (desiredStateHealthy r)))
      else None
  | _ => None
  end.

(** A control frame with its number already checked; an acknowledgement of
    another batch ends the stream. *)
Definition take_in (p : peer) (sequence : Z) (payload : ControlPayload) : option peer :=
  match payload with
  | ControlFrame_Welcome w =>
      if negb (welcomed p) && (p_next p =? 2) then
        Some (MkPeer true 2 1 (cw_ConnectionEpoch w) 1 false None None None (cw_DesiredLifecycle w) (p_runtime p)
                GATEWAY_RUNTIME_STATE_UNKNOWN None)
      else None
  | ControlFrame_LifecycleDirective d =>
      if welcomed p && (ld_ConnectionEpoch d =? p_epoch p) then
        Some (MkPeer true (p_next p) sequence (p_epoch p) (p_last p) (p_heartbeat p) (p_batch p) (p_snapshot p)
                (Some (ld_DirectiveId d)) (ld_Action d) (p_runtime p) (p_acked p) (p_applied p))
      else None
  | ControlFrame_HeartbeatAck n epoch _ =>
      if welcomed p && (n =? p_last p) && (1 <? n) && (epoch =? p_epoch p) then
        Some (MkPeer true (p_next p) sequence (p_epoch p) (p_last p) false (p_batch p) (p_snapshot p) (p_directive p)
                (p_lifecycle p) (p_runtime p) (p_runtime p) (p_applied p))
      else None
  | ControlFrame_DesiredStateSnapshot snapshot =>
      if welcomed p && is_none (p_snapshot p) then
        Some (MkPeer true (p_next p) sequence (p_epoch p) (p_last p) (p_heartbeat p) (p_batch p)
                (Some (ds_revision snapshot)) (p_directive p) (p_lifecycle p) (p_runtime p) (p_acked p) (p_applied p))
      else None
  | ControlFrame_EventAck n =>
      if negb (welcomed p) then None
      else if bool_decide (p_batch p = Some n) then
        Some (MkPeer true (p_next p) sequence (p_epoch p) (p_last p) (p_heartbeat p) None (p_snapshot p) (p_directive p)
                (p_lifecycle p) (p_runtime p) (p_acked p) (p_applied p))
      else Some no_stream
  end.

Definition delivered (outcome : send_outcome) : bool := match outcome with SendDone None => true | _ => false end.

(** [None] is a violation. After a send that failed the stream carries nothing. *)
Definition advance (p : peer) (ev : sup_event) : option peer :=
  match ev with
  | Opened => if p_open p then None else Some new_stream
  | Ended _ => Some no_stream
  | Answered _ _ | BackedOff _ _ => Some p
  | Handed (MkGatewayFrame version sequence (Some payload)) outcome =>
      if p_open p && (version =? 1) && (sequence =? p_next p) then
        p' ← hand p payload;
        Some (if delivered outcome then p' else no_stream)
      else None
  | Handed (MkGatewayFrame _ _ None) _ => None
  | Took (MkControlFrame version sequence (Some payload)) =>
      if p_open p && (version =? 1) && (sequence =? u64 (p_control p + 1)) then take_in p sequence payload else None
  | Took (MkControlFrame _ _ None) => None
  end.

Definition peer_of (tr : list sup_event) : option peer :=
  foldl (fun o ev => p ← o; advance p ev) (Some no_stream) tr.

Lemma peer_of_snoc tr ev : peer_of (tr ++ [ev]) = p ← peer_of tr; advance p ev.
Proof. unfold peer_of. by rewrite foldl_app. Qed.

(** ** The supervisor follows it *)

(** What the status may say of a stream: it is connected under the stream's
    epoch, knows what it was told, and is ready only when the last instruction was
    to run, a heartbeat that said READY was acknowledged and a desired-state
    report was delivered. *)
Record tells (p : peer) (st : Status) : Prop := {
  te_connected : s_Connected st = true;
  te_epoch : s_ConnectionEpoch st = p_epoch p;
  te_lifecycle : s_DesiredLifecycle st = p_lifecycle p;
  te_acked : s_AcknowledgedRuntime st = p_acked p;
  te_applied : s_DesiredStateApplied st = negb (is_none (p_applied p));
  te_healthy : s_DesiredStateHealthy st = true -> p_applied p = Some true;
  te_directive : forall d, s_Directive st = Some d -> p_directive p = Some (di_ID d) /\ di_ConnectionEpoch d = p_epoch p;
  te_ready : s_Ready st = true -> p_lifecycle p = LIFECYCLE_DIRECTIVE_ACTION_RUN /\
    p_acked p = GATEWAY_RUNTIME_STATE_READY /\ p_applied p <> None;
}.

(** The loop's variables agree with what the peer saw; [waits] is whether a
    heartbeat waits for its acknowledgement. *)
Record agrees (waits : bool) (l : controlStream) (p : peer) : Prop := {
  sy_open : p_open p = true;
  sy_next : p_next p = l_nextGatewaySequence l;
  sy_control : p_control p = l_lastControlSequence l;
  sy_epoch : p_epoch p = epoch_of l;
  sy_welcomed : epoch_of l <> 0;
  sy_last : p_last p = l_lastGatewaySequence l;
  sy_heartbeat : p_heartbeat p = waits;
  sy_batch : p_batch p = if l_eventInFlight l then Some (l_expectedEventAck l) else None;
  sy_snapshot : p_snapshot p = None;
  sy_runtime : p_runtime p = rt_State (l_runtime l);
}.

(** The heartbeat timer is the nil channel while one waits. *)
Definition sync (l : controlStream) (p : peer) : Prop := agrees (is_none (l_heartbeat l)) l p.

Lemma directive_told p st d sequence : ld_ConnectionEpoch d = p_epoch p -> tells p st ->
  tells (MkPeer true (p_next p) sequence (p_epoch p) (p_last p) (p_heartbeat p) (p_batch p) (p_snapshot p)
           (Some (ld_DirectiveId d)) (ld_Action d) (p_runtime p) (p_acked p) (p_applied p))
    (directive_status (lifecycleDirectiveValue d sequence) st).
Proof. intros He [Tc Te Tl Ta Tp Th Td Tr]. split; cbn; auto; [|done]. by intros d' [= <-]. Qed.

(** A condition on the status that the other goroutines keep. *)
Definition calm (Phi : Status -> Prop) : Prop := forall st, Phi st -> Phi (unhealthy_status st).

(** The report of a snapshot leaves these peers. *)
Definition clear_snapshot (p : peer) : peer :=
  MkPeer (p_open p) (p_next p) (p_control p) (p_epoch p) (p_last p) (p_heartbeat p) (p_batch p) None (p_directive p)
    (p_lifecycle p) (p_runtime p) (p_acked p) (p_applied p).
Definition reported_peer (p : peer) (r : ReceivedReport) : peer :=
  MkPeer true (u64 (p_next p + 1)) (p_control p) (p_epoch p) (p_last p) (p_heartbeat p) (p_batch p) None (p_directive p)
    (p_lifecycle p) (p_runtime p) (p_acked p) (Some (desiredStateHealthy r)).

Section Conformance.
Context {X : Type} `{SupervisorEnv X}.
Variable cfg : SupervisorConfig.
Abbreviation S := (supervisor X).

Definition seen (p : peer) (Phi : Status -> Prop) (s : S) : Prop := peer_of (su_trace s) = Some p /\ Phi (su_status s).
Definition conform (s : S) : Prop := is_Some (peer_of (su_trace s)).

Lemma tells_calm p : calm (tells p).
Proof. intros st []. split; cbn; try done. Qed.

Lemma calm_const (phi : Prop) : calm (fun _ => phi).
Proof. by intros st. Qed.

Lemma seen_conform p Phi s : seen p Phi s -> conform s.
Proof. intros [Hp _]. by exists p. Qed.

Lemma act_other_seen p Phi o s : calm Phi -> seen p Phi s -> seen p Phi (act_other o s).
Proof. intros Hc [Hp Hs]. destruct o; split; cbn; auto. Qed.

Lemma interfere_seen p Phi s : calm Phi -> seen p Phi s -> seen p Phi (interfere s).
Proof.
  intros Hc Hs. unfold interfere, act_others.
  assert (Hd : seen p Phi (drop_others s)) by exact Hs.
  revert Hd. generalize (drop_others s). induction (default [] _) as [|o l IH]; intros s' Hd; [done|].
  cbn. by apply IH, act_other_seen.
Qed.

Lemma triple_external {A} p Phi (m : M X A) : calm Phi ->
  triple (seen p Phi) (external m) (fun _ => seen p Phi) (seen p Phi).
Proof.
  intros Hc s r s' Hs. unfold external. destruct (m (su_env s)) as [r0 x]. intros [= <- <-].
  assert (Hi : seen p Phi (interfere (with_env x s))) by by apply interfere_seen. by destruct r0.
Qed.

Lemma triple_send_frame p p' Phi timeout sequence payload : calm Phi ->
  p_open p = true -> p_next p = sequence -> hand p payload = Some p' ->
  triple (seen p Phi) (send_frame timeout (frame_of sequence payload)) (fun _ => seen p' Phi) conform.
Proof.
  intros Hc Ho Hn Hh s r s' Hs. unfold send_frame. destruct (se_Send _ _) as [outcome x].
  assert (Hl : seen (if delivered outcome then p' else no_stream) Phi
                 (log_event (Handed (frame_of sequence payload) outcome) (interfere (with_env x s)))).
  { destruct (interfere_seen p Phi (with_env x s) Hc Hs) as [Hp Hi]. split; [|exact Hi].
    cbn [log_event su_trace]. rewrite peer_of_snoc, Hp. cbn. rewrite Ho, Hn, Z.eqb_refl. cbn. by rewrite Hh. }
  destruct outcome as [[err|]| |err]; intros [= <- <-]; try exact Hl; by eapply seen_conform.
Qed.

Lemma triple_seen_modify p (Phi Psi : Status -> Prop) (f : Status -> Status) :
  (forall st, Phi st -> Psi (f st)) -> triple (seen p Phi) (modify (signal_with f)) (fun _ => seen p Psi) conform.
Proof. intros Hf s r s' [Hp Hs] [= <- <-]. split; cbn; auto. Qed.

Lemma triple_took p p' Phi frame :
  advance p (Took frame) = Some p' ->
  triple (seen p Phi) (modify (log_event (Took frame))) (fun _ => seen p' Phi) conform.
Proof. intros Ha s r s' [Hp Hs] [= <- <-]. split; [|done]. cbn [log_event su_trace]. by rewrite peer_of_snoc, Hp. Qed.

Lemma triple_seen_conform {A} p Phi (m : M S A) Q :
  triple (seen p Phi) m Q (seen p Phi) -> triple (seen p Phi) m Q conform.
Proof. intros Hm. eapply triple_weaken; [exact Hm|done|done|apply seen_conform]. Qed.

(** Between inputs: the peer of the trace agrees with the loop and the status. *)
Definition at_peer (waits : bool) (l : controlStream) (s : S) : Prop := exists p, agrees waits l p /\ seen p (tells p) s.
Definition in_step (l : controlStream) (s : S) : Prop := at_peer (is_none (l_heartbeat l)) l s.

Lemma at_peer_conform waits l s : at_peer waits l s -> conform s.
Proof. intros (p & _ & Hs). by eapply seen_conform. Qed.

Lemma agrees_welcomed waits l p : agrees waits l p -> welcomed p = true.
Proof. intros Hs. unfold welcomed. rewrite (sy_epoch _ _ _ Hs). apply negb_true_iff, Z.eqb_neq, Hs. Qed.

(** What the status may say depends on these fields only. *)
Lemma tells_same p p' st : p_epoch p' = p_epoch p -> p_lifecycle p' = p_lifecycle p -> p_acked p' = p_acked p ->
  p_applied p' = p_applied p -> p_directive p' = p_directive p -> tells p st -> tells p' st.
Proof. intros He Hl Ha Hp Hd []. split; rewrite ?He, ?Hl, ?Ha, ?Hp, ?Hd; auto. Qed.

(** Whatever is needed of [p] may be taken from the precondition. *)
Lemma triple_at {A} waits l (m : M S A) Q :
  (forall p, agrees waits l p -> triple (seen p (tells p)) m Q conform) -> triple (at_peer waits l) m Q conform.
Proof. intros Hm s r s' (p & Ha & Hs). exact (Hm p Ha s r s' Hs). Qed.

Lemma triple_at_kept {A} waits l (m : M X A) :
  triple (at_peer waits l) (external m) (fun _ => at_peer waits l) (at_peer waits l).
Proof.
  intros s r s' (p & Ha & Hs) Hrun. pose proof (triple_external p (tells p) m (tells_calm p) s r s' Hs Hrun) as Hr.
  destruct r; by exists p.
Qed.

Lemma triple_at_external {A} waits l (m : M X A) :
  triple (at_peer waits l) (external m) (fun _ => at_peer waits l) conform.
Proof. eapply triple_weaken; [apply triple_at_kept|done|done|apply at_peer_conform]. Qed.

Lemma seen_tells p p' s : p_epoch p' = p_epoch p -> p_lifecycle p' = p_lifecycle p -> p_acked p' = p_acked p ->
  p_applied p' = p_applied p -> p_directive p' = p_directive p -> seen p' (tells p) s -> seen p' (tells p') s.
Proof. intros He Hl Ha Hp Hd [Ht Hs]. split; [exact Ht|]. by eapply tells_same. Qed.

(** A frame after which the status still tells the truth. *)
Lemma triple_at_send waits waits' l l' payload :
  (forall p, agrees waits l p -> exists p', hand p payload = Some p' /\ agrees waits' l' p' /\
     p_lifecycle p' = p_lifecycle p /\ p_acked p' = p_acked p /\ p_applied p' = p_applied p /\ p_directive p' = p_directive p) ->
  epoch_of l' = epoch_of l ->
  triple (at_peer waits l) (send l payload) (fun _ => at_peer waits' l') conform.
Proof.
  intros Hh He. apply triple_at. intros p Ha. destruct (Hh p Ha) as (p' & Hp & Ha' & Hl & Hk & Hd & Hdir).
  eapply triple_weaken; [apply (triple_send_frame p p' (tells p)); [apply tells_calm|apply Ha|apply Ha|exact Hp]|done| |done].
  intros ? s Hs. exists p'. split; [exact Ha'|]. eapply seen_tells; [|done..|exact Hs].
  by rewrite (sy_epoch _ _ _ Ha), (sy_epoch _ _ _ Ha').
Qed.

#[local] Ltac agree :=
  subst; match goal with Ha : agrees _ _ _ |- agrees _ _ _ =>
    destruct Ha; split; unfold epoch_of in *; cbn in *; congruence end.

Lemma sendEventBatch_ok waits l :
  triple (at_peer waits l) (sendEventBatch cfg l)
    (fun l' s => at_peer waits l' s /\ l_heartbeat l' = l_heartbeat l) conform.
Proof.
  unfold sendEventBatch. destruct (negb _ || l_eventInFlight l) eqn:Hf; [by apply triple_ret|].
  apply orb_false_iff in Hf as [_ Hf].
  eapply triple_bind; [apply triple_map_err, triple_at_external|]. intros events. cbn beta.
  destruct (last events) as [e|] eqn:Hlast; [|by apply triple_ret].
  eapply triple_bind; [apply triple_map_err, (triple_at_send waits waits l (with_in_flight true (ge_JournalSequence e) (bump l)))|].
  - intros p Ha. cbn [hand]. rewrite (sy_batch _ _ _ Ha), Hf, fmap_last, Hlast, (agrees_welcomed _ _ _ Ha).
    eexists. split; [reflexivity|]. split; [|done]. by agree.
  - done.
  - intros ?. apply triple_ret. by intros s Hs.
Qed.

Lemma sendHeartbeat_ok l : l_heartbeat l <> None ->
  triple (in_step l) (sendHeartbeat cfg l) (fun l' => in_step l') conform.
Proof.
  intros Hh. unfold sendHeartbeat, in_step. replace (is_none (l_heartbeat l)) with false by by destruct (l_heartbeat l).
  eapply triple_bind; [apply triple_at_external|]. intros runtime. cbn beta zeta.
  destruct (validRuntimeState (rt_State runtime)) eqn:Hv; [|apply triple_throw, at_peer_conform]. cbn [negb].
  apply (triple_bind _ _ _ (fun _ => at_peer false l)); [by intros s r s' Hs [= <- <-]|]. intros now.
  apply (triple_bind _ _ _ (fun _ => at_peer false l)).
  { unfold journalPressure. destruct (sc_JournalMetrics cfg); [|by apply triple_ret].
    apply (triple_bind _ _ _ (fun _ => at_peer false l)); [|intros r; by apply triple_ret].
    by eapply (triple_attempt _ _ (fun _ => at_peer false l) _ (at_peer false l)); [apply triple_at_kept|]. }
  intros pressure. set (l1 := bump (with_last_gateway (l_nextGatewaySequence l) (with_runtime runtime l))).
  eapply triple_bind; [apply triple_map_err, (triple_at_send false true l l1); [|done]|].
  - intros p Ha. cbn [hand]. rewrite (agrees_welcomed _ _ _ Ha), (sy_heartbeat _ _ _ Ha), (sy_epoch _ _ _ Ha), (sy_control _ _ _ Ha).
    destruct pressure; cbn; rewrite !Z.eqb_refl, Hv; (eexists; split; [reflexivity|]; split; [|done]; by agree).
  - intros ?. eapply triple_bind; [apply sendEventBatch_ok|]. intros l2. apply triple_ret. intros s [(p & Ha & Hs) _].
    exists p. split; [|exact Hs]. destruct Ha. by split.
Qed.

(** ** Control frames *)

(** What a frame that passed the checks is. *)
Definition control_ok (epoch gatewaySequence : Z) (payload : option ControlPayload) : Prop :=
  match payload with
  | Some (ControlFrame_HeartbeatAck n e t) => n = gatewaySequence /\ e = epoch /\ 0 < t /\ 1 < gatewaySequence
  | Some (ControlFrame_LifecycleDirective d) => ld_ConnectionEpoch d = epoch /\ ld_DirectiveId d <> ""
  | Some (ControlFrame_DesiredStateSnapshot snapshot) => validateDesiredState snapshot = None
  | Some (ControlFrame_EventAck n) => n <> 0
  | _ => False
  end.

Lemma validateControl_spec frame sequence epoch gatewaySequence now f :
  validateControl frame sequence epoch gatewaySequence now = inr f ->
  frame = Some f /\ cf_ProtocolVersion f = 1 /\ cf_Sequence f = sequence /\ control_ok epoch gatewaySequence (cf_Payload f).
Proof.
  destruct frame as [[version number payload]|]; [|done]. unfold validateControl. cbn [cf_ProtocolVersion cf_Sequence cf_Payload].
  destruct (negb (version =? ProtocolVersion) || negb (number =? sequence)) eqn:He; [done|].
  apply orb_false_iff in He as [Hv%negb_false_iff%Z.eqb_eq Hn%negb_false_iff%Z.eqb_eq].
  intros Hok. cut (f = MkControlFrame version number payload /\ control_ok epoch gatewaySequence payload).
  { intros [-> Hc]. by subst. }
  destruct payload as [[w|d|n e t|snapshot|n]|]; cbn in Hok; try done.
  - destruct (validateDirective d epoch now) as [err|] eqn:Hd; [done|]. injection Hok as <-. split; [done|]. cbn.
    unfold validateDirective in Hd. destruct (_ || _) eqn:Hb in Hd; [done|]. do 2 apply orb_false_iff in Hb as [Hb _].
    apply orb_false_iff in Hb as [Hid Hepoch%negb_false_iff%Z.eqb_eq]. apply bool_decide_eq_false_1 in Hid. done.
  - destruct (_ && _) eqn:Hb in Hok; [|done]. injection Hok as <-. split; [done|]. cbn.
    rewrite !andb_true_iff, !Z.eqb_eq, !Z.ltb_lt in Hb. intuition.
  - destruct (validateDesiredState snapshot) eqn:Hd; [done|]. by injection Hok as <-.
  - destruct (n =? 0) eqn:Hz; [done|]. injection Hok as <-. split; [done|]. by apply Z.eqb_neq in Hz.
Qed.

Lemma triple_at_took waits l f p p' Phi : agrees waits l p ->
  cf_ProtocolVersion f = 1 -> cf_Sequence f = u64 (l_lastControlSequence l + 1) ->
  (exists payload, cf_Payload f = Some payload /\ take_in p (cf_Sequence f) payload = Some p') ->
  triple (seen p Phi) (modify (log_event (Took f))) (fun _ => seen p' Phi) conform.
Proof.
  intros Ha Hv Hs (payload & Hp & Ht). apply triple_took. destruct f as [version number pl]. cbn in *. subst pl version.
  cbn. rewrite (sy_open _ _ _ Ha), (sy_control _ _ _ Ha), <- Hs, Z.eqb_refl. exact Ht.
Qed.

(** The heartbeat timer is armed again, and the status tells what was acknowledged. *)
Lemma acknowledge_ok l p p' : agrees false l p' -> p_acked p' = p_runtime p' -> p_epoch p' = p_epoch p ->
  p_lifecycle p' = p_lifecycle p -> p_applied p' = p_applied p -> p_directive p' = p_directive p ->
  triple (seen p' (tells p)) (acknowledgeHeartbeat l) (fun l' => in_step l') conform.
Proof.
  intros Ha Hk He Hl Hp Hd. unfold acknowledgeHeartbeat. cbv zeta.
  eapply triple_bind; [apply (triple_seen_modify p' (tells p) (tells p'))|].
  - intros st Ht. destruct Ht as [Tc Te Tl Ta Tp Th Td Tr].
    split; cbn [acknowledged_status s_Connected s_ConnectionEpoch s_DesiredLifecycle s_AcknowledgedRuntime
                s_DesiredStateApplied s_DesiredStateHealthy s_Directive s_Ready]; rewrite ?He, ?Hl, ?Hp, ?Hd; auto.
    + rewrite Hk. symmetry. apply Ha.
    + rewrite Hk, (sy_runtime _ _ _ Ha), !andb_true_iff, !bool_decide_eq_true. cbn. intros [[[H1 H2] H3] H4].
      rewrite Tl in H1. rewrite Tp in H3. repeat split; [done|done|]. by destruct (p_applied p).
  - intros ?. apply triple_ret. intros s Hs. exists p'. split; [|exact Hs]. destruct (l_pendingReport _); by agree.
Qed.

Lemma handleEventAck_ok waits l n : l_eventInFlight l = true -> n = l_expectedEventAck l ->
  triple (at_peer waits (with_in_flight false 0 l)) (handleEventAck cfg n l)
    (fun l' s => at_peer waits l' s /\ l_heartbeat l' = l_heartbeat l) conform.
Proof.
  intros Hf ->. unfold handleEventAck. destruct (sc_EventJournal cfg); [|apply triple_throw, at_peer_conform].
  rewrite Hf, Z.eqb_refl. cbn [negb orb].
  eapply triple_bind; [apply triple_map_err, triple_at_external|]. intros ?. exact (sendEventBatch_ok waits (with_in_flight false 0 l)).
Qed.

Lemma applyDesiredState_ok waits l p snapshot : agrees waits l (clear_snapshot p) -> p_snapshot p = Some (ds_revision snapshot) ->
  triple (seen p (tells p)) (applyDesiredState cfg snapshot l)
    (fun l' s => at_peer waits l' s /\ l_heartbeat l' = l_heartbeat l) conform.
Proof.
  intros Ha Hs. unfold applyDesiredState. destruct (sc_DesiredState cfg); [|by apply triple_throw, seen_conform]. cbn [negb].
  destruct (validateDesiredState snapshot) as [err|]; [by apply triple_throw, seen_conform|].
  eapply triple_bind; [apply triple_map_err, triple_seen_conform, triple_external, tells_calm|]. intros [r|]; cbn beta iota;
    [|by apply triple_throw, seen_conform].
  unfold report_valid. destruct (_ && _) eqn:Hv; [|by apply triple_throw, seen_conform]. cbn [negb].
  apply andb_true_iff in Hv as [He%Z.eqb_eq Hr%Z.eqb_eq].
  apply (triple_bind _ _ _ (fun _ => seen p (tells p))).
  { destruct (sc_AssignmentJournal cfg); [apply triple_seen_conform, triple_external, tells_calm|by apply triple_ret]. }
  intros ?. eapply triple_bind; [apply triple_map_err, (triple_send_frame p (reported_peer p r) (tells p))|].
  - apply tells_calm.
  - by apply Ha.
  - by apply Ha.
  - cbn [hand]. rewrite Hs, <- Hr, bool_decide_eq_true_2, He, <- (sy_epoch _ _ _ Ha), Z.eqb_refl by done. reflexivity.
  - intros ?. eapply triple_bind; [apply (triple_seen_modify _ (tells p) (tells (reported_peer p r)))|].
    + intros st Ht. destruct Ht as [Tc Te Tl Tk Tp Th Td Tr]. split; cbn; auto; [by intros ->|].
      intros Hrd. destruct (Tr Hrd) as (? & ? & ?). done.
    + intros ?. apply triple_ret. intros s Hst. split; [|done]. exists (reported_peer p r). split; [|exact Hst]. agree.
Qed.

Lemma takeControl_ok l f : cf_ProtocolVersion f = 1 -> cf_Sequence f = u64 (l_lastControlSequence l + 1) ->
  control_ok (epoch_of l) (l_lastGatewaySequence l) (cf_Payload f) ->
  triple (in_step l) (takeControl cfg f l) (fun l' => in_step l') conform.
Proof.
  intros Hv Hs Hok. apply triple_at. intros p Ha. pose proof (agrees_welcomed _ _ _ Ha) as Hw. unfold takeControl.
  assert (Hfin : forall (waits : bool) (l0 : controlStream) (k : M S controlStream) P, waits = is_none (l_heartbeat l0) ->
            triple P k (fun l' s => at_peer waits l' s /\ l_heartbeat l' = l_heartbeat l0) conform ->
            triple P k (fun l' => in_step l') conform).
  { intros waits l0 k P -> Hk. eapply triple_weaken; [exact Hk|done| |done]. intros l' s [Hat Hh]. unfold in_step. by rewrite Hh. }
  set (l1 := with_last_control (cf_Sequence f) l).
  destruct (cf_Payload f) as [[w|d|n e t|snapshot|n]|] eqn:Hp; cbn [control_ok] in Hok; try done.
  - destruct Hok as [He Hid].
    eapply triple_bind; [eapply (triple_at_took _ l f p _ (tells p)); [exact Ha|done|done|]; eexists; split; [exact Hp|];
      cbn [take_in]; rewrite Hw, (proj2 (Z.eqb_eq _ _) (eq_trans He (eq_sym (sy_epoch _ _ _ Ha)))); reflexivity|]. intros ?.
    eapply triple_bind; [apply (triple_seen_modify _ (tells p))|].
    + intros st Ht. exact (directive_told p st d (cf_Sequence f) (eq_trans He (eq_sym (sy_epoch _ _ _ Ha))) Ht).
    + intros ?. apply triple_ret. intros s Hst. eexists. split; [|exact Hst]. agree.
  - destruct Hok as (-> & -> & Hpos & Hlast).
    eapply triple_bind; [eapply (triple_at_took _ l f p _ (tells p)); [exact Ha|done|done|]; eexists; split; [exact Hp|];
      cbn [take_in]; rewrite Hw, (proj2 (Z.eqb_eq _ _) (eq_sym (sy_last _ _ _ Ha))),
        (proj2 (Z.eqb_eq _ _) (eq_sym (sy_epoch _ _ _ Ha))), (proj2 (Z.ltb_lt _ _) Hlast); reflexivity|]. intros ?. apply acknowledge_ok; try done. agree.
  - eapply triple_bind; [eapply (triple_at_took _ l f p _ (tells p)); [exact Ha|done|done|]; eexists; split; [exact Hp|];
      cbn [take_in]; rewrite Hw, (sy_snapshot _ _ _ Ha); reflexivity|]. intros ?.
    apply (Hfin (is_none (l_heartbeat l)) l1); [reflexivity|]. set (p1 := MkPeer true (p_next p) (cf_Sequence f) (p_epoch p) (p_last p) (p_heartbeat p) (p_batch p)
                 (Some (ds_revision snapshot)) (p_directive p) (p_lifecycle p) (p_runtime p) (p_acked p) (p_applied p)).
    apply (triple_weaken (seen p1 (tells p1)) _ _ _ _ _ _ (applyDesiredState_ok (is_none (l_heartbeat l)) l1 p1 snapshot
      ltac:(unfold p1, clear_snapshot; agree) eq_refl)); [|done|done].
    intros s Hst. eapply seen_tells; [..|exact Hst]; done.
  - destruct (decide (p_batch p = Some n)) as [Hb|Hb].
    + pose proof Hb as Hf. rewrite (sy_batch _ _ _ Ha) in Hf. destruct (l_eventInFlight l) eqn:Hfl; [|done]. injection Hf as Hn.
      eapply triple_bind; [eapply (triple_at_took _ l f p _ (tells p)); [exact Ha|done|done|]; eexists; split; [exact Hp|];
        cbn [take_in]; rewrite Hw, bool_decide_eq_true_2 by done; reflexivity|]. intros ?.
      apply (Hfin (is_none (l_heartbeat l)) l1); [reflexivity|]. apply (triple_weaken _ _ _ _ _ _ _ (handleEventAck_ok (is_none (l_heartbeat l)) l1 n Hfl (eq_sym Hn))); [|done|done].
      intros s Hst. eexists. split; [|eapply seen_tells; [..|exact Hst]; done]. agree.
    + eapply triple_bind; [eapply (triple_at_took _ l f p no_stream (tells p)); [exact Ha|done|done|]; eexists; split; [exact Hp|];
        cbn [take_in]; rewrite Hw, bool_decide_eq_false_2 by done; reflexivity|]. intros ?. cbn beta zeta.
      unfold handleEventAck. destruct (sc_EventJournal cfg); [|by apply triple_throw, seen_conform]. cbn [negb].
      rewrite (sy_batch _ _ _ Ha) in Hb. cbn [l1 with_last_control l_eventInFlight l_expectedEventAck].
      destruct (l_eventInFlight l); [|by apply triple_throw, seen_conform].
      destruct (n =? l_expectedEventAck l) eqn:Hn; [apply Z.eqb_eq in Hn as ->; done|]. by apply triple_throw, seen_conform.
Qed.

Lemma handleFrame_ok result l : triple (in_step l) (handleFrame cfg result l) (fun l' => in_step l') conform.
Proof.
  destruct result as [err|frame]; [apply triple_throw, at_peer_conform|]. unfold handleFrame.
  apply (triple_bind _ _ _ (fun _ => in_step l)); [by intros s r s' Hs [= <- <-]|]. intros now.
  destruct (validateControl _ _ _ _ _) as [err|f] eqn:Hv.
  - intros s r s' Hs [= <- <-]. by eapply at_peer_conform.
  - apply validateControl_spec in Hv as (_ & Hversion & Hseq & Hok). exact (takeControl_ok l f Hversion Hseq Hok).
Qed.

(** ** Lifecycle reports *)

Lemma seen_answer p Phi d err : triple (seen p Phi) (modify (log_event (Answered d err))) (fun _ => seen p Phi) conform.
Proof. intros s r s' [Hp Hs] [= <- <-]. split; [|done]. cbn [log_event su_trace]. by rewrite peer_of_snoc, Hp. Qed.

Lemma conform_answer d err : triple conform (modify (log_event (Answered d err)) : M S unit) (fun _ => conform) conform.
Proof.
  intros s r s' [p Hp] [= <- <-]. exists p. cbn [log_event su_trace]. by rewrite peer_of_snoc, Hp.
Qed.

Lemma directiveReported_tells p d st : p_directive p = Some (di_ID d) -> tells p st -> s_Directive st = Some d ->
  tells (MkPeer true (u64 (p_next p + 1)) (p_control p) (p_epoch p) (p_last p) (p_heartbeat p) (p_batch p) (p_snapshot p) None
           (p_lifecycle p) (p_runtime p) (p_acked p) (p_applied p)) (reported_status st).
Proof. intros Hd [Tc Te Tl Ta Tp Th Td Tr] Hs. by split; cbn. Qed.

(** The directive stays active while its report is sent. *)
Lemma sendLifecycleReport_ok q l p : agrees (is_none (l_heartbeat l)) l p ->
  triple (seen p (fun st => tells p st /\ s_Directive st = Some (rq_directive q)))
    (sendLifecycleReport q l) (fun l' => in_step l') conform.
Proof.
  intros Ha. unfold sendLifecycleReport. set (d := rq_directive q). intros s r s' Hs. revert Hs.
  intros [Hp [Ht Hd]]. destruct (te_directive _ _ Ht _ Hd) as [Hid He].
  set (p' := MkPeer true (u64 (p_next p + 1)) (p_control p) (p_epoch p) (p_last p) (p_heartbeat p) (p_batch p) (p_snapshot p)
               None (p_lifecycle p) (p_runtime p) (p_acked p) (p_applied p)).
  set (Phi := fun st => tells p st /\ s_Directive st = Some d). assert (Hs : seen p Phi s) by done. revert Hs. clear Hp Ht Hd.
  revert s r s'. change (triple (seen p Phi) (sendLifecycleReport q l) (fun l' => in_step l') conform).
  unfold sendLifecycleReport. fold d.
  eapply (triple_bind _ _ _ (fun r s => match r with inr _ => seen p' Phi s | inl _ => conform s end)).
  { apply (triple_attempt _ _ _ _ conform); [|done]. apply (triple_send_frame p p' Phi).
    - intros st [Ht Hd]. by split; [apply tells_calm|].
    - apply Ha.
    - apply Ha.
    - cbn [hand lr_DirectiveId lr_ConnectionEpoch]. by rewrite bool_decide_eq_true_2, He, Z.eqb_refl by done. }
  intros [err|u].
  - eapply triple_bind; [apply conform_answer|]. intros ?. by apply triple_throw.
  - apply (triple_bind _ _ _ (fun _ => seen p' (tells p'))).
    + intros s r s' [Hp [Ht Hd]] [= <- <-]. unfold directiveReported. fold d. rewrite bool_decide_eq_true_2 by done.
      split; [exact Hp|]. exact (directiveReported_tells p d _ Hid Ht Hd).
    + intros ?. eapply triple_bind; [apply seen_answer|]. intros ?. apply triple_ret. intros s Hs. exists p'.
      split; [unfold p'; agree|exact Hs].
Qed.

(** ** The loop *)

Definition after_input (next : option controlStream) (s : S) : Prop :=
  match next with Some l => in_step l s | None => conform s end.

Lemma on_input_ok i l s r s' : in_step l s -> ready i l s = true -> on_input cfg i l s = (r, s') ->
  match r with inl _ => conform s' | inr next => after_input next s' end.
Proof.
  intros Hs Hr. revert s Hs Hr r s'.
  assert (Hsome : forall (k : M S controlStream) P, triple P k (fun l' => in_step l') conform ->
            triple P (l' ← k; mret (Some l')) after_input conform).
  { intros k P Hk. eapply triple_bind; [exact Hk|]. intros l'. by apply triple_ret. }
  destruct i as [| |result| | |q|o]; cbn [on_input ready]; intros s Hs Hr.
  - intros r s' [= <- <-]. by eapply at_peer_conform.
  - intros r s' [= <- <-]. by eapply at_peer_conform.
  - intros r s' Hrun. exact (Hsome _ _ (handleFrame_ok result l) s r s' Hs Hrun).
  - intros r s' Hrun. exact (Hsome _ _ (sendHeartbeat_ok l ltac:(by destruct (l_heartbeat l))) s r s' Hs Hrun).
  - intros r s' Hrun. assert (Hs1 : in_step l (set_report false s)) by exact Hs.
    change ((if is_none (l_heartbeat l) then mret (Some (with_pending true l))
             else l ← sendHeartbeat cfg l; mret (Some l)) (set_report false s) = (r, s')) in Hrun.
    destruct (l_heartbeat l) as [h|] eqn:Hh; cbn [is_none] in Hrun.
    + exact (Hsome _ _ (sendHeartbeat_ok l ltac:(by rewrite Hh)) _ _ _ Hs1 Hrun).
    + injection Hrun as <- <-. destruct Hs1 as (p & Ha & Hst). exists p. split; [|exact Hst].
      cbn [with_pending l_heartbeat]. rewrite Hh in *. agree.
  - intros r s' Hrun.
    change ((if negb (matchesActiveDirective (rq_directive q) s) then answer q (Some ErrDirectiveSuperseded);; mret (Some l)
             else l ← sendLifecycleReport q l; mret (Some l)) s = (r, s')) in Hrun.
    destruct Hs as (p & Ha & Hp & Ht). unfold matchesActiveDirective in Hrun. rewrite (te_connected _ _ Ht) in Hrun. cbn [andb] in Hrun.
    case_bool_decide as Hd; cbn [negb] in Hrun.
    + exact (Hsome _ _ (sendLifecycleReport_ok q l p Ha) s r s' (conj Hp (conj Ht Hd)) Hrun).
    + injection Hrun as <- <-. exists p. split; [exact Ha|]. split; [|exact Ht]. cbn. by rewrite peer_of_snoc, Hp.
  - intros r s' [= <- <-]. destruct Hs as (p & Ha & Hst). exists p. split; [exact Ha|]. apply act_other_seen; [apply tells_calm|exact Hst].
Qed.

Lemma loop_ok inputs l : triple (in_step l) (loop cfg inputs l) after_input conform.
Proof.
  revert l. induction inputs as [|i inputs IH]; intros l; [by apply triple_ret|].
  intros s r s' Hs Hrun. cbn [loop] in Hrun. destruct (ready i l s) eqn:Hr; [|exact (IH l s r s' Hs Hrun)].
  unfold mbind, M_bind in Hrun. destruct (on_input cfg i l s) as [[err|next] s1] eqn:Hi;
    pose proof (on_input_ok i l s _ _ Hs Hr Hi) as H1; [by injection Hrun as <- <-|].
  destruct next as [l1|]; [exact (IH l1 s1 r s' H1 Hrun)|by injection Hrun as <- <-].
Qed.

(** ** Streams *)

Lemma validateWelcome_spec frame w : validateWelcome frame = inr w -> cw_ConnectionEpoch w <> 0.
Proof.
  destruct frame as [[version number [[w0| | | |]|]]|]; cbn; try done; try (by destruct (_ || _)).
  destruct (_ || _); [done|]. destruct (_ || _ || _) eqn:Hb; [done|]. destruct (negb _); [done|]. intros [= <-].
  apply orb_false_iff in Hb as [Hb _]. apply orb_false_iff in Hb as [_ Hb]. by apply Z.eqb_neq.
Qed.

Definition hello_sent (runtime : GatewayRuntimeState) : peer :=
  MkPeer true 2 0 0 1 false None None None LIFECYCLE_DIRECTIVE_ACTION_UNKNOWN runtime GATEWAY_RUNTIME_STATE_UNKNOWN None.
Definition welcomed_peer (w : ControlWelcome) (runtime : GatewayRuntimeState) : peer :=
  MkPeer true 2 1 (cw_ConnectionEpoch w) 1 false None None None (cw_DesiredLifecycle w) runtime GATEWAY_RUNTIME_STATE_UNKNOWN None.

Definition no_claim (st : Status) : Prop := True.

Lemma openSession_ok wait :
  triple (seen new_stream no_claim) (openSession cfg wait) after_input conform.
Proof.
  unfold openSession. apply (triple_bind _ _ _ (fun _ => seen new_stream no_claim)).
  { destruct (sc_AssignmentJournal cfg); [by apply triple_seen_conform, triple_external|by apply triple_ret]. }
  intros ?. apply (triple_bind _ _ _ (fun _ => seen new_stream no_claim)); [by apply triple_seen_conform, triple_external|].
  intros runtime. destruct (validRuntimeState _); [|by apply triple_throw, seen_conform]. cbn [negb].
  eapply triple_bind; [apply triple_map_err, (triple_send_frame new_stream (hello_sent (rt_State runtime)) no_claim); done|].
  intros ?. apply (triple_bind _ _ _ (fun _ => seen (hello_sent (rt_State runtime)) no_claim)).
  { destruct wait as [| |[err|frame]]; [by apply triple_ret|apply triple_throw, seen_conform|apply triple_throw, seen_conform|by apply triple_ret]. }
  intros [[frame|]|]; [|apply triple_ret, seen_conform|apply triple_ret, seen_conform].
  destruct (validateWelcome (Some frame)) as [err|w] eqn:Hw.
  { intros s r s' Hs [= <- <-]. by eapply seen_conform. }
  apply validateWelcome_spec in Hw. apply (triple_bind _ _ _ (fun a s => a = w /\ seen (hello_sent (rt_State runtime)) no_claim s)).
  { by intros s r s' Hs [= <- <-]. }
  intros w'. apply triple_pure. intros ->.
  destruct (_ || _); [apply triple_throw, seen_conform|]. destruct (_ <=? _); [apply triple_throw, seen_conform|].
  eapply triple_bind; [apply (triple_took _ (welcomed_peer w (rt_State runtime)) no_claim); reflexivity|]. intros ?.
  eapply triple_bind; [apply (triple_seen_modify _ no_claim (tells (welcomed_peer w (rt_State runtime))))|].
  - intros st _. by split.
  - intros ?. apply triple_ret. intros s Hs. exists (welcomed_peer w (rt_State runtime)). split; [by split|exact Hs].
Qed.

(** Between streams. *)
Definition parted (s : S) : Prop := peer_of (su_trace s) = Some no_stream /\ s_Connected (su_status s) = false /\ s_Ready (su_status s) = false.

Lemma runStream_ok script : triple (seen no_stream no_claim) (runStream cfg script) after_input conform.
Proof.
  unfold runStream. eapply triple_bind; [by apply triple_map_err, triple_seen_conform, triple_external|]. intros ?.
  apply (triple_bind _ _ _ (fun _ => seen new_stream no_claim)).
  { intros s r s' [Hp Hs] [= <- <-]. split; [|done]. cbn. by rewrite peer_of_snoc, Hp. }
  intros ?. eapply triple_bind; [apply openSession_ok|]. intros [l|]; [apply loop_ok|by apply triple_ret].
Qed.

(** The state [run] stops in. *)
Definition run_state (s : S) : Prop := parted s \/ exists l, in_step l s.

Lemma run_ok scripts : forall attempt s r s', parted s -> run cfg attempt scripts s = (r, s') ->
  match r with Running => run_state s' | Returned _ => parted s' end.
Proof.
  induction scripts as [|script scripts IH]; intros attempt s r s' Hs Hrun; [injection Hrun as <- <-; by left|].
  cbn [run] in Hrun. destruct (runStream cfg script s) as [r1 s1] eqn:H1.
  pose proof (runStream_ok script s r1 s1 (conj (proj1 Hs) I) H1) as Ho.
  assert (Hend : forall err, conform s1 -> parted (stream_ended err s1)).
  { intros err [p Hp]. unfold stream_ended. split; [|done]. cbn. by rewrite peer_of_snoc, Hp. }
  destruct r1 as [err|[l|]].
  2: { injection Hrun as <- <-. right. by exists l. }
  1: specialize (Hend (Some err) Ho). 2: specialize (Hend None Ho).
  all: destruct (sp_cancelled script); [injection Hrun as <- <-; exact Hend|];
    destruct (terminal _); [injection Hrun as <- <-; exact Hend|];
    match type of Hrun with context [log_event (BackedOff ?a ?d) ?s2] =>
      assert (Hb : parted (log_event (BackedOff a d) s2)) by
        (split; [cbn [log_event su_trace]; rewrite peer_of_snoc; by rewrite (proj1 Hend)|apply Hend]) end;
    destruct (sp_cancelled_waiting script); [injection Hrun as <- <-; exact Hb|exact (IH _ _ _ _ Hb Hrun)].
Qed.
End Conformance.

(** A supervisor that was not started yet. *)
Definition fresh_supervisor {X} (others : list (list other)) (x : X) : supervisor X :=
  MkSupervisor blank_status false 0 others [] x.

Lemma fresh_parted {X} others (x : X) : parted (fresh_supervisor others x).
Proof. by split. Qed.

(** C7: The control protocol. Whatever the API sends, however sends, calls and
    timers come out and whatever other goroutines do, every frame the supervisor
    hands to a stream is numbered consecutively from 1 and is one the protocol
    allows there: the hello first; after a valid welcome, under its connection
    epoch, heartbeats one at a time that acknowledge the last control frame, one
    event batch in flight, exactly one report per snapshot before anything else
    of that snapshot's answer, a lifecycle report only for the directive in
    force; and nothing after a send that failed or an acknowledgement of another
    batch. *)
Theorem streams_follow_the_protocol {X} `{SupervisorEnv X} cfg attempt scripts others (x : X) :
  is_Some (peer_of (su_trace (run cfg attempt scripts (fresh_supervisor others x)).2)).
Proof.
  destruct (run _ _ _ _) as [r s'] eqn:Hrun. pose proof (run_ok cfg _ _ _ _ _ (fresh_parted others x) Hrun) as Hr.
  destruct r; [destruct Hr as [Hp|(l & p & _ & Hp)]; [by exists no_stream; apply Hp|by exists p; apply Hp]|by exists no_stream; apply Hr].
Qed.

(** C15: Readiness on evidence. The status is ready only while a welcomed stream is
    open whose last instruction is to run, the last acknowledged heartbeat of which
    said READY, and on which a desired-state snapshot was applied and reported. *)
Theorem ready_on_evidence {X} `{SupervisorEnv X} cfg attempt scripts others (x : X) r s' :
  run cfg attempt scripts (fresh_supervisor others x) = (r, s') -> s_Ready (su_status s') = true ->
  exists p, peer_of (su_trace s') = Some p /\ p_open p = true /\ welcomed p = true /\
    s_ConnectionEpoch (su_status s') = p_epoch p /\ p_lifecycle p = LIFECYCLE_DIRECTIVE_ACTION_RUN /\
    p_acked p = GATEWAY_RUNTIME_STATE_READY /\ p_applied p <> None.
Proof.
  intros Hrun Hr. pose proof (run_ok cfg _ _ _ _ _ (fresh_parted others x) Hrun) as Hs.
  assert (Hl : run_state s') by (destruct r; [exact Hs|by left]).
  destruct Hl as [(_ & _ & Hn)|(l & p & Ha & Hp & Ht)]; [congruence|].
  exists p. split; [exact Hp|]. split; [apply Ha|]. split; [by eapply agrees_welcomed|].
  split; [apply Ht|]. by apply (te_ready _ _ Ht).
Qed.

(** ** Waiters *)

(** A state change wakes the waiters. *)
Definition wakes {X} (s s' : supervisor X) : Prop :=
  (su_changed s <= su_changed s')%nat /\ (su_changed s = su_changed s' -> su_status s = su_status s').

#[export] Instance wakes_preorder {X} : PreOrder (@wakes X).
Proof. split; [by split|]. intros s1 s2 s3 [H1 H2] [H3 H4]. split; [lia|]. intros He. rewrite H2, H4 by lia. done. Qed.

Create HintDb wakes.

Section Waiters.
Context {X : Type} `{SupervisorEnv X}.
Variable cfg : SupervisorConfig.
Abbreviation S := (supervisor X).

Lemma wakes_quiet (s s' : S) : su_changed s' = su_changed s -> su_status s' = su_status s -> wakes s s'.
Proof. intros H1 H2. split; [by rewrite H1|by rewrite H2]. Qed.
Lemma wakes_signal f (s : S) : wakes s (signal_with f s).
Proof. split; cbn; lia. Qed.
Lemma wakes_act_other o (s : S) : wakes s (act_other o s).
Proof. destruct o; [apply wakes_signal|done]. Qed.
Lemma wakes_interfere (s : S) : wakes s (interfere s).
Proof.
  unfold interfere, act_others. transitivity (drop_others s); [done|]. generalize (drop_others s).
  induction (default [] _) as [|o l IH]; intros s'; [done|]. cbn. etransitivity; [apply wakes_act_other|apply IH].
Qed.

Lemma wakes_external {A} (m : M X A) : respects wakes (external m).
Proof.
  intros s r s'. unfold external. destruct (m (su_env s)) as [r0 x]. intros [= _ <-].
  by transitivity (with_env x s); [|apply wakes_interfere].
Qed.
Lemma wakes_send_frame timeout frame : respects wakes (send_frame timeout frame : M S unit).
Proof.
  intros s r s'. unfold send_frame. destruct (se_Send frame (su_env s)) as [o x].
  assert (Hw : wakes s (log_event (Handed frame o) (interfere (with_env x s)))).
  { transitivity (with_env x s); [by apply wakes_quiet|].
    transitivity (interfere (with_env x s)); [apply wakes_interfere|by apply wakes_quiet]. }
  destruct o as [[e|]| |e]; by intros [= _ <-].
Qed.
Lemma wakes_modify (f : S -> S) : (forall s, wakes s (f s)) -> respects wakes (modify f).
Proof. by intros Hf s r s' [= _ <-]. Qed.
Lemma wakes_reported d (s : S) : wakes s (directiveReported d s).
Proof. unfold directiveReported. case_bool_decide; [apply wakes_signal|done]. Qed.

#[local] Hint Resolve wakes_external wakes_send_frame wakes_signal wakes_act_other wakes_reported wakes_quiet : wakes.

(** Every handler is built of these. *)
#[local] Ltac wake :=
  repeat first
    [ solve [auto 1 with wakes] | apply respects_bind; [exact _|..|intros ?] | apply respects_ret, _ | apply respects_throw, _ | apply respects_gets, _
    | apply respects_lift, _ | apply respects_map_err | apply respects_attempt | apply wakes_external
    | apply wakes_send_frame | apply wakes_modify; intros ?; by auto with wakes
    | match goal with |- respects _ (match ?x with _ => _ end) => destruct x end
    | match goal with |- respects _ (if ?x then _ else _) => destruct x end ].

Lemma wakes_sendEventBatch l : respects wakes (sendEventBatch cfg l : M S _).
Proof. unfold sendEventBatch, send. wake. Qed.
#[local] Hint Resolve wakes_sendEventBatch : wakes.
Lemma wakes_sendHeartbeat l : respects wakes (sendHeartbeat cfg l : M S _).
Proof. unfold sendHeartbeat, journalPressure, send, Snapshot. wake. Qed.
#[local] Hint Resolve wakes_sendHeartbeat : wakes.
Lemma wakes_takeControl f l : respects wakes (takeControl cfg f l : M S _).
Proof.
  unfold takeControl, handleEventAck, applyDesiredState, acknowledgeHeartbeat, directiveReceived, desiredStateApplied,
    heartbeatAcknowledged, send. wake.
Qed.
#[local] Hint Resolve wakes_takeControl : wakes.
Lemma wakes_on_input i l : respects wakes (on_input cfg i l : M S _).
Proof.
  destruct i; cbn [on_input]; unfold handleFrame, sendLifecycleReport, answer, send; wake.
Qed.
Lemma wakes_loop inputs : forall l, respects wakes (loop cfg inputs l : M S _).
Proof.
  induction inputs as [|i inputs IH]; intros l; [wake|]. intros s r s' Hrun. cbn [loop] in Hrun.
  destruct (ready i l s); [|exact (IH l s r s' Hrun)]. revert s r s' Hrun.
  refine (_ : respects wakes (next ← on_input cfg i l; match next with None => mret None | Some l => loop cfg inputs l end)).
  apply respects_bind; [exact _|apply wakes_on_input|]. intros [l'|]; [apply IH|wake].
Qed.
#[local] Hint Resolve wakes_loop : wakes.
Lemma wakes_runStream script : respects wakes (runStream cfg script : M S _).
Proof.
  unfold runStream, openSession, Snapshot, sendHandshake, receiveWelcome, connected. wake.
Qed.
Lemma wakes_run scripts : forall attempt (s : S), wakes s (run cfg attempt scripts s).2.
Proof.
  induction scripts as [|script scripts IH]; intros attempt s; [done|]. cbn [run].
  destruct (runStream cfg script s) as [r1 s1] eqn:H1. apply wakes_runStream in H1.
  assert (Hend : forall err, wakes s (stream_ended err s1)).
  { intros err. etransitivity; [exact H1|]. transitivity (disconnected err s1); [apply wakes_signal|by apply wakes_quiet]. }
  assert (Hback : forall err a d, wakes s (log_event (BackedOff a d) (stream_ended err s1))).
  { intros err a d. etransitivity; [apply Hend|by apply wakes_quiet]. }
  destruct r1 as [err|[l|]]; [|exact H1|]; (destruct (sp_cancelled script); [apply Hend|]);
    (destruct (terminal _); [apply Hend|]); (destruct (sp_cancelled_waiting script); [apply Hback|]);
    (etransitivity; [|apply IH]); apply Hback.
Qed.
End Waiters.

(** No lost wake-up. A run that changes the status signals the waiters: whoever
    inspected it under the lock and found the channel of that moment still open
    would see the same status again, so a [Wait] that sleeps has nothing to see. *)
Theorem waiters_miss_no_change {X} `{SupervisorEnv X} cfg attempt scripts (s s' : supervisor X) r :
  run cfg attempt scripts s = (r, s') -> su_status s' <> su_status s -> (su_changed s < su_changed s')%nat.
Proof.
  intros Hrun Hs. pose proof (wakes_run cfg scripts attempt s) as [Hle He]. rewrite Hrun in Hle, He. cbn in *.
  destruct (decide (su_changed s = su_changed s')) as [Heq|]; [|lia]. by destruct Hs; rewrite He.
Qed.

(** ** Retries *)

Lemma double_until_spec max attempt : forall delay, 0 < delay -> 0 <= max < 2 ^ 63 ->
  let d := double_until max attempt delay in
  delay <= d /\ Z.min (delay * 2 ^ Z.of_nat attempt) (max / 2) <= d <= Z.max delay max /\
  (delay * 2 ^ Z.of_nat attempt <= max / 2 -> d = delay * 2 ^ Z.of_nat attempt).
Proof.
  induction attempt as [|n IH]; intros delay Hd Hmax; cbn [double_until]; cbv zeta.
  { rewrite Z.mul_1_r. lia. }
  rewrite Z.quot_div_nonneg by lia. destruct (max / 2 <=? delay) eqn:Hle; to_prop.
  - assert (Hp : 1 < 2 ^ Z.of_nat (Datatypes.S n)) by (apply Z.pow_gt_1; lia). revert Hp.
    generalize (2 ^ Z.of_nat (Datatypes.S n)). intros k Hk. assert (Hm : delay < delay * k) by nia.
    revert Hm. generalize (delay * k). intros m Hm. clear IH. lia.
  - pose proof (Z.mul_div_le max 2). rewrite i64_id by (unfold in_i64; lia). destruct (IH (delay * 2) ltac:(lia) Hmax) as (H1 & H2 & H3).
    rewrite Nat2Z.inj_succ, Z.pow_succ_r by lia. rewrite (Z.mul_assoc delay 2).
    split; [lia|]. split; [|exact H3]. split; [apply H2|]. assert (delay * 2 <= max) by lia. lia.
Qed.

(** The bounds [Delay] works with. *)
Definition delay_min (b : ExponentialBackoff) : Z := if xb_Min b <=? 0 then 250 * Millisecond else xb_Min b.
Definition delay_max (b : ExponentialBackoff) : Z := if xb_Max b <? delay_min b then 30 * Second else xb_Max b.

(** C38: The retry delay, for every configuration and attempt, over the bounds it
    works with: the configured minimum, or 250 ms when that is not positive, and
    the configured maximum, or 30 s when that is below the minimum. No
    multiplication overflows. Without jitter the delay never exceeds the maximum
    and never falls below the smaller bound; it is exactly the minimum doubled
    once per attempt as long as that is within half the maximum, and from then on
    at least half the maximum. With jitter the delay is what the jitter makes of
    that delay, so anything between zero and it: there is no lower bound. *)
Theorem backoff_is_bounded b scale attempt :
  in_i64 (xb_Min b) -> in_i64 (xb_Max b) -> (forall d, 0 <= d -> 0 <= scale d <= d) ->
  let low := if xb_Min b <=? 0 then 250 * Millisecond else xb_Min b in
  let high := if xb_Max b <? low then 30 * Second else xb_Max b in
  let steady := Delay (MkExponentialBackoff (xb_Min b) (xb_Max b) false) scale attempt in
  let doubled := low * 2 ^ Z.of_nat attempt in
  Z.min low high <= steady <= high /\ Z.min doubled (high / 2) <= steady /\
  (doubled <= high / 2 -> steady = doubled) /\
  Delay b scale attempt = (if xb_Jitter b then scale steady else steady) /\
  0 <= Delay b scale attempt <= steady.
Proof.
  intros Hmin Hmax Hscale. unfold Delay. cbn [xb_Min xb_Max xb_Jitter]. fold (delay_min b). cbv zeta. fold (delay_max b).
  assert (H0 : 0 < delay_min b) by (unfold delay_min, Millisecond; destruct (_ <=? _) eqn:E; to_prop; lia).
  assert (H1 : 0 <= delay_max b < 2 ^ 63).
  { unfold in_i64 in *. unfold delay_max. destruct (_ <? _) eqn:E; to_prop; [unfold Second; lia|lia]. }
  destruct (double_until_spec (delay_max b) attempt (delay_min b) H0 H1) as (Hge & Hbd & Heq).
  set (d := double_until _ _ _) in *. set (capped := if delay_max b <? d then delay_max b else d).
  assert (Hc : capped = Z.min d (delay_max b)) by (subst capped; destruct (_ <? _) eqn:E; to_prop; lia).
  assert (Hpos : 0 <= capped <= delay_max b) by lia.
  assert (Hhalf : delay_max b / 2 <= delay_max b) by (apply Z.div_le_upper_bound; lia).
  split; [lia|]. split; [lia|]. split; [lia|]. split; [done|].
  destruct (xb_Jitter b); [|lia]. specialize (Hscale capped). lia.
Qed.

(** ** A concrete run

    A journal that holds one event, a runtime that is ready, an applier that
    reports every session applied, and a transport that never fails. *)
Record demo_gateway := MkDemoGateway { dg_journal : db jdb; dg_adapter : ControlAdapter }.

#[local] Existing Instance demo_codec.
#[local] Instance demo_supervised : SupervisorEnv demo_gateway := {|
  se_Snapshot _ := MkRuntimeSnapshot GATEWAY_RUNTIME_STATE_READY 1;
  se_Now _ := FromUnixMilli 1;
  se_Open x := (inr tt, x);
  se_Send _ x := (SendDone None, x);
  se_ApplyDesiredState epoch snapshot x :=
    (inr (Some (MkReceivedReport epoch (ds_revision snapshot)
       (Some (MkKeystoreHealth KEYSTORE_HEALTH_STATE_HEALTHY None None)) [] [])), x);
  se_NextEventBatch epoch x :=
    let '(r, d) := NextEventBatch (dg_adapter x) epoch (Db (rows (dg_journal x)) []) in (r, MkDemoGateway d (dg_adapter x));
  se_AckEvents n x := let '(r, d) := AckEvents n (Db (rows (dg_journal x)) []) in (r, MkDemoGateway d (dg_adapter x));
  se_ResetDesiredAssignments x := MkDemoGateway (dg_journal x) (ResetDesiredAssignments (dg_adapter x));
  se_SetDesiredAssignments snapshot x := MkDemoGateway (dg_journal x) (SetDesiredAssignments snapshot (dg_adapter x));
  se_JournalMetrics x := (inr (MkJournalPressure GATEWAY_JOURNAL_STATE_HEALTHY 1 1), x);
  se_Delay attempt _ := Delay (MkExponentialBackoff 0 0 false) id attempt;
|}.

Definition demo_supervisor_config : SupervisorConfig :=
  MkSupervisorConfig "gw_1" "v1" "" "" (FromUnixMilli 1) true true true true true (100 * Millisecond) (60 * Second) Second.
Definition demo_control (sequence : Z) (payload : ControlPayload) : input :=
  Received (inr (Some (MkControlFrame 1 sequence (Some payload)))).
Definition demo_welcome : ControlFrame :=
  MkControlFrame 1 1 (Some (ControlFrame_Welcome (MkControlWelcome "conn" 5 1000 9000 LIFECYCLE_DIRECTIVE_ACTION_RUN 1))).
Definition demo_owner : DesiredStateSnapshot :=
  MkDesiredStateSnapshot 1 [MkSessionAssignment "sess_1" "org_1" 3 1 None (Some "dev") SESSION_DESIRED_ACTION_RUN].

(** The first stream is refused; on the second one the event is sent and
    acknowledged. *)
Definition demo_scripts : list stream_script := [
  MkScript (WaitReceived (inl (ErrMsg "refused"))) [] false false;
  MkScript (WaitReceived (inr (Some demo_welcome)))
    [demo_control 2 (ControlFrame_DesiredStateSnapshot demo_owner); HeartbeatFired;
     demo_control 3 (ControlFrame_HeartbeatAck 3 5 1); demo_control 4 (ControlFrame_EventAck 1)] false false].
Definition demo_begun : supervisor demo_gateway :=
  fresh_supervisor [] (MkDemoGateway (Db demo_stored []) (MkControlAdapter "gw_1" None 0)).
Definition demo_supervised_run := run demo_supervisor_config 0 demo_scripts demo_begun.

Lemma ready_on_evidence_witness :
  s_Ready (su_status demo_supervised_run.2) = true /\
  exists p, peer_of (su_trace demo_supervised_run.2) = Some p /\ p_open p = true /\ welcomed p = true /\
    s_ConnectionEpoch (su_status demo_supervised_run.2) = p_epoch p /\ p_lifecycle p = LIFECYCLE_DIRECTIVE_ACTION_RUN /\
    p_acked p = GATEWAY_RUNTIME_STATE_READY /\ p_applied p <> None.
Proof.
  assert (Hr : s_Ready (su_status demo_supervised_run.2) = true) by (vm_compute; reflexivity). split; [exact Hr|].
  exact (ready_on_evidence demo_supervisor_config 0 demo_scripts [] (su_env demo_begun) _ _ (surjective_pairing demo_supervised_run) Hr).
Defined.

Lemma waiters_miss_no_change_witness :
  su_status demo_supervised_run.2 <> su_status demo_begun /\
  (su_changed demo_begun < su_changed demo_supervised_run.2)%nat.
Proof.
  assert (Hs : su_status demo_supervised_run.2 <> su_status demo_begun) by (vm_compute; discriminate). split; [exact Hs|].
  exact (waiters_miss_no_change demo_supervisor_config 0 demo_scripts _ _ _ (surjective_pairing demo_supervised_run) Hs).
Defined.

Lemma backoff_is_bounded_witness :
  Delay (MkExponentialBackoff 3 10 false) id 7 = 6 /\ 0 <= Delay (MkExponentialBackoff 3 10 true) (fun d => d / 2) 7 <= 6.
Proof.
  split; [reflexivity|].
  destruct (backoff_is_bounded (MkExponentialBackoff 3 10 true) (fun d => d / 2) 7) as (_ & _ & _ & _ & Hb);
    [by split; vm_compute|by split; vm_compute| |exact Hb].
  intros d Hd. split; [by apply Z.div_pos|]. apply Z.div_le_upper_bound; lia.
Defined.
