(* ===== verification/SupervisorLane.v ===== *)
(** The supervisor over the gateway's journal. A run of it, with whatever the rest
    of the process appends meanwhile, is a run of the event lane of
    JournalControl; so what that promises holds of the program: no journaled event
    is lost, whatever the API, the transport and SQLite do. *)
From S2P Require Import Prelude Journal Domain Wire JournalControl Supervisor SupervisorSpec.

#[local] Open Scope Z_scope.

(** ** The journal in the supervisor's environment *)

Section Lane.
Context `{C : EventCodec} (jcfg : Config).

(** What other goroutines do to the journal: they append events and use the
    command ledger. *)
Inductive local_step (s : jdb) : jdb -> Prop :=
  | local_append event epoch fs r d' :
      (forall b, marshal_persisted (MkPersistedEvent (ev_MediaSource event) event epoch) = inr b -> len b < 2 ^ 62) ->
      AppendDomainEvent jcfg event epoch (Db s fs) = (r, d') -> local_step s (rows d')
  | local_ledger o fs r d' :
      is_ledger_op o = true -> run_op jcfg o (Db s fs) = (r, d') -> local_step s (rows d').

(** The control adapter is the environment's journal; every call of the
    environment may find the rows moved on by other goroutines. *)
Class JournaledEnv (X : Type) `{SupervisorEnv X} := {
  je_rows : X -> jdb;
  je_adapter : X -> ControlAdapter;
  je_next epoch x r x' : se_NextEventBatch epoch x = (r, x') ->
    je_adapter x' = je_adapter x /\ exists s fs d', rtc local_step (je_rows x) s /\
      NextEventBatch (je_adapter x) epoch (Db s fs) = (r, d') /\ rtc local_step (rows d') (je_rows x');
  je_ack n x r x' : se_AckEvents n x = (r, x') ->
    je_adapter x' = je_adapter x /\ exists s fs d', rtc local_step (je_rows x) s /\
      AckEvents n (Db s fs) = (r, d') /\ rtc local_step (rows d') (je_rows x');
  je_reset x : je_adapter (se_ResetDesiredAssignments x) = ResetDesiredAssignments (je_adapter x) /\
    rtc local_step (je_rows x) (je_rows (se_ResetDesiredAssignments x));
  je_set snapshot x : je_adapter (se_SetDesiredAssignments snapshot x) = SetDesiredAssignments snapshot (je_adapter x) /\
    rtc local_step (je_rows x) (je_rows (se_SetDesiredAssignments snapshot x));
  je_open r x x' : se_Open x = (r, x') -> je_adapter x' = je_adapter x /\ rtc local_step (je_rows x) (je_rows x');
  je_send frame o x x' : se_Send frame x = (o, x') -> je_adapter x' = je_adapter x /\ rtc local_step (je_rows x) (je_rows x');
  je_apply epoch snapshot r x x' : se_ApplyDesiredState epoch snapshot x = (r, x') ->
    je_adapter x' = je_adapter x /\ rtc local_step (je_rows x) (je_rows x');
  je_metrics r x x' : se_JournalMetrics x = (r, x') -> je_adapter x' = je_adapter x /\ rtc local_step (je_rows x) (je_rows x');
}.

(** ** What the trace says of batches *)

Definition batch_of (ev : sup_event) : option (list GatewayEvent) :=
  match ev with
  | Handed (MkGatewayFrame _ _ (Some (GatewayFrame_EventBatch (Some events)))) (SendDone None) => Some (omap id events)
  | _ => None
  end.
Definition ack_of (ev : sup_event) : option Z :=
  match ev with Took (MkControlFrame _ _ (Some (ControlFrame_EventAck n))) => Some n | _ => None end.

(** Batches written to the API. *)
Definition sent_batches (tr : list sup_event) : list (list GatewayEvent) := omap batch_of tr.

(** An acknowledgement is of the last batch written, if it names the journal
    sequence that batch ends in. *)
Definition acknowledges (written : list (list GatewayEvent)) (ev : sup_event) : option (list GatewayEvent) :=
  n ← ack_of ev; b ← last written; e ← last b;
  if ge_JournalSequence e =? n then Some b else None.
Fixpoint acknowledged (written : list (list GatewayEvent)) (tr : list sup_event) : list (list GatewayEvent) :=
  match tr with
  | [] => []
  | ev :: tr => option_list (acknowledges written ev) ++ acknowledged (written ++ option_list (batch_of ev)) tr
  end.
Definition acked_batches (tr : list sup_event) : list (list GatewayEvent) := acknowledged [] tr.

(** What a trace says of connections and snapshots, latest first: a connection
    began, and a snapshot that was taken is applied when its report is handed to
    the stream. *)
Definition note_step (st : option DesiredStateSnapshot * list lane_note) (ev : sup_event) : option DesiredStateSnapshot * list lane_note :=
  match ev with
  | Opened => (None, NewConnection :: st.2)
  | Took (MkControlFrame _ _ (Some (ControlFrame_DesiredStateSnapshot snapshot))) => (Some snapshot, st.2)
  | Handed (MkGatewayFrame _ _ (Some (GatewayFrame_DesiredStateReport _))) _ =>
      match st.1 with Some snapshot => (st.1, Applied snapshot :: st.2) | None => st end
  | _ => st
  end.
Definition noting (tr : list sup_event) : option DesiredStateSnapshot * list lane_note := foldl note_step (None, []) tr.
Definition notes_of (tr : list sup_event) : list lane_note := (noting tr).2.

Lemma sent_batches_snoc tr ev : sent_batches (tr ++ [ev]) = sent_batches tr ++ option_list (batch_of ev).
Proof. unfold sent_batches. rewrite omap_app. cbn. by destruct (batch_of ev). Qed.

Lemma acknowledged_app written tr1 tr2 :
  acknowledged written (tr1 ++ tr2) = acknowledged written tr1 ++ acknowledged (written ++ sent_batches tr1) tr2.
Proof.
  revert written. induction tr1 as [|ev tr1 IH]; intros written; cbn; [by rewrite app_nil_r|].
  rewrite IH, <- !app_assoc. do 3 f_equal. by destruct (batch_of ev).
Qed.
Lemma acked_batches_snoc tr ev :
  acked_batches (tr ++ [ev]) = acked_batches tr ++ option_list (acknowledges (sent_batches tr) ev).
Proof. unfold acked_batches. rewrite acknowledged_app. cbn. by rewrite app_nil_r. Qed.
Lemma noting_snoc tr ev : noting (tr ++ [ev]) = note_step (noting tr) ev.
Proof. apply foldl_snoc. Qed.

(** Events that are neither batches nor of connections and snapshots. *)
Definition plain (ev : sup_event) : Prop := batch_of ev = None /\ forall st, (note_step st ev).2 = st.2.
Lemma plain_notes tr ev : plain ev -> notes_of (tr ++ [ev]) = notes_of tr.
Proof. intros [_ Hp]. unfold notes_of. by rewrite noting_snoc, Hp. Qed.

(** ** The simulation *)

Section Run.
Context {X : Type} `{HE : SupervisorEnv X} {HJ : JournaledEnv X}.
Variables (cfg : SupervisorConfig) (w0 : world).
Hypotheses (Hjournal : sc_EventJournal cfg = true) (Hassign : sc_AssignmentJournal cfg = true).
Abbreviation S := (supervisor X).

(** A world of the lane behind a state of the supervisor; [at_] is known of the
    trace and the lane's two flags. *)
Record behind (at_ : list sup_event -> bool -> Z -> Prop) (s : S) (w : world) : Prop := {
  bh_steps : rtc (lane_step jcfg) w0 w;
  bh_rows : rows (ln_db (w_lane w)) = je_rows (su_env s);
  bh_adapter : ln_adapter (w_lane w) = je_adapter (su_env s);
  bh_wire : ln_wire (w_lane w) = sent_batches (su_trace s);
  bh_acked : w_acked w ⊆ acked_batches (su_trace s);
  bh_notes : w_notes w = notes_of (su_trace s);
  bh_expected : ln_eventInFlight (w_lane w) = true -> exists b e, last (sent_batches (su_trace s)) = Some b /\
    last b = Some e /\ ge_JournalSequence e = ln_expectedEventAck (w_lane w);
  bh_flags : at_ (su_trace s) (ln_eventInFlight (w_lane w)) (ln_expectedEventAck (w_lane w));
}.
Definition view (at_ : list sup_event -> bool -> Z -> Prop) (s : S) : Prop := exists w, behind at_ s w.

Definition of_stream (l : controlStream) (tr : list sup_event) (b : bool) (n : Z) : Prop :=
  b = l_eventInFlight l /\ n = l_expectedEventAck l.
Definition anything (tr : list sup_event) (b : bool) (n : Z) : Prop := True.

Lemma view_weaken (at_ at' : list sup_event -> bool -> Z -> Prop) s :
  (forall tr b n, at_ tr b n -> at' tr b n) -> view at_ s -> view at' s.
Proof. intros Hat [w []]. exists w. split; auto. Qed.
Lemma view_any at_ s : view at_ s -> view anything s.
Proof. by apply view_weaken. Qed.

(** The lane keeps still while the rows move on. *)
Lemma lane_moves w s : rtc local_step (rows (ln_db (w_lane w))) s ->
  exists d, rtc (lane_step jcfg) w (MkWorld (with_db d (w_lane w)) (w_acked w) (w_notes w)) /\ rows d = s.
Proof.
  remember (rows (ln_db (w_lane w))) as s0 eqn:Hs0. intros Hr. revert w Hs0.
  induction Hr as [s0|s0 s1 s2 Hstep _ IH]; intros w ->.
  { exists (ln_db (w_lane w)). split; [|done]. by destruct w as [[] ? ?]. }
  assert (Hw : exists d, lane_step jcfg w (MkWorld (with_db d (w_lane w)) (w_acked w) (w_notes w)) /\ rows d = s1).
  { inversion Hstep; subst; exists d'; (split; [|done]); [by eapply step_append|by eapply step_ledger]. }
  destruct Hw as (d & Hw & <-). destruct (IH (MkWorld (with_db d (w_lane w)) (w_acked w) (w_notes w)) eq_refl) as (d' & Hr' & Hrows).
  exists d'. split; [|done]. by eapply rtc_l.
Qed.

(** Steps of the lane, with the rows moving on after them. *)
Lemma view_jump at_ at' s s' w w' :
  behind at_ s w -> rtc (lane_step jcfg) w w' ->
  rtc local_step (rows (ln_db (w_lane w'))) (je_rows (su_env s')) ->
  ln_adapter (w_lane w') = je_adapter (su_env s') -> ln_wire (w_lane w') = sent_batches (su_trace s') ->
  w_acked w' ⊆ acked_batches (su_trace s') -> w_notes w' = notes_of (su_trace s') ->
  (ln_eventInFlight (w_lane w') = true -> exists b e, last (sent_batches (su_trace s')) = Some b /\
    last b = Some e /\ ge_JournalSequence e = ln_expectedEventAck (w_lane w')) ->
  at' (su_trace s') (ln_eventInFlight (w_lane w')) (ln_expectedEventAck (w_lane w')) -> view at' s'.
Proof.
  intros Hb Hsteps Hr Ha Hw Hk Hp He Hat. destruct (lane_moves w' _ Hr) as (d & Hst & Hrows).
  exists (MkWorld (with_db d (w_lane w')) (w_acked w') (w_notes w')). split; cbn; try done.
  etransitivity; [exact (bh_steps _ _ _ Hb)|]. by etransitivity.
Qed.

(** What a state shows of the journal. *)
Definition moved (s s' : S) : Prop :=
  je_adapter (su_env s') = je_adapter (su_env s) /\ rtc local_step (je_rows (su_env s)) (je_rows (su_env s')) /\
  su_trace s' = su_trace s.

Lemma behind_moved at_ s s' w : moved s s' -> behind at_ s w -> exists w', rtc (lane_step jcfg) w w' /\ behind at_ s' w'.
Proof.
  intros (Ha & Hr & Ht) [Bs Br Ba Bw Bk Bp Be Bf]. destruct (lane_moves w (je_rows (su_env s'))) as (d & Hst & Hrows); [by rewrite Br|].
  eexists. split; [exact Hst|]. split; cbn; rewrite ?Ht, ?Ha; try done. by transitivity w.
Qed.
Lemma view_moved at_ s s' : moved s s' -> view at_ s -> view at_ s'.
Proof. intros Hm [w Hb]. destruct (behind_moved _ _ _ _ Hm Hb) as (w' & _ & Hb'). by exists w'. Qed.

Lemma interfere_env (s : S) : su_env (interfere s) = su_env s /\ su_trace (interfere s) = su_trace s.
Proof.
  unfold interfere, act_others. change (su_env s) with (su_env (drop_others s)). change (su_trace s) with (su_trace (drop_others s)).
  generalize (drop_others s). induction (default [] _) as [|o l IH]; intros s'; [done|]. cbn.
  destruct (IH (act_other o s')) as [-> ->]. by destruct o.
Qed.

Lemma interfere_moved x (s : S) : je_adapter x = je_adapter (su_env s) -> rtc local_step (je_rows (su_env s)) (je_rows x) ->
  moved s (interfere (with_env x s)).
Proof. intros Ha Hr. destruct (interfere_env (with_env x s)) as [He Ht]. split; [by rewrite He|]. split; [by rewrite He|exact Ht]. Qed.

(** A call that leaves the adapter alone. *)
Definition neutral {A} (m : M X A) : Prop := forall x r x', m x = (r, x') ->
  je_adapter x' = je_adapter x /\ rtc local_step (je_rows x) (je_rows x').

Lemma view_external {A} at_ (m : M X A) : neutral m -> triple (view at_) (external m) (fun _ => view at_) (view at_).
Proof.
  intros Hm s r s' Hs. unfold external. destruct (m (su_env s)) as [r0 x] eqn:Hx. intros [= <- <-].
  destruct (Hm _ _ _ Hx) as [Ha Hr]. assert (Hv : view at_ (interfere (with_env x s))).
  { eapply view_moved; [by apply interfere_moved|exact Hs]. }
  by destruct r0.
Qed.

Lemma triple_any {A} P (m : M S A) Q at_ : triple P m Q (view at_) -> triple P m Q (view anything).
Proof. intros Hm. eapply triple_weaken; [exact Hm|done|done|apply view_any]. Qed.

(** Events that are not batches. *)
Lemma view_log (at_ at' : list sup_event -> bool -> Z -> Prop) s ev : plain ev ->
  (forall b n, at_ (su_trace s) b n -> at' (su_trace s ++ [ev]) b n) -> view at_ s -> view at' (log_event ev s).
Proof.
  intros Hb Hat [w [Bs Br Ba Bw Bk Bp Be Bf]]. assert (Hsent : sent_batches (su_trace s ++ [ev]) = sent_batches (su_trace s)).
  { by rewrite sent_batches_snoc, (proj1 Hb), app_nil_r. }
  exists w. split; cbn [log_event su_trace su_env]; rewrite ?Hsent; auto.
  - rewrite acked_batches_snoc. set_solver.
  - by rewrite plain_notes.
Qed.

Lemma view_modify at_ (f : S -> S) : (forall s, su_env (f s) = su_env s /\ su_trace (f s) = su_trace s) ->
  triple (view at_) (modify f) (fun _ => view at_) (view anything).
Proof.
  intros Hf s r s' Hs [= <- <-]. destruct (Hf s) as [He Ht]. eapply view_moved; [|exact Hs].
  split; [by rewrite He|]. split; [by rewrite He|exact Ht].
Qed.

Lemma view_modify_log (at_ at' : list sup_event -> bool -> Z -> Prop) ev : plain ev ->
  (forall tr b n, at_ tr b n -> at' (tr ++ [ev]) b n) ->
  triple (view at_) (modify (log_event ev)) (fun _ => view at') (view anything).
Proof. intros Hb Hat s r s' Hs [= <- <-]. apply (view_log at_); auto. Qed.

Lemma plain_sent frame o : plain (Handed frame (SendDone None)) -> plain (Handed frame o).
Proof. intros [Hb Hn]. split; [|exact Hn]. destruct o as [[e|]| |e]; [|exact Hb|..]; destruct frame as [? ? [[| | | |[]]|]]; done. Qed.
Lemma plain_undelivered k q events o : o <> SendDone None -> plain (Handed (MkGatewayFrame k q (Some (GatewayFrame_EventBatch events))) o).
Proof. intros Hn. split; [|done]. destruct o as [[e|]| |e], events; done. Qed.

Lemma view_send (at_ at' : list sup_event -> bool -> Z -> Prop) timeout frame : plain (Handed frame (SendDone None)) ->
  (forall tr tr' b n, at_ tr b n -> at' tr' b n) ->
  triple (view at_) (send_frame timeout frame) (fun _ => view at') (view anything).
Proof.
  intros Hb Hat s r s' Hs. unfold send_frame. destruct (se_Send frame (su_env s)) as [o x] eqn:Hx.
  destruct (je_send _ _ _ _ Hx) as [Ha Hr].
  assert (Hv : view at' (log_event (Handed frame o) (interfere (with_env x s)))).
  { apply (view_log at_); [by apply plain_sent| |eapply view_moved; [by apply interfere_moved|exact Hs]].
    intros b n. apply Hat. }
  destruct o as [[e|]| |e]; intros [= <- <-]; try exact Hv; by eapply view_any.
Qed.

Lemma omap_some {A} (l : list A) : omap id (Some <$> l) = l.
Proof. induction l as [|a l IH]; [done|]. cbn. by rewrite IH. Qed.

(** *** The lane's own operations *)

(** The lane after a batch was read and written; [sendErr] is how the write went. *)
Definition lane_sent (l : lane) (d' : db jdb) (r : goerr + list GatewayEvent) (sendErr : option goerr) : lane :=
  let idle := MkLane d' (ln_adapter l) false (ln_expectedEventAck l) (ln_wire l) in
  match r, sendErr with
  | inr events, None =>
      match last events with
      | Some e => MkLane d' (ln_adapter l) true (ge_JournalSequence e) (ln_wire l ++ [events])
      | None => idle
      end
  | _, _ => idle
  end.

(** Both are one step of the lane. *)
Lemma lane_send w epoch fs r d' sendErr : ln_eventInFlight (w_lane w) = false ->
  NextEventBatch (ln_adapter (w_lane w)) epoch (Db (rows (ln_db (w_lane w))) fs) = (r, d') ->
  lane_step jcfg w (MkWorld (lane_sent (w_lane w) d' r sendErr) (w_acked w) (w_notes w)).
Proof.
  intros Hf Hn.
  assert (Hl : (JournalControl.sendEventBatch epoch sendErr (with_db (Db (rows (ln_db (w_lane w))) fs) (w_lane w))).2
    = lane_sent (w_lane w) d' r sendErr).
  { unfold JournalControl.sendEventBatch, lane_sent. cbn. rewrite Hf, Hn. destruct r as [e|events]; [done|].
    destruct (last events), sendErr; done. }
  rewrite <- Hl. eapply step_send. by apply surjective_pairing.
Qed.

(** The state after a write that was, or was not, delivered. *)
Lemma view_sent l s s' w events e d' :
  behind (of_stream l) s w -> ln_eventInFlight (w_lane w) = false -> last events = Some e ->
  rtc (lane_step jcfg) w (MkWorld (MkLane d' (ln_adapter (w_lane w)) true (ge_JournalSequence e) (ln_wire (w_lane w) ++ [events]))
    (w_acked w) (w_notes w)) ->
  je_adapter (su_env s') = je_adapter (su_env s) -> rtc local_step (rows d') (je_rows (su_env s')) ->
  forall ev, su_trace s' = su_trace s ++ [ev] -> batch_of ev = Some events ->
  view (of_stream (with_in_flight true (ge_JournalSequence e) l)) s'.
Proof.
  intros Hb Hf He Hst Ha Hr ev Ht Hev. pose proof Hb as [_ _ Ba Bw Bk Bp Be _].
  eapply (view_jump _ _ _ _ _ _ Hb); [exact Hst|..]; cbn; rewrite ?Ht, ?Ha; try done.
  - by rewrite Bw, sent_batches_snoc, Hev.
  - rewrite acked_batches_snoc. set_solver.
  - unfold notes_of. rewrite noting_snoc. destruct ev as [|[k q [[| | | |]|]] o| | | |]; cbn in Hev |- *; done.
  - intros _. exists events, e. rewrite sent_batches_snoc, Hev. cbn. by rewrite last_snoc.
Qed.

Lemma view_unsent l s s' w d' : behind (of_stream l) s w ->
  rtc (lane_step jcfg) w (MkWorld (MkLane d' (ln_adapter (w_lane w)) false (ln_expectedEventAck (w_lane w)) (ln_wire (w_lane w)))
    (w_acked w) (w_notes w)) -> ln_eventInFlight (w_lane w) = false ->
  je_adapter (su_env s') = je_adapter (su_env s) -> rtc local_step (rows d') (je_rows (su_env s')) ->
  su_trace s' = su_trace s -> view (of_stream l) s'.
Proof.
  intros Hb Hst Hf Ha Hr Ht. pose proof Hb as [_ _ Ba Bw Bk Bp Be Bf].
  eapply (view_jump _ _ _ _ _ _ Hb); [exact Hst|..]; cbn; rewrite ?Ht, ?Ha; try done.
  by rewrite <- Hf.
Qed.

Lemma view_sendEventBatch l : triple (view (of_stream l)) (sendEventBatch cfg l) (fun l' => view (of_stream l')) (view anything).
Proof.
  unfold sendEventBatch. rewrite Hjournal. cbn [negb orb]. destruct (l_eventInFlight l) eqn:Hfl; [by apply triple_ret|].
  intros s r s' [w1 Hb1] Hrun. unfold mbind, M_bind, map_err, external in Hrun.
  destruct (se_NextEventBatch (epoch_of l) (su_env s)) as [r0 x] eqn:Hnext.
  destruct (je_next _ _ _ _ Hnext) as (Ha & rws & fs & d' & Hpre & Hbatch & Hpost).
  destruct (lane_moves w1 rws) as (d & Hst & <-); [by rewrite (bh_rows _ _ _ Hb1)|].
  destruct (bh_flags _ _ _ Hb1) as [Hf _]. rewrite Hfl in Hf.
  set (s1 := interfere (with_env x s)) in *.
  destruct (interfere_env (with_env x s)) as [He1 Ht1]. fold s1 in He1, Ht1. cbn in He1, Ht1.
  assert (Hlane : forall sendErr, rtc (lane_step jcfg) w1 (MkWorld (lane_sent (w_lane w1) d' r0 sendErr) (w_acked w1) (w_notes w1))).
  { intros sendErr. eapply rtc_r; [exact Hst|].
    refine (lane_send (MkWorld (with_db d (w_lane w1)) _ _) (epoch_of l) fs r0 d' sendErr Hf _).
    cbn. by rewrite (bh_adapter _ _ _ Hb1). }
  assert (Hidle : rtc (lane_step jcfg) w1 (MkWorld
    (MkLane d' (ln_adapter (w_lane w1)) false (ln_expectedEventAck (w_lane w1)) (ln_wire (w_lane w1))) (w_acked w1) (w_notes w1)) ->
    view (of_stream l) s1).
  { intros H. apply (view_unsent l s s1 w1 d' Hb1 H Hf); [by rewrite He1|by rewrite He1|exact Ht1]. }
  destruct r0 as [err|events]; [injection Hrun as <- <-; exact (view_any _ _ (Hidle (Hlane None)))|].
  unfold lane_sent in Hlane. destruct (last events) as [e|] eqn:Hlast; [|injection Hrun as <- <-; exact (Hidle (Hlane None))].
  unfold send, send_frame in Hrun. destruct (se_Send _ (su_env s1)) as [o x2] eqn:Hsend.
  destruct (je_send _ _ _ _ Hsend) as [Ha2 Hr2]. rewrite He1 in Ha2, Hr2.
  destruct (interfere_env (with_env x2 s1)) as [He2 Ht2]. cbn in He2, Ht2.
  assert (Hfail : o <> SendDone None -> view anything
    (log_event (Handed (frame_of (l_nextGatewaySequence l) (GatewayFrame_EventBatch (Some (Some <$> events)))) o) (interfere (with_env x2 s1)))).
  { intros Ho. apply (view_log (of_stream l)); [by apply plain_undelivered|done|].
    apply (view_moved _ s1); [apply interfere_moved; by rewrite He1|exact (Hidle (Hlane (Some EOF)))]. }
  destruct o as [[err|]| |err]; injection Hrun as <- <-; try by apply Hfail.
  apply (view_sent (bump l) s _ w1 events e d' Hb1 Hf Hlast (Hlane None)) with (ev := Handed (frame_of (l_nextGatewaySequence l)
    (GatewayFrame_EventBatch (Some (Some <$> events)))) (SendDone None)); cbn [log_event su_env su_trace].
  - by rewrite He2, Ha2.
  - rewrite He2. by etransitivity.
  - by rewrite Ht2, Ht1.
  - cbn. by rewrite omap_some.
Qed.

Lemma view_gets {A} at_ (f : S -> A) : triple (view at_) (gets f) (fun _ => view at_) (view anything).
Proof. by intros s r s' Hs [= <- <-]. Qed.

Lemma view_weak_pre {A} at_ at' (m : M S A) Q E : (forall tr b n, at' tr b n -> at_ tr b n) ->
  triple (view at_) m Q E -> triple (view at') m Q E.
Proof. intros Hat Hm. eapply triple_weaken; [exact Hm| |done|done]. intros s. by apply view_weaken. Qed.

(** An acknowledgement of the batch in flight was just taken. *)
Definition acked_now (l : controlStream) (n : Z) (tr : list sup_event) (b : bool) (m : Z) : Prop :=
  of_stream l tr b m /\
  forall batch e, last (sent_batches tr) = Some batch -> last batch = Some e -> ge_JournalSequence e = n -> batch ∈ acked_batches tr.

Lemma took_ack l f n tr b m : cf_Payload f = Some (ControlFrame_EventAck n) -> of_stream l tr b m ->
  acked_now l n (tr ++ [Took f]) b m.
Proof.
  intros Hf Hl. split; [exact Hl|]. intros batch e Hb He Hn. rewrite sent_batches_snoc in Hb. cbn in Hb.
  rewrite app_nil_r in Hb. rewrite acked_batches_snoc. apply elem_of_app. right.
  destruct f as [v k p]. cbn in Hf. subst p. unfold acknowledges. cbn [ack_of mbind option_bind].
  rewrite Hb. cbn. rewrite He. cbn. rewrite Hn, Z.eqb_refl. by left.
Qed.

Lemma view_AckEvents l n : l_eventInFlight l = true -> l_expectedEventAck l = n ->
  triple (view (acked_now l n)) (external (se_AckEvents n)) (fun _ => view (of_stream (with_in_flight false 0 l))) (view anything).
Proof.
  intros Hfl Hn s r s' [w1 Hb1] Hrun. unfold external in Hrun.
  destruct (se_AckEvents n (su_env s)) as [r0 x] eqn:Hack. injection Hrun as <- <-.
  destruct (je_ack _ _ _ _ Hack) as (Ha & rws & fs & d' & Hpre & Hrun & Hpost).
  destruct (lane_moves w1 rws) as (d & Hst & <-); [by rewrite (bh_rows _ _ _ Hb1)|].
  pose proof Hb1 as [_ _ Ba Bw Bk Bp Be [[Bf1 Bf2] Bnow]]. rewrite Hfl in Bf1.
  destruct (interfere_env (with_env x s)) as [He1 Ht1]. cbn in He1, Ht1.
  set (w := MkWorld (with_db d (w_lane w1)) (w_acked w1) (w_notes w1)).
  assert (Haccept : JournalControl.acceptEventAck n (with_db (Db (rows (ln_db (w_lane w))) fs) (w_lane w)) =
    match r0 with
    | inl err => (inl (ErrWrap "ack journal events" err), with_db d' (w_lane w1))
    | inr _ => (inr tt, MkLane d' (ln_adapter (w_lane w1)) false 0 (ln_wire (w_lane w1)))
    end).
  { unfold JournalControl.acceptEventAck. cbn. rewrite Bf1, Bf2, Hn, Z.eqb_refl. cbn. rewrite Hrun.
    destruct r0 as [err|[]]; [|done]. unfold with_db. by rewrite Bf1, Bf2, Hn. }
  destruct r0 as [err|[]].
  - eapply (view_jump _ _ _ _ w1 _ Hb1).
    + eapply rtc_r; [exact Hst|]. by eapply (step_ack_failed _ w n fs).
    + cbn. by rewrite He1.
    + cbn. by rewrite He1, Ha.
    + by rewrite Ht1.
    + by rewrite Ht1.
    + by rewrite Ht1.
    + cbn. by rewrite Ht1.
    + done.
  - eapply (view_jump _ _ _ _ w1 _ Hb1).
    + eapply rtc_r; [exact Hst|]. by eapply (step_ack _ w n fs).
    + cbn. by rewrite He1.
    + cbn. by rewrite He1, Ha.
    + by rewrite Ht1.
    + rewrite Ht1. cbn. destruct (Be Bf1) as (b & e & Hb & He & Hseq). rewrite Bw, Hb. cbn.
      intros b' [->|Hin]%elem_of_cons; [|by apply Bk]. apply (Bnow b e); [done|done|]. by rewrite Hseq, Bf2.
    + by rewrite Ht1.
    + done.
    + done.
Qed.

Lemma view_handleEventAck l n :
  triple (view (acked_now l n)) (handleEventAck cfg n l) (fun l' => view (of_stream l')) (view anything).
Proof.
  unfold handleEventAck. rewrite Hjournal. cbn [negb]. destruct (l_eventInFlight l) eqn:Hfl; [|apply triple_throw, view_any].
  destruct (n =? l_expectedEventAck l) eqn:Hn; [|apply triple_throw, view_any]. apply Z.eqb_eq in Hn. cbn [negb orb].
  eapply triple_bind; [apply triple_map_err, view_AckEvents; [exact Hfl|by rewrite Hn]|]. intros ?. apply view_sendEventBatch.
Qed.

(** *** Desired state *)

Definition taken_now (l : controlStream) (snapshot : DesiredStateSnapshot) (tr : list sup_event) (b : bool) (n : Z) : Prop :=
  of_stream l tr b n /\ (noting tr).1 = Some snapshot.

Lemma took_plain f : plain (Took f).
Proof. split; [by destruct f as [v k [[]|]]|]. intros st. by destruct f as [v k [[]|]]. Qed.
Lemma took_snapshot l f snapshot tr b n : cf_Payload f = Some (ControlFrame_DesiredStateSnapshot snapshot) ->
  of_stream l tr b n -> taken_now l snapshot (tr ++ [Took f]) b n.
Proof.
  intros Hf Hl. split; [exact Hl|]. rewrite noting_snoc. destruct f as [v k p]. cbn in *. by subst p.
Qed.

(** The snapshot is applied and its report handed to the stream; nothing reads
    the journal in between. *)
Lemma view_applied l snapshot report : triple (view (taken_now l snapshot))
  (external (fun x => (inr tt, se_SetDesiredAssignments snapshot x));;
   map_err (ErrWrap "send desired state acknowledgement") (send l (GatewayFrame_DesiredStateReport (Some report))))
  (fun _ => view (of_stream l)) (view anything).
Proof.
  intros s r s' [w1 Hb1] Hrun. unfold mbind, M_bind, map_err, external in Hrun.
  destruct (je_set snapshot (su_env s)) as [Ha Hr]. pose proof Hb1 as [_ Br Ba Bw Bk Bp Be [Bf Bnow]].
  set (s1 := interfere (with_env (se_SetDesiredAssignments snapshot (su_env s)) s)) in *.
  destruct (interfere_env (with_env (se_SetDesiredAssignments snapshot (su_env s)) s)) as [He1 Ht1]. fold s1 in He1, Ht1. cbn in He1, Ht1.
  unfold send, send_frame in Hrun. destruct (se_Send _ (su_env s1)) as [o x2] eqn:Hsend.
  destruct (je_send _ _ _ _ Hsend) as [Ha2 Hr2]. rewrite He1 in Ha2, Hr2.
  destruct (interfere_env (with_env x2 s1)) as [He2 Ht2]. cbn in He2, Ht2.
  assert (Hv : view (of_stream l) (log_event (Handed (frame_of (l_nextGatewaySequence l)
      (GatewayFrame_DesiredStateReport (Some report))) o) (interfere (with_env x2 s1)))).
  { eapply (view_jump _ _ _ _ w1 _ Hb1 (rtc_once _ _ (step_snapshot _ w1 snapshot))); cbn [log_event su_env su_trace w_lane w_acked w_notes];
      rewrite ?He2, ?Ht2, ?Ht1.
    - cbn. rewrite Br. by etransitivity.
    - cbn. by rewrite Ha2, Ba, Ha.
    - cbn. rewrite Bw, sent_batches_snoc. destruct o as [[]| |]; cbn; by rewrite app_nil_r.
    - rewrite acked_batches_snoc. set_solver.
    - unfold notes_of. rewrite noting_snoc. cbn. by rewrite Bnow, Bp.
    - cbn. rewrite sent_batches_snoc. destruct o as [[]| |]; cbn; by rewrite app_nil_r.
    - exact Bf. }
  destruct o as [[err|]| |err]; injection Hrun as <- <-; try exact Hv; by eapply view_any.
Qed.

Lemma view_applyDesiredState l snapshot :
  triple (view (taken_now l snapshot)) (applyDesiredState cfg snapshot l) (fun l' => view (of_stream l')) (view anything).
Proof.
  unfold applyDesiredState. destruct (sc_DesiredState cfg); [|apply triple_throw, view_any]. cbn [negb].
  destruct (validateDesiredState snapshot); [apply triple_throw, view_any|]. rewrite Hassign.
  eapply triple_bind; [eapply triple_map_err, triple_any, (view_external (taken_now l snapshot)); exact (fun x r x' H => je_apply _ _ r x x' H)|].
  intros [r|]; [|apply triple_throw, view_any]. destruct (report_valid _ _ _); [|apply triple_throw, view_any]. cbn [negb].
  intros s r0 s' Hs Hrun.
  assert (Hassoc : forall (m1 m2 : M S unit) (k : M S controlStream), (m1;; m2;; k) s = ((m1;; m2);; k) s).
  { intros m1 m2 k. unfold mbind, M_bind. destruct (m1 s) as [[e|[]] s1]; [done|]. by destruct (m2 s1) as [[e|[]] s2]. }
  rewrite Hassoc in Hrun. revert Hrun. match goal with |- ?p s = _ -> _ =>
    enough (Ht : triple (view (taken_now l snapshot)) p (fun l' => view (of_stream l')) (view anything)) by exact (Ht s r0 s' Hs) end.
  eapply triple_bind; [apply view_applied|].
  intros ?. eapply triple_bind; [by apply view_modify|]. intros ?. by apply triple_ret.
Qed.

(** *** Streams *)

Lemma view_Snapshot at_ : triple (view at_) Snapshot (fun _ => view at_) (view anything).
Proof. apply triple_any with at_, view_external. by intros x r x' [= <- <-]. Qed.

Lemma view_acknowledgeHeartbeat l : triple (view (of_stream l)) (acknowledgeHeartbeat l) (fun l' => view (of_stream l')) (view anything).
Proof.
  unfold acknowledgeHeartbeat. cbv zeta. eapply triple_bind; [by apply view_modify|]. intros ?.
  apply triple_ret. intros s. by destruct (l_pendingReport _).
Qed.

Lemma view_journalPressure at_ : triple (view at_) (journalPressure cfg) (fun _ => view at_) (view anything).
Proof.
  unfold journalPressure. destruct (sc_JournalMetrics cfg); [|by apply triple_ret].
  apply (triple_bind _ _ _ (fun _ => view at_)); [|intros r; by apply triple_ret].
  eapply (triple_attempt _ _ (fun _ => view at_) _ (view at_)); [|done]. apply view_external. exact (fun x r x' H => je_metrics r x x' H).
Qed.

Lemma view_sendHeartbeat l : triple (view (of_stream l)) (sendHeartbeat cfg l) (fun l' => view (of_stream l')) (view anything).
Proof.
  unfold sendHeartbeat. eapply triple_bind; [apply view_Snapshot|]. intros runtime. cbv zeta.
  destruct (validRuntimeState _); [|apply triple_throw, view_any]. cbn [negb].
  eapply triple_bind; [apply view_gets|]. intros now. eapply triple_bind; [apply view_journalPressure|]. intros pressure.
  eapply triple_bind; [by apply triple_map_err, (view_send (of_stream l) (of_stream l))|]. intros ?.
  eapply triple_bind; [apply (view_weak_pre (of_stream (bump (with_last_gateway (l_nextGatewaySequence l) (with_runtime runtime l)))));
    [done|apply view_sendEventBatch]|]. intros l2. by apply triple_ret.
Qed.

Lemma view_takeControl f l : triple (view (of_stream l)) (takeControl cfg f l) (fun l' => view (of_stream l')) (view anything).
Proof.
  unfold takeControl. set (l1 := with_last_control (cf_Sequence f) l).
  destruct (cf_Payload f) as [[w|d|n e t|snapshot|n]|] eqn:Hp.
  - eapply triple_bind; [by apply (view_modify_log _ (of_stream l1)); [apply took_plain|]|]. intros ?. apply view_acknowledgeHeartbeat.
  - eapply triple_bind; [by apply (view_modify_log _ (of_stream l1)); [apply took_plain|]|]. intros ?.
    eapply triple_bind; [by apply view_modify|]. intros ?. by apply triple_ret.
  - eapply triple_bind; [by apply (view_modify_log _ (of_stream l1)); [apply took_plain|]|]. intros ?. apply view_acknowledgeHeartbeat.
  - eapply triple_bind; [apply (view_modify_log _ (taken_now l1 snapshot)); [apply took_plain|]; intros tr b n; by apply (took_snapshot l1)|].
    intros ?. apply view_applyDesiredState.
  - eapply triple_bind; [apply (view_modify_log _ (acked_now l1 n)); [apply took_plain|]; intros tr b m; by apply (took_ack l1)|].
    intros ?. apply view_handleEventAck.
  - eapply triple_bind; [by apply (view_modify_log _ (of_stream l1)); [apply took_plain|]|]. intros ?. apply view_acknowledgeHeartbeat.
Qed.

Lemma view_handleFrame result l : triple (view (of_stream l)) (handleFrame cfg result l) (fun l' => view (of_stream l')) (view anything).
Proof.
  destruct result as [err|frame]; [apply triple_throw, view_any|]. unfold handleFrame.
  eapply triple_bind; [apply view_gets|]. intros now.
  destruct (validateControl _ _ _ _ _) as [err|f]; [apply triple_throw, view_any|apply view_takeControl].
Qed.

Lemma view_answer at_ q err : (forall tr tr' b n, at_ tr b n -> at_ tr' b n) ->
  triple (view at_) (answer q err) (fun _ => view at_) (view anything).
Proof. intros Hat. apply view_modify_log; [done|]. intros tr b n. apply Hat. Qed.

Lemma view_sendLifecycleReport q l :
  triple (view (of_stream l)) (sendLifecycleReport q l) (fun l' => view (of_stream l')) (view anything).
Proof.
  unfold sendLifecycleReport.
  apply (triple_bind _ _ _ (fun r => view (match r with inl _ => anything | inr _ => of_stream l end))).
  { apply (triple_attempt _ _ _ _ (view anything)); [by apply (view_send (of_stream l) (of_stream l))|done]. }
  intros [err|u].
  - eapply triple_bind; [by apply view_answer|]. intros ?. by apply triple_throw.
  - eapply triple_bind; [apply view_modify; intros s; unfold directiveReported; by case_bool_decide|]. intros ?.
    eapply triple_bind; [by apply view_answer|]. intros ?. by apply triple_ret.
Qed.

Definition after_view (next : option controlStream) : S -> Prop :=
  view (match next with Some l => of_stream l | None => anything end).

Lemma view_some l (k : M S controlStream) : triple (view (of_stream l)) k (fun l' => view (of_stream l')) (view anything) ->
  triple (view (of_stream l)) (l' ← k; mret (Some l')) after_view (view anything).
Proof. intros Hk. eapply triple_bind; [exact Hk|]. intros l'. by apply triple_ret. Qed.

Lemma view_on_input i l : triple (view (of_stream l)) (on_input cfg i l) after_view (view anything).
Proof.
  destruct i as [| |result| | |q|o]; cbn [on_input].
  - apply triple_ret, view_any.
  - apply triple_throw, view_any.
  - apply view_some, view_handleFrame.
  - apply view_some, view_sendHeartbeat.
  - eapply triple_bind; [by apply view_modify|]. intros ?.
    destruct (is_none _); [by apply triple_ret|apply view_some, view_sendHeartbeat].
  - eapply triple_bind; [apply view_gets|]. intros [|]; cbn [negb]; [apply view_some, view_sendLifecycleReport|].
    eapply triple_bind; [by apply view_answer|]. intros ?. by apply triple_ret.
  - eapply triple_bind; [apply view_modify; by destruct o|]. intros ?. by apply triple_ret.
Qed.

Lemma view_loop inputs l : triple (view (of_stream l)) (loop cfg inputs l) after_view (view anything).
Proof.
  revert l. induction inputs as [|i inputs IH]; intros l; [by apply triple_ret|].
  intros s r s' Hs Hrun. cbn [loop] in Hrun. destruct (ready i l s); [|exact (IH l s r s' Hs Hrun)].
  revert Hrun. apply (triple_bind (view (of_stream l)) _ _ after_view); [apply view_on_input| |exact Hs].
  intros [l'|]; [apply IH|by apply triple_ret].
Qed.

(** A new stream forgets the batch in flight and the assignments. *)
Definition idle_lane (tr : list sup_event) (b : bool) (n : Z) : Prop := b = false /\ n = 0.

(** A stream was just opened; the reset is next. *)
Definition opened (s : S) : Prop := exists s0, view anything s0 /\ s = log_event Opened s0.

Lemma view_reset : triple opened (external (fun x => (inr tt, se_ResetDesiredAssignments x))) (fun _ => view idle_lane) (view anything).
Proof.
  intros s r s' (s0 & [w1 Hb1] & ->) Hrun. unfold external in Hrun. injection Hrun as <- <-.
  set (s := log_event Opened s0). change (su_env s) with (su_env s0).
  destruct (je_reset (su_env s0)) as [Ha Hr]. pose proof Hb1 as [_ Br Ba Bw Bk Bp Be _].
  destruct (interfere_env (with_env (se_ResetDesiredAssignments (su_env s0)) s)) as [He1 Ht1]. cbn in He1, Ht1.
  eapply (view_jump _ _ _ _ w1 _ Hb1 (rtc_once _ _ (step_open _ w1))); rewrite ?He1, ?Ht1; cbn [w_lane w_acked w_notes].
  - cbn. by rewrite Br.
  - cbn. by rewrite Ba, Ha.
  - cbn. by rewrite Bw, sent_batches_snoc, app_nil_r.
  - rewrite acked_batches_snoc. set_solver.
  - unfold notes_of. rewrite noting_snoc. cbn. by rewrite Bp.
  - done.
  - done.
Qed.

Lemma view_openSession wait : triple opened (openSession cfg wait) after_view (view anything).
Proof.
  unfold openSession. rewrite Hassign. eapply triple_bind; [apply view_reset|]. intros ?.
  eapply triple_bind; [apply view_Snapshot|]. intros runtime. destruct (validRuntimeState _); [|apply triple_throw, view_any]. cbn [negb].
  eapply triple_bind; [by apply triple_map_err, (view_send idle_lane idle_lane)|]. intros ?.
  apply (triple_bind _ _ _ (fun _ => view idle_lane)).
  { destruct wait as [| |[err|frame]]; [by apply triple_ret|apply triple_throw, view_any|apply triple_throw, view_any|by apply triple_ret]. }
  intros [[frame|]|]; [|apply triple_ret, view_any|apply triple_ret, view_any].
  eapply triple_bind; [apply triple_lift; intros s Hs; destruct (validateWelcome _); [exact (view_any _ _ Hs)|exact Hs]|].
  intros w. cbv beta. destruct (_ || _); [apply triple_throw, view_any|]. destruct (_ <=? _); [apply triple_throw, view_any|].
  eapply triple_bind; [by apply (view_modify_log _ idle_lane)|]. intros ?. eapply triple_bind; [by apply view_modify|]. intros ?.
  apply triple_ret. intros s. by apply view_weaken.
Qed.

Lemma view_runStream script : triple (view anything) (runStream cfg script) after_view (view anything).
Proof.
  unfold runStream. eapply triple_bind; [apply triple_map_err, (triple_any _ _ _ anything), view_external; exact (fun x r x' H => je_open r x x' H)|].
  intros ?. eapply (triple_bind _ _ _ (fun _ => opened)); [intros s r s' Hs [= <- <-]; by exists s|]. intros ?.
  eapply triple_bind; [apply view_openSession|]. intros [l|]; [apply view_loop|by apply triple_ret].
Qed.

Lemma view_run scripts : forall attempt s r s', view anything s -> run cfg attempt scripts s = (r, s') -> view anything s'.
Proof.
  induction scripts as [|script scripts IH]; intros attempt s r s' Hs Hrun; [by injection Hrun as <- <-|].
  cbn [run] in Hrun. destruct (runStream cfg script s) as [r1 s1] eqn:H1.
  assert (Ho : view anything s1).
  { pose proof (view_runStream script s r1 s1 Hs H1) as Ho. destruct r1 as [e|next]; [exact Ho|by eapply view_any]. }
  assert (Hend : forall err, view anything (stream_ended err s1)).
  { intros err. by apply (view_log anything); [| |apply (view_moved _ s1)]. }
  assert (Hback : forall s2 a d, view anything s2 -> view anything (log_event (BackedOff a d) s2)).
  { intros s2 a d H2. by apply (view_log anything). }
  destruct r1 as [err|[l|]].
  2: { by injection Hrun as <- <-. }
  all: destruct (sp_cancelled script); [by injection Hrun as <- <-|];
    destruct (terminal _); [by injection Hrun as <- <-|];
    destruct (sp_cancelled_waiting script); [injection Hrun as <- <-; by apply Hback|];
    refine (IH _ _ _ _ _ Hrun); by apply Hback.
Qed.
End Run.
End Lane.

Arguments je_rows {_ _ _ _ _} _.
Arguments je_adapter {_ _ _ _ _} _.

(** ** Theorems *)

(** The lane's world of a process that starts. *)
Definition lane_of {X} `{SupervisorEnv X} {C : EventCodec} {jcfg} `{!JournaledEnv jcfg X} (x : X) : world :=
  MkWorld (MkLane (Db (je_rows x) []) (je_adapter x) false 0 []) [] [].

(** A run of the supervisor, seen as a world of the lane. *)
Definition shows {X} `{SupervisorEnv X} {C : EventCodec} {jcfg} `{!JournaledEnv jcfg X} (s : supervisor X) (w : world) : Prop :=
  rows (ln_db (w_lane w)) = je_rows (su_env s) /\ ln_adapter (w_lane w) = je_adapter (su_env s) /\
  ln_wire (w_lane w) = sent_batches (su_trace s) /\ w_acked w ⊆ acked_batches (su_trace s) /\
  w_notes w = notes_of (su_trace s).

Lemma fresh_behind {X} `{SupervisorEnv X} {C : EventCodec} {jcfg} `{!JournaledEnv jcfg X} others (x : X) :
  a_assignments (je_adapter x) = None -> view jcfg (lane_of x) anything (fresh_supervisor others x).
Proof. intros Ha. exists (lane_of x). by split. Qed.

(** C12: Refinement of the event lane. Whatever a run of the supervisor over the
    journal does - with every API, every outcome of a send, a statement or a call,
    and with the rest of the process appending events meanwhile - the lane of
    JournalControl does in some run of its own: the same rows, adapter and batches
    written, the same connections begun and snapshots applied, and no batch
    acknowledged that the API did not acknowledge. *)
Theorem supervisor_runs_the_lane {X} `{SupervisorEnv X} {C : EventCodec} {jcfg} `{!JournaledEnv jcfg X}
  cfg attempt scripts others (x : X) r s' :
  sc_EventJournal cfg = true -> sc_AssignmentJournal cfg = true -> a_assignments (je_adapter x) = None ->
  run cfg attempt scripts (fresh_supervisor others x) = (r, s') ->
  exists w, rtc (lane_step jcfg) (lane_of x) w /\ shows s' w.
Proof.
  intros Hj Ha Hx Hrun. destruct (view_run jcfg cfg (lane_of x) Hj Ha _ _ _ _ _ (fresh_behind others x Hx) Hrun) as [w []].
  by exists w.
Qed.

(** The notes of the lane only grow, with its steps and with the trace. *)
Lemma lane_notes_grow {C : EventCodec} jcfg w w' : rtc (lane_step jcfg) w w' -> w_notes w `suffix_of` w_notes w'.
Proof.
  intros Hs. induction Hs as [w|w w1 w2 Hs _ IH]; [done|]. etransitivity; [|exact IH].
  destruct Hs; cbn; try done; by apply suffix_cons_r.
Qed.
Lemma notes_suffix tr : forall l, l `suffix_of` notes_of tr -> exists tr', tr' `prefix_of` tr /\ l = notes_of tr'.
Proof.
  induction tr as [|ev tr IH] using rev_ind; intros l Hl.
  { exists []. split; [done|]. by apply suffix_nil_inv in Hl. }
  assert (Hone : notes_of (tr ++ [ev]) = notes_of tr \/ exists n, notes_of (tr ++ [ev]) = n :: notes_of tr).
  { unfold notes_of. rewrite noting_snoc. destruct (noting tr) as [o ns]. cbn.
    destruct ev as [|[k q [[| | | |]|]] oc|[k q [[]|]]| | |]; cbn; eauto. destruct o; cbn; eauto. }
  assert (Hback : l `suffix_of` notes_of tr -> exists tr', tr' `prefix_of` tr ++ [ev] /\ l = notes_of tr').
  { intros (tr' & Hp & ->)%IH. exists tr'. split; [by apply prefix_app_r|done]. }
  destruct Hone as [Heq|[n Heq]]; rewrite Heq in Hl; [auto|].
  destruct l as [|x l]; [by exists []; split; [apply prefix_nil|]|].
  apply suffix_cons_inv in Hl as [->|Hl]; [|auto]. by exists (tr ++ [ev]).
Qed.

(** What happened to a row by the end of a run from [x]: it is still there, the API
    acknowledged a batch that carried it, or it was retired: at a moment of the
    run, with [tr] the trace so far, it was in the journal while the snapshot that
    [tr] puts in force did not have its assignment. The moment is one of the
    lane's, on its way to what the run shows. *)
Definition retired_by_then {X} `{SupervisorEnv X} {C : EventCodec} {jcfg} `{!JournaledEnv jcfg X} (x : X) (s : supervisor X) (r : JRow) : Prop :=
  exists w w' tr snapshot, rtc (lane_step jcfg) (lane_of x) w /\ rtc (lane_step jcfg) w w' /\ shows s w' /\ r ∈ entries_of w /\
    tr `prefix_of` su_trace s /\ w_notes w = notes_of tr /\ in_force (notes_of tr) snapshot /\ retires snapshot r.
Definition accounted {X} `{SupervisorEnv X} {C : EventCodec} {jcfg} `{!JournaledEnv jcfg X} (x : X) (s : supervisor X) (r : JRow) : Prop :=
  r ∈ journal_entries (je_rows (su_env s)) \/
  (exists b ev, b ∈ acked_batches (su_trace s) /\ ev ∈ b /\ carries ev r) \/
  retired_by_then x s r.

(** C2: Journaled events are not lost. An event found in the journal when the
    supervisor starts, or after any number of its streams, is accounted for
    whenever one looks again: it is in the journal, a batch the API acknowledged
    carried it, or it was retired, by the newest snapshot applied and reported on
    the connection of a moment when it was in the journal. *)
Theorem supervised_events_are_not_lost {X} `{SupervisorEnv X} {C : EventCodec} {jcfg} `{!JournaledEnv jcfg X}
  cfg attempt scripts others (x : X) r s attempt' scripts' r' s' row :
  sc_EventJournal cfg = true -> sc_AssignmentJournal cfg = true -> a_assignments (je_adapter x) = None ->
  cap_ok jcfg -> journal_wf jcfg (je_rows x) ->
  run cfg attempt scripts (fresh_supervisor others x) = (r, s) -> row ∈ journal_entries (je_rows (su_env s)) ->
  run cfg attempt' scripts' s = (r', s') -> accounted x s' row.
Proof.
  intros Hj Ha Hx Hcap Hwf H1 Hrow H2.
  destruct (view_run jcfg cfg (lane_of x) Hj Ha _ _ _ _ _ (fresh_behind others x Hx) H1) as [w1 Hb1].
  assert (Hinv0 : lane_inv jcfg (lane_of x) (lane_of x)) by (apply lane_start_inv; by split).
  destruct (lane_steps_inv _ _ _ _ Hcap Hinv0 (bh_steps _ _ _ _ _ Hb1)) as [Hinv1 _].
  assert (Hv1 : view jcfg w1 anything s) by (exists w1; destruct Hb1; by split).
  destruct (view_run jcfg cfg w1 Hj Ha _ _ _ _ _ Hv1 H2) as [w2 [Bs Br Ba Bw Bk Bp _ _]].
  destruct (lane_steps_inv _ _ _ _ Hcap Hinv1 Bs) as [_ [_ Hacc]]. specialize (Hacc row).
  unfold entries_of in Hacc. rewrite (bh_rows _ _ _ _ _ Hb1), Br in Hacc.
  destruct (Hacc Hrow) as [Hin|[(b & ev & Hb & He)|(w & sn & Hw0 & Hw2 & Hr & Hf & Hret)]]; [by left|right; left|right; right].
  - exists b, ev. split; [by apply Bk|exact He].
  - pose proof (lane_notes_grow _ _ _ Hw2) as Hsuf. rewrite Bp in Hsuf. apply notes_suffix in Hsuf as (tr & Htr & Hn).
    exists w, w2, tr, sn. rewrite <- Hn. split; [done|]. split; [done|]. by repeat split.
Qed.

(** ** The concrete run *)

#[local] Existing Instance demo_codec.
#[local] Existing Instance demo_supervised.
#[local] Instance demo_journaled : JournaledEnv DefaultConfig demo_gateway.
Proof.
  refine {| je_rows x := rows (dg_journal x); je_adapter := dg_adapter |}; cbn.
  - intros epoch x r x' Hrun. destruct (NextEventBatch _ _ _) as [r0 d] eqn:E. injection Hrun as <- <-.
    split; [done|]. by exists (rows (dg_journal x)), [], d.
  - intros n x r x' Hrun. destruct (AckEvents _ _) as [r0 d] eqn:E. injection Hrun as <- <-.
    split; [done|]. by exists (rows (dg_journal x)), [], d.
  - done.
  - done.
  - by intros r x x' [= <- <-].
  - by intros frame o x x' [= <- <-].
  - by intros epoch snapshot r x x' [= <- <-].
  - by intros r x x' [= <- <-].
Defined.

Lemma supervisor_runs_the_lane_witness :
  sent_batches (su_trace demo_supervised_run.2) <> [] /\
  exists w, rtc (lane_step DefaultConfig) (lane_of (su_env demo_begun)) w /\ shows demo_supervised_run.2 w.
Proof.
  split; [vm_compute; discriminate|].
  apply (supervisor_runs_the_lane demo_supervisor_config 0 demo_scripts [] (su_env demo_begun) Running);
    [reflexivity..|vm_compute; reflexivity].
Defined.

Lemma supervised_events_are_not_lost_witness :
  journal_entries (je_rows (su_env demo_begun)) = [demo_row] /\
  journal_entries (je_rows (su_env demo_supervised_run.2)) = [] /\ accounted (su_env demo_begun) demo_supervised_run.2 demo_row.
Proof.
  split; [vm_compute; reflexivity|]. split; [vm_compute; reflexivity|].
  apply (supervised_events_are_not_lost demo_supervisor_config 0 [] [] (su_env demo_begun) Running demo_begun 0 demo_scripts Running);
    [reflexivity..|apply demo_cap|apply demo_stored_wf|reflexivity|vm_compute; left|vm_compute; reflexivity].
Defined.
