(* ===== verification/HistoryInbox.v ===== *)
(** The history inbox of the gateway journal:
    [internal/gateway/journal/history.go]. A history-sync notification of the
    phone is stored here before it is acknowledged; the worker drains the inbox
    and groups its notifications into runs. The two SQLite tables are [hdb]; every
    operation is its statements. *)
From S2P Require Import Prelude Journal.

#[local] Open Scope Z_scope.

Definition HistoryPending : string := "pending".
Definition HistoryDone : string := "done".
Definition HistoryFailed : string := "failed".
Definition HistoryDiscarded : string := "discarded".

Definition HistoryRunRunning : string := "running".
Definition HistoryRunCompleted : string := "completed".
Definition HistoryRunFailed : string := "failed".

(** Seven days, in milliseconds. *)
Definition historyRetention : Z := 7 * 24 * 3600 * 1000.

Definition msTime (ms : Z) : GoTime := if ms =? 0 then zero_time else FromUnixMilli ms.

(** A row of [history_inbox]. *)
Record inbox_row := MkInboxRow {
  in_id : Z;
  in_session : string;
  in_organization : string;
  in_notification_id : string;
  in_account : string;
  in_notification : bytes;
  in_notified_at : Z;
  in_cutoff_at : Z;
  in_import_enabled : bool;
  in_status : string;
  in_attempts : Z;
  in_next_attempt_at : Z;
  in_batches_done : Z;
  in_server_error_sent : bool;
  in_error : string;
  in_created_at : Z;
  in_updated_at : Z;
}.

(** A row of [history_runs]. *)
Record run_row := MkRunRow {
  ru_run_id : string;
  ru_session : string;
  ru_organization : string;
  ru_account : string;
  ru_status : string;
  ru_cutoff_at : Z;
  ru_sync_type : string;
  ru_progress : Z;
  ru_chunks : Z;
  ru_batches : Z;
  ru_conversations : Z;
  ru_messages : Z;
  ru_skipped : Z;
  ru_error : string;
  ru_final_emitted : bool;
  ru_started_at : Z;
  ru_updated_at : Z;
  ru_ended_at : Z;
}.

(** Rows in insertion order, and the AUTOINCREMENT mark. *)
Record hdb := MkHdb {
  h_inbox : list inbox_row;
  h_next : Z;
  h_runs : list run_row;
}.
Definition set_inbox (l : list inbox_row) (s : hdb) : hdb := MkHdb l (h_next s) (h_runs s).
Definition set_runs (l : list run_row) (s : hdb) : hdb := MkHdb (h_inbox s) (h_next s) l.

(** [HistoryInboxRow]: what the code reads and writes of a row. *)
Record HistoryInboxRow := MkHistoryInboxRow {
  hi_ID : Z;
  hi_SessionID : string;
  hi_OrganizationID : string;
  hi_NotificationID : string;
  hi_AccountJID : string;
  hi_Notification : bytes;
  hi_NotifiedAt : GoTime;
  hi_CutoffMs : Z;
  hi_ImportEnabled : bool;
  hi_Status : string;
  hi_Attempts : Z;
  hi_NextAttemptAt : GoTime;
  hi_BatchesDone : Z;
  hi_ServerErrorSent : bool;
  hi_Error : string;
  hi_CreatedAt : GoTime;
}.

Record HistoryRun := MkHistoryRun {
  hr_RunID : string;
  hr_SessionID : string;
  hr_OrganizationID : string;
  hr_AccountJID : string;
  hr_Status : string;
  hr_CutoffMs : Z;
  hr_SyncType : string;
  hr_Progress : Z;
  hr_Chunks : Z;
  hr_Batches : Z;
  hr_Conversations : Z;
  hr_Messages : Z;
  hr_Skipped : Z;
  hr_Error : string;
  hr_FinalEmitted : bool;
  hr_StartedAt : GoTime;
  hr_UpdatedAt : GoTime;
  hr_EndedAt : GoTime;
}.

(** What one finished notification adds to its run. *)
Record HistoryRunDelta := MkHistoryRunDelta {
  hd_RunID : string;
  hd_SyncType : string;
  hd_Progress : option Z;
  hd_Batches : Z;
  hd_Conversations : Z;
  hd_Messages : Z;
  hd_Skipped : Z;
}.

(** The [Scan]s. *)
Definition scan_inbox (r : inbox_row) : HistoryInboxRow :=
  MkHistoryInboxRow (in_id r) (in_session r) (in_organization r) (in_notification_id r) (in_account r)
    (in_notification r) (msTime (in_notified_at r)) (in_cutoff_at r) (in_import_enabled r) (in_status r) (in_attempts r)
    (msTime (in_next_attempt_at r)) (in_batches_done r) (in_server_error_sent r) (in_error r) (msTime (in_created_at r)).
Definition scan_run (r : run_row) : HistoryRun :=
  MkHistoryRun (ru_run_id r) (ru_session r) (ru_organization r) (ru_account r) (ru_status r) (ru_cutoff_at r)
    (ru_sync_type r) (ru_progress r) (ru_chunks r) (ru_batches r) (ru_conversations r) (ru_messages r) (ru_skipped r)
    (ru_error r) (ru_final_emitted r) (msTime (ru_started_at r)) (msTime (ru_updated_at r)) (msTime (ru_ended_at r)).

(** Columns an UPDATE sets. *)
Definition set_status (status error : string) (now : Z) (r : inbox_row) : inbox_row :=
  MkInboxRow (in_id r) (in_session r) (in_organization r) (in_notification_id r) (in_account r) (in_notification r)
    (in_notified_at r) (in_cutoff_at r) (in_import_enabled r) status (in_attempts r) (in_next_attempt_at r)
    (in_batches_done r) (in_server_error_sent r) error (in_created_at r) now.
Definition set_attempt (attempts next : Z) (error : string) (now : Z) (r : inbox_row) : inbox_row :=
  MkInboxRow (in_id r) (in_session r) (in_organization r) (in_notification_id r) (in_account r) (in_notification r)
    (in_notified_at r) (in_cutoff_at r) (in_import_enabled r) (in_status r) attempts next
    (in_batches_done r) (in_server_error_sent r) error (in_created_at r) now.
Definition set_cursor (batches now : Z) (r : inbox_row) : inbox_row :=
  MkInboxRow (in_id r) (in_session r) (in_organization r) (in_notification_id r) (in_account r) (in_notification r)
    (in_notified_at r) (in_cutoff_at r) (in_import_enabled r) (in_status r) (in_attempts r) (in_next_attempt_at r)
    batches (in_server_error_sent r) (in_error r) (in_created_at r) now.
Definition set_error_sent (now : Z) (r : inbox_row) : inbox_row :=
  MkInboxRow (in_id r) (in_session r) (in_organization r) (in_notification_id r) (in_account r) (in_notification r)
    (in_notified_at r) (in_cutoff_at r) (in_import_enabled r) (in_status r) (in_attempts r) (in_next_attempt_at r)
    (in_batches_done r) true (in_error r) (in_created_at r) now.

Definition end_run (status error : string) (now : Z) (r : run_row) : run_row :=
  MkRunRow (ru_run_id r) (ru_session r) (ru_organization r) (ru_account r) status (ru_cutoff_at r) (ru_sync_type r)
    (ru_progress r) (ru_chunks r) (ru_batches r) (ru_conversations r) (ru_messages r) (ru_skipped r) error
    (ru_final_emitted r) (ru_started_at r) now now.
Definition mark_emitted (r : run_row) : run_row :=
  MkRunRow (ru_run_id r) (ru_session r) (ru_organization r) (ru_account r) (ru_status r) (ru_cutoff_at r) (ru_sync_type r)
    (ru_progress r) (ru_chunks r) (ru_batches r) (ru_conversations r) (ru_messages r) (ru_skipped r) (ru_error r)
    true (ru_started_at r) (ru_updated_at r) (ru_ended_at r).
Definition add_delta (d : HistoryRunDelta) (now : Z) (r : run_row) : run_row :=
  let progress := default (-1) (hd_Progress d) in
  MkRunRow (ru_run_id r) (ru_session r) (ru_organization r) (ru_account r) (ru_status r) (ru_cutoff_at r) (hd_SyncType d)
    (if 0 <=? progress then progress else ru_progress r) (ru_chunks r + 1) (ru_batches r + hd_Batches d)
    (ru_conversations r + hd_Conversations d) (ru_messages r + hd_Messages d) (ru_skipped r + hd_Skipped d) (ru_error r)
    (ru_final_emitted r) (ru_started_at r) now (ru_ended_at r).

(** [UPDATE table SET f WHERE p]. *)
Definition update_where {A} (p : A -> bool) (f : A -> A) (l : list A) : list A := (fun a => if p a then f a else a) <$> l.

Definition is_pending (r : inbox_row) : bool := bool_decide (in_status r = HistoryPending).
Definition is_running (r : run_row) : bool := bool_decide (ru_status r = HistoryRunRunning).

(** [historyExec]. *)
Definition historyExec (f : hdb -> hdb) : M (db hdb) unit := map_err classifySQLiteError (exec (fun s => (tt, f s))).

Definition on_inbox (p : inbox_row -> bool) (f : inbox_row -> inbox_row) (s : hdb) : hdb :=
  set_inbox (update_where p f (h_inbox s)) s.
Definition on_runs (p : run_row -> bool) (f : run_row -> run_row) (s : hdb) : hdb := set_runs (update_where p f (h_runs s)) s.

(** *** The inbox. [now] is [time.Now().UnixMilli()]. *)

Definition same_notification (session notification : string) (r : inbox_row) : bool :=
  bool_decide (in_session r = session) && bool_decide (in_notification_id r = notification).

(** [INSERT OR IGNORE] under the UNIQUE key. *)
Definition insert_inbox (row : HistoryInboxRow) (now : Z) (s : hdb) : bool * hdb :=
  if existsb (same_notification (hi_SessionID row) (hi_NotificationID row)) (h_inbox s) then (false, s)
  else (true, MkHdb (h_inbox s ++ [MkInboxRow (h_next s) (hi_SessionID row) (hi_OrganizationID row) (hi_NotificationID row)
                      (hi_AccountJID row) (hi_Notification row) (UnixMilli (hi_NotifiedAt row)) (hi_CutoffMs row)
                      (hi_ImportEnabled row) HistoryPending 0 0 0 false "" now now]) (h_next s + 1) (h_runs s)).

Definition EnqueueHistory (row : HistoryInboxRow) (now : Z) : M (db hdb) bool :=
  if bool_decide (hi_SessionID row = "") || bool_decide (hi_NotificationID row = "") || is_nil (hi_Notification row) then
    throw (ErrMsg "history notification session, id and payload are required")
  else map_err (fun e => classifySQLiteError (ErrWrap "enqueue history notification" e)) (exec (insert_inbox row now)).

Definition PendingHistory : M (db hdb) (list HistoryInboxRow) :=
  map_err classifySQLiteError (query (fun s => scan_inbox <$> List.filter is_pending (h_inbox s))).

Definition pending_of (session : string) (r : inbox_row) : bool := bool_decide (in_session r = session) && is_pending r.

Definition HasPendingHistory (session : string) : M (db hdb) bool :=
  map_err classifySQLiteError (query (fun s => existsb (pending_of session) (h_inbox s))).

Definition PostponeHistory (id attempts : Z) (next : GoTime) (errText : string) (now : Z) : M (db hdb) unit :=
  historyExec (on_inbox (fun r => (in_id r =? id) && is_pending r) (set_attempt attempts (UnixMilli next) errText now)).

Definition SetHistoryCursor (id batchesDone now : Z) : M (db hdb) unit :=
  historyExec (on_inbox (fun r => in_id r =? id) (set_cursor batchesDone now)).

Definition MarkHistoryServerErrorSent (id now : Z) : M (db hdb) unit :=
  historyExec (on_inbox (fun r => in_id r =? id) (set_error_sent now)).

Definition FinishHistory (id : Z) (status errText : string) (delta : option HistoryRunDelta) (now : Z) : M (db hdb) unit :=
  map_err classifySQLiteError begin_tx;;
  with_rollback (
    map_err classifySQLiteError
      (exec (fun s => (tt, on_inbox (fun r => (in_id r =? id) && is_pending r) (set_status status errText now) s)));;
    match delta with
    | Some d => map_err classifySQLiteError
        (exec (fun s => (tt, on_runs (fun r => bool_decide (ru_run_id r = hd_RunID d)) (add_delta d now) s)))
    | None => mret tt
    end;;
    map_err classifySQLiteError commit_tx).

(** [(?='' OR account_jid<>?)]. *)
Definition not_kept (keepAccount account : string) : bool :=
  bool_decide (keepAccount = "") || negb (bool_decide (account = keepAccount)).

Definition to_discard (session keepAccount : string) (r : inbox_row) : bool :=
  pending_of session r && not_kept keepAccount (in_account r).

Definition DiscardHistory (session keepAccount reason : string) (now : Z) : M (db hdb) Z :=
  map_err classifySQLiteError (exec (fun s =>
    (len (List.filter (to_discard session keepAccount) (h_inbox s)),
     on_inbox (to_discard session keepAccount) (set_status HistoryDiscarded reason now) s))).

(** *** Runs *)

(** [queryRuns]: the WHERE clause and the ORDER BY are functions of the tables. *)
Definition queryRuns (clause : hdb -> list run_row) : M (db hdb) (list HistoryRun) :=
  map_err classifySQLiteError (query (fun s => scan_run <$> clause s)).

Definition newer (a b : run_row) : Prop := ru_started_at b <= ru_started_at a.
Definition ended_before (a b : run_row) : Prop := ru_ended_at a <= ru_ended_at b.
#[export] Instance newer_dec : RelDecision newer.
Proof. intros a b. unfold newer. apply _. Defined.
#[export] Instance ended_before_dec : RelDecision ended_before.
Proof. intros a b. unfold ended_before. apply _. Defined.

Definition active_of (session account : string) (r : run_row) : bool :=
  bool_decide (ru_session r = session) && bool_decide (ru_account r = account) && is_running r.

Definition ActiveHistoryRun (session account : string) : M (db hdb) (option HistoryRun) :=
  runs ← queryRuns (fun s => take 1 (merge_sort newer (List.filter (active_of session account) (h_runs s))));
  mret (head runs).

Definition HistoryRunByID (runID : string) : M (db hdb) (option HistoryRun) :=
  runs ← queryRuns (fun s => List.filter (fun r => bool_decide (ru_run_id r = runID)) (h_runs s));
  mret (head runs).

(** [INSERT OR IGNORE] under the primary key. *)
Definition insert_run (run : HistoryRun) (s : hdb) : hdb :=
  if existsb (fun r => bool_decide (ru_run_id r = hr_RunID run)) (h_runs s) then s
  else set_runs (h_runs s ++ [MkRunRow (hr_RunID run) (hr_SessionID run) (hr_OrganizationID run) (hr_AccountJID run)
                   HistoryRunRunning (hr_CutoffMs run) "" (-1) 0 0 0 0 0 "" false (UnixMilli (hr_StartedAt run))
                   (UnixMilli (hr_StartedAt run)) 0]) s.
Definition CreateHistoryRun (run : HistoryRun) : M (db hdb) unit := historyExec (insert_run run).

Definition EndHistoryRun (runID status errText : string) (now : Z) : M (db hdb) unit :=
  historyExec (on_runs (fun r => bool_decide (ru_run_id r = runID) && is_running r) (end_run status errText now)).

Definition EndHistoryRuns (session keepAccount status errText : string) (now : Z) : M (db hdb) unit :=
  historyExec (on_runs (fun r => bool_decide (ru_session r = session) && is_running r && not_kept keepAccount (ru_account r))
                 (end_run status errText now)).

Definition UnemittedHistoryRuns : M (db hdb) (list HistoryRun) :=
  queryRuns (fun s => merge_sort ended_before (List.filter (fun r => negb (is_running r) && negb (ru_final_emitted r)) (h_runs s))).

Definition MarkHistoryRunEmitted (runID : string) : M (db hdb) unit :=
  historyExec (on_runs (fun r => bool_decide (ru_run_id r = runID)) mark_emitted).

Definition idle_run (before : Z) (s : hdb) (r : run_row) : bool :=
  is_running r && (ru_updated_at r <? before) && negb (existsb (pending_of (ru_session r)) (h_inbox s)).
Definition IdleHistoryRuns (before : GoTime) : M (db hdb) (list HistoryRun) :=
  queryRuns (fun s => List.filter (idle_run (UnixMilli before) s) (h_runs s)).

Definition prunable_row (cutoff : Z) (r : inbox_row) : bool := negb (is_pending r) && (in_updated_at r <? cutoff).
Definition prunable_run (cutoff : Z) (r : run_row) : bool := negb (is_running r) && ru_final_emitted r && (ru_updated_at r <? cutoff).
Definition PruneHistory (now : GoTime) : M (db hdb) unit :=
  let cutoff := UnixMilli (now - historyRetention * 1000000) in
  historyExec (fun s => set_inbox (List.filter (fun r => negb (prunable_row cutoff r)) (h_inbox s)) s);;
  historyExec (fun s => set_runs (List.filter (fun r => negb (prunable_run cutoff r)) (h_runs s)) s).
