(* ===== verification/HistoryConvert.v ===== *)
(** The conversion of a downloaded history blob into batches:
    [internal/gateway/historysync/convert.go]. What the blob's protobuf and the
    message normalizer give for each conversation is the class [BlobLib]; sorting,
    truncation, packing, numbering and the event ids are modelled, and packing is
    shown to lose nothing and to keep every batch within its limits. *)
From S2P Require Import Prelude Journal Domain.
From Stdlib Require Import Ascii.
From stdpp Require Import pretty.

#[local] Open Scope Z_scope.

Definition MaxBatchMessages : Z := 200.
Definition MaxBatchBytes : Z := 96 * 1024 - 2 * 1024.
Definition MaxMessageBytes : Z := 768 * 1024.

(** ** Payloads ([internal/apitypes/history.go]) *)

Record HistoryContact := MkHistoryContact {
  ct_LID : string;
  ct_PhoneJID : string;
  ct_PushName : string;
}.

Record HistoryParticipant := MkHistoryParticipant {
  pt_LID : string;
  pt_PhoneJID : string;
  pt_Role : string;
}.

(** The fields of the message payload that the conversion reads or writes; the
    rest of it is [ms_Fields], and [ms_VCard] the contact's, when there is one. *)
Record HistoryMessage := MkHistoryMessage {
  ms_Kind : string;
  ms_Status : string;
  ms_WAMessageID : string;
  ms_TargetID : string;
  ms_ChatJID : string;
  ms_SenderJID : string;
  ms_SenderLID : string;
  ms_FromMe : bool;
  ms_Type : string;
  ms_Timestamp : Z;
  ms_Reaction : string;
  ms_SelectedOptions : list string;
  ms_Body : string;
  ms_QuotedBody : string;
  ms_VCard : option string;
  ms_Truncated : bool;
  ms_Fields : list (string * json);
}.
(** A message whose free texts are replaced. *)
Definition with_texts (body quoted : string) (vcard : option string) (truncated : bool) (m : HistoryMessage) : HistoryMessage :=
  MkHistoryMessage (ms_Kind m) (ms_Status m) (ms_WAMessageID m) (ms_TargetID m) (ms_ChatJID m) (ms_SenderJID m) (ms_SenderLID m)
    (ms_FromMe m) (ms_Type m) (ms_Timestamp m) (ms_Reaction m) (ms_SelectedOptions m) body quoted vcard truncated (ms_Fields m).

Record HistoryConversation := MkHistoryConversation {
  cv_ChatJID : string;
  cv_Type : string;
  cv_Name : string;
  cv_Description : string;
  cv_LID : string;
  cv_PhoneJID : string;
  cv_UnreadCount : option Z;
  cv_Archived : bool;
  cv_Pinned : bool;
  cv_MutedUntil : Z;
  cv_LastMessageAt : Z;
  cv_Participants : list HistoryParticipant;
  cv_Messages : list HistoryMessage;
}.
Definition with_messages (l : list HistoryMessage) (c : HistoryConversation) : HistoryConversation :=
  MkHistoryConversation (cv_ChatJID c) (cv_Type c) (cv_Name c) (cv_Description c) (cv_LID c) (cv_PhoneJID c)
    (cv_UnreadCount c) (cv_Archived c) (cv_Pinned c) (cv_MutedUntil c) (cv_LastMessageAt c) (cv_Participants c) l.

Record HistoryBatchPayload := MkHistoryBatchPayload {
  bp_RunID : string;
  bp_AccountJID : string;
  bp_SyncType : string;
  bp_ChunkOrder : Z;
  bp_Part : Z;
  bp_Parts : Z;
  bp_SnapshotAt : Z;
  bp_Conversations : list HistoryConversation;
  bp_Contacts : list HistoryContact;
}.
Definition empty_payload : HistoryBatchPayload := MkHistoryBatchPayload "" "" "" 0 0 0 0 [] [].

(** [jsonLen] of each of the values it is taken of, and [batchOverhead]. *)
Class JSONLen := {
  jl_Contact : HistoryContact -> Z;
  jl_Conversation : HistoryConversation -> Z;
  jl_Message : HistoryMessage -> Z;
  batchOverhead : Z;
}.

(** ** Small functions *)

Definition mutedForever : Z := 253402300799000.

Definition epochMs (v : Z) : Z :=
  if mutedForever <=? v then mutedForever
  else if v <? 10 ^ 12 then i64 (i64 v * 1000)
  else i64 v.

(** [utf8.RuneStart]: not a continuation byte. *)
Definition RuneStart (c : ascii) : bool :=
  let b := Z.of_nat (nat_of_ascii c) in negb (Z.land b 192 =? 128).

Fixpoint rune_cut (s : list ascii) (n : nat) : nat :=
  match n with
  | O => O
  | S m => match s !! n with Some c => if RuneStart c then n else rune_cut s m | None => n end
  end.
Definition truncateUTF8 (s : string) (n : Z) : string :=
  let l := String.list_ascii_of_string s in
  if len l <=? n then s else String.string_of_list_ascii (take (rune_cut l (Z.to_nat n)) l).

Section Convert.
Context `{J : JSONLen}.

(** ** [fitMessage] *)

(** The three free-text fields, by number. *)
Definition field (i : nat) (m : HistoryMessage) : string :=
  match i with O => ms_Body m | 1%nat => ms_QuotedBody m | _ => default "" (ms_VCard m) end.
Definition set_field (i : nat) (v : string) (m : HistoryMessage) : HistoryMessage :=
  match i with
  | O => with_texts v (ms_QuotedBody m) (ms_VCard m) true m
  | 1%nat => with_texts (ms_Body m) v (ms_VCard m) true m
  | _ => with_texts (ms_Body m) (ms_QuotedBody m) (Some v) true m
  end.

Definition field_len (i : nat) (m : HistoryMessage) : Z := Z.of_nat (String.length (field i m)).

(** The inner loop; each round shortens the field, so its length is fuel enough. *)
Fixpoint shorten (fuel : nat) (i : nat) (limit : Z) (m : HistoryMessage) : HistoryMessage :=
  match fuel with
  | O => m
  | S fuel =>
      let size := jl_Message m in
      if (limit <? size) && (0 <? field_len i m) then
        shorten fuel i limit (set_field i (truncateUTF8 (field i m) (Z.max (field_len i m - (size - limit) - 16) 0)) m)
      else m
  end.
Definition shorten_field (limit : Z) (m : HistoryMessage) (i : nat) : HistoryMessage :=
  shorten (String.length (field i m)) i limit m.

Definition fitMessage (limit : Z) (m : HistoryMessage) : option HistoryMessage :=
  if jl_Message m <=? limit then Some m
  else
    let m := foldl (shorten_field limit) m (if is_none (ms_VCard m) then [0; 1]%nat else [0; 1; 2]%nat) in
    if jl_Message m <=? limit then Some m else None.

(** ** Packing *)

Record convItem := MkConvItem { ci_meta : HistoryConversation; ci_messages : list HistoryMessage }.

Record packer := MkPacker {
  pk_out : list HistoryBatchPayload;
  pk_cur : HistoryBatchPayload;
  pk_size : Z;
  pk_messages : Z;
  pk_convAt : gmap string nat;
}.
Definition new_packer : packer := MkPacker [] empty_payload batchOverhead 0 ∅.

Definition set_contents (convs : list HistoryConversation) (contacts : list HistoryContact) (b : HistoryBatchPayload)
  : HistoryBatchPayload :=
  MkHistoryBatchPayload (bp_RunID b) (bp_AccountJID b) (bp_SyncType b) (bp_ChunkOrder b) (bp_Part b) (bp_Parts b)
    (bp_SnapshotAt b) convs contacts.

Definition pk_empty (p : packer) : bool := is_nil (bp_Contacts (pk_cur p)) && is_nil (bp_Conversations (pk_cur p)).

Definition flush (p : packer) : packer :=
  if pk_empty p then p else MkPacker (pk_out p ++ [pk_cur p]) empty_payload batchOverhead 0 ∅.

Definition room (cost messages : Z) (p : packer) : packer :=
  if negb (pk_empty p) && ((MaxBatchBytes <? pk_size p + cost) || (MaxBatchMessages <? pk_messages p + messages)) then flush p
  else p.

Definition add_contact (p : packer) (c : HistoryContact) : packer :=
  let cost := jl_Contact c + 1 in
  let p := room cost 0 p in
  MkPacker (pk_out p) (set_contents (bp_Conversations (pk_cur p)) (bp_Contacts (pk_cur p) ++ [c]) (pk_cur p))
    (pk_size p + cost) (pk_messages p) (pk_convAt p).

Definition meta_cost (conv : convItem) : Z := jl_Conversation (ci_meta conv) + 1.

(** The index of the conversation in the current batch, added if it is not there. *)
Definition ensureMeta (conv : convItem) (p : packer) : nat * packer :=
  match pk_convAt p !! cv_ChatJID (ci_meta conv) with
  | Some i => (i, p)
  | None =>
      let i := length (bp_Conversations (pk_cur p)) in
      (i, MkPacker (pk_out p)
            (set_contents (bp_Conversations (pk_cur p) ++ [with_messages [] (ci_meta conv)]) (bp_Contacts (pk_cur p)) (pk_cur p))
            (pk_size p + meta_cost conv) (pk_messages p) (<[cv_ChatJID (ci_meta conv) := i]> (pk_convAt p)))
  end.

Definition append_message (m : HistoryMessage) (c : HistoryConversation) : HistoryConversation :=
  with_messages (cv_Messages c ++ [m]) c.

Definition add_message (conv : convItem) (p : packer) (m : HistoryMessage) : packer :=
  let cost := jl_Message m + 1 in
  let need := if is_none (pk_convAt p !! cv_ChatJID (ci_meta conv)) then cost + meta_cost conv else cost in
  let '(i, p) := ensureMeta conv (room need 1 p) in
  MkPacker (pk_out p)
    (set_contents (alter (append_message m) i (bp_Conversations (pk_cur p))) (bp_Contacts (pk_cur p)) (pk_cur p))
    (pk_size p + cost) (pk_messages p + 1) (pk_convAt p).

Definition add_conv (p : packer) (conv : convItem) : packer :=
  match ci_messages conv with
  | [] => (ensureMeta conv (room (meta_cost conv) 0 p)).2
  | messages => foldl (add_message conv) p messages
  end.

Definition pack (contacts : list HistoryContact) (convs : list convItem) : list HistoryBatchPayload :=
  pk_out (flush (foldl add_conv (foldl add_contact new_packer contacts) convs)).
End Convert.

(** ** [Convert] *)

(** A message with what its place in the conversation depends on. *)
Record orderedMessage := MkOrdered { om_ts : Z; om_order : Z; om_index : Z; om_msg : HistoryMessage }.

(** One conversation of the blob: its chat, unless its JID does not parse or is the
    status broadcast; its metadata; and for each message its order id and what the
    normalizer makes of it. *)
Record blob_conv := MkBlobConv {
  bc_chat : bool;
  bc_meta : HistoryConversation;
  bc_msgs : list (Z * option (list HistoryMessage));
}.

(** [Input], the blob aside. *)
Record Input := MkInput {
  inp_SessionID : string;
  inp_NotificationID : string;
  inp_NotifiedAt : GoTime;
  inp_RunID : string;
  inp_AccountJID : string;
  inp_CutoffMs : Z;
}.

Class BlobLib (B : Type) := {
  bl_SyncType : B -> string;
  bl_ChunkOrder : B -> Z;
  bl_Progress : B -> option Z;
  bl_StatusMessages : B -> Z;
  bl_Contacts : B -> list HistoryContact;
  bl_Conversations : string -> string -> Z -> B -> list blob_conv;
  bl_bare session account cutoff b : Forall (fun c => cv_Messages (bc_meta c) = []) (bl_Conversations session account cutoff b);
}.

(** [ulid.MustNew] of a time in milliseconds and entropy, and [sha256.Sum256]. *)
Class EventIDLib := { ulid_MustNew : Z -> string -> string; sha256_Sum256 : string -> string }.

Definition deterministicULID `{EventIDLib} (t : GoTime) (parts : list string) : string :=
  let t := if IsZero t || Before t 0 then 0 else t in
  ulid_MustNew (UnixMilli t) (sha256_Sum256 (String.concat "|" parts)).

Definition EventID `{EventIDLib} (t : GoTime) (parts : list string) : string := "evt_" +:+ deterministicULID t parts.
Definition RunID `{EventIDLib} (t : GoTime) (sessionID notificationID : string) : string :=
  "hsr_" +:+ deterministicULID t [sessionID; notificationID; "run"].

Record Batch := MkBatch { ba_EventID : string; ba_Payload : HistoryBatchPayload }.
Record Result := MkResult {
  re_SyncType : string;
  re_ChunkOrder : Z;
  re_Progress : option Z;
  re_Batches : list Batch;
  re_Conversations : Z;
  re_Messages : Z;
  re_Skipped : Z;
}.

(** The comparison of [sort.SliceStable]. *)
Definition message_le (a b : orderedMessage) : bool :=
  if negb (om_ts a =? om_ts b) then om_ts a <? om_ts b
  else if negb (om_order a =? om_order b) then om_order a <? om_order b
  else om_index a <=? om_index b.

Fixpoint insert_stable (m : orderedMessage) (l : list orderedMessage) : list orderedMessage :=
  match l with
  | [] => [m]
  | x :: rest => if message_le x m then x :: insert_stable m rest else m :: l
  end.
Definition sort_stable (l : list orderedMessage) : list orderedMessage := foldl (fun acc m => insert_stable m acc) [] l.

Section ConvertBlob.
Context `{J : JSONLen} {B : Type} `{L : BlobLib B} `{I : EventIDLib}.

(** The messages of [convertMessages], sorted, and the number skipped. *)
Definition ordered_messages (msgs : list (Z * option (list HistoryMessage))) : list orderedMessage :=
  concat (imap (fun i '(order, converted) =>
    imap (fun j m => MkOrdered (ms_Timestamp m) order (Z.lor (Z.shiftl (Z.of_nat i) 8) (Z.min (Z.of_nat j) 255)) m)
      (default [] converted)) msgs).
Definition convertMessages (limit : Z) (msgs : list (Z * option (list HistoryMessage))) : list HistoryMessage * Z :=
  let out := om_msg <$> sort_stable (ordered_messages msgs) in
  let result := omap (fitMessage limit) out in
  (result, len (List.filter (fun '(_, c) => is_none c) msgs) + (len out - len result)).

Definition conv_limit (meta : HistoryConversation) : Z := Z.max (MaxMessageBytes - jl_Conversation meta) (64 * 1024).

(** The conversations with a chat, and the messages skipped. *)
Definition convert_conv (c : blob_conv) : option convItem * Z :=
  if bc_chat c then
    let '(messages, skipped) := convertMessages (conv_limit (bc_meta c)) (bc_msgs c) in
    (Some (MkConvItem (bc_meta c) messages), skipped)
  else (None, len (bc_msgs c)).

(** Run, part and snapshot of the [i]th of [n] payloads. *)
Definition stamp_part (inp : Input) (blob : B) (n : nat) (i : nat) (p : HistoryBatchPayload) : Batch :=
  MkBatch (EventID (inp_NotifiedAt inp) [inp_SessionID inp; inp_NotificationID inp; pretty (N.of_nat i)])
    (MkHistoryBatchPayload (inp_RunID inp) (inp_AccountJID inp) (bl_SyncType blob) (bl_ChunkOrder blob) (Z.of_nat i + 1)
       (Z.of_nat n) (UnixMilli (inp_NotifiedAt inp)) (bp_Conversations p) (bp_Contacts p)).

Definition Convert (inp : Input) (blob : B) : Result :=
  let converted := convert_conv <$> bl_Conversations (inp_SessionID inp) (inp_AccountJID inp) (inp_CutoffMs inp) blob in
  let convs := omap fst converted in
  let payloads := pack (bl_Contacts blob) convs in
  MkResult (bl_SyncType blob) (bl_ChunkOrder blob) ((fun p => Z.min p 100) <$> bl_Progress blob)
    (imap (stamp_part inp blob (length payloads)) payloads)
    (len convs) (foldr Z.add 0 ((fun c => len (ci_messages c)) <$> convs))
    (bl_StatusMessages blob + foldr Z.add 0 (snd <$> converted)).
End ConvertBlob.

(** ** Packing is exact *)

Section Packing.
Context `{J : JSONLen}.

(** What a batch weighs, counted the way the packer counts. *)
Definition sum_of {A} (f : A -> Z) (l : list A) : Z := foldr Z.add 0 (f <$> l).
Definition conv_weight (c : HistoryConversation) : Z :=
  jl_Conversation (with_messages [] c) + 1 + sum_of (fun m => jl_Message m + 1) (cv_Messages c).
Definition weight (b : HistoryBatchPayload) : Z :=
  batchOverhead + sum_of (fun c => jl_Contact c + 1) (bp_Contacts b) + sum_of conv_weight (bp_Conversations b).
Definition message_count (b : HistoryBatchPayload) : Z := sum_of (fun c => len (cv_Messages c)) (bp_Conversations b).

(** One contact, or one conversation with at most one message. *)
Definition single (b : HistoryBatchPayload) : Prop :=
  (length (bp_Contacts b) = 1%nat /\ bp_Conversations b = []) \/
  (bp_Contacts b = [] /\ exists c, bp_Conversations b = [c] /\ (length (cv_Messages c) <= 1)%nat).
Definition within_limits (b : HistoryBatchPayload) : Prop :=
  message_count b <= MaxBatchMessages /\ (weight b <= MaxBatchBytes \/ single b).

(** The messages of a chat in the order the batches carry them. *)
Definition has_chat (chat : string) (c : HistoryConversation) : bool := bool_decide (cv_ChatJID c = chat).
Definition batch_messages (chat : string) (b : HistoryBatchPayload) : list HistoryMessage :=
  concat (cv_Messages <$> List.filter (has_chat chat) (bp_Conversations b)).
Definition packed_messages (chat : string) (l : list HistoryBatchPayload) : list HistoryMessage :=
  concat (batch_messages chat <$> l).
Definition packed_contacts (l : list HistoryBatchPayload) : list HistoryContact := concat (bp_Contacts <$> l).
Definition conv_messages (chat : string) (convs : list convItem) : list HistoryMessage :=
  concat (ci_messages <$> List.filter (fun c => has_chat chat (ci_meta c)) convs).
(** A batch has an entry for the chat. *)
Definition carries_chat (chat : string) (l : list HistoryBatchPayload) : Prop :=
  exists b c, b ∈ l /\ c ∈ bp_Conversations b /\ cv_ChatJID c = chat.

Lemma sum_of_app {A} (f : A -> Z) l1 l2 : sum_of f (l1 ++ l2) = sum_of f l1 + sum_of f l2.
Proof. unfold sum_of. rewrite fmap_app. induction (f <$> l1) as [|x l IH]; cbn; lia. Qed.
Lemma sum_of_one {A} (f : A -> Z) x : sum_of f [x] = f x.
Proof. unfold sum_of. cbn. lia. Qed.
Lemma sum_of_alter {A} (f : A -> Z) (g : A -> A) d i l :
  (forall x, f (g x) = f x + d) -> (i < length l)%nat -> sum_of f (alter g i l) = sum_of f l + d.
Proof.
  intros Hg. revert i. induction l as [|x l IH]; intros [|i] Hi; cbn in *; try lia; unfold sum_of in *; cbn.
  - rewrite Hg. lia.
  - rewrite IH by lia. lia.
Qed.

#[local] Arguments sum_of : simpl never.

Lemma conv_weight_append m c : conv_weight (append_message m c) = conv_weight c + (jl_Message m + 1).
Proof. unfold conv_weight. cbn [append_message with_messages cv_Messages]. rewrite sum_of_app, sum_of_one. change (with_messages [] (append_message m c)) with (with_messages [] c). lia. Qed.

Definition contents (p : packer) : list HistoryBatchPayload := pk_out p ++ [pk_cur p].

(** The metadata that entries may carry. *)
Variable known : HistoryConversation -> Prop.

(** The packer's own counters, and its index of the current batch. *)
Record packer_ok (p : packer) : Prop := {
  po_size : pk_size p = weight (pk_cur p);
  po_messages : pk_messages p = message_count (pk_cur p);
  po_index : forall chat i, pk_convAt p !! chat = Some i <-> exists c, bp_Conversations (pk_cur p) !! i = Some c /\ cv_ChatJID c = chat;
  po_out : Forall within_limits (pk_out p);
  po_cur : pk_empty p = false -> within_limits (pk_cur p);
  po_known : forall b c, b ∈ contents p -> c ∈ bp_Conversations b -> known (with_messages [] c);
}.

Lemma pk_empty_spec p : pk_empty p = true <-> bp_Contacts (pk_cur p) = [] /\ bp_Conversations (pk_cur p) = [].
Proof. unfold pk_empty. rewrite andb_true_iff. destruct (bp_Contacts _), (bp_Conversations _); cbn; split; by intros [? ?]. Qed.

Lemma empty_messages p : pk_empty p = true -> message_count (pk_cur p) = 0.
Proof. intros [_ H]%pk_empty_spec. unfold message_count. by rewrite H. Qed.

Lemma flush_ok p : packer_ok p -> packer_ok (flush p) /\ pk_empty (flush p) = true.
Proof.
  intros Hp. unfold flush. destruct (pk_empty p) eqn:He; [done|]. destruct Hp as [Hs Hm Hi Ho Hc Hk]. split; [|done].
  split; cbn; try done.
  - unfold weight, sum_of. cbn. lia.
  - intros chat i. rewrite lookup_empty. split; [done|]. intros (c & Hl & _). by rewrite lookup_nil in Hl.
  - apply Forall_app. split; [done|]. by apply Forall_singleton, Hc.
  - intros b c [Hb| ->%list_elem_of_singleton]%elem_of_app Hin; [by apply (Hk b)|]. by apply not_elem_of_nil in Hin.
Qed.

Lemma concat_snoc_nil {A} (l : list (list A)) : concat (l ++ [[]]) = concat l.
Proof. rewrite concat_app. cbn. by rewrite !app_nil_r. Qed.

Lemma flush_contents p : (forall chat, packed_messages chat (contents (flush p)) = packed_messages chat (contents p)) /\
  packed_contacts (contents (flush p)) = packed_contacts (contents p) /\ pk_out p ⊆ pk_out (flush p) /\
  (forall chat, carries_chat chat (contents p) -> carries_chat chat (contents (flush p))).
Proof.
  unfold flush. destruct (pk_empty p) eqn:He; [done|]. unfold contents, packed_messages, packed_contacts. cbn.
  split; [|split; [|split; [set_solver|]]].
  - intros chat. rewrite (fmap_app _ (pk_out p ++ _)). exact (concat_snoc_nil _).
  - rewrite (fmap_app _ (pk_out p ++ _)). exact (concat_snoc_nil _).
  - intros chat (b & c & Hb & Hc). exists b, c. split; [|done]. set_solver.
Qed.

(** What [room] leaves: room for the item, or an empty batch. *)
Lemma room_ok cost messages p : packer_ok p -> packer_ok (room cost messages p) /\
  (pk_empty (room cost messages p) = true \/
   room cost messages p = p /\ pk_size p + cost <= MaxBatchBytes /\ pk_messages p + messages <= MaxBatchMessages).
Proof.
  intros Hp. unfold room. destruct (pk_empty p) eqn:He; cbn; [by auto|].
  destruct (_ || _) eqn:Hf; [destruct (flush_ok p Hp); by auto|]. to_prop. auto.
Qed.

Lemma room_contents cost messages p :
  (forall chat, packed_messages chat (contents (room cost messages p)) = packed_messages chat (contents p)) /\
  packed_contacts (contents (room cost messages p)) = packed_contacts (contents p) /\
  (forall chat, carries_chat chat (contents p) -> carries_chat chat (contents (room cost messages p))).
Proof. unfold room. destruct (_ && _); [|done]. destruct (flush_contents p) as (? & ? & _ & ?). done. Qed.

Lemma packed_snoc (p : packer) b : 
  (forall chat, packed_messages chat (pk_out p ++ [b]) = packed_messages chat (pk_out p) ++ batch_messages chat b) /\
  packed_contacts (pk_out p ++ [b]) = packed_contacts (pk_out p) ++ bp_Contacts b.
Proof.
  unfold packed_messages, packed_contacts. split; [intros chat|]; rewrite fmap_app, concat_app; cbn; by rewrite app_nil_r.
Qed.

Lemma add_contact_ok p c : packer_ok p -> packer_ok (add_contact p c) /\
  (forall chat, packed_messages chat (contents (add_contact p c)) = packed_messages chat (contents p)) /\
  packed_contacts (contents (add_contact p c)) = packed_contacts (contents p) ++ [c].
Proof.
  intros Hp. unfold add_contact. destruct (room_ok (jl_Contact c + 1) 0 p Hp) as [Hq Hroom].
  destruct (room_contents (jl_Contact c + 1) 0 p) as (Hm & Hc & _). set (q := room _ _ p) in *.
  pose proof Hq as [Qs Qm Qi Qo Qc Qk]. rewrite <- Hc. unfold contents in *. split; [|split].
  - split; cbn; try done.
    + rewrite Qs. unfold weight. cbn. rewrite sum_of_app, sum_of_one. lia.
    + intros _. split; [|].
      * destruct Hroom as [He|(-> & _ & Hn)]; [pose proof (empty_messages q He) as H0; unfold message_count in *; cbn; unfold MaxBatchMessages; lia|].
        rewrite (po_messages _ Hp) in Hn. unfold message_count in *. cbn. lia.
      * destruct Hroom as [He|(Heq & Hn & _)]; [right|left].
        -- apply pk_empty_spec in He as [H1 H2]. left. cbn. by rewrite H1, H2.
        -- rewrite <- Heq, Qs in Hn. unfold weight in *. cbn. rewrite sum_of_app, sum_of_one. lia.
    + intros b d [Hb| ->%list_elem_of_singleton]%elem_of_app Hd; cbn in *; [apply (Qk b)|apply (Qk (pk_cur q))]; set_solver.
  - intros chat. rewrite <- Hm. cbn [pk_out pk_cur]. rewrite (proj1 (packed_snoc q _) chat), (proj1 (packed_snoc q (pk_cur q)) chat). done.
  - cbn [pk_out pk_cur]. rewrite (proj2 (packed_snoc q _)), (proj2 (packed_snoc q (pk_cur q))). cbn. by rewrite app_assoc.
Qed.

(** The metadata of an item carries no messages of its own. *)
Definition bare (conv : convItem) : Prop := cv_Messages (ci_meta conv) = [].
Lemma bare_meta conv : bare conv -> with_messages [] (ci_meta conv) = ci_meta conv.
Proof. unfold bare. destruct conv as [[] ms]. cbn. by intros ->. Qed.

(** The metadata may be new to the batch, which then has it last. *)
Lemma ensureMeta_ok conv p i q : bare conv -> packer_ok p -> ensureMeta conv p = (i, q) ->
  pk_size q = weight (pk_cur q) /\ pk_messages q = message_count (pk_cur q) /\ pk_messages q = pk_messages p /\
  (forall chat i, pk_convAt q !! chat = Some i <-> exists c, bp_Conversations (pk_cur q) !! i = Some c /\ cv_ChatJID c = chat) /\
  pk_out q = pk_out p /\ bp_Contacts (pk_cur q) = bp_Contacts (pk_cur p) /\
  pk_convAt q !! cv_ChatJID (ci_meta conv) = Some i /\
  pk_size q = pk_size p + (if is_none (pk_convAt p !! cv_ChatJID (ci_meta conv)) then meta_cost conv else 0) /\
  (pk_empty p = true -> bp_Conversations (pk_cur q) = [ci_meta conv]) /\
  (forall chat, batch_messages chat (pk_cur q) = batch_messages chat (pk_cur p)) /\
  (forall c, c ∈ bp_Conversations (pk_cur p) -> c ∈ bp_Conversations (pk_cur q)).
Proof.
  intros Hb [Ps Pm Pi Po Pc _]. unfold ensureMeta. rewrite (bare_meta _ Hb). destruct (pk_convAt p !! _) as [j|] eqn:Hi; intros [= <- <-]; cbn.
  { do 7 (split; [done|]). split; [lia|]. split; [|done]. intros [_ He]%pk_empty_spec. apply Pi in Hi as (c & Hl & _). by rewrite He, lookup_nil in Hl. }
  assert (Hw : conv_weight (ci_meta conv) = meta_cost conv).
  { unfold conv_weight, meta_cost. rewrite (bare_meta _ Hb), Hb. unfold sum_of. cbn. lia. }
  split; [|split; [|split; [done|split; [|split; [done|split; [done|split; [by rewrite lookup_insert_eq|split; [lia|split; [|split]]]]]]]]].
  - rewrite Ps. unfold weight. cbn. rewrite sum_of_app, sum_of_one, Hw. lia.
  - rewrite Pm. unfold message_count. cbn. rewrite sum_of_app, sum_of_one, Hb. unfold len. cbn. lia.
  - intros chat i. destruct (decide (chat = cv_ChatJID (ci_meta conv))) as [->|Hne].
    + rewrite lookup_insert_eq. split.
      * intros [= <-]. exists (ci_meta conv). by rewrite lookup_app_r, Nat.sub_diag by lia.
      * intros (c & [Hl|[Hge Hl]]%lookup_app_Some & Hc).
        -- assert (Hs : pk_convAt p !! cv_ChatJID (ci_meta conv) = Some i) by (apply Pi; by exists c). congruence.
        -- f_equal. destruct (i - _)%nat eqn:Hd; [lia|done].
    + rewrite lookup_insert_ne by done. rewrite Pi. split; intros (c & Hl & Hc).
      * exists c. split; [by apply lookup_app_l_Some|done].
      * apply lookup_app_Some in Hl as [Hl|[Hge Hl]]; [by exists c|]. destruct (i - _)%nat; [|done]. cbn in Hl. congruence.
  - intros [_ ->]%pk_empty_spec. done.
  - intros chat. unfold batch_messages. cbn. rewrite List.filter_app, fmap_app, concat_app. cbn.
    destruct (has_chat _ _); cbn; by rewrite ?Hb, !app_nil_r.
  - intros c Hc. set_solver.
Qed.

Lemma filter_none {A} (f : A -> bool) l : (forall x, x ∈ l -> f x = false) -> List.filter f l = [].
Proof. induction l as [|x l IH]; intros Hf; [done|]. cbn. rewrite Hf by by left. apply IH. intros y Hy. apply Hf. by right. Qed.

(** A message goes to the entry of its chat only. *)
Lemma alter_messages chat i m b c :
  bp_Conversations b !! i = Some c ->
  (forall j c', bp_Conversations b !! j = Some c' -> cv_ChatJID c' = cv_ChatJID c -> j = i) ->
  batch_messages chat (set_contents (alter (append_message m) i (bp_Conversations b)) (bp_Contacts b) b) =
    batch_messages chat b ++ (if has_chat chat c then [m] else []).
Proof.
  intros Hi Huniq. unfold batch_messages. cbn. revert Hi Huniq. generalize (bp_Conversations b). intros l Hi Huniq.
  destruct (list_elem_of_split_length _ _ _ Hi) as (l1 & l2 & -> & ->).
  assert (Hno : has_chat chat c = true -> forall y, y ∈ l1 \/ y ∈ l2 -> has_chat chat y = false).
  { intros Hc y Hy. unfold has_chat in *. apply bool_decide_eq_false. intros Hy'. to_prop.
    destruct Hy as [(j & Hj)%list_elem_of_lookup|(j & Hj)%list_elem_of_lookup].
    - pose proof (lookup_lt_Some _ _ _ Hj). assert (H1 : (l1 ++ c :: l2) !! j = Some y) by by apply lookup_app_l_Some.
      specialize (Huniq j y H1). rewrite Hc, Hy' in Huniq. specialize (Huniq eq_refl). lia.
    - assert (H1 : (l1 ++ c :: l2) !! (length l1 + Datatypes.S j)%nat = Some y) by by rewrite lookup_app_r, Nat.add_comm, Nat.add_sub by lia.
      specialize (Huniq _ y H1). rewrite Hc, Hy' in Huniq. specialize (Huniq eq_refl). lia. }
  assert (Hnil : has_chat chat c = true -> List.filter (has_chat chat) l1 = [] /\ List.filter (has_chat chat) l2 = []).
  { intros Hc. split; apply filter_none; intros y Hy; apply Hno; auto. }
  assert (Halt : alter (append_message m) (length l1) (l1 ++ c :: l2) = l1 ++ append_message m c :: l2).
  { clear. induction l1 as [|x l1 IH]; [done|]. cbn. by f_equal. }
  rewrite Halt, !List.filter_app. cbn. change (has_chat chat (append_message m c)) with (has_chat chat c).
  destruct (has_chat chat c) eqn:Hc; [|by rewrite app_nil_r]. destruct (Hnil eq_refl) as [-> ->]. cbn. by rewrite !app_nil_r.
Qed.

Definition own (chat : string) (conv : convItem) (ms : list HistoryMessage) : list HistoryMessage :=
  if has_chat chat (ci_meta conv) then ms else [].

(** The packer gained the messages [ms] of [conv], an entry for its chat, and nothing else. *)
Definition gains (conv : convItem) (ms : list HistoryMessage) (p q : packer) : Prop :=
  (forall chat, packed_messages chat (contents q) = packed_messages chat (contents p) ++ own chat conv ms) /\
  packed_contacts (contents q) = packed_contacts (contents p) /\
  (forall chat, carries_chat chat (contents p) -> carries_chat chat (contents q)) /\
  carries_chat (cv_ChatJID (ci_meta conv)) (contents q).

Lemma carries_last chat p i c :
  bp_Conversations (pk_cur p) !! i = Some c -> cv_ChatJID c = chat -> carries_chat chat (contents p).
Proof. intros Hl Hc. exists (pk_cur p), c. split; [set_solver|]. split; [by eapply list_elem_of_lookup_2|done]. Qed.

(** [ensureMeta] on a packer with room. *)
Lemma ensureMeta_known conv p i q : bare conv -> known (ci_meta conv) -> packer_ok p -> ensureMeta conv p = (i, q) ->
  forall b c, b ∈ contents q -> c ∈ bp_Conversations b -> known (with_messages [] c).
Proof.
  intros Hb Hk [_ _ _ _ _ Pk]. unfold ensureMeta. destruct (pk_convAt p !! _); intros [= <- <-]; [done|].
  intros b c [Hin| ->%list_elem_of_singleton]%elem_of_app Hc; cbn in *; [apply (Pk b); set_solver|].
  apply elem_of_app in Hc as [Hc| ->%list_elem_of_singleton]; [apply (Pk (pk_cur p)); set_solver|].
  rewrite (bare_meta _ Hb). cbn. by rewrite (bare_meta _ Hb).
Qed.

Lemma gains_refl_room conv ms cost messages p q :
  gains conv ms (room cost messages p) q -> gains conv ms p q.
Proof.
  destruct (room_contents cost messages p) as (Hm & Hc & Hk). intros (G1 & G2 & G3 & G4).
  split; [intros chat; by rewrite G1, Hm|]. split; [by rewrite G2, Hc|]. split; [|done]. intros chat H. by apply G3, Hk.
Qed.

(** Everything about the metadata entry but the limits. *)
Lemma ensureMeta_gains conv p i q : bare conv -> packer_ok p -> ensureMeta conv p = (i, q) -> gains conv [] p q.
Proof.
  intros Hb Hp He. pose proof (ensureMeta_ok conv p i q Hb Hp He) as (_ & _ & _ & Hi & Ho & Hc & Hat & _ & _ & Hms & Hin).
  unfold gains, contents. rewrite Ho. split; [|split; [|split]].
  - intros chat. rewrite (proj1 (packed_snoc p _) chat), (proj1 (packed_snoc p (pk_cur p)) chat), Hms. unfold own.
    by destruct (has_chat _ _); rewrite app_nil_r.
  - by rewrite (proj2 (packed_snoc p _)), (proj2 (packed_snoc p (pk_cur p))), Hc.
  - intros chat (b & c & [Hb'| ->%list_elem_of_singleton]%elem_of_app & Hcb & Hcc).
    + exists b, c. set_solver.
    + exists (pk_cur q), c. set_solver.
  - apply Hi in Hat as (c & Hl & Hcc). rewrite <- Ho. by eapply carries_last.
Qed.

(** The metadata entry alone. *)
Lemma ensureMeta_alone conv p : bare conv -> known (ci_meta conv) -> packer_ok p ->
  let q := (ensureMeta conv (room (meta_cost conv) 0 p)).2 in packer_ok q /\ gains conv [] p q.
Proof.
  intros Hb Hk Hp. destruct (room_ok (meta_cost conv) 0 p Hp) as [Hq Hroom].
  destruct (ensureMeta conv (room _ _ p)) as [i r] eqn:He. cbn.
  split; [|eapply gains_refl_room, ensureMeta_gains; eauto].
  destruct (pk_convAt (room (meta_cost conv) 0 p) !! cv_ChatJID (ci_meta conv)) as [j|] eqn:Hnew.
  { unfold ensureMeta in He. rewrite Hnew in He. by injection He as _ <-. }
  pose proof (ensureMeta_known _ _ _ _ Hb Hk Hq He) as Hkn.
  pose proof (ensureMeta_ok _ _ _ _ Hb Hq He) as (Hs & Hm & Hmp & Hi & Ho & Hc & Hat & Hsz & Hemp & _ & _).
  rewrite Hnew in Hsz. cbn in Hsz. split; try done; [rewrite Ho; by destruct Hq|]. intros _. unfold within_limits. rewrite <- Hm, <- Hs, Hmp, Hsz.
  destruct Hroom as [Hz|(-> & H1 & H2)].
  - rewrite (po_messages _ Hq), (empty_messages _ Hz). split; [unfold MaxBatchMessages; lia|]. right. right.
    rewrite Hc. apply pk_empty_spec in Hz as Hz'. split; [by destruct Hz'|]. exists (ci_meta conv). rewrite (Hemp Hz), Hb. cbn. split; [done|lia].
  - split; [lia|]. left. lia.
Qed.

Lemma lookup_append_chat (l : list HistoryConversation) (i : nat) m (j : nat) chat :
  (exists c, alter (append_message m) i l !! j = Some c /\ cv_ChatJID c = chat) <-> (exists c, l !! j = Some c /\ cv_ChatJID c = chat).
Proof.
  destruct (decide (i = j)) as [->|Hne]; [|by rewrite list_lookup_alter_ne by done].
  rewrite list_lookup_alter_eq. destruct (l !! j) as [c|]; cbn; [|done]. split; intros (d & [= <-] & Hd); eauto.
Qed.

(** A message of the conversation. *)
Lemma add_message_ok conv m p : bare conv -> known (ci_meta conv) -> packer_ok p ->
  packer_ok (add_message conv p m) /\ gains conv [m] p (add_message conv p m).
Proof.
  intros Hb Hk Hp. unfold add_message.
  set (need := if is_none (pk_convAt p !! _) then _ else _).
  destruct (room_ok need 1 p Hp) as [Hq Hroom]. destruct (ensureMeta conv (room need 1 p)) as [i r] eqn:He.
  pose proof (ensureMeta_known _ _ _ _ Hb Hk Hq He) as Hkn.
  pose proof (ensureMeta_gains _ _ _ _ Hb Hq He) as Hg.
  pose proof (ensureMeta_ok _ _ _ _ Hb Hq He) as (Hs & Hm & Hmp & Hi & Ho & Hc & Hat & Hsz & Hemp & _ & _).
  set (convs := alter (append_message m) i (bp_Conversations (pk_cur r))).
  apply Hi in Hat as Hat'. destruct Hat' as (c & Hl & Hcc). pose proof (lookup_lt_Some _ _ _ Hl) as Hlt.
  set (cur := set_contents convs (bp_Contacts (pk_cur r)) (pk_cur r)).
  assert (Hw : weight cur = weight (pk_cur r) + (jl_Message m + 1)).
  { unfold weight, cur, convs. cbn. rewrite (sum_of_alter _ _ (jl_Message m + 1) _ _) by (try done; apply conv_weight_append). lia. }
  assert (Hn : message_count cur = message_count (pk_cur r) + 1).
  { unfold message_count, cur, convs. cbn. apply sum_of_alter; [|done]. intros x. cbn. unfold len. rewrite length_app. cbn. lia. }
  split.
  - split; cbn; fold convs; fold cur.
    + lia.
    + lia.
    + intros chat j. rewrite Hi. symmetry. apply lookup_append_chat.
    + rewrite Ho. by destruct Hq.
    + intros _. unfold within_limits. rewrite Hw, Hn, <- Hm, <- Hs, Hmp, Hsz. destruct Hroom as [Hz|(Hqp & H1 & H2)].
      * rewrite (po_messages _ Hq), (empty_messages _ Hz). split; [unfold MaxBatchMessages; lia|]. right. right.
        apply pk_empty_spec in Hz as Hz'. destruct Hz' as [Hz1 Hz2]. unfold cur, convs. cbn. rewrite Hc, (Hemp Hz). split; [done|].
        rewrite (Hemp Hz) in Hl. destruct i; [|done]. injection Hl as <-. exists (append_message m (ci_meta conv)). split; [done|].
        cbn. rewrite Hb. cbn. lia.
      * rewrite Hqp in *. split; [lia|]. left. unfold need in H1. clear Hsz. destruct (is_none _); lia.
    + intros b d [Hin| ->%list_elem_of_singleton]%elem_of_app Hd; cbn in *; [apply (Hkn b); set_solver|].
      apply list_elem_of_lookup in Hd as (j & Hj). 
      destruct (decide (i = j)) as [->|Hne].
      * unfold convs in Hj. rewrite list_lookup_alter_eq, Hl in Hj. injection Hj as <-.
        apply (Hkn (pk_cur r) c); [set_solver|by eapply list_elem_of_lookup_2].
      * unfold convs in Hj. rewrite list_lookup_alter_ne in Hj by done.
        apply (Hkn (pk_cur r) d); [set_solver|by eapply list_elem_of_lookup_2].
  - apply (gains_refl_room conv [m] need 1). destruct Hg as (G1 & G2 & G3 & G4).
    assert (Hent : forall chat, carries_chat chat (contents r) -> carries_chat chat (pk_out r ++ [cur])).
    { intros chat (b & d & [Hin| ->%list_elem_of_singleton]%elem_of_app & Hd & Hdc); [exists b, d; set_solver|].
      apply list_elem_of_lookup in Hd as (j & Hj).
      destruct (proj2 (lookup_append_chat (bp_Conversations (pk_cur r)) i m j chat)) as (e & He1 & He2); [by exists d|].
      exists cur, e. split; [set_solver|]. split; [|done]. cbn. by eapply list_elem_of_lookup_2. }
    unfold gains, contents in *. cbn [pk_out pk_cur]. fold convs. fold cur. split; [|split; [|split; [|by apply Hent]]].
    + intros chat. rewrite (proj1 (packed_snoc r cur) chat). unfold cur, convs.
      rewrite (alter_messages chat i m _ c Hl), app_assoc.
      * rewrite <- (proj1 (packed_snoc r (pk_cur r)) chat), G1. unfold own, has_chat. rewrite Hcc. by destruct (bool_decide _); rewrite ?app_nil_r.
      * intros j d Hd Hdc. assert (Hj : pk_convAt r !! cv_ChatJID c = Some j) by (apply Hi; by exists d). congruence.
    + rewrite <- G2, (proj2 (packed_snoc r _)), (proj2 (packed_snoc r (pk_cur r))). done.
    + intros chat H. by apply Hent, G3.
Qed.

Lemma own_app chat conv l1 l2 : own chat conv l1 ++ own chat conv l2 = own chat conv (l1 ++ l2).
Proof. unfold own. by destruct (has_chat _ _). Qed.

Lemma gains_trans conv l1 l2 p q r : gains conv l1 p q -> gains conv l2 q r -> gains conv (l1 ++ l2) p r.
Proof.
  intros (A1 & A2 & A3 & A4) (B1 & B2 & B3 & B4). split; [|split; [congruence|split; [auto|done]]].
  intros chat. by rewrite B1, A1, <- app_assoc, own_app.
Qed.

Lemma add_messages_ok conv ms m p : bare conv -> known (ci_meta conv) -> packer_ok p ->
  packer_ok (foldl (add_message conv) p (m :: ms)) /\ gains conv (m :: ms) p (foldl (add_message conv) p (m :: ms)).
Proof.
  intros Hb Hk. revert m p. induction ms as [|x ms IH]; intros m p Hp; cbn [foldl]; [by apply add_message_ok|].
  destruct (add_message_ok conv m p Hb Hk Hp) as [Hq Hg]. destruct (IH x _ Hq) as [Hr Hh]. split; [done|].
  exact (gains_trans conv [m] (x :: ms) _ _ _ Hg Hh).
Qed.

Lemma add_conv_ok p conv : bare conv -> known (ci_meta conv) -> packer_ok p ->
  packer_ok (add_conv p conv) /\ gains conv (ci_messages conv) p (add_conv p conv).
Proof.
  intros Hb Hk Hp. unfold add_conv. destruct (ci_messages conv) as [|m ms]; [by apply ensureMeta_alone|by apply add_messages_ok].
Qed.

Lemma add_convs_ok convs p : Forall bare convs -> Forall (fun c => known (ci_meta c)) convs -> packer_ok p ->
  let q := foldl add_conv p convs in
  packer_ok q /\ (forall chat, packed_messages chat (contents q) = packed_messages chat (contents p) ++ conv_messages chat convs) /\
  packed_contacts (contents q) = packed_contacts (contents p) /\
  (forall chat, carries_chat chat (contents p) -> carries_chat chat (contents q)) /\
  (forall conv, conv ∈ convs -> carries_chat (cv_ChatJID (ci_meta conv)) (contents q)).
Proof.
  revert p. induction convs as [|x convs IH]; intros p Hb Hk Hp; cbn.
  { split; [done|]. split; [intros chat; unfold conv_messages; cbn; by rewrite app_nil_r|]. split; [done|]. split; [done|].
    by intros conv ?%not_elem_of_nil. }
  apply Forall_cons in Hb as [Hb Hbs]. apply Forall_cons in Hk as [Hk Hks].
  destruct (add_conv_ok p x Hb Hk Hp) as [Hq (G1 & G2 & G3 & G4)]. destruct (IH _ Hbs Hks Hq) as (Hr & A1 & A2 & A3 & A4).
  split; [done|]. split; [|split; [congruence|split; [auto|]]].
  - intros chat. rewrite A1, G1, <- app_assoc. f_equal. unfold own, conv_messages. cbn. by destruct (has_chat chat (ci_meta x)).
  - intros conv [->|H]%elem_of_cons; auto.
Qed.

Lemma add_contacts_ok cs p : packer_ok p ->
  let q := foldl add_contact p cs in
  packer_ok q /\ (forall chat, packed_messages chat (contents q) = packed_messages chat (contents p)) /\
  packed_contacts (contents q) = packed_contacts (contents p) ++ cs.
Proof.
  revert p. induction cs as [|c cs IH]; intros p Hp; cbn; [by rewrite app_nil_r|].
  destruct (add_contact_ok p c Hp) as (Hq & A1 & A2). destruct (IH _ Hq) as (Hr & B1 & B2).
  split; [done|]. split; [intros chat; by rewrite B1, A1|]. by rewrite B2, A2, <- app_assoc.
Qed.

Lemma new_packer_ok : packer_ok new_packer.
Proof.
  split; cbn; try done.
  - unfold weight. cbn. unfold sum_of. cbn. lia.
  - intros chat i. rewrite lookup_empty. split; [done|]. intros (c & Hl & _). by rewrite lookup_nil in Hl.
  - intros b c ->%list_elem_of_singleton Hin. by apply not_elem_of_nil in Hin.
Qed.
End Packing.

Section Exact.
Context `{J : JSONLen}.

Lemma drop_empty known p : packer_ok known p -> pk_empty p = true ->
  (forall chat, packed_messages chat (pk_out p) = packed_messages chat (contents p)) /\
  packed_contacts (pk_out p) = packed_contacts (contents p) /\
  (forall chat, carries_chat chat (contents p) -> carries_chat chat (pk_out p)).
Proof.
  intros Hp [He1 He2]%pk_empty_spec. unfold contents. split; [|split].
  - intros chat. rewrite (proj1 (packed_snoc p _) chat). unfold batch_messages. rewrite He2. cbn. by rewrite app_nil_r.
  - rewrite (proj2 (packed_snoc p _)), He1. by rewrite app_nil_r.
  - intros chat (b & c & [Hb| ->%list_elem_of_singleton]%elem_of_app & Hc & Hcc); [by exists b, c|].
    rewrite He2 in Hc. by apply not_elem_of_nil in Hc.
Qed.

(** The batches carry the contacts and, chat by chat, the messages, in order and
    once; an entry for every conversation with the metadata of a conversation;
    and each keeps to the limits, or holds a single item. *)
Record exact (contacts : list HistoryContact) (convs : list convItem) (out : list HistoryBatchPayload) : Prop := {
  ex_contacts : packed_contacts out = contacts;
  ex_messages : forall chat, packed_messages chat out = conv_messages chat convs;
  ex_entries : forall conv, conv ∈ convs -> carries_chat (cv_ChatJID (ci_meta conv)) out;
  ex_meta : forall b c, b ∈ out -> c ∈ bp_Conversations b -> exists conv, conv ∈ convs /\ with_messages [] c = ci_meta conv;
  ex_limits : Forall within_limits out;
}.

Lemma pack_exact contacts convs : Forall bare convs -> exact contacts convs (pack contacts convs).
Proof.
  intros Hb. set (known m := exists conv, conv ∈ convs /\ m = ci_meta conv).
  assert (Hk : Forall (fun c => known (ci_meta c)) convs) by (apply Forall_forall; intros c Hc; by exists c).
  destruct (add_contacts_ok known contacts new_packer (new_packer_ok known)) as (Hp & A1 & A2).
  destruct (add_convs_ok known convs _ Hb Hk Hp) as (Hq & B1 & B2 & B3 & B4).
  unfold pack. set (q := foldl add_conv _ convs) in *.
  destruct (flush_ok known q Hq) as [Hr He]. destruct (flush_contents known q) as (C1 & C2 & _ & C3).
  destruct (drop_empty known (flush q) Hr He) as (D1 & D2 & D3). split.
  - by rewrite D2, C2, B2, A2.
  - intros chat. by rewrite D1, C1, B1, A1.
  - auto.
  - intros b c Hbin Hc. apply (po_known known _ Hr b c); [set_solver|done].
  - apply (po_out known _ Hr).
Qed.
End Exact.

(** ** [Convert] *)

(** Sorting is a permutation that respects the comparison. *)
Lemma insert_stable_perm m l : insert_stable m l ≡ₚ m :: l.
Proof. induction l as [|x l IH]; cbn; [done|]. destruct (message_le x m); [|done]. rewrite IH. constructor. Qed.

Lemma sort_stable_perm l : sort_stable l ≡ₚ l.
Proof.
  unfold sort_stable. assert (H : forall acc, foldl (fun acc m => insert_stable m acc) acc l ≡ₚ acc ++ l).
  { induction l as [|x l IH]; intros acc; cbn; [by rewrite app_nil_r|]. rewrite IH, insert_stable_perm. cbn. apply Permutation_middle. }
  exact (H []).
Qed.

Lemma message_le_total a b : message_le a b = false -> message_le b a = true.
Proof. unfold message_le. repeat case_match; rewrite ?negb_true_iff, ?negb_false_iff in *; to_prop; lia || (intros; to_prop; lia). Qed.
Lemma message_le_trans a b c : message_le a b = true -> message_le b c = true -> message_le a c = true.
Proof.
  unfold message_le. destruct (om_ts a =? om_ts b) eqn:H1, (om_ts b =? om_ts c) eqn:H2, (om_ts a =? om_ts c) eqn:H3,
    (om_order a =? om_order b) eqn:H4, (om_order b =? om_order c) eqn:H5, (om_order a =? om_order c) eqn:H6; cbn; intros; to_prop; try lia.
Qed.

Definition in_order (a b : orderedMessage) : Prop := message_le a b = true.
Lemma insert_stable_sorted m l : StronglySorted in_order l -> StronglySorted in_order (insert_stable m l).
Proof.
  induction 1 as [|x l Hl IH Hx]; cbn; [by repeat constructor|]. destruct (message_le x m) eqn:He.
  - constructor; [done|]. rewrite insert_stable_perm. by constructor.
  - apply message_le_total in He. constructor; [by constructor|]. constructor; [done|].
    eapply Forall_impl; [exact Hx|]. intros y Hy. by eapply message_le_trans.
Qed.
Lemma sort_stable_sorted l : StronglySorted in_order (sort_stable l).
Proof.
  unfold sort_stable. assert (H : forall acc, StronglySorted in_order acc -> StronglySorted in_order (foldl (fun acc m => insert_stable m acc) acc l)).
  { induction l as [|x l IH]; intros acc Ha; cbn; [done|]. apply IH, insert_stable_sorted, Ha. }
  apply H. constructor.
Qed.

(** ** Shortening *)

Definition text (i : nat) (m : HistoryMessage) : list ascii := String.list_ascii_of_string (field i m).

(** The same message with its texts cut, and marked so when they are. *)
Record cut_of (m m' : HistoryMessage) : Prop := {
  cu_rest : with_texts "" "" None false m' = with_texts "" "" None false m;
  cu_marked : m' = m \/ ms_Truncated m' = true;
  cu_text : forall i, text i m' `prefix_of` text i m;
}.

Lemma cut_refl m : cut_of m m.
Proof. split; auto. Qed.
Lemma cut_trans a b c : cut_of a b -> cut_of b c -> cut_of a c.
Proof.
  intros [A1 A2 A3] [B1 B2 B3]. split; [congruence| |].
  - destruct B2 as [->|]; auto.
  - intros i. etrans; [apply B3|apply A3].
Qed.

Lemma rune_cut_le s n : (rune_cut s n <= n)%nat.
Proof. induction n as [|n IH]; cbn; [done|]. destruct (s !! _); [destruct (RuneStart _)|]; lia. Qed.

Lemma truncate_prefix s n : String.list_ascii_of_string (truncateUTF8 s n) `prefix_of` String.list_ascii_of_string s.
Proof.
  unfold truncateUTF8. destruct (_ <=? _); [done|]. rewrite String.list_ascii_of_string_of_list_ascii. apply prefix_take.
Qed.
Lemma length_list_ascii s : length (String.list_ascii_of_string s) = String.length s.
Proof. induction s as [|c s IH]; cbn; auto. Qed.
Lemma truncate_shorter s n : 0 <= n -> Z.of_nat (String.length (truncateUTF8 s n)) <= n.
Proof.
  intros Hn. unfold truncateUTF8, len. destruct (_ <=? n) eqn:Hle; to_prop; rewrite length_list_ascii in *; [lia|].
  rewrite <- length_list_ascii, String.list_ascii_of_string_of_list_ascii, length_take. pose proof (rune_cut_le (String.list_ascii_of_string s) (Z.to_nat n)). lia.
Qed.

Lemma field_set i v m : field i (set_field i v m) = v.
Proof. by destruct i as [|[|i]]. Qed.
Lemma set_field_cut i v m : String.list_ascii_of_string v `prefix_of` text i m -> cut_of m (set_field i v m).
Proof.
  intros Hv. split; [by destruct i as [|[|i]]|right; by destruct i as [|[|i]]|]. intros j. unfold text in *.
  destruct i as [|[|i]], j as [|[|j]]; cbn in *; done.
Qed.

Section Shorten.
Context `{J : JSONLen}.

Lemma shorten_cut fuel i limit m : cut_of m (shorten fuel i limit m).
Proof.
  revert m. induction fuel as [|fuel IH]; intros m; cbn; [apply cut_refl|]. destruct (_ && _); [|apply cut_refl].
  eapply cut_trans; [|apply IH]. apply set_field_cut, truncate_prefix.
Qed.

(** The fuel is enough: the loop ends on its own condition. *)
Lemma shorten_stops fuel i limit m : (String.length (field i m) <= fuel)%nat ->
  jl_Message (shorten fuel i limit m) <= limit \/ field i (shorten fuel i limit m) = "".
Proof.
  revert m. induction fuel as [|fuel IH]; intros m Hf; cbn.
  { right. destruct (field i m); [done|]. cbn in Hf. lia. }
  destruct (_ && _) eqn:Hc.
  - apply IH. rewrite field_set. to_prop. unfold field_len in *.
    pose proof (truncate_shorter (field i m) (Z.max (Z.of_nat (String.length (field i m)) - (jl_Message m - limit) - 16) 0)). lia.
  - apply andb_false_iff in Hc as [Hc|Hc]; to_prop; [by left|right]. unfold field_len in Hc. destruct (field i m); [done|]. cbn in Hc. lia.
Qed.

Lemma shorten_fits fuel i limit m : jl_Message m <= limit -> shorten fuel i limit m = m.
Proof. intros H. destruct fuel; [done|]. cbn. by rewrite (proj2 (Z.ltb_ge _ _)). Qed.

#[local] Arguments shorten_field : simpl never.

Lemma shorten_other fuel i j limit m : (Nat.min i 2 <> Nat.min j 2)%nat -> field j (shorten fuel i limit m) = field j m.
Proof.
  intros Hij. revert m. induction fuel as [|fuel IH]; intros m; cbn; [done|]. destruct (_ && _); [|done]. rewrite IH.
  destruct i as [|[|i]], j as [|[|j]]; try done; lia.
Qed.

Lemma shorten_fields_cut limit l m : cut_of m (foldl (shorten_field limit) m l).
Proof.
  revert m. induction l as [|i l IH]; intros m; cbn; [apply cut_refl|]. eapply cut_trans; [|apply IH]. apply shorten_cut.
Qed.

Lemma shorten_field_stops limit m i : jl_Message (shorten_field limit m i) <= limit \/ field i (shorten_field limit m i) = "".
Proof. by apply shorten_stops. Qed.

(** The three steps, or the two when there is no vCard. *)
Lemma shorten_all limit m l : l = [0; 1]%nat \/ l = [0; 1; 2]%nat ->
  let m' := foldl (shorten_field limit) m l in jl_Message m' <= limit \/ forall i, (i ∈ l) -> field i m' = "".
Proof.
  assert (Hstep : forall m i, jl_Message m <= limit -> shorten_field limit m i = m) by (intros; by apply shorten_fits).
  intros Hl. pose proof (shorten_field_stops limit m 0) as H0. set (m0 := shorten_field limit m 0) in *.
  pose proof (shorten_field_stops limit m0 1) as H1. set (m1 := shorten_field limit m0 1) in *.
  assert (H01 : jl_Message m1 <= limit \/ field 0 m1 = "" /\ field 1 m1 = "").
  { destruct H0 as [H0|H0]; [left; unfold m1; by rewrite Hstep|]. destruct H1 as [H1|H1]; [by left|right]. split; [|done].
    unfold m1, shorten_field. by rewrite shorten_other. }
  destruct Hl as [->| ->]; cbn; fold m0; fold m1.
  - destruct H01 as [|[A B]]; [by left|right]. intros i Hi. apply elem_of_cons in Hi as [->|Hi]; [done|]. by apply list_elem_of_singleton in Hi as ->.
  - destruct H01 as [H|[A B]]; [left; by rewrite Hstep|]. destruct (shorten_field_stops limit m1 2) as [H2|H2]; [by left|right].
    intros i [->|[->| ->%list_elem_of_singleton]%elem_of_cons]%elem_of_cons; [| |done]; unfold shorten_field; by rewrite shorten_other.
Qed.

Lemma no_vcard m : ms_VCard m = None -> field 2 m = "".
Proof. intros H. cbn. by rewrite H. Qed.

Lemma no_vcard_cut m m' : cut_of m m' -> field 2 m = "" -> field 2 m' = "".
Proof.
  intros Hc Hm. pose proof (cu_text _ _ Hc 2%nat) as Hp. unfold text in Hp. rewrite Hm in Hp. cbn -[field] in Hp.
  apply prefix_nil_inv in Hp. by destruct (field 2 m').
Qed.

(** [fitMessage] keeps every message that fits as it is; one that does not
    is cut until it does, each of its texts a prefix of the original, with its
    identity, time and other fields intact and the mark that it was cut; and a message is dropped only when it is too large with
    all its free text gone. The loops that shorten always end. *)
Theorem long_messages_are_cut limit m :
  match fitMessage limit m with
  | Some m' => jl_Message m' <= limit /\ cut_of m m' /\ (jl_Message m <= limit -> m' = m)
  | None => limit < jl_Message m /\ exists m', cut_of m m' /\ limit < jl_Message m' /\ forall i, (i <= 2)%nat -> field i m' = ""
  end.
Proof.
  unfold fitMessage. destruct (jl_Message m <=? limit) eqn:Hfit; to_prop; [split; [done|]; split; [apply cut_refl|done]|].
  set (l := if is_none (ms_VCard m) then _ else _). cbn zeta.
  assert (Hl : l = [0; 1]%nat /\ ms_VCard m = None \/ l = [0; 1; 2]%nat) by (unfold l; destruct (ms_VCard m); cbn; auto).
  pose proof (shorten_fields_cut limit l m) as Hcut.
  pose proof (shorten_all limit m l) as Hall. cbn in Hall. set (m' := foldl _ m l) in *.
  destruct (jl_Message m' <=? limit) eqn:Hs; to_prop; [split; [done|]; split; [done|lia]|].
  split; [lia|]. exists m'. split; [done|]. split; [lia|]. destruct Hall as [Ha|Ha]; [tauto|lia|].
  intros i Hi. destruct Hl as [[Hl Hv]|Hl]; rewrite Hl in Ha.
  - destruct i as [|[|[|i]]]; [apply Ha; set_solver|apply Ha; set_solver| |lia]. exact (no_vcard_cut m m' Hcut (no_vcard m Hv)).
  - destruct i as [|[|[|i]]]; [apply Ha; set_solver|apply Ha; set_solver|apply Ha; set_solver|lia].
Qed.
End Shorten.

(** ** The whole conversion *)

Definition same_contents (b b' : HistoryBatchPayload) : Prop :=
  bp_Contacts b' = bp_Contacts b /\ bp_Conversations b' = bp_Conversations b.

Section Whole.
Context `{J : JSONLen} {B : Type} `{L : BlobLib B} `{I : EventIDLib}.

Lemma same_packed l l' : Forall2 same_contents l l' ->
  packed_contacts l' = packed_contacts l /\ forall chat, packed_messages chat l' = packed_messages chat l.
Proof.
  unfold packed_contacts, packed_messages. induction 1 as [|b b' l l' [H1 H2] _ [IH1 IH2]]; [done|]. cbn. rewrite H1, IH1. split; [done|].
  intros chat. unfold batch_messages at 1 3. by rewrite H2, IH2.
Qed.

Lemma same_limits b b' : same_contents b b' -> within_limits b -> within_limits b'.
Proof. intros [H1 H2]. unfold within_limits, message_count, weight, single. by rewrite H1, H2. Qed.

Lemma exact_same cs convs l l' : Forall2 same_contents l l' -> exact cs convs l -> exact cs convs l'.
Proof.
  intros Hs [E1 E2 E3 E4 E5]. destruct (same_packed l l' Hs) as [P1 P2]. split.
  - by rewrite P1.
  - intros chat. by rewrite P2.
  - intros conv Hc. destruct (E3 conv Hc) as (b & c & (i & Hi)%list_elem_of_lookup & Hin & Hcc).
    destruct (Forall2_lookup_l _ _ _ _ _ Hs Hi) as (b' & Hb' & _ & H2). exists b', c. rewrite H2.
    split; [by eapply list_elem_of_lookup_2|done].
  - intros b' c (i & Hi)%list_elem_of_lookup Hin. destruct (Forall2_lookup_r _ _ _ _ _ Hs Hi) as (b & Hb & _ & H2).
    rewrite H2 in Hin. eapply E4; [by eapply list_elem_of_lookup_2|done].
  - apply Forall_lookup. intros i b' Hb'. destruct (Forall2_lookup_r _ _ _ _ _ Hs Hb') as (b & Hb & Hsame).
    apply (same_limits b b' Hsame). exact (proj1 (Forall_lookup _ _) E5 _ _ Hb).
Qed.

Lemma stamped_same inp blob n l : Forall2 same_contents l (ba_Payload <$> imap (stamp_part inp blob n) l).
Proof.
  rewrite fmap_imap. apply Forall2_same_length_lookup_2; [by rewrite length_imap|]. intros i b b' Hb Hb'.
  rewrite list_lookup_imap, Hb in Hb'. by injection Hb' as <-.
Qed.

(** The conversations converted, with their messages. *)
Definition converted (inp : Input) (blob : B) : list convItem :=
  omap fst (convert_conv <$> bl_Conversations (inp_SessionID inp) (inp_AccountJID inp) (inp_CutoffMs inp) blob).

Lemma converted_bare inp blob : Forall bare (converted inp blob).
Proof.
  unfold converted. pose proof (bl_bare (inp_SessionID inp) (inp_AccountJID inp) (inp_CutoffMs inp) blob) as Hb. induction Hb as [|c l Hc _ IH]; cbn; [constructor|]. unfold convert_conv at 1.
  destruct (bc_chat c); [destruct (convertMessages _ _) as [ms k]; cbn; by constructor|done].
Qed.

(** The packing of what was converted is exact. After cutoff, skips and cuts the
    batches together carry the contacts in order; for every chat the converted
    messages of its conversations, each once and in order; an entry for every
    conversation that has a chat, even one without messages; and no entry whose
    metadata is not a conversation's. Each batch is within 200 messages and the
    byte budget, or
    holds one item too large to share. The batches are numbered from 1, know how
    many they are, and have event ids that depend on the notification and the
    number only, so that converting again gives the same ids. *)
Theorem conversion_loses_nothing inp blob :
  let r := Convert inp blob in
  exact (bl_Contacts blob) (converted inp blob) (ba_Payload <$> re_Batches r) /\
  forall i b, re_Batches r !! i = Some b ->
    bp_Part (ba_Payload b) = Z.of_nat i + 1 /\ bp_Parts (ba_Payload b) = len (re_Batches r) /\
    bp_RunID (ba_Payload b) = inp_RunID inp /\
    ba_EventID b = EventID (inp_NotifiedAt inp) [inp_SessionID inp; inp_NotificationID inp; pretty (N.of_nat i)].
Proof.
  cbn. split.
  - eapply exact_same; [apply stamped_same|]. apply pack_exact, converted_bare.
  - intros i b. rewrite list_lookup_imap. intros (p & _ & ->)%fmap_Some. cbn. unfold len. by rewrite length_imap.
Qed.

(** A conversation's messages come out sorted by time, then by the phone's
    order, then by their place in the blob; each converted message is there once
    unless it cannot be made to fit, each of them fits, and every message that
    is missing is counted as skipped. *)
Theorem messages_are_sorted_and_counted limit msgs :
  let '(out, skipped) := convertMessages limit msgs in
  exists sorted, sorted ≡ₚ ordered_messages msgs /\ StronglySorted in_order sorted /\
    out = omap (fitMessage limit) (om_msg <$> sorted) /\ Forall (fun m => jl_Message m <= limit) out /\
    len out + skipped = len (ordered_messages msgs) + len (List.filter (fun '(_, c) => is_none c) msgs).
Proof.
  unfold convertMessages. exists (sort_stable (ordered_messages msgs)).
  split; [apply sort_stable_perm|]. split; [apply sort_stable_sorted|]. split; [done|]. split.
  - apply Forall_forall. intros m (o & _ & Ho)%list_elem_of_omap. unfold fitMessage in Ho.
    destruct (jl_Message o <=? limit) eqn:H; to_prop; [congruence|]. cbn zeta in Ho.
    destruct (jl_Message _ <=? limit) eqn:H'; to_prop; congruence.
  - assert (Hl : len (om_msg <$> sort_stable (ordered_messages msgs)) = len (ordered_messages msgs)).
    { unfold len. by rewrite length_fmap, sort_stable_perm. }
    lia.
Qed.
End Whole.

(** ** A sample conversion *)

Module Sample.
Definition text_length (m : HistoryMessage) : Z := 100 + Z.of_nat (String.length (ms_Body m)).
#[export] Instance sizes : JSONLen := {
  jl_Contact c := 50;
  jl_Conversation c := 300 + sum_of text_length (cv_Messages c);
  jl_Message := text_length;
  batchOverhead := 500;
}.
#[export] Instance ids : EventIDLib := { ulid_MustNew ms entropy := pretty (Z.to_N ms) +:+ "/" +:+ entropy; sha256_Sum256 s := s }.

Definition message (id body : string) (ts : Z) : HistoryMessage := MkHistoryMessage "message" "" id "" "1@s.whatsapp.net" "" "" false "text" ts "" [] body "" None false [].
Definition chat (jid : string) : HistoryConversation :=
  MkHistoryConversation jid "dm" "A chat" "" "" jid None false false 0 0 [] [].

(** Two conversations, the messages of the first out of order. *)
Definition blob_convs : list blob_conv := [
  MkBlobConv true (chat "1@s.whatsapp.net") [(2, Some [message "m2" "second" 2000]); (1, Some [message "m1" "first" 1000]); (3, None)];
  MkBlobConv true (chat "2@s.whatsapp.net") [];
  MkBlobConv false (chat "status@broadcast") [(1, Some [message "s1" "status" 1000])]].
Lemma blob_bare : Forall (fun c => cv_Messages (bc_meta c) = []) blob_convs.
Proof. repeat constructor. Qed.
#[export] Instance blobs : BlobLib unit := {
  bl_SyncType _ := "recent";
  bl_ChunkOrder _ := 1;
  bl_Progress _ := Some 100;
  bl_StatusMessages _ := 0;
  bl_Contacts _ := [MkHistoryContact "" "1@s.whatsapp.net" "One"];
  bl_Conversations _ _ _ _ := blob_convs;
  bl_bare _ _ _ _ := blob_bare;
}.
Definition input : Input := MkInput "s1" "n1" 1700000000000000000 "hsr_1" "9@s.whatsapp.net" 0.
End Sample.
