(* ===== verification/HistoryBlob.v ===== *)
(** The history blob that a phone sends, as the conversion reads it: identities,
    contacts, conversation metadata and messages of
    [internal/gateway/historysync/convert.go]. It implements the class [BlobLib] of
    HistoryConvert.v. JIDs and the parsing and normalizing of one message are
    parameters; the rest is modelled. *)
From S2P Require Import Prelude Journal Domain Outbound DesiredState HistoryConvert.
From Stdlib Require Import Ascii.

#[local] Open Scope Z_scope.

(** ** The WhatsApp library *)

(** [types.JID] and the server names. *)
Class JIDLib (JID : Type) := {
  jid_Parse : string -> option JID;
  jid_User : JID -> string;
  jid_Server : JID -> string;
  jid_IsEmpty : JID -> bool;
  jid_ToNonAD : JID -> JID;
  jid_String : JID -> string;
  userServer : string;
  hiddenUserServer : string;
  groupServer : string;
  newsletterServer : string;
  broadcastServer : string;
}.

(** ** The protobuf messages *)

Record JIDMapping := MkJIDMapping { jm_PnJID : string; jm_LidJID : string }.
Record Pushname := MkPushname { pn_ID : string; pn_Pushname : string }.
Inductive Rank := RankRegular | RankAdmin | RankSuperAdmin.
Record GroupParticipant := MkGroupParticipant { gp_UserJID : string; gp_Rank : Rank }.

Record MessageKey := MkMessageKey { mk_ID : string; mk_FromMe : bool; mk_Participant : string }.
Record HistoryReaction := MkHistoryReaction { rx_Text : string; rx_Key : MessageKey; rx_SenderTimestampMS : Z }.
Record PollUpdate := MkPollUpdate {
  pu_Key : MessageKey;
  pu_SelectedOptions : list string;
  pu_SenderTimestampMS : Z;
  pu_ServerTimestampMS : Z;
}.
Inductive WebMessageStatus := StatusError | StatusPending | StatusServerAck | StatusDeliveryAck | StatusRead | StatusPlayed.

(** [wm_StubType] 0 is none; [wm_Raw] is what the parameters read of the message. *)
Record WebMessageInfo {W : Type} := MkWebMessageInfo {
  wm_Key : MessageKey;
  wm_MessageTimestamp : Z;
  wm_StubType : Z;
  wm_HasMessage : bool;
  wm_Status : option WebMessageStatus;
  wm_Reactions : list HistoryReaction;
  wm_PollUpdates : list PollUpdate;
  wm_Raw : W;
}.
Arguments WebMessageInfo : clear implicits.

Record Conversation {W : Type} := MkConversation {
  co_ID : string;
  co_PnJID : string;
  co_LidJID : string;
  co_Name : string;
  co_DisplayName : string;
  co_Description : string;
  co_Archived : bool;
  co_Pinned : Z;
  co_UnreadCount : option Z;
  co_MuteEndTime : Z;
  co_LastMsgTimestamp : Z;
  co_ConversationTimestamp : Z;
  co_Participants : list GroupParticipant;
  co_Messages : list (Z * option (WebMessageInfo W));
}.
Arguments Conversation : clear implicits.

Record HistorySync {W : Type} := MkHistorySync {
  hs_SyncType : string;
  hs_ChunkOrder : Z;
  hs_Progress : option Z;
  hs_StatusV3Messages : Z;
  hs_Mappings : list JIDMapping;
  hs_InlineContacts : list JIDMapping;
  hs_Pushnames : list Pushname;
  hs_Conversations : list (Conversation W);
}.
Arguments HistorySync : clear implicits.

(** [in.Parse], the sender it finds, and [events.Normalize] with what [convertMessage]
    takes from it: the message payload with its media and mentions, its kind, and
    the options of a poll. *)
Class MessageLib (JID W : Type) := {
  ml_Parse : JID -> WebMessageInfo W -> option JID;
  ml_Normalize : string -> JID -> WebMessageInfo W -> option (HistoryMessage * option (list string));
}.

Definition REVOKE : Z := 1.

Definition EventMessage : string := "message".
Definition EventMessageReaction : string := "message.reaction".
Definition EventMessageRevoked : string := "message.revoked".
Definition EventMessageInteractiveReply : string := "message.interactive_reply".
Definition EventPollVote : string := "poll.vote".

(** ** Identities *)

Record identityIndex := MkIdentityIndex { pnToLID : gmap string string; lidToPN : gmap string string }.

(** [SyncTypeName]: [strings.ToLower] of the type's name. *)
Definition lower (c : ascii) : ascii :=
  let n := nat_of_ascii c in if ((65 <=? n) && (n <=? 90))%nat then ascii_of_nat (n + 32) else c.
Definition SyncTypeName (s : string) : string := String.string_of_list_ascii (lower <$> String.list_ascii_of_string s).

(** [hex.EncodeToString]. *)
Definition hexdigit (n : nat) : ascii := ascii_of_nat (if n <? 10 then 48 + n else 87 + n)%nat.
Definition EncodeToString (s : string) : string :=
  String.string_of_list_ascii (concat ((fun c => let n := nat_of_ascii c in [hexdigit (n / 16); hexdigit (n mod 16)]) <$> String.list_ascii_of_string s)).

Section Blob.
Context {JID W : Type} `{JL : JIDLib JID} `{ML : MessageLib JID W} `{EI : EventIDLib} `{MR : MapRange}.

Definition canonicalJID (s : string) : string :=
  if bool_decide (s = "") then ""
  else match jid_Parse s with
  | None => ""
  | Some j => if bool_decide (jid_User j = "") then "" else jid_String (jid_ToNonAD j)
  end.

Definition is_pn (s : string) : bool := HasSuffix s ("@" +:+ userServer).
Definition is_lid (s : string) : bool := HasSuffix s "@lid".

(** [identityIndex.add]: the first mapping of a JID stays. *)
Definition set_new (k v : string) (m : gmap string string) : gmap string string :=
  if is_none (m !! k) then <[k := v]> m else m.
Definition add_identity (x : identityIndex) (pn lid : string) : identityIndex :=
  let pn := canonicalJID pn in
  let lid := canonicalJID lid in
  if negb (is_pn pn) || negb (is_lid lid) then x
  else MkIdentityIndex (set_new pn lid (pnToLID x)) (set_new lid pn (lidToPN x)).

Definition newIdentityIndex (blob : HistorySync W) : identityIndex :=
  let idx := MkIdentityIndex ∅ ∅ in
  let idx := foldl (fun x m => add_identity x (jm_PnJID m) (jm_LidJID m)) idx (hs_Mappings blob) in
  let idx := foldl (fun x m => add_identity x (jm_PnJID m) (jm_LidJID m)) idx (hs_InlineContacts blob) in
  foldl (fun x conv =>
    let id := canonicalJID (co_ID conv) in
    if is_lid id then add_identity x (co_PnJID conv) id
    else if is_pn id then add_identity x id (co_LidJID conv)
    else x) idx (hs_Conversations blob).

(** The LID and the phone JID of a JID. *)
Definition split (x : identityIndex) (jid : string) : string * string :=
  let jid := canonicalJID jid in
  if is_lid jid then (jid, default "" (lidToPN x !! jid))
  else if is_pn jid then (default "" (pnToLID x !! jid), jid)
  else ("", "").

(** *** Contacts *)

(** [get]: the contact's key, and the contacts with it. *)
Definition get_contact (ids : identityIndex) (jid : string) (byKey : gmap string HistoryContact)
  : option string * gmap string HistoryContact :=
  let '(lid, pn) := split ids jid in
  if bool_decide (lid = "") && bool_decide (pn = "") then (None, byKey)
  else
    let key := if bool_decide (lid = "") then pn else lid in
    (Some key, if is_none (byKey !! key) then <[key := MkHistoryContact lid pn ""]> byKey else byKey).

Definition name_contact (name : string) (c : HistoryContact) : HistoryContact :=
  if bool_decide (ct_PushName c = "") then MkHistoryContact (ct_LID c) (ct_PhoneJID c) name else c.

Definition contact_le (a b : HistoryContact) : Prop :=
  (if bool_decide (ct_LID a = ct_LID b) then String.leb (ct_PhoneJID a) (ct_PhoneJID b) else String.leb (ct_LID a) (ct_LID b)) = true.
#[export] Instance contact_le_dec : RelDecision contact_le.
Proof. intros a b. unfold Decision, contact_le. apply bool_eq_dec. Defined.

(** The contacts by key; the ranges over the two maps are in any order. *)
Definition contacts_by_key (blob : HistorySync W) (ids : identityIndex) : gmap string HistoryContact :=
  let byKey := foldl (fun m pn => (get_contact ids pn m).2) ∅ (range_keys (dom (pnToLID ids))) in
  let byKey := foldl (fun m lid => (get_contact ids lid m).2) byKey (range_keys (dom (lidToPN ids))) in
  foldl (fun m p =>
    let name := TrimSpace (pn_Pushname p) in
    if bool_decide (name = "") then m
    else match get_contact ids (pn_ID p) m with
         | (Some key, m) => alter (name_contact name) key m
         | (None, m) => m
         end) byKey (hs_Pushnames blob).
Definition buildContacts (blob : HistorySync W) (ids : identityIndex) : list HistoryContact :=
  let byKey := contacts_by_key blob ids in
  merge_sort contact_le (omap (fun k => byKey !! k) (range_keys (dom byKey))).

(** *** Conversations *)

Inductive ChatClass := ChatClassDM | ChatClassGroup | ChatClassNewsletter | ChatClassBroadcast | ChatClassStatus.
#[export] Instance ChatClass_eq_dec : EqDecision ChatClass.
Proof. solve_decision. Defined.

Definition ClassifyChat (jid : JID) : ChatClass :=
  if bool_decide (jid_Server jid = broadcastServer) && bool_decide (jid_User jid = "status") then ChatClassStatus
  else if bool_decide (jid_Server jid = groupServer) then ChatClassGroup
  else if bool_decide (jid_Server jid = newsletterServer) then ChatClassNewsletter
  else if bool_decide (jid_Server jid = broadcastServer) then ChatClassBroadcast
  else ChatClassDM.

Definition chatType (class : ChatClass) : string :=
  match class with
  | ChatClassGroup => "group"
  | ChatClassNewsletter => "newsletter"
  | ChatClassBroadcast => "broadcast"
  | ChatClassStatus => "status"
  | ChatClassDM => "dm"
  end.
Definition participantRole (r : Rank) : string :=
  match r with RankAdmin => "admin" | RankSuperAdmin => "superadmin" | RankRegular => "member" end.

Definition participants (ids : identityIndex) (l : list GroupParticipant) : list HistoryParticipant :=
  omap (fun p =>
    let '(lid, pn) := split ids (gp_UserJID p) in
    if bool_decide (lid = "") && bool_decide (pn = "") then None
    else Some (MkHistoryParticipant lid pn (participantRole (gp_Rank p)))) l.

Definition conversationMeta (conv : Conversation W) (chat : JID) (class : ChatClass) (ids : identityIndex) : HistoryConversation :=
  let name := TrimSpace (co_Name conv) in
  let '(lid, pn) := if bool_decide (class = ChatClassDM) then split ids (jid_String chat) else ("", "") in
  MkHistoryConversation (jid_String chat) (chatType class)
    (if bool_decide (name = "") then TrimSpace (co_DisplayName conv) else name)
    (TrimSpace (co_Description conv)) lid pn (co_UnreadCount conv) (co_Archived conv) (0 <? co_Pinned conv)
    (if 0 <? co_MuteEndTime conv then epochMs (co_MuteEndTime conv) else 0)
    (if 0 <? co_LastMsgTimestamp conv then epochMs (co_LastMsgTimestamp conv)
     else if 0 <? co_ConversationTimestamp conv then epochMs (co_ConversationTimestamp conv) else 0)
    (participants ids (co_Participants conv)) [].

(** *** Messages *)

Definition fillPair (jid lid : string) (ids : identityIndex) : string * string :=
  let lid := if bool_decide (lid = "") && negb (bool_decide (jid = "")) then default "" (pnToLID ids !! jid) else lid in
  let jid := if bool_decide (jid = "") && negb (bool_decide (lid = "")) then default "" (lidToPN ids !! lid) else jid in
  (jid, lid).

Definition senderIDs (sender : JID) (ids : identityIndex) : string * string :=
  if jid_IsEmpty sender then ("", "")
  else
    let s := jid_String (jid_ToNonAD sender) in
    if bool_decide (jid_Server sender = hiddenUserServer) then fillPair "" s ids else fillPair s "" ids.

(** Phone JID, LID, from me. *)
Definition keySender (accountJID : string) (chat : JID) (key : MessageKey) (ids : identityIndex) : string * string * bool :=
  let by_chat :=
    if bool_decide (jid_Server chat = userServer) || bool_decide (jid_Server chat = hiddenUserServer) then
      (senderIDs chat ids, false)
    else ("", "", false) in
  if mk_FromMe key then (fillPair (canonicalJID accountJID) "" ids, true)
  else if bool_decide (mk_Participant key = "") then by_chat
  else match jid_Parse (mk_Participant key) with
       | Some parsed => (senderIDs parsed ids, false)
       | None => by_chat
       end.

(** The fields that the derived messages set. *)
Definition derived (kind id target chat typ : string) (ts : Z) (sender : string * string * bool) (reaction : string)
  (options : list string) : HistoryMessage :=
  MkHistoryMessage kind "" id target chat sender.1.1 sender.1.2 sender.2 typ ts reaction options "" "" None false [].

Definition cut_off (cutoffMs ts : Z) : bool := (0 <? cutoffMs) && (ts <? cutoffMs).
Definition message_ts (wm : WebMessageInfo W) : Z := i64 (i64 (wm_MessageTimestamp wm) * 1000).

Definition reactions (accountJID : string) (cutoffMs : Z) (chat : JID) (wm : WebMessageInfo W) (ids : identityIndex) : list HistoryMessage :=
  omap (fun r =>
    if bool_decide (rx_Text r = "") || bool_decide (mk_ID (rx_Key r) = "") then None
    else
      let ts := if rx_SenderTimestampMS r <=? 0 then message_ts wm else rx_SenderTimestampMS r in
      if cut_off cutoffMs ts then None
      else Some (derived EventMessageReaction (mk_ID (rx_Key r)) (mk_ID (wm_Key wm)) (jid_String chat) "reaction" ts
                   (keySender accountJID chat (rx_Key r) ids) (rx_Text r) [])) (wm_Reactions wm).

Definition pollVotes (accountJID : string) (cutoffMs : Z) (chat : JID) (wm : WebMessageInfo W) (options : list string)
  (ids : identityIndex) : list HistoryMessage :=
  let byHash : gmap string string := foldl (fun m opt => <[EncodeToString (sha256_Sum256 opt) := opt]> m) ∅ options in
  omap (fun pu =>
    if bool_decide (mk_ID (pu_Key pu) = "") then None
    else
      let selected := (fun h => default (EncodeToString h) (byHash !! EncodeToString h)) <$> pu_SelectedOptions pu in
      if is_nil selected then None
      else
        let ts := if pu_SenderTimestampMS pu <=? 0 then pu_ServerTimestampMS pu else pu_SenderTimestampMS pu in
        if cut_off cutoffMs ts then None
        else Some (derived EventPollVote (mk_ID (pu_Key pu)) (mk_ID (wm_Key wm)) (jid_String chat) "poll_vote" ts
                     (keySender accountJID chat (pu_Key pu) ids) "" selected)) (wm_PollUpdates wm).

Definition createsRow (kind : string) : bool :=
  bool_decide (kind = EventMessage) || bool_decide (kind = EventMessageFromMe) || bool_decide (kind = EventMessageInteractiveReply).
Definition messageStatus (status : option WebMessageStatus) : string :=
  match status with
  | Some StatusPending => "pending"
  | Some StatusServerAck => "sent"
  | Some StatusDeliveryAck => "delivered"
  | Some StatusRead => "read"
  | Some StatusPlayed => "played"
  | _ => ""
  end.

Definition with_sender (sender : string * string) (status : string) (m : HistoryMessage) : HistoryMessage :=
  MkHistoryMessage (ms_Kind m) status (ms_WAMessageID m) (ms_TargetID m) (ms_ChatJID m) sender.1 sender.2 (ms_FromMe m)
    (ms_Type m) (ms_Timestamp m) (ms_Reaction m) (ms_SelectedOptions m) (ms_Body m) (ms_QuotedBody m) (ms_VCard m)
    (ms_Truncated m) (ms_Fields m).

Definition convertMessage (sessionID accountJID : string) (cutoffMs : Z) (chat : JID) (wm : option (WebMessageInfo W))
  (ids : identityIndex) : option (list HistoryMessage) :=
  match wm with
  | None => None
  | Some wm =>
      if bool_decide (mk_ID (wm_Key wm) = "") then None
      else if cut_off cutoffMs (message_ts wm) then None
      else if negb (wm_StubType wm =? 0) && negb (wm_StubType wm =? REVOKE) then None
      else if (wm_StubType wm =? 0) && negb (wm_HasMessage wm) then None
      else match ml_Parse chat wm with
      | None => None
      | Some sender =>
          if wm_StubType wm =? REVOKE then
            let '(jid, lid) := senderIDs sender ids in
            Some [MkHistoryMessage EventMessageRevoked "" (mk_ID (wm_Key wm)) (mk_ID (wm_Key wm)) (jid_String chat) jid lid
                    (mk_FromMe (wm_Key wm)) "revoke" (message_ts wm) "" [] "" "" None false []]
          else match ml_Normalize sessionID chat wm with
          | None => None
          | Some (payload, poll) =>
              let ids_of := if bool_decide (ms_SenderJID payload = "") && bool_decide (ms_SenderLID payload = "") then senderIDs sender ids
                            else fillPair (ms_SenderJID payload) (ms_SenderLID payload) ids in
              let status := if ms_FromMe payload && createsRow (ms_Kind payload) then messageStatus (wm_Status wm) else "" in
              Some ([with_sender ids_of status payload] ++ reactions accountJID cutoffMs chat wm ids ++
                    match poll with Some options => pollVotes accountJID cutoffMs chat wm options ids | None => [] end)
          end
      end
  end.

(** ** The blob, as the conversion takes it *)

Definition blob_chat (conv : Conversation W) : option (JID * ChatClass) :=
  match jid_Parse (co_ID conv) with
  | None => None
  | Some chat =>
      if jid_IsEmpty chat || bool_decide (jid_User chat = "") then None
      else
        let chat := jid_ToNonAD chat in
        let class := ClassifyChat chat in
        if bool_decide (class = ChatClassStatus) then None else Some (chat, class)
  end.

Definition no_meta : HistoryConversation := MkHistoryConversation "" "" "" "" "" "" None false false 0 0 [] [].

Definition blob_conversation (sessionID accountJID : string) (cutoffMs : Z) (ids : identityIndex) (conv : Conversation W) : blob_conv :=
  match blob_chat conv with
  | None => MkBlobConv false no_meta ((fun m => (m.1, None)) <$> co_Messages conv)
  | Some (chat, class) =>
      MkBlobConv true (conversationMeta conv chat class ids)
        ((fun m => (m.1, convertMessage sessionID accountJID cutoffMs chat m.2 ids)) <$> co_Messages conv)
  end.
Definition blob_conversations (sessionID accountJID : string) (cutoffMs : Z) (blob : HistorySync W) : list blob_conv :=
  blob_conversation sessionID accountJID cutoffMs (newIdentityIndex blob) <$> hs_Conversations blob.

Lemma blob_conversations_bare sessionID accountJID cutoffMs blob :
  Forall (fun c => cv_Messages (bc_meta c) = []) (blob_conversations sessionID accountJID cutoffMs blob).
Proof.
  apply Forall_fmap, Forall_true. intros conv. cbn. unfold blob_conversation. destruct (blob_chat conv) as [[chat class]|]; [|done].
  cbn. unfold conversationMeta. by destruct (if bool_decide _ then _ else _).
Qed.

#[export] Instance blob_lib : BlobLib (HistorySync W) := {
  bl_SyncType blob := SyncTypeName (hs_SyncType blob);
  bl_ChunkOrder := hs_ChunkOrder;
  bl_Progress := hs_Progress;
  bl_StatusMessages := hs_StatusV3Messages;
  bl_Contacts blob := buildContacts blob (newIdentityIndex blob);
  bl_Conversations := blob_conversations;
  bl_bare := blob_conversations_bare;
}.
End Blob.

(** ** The contacts do not depend on the order of the maps *)

Section Contacts.
Context {JID W : Type} `{JL : JIDLib JID}.
Variable ids : identityIndex.
Implicit Types (m : gmap string HistoryContact).

Definition key_of (p : string * string) : option string :=
  let '(lid, pn) := p in
  if bool_decide (lid = "") && bool_decide (pn = "") then None else Some (if bool_decide (lid = "") then pn else lid).

Lemma get_contact_eq jid m : get_contact ids jid m =
  (key_of (split ids jid), match key_of (split ids jid) with
    | Some key => if is_none (m !! key) then <[key := MkHistoryContact (split ids jid).1 (split ids jid).2 ""]> m else m
    | None => m
    end).
Proof. unfold get_contact, key_of. destruct (split ids jid) as [lid pn]. by destruct (_ && _). Qed.

(** JIDs that are one contact have one identity. *)
Definition consistent (l : list string) : Prop := forall a b, a ∈ l -> b ∈ l ->
  key_of (split ids a) <> None -> key_of (split ids a) = key_of (split ids b) -> split ids a = split ids b.

(** Decided by looking at every pair. *)
Definition consistent_b (l : list string) : bool :=
  forallb (fun a => forallb (fun b => is_none (key_of (split ids a)) || negb (bool_decide (key_of (split ids a) = key_of (split ids b))) ||
                                      bool_decide (split ids a = split ids b)) l) l.
Lemma consistent_b_sound l : consistent_b l = true -> consistent l.
Proof.
  unfold consistent_b. rewrite forallb_forall. intros H a b Ha Hb Hk He. specialize (H a (proj1 (list_elem_of_In _ _) Ha)).
  rewrite forallb_forall in H. specialize (H b (proj1 (list_elem_of_In _ _) Hb)). rewrite (bool_decide_true _ He) in H.
  destruct (key_of (split ids a)); [|done]. by apply bool_decide_eq_true in H.
Qed.

Definition absorb m (l : list string) : gmap string HistoryContact := foldl (fun m jid => (get_contact ids jid m).2) m l.

Lemma absorb_lookup l : consistent l -> forall m k c, absorb m l !! k = Some c <->
  m !! k = Some c \/ m !! k = None /\ exists a, a ∈ l /\ key_of (split ids a) = Some k /\ c = MkHistoryContact (split ids a).1 (split ids a).2 "".
Proof.
  induction l as [|a l IH]; intros Hc m k c; cbn.
  { split; [by left|]. intros [|(_ & a & Ha & _)]; [done|by apply not_elem_of_nil in Ha]. }
  assert (Hl : consistent l) by (intros x y Hx Hy; apply Hc; by right). fold (absorb (get_contact ids a m).2 l). rewrite (IH Hl).
  rewrite get_contact_eq. cbn. destruct (key_of (split ids a)) as [key|] eqn:Hk.
  2:{ split; intros [|(Hn & b & Hb & Hkb & ->)]; auto; right; (split; [done|]); exists b; (split; [|done]); [by right|].
      apply elem_of_cons in Hb as [->|]; [congruence|done]. }
  destruct (m !! key) as [d|] eqn:Hd; cbn.
  { split; intros [|(Hn & b & Hb & Hkb & ->)]; auto; right; (split; [done|]); exists b; (split; [|done]); [by right|].
    apply elem_of_cons in Hb as [->|]; [congruence|done]. }
  destruct (decide (k = key)) as [->|Hne].
  - rewrite lookup_insert_eq. split.
    + intros [[= <-]|[? _]]; [right|done]. split; [done|]. exists a. split; [by left|done].
    + intros [?|(_ & b & Hb & Hkb & ->)]; [congruence|left]. f_equal.
      assert (He : split ids a = split ids b) by (apply Hc; [by left|done|by rewrite Hk|congruence]). by rewrite He.
  - rewrite lookup_insert_ne by done. split; intros [|(Hn & b & Hb & Hkb & ->)]; auto; right; (split; [done|]); exists b; (split; [|done]); [by right|].
    apply elem_of_cons in Hb as [->|]; [congruence|done].
Qed.

Lemma absorb_perm l l' m : consistent l -> l ≡ₚ l' -> absorb m l = absorb m l'.
Proof.
  intros Hc Hp. assert (Hc' : consistent l') by (intros a b; rewrite <- Hp; apply Hc).
  apply map_eq. intros k. apply option_eq. intros c. rewrite !absorb_lookup by done. by setoid_rewrite Hp.
Qed.

(** Every contact is under its own key. *)
Definition well_keyed m : Prop := forall k c, m !! k = Some c -> key_of (ct_LID c, ct_PhoneJID c) = Some k.

Lemma get_well_keyed jid m : well_keyed m -> well_keyed (get_contact ids jid m).2.
Proof.
  intros Hm. rewrite get_contact_eq. cbn. destruct (key_of (split ids jid)) as [key|] eqn:Hk; [|done].
  destruct (m !! key); cbn; [done|]. intros k c. destruct (decide (k = key)) as [->|Hne].
  - rewrite lookup_insert_eq. intros [= <-]. cbn [ct_LID ct_PhoneJID]. by rewrite <- surjective_pairing.
  - rewrite lookup_insert_ne by done. apply Hm.
Qed.
Lemma absorb_well_keyed l m : well_keyed m -> well_keyed (absorb m l).
Proof. revert m. induction l as [|a l IH]; intros m Hm; [done|]. by apply IH, get_well_keyed. Qed.
End Contacts.

(** *** Order of the contacts *)

#[export] Instance contact_le_total : Total contact_le.
Proof.
  intros a b. unfold contact_le. destruct (decide (ct_LID a = ct_LID b)) as [->|Hne].
  - rewrite !bool_decide_true by done. destruct (String.leb_total (ct_PhoneJID a) (ct_PhoneJID b)); auto.
  - rewrite !bool_decide_false by done. destruct (String.leb_total (ct_LID a) (ct_LID b)); auto.
Qed.
#[export] Instance contact_le_trans : Transitive contact_le.
Proof.
  intros a b c. unfold contact_le. intros H1 H2.
  destruct (decide (ct_LID a = ct_LID b)) as [Hab|Hab], (decide (ct_LID b = ct_LID c)) as [Hbc|Hbc];
    rewrite ?(bool_decide_true _ Hab), ?(bool_decide_false _ Hab), ?(bool_decide_true _ Hbc), ?(bool_decide_false _ Hbc) in *.
  - rewrite bool_decide_true by congruence. by eapply string_leb_trans.
  - rewrite bool_decide_false by congruence. by rewrite Hab.
  - rewrite bool_decide_false by congruence. by rewrite <- Hbc.
  - rewrite bool_decide_false; [by eapply string_leb_trans|]. intros Hac. apply Hab. apply String.leb_antisym; [done|]. by rewrite Hac.
Qed.
Lemma contact_le_antisym a b : contact_le a b -> contact_le b a -> ct_LID a = ct_LID b /\ ct_PhoneJID a = ct_PhoneJID b.
Proof.
  unfold contact_le. destruct (decide (ct_LID a = ct_LID b)) as [He|Hne].
  - rewrite !bool_decide_true by done. intros H1 H2. split; [done|by apply String.leb_antisym].
  - rewrite !bool_decide_false by done. intros H1 H2. by destruct Hne; apply String.leb_antisym.
Qed.

Section Order.
Context {JID W : Type} `{JL : JIDLib JID}.

(** Naming contacts. *)
Definition name_step (ids : identityIndex) (m : gmap string HistoryContact) (p : Pushname) : gmap string HistoryContact :=
  let name := TrimSpace (pn_Pushname p) in
  if bool_decide (name = "") then m
  else match get_contact ids (pn_ID p) m with (Some key, m) => alter (name_contact name) key m | (None, m) => m end.
Lemma name_step_keyed ids m p : well_keyed m -> well_keyed (name_step ids m p).
Proof.
  intros Hm. unfold name_step. destruct (bool_decide _); [done|]. pose proof (get_well_keyed ids (pn_ID p) m Hm) as Hg.
  destruct (get_contact ids (pn_ID p) m) as [[key|] m']; [|done]. cbn in Hg. intros k c.
  rewrite lookup_alter_Some. intros [(-> & d & Hd & ->)|[_ Hk]]; [|by apply Hg]. specialize (Hg _ d Hd). unfold name_contact.
  by destruct (bool_decide _).
Qed.

Lemma contacts_keyed `{MR : MapRange} (blob : HistorySync W) ids : well_keyed (contacts_by_key blob ids).
Proof.
  unfold contacts_by_key. assert (H : forall l m, well_keyed m -> well_keyed (foldl (name_step ids) m l)).
  { induction l as [|p l IH]; intros m Hm; [done|]. by apply IH, name_step_keyed. }
  apply H. apply (absorb_well_keyed ids (range_keys (dom (lidToPN ids)))), (absorb_well_keyed ids (range_keys (dom (pnToLID ids)))).
  intros k c. by rewrite lookup_empty.
Qed.

(** The JIDs the ranges go over. *)
Definition indexed (ids : identityIndex) : list string := elements (dom (pnToLID ids)) ++ elements (dom (lidToPN ids)).

Lemma contacts_same (MR1 MR2 : MapRange) (blob : HistorySync W) ids : consistent ids (indexed ids) ->
  contacts_by_key (MR:=MR1) blob ids = contacts_by_key (MR:=MR2) blob ids.
Proof.
  intros Hc. unfold contacts_by_key.
  assert (Hc1 : forall MR : MapRange, consistent ids (range_keys (dom (pnToLID ids)))).
  { intros MR a b Ha Hb. apply Hc; apply elem_of_app; left; apply elem_of_elements, range_keys_elem; done. }
  assert (Hc2 : forall MR : MapRange, consistent ids (range_keys (dom (lidToPN ids)))).
  { intros MR a b Ha Hb. apply Hc; apply elem_of_app; right; apply elem_of_elements, range_keys_elem; done. }
  f_equal. change (absorb ids (absorb ids ∅ (range_keys (MapRange:=MR1) (dom (pnToLID ids)))) (range_keys (MapRange:=MR1) (dom (lidToPN ids))) =
    absorb ids (absorb ids ∅ (range_keys (MapRange:=MR2) (dom (pnToLID ids)))) (range_keys (MapRange:=MR2) (dom (lidToPN ids)))).
  rewrite (absorb_perm ids (range_keys (MapRange:=MR1) (dom (pnToLID ids))) (range_keys (MapRange:=MR2) (dom (pnToLID ids))));
    [|done|by rewrite !range_keys_perm].
  apply absorb_perm; [done|by rewrite !range_keys_perm].
Qed.

Lemma values_perm (MR1 MR2 : MapRange) (m : gmap string HistoryContact) :
  omap (fun k => m !! k) (range_keys (MapRange:=MR1) (dom m)) ≡ₚ omap (fun k => m !! k) (range_keys (MapRange:=MR2) (dom m)).
Proof. apply omap_Permutation. by rewrite !range_keys_perm. Qed.

(** C37: the contacts of a blob do not depend on the order in which Go ranges over
    its maps, provided that JIDs of one contact have one identity: each contact is
    there once, in the order of LID and phone. *)
Theorem contacts_are_deterministic (MR1 MR2 : MapRange) (blob : HistorySync W) ids : consistent ids (indexed ids) ->
  buildContacts (MR:=MR1) blob ids = buildContacts (MR:=MR2) blob ids /\
  NoDup ((fun c => (ct_LID c, ct_PhoneJID c)) <$> buildContacts (MR:=MR1) blob ids) /\
  Sorted contact_le (buildContacts (MR:=MR1) blob ids).
Proof.
  intros Hc. unfold buildContacts. rewrite <- (contacts_same MR1 MR2 blob ids Hc). set (m := contacts_by_key blob ids).
  assert (Hm : well_keyed m) by apply contacts_keyed.
  assert (Hin : forall (MR : MapRange) c, c ∈ merge_sort contact_le (omap (fun k => m !! k) (range_keys (MapRange:=MR) (dom m))) ->
    exists k, m !! k = Some c /\ key_of (ct_LID c, ct_PhoneJID c) = Some k).
  { intros MR c. rewrite merge_sort_Permutation. intros (k & _ & Hk)%list_elem_of_omap. exists k. split; [done|by apply Hm]. }
  split; [|split; [|apply Sorted_merge_sort, _]].
  - apply (Sorted_unique_strong contact_le); [|apply Sorted_merge_sort, _..|].
    + intros a b Ha Hb H1 H2. destruct (Hin _ a Ha) as (k & Hk & Hka), (Hin _ b Hb) as (k' & Hk' & Hkb).
      destruct (contact_le_antisym a b H1 H2) as [He1 He2]. rewrite He1, He2, Hkb in Hka. congruence.
    + rewrite !merge_sort_Permutation. apply values_perm.
  - rewrite merge_sort_Permutation.
    assert (Hnd : forall l, NoDup l -> NoDup ((fun c => (ct_LID c, ct_PhoneJID c)) <$> omap (fun k => m !! k) l)).
    { induction l as [|k l IH]; intros Hn; cbn; [constructor|]. apply NoDup_cons in Hn as [Hk Hn].
      destruct (m !! k) as [c|] eqn:Hmk; [|by apply IH]. cbn. constructor; [|by apply IH].
      intros (d & Hd & (k' & Hk' & Hd')%list_elem_of_omap)%list_elem_of_fmap. pose proof (Hm k c Hmk) as H1. pose proof (Hm k' d Hd') as H2.
      rewrite Hd, H2 in H1. injection H1 as ->. done. }
    apply Hnd, range_keys_NoDup.
Qed.
End Order.

(** *** A blob whose contacts do *)

Module Sample.
Definition split_at (s : string) : option (string * string) :=
  match String.index 0 "@" s with
  | Some i => Some (String.substring 0 i s, String.substring (i + 1) (String.length s) s)
  | None => None
  end.
#[export] Instance jids : JIDLib (string * string) := {
  jid_Parse := split_at; jid_User := fst; jid_Server := snd; jid_IsEmpty j := bool_decide (j = ("", "")); jid_ToNonAD j := j;
  jid_String j := j.1 +:+ "@" +:+ j.2; userServer := "s.whatsapp.net"; hiddenUserServer := "lid"; groupServer := "g.us";
  newsletterServer := "newsletter"; broadcastServer := "broadcast" }.

Definition blob (mappings : list JIDMapping) : HistorySync unit := MkHistorySync unit "RECENT" 1 None 0 mappings [] [] [].
(** Two phones of one LID: a number that changed. *)
Definition two_phones : HistorySync unit := blob [MkJIDMapping "111@s.whatsapp.net" "9@lid"; MkJIDMapping "222@s.whatsapp.net" "9@lid"].
Definition one_phone : HistorySync unit := blob [MkJIDMapping "111@s.whatsapp.net" "9@lid"; MkJIDMapping "222@s.whatsapp.net" "8@lid"].

Definition backwards : MapRange.
Proof. refine {| range_keys s := reverse (elements s) |}. intros s. apply reverse_Permutation. Defined.
End Sample.
Import Sample.

(** Two ranges over the maps of one blob may give it different contacts. *)
Theorem contacts_follow_the_map_order :
  buildContacts (MR:=sorted_range) two_phones (newIdentityIndex two_phones) <>
  buildContacts (MR:=backwards) two_phones (newIdentityIndex two_phones).
Proof. vm_compute. discriminate. Qed.

Theorem contacts_are_deterministic_witness :
  buildContacts (MR:=sorted_range) one_phone (newIdentityIndex one_phone) =
    buildContacts (MR:=backwards) one_phone (newIdentityIndex one_phone) /\
  length (buildContacts (MR:=sorted_range) one_phone (newIdentityIndex one_phone)) = 2%nat.
Proof.
  split; [|vm_compute; reflexivity].
  refine (proj1 (contacts_are_deterministic sorted_range backwards one_phone (newIdentityIndex one_phone) _)).
  apply consistent_b_sound. vm_compute. reflexivity.
Defined.
