(* ===== verification/HistoryWorker.v ===== *)
(** The history worker: [internal/gateway/historysync/worker.go]. Every method is
    a [prog], a tree of the calls it makes to the store, the sink, the WhatsApp
    client and the clock; a call is atomic, and between two calls of a goroutine
    any other goroutine may run. The programs are modelled whole; HistorySpec.v
    runs them together. *)
From S2P Require Import Prelude Journal Domain HistoryInbox HistoryConvert.

#[local] Open Scope Z_scope.

Definition Hour : Z := 3600 * Second.
Definition waitForSession : Z := 30 * Second.
Definition maxBackoff : Z := 10 * 60 * Second.
Definition emitGiveUp : Z := Hour.

Definition HistoryPhaseStarted : string := "started".
Definition HistoryPhaseProgress : string := "progress".
Definition HistoryPhaseCompleted : string := "completed".
Definition HistoryPhaseFailed : string := "failed".
Definition HistorySyncRecent : string := "recent".
Definition HistorySyncFull : string := "full".

Record HistorySyncPayload := MkHistorySyncPayload {
  sp_RunID : string;
  sp_Phase : string;
  sp_AccountJID : string;
  sp_SyncType : string;
  sp_ChunkOrder : Z;
  sp_Progress : option Z;
  sp_CutoffAt : Z;
  sp_Chunks : Z;
  sp_Batches : Z;
  sp_Conversations : Z;
  sp_Messages : Z;
  sp_Skipped : Z;
  sp_Error : string;
}.

Inductive history_payload :=
  | SyncPayload (p : HistorySyncPayload)
  | BatchPayload (p : HistoryBatchPayload).

(** The [domain.Event] that [publish] builds. *)
Record history_event := MkHistoryEvent {
  he_Schema : string;
  he_ID : string;
  he_Type : string;
  he_Session : string;
  he_Organization : string;
  he_Timestamp : Z;
  he_Payload : history_payload;
}.

(** [Intercepted]; [ic_Notification] is the pointer. *)
Record Intercepted {N : Type} := MkIntercepted {
  ic_SessionID : string;
  ic_OrganizationID : string;
  ic_MessageID : string;
  ic_AccountJID : string;
  ic_NotifiedAt : GoTime;
  ic_Notification : option N;
  ic_HistorySyncDays : Z;
}.
Arguments Intercepted : clear implicits.

(** [Config]; of its functions, whether they are set. *)
Record WorkerConfig := MkWorkerConfig {
  wc_Concurrency : Z;
  wc_BatchInterval : Z;
  wc_IdleComplete : Z;
  wc_RetryFor : Z;
  wc_FullSync : bool;
  wc_Owns : bool;
  wc_Days : bool;
  wc_Paused : bool;
}.

(** The defaults of [NewWorker]. *)
Definition NewWorker_config (cfg : WorkerConfig) : WorkerConfig :=
  let or d v := if v <=? 0 then d else v in
  MkWorkerConfig (or 1 (wc_Concurrency cfg)) (or (250 * 1000000) (wc_BatchInterval cfg))
    (or (10 * 60 * Second) (wc_IdleComplete cfg)) (or (24 * Hour) (wc_RetryFor cfg))
    (wc_FullSync cfg) (wc_Owns cfg) (wc_Days cfg) (wc_Paused cfg).

(** The notification's protobuf. *)
Class NotificationLib (N : Type) := {
  nl_Marshal : N -> goerr + bytes;
  nl_Unmarshal : bytes -> goerr + N;
  nl_DirectPath : N -> string;
}.

(** The errors of the WhatsApp library that the worker tells apart. *)
Class WhatsmeowErrors := {
  ErrMediaDownloadFailedWith404 : goerr;
  ErrMediaDownloadFailedWith410 : goerr;
  ErrInvalidMediaHMAC : goerr;
  ErrInvalidMediaSHA256 : goerr;
  ErrNoURLPresent : goerr;
}.

(** ** Calls *)

(** The interface [Store]. *)
Inductive store_call : Type -> Type :=
  | CEnqueue (row : HistoryInboxRow) : store_call bool
  | CPending : store_call (list HistoryInboxRow)
  | CHasPending (session : string) : store_call bool
  | CPostpone (id attempts : Z) (next : GoTime) (errText : string) : store_call unit
  | CCursor (id batchesDone : Z) : store_call unit
  | CMarkErrorSent (id : Z) : store_call unit
  | CFinish (id : Z) (status errText : string) (delta : option HistoryRunDelta) : store_call unit
  | CDiscard (session keepAccount reason : string) : store_call Z
  | CActiveRun (session account : string) : store_call (option HistoryRun)
  | CRunByID (runID : string) : store_call (option HistoryRun)
  | CCreateRun (run : HistoryRun) : store_call unit
  | CEndRun (runID status errText : string) : store_call unit
  | CEndRuns (session keepAccount status errText : string) : store_call unit
  | CUnemitted : store_call (list HistoryRun)
  | CMarkEmitted (runID : string) : store_call unit
  | CIdle (before : GoTime) : store_call (list HistoryRun)
  | CPrune (now : GoTime) : store_call unit.

(** Implemented by the journal; [now] is its own reading of the clock. *)
Definition store_run {A} (c : store_call A) (now : Z) : M (db hdb) A :=
  match c with
  | CEnqueue row => EnqueueHistory row now
  | CPending => PendingHistory
  | CHasPending session => HasPendingHistory session
  | CPostpone id attempts next errText => PostponeHistory id attempts next errText now
  | CCursor id batchesDone => SetHistoryCursor id batchesDone now
  | CMarkErrorSent id => MarkHistoryServerErrorSent id now
  | CFinish id status errText delta => FinishHistory id status errText delta now
  | CDiscard session keepAccount reason => DiscardHistory session keepAccount reason now
  | CActiveRun session account => ActiveHistoryRun session account
  | CRunByID runID => HistoryRunByID runID
  | CCreateRun run => CreateHistoryRun run
  | CEndRun runID status errText => EndHistoryRun runID status errText now
  | CEndRuns session keepAccount status errText => EndHistoryRuns session keepAccount status errText now
  | CUnemitted => UnemittedHistoryRuns
  | CMarkEmitted runID => MarkHistoryRunEmitted runID
  | CIdle before => IdleHistoryRuns before
  | CPrune t => PruneHistory t
  end.

Section Programs.
Context {N B : Type} `{NL : NotificationLib N} `{WE : WhatsmeowErrors} `{J : JSONLen} `{L : BlobLib B} `{I : EventIDLib}.

(** [HistoryClient]'s answer: a connected client, its account, known. *)
Record session_client := MkSessionClient { sc_connected : bool; sc_account : string; sc_known : bool }.

Inductive call : Type -> Type :=
  | Store {A} (c : store_call A) : call (goerr + A)
  | Now : call GoTime
  | GetClient (session : string) : call session_client
  | Owns (organization session : string) : call bool
  | Days (session : string) : call (option Z)
  | Paused : call bool
  | Sleep (d : Z) : call (option goerr)
  | SinkPublish (ev : history_event) : call (option goerr)
  | Download (session : string) (notif : N) : call (goerr + B)
  | SendReceipt (session message : string) : call (option goerr)
  | SendServerError (session message : string) (notif : N) : call (option goerr)
  | DeleteMedia (session : string) (notif : N) : call (option goerr)
  | LastBatch (session : string) : call GoTime
  | SetLastBatch (session : string) (t : GoTime) : call unit
  | LastPrune : call GoTime
  | SetLastPrune (t : GoTime) : call unit.

Inductive prog (A : Type) : Type :=
  | Ret (a : A)
  | Call {R : Type} (c : call R) (k : R -> prog A).
Arguments Ret {A} a.
Arguments Call {A R} c k.

#[export] Instance prog_ret : MRet prog := @Ret.
#[export] Instance prog_bind : MBind prog := fun A B k =>
  fix bind p := match p with Ret a => k a | Call c f => Call c (fun r => bind (f r)) end.

Definition do {R} (c : call R) : prog R := Call c Ret.

(** [for _, x := range l]. *)
Fixpoint each {A} (f : A -> prog unit) (l : list A) : prog unit :=
  match l with [] => mret tt | x :: l => f x;; each f l end.

Variable cfg : WorkerConfig.

(** A run of the process that polls the pressure longer than this ends there. *)
Variable patience : nat.

(** *** Intake *)

Definition cutoffMs (now : GoTime) (days : Z) : Z := UnixMilli (now + i64 (- days * (24 * Hour))).

(** [Accept]; a nil client is not [connected]. *)
Definition Accept (connected : bool) (n : Intercepted N) : prog (option goerr) :=
  match ic_Notification n with
  | None => mret (Some (ErrMsg "history notification requires session, id and payload"))
  | Some notif =>
      if bool_decide (ic_MessageID n = "") || bool_decide (ic_SessionID n = "") then
        mret (Some (ErrMsg "history notification requires session, id and payload"))
      else match nl_Marshal notif with
      | inl err => mret (Some (ErrWrap "encode history notification" err))
      | inr raw =>
          days ← (if wc_Days cfg then assigned ← do (Days (ic_SessionID n)); mret (default (ic_HistorySyncDays n) assigned)
                  else mret (ic_HistorySyncDays n));
          now ← do Now;
          let notified := if IsZero (ic_NotifiedAt n) then now else ic_NotifiedAt n in
          let cutoff := if 0 <? days then cutoffMs now days else 0 in
          inserted ← do (Store (CEnqueue (MkHistoryInboxRow 0 (ic_SessionID n) (ic_OrganizationID n) (ic_MessageID n)
                          (ic_AccountJID n) raw notified cutoff (0 <? days) "" 0 zero_time 0 false "" zero_time)));
          match inserted with
          | inl err => mret (Some (ErrWrap "store history notification" err))
          | inr _ =>
              (if connected then do (SendReceipt (ic_SessionID n) (ic_MessageID n));; mret tt else mret tt);;
              mret None
          end
      end
  end.

Definition drop (session keepAccount reason : string) : prog unit :=
  do (Store (CDiscard session keepAccount reason));;
  do (Store (CEndRuns session keepAccount HistoryRunFailed reason));;
  mret tt.
Definition Paired (session account : string) : prog unit := drop session account "device relinked to another account".
Definition Discard (session reason : string) : prog unit := drop session "" reason.

(** *** Small steps *)

Definition lifecycle (run : HistoryRun) (phase : string) : HistorySyncPayload :=
  MkHistorySyncPayload (hr_RunID run) phase (hr_AccountJID run) (hr_SyncType run) 0
    (if 0 <=? hr_Progress run then Some (hr_Progress run) else None) (hr_CutoffMs run) (hr_Chunks run) (hr_Batches run)
    (hr_Conversations run) (hr_Messages run) (hr_Skipped run)
    (if bool_decide (phase = HistoryPhaseFailed) then hr_Error run else "").
Definition with_chunk_order (n : Z) (p : HistorySyncPayload) : HistorySyncPayload :=
  MkHistorySyncPayload (sp_RunID p) (sp_Phase p) (sp_AccountJID p) (sp_SyncType p) n (sp_Progress p) (sp_CutoffAt p)
    (sp_Chunks p) (sp_Batches p) (sp_Conversations p) (sp_Messages p) (sp_Skipped p) (sp_Error p).

Definition applyDelta (run : HistoryRun) (d : HistoryRunDelta) : HistoryRun :=
  MkHistoryRun (hr_RunID run) (hr_SessionID run) (hr_OrganizationID run) (hr_AccountJID run) (hr_Status run) (hr_CutoffMs run)
    (hd_SyncType d) (default (hr_Progress run) (hd_Progress d)) (hr_Chunks run + 1) (hr_Batches run + hd_Batches d)
    (hr_Conversations run + hd_Conversations d) (hr_Messages run + hd_Messages d) (hr_Skipped run + hd_Skipped d)
    (hr_Error run) (hr_FinalEmitted run) (hr_StartedAt run) (hr_UpdatedAt run) (hr_EndedAt run).

Definition publish (session organization id typ : string) (payload : history_payload) : prog (option goerr) :=
  now ← do Now;
  do (SinkPublish (MkHistoryEvent Schema id typ session organization (UnixMilli now) payload)).

Definition postpone (row : HistoryInboxRow) (attempts delay : Z) (reason : string) : prog unit :=
  now ← do Now;
  do (Store (CPostpone (hi_ID row) attempts (now + delay) reason));;
  mret tt.

Definition finish (row : HistoryInboxRow) (status reason : string) (delta : option HistoryRunDelta) : prog bool :=
  r ← do (Store (CFinish (hi_ID row) status reason delta));
  mret (match r with inl _ => false | inr _ => true end).

Definition deleteMedia (row : HistoryInboxRow) (notif : N) : prog unit :=
  if bool_decide (nl_DirectPath notif = "") then mret tt else do (DeleteMedia (hi_SessionID row) notif);; mret tt.

(** The loop of [backoff]; each round doubles. *)
Fixpoint backoff_loop (rounds : nat) (d : Z) : Z :=
  match rounds with
  | O => d
  | S rounds => if d <? maxBackoff then backoff_loop rounds (d * 2) else d
  end.
Definition backoff (attempts : Z) : Z := Z.min (backoff_loop (Z.to_nat (attempts - 1)) (5 * Second)) maxBackoff.

Definition permanentDownloadError (err : goerr) : bool :=
  errors_is ErrInvalidMediaHMAC err || errors_is ErrInvalidMediaSHA256 err || errors_is ErrNoURLPresent err ||
  contains "decompress" (error_text err) || contains "failed to unmarshal" (error_text err).

(** [pace]. *)
Fixpoint wait_pressure (polls : nat) : prog (option goerr) :=
  match polls with
  | O => mret (Some Canceled)
  | S polls =>
      paused ← do Paused;
      if paused : bool then
        err ← do (Sleep Second);
        match err with Some e => mret (Some e) | None => wait_pressure polls end
      else mret None
  end.
Definition pace (session : string) : prog (option goerr) :=
  held ← (if wc_Paused cfg then wait_pressure patience else mret None);
  match held with
  | Some e => mret (Some e)
  | None =>
      last ← do (LastBatch session);
      now ← do Now;
      let wait := TimeSub (last + wc_BatchInterval cfg) now in
      err ← (if 0 <? wait then do (Sleep wait) else mret None);
      match err with
      | Some e => mret (Some e)
      | None => now ← do Now; do (SetLastBatch session now);; mret None
      end
  end.

(** *** One notification *)

Definition ensureRun (row : HistoryInboxRow) : prog (goerr + HistoryRun) :=
  active ← do (Store (CActiveRun (hi_SessionID row) (hi_AccountJID row)));
  match active with
  | inl err => mret (inl err)
  | inr (Some run) => mret (inr run)
  | inr None =>
      let id := RunID (hi_NotifiedAt row) (hi_SessionID row) (hi_NotificationID row) in
      now ← do Now;
      created ← do (Store (CCreateRun (MkHistoryRun id (hi_SessionID row) (hi_OrganizationID row) (hi_AccountJID row) ""
                      (hi_CutoffMs row) "" 0 0 0 0 0 0 "" false now zero_time zero_time)));
      match created with
      | inl err => mret (inl err)
      | inr _ =>
          found ← do (Store (CRunByID id));
          mret (match found with
                | inl err => inl err
                | inr None => inl (ErrMsg "history run vanished after create")
                | inr (Some run) => inr run
                end)
      end
  end.

Definition completes (res : Result) : bool :=
  bool_decide (re_SyncType res = if wc_FullSync cfg then HistorySyncFull else HistorySyncRecent) &&
  match re_Progress res with Some p => 100 <=? p | None => false end.

Definition downloadFailed (row : HistoryInboxRow) (notif : N) (err : goerr) : prog unit :=
  if errors_is ErrMediaDownloadFailedWith404 err || errors_is ErrMediaDownloadFailedWith410 err then
    (if hi_ServerErrorSent row then mret tt
     else sent ← do (SendServerError (hi_SessionID row) (hi_NotificationID row) notif);
          match sent with
          | Some _ => mret tt
          | None => do (Store (CMarkErrorSent (hi_ID row)));; mret tt
          end);;
    finish row HistoryFailed "history blob expired on WhatsApp servers" None;;
    mret tt
  else if permanentDownloadError err then finish row HistoryFailed (error_text err) None;; mret tt
  else
    now ← do Now;
    if wc_RetryFor cfg <=? TimeSub now (hi_CreatedAt row) then
      finish row HistoryFailed (error_text err) None;;
      run ← do (Store (CActiveRun (hi_SessionID row) (hi_AccountJID row)));
      match run with
      | inr (Some run) =>
          do (Store (CEndRun (hr_RunID run) HistoryRunFailed ("history download kept failing: " +:+ error_text err)));;
          mret tt
      | _ => mret tt
      end
    else postpone row (hi_Attempts row + 1) (backoff (hi_Attempts row + 1)) (error_text err).

Definition input_of (row : HistoryInboxRow) (runID : string) : Input :=
  MkInput (hi_SessionID row) (hi_NotificationID row) (hi_NotifiedAt row) runID (hi_AccountJID row) (hi_CutoffMs row).

(** The loop over the batches, from the [i]th; whether it ran to the end. *)
Fixpoint publish_batches (row : HistoryInboxRow) (i : Z) (batches : list Batch) : prog bool :=
  match batches with
  | [] => mret true
  | batch :: rest =>
      paced ← pace (hi_SessionID row);
      match paced with
      | Some _ => mret false
      | None =>
          err ← publish (hi_SessionID row) (hi_OrganizationID row) (ba_EventID batch) EventHistoryBatch (BatchPayload (ba_Payload batch));
          match err with
          | Some e => postpone row (hi_Attempts row) waitForSession (error_text e);; mret false
          | None => do (Store (CCursor (hi_ID row) (i + 1)));; publish_batches row (i + 1) rest
          end
      end
  end.

Definition delta_of (run : HistoryRun) (res : Result) : HistoryRunDelta :=
  MkHistoryRunDelta (hr_RunID run) (re_SyncType res) (re_Progress res) (len (re_Batches res)) (re_Conversations res)
    (re_Messages res) (re_Skipped res).

(** [process] once the blob is there and a run is: publish, count, finish. *)
Definition import (row : HistoryInboxRow) (notif : N) (blob : B) (run : HistoryRun) : prog unit :=
  started ← (if hr_Chunks run =? 0 then
               publish (hr_SessionID run) (hr_OrganizationID run)
                 (EventID (hr_StartedAt run) [hr_SessionID run; hr_RunID run; HistoryPhaseStarted]) EventHistorySync
                 (SyncPayload (lifecycle run HistoryPhaseStarted))
             else mret None);
  match started with
  | Some e => postpone row (hi_Attempts row) waitForSession (error_text e)
  | None =>
      let res := Convert (input_of row (hr_RunID run)) blob in
      all ← publish_batches row (hi_BatchesDone row) (skipn (Z.to_nat (hi_BatchesDone row)) (re_Batches res));
      if negb all then mret tt
      else
        let delta := delta_of run res in
        let progress := with_chunk_order (re_ChunkOrder res) (lifecycle (applyDelta run delta) HistoryPhaseProgress) in
        err ← publish (hi_SessionID row) (hi_OrganizationID row)
                (EventID (hi_NotifiedAt row) [hi_SessionID row; hi_NotificationID row; HistoryPhaseProgress]) EventHistorySync
                (SyncPayload progress);
        match err with
        | Some e => postpone row (hi_Attempts row) waitForSession (error_text e)
        | None =>
            finished ← finish row HistoryDone "" (Some delta);
            if negb finished then mret tt
            else
              deleteMedia row notif;;
              if completes res then
                pending ← do (Store (CHasPending (hi_SessionID row)));
                match pending with
                | inr false => do (Store (CEndRun (hr_RunID run) HistoryRunCompleted ""));; mret tt
                | _ => mret tt
                end
              else mret tt
        end
  end.

Definition process (row : HistoryInboxRow) : prog unit :=
  c ← do (GetClient (hi_SessionID row));
  if negb (sc_known c) then finish row HistoryDiscarded "session is no longer on this gateway" None;; mret tt
  else if negb (bool_decide (sc_account c = "")) && negb (bool_decide (hi_AccountJID row = "")) &&
          negb (bool_decide (sc_account c = hi_AccountJID row)) then
    finish row HistoryDiscarded "device is linked to another account" None;; mret tt
  else
    owned ← (if negb (sc_connected c) then mret false
             else if wc_Owns cfg then do (Owns (hi_OrganizationID row) (hi_SessionID row)) else mret true);
    if negb owned then
      postpone row (hi_Attempts row) waitForSession "waiting for the session to be connected and owned"
    else match nl_Unmarshal (hi_Notification row) with
    | inl _ => finish row HistoryFailed "stored notification is undecodable" None;; mret tt
    | inr notif =>
        downloaded ← do (Download (hi_SessionID row) notif);
        match downloaded with
        | inl err => downloadFailed row notif err
        | inr blob =>
            if negb (hi_ImportEnabled row) then
              finish row HistoryDone "" None;; deleteMedia row notif
            else
              run ← ensureRun row;
              match run with
              | inl err => postpone row (hi_Attempts row + 1) (backoff (hi_Attempts row + 1)) (error_text err)
              | inr run => import row notif blob run
              end
        end
    end.

(** *** One pass *)

Definition emitFinal (run : HistoryRun) : prog unit :=
  c ← do (GetClient (hr_SessionID run));
  mark ← (if sc_known c then
            let phase := if bool_decide (hr_Status run = HistoryRunFailed) then HistoryPhaseFailed else HistoryPhaseCompleted in
            err ← publish (hr_SessionID run) (hr_OrganizationID run)
                    (EventID (hr_StartedAt run) [hr_SessionID run; hr_RunID run; phase]) EventHistorySync
                    (SyncPayload (lifecycle run phase));
            match err with
            | None => mret true
            | Some _ => now ← do Now; mret (negb (TimeSub now (hr_EndedAt run) <? emitGiveUp))
            end
          else mret true);
  if mark : bool then do (Store (CMarkEmitted (hr_RunID run)));; mret tt else mret tt.
Definition emitFinals : prog unit :=
  runs ← do (Store CUnemitted);
  match runs with inl _ => mret tt | inr runs => each emitFinal runs end.

Definition completeIdle : prog unit :=
  now ← do Now;
  runs ← do (Store (CIdle (now - wc_IdleComplete cfg)));
  match runs with
  | inl _ => mret tt
  | inr runs =>
      each (fun run => do (Store (CEndRun (hr_RunID run) HistoryRunCompleted ""));; mret tt) runs;;
      if is_nil runs then mret tt else emitFinals
  end.

(** The rows that are due, the first of each session only, and the earliest
    attempt that is not. *)
Fixpoint due_rows (now : GoTime) (seen : gset string) (nextDue : GoTime) (due : list HistoryInboxRow) (rows : list HistoryInboxRow)
  : list HistoryInboxRow * GoTime :=
  match rows with
  | [] => (due, nextDue)
  | row :: rows =>
      if decide (hi_SessionID row ∈ seen) then due_rows now seen nextDue due rows
      else
        let seen := {[hi_SessionID row]} ∪ seen in
        if After (hi_NextAttemptAt row) now then
          due_rows now seen (if IsZero nextDue || Before (hi_NextAttemptAt row) nextDue then hi_NextAttemptAt row else nextDue) due rows
        else due_rows now seen nextDue (if len due <? wc_Concurrency cfg then due ++ [row] else due) rows
  end.

(** [tick] up to the goroutines it starts: the rows they process, and [nextDue]. *)
Definition tick : prog (list HistoryInboxRow * GoTime) :=
  emitFinals;;
  completeIdle;;
  now ← do Now;
  pruned ← do LastPrune;
  (if Hour <? TimeSub now pruned then do (SetLastPrune now);; do (Store (CPrune now));; mret tt else mret tt);;
  rows ← do (Store CPending);
  match rows with
  | inl _ => mret ([], now + waitForSession)
  | inr rows => mret (due_rows now ∅ zero_time [] rows)
  end.

(** How long [Run] waits after a pass that had nothing to do. *)
Definition run_delay (nextDue now : GoTime) : Z :=
  if IsZero nextDue then waitForSession else Z.min (Z.max (TimeSub nextDue now) (10 * 1000000)) waitForSession.
End Programs.

Arguments Ret {N B A} a.
Arguments Call {N B A R} c k.
