(* ===== verification/HistorySystem.v ===== *)
(** The history worker as a concurrent system: the world its calls act on, the
    goroutines of the process as threads that take one call at a time, and crashes
    of the process, which keep the journal only. Over it, an invariant of the world
    and rely-guarantee reasoning for the threads. *)
From S2P Require Import Prelude Journal Domain HistoryInbox HistoryConvert HistoryWorker.
From stdpp Require Import pretty.

#[local] Open Scope Z_scope.

(** Clock, SQLite, sink and WhatsApp client. *)
Class WorkerEnv (X N B : Type) := {
  we_now : X -> GoTime * X;
  we_faults : X -> list (option goerr) * X;
  we_client : string -> X -> session_client * X;
  we_owns : string -> string -> X -> bool * X;
  we_days : string -> X -> option Z * X;
  we_paused : X -> bool * X;
  we_sleep : Z -> X -> option goerr * X;
  we_publish : history_event -> X -> option goerr * X;
  we_download : string -> N -> X -> (goerr + B) * X;
  we_receipt : string -> string -> X -> option goerr * X;
  we_server_error : string -> string -> N -> X -> option goerr * X;
  we_delete : string -> N -> X -> option goerr * X;
}.

(** What an observer sees: a notification stored, one that is no longer pending,
    a receipt to the phone, an event handed to the sink and its answer, a blob
    downloaded, a row finished, a run created. *)
Inductive hevent {B : Type} :=
  | Kept (session notification : string)
  | Settled (session notification status : string)
  | Receipt (session notification : string) (err : option goerr)
  | Published (ev : history_event) (err : option goerr)
  | Downloaded (session : string) (blob : B)
  | Finished (id : Z) (delta : option HistoryRunDelta)
  | Created (runID : string).
Arguments hevent : clear implicits.

Section System.
Context {N B X : Type} `{NL : NotificationLib N} `{WE : WhatsmeowErrors} `{J : JSONLen} `{L : BlobLib B} `{I : EventIDLib}
  `{E : WorkerEnv X N B}.
Variables (cfg : WorkerConfig) (patience : nat).

Record world := MkWorld {
  hw_db : hdb;
  hw_env : X;
  hw_lastBatch : gmap string GoTime;
  hw_lastPrune : GoTime;
  hw_trace : list (hevent B);
}.
Definition set_env (x : X) (w : world) : world := MkWorld (hw_db w) x (hw_lastBatch w) (hw_lastPrune w) (hw_trace w).
Definition set_db (s : hdb) (w : world) : world := MkWorld s (hw_env w) (hw_lastBatch w) (hw_lastPrune w) (hw_trace w).
Definition set_lastBatch (m : gmap string GoTime) (w : world) : world :=
  MkWorld (hw_db w) (hw_env w) m (hw_lastPrune w) (hw_trace w).
Definition set_lastPrune (t : GoTime) (w : world) : world :=
  MkWorld (hw_db w) (hw_env w) (hw_lastBatch w) t (hw_trace w).
Definition log (l : list (hevent B)) (w : world) : world :=
  MkWorld (hw_db w) (hw_env w) (hw_lastBatch w) (hw_lastPrune w) (hw_trace w ++ l).

(** *** Calls *)

(** What a statement changed, seen from outside. *)
Definition settled_events (s s' : hdb) : list (hevent B) :=
  omap (fun r =>
    if is_pending r then
      r' ← List.find (fun r' => in_id r' =? in_id r) (h_inbox s');
      if is_pending r' then None else Some (Settled (in_session r) (in_notification_id r) (in_status r'))
    else None) (h_inbox s).
Definition created_events (s s' : hdb) : list (hevent B) :=
  omap (fun r => if existsb (fun o => bool_decide (ru_run_id o = ru_run_id r)) (h_runs s) then None
                 else Some (Created (ru_run_id r))) (h_runs s').
Definition own_events {A} (c : store_call A) (r : goerr + A) : list (hevent B) :=
  match r with
  | inl _ => []
  | inr _ =>
      match c with
      | CEnqueue row => [Kept (hi_SessionID row) (hi_NotificationID row)]
      | CFinish id _ _ delta => [Finished id delta]
      | _ => []
      end
  end.

Definition perform_store {A} (c : store_call A) (w : world) : (goerr + A) * world :=
  let '(fs, x) := we_faults (hw_env w) in
  let '(now, x) := we_now x in
  let '(r, d) := store_run c (UnixMilli now) (Db (hw_db w) fs) in
  (r, log (settled_events (hw_db w) (rows d) ++ created_events (hw_db w) (rows d) ++ own_events c r)
        (set_db (rows d) (set_env x w))).

Definition ask {A} (f : X -> A * X) (w : world) : A * world := let '(a, x) := f (hw_env w) in (a, set_env x w).
(** An answer that is logged. *)
Definition ask_log {A} (f : X -> A * X) (ev : A -> list (hevent B)) (w : world) : A * world :=
  let '(a, x) := f (hw_env w) in (a, log (ev a) (set_env x w)).

Definition perform {R} (c : call (N:=N) (B:=B) R) : world -> R * world :=
  match c in call R return world -> R * world with
  | Store c => perform_store c
  | Now => ask we_now
  | GetClient session => ask (we_client session)
  | Owns organization session => ask (we_owns organization session)
  | Days session => ask (we_days session)
  | Paused => ask we_paused
  | Sleep d => ask (we_sleep d)
  | SinkPublish ev => ask_log (we_publish ev) (fun err => [Published ev err])
  | Download session notif => ask_log (we_download session notif)
      (fun r => match r with inr blob => [Downloaded session blob] | inl _ => [] end)
  | SendReceipt session message => ask_log (we_receipt session message) (fun err => [Receipt session message err])
  | SendServerError session message notif => ask (we_server_error session message notif)
  | DeleteMedia session notif => ask (we_delete session notif)
  | LastBatch session => fun w => (default zero_time (hw_lastBatch w !! session), w)
  | SetLastBatch session t => fun w => (tt, set_lastBatch (<[session := t]> (hw_lastBatch w)) w)
  | LastPrune => fun w => (hw_lastPrune w, w)
  | SetLastPrune t => fun w => (tt, set_lastPrune t w)
  end.

(** *** Threads *)

Abbreviation thread := (prog (N:=N) (B:=B)).

(** One call of a thread; a thread that has returned does nothing. *)
Definition advance {A} (p : thread A) (w : world) : thread A * world :=
  match p with
  | Ret a => (Ret a, w)
  | Call c k => let '(r, w) := perform c w in (k r, w)
  end.
Definition returned {A} (p : thread A) : bool := match p with Ret _ => true | Call _ _ => false end.

(** [Run] is in a pass, or waits for the goroutines the pass has started. *)
Inductive run_phase :=
  | Ticking (p : thread (list HistoryInboxRow * GoTime))
  | Working (ps : list (thread unit)).

Record sys := MkSys { sy_world : world; sy_run : run_phase; sy_calls : list (thread unit) }.

(** The methods other goroutines call. *)
Inductive entry :=
  | EnAccept (connected : bool) (n : Intercepted N)
  | EnPaired (session account : string)
  | EnDiscard (session reason : string).
Definition entry_prog (e : entry) : thread unit :=
  match e with
  | EnAccept connected n => Accept cfg connected n;; mret tt
  | EnPaired session account => Paired session account
  | EnDiscard session reason => Discard session reason
  end.

Inductive label :=
  | LRun               (* [Run]'s goroutine: a call of the pass, the fork, or the join *)
  | LWork (i : nat)    (* a call of the [i]th goroutine of the pass *)
  | LSpawn (e : entry) (* another goroutine calls the worker *)
  | LCall (i : nat)    (* a call of it *)
  | LCrash.            (* the process dies and starts again *)

Definition step_run (s : sys) : sys :=
  match sy_run s with
  | Ticking (Ret (due, _)) => MkSys (sy_world s) (Working (process cfg patience <$> due)) (sy_calls s)
  | Ticking p => let '(p, w) := advance p (sy_world s) in MkSys w (Ticking p) (sy_calls s)
  | Working ps => if forallb returned ps then MkSys (sy_world s) (Ticking (tick cfg)) (sy_calls s) else s
  end.

Definition step_thread (i : nat) (ps : list (thread unit)) (w : world) : list (thread unit) * world :=
  match ps !! i with
  | Some p => let '(p, w) := advance p w in (<[i := p]> ps, w)
  | None => (ps, w)
  end.

Definition restart (w : world) : world := MkWorld (hw_db w) (hw_env w) ∅ zero_time (hw_trace w).

Definition step (l : label) (s : sys) : sys :=
  match l with
  | LRun => step_run s
  | LWork i =>
      match sy_run s with
      | Working ps => let '(ps, w) := step_thread i ps (sy_world s) in MkSys w (Working ps) (sy_calls s)
      | Ticking _ => s
      end
  | LSpawn e => MkSys (sy_world s) (sy_run s) (sy_calls s ++ [entry_prog e])
  | LCall i => let '(ps, w) := step_thread i (sy_calls s) (sy_world s) in MkSys w (sy_run s) ps
  | LCrash => MkSys (restart (sy_world s)) (Ticking (tick cfg)) []
  end.

Definition steps (ls : list label) (s : sys) : sys := foldl (fun s l => step l s) s ls.

(** An empty journal and a process that has just started. *)
Definition empty_hdb : hdb := MkHdb [] 1 [].
Definition start (x : X) : sys := MkSys (MkWorld empty_hdb x ∅ zero_time []) (Ticking (tick cfg)) [].
End System.
