(* ===== verification/HistorySpec.v ===== *)
(** What the history worker promises, whatever the phone, the API, SQLite and the
    scheduler do. An acknowledged notification is in the inbox until it is done,
    failed or discarded; a notification that is done has had its history handed to
    the sink; a run counts each of its notifications once. *)
From S2P Require Import Prelude Journal Domain HistoryInbox HistoryConvert HistoryWorker HistorySystem.
From stdpp Require Import pretty.

#[local] Open Scope Z_scope.

Create HintDb silence.

(** ** What a store call does to the tables *)

Definition prune_inbox (t : GoTime) (s : hdb) : hdb :=
  set_inbox (List.filter (fun r => negb (prunable_row (UnixMilli (t - historyRetention * 1000000)) r)) (h_inbox s)) s.
Definition prune_runs (t : GoTime) (s : hdb) : hdb :=
  set_runs (List.filter (fun r => negb (prunable_run (UnixMilli (t - historyRetention * 1000000)) r)) (h_runs s)) s.

Definition effect {A} (c : store_call A) (now : Z) (s : hdb) : hdb :=
  match c with
  | CEnqueue row => (insert_inbox row now s).2
  | CPostpone id attempts next errText =>
      on_inbox (fun r => (in_id r =? id) && is_pending r) (set_attempt attempts (UnixMilli next) errText now) s
  | CCursor id batchesDone => on_inbox (fun r => in_id r =? id) (set_cursor batchesDone now) s
  | CMarkErrorSent id => on_inbox (fun r => in_id r =? id) (set_error_sent now) s
  | CFinish id status errText delta =>
      let s := on_inbox (fun r => (in_id r =? id) && is_pending r) (set_status status errText now) s in
      match delta with
      | Some d => on_runs (fun r => bool_decide (ru_run_id r = hd_RunID d)) (add_delta d now) s
      | None => s
      end
  | CDiscard session keepAccount reason =>
      on_inbox (to_discard session keepAccount) (set_status HistoryDiscarded reason now) s
  | CCreateRun run => insert_run run s
  | CEndRun runID status errText =>
      on_runs (fun r => bool_decide (ru_run_id r = runID) && is_running r) (end_run status errText now) s
  | CEndRuns session keepAccount status errText =>
      on_runs (fun r => bool_decide (ru_session r = session) && is_running r && not_kept keepAccount (ru_account r))
        (end_run status errText now) s
  | CMarkEmitted runID => on_runs (fun r => bool_decide (ru_run_id r = runID)) mark_emitted s
  | CPrune t => prune_runs t (prune_inbox t s)
  | _ => s
  end.

(** Between the two statements of a prune. *)
Definition half_done {A} (c : store_call A) (s s' : hdb) : Prop :=
  match c with CPrune t => s' = prune_inbox t s | _ => False end.

Definition at_rows (s : hdb) (d : db hdb) : Prop := rows d = s.

Lemma exec_at {A} g (f : hdb -> A * hdb) s :
  triple (at_rows s) (map_err g (exec f)) (fun _ => at_rows (f s).2) (at_rows s).
Proof. apply triple_map_err. apply (triple_exec (fun s' => s' = s) f (fun _ s' => s' = (f s).2) (fun s' => s' = s)). by intros ? ->. Qed.
Lemma exec_at' {A} g (f : hdb -> A * hdb) s :
  triple (at_rows s) (map_err g (exec f)) (fun _ => at_rows (f s).2) (fun _ => True).
Proof. eapply triple_weaken; [apply exec_at|done..]. Qed.
Lemma query_at {A} g (f : hdb -> A) s :
  triple (at_rows s) (map_err g (query f)) (fun a d => at_rows s d /\ a = f s) (at_rows s).
Proof.
  apply triple_map_err. eapply triple_weaken; [apply (triple_query (fun s' => s' = s))|done| |done].
  intros a d [Hd ->]. by rewrite Hd.
Qed.
Lemma query_at' {A C} g (f : hdb -> A) (h : A -> C) s :
  triple (at_rows s) (x ← map_err g (query f); mret (h x)) (fun a d => at_rows s d /\ a = h (f s)) (at_rows s).
Proof. eapply triple_bind; [apply query_at|]. intros a. apply triple_ret. by intros d [? ->]. Qed.
Lemma reads {A} (m : M (db hdb) A) (a : A) s :
  triple (at_rows s) m (fun x d => at_rows s d /\ x = a) (at_rows s) ->
  triple (at_rows s) m (fun _ => at_rows s) (at_rows s).
Proof. intros H. eapply triple_weaken; [exact H|done| |done]. by intros x d []. Qed.

(** A store call that returns nil has had its effect; one that fails, none. *)
Lemma store_run_effect {A} (c : store_call A) now s :
  triple (at_rows s) (store_run c now) (fun _ => at_rows (effect c now s)) (fun d => rows d = s \/ half_done c s (rows d)).
Proof.
  assert (H : triple (at_rows s) (store_run c now) (fun _ => at_rows (effect c now s))
    (match c with CPrune _ => fun d => rows d = s \/ half_done c s (rows d) | _ => at_rows s end)).
  2:{ eapply triple_weaken; [exact H|done..|]. intros w. destruct c; auto. }
  destruct c; cbn [store_run effect]; try exact (exec_at _ _ s); try (eapply reads; exact (query_at _ _ s));
    try (eapply reads; exact (query_at' _ _ _ s)).
  - unfold EnqueueHistory. destruct (_ || _); [by apply triple_throw|]. exact (exec_at _ _ s).
  - eapply triple_bind; [eapply reads; exact (query_at _ _ s)|]. intros [].
    apply (triple_with_rollback (fun s' => s' = s) _ _ (fun _ => True)).
    eapply triple_bind; [exact (exec_at' _ _ s)|]. intros []. cbn [snd].
    eapply triple_bind with (R := fun _ => at_rows (effect (CFinish id status errText delta) now s)).
    + destruct delta as [d|]; [exact (exec_at' _ _ _)|by apply triple_ret].
    + intros []. eapply triple_weaken; [eapply reads; exact (query_at _ _ _)|done..].
  - apply (triple_bind _ _ _ (fun _ => at_rows (prune_inbox now0 s))).
    + eapply triple_weaken; [exact (exec_at _ _ s)|done..|]. intros w H. by left.
    + intros []. eapply triple_weaken; [exact (exec_at _ _ (prune_inbox now0 s))|done..|]. intros w H. by right.
Qed.

(** ** How rows change *)

(** The columns no statement changes. *)
Definition frame (r : inbox_row) : Z * string * string * string * bytes * Z * Z * bool :=
  (in_id r, in_session r, in_notification_id r, in_account r, in_notification r, in_notified_at r, in_cutoff_at r, in_import_enabled r).

(** The same row later: a row that left pending keeps its status. *)
Definition row_later (r r' : inbox_row) : Prop :=
  frame r' = frame r /\ (is_pending r = false -> in_status r' = in_status r).

#[export] Instance row_later_preorder : PreOrder row_later.
Proof.
  split; [done|]. intros a b c [Hf Hs] [Hf' Hs']. split; [congruence|]. intros Ha.
  rewrite Hs' by (unfold is_pending in *; by rewrite (Hs Ha)). auto.
Qed.

Lemma row_later_id r r' : row_later r r' -> in_id r' = in_id r.
Proof. intros [[=] _]. done. Qed.
Lemma row_later_key r r' : row_later r r' -> in_session r' = in_session r /\ in_notification_id r' = in_notification_id r.
Proof. intros [[=] _]. done. Qed.

(** Every row comes from a row, or is new. *)
Definition evolves (s s' : hdb) : Prop :=
  h_next s <= h_next s' /\
  forall r', r' ∈ h_inbox s' -> (exists r, r ∈ h_inbox s /\ row_later r r') \/ h_next s <= in_id r'.

#[export] Instance evolves_preorder : PreOrder evolves.
Proof.
  split.
  - intros s. split; [lia|]. intros r Hr. left. by exists r.
  - intros a b c [Hn Hb] [Hn' Hc]. split; [lia|]. intros r Hr. destruct (Hc r Hr) as [(r1 & Hr1 & Hl)|]; [|right; lia].
    destruct (Hb r1 Hr1) as [(r0 & Hr0 & Hl0)|]; [left; exists r0; split; [done|by etrans]|right]. rewrite (row_later_id _ _ Hl). lia.
Qed.

Lemma elem_update_where {A} (p : A -> bool) f l (x : A) :
  x ∈ update_where p f l <-> exists y, y ∈ l /\ x = if p y then f y else y.
Proof. unfold update_where. rewrite list_elem_of_fmap. firstorder. Qed.

(** ** Well-formed tables *)

Record table_ok (s : hdb) : Prop := {
  to_ids : NoDup (in_id <$> h_inbox s);
  to_next : forall r, r ∈ h_inbox s -> in_id r < h_next s;
  to_runs : NoDup (ru_run_id <$> h_runs s);
}.

Lemma fmap_update_where {A C} (g : A -> C) p f l : (forall x, g (f x) = g x) -> g <$> update_where p f l = g <$> l.
Proof. intros Hf. unfold update_where. rewrite <- list_fmap_compose. apply list_fmap_ext. intros i x _. cbn. by destruct (p x). Qed.

Lemma filter_fmap_sublist {A C} (g : A -> C) p l : g <$> List.filter p l `sublist_of` g <$> l.
Proof. induction l as [|x l IH]; cbn; [constructor|]. destruct (p x); by constructor. Qed.

Lemma on_inbox_ok p f s : (forall r, in_id (f r) = in_id r) -> table_ok s -> table_ok (on_inbox p f s).
Proof.
  intros Hf [Hi Hn Hr]. split; cbn; [by rewrite fmap_update_where| |done].
  intros r (y & Hy & ->)%elem_update_where. destruct (p y); rewrite ?Hf; auto.
Qed.
Lemma on_runs_ok p f s : (forall r, ru_run_id (f r) = ru_run_id r) -> table_ok s -> table_ok (on_runs p f s).
Proof. intros Hf [Hi Hn Hr]. split; cbn; [done|done|]. by rewrite fmap_update_where. Qed.
Lemma prune_inbox_ok t s : table_ok s -> table_ok (prune_inbox t s).
Proof.
  intros [Hi Hn Hr]. split; cbn; [eapply sublist_NoDup; [exact Hi|apply filter_fmap_sublist]| |done].
  intros r [Hin _]%list_elem_of_In%filter_In. by apply Hn, list_elem_of_In.
Qed.

Lemma effect_ok {A} (c : store_call A) now s : table_ok s -> table_ok (effect c now s).
Proof.
  intros Hs. destruct c; cbn [effect]; try done; try (by apply on_inbox_ok); try (by apply on_runs_ok).
  - unfold insert_inbox. destruct (existsb _ _); [done|]. destruct Hs as [Hi Hn Hr]. split; cbn; [| |done].
    + rewrite fmap_app. apply NoDup_app. split; [done|]. split; [|apply NoDup_singleton].
      intros x (r & -> & Hr')%list_elem_of_fmap Hx%list_elem_of_singleton. specialize (Hn r Hr'). cbn in Hx. lia.
    + intros r [Hr'| ->%list_elem_of_singleton]%elem_of_app; [specialize (Hn r Hr')|cbn]; lia.
  - destruct delta; [apply on_runs_ok; [done|]|]; by apply on_inbox_ok.
  - unfold insert_run. destruct (existsb _ _) eqn:He; [done|]. destruct Hs as [Hi Hn Hr]. split; cbn; [done|done|].
    rewrite fmap_app. apply NoDup_app. split; [done|]. split; [|apply NoDup_singleton].
    intros x (r & -> & Hr')%list_elem_of_fmap Hx%list_elem_of_singleton. cbn in Hx.
    apply not_true_iff_false in He. apply He. apply existsb_exists. exists r. rewrite <- list_elem_of_In, bool_decide_eq_true. done.
  - pose proof (prune_inbox_ok now0 s Hs) as [Hi Hn Hr]. split; cbn in *; [done|done|].
    eapply sublist_NoDup; [exact Hr|apply filter_fmap_sublist].
Qed.

Lemma half_ok {A} (c : store_call A) s s' : half_done c s s' -> table_ok s -> table_ok s'.
Proof. destruct c; cbn; try done. intros ->. apply prune_inbox_ok. Qed.

(** ** One call on the tables *)

Record totals := MkTotals { tt_chunks : Z; tt_batches : Z; tt_conversations : Z; tt_messages : Z; tt_skipped : Z }.
Definition no_totals : totals := MkTotals 0 0 0 0 0.
Definition add_totals (d : HistoryRunDelta) (t : totals) : totals :=
  MkTotals (tt_chunks t + 1) (tt_batches t + hd_Batches d) (tt_conversations t + hd_Conversations d)
    (tt_messages t + hd_Messages d) (tt_skipped t + hd_Skipped d).
Definition counts (r : run_row) : totals :=
  MkTotals (ru_chunks r) (ru_batches r) (ru_conversations r) (ru_messages r) (ru_skipped r).
Definition count_delta (run : string) (d : option HistoryRunDelta) (t : totals) : totals :=
  match d with Some d => if bool_decide (hd_RunID d = run) then add_totals d t else t | None => t end.

(** The cursor a call sets, the row it finishes, and the status and delta of that. *)
Definition cursor_call {A} (c : store_call A) : option (Z * Z) :=
  match c with CCursor id n => Some (id, n) | _ => None end.
Definition finish_call {A} (c : store_call A) : option (Z * string * option HistoryRunDelta) :=
  match c with CFinish id status _ delta => Some (id, status, delta) | _ => None end.
Definition delta_call (fin : option (Z * string * option HistoryRunDelta)) : option HistoryRunDelta := fin ≫= snd.

Record row_step (cur : option (Z * Z)) (fin : option (Z * string * option HistoryRunDelta)) (r r' : inbox_row) : Prop := {
  rs_frame : frame r' = frame r;
  rs_cursor : in_batches_done r' = in_batches_done r \/ cur = Some (in_id r, in_batches_done r');
  rs_status : in_status r' = in_status r \/
    is_pending r = true /\ (in_status r' = HistoryDiscarded \/ exists d, fin = Some (in_id r, in_status r', d));
}.

Lemma row_step_refl cur fin r : row_step cur fin r r.
Proof. split; auto. Qed.
Lemma row_step_later cur fin r r' : row_step cur fin r r' -> row_later r r'.
Proof. intros [Hf _ Hs]. split; [done|]. destruct Hs as [|[]]; [done|congruence]. Qed.

(** What one call does: rows step, stay while they are pending, and are new as
    pending rows; runs keep their counters but for the delta, and are new with none. *)
Record hstep (cur : option (Z * Z)) (fin : option (Z * string * option HistoryRunDelta)) (s s' : hdb) : Prop := {
  hs_next : h_next s <= h_next s';
  hs_from : forall r', r' ∈ h_inbox s' -> (exists r, r ∈ h_inbox s /\ row_step cur fin r r') \/
    h_next s <= in_id r' /\ is_pending r' = true /\ in_batches_done r' = 0;
  hs_keeps : forall r, r ∈ h_inbox s -> is_pending r = true -> exists r', r' ∈ h_inbox s' /\ row_step cur fin r r';
  hs_final : forall id status d, fin = Some (id, status, d) -> status <> HistoryPending ->
    forall r', r' ∈ h_inbox s' -> in_id r' = id -> is_pending r' = false;
  hs_runs : forall u', u' ∈ h_runs s' ->
    (exists u, u ∈ h_runs s /\ ru_run_id u = ru_run_id u' /\ counts u' = count_delta (ru_run_id u') (delta_call fin) (counts u)) \/
    fin = None /\ counts u' = no_totals /\ forall u, u ∈ h_runs s -> ru_run_id u <> ru_run_id u';
}.

Lemma hstep_evolves cur fin s s' : hstep cur fin s s' -> evolves s s'.
Proof.
  intros [Hn Hf _ _ _]. split; [done|]. intros r' Hr. destruct (Hf r' Hr) as [(r & Hr' & Hs)|[]]; [left|by right].
  exists r. split; [done|]. by eapply row_step_later.
Qed.

Lemma same_runs s s' : h_runs s' = h_runs s -> forall u', u' ∈ h_runs s' ->
  (exists u, u ∈ h_runs s /\ ru_run_id u = ru_run_id u' /\ counts u' = count_delta (ru_run_id u') None (counts u)) \/
  @None (Z * string * option HistoryRunDelta) = None /\ counts u' = no_totals /\ forall u, u ∈ h_runs s -> ru_run_id u <> ru_run_id u'.
Proof. intros -> u Hu. left. by exists u. Qed.

(** A call that updates rows. *)
Lemma on_inbox_hstep cur p f s : (forall r, p r = true -> row_step cur None r (f r)) -> hstep cur None s (on_inbox p f s).
Proof.
  intros Hf. assert (Hl : forall r, row_step cur None r (if p r then f r else r)).
  { intros r. destruct (p r) eqn:?; auto using row_step_refl. }
  split; [cbn; lia| | |done|by apply same_runs].
  - intros r' (r & Hr & ->)%elem_update_where. left. eauto.
  - intros r Hr _. exists (if p r then f r else r). split; [|done]. apply elem_update_where. eauto.
Qed.

(** A call that leaves the rows and changes the runs. *)
Lemma runs_hstep s s' : h_inbox s' = h_inbox s -> h_next s' = h_next s ->
  (forall u', u' ∈ h_runs s' -> (exists u, u ∈ h_runs s /\ ru_run_id u = ru_run_id u' /\ counts u' = counts u) \/
    counts u' = no_totals /\ forall u, u ∈ h_runs s -> ru_run_id u <> ru_run_id u') -> hstep None None s s'.
Proof.
  intros Hi Hn Hr. split; [lia| | |done|].
  - intros r. rewrite Hi. intros Hin. left. exists r. auto using row_step_refl.
  - intros r. rewrite Hi. intros Hin _. exists r. auto using row_step_refl.
  - intros u Hu. destruct (Hr u Hu) as [|[]]; auto.
Qed.
Lemma hstep_refl s : hstep None None s s.
Proof. apply runs_hstep; [done..|]. intros u Hu. left. by exists u. Qed.

Lemma on_runs_hstep p f s : (forall u, ru_run_id (f u) = ru_run_id u /\ counts (f u) = counts u) -> hstep None None s (on_runs p f s).
Proof.
  intros Hf. apply runs_hstep; [done..|]. cbn. intros u' (u & Hu & ->)%elem_update_where. left. exists u. split; [done|].
  destruct (Hf u). by destruct (p u).
Qed.

Lemma insert_hstep row now s : hstep None None s (insert_inbox row now s).2.
Proof.
  unfold insert_inbox. destruct (existsb _ _); cbn; [apply hstep_refl|]. split; [cbn; lia| | |done|by apply same_runs]; cbn.
  - intros r' [Hr| ->%list_elem_of_singleton]%elem_of_app; [left; exists r'; auto using row_step_refl|right; cbn; split; [lia|done]].
  - intros r Hr _. exists r. split; [set_solver|apply row_step_refl].
Qed.

Lemma finish_hstep id status errText delta now s :
  hstep None (Some (id, status, delta)) s (effect (CFinish id status errText delta) now s).
Proof.
  set (p := fun r => (in_id r =? id) && is_pending r). set (f := set_status status errText now).
  assert (Hl : forall r, row_step None (Some (id, status, delta)) r (if p r then f r else r)).
  { intros r. destruct (p r) eqn:Hp; [|apply row_step_refl]. unfold p in Hp. to_prop. split; [done|by left|]. right. split; [done|].
    right. exists delta. cbn. congruence. }
  assert (Hin : h_inbox (effect (CFinish id status errText delta) now s) = update_where p f (h_inbox s)) by by destruct delta.
  split.
  - destruct delta; cbn; lia.
  - rewrite Hin. intros r' (r & Hr & ->)%elem_update_where. left. eauto.
  - rewrite Hin. intros r Hr _. exists (if p r then f r else r). split; [|done]. apply elem_update_where. eauto.
  - intros ? ? ? [= <- <- <-] Hst. rewrite Hin. intros r' (r & Hr & ->)%elem_update_where Hid.
    destruct (p r) eqn:Hp; [by apply bool_decide_eq_false|]. unfold p in Hp. rewrite (proj2 (Z.eqb_eq _ _) Hid) in Hp. done.
  - intros u' Hu'. left. destruct delta as [d|]; [|by exists u'].
    cbn in Hu'. apply elem_update_where in Hu' as (u & Hu & ->). exists u. split; [done|]. unfold delta_call, count_delta. cbn.
    destruct (bool_decide (ru_run_id u = hd_RunID d)) eqn:He; cbn; to_prop.
    + by rewrite He, bool_decide_true.
    + by rewrite bool_decide_false by congruence.
Qed.

Lemma prune_inbox_hstep t s : hstep None None s (prune_inbox t s).
Proof.
  split; [cbn; lia| | |done|by apply same_runs]; cbn.
  - intros r [Hr _]%list_elem_of_In%filter_In. left. exists r. split; [by apply list_elem_of_In|apply row_step_refl].
  - intros r Hr Hp. exists r. split; [|apply row_step_refl]. apply list_elem_of_In, filter_In. split; [by apply list_elem_of_In|].
    unfold prunable_row. by rewrite Hp.
Qed.
Lemma prune_hstep t s : hstep None None s (prune_runs t (prune_inbox t s)).
Proof.
  destruct (prune_inbox_hstep t s) as [H1 H2 H3 H4 _]. split; [done..|]. cbn.
  intros u [Hu _]%list_elem_of_In%filter_In. left. exists u. split; [by apply list_elem_of_In|done].
Qed.

Lemma effect_hstep {A} (c : store_call A) now s : hstep (cursor_call c) (finish_call c) s (effect c now s).
Proof.
  destruct c; cbn [effect cursor_call finish_call]; try apply hstep_refl; try by apply on_runs_hstep.
  - apply insert_hstep.
  - apply on_inbox_hstep. intros r _. split; auto.
  - apply on_inbox_hstep. intros r Hr. to_prop. split; cbn; auto. right. congruence.
  - apply on_inbox_hstep. intros r _. split; auto.
  - apply finish_hstep.
  - apply on_inbox_hstep. intros r Hr. unfold to_discard, pending_of in Hr. to_prop. split; cbn; auto.
  - unfold insert_run. destruct (existsb _ _) eqn:He; [apply hstep_refl|]. apply runs_hstep; [done..|]. cbn.
    intros u' [Hu| ->%list_elem_of_singleton]%elem_of_app; [left; by exists u'|right]. split; [done|]. intros u Hu Heq.
    apply not_true_iff_false in He. apply He, existsb_exists. exists u. split; [by apply list_elem_of_In|by apply bool_decide_eq_true].
  - apply prune_hstep.
Qed.

(** A store call, whatever its answer. *)
Definition of_answer {A C} (r : goerr + A) (o : option C) : option C := match r with inl _ => None | inr _ => o end.

Lemma store_run_step {A} (c : store_call A) now s fs r d : store_run c now (Db s fs) = (r, d) -> table_ok s ->
  hstep (of_answer r (cursor_call c)) (of_answer r (finish_call c)) s (rows d) /\ table_ok (rows d).
Proof.
  intros Hrun Hs. pose proof (store_run_effect c now s (Db s fs) r d eq_refl Hrun) as He. destruct r as [e|a]; cbn.
  - destruct He as [->|Hh]; [split; [apply hstep_refl|done]|]. split; [|by eapply half_ok].
    destruct c; cbn in Hh; try done. rewrite Hh. apply prune_inbox_hstep.
  - unfold at_rows in He. rewrite He. split; [apply effect_hstep|by apply effect_ok].
Qed.

(** ** The invariant *)

Section Spec.
Context {N B X : Type} `{NL : NotificationLib N} `{WE : WhatsmeowErrors} `{J : JSONLen} `{L : BlobLib B} `{I : EventIDLib}
  `{E : WorkerEnv X N B}.
Variables (cfg : WorkerConfig) (patience : nat).
Abbreviation trace := (list (hevent B)).
Implicit Types (tr : trace).

(** The sink has taken an event with this id. *)
Definition accepted (id : string) tr : Prop := exists ev, Published ev None ∈ tr /\ he_ID ev = id.

Definition batch_id r (i : nat) : string :=
  EventID (msTime (in_notified_at r)) [in_session r; in_notification_id r; pretty (N.of_nat i)].
Definition progress_id r : string :=
  EventID (msTime (in_notified_at r)) [in_session r; in_notification_id r; HistoryPhaseProgress].

(** A blob of the session was downloaded, and the sink has taken every batch of
    its conversion for this notification, and the progress event. *)
Definition delivered r tr : Prop := exists blob runID,
  Downloaded (in_session r) blob ∈ tr /\
  (forall b, b ∈ re_Batches (Convert (input_of (scan_inbox r) runID) blob) -> accepted (ba_EventID b) tr) /\
  accepted (progress_id r) tr.

Definition finished_ids tr : list Z := omap (fun ev => match ev with Finished id _ => Some id | _ => None end) tr.

(** The deltas of a run since its row was created. *)
Definition count_event (run : string) (t : totals) (ev : hevent B) : totals :=
  match ev with
  | Created u => if bool_decide (u = run) then no_totals else t
  | Finished _ d => count_delta run d t
  | _ => t
  end.
Definition run_totals (run : string) tr : totals := foldl (count_event run) no_totals tr.

Record Inv (s : hdb) tr : Prop := {
  iv_table : table_ok s;
  iv_kept : forall session notification, Kept session notification ∈ tr ->
    (exists r, r ∈ h_inbox s /\ is_pending r = true /\ in_session r = session /\ in_notification_id r = notification) \/
    exists status, Settled session notification status ∈ tr;
  iv_settled : forall r, r ∈ h_inbox s -> is_pending r = false -> Settled (in_session r) (in_notification_id r) (in_status r) ∈ tr;
  iv_receipt : forall i session notification err, tr !! i = Some (Receipt session notification err) ->
    exists j, (j < i)%nat /\ tr !! j = Some (Kept session notification);
  iv_cursor : forall r (i : nat), r ∈ h_inbox s -> Z.of_nat i < in_batches_done r -> accepted (batch_id r i) tr;
  iv_done : forall r, r ∈ h_inbox s -> in_status r = HistoryDone -> in_import_enabled r = true -> delivered r tr;
  iv_finished : forall id, id ∈ finished_ids tr -> id < h_next s /\ forall r, r ∈ h_inbox s -> in_id r = id -> is_pending r = false;
  iv_once : NoDup (finished_ids tr);
  iv_counters : forall u, u ∈ h_runs s -> counts u = run_totals (ru_run_id u) tr;
}.

(** Facts of a trace last. *)
Lemma accepted_mono id tr tr' : tr ⊆ tr' -> accepted id tr -> accepted id tr'.
Proof. intros Hs (ev & Hin & Hid). exists ev. auto. Qed.
Lemma delivered_mono r tr tr' : tr ⊆ tr' -> delivered r tr -> delivered r tr'.
Proof.
  intros Hs (blob & runID & Hd & Hb & Hp). exists blob, runID. split; [auto|]. split; [|by eapply accepted_mono].
  intros b Hin. eapply accepted_mono; [exact Hs|auto].
Qed.

(** They are about the columns that do not change. *)
Lemma frame_batch_id r r' i : frame r' = frame r -> batch_id r' i = batch_id r i.
Proof. intros [=]. unfold batch_id. congruence. Qed.
Lemma frame_delivered r r' tr : frame r' = frame r -> delivered r tr -> delivered r' tr.
Proof.
  intros Hf. assert (Hi : forall runID, input_of (scan_inbox r') runID = input_of (scan_inbox r) runID).
  { injection Hf as Hid Hs Hn Ha Hno Hat Hc Hi. intros runID. unfold input_of, scan_inbox. cbn. congruence. }
  intros (blob & runID & Hd & Hb & Hp). exists blob, runID. rewrite Hi.
  assert (Hs : in_session r' = in_session r) by (by injection Hf).
  assert (Hpr : progress_id r' = progress_id r) by (injection Hf as Hid Hs' Hn Ha Hno Hat Hc Hi'; unfold progress_id; congruence).
  rewrite Hs, Hpr. done.
Qed.

Lemma finished_ids_app tr tr' : finished_ids (tr ++ tr') = finished_ids tr ++ finished_ids tr'.
Proof. apply omap_app. Qed.
Lemma run_totals_app run tr tr' : run_totals run (tr ++ tr') = foldl (count_event run) (run_totals run tr) tr'.
Proof. apply foldl_app. Qed.

(** ** Calls that only log *)

(** Events that say nothing of the tables. *)
Definition neutral tr (ev : hevent B) : Prop :=
  match ev with
  | Published _ _ | Downloaded _ _ => True
  | Receipt session notification _ => Kept session notification ∈ tr
  | _ => False
  end.

Lemma Inv_log s tr ev : neutral tr ev -> Inv s tr -> Inv s (tr ++ [ev]).
Proof.
  intros Hn [H1 H2 H3 H4 H5 H6 H7 H8 H9]. assert (Hsub : tr ⊆ tr ++ [ev]) by set_solver.
  split; [done| | | | | | | |].
  - intros a b [Hin|Hin%list_elem_of_singleton]%elem_of_app; [|by subst].
    destruct (H2 a b Hin) as [|(st & Hst)]; [by left|right]. exists st. auto.
  - auto.
  - intros i a b e [Hl|[Hge Hl]]%lookup_app_Some.
    + destruct (H4 i a b e Hl) as (j & Hj & Hk). exists j. split; [done|by apply lookup_app_l_Some].
    + destruct (i - length tr)%nat eqn:Hd; [|done]. injection Hl as ->. apply list_elem_of_lookup in Hn as (j & Hj).
      exists j. split; [apply lookup_lt_Some in Hj; lia|by apply lookup_app_l_Some].
  - intros r i Hr Hi. eapply accepted_mono; eauto.
  - intros r Hr Hd Hi. eapply delivered_mono; eauto.
  - intros id. rewrite finished_ids_app. destruct ev; cbn in *; rewrite ?app_nil_r; done || apply H7.
  - rewrite finished_ids_app. destruct ev; cbn in *; rewrite ?app_nil_r; done.
  - intros u Hu. rewrite run_totals_app, (H9 u Hu). by destruct ev.
Qed.

(** ** Store calls *)

Definition permitted_store {A} (c : store_call A) (s : hdb) tr : Prop :=
  match c with
  | CCursor id n => forall r, r ∈ h_inbox s -> in_id r = id -> forall i : nat, Z.of_nat i < n -> accepted (batch_id r i) tr
  | CFinish id status _ _ =>
      status <> HistoryPending /\ id < h_next s /\ (id ∉ finished_ids tr) /\
      (status = HistoryDone -> forall r, r ∈ h_inbox s -> in_id r = id -> in_import_enabled r = true -> delivered r tr)
  | _ => True
  end.

Lemma ids_unique s r r' : table_ok s -> r ∈ h_inbox s -> r' ∈ h_inbox s -> in_id r = in_id r' -> r = r'.
Proof.
  intros [Hn _ _] Hr Hr' Hid. apply list_elem_of_lookup in Hr as (i & Hi), Hr' as (j & Hj).
  assert (i = j) as ->; [|congruence]. eapply NoDup_lookup; [exact Hn|by rewrite list_lookup_fmap, Hi|by rewrite list_lookup_fmap, Hj, Hid].
Qed.

Lemma settled_mem s s' r r' : table_ok s' -> r ∈ h_inbox s -> is_pending r = true -> r' ∈ h_inbox s' -> in_id r' = in_id r ->
  is_pending r' = false -> Settled (in_session r) (in_notification_id r) (in_status r') ∈ settled_events (B:=B) s s'.
Proof.
  intros Hs Hr Hp Hr' Hid Hp'. apply list_elem_of_omap. exists r. split; [done|]. rewrite Hp.
  destruct (List.find (fun x => in_id x =? in_id r) (h_inbox s')) as [x|] eqn:Hf; cbn.
  - apply List.find_some in Hf as [Hx%list_elem_of_In He]. to_prop.
    rewrite (ids_unique s' x r' Hs Hx Hr') by congruence. by rewrite Hp'.
  - pose proof (List.find_none _ _ Hf r' (proj1 (list_elem_of_In _ _) Hr')) as He. cbn in He. to_prop. congruence.
Qed.
Lemma settled_shape s s' (ev : hevent B) : ev ∈ settled_events s s' -> exists a b st, ev = Settled a b st.
Proof.
  intros (r & _ & Hr)%list_elem_of_omap. destruct (is_pending r); [|done].
  destruct (List.find _ _) as [x|]; [|done]. cbn in Hr. destruct (is_pending x); [done|]. injection Hr as <-. eauto.
Qed.
Lemma created_shape s s' (ev : hevent B) : ev ∈ created_events s s' ->
  exists u', u' ∈ h_runs s' /\ ev = Created (ru_run_id u') /\ forall u, u ∈ h_runs s -> ru_run_id u <> ru_run_id u'.
Proof.
  intros (u' & Hu' & He)%list_elem_of_omap. destruct (existsb _ _) eqn:Hx; [done|]. injection He as <-. exists u'.
  split; [done|]. split; [done|]. intros u Hu Hid. apply not_true_iff_false in Hx. apply Hx, existsb_exists. exists u.
  split; [by apply list_elem_of_In|by apply bool_decide_eq_true].
Qed.
Lemma created_mem s s' u' : u' ∈ h_runs s' -> (forall u, u ∈ h_runs s -> ru_run_id u <> ru_run_id u') ->
  Created (ru_run_id u') ∈ created_events (B:=B) s s'.
Proof.
  intros Hu' Hn. apply list_elem_of_omap. exists u'. split; [done|]. destruct (existsb _ _) eqn:Hx; [|done].
  apply existsb_exists in Hx as (u & Hu%list_elem_of_In & He). to_prop. by destruct (Hn u Hu).
Qed.

Lemma count_none run l t : (forall ev, ev ∈ l -> forall t, count_event run t ev = t) -> foldl (count_event run) t l = t.
Proof.
  revert t. induction l as [|ev l IH]; intros t Hl; cbn; [done|]. rewrite (Hl ev) by by left. apply IH. intros e He. apply Hl. by right.
Qed.
Lemma count_settled run s s' t : foldl (count_event run) t (settled_events s s') = t.
Proof. apply count_none. by intros ev (a & b & st & ->)%settled_shape. Qed.
Lemma count_created_old run s s' u t : u ∈ h_runs s -> ru_run_id u = run ->
  foldl (count_event run) t (created_events (B:=B) s s') = t.
Proof.
  intros Hu <-. apply count_none. intros ev (u' & _ & -> & Hn)%created_shape t'. cbn. rewrite bool_decide_false; [done|].
  intros He. by apply (Hn u Hu).
Qed.
Lemma count_created_new run s s' l : l ⊆ created_events (B:=B) s s' ->
  forall t, t = no_totals \/ Created run ∈ l -> foldl (count_event run) t l = no_totals.
Proof.
  induction l as [|ev l IH]; intros Hs t Ht; cbn; [destruct Ht as [|Hin]; [done|by apply not_elem_of_nil in Hin]|].
  assert (Hl : l ⊆ created_events s s') by set_solver. apply (IH Hl).
  destruct (created_shape s s' ev) as (u & _ & -> & _); [apply Hs; by left|]. cbn. destruct (bool_decide _) eqn:He; to_prop; [by left|].
  destruct Ht as [->|[[= Hr]|Hin]%elem_of_cons]; [by left|by destruct He|by right].
Qed.

(** What a store call leaves in the trace. *)
Lemma own_finished {A} (c : store_call A) (r : goerr + A) :
  finished_ids (own_events (B:=B) c r) = match of_answer r (finish_call c) with Some (id, _, _) => [id] | None => [] end.
Proof. destruct r; [done|]. by destruct c. Qed.
Lemma own_counts {A} run (c : store_call A) (r : goerr + A) t :
  foldl (count_event run) t (own_events (B:=B) c r) = count_delta run (delta_call (of_answer r (finish_call c))) t.
Proof. destruct r; [done|]. by destruct c. Qed.
Lemma own_kept {A} (c : store_call A) (r : goerr + A) session notification : Kept session notification ∈ own_events (B:=B) c r ->
  exists row, (exists a, r = inr a) /\ (forall now s, effect c now s = (insert_inbox row now s).2) /\
    hi_SessionID row = session /\ hi_NotificationID row = notification.
Proof.
  destruct r as [e|a]; [by intros ?%not_elem_of_nil|]. destruct c; cbn; try by intros ?%not_elem_of_nil.
  - intros [= -> ->]%list_elem_of_singleton. exists row. split; [by exists a|done].
  - by intros ?%list_elem_of_singleton.
Qed.
Lemma own_receipt {A} (c : store_call A) (r : goerr + A) session notification err :
  ~ Receipt session notification err ∈ own_events (B:=B) c r.
Proof. intros Hin. destruct r; [by apply not_elem_of_nil in Hin|]. destruct c; cbn in Hin; set_solver. Qed.

(** A stored notification has a row. *)
Lemma insert_row row now s : exists r, r ∈ h_inbox (insert_inbox row now s).2 /\
  in_session r = hi_SessionID row /\ in_notification_id r = hi_NotificationID row /\
  (is_pending r = true \/ r ∈ h_inbox s /\ (insert_inbox row now s).2 = s).
Proof.
  unfold insert_inbox. destruct (existsb _ _) eqn:He; cbn.
  - apply existsb_exists in He as (r & Hr%list_elem_of_In & Hs). unfold same_notification in Hs. to_prop. exists r.
    repeat split; auto.
  - eexists. split; [apply elem_of_app; right; by apply list_elem_of_singleton|]. cbn. auto.
Qed.

Definition store_events {A} (c : store_call A) (r : goerr + A) (s s' : hdb) : trace :=
  settled_events s s' ++ created_events s s' ++ own_events c r.

Lemma finished_none tr : (forall ev, ev ∈ tr -> match ev with Finished _ _ => False | _ => True end) -> finished_ids tr = [].
Proof.
  induction tr as [|ev tr IH]; intros Htr; [done|]. assert (Hn : finished_ids tr = []) by (apply IH; intros e He; apply Htr; by right).
  unfold finished_ids in *. cbn. rewrite Hn. assert (He : ev ∈ ev :: tr) by by left. specialize (Htr ev He). by destruct ev.
Qed.

Lemma store_finished {A} (c : store_call A) (r : goerr + A) s s' :
  finished_ids (store_events c r s s') = match of_answer r (finish_call c) with Some (id, _, _) => [id] | None => [] end.
Proof.
  unfold store_events. rewrite !finished_ids_app, own_finished.
  rewrite (finished_none (settled_events s s')), (finished_none (created_events s s')); [done| |].
  - by intros ev (u & _ & -> & _)%created_shape.
  - by intros ev (a & b & st & ->)%settled_shape.
Qed.

Section Call.
Context {A : Type} (c : store_call A) (now : Z) (s : hdb) (fs : list (option goerr)) (r : goerr + A) (d : db hdb) (tr : trace).
Hypotheses (Hrun : store_run c now (Db s fs) = (r, d)) (Hinv : Inv s tr) (Hok : permitted_store c s tr).
Abbreviation s' := (rows d).
Abbreviation tr' := (tr ++ store_events c r s s').

Lemma store_call_step : hstep (of_answer r (cursor_call c)) (of_answer r (finish_call c)) s s'.
Proof. exact (proj1 (store_run_step c now s fs r d Hrun (iv_table _ _ Hinv))). Qed.
Lemma call_table : table_ok s'.
Proof. exact (proj2 (store_run_step c now s fs r d Hrun (iv_table _ _ Hinv))). Qed.
Lemma call_grows : tr ⊆ tr'.
Proof. set_solver. Qed.

(** A row that goes from pending to not is logged. *)
Lemma call_settles x x' : x ∈ h_inbox s -> is_pending x = true -> x' ∈ h_inbox s' -> frame x' = frame x -> is_pending x' = false ->
  Settled (in_session x') (in_notification_id x') (in_status x') ∈ tr'.
Proof.
  intros Hx Hp Hx' Hf Hp'. injection Hf as Hid Hs Hn Ha Hno Hat Hc Hi. apply elem_of_app. right. unfold store_events.
  apply elem_of_app. left. rewrite Hs, Hn. by apply settled_mem; [apply call_table|..].
Qed.

Lemma call_settled x' : x' ∈ h_inbox s' -> is_pending x' = false -> Settled (in_session x') (in_notification_id x') (in_status x') ∈ tr'.
Proof.
  intros Hx' Hp'. destruct (hs_from _ _ _ _ store_call_step x' Hx') as [(x & Hx & Hs)|(_ & Hp & _)]; [|congruence].
  destruct (is_pending x) eqn:Hp; [eapply call_settles; eauto; apply (rs_frame _ _ _ _ Hs)|].
  destruct (row_step_later _ _ _ _ Hs) as [Hf Hst]. rewrite (Hst Hp). injection Hf as Hid Hse Hn Ha Hno Hat Hc Hi. rewrite Hse, Hn.
  apply call_grows, (iv_settled _ _ Hinv x Hx Hp).
Qed.

(** A notification once kept still is, or its row was settled. *)
Lemma call_kept session notification : Kept session notification ∈ tr' ->
  (exists x, x ∈ h_inbox s' /\ is_pending x = true /\ in_session x = session /\ in_notification_id x = notification) \/
  exists status, Settled session notification status ∈ tr'.
Proof.
  assert (Hrow : forall x, x ∈ h_inbox s' -> in_session x = session -> in_notification_id x = notification ->
    (exists x, x ∈ h_inbox s' /\ is_pending x = true /\ in_session x = session /\ in_notification_id x = notification) \/
    exists status, Settled session notification status ∈ tr').
  { intros x Hx <- <-. destruct (is_pending x) eqn:Hp; [left; eauto|right]. exists (in_status x). by apply call_settled. }
  intros [Hin|[(a & b & st & [=])%settled_shape|[(u & _ & [=] & _)%created_shape|Hin]%elem_of_app]%elem_of_app]%elem_of_app.
  - destruct (iv_kept _ _ Hinv _ _ Hin) as [(x & Hx & Hp & Hs & Hn)|(st & Hst)].
    + destruct (hs_keeps _ _ _ _ store_call_step x Hx Hp) as (x' & Hx' & Hst). apply (Hrow x' Hx');
        destruct (row_later_key _ _ (row_step_later _ _ _ _ Hst)); congruence.
    + right. exists st. by apply call_grows.
  - apply own_kept in Hin as (row & (a & Ha) & He & <- & <-).
    pose proof (store_run_effect c now s (Db s fs) r d eq_refl Hrun) as Hd. rewrite Ha in Hd. unfold at_rows in Hd. rewrite He in Hd.
    destruct (insert_row row now s) as (x & Hx & Hs & Hn & _). apply (Hrow x); [by rewrite Hd|done..].
Qed.

Lemma call_cursor x' (i : nat) : x' ∈ h_inbox s' -> Z.of_nat i < in_batches_done x' -> accepted (batch_id x' i) tr'.
Proof.
  intros Hx' Hi. destruct (hs_from _ _ _ _ store_call_step x' Hx') as [(x & Hx & Hs)|(_ & _ & Hb)]; [|lia].
  rewrite (frame_batch_id x x' i (rs_frame _ _ _ _ Hs)). eapply accepted_mono; [apply call_grows|].
  destruct (rs_cursor _ _ _ _ Hs) as [Heq|Heq]; [rewrite Heq in Hi; by apply (iv_cursor _ _ Hinv)|].
  destruct r; [done|]. destruct c; try done. injection Heq as -> ->. exact (Hok x Hx eq_refl i Hi).
Qed.

Lemma call_done x' : x' ∈ h_inbox s' -> in_status x' = HistoryDone -> in_import_enabled x' = true -> delivered x' tr'.
Proof.
  intros Hx' Hd Hi. destruct (hs_from _ _ _ _ store_call_step x' Hx') as [(x & Hx & Hs)|(_ & Hp & _)].
  2:{ unfold is_pending in Hp. rewrite Hd in Hp. done. }
  apply (frame_delivered x x' _ (rs_frame _ _ _ _ Hs)). eapply delivered_mono; [apply call_grows|].
  assert (Hi' : in_import_enabled x = true) by (pose proof (rs_frame _ _ _ _ Hs) as [=]; congruence).
  destruct (rs_status _ _ _ _ Hs) as [Heq|(Hp & [Heq|(dl & Heq)])]; [apply (iv_done _ _ Hinv); congruence|by rewrite Hd in Heq|].
  destruct r; [done|]. destruct c; try done. injection Heq as -> -> ->. cbn in Hok. destruct Hok as (_ & _ & _ & Hdone).
  by apply Hdone.
Qed.

Lemma call_finished id : id ∈ finished_ids tr' -> id < h_next s' /\ forall x', x' ∈ h_inbox s' -> in_id x' = id -> is_pending x' = false.
Proof.
  pose proof (hs_next _ _ _ _ store_call_step) as Hn.
  rewrite finished_ids_app, store_finished. intros [Hin|Hin]%elem_of_app.
  - destruct (iv_finished _ _ Hinv id Hin) as [Hlt Hp]. split; [lia|]. intros x' Hx' Hid.
    destruct (hs_from _ _ _ _ store_call_step x' Hx') as [(x & Hx & Hs)|(Hge & _ & _)]; [|lia].
    pose proof (row_step_later _ _ _ _ Hs) as Hl. specialize (Hp x Hx ltac:(by rewrite <- Hid, (row_later_id _ _ Hl))).
    unfold is_pending in *. by rewrite (proj2 Hl Hp).
  - destruct (of_answer r (finish_call c)) as [[[id' st] dl]|] eqn:Hf; [|by apply not_elem_of_nil in Hin].
    apply list_elem_of_singleton in Hin as ->. pose proof store_call_step as Hst. rewrite Hf in Hst. clear Hrun. destruct r as [e|a]; [done|].
    cbn in Hf. destruct c; try done. injection Hf as <- <- <-. cbn in Hok. destruct Hok as (Hne & Hlt & _). split; [lia|].
    intros x' Hx' Hid. exact (hs_final _ _ _ _ Hst _ _ _ eq_refl Hne x' Hx' Hid).
Qed.

Lemma call_once : NoDup (finished_ids tr').
Proof.
  rewrite finished_ids_app, store_finished. destruct (of_answer r (finish_call c)) as [[[id st] dl]|] eqn:Hf.
  - apply NoDup_app. split; [apply (iv_once _ _ Hinv)|]. split; [|apply NoDup_singleton].
    intros x Hx ->%list_elem_of_singleton. destruct r; [done|]. destruct c; try done. cbn in Hf. injection Hf as -> -> ->.
    cbn in Hok. by destruct Hok as (_ & _ & Hn & _).
  - rewrite app_nil_r. apply (iv_once _ _ Hinv).
Qed.

Lemma call_counters u' : u' ∈ h_runs s' -> counts u' = run_totals (ru_run_id u') tr'.
Proof.
  intros Hu'. unfold store_events. rewrite run_totals_app, !foldl_app, count_settled, own_counts.
  destruct (hs_runs _ _ _ _ store_call_step u' Hu') as [(u & Hu & Hid & ->)|(Hf & -> & Hn)].
  - by rewrite (count_created_old _ _ _ u _ Hu Hid), (iv_counters _ _ Hinv u Hu), Hid.
  - rewrite Hf. cbn. symmetry. apply (count_created_new _ s s'); [done|]. right. by apply created_mem.
Qed.

Lemma call_receipt i session notification err : tr' !! i = Some (Receipt session notification err) ->
  exists j, (j < i)%nat /\ tr' !! j = Some (Kept session notification).
Proof.
  intros [Hl|[_ Hin%list_elem_of_lookup_2]]%lookup_app_Some.
  - destruct (iv_receipt _ _ Hinv _ _ _ _ Hl) as (j & Hj & Hk). exists j. split; [done|by apply lookup_app_l_Some].
  - exfalso. apply elem_of_app in Hin as [(a & b & st & [=])%settled_shape|[(u & _ & [=] & _)%created_shape|Hin]%elem_of_app].
    by apply own_receipt in Hin.
Qed.

Lemma Inv_store : Inv s' tr'.
Proof.
  split; eauto using call_table, call_kept, call_settled, call_receipt, call_cursor, call_done, call_finished, call_once, call_counters.
Qed.
End Call.

(** ** Worlds *)

Abbreviation world := (world (B:=B) (X:=X)).
Definition ok (w : world) : Prop := Inv (hw_db w) (hw_trace w).
Definition finished (id : Z) (w : world) : Prop := id ∈ finished_ids (hw_trace w).
Definition later (w w' : world) : Prop := hw_trace w ⊆ hw_trace w' /\ evolves (hw_db w) (hw_db w').
(** None of these rows was finished meanwhile. *)
Definition quiet (ids : Z -> Prop) (w w' : world) : Prop := forall id, ids id -> finished id w' -> finished id w.
(** What a thread may assume of the others, the rows [mine] being its own, and what
    it promises them. *)
Definition rely (mine : Z -> Prop) (w w' : world) : Prop := later w w' /\ quiet mine w w'.

#[export] Instance rely_preorder mine : PreOrder (rely mine).
Proof.
  split.
  - intros w. split; [split; reflexivity|by intros ?].
  - intros a b c [[H1 H2] H3] [[H4 H5] H6]. split; [split; [set_solver|by etrans]|]. intros id Hid Hf. auto.
Qed.

Definition permitted {R} (c : call (N:=N) (B:=B) R) (w : world) : Prop :=
  match c with
  | Store c => permitted_store c (hw_db w) (hw_trace w)
  | SendReceipt session message => Kept session message ∈ hw_trace w
  | _ => True
  end.
Definition finishes {R} (c : call (N:=N) (B:=B) R) : option Z :=
  match c with Store c => (fun x => x.1.1) <$> finish_call c | _ => None end.

Lemma ask_spec {A} (f : X -> A * X) (w : world) a w' : ask f w = (a, w') -> hw_db w' = hw_db w /\ hw_trace w' = hw_trace w.
Proof. unfold ask. destruct (f _). by intros [= <- <-]. Qed.
Lemma ask_log_spec {A} (f : X -> A * X) ev (w : world) a w' :
  ask_log f ev w = (a, w') -> hw_db w' = hw_db w /\ hw_trace w' = hw_trace w ++ ev a.
Proof. unfold ask_log. destruct (f _). by intros [= <- <-]. Qed.

(** A call either leaves the tables and logs at most one neutral event, or is a
    store call. *)
Lemma perform_cases {R} (c : call R) (w : world) r w' : perform c w = (r, w') -> permitted c w ->
  hw_db w' = hw_db w /\ (hw_trace w' = hw_trace w \/ exists ev, neutral (hw_trace w) ev /\ hw_trace w' = hw_trace w ++ [ev]) \/
  exists A (sc : store_call A) now fs res d, finishes c = (fun x => x.1.1) <$> finish_call sc /\
    permitted_store sc (hw_db w) (hw_trace w) /\ store_run sc now (Db (hw_db w) fs) = (res, d) /\
    hw_db w' = rows d /\ hw_trace w' = hw_trace w ++ store_events sc res (hw_db w) (rows d).
Proof.
  destruct c; cbn [perform permitted]; intros Hp Hok; try (apply ask_spec in Hp as [-> ->]; by auto);
    try (apply ask_log_spec in Hp as [-> ->]; left; split; [done|]);
    try (injection Hp as <- <-; by auto).
  - unfold perform_store in Hp. destruct (we_faults _) as [fs x]. destruct (we_now x) as [now x'].
    destruct (store_run c _ _) as [res d] eqn:Hrun. injection Hp as <- <-. right. eexists _, c, _, fs, res, d. done.
  - right. exists (Published ev r). done.
  - destruct r as [e|b]; [left; by rewrite app_nil_r|right]. exists (Downloaded session b). done.
  - right. exists (Receipt session message r). done.
Qed.

Lemma perform_ok {R} (c : call R) (w : world) r w' : perform c w = (r, w') -> permitted c w -> ok w -> ok w'.
Proof.
  intros Hp Hok Hw. unfold ok in *. destruct (perform_cases c w r w' Hp Hok) as [[-> [->|(ev & Hn & ->)]]|(A & sc & now & fs & res & d & _ & Hs & Hrun & -> & ->)].
  - done.
  - by apply Inv_log.
  - exact (Inv_store sc now _ fs res d _ Hrun Hw Hs).
Qed.

Lemma perform_rely {R} (c : call R) (w : world) r w' mine : perform c w = (r, w') -> permitted c w -> ok w ->
  (forall id, finishes c = Some id -> ~ mine id) -> rely mine w w'.
Proof.
  intros Hp Hok Hw Hm. unfold rely, later, quiet, finished.
  destruct (perform_cases c w r w' Hp Hok) as [[-> [->|(ev & Hn & ->)]]|(A & sc & now & fs & res & d & Hf & Hs & Hrun & -> & ->)].
  - split; [split; reflexivity|done].
  - split; [split; [set_solver|reflexivity]|]. intros id _. rewrite finished_ids_app. destruct ev; cbn in *; by rewrite ?app_nil_r.
  - split; [split; [set_solver|]|].
    + exact (hstep_evolves _ _ _ _ (proj1 (store_run_step sc now _ fs res d Hrun (iv_table _ _ Hw)))).
    + intros id Hid. rewrite finished_ids_app, store_finished. intros [|Hin]%elem_of_app; [done|exfalso].
      destruct res; cbn in Hin; [by apply not_elem_of_nil in Hin|]. destruct (finish_call sc) as [[[i st] dl]|] eqn:He; [|by apply not_elem_of_nil in Hin].
      apply list_elem_of_singleton in Hin as ->. by apply (Hm i).
Qed.

(** ** Threads

    [valid mine others Q p w]: from [w] on, [p] makes permitted calls only and
    finishes no row of [others], and returns into [Q], whatever the other threads do
    to the world that [rely mine] allows. *)
Fixpoint valid (mine others : Z -> Prop) {A} (Q : A -> world -> Prop) (p : prog (N:=N) (B:=B) A) (w : world) : Prop :=
  match p with
  | Ret a => forall w', rely mine w w' -> ok w' -> Q a w'
  | Call c k => forall w1, rely mine w w1 -> ok w1 ->
      permitted c w1 /\ (forall id, finishes c = Some id -> ~ others id) /\
      let '(r, w2) := perform c w1 in valid mine others Q (k r) w2
  end.

Section Logic.
Variables mine others : Z -> Prop.

Definition stable (P : world -> Prop) : Prop := forall w w', rely mine w w' -> ok w' -> P w -> P w'.
Definition hoare {A} (P : world -> Prop) (p : prog (N:=N) (B:=B) A) (Q : A -> world -> Prop) : Prop :=
  forall w, ok w -> P w -> valid mine others Q p w.

Lemma valid_later {A} Q (p : prog A) w w' : rely mine w w' -> valid mine others Q p w -> valid mine others Q p w'.
Proof.
  intros Hr. destruct p as [a|R c k]; cbn.
  - intros H w1 H1. apply H. by etrans.
  - intros H w1 H1. apply H. by etrans.
Qed.

Lemma valid_bind {A C} Q (p : prog A) (k : A -> prog C) w :
  valid mine others (fun a => valid mine others Q (k a)) p w -> valid mine others Q (p ≫= k) w.
Proof.
  revert w. induction p as [a|R c f IH]; intros w; cbn.
  - intros H. assert (Hh : forall w1, rely mine w w1 -> ok w1 -> valid mine others Q (k a) w1) by done.
    destruct (k a) as [b|R c g] eqn:Hk; cbn; intros w1 Hr Hw; specialize (Hh w1 Hr Hw); cbn in Hh; by apply Hh; [reflexivity|..].
  - intros H w1 Hr Hw. destruct (H w1 Hr Hw) as (Hp & Ho & Hv). split; [done|]. split; [done|].
    destruct (perform c w1) as [r w2]. by apply IH.
Qed.

Lemma hoare_bind {A C} P R Q (p : prog A) (k : A -> prog C) :
  hoare P p R -> (forall a, hoare (R a) (k a) Q) -> hoare P (p ≫= k) Q.
Proof.
  intros Hp Hk w Hw HP. apply valid_bind. specialize (Hp w Hw HP).
  clear HP Hw. revert w Hp. induction p as [a|T c f IH]; intros w; cbn.
  - intros H w' Hr Hw'. apply Hk; auto.
  - intros H w1 Hr Hw1. destruct (H w1 Hr Hw1) as (Hp & Ho & Hv). split; [done|]. split; [done|].
    destruct (perform c w1) as [r w2]. by apply IH.
Qed.

Lemma hoare_ret {A} (P : world -> Prop) (a : A) (Q : A -> world -> Prop) : stable P -> (forall w, ok w -> P w -> Q a w) -> hoare P (mret a) Q.
Proof. intros Hs H w Hw HP w' Hr Hw'. apply H; [done|]. by apply (Hs w). Qed.

Lemma hoare_weaken {A} (P P' : world -> Prop) (p : prog A) (Q Q' : A -> world -> Prop) :
  hoare P p Q -> (forall w, ok w -> P' w -> P w) -> (forall a w, ok w -> Q a w -> Q' a w) -> hoare P' p Q'.
Proof.
  intros Hp HP HQ w Hw HP'. specialize (Hp w Hw (HP w Hw HP')). clear HP' Hw. revert w Hp.
  induction p as [a|T c f IH]; intros w; cbn.
  - intros H w' Hr Hw'. apply HQ; auto.
  - intros H w1 Hr Hw1. destruct (H w1 Hr Hw1) as (Hpe & Ho & Hv). split; [done|]. split; [done|].
    destruct (perform c w1) as [r w2]. by apply IH.
Qed.

(** A call: permitted, not of others' rows; its answer is known when it is made. *)
Lemma hoare_call {R} (P : world -> Prop) (c : call R) (Q : R -> world -> Prop) :
  stable P -> (forall r, stable (Q r)) -> (forall id, finishes c = Some id -> ~ others id) ->
  (forall w, ok w -> P w -> permitted c w) ->
  (forall w r w', ok w -> P w -> perform c w = (r, w') -> ok w' -> Q r w') -> hoare P (do c) Q.
Proof.
  intros Hs Hq Ho Hp Hr w Hw HP. cbn. intros w1 Hr1 Hw1. assert (HP1 : P w1) by by apply (Hs w).
  split; [by apply Hp|]. split; [done|]. destruct (perform c w1) as [r w2] eqn:He. intros w3 Hr3 Hw3. apply (Hq r w2); [done..|].
  eapply Hr; [exact Hw1|exact HP1|exact He|]. exact (perform_ok c w1 r w2 He (Hp w1 Hw1 HP1) Hw1).
Qed.

(** A call with no obligation keeps what is stable. *)
Lemma hoare_quiet {R} (P : world -> Prop) (c : call R) :
  stable P -> finishes c = None -> (forall w, permitted c w) -> hoare P (do c) (fun _ => P).
Proof.
  intros Hs Hf Hp. apply hoare_call; [done|done| |by auto|].
  - intros id. rewrite Hf. discriminate.
  - intros w r w' Hw HP He Hw'. apply (Hs w); [|done..]. apply (perform_rely c w r w' mine He (Hp w) Hw).
    intros id. rewrite Hf. discriminate.
Qed.

Lemma hoare_each {A} P (f : A -> prog unit) l : stable P -> (forall a, a ∈ l -> hoare P (f a) (fun _ => P)) -> hoare P (each f l) (fun _ => P).
Proof.
  intros Hs. induction l as [|a l IH]; intros Hf; cbn; [by apply hoare_ret|].
  eapply hoare_bind; [apply Hf; by left|]. intros ?. apply IH. intros b Hb. apply Hf. by right.
Qed.

(** A program without obligations keeps whatever is stable. *)
Definition silent {A} (p : prog (N:=N) (B:=B) A) : Prop := forall P, stable P -> hoare P p (fun _ => P).

Lemma silent_ret {A} (a : A) : silent (mret a).
Proof. intros P Hs. by apply hoare_ret. Qed.
Lemma silent_bind {A C} (p : prog A) (k : A -> prog C) : silent p -> (forall a, silent (k a)) -> silent (p ≫= k).
Proof. intros Hp Hk P Hs. eapply hoare_bind; [by apply Hp|]. intros a. by apply Hk. Qed.
Lemma silent_do {R} (c : call R) : finishes c = None -> (forall w, permitted c w) -> silent (do c).
Proof. intros Hf Hp P Hs. by apply hoare_quiet. Qed.
Lemma silent_each {A} (f : A -> prog unit) l : (forall a, silent (f a)) -> silent (each f l).
Proof. intros Hf P Hs. apply hoare_each; [done|]. intros a _. by apply Hf. Qed.

(** The call after one that keeps [P]. *)
Lemma hoare_after {A C} P Q (p : prog A) (k : A -> prog C) :
  stable P -> silent p -> (forall a, hoare P (k a) Q) -> hoare P (p ≫= k) Q.
Proof. intros Hs Hp Hk. eapply hoare_bind; [by apply Hp|]. exact Hk. Qed.
End Logic.

Ltac silent :=
  repeat match goal with
  | |- silent _ _ (mret _) => apply silent_ret
  | |- silent _ _ (_ ≫= _) => apply silent_bind; [|intros ?]
  | |- silent _ _ (do _) => by apply silent_do
  | |- silent _ _ (each _ _) => apply silent_each; intros ?
  | |- silent _ _ (match ?x with _ => _ end) => destruct x
  | |- silent _ _ (let _ := _ in _) => cbv zeta
  | |- silent _ _ _ => solve [auto with silence]
  end.

Section Silent.
Variables mine others : Z -> Prop.
Abbreviation silent := (silent mine others).

Lemma publish_silent session organization id typ payload : silent (publish session organization id typ payload).
Proof. unfold publish. silent. Qed.
Lemma postpone_silent row attempts delay reason : silent (postpone row attempts delay reason).
Proof. unfold postpone. silent. Qed.
Lemma deleteMedia_silent row notif : silent (deleteMedia row notif).
Proof. unfold deleteMedia. silent. Qed.
Lemma wait_pressure_silent polls : silent (wait_pressure polls).
Proof. induction polls as [|polls IH]; cbn [wait_pressure]; silent; done. Qed.
Hint Resolve publish_silent postpone_silent deleteMedia_silent wait_pressure_silent : silence.
Lemma pace_silent session : silent (pace cfg patience session).
Proof. unfold pace. silent. Qed.
Lemma ensureRun_silent row : silent (ensureRun row).
Proof. unfold ensureRun. silent. Qed.
Lemma emitFinal_silent run : silent (emitFinal run).
Proof. unfold emitFinal. silent. Qed.
Hint Resolve emitFinal_silent : silence.
Lemma emitFinals_silent : silent emitFinals.
Proof. unfold emitFinals. silent. Qed.
Hint Resolve emitFinals_silent : silence.
Lemma completeIdle_silent : silent (completeIdle cfg).
Proof. unfold completeIdle. silent. Qed.
Lemma drop_silent session keep reason : silent (HistoryWorker.drop session keep reason).
Proof. unfold HistoryWorker.drop. silent. Qed.
End Silent.

#[local] Hint Resolve publish_silent postpone_silent deleteMedia_silent wait_pressure_silent pace_silent ensureRun_silent
  emitFinal_silent emitFinals_silent completeIdle_silent drop_silent : silence.

Lemma perform_store_spec {A} (c : store_call A) (w : world) r w' : perform (Store c) w = (r, w') -> exists now fs d,
  store_run c now (Db (hw_db w) fs) = (r, d) /\ hw_db w' = rows d /\
  hw_trace w' = hw_trace w ++ store_events c r (hw_db w) (rows d).
Proof.
  cbn. unfold perform_store. destruct (we_faults _) as [fs x]. destruct (we_now x) as [now x'].
  destruct (store_run c _ _) as [res d] eqn:Hrun. intros [= <- <-]. by exists (UnixMilli now), fs, d.
Qed.

(** Facts of the trace are stable. *)
Definition monotone (F : trace -> Prop) : Prop := forall tr tr', tr ⊆ tr' -> F tr -> F tr'.
Lemma monotone_stable mine (F : trace -> Prop) : monotone F -> stable mine (fun w => F (hw_trace w)).
Proof. intros Hm w w' [[Ht _] _] _. by apply Hm. Qed.
Lemma both_stable mine (P Q : world -> Prop) : stable mine P -> stable mine Q -> stable mine (fun w => P w /\ Q w).
Proof. intros Hp Hq w w' Hr Hw [H1 H2]. split; eauto. Qed.
Lemma pure_stable mine (phi : Prop) : stable mine (fun _ : world => phi).
Proof. by intros w w' _ _. Qed.
Lemma monotone_accepted id : monotone (accepted id).
Proof. intros tr tr'. apply accepted_mono. Qed.
Lemma monotone_elem (ev : hevent B) : monotone (fun tr => ev ∈ tr).
Proof. intros tr tr' Hs. apply Hs. Qed.

(** ** Intake *)

Section Intake.
Abbreviation nobody := (fun _ : Z => False).
Abbreviation everybody := (fun _ : Z => True).

(** A notification is stored before it is acknowledged. *)
Lemma Accept_valid connected n : hoare nobody everybody (fun _ => True) (Accept cfg connected n) (fun _ _ => True).
Proof.
  assert (Hret : forall (e : option goerr) P, stable nobody P -> hoare nobody everybody P (mret e) (fun _ _ => True)).
  { intros e P HP. by apply hoare_ret. }
  unfold Accept. destruct (ic_Notification n) as [notif|]; [|by apply Hret]. destruct (_ || _); [by apply Hret|].
  destruct (nl_Marshal notif) as [err|raw]; [by apply Hret|].
  apply hoare_after; [done|destruct (wc_Days cfg); silent|]. intros days. apply hoare_after; [done|silent|]. intros now.
  set (row := MkHistoryInboxRow _ _ _ _ _ _ _ _ _ _ _ _ _ _ _ _). set (kept := fun w : world => Kept (ic_SessionID n) (ic_MessageID n) ∈ hw_trace w).
  assert (Hkept : stable nobody kept) by (apply (monotone_stable _ (fun tr => _ ∈ tr)), monotone_elem).
  apply (hoare_bind _ _ _ (fun r => match r with inr _ => kept | inl _ => fun _ => True end)).
  - apply hoare_call; try done.
    + by intros [|].
    + intros w [e|b] w' _ _ Hp _; [done|]. apply perform_store_spec in Hp as (now' & fs & d & _ & _ & Ht). unfold kept. rewrite Ht.
      apply elem_of_app. right.
      unfold store_events. apply elem_of_app. right. apply elem_of_app. right. by apply list_elem_of_singleton.
  - intros [e|b]; [by apply Hret|]. apply (hoare_bind _ _ _ (fun _ => kept)); [|intros ?; by apply Hret].
    destruct connected; [|by apply hoare_ret]. apply (hoare_bind _ _ _ (fun _ => kept)); [|intros ?; by apply hoare_ret].
    apply hoare_call; try done. intros w r w' Hw Hk He Hw'. apply (Hkept w w'); [|done..].
    by apply (perform_rely _ w r w' nobody He Hk Hw).
Qed.
End Intake.

(** ** One notification *)

Section Row.
Variable row : HistoryInboxRow.
Abbreviation mine := (fun id => id = hi_ID row).
Abbreviation others := (fun id => id <> hi_ID row).
Abbreviation hoare := (hoare mine others).
Abbreviation stable := (stable mine).

Definition row_batch_id (j : nat) : string :=
  EventID (hi_NotifiedAt row) [hi_SessionID row; hi_NotificationID row; pretty (N.of_nat j)].
Definition row_progress_id : string :=
  EventID (hi_NotifiedAt row) [hi_SessionID row; hi_NotificationID row; HistoryPhaseProgress].
Definition batches_sent (runID : string) (blob : B) tr : Prop :=
  forall b, b ∈ re_Batches (Convert (input_of row runID) blob) -> accepted (ba_EventID b) tr.
Definition row_delivered tr : Prop := exists blob runID,
  Downloaded (hi_SessionID row) blob ∈ tr /\ batches_sent runID blob tr /\ accepted row_progress_id tr.

(** What the goroutine that processes the row knows: which row it is, that nobody
    has finished it, and that the batches before its cursor are sent. *)
Definition about (s : hdb) : Prop := exists r0, scan_inbox r0 = row /\ in_id r0 < h_next s /\
  forall r, r ∈ h_inbox s -> in_id r = in_id r0 -> frame r = frame r0.
Definition ready (w : world) : Prop :=
  about (hw_db w) /\ ~ finished (hi_ID row) w /\
  forall j : nat, Z.of_nat j < hi_BatchesDone row -> accepted (row_batch_id j) (hw_trace w).

Lemma ready_stays : stable ready.
Proof.
  intros w w' [[Ht Hev] Hq] _ ((r0 & Hsc & Hlt & Hfr) & Hf & Hc). destruct Hev as [Hn Hrows]. split; [|split].
  - exists r0. split; [done|]. split; [lia|]. intros r' Hr' Hid. destruct (Hrows r' Hr') as [(r & Hr & Hl)|Hge]; [|lia].
    rewrite <- (Hfr r Hr); [by destruct Hl|]. rewrite <- Hid. symmetry. by apply row_later_id.
  - intros Hfin. apply Hf. by apply Hq.
  - intros j Hj. eapply accepted_mono; eauto.
Qed.

Lemma ready_and F : monotone F -> stable (fun w => ready w /\ F (hw_trace w)).
Proof. intros HF. apply both_stable; [apply ready_stays|by apply monotone_stable]. Qed.

Lemma scan_delivered r0 tr : scan_inbox r0 = row -> row_delivered tr -> delivered r0 tr.
Proof. unfold row_delivered, batches_sent, row_progress_id. intros <-. done. Qed.
Lemma scan_batch_id r0 j : scan_inbox r0 = row -> batch_id r0 j = row_batch_id j.
Proof. unfold row_batch_id. by intros <-. Qed.

(** The row is finished once, and as done only when its history is delivered. *)
Lemma finish_valid status reason delta F :
  monotone F -> status <> HistoryPending ->
  (status = HistoryDone -> forall tr, F tr -> hi_ImportEnabled row = true -> row_delivered tr) ->
  hoare (fun w => ready w /\ F (hw_trace w)) (finish row status reason delta) (fun _ _ => True).
Proof.
  intros HF Hst Hdone. unfold finish. eapply hoare_bind; [|intros r; by apply (hoare_ret _ _ (fun _ => True))].
  apply hoare_call; [by apply ready_and|done| |..|done].
  - intros id [= <-]. cbn. auto.
  - intros w Hw [((r0 & Hsc & Hlt & Hfr) & Hf & Hc) HFt]. cbn. assert (Hid0 : in_id r0 = hi_ID row) by by rewrite <- Hsc.
    split; [done|]. split; [by rewrite <- Hid0|]. split; [exact Hf|].
    intros Hs r Hr Hid Himp. assert (Hfm : frame r = frame r0) by (apply Hfr; congruence).
    apply (frame_delivered r0 r _ Hfm). apply (scan_delivered r0); [done|]. apply Hdone; [done|done|].
    injection Hfm as _ _ _ _ _ _ _ Hi. rewrite <- Hsc. cbn. congruence.
Qed.

(** Ready, and something the trace says. *)
Definition with_fact (F : trace -> Prop) (w : world) : Prop := ready w /\ F (hw_trace w).
Lemma with_fact_stable F : monotone F -> stable (with_fact F).
Proof. apply ready_and. Qed.

Lemma monotone_true : monotone (fun _ => True).
Proof. done. Qed.
Lemma monotone_and F G : monotone F -> monotone G -> monotone (fun tr => F tr /\ G tr).
Proof. intros HF HG tr tr' Hs [H1 H2]. eauto. Qed.
Lemma monotone_imp (phi : Prop) F : monotone F -> monotone (fun tr => phi -> F tr).
Proof. intros HF tr tr' Hs H Hphi. eauto. Qed.
Lemma monotone_all {A} (G : A -> Prop) (f : A -> string) : monotone (fun tr => forall a, G a -> accepted (f a) tr).
Proof. intros tr tr' Hs H a Ha. eapply accepted_mono; eauto. Qed.

(** [sent n]: the first [n] batch ids are accepted. *)
Definition sent (n : nat) tr : Prop := forall j, (j < n)%nat -> accepted (row_batch_id j) tr.

(** What is known after an event was handed over. *)
Lemma publish_accepts F session organization id typ payload : monotone F ->
  hoare (with_fact F) (publish session organization id typ payload)
    (fun r => with_fact (fun tr => F tr /\ (r = None -> accepted id tr))).
Proof.
  intros HF. unfold publish. apply hoare_after; [by apply with_fact_stable|silent|]. intros now.
  apply hoare_call; [by apply with_fact_stable| |done|done|].
  - intros r. apply with_fact_stable, monotone_and; [done|]. apply monotone_imp, monotone_accepted.
  - intros w r w' Hw [Hr HFw] He Hw'.
    destruct (with_fact_stable F HF w w') as [Hr' HF']; [|done|by split|].
    { by apply (perform_rely _ w r w' _ He Logic.I Hw). }
    split; [done|]. split; [done|]. intros ->. cbn in He. apply ask_log_spec in He as [_ Ht]. rewrite Ht.
    eexists. split; [apply elem_of_app; right; by apply list_elem_of_singleton|done].
Qed.

Lemma cursor_valid F n i : monotone F -> i <= Z.of_nat n ->
  hoare (with_fact (fun tr => F tr /\ sent n tr)) (do (Store (CCursor (hi_ID row) i)))
    (fun _ => with_fact (fun tr => F tr /\ sent n tr)).
Proof.
  intros HF Hi. assert (Hs : stable (with_fact (fun tr => F tr /\ sent n tr))).
  { apply with_fact_stable, monotone_and; [done|]. apply monotone_all. }
  assert (Hp : forall w, ok w -> with_fact (fun tr => F tr /\ sent n tr) w -> permitted (Store (CCursor (hi_ID row) i)) w).
  { intros w Hw (((r0 & Hsc & Hlt & Hfr) & Hf & Hc) & HFw & Hsent). cbn. intros r Hr Hid j Hj.
    assert (Hid0 : in_id r0 = hi_ID row) by by rewrite <- Hsc.
    rewrite (frame_batch_id r0 r j) by (apply Hfr; congruence). rewrite (scan_batch_id r0 j Hsc). apply Hsent. lia. }
  apply hoare_call; [done|by intros ?|done|done|]. intros w r w' Hw HP He Hw'. apply (Hs w w'); [|done..].
  by apply (perform_rely _ w r w' _ He (Hp w Hw HP) Hw).
Qed.

Section Batches.
Variables (runID : string) (blob : B).
Abbreviation all := (re_Batches (Convert (input_of row runID) blob)).

Lemma stamped_id n batch : all !! n = Some batch -> ba_EventID batch = row_batch_id n.
Proof. cbn. rewrite list_lookup_imap. by intros (p & _ & ->)%fmap_Some. Qed.

Lemma all_sent n tr : (length all <= n)%nat -> sent n tr -> batches_sent runID blob tr.
Proof.
  intros Hn Hs b (j & Hj)%list_elem_of_lookup. rewrite (stamped_id j b Hj). apply Hs. apply lookup_lt_Some in Hj. lia.
Qed.

Lemma publish_batches_valid F rest : monotone F -> forall n i, skipn n all = rest -> i <= Z.of_nat n ->
  hoare (with_fact (fun tr => F tr /\ sent n tr)) (publish_batches cfg patience row i rest)
    (fun finished => with_fact (fun tr => F tr /\ (finished = true -> batches_sent runID blob tr))).
Proof.
  intros HF. assert (Hend : monotone (fun tr => F tr /\ (false = true -> batches_sent runID blob tr))).
  { apply monotone_and; [done|]. apply monotone_imp, monotone_all. }
  induction rest as [|batch rest IH]; intros n i Hskip Hi; cbn [publish_batches].
  - apply hoare_ret; [apply with_fact_stable, monotone_and; [done|apply monotone_all]|].
    intros w _ (Hr & HFw & Hs). split; [done|]. split; [done|]. intros _. apply (all_sent n); [|done].
    apply (f_equal length) in Hskip. rewrite length_skipn in Hskip. cbn [length] in Hskip. lia.
  - assert (Hb : all !! n = Some batch).
    { rewrite <- (Nat.add_0_r n), <- lookup_drop. by rewrite Hskip. }
    assert (Hnext : skipn (Datatypes.S n) all = rest).
    { rewrite <- (Nat.add_1_l n), <- skipn_skipn, Hskip. done. }
    assert (Hs : stable (with_fact (fun tr => F tr /\ sent n tr))).
    { apply with_fact_stable, monotone_and; [done|apply monotone_all]. }
    apply hoare_after; [done|silent|]. intros [e|].
    { apply hoare_ret; [done|]. intros w _ (Hr & HFw & _). by split. }
    eapply hoare_bind; [apply publish_accepts, monotone_and; [done|apply monotone_all]|]. intros [e|].
    + apply hoare_after; [|silent|].
      { apply with_fact_stable, monotone_and; [apply monotone_and; [done|apply monotone_all]|by apply monotone_imp, monotone_accepted]. }
      intros ?. apply hoare_ret.
      { apply with_fact_stable, monotone_and; [apply monotone_and; [done|apply monotone_all]|by apply monotone_imp, monotone_accepted]. }
      intros w _ (Hr & [HFw _] & _). by split.
    + eapply hoare_weaken with (P := with_fact (fun tr => F tr /\ sent (Datatypes.S n) tr)); [| |intros ? ? ? H; exact H].
      * eapply hoare_bind; [apply cursor_valid; [done|lia]|]. intros ?. apply IH; [done|lia].
      * intros w _ (Hr & [HFw Hsent] & Ha). split; [done|]. split; [done|]. intros j Hj.
        destruct (decide (j = n)) as [->|]; [rewrite <- (stamped_id n batch Hb); by apply Ha|apply Hsent; lia].
Qed.
End Batches.

Lemma silent_any {A} P (p : prog (N:=N) (B:=B) A) : stable P -> silent mine others p -> hoare P p (fun _ _ => True).
Proof. intros Hs Hp. eapply hoare_weaken; [by apply Hp|by auto|done]. Qed.
Lemma after_any {A C} P (p : prog (N:=N) (B:=B) A) (k : A -> prog C) :
  hoare P p (fun _ _ => True) -> (forall a, silent mine others (k a)) -> hoare P (p ≫= k) (fun _ _ => True).
Proof. intros Hp Hk. eapply hoare_bind; [exact Hp|]. intros a. by apply silent_any. Qed.

(** A row that is given up. *)
Lemma finish_other F status reason {C} (k : bool -> prog (N:=N) (B:=B) C) :
  monotone F -> status = HistoryFailed \/ status = HistoryDiscarded -> (forall b, silent mine others (k b)) ->
  hoare (with_fact F) (finish row status reason None ≫= k) (fun _ _ => True).
Proof. intros HF Hst Hk. apply after_any; [|done]. apply finish_valid; [done| |]; by destruct Hst as [->| ->]. Qed.

Lemma import_valid notif blob run :
  hoare (with_fact (fun tr => Downloaded (hi_SessionID row) blob ∈ tr)) (import cfg patience row notif blob run) (fun _ _ => True).
Proof.
  set (F := fun tr => Downloaded (hi_SessionID row) blob ∈ tr). assert (HF : monotone F) by apply monotone_elem.
  pose proof (with_fact_stable F HF) as Hs. unfold import.
  apply hoare_after; [done|destruct (_ =? 0); silent|]. intros [e|]; [apply silent_any; [done|silent]|]. cbv zeta.
  apply (hoare_bind _ _ _ (fun finished => with_fact (fun tr => F tr /\ (finished = true -> batches_sent (hr_RunID run) blob tr)))).
  { apply (hoare_weaken _ _ (with_fact (fun tr => F tr /\ sent (Z.to_nat (hi_BatchesDone row)) tr)) _ _ _ _
      (publish_batches_valid (hr_RunID run) blob F _ HF (Z.to_nat (hi_BatchesDone row)) (hi_BatchesDone row) eq_refl ltac:(lia))); [|done].
    intros w _ [(Ha & Hf & Hc) HFw]. split; [done|]. split; [done|]. intros j Hj. apply Hc. lia. }
  intros finished. assert (Hb : monotone (fun tr => F tr /\ (finished = true -> batches_sent (hr_RunID run) blob tr))).
  { apply monotone_and; [done|]. apply monotone_imp, monotone_all. }
  destruct finished; cbn [negb]; [|by apply silent_any; [by apply with_fact_stable|silent]].
  eapply hoare_bind; [by apply publish_accepts|]. intros r.
  assert (Hp : monotone (fun tr => (F tr /\ (true = true -> batches_sent (hr_RunID run) blob tr)) /\ (r = None -> accepted row_progress_id tr))).
  { apply monotone_and; [done|]. apply monotone_imp, monotone_accepted. }
  destruct r as [e|]; [apply silent_any; [by apply with_fact_stable|silent]|].
  apply after_any; [|intros b; silent]. apply finish_valid; [done|done|].
  intros _ tr [[HFt Hsent] Hpr] _. exists blob, (hr_RunID run). split; [exact HFt|]. split; [by apply Hsent|by apply Hpr].
Qed.

Lemma downloadFailed_valid notif err :
  hoare (with_fact (fun _ => True)) (downloadFailed cfg row notif err) (fun _ _ => True).
Proof.
  pose proof (with_fact_stable _ monotone_true) as Hs. unfold downloadFailed. destruct (_ || _).
  - apply hoare_after; [done|silent|]. intros ?. apply finish_other; [done|by left|intros; silent].
  - destruct (permanentDownloadError err); [apply finish_other; [done|by left|intros; silent]|].
    apply hoare_after; [done|silent|]. intros now. destruct (_ <=? _); [|apply silent_any; [done|silent]].
    apply finish_other; [done|by left|intros; silent].
Qed.

(** The row's goroutine keeps the invariant. *)
Lemma process_valid : hoare ready (process cfg patience row) (fun _ _ => True).
Proof.
  apply (hoare_weaken _ _ (with_fact (fun _ => True)) _ _ (fun _ _ => True)); [|by intros w _ ?|done].
  pose proof (with_fact_stable _ monotone_true) as Hs. unfold process.
  apply hoare_after; [done|silent|]. intros c.
  destruct (negb (sc_known c)); [apply finish_other; [done|by right|intros; silent]|].
  destruct (_ && _); [apply finish_other; [done|by right|intros; silent]|].
  apply hoare_after; [done|destruct (negb _); [silent|destruct (wc_Owns cfg); silent]|]. intros owned.
  destruct (negb owned); [apply silent_any; [done|silent]|].
  destruct (nl_Unmarshal _) as [e|notif]; [apply finish_other; [done|by left|intros; silent]|].
  apply (hoare_bind _ _ _ (fun r => with_fact (fun tr => match r with inr blob => Downloaded (hi_SessionID row) blob ∈ tr | inl _ => True end))).
  - apply hoare_call; [done| |done|done|].
    + intros [e|blob]; apply with_fact_stable; [done|apply monotone_elem].
    + intros w r w' Hw HP He Hw'. destruct (Hs w w') as [Hr _]; [by apply (perform_rely _ w r w' _ He Logic.I Hw)|done..|].
      split; [done|]. destruct r as [e|blob]; [done|]. cbn in He. apply ask_log_spec in He as [_ ->].
      apply elem_of_app. right. by apply list_elem_of_singleton.
  - intros [e|blob]; [apply downloadFailed_valid|]. destruct (hi_ImportEnabled row) eqn:Himp; cbn [negb].
    + apply hoare_after; [apply with_fact_stable, monotone_elem|silent|]. intros [e|run]; [|apply import_valid].
      apply silent_any; [apply with_fact_stable, monotone_elem|silent].
    + apply after_any; [|intros b; silent]. apply finish_valid; [apply monotone_elem|done|]. congruence.
Qed.
End Row.

(** ** A pass *)

Lemma due_sublist now rows : forall seen nextDue due,
  exists l, l `sublist_of` rows /\ (due_rows cfg now seen nextDue due rows).1 = due ++ l.
Proof.
  induction rows as [|row rows IH]; intros seen nextDue due; cbn; [exists []; split; [constructor|by rewrite app_nil_r]|].
  destruct (decide _).
  { destruct (IH seen nextDue due) as (l & Hl & He). exists l. split; [by constructor|done]. }
  destruct (After _ _).
  { destruct (IH ({[hi_SessionID row]} ∪ seen) (if IsZero nextDue || Before (hi_NextAttemptAt row) nextDue then hi_NextAttemptAt row else nextDue) due)
      as (l & Hl & He). exists l. split; [by constructor|done]. }
  destruct (len due <? wc_Concurrency cfg).
  - destruct (IH ({[hi_SessionID row]} ∪ seen) nextDue (due ++ [row])) as (l & Hl & He). exists (row :: l).
    split; [by constructor|]. by rewrite He, <- app_assoc.
  - destruct (IH ({[hi_SessionID row]} ∪ seen) nextDue due) as (l & Hl & He). exists l. split; [by constructor|done].
Qed.

(** The rows of a pass are rows of the inbox, each once. *)
Definition batch_ready (rows : list HistoryInboxRow) (w : world) : Prop :=
  NoDup (hi_ID <$> rows) /\ forall row, row ∈ rows -> ready row w.

Lemma rely_weaken (ids ids' : Z -> Prop) (w w' : world) : (forall id, ids' id -> ids id) -> rely ids w w' -> rely ids' w w'.
Proof. intros Hs [Hl Hq]. split; [done|]. intros id Hid. apply Hq. auto. Qed.

Lemma batch_ready_stable rows : stable (fun _ => True) (batch_ready rows).
Proof.
  intros w w' Hr Hw [Hn Hrows]. split; [done|]. intros row Hrow. apply (ready_stays row w w'); [|done|auto].
  eapply rely_weaken; [|exact Hr]. done.
Qed.

Lemma batch_ready_sublist rows rows' w : rows' `sublist_of` rows -> batch_ready rows w -> batch_ready rows' w.
Proof.
  intros Hs [Hn Hr]. split; [eapply sublist_NoDup; [exact Hn|by apply fmap_sublist]|]. intros row Hin. apply Hr.
  by eapply elem_of_sublist.
Qed.

Lemma pending_ready (w w' : world) rows : ok w' -> perform (Store CPending) w = (inr rows, w') -> batch_ready rows w'.
Proof.
  intros Hok (now & fs & d & Hrun & Hd & Ht)%perform_store_spec. cbn in Hrun.
  destruct (query_at classifySQLiteError (fun s => scan_inbox <$> List.filter is_pending (h_inbox s)) (hw_db w) (Db (hw_db w) fs) _ _ eq_refl Hrun) as [Hs ->].
  unfold at_rows in Hs. rewrite Hs in Hd. rewrite <- Hd. pose proof (iv_table _ _ Hok) as Htab. split.
  - rewrite <- list_fmap_compose. eapply sublist_NoDup; [exact (to_ids _ Htab)|]. apply filter_fmap_sublist.
  - intros row (r0 & -> & [Hin Hp]%list_elem_of_In%filter_In)%list_elem_of_fmap. apply list_elem_of_In in Hin. split; [|split].
    + exists r0. split; [done|]. split; [by apply (to_next _ Htab)|]. intros r Hr Hid. by rewrite (ids_unique _ r r0 Htab Hr Hin Hid).
    + intros Hf. destruct (iv_finished _ _ Hok _ Hf) as [_ Hnp]. specialize (Hnp r0 Hin eq_refl). congruence.
    + intros j Hj. exact (iv_cursor _ _ Hok r0 j Hin Hj).
Qed.

Lemma tick_valid : hoare (fun _ => True) (fun _ => True) (fun _ => True) (tick cfg) (fun r => batch_ready r.1).
Proof.
  unfold tick. assert (Hempty : forall t : GoTime, hoare (fun _ => True) (fun _ => True) (fun _ => True) (mret ([], t)) (fun r => batch_ready r.1)).
  { intros t. apply hoare_ret; [done|]. intros w _ _. split; [constructor|]. by intros row ?%not_elem_of_nil. }
  apply hoare_after; [done|silent|]. intros ?. apply hoare_after; [done|silent|]. intros ?.
  apply hoare_after; [done|silent|]. intros now. apply hoare_after; [done|silent|]. intros pruned.
  apply hoare_after; [done|destruct (_ <? _); silent|]. intros ?.
  apply (hoare_bind _ _ _ (fun r => match r with inr rows => batch_ready rows | inl _ => fun _ => True end)).
  - apply hoare_call; [done| |done|done|].
    + intros [e|rows]; [done|apply batch_ready_stable].
    + intros w [e|rows] w' _ _ He Hw'; [done|]. by apply (pending_ready w).
  - intros [e|rows]; [apply Hempty|]. apply hoare_ret; [apply batch_ready_stable|]. intros w _ Hr.
    destruct (due_sublist now rows ∅ zero_time []) as (l & Hl & ->). by eapply batch_ready_sublist.
Qed.

(** ** The system *)

Definition sys_ok (s : sys (N:=N) (B:=B) (X:=X)) : Prop :=
  ok (sy_world s) /\
  match sy_run s with
  | Ticking p => valid (fun _ => True) (fun _ => True) (fun r => batch_ready r.1) p (sy_world s)
  | Working ps => exists rows, NoDup (hi_ID <$> rows) /\
      Forall2 (fun row p => valid (fun id => id = hi_ID row) (fun id => id <> hi_ID row) (fun _ _ => True) p (sy_world s)) rows ps
  end /\
  Forall (fun p => valid (fun _ => False) (fun _ => True) (fun _ _ => True) p (sy_world s)) (sy_calls s).

(** A call of a thread: the invariant holds after it, the thread goes on as it
    should, and the others see what they rely on. *)
Lemma advance_valid mine others {A} Q (p : prog (N:=N) (B:=B) A) (w : world) p' w' :
  ok w -> valid mine others Q p w -> advance p w = (p', w') ->
  ok w' /\ valid mine others Q p' w' /\ forall ids, (forall id, ids id -> others id) -> rely ids w w'.
Proof.
  intros Hw Hv. destruct p as [a|R c k]; cbn; [intros [= <- <-]; by split; [|split; [|reflexivity]]|].
  destruct (Hv w) as (Hp & Ho & Hk); [reflexivity|done|]. destruct (perform c w) as [r w2] eqn:He. intros [= <- <-].
  split; [exact (perform_ok c w r w2 He Hp Hw)|]. split; [done|]. intros ids Hids.
  apply (perform_rely c w r w2 ids He Hp Hw). intros id Hid Hi. by apply (Ho id), Hids.
Qed.

Lemma calls_later (ps : list (prog (N:=N) (B:=B) unit)) (w w' : world) : rely (fun _ => False) w w' ->
  Forall (fun p => valid (fun _ => False) (fun _ => True) (fun _ _ => True) p w) ps ->
  Forall (fun p => valid (fun _ => False) (fun _ => True) (fun _ _ => True) p w') ps.
Proof. intros Hr H. eapply Forall_impl; [exact H|]. intros p. by apply valid_later. Qed.

Lemma workers_later rows (ps : list (prog (N:=N) (B:=B) unit)) (w w' : world) : (forall ids, rely ids w w') ->
  Forall2 (fun row p => valid (fun id => id = hi_ID row) (fun id => id <> hi_ID row) (fun _ _ => True) p w) rows ps ->
  Forall2 (fun row p => valid (fun id => id = hi_ID row) (fun id => id <> hi_ID row) (fun _ _ => True) p w') rows ps.
Proof. intros Hr H. eapply Forall2_impl; [exact H|]. intros row p. by apply valid_later. Qed.

Lemma tick_starts (w : world) : ok w -> valid (fun _ => True) (fun _ => True) (fun r => batch_ready r.1) (tick cfg) w.
Proof. intros Hw. by apply tick_valid. Qed.

Lemma entry_valid e (w : world) : ok w -> valid (fun _ => False) (fun _ => True) (fun _ _ => True) (entry_prog cfg e) w.
Proof.
  intros Hw. destruct e as [connected n|session account|session reason]; cbn [entry_prog].
  - assert (H : hoare (fun _ => False) (fun _ => True) (fun _ => True) (Accept cfg connected n ≫= fun _ => mret tt) (fun _ _ => True)).
    { apply (hoare_bind _ _ _ (fun _ _ => True)); [apply Accept_valid|]. intros ?. by apply hoare_ret. }
    by apply H.
  - by apply (drop_silent (fun _ => False) (fun _ => True) session account _ (fun _ => True)).
  - by apply (drop_silent (fun _ => False) (fun _ => True) session "" reason (fun _ => True)).
Qed.

(** The [i]th of a group of threads makes a call. *)
Lemma step_thread_spec (i : nat) (ps : list (prog (N:=N) (B:=B) unit)) (w : world) ps' w' : step_thread i ps w = (ps', w') ->
  ps' = ps /\ w' = w \/ exists p p', ps !! i = Some p /\ advance p w = (p', w') /\ ps' = <[i := p']> ps.
Proof.
  unfold step_thread. destruct (ps !! i) as [p|] eqn:Hp; [|intros [= <- <-]; by left].
  destruct (advance p w) as [p' w1] eqn:Ha. intros [= <- <-]. right. by exists p, p'.
Qed.

Lemma step_call_ok i s : sys_ok s -> sys_ok (step cfg patience (LCall i) s).
Proof.
  intros (Hw & Hrun & Hcalls). cbn. destruct (step_thread i (sy_calls s) (sy_world s)) as [ps w'] eqn:Hst.
  apply step_thread_spec in Hst as [[-> ->]|(p & p' & Hp & Ha & ->)]; [done|].
  pose proof (proj1 (Forall_lookup _ _) Hcalls i p Hp) as Hv. cbn in Hv.
  destruct (advance_valid _ _ _ p _ p' w' Hw Hv Ha) as (Hw' & Hv' & Hrel). split; [done|]. cbn. split.
  - destruct (sy_run s) as [t|ts]; [eapply valid_later; [|exact Hrun]; by apply Hrel|].
    destruct Hrun as (rows & Hn & Hf). exists rows. split; [done|]. eapply workers_later; [|exact Hf]. intros ids. by apply Hrel.
  - apply Forall_insert; [eapply calls_later; [|exact Hcalls]; by apply Hrel|done].
Qed.

Lemma step_work_ok i s : sys_ok s -> sys_ok (step cfg patience (LWork i) s).
Proof.
  intros (Hw & Hrun & Hcalls). cbn. destruct (sy_run s) as [t|ts] eqn:Hr; [split; [done|by rewrite Hr]|].
  destruct Hrun as (rows & Hn & Hf). destruct (step_thread i ts (sy_world s)) as [ps w'] eqn:Hst.
  apply step_thread_spec in Hst as [[-> ->]|(p & p' & Hp & Ha & ->)]; [split; [done|]; split; [by exists rows|done]|].
  destruct (Forall2_lookup_r _ _ _ _ _ Hf Hp) as (row & Hrow & Hv).
  destruct (advance_valid _ _ _ p _ p' w' Hw Hv Ha) as (Hw' & Hv' & Hrel). split; [done|]. cbn. split.
  - exists rows. split; [done|]. apply Forall2_same_length_lookup. split; [rewrite length_insert; by eapply Forall2_length|].
    intros j row' q Hrow' Hq. destruct (decide (i = j)) as [->|Hne].
    + rewrite list_lookup_insert_eq in Hq by (by eapply lookup_lt_Some). injection Hq as <-. rewrite Hrow in Hrow'. by injection Hrow' as <-.
    + rewrite list_lookup_insert_ne in Hq by done. pose proof (Forall2_lookup_lr _ _ _ _ _ _ Hf Hrow' Hq) as Hv2.
      eapply valid_later; [|exact Hv2]. apply Hrel. intros id -> Hid. apply Hne. eapply NoDup_lookup; [exact Hn|..]; rewrite list_lookup_fmap.
      * by rewrite Hrow.
      * rewrite Hrow'. cbn. by rewrite Hid.
  - eapply calls_later; [|exact Hcalls]. by apply Hrel.
Qed.

Lemma step_run_ok s : sys_ok s -> sys_ok (step cfg patience LRun s).
Proof.
  intros (Hw & Hrun & Hcalls). cbn. unfold step_run. destruct (sy_run s) as [t|ts] eqn:Hr.
  - destruct t as [[due nextDue]|R c k].
    + specialize (Hrun (sy_world s)). cbn in Hrun. destruct Hrun as [Hn Hready]; [reflexivity|done|]. split; [done|]. split; [|done].
      cbn. exists due. split; [done|]. apply Forall2_fmap_r, Forall_Forall2_diag, Forall_forall. intros row Hin.
      apply process_valid; auto.
    + destruct (advance (Call c k) (sy_world s)) as [p w'] eqn:Ha.
      destruct (advance_valid _ _ _ _ _ p w' Hw Hrun Ha) as (Hw' & Hv' & Hrel). split; [done|]. split; [done|].
      eapply calls_later; [|exact Hcalls]. by apply Hrel.
  - destruct (forallb _ _); [|by split; [|rewrite Hr]]. split; [done|]. split; [by apply tick_starts|done].
Qed.

Lemma thread_step_ok l s : sys_ok s -> sys_ok (step cfg patience l s).
Proof.
  intros Hs. destruct l as [|i|e|i|]; [by apply step_run_ok|by apply step_work_ok| |by apply step_call_ok|].
  - destruct Hs as (Hw & Hrun & Hcalls). split; [done|]. split; [done|]. apply Forall_app. split; [done|].
    apply Forall_singleton. by apply entry_valid.
  - destruct Hs as (Hw & _ & _). split; [done|]. split; [by apply tick_starts|constructor].
Qed.

Lemma schedule_ok ls s : sys_ok s -> sys_ok (steps cfg patience ls s).
Proof. revert s. induction ls as [|l ls IH]; intros s Hs; [done|]. apply IH. by apply thread_step_ok. Qed.

Lemma start_ok x : sys_ok (start cfg x).
Proof.
  assert (Hok : ok (sy_world (start (N:=N) (B:=B) cfg x))).
  { split; cbn; try done; [split; cbn; try constructor|..].
    - by intros r ?%not_elem_of_nil.
    - by intros a b ?%not_elem_of_nil.
    - by intros r ?%not_elem_of_nil.
    - by intros r i ?%not_elem_of_nil.
    - by intros r ?%not_elem_of_nil.
    - by intros id ?%not_elem_of_nil.
    - constructor.
    - by intros u ?%not_elem_of_nil. }
  split; [done|]. split; [by apply tick_starts|constructor].
Qed.

Lemma history_reachable_ok ls x : ok (sy_world (steps cfg patience ls (start cfg x))).
Proof. exact (proj1 (schedule_ok ls _ (start_ok x))). Qed.
End Spec.

#[export] Hint Resolve publish_silent postpone_silent deleteMedia_silent wait_pressure_silent pace_silent ensureRun_silent
  emitFinal_silent emitFinals_silent completeIdle_silent drop_silent : silence.
