(* ===== verification/HistorySafety.v ===== *)
(** The promises of the history worker, as theorems about every run of the system:
    what an acknowledgement is worth, what done means, what the counters count, and
    in what order a session's notifications run; and that in a healthy environment
    a notification is imported. *)
From S2P Require Import Prelude Journal Domain HistoryInbox HistoryConvert HistoryWorker HistorySystem HistorySpec.
From stdpp Require Import pretty.

#[local] Open Scope Z_scope.

(** ** In every reachable state *)

Section Safety.
Context {N B X : Type} `{NL : NotificationLib N} `{WE : WhatsmeowErrors} `{J : JSONLen} `{L : BlobLib B} `{I : EventIDLib}
  `{E : WorkerEnv X N B}.
Variables (cfg : WorkerConfig) (patience : nat).
Abbreviation reached ls x := (sy_world (steps (N:=N) (B:=B) cfg patience ls (start cfg x))).

(** C4: a receipt goes to the phone only for a notification that was stored
    before, and from then on, through any interleaving of the worker's goroutines
    and through crashes, the notification is in the inbox as pending or was
    settled: done, failed or discarded. *)
Theorem acknowledged_notifications_are_kept ls x i session notification err :
  hw_trace (reached ls x) !! i = Some (Receipt session notification err) ->
  (exists j, (j < i)%nat /\ hw_trace (reached ls x) !! j = Some (Kept session notification)) /\
  ((exists r, r ∈ h_inbox (hw_db (reached ls x)) /\ is_pending r = true /\
      in_session r = session /\ in_notification_id r = notification) \/
   exists status, Settled session notification status ∈ hw_trace (reached ls x)).
Proof.
  intros Hl. pose proof (history_reachable_ok cfg patience ls x) as Hok.
  destruct (iv_receipt _ _ Hok i session notification err Hl) as (j & Hj & Hk). split; [by exists j|].
  apply (iv_kept _ _ Hok). by eapply list_elem_of_lookup_2.
Qed.

(** C5: a notification with the import on is done only when a blob of its session
    was downloaded and the sink has accepted every batch the blob converts to and
    the progress event; and the cursor of any notification counts batches that the
    sink has accepted, so that what is skipped after a crash was sent. *)
Theorem done_means_delivered ls x r :
  r ∈ h_inbox (hw_db (reached ls x)) ->
  (in_status r = HistoryDone -> in_import_enabled r = true -> delivered r (hw_trace (reached ls x))) /\
  forall i : nat, Z.of_nat i < in_batches_done r -> accepted (batch_id r i) (hw_trace (reached ls x)).
Proof.
  intros Hr. pose proof (history_reachable_ok cfg patience ls x) as Hok. split; [by apply (iv_done _ _ Hok)|].
  intros i Hi. by apply (iv_cursor _ _ Hok).
Qed.

(** C16: every notification is finished at most once, whatever runs at the same
    time and however often the process dies, and the counters of a run are the sums
    of what its finished notifications reported since the run was created. *)
Theorem notifications_are_counted_once ls x :
  NoDup (finished_ids (hw_trace (reached ls x))) /\
  Forall (fun u => counts u = run_totals (ru_run_id u) (hw_trace (reached ls x))) (h_runs (hw_db (reached ls x))).
Proof.
  pose proof (history_reachable_ok cfg patience ls x) as Hok. split; [apply (iv_once _ _ Hok)|].
  apply Forall_forall, (iv_counters _ _ Hok).
Qed.

(** ** The order of a session *)

Lemma due_rows_spec now rows : forall seen nextDue due,
  exists l, (due_rows cfg now seen nextDue due rows).1 = due ++ l /\
    len (due ++ l) <= Z.max (len due) (wc_Concurrency cfg) /\
    (forall row, row ∈ l -> hi_SessionID row ∉ seen) /\ NoDup (hi_SessionID <$> l) /\
    forall row, row ∈ l -> After (hi_NextAttemptAt row) now = false /\
      exists before after, rows = before ++ row :: after /\ forall o, o ∈ before -> hi_SessionID o <> hi_SessionID row.
Proof.
  induction rows as [|row rows IH]; intros seen nextDue due; cbn.
  { exists []. rewrite app_nil_r. split; [done|]. split; [lia|]. split; [by intros row ?%not_elem_of_nil|]. split; [constructor|].
    by intros row ?%not_elem_of_nil. }
  assert (Hskip : forall l : list HistoryInboxRow, (forall o, o ∈ l -> hi_SessionID o <> hi_SessionID row) ->
    (forall o, o ∈ l -> After (hi_NextAttemptAt o) now = false /\
      exists before after, rows = before ++ o :: after /\ forall q, q ∈ before -> hi_SessionID q <> hi_SessionID o) ->
    forall o, o ∈ l -> After (hi_NextAttemptAt o) now = false /\
      exists before after, row :: rows = before ++ o :: after /\ forall q, q ∈ before -> hi_SessionID q <> hi_SessionID o).
  { intros l Hne Hl o Ho. destruct (Hl o Ho) as (Ha & before & after & -> & Hb). split; [done|]. exists (row :: before), after.
    split; [done|]. intros q [->|Hq]%elem_of_cons; [intros Heq; by apply (Hne o Ho)|by apply Hb]. }
  destruct (decide (hi_SessionID row ∈ seen)) as [Hin|Hnin].
  { destruct (IH seen nextDue due) as (l & He & Hlen & Hs & Hn & Hl). exists l. split; [done|]. split; [done|]. split; [done|]. split; [done|].
    apply Hskip; [|done]. intros o Ho Heq. apply (Hs o Ho). by rewrite Heq. }
  destruct (After (hi_NextAttemptAt row) now) eqn:Hafter.
  { edestruct IH as (l & He & Hlen & Hs & Hn & Hl). exists l. split; [exact He|]. split; [done|]. split; [|split; [done|]].
    - intros o Ho Hin. apply (Hs o Ho). set_solver.
    - apply Hskip; [|done]. intros o Ho Heq. apply (Hs o Ho). rewrite Heq. set_solver. }
  destruct (len due <? wc_Concurrency cfg) eqn:Hroom.
  - destruct (IH ({[hi_SessionID row]} ∪ seen) nextDue (due ++ [row])) as (l & He & Hlen & Hs & Hn & Hl). exists (row :: l).
    assert (Hne : forall o, o ∈ l -> hi_SessionID o <> hi_SessionID row) by (intros o Ho Heq; apply (Hs o Ho); rewrite Heq; set_solver).
    rewrite He, <- app_assoc. split; [done|]. split; [|split; [|split]].
    + rewrite <- app_assoc in Hlen. unfold len in *. rewrite !length_app in *. cbn in *. to_prop. lia.
    + intros o [->|Ho]%elem_of_cons; [done|]. intros Hin. apply (Hs o Ho). set_solver.
    + cbn. constructor; [|done]. intros (o & Heq & Ho)%list_elem_of_fmap. by apply (Hne o Ho).
    + intros o [->|Ho]%elem_of_cons; [|by apply (Hskip l)]. split; [done|]. exists [], rows. split; [done|]. by intros q ?%not_elem_of_nil.
  - destruct (IH ({[hi_SessionID row]} ∪ seen) nextDue due) as (l & He & Hlen & Hs & Hn & Hl). exists l.
    split; [done|]. split; [done|]. split; [|split; [done|]].
    + intros o Ho Hin. apply (Hs o Ho). set_solver.
    + apply Hskip; [|done]. intros o Ho Heq. apply (Hs o Ho). rewrite Heq. set_solver.
Qed.

(** C35: a pass takes at most as many notifications as it may run at once, no two
    of one session, and of a session only the oldest that is pending, once it is
    due: a session's notifications run strictly in order. *)
Theorem sessions_run_in_order now rows :
  let due := (due_rows cfg now ∅ zero_time [] rows).1 in
  len due <= Z.max 0 (wc_Concurrency cfg) /\ NoDup (hi_SessionID <$> due) /\
  Forall (fun row => After (hi_NextAttemptAt row) now = false /\
    exists before after, rows = before ++ row :: after /\ Forall (fun o => hi_SessionID o <> hi_SessionID row) before) due.
Proof.
  destruct (due_rows_spec now rows ∅ zero_time []) as (l & He & Hlen & _ & Hn & Hl). cbv zeta. rewrite He. split; [done|]. split; [done|].
  apply Forall_forall. intros row Hin. destruct (Hl row Hin) as (Ha & before & after & Hr & Hb). split; [done|].
  exists before, after. split; [done|]. by apply Forall_forall.
Qed.
End Safety.

(** ** In a healthy environment *)

(** SQLite executes, the session is connected with the row's account and owned,
    the journal is healthy, the sink accepts, and blobs download. *)
Class Healthy {N B X : Type} `{WorkerEnv X N B} (account : string) := {
  hl_faults x : (we_faults x).1 = [];
  hl_client session x : (we_client session x).1 = MkSessionClient true account true;
  hl_owns organization session x : (we_owns organization session x).1 = true;
  hl_paused x : (we_paused x).1 = false;
  hl_sleep d x : (we_sleep d x).1 = None;
  hl_publish ev x : (we_publish ev x).1 = None;
  hl_download session notif x : exists blob, (we_download session notif x).1 = inr blob;
}.

Section Alone.
Context {N B X : Type} `{NL : NotificationLib N} `{WE : WhatsmeowErrors} `{J : JSONLen} `{L : BlobLib B} `{I : EventIDLib}
  `{E : WorkerEnv X N B}.
Variables (cfg : WorkerConfig) (patience : nat).
Abbreviation world := (world (B:=B) (X:=X)).

(** A thread that runs by itself. *)
Fixpoint run_alone {A} (p : prog (N:=N) (B:=B) A) (w : world) : A * world :=
  match p with
  | Ret a => (a, w)
  | Call c k => let '(r, w) := perform c w in run_alone (k r) w
  end.

(** It does so by calls of the system, finitely many. *)
Lemma run_alone_advances {A} (p : prog A) (w : world) : exists n, Nat.iter n (fun '(p, w) => advance p w) (p, w) =
  (Ret (run_alone p w).1, (run_alone p w).2).
Proof.
  revert w. induction p as [a|R c k IH]; intros w; [by exists O|]. cbn. destruct (perform c w) as [r w'] eqn:He.
  destruct (IH r w') as [n Hn]. exists (Datatypes.S n). rewrite Nat.iter_succ_r. cbn. by rewrite He.
Qed.

(** [runs P p Q]: from [P], alone, [p] returns into [Q]. *)
Definition runs {A} (P : world -> Prop) (p : prog (N:=N) (B:=B) A) (Q : A -> world -> Prop) : Prop :=
  forall w, P w -> let '(a, w') := run_alone p w in Q a w'.

Lemma runs_ret {A} (P : world -> Prop) (a : A) (Q : A -> world -> Prop) : (forall w, P w -> Q a w) -> runs P (mret a) Q.
Proof. intros H w Hw. by apply H. Qed.
Lemma runs_call {R} P (c : call R) (Q : R -> world -> Prop) :
  (forall w r w', P w -> perform c w = (r, w') -> Q r w') -> runs P (do c) Q.
Proof. intros H w Hw. cbn. destruct (perform c w) as [r w'] eqn:He. by eapply H. Qed.
Lemma runs_bind {A C} P (p : prog A) (k : A -> prog C) R Q :
  runs P p R -> (forall a, runs (R a) (k a) Q) -> runs P (p ≫= k) Q.
Proof.
  intros Hp Hk w Hw. specialize (Hp w Hw). clear Hw. revert w Hp. induction p as [a|T c f IH]; intros w; cbn.
  - apply Hk.
  - destruct (perform c w) as [r w']. apply IH.
Qed.

(** *** A pending row *)

Variable r0 : inbox_row.
Context `{HL : !Healthy (N:=N) (B:=B) (X:=X) (in_account r0)}.
Abbreviation row := (scan_inbox r0).

Definition waiting (w : world) : Prop := exists r, r ∈ h_inbox (hw_db w) /\ in_id r = in_id r0 /\ is_pending r = true.
Definition settled_as (status : string) (w : world) : Prop :=
  exists r, r ∈ h_inbox (hw_db w) /\ in_id r = in_id r0 /\ in_status r = status.

(** A store call succeeds, and has its effect. *)
Lemma store_succeeds {A} (c : store_call A) (w : world) r w' : perform (Store c) w = (r, w') ->
  exists now d, store_run c now (Db (hw_db w) []) = (r, d) /\ hw_db w' = rows d.
Proof.
  cbn. unfold perform_store. pose proof (hl_faults (hw_env w)) as Hf. destruct (we_faults (hw_env w)) as [fs x]. cbn in Hf. subst fs.
  destruct (we_now x) as [now x']. destruct (store_run c (UnixMilli now) (Db (hw_db w) [])) as [res d] eqn:Hrun.
  intros [= <- <-]. by exists (UnixMilli now), d.
Qed.

Definition guarded {A} (c : store_call A) : bool := match c with CEnqueue _ => true | _ => false end.
Lemma store_returns {A} (c : store_call A) now s r d : guarded c = false -> store_run c now (Db s []) = (r, d) ->
  (exists a, r = inr a) /\ rows d = effect c now s.
Proof.
  intros Hg Hrun. assert (Hr : exists a, r = inr a).
  { destruct c; try done; cbn in Hrun; try (injection Hrun as <- _; by eexists).
    unfold FinishHistory in Hrun. destruct delta; cbn in Hrun; injection Hrun as <- _; by eexists. }
  split; [done|]. destruct Hr as [a ->]. exact (store_run_effect c now s (Db s []) (inr a) d eq_refl Hrun).
Qed.

(** A call that is not a discard or a finish leaves the row waiting. *)
Definition calm {A} (c : store_call A) : bool :=
  match c with CEnqueue _ | CDiscard _ _ _ | CFinish _ _ _ _ => false | _ => true end.
Lemma calm_rows {A} (c : store_call A) now s r : calm c = true -> r ∈ h_inbox s -> is_pending r = true ->
  exists r', r' ∈ h_inbox (effect c now s) /\ in_id r' = in_id r /\ is_pending r' = true.
Proof.
  intros Hc Hr Hp. assert (Hup : forall p f, (forall r, in_id (f r) = in_id r /\ in_status (f r) = in_status r) ->
    exists r', r' ∈ update_where p f (h_inbox s) /\ in_id r' = in_id r /\ is_pending r' = true).
  { intros p f Hf. exists (if p r then f r else r). split; [apply elem_update_where; eauto|]. destruct (Hf r) as [Hid Hst].
    unfold is_pending in *. destruct (p r); [by rewrite Hid, Hst|done]. }
  destruct c; try done; cbn; try (exists r; done); try (apply Hup; intros; done).
  - exists r. unfold insert_run. by destruct (existsb _ _).
  - exists r. split; [|done]. apply list_elem_of_In, filter_In. split; [by apply list_elem_of_In|]. unfold prunable_row. by rewrite Hp.
Qed.

(** Whether a call keeps the row waiting. *)
Definition gentle {R} (c : call (N:=N) (B:=B) R) : bool := match c with Store c => calm c | _ => true end.
Lemma gentle_waits {R} (c : call R) (w : world) r w' : gentle c = true -> waiting w -> perform c w = (r, w') -> waiting w'.
Proof.
  intros Hg (x & Hx & Hid & Hp) He. unfold waiting. destruct c; cbn [perform] in He;
    try (apply ask_spec in He as [-> _]; by exists x); try (apply ask_log_spec in He as [-> _]; by exists x);
    try (injection He as <- <-; by exists x).
  apply store_succeeds in He as (now & d & Hrun & ->). cbn in Hg.
  destruct (store_returns c now (hw_db w) r d) as [_ ->]; [by destruct c|done|].
  destruct (calm_rows c now (hw_db w) x Hg Hx Hp) as (x' & Hx' & Hid' & Hp'). exists x'. split; [done|]. split; [congruence|done].
Qed.
Lemma runs_gentle {R} (c : call R) (Q : R -> Prop) : gentle c = true ->
  (forall w r w', perform c w = (r, w') -> Q r) -> runs waiting (do c) (fun r w => Q r /\ waiting w).
Proof. intros Hg Hq. apply runs_call. intros w r w' Hw He. split; [by eapply Hq|by eapply gentle_waits]. Qed.

(** A program that keeps it waiting and answers in [Q]. *)
Definition waits {A} (p : prog (N:=N) (B:=B) A) (Q : A -> Prop) : Prop := runs waiting p (fun a w => Q a /\ waiting w).
Lemma waits_ret {A} (a : A) (Q : A -> Prop) : Q a -> waits (mret a) Q.
Proof. intros H. by apply runs_ret. Qed.
Lemma waits_bind {A C} (p : prog A) (k : A -> prog C) R Q : waits p R -> (forall a, R a -> waits (k a) Q) -> waits (p ≫= k) Q.
Proof. intros Hp Hk. eapply runs_bind; [exact Hp|]. intros a w [Ha Hw]. by apply Hk. Qed.
Lemma waits_call {R} (c : call R) Q : gentle c = true -> (forall w r w', perform c w = (r, w') -> Q r) -> waits (do c) Q.
Proof. apply runs_gentle. Qed.
Lemma waits_any {R} (c : call R) : gentle c = true -> waits (do c) (fun _ => True).
Proof. intros Hg. by apply waits_call. Qed.

Lemma waits_publish session organization id typ payload : waits (publish session organization id typ payload) (fun r => r = None).
Proof.
  eapply waits_bind; [by apply waits_any|]. intros now _. apply waits_call; [done|]. intros w r w' He. cbn in He. unfold ask_log in He.
  match type of He with context [we_publish ?ev ?x] => pose proof (hl_publish ev x) as Hp; destruct (we_publish ev x) as [a x'] end.
  injection He as <- _. exact Hp.
Qed.

Lemma waits_pace : (0 < patience)%nat -> waits (pace cfg patience (hi_SessionID row)) (fun r => r = None).
Proof.
  intros Hpat. unfold pace. eapply waits_bind with (R := fun r => r = None).
  { destruct (wc_Paused cfg); [|by apply waits_ret]. destruct patience as [|polls]; [lia|]. cbn [wait_pressure].
    eapply waits_bind with (R := fun b => b = false).
    - apply waits_call; [done|]. intros w r w' He. cbn in He. unfold ask in He. pose proof (hl_paused (hw_env w)) as Hp.
      destruct (we_paused _) as [a x']. injection He as <- _. exact Hp.
    - intros b ->. by apply waits_ret. }
  intros held ->. eapply waits_bind; [by apply waits_any|]. intros last _. eapply waits_bind; [by apply waits_any|]. intros now _.
  cbv zeta. eapply waits_bind with (R := fun r => r = None).
  { destruct (0 <? _); [|by apply waits_ret]. apply waits_call; [done|]. intros w r w' He. cbn in He. unfold ask in He.
    match type of He with context [we_sleep ?d ?x] => pose proof (hl_sleep d x) as Hp; destruct (we_sleep d x) as [a x'] end.
    injection He as <- _. exact Hp. }
  intros err ->. eapply waits_bind; [by apply waits_any|]. intros t _. eapply waits_bind; [by apply waits_any|]. intros ? _. by apply waits_ret.
Qed.

Lemma waits_batches i batches : (0 < patience)%nat -> waits (publish_batches cfg patience row i batches) (fun b => b = true).
Proof.
  intros Hpat. revert i. induction batches as [|b rest IH]; intros i; cbn [publish_batches]; [by apply waits_ret|].
  eapply waits_bind; [by apply waits_pace|]. intros r ->. eapply waits_bind; [apply waits_publish|]. intros r ->.
  eapply waits_bind; [by apply waits_any|]. intros ? _. apply IH.
Qed.

Lemma waits_store {A} (c : store_call A) : calm c = true -> waits (do (Store c)) (fun r => exists a, r = inr a).
Proof.
  intros Hc. apply waits_call; [done|]. intros w r w' (now & d & Hrun & _)%store_succeeds.
  by destruct (store_returns c now (hw_db w) r d) as [Ha _]; [destruct c| |].
Qed.

(** Creating a run and reading it back. *)
Lemma waits_ensureRun : waits (ensureRun row) (fun r => exists run, r = inr run).
Proof.
  unfold ensureRun. eapply waits_bind; [by apply waits_store|]. intros r ([run|] & ->); [apply waits_ret; eauto|].
  cbv zeta. eapply waits_bind; [by apply waits_any|]. intros now _.
  set (id := RunID (hi_NotifiedAt row) (hi_SessionID row) (hi_NotificationID row)).
  set (there := fun w : world => exists u, u ∈ h_runs (hw_db w) /\ ru_run_id u = id).
  apply (runs_bind _ _ _ (fun r w => (exists a, r = inr a) /\ waiting w /\ there w)).
  - apply runs_call. intros w r w' Hw He. split; [|split; [by eapply gentle_waits; [|exact Hw|exact He]|]].
    + apply store_succeeds in He as (t & d & Hrun & _). by destruct (store_returns (CCreateRun _) t (hw_db w) r d eq_refl Hrun) as [Ha _].
    + apply store_succeeds in He as (t & d & Hrun & Hd). destruct (store_returns (CCreateRun _) t (hw_db w) r d eq_refl Hrun) as [_ Hrows].
      unfold there. rewrite Hd, Hrows. cbn [effect]. unfold insert_run. destruct (existsb _ _) eqn:Hx.
      * apply existsb_exists in Hx as (u & Hu%list_elem_of_In & Heq). to_prop. by exists u.
      * cbn. eexists. split; [apply elem_of_app; right; by apply list_elem_of_singleton|done].
  - intros r w [([] & ->) [Hw (u & Hu & Hid)]].
    apply (runs_bind (fun w => waiting w /\ there w) _ _ (fun r w => (exists run, r = inr (Some run)) /\ waiting w)); [|..|split; [done|by exists u]].
    + apply runs_call. intros v q v' [Hv (x & Hx & Hxid)] He. split; [|by eapply gentle_waits; [|exact Hv|exact He]].
      apply store_succeeds in He as (t & d & Hrun & _). cbn in Hrun. injection Hrun as <- _.
      destruct (List.filter (fun r => bool_decide (ru_run_id r = id)) (h_runs (hw_db v))) as [|y l] eqn:Hf; [|by exists (scan_run y)].
      exfalso. assert (Hin : In x []); [|done]. rewrite <- Hf. apply filter_In. split; [by apply list_elem_of_In|by apply bool_decide_eq_true].
    + intros r' w' [(run & ->) Hw']. cbn. split; [by exists run|done].
Qed.

(** The last of it: the row is done. *)
Lemma runs_finish delta :
  runs waiting (finish row HistoryDone "" delta) (fun b w => b = true /\ settled_as HistoryDone w).
Proof.
  unfold finish. eapply runs_bind with (R := fun r w => (exists a, r = inr a) /\ settled_as HistoryDone w).
  - apply runs_call. intros w r w' (x & Hx & Hid & Hp) (now & d & Hrun & Hd)%store_succeeds.
    destruct (store_returns (CFinish (hi_ID row) HistoryDone "" delta) now (hw_db w) r d eq_refl Hrun) as [Ha Hrows]. split; [done|].
    unfold settled_as. rewrite Hd, Hrows. exists (set_status HistoryDone "" now x). split; [|done].
    assert (Hin : set_status HistoryDone "" now x ∈
      update_where (fun r => (in_id r =? in_id r0) && is_pending r) (set_status HistoryDone "" now) (h_inbox (hw_db w))).
    { apply elem_update_where. exists x. split; [done|]. by rewrite (proj2 (Z.eqb_eq _ _) Hid), Hp. }
    destruct delta; exact Hin.
  - intros r w [(a & ->) Hs]. done.
Qed.

(** What follows leaves it so. *)
Definition still {R} (c : call (N:=N) (B:=B) R) : bool :=
  match c with Store (CHasPending _) | Store (CEndRun _ _ _) => true | Store _ => false | _ => true end.
Lemma runs_still {R} status (c : call R) : still c = true -> runs (settled_as status) (do c) (fun _ => settled_as status).
Proof.
  intros Hc. apply runs_call. intros w r w' Hw He. unfold settled_as in *.
  assert (Hin : h_inbox (hw_db w') = h_inbox (hw_db w)); [|by rewrite Hin].
  destruct c; cbn [perform] in He; try (apply ask_spec in He as [-> _]; done); try (apply ask_log_spec in He as [-> _]; done);
    try (by injection He as <- <-).
  apply store_succeeds in He as (now & d & Hrun & ->). destruct c; try done.
  - destruct (store_returns (CHasPending _) now (hw_db w) r d eq_refl Hrun) as [_ ->]. done.
  - destruct (store_returns (CEndRun _ _ _) now (hw_db w) r d eq_refl Hrun) as [_ ->]. done.
Qed.
Lemma runs_done {A} status (a : A) : runs (settled_as status) (mret a) (fun _ => settled_as status).
Proof. by apply runs_ret. Qed.

Lemma runs_deleteMedia status notif : runs (settled_as status) (deleteMedia row notif) (fun _ => settled_as status).
Proof.
  unfold deleteMedia. destruct (bool_decide _); [apply runs_done|].
  eapply runs_bind; [by apply runs_still|]. intros ?. apply runs_done.
Qed.

Lemma runs_import notif blob run : (0 < patience)%nat ->
  runs waiting (import cfg patience row notif blob run) (fun _ => settled_as HistoryDone).
Proof.
  intros Hpat. unfold import.
  eapply runs_bind with (R := fun r w => r = None /\ waiting w).
  { destruct (_ =? 0); [apply waits_publish|by apply waits_ret]. }
  intros r w [-> Hw]. revert w Hw. cbv zeta. eapply runs_bind; [by apply waits_batches|]. intros b w [-> Hw]. revert w Hw. cbn [negb].
  eapply runs_bind; [apply waits_publish|]. intros r w [-> Hw]. revert w Hw.
  eapply runs_bind; [apply runs_finish|]. intros b w [-> Hw]. revert w Hw. cbn [negb].
  eapply runs_bind; [apply runs_deleteMedia|]. intros ?. destruct (completes _ _); [|apply runs_done].
  eapply runs_bind; [by apply runs_still|]. intros [e|[]]; [apply runs_done..|].
  eapply runs_bind; [by apply runs_still|]. intros ?. apply runs_done.
Qed.

(** C25: in a healthy environment, processing a pending notification that decodes
    returns with the notification done: whatever its blob holds, with the import on
    or off, after however many attempts before. *)
Theorem healthy_notifications_get_done notif (w : world) :
  (0 < patience)%nat -> nl_Unmarshal (in_notification r0) = inr notif -> waiting w ->
  settled_as HistoryDone (run_alone (process cfg patience row) w).2.
Proof.
  intros Hpat Hn Hw. assert (H : runs waiting (process cfg patience row) (fun _ => settled_as HistoryDone)).
  2:{ specialize (H w Hw). by destruct (run_alone _ w). }
  clear w Hw. unfold process.
  eapply runs_bind with (R := fun c w => c = MkSessionClient true (in_account r0) true /\ waiting w).
  { apply runs_gentle; [done|]. intros w r w' He. cbn in He. unfold ask in He.
    pose proof (hl_client (in_session r0) (hw_env w)) as Hp. destruct (we_client _ _) as [a x']. injection He as <- _. exact Hp. }
  intros c w [-> Hw]. revert w Hw. cbn [negb sc_known sc_account sc_connected].
  rewrite (bool_decide_true (in_account r0 = hi_AccountJID row)) by done. rewrite andb_false_r.
  eapply runs_bind with (R := fun b w => b = true /\ waiting w).
  { destruct (wc_Owns cfg); [|by apply waits_ret]. apply runs_gentle; [done|]. intros w r w' He. cbn in He. unfold ask in He.
    match type of He with context [we_owns ?a ?b ?x] => pose proof (hl_owns a b x) as Hp; destruct (we_owns a b x) as [o x'] end.
    injection He as <- _. exact Hp. }
  intros b w [-> Hw]. revert w Hw. cbn [negb hi_Notification scan_inbox]. rewrite Hn.
  eapply runs_bind with (R := fun r w => (exists blob, r = inr blob) /\ waiting w).
  { apply runs_gentle; [done|]. intros w r w' He. cbn in He. unfold ask_log in He.
    match type of He with context [we_download ?a ?b ?x] => pose proof (hl_download a b x) as Hp; destruct (we_download a b x) as [o x'] end.
    injection He as <- _. exact Hp. }
  intros r w [(blob & ->) Hw]. revert w Hw. destruct (negb _).
  - eapply runs_bind; [apply runs_finish|]. intros b w [_ Hs]. revert w Hs. apply runs_deleteMedia.
  - eapply runs_bind; [apply waits_ensureRun|]. intros r w [(run & ->) Hw]. revert w Hw. by apply runs_import.
Qed.
End Alone.

(** ** A sample run *)

Module Sample.
Import HistoryConvert.Sample.
Definition account : string := "9@s.whatsapp.net".
#[export] Instance env : WorkerEnv unit bytes unit := {
  we_now x := (1700000000000000000, x);
  we_faults x := ([], x);
  we_client _ x := (MkSessionClient true account true, x);
  we_owns _ _ x := (true, x);
  we_days _ x := (Some 30, x);
  we_paused x := (false, x);
  we_sleep _ x := (None, x);
  we_publish _ x := (None, x);
  we_download _ _ x := (inr tt, x);
  we_receipt _ _ x := (None, x);
  we_server_error _ _ _ x := (None, x);
  we_delete _ _ x := (None, x);
}.
#[export] Instance notifications : NotificationLib bytes := {
  nl_Marshal := inr; nl_Unmarshal := inr; nl_DirectPath _ := "/history" }.
#[export] Instance errors : WhatsmeowErrors := {
  ErrMediaDownloadFailedWith404 := ErrMsg "404"; ErrMediaDownloadFailedWith410 := ErrMsg "410";
  ErrInvalidMediaHMAC := ErrMsg "hmac"; ErrInvalidMediaSHA256 := ErrMsg "sha256"; ErrNoURLPresent := ErrMsg "no url" }.
#[export] Instance healthy : Healthy (N:=bytes) (B:=unit) (X:=unit) account.
Proof. split; try done. intros. by exists tt. Defined.

Definition cfg : WorkerConfig := NewWorker_config (MkWorkerConfig 0 0 0 0 false true true true).
Definition notice : Intercepted bytes := MkIntercepted bytes "s1" "o1" "n1" account zero_time (Some [x01%byte]) 30.

(** A notification arrives; the process dies in the middle of its import, starts
    again, and imports it. *)
Definition schedule : list label :=
  [LSpawn (EnAccept true notice)] ++ replicate 5 (LCall 0) ++ replicate 12 LRun ++ replicate 14 (LWork 0) ++ [LCrash] ++
  replicate 12 LRun ++ replicate 40 (LWork 0) ++ replicate 20 LRun.
Abbreviation final := (sy_world (steps (N:=bytes) (B:=unit) cfg 3 schedule (start cfg tt))).

(** The row as it is stored. *)
Definition stored : inbox_row := MkInboxRow 1 "s1" "o1" "n1" account [x01%byte] 1700000000000 0 true HistoryPending 0 0 0 false "" 0 0.
Definition midway : world (B:=unit) (X:=unit) := MkWorld (MkHdb [stored] 2 []) tt ∅ zero_time [].
End Sample.
Import HistoryConvert.Sample Sample.

Theorem acknowledged_notifications_are_kept_witness :
  hw_trace final !! 1%nat = Some (Receipt "s1" "n1" None) /\ exists j, (j < 1)%nat /\ hw_trace final !! j = Some (Kept "s1" "n1").
Proof.
  assert (H : hw_trace final !! 1%nat = Some (Receipt "s1" "n1" None)) by (vm_compute; reflexivity).
  split; [exact H|exact (proj1 (acknowledged_notifications_are_kept cfg 3 schedule tt 1 "s1" "n1" None H))].
Defined.

Definition done_row : inbox_row := MkInboxRow 1 "s1" "o1" "n1" account [x01%byte] 1700000000000 1697408000000 true HistoryDone 0 0 1 false ""
  1700000000000 1700000000000.
Theorem done_means_delivered_witness : h_inbox (hw_db final) = [done_row] /\ delivered done_row (hw_trace final).
Proof.
  assert (H : h_inbox (hw_db final) = [done_row]) by (vm_compute; reflexivity). split; [exact H|].
  refine (proj1 (done_means_delivered cfg 3 schedule tt done_row _) eq_refl eq_refl).
  rewrite H. by left.
Defined.

Theorem healthy_notifications_get_done_witness :
  waiting stored midway /\ settled_as stored HistoryDone (run_alone (process cfg 3 (scan_inbox stored)) midway).2.
Proof.
  assert (H : waiting stored midway) by (exists stored; split; [by left|done]).
  split; [exact H|]. apply (healthy_notifications_get_done cfg 3 stored (HL:=healthy) [x01%byte] midway); [lia|reflexivity|exact H].
Defined.
