(* ===== verification/ChatTables.v ===== *)
(** The WhatsApp data of the API: the rows of [chats], [messages],
    [whatsapp_identities], [whatsapp_groups], [whatsapp_group_members], [polls],
    [poll_votes], [history_sync_runs] and [history_sync_batches], and the pairing
    columns of [wa_sessions], as [migrations] create them (surrogate keys aside),
    and what each SQL statement of [store/queries/*.sql] and [store/history.go]
    does to them. JSON columns hold the text written to them; ids and JIDs are
    compared exactly; a [msg_] ULID is never drawn twice. *)
From S2P Require Import Prelude Journal Domain EventIngest GatewayTables.

#[local] Open Scope Z_scope.

Definition ChatDM : string := "dm".
Definition ChatGroup : string := "group".
Definition ChatNewsletter : string := "newsletter".
Definition ChatBroadcast : string := "broadcast".
Definition ChatStatus : string := "status".
Definition DirectionIn : string := "in".
Definition DirectionOut : string := "out".
Definition OriginLive : string := "live".
Definition OriginHistory : string := "history".
Definition RoleMember : string := "member".
Definition RoleAdmin : string := "admin".
Definition RoleSuperAdmin : string := "superadmin".

(** ** Rows *)

(** A row of [chats], by session and JID. *)
Record chat_row := MkChatRow {
  ch_type : string;
  ch_name : option string;
  ch_last_message_at : option Z;
  ch_unread_count : Z;
  ch_archived : bool;
  ch_pinned : bool;
  ch_muted_until : option Z;
}.

(** A row of [messages], by session and WhatsApp id. *)
Record message_row := MkMessageRow {
  mg_id : string;
  mg_chat_jid : string;
  mg_sender_lid : option string;
  mg_sender_jid : option string;
  mg_from_me : bool;
  mg_direction : string;
  mg_type : string;
  mg_body : option string;
  mg_quoted_message_id : option string;
  mg_mentions : option bytes;
  mg_has_media : bool;
  mg_media_meta : option bytes;
  mg_status : option MessageStatus;
  mg_ack_level : option Z;
  mg_error : option string;
  mg_edited : bool;
  mg_deleted : bool;
  mg_timestamp : Z;
  mg_raw_json : option bytes;
  mg_created_at : Z;
  mg_origin : string;
}.

(** A row of [whatsapp_identities], by LID. *)
Record identity_row := MkIdentityRow {
  id_phone_number : option string;
  id_phone_jid : option string;
  id_name : option string;
  id_business_name : option string;
  id_first_seen_at : Z;
  id_updated_at : Z;
}.

Record group_row := MkGroupRow {
  gp_subject : option string;
  gp_description : option string;
  gp_owner_jid : option string;
  gp_participant_count : option Z;
  gp_is_announce : option bool;
  gp_is_locked : option bool;
  gp_created_at_wa : option Z;
  gp_first_seen_at : Z;
  gp_updated_at : Z;
}.

(** By session, group and LID. *)
Record member_row := MkMemberRow {
  mb_tag : option string;
  mb_role : string;
  mb_first_seen_at : Z;
  mb_last_seen_at : Z;
}.

(** By session and message id. *)
Record poll_row := MkPollRow {
  pl_chat_jid : string;
  pl_name : option string;
  pl_options : bytes;
  pl_selectable_count : Z;
  pl_end_time : option Z;
  pl_hide_votes : bool;
  pl_recap_emitted_at : option Z;
  pl_created_at : Z;
  pl_updated_at : Z;
}.

(** By session, poll, voter and timestamp. *)
Record vote_row := MkVoteRow {
  vt_selected_options : bytes;
  vt_raw_json : option bytes;
}.

(** What pairing writes of a row of [wa_sessions]. *)
Record pairing_row := MkPairingRow {
  pr_status : SessionStatus;
  pr_wa_jid : option string;
  pr_wa_lid : option string;
  pr_phone_number : option string;
  pr_data_account_jid : option string;
  pr_account_changed_at : option Z;
  pr_updated_at : Z;
}.

(** What the gateway said of a run, and what the API did. *)
Record sync_counts := MkSyncCounts {
  sc_chunks : Z;
  sc_batches : Z;
  sc_conversations : Z;
  sc_messages : Z;
  sc_skipped : Z;
}.
Record import_counts := MkImportCounts {
  ic_batches_applied : Z;
  ic_imported : Z;
  ic_existing : Z;
  ic_dropped : Z;
}.

(** A row of [history_sync_runs], by session and run. *)
Record sync_run := MkSyncRun {
  sr_account_jid : option string;
  sr_status : string;
  sr_sync_type : option string;
  sr_progress : option Z;
  sr_cutoff_at : option Z;
  sr_counts : sync_counts;
  sr_import : import_counts;
  sr_error : option string;
  sr_started_at : Z;
  sr_updated_at : Z;
  sr_finished_at : option Z;
}.

(** A row of [history_sync_batches], by event id. *)
Record batch_row := MkBatchRow {
  bt_session_id : string;
  bt_run_id : string;
  bt_imported : Z;
  bt_existing : Z;
  bt_dropped : Z;
  bt_applied_at : Z;
}.

Record cdb := MkCdb {
  c_chats : gmap string (gmap string chat_row);
  c_messages : gmap (string * string) message_row;
  c_identities : gmap string identity_row;
  c_groups : gmap string group_row;
  c_members : gmap (string * string * string) member_row;
  c_polls : gmap (string * string) poll_row;
  c_votes : gmap (string * string * string * Z) vote_row;
  c_sessions : gmap string pairing_row;
  c_runs : gmap (string * string) sync_run;
  c_batches : gmap string batch_row;
}.

Definition on_chats (f : gmap string (gmap string chat_row) -> gmap string (gmap string chat_row)) (t : cdb) : cdb :=
  MkCdb (f (c_chats t)) (c_messages t) (c_identities t) (c_groups t) (c_members t) (c_polls t) (c_votes t) (c_sessions t) (c_runs t) (c_batches t).
Definition on_messages (f : gmap (string * string) message_row -> gmap (string * string) message_row) (t : cdb) : cdb :=
  MkCdb (c_chats t) (f (c_messages t)) (c_identities t) (c_groups t) (c_members t) (c_polls t) (c_votes t) (c_sessions t) (c_runs t) (c_batches t).
Definition on_identities (f : gmap string identity_row -> gmap string identity_row) (t : cdb) : cdb :=
  MkCdb (c_chats t) (c_messages t) (f (c_identities t)) (c_groups t) (c_members t) (c_polls t) (c_votes t) (c_sessions t) (c_runs t) (c_batches t).
Definition on_groups (f : gmap string group_row -> gmap string group_row) (t : cdb) : cdb :=
  MkCdb (c_chats t) (c_messages t) (c_identities t) (f (c_groups t)) (c_members t) (c_polls t) (c_votes t) (c_sessions t) (c_runs t) (c_batches t).
Definition on_members (f : gmap (string * string * string) member_row -> gmap (string * string * string) member_row) (t : cdb) : cdb :=
  MkCdb (c_chats t) (c_messages t) (c_identities t) (c_groups t) (f (c_members t)) (c_polls t) (c_votes t) (c_sessions t) (c_runs t) (c_batches t).
Definition on_polls (f : gmap (string * string) poll_row -> gmap (string * string) poll_row) (t : cdb) : cdb :=
  MkCdb (c_chats t) (c_messages t) (c_identities t) (c_groups t) (c_members t) (f (c_polls t)) (c_votes t) (c_sessions t) (c_runs t) (c_batches t).
Definition on_votes (f : gmap (string * string * string * Z) vote_row -> gmap (string * string * string * Z) vote_row) (t : cdb) : cdb :=
  MkCdb (c_chats t) (c_messages t) (c_identities t) (c_groups t) (c_members t) (c_polls t) (f (c_votes t)) (c_sessions t) (c_runs t) (c_batches t).
Definition on_sessions (f : gmap string pairing_row -> gmap string pairing_row) (t : cdb) : cdb :=
  MkCdb (c_chats t) (c_messages t) (c_identities t) (c_groups t) (c_members t) (c_polls t) (c_votes t) (f (c_sessions t)) (c_runs t) (c_batches t).
Definition on_runs (f : gmap (string * string) sync_run -> gmap (string * string) sync_run) (t : cdb) : cdb :=
  MkCdb (c_chats t) (c_messages t) (c_identities t) (c_groups t) (c_members t) (c_polls t) (c_votes t) (c_sessions t) (f (c_runs t)) (c_batches t).
Definition on_batches (f : gmap string batch_row -> gmap string batch_row) (t : cdb) : cdb :=
  MkCdb (c_chats t) (c_messages t) (c_identities t) (c_groups t) (c_members t) (c_polls t) (c_votes t) (c_sessions t) (c_runs t) (f (c_batches t)).

(** ** Statements *)

Definition chat_at (t : cdb) (session jid : string) : option chat_row :=
  (default ∅ (c_chats t !! session)) !! jid.
Definition on_session_chats (session : string) (f : gmap string chat_row -> gmap string chat_row) : cdb -> cdb :=
  on_chats (fun m => <[session := f (default ∅ (m !! session))]> m).

(** [INSERT … ON DUPLICATE KEY UPDATE]: [new], or [old] updated. *)
Definition upsert {K A} `{Countable K} (k : K) (new : A) (update : A -> A) (m : gmap K A) : gmap K A :=
  <[k := match m !! k with None => new | Some old => update old end]> m.

(** [UPDATE … WHERE key = k AND p]: the rows matched, and the table. *)
Definition update_key {K A} `{Countable K} (k : K) (p : A -> bool) (f : A -> A) (m : gmap K A) : Z * gmap K A :=
  match m !! k with
  | Some r => if p r then (1, <[k := f r]> m) else (0, m)
  | None => (0, m)
  end.

(** [GREATEST] of two nullable columns, NULL first. *)
Definition latest (new old : option Z) : option Z :=
  match new, old with
  | None, old => old
  | new, None => new
  | Some a, Some b => Some (Z.max b a)
  end.

(** [name IS NULL OR name='']. *)
Definition nameless (name : option string) : bool := match name with None => true | Some n => bool_decide (n = "") end.

(** [nullIfEmpty] and [stringPtr]. *)
Definition nullIfEmpty (s : string) : option string := if bool_decide (s = "") then None else Some s.

Definition ErrDuplicateEntry : goerr := ErrMsg "Error 1062: Duplicate entry".
Definition ErrForeignKey : goerr := ErrMsg "Error 1452: Cannot add or update a child row: a foreign key constraint fails".

(** *** [identity.sql], [identity_alias.sql] *)

Definition UpsertIdentity (lid : string) (new : identity_row) : cdb -> cdb :=
  on_identities (upsert lid new (fun old =>
    MkIdentityRow (coalesce (id_phone_number new) (id_phone_number old)) (coalesce (id_phone_jid new) (id_phone_jid old))
      (coalesce (id_name new) (id_name old)) (coalesce (id_business_name new) (id_business_name old))
      (id_first_seen_at old) (id_updated_at new))).

Definition with_name (name : option string) (now : Z) (r : identity_row) : identity_row :=
  MkIdentityRow (id_phone_number r) (id_phone_jid r) name (id_business_name r) (id_first_seen_at r) now.
Definition FillIdentityNameByJID (jid name : string) (now : Z) : cdb -> cdb :=
  on_identities (map_imap (fun lid r =>
    Some (if (bool_decide (lid = jid) || bool_decide (id_phone_jid r = Some jid)) && nameless (id_name r)
          then with_name (Some name) now r else r))).

(** The LIDs of a phone, two at most. *)
Definition ResolveCanonicalDMChatJID (phone : string) (t : cdb) : list string :=
  take 2 (omap (fun '(lid, r) =>
    if bool_decide (id_phone_jid r = Some phone) && negb (bool_decide (lid = phone)) && HasSuffix lid "@lid" then Some lid else None)
    (map_to_list (c_identities t))).

(** The SET clause of the merges. *)
Definition merged_chat (canonical alias : chat_row) : chat_row :=
  MkChatRow (ch_type canonical) (coalesce (ch_name canonical) (ch_name alias))
    (Some (Z.max (default 0 (ch_last_message_at canonical)) (default 0 (ch_last_message_at alias))))
    (Z.max (ch_unread_count canonical) (ch_unread_count alias))
    (ch_archived canonical || ch_archived alias) (ch_pinned canonical || ch_pinned alias)
    (Some (Z.max (default 0 (ch_muted_until canonical)) (default 0 (ch_muted_until alias)))).
Definition merge_alias (phone lid : string) (m : gmap string chat_row) : gmap string chat_row :=
  match m !! lid, m !! phone with
  | Some canonical, Some alias => <[lid := merged_chat canonical alias]> m
  | _, _ => m
  end.
Definition delete_alias (phone lid : string) (m : gmap string chat_row) : gmap string chat_row :=
  match m !! lid with Some _ => delete phone m | None => m end.
Definition rename_chat (phone lid : string) (m : gmap string chat_row) : gmap string chat_row :=
  match m !! phone with Some r => <[lid := r]> (delete phone m) | None => m end.
Definition rename_conflict (phone lid : string) (m : gmap string chat_row) : bool :=
  negb (is_none (m !! phone)) && negb (is_none (m !! lid)).

Definition MergeExistingDMChatAliases (phone lid : string) : cdb -> cdb := on_chats (fmap (merge_alias phone lid)).
Definition DeleteMergedDMChatAliases (lid phone : string) : cdb -> cdb := on_chats (fmap (delete_alias phone lid)).
Definition RenameDMChatAliasesWithoutCanonical (lid phone : string) (t : cdb) : (goerr + unit) * cdb :=
  if decide (map_Exists (fun _ m => rename_conflict phone lid m = true) (c_chats t)) then (inl ErrDuplicateEntry, t)
  else (inr tt, on_chats (fmap (rename_chat phone lid)) t).

Definition move_message (lid phone : string) (r : message_row) : message_row :=
  MkMessageRow (mg_id r) (if bool_decide (mg_chat_jid r = phone) then lid else mg_chat_jid r) (mg_sender_lid r) (mg_sender_jid r)
    (mg_from_me r) (mg_direction r) (mg_type r) (mg_body r) (mg_quoted_message_id r) (mg_mentions r) (mg_has_media r)
    (mg_media_meta r) (mg_status r) (mg_ack_level r) (mg_error r) (mg_edited r) (mg_deleted r) (mg_timestamp r)
    (mg_raw_json r) (mg_created_at r) (mg_origin r).
Definition move_poll (lid phone : string) (r : poll_row) : poll_row :=
  MkPollRow (if bool_decide (pl_chat_jid r = phone) then lid else pl_chat_jid r) (pl_name r) (pl_options r)
    (pl_selectable_count r) (pl_end_time r) (pl_hide_votes r) (pl_recap_emitted_at r) (pl_created_at r) (pl_updated_at r).
Definition UpdateMessageDMChatAliases (lid phone : string) : cdb -> cdb := on_messages (fmap (move_message lid phone)).
Definition UpdatePollDMChatAliases (lid phone : string) : cdb -> cdb := on_polls (fmap (move_poll lid phone)).

Definition MergeSessionDMChatAlias (phone session lid : string) : cdb -> cdb := on_session_chats session (merge_alias phone lid).
Definition DeleteSessionDMChatAlias (session phone : string) : cdb -> cdb := on_session_chats session (delete phone).
Definition RenameSessionDMChatAlias (lid session phone : string) (t : cdb) : (goerr + unit) * cdb :=
  if rename_conflict phone lid (default ∅ (c_chats t !! session)) then (inl ErrDuplicateEntry, t)
  else (inr tt, on_session_chats session (rename_chat phone lid) t).
(** The rows of one session. *)
Definition in_session_only {A} (session : string) (f : A -> A) (m : gmap (string * string) A) : gmap (string * string) A :=
  map_imap (fun k r => Some (if bool_decide (k.1 = session) then f r else r)) m.
Definition UpdateSessionMessageDMChatAliases (lid session phone : string) : cdb -> cdb :=
  on_messages (in_session_only session (move_message lid phone)).
Definition UpdateSessionPollDMChatAliases (lid session phone : string) : cdb -> cdb :=
  on_polls (in_session_only session (move_poll lid phone)).

(** *** [chat.sql] *)

Definition UpsertChat (session jid : string) (new : chat_row) : cdb -> cdb :=
  on_session_chats session (upsert jid new (fun old =>
    MkChatRow (ch_type old) (coalesce (ch_name new) (ch_name old)) (latest (ch_last_message_at new) (ch_last_message_at old))
      (ch_unread_count old) (ch_archived old) (ch_pinned old) (ch_muted_until old))).
Definition UpdateChatFlags (session jid : string) (archived pinned : bool) (muted : option Z) (unread : Z) (t : cdb) : Z * cdb :=
  let '(n, m) := update_key jid (fun _ => true) (fun old =>
    MkChatRow (ch_type old) (ch_name old) (ch_last_message_at old) unread archived pinned muted) (default ∅ (c_chats t !! session)) in
  (n, on_session_chats session (fun _ => m) t).
Definition DeleteChat (session jid : string) (t : cdb) : Z * cdb :=
  (if is_none (chat_at t session jid) then 0 else 1, on_session_chats session (delete jid) t).

(** *** [message.sql] *)

Definition UpsertMessage (k : string * string) (new : message_row) : cdb -> cdb :=
  on_messages (upsert k new (fun old =>
    MkMessageRow (mg_id old) (mg_chat_jid new) (coalesce (mg_sender_lid new) (mg_sender_lid old))
      (coalesce (mg_sender_jid new) (mg_sender_jid old)) (mg_from_me old) (mg_direction old) (mg_type old)
      (coalesce (mg_body new) (mg_body old)) (coalesce (mg_quoted_message_id new) (mg_quoted_message_id old))
      (coalesce (mg_mentions new) (mg_mentions old)) (mg_has_media new) (coalesce (mg_media_meta new) (mg_media_meta old))
      (mg_status old) (mg_ack_level old) (mg_error old) (mg_edited old) (mg_deleted old) (mg_timestamp old)
      (coalesce (mg_raw_json new) (mg_raw_json old)) (mg_created_at old) (mg_origin old))).

Definition with_receipt (status : option MessageStatus) (ack : option Z) (r : message_row) : message_row :=
  MkMessageRow (mg_id r) (mg_chat_jid r) (mg_sender_lid r) (mg_sender_jid r) (mg_from_me r) (mg_direction r) (mg_type r) (mg_body r)
    (mg_quoted_message_id r) (mg_mentions r) (mg_has_media r) (mg_media_meta r) status ack (mg_error r) (mg_edited r) (mg_deleted r)
    (mg_timestamp r) (mg_raw_json r) (mg_created_at r) (mg_origin r).
Definition with_edit (body : option string) (r : message_row) : message_row :=
  MkMessageRow (mg_id r) (mg_chat_jid r) (mg_sender_lid r) (mg_sender_jid r) (mg_from_me r) (mg_direction r) (mg_type r) body
    (mg_quoted_message_id r) (mg_mentions r) (mg_has_media r) (mg_media_meta r) (mg_status r) (mg_ack_level r) (mg_error r) true
    (mg_deleted r) (mg_timestamp r) (mg_raw_json r) (mg_created_at r) (mg_origin r).
Definition with_deletion (r : message_row) : message_row :=
  MkMessageRow (mg_id r) (mg_chat_jid r) (mg_sender_lid r) (mg_sender_jid r) (mg_from_me r) (mg_direction r) (mg_type r) (mg_body r)
    (mg_quoted_message_id r) (mg_mentions r) (mg_has_media r) (mg_media_meta r) (mg_status r) (mg_ack_level r) (mg_error r)
    (mg_edited r) true (mg_timestamp r) (mg_raw_json r) (mg_created_at r) (mg_origin r).

(** [FIELD(status, 'pending', 'sent', 'delivered', 'read', 'played')]. *)
Definition FIELD_status (s : MessageStatus) : Z :=
  match s with
  | MessagePending => 1 | MessageSent => 2 | MessageDelivered => 3 | MessageRead => 4 | MessagePlayed => 5
  | MessageFailed | MessageUnknown => 0
  end.
Definition next_status (rank : Z) (next : option MessageStatus) (status : option MessageStatus) : option MessageStatus :=
  if bool_decide (status = Some MessageFailed) then status
  else if FIELD_status (default MessagePending status) <? rank then next else status.
Definition next_ack (next ack : option Z) : option Z :=
  match next, ack with
  | None, ack => ack
  | Some _, None => next
  | Some n, Some a => if a <? n then next else ack
  end.
Definition AdvanceReceiptStatus_stmt (rank : Z) (next : option MessageStatus) (ack : option Z) (k : string * string) : cdb -> cdb :=
  on_messages (alter (fun r => with_receipt (next_status rank next (mg_status r)) (next_ack ack (mg_ack_level r)) r) k).
Definition MarkMessageEdited (body : string) (k : string * string) (t : cdb) : Z * cdb :=
  let '(n, m) := update_key k (fun _ => true) (with_edit (Some body)) (c_messages t) in (n, on_messages (fun _ => m) t).
Definition MarkMessageDeleted (k : string * string) (t : cdb) : Z * cdb :=
  let '(n, m) := update_key k (fun _ => true) with_deletion (c_messages t) in (n, on_messages (fun _ => m) t).

(** *** [poll.sql], [group.sql] *)

Definition UpsertPoll (k : string * string) (new : poll_row) : cdb -> cdb :=
  on_polls (upsert k new (fun old =>
    MkPollRow (pl_chat_jid new) (pl_name new) (pl_options new) (pl_selectable_count new) (pl_end_time new) (pl_hide_votes new)
      (pl_recap_emitted_at old) (pl_created_at old) (pl_updated_at new))).
Definition MarkPollRecapEmitted (k : string * string) (now : option Z) (updatedAt : Z) (t : cdb) : Z * cdb :=
  let '(n, m) := update_key k (fun p => is_none (pl_recap_emitted_at p)) (fun p =>
    MkPollRow (pl_chat_jid p) (pl_name p) (pl_options p) (pl_selectable_count p) (pl_end_time p) (pl_hide_votes p)
      now (pl_created_at p) updatedAt) (c_polls t) in
  (n, on_polls (fun _ => m) t).
(** [INSERT IGNORE]: whether a row was added. *)
Definition InsertPollVote (k : string * string * string * Z) (v : vote_row) (t : cdb) : Z * cdb :=
  (if is_none (c_votes t !! k) then 1 else 0, on_votes (upsert k v id) t).

Definition UpsertGroup (jid : string) (new : group_row) : cdb -> cdb :=
  on_groups (upsert jid new (fun old =>
    MkGroupRow (coalesce (gp_subject new) (gp_subject old)) (coalesce (gp_description new) (gp_description old))
      (coalesce (gp_owner_jid new) (gp_owner_jid old)) (coalesce (gp_participant_count new) (gp_participant_count old))
      (coalesce (gp_is_announce new) (gp_is_announce old)) (coalesce (gp_is_locked new) (gp_is_locked old))
      (coalesce (gp_created_at_wa new) (gp_created_at_wa old)) (gp_first_seen_at old) (gp_updated_at new))).
Definition UpsertGroupMember (k : string * string * string) (new : member_row) : cdb -> cdb :=
  on_members (upsert k new (fun old =>
    MkMemberRow (coalesce (mb_tag new) (mb_tag old)) (mb_role new) (mb_first_seen_at old) (mb_last_seen_at new))).
Definition RemoveGroupMember (k : string * string * string) (t : cdb) : Z * cdb :=
  (if is_none (c_members t !! k) then 0 else 1, on_members (delete k) t).

(** *** [session.sql] *)

Definition UpdateSessionStatus (id : string) (status : SessionStatus) (now : Z) (t : cdb) : Z * cdb :=
  let '(n, m) := update_key id (fun _ => true) (fun s =>
    MkPairingRow status (pr_wa_jid s) (pr_wa_lid s) (pr_phone_number s) (pr_data_account_jid s) (pr_account_changed_at s) now)
    (c_sessions t) in
  (n, on_sessions (fun _ => m) t).
Definition ClearSessionPairing (id : string) (now : Z) (t : cdb) : Z * cdb :=
  let '(n, m) := update_key id (fun _ => true) (fun s =>
    MkPairingRow SessionLoggedOut None None None (pr_data_account_jid s) (pr_account_changed_at s) now) (c_sessions t) in
  (n, on_sessions (fun _ => m) t).
(** [data_account_jid <> account], which NULL on either side is not. *)
Definition account_differs (stored account : option string) : bool :=
  match stored, account with Some a, Some b => negb (bool_decide (a = b)) | _, _ => false end.
(** [uq_sessions_jid]: another session has the JID. *)
Definition jid_taken (id : string) (jid : option string) (t : cdb) : bool :=
  bool_decide (map_Exists (fun id' s => id' <> id /\ is_Some jid /\ pr_wa_jid s = jid) (c_sessions t)).
Definition AttachSessionPairing (id : string) (account : option string) (changedAt : Z) (jid lid phone : option string) (now : Z)
  (t : cdb) : (goerr + Z) * cdb :=
  let '(n, m) := update_key id (fun _ => true) (fun s =>
    MkPairingRow (pr_status s) jid lid phone (coalesce account (pr_data_account_jid s))
      (if account_differs (pr_data_account_jid s) account then Some changedAt else pr_account_changed_at s) now) (c_sessions t) in
  if (0 <? n) && jid_taken id jid t then (inl ErrDuplicateEntry, t) else (inr n, on_sessions (fun _ => m) t).

(** *** [chat.go]: the rows of a deleted chat *)

Definition keep_rows {K A} `{Countable K} (p : K -> A -> bool) (m : gmap K A) : gmap K A := filter (fun '(k, r) => p k r = true) m.

Definition DeleteChatVotes (session jid : string) (t : cdb) : cdb :=
  on_votes (keep_rows (fun '(s, poll, _, _) _ =>
    negb (bool_decide (s = session) && bool_decide (pl_chat_jid <$> c_polls t !! (session, poll) = Some jid)))) t.
Definition DeleteChatPolls (session jid : string) : cdb -> cdb :=
  on_polls (keep_rows (fun k p => negb (bool_decide (k.1 = session) && bool_decide (pl_chat_jid p = jid)))).
Definition DeleteChatMessages (session jid : string) : cdb -> cdb :=
  on_messages (keep_rows (fun k m => negb (bool_decide (k.1 = session) && bool_decide (mg_chat_jid m = jid)))).
