(* ===== verification/ChatStore.v ===== *)
(** The repositories of the WhatsApp data: [store/identity.go],
    [identity_alias.go], [chat.go], [message.go], [poll.go], [poll_vote.go],
    [group.go], [group_member.go] and the pairing part of [session.go], over any
    handle they accept: a transaction, where they run alone, or the pool, where
    other processes may write between two statements. *)
From S2P Require Import Prelude Journal Domain OutboxStore EventIngest GatewayTables ChatTables.

#[local] Set Warnings "-register-all".

#[local] Open Scope Z_scope.

(** A [storedb.DBTX]: where statements run, what [domain.NowMs] reads and what
    [domain.NewMessageID] draws. *)
Class Handle (W : Type) := {
  on_tx : forall {A}, M (db cdb) A -> M W A;
  NowMs : W -> Z;
  NewMessageID : W -> string;
}.

(** The pool, and a transaction. *)
Class Clocks := { pool_now : shared cdb -> Z; pool_id : shared cdb -> string; tx_now : db cdb -> Z; tx_id : db cdb -> string }.
#[export] Instance pool_handle `{Clocks} : Handle (shared cdb) :=
  {| on_tx A m := atomically m; NowMs := pool_now; NewMessageID := pool_id |}.
#[export] Instance tx_handle `{Clocks} : Handle (db cdb) :=
  {| on_tx A m := m; NowMs := tx_now; NewMessageID := tx_id |}.

(** [json.Marshal] of string lists and media metadata, and [json.Unmarshal] of a
    poll's options. *)
Inductive MediaMeta := MkMediaMeta (Items : list MediaMeta) (ID URL : string) (ExpiresAt : option Z)
  (Mimetype : string) (Size : Z) (Filename : string).
Class ChatCodec := {
  json_strings : list string -> bytes;
  json_media : MediaMeta -> bytes;
  strings_json : bytes -> goerr + list string;
}.

(** [domain.Message]; the statement computes the rest. *)
Record Message := MkMessage {
  m_ID : string;
  m_SessionID : string;
  m_WAMessageID : string;
  m_ChatJID : string;
  m_SenderLID : option string;
  m_SenderJID : option string;
  m_FromMe : bool;
  m_Direction : string;
  m_Type : string;
  m_Body : option string;
  m_QuotedMessageID : option string;
  m_Mentions : bytes;
  m_HasMedia : bool;
  m_MediaMeta : option MediaMeta;
  m_Status : option MessageStatus;
  m_AckLevel : option Z;
  m_Error : option string;
  m_Edited : bool;
  m_Deleted : bool;
  m_Timestamp : Z;
  m_RawJSON : bytes;
  m_CreatedAt : Z;
  m_Origin : string;
}.

(** [domain.Poll]. *)
Record Poll := MkPoll {
  p_SessionID : string;
  p_PollMessageID : string;
  p_ChatJID : string;
  p_Name : string;
  p_Options : list string;
  p_SelectableCount : Z;
  p_EndTime : Z;
  p_HideVotes : bool;
  p_CreatedAt : Z;
  p_UpdatedAt : Z;
}.

(** [nullableJSON]. *)
Definition nullableJSON (b : bytes) : option bytes := if is_nil b then None else Some b.
(** [domain.MessageStatus(s)] where the text names no status. *)
Definition MessageStatusOf (s : string) : option MessageStatus :=
  if bool_decide (s = "pending") then Some MessagePending
  else if bool_decide (s = "sent") then Some MessageSent
  else if bool_decide (s = "delivered") then Some MessageDelivered
  else if bool_decide (s = "read") then Some MessageRead
  else if bool_decide (s = "played") then Some MessagePlayed
  else if bool_decide (s = "failed") then Some MessageFailed
  else if bool_decide (s = "unknown") then Some MessageUnknown
  else None.
Definition receiptStatusRank (s : option MessageStatus) : Z :=
  match s with
  | Some MessageSent => 2 | Some MessageDelivered => 3 | Some MessageRead => 4 | Some MessagePlayed => 5
  | _ => 1
  end.
(** [pollNullInt64]. *)
Definition pollNullInt64 (v : Z) : option Z := if v =? 0 then None else Some v.

Section Repos.
Context {W : Type} `{Handle W} `{ChatCodec}.

Definition run_exec (text : string) (f : cdb -> cdb) : M W unit :=
  map_err (ErrWrap text) (on_tx (exec (fun t => (tt, f t)))).
Definition run_count (text : string) (f : cdb -> Z * cdb) : M W Z := map_err (ErrWrap text) (on_tx (exec f)).
Definition run_stmt {A} (text : string) (f : cdb -> (goerr + A) * cdb) : M W A := map_err (ErrWrap text) (on_tx (stmt f)).
Definition require_row (resource : string) (n : Z) : M W unit :=
  match rowsAffectedOrNotFound n resource with Some err => throw err | None => mret tt end.

(** ** [identity_alias.go] *)

Definition canonicalDMChatJID (chatJID : string) : M W string :=
  if negb (HasSuffix chatJID "@s.whatsapp.net") then mret chatJID
  else
    lids ← map_err (ErrWrap "store: resolve chat alias") (on_tx (query (ResolveCanonicalDMChatJID chatJID)));
    match lids with [lid] => mret lid | _ => mret chatJID end.

Definition mergeDMChatAlias (sessionID lid phoneJID : string) : M W unit :=
  if bool_decide (lid = "") || bool_decide (phoneJID = "") || bool_decide (lid = phoneJID) then mret tt
  else if negb (HasSuffix lid "@lid") || negb (HasSuffix phoneJID "@s.whatsapp.net") then mret tt
  else if bool_decide (sessionID = "") then
    run_exec "store: merge chat aliases" (MergeExistingDMChatAliases phoneJID lid);;
    run_exec "store: delete merged chat aliases" (DeleteMergedDMChatAliases lid phoneJID);;
    run_stmt "store: rename chat aliases" (RenameDMChatAliasesWithoutCanonical lid phoneJID);;
    run_exec "store: update message chat aliases" (UpdateMessageDMChatAliases lid phoneJID);;
    run_exec "store: update poll chat aliases" (UpdatePollDMChatAliases lid phoneJID)
  else
    canonical ← attempt (on_tx (query_row (fun t => chat_at t sessionID lid)));
    match canonical with
    | inr _ =>
        run_exec "store: merge chat alias" (MergeSessionDMChatAlias phoneJID sessionID lid);;
        run_exec "store: delete chat alias" (DeleteSessionDMChatAlias sessionID phoneJID)
    | inl err =>
        if bool_decide (err = ErrNoRows) then run_stmt "store: rename chat alias" (RenameSessionDMChatAlias lid sessionID phoneJID)
        else throw (ErrWrap "store: check chat alias" err)
    end;;
    run_exec "store: update message chat alias" (UpdateSessionMessageDMChatAliases lid sessionID phoneJID);;
    run_exec "store: update poll chat alias" (UpdateSessionPollDMChatAliases lid sessionID phoneJID).

(** ** [identity.go] *)

Definition Identities_Upsert (lid : string) (i : identity_row) : M W unit :=
  run_exec "store: upsert identity" (UpsertIdentity lid i);;
  match id_phone_jid i with
  | Some phone => mergeDMChatAlias "" lid phone
  | None => mret tt
  end.

Definition FillNameByJID (jid name : string) (nowMs : Z) : M W unit :=
  if bool_decide (jid = "") || bool_decide (name = "") then mret tt
  else run_exec "store: fill identity name" (FillIdentityNameByJID jid name nowMs).

(** ** [chat.go] *)

Definition Chats_Upsert (sessionID chatJID : string) (c : chat_row) : M W unit :=
  chatJID ← (if bool_decide (ch_type c = ChatDM) then canonicalDMChatJID chatJID else mret chatJID);
  run_exec "store: upsert chat" (UpsertChat sessionID chatJID c).

Definition Chats_UpdateFlags (sessionID chatJID : string) (archived pinned : bool) (mutedUntil : option Z) (unreadCount : Z) : M W unit :=
  n ← run_count "store: update chat flags" (UpdateChatFlags sessionID chatJID archived pinned mutedUntil (i32 unreadCount));
  require_row "chat" n.

Definition deleteChatContents (sessionID chatJID : string) : M (db cdb) unit :=
  map_err (ErrWrap "store: delete chat poll votes") (exec (fun t => (tt, DeleteChatVotes sessionID chatJID t)));;
  map_err (ErrWrap "store: delete chat polls") (exec (fun t => (tt, DeleteChatPolls sessionID chatJID t)));;
  map_err (ErrWrap "store: delete chat messages") (exec (fun t => (tt, DeleteChatMessages sessionID chatJID t)));;
  n ← map_err (ErrWrap "store: delete chat") (exec (DeleteChat sessionID chatJID));
  match rowsAffectedOrNotFound n "chat" with Some err => throw err | None => mret tt end.
(** On the pool, in a transaction of its own; on a transaction it is
    [deleteChatContents]. *)
Definition Chats_Delete (sessionID chatJID : string) : M (shared cdb) unit :=
  atomically (map_err (ErrWrap "store: begin delete chat") begin_tx;;
              with_rollback (deleteChatContents sessionID chatJID;; commit_tx)).

(** ** [message.go] *)

Definition Messages_Upsert (m : Message) : M W unit :=
  chatJID ← canonicalDMChatJID (m_ChatJID m);
  id ← (if bool_decide (m_ID m = "") then gets NewMessageID else mret (m_ID m));
  let origin := if bool_decide (m_Origin m = "") then OriginLive else m_Origin m in
  run_exec "store: upsert message" (UpsertMessage (m_SessionID m, m_WAMessageID m)
    (MkMessageRow id chatJID (m_SenderLID m) (m_SenderJID m) (m_FromMe m) (m_Direction m) (m_Type m) (m_Body m)
       (m_QuotedMessageID m) (nullableJSON (m_Mentions m)) (m_HasMedia m)
       (match m_MediaMeta m with Some meta => nullableJSON (json_media meta) | None => None end)
       (m_Status m) (i32 <$> m_AckLevel m) (m_Error m) (m_Edited m) (m_Deleted m) (m_Timestamp m)
       (nullableJSON (m_RawJSON m)) (m_CreatedAt m) origin)).

Definition AdvanceReceiptStatus (sessionID waMessageID : string) (status : option MessageStatus) (ackLevel : option Z) : M W unit :=
  run_exec "store: advance receipt status"
    (AdvanceReceiptStatus_stmt (receiptStatusRank status) status (i32 <$> ackLevel) (sessionID, waMessageID)).

Definition MarkEdited (sessionID waMessageID newBody : string) : M W unit :=
  n ← run_count "store: mark message edited" (MarkMessageEdited newBody (sessionID, waMessageID));
  require_row "message" n.

Definition MarkDeleted (sessionID waMessageID : string) : M W unit :=
  n ← run_count "store: mark message deleted" (MarkMessageDeleted (sessionID, waMessageID));
  require_row "message" n.

(** ** [poll.go], [poll_vote.go] *)

Definition Polls_Upsert (p : Poll) : M W unit :=
  chatJID ← canonicalDMChatJID (p_ChatJID p);
  run_exec "store: upsert poll" (UpsertPoll (p_SessionID p, p_PollMessageID p)
    (MkPollRow chatJID (Some (p_Name p)) (json_strings (p_Options p)) (i32 (p_SelectableCount p)) (pollNullInt64 (p_EndTime p))
       (p_HideVotes p) None (p_CreatedAt p) (p_UpdatedAt p))).

Definition MarkRecapEmitted (sessionID pollMessageID : string) (nowMs : Z) : M W bool :=
  affected ← run_count "store: mark poll recap emitted" (MarkPollRecapEmitted (sessionID, pollMessageID) (pollNullInt64 nowMs) nowMs);
  mret (0 <? affected).

Definition GetOptions (sessionID pollMessageID : string) : M W (list string) :=
  raw ← attempt (on_tx (query_row (fun t => pl_options <$> c_polls t !! (sessionID, pollMessageID))));
  match raw with
  | inl err => if errors_is ErrNoRows err then mret [] else throw (ErrWrap "store: get poll options" err)
  | inr raw =>
      if is_nil raw then mret []
      else map_err (ErrWrap "store: decode poll options") (lift_result (strings_json raw))
  end.

(** [PollVoteRepo.Insert]; of the id it returns, whether there is one. *)
Definition Votes_Insert (sessionID pollMessageID voterLID : string) (selected : bytes) (timestamp : Z) (raw : bytes) : M W bool :=
  affected ← run_count "store: insert poll vote"
    (InsertPollVote (sessionID, pollMessageID, voterLID, timestamp) (MkVoteRow selected (nullableJSON raw)));
  mret (negb (affected =? 0)).

(** ** [group.go], [group_member.go] *)

Definition Groups_Upsert (groupJID : string) (g : group_row) : M W unit :=
  run_exec "store: upsert group" (UpsertGroup groupJID g).
Definition GroupMembers_Upsert (sessionID groupJID lid : string) (m : member_row) : M W unit :=
  run_exec "store: upsert group member" (UpsertGroupMember (sessionID, groupJID, lid) m).
Definition GroupMembers_Remove (sessionID groupJID lid : string) : M W unit :=
  n ← run_count "store: remove group member" (RemoveGroupMember (sessionID, groupJID, lid));
  require_row "group member" n.

(** ** [session.go] *)

Record AttachPairingInput := MkAttachPairingInput {
  ap_SessionID : string;
  ap_WaJID : string;
  ap_WaLID : string;
  ap_PhoneNumber : string;
  ap_UpdatedAt : Z;
}.
Definition AttachPairing (x : AttachPairingInput) : M W unit :=
  let account := if bool_decide (ap_PhoneNumber x = "") then None else Some (ap_PhoneNumber x +:+ "@s.whatsapp.net") in
  n ← run_stmt "store: attach session pairing"
        (AttachSessionPairing (ap_SessionID x) account (ap_UpdatedAt x) (nullIfEmpty (ap_WaJID x)) (nullIfEmpty (ap_WaLID x))
           (nullIfEmpty (ap_PhoneNumber x)) (ap_UpdatedAt x));
  require_row "session" n.
Definition ClearPairing (id : string) (updatedAt : Z) : M W unit :=
  n ← run_count "store: clear session pairing" (ClearSessionPairing id updatedAt);
  require_row "session" n.
Definition Sessions_UpdateStatus (id : string) (status : SessionStatus) (updatedAt : Z) : M W unit :=
  n ← run_count "store: update session status" (UpdateSessionStatus id status updatedAt);
  require_row "session" n.
End Repos.
