(* ===== verification/HistoryImport.v ===== *)
(** The API side of a history import: [store/history.go]. A batch is applied in one
    transaction behind the ledger of event ids; lifecycle events update their run.
    Queries over a list of ids run in chunks, as in the code. *)
From S2P Require Import Prelude Journal Domain OutboxStore EventIngest GatewayTables HistoryConvert ChatTables ChatStore.

#[local] Open Scope Z_scope.

(** ** Inputs *)

Definition HistoryKindMessage : string := "message".
Definition HistoryKindFromMe : string := "message.from_me".
Definition HistoryKindReply : string := "message.interactive_reply".
Definition HistoryKindEdited : string := "message.edited".
Definition HistoryKindRevoked : string := "message.revoked".
Definition HistoryKindPollVote : string := "poll.vote".
Definition HistoryKindReaction : string := "message.reaction".

Record HistoryPoll := MkHistoryPoll {
  hp_Name : string;
  hp_Options : list string;
  hp_SelectableCount : Z;
  hp_EndTime : Z;
  hp_HideVotes : bool;
}.

(** [store.HistoryMessage]. *)
Record ImportMessage := MkImportMessage {
  im_Kind : string;
  im_WAMessageID : string;
  im_SenderLID : string;
  im_SenderJID : string;
  im_PushName : string;
  im_FromMe : bool;
  im_Type : string;
  im_Body : string;
  im_QuotedMessageID : string;
  im_Mentions : list string;
  im_HasMedia : bool;
  im_MediaMeta : option MediaMeta;
  im_Timestamp : Z;
  im_RawJSON : bytes;
  im_Status : option MessageStatus;
  im_TargetID : string;
  im_Poll : option HistoryPoll;
  im_SelectedOptions : bytes;
}.

(** [store.HistoryConversation]. *)
Record ImportConversation := MkImportConversation {
  iv_ChatJID : string;
  iv_Type : string;
  iv_Name : string;
  iv_Description : string;
  iv_LID : string;
  iv_PhoneJID : string;
  iv_UnreadCount : option Z;
  iv_Archived : bool;
  iv_Pinned : bool;
  iv_MutedUntil : option Z;
  iv_Participants : list HistoryParticipant;
  iv_Messages : list ImportMessage;
}.

(** [store.HistoryBatch]. *)
Record ImportBatch := MkImportBatch {
  ib_EventID : string;
  ib_SessionID : string;
  ib_RunID : string;
  ib_AccountJID : string;
  ib_SnapshotAt : Z;
  ib_RetentionCutoff : Z;
  ib_Now : Z;
  ib_Contacts : list HistoryContact;
  ib_Conversations : list ImportConversation;
}.

Record HistoryBatchResult := MkBatchResult { br_Applied : bool; br_Imported : Z; br_Existing : Z; br_Dropped : Z }.

Definition createsRow (kind : string) : bool :=
  bool_decide (kind = HistoryKindMessage) || bool_decide (kind = HistoryKindFromMe) || bool_decide (kind = HistoryKindReply).

(** [historyInChunk]: a list in pieces of [n], with fuel of one per piece. *)
Definition historyInChunk : nat := 500.
Fixpoint chunks_of {A} (fuel n : nat) (l : list A) : list (list A) :=
  match fuel, l with
  | O, _ | _, [] => []
  | S fuel, _ => take n l :: chunks_of fuel n (drop n l)
  end.
Definition in_chunks {A} (l : list A) : list (list A) := chunks_of (length l) historyInChunk l.

(** ** Statements *)

Definition no_counts : sync_counts := MkSyncCounts 0 0 0 0 0.
Definition no_imports : import_counts := MkImportCounts 0 0 0 0.

(** Inserts that reference [wa_sessions]. *)
Definition of_session (session : string) (f : cdb -> cdb) (t : cdb) : (goerr + unit) * cdb :=
  match c_sessions t !! session with Some _ => (inr tt, f t) | None => (inl ErrForeignKey, t) end.

Definition ensure_run (session run account : string) (now : Z) : cdb -> (goerr + unit) * cdb :=
  of_session session (on_runs (upsert (session, run)
    (MkSyncRun (nullIfEmpty account) "running" None None None no_counts no_imports None now now None)
    (fun old => MkSyncRun (coalesce (sr_account_jid old) (nullIfEmpty account)) (sr_status old) (sr_sync_type old) (sr_progress old)
                  (sr_cutoff_at old) (sr_counts old) (sr_import old) (sr_error old) (sr_started_at old) (sr_updated_at old)
                  (sr_finished_at old)))).

Definition fill_identity (lid : string) (phone name : option string) (number : option string) (now : Z) : cdb -> cdb :=
  on_identities (upsert lid (MkIdentityRow number phone name None now now) (fun old =>
    MkIdentityRow (coalesce (id_phone_number old) number) (coalesce (id_phone_jid old) phone)
      (if nameless (id_name old) then name else id_name old) (id_business_name old) (id_first_seen_at old) (id_updated_at old))).

Definition fill_group (jid : string) (subject description : option string) (now : Z) : cdb -> cdb :=
  on_groups (upsert jid (MkGroupRow subject description None None None None None now now) (fun old =>
    MkGroupRow (coalesce (gp_subject old) subject) (coalesce (gp_description old) description) (gp_owner_jid old)
      (gp_participant_count old) (gp_is_announce old) (gp_is_locked old) (gp_created_at_wa old) (gp_first_seen_at old)
      (gp_updated_at old))).
Definition insert_member (k : string * string * string) (role : string) (now : Z) : cdb -> cdb :=
  on_members (upsert k (MkMemberRow None role now now) id).

(** The chat of a conversation; the unread count is decided before the time moves. *)
Definition import_chat (session jid : string) (new : chat_row) (unread : option Z) (snapshotAt : Z) : cdb -> cdb :=
  on_session_chats session (upsert jid new (fun old =>
    MkChatRow (ch_type old) (coalesce (ch_name old) (ch_name new)) (latest (ch_last_message_at new) (ch_last_message_at old))
      (match unread with
       | None => ch_unread_count old
       | Some n => if default 0 (ch_last_message_at old) <=? snapshotAt then n else ch_unread_count old
       end)
      (ch_archived old) (ch_pinned old) (ch_muted_until old))).

Definition insert_if_absent {K A} `{Countable K} (k : K) (r : A) : gmap K A -> gmap K A := upsert k r id.

Definition edit_unedited (body : string) (k : string * string) : cdb -> cdb :=
  on_messages (alter (fun r => if mg_edited r then r else with_edit (Some body) r) k).
Definition revoke_message (k : string * string) : cdb -> cdb := on_messages (alter with_deletion k).

(** A plain INSERT. *)
Definition insert_ledger (event : string) (r : batch_row) (t : cdb) : (goerr + unit) * cdb :=
  match c_batches t !! event with
  | Some _ => (inl ErrDuplicateEntry, t)
  | None => of_session (bt_session_id r) (on_batches <[event := r]>) t
  end.
Definition add_imports (imported existing dropped now : Z) (r : sync_run) : sync_run :=
  MkSyncRun (sr_account_jid r) (sr_status r) (sr_sync_type r) (sr_progress r) (sr_cutoff_at r) (sr_counts r)
    (MkImportCounts (ic_batches_applied (sr_import r) + 1) (ic_imported (sr_import r) + imported)
       (ic_existing (sr_import r) + existing) (ic_dropped (sr_import r) + dropped))
    (sr_error r) (sr_started_at r) (Z.max (sr_updated_at r) now) (sr_finished_at r).

Definition counts_max (new old : sync_counts) : sync_counts :=
  MkSyncCounts (Z.max (sc_chunks old) (sc_chunks new)) (Z.max (sc_batches old) (sc_batches new))
    (Z.max (sc_conversations old) (sc_conversations new)) (Z.max (sc_messages old) (sc_messages new))
    (Z.max (sc_skipped old) (sc_skipped new)).
Definition sync_upsert (session run : string) (new : sync_run) : cdb -> (goerr + unit) * cdb :=
  of_session session (on_runs (upsert (session, run) new (fun old =>
    MkSyncRun (coalesce (sr_account_jid old) (sr_account_jid new)) (sr_status new) (coalesce (sr_sync_type new) (sr_sync_type old))
      (coalesce (sr_progress new) (sr_progress old)) (coalesce (sr_cutoff_at new) (sr_cutoff_at old))
      (counts_max (sr_counts new) (sr_counts old)) (sr_import old) (sr_error new) (sr_started_at old)
      (Z.max (sr_updated_at old) (sr_updated_at new)) (sr_finished_at new)))).

(** ** [historyApplier] *)

(** [identityFill]. *)
Record identityFill := MkIdentityFill { if_phoneJID : string; if_name : string }.
(** [byLID] with the order of its keys, and [phoneNames]. *)
Record sightings := MkSightings { si_order : list string; si_byLID : gmap string identityFill; si_phoneNames : gmap string string }.

Definition add_sighting (lid phoneJID name : string) (s : sightings) : sightings :=
  if HasSuffix lid "@lid" then
    let f := default (MkIdentityFill "" "") (si_byLID s !! lid) in
    let phone := if bool_decide (if_phoneJID f = "") && HasSuffix phoneJID "@s.whatsapp.net" then phoneJID else if_phoneJID f in
    let name := if bool_decide (if_name f = "") then name else if_name f in
    MkSightings (if is_none (si_byLID s !! lid) then si_order s ++ [lid] else si_order s)
      (<[lid := MkIdentityFill phone name]> (si_byLID s)) (si_phoneNames s)
  else if negb (bool_decide (name = "")) && HasSuffix phoneJID "@s.whatsapp.net" then
    MkSightings (si_order s) (si_byLID s) (insert_if_absent phoneJID name (si_phoneNames s))
  else s.

Definition sight_conversation (s : sightings) (conv : ImportConversation) : sightings :=
  let s := if bool_decide (iv_Type conv = ChatDM) then
             add_sighting
               (if bool_decide (iv_LID conv = "") && HasSuffix (iv_ChatJID conv) "@lid" then iv_ChatJID conv else iv_LID conv)
               (if bool_decide (iv_PhoneJID conv = "") && HasSuffix (iv_ChatJID conv) "@s.whatsapp.net" then iv_ChatJID conv
                else iv_PhoneJID conv) "" s
           else s in
  let s := foldl (fun s p => add_sighting (pt_LID p) (pt_PhoneJID p) "" s) s (iv_Participants conv) in
  foldl (fun s m => if im_FromMe m then s else add_sighting (im_SenderLID m) (im_SenderJID m) (im_PushName m) s) s (iv_Messages conv).

Definition sighted (b : ImportBatch) : sightings :=
  foldl sight_conversation
    (foldl (fun s c => add_sighting (ct_LID c) (ct_PhoneJID c) (ct_PushName c) s) (MkSightings [] ∅ ∅) (ib_Contacts b))
    (ib_Conversations b).

(** The members of a group that a conversation shows, in order. *)
Definition member_role (role : string) : string :=
  if bool_decide (role = RoleAdmin) || bool_decide (role = RoleSuperAdmin) then role else RoleMember.
Definition add_member (members : list (string * string)) (lid role : string) : list (string * string) :=
  if negb (HasSuffix lid "@lid") || bool_decide (lid ∈ members.*1) then members else members ++ [(lid, member_role role)].
Definition group_members (conv : ImportConversation) : list (string * string) :=
  foldl (fun l m => if im_FromMe m then l else add_member l (im_SenderLID m) RoleMember)
    (foldl (fun l p => add_member l (pt_LID p) (pt_Role p)) [] (iv_Participants conv)) (iv_Messages conv).

Definition keptMessage (b : ImportBatch) (m : ImportMessage) : bool :=
  if bool_decide (im_WAMessageID m = "") then false
  else (ib_RetentionCutoff b <=? 0) || (ib_RetentionCutoff b <=? im_Timestamp m).
Definition keptVote (b : ImportBatch) (m : ImportMessage) : bool :=
  (ib_RetentionCutoff b <=? 0) || (ib_RetentionCutoff b <=? im_Timestamp m).

Definition last_kept (b : ImportBatch) (conv : ImportConversation) : option Z :=
  foldl (fun last m =>
    if createsRow (im_Kind m) && keptMessage b m &&
       match last with None => true | Some l => l <? im_Timestamp m end
    then Some (im_Timestamp m) else last) None (iv_Messages conv).

(** The counters of [HistoryBatchResult]. *)
Record tally := MkTally { ta_imported : Z; ta_existing : Z; ta_dropped : Z }.

(** [MessageIDSequence.Next]. *)
Class MessageIDs := { NextMessageID : db cdb -> Z -> string }.

Section Applier.
Context `{Clocks} `{ChatCodec} `{MapRange} `{MessageIDs}.
Variable b : ImportBatch.

Definition write (text : string) (f : cdb -> cdb) : M (db cdb) unit := map_err (ErrWrap text) (exec (fun t => (tt, f t))).

(** The results of a query per chunk. *)
Fixpoint query_chunks {A} (text : string) (f : list string -> cdb -> list A) (chunks : list (list string)) : M (db cdb) (list A) :=
  match chunks with
  | [] => mret []
  | chunk :: chunks =>
      found ← map_err (ErrWrap text) (query (f chunk));
      rest ← query_chunks text f chunks;
      mret (found ++ rest)
  end.

Definition select_phones (lids : list string) (t : cdb) : list (string * string) :=
  omap (fun lid => (fun r => (lid, default "" (id_phone_jid r))) <$> c_identities t !! lid) lids.
Definition knownPhoneMappings (lids : list string) : M (db cdb) (gmap string string) :=
  found ← query_chunks "store: history identity pre-select" select_phones (in_chunks lids);
  mret (list_to_map found).

Definition select_chats (phones : list string) (t : cdb) : list string :=
  List.filter (fun phone => negb (is_none (chat_at t (ib_SessionID b) phone))) phones.
Definition mergeNewMappings (mappings : list (string * string)) : M (db cdb) unit :=
  if is_nil mappings then mret tt
  else
    existing ← query_chunks "store: history alias pre-select" select_chats (in_chunks mappings.*2);
    for_each (fun '(lid, phone) =>
      if decide (phone ∈ existing) then mergeDMChatAlias (ib_SessionID b) lid phone else mret tt) mappings.

(** The rows of [order], and the mappings they add. *)
Definition fill_all (byLID : gmap string identityFill) (order : list string) : M (db cdb) unit :=
  for_each (fun lid =>
    let f := default (MkIdentityFill "" "") (byLID !! lid) in
    write "store: history identity" (fill_identity lid (nullIfEmpty (if_phoneJID f)) (nullIfEmpty (if_name f))
                                       (PhoneFromJID (if_phoneJID f)) (ib_Now b))) order.
Definition new_mappings (byLID : gmap string identityFill) (known : gmap string string) (order : list string) : list (string * string) :=
  omap (fun lid =>
    let f := default (MkIdentityFill "" "") (byLID !! lid) in
    if negb (bool_decide (if_phoneJID f = "")) && bool_decide (default "" (known !! lid) = "") then Some (lid, if_phoneJID f) else None)
    order.

Definition identities : M (db cdb) unit :=
  let s := sighted b in
  (if is_nil (si_order s) then mret tt
   else
     known ← knownPhoneMappings (si_order s);
     fill_all (si_byLID s) (si_order s);;
     mergeNewMappings (new_mappings (si_byLID s) known (si_order s)));;
  for_each (fun phone => FillNameByJID phone (default "" (si_phoneNames s !! phone)) (ib_Now b)) (range_keys (dom (si_phoneNames s))).

Definition group (conv : ImportConversation) : M (db cdb) unit :=
  if negb (bool_decide (iv_Type conv = ChatGroup)) then mret tt
  else
    write "store: history group" (fill_group (iv_ChatJID conv) (nullIfEmpty (iv_Name conv)) (nullIfEmpty (iv_Description conv)) (ib_Now b));;
    for_each (fun '(lid, role) =>
      write "store: history group member" (insert_member (ib_SessionID b, iv_ChatJID conv, lid) role (ib_Now b))) (group_members conv).
Definition groups : M (db cdb) unit := for_each group (ib_Conversations b).

(** One conversation's chat; the JID it is stored under. *)
Definition chat (canonical : gmap string string) (conv : ImportConversation) : M (db cdb) (gmap string string) :=
  if bool_decide (iv_ChatJID conv = "") then mret canonical
  else
    chatJID ← (if bool_decide (iv_Type conv = ChatDM) then canonicalDMChatJID (iv_ChatJID conv) else mret (iv_ChatJID conv));
    let unread := match iv_UnreadCount conv with Some n => if 0 <=? n then Some n else None | None => None end in
    write "store: history chat" (import_chat (ib_SessionID b) chatJID
      (MkChatRow (iv_Type conv) (nullIfEmpty (iv_Name conv)) (last_kept b conv) (default 0 unread) (iv_Archived conv) (iv_Pinned conv)
         (iv_MutedUntil conv)) unread (ib_SnapshotAt b));;
    mret (<[iv_ChatJID conv := chatJID]> canonical).
Fixpoint fold_m {A X} (f : A -> X -> M (db cdb) A) (a : A) (l : list X) : M (db cdb) A :=
  match l with [] => mret a | x :: l => a ← f a x; fold_m f a l end.
Definition chats : M (db cdb) (gmap string string) := fold_m chat ∅ (ib_Conversations b).

Definition select_messages (ids : list string) (t : cdb) : list string :=
  List.filter (fun id => negb (is_none (c_messages t !! (ib_SessionID b, id)))) ids.
Definition storedMessageIDs (ids : list string) : M (db cdb) (gset string) :=
  found ← query_chunks "store: history message pre-select" select_messages (in_chunks ids);
  mret (list_to_set found).

(** The row of an imported message. *)
Definition imported_row (id chatJID : string) (m : ImportMessage) : message_row :=
  MkMessageRow id chatJID (nullIfEmpty (im_SenderLID m)) (nullIfEmpty (im_SenderJID m)) (im_FromMe m)
    (if im_FromMe m then DirectionOut else DirectionIn) (im_Type m) (nullIfEmpty (im_Body m)) (nullIfEmpty (im_QuotedMessageID m))
    (if is_nil (im_Mentions m) then None else Some (json_strings (im_Mentions m))) (im_HasMedia m) (json_media <$> im_MediaMeta m)
    (if im_FromMe m then im_Status m else None) None None false false (im_Timestamp m) (nullableJSON (im_RawJSON m)) (ib_Now b)
    OriginHistory.
Definition insertMessage (id chatJID : string) (m : ImportMessage) : M (db cdb) unit :=
  write "store: history message" (on_messages (insert_if_absent (ib_SessionID b, im_WAMessageID m) (imported_row id chatJID m))).

Definition insertPoll (chatJID : string) (m : ImportMessage) (p : HistoryPoll) : M (db cdb) unit :=
  let ends := 0 <? hp_EndTime p in
  write "store: history poll" (on_polls (insert_if_absent (ib_SessionID b, im_WAMessageID m)
    (MkPollRow chatJID (nullIfEmpty (hp_Name p)) (json_strings (hp_Options p))
       (if hp_SelectableCount p <=? 0 then 1 else hp_SelectableCount p) (if ends then Some (hp_EndTime p) else None) (hp_HideVotes p)
       (if ends && (hp_EndTime p <=? ib_Now b) then Some (ib_Now b) else None) (ib_Now b) (ib_Now b)))).

(** The loop of [messages] over one conversation's messages. *)
Definition message (chatJID : string) (st : gset string * tally) (m : ImportMessage) : M (db cdb) (gset string * tally) :=
  let '(stored, MkTally imported existing dropped) := st in
  if negb (createsRow (im_Kind m)) then mret st
  else if bool_decide (chatJID = "") || negb (keptMessage b m) then mret (stored, MkTally imported existing (dropped + 1))
  else if decide (im_WAMessageID m ∈ stored) then mret (stored, MkTally imported (existing + 1) dropped)
  else
    id ← gets (fun d => NextMessageID d (im_Timestamp m));
    insertMessage id chatJID m;;
    match im_Poll m with Some p => insertPoll chatJID m p | None => mret tt end;;
    mret ({[im_WAMessageID m]} ∪ stored, MkTally (imported + 1) existing dropped).

(** The ids looked up before the loop. *)
Definition message_ids (canonical : gmap string string) : list string :=
  concat ((fun conv => im_WAMessageID <$>
    List.filter (fun m => createsRow (im_Kind m) && keptMessage b m && negb (bool_decide (default "" (canonical !! iv_ChatJID conv) = "")))
      (iv_Messages conv)) <$> ib_Conversations b).
Definition messages (canonical : gmap string string) : M (db cdb) tally :=
  stored ← storedMessageIDs (message_ids canonical);
  st ← fold_m (fun st conv => fold_m (message (default "" (canonical !! iv_ChatJID conv))) st (iv_Messages conv))
         (stored, MkTally 0 0 0) (ib_Conversations b);
  mret st.2.

Definition mutation (m : ImportMessage) : M (db cdb) unit :=
  if bool_decide (im_Kind m = HistoryKindEdited) then
    if bool_decide (im_TargetID m = "") then mret tt
    else write "store: history edit" (edit_unedited (im_Body m) (ib_SessionID b, im_TargetID m))
  else if bool_decide (im_Kind m = HistoryKindRevoked) then
    if bool_decide (im_TargetID m = "") then mret tt
    else write "store: history revoke" (revoke_message (ib_SessionID b, im_TargetID m))
  else if bool_decide (im_Kind m = HistoryKindPollVote) then
    let voter := if bool_decide (im_SenderLID m = "") then im_SenderJID m else im_SenderLID m in
    if bool_decide (im_TargetID m = "") || bool_decide (voter = "") || is_nil (im_SelectedOptions m) || negb (keptVote b m) then mret tt
    else write "store: history poll vote" (fun t => (InsertPollVote (ib_SessionID b, im_TargetID m, voter, im_Timestamp m)
           (MkVoteRow (im_SelectedOptions m) (nullableJSON (im_RawJSON m))) t).2)
  else mret tt.
Definition mutations : M (db cdb) unit := for_each (fun conv => for_each mutation (iv_Messages conv)) (ib_Conversations b).

(** ** [ApplyBatch] *)

(** The body of the transaction. *)
Definition apply_batch : M (db cdb) HistoryBatchResult :=
  seen ← map_err (ErrWrap "store: history ledger check") (query (fun t => negb (is_none (c_batches t !! ib_EventID b))));
  if seen : bool then mret (MkBatchResult false 0 0 0)
  else
    map_err (ErrWrap "store: ensure history run")
      (stmt (ensure_run (ib_SessionID b) (ib_RunID b) (ib_AccountJID b) (ib_Now b)));;
    identities;;
    groups;;
    canonical ← chats;
    res ← messages canonical;
    mutations;;
    let '(MkTally imported existing dropped) := res in
    map_err (ErrWrap "store: history ledger insert")
      (stmt (insert_ledger (ib_EventID b) (MkBatchRow (ib_SessionID b) (ib_RunID b) imported existing dropped (ib_Now b))));;
    write "store: history run counters" (on_runs (alter (add_imports imported existing dropped (ib_Now b)) (ib_SessionID b, ib_RunID b)));;
    map_err (ErrWrap "store: commit history batch") commit_tx;;
    mret (MkBatchResult true imported existing dropped).
End Applier.

Section Repo.
Context {W : Type} `{Handle W} `{Clocks} `{ChatCodec} `{MapRange} `{MessageIDs}.

Definition ApplyBatch (b : ImportBatch) : M W HistoryBatchResult :=
  if bool_decide (ib_EventID b = "") || bool_decide (ib_SessionID b = "") || bool_decide (ib_RunID b = "") then
    throw (ErrValidation "history batch requires event, session and run ids")
  else on_tx (map_err (ErrWrap "store: begin history batch") begin_tx;; with_rollback (apply_batch b)).

(** [HistorySyncUpdate]. *)
Record HistorySyncUpdate := MkHistorySyncUpdate {
  hu_SessionID : string;
  hu_RunID : string;
  hu_Phase : string;
  hu_AccountJID : string;
  hu_SyncType : string;
  hu_Progress : option Z;
  hu_CutoffAt : Z;
  hu_Counts : sync_counts;
  hu_Error : string;
  hu_Now : Z;
}.

(** Status, end and error of a phase. *)
Definition phase_status (u : HistorySyncUpdate) : option (string * option Z * option string) :=
  if bool_decide (hu_Phase u = "completed") then Some ("completed", Some (hu_Now u), None)
  else if bool_decide (hu_Phase u = "failed") then Some ("failed", Some (hu_Now u), nullIfEmpty (hu_Error u))
  else if bool_decide (hu_Phase u = "started") || bool_decide (hu_Phase u = "progress") then Some ("running", None, None)
  else None.

Definition ApplySync (u : HistorySyncUpdate) : M W unit :=
  if bool_decide (hu_SessionID u = "") || bool_decide (hu_RunID u = "") then
    throw (ErrValidation "history sync requires session and run ids")
  else match phase_status u with
  | None => throw (ErrValidation "unknown history sync phase")
  | Some (status, finished, errText) =>
      run_stmt "store: apply history sync" (sync_upsert (hu_SessionID u) (hu_RunID u)
        (MkSyncRun (nullIfEmpty (hu_AccountJID u)) status (nullIfEmpty (hu_SyncType u))
           ((fun p => Z.min (Z.max p 0) 100) <$> hu_Progress u) (if 0 <? hu_CutoffAt u then Some (hu_CutoffAt u) else None)
           (hu_Counts u) no_imports errText (hu_Now u) (hu_Now u) finished))
  end.
End Repo.
