(* ===== verification/Projection.v ===== *)
(** The projection of committed events into the WhatsApp data:
    [service/event_projection.go], [history_projection.go] and the adapter
    [store_projections.go]. The consumer runs over the interface
    [projectionStore], a class; [StoreProjections] is its instance over the
    repositories. Payload decoding is a parameter. *)
From S2P Require Import Prelude Journal Domain OutboxStore EventIngest GatewayTables HistoryConvert HistoryWorker.
From S2P Require Import ChatTables ChatStore HistoryImport.

From Stdlib Require Import Ascii.

#[local] Open Scope Z_scope.

(** ** Inputs of the port *)

Record ProjectionIdentityUpsert := MkIdentityUpsert {
  iu_LID : string;
  iu_PhoneNumber : string;
  iu_PhoneJID : string;
  iu_Name : string;
  iu_BusinessName : string;
  iu_NowMs : Z;
}.
Record ProjectionChatUpsert := MkChatUpsert {
  cu_SessionID : string;
  cu_ChatJID : string;
  cu_Type : string;
  cu_Name : string;
  cu_LastMessageAt : Z;
  cu_NowMs : Z;
}.
Record ProjectionMessageInsert := MkMessageInsert {
  mi_SessionID : string;
  mi_WAMessageID : string;
  mi_ChatJID : string;
  mi_SenderLID : string;
  mi_SenderJID : string;
  mi_FromMe : bool;
  mi_Direction : string;
  mi_Type : string;
  mi_Body : string;
  mi_QuotedMessageID : string;
  mi_Mentions : list string;
  mi_HasMedia : bool;
  mi_MediaMeta : option MediaMeta;
  mi_TimestampMs : Z;
  mi_RawJSON : bytes;
  mi_NowMs : Z;
}.
Record ProjectionMessageStatusUpdate := MkStatusUpdate {
  su_SessionID : string;
  su_WAMessageIDs : list string;
  su_Status : option MessageStatus;
  su_AckLevel : option Z;
  su_NowMs : Z;
}.
Record ProjectionPollUpsert := MkPollUpsert {
  pu_SessionID : string;
  pu_PollMessageID : string;
  pu_ChatJID : string;
  pu_Name : string;
  pu_Options : list string;
  pu_SelectableCount : Z;
  pu_EndTime : Z;
  pu_HideVotes : bool;
  pu_NowMs : Z;
}.
Record ProjectionPollVoteInsert := MkVoteInsert {
  vi_SessionID : string;
  vi_PollMessageID : string;
  vi_VoterLID : string;
  vi_SelectedOptions : bytes;
  vi_TimestampMs : Z;
  vi_RawJSON : bytes;
}.
Record ProjectionGroupUpsert := MkGroupUpsert {
  gu_GroupJID : string;
  gu_Subject : string;
  gu_Description : string;
  gu_OwnerJID : string;
  gu_ParticipantCount : option Z;
  gu_IsAnnounce : option bool;
  gu_IsLocked : option bool;
  gu_CreatedAtWA : option Z;
  gu_NowMs : Z;
}.
Record ProjectionGroupMemberUpsert := MkMemberUpsert {
  mu_SessionID : string;
  mu_GroupJID : string;
  mu_LID : string;
  mu_Tag : string;
  mu_Role : string;
  mu_NowMs : Z;
}.

(** [projectionStore]. *)
Class ProjectionStore (W : Type) := {
  ps_UpsertIdentity : ProjectionIdentityUpsert -> M W unit;
  ps_FillIdentityName : string -> string -> Z -> M W unit;
  ps_UpsertGroup : ProjectionGroupUpsert -> M W unit;
  ps_UpsertGroupMember : ProjectionGroupMemberUpsert -> M W unit;
  ps_UpsertChat : ProjectionChatUpsert -> M W unit;
  ps_InsertMessage : ProjectionMessageInsert -> M W unit;
  ps_MarkMessageEdited : string -> string -> string -> M W unit;
  ps_MarkMessageDeleted : string -> string -> M W unit;
  ps_UpdateMessageStatus : ProjectionMessageStatusUpdate -> M W unit;
  ps_UpsertPoll : ProjectionPollUpsert -> M W unit;
  ps_InsertPollVote : ProjectionPollVoteInsert -> M W unit;
  ps_AttachPairing : AttachPairingInput -> M W unit;
  ps_ClearPairing : string -> Z -> M W unit;
  ps_UpdateSessionStatus : string -> SessionStatus -> Z -> M W unit;
  ps_ApplyHistoryBatch : ImportBatch -> M W HistoryBatchResult;
  ps_ApplyHistorySync : HistorySyncUpdate -> M W unit;
}.

(** ** [StoreProjections] *)

Definition int64Ptr (v : Z) : option Z := if v =? 0 then None else Some v.

Section Adapter.
Context {W : Type} `{Handle W} `{Clocks} `{ChatCodec} `{MapRange} `{MessageIDs}.

Definition UpdateMessageStatus (u : ProjectionMessageStatusUpdate) : M W unit :=
  for_each (fun id => AdvanceReceiptStatus (su_SessionID u) id (su_Status u) (su_AckLevel u)) (su_WAMessageIDs u).

Definition InsertMessage (x : ProjectionMessageInsert) : M W unit :=
  Messages_Upsert (MkMessage "" (mi_SessionID x) (mi_WAMessageID x) (mi_ChatJID x) (nullIfEmpty (mi_SenderLID x))
    (nullIfEmpty (mi_SenderJID x)) (mi_FromMe x) (mi_Direction x) (mi_Type x) (nullIfEmpty (mi_Body x))
    (nullIfEmpty (mi_QuotedMessageID x)) (if is_nil (mi_Mentions x) then [] else json_strings (mi_Mentions x)) (mi_HasMedia x)
    (mi_MediaMeta x) None None None false false (mi_TimestampMs x) (mi_RawJSON x) (mi_NowMs x) "").

#[export] Instance StoreProjections : ProjectionStore W := {|
  ps_UpsertIdentity x := Identities_Upsert (iu_LID x) (MkIdentityRow (nullIfEmpty (iu_PhoneNumber x)) (nullIfEmpty (iu_PhoneJID x))
    (nullIfEmpty (iu_Name x)) (nullIfEmpty (iu_BusinessName x)) (iu_NowMs x) (iu_NowMs x));
  ps_FillIdentityName := FillNameByJID;
  ps_UpsertGroup x := Groups_Upsert (gu_GroupJID x) (MkGroupRow (nullIfEmpty (gu_Subject x)) (nullIfEmpty (gu_Description x))
    (nullIfEmpty (gu_OwnerJID x)) (i32 <$> gu_ParticipantCount x) (gu_IsAnnounce x) (gu_IsLocked x) (gu_CreatedAtWA x) (gu_NowMs x)
    (gu_NowMs x));
  ps_UpsertGroupMember x := GroupMembers_Upsert (mu_SessionID x) (mu_GroupJID x) (mu_LID x)
    (MkMemberRow (nullIfEmpty (mu_Tag x)) (mu_Role x) (mu_NowMs x) (mu_NowMs x));
  ps_UpsertChat x := Chats_Upsert (cu_SessionID x) (cu_ChatJID x)
    (MkChatRow (cu_Type x) (nullIfEmpty (cu_Name x)) (int64Ptr (cu_LastMessageAt x)) 0 false false None);
  ps_InsertMessage := InsertMessage;
  ps_MarkMessageEdited := MarkEdited;
  ps_MarkMessageDeleted := MarkDeleted;
  ps_UpdateMessageStatus := UpdateMessageStatus;
  ps_UpsertPoll x := Polls_Upsert (MkPoll (pu_SessionID x) (pu_PollMessageID x) (pu_ChatJID x) (pu_Name x) (pu_Options x)
    (pu_SelectableCount x) (pu_EndTime x) (pu_HideVotes x) (pu_NowMs x) (pu_NowMs x));
  ps_InsertPollVote x := Votes_Insert (vi_SessionID x) (vi_PollMessageID x) (vi_VoterLID x) (vi_SelectedOptions x) (vi_TimestampMs x)
    (vi_RawJSON x);; mret tt;
  ps_AttachPairing := AttachPairing;
  ps_ClearPairing := ClearPairing;
  ps_UpdateSessionStatus := Sessions_UpdateStatus;
  ps_ApplyHistoryBatch := ApplyBatch;
  ps_ApplyHistorySync := ApplySync;
|}.
End Adapter.

(** ** Payloads *)

(** The fields of [apitypes.MessagePayload] that are projected; of the mentions
    the keys, of location and contact whether they are there. *)
Record MessagePayload := MkMessagePayload {
  pm_WAMessageID : string;
  pm_ChatJID : string;
  pm_SenderJID : string;
  pm_SenderLID : string;
  pm_FromMe : bool;
  pm_Type : string;
  pm_Body : string;
  pm_QuotedMessageID : string;
  pm_Mentions : gset string;
  pm_HasMedia : bool;
  pm_Media : option MediaMeta;
  pm_Timestamp : Z;
  pm_PushName : string;
  pm_TargetID : string;
  pm_Location : bool;
  pm_Contact : bool;
  pm_Poll : option HistoryPoll;
  pm_SelectedOptions : list string;
}.
Record MessageStatusPayload := MkStatusPayload { sp_MessageIDs : list string; sp_Status : string }.
Record AuthCodePayload := MkAuthCodePayload { ac_JID : string; ac_LID : string }.

(** [json.Unmarshal] of a stored payload, and [json.Marshal] of a payload and of a
    message of a batch. *)
Class ProjectionCodec := {
  decode_message : bytes -> goerr + MessagePayload;
  decode_status : bytes -> goerr + MessageStatusPayload;
  decode_auth : bytes -> goerr + AuthCodePayload;
  decode_session_status : bytes -> goerr + string;
  decode_batch : bytes -> goerr + HistoryBatchPayload;
  decode_sync : bytes -> goerr + HistorySyncPayload;
  marshal_raw : bytes -> goerr + bytes;
  marshal_message : HistoryMessage -> goerr + bytes;
}.

(** The fields of a message of a batch that the conversion does not look at. *)
Class MessageFields := {
  mf_PushName : list (string * json) -> string;
  mf_QuotedMessageID : list (string * json) -> string;
  mf_Mentions : list (string * json) -> gset string;
  mf_HasMedia : list (string * json) -> bool;
  mf_Media : list (string * json) -> option MediaMeta;
  mf_Location : list (string * json) -> bool;
  mf_Poll : list (string * json) -> option HistoryPoll;
}.
Definition payload_of `{MessageFields} (m : HistoryMessage) : MessagePayload :=
  let f := ms_Fields m in
  MkMessagePayload (ms_WAMessageID m) (ms_ChatJID m) (ms_SenderJID m) (ms_SenderLID m) (ms_FromMe m) (ms_Type m) (ms_Body m)
    (mf_QuotedMessageID f) (mf_Mentions f) (mf_HasMedia f) (mf_Media f) (ms_Timestamp m) (mf_PushName f) (ms_TargetID m)
    (mf_Location f) (negb (is_none (ms_VCard m))) (mf_Poll f) (ms_SelectedOptions m).

(** ** Small functions *)

(** [strings.TrimSuffix] of a suffix that is there, and [strings.Cut] at a colon. *)
Definition TrimSuffix (s suffix : string) : string := String.substring 0 (String.length s - String.length suffix) s.
Fixpoint before_colon (s : string) : string :=
  match s with
  | EmptyString => EmptyString
  | String c s => if Ascii.eqb c ":"%char then EmptyString else String c (before_colon s)
  end.
Definition phoneFromJID (jid : string) : string :=
  if negb (HasSuffix jid "@s.whatsapp.net") then "" else before_colon (TrimSuffix jid "@s.whatsapp.net").

Definition chatTypeFromJID (jid : string) : string :=
  if HasSuffix jid "@g.us" then ChatGroup
  else if HasSuffix jid "@newsletter" then ChatNewsletter
  else if HasSuffix jid "@broadcast" then if String.prefix "status@broadcast" jid then ChatStatus else ChatBroadcast
  else ChatDM.

(** [domain.SessionStatus(p.Status)], by the stored names. *)
Definition SessionStatusOf (s : string) : option SessionStatus :=
  if bool_decide (s = "starting") then Some SessionStarting
  else if bool_decide (s = "scan_qr_code") then Some SessionScanQR
  else if bool_decide (s = "working") then Some SessionWorking
  else if bool_decide (s = "failed") then Some SessionFailed
  else if bool_decide (s = "stopped") then Some SessionStopped
  else if bool_decide (s = "logged_out") then Some SessionLoggedOut
  else None.

Fixpoint historyMediaMeta (m : MediaMeta) : MediaMeta :=
  match m with MkMediaMeta items _ _ _ mimetype size filename => MkMediaMeta (map historyMediaMeta items) "" "" None mimetype size filename end.

Definition validMessageStatus (s : option MessageStatus) : bool :=
  match s with Some MessageUnknown | None => false | Some _ => true end.
Definition dayMs : Z := 24 * 60 * 60 * 1000.

Section Consumer.
Context {W : Type} `{ProjectionStore W} `{ProjectionCodec} `{MessageFields} `{ChatCodec} `{MapRange}.
Variable clock : W -> Z.
Variable retentionDays : Z.

Definition payloadJSON (event : RawEvent) : bytes := match marshal_raw (re_Payload event) with inr raw => raw | inl _ => [] end.
Definition mentionKeys (m : gset string) : list string := range_keys m.

(** No text, location, contact or poll. *)
Definition noDisplayableContent (p : MessagePayload) : bool :=
  bool_decide (pm_Body p = "") && negb (pm_Location p) && negb (pm_Contact p) && is_none (pm_Poll p).
Definition string_of_bytes (b : bytes) : string := String.string_of_list_ascii (Ascii.ascii_of_byte <$> b).

(** ** Live messages *)

(** The message's row. *)
Definition message_insert (event : RawEvent) (p : MessagePayload) (now : Z) : ProjectionMessageInsert :=
  let raw := payloadJSON event in
  MkMessageInsert (re_Session event) (pm_WAMessageID p) (pm_ChatJID p) (pm_SenderLID p) (pm_SenderJID p) (pm_FromMe p)
    (if pm_FromMe p then DirectionOut else DirectionIn) (pm_Type p)
    (if noDisplayableContent p && negb (is_nil raw) then string_of_bytes raw else pm_Body p)
    (pm_QuotedMessageID p) (mentionKeys (pm_Mentions p)) (pm_HasMedia p) (pm_Media p) (pm_Timestamp p) raw now.

Definition capture_sender (p : MessagePayload) (now : Z) : M W unit :=
  if negb (bool_decide (pm_SenderLID p = "")) then
    ps_UpsertIdentity (MkIdentityUpsert (pm_SenderLID p) (phoneFromJID (pm_SenderJID p)) (pm_SenderJID p) (pm_PushName p) "" now)
  else if negb (bool_decide (pm_PushName p = "")) && negb (bool_decide (pm_SenderJID p = "")) then
    ps_FillIdentityName (pm_SenderJID p) (pm_PushName p) now
  else mret tt.

Definition projectMessage (event : RawEvent) : M W unit :=
  p ← lift_result (decode_message (re_Payload event));
  now ← gets clock;
  let ct := chatTypeFromJID (pm_ChatJID p) in
  (if bool_decide (pm_ChatJID p = "") then mret tt
   else ps_UpsertChat (MkChatUpsert (re_Session event) (pm_ChatJID p) ct (if bool_decide (ct = ChatGroup) then "" else pm_PushName p)
          (pm_Timestamp p) now));;
  ps_InsertMessage (message_insert event p now);;
  match pm_Poll p with
  | Some poll => ps_UpsertPoll (MkPollUpsert (re_Session event) (pm_WAMessageID p) (pm_ChatJID p) (hp_Name poll) (hp_Options poll)
                   (hp_SelectableCount poll) (hp_EndTime poll) (hp_HideVotes poll) now)
  | None => mret tt
  end;;
  capture_sender p now;;
  if bool_decide (ct = ChatGroup) && negb (bool_decide (pm_SenderLID p = "")) then
    ps_UpsertGroupMember (MkMemberUpsert (re_Session event) (pm_ChatJID p) (pm_SenderLID p) "" RoleMember now)
  else mret tt.

Definition captureSenderOnly (p : MessagePayload) : M W unit := now ← gets clock; capture_sender p now.

Definition projectReaction (event : RawEvent) : M W unit :=
  p ← lift_result (decode_message (re_Payload event));
  captureSenderOnly p.

Definition projectEdit (event : RawEvent) : M W unit :=
  p ← lift_result (decode_message (re_Payload event));
  if bool_decide (pm_TargetID p = "") then mret tt else ps_MarkMessageEdited (re_Session event) (pm_TargetID p) (pm_Body p).

Definition projectRevoke (event : RawEvent) : M W unit :=
  p ← lift_result (decode_message (re_Payload event));
  if bool_decide (pm_TargetID p = "") then mret tt
  else
    r ← attempt (ps_MarkMessageDeleted (re_Session event) (pm_TargetID p));
    match r with
    | inr _ => mret tt
    | inl err => if bool_decide (api_code err = Some CodeNotFound) then mret tt else throw err
    end.

Definition projectPollVote (event : RawEvent) : M W unit :=
  p ← lift_result (decode_message (re_Payload event));
  ps_InsertPollVote (MkVoteInsert (re_Session event) (pm_TargetID p)
    (if bool_decide (pm_SenderLID p = "") then pm_SenderJID p else pm_SenderLID p) (json_strings (pm_SelectedOptions p)) (pm_Timestamp p)
    (payloadJSON event));;
  captureSenderOnly p.

Definition projectReceipt (event : RawEvent) : M W unit :=
  p ← lift_result (decode_status (re_Payload event));
  if is_nil (sp_MessageIDs p) then mret tt
  else now ← gets clock;
       ps_UpdateMessageStatus (MkStatusUpdate (re_Session event) (sp_MessageIDs p) (MessageStatusOf (sp_Status p)) None now).

(** ** Sessions *)

Definition projectPairSuccess (event : RawEvent) : M W unit :=
  p ← lift_result (decode_auth (re_Payload event));
  if bool_decide (ac_JID p = "") then mret tt
  else now ← gets clock;
       ps_AttachPairing (MkAttachPairingInput (re_Session event) (ac_JID p) (ac_LID p) (phoneFromJID (ac_JID p)) now).

Definition projectSessionStatus (event : RawEvent) : M W unit :=
  s ← lift_result (decode_session_status (re_Payload event));
  match SessionStatusOf s with
  | Some SessionLoggedOut => now ← gets clock; ps_ClearPairing (re_Session event) now
  | Some status => now ← gets clock; ps_UpdateSessionStatus (re_Session event) status now
  | None => throw (ErrValidation "unknown session status")
  end.

(** ** History *)

Definition retentionCutoff (now : Z) : Z := if retentionDays <=? 0 then 0 else i64 (now - i64 (retentionDays * dayMs)).

Definition historyMessageFromPayload (chatJID : string) (m : HistoryMessage) : goerr + ImportMessage :=
  let p := payload_of m in
  match marshal_message m with
  | inl err => inl err
  | inr raw =>
      let kind := if bool_decide (ms_Kind m = "") then if pm_FromMe p then HistoryKindFromMe else HistoryKindMessage else ms_Kind m in
      let moved := HasSuffix chatJID "@g.us" && bool_decide (pm_SenderLID p = "") && HasSuffix (pm_SenderJID p) "@lid" in
      inr (MkImportMessage kind (pm_WAMessageID p) (if moved then pm_SenderJID p else pm_SenderLID p)
        (if moved then "" else pm_SenderJID p) (pm_PushName p) (pm_FromMe p) (if bool_decide (pm_Type p = "") then "system" else pm_Type p)
        (if negb (bool_decide (kind = HistoryKindEdited)) && noDisplayableContent p then string_of_bytes raw else pm_Body p)
        (pm_QuotedMessageID p) (mentionKeys (pm_Mentions p)) (pm_HasMedia p) (historyMediaMeta <$> pm_Media p) (pm_Timestamp p) raw
        (if validMessageStatus (MessageStatusOf (ms_Status m)) then MessageStatusOf (ms_Status m) else None) (pm_TargetID p) (pm_Poll p)
        (if bool_decide (kind = HistoryKindPollVote) && negb (is_nil (pm_SelectedOptions p)) then json_strings (pm_SelectedOptions p) else []))
  end.

(** All of a list, or the first error. *)
Fixpoint map_all {A B} (f : A -> goerr + B) (l : list A) : goerr + list B :=
  match l with
  | [] => inr []
  | x :: l => match f x with
              | inl err => inl err
              | inr y => match map_all f l with inl err => inl err | inr l => inr (y :: l) end
              end
  end.

Definition conversation_from_payload (conv : HistoryConversation) : goerr + ImportConversation :=
  match map_all (historyMessageFromPayload (cv_ChatJID conv)) (cv_Messages conv) with
  | inl err => inl err
  | inr messages => inr (MkImportConversation (cv_ChatJID conv) (chatTypeFromJID (cv_ChatJID conv)) (cv_Name conv) (cv_Description conv)
      (cv_LID conv) (cv_PhoneJID conv) (cv_UnreadCount conv) (cv_Archived conv) (cv_Pinned conv)
      (if 0 <? cv_MutedUntil conv then Some (cv_MutedUntil conv) else None) (cv_Participants conv) messages)
  end.

Definition historyBatchFromPayload (event : RawEvent) (p : HistoryBatchPayload) (now cutoff : Z) : goerr + ImportBatch :=
  match map_all conversation_from_payload (List.filter (fun c => negb (bool_decide (cv_ChatJID c = ""))) (bp_Conversations p)) with
  | inl err => inl err
  | inr convs => inr (MkImportBatch (re_ID event) (re_Session event) (bp_RunID p) (bp_AccountJID p)
      (if bp_SnapshotAt p <=? 0 then re_Timestamp event else bp_SnapshotAt p) cutoff now (bp_Contacts p) convs)
  end.

Definition projectHistoryBatch (event : RawEvent) : M W unit :=
  match decode_batch (re_Payload event) with
  | inl _ => mret tt
  | inr p =>
      if bool_decide (bp_RunID p = "") then mret tt
      else
        now ← gets clock;
        match historyBatchFromPayload event p now (retentionCutoff now) with
        | inl _ => mret tt
        | inr batch => ps_ApplyHistoryBatch batch;; mret tt
        end
  end.

Definition known_phase (phase : string) : bool :=
  bool_decide (phase ∈ [HistoryPhaseStarted; HistoryPhaseProgress; HistoryPhaseCompleted; HistoryPhaseFailed]).
Definition projectHistorySync (event : RawEvent) : M W unit :=
  match decode_sync (re_Payload event) with
  | inl _ => mret tt
  | inr p =>
      if negb (known_phase (sp_Phase p)) then mret tt
      else if bool_decide (sp_RunID p = "") then mret tt
      else
        now ← gets clock;
        ps_ApplyHistorySync (MkHistorySyncUpdate (re_Session event) (sp_RunID p) (sp_Phase p) (sp_AccountJID p) (sp_SyncType p)
          (sp_Progress p) (sp_CutoffAt p)
          (MkSyncCounts (sp_Chunks p) (sp_Batches p) (sp_Conversations p) (sp_Messages p) (sp_Skipped p)) (sp_Error p) now)
  end.

(** ** [ConsumeCommittedEvent] of the consumer *)

Definition ConsumeEvent (event : RawEvent) : M W unit :=
  let type t := bool_decide (re_Type event = t) in
  if type "message" || type "message.from_me" || type "message.interactive_reply" then projectMessage event
  else if type "message.reaction" then projectReaction event
  else if type "message.edited" then projectEdit event
  else if type "message.revoked" then projectRevoke event
  else if type "poll.vote" then projectPollVote event
  else if type "message.status" then projectReceipt event
  else if type "auth.code" then projectPairSuccess event
  else if type "session.status" then projectSessionStatus event
  else if type EventHistoryBatch then projectHistoryBatch event
  else if type EventHistorySync then projectHistorySync event
  else mret tt.
End Consumer.
