(* ===== verification/ProjectionSpec.v ===== *)
(** What the projection of committed events keeps true of the WhatsApp data,
    whatever other replicas and the API write at the same time: rows of messages,
    identities, polls, votes and imports only advance. *)
From S2P Require Import Prelude Journal Domain OutboxStore EventIngest GatewayTables HistoryConvert HistoryWorker.
From S2P Require Import ChatTables ChatStore HistoryImport Projection.

#[local] Open Scope Z_scope.

(** ** Tables that grow *)

(** Every row stays, and is related to what it becomes. *)
Definition map_grows {K A} `{Countable K} (R : A -> A -> Prop) (m m' : gmap K A) : Prop :=
  forall k a, m !! k = Some a -> exists b, m' !! k = Some b /\ R a b.

Section Growth.
Context {K A : Type} `{Countable K} (R : A -> A -> Prop) `{!PreOrder R}.
Implicit Types m : gmap K A.

#[export] Instance map_grows_preorder : PreOrder (map_grows (K:=K) R).
Proof.
  split; [intros m k a Ha; exists a; by split|]. intros m1 m2 m3 H12 H23 k a Ha.
  destruct (H12 k a Ha) as (b & Hb & Hab). destruct (H23 k b Hb) as (c & Hc & Hbc). exists c. split; [done|]. by transitivity b.
Qed.

Lemma map_grows_upsert k new (f : A -> A) m : (forall a, R a (f a)) -> map_grows R m (upsert k new f m).
Proof.
  intros Hf k' a Ha. unfold upsert. destruct (decide (k' = k)) as [->|Hne].
  - rewrite lookup_insert_eq, Ha. eauto.
  - rewrite lookup_insert_ne by done. exists a. by split.
Qed.

Lemma map_grows_alter k (f : A -> A) m : (forall a, R a (f a)) -> map_grows R m (alter f k m).
Proof.
  intros Hf k' a Ha. destruct (decide (k' = k)) as [->|Hne].
  - rewrite lookup_alter_eq, Ha. cbn. eauto.
  - rewrite lookup_alter_ne by done. exists a. by split.
Qed.

Lemma map_grows_fmap (f : A -> A) m : (forall a, R a (f a)) -> map_grows R m (f <$> m).
Proof. intros Hf k a Ha. rewrite lookup_fmap, Ha. cbn. eauto. Qed.

Lemma map_grows_imap (f : K -> A -> A) m :
  (forall k a, R a (f k a)) -> map_grows R m (map_imap (fun k a => Some (f k a)) m).
Proof. intros Hf k a Ha. rewrite map_lookup_imap, Ha. cbn. eauto. Qed.

Lemma map_grows_update_key k p (f : A -> A) m : (forall a, p a = true -> R a (f a)) -> map_grows R m (update_key k p f m).2.
Proof.
  intros Hf k' a Ha. unfold update_key. destruct (m !! k) as [r|] eqn:Hr; [|exists a; by split].
  destruct (p r) eqn:Hp; cbn; [|exists a; by split]. destruct (decide (k' = k)) as [->|Hne].
  - rewrite lookup_insert_eq. assert (a = r) as -> by congruence. eauto.
  - rewrite lookup_insert_ne by done. exists a. by split.
Qed.
End Growth.

(** ** Rows that advance *)

Definition still_known {A} (a b : option A) : Prop := is_Some a -> is_Some b.

(** A failed send stays failed; any other status only moves forward ("unknown" is
    no value of the column). *)
Definition status_advances (s s' : option MessageStatus) : Prop :=
  s <> Some MessageUnknown -> s' <> Some MessageUnknown /\
  (s' = s \/ s <> Some MessageFailed /\ s' <> Some MessageFailed /\
             FIELD_status (default MessagePending s) < FIELD_status (default MessagePending s')).
Definition ack_advances (a a' : option Z) : Prop := forall n, a = Some n -> exists n', a' = Some n' /\ n <= n'.

Record message_advances (r r' : message_row) : Prop := {
  ma_same : (mg_id r', mg_from_me r', mg_direction r', mg_type r', mg_timestamp r', mg_created_at r', mg_origin r', mg_error r') =
            (mg_id r, mg_from_me r, mg_direction r, mg_type r, mg_timestamp r, mg_created_at r, mg_origin r, mg_error r);
  ma_status : status_advances (mg_status r) (mg_status r');
  ma_ack : ack_advances (mg_ack_level r) (mg_ack_level r');
  ma_edited : mg_edited r = true -> mg_edited r' = true;
  ma_deleted : mg_deleted r = true -> mg_deleted r' = true;
  ma_body : still_known (mg_body r) (mg_body r');
  ma_raw : still_known (mg_raw_json r) (mg_raw_json r');
}.

Record identity_advances (r r' : identity_row) : Prop := {
  ia_seen : id_first_seen_at r' = id_first_seen_at r;
  ia_number : still_known (id_phone_number r) (id_phone_number r');
  ia_jid : still_known (id_phone_jid r) (id_phone_jid r');
  ia_name : nameless (id_name r) = false -> nameless (id_name r') = false;
  ia_business : still_known (id_business_name r) (id_business_name r');
}.

Record poll_advances (r r' : poll_row) : Prop := {
  pa_created : pl_created_at r' = pl_created_at r;
  pa_recap : forall t, pl_recap_emitted_at r = Some t -> pl_recap_emitted_at r' = Some t;
}.

(** Counters of the gateway never go back; the account and the start of a run stay. *)
Definition counts_le (a b : sync_counts) : Prop :=
  sc_chunks a <= sc_chunks b /\ sc_batches a <= sc_batches b /\ sc_conversations a <= sc_conversations b /\
  sc_messages a <= sc_messages b /\ sc_skipped a <= sc_skipped b.
Record run_advances (r r' : sync_run) : Prop := {
  ra_account : forall a, sr_account_jid r = Some a -> sr_account_jid r' = Some a;
  ra_started : sr_started_at r' = sr_started_at r;
  ra_updated : sr_updated_at r <= sr_updated_at r';
  ra_counts : counts_le (sr_counts r) (sr_counts r');
}.

Record advances (t t' : cdb) : Prop := {
  ad_messages : map_grows message_advances (c_messages t) (c_messages t');
  ad_identities : map_grows identity_advances (c_identities t) (c_identities t');
  ad_polls : map_grows poll_advances (c_polls t) (c_polls t');
  ad_votes : map_grows eq (c_votes t) (c_votes t');
  ad_runs : map_grows run_advances (c_runs t) (c_runs t');
  ad_batches : map_grows eq (c_batches t) (c_batches t');
}.

#[export] Instance status_advances_preorder : PreOrder status_advances.
Proof.
  split; [intros s Hs; split; [done|by left]|]. intros a b c H12 H23 Ha. destruct (H12 Ha) as [Hb Hab]. destruct (H23 Hb) as [Hc Hbc].
  split; [done|]. destruct Hab as [->|(H1 & H2 & H3)]; [done|]. destruct Hbc as [->|(H4 & H5 & H6)]; right; [done|].
  split; [done|]. split; [done|lia].
Qed.

#[export] Instance message_advances_preorder : PreOrder message_advances.
Proof.
  split.
  - intros r. split; try done. intros n Hn. exists n. split; [done|lia].
  - intros a b c [] []. split; try (unfold still_known in *; by auto); [congruence|by etransitivity|].
    intros n Hn. destruct (ma_ack0 n Hn) as (n1 & H1 & Hle1). destruct (ma_ack1 n1 H1) as (n2 & H2 & Hle2). exists n2. split; [done|lia].
Qed.
#[export] Instance identity_advances_preorder : PreOrder identity_advances.
Proof. split; [intros r; by split|]. intros a b c [] []. split; unfold still_known in *; auto. congruence. Qed.
#[export] Instance poll_advances_preorder : PreOrder poll_advances.
Proof. split; [intros r; by split|]. intros a b c [] []. split; [congruence|auto]. Qed.
#[export] Instance run_advances_preorder : PreOrder run_advances.
Proof.
  split; [intros r; split; [done|done|lia|unfold counts_le; lia]|].
  intros a b c [] []. split; [auto|congruence|lia|unfold counts_le in *; lia].
Qed.
#[export] Instance advances_preorder : PreOrder advances.
Proof.
  split; [intros t; split; reflexivity|]. intros a b c [] []. split; (etransitivity; eassumption).
Qed.

(** A table of its own, and the others as they were. *)
Lemma advances_messages f t : map_grows message_advances (c_messages t) (f (c_messages t)) -> advances t (on_messages f t).
Proof. intros Hg. split; cbn; try reflexivity. exact Hg. Qed.
Lemma advances_identities f t : map_grows identity_advances (c_identities t) (f (c_identities t)) -> advances t (on_identities f t).
Proof. intros Hg. split; cbn; try reflexivity. exact Hg. Qed.
Lemma advances_polls f t : map_grows poll_advances (c_polls t) (f (c_polls t)) -> advances t (on_polls f t).
Proof. intros Hg. split; cbn; try reflexivity. exact Hg. Qed.
Lemma advances_votes f t : map_grows eq (c_votes t) (f (c_votes t)) -> advances t (on_votes f t).
Proof. intros Hg. split; cbn; try reflexivity. exact Hg. Qed.
Lemma advances_runs f t : map_grows run_advances (c_runs t) (f (c_runs t)) -> advances t (on_runs f t).
Proof. intros Hg. split; cbn; try reflexivity. exact Hg. Qed.
Lemma advances_batches f t : map_grows eq (c_batches t) (f (c_batches t)) -> advances t (on_batches f t).
Proof. intros Hg. split; cbn; try reflexivity. exact Hg. Qed.
Lemma advances_chats f t : advances t (on_chats f t).
Proof. split; cbn; reflexivity. Qed.
Lemma advances_groups f t : advances t (on_groups f t).
Proof. split; cbn; reflexivity. Qed.
Lemma advances_members f t : advances t (on_members f t).
Proof. split; cbn; reflexivity. Qed.
Lemma advances_sessions f t : advances t (on_sessions f t).
Proof. split; cbn; reflexivity. Qed.

Create HintDb advance.
#[export] Hint Resolve advances_chats advances_groups advances_members advances_sessions : advance.

(** *** Each statement *)

Lemma coalesce_known {A} (a b : option A) : still_known b (coalesce a b).
Proof. unfold still_known. destruct a; cbn; [eauto|done]. Qed.
Lemma coalesce_kept {A} (a b : option A) : still_known a (coalesce a b).
Proof. unfold still_known. intros [x ->]. cbn. eauto. Qed.
#[export] Hint Resolve coalesce_known coalesce_kept : advance.

Lemma known_some {A} (a : option A) (b : A) : still_known a (Some b).
Proof. unfold still_known. eauto. Qed.
Lemma known_refl {A} (a : option A) : still_known a a.
Proof. done. Qed.
#[export] Hint Resolve known_some known_refl : advance.

Lemma ack_refl a : ack_advances a a.
Proof. intros n Hn. exists n. split; [done|lia]. Qed.
#[export] Hint Resolve ack_refl : advance.

Lemma same_advances r r' :
  (mg_id r', mg_from_me r', mg_direction r', mg_type r', mg_timestamp r', mg_created_at r', mg_origin r', mg_error r') =
  (mg_id r, mg_from_me r, mg_direction r, mg_type r, mg_timestamp r, mg_created_at r, mg_origin r, mg_error r) ->
  mg_status r' = mg_status r -> mg_ack_level r' = mg_ack_level r ->
  (mg_edited r = true -> mg_edited r' = true) -> (mg_deleted r = true -> mg_deleted r' = true) ->
  still_known (mg_body r) (mg_body r') -> still_known (mg_raw_json r) (mg_raw_json r') -> message_advances r r'.
Proof. intros H1 H2 H3 ????. split; try done; [rewrite H2; reflexivity|]. rewrite H3. apply ack_refl. Qed.

Lemma upsert_message_advances k new t : advances t (UpsertMessage k new t).
Proof.
  apply advances_messages, map_grows_upsert; [apply _|]. intros r. apply same_advances; cbn; auto with advance.
Qed.
Lemma move_messages_advances lid phone t : advances t (UpdateMessageDMChatAliases lid phone t).
Proof. apply advances_messages, map_grows_fmap. intros r. by apply same_advances. Qed.
Lemma move_session_messages_advances lid session phone t : advances t (UpdateSessionMessageDMChatAliases lid session phone t).
Proof.
  apply advances_messages, map_grows_imap. intros k r. case_bool_decide; [by apply same_advances|reflexivity].
Qed.
Lemma next_status_advances rank next s :
  rank = receiptStatusRank next -> status_advances s (next_status rank next s).
Proof.
  intros -> Hs. unfold next_status. case_bool_decide; [by split; [|left]|]. split_if; [|by split; [|left]]. to_prop.
  destruct next as [[]|], s as [[]|]; cbn in *; try lia; split; try done; right; split; done.
Qed.
Lemma next_ack_advances next a : ack_advances a (next_ack next a).
Proof.
  intros n ->. destruct next as [m|]; cbn; [|exists n; split; [done|lia]].
  destruct (n <? m) eqn:Hlt; to_prop; [exists m|exists n]; split; (done || lia).
Qed.
Lemma receipt_advances rank next ack k t :
  rank = receiptStatusRank next -> advances t (AdvanceReceiptStatus_stmt rank next ack k t).
Proof.
  intros Hr. apply advances_messages, map_grows_alter; [apply _|]. intros r. split; try done.
  - by apply next_status_advances.
  - apply next_ack_advances.
Qed.
Lemma edited_advances body k t : advances t (MarkMessageEdited body k t).2.
Proof.
  unfold MarkMessageEdited. pose proof (map_grows_update_key message_advances k (fun _ => true) (with_edit (Some body)) (c_messages t)) as Hg.
  destruct (update_key _ _ _ _) as [n m]. apply advances_messages, Hg. intros r _. apply same_advances; cbn; auto with advance.
Qed.
Lemma deleted_advances k t : advances t (MarkMessageDeleted k t).2.
Proof.
  unfold MarkMessageDeleted. pose proof (map_grows_update_key message_advances k (fun _ => true) with_deletion (c_messages t)) as Hg.
  destruct (update_key _ _ _ _) as [n m]. apply advances_messages, Hg. intros r _. by apply same_advances.
Qed.
Lemma edit_unedited_advances body k t : advances t (edit_unedited body k t).
Proof.
  apply advances_messages, map_grows_alter; [apply _|]. intros r. destruct (mg_edited r) eqn:He; [reflexivity|].
  apply same_advances; cbn; auto with advance.
Qed.
Lemma revoke_advances k t : advances t (revoke_message k t).
Proof. apply advances_messages, map_grows_alter; [apply _|]. intros r. by apply same_advances. Qed.
Lemma insert_message_advances k r t : advances t (on_messages (insert_if_absent k r) t).
Proof. apply advances_messages, map_grows_upsert; [apply _|]. reflexivity. Qed.

Lemma upsert_identity_advances lid new t : id_name new <> Some "" -> advances t (UpsertIdentity lid new t).
Proof.
  intros Hn. apply advances_identities, map_grows_upsert; [apply _|]. intros r. split; cbn; auto with advance.
  destruct (id_name new) as [n|]; cbn; [|done]. intros _. apply bool_decide_eq_false. congruence.
Qed.
Lemma fill_name_advances jid name now t : advances t (FillIdentityNameByJID jid name now t).
Proof.
  apply advances_identities, map_grows_imap. intros lid r. destruct (_ && nameless _) eqn:Hu; [|reflexivity]. apply andb_true_iff in Hu as [_ Hu].
  split; cbn; try done. intros Hr. by rewrite Hr in Hu.
Qed.
Lemma fill_identity_advances lid phone name number now t : advances t (fill_identity lid phone name number now t).
Proof.
  apply advances_identities, map_grows_upsert; [apply _|]. intros r. split; cbn; auto with advance.
  intros Hr. by rewrite !Hr.
Qed.

Lemma move_polls_advances lid phone t : advances t (UpdatePollDMChatAliases lid phone t).
Proof. apply advances_polls, map_grows_fmap. intros p. by split. Qed.
Lemma move_session_polls_advances lid session phone t : advances t (UpdateSessionPollDMChatAliases lid session phone t).
Proof. apply advances_polls, map_grows_imap. intros k p. case_bool_decide; [by split|reflexivity]. Qed.
Lemma upsert_poll_advances k new t : advances t (UpsertPoll k new t).
Proof. apply advances_polls, map_grows_upsert; [apply _|]. intros p. by split. Qed.
Lemma insert_poll_advances k p t : advances t (on_polls (insert_if_absent k p) t).
Proof. apply advances_polls, map_grows_upsert; [apply _|]. reflexivity. Qed.
Lemma insert_vote_advances k v t : advances t (InsertPollVote k v t).2.
Proof. apply advances_votes, map_grows_upsert; [apply _|]. reflexivity. Qed.

Lemma counts_max_le new old : counts_le old (counts_max new old).
Proof. unfold counts_le, counts_max. cbn. lia. Qed.
Lemma of_session_advances session f t : (forall t, advances t (f t)) -> advances t (of_session session f t).2.
Proof. unfold of_session. destruct (c_sessions t !! session); [auto|reflexivity]. Qed.
Lemma ensure_run_advances session run account now t : advances t (ensure_run session run account now t).2.
Proof.
  apply of_session_advances. intros s. apply advances_runs, map_grows_upsert; [apply _|]. intros r. split; cbn; try done. by intros a ->.
Qed.
Lemma sync_upsert_advances session run new t : advances t (sync_upsert session run new t).2.
Proof.
  apply of_session_advances. intros s. apply advances_runs, map_grows_upsert; [apply _|]. intros r. split; cbn; try done.
  - by intros a ->.
  - lia.
  - apply counts_max_le.
Qed.
Lemma add_imports_advances i e d now k t : advances t (on_runs (alter (add_imports i e d now) k) t).
Proof.
  apply advances_runs, map_grows_alter; [apply _|]. intros r. split; cbn; try done. lia.
Qed.
Lemma insert_ledger_advances event r t : advances t (insert_ledger event r t).2.
Proof.
  unfold insert_ledger, of_session. destruct (c_batches t !! event) eqn:He; [reflexivity|].
  destruct (c_sessions t !! _); [|reflexivity]. apply advances_batches. intros k b Hb. exists b. split; [|done].
  rewrite lookup_insert_ne; [done|]. by intros ->; rewrite He in Hb.
Qed.

#[export] Hint Resolve upsert_message_advances move_messages_advances move_session_messages_advances receipt_advances edited_advances
  deleted_advances edit_unedited_advances revoke_advances insert_message_advances fill_name_advances fill_identity_advances
  move_polls_advances move_session_polls_advances upsert_poll_advances insert_poll_advances insert_vote_advances ensure_run_advances
  sync_upsert_advances add_imports_advances insert_ledger_advances : advance.

(** ** Operations *)

(** What a relation between rows means for the two kinds of handle. *)
Class HandleRel (W : Type) `{Handle W} := {
  lifted : (cdb -> cdb -> Prop) -> W -> W -> Prop;
  lifted_preorder R :: PreOrder R -> PreOrder (lifted R);
  respects_on_tx R {A} (m : M (db cdb) A) : PreOrder R -> respects (on_rows R) m -> respects (lifted R) (on_tx m);
}.
#[export] Program Instance pool_rel `{Clocks} : HandleRel (shared cdb) := {| lifted := grows_under |}.
Next Obligation. intros. by apply respects_atomically. Qed.
#[export] Program Instance tx_rel `{Clocks} : HandleRel (db cdb) := {| lifted := on_rows |}.
Next Obligation. done. Qed.

Lemma respects_query_row {A} (R : cdb -> cdb -> Prop) `{!PreOrder R} (f : cdb -> option A) : respects (on_rows R) (query_row f).
Proof. apply respects_stmt; [apply _|]. intros t. by destruct (f t). Qed.

Section Loops.
Context {W : Type} (R : W -> W -> Prop) `{!PreOrder R}.
Lemma respects_for_each {A} (f : A -> M W unit) l : (forall a, respects R (f a)) -> respects R (for_each f l).
Proof. intros Hf. induction l; cbn; [apply respects_ret, _|]. apply respects_bind; [apply _|apply Hf|done]. Qed.
End Loops.
Lemma respects_fold_m {A X} R `{!PreOrder R} (f : A -> X -> M (db cdb) A) l : forall a,
  (forall a x, respects (on_rows R) (f a x)) -> respects (on_rows R) (fold_m f a l).
Proof.
  induction l as [|x l IH]; intros a Hf; cbn; [apply respects_ret, _|]. apply respects_bind; [apply _|apply Hf|]. intros. by apply IH.
Qed.
Lemma respects_query_chunks {A} R `{!PreOrder R} text (f : list string -> cdb -> list A) l :
  respects (on_rows R) (query_chunks text f l).
Proof.
  induction l as [|c l IH]; cbn; [apply respects_ret, _|].
  apply respects_bind; [apply _|apply respects_map_err, respects_query, _|]. intros. apply respects_bind; [apply _|exact IH|].
  intros. apply respects_ret, _.
Qed.

Lemma rename_all_advances lid phone t : advances t (RenameDMChatAliasesWithoutCanonical lid phone t).2.
Proof. unfold RenameDMChatAliasesWithoutCanonical. case_decide; [reflexivity|]. apply advances_chats. Qed.
Lemma rename_one_advances lid session phone t : advances t (RenameSessionDMChatAlias lid session phone t).2.
Proof. unfold RenameSessionDMChatAlias. destruct (rename_conflict _ _ _); [reflexivity|]. apply advances_chats. Qed.
Lemma attach_advances id account at_ jid lid phone now t : advances t (AttachSessionPairing id account at_ jid lid phone now t).2.
Proof.
  unfold AttachSessionPairing. destruct (update_key _ _ _ _) as [n m]. destruct (_ && _); [reflexivity|]. apply advances_sessions.
Qed.
Lemma clear_advances id now t : advances t (ClearSessionPairing id now t).2.
Proof. unfold ClearSessionPairing. destruct (update_key _ _ _ _) as [n m]. apply advances_sessions. Qed.
Lemma status_row_advances id status now t : advances t (UpdateSessionStatus id status now t).2.
Proof. unfold UpdateSessionStatus. destruct (update_key _ _ _ _) as [n m]. apply advances_sessions. Qed.
#[export] Hint Resolve rename_all_advances rename_one_advances attach_advances clear_advances status_row_advances : advance.

Create HintDb advance_ops.

Ltac adv :=
  repeat first
    [ progress intros
    | solve [auto with advance_ops]
    | apply respects_ret; apply _ | apply respects_throw; apply _ | apply respects_gets; apply _ | apply respects_lift; apply _
    | apply respects_bind; [apply _| |] | apply respects_map_err | apply respects_attempt
    | apply respects_on_tx; [apply _|] | apply respects_for_each; [apply _|] | apply respects_fold_m; [apply _|]
    | apply respects_query_chunks; apply _
    | apply respects_query; apply _ | apply respects_query_row; apply _ | apply respects_begin; apply _ | apply respects_commit; apply _
    | apply respects_with_rollback; [apply _|]
    | match goal with |- respects _ (stmt _) => apply respects_stmt; [apply _|] end
    | match goal with
      | |- respects _ (if ?b then _ else _) => destruct b eqn:?
      | |- respects _ (match ?x with _ => _ end) => destruct x eqn:?
      end ].

Section Ops.
Context {W : Type} `{HR : HandleRel W} `{Clocks} `{ChatCodec} `{MapRange} `{MessageIDs}.

Lemma run_exec_advances text f : (forall t, advances t (f t)) -> respects (lifted advances) (run_exec text f).
Proof. intros Hf. unfold run_exec. adv. apply respects_exec; [apply _|]. done. Qed.
Lemma run_count_advances text f : (forall t, advances t (f t).2) -> respects (lifted advances) (run_count text f).
Proof. intros Hf. unfold run_count. adv. apply respects_exec; [apply _|]. done. Qed.
Lemma run_stmt_advances {A} text (f : cdb -> (goerr + A) * cdb) : (forall t, advances t (f t).2) -> respects (lifted advances) (run_stmt text f).
Proof. intros Hf. unfold run_stmt. adv. Qed.
#[local] Hint Resolve run_exec_advances run_count_advances run_stmt_advances : advance_ops.
#[local] Hint Extern 1 (advances _ _) =>
  solve [first [apply advances_chats|apply advances_groups|apply advances_members|apply advances_sessions|auto with advance]] : advance_ops.

Lemma write_advances text f : (forall t, advances t (f t)) -> respects (on_rows advances) (write text f).
Proof. intros Hf. unfold write. adv. apply respects_exec; [apply _|]. done. Qed.
#[local] Hint Resolve write_advances : advance_ops.

Lemma require_row_advances resource n : respects (lifted advances) (require_row (W:=W) resource n).
Proof. unfold require_row. adv. Qed.
#[local] Hint Resolve require_row_advances : advance_ops.

Lemma canonical_advances jid : respects (lifted advances) (canonicalDMChatJID (W:=W) jid).
Proof. unfold canonicalDMChatJID. adv. Qed.
#[local] Hint Resolve canonical_advances : advance_ops.

Lemma merge_advances session lid phone : respects (lifted advances) (mergeDMChatAlias (W:=W) session lid phone).
Proof. unfold mergeDMChatAlias. adv. Qed.
#[local] Hint Resolve merge_advances : advance_ops.

Lemma Identities_Upsert_advances lid i : id_name i <> Some "" -> respects (lifted advances) (Identities_Upsert (W:=W) lid i).
Proof. intros Hn. unfold Identities_Upsert. pose proof (fun t => upsert_identity_advances lid i t Hn). adv. Qed.
Lemma FillNameByJID_advances jid name now : respects (lifted advances) (FillNameByJID (W:=W) jid name now).
Proof. unfold FillNameByJID. adv. Qed.
Lemma Chats_Upsert_advances session jid c : respects (lifted advances) (Chats_Upsert (W:=W) session jid c).
Proof. unfold Chats_Upsert. adv. Qed.
Lemma Messages_Upsert_advances m : respects (lifted advances) (Messages_Upsert (W:=W) m).
Proof. unfold Messages_Upsert. adv. Qed.
Lemma AdvanceReceiptStatus_advances session id status ack : respects (lifted advances) (AdvanceReceiptStatus (W:=W) session id status ack).
Proof. unfold AdvanceReceiptStatus. adv. Qed.
Lemma MarkEdited_advances session id body : respects (lifted advances) (MarkEdited (W:=W) session id body).
Proof. unfold MarkEdited. adv. Qed.
Lemma MarkDeleted_advances session id : respects (lifted advances) (MarkDeleted (W:=W) session id).
Proof. unfold MarkDeleted. adv. Qed.
Lemma Polls_Upsert_advances p : respects (lifted advances) (Polls_Upsert (W:=W) p).
Proof. unfold Polls_Upsert. adv. Qed.
Lemma Votes_Insert_advances session poll voter selected ts raw :
  respects (lifted advances) (Votes_Insert (W:=W) session poll voter selected ts raw).
Proof. unfold Votes_Insert. adv. Qed.
Lemma AttachPairing_advances x : respects (lifted advances) (AttachPairing (W:=W) x).
Proof. unfold AttachPairing. adv. Qed.
Lemma ClearPairing_advances id now : respects (lifted advances) (ClearPairing (W:=W) id now).
Proof. unfold ClearPairing. adv. Qed.
Lemma UpdateStatus_advances id status now : respects (lifted advances) (Sessions_UpdateStatus (W:=W) id status now).
Proof. unfold Sessions_UpdateStatus. adv. Qed.
#[local] Hint Resolve FillNameByJID_advances Chats_Upsert_advances Messages_Upsert_advances AdvanceReceiptStatus_advances
  MarkEdited_advances MarkDeleted_advances Polls_Upsert_advances Votes_Insert_advances AttachPairing_advances ClearPairing_advances
  UpdateStatus_advances : advance_ops.
End Ops.

(** *** The import *)

#[export] Hint Resolve canonical_advances merge_advances run_exec_advances run_count_advances run_stmt_advances require_row_advances write_advances
  FillNameByJID_advances Chats_Upsert_advances Messages_Upsert_advances AdvanceReceiptStatus_advances
  MarkEdited_advances MarkDeleted_advances Polls_Upsert_advances Votes_Insert_advances AttachPairing_advances ClearPairing_advances
  UpdateStatus_advances Identities_Upsert_advances : advance_ops.
#[export] Hint Extern 1 (advances _ _) =>
  solve [first [apply advances_chats|apply advances_groups|apply advances_members|apply advances_sessions|auto with advance]] : advance_ops.

Section Importing.
Context `{Clocks} `{ChatCodec} `{MapRange} `{MessageIDs}.
Variable b : ImportBatch.

Lemma merge_in_tx session lid phone : respects (on_rows advances) (mergeDMChatAlias session lid phone).
Proof. exact (merge_advances (HR:=tx_rel) session lid phone). Qed.
Lemma canonical_in_tx jid : respects (on_rows advances) (canonicalDMChatJID jid).
Proof. exact (canonical_advances (HR:=tx_rel) jid). Qed.
Lemma FillName_in_tx jid name now : respects (on_rows advances) (FillNameByJID jid name now).
Proof. exact (FillNameByJID_advances (HR:=tx_rel) jid name now). Qed.
#[local] Hint Resolve merge_in_tx canonical_in_tx FillName_in_tx : advance_ops.

Lemma identities_advance : respects (on_rows advances) (identities b).
Proof.
  unfold identities, knownPhoneMappings, fill_all, mergeNewMappings.
  adv.
Qed.
Lemma groups_advance : respects (on_rows advances) (groups b).
Proof. unfold groups, group. adv. Qed.
Lemma chats_advance : respects (on_rows advances) (chats b).
Proof. unfold chats, chat. adv. Qed.
Lemma messages_advance canonical : respects (on_rows advances) (messages b canonical).
Proof. unfold messages, storedMessageIDs, message, insertMessage, insertPoll. adv. Qed.
Lemma mutations_advance : respects (on_rows advances) (mutations b).
Proof. unfold mutations, mutation. adv. Qed.
Lemma apply_batch_advances : respects (on_rows advances) (apply_batch b).
Proof.
  unfold apply_batch. pose proof identities_advance. pose proof groups_advance. pose proof chats_advance.
  pose proof messages_advance. pose proof mutations_advance. adv.
Qed.
End Importing.
#[export] Hint Resolve apply_batch_advances : advance_ops.

Section Repo.
Context {W : Type} `{HR : HandleRel W} `{Clocks} `{ChatCodec} `{MapRange} `{MessageIDs}.

Lemma ApplyBatch_advances b : respects (lifted advances) (ApplyBatch (W:=W) b).
Proof. unfold ApplyBatch. adv. Qed.
Lemma ApplySync_advances u : respects (lifted advances) (ApplySync (W:=W) u).
Proof. unfold ApplySync. adv. Qed.
End Repo.

(** ** The writers of the tables *)

Section Writers.
Context `{Clocks} `{ChatCodec} `{MapRange} `{MessageIDs}.

(** What a statement of the repositories, or an import transaction, may do to the
    rows, whoever runs it with whatever arguments (a name is NULL rather than
    empty). Left out are the deletions: of a chat, of a session, and retention. *)
Inductive table_write (t : cdb) : cdb -> Prop :=
| tw_message k new : table_write t (UpsertMessage k new t)
| tw_receipt next ack k : table_write t (AdvanceReceiptStatus_stmt (receiptStatusRank next) next ack k t)
| tw_edited body k : table_write t (MarkMessageEdited body k t).2
| tw_deleted k : table_write t (MarkMessageDeleted k t).2
| tw_identity lid new : id_name new <> Some "" -> table_write t (UpsertIdentity lid new t)
| tw_name jid name now : table_write t (FillIdentityNameByJID jid name now t)
| tw_poll k new : table_write t (UpsertPoll k new t)
| tw_recap k now at_ : table_write t (MarkPollRecapEmitted k now at_ t).2
| tw_vote k v : table_write t (InsertPollVote k v t).2
| tw_chat session jid new : table_write t (UpsertChat session jid new t)
| tw_flags session jid archived pinned muted unread : table_write t (UpdateChatFlags session jid archived pinned muted unread t).2
| tw_group jid new : table_write t (UpsertGroup jid new t)
| tw_member k new : table_write t (UpsertGroupMember k new t)
| tw_left k : table_write t (RemoveGroupMember k t).2
| tw_merge phone lid : table_write t (MergeExistingDMChatAliases phone lid t)
| tw_delete_aliases lid phone : table_write t (DeleteMergedDMChatAliases lid phone t)
| tw_rename lid phone : table_write t (RenameDMChatAliasesWithoutCanonical lid phone t).2
| tw_move_messages lid phone : table_write t (UpdateMessageDMChatAliases lid phone t)
| tw_move_polls lid phone : table_write t (UpdatePollDMChatAliases lid phone t)
| tw_merge_session phone session lid : table_write t (MergeSessionDMChatAlias phone session lid t)
| tw_delete_alias session phone : table_write t (DeleteSessionDMChatAlias session phone t)
| tw_rename_session lid session phone : table_write t (RenameSessionDMChatAlias lid session phone t).2
| tw_move_session_messages lid session phone : table_write t (UpdateSessionMessageDMChatAliases lid session phone t)
| tw_move_session_polls lid session phone : table_write t (UpdateSessionPollDMChatAliases lid session phone t)
| tw_status id status now : table_write t (UpdateSessionStatus id status now t).2
| tw_clear id now : table_write t (ClearSessionPairing id now t).2
| tw_attach id account at_ jid lid phone now : table_write t (AttachSessionPairing id account at_ jid lid phone now t).2
| tw_sync session run new : table_write t (sync_upsert session run new t).2
| tw_import b (d d' : db cdb) r : rows d = t -> with_rollback (apply_batch b) d = (r, d') -> table_write t (rows d').

Lemma recap_advances k now at_ t : advances t (MarkPollRecapEmitted k now at_ t).2.
Proof.
  unfold MarkPollRecapEmitted. lazymatch goal with |- context [update_key k ?p ?f _] =>
    pose proof (map_grows_update_key poll_advances k p f (c_polls t)) as Hg end.
  destruct (update_key _ _ _ _) as [n m]. apply advances_polls, Hg. intros p Hp. split; [done|]. cbn. intros s Hs. by rewrite Hs in Hp.
Qed.
Lemma flags_advances session jid archived pinned muted unread t :
  advances t (UpdateChatFlags session jid archived pinned muted unread t).2.
Proof. unfold UpdateChatFlags. destruct (update_key _ _ _ _) as [n m]. apply advances_chats. Qed.

Lemma table_write_advances t t' : table_write t t' -> advances t t'.
Proof.
  destruct 1 as [| | | |lid new Hn| | | | | | | | | | | | | | | | | | | | | | | |b d d' r <- Hrun];
    [..|exact (respects_with_rollback advances (apply_batch b) _ (apply_batch_advances b) _ _ _ Hrun)];
    first [by apply upsert_identity_advances | by apply receipt_advances | apply recap_advances | apply flags_advances
          | apply advances_chats | apply advances_groups | apply advances_members | solve [auto with advance]].
Qed.
End Writers.

(** ** The consumer, over any store *)

(** Every method of the port keeps [R]. *)
Class StoreRespects {W} `{ProjectionStore W} (R : W -> W -> Prop) : Prop := {
  sr_UpsertIdentity x : respects R (ps_UpsertIdentity x);
  sr_FillIdentityName jid name now : respects R (ps_FillIdentityName jid name now);
  sr_UpsertGroup x : respects R (ps_UpsertGroup x);
  sr_UpsertGroupMember x : respects R (ps_UpsertGroupMember x);
  sr_UpsertChat x : respects R (ps_UpsertChat x);
  sr_InsertMessage x : respects R (ps_InsertMessage x);
  sr_MarkMessageEdited session id body : respects R (ps_MarkMessageEdited session id body);
  sr_MarkMessageDeleted session id : respects R (ps_MarkMessageDeleted session id);
  sr_UpdateMessageStatus x : respects R (ps_UpdateMessageStatus x);
  sr_UpsertPoll x : respects R (ps_UpsertPoll x);
  sr_InsertPollVote x : respects R (ps_InsertPollVote x);
  sr_AttachPairing x : respects R (ps_AttachPairing x);
  sr_ClearPairing id now : respects R (ps_ClearPairing id now);
  sr_UpdateSessionStatus id status now : respects R (ps_UpdateSessionStatus id status now);
  sr_ApplyHistoryBatch batch : respects R (ps_ApplyHistoryBatch batch);
  sr_ApplyHistorySync u : respects R (ps_ApplyHistorySync u);
}.

Section Consumer.
Context {W : Type} `{PS : ProjectionStore W} `{ProjectionCodec} `{MessageFields} `{ChatCodec} `{MapRange}.
Context (R : W -> W -> Prop) `{!PreOrder R} `{!StoreRespects R}.

#[local] Hint Resolve sr_UpsertIdentity sr_FillIdentityName sr_UpsertGroup sr_UpsertGroupMember sr_UpsertChat sr_InsertMessage
  sr_MarkMessageEdited sr_MarkMessageDeleted sr_UpdateMessageStatus sr_UpsertPoll sr_InsertPollVote sr_AttachPairing sr_ClearPairing
  sr_UpdateSessionStatus sr_ApplyHistoryBatch sr_ApplyHistorySync : advance_ops.

Lemma capture_respects p now : respects R (capture_sender p now).
Proof. unfold capture_sender. adv. Qed.
#[local] Hint Resolve capture_respects : advance_ops.

Lemma ConsumeEvent_respects clock days ev : respects R (ConsumeEvent clock days ev).
Proof.
  unfold ConsumeEvent, projectMessage, projectReaction, projectEdit, projectRevoke, projectPollVote, projectReceipt,
    projectPairSuccess, projectSessionStatus, projectHistoryBatch, projectHistorySync, captureSenderOnly.
  adv.
Qed.
End Consumer.

Section Stored.
Context {W : Type} `{HR : HandleRel W} `{Clocks} `{ChatCodec} `{MapRange} `{MessageIDs}.

Lemma nullIfEmpty_some s : nullIfEmpty s <> Some "".
Proof. unfold nullIfEmpty. case_bool_decide; congruence. Qed.

#[export] Instance store_advances : StoreRespects (lifted (W:=W) advances).
Proof.
  split; intros; cbn [ps_UpsertIdentity ps_FillIdentityName ps_UpsertGroup ps_UpsertGroupMember ps_UpsertChat ps_InsertMessage
    ps_MarkMessageEdited ps_MarkMessageDeleted ps_UpdateMessageStatus ps_UpsertPoll ps_InsertPollVote ps_AttachPairing
    ps_ClearPairing ps_UpdateSessionStatus ps_ApplyHistoryBatch ps_ApplyHistorySync StoreProjections];
    unfold InsertMessage, UpdateMessageStatus, Groups_Upsert, GroupMembers_Upsert;
    try solve [auto with advance_ops].
  - apply Identities_Upsert_advances, nullIfEmpty_some.
  - adv.
  - adv.
  - apply ApplyBatch_advances.
  - apply ApplySync_advances.
Qed.
End Stored.
