(* ===== verification/ImportSpec.v ===== *)
(** What applying a history batch does to the WhatsApp data: it adds to what is
    there and never overwrites it, its counters are those of its ledger, and what
    it accepted is stored. *)
From S2P Require Import Prelude Journal Domain OutboxStore EventIngest GatewayTables HistoryConvert HistoryWorker.
From S2P Require Import ChatTables ChatStore HistoryImport Projection ProjectionSpec.

#[local] Open Scope Z_scope.

(** ** Live rows win *)

(** What an import may change of a stored message: the chat it is shown under
    (when it learns that a phone chat and a LID chat are one), the body of a
    message never edited, and the deleted mark. *)
Record message_kept (r r' : message_row) : Prop := {
  mk_same : (mg_id r', mg_from_me r', mg_direction r', mg_type r', mg_timestamp r', mg_created_at r', mg_origin r', mg_error r',
             mg_status r', mg_ack_level r', mg_sender_lid r', mg_sender_jid r', mg_quoted_message_id r') =
            (mg_id r, mg_from_me r, mg_direction r, mg_type r, mg_timestamp r, mg_created_at r, mg_origin r, mg_error r,
             mg_status r, mg_ack_level r, mg_sender_lid r, mg_sender_jid r, mg_quoted_message_id r);
  mk_media : (mg_mentions r', mg_has_media r', mg_media_meta r', mg_raw_json r') =
             (mg_mentions r, mg_has_media r, mg_media_meta r, mg_raw_json r);
  mk_body : (mg_edited r', mg_body r') = (mg_edited r, mg_body r) \/ mg_edited r = false /\ mg_edited r' = true;
  mk_deleted : mg_deleted r = true -> mg_deleted r' = true;
}.
Definition stays {A} (a b : option A) : Prop := forall x, a = Some x -> b = Some x.
Record identity_kept (r r' : identity_row) : Prop := {
  ik_same : (id_business_name r', id_first_seen_at r') = (id_business_name r, id_first_seen_at r);
  ik_number : stays (id_phone_number r) (id_phone_number r');
  ik_jid : stays (id_phone_jid r) (id_phone_jid r');
  ik_name : nameless (id_name r) = false -> id_name r' = id_name r;
}.
Record group_kept (r r' : group_row) : Prop := {
  gk_same : (gp_owner_jid r', gp_participant_count r', gp_is_announce r', gp_is_locked r', gp_created_at_wa r', gp_first_seen_at r',
             gp_updated_at r') =
            (gp_owner_jid r, gp_participant_count r, gp_is_announce r, gp_is_locked r, gp_created_at_wa r, gp_first_seen_at r,
             gp_updated_at r);
  gk_subject : stays (gp_subject r) (gp_subject r');
  gk_description : stays (gp_description r) (gp_description r');
}.
Definition poll_kept (r r' : poll_row) : Prop :=
  (pl_name r', pl_options r', pl_selectable_count r', pl_end_time r', pl_hide_votes r', pl_recap_emitted_at r', pl_created_at r',
   pl_updated_at r') =
  (pl_name r, pl_options r, pl_selectable_count r, pl_end_time r, pl_hide_votes r, pl_recap_emitted_at r, pl_created_at r,
   pl_updated_at r).

Record keeps_live (t t' : cdb) : Prop := {
  kl_messages : map_grows message_kept (c_messages t) (c_messages t');
  kl_imported : forall k r, c_messages t' !! k = Some r -> c_messages t !! k = None -> mg_origin r = OriginHistory;
  kl_identities : map_grows identity_kept (c_identities t) (c_identities t');
  kl_groups : map_grows group_kept (c_groups t) (c_groups t');
  kl_members : map_grows eq (c_members t) (c_members t');
  kl_polls : map_grows poll_kept (c_polls t) (c_polls t');
  kl_votes : map_grows eq (c_votes t) (c_votes t');
  kl_sessions : c_sessions t' = c_sessions t;
}.

Lemma stays_refl {A} (a : option A) : stays a a.
Proof. unfold stays. auto. Qed.
Lemma stays_trans {A} (a b c : option A) : stays a b -> stays b c -> stays a c.
Proof. unfold stays. auto. Qed.

#[export] Instance message_kept_preorder : PreOrder message_kept.
Proof.
  split; [intros r; split; auto|]. intros a b c [] []. split; [congruence|congruence| |auto].
  destruct mk_body0 as [E1|[H1 H2]]; [|right; split; [done|]].
  - destruct mk_body1 as [E2|[H3 H4]]; [left; congruence|right; split; [congruence|done]].
  - destruct mk_body1 as [E2|[H3 H4]]; congruence.
Qed.
#[export] Instance identity_kept_preorder : PreOrder identity_kept.
Proof.
  split; [intros r; split; auto using stays_refl|]. intros a b c [] []. split; [congruence|by eapply stays_trans|by eapply stays_trans|].
  intros Hn. rewrite ik_name1; [auto|]. by rewrite ik_name0.
Qed.
#[export] Instance group_kept_preorder : PreOrder group_kept.
Proof. split; [intros r; split; auto using stays_refl|]. intros a b c [] []. split; [congruence|by eapply stays_trans|by eapply stays_trans]. Qed.
#[export] Instance poll_kept_preorder : PreOrder poll_kept.
Proof. unfold poll_kept. split; [done|]. intros a b c. congruence. Qed.

#[export] Instance keeps_live_preorder : PreOrder keeps_live.
Proof.
  split; [intros t; split; try reflexivity; congruence|]. intros a b c [] []. split; try (etransitivity; eassumption).
  intros k r Hr Ha. destruct (c_messages b !! k) as [rb|] eqn:Hb; [|by eapply kl_imported1].
  destruct (kl_messages1 k rb Hb) as (rc & Hc & Hk). destruct Hk as [Hs _ _ _]. assert (r = rc) as -> by congruence.
  specialize (kl_imported0 k rb Hb Ha). congruence.
Qed.

(** One table at a time. *)
Lemma keeps_live_messages f t : map_grows message_kept (c_messages t) (f (c_messages t)) ->
  (forall k r, f (c_messages t) !! k = Some r -> c_messages t !! k = None -> mg_origin r = OriginHistory) ->
  keeps_live t (on_messages f t).
Proof. intros Hg Hn. split; cbn; try reflexivity; [exact Hg|exact Hn]. Qed.
(** [done] would unfold the fields of records that are not touched. *)
Ltac kept_elsewhere := split; cbn; try reflexivity; try congruence; try assumption.
Lemma keeps_live_identities f t : map_grows identity_kept (c_identities t) (f (c_identities t)) -> keeps_live t (on_identities f t).
Proof. intros Hg. kept_elsewhere. Qed.
Lemma keeps_live_groups f t : map_grows group_kept (c_groups t) (f (c_groups t)) -> keeps_live t (on_groups f t).
Proof. intros Hg. kept_elsewhere. Qed.
Lemma keeps_live_members f t : map_grows eq (c_members t) (f (c_members t)) -> keeps_live t (on_members f t).
Proof. intros Hg. kept_elsewhere. Qed.
Lemma keeps_live_polls f t : map_grows poll_kept (c_polls t) (f (c_polls t)) -> keeps_live t (on_polls f t).
Proof. intros Hg. kept_elsewhere. Qed.
Lemma keeps_live_votes f t : map_grows eq (c_votes t) (f (c_votes t)) -> keeps_live t (on_votes f t).
Proof. intros Hg. kept_elsewhere. Qed.
Lemma keeps_live_chats f t : keeps_live t (on_chats f t).
Proof. kept_elsewhere. Qed.
Lemma keeps_live_runs f t : keeps_live t (on_runs f t).
Proof. kept_elsewhere. Qed.
Lemma keeps_live_batches f t : keeps_live t (on_batches f t).
Proof. kept_elsewhere. Qed.

(** *** The statements of an import *)

Lemma keeps_of_session session f t : (forall t, keeps_live t (f t)) -> keeps_live t (of_session session f t).2.
Proof. unfold of_session. destruct (c_sessions t !! session); [auto|reflexivity]. Qed.
Lemma keeps_ensure_run session run account now t : keeps_live t (ensure_run session run account now t).2.
Proof. apply keeps_of_session. intros. apply keeps_live_runs. Qed.
Lemma keeps_insert_ledger event r t : keeps_live t (insert_ledger event r t).2.
Proof. unfold insert_ledger. destruct (c_batches t !! event); [reflexivity|]. apply keeps_of_session. intros. apply keeps_live_batches. Qed.

Lemma keeps_move_messages lid session phone t : keeps_live t (UpdateSessionMessageDMChatAliases lid session phone t).
Proof.
  apply keeps_live_messages.
  - apply map_grows_imap. intros k r. case_bool_decide; [split; auto|reflexivity].
  - intros k r. unfold in_session_only. rewrite map_lookup_imap. intros Hr Hn. by rewrite Hn in Hr.
Qed.
Lemma keeps_move_polls lid session phone t : keeps_live t (UpdateSessionPollDMChatAliases lid session phone t).
Proof. apply keeps_live_polls, map_grows_imap. intros k p. by case_bool_decide. Qed.

Lemma keeps_alter_message k f t : (forall r, message_kept r (f r)) -> keeps_live t (on_messages (alter f k) t).
Proof.
  intros Hf. apply keeps_live_messages; [apply map_grows_alter; [apply _|done]|]. intros k' r Hr Hn.
  destruct (decide (k' = k)) as [->|Hne]; [by rewrite lookup_alter_eq, Hn in Hr|by rewrite lookup_alter_ne, Hn in Hr].
Qed.
Lemma keeps_edit body k t : keeps_live t (edit_unedited body k t).
Proof. apply keeps_alter_message. intros r. destruct (mg_edited r) eqn:He; [reflexivity|]. split; auto. Qed.
Lemma keeps_revoke k t : keeps_live t (revoke_message k t).
Proof. apply keeps_alter_message. intros r. split; auto. Qed.
Lemma keeps_insert_message k r t : mg_origin r = OriginHistory -> keeps_live t (on_messages (insert_if_absent k r) t).
Proof.
  intros Ho. apply keeps_live_messages; [apply map_grows_upsert; [apply _|reflexivity]|]. intros k' r' Hr Hn.
  unfold insert_if_absent, upsert in Hr. destruct (decide (k' = k)) as [->|Hne]; [rewrite lookup_insert_eq in Hr; rewrite Hn in Hr; congruence|].
  rewrite lookup_insert_ne in Hr by done. congruence.
Qed.

Lemma coalesce_stays {A} (a b : option A) : stays a (coalesce a b).
Proof. by intros x ->. Qed.
Create HintDb keep.
#[local] Hint Resolve coalesce_stays stays_refl : keep.
Lemma keeps_fill_identity lid phone name number now t : keeps_live t (fill_identity lid phone name number now t).
Proof.
  apply keeps_live_identities, map_grows_upsert; [apply _|]. intros r. split; cbn; auto with keep. intros Hn. by rewrite Hn.
Qed.
Lemma keeps_fill_name jid name now t : keeps_live t (FillIdentityNameByJID jid name now t).
Proof.
  apply keeps_live_identities, map_grows_imap. intros lid r. destruct (_ && nameless _) eqn:Hu; [|reflexivity].
  apply andb_true_iff in Hu as [_ Hu]. split; cbn; auto with keep. congruence.
Qed.
Lemma keeps_fill_group jid subject description now t : keeps_live t (fill_group jid subject description now t).
Proof. apply keeps_live_groups, map_grows_upsert; [apply _|]. intros r. split; cbn; auto with keep. Qed.
Lemma keeps_insert_member k role now t : keeps_live t (insert_member k role now t).
Proof. apply keeps_live_members, map_grows_upsert; [apply _|]. reflexivity. Qed.
Lemma keeps_insert_poll k p t : keeps_live t (on_polls (insert_if_absent k p) t).
Proof. apply keeps_live_polls, map_grows_upsert; [apply _|]. reflexivity. Qed.
Lemma keeps_insert_vote k v t : keeps_live t (InsertPollVote k v t).2.
Proof. apply keeps_live_votes, map_grows_upsert; [apply _|]. reflexivity. Qed.
Lemma keeps_rename lid session phone t : keeps_live t (RenameSessionDMChatAlias lid session phone t).2.
Proof. unfold RenameSessionDMChatAlias. destruct (rename_conflict _ _ _); [reflexivity|]. apply keeps_live_chats. Qed.

#[local] Hint Resolve keeps_ensure_run keeps_insert_ledger keeps_move_messages keeps_move_polls keeps_edit keeps_revoke
  keeps_fill_identity keeps_fill_name keeps_fill_group keeps_insert_member keeps_insert_poll keeps_insert_vote keeps_rename : keep.
#[local] Hint Extern 1 (keeps_live _ _) =>
  solve [first [apply keeps_live_chats|apply keeps_live_runs|apply keeps_live_batches|apply keeps_insert_message; reflexivity
               |auto with keep]] : advance_ops.

(** *** The import *)

Section Importing.
Context `{Clocks} `{ChatCodec} `{MapRange} `{MessageIDs}.
Variable b : ImportBatch.

Lemma write_keeps text f : (forall t, keeps_live t (f t)) -> respects (on_rows keeps_live) (write text f).
Proof. intros Hf. unfold write. adv. apply respects_exec; [apply _|]. done. Qed.
Lemma run_keeps text f : (forall t, keeps_live t (f t)) -> respects (on_rows keeps_live) (run_exec (W:=db cdb) text f).
Proof. exact (write_keeps text f). Qed.
Lemma run_stmt_keeps {A} text (f : cdb -> (goerr + A) * cdb) :
  (forall t, keeps_live t (f t).2) -> respects (on_rows keeps_live) (run_stmt (W:=db cdb) text f).
Proof. intros Hf. unfold run_stmt. cbn [on_tx tx_handle]. adv. Qed.
#[local] Hint Resolve write_keeps run_keeps run_stmt_keeps : advance_ops.

Lemma canonical_keeps jid : respects (on_rows keeps_live) (canonicalDMChatJID (W:=db cdb) jid).
Proof. unfold canonicalDMChatJID. cbn [on_tx tx_handle]. adv. Qed.
Lemma merge_keeps session lid phone : session <> "" -> respects (on_rows keeps_live) (mergeDMChatAlias (W:=db cdb) session lid phone).
Proof.
  intros Hs. unfold mergeDMChatAlias. rewrite (bool_decide_false (session = "")) by done. cbn [on_tx tx_handle]. adv.
Qed.
Lemma FillName_keeps jid name now : respects (on_rows keeps_live) (FillNameByJID (W:=db cdb) jid name now).
Proof. unfold FillNameByJID. adv. Qed.
#[local] Hint Resolve canonical_keeps merge_keeps FillName_keeps : advance_ops.

Lemma apply_batch_keeps : ib_SessionID b <> "" -> respects (on_rows keeps_live) (apply_batch b).
Proof.
  intros Hs. unfold apply_batch, identities, knownPhoneMappings, fill_all, mergeNewMappings, groups, group, chats, chat, messages,
    storedMessageIDs, message, insertMessage, insertPoll, mutations, mutation.
  adv.
Qed.
End Importing.

(** ** The ledger *)

Definition sum_batches (f : batch_row -> Z) (k : string * string) (m : gmap string batch_row) : Z :=
  map_fold (fun _ r acc => (if bool_decide ((bt_session_id r, bt_run_id r) = k) then f r else 0) + acc) 0 m.

(** Every batch belongs to a run, and the API's counters of a run are those of its
    batches. *)
Record ledger_ok (t : cdb) : Prop := {
  lo_run : map_Forall (fun _ r => is_Some (c_runs t !! (bt_session_id r, bt_run_id r))) (c_batches t);
  lo_counts : map_Forall (fun k r => sr_import r =
    MkImportCounts (sum_batches (fun _ => 1) k (c_batches t)) (sum_batches bt_imported k (c_batches t))
      (sum_batches bt_existing k (c_batches t)) (sum_batches bt_dropped k (c_batches t))) (c_runs t);
}.

Lemma sum_batches_insert f k event r m : m !! event = None ->
  sum_batches f k (<[event := r]> m) = (if bool_decide ((bt_session_id r, bt_run_id r) = k) then f r else 0) + sum_batches f k m.
Proof.
  intros He. unfold sum_batches. refine (map_fold_insert_L (fun (_ : string) b acc =>
    (if bool_decide ((bt_session_id b, bt_run_id b) = k) then f b else 0) + acc) 0 event r m _ He). intros. lia.
Qed.
Lemma sum_batches_none f k m : map_Forall (fun _ r => (bt_session_id r, bt_run_id r) <> k) m -> sum_batches f k m = 0.
Proof.
  induction m as [|e r m He IH] using map_ind; [done|]. intros [Hr Hm]%map_Forall_insert; [|done].
  rewrite sum_batches_insert by done. rewrite bool_decide_false by done. rewrite IH by done. lia.
Qed.

(** Runs may start, with nothing imported; what was imported does not change. *)
Record ledger_kept (t t' : cdb) : Prop := {
  lk_batches : c_batches t' = c_batches t;
  lk_runs : map_grows (fun r r' => sr_import r' = sr_import r) (c_runs t) (c_runs t');
  lk_new : forall k r, c_runs t' !! k = Some r -> c_runs t !! k = None -> sr_import r = no_imports;
}.
#[export] Instance import_same_preorder : PreOrder (fun r r' => sr_import r' = sr_import r).
Proof. split; [done|]. intros a b c. congruence. Qed.
#[export] Instance ledger_kept_preorder : PreOrder ledger_kept.
Proof.
  split; [intros t; split; try reflexivity; congruence|]. intros a b c [] []. split; [congruence|by etransitivity|].
  intros k r Hr Ha. destruct (c_runs b !! k) as [rb|] eqn:Hb; [|by eapply lk_new1].
  destruct (lk_runs1 k rb Hb) as (rc & Hc & Hs). assert (r = rc) as -> by congruence. rewrite Hs. by eapply lk_new0.
Qed.

Lemma ledger_kept_ok t t' : ledger_kept t t' -> keeps ledger_ok t t'.
Proof.
  intros [Hb Hg Hn] [Hr Hc]. split; rewrite Hb.
  - intros e r He. destruct (Hr e r He) as [u Hu]. destruct (Hg _ u Hu) as (u' & Hu' & _). eauto.
  - intros k r Hk. destruct (c_runs t !! k) as [u|] eqn:Hu.
    + destruct (Hg k u Hu) as (u' & Hu' & Hs). assert (r = u') as -> by congruence. rewrite Hs. exact (Hc k u Hu).
    + rewrite (Hn k r Hk Hu). assert (Hno : map_Forall (fun _ b => (bt_session_id b, bt_run_id b) <> k) (c_batches t)).
      { intros e b He Heq. destruct (Hr e b He) as [u Hu']. congruence. }
      unfold no_imports. by rewrite !sum_batches_none.
Qed.

Lemma ledger_kept_same t t' : c_runs t' = c_runs t -> c_batches t' = c_batches t -> ledger_kept t t'.
Proof. intros Hr Hb. split; [done|by rewrite Hr|]. rewrite Hr. congruence. Qed.
Lemma ledger_kept_upsert k new f t : sr_import new = no_imports -> (forall r, sr_import (f r) = sr_import r) ->
  ledger_kept t (on_runs (upsert k new f) t).
Proof.
  intros Hnew Hf. split; [done|apply map_grows_upsert; [apply _|done]|]. cbn. intros k' r Hr Hn. unfold upsert in Hr.
  destruct (decide (k' = k)) as [->|Hne]; [rewrite lookup_insert_eq, Hn in Hr; congruence|].
  rewrite lookup_insert_ne in Hr by done. congruence.
Qed.
Lemma ensure_run_ledger session run account now t : ledger_kept t (ensure_run session run account now t).2.
Proof.
  unfold ensure_run, of_session. destruct (c_sessions t !! session); [|reflexivity]. by apply ledger_kept_upsert.
Qed.
Lemma sync_upsert_ledger session run new t : sr_import new = no_imports -> ledger_kept t (sync_upsert session run new t).2.
Proof.
  intros Hn. unfold sync_upsert, of_session. destruct (c_sessions t !! session); [|reflexivity]. by apply ledger_kept_upsert.
Qed.

(** A relation that statements off the ledger keep is kept by every method but the
    two that import. *)
Section OffLedger.
Context (R : cdb -> cdb -> Prop) `{!PreOrder R}.
Context (Hsame : forall t t', c_runs t' = c_runs t -> c_batches t' = c_batches t -> R t t').

Ltac off_ledger :=
  apply Hsame;
  unfold RenameDMChatAliasesWithoutCanonical, RenameSessionDMChatAlias, MarkMessageEdited, MarkMessageDeleted, AttachSessionPairing,
    ClearSessionPairing, UpdateSessionStatus, InsertPollVote;
  repeat match goal with |- context [match ?x with _ => _ end] => destruct x end; reflexivity.
#[local] Hint Extern 1 (R _ _) => solve [off_ledger] : advance_ops.

Section Handles.
Context {W : Type} `{HR : HandleRel W} `{Clocks} `{ChatCodec} `{MapRange} `{MessageIDs}.

Lemma run_exec_off text f : (forall t, R t (f t)) -> respects (lifted R) (run_exec (W:=W) text f).
Proof. intros Hf. unfold run_exec. adv. apply respects_exec; [apply _|]. done. Qed.
Lemma run_count_off text f : (forall t, R t (f t).2) -> respects (lifted R) (run_count (W:=W) text f).
Proof. intros Hf. unfold run_count. adv. apply respects_exec; [apply _|]. done. Qed.
Lemma run_stmt_off {A} text (f : cdb -> (goerr + A) * cdb) : (forall t, R t (f t).2) -> respects (lifted R) (run_stmt (W:=W) text f).
Proof. intros Hf. unfold run_stmt. adv. Qed.
#[local] Hint Resolve run_exec_off run_count_off run_stmt_off : advance_ops.

Lemma canonical_off jid : respects (lifted R) (canonicalDMChatJID (W:=W) jid).
Proof. unfold canonicalDMChatJID. adv. Qed.
Lemma merge_off session lid phone : respects (lifted R) (mergeDMChatAlias (W:=W) session lid phone).
Proof. unfold mergeDMChatAlias. adv. Qed.
Lemma FillName_off jid name now : respects (lifted R) (FillNameByJID (W:=W) jid name now).
Proof. unfold FillNameByJID. adv. Qed.
Lemma require_off resource n : respects (lifted R) (require_row (W:=W) resource n).
Proof. unfold require_row. adv. Qed.
#[local] Hint Resolve canonical_off merge_off FillName_off require_off : advance_ops.

Lemma store_off : (forall batch, respects (lifted R) (ApplyBatch (W:=W) batch)) -> (forall u, respects (lifted R) (ApplySync (W:=W) u)) ->
  StoreRespects (lifted (W:=W) R).
Proof.
  intros HB HS. split; intros; cbn [ps_UpsertIdentity ps_FillIdentityName ps_UpsertGroup ps_UpsertGroupMember ps_UpsertChat ps_InsertMessage
    ps_MarkMessageEdited ps_MarkMessageDeleted ps_UpdateMessageStatus ps_UpsertPoll ps_InsertPollVote ps_AttachPairing
    ps_ClearPairing ps_UpdateSessionStatus ps_ApplyHistoryBatch ps_ApplyHistorySync StoreProjections];
    unfold InsertMessage, UpdateMessageStatus, Groups_Upsert, GroupMembers_Upsert, Identities_Upsert, Chats_Upsert, Messages_Upsert,
      AdvanceReceiptStatus, MarkEdited, MarkDeleted, Polls_Upsert, Votes_Insert, AttachPairing, ClearPairing, Sessions_UpdateStatus;
    adv.
Qed.
End Handles.
End OffLedger.

(** ** A batch that is applied *)

Section Applied.
Context `{Clocks} `{ChatCodec} `{MapRange} `{MessageIDs}.
Variable b : ImportBatch.

#[local] Hint Extern 1 (ledger_kept _ _) => solve [apply ensure_run_ledger|apply ledger_kept_same; reflexivity] : advance_ops.
Lemma write_ledger text f : (forall t, ledger_kept t (f t)) -> respects (on_rows ledger_kept) (write text f).
Proof. intros Hf. unfold write. adv. apply respects_exec; [apply _|]. done. Qed.
#[local] Hint Resolve write_ledger : advance_ops.
Lemma canonical_ledger jid : respects (on_rows ledger_kept) (canonicalDMChatJID (W:=db cdb) jid).
Proof. exact (canonical_off ledger_kept (HR:=tx_rel) jid). Qed.
Lemma merge_ledger session lid phone : respects (on_rows ledger_kept) (mergeDMChatAlias (W:=db cdb) session lid phone).
Proof. exact (merge_off ledger_kept ledger_kept_same (HR:=tx_rel) session lid phone). Qed.
Lemma FillName_ledger jid name now : respects (on_rows ledger_kept) (FillNameByJID (W:=db cdb) jid name now).
Proof. exact (FillName_off ledger_kept ledger_kept_same (HR:=tx_rel) jid name now). Qed.
#[local] Hint Resolve canonical_ledger merge_ledger FillName_ledger : advance_ops.

Lemma identities_ledger : respects (on_rows ledger_kept) (identities b).
Proof. unfold identities, knownPhoneMappings, fill_all, mergeNewMappings. adv. Qed.
Lemma groups_ledger : respects (on_rows ledger_kept) (groups b).
Proof. unfold groups, group. adv. Qed.
Lemma chats_ledger : respects (on_rows ledger_kept) (chats b).
Proof. unfold chats, chat. adv. Qed.
Lemma messages_ledger canonical : respects (on_rows ledger_kept) (messages b canonical).
Proof. unfold messages, storedMessageIDs, message, insertMessage, insertPoll. adv. Qed.
Lemma mutations_ledger : respects (on_rows ledger_kept) (mutations b).
Proof. unfold mutations, mutation. adv. Qed.

(** The run of the batch, from where the conversations' chats are stored. *)
Definition run_key : string * string := (ib_SessionID b, ib_RunID b).
Definition batch_entry (ta : tally) : batch_row :=
  MkBatchRow (ib_SessionID b) (ib_RunID b) (ta_imported ta) (ta_existing ta) (ta_dropped ta) (ib_Now b).

Lemma apply_batch_returns d res d' : apply_batch b d = (inr res, d') ->
  (res = MkBatchResult false 0 0 0 /\ is_Some (c_batches (rows d) !! ib_EventID b) /\ rows d' = rows d) \/
  exists d0 d1 canonical d2 ta d3,
    c_batches (rows d) !! ib_EventID b = None /\ is_Some (c_runs (rows d0) !! run_key) /\
    (forall R : cdb -> cdb -> Prop, PreOrder R -> R (rows d) (ensure_run (ib_SessionID b) (ib_RunID b) (ib_AccountJID b) (ib_Now b) (rows d)).2 ->
       respects (on_rows R) (identities b) -> respects (on_rows R) (groups b) -> R (rows d) (rows d0)) /\
    chats b d0 = (inr canonical, d1) /\ messages b canonical d1 = (inr ta, d2) /\ mutations b d2 = (inr tt, d3) /\
    res = MkBatchResult true (ta_imported ta) (ta_existing ta) (ta_dropped ta) /\
    rows d' = on_runs (alter (add_imports (ta_imported ta) (ta_existing ta) (ta_dropped ta) (ib_Now b)) run_key)
                (on_batches <[ib_EventID b := batch_entry ta]> (rows d3)).
Proof.
  unfold apply_batch. intros Hrun. apply bind_returns in Hrun as (seen & d1 & Hq & Hrun). run_inv_step. run_inv_step.
  destruct (c_batches (rows d) !! ib_EventID b) as [e|] eqn:He.
  { left. cbn in *. subst seen. injection Hrun as <- <-. eauto. }
  right. cbn in *. subst seen.
  apply bind_returns in Hrun as ([] & d2 & Hrn & Hrun). apply map_err_returns, stmt_returns in Hrn.
  apply bind_returns in Hrun as ([] & d3 & Hi & Hrun). apply bind_returns in Hrun as ([] & d4 & Hg & Hrun).
  apply bind_returns in Hrun as (canonical & d5 & Hc & Hrun). apply bind_returns in Hrun as (ta & d6 & Hm & Hrun).
  apply bind_returns in Hrun as ([] & d7 & Hu & Hrun).
  assert (Hen : rows d2 = (ensure_run (ib_SessionID b) (ib_RunID b) (ib_AccountJID b) (ib_Now b) (rows d)).2) by (by rewrite <- H4, Hrn).
  assert (Hpre : forall R : cdb -> cdb -> Prop, PreOrder R -> respects (on_rows R) (identities b) -> respects (on_rows R) (groups b) ->
            R (rows d2) (rows d4)).
  { intros R HR Hri Hrg. transitivity (rows d3); [exact (Hri _ _ _ Hi)|exact (Hrg _ _ _ Hg)]. }
  assert (Hadv : advances (rows d2) (rows d4)) by (apply Hpre; [apply _|apply identities_advance|apply groups_advance]).
  assert (Hsome : is_Some (c_runs (rows d2) !! run_key)).
  { rewrite H4 in Hrn. unfold ensure_run, of_session in Hrn. destruct (c_sessions _ !! _); [|done]. injection Hrn as <-. cbn.
    unfold upsert. rewrite lookup_insert_eq. eauto. }
  exists d4, d5, canonical, d6, ta, d7. split; [done|].
  split; [destruct Hsome as [u Hsu]; destruct (ad_runs _ _ Hadv _ u Hsu) as (u' & -> & _); eauto|].
  split; [intros R HR Hre Hri Hrg; transitivity (rows d2); [by rewrite Hen|by apply Hpre]|].
  do 3 (split; [done|]). destruct ta as [i e x].
  apply bind_returns in Hrun as ([] & d8 & Hl & Hrun). apply map_err_returns, stmt_returns in Hl.
  apply bind_returns in Hrun as ([] & d9 & Hw & Hrun). apply map_err_returns, exec_returns in Hw as [_ Hw].
  apply bind_returns in Hrun as ([] & d10 & Hco & Hrun). apply map_err_returns, query_returns in Hco as [_ Hco].
  injection Hrun as <- <-. split; [done|]. rewrite Hco, Hw. cbn. f_equal.
  unfold insert_ledger in Hl. destruct (c_batches (rows d7) !! ib_EventID b); [done|]. unfold of_session in Hl.
  destruct (c_sessions _ !! _); [|done]. by injection Hl as <-.
Qed.

(** ** A batch is imported once *)

(** After the batch, its ledger entry is there and the counters are right. *)
Lemma apply_batch_ledger d res d' : apply_batch b d = (inr res, d') -> keeps ledger_ok (rows d) (rows d').
Proof.
  intros Hrun Hok. destruct (apply_batch_returns d res d' Hrun) as [(_ & _ & ->)|Happ]; [done|].
  destruct Happ as (d0 & d1 & canonical & d2 & ta & d3 & Hnone & Hsome & Hpre & Hc & Hm & Hu & _ & ->).
  assert (Hk : ledger_kept (rows d) (rows d0)).
  { apply Hpre; [apply _|apply ensure_run_ledger|apply identities_ledger|apply groups_ledger]. }
  assert (Hk3 : ledger_kept (rows d) (rows d3)).
  { transitivity (rows d0); [done|]. transitivity (rows d1); [exact (chats_ledger _ _ _ Hc)|].
    transitivity (rows d2); [exact (messages_ledger _ _ _ _ Hm)|exact (mutations_ledger _ _ _ Hu)]. }
  assert (Hr3 : is_Some (c_runs (rows d3) !! run_key)).
  { destruct Hsome as [u Hsu]. assert (Hk0 : ledger_kept (rows d0) (rows d3)).
    { transitivity (rows d1); [exact (chats_ledger _ _ _ Hc)|].
      transitivity (rows d2); [exact (messages_ledger _ _ _ _ Hm)|exact (mutations_ledger _ _ _ Hu)]. }
    destruct (lk_runs _ _ Hk0 _ u Hsu) as (u' & -> & _). eauto. }
  destruct (ledger_kept_ok _ _ Hk3 Hok) as [Hruns Hcounts].
  assert (Hn3 : c_batches (rows d3) !! ib_EventID b = None) by (by rewrite (lk_batches _ _ Hk3)).
  split; cbn.
  - apply map_Forall_insert; [done|]. split.
    + cbn. fold run_key. rewrite lookup_alter_eq. destruct Hr3 as [u ->]. eauto.
    + intros e r He. destruct (Hruns e r He) as [u Hu']. destruct (decide ((bt_session_id r, bt_run_id r) = run_key)) as [Heq|Hne].
      * rewrite Heq in Hu' |- *. rewrite lookup_alter_eq, Hu'. eauto.
      * rewrite lookup_alter_ne by done. eauto.
  - intros k r Hr. rewrite !sum_batches_insert by done. cbn. fold run_key. destruct (decide (run_key = k)) as [<-|Hne].
    + rewrite lookup_alter_eq in Hr. destruct Hr3 as [u Hu3]. rewrite Hu3 in Hr. injection Hr as <-.
      specialize (Hcounts _ u Hu3). cbn. rewrite Hcounts. rewrite bool_decide_true by done. cbn. f_equal; lia.
    + rewrite lookup_alter_ne in Hr by done. rewrite (Hcounts k r Hr). rewrite bool_decide_false by done. done.
Qed.
End Applied.

Section Once.
Context {W : Type} `{HR : HandleRel W} `{Clocks} `{ChatCodec} `{MapRange} `{MessageIDs}.

Lemma ApplyBatch_ledger b : respects (lifted (keeps ledger_ok)) (ApplyBatch (W:=W) b).
Proof.
  unfold ApplyBatch. destruct (_ || _); [apply respects_throw, _|]. apply respects_on_tx; [apply _|].
  apply respects_bind; [apply _|apply respects_map_err, respects_begin, _|]. intros [].
  apply respects_on_commit; [apply _|]. apply apply_batch_ledger.
Qed.
Lemma ApplySync_ledger u : respects (lifted (keeps ledger_ok)) (ApplySync (W:=W) u).
Proof.
  unfold ApplySync. destruct (_ || _); [apply respects_throw, _|]. destruct (phase_status u) as [[[st fin] err]|]; [|apply respects_throw, _].
  apply run_stmt_off; [apply _|]. intros t. apply ledger_kept_ok, sync_upsert_ledger. done.
Qed.

#[export] Instance store_ledger : StoreRespects (lifted (W:=W) (keeps ledger_ok)).
Proof.
  refine (store_off (keeps ledger_ok) _ _ _); [|exact ApplyBatch_ledger|exact ApplySync_ledger].
  intros t t' Hr Hb. by apply ledger_kept_ok, ledger_kept_same.
Qed.
End Once.

(** ** What was accepted is stored *)

Lemma concat_chunks {A} n (l : list A) : (0 < n)%nat -> forall fuel, (length l <= fuel)%nat -> concat (chunks_of fuel n l) = l.
Proof.
  intros Hn fuel. revert l. induction fuel as [|fuel IH]; intros [|x l] Hl; cbn [chunks_of concat length] in *; try done; [lia|].
  rewrite IH; [apply take_drop|]. rewrite length_drop. cbn [length]. lia.
Qed.
Lemma concat_in_chunks {A} (l : list A) : concat (in_chunks l) = l.
Proof. apply concat_chunks; [unfold historyInChunk; lia|done]. Qed.

Lemma query_chunks_returns {A} text (f : list string -> cdb -> list A) chunks d found d' :
  query_chunks text f chunks d = (inr found, d') -> found = concat ((fun c => f c (rows d)) <$> chunks) /\ rows d' = rows d.
Proof.
  revert d found d'. induction chunks as [|c chunks IH]; intros d found d' Hrun; cbn [query_chunks] in Hrun.
  { by injection Hrun as <- <-. }
  apply bind_returns in Hrun as (l & d1 & Hq & Hrun). apply map_err_returns, query_returns in Hq as [-> Hd1].
  apply bind_returns in Hrun as (rest & d2 & Hr & Hrun). injection Hrun as <- <-. apply IH in Hr as [-> Hd2].
  cbn. rewrite Hd2, Hd1. done.
Qed.

Lemma write_returns text f d u d' : write text f d = (inr u, d') -> rows d' = f (rows d).
Proof. intros Hrun. by apply map_err_returns, exec_returns in Hrun as [_ ->]. Qed.

Section Messages.
Context `{Clocks} `{ChatCodec} `{MapRange} `{MessageIDs}.
Variable b : ImportBatch.

Definition stored_in (t : cdb) (id : string) : Prop := is_Some (c_messages t !! (ib_SessionID b, id)).

(** A message that becomes a row, or is dropped. *)
Definition storable (chatJID : string) (m : ImportMessage) : bool :=
  createsRow (im_Kind m) && negb (bool_decide (chatJID = "")) && keptMessage b m.
Definition dropped_one (chatJID : string) (m : ImportMessage) : bool :=
  createsRow (im_Kind m) && (bool_decide (chatJID = "") || negb (keptMessage b m)).
Definition count_if (f : ImportMessage -> bool) (l : list ImportMessage) : Z := len (List.filter f l).

(** The loop, over the ids looked up before it and from [n0] rows. *)
Record loop_ok (ids : list string) (n0 : Z) (st : gset string * tally) (t : cdb) : Prop := {
  lp_stored : forall id, id ∈ ids -> id ∈ st.1 <-> stored_in t id;
  lp_size : Z.of_nat (size (c_messages t)) = n0 + ta_imported st.2;
}.

Lemma insert_new_message id r t : ~ stored_in t id ->
  let t' := on_messages (insert_if_absent (ib_SessionID b, id) r) t in
  Z.of_nat (size (c_messages t')) = Z.of_nat (size (c_messages t)) + 1 /\ stored_in t' id /\
  forall id', id' <> id -> stored_in t' id' <-> stored_in t id'.
Proof.
  unfold stored_in. intros Hn. cbn. unfold insert_if_absent, upsert.
  apply eq_None_not_Some in Hn. rewrite Hn. split; [rewrite map_size_insert_None by done; lia|].
  split; [rewrite lookup_insert_eq; eauto|]. intros id' Hid. rewrite lookup_insert_ne by congruence. done.
Qed.

Lemma message_returns ids n0 chatJID st m d st' d' :
  message b chatJID st m d = (inr st', d') -> (storable chatJID m = true -> im_WAMessageID m ∈ ids) -> loop_ok ids n0 st (rows d) ->
  loop_ok ids n0 st' (rows d') /\
  ta_imported st'.2 + ta_existing st'.2 + ta_dropped st'.2 =
    ta_imported st.2 + ta_existing st.2 + ta_dropped st.2 + (if createsRow (im_Kind m) then 1 else 0) /\
  ta_dropped st'.2 = ta_dropped st.2 + (if dropped_one chatJID m then 1 else 0) /\
  (storable chatJID m = true -> stored_in (rows d') (im_WAMessageID m)).
Proof.
  destruct st as [stored [i e x]]. unfold message, storable, dropped_one. intros Hrun Hin Hok. destruct (createsRow (im_Kind m)); cbn in Hin |- *.
  2:{ injection Hrun as <- <-. cbn. split; [done|]. split; [lia|]. split; [lia|done]. }
  cbn [negb] in Hrun. destruct (bool_decide (chatJID = "")); cbn in Hin, Hrun |- *.
  { injection Hrun as <- <-. cbn. split; [by destruct Hok|]. split; [lia|]. split; [lia|done]. }
  destruct (keptMessage b m); cbn in Hin, Hrun |- *.
  2:{ injection Hrun as <- <-. cbn. split; [by destruct Hok|]. split; [lia|]. split; [lia|done]. }
  specialize (Hin eq_refl). destruct Hok as [Hst Hsz]. destruct (decide (im_WAMessageID m ∈ stored)) as [Hs|Hs].
  { injection Hrun as <- <-. cbn. split; [by split|]. split; [lia|]. split; [lia|]. intros _. by apply (Hst _ Hin). }
  apply bind_returns in Hrun as (id & d1 & Hid & Hrun). injection Hid as _ <-.
  apply bind_returns in Hrun as ([] & d2 & Hi & Hrun). apply write_returns in Hi.
  apply bind_returns in Hrun as ([] & d3 & Hp & Hrun). injection Hrun as <- <-. cbn in *.
  assert (Hms : c_messages (rows d3) = c_messages (rows d2)).
  { destruct (im_Poll m) as [p|]; [apply write_returns in Hp; by rewrite Hp|by injection Hp as <-]. }
  assert (Hno : ~ stored_in (rows d) (im_WAMessageID m)) by (intros Hno; by apply Hs, (Hst _ Hin)).
  destruct (insert_new_message _ (imported_row b id chatJID m) _ Hno) as (Hsize & Hnew & Hold). rewrite <- Hi in *.
  assert (Heq : forall id', stored_in (rows d3) id' <-> stored_in (rows d2) id') by (intros id'; unfold stored_in; by rewrite Hms).
  split; [|split; [lia|split; [lia|by intros _; apply Heq]]]. split; cbn.
  - intros id' Hid'. rewrite Heq. destruct (decide (id' = im_WAMessageID m)) as [->|Hne].
    + split; [done|]. intros _. set_solver.
    + rewrite (Hold _ Hne), <- (Hst _ Hid'). set_solver.
  - rewrite Hms, Hsize, Hsz. lia.
Qed.

Lemma message_advance chatJID st m : respects (on_rows advances) (message b chatJID st m).
Proof. unfold message, insertMessage, insertPoll. adv. Qed.

Lemma stored_advances t t' id : advances t t' -> stored_in t id -> stored_in t' id.
Proof. intros Ha [r Hr]. destruct (ad_messages _ _ Ha _ r Hr) as (r' & Hr' & _). exists r'. exact Hr'. Qed.

Lemma count_if_cons f m l : count_if f (m :: l) = (if f m then 1 else 0) + count_if f l.
Proof. unfold count_if, len. cbn [List.filter]. destruct (f m); cbn [length]; lia. Qed.

Lemma fold_messages_return ids n0 chatJID l : forall st d st' d',
  fold_m (message b chatJID) st l d = (inr st', d') -> (forall m, m ∈ l -> storable chatJID m = true -> im_WAMessageID m ∈ ids) ->
  loop_ok ids n0 st (rows d) ->
  loop_ok ids n0 st' (rows d') /\ advances (rows d) (rows d') /\
  ta_imported st'.2 + ta_existing st'.2 + ta_dropped st'.2 =
    ta_imported st.2 + ta_existing st.2 + ta_dropped st.2 + count_if (fun m => createsRow (im_Kind m)) l /\
  ta_dropped st'.2 = ta_dropped st.2 + count_if (dropped_one chatJID) l /\
  (forall m, m ∈ l -> storable chatJID m = true -> stored_in (rows d') (im_WAMessageID m)).
Proof.
  induction l as [|m l IH]; intros st d st' d' Hrun Hin Hok; cbn [fold_m] in Hrun.
  { injection Hrun as <- <-. unfold count_if, len. cbn. split; [done|]. split; [reflexivity|]. split; [lia|]. split; [lia|].
    by intros m ?%not_elem_of_nil. }
  apply bind_returns in Hrun as (st1 & d1 & Hm & Hrun).
  destruct (message_returns ids n0 chatJID _ _ _ _ _ Hm (Hin m ltac:(left)) Hok) as (Hok1 & Hsum & Hdrop & Hst).
  destruct (IH _ _ _ _ Hrun (fun x Hx => Hin x ltac:(by right)) Hok1) as (Hok2 & Ha & Hsum2 & Hdrop2 & Hst2).
  split; [done|]. split; [transitivity (rows d1); [exact (message_advance _ _ _ _ _ _ Hm)|done]|].
  rewrite !count_if_cons. split; [lia|]. split; [lia|].
  intros x [->|Hx]%elem_of_cons Hs; [apply (stored_advances _ _ _ Ha); auto|auto].
Qed.

(** Over the conversations; [chat_of] is the chat a conversation's messages go to. *)
Variable canonical : gmap string string.
Definition chat_of (conv : ImportConversation) : string := default "" (canonical !! iv_ChatJID conv).
Definition sum_convs (f : ImportConversation -> ImportMessage -> bool) (l : list ImportConversation) : Z :=
  foldr (fun conv acc => count_if (f conv) (iv_Messages conv) + acc) 0 l.

Lemma sum_convs_cons f conv l : sum_convs f (conv :: l) = count_if (f conv) (iv_Messages conv) + sum_convs f l.
Proof. done. Qed.

Lemma fold_conversations_return ids n0 l : forall st d st' d',
  fold_m (fun st conv => fold_m (message b (chat_of conv)) st (iv_Messages conv)) st l d = (inr st', d') ->
  (forall conv m, conv ∈ l -> m ∈ iv_Messages conv -> storable (chat_of conv) m = true -> im_WAMessageID m ∈ ids) ->
  loop_ok ids n0 st (rows d) ->
  loop_ok ids n0 st' (rows d') /\ advances (rows d) (rows d') /\
  ta_imported st'.2 + ta_existing st'.2 + ta_dropped st'.2 =
    ta_imported st.2 + ta_existing st.2 + ta_dropped st.2 + sum_convs (fun _ m => createsRow (im_Kind m)) l /\
  ta_dropped st'.2 = ta_dropped st.2 + sum_convs (fun conv => dropped_one (chat_of conv)) l /\
  (forall conv m, conv ∈ l -> m ∈ iv_Messages conv -> storable (chat_of conv) m = true -> stored_in (rows d') (im_WAMessageID m)).
Proof.
  induction l as [|conv l IH]; intros st d st' d' Hrun Hin Hok; cbn [fold_m] in Hrun.
  { injection Hrun as <- <-. cbn. split; [done|]. split; [reflexivity|]. split; [lia|]. split; [lia|].
    by intros conv m ?%not_elem_of_nil. }
  apply bind_returns in Hrun as (st1 & d1 & Hm & Hrun).
  destruct (fold_messages_return ids n0 _ _ _ _ _ _ Hm (fun m => Hin conv m ltac:(left)) Hok) as (Hok1 & Ha1 & Hsum & Hdrop & Hst).
  destruct (IH _ _ _ _ Hrun (fun c m Hc => Hin c m ltac:(by right)) Hok1) as (Hok2 & Ha & Hsum2 & Hdrop2 & Hst2).
  split; [done|]. split; [by transitivity (rows d1)|]. rewrite !sum_convs_cons. split; [lia|]. split; [lia|].
  intros c m [->|Hc]%elem_of_cons Hm' Hs; [apply (stored_advances _ _ _ Ha); eauto|eauto].
Qed.

Lemma message_ids_spec id : id ∈ message_ids b canonical <->
  exists conv m, conv ∈ ib_Conversations b /\ m ∈ iv_Messages conv /\ storable (chat_of conv) m = true /\ id = im_WAMessageID m.
Proof.
  unfold message_ids. rewrite list_elem_of_In, in_concat. split.
  - intros (l & Hl & Hid). apply list_elem_of_In, list_elem_of_fmap in Hl as (conv & -> & Hc).
    apply list_elem_of_In, list_elem_of_fmap in Hid as (m & -> & Hm). apply list_elem_of_In, filter_In in Hm as [Hm Hf].
    exists conv, m. split; [done|]. split; [by apply list_elem_of_In|]. split; [|done]. unfold storable, chat_of.
    apply andb_true_iff in Hf as [[Hk Hkept]%andb_true_iff Hne]. by rewrite Hk, Hkept, Hne.
  - intros (conv & m & Hc & Hm & Hs & ->). eexists. split; [apply list_elem_of_In, list_elem_of_fmap; exists conv; eauto|].
    apply list_elem_of_In, list_elem_of_fmap. exists m. split; [done|]. apply list_elem_of_In, filter_In. split; [by apply list_elem_of_In|].
    unfold storable, chat_of in Hs. apply andb_true_iff in Hs as [[Hk Hne]%andb_true_iff Hkept]. by rewrite Hk, Hkept, Hne.
Qed.

Lemma select_messages_in ids t id : id ∈ select_messages b ids t <-> id ∈ ids /\ stored_in t id.
Proof.
  unfold select_messages, stored_in. rewrite list_elem_of_In, filter_In, <- list_elem_of_In.
  destruct (c_messages t !! (ib_SessionID b, id)); cbn; split; intros [Hin Hst]; solve [done|eauto|by destruct Hst].
Qed.

Lemma storedMessageIDs_returns ids d found d' : storedMessageIDs b ids d = (inr found, d') ->
  rows d' = rows d /\ forall id, id ∈ found <-> id ∈ ids /\ stored_in (rows d) id.
Proof.
  unfold storedMessageIDs. intros Hrun. apply bind_returns in Hrun as (l & d1 & Hq & Hrun). injection Hrun as <- <-.
  apply query_chunks_returns in Hq as [-> Hd]. split; [done|]. intros id. rewrite elem_of_list_to_set, list_elem_of_In, in_concat.
  assert (Hids : id ∈ ids <-> exists c, In c (in_chunks ids) /\ In id c).
  { rewrite <- (concat_in_chunks ids) at 1. by rewrite list_elem_of_In, in_concat. }
  rewrite Hids. split.
  - intros (x & Hx & Hid). apply list_elem_of_In, list_elem_of_fmap in Hx as (c & -> & Hc).
    apply list_elem_of_In, select_messages_in in Hid as [Hid Hst]. split; [exists c; split; by apply list_elem_of_In|done].
  - intros [(c & Hc & Hid) Hst]. eexists. split; [apply list_elem_of_In, list_elem_of_fmap; exists c; split; [done|by apply list_elem_of_In]|].
    apply list_elem_of_In, select_messages_in. split; [by apply list_elem_of_In|done].
Qed.

Lemma messages_return d ta d' : messages b canonical d = (inr ta, d') ->
  Z.of_nat (size (c_messages (rows d'))) = Z.of_nat (size (c_messages (rows d))) + ta_imported ta /\
  ta_imported ta + ta_existing ta + ta_dropped ta = sum_convs (fun _ m => createsRow (im_Kind m)) (ib_Conversations b) /\
  ta_dropped ta = sum_convs (fun conv => dropped_one (chat_of conv)) (ib_Conversations b) /\
  (forall conv m, conv ∈ ib_Conversations b -> m ∈ iv_Messages conv -> storable (chat_of conv) m = true ->
     stored_in (rows d') (im_WAMessageID m)).
Proof.
  unfold messages. intros Hrun. apply bind_returns in Hrun as (stored & d1 & Hs & Hrun).
  apply storedMessageIDs_returns in Hs as [Hd Hs]. apply bind_returns in Hrun as (st & d2 & Hf & Hrun). injection Hrun as <- <-.
  destruct (fold_conversations_return (message_ids b canonical) (Z.of_nat (size (c_messages (rows d1)))) _ _ _ _ _ Hf)
    as (Hok & _ & Hsum & Hdrop & Hst).
  - intros conv m Hc Hm Hsm. apply message_ids_spec. exists conv, m. auto.
  - split; cbn; [|lia]. intros id Hid. rewrite Hs, Hd. split; [by intros []|done].
  - rewrite <- Hd. cbn in *. split; [apply Hok|]. split; [lia|]. split; [lia|done].
Qed.
End Messages.

(** *** Where the chats are stored *)

(** The ids of the stored messages. *)
Definition same_ids (t t' : cdb) : Prop := dom (c_messages t') = dom (c_messages t).
#[export] Instance same_ids_preorder : PreOrder same_ids.
Proof. unfold same_ids. split; [done|]. intros a b c. congruence. Qed.
Lemma same_ids_messages f t : dom (f (c_messages t)) = dom (c_messages t) -> same_ids t (on_messages f t).
Proof. done. Qed.
Lemma dom_imap_some {K A} `{Countable K} (f : K -> A -> A) (m : gmap K A) : dom (map_imap (fun k a => Some (f k a)) m) = dom m.
Proof. apply set_eq. intros k. rewrite !elem_of_dom, map_lookup_imap. destruct (m !! k); cbn; split; solve [done|eauto]. Qed.
Lemma same_ids_size t t' : same_ids t t' -> size (c_messages t') = size (c_messages t).
Proof. unfold same_ids. intros Hd. by rewrite <- !size_dom, Hd. Qed.

Ltac same_ids :=
  unfold same_ids, ensure_run, of_session, UpdateMessageDMChatAliases, UpdateSessionMessageDMChatAliases, in_session_only, edit_unedited,
    revoke_message, RenameSessionDMChatAlias, RenameDMChatAliasesWithoutCanonical, InsertPollVote;
  repeat match goal with |- context [match ?x with _ => _ end] => destruct x end;
  cbn [c_messages on_messages on_chats on_runs on_votes fst snd]; rewrite ?dom_fmap_L, ?dom_imap_some, ?dom_alter_L; reflexivity.

Section SameIds.
Context `{Clocks} `{ChatCodec} `{MapRange} `{MessageIDs}.
Variable b : ImportBatch.

#[local] Hint Extern 1 (same_ids _ _) => solve [same_ids] : advance_ops.
Lemma write_same_ids text f : (forall t, same_ids t (f t)) -> respects (on_rows same_ids) (write text f).
Proof. intros Hf. unfold write. adv. apply respects_exec; [apply _|]. done. Qed.
Lemma run_same_ids text f : (forall t, same_ids t (f t)) -> respects (on_rows same_ids) (run_exec (W:=db cdb) text f).
Proof. exact (write_same_ids text f). Qed.
Lemma run_stmt_same_ids {A} text (f : cdb -> (goerr + A) * cdb) :
  (forall t, same_ids t (f t).2) -> respects (on_rows same_ids) (run_stmt (W:=db cdb) text f).
Proof. intros Hf. unfold run_stmt. cbn [on_tx tx_handle]. adv. Qed.
#[local] Hint Resolve write_same_ids run_same_ids run_stmt_same_ids : advance_ops.

Lemma canonical_same_ids jid : respects (on_rows same_ids) (canonicalDMChatJID (W:=db cdb) jid).
Proof. unfold canonicalDMChatJID. cbn [on_tx tx_handle]. adv. Qed.
Lemma merge_same_ids session lid phone : respects (on_rows same_ids) (mergeDMChatAlias (W:=db cdb) session lid phone).
Proof. unfold mergeDMChatAlias. cbn [on_tx tx_handle]. adv. Qed.
Lemma FillName_same_ids jid name now : respects (on_rows same_ids) (FillNameByJID (W:=db cdb) jid name now).
Proof. unfold FillNameByJID. adv. Qed.
#[local] Hint Resolve canonical_same_ids merge_same_ids FillName_same_ids : advance_ops.

Lemma identities_same_ids : respects (on_rows same_ids) (identities b).
Proof. unfold identities, knownPhoneMappings, fill_all, mergeNewMappings. adv. Qed.
Lemma groups_same_ids : respects (on_rows same_ids) (groups b).
Proof. unfold groups, group. adv. Qed.
Lemma chats_same_ids : respects (on_rows same_ids) (chats b).
Proof. unfold chats, chat. adv. Qed.
Lemma mutations_same_ids : respects (on_rows same_ids) (mutations b).
Proof. unfold mutations, mutation. adv. Qed.
End SameIds.

(** A conversation with a JID has a chat, and a JID of its own. *)
Section Canonical.
Context `{Clocks} `{ChatCodec} `{MapRange} `{MessageIDs}.
Variable b : ImportBatch.

Lemma resolved_nonempty phone t lid : lid ∈ ResolveCanonicalDMChatJID phone t -> lid <> "".
Proof.
  unfold ResolveCanonicalDMChatJID. intros Hin -> . apply elem_of_take in Hin as (i & Hi & _).
  apply list_elem_of_lookup_2, list_elem_of_omap in Hi as ([l r] & _ & Hs). split_if; [|done]. to_prop. by simplify_eq.
Qed.
Lemma canonical_nonempty jid d j d' : canonicalDMChatJID (W:=db cdb) jid d = (inr j, d') -> jid <> "" -> j <> "".
Proof.
  unfold canonicalDMChatJID. destruct (negb _); [intros [= <- <-]; done|]. intros Hrun Hne.
  apply bind_returns in Hrun as (l & d1 & Hq & Hrun). apply map_err_returns, query_returns in Hq as [Hl _].
  destruct l as [|lid [|]]; injection Hrun as <- <-; try done. apply (resolved_nonempty jid (rows d)). rewrite <- Hl. left.
Qed.

Definition chats_ok (canonical : gmap string string) : Prop :=
  canonical !! "" = None /\ map_Forall (fun _ jid => jid <> "") canonical.
Lemma chat_returns canonical conv d canonical' d' : chat b canonical conv d = (inr canonical', d') -> chats_ok canonical ->
  chats_ok canonical' /\ dom canonical ⊆ dom canonical' /\ (iv_ChatJID conv <> "" -> iv_ChatJID conv ∈ dom canonical').
Proof.
  unfold chat. intros Hrun [Hno Hall]. destruct (decide (iv_ChatJID conv = "")) as [He|He].
  { rewrite bool_decide_true in Hrun by done. by injection Hrun as <- <-. }
  rewrite bool_decide_false in Hrun by done. apply bind_returns in Hrun as (jid & d1 & Hj & Hrun).
  apply bind_returns in Hrun as ([] & d2 & _ & Hrun). injection Hrun as <- <-.
  assert (Hne : jid <> "").
  { destruct (bool_decide (iv_Type conv = ChatDM)); [by eapply canonical_nonempty|by injection Hj as <-]. }
  split; [split; [by rewrite lookup_insert_ne|by apply map_Forall_insert_2]|]. rewrite dom_insert. split; [|intros _]; set_solver.
Qed.
Lemma fold_chats_return l : forall canonical d canonical' d',
  fold_m (chat b) canonical l d = (inr canonical', d') -> chats_ok canonical ->
  chats_ok canonical' /\ dom canonical ⊆ dom canonical' /\
  (forall conv, conv ∈ l -> iv_ChatJID conv <> "" -> iv_ChatJID conv ∈ dom canonical').
Proof.
  induction l as [|conv l IH]; intros canonical d canonical' d' Hrun Hok; cbn [fold_m] in Hrun.
  { injection Hrun as <- <-. split; [done|]. split; [done|]. by intros conv ?%not_elem_of_nil. }
  apply bind_returns in Hrun as (c1 & d1 & Hc & Hrun). destruct (chat_returns _ _ _ _ _ Hc Hok) as (Hok1 & Hd1 & Hin1).
  destruct (IH _ _ _ _ Hrun Hok1) as (Hok2 & Hd2 & Hin2). split; [done|]. split; [set_solver|].
  intros x [->|Hx]%elem_of_cons Hne; [by apply Hd2, Hin1|auto].
Qed.

(** Of a message of the batch: whether it is to be stored. *)
Definition accepted (conv : ImportConversation) (m : ImportMessage) : bool :=
  createsRow (im_Kind m) && negb (bool_decide (iv_ChatJID conv = "")) && keptMessage b m.
Definition refused (conv : ImportConversation) (m : ImportMessage) : bool := createsRow (im_Kind m) && negb (accepted conv m).

Lemma chats_return d canonical d' : chats b d = (inr canonical, d') ->
  forall conv, conv ∈ ib_Conversations b -> (chat_of canonical conv = "" <-> iv_ChatJID conv = "").
Proof.
  intros Hrun conv Hc. assert (Hok : chats_ok ∅) by (split; [apply lookup_empty|apply map_Forall_empty]).
  destruct (fold_chats_return _ _ _ _ _ Hrun Hok) as ([Hno Hall] & _ & Hin). unfold chat_of. split.
  - intros Hd. destruct (decide (iv_ChatJID conv = "")) as [|Hne]; [done|]. specialize (Hin conv Hc Hne).
    apply elem_of_dom in Hin as [j Hj]. rewrite Hj in Hd. cbn in Hd. by destruct (Hall _ _ Hj).
  - intros ->. by rewrite Hno.
Qed.

Lemma storable_accepted canonical conv m : (chat_of canonical conv = "" <-> iv_ChatJID conv = "") ->
  storable b (chat_of canonical conv) m = accepted conv m /\ dropped_one b (chat_of canonical conv) m = refused conv m.
Proof.
  intros Hiff. unfold storable, dropped_one, refused, accepted. rewrite (bool_decide_ext _ _ Hiff).
  destruct (createsRow _), (bool_decide _), (keptMessage b m); done.
Qed.
Lemma sum_convs_ext f g l : (forall conv m, conv ∈ l -> m ∈ iv_Messages conv -> f conv m = g conv m) -> sum_convs f l = sum_convs g l.
Proof.
  induction l as [|conv l IH]; intros Heq; [done|]. rewrite !sum_convs_cons, IH by (intros; apply Heq; [by right|done]). f_equal.
  unfold count_if. f_equal. apply List.filter_ext_in. intros m Hm. apply Heq; [left|by apply list_elem_of_In].
Qed.

(** What applying the batch comes to. *)
Record batch_stored (t t' : cdb) (res : HistoryBatchResult) : Prop := {
  bs_rows : forall conv m, conv ∈ ib_Conversations b -> m ∈ iv_Messages conv -> accepted conv m = true ->
    is_Some (c_messages t' !! (ib_SessionID b, im_WAMessageID m));
  bs_all : br_Imported res + br_Existing res + br_Dropped res = sum_convs (fun _ m => createsRow (im_Kind m)) (ib_Conversations b);
  bs_dropped : br_Dropped res = sum_convs refused (ib_Conversations b);
  bs_imported : Z.of_nat (size (c_messages t')) = Z.of_nat (size (c_messages t)) + br_Imported res;
  bs_entry : c_batches t' !! ib_EventID b =
    Some (MkBatchRow (ib_SessionID b) (ib_RunID b) (br_Imported res) (br_Existing res) (br_Dropped res) (ib_Now b));
}.

Lemma apply_batch_stored d res d' : apply_batch b d = (inr res, d') ->
  br_Applied res = false /\ is_Some (c_batches (rows d) !! ib_EventID b) /\ rows d' = rows d \/
  br_Applied res = true /\ c_batches (rows d) !! ib_EventID b = None /\ batch_stored (rows d) (rows d') res.
Proof.
  intros Hrun. destruct (apply_batch_returns b d res d' Hrun) as [(-> & He & Hd)|Happ]; [by left|right].
  destruct Happ as (d0 & d1 & canonical & d2 & ta & d3 & Hnone & _ & Hpre & Hc & Hm & Hu & -> & Hd'). split; [done|]. split; [done|].
  pose proof (chats_return _ _ _ Hc) as Hch. destruct (messages_return b canonical _ _ _ Hm) as (Hsize & Hall & Hdrop & Hst).
  assert (Hs1 : same_ids (rows d) (rows d1)).
  { transitivity (rows d0); [|exact (chats_same_ids b _ _ _ Hc)].
    apply Hpre; [apply _|same_ids|apply identities_same_ids|apply groups_same_ids]. }
  pose proof (mutations_same_ids b _ _ _ Hu) as Hs3. split; cbn.
  - intros conv m Hconv Hmess Hacc. rewrite Hd'. cbn. destruct (storable_accepted canonical conv m (Hch conv Hconv)) as [Hsa _].
    apply (stored_advances b (rows d2)); [exact (mutations_advance b _ _ _ Hu)|]. apply (Hst conv m Hconv Hmess). congruence.
  - exact Hall.
  - rewrite Hdrop. apply sum_convs_ext. intros conv m Hconv _. by apply storable_accepted, Hch.
  - rewrite Hd'. cbn. rewrite (same_ids_size _ _ Hs3), Hsize, (same_ids_size _ _ Hs1). done.
  - rewrite Hd'. cbn. by rewrite lookup_insert_eq.
Qed.
End Canonical.
