(* ===== verification/ImportSafety.v ===== *)
(** The projection of committed events, safe on a database that every replica
    and the API write at the same time: rows only advance, an import adds to what
    live events stored and never replaces it, its counters are those of its
    ledger, and the batch it applied is stored in full. *)
From S2P Require Import Prelude Journal Domain OutboxStore EventIngest GatewayTables HistoryConvert HistoryWorker.
From S2P Require Import ChatTables ChatStore HistoryImport Projection ProjectionSpec ImportSpec.

#[local] Open Scope Z_scope.

Section Safety.
Context `{Clocks} `{ChatCodec} `{MapRange} `{MessageIDs}.

(** The rows that a transaction on the pool finds: those of the call, or those that
    the other writers have left when it begins. *)
Definition found_rows (w : shared cdb) (t : cdb) : Prop := t = sh_rows w \/ t = rows (others_step w).1.

Lemma found_related (R : cdb -> cdb -> Prop) w t : PreOrder R -> relies R w -> found_rows w t -> R (sh_rows w) t.
Proof. intros HR Hw [->| ->]; [reflexivity|]. exact (proj1 (relies_step R w HR Hw)). Qed.

(** The transaction of [ApplyBatch]. *)
Lemma ApplyBatch_on_rows b w r w' : ApplyBatch (W:=shared cdb) b w = (r, w') ->
  (exists err, r = inl err /\ sh_rows w' = sh_rows w) \/
  ib_SessionID b <> "" /\ exists t, found_rows w t /\
    match r with
    | inl err => sh_rows w' = t
    | inr res => exists d d', t = rows d /\ apply_batch b d = (inr res, d') /\ sh_rows w' = rows d'
    end.
Proof.
  unfold ApplyBatch. split_if; [intros [= <- <-]; left; eauto|]. to_prop. intros Hrun. right.
  split; [tauto|]. destruct (atomically_run _ _ _ _ Hrun) as (d' & Htx & ->). set (d := (others_step w).1) in *.
  exists (rows d). split; [by right|]. change (sh_rows (MkShared d' (others_step w).2)) with (rows d').
  unfold mbind, M_bind in Htx. destruct (map_err _ begin_tx d) as [[err|[]] d1] eqn:Hb.
  - injection Htx as <- <-. unfold map_err in Hb. destruct (begin_tx d) as [[e|u] d2] eqn:Hq; [|done].
    injection Hb as _ <-. symmetry; exact (respects_begin eq _ _ _ _ Hq).
  - apply map_err_returns, query_returns in Hb as [_ Hd1]. destruct r as [err|res].
    + apply with_rollback_error in Htx. congruence.
    + apply with_rollback_returns in Htx. exists d1, d'. auto.
Qed.
Lemma ApplyBatch_on_pool (R : cdb -> cdb -> Prop) b w r w' : PreOrder R -> relies R w -> ApplyBatch (W:=shared cdb) b w = (r, w') ->
  (exists err, r = inl err /\ sh_rows w' = sh_rows w) \/
  ib_SessionID b <> "" /\ exists t, R (sh_rows w) t /\
    match r with
    | inl err => sh_rows w' = t
    | inr res => exists d d', t = rows d /\ apply_batch b d = (inr res, d') /\ sh_rows w' = rows d'
    end.
Proof.
  intros HR Hw Hrun. destruct (ApplyBatch_on_rows b w r w' Hrun) as [H3|(Hs & t & Ht & Hr)]; [by left|right].
  split; [done|]. exists t. split; [by apply found_related|done].
Qed.

(** C29: Consuming an event loses and rewinds nothing. However it ends, every
    message, identity, poll, vote, history run and history batch that was there is
    there afterwards, and has only advanced: the status and the ack level of a
    message do not go back, a failed message stays failed, an edited or deleted
    message stays so, a known phone number, name, body or poll recap is not
    forgotten, votes and batches do not change, and the gateway's counters of a run
    do not decrease. The condition is on those who write the tables meanwhile: they
    follow the same rule; and every statement and import of the repositories,
    whoever runs it, does, but for those that delete a chat's rows, a session, or
    expired messages. Chats, group members and sessions are not part of the rule: an
    alias merge deletes a chat row. *)
Theorem rows_only_advance `{ProjectionCodec} `{MessageFields} clock days ev (w : shared cdb) r w' :
  relies advances w -> ConsumeEvent clock days ev w = (r, w') ->
  advances (sh_rows w) (sh_rows w') /\ forall t t', table_write t t' -> advances t t'.
Proof.
  intros Hw Hrun. split; [|exact table_write_advances].
  exact (proj1 (ConsumeEvent_respects (lifted advances) clock days ev w r w' Hrun Hw)).
Qed.


(** C30: The counters of a history run count each batch once. They are, after every
    event as before it, the number of batches in the ledger of the run and the sums
    of what those batches reported. *)
Theorem imports_are_counted_once `{ProjectionCodec} `{MessageFields} clock days ev (w : shared cdb) r w' :
  relies (keeps ledger_ok) w -> ConsumeEvent clock days ev w = (r, w') -> ledger_ok (sh_rows w) -> ledger_ok (sh_rows w').
Proof. intros Hw Hrun. exact (proj1 (ConsumeEvent_respects (lifted (keeps ledger_ok)) clock days ev w r w' Hrun Hw)). Qed.

(** C26: A history batch is applied once, and in full or not at all. An error leaves
    the rows as the transaction found them. A batch whose event is in the ledger
    changes nothing. Otherwise every message of the batch that makes a row, has an
    id and a chat and is within the retention is stored afterwards; the new rows are
    as many as were reported imported, the messages refused as many as were reported
    dropped, and with those that existed they are all the messages of the batch that
    make rows; and the ledger has the event, with these counts. *)
Theorem applied_batch_is_stored b (w : shared cdb) r w' :
  ApplyBatch b w = (r, w') -> exists t, found_rows w t /\
    match r with
    | inl err => sh_rows w' = t
    | inr res =>
        if br_Applied res then c_batches t !! ib_EventID b = None /\ batch_stored b t (sh_rows w') res
        else is_Some (c_batches t !! ib_EventID b) /\ sh_rows w' = t
    end.
Proof.
  intros Hrun. destruct (ApplyBatch_on_rows b w r w' Hrun) as [(err & -> & ->)|(Hs & t & Ht & Hr)].
  { exists (sh_rows w). split; [by left|done]. }
  exists t. split; [done|]. destruct r as [err|res]; [done|]. destruct Hr as (d & d' & -> & Hb & ->).
  destruct (apply_batch_stored b d res d' Hb) as [(-> & He & Hd)|(-> & Hn & Hst)]; by split.
Qed.
End Safety.

(** ** A concrete run *)

Module Sample.
#[export] Instance clocks : Clocks := {|
  pool_now _ := 1700000005000; pool_id _ := "msg_live"; tx_now _ := 1700000005000; tx_id _ := "msg_tx" |}.
#[export] Instance chat_codec : ChatCodec := {|
  json_strings l := Ascii.byte_of_ascii <$> String.list_ascii_of_string (String.concat "," l);
  json_media _ := [x7b%byte; x7d%byte];
  strings_json b := inr [string_of_bytes b] |}.
#[export] Instance ranges : MapRange := sorted_range.
#[export] Instance message_ids : MessageIDs := {| NextMessageID _ _ := "msg_history" |}.
#[export] Instance message_fields : MessageFields := {|
  mf_PushName _ := ""; mf_QuotedMessageID _ := ""; mf_Mentions _ := ∅; mf_HasMedia _ := false; mf_Media _ := None;
  mf_Location _ := false; mf_Poll _ := None |}.

Definition text (id body : string) : HistoryMessage :=
  MkHistoryMessage "message" "" id "" "1@s.whatsapp.net" "1@s.whatsapp.net" "7@lid" false "text" 1700000000000 "" [] body "" None false [].
(** Two messages of one chat, the first stored already, and one without an id. *)
Definition payload : HistoryBatchPayload :=
  MkHistoryBatchPayload "hsr_1" "9@s.whatsapp.net" "recent" 1 1 1 1700000004000
    [MkHistoryConversation "1@s.whatsapp.net" "dm" "A chat" "" "" "1@s.whatsapp.net" None false false 0 0 []
       [text "m1" "again"; text "m2" "new"; text "" "nameless"]]
    [MkHistoryContact "7@lid" "1@s.whatsapp.net" "One"].
Definition edit : MessagePayload :=
  MkMessagePayload "m9" "1@s.whatsapp.net" "1@s.whatsapp.net" "" false "edit" "edited text" "" ∅ false None 1700000004000 "" "m1" false false None [].

#[export] Instance projection_codec : ProjectionCodec := {|
  decode_message b := if bool_decide (b = [x01%byte]) then inr edit else inl (ErrMsg "unexpected end of JSON input");
  decode_status _ := inl (ErrMsg "unexpected end of JSON input");
  decode_auth _ := inl (ErrMsg "unexpected end of JSON input");
  decode_session_status _ := inl (ErrMsg "unexpected end of JSON input");
  decode_batch b := if bool_decide (b = [x02%byte]) then inr payload else inl (ErrMsg "unexpected end of JSON input");
  decode_sync _ := inl (ErrMsg "unexpected end of JSON input");
  marshal_raw := inr;
  marshal_message m := inr [x7b%byte; x7d%byte] |}.

Definition event (type : string) (b : bytes) : RawEvent := MkRawEvent "v1" "evt_1" type "s1" "o1" 1700000004000 b.
Definition live_row : message_row :=
  MkMessageRow "msg_1" "1@s.whatsapp.net" None (Some "1@s.whatsapp.net") false DirectionIn "text" (Some "first") None None false None
    (Some MessageRead) None None true false 1700000000000 None 1700000000001 OriginLive.
Definition session_row : pairing_row := MkPairingRow SessionWorking (Some "9@s.whatsapp.net") None (Some "9") (Some "9@s.whatsapp.net") None 0.
Definition data : cdb := MkCdb ∅ {[("s1", "m1") := live_row]} ∅ ∅ ∅ ∅ ∅ {["s1" := session_row]} ∅ ∅.
Definition pool : shared cdb := MkShared (Db data []) [].
Lemma pool_relies (R : cdb -> cdb -> Prop) : relies R pool.
Proof. constructor. Qed.

Definition consumed (type : string) (b : bytes) : (goerr + unit) * shared cdb := ConsumeEvent (W:=shared cdb) pool_now 30 (event type b) pool.
Definition batch : ImportBatch :=
  match historyBatchFromPayload (event EventHistoryBatch [x02%byte]) payload 1700000005000 0 with
  | inr b => b
  | inl _ => MkImportBatch "" "" "" "" 0 0 0 [] []
  end.
Definition applied : (goerr + HistoryBatchResult) * shared cdb := ApplyBatch (W:=shared cdb) batch pool.
Definition counts : HistoryBatchResult := MkBatchResult true 1 1 1.
End Sample.
Import Sample.

Theorem rows_only_advance_witness : (consumed "message.edited" [x01%byte]).1 = inr tt /\
  advances data (sh_rows (consumed "message.edited" [x01%byte]).2).
Proof.
  assert (H : (consumed "message.edited" [x01%byte]).1 = inr tt) by (vm_compute; reflexivity). split; [exact H|].
  exact (proj1 (rows_only_advance pool_now 30 (event "message.edited" [x01%byte]) pool _ _ (pool_relies advances) (surjective_pairing _))).
Defined.


Theorem imports_are_counted_once_witness :
  (consumed EventHistoryBatch [x02%byte]).1 = inr tt /\ ledger_ok data /\ ledger_ok (sh_rows (consumed EventHistoryBatch [x02%byte]).2).
Proof.
  assert (H : (consumed EventHistoryBatch [x02%byte]).1 = inr tt) by (vm_compute; reflexivity). split; [exact H|].
  assert (H0 : ledger_ok data) by (split; apply map_Forall_empty). split; [exact H0|].
  exact (imports_are_counted_once pool_now 30 (event EventHistoryBatch [x02%byte]) pool _ _ (pool_relies _) (surjective_pairing _) H0).
Defined.

Theorem applied_batch_is_stored_witness : applied.1 = inr counts /\ exists t, t = data /\ batch_stored batch t (sh_rows applied.2) counts.
Proof.
  assert (H : applied.1 = inr counts) by (vm_compute; reflexivity). split; [exact H|].
  assert (Hrun : ApplyBatch batch pool = (inr counts, applied.2)) by (rewrite <- H; exact (surjective_pairing _)).
  destruct (applied_batch_is_stored batch pool _ _ Hrun) as (t & Ht & _ & Hk).
  exists t. split; [destruct Ht as [Ht|Ht]; exact Ht|exact Hk].
Defined.
