(* ===== verification/ConsumedEvents.v ===== *)
(** What a committed event leaves in the WhatsApp data when the consumer accepts
    it: for each type of event, what its projection shows, and goes on showing
    however the rows advance. *)
From S2P Require Import Prelude Journal Domain OutboxStore EventIngest GatewayTables HistoryConvert HistoryWorker.
From S2P Require Import ChatTables ChatStore HistoryImport Projection ProjectionSpec ImportSpec ImportSafety.

#[local] Open Scope Z_scope.

(** ** Effects that last *)

(** A successful run on the pool brings [Q] about, whoever else writes. *)
Definition achieves (Q : cdb -> cdb -> Prop) {A} (m : M (shared cdb) A) : Prop :=
  forall w a w', relies advances w -> m w = (inr a, w') -> Q (sh_rows w) (sh_rows w').

Section Achieves.
Context `{Clocks}.
Abbreviation steady m := (respects (lifted (W:=shared cdb) advances) m).
Context (Q : cdb -> cdb -> Prop) `{!Lasting Q}.

Lemma achieves_decoded {A B} (r : goerr + A) (k : A -> M (shared cdb) B) :
  (forall a, r = inr a -> achieves Q (k a)) -> achieves Q (lift_result r ≫= k).
Proof. intros Hk w b w' Hw (a & w1 & Ha & Hb)%bind_returns. injection Ha as Ha <-. exact (Hk a Ha _ _ _ Hw Hb). Qed.
End Achieves.


Section Lasting.
Context {K A : Type} `{Countable K} (tab : cdb -> gmap K A) (R : A -> A -> Prop).
Context (Hgrows : forall t t', advances t t' -> map_grows R (tab t) (tab t')).
Context (k : K) (P : A -> Prop) (HP : forall r r', R r r' -> P r -> P r').

End Lasting.

(** ** What is shown *)



Section Shown.
Context `{ProjectionCodec} `{MessageFields} `{ChatCodec} `{MapRange}.

End Shown.

(** ** Which relations last *)




(** ** The operations *)

(** Runs through a program to the statement that achieves [Q]: [here] closes the
    goals for the operation that does. *)
Create HintDb achieving.

Section Operations.
Context `{Clocks} `{ChatCodec} `{MapRange} `{MessageIDs}.
Abbreviation W := (shared cdb).








End Operations.

(** ** The projections *)


Section Projections.
Context `{Clocks} `{ChatCodec} `{MapRange} `{MessageIDs} `{ProjectionCodec} `{MessageFields}.
Variable clock : shared cdb -> Z.
Variable days : Z.
Variable ev : RawEvent.

(** The store keeps the relation, method by method. *)
#[local] Hint Extern 1 (respects _ _) =>
  solve [first [simple apply sr_UpsertIdentity|simple apply sr_FillIdentityName|simple apply sr_UpsertGroupMember|simple apply sr_UpsertChat
               |simple apply sr_InsertMessage|simple apply sr_UpsertPoll|simple apply sr_InsertPollVote]; apply _] : advance_ops.
#[local] Hint Extern 1 (respects _ (capture_sender _ _)) => apply capture_respects; apply _ : advance_ops.
Ltac decoded := apply achieves_decoded; intros q Hq; assert (q = _) as -> by congruence.









Lemma map_all_inr {A B} (f g : A -> goerr + B) l l' :
  (forall a b, f a = inr b -> exists b', g a = inr b') -> map_all f l = inr l' -> exists l'', map_all g l = inr l''.
Proof.
  intros Hfg. revert l'. induction l as [|a l IH]; intros l' Hm; cbn in *; [eauto|].
  destruct (f a) as [e|b] eqn:Ha; [done|]. destruct (Hfg a b Ha) as [b' ->]. destruct (map_all f l) as [e|m] eqn:Hl; [done|].
  destruct (IH m eq_refl) as [m' ->]. eauto.
Qed.


End Projections.

Section Consumed.
Context `{Clocks} `{ChatCodec} `{MapRange} `{MessageIDs} `{ProjectionCodec} `{MessageFields}.

End Consumed.

(** ** A concrete run *)

Import Sample.

