(* ===== verification/HistoryArrives.v ===== *)
(** A history blob end to end: once the API accepted the events of the batches
    that the conversion made of it, its messages are in the data. *)
From S2P Require Import Prelude Journal Domain OutboxStore EventIngest GatewayTables HistoryConvert HistoryWorker.
From S2P Require Import ChatTables ChatStore HistoryImport Projection ProjectionSpec ImportSpec ImportSafety.

#[local] Open Scope Z_scope.

Section Arrives.
Context `{Clocks} `{ChatCodec} `{MapRange} `{MessageIDs} `{ProjectionCodec} `{MessageFields}.

(** Rows advance, and nobody else applies the batch of event [id]. *)
Record alone (id : string) (t t' : cdb) : Prop := {
  al_advances : advances t t';
  al_ledger : c_batches t !! id = None -> c_batches t' !! id = None;
}.
#[export] Instance alone_preorder id : PreOrder (alone id).
Proof. split; [intros t; split; [reflexivity|done]|]. intros a b c [] []. split; [by etransitivity|auto]. Qed.

(** The kind a message is imported as. *)
Definition kind_of (m : HistoryMessage) : string :=
  if bool_decide (ms_Kind m = "") then if ms_FromMe m then HistoryKindFromMe else HistoryKindMessage else ms_Kind m.
(** A message that is to be stored under a cutoff. *)
Definition to_store (cutoff : Z) (m : HistoryMessage) : Prop :=
  createsRow (kind_of m) = true /\ ms_WAMessageID m <> "" /\ (cutoff <= 0 \/ cutoff <= ms_Timestamp m).

Lemma map_all_total {A B} (f : A -> goerr + B) l : (forall a, exists b, f a = inr b) -> exists l', map_all f l = inr l'.
Proof. intros Hf. induction l as [|a l [l' Hl]]; cbn; [eauto|]. destruct (Hf a) as [b ->]. rewrite Hl. eauto. Qed.

Lemma message_converts chatJID m im : historyMessageFromPayload chatJID m = inr im ->
  im_Kind im = kind_of m /\ im_WAMessageID im = ms_WAMessageID m /\ im_Timestamp im = ms_Timestamp m.
Proof. unfold historyMessageFromPayload. destruct (marshal_message m); [done|]. by intros [= <-]. Qed.

Lemma map_all_in {A B} (f : A -> goerr + B) l l' a : map_all f l = inr l' -> a ∈ l -> exists b, b ∈ l' /\ f a = inr b.
Proof.
  revert l'. induction l as [|x l IH]; intros l' Hm Ha; [by apply not_elem_of_nil in Ha|]. cbn in Hm.
  destruct (f x) as [|y] eqn:Hx; [done|]. destruct (map_all f l) as [|m]; [done|]. injection Hm as <-.
  apply elem_of_cons in Ha as [->|Ha]; [exists y; split; [left|done]|]. destruct (IH m eq_refl Ha) as (b & Hb & Hf).
  exists b. split; [by right|done].
Qed.

(** The event that carries batch [b] of a session. *)
Definition carries (session : string) (b : Batch) (ev : RawEvent) : Prop :=
  re_Type ev = EventHistoryBatch /\ re_Session ev = session /\ re_ID ev = ba_EventID b /\ decode_batch (re_Payload ev) = inr (ba_Payload b).

Lemma batch_message_converts ev p now cutoff batch c m :
  historyBatchFromPayload ev p now cutoff = inr batch -> c ∈ bp_Conversations p -> cv_ChatJID c <> "" -> m ∈ cv_Messages c ->
  to_store cutoff m -> exists conv im, conv ∈ ib_Conversations batch /\ im ∈ iv_Messages conv /\ accepted batch conv im = true /\
    ib_SessionID batch = re_Session ev /\ ib_EventID batch = re_ID ev /\ im_WAMessageID im = ms_WAMessageID m.
Proof.
  unfold historyBatchFromPayload. destruct (map_all conversation_from_payload _) as [|convs] eqn:Hall; [done|]. intros [= <-] Hc Hne Hm (Hk & Hid & Hts).
  destruct (map_all_in _ _ _ c Hall) as (conv & Hconv & Hcc).
  { apply list_elem_of_In, filter_In. split; [by apply list_elem_of_In|]. by rewrite bool_decide_false. }
  unfold conversation_from_payload in Hcc. destruct (map_all _ (cv_Messages c)) as [|ms] eqn:Hms; [done|]. injection Hcc as <-.
  destruct (map_all_in _ _ _ m Hms Hm) as (im & Him & Hmm). destruct (message_converts _ _ _ Hmm) as (Ekind & Eid & Ets).
  eexists _, im. split; [exact Hconv|]. split; [exact Him|]. split; [|by auto]. unfold accepted, keptMessage. cbn [ib_RetentionCutoff iv_ChatJID].
  rewrite Ekind, Hk, Eid, Ets, (bool_decide_false (cv_ChatJID c = "")), (bool_decide_false (ms_WAMessageID m = "")) by done. cbn.
  apply orb_true_iff. destruct Hts; [left|right]; lia.
Qed.

(** A new batch that the consumer accepts is stored. *)
Lemma new_batch_rows clock days session b ev (w : shared cdb) w' c m :
  carries session b ev -> session <> "" -> bp_RunID (ba_Payload b) <> "" -> (forall m, exists raw, marshal_message m = inr raw) ->
  relies (alone (ba_EventID b)) w -> c_batches (sh_rows w) !! ba_EventID b = None -> ConsumeEvent clock days ev w = (inr tt, w') ->
  c ∈ bp_Conversations (ba_Payload b) -> cv_ChatJID c <> "" -> m ∈ cv_Messages c -> to_store (retentionCutoff days (clock w)) m ->
  is_Some (c_messages (sh_rows w') !! (session, ms_WAMessageID m)).
Proof.
  intros (Hty & <- & Hid & Hdec) Hs Hrun Hmar Hw Hno Hcons Hc Hne Hm Hst. 
  assert (Hc' : ConsumeEvent clock days ev w = projectHistoryBatch clock days ev w) by (unfold ConsumeEvent; by rewrite Hty).
  rewrite Hc' in Hcons. unfold projectHistoryBatch in Hcons. rewrite Hdec, bool_decide_false in Hcons by done.
  apply bind_returns in Hcons as (now & w1 & Hnow & Hcons). injection Hnow as <- <-.
  destruct (historyBatchFromPayload ev _ _ _) as [err|batch] eqn:Hb.
  { exfalso. unfold historyBatchFromPayload in Hb.
    destruct (map_all_total conversation_from_payload (List.filter (fun c => negb (bool_decide (cv_ChatJID c = "")))
                (bp_Conversations (ba_Payload b)))) as [l Hl]; [|by rewrite Hl in Hb]. intros c'. unfold conversation_from_payload.
    destruct (map_all_total (historyMessageFromPayload (cv_ChatJID c')) (cv_Messages c')) as [ms ->]; [|eauto].
    intros m'. unfold historyMessageFromPayload. destruct (Hmar m') as [raw ->]. eauto. }
  destruct (batch_message_converts ev _ _ _ batch c m Hb Hc Hne Hm Hst) as (conv & im & Hconv & Him & Hacc & Esession & Eevent & <-).
  apply bind_returns in Hcons as (res & w1 & Hres & Hcons). injection Hcons as <-.
  destruct (ApplyBatch_on_pool (alone (ba_EventID b)) batch w (inr res) w1 _ Hw Hres) as [(err & Herr & _)|(_ & t & Ht & d & d' & -> & Hab & ->)];
    [done|].
  destruct (apply_batch_stored batch d res d' Hab) as [(_ & [e He] & _)|(_ & _ & Hstored)].
  { rewrite Eevent, Hid, (al_ledger _ _ _ Ht Hno) in He. done. }
  destruct (bs_rows _ _ _ _ Hstored conv im Hconv Him Hacc) as [r Hr]. rewrite Esession in Hr. eauto.
Qed.
End Arrives.

Section EndToEnd.
Context `{Clocks} `{ChatCodec} `{MapRange} `{MessageIDs} `{ProjectionCodec} `{MessageFields}.
Context {B : Type} `{JSONLen} `{EventIDLib} `{BlobLib B}.

(** The batch was consumed at some time before [t], by one that had it alone. *)
Definition consumed_before clock days session (t : cdb) (cutoff : Z) (b : Batch) : Prop :=
  exists ev (w w' : shared cdb), carries session b ev /\ relies (alone (ba_EventID b)) w /\
    c_batches (sh_rows w) !! ba_EventID b = None /\ retentionCutoff days (clock w) <= cutoff /\
    ConsumeEvent clock days ev w = (inr tt, w') /\ advances (sh_rows w') t.

(** A converted message is in a batch, under its chat. *)
Lemma converted_message inp (blob : B) conv m : conv ∈ converted inp blob -> m ∈ ci_messages conv ->
  exists b c, b ∈ re_Batches (Convert inp blob) /\ c ∈ bp_Conversations (ba_Payload b) /\ cv_ChatJID c = cv_ChatJID (ci_meta conv) /\
    m ∈ cv_Messages c /\ bp_RunID (ba_Payload b) = inp_RunID inp.
Proof.
  intros Hconv Hm. set (chat := cv_ChatJID (ci_meta conv)).
  assert (Hex : exact (bl_Contacts blob) (converted inp blob) (ba_Payload <$> re_Batches (Convert inp blob))).
  { eapply exact_same; [apply stamped_same|]. apply pack_exact, converted_bare. }
  assert (Hin : m ∈ packed_messages chat (ba_Payload <$> re_Batches (Convert inp blob))).
  { rewrite (ex_messages _ _ _ Hex). apply list_elem_of_In, in_concat. exists (ci_messages conv). split; [|by apply list_elem_of_In].
    apply list_elem_of_In, list_elem_of_fmap. exists conv. split; [done|]. apply list_elem_of_In, filter_In. split; [by apply list_elem_of_In|].
    unfold has_chat. by apply bool_decide_eq_true. }
  apply list_elem_of_In, in_concat in Hin as (l & Hl & Hml). apply list_elem_of_In, list_elem_of_fmap in Hl as (p & -> & Hp).
  apply list_elem_of_fmap in Hp as (b & -> & Hb). apply in_concat in Hml as (l & Hl & Hml).
  apply list_elem_of_In, list_elem_of_fmap in Hl as (c & -> & Hc). apply list_elem_of_In, filter_In in Hc as [Hc Hch].
  exists b, c. split; [done|]. split; [by apply list_elem_of_In|]. split; [by apply bool_decide_eq_true in Hch|].
  split; [by apply list_elem_of_In|]. clear -Hb. cbn in Hb. apply list_elem_of_lookup in Hb as [i Hb]. rewrite list_lookup_imap in Hb.
  by apply fmap_Some in Hb as (p & _ & ->).
Qed.

(** A message that can be made to fit keeps what decides whether it is stored. *)
Lemma cut_to_store cutoff m m' : cut_of m m' -> to_store cutoff m -> to_store cutoff m' /\ ms_WAMessageID m' = ms_WAMessageID m.
Proof.
  intros [Hr _ _] (Hk & Hid & Hts). unfold with_texts in Hr.
  injection Hr. intros. split; [|done]. unfold to_store, kind_of in *. by repeat match goal with E : _ m' = _ m |- _ => rewrite E in * end.
Qed.

(** What the normalizer makes of a message of the blob is converted, unless it is
    too large with all its free text gone. *)
Lemma source_converted inp (blob : B) c order ms m :
  c ∈ bl_Conversations (inp_SessionID inp) (inp_AccountJID inp) (inp_CutoffMs inp) blob -> bc_chat c = true ->
  (order, Some ms) ∈ bc_msgs c -> m ∈ ms -> fitMessage (conv_limit (bc_meta c)) m <> None ->
  exists conv m', conv ∈ converted inp blob /\ ci_meta conv = bc_meta c /\ m' ∈ ci_messages conv /\ cut_of m m'.
Proof.
  intros Hc Hchat Hin Hm Hfit. destruct (fitMessage (conv_limit (bc_meta c)) m) as [m'|] eqn:Hf; [|done]. clear Hfit.
  exists (MkConvItem (bc_meta c) (convertMessages (conv_limit (bc_meta c)) (bc_msgs c)).1), m'.
  split; [|split; [done|split]].
  - apply list_elem_of_omap. exists (convert_conv c). split; [by apply list_elem_of_fmap_2|].
    unfold convert_conv. rewrite Hchat. by destruct (convertMessages _ _).
  - cbn. apply list_elem_of_omap. exists m. split; [|done]. apply list_elem_of_fmap.
    apply list_elem_of_lookup in Hin as [i Hi]. apply list_elem_of_lookup in Hm as [k Hk].
    exists (MkOrdered (ms_Timestamp m) order (Z.lor (Z.shiftl (Z.of_nat i) 8) (Z.min (Z.of_nat k) 255)) m). split; [done|].
    rewrite sort_stable_perm. apply list_elem_of_In, in_concat. eexists. split.
    + apply list_elem_of_In, list_elem_of_lookup. exists i. rewrite list_lookup_imap, Hi. reflexivity.
    + apply list_elem_of_In, list_elem_of_lookup. exists k. cbn. by rewrite list_lookup_imap, Hk.
  - pose proof (long_messages_are_cut (conv_limit (bc_meta c)) m) as Hcut. rewrite Hf in Hcut. by destruct Hcut as (_ & ? & _).
Qed.

(** C24: History arrives. Take a conversation of the blob that has a chat, and what
    the normalizer made of one of its messages: a message that makes a row, has an
    id, is newer than the retention cutoffs, and can be made to fit a batch. When
    each batch of the converted blob was accepted by the consumer at some time
    before - by whoever was the only one to handle its event, on any replica, with
    other writers between who delete no messages - the message is in the session's
    messages. Encoding a message as JSON is taken not to fail. *)
Theorem history_arrives clock days inp (blob : B) t cutoff c order ms m :
  inp_SessionID inp <> "" -> inp_RunID inp <> "" -> (forall m, exists raw, marshal_message m = inr raw) ->
  (forall b, b ∈ re_Batches (Convert inp blob) -> consumed_before clock days (inp_SessionID inp) t cutoff b) ->
  c ∈ bl_Conversations (inp_SessionID inp) (inp_AccountJID inp) (inp_CutoffMs inp) blob ->
  bc_chat c = true -> cv_ChatJID (bc_meta c) <> "" -> (order, Some ms) ∈ bc_msgs c -> m ∈ ms ->
  fitMessage (conv_limit (bc_meta c)) m <> None -> to_store cutoff m ->
  is_Some (c_messages t !! (inp_SessionID inp, ms_WAMessageID m)).
Proof.
  intros Hs Hr Hmar Hall Hsrc Hchat Hne Hin Hm0 Hfit Hst0.
  destruct (source_converted inp blob c order ms m Hsrc Hchat Hin Hm0 Hfit) as (conv & m' & Hconv & Hmeta & Hm & Hcut0).
  destruct (cut_to_store _ _ _ Hcut0 Hst0) as [(Hk & Hid & Hts) <-].
  assert (Hex : exists b c, b ∈ re_Batches (Convert inp blob) /\ c ∈ bp_Conversations (ba_Payload b) /\ cv_ChatJID c <> "" /\
            m' ∈ cv_Messages c /\ bp_RunID (ba_Payload b) = inp_RunID inp).
  { destruct (converted_message inp blob conv m' Hconv Hm) as (b & c' & Hb & Hc & Hj & Hmc & Hrun). exists b, c'. by rewrite Hj, Hmeta. }
  destruct Hex as (b & c' & Hb & Hc & Hcne & Hmc & Hrun). destruct (Hall b Hb) as (ev & w & w' & Hcar & Hw & Hno & Hcut & Hcons & Ht).
  destruct (new_batch_rows clock days _ b ev w w' c' m' Hcar Hs) as [r Hrow]; try done; [congruence|split; [done|split; [done|lia]]|].
  destruct (ad_messages _ _ Ht _ r Hrow) as (r' & Hr' & _). eauto.
Qed.
End EndToEnd.

(** ** A concrete run *)

Module Sample.
Import ImportSafety.Sample HistoryConvert.Sample.
Definition batches : list Batch := re_Batches (Convert HistoryConvert.Sample.input tt).
Definition first_batch : Batch := default (MkBatch "" empty_payload) (head batches).
#[export] Instance projection_codec : ProjectionCodec := {|
  decode_message _ := inl (ErrMsg "unexpected end of JSON input");
  decode_status _ := inl (ErrMsg "unexpected end of JSON input");
  decode_auth _ := inl (ErrMsg "unexpected end of JSON input");
  decode_session_status _ := inl (ErrMsg "unexpected end of JSON input");
  decode_batch _ := inr (ba_Payload first_batch);
  decode_sync _ := inl (ErrMsg "unexpected end of JSON input");
  marshal_raw := inr;
  marshal_message m := inr [] |}.
Definition ev : RawEvent := MkRawEvent "v1" (ba_EventID first_batch) EventHistoryBatch "s1" "o1" 1700000004000 [].
Definition imported : (goerr + unit) * shared cdb := ConsumeEvent (W:=shared cdb) pool_now 0 ev pool.
Definition source : blob_conv := default (MkBlobConv false (chat "") []) (head blob_convs).
Definition m : HistoryMessage := message "m2" "second" 2000.
End Sample.
Import ImportSafety.Sample HistoryConvert.Sample HistoryArrives.Sample.

Theorem history_arrives_witness : batches = [first_batch] /\ imported.1 = inr tt /\ source ∈ blob_convs /\
  is_Some (c_messages (sh_rows imported.2) !! ("s1", "m2")).
Proof.
  assert (H1 : batches = [first_batch]) by (vm_compute; reflexivity). split; [exact H1|].
  assert (H2 : imported.1 = inr tt) by (vm_compute; reflexivity). split; [exact H2|].
  assert (H3 : source ∈ blob_convs) by (apply (list_elem_of_lookup_2 _ 0); vm_compute; reflexivity). split; [exact H3|].
  refine (history_arrives pool_now 0 input tt (sh_rows imported.2) 0 source 2 [m] m _ _ _ _ H3 _ _ _ _ _ _).
  - discriminate.
  - discriminate.
  - intros m0. exists []. reflexivity.
  - intros b Hb. unfold batches in H1. rewrite H1 in Hb. apply list_elem_of_singleton in Hb as ->.
    exists ev, pool, imported.2. split; [repeat split|]. split; [exact (pool_relies _)|]. split; [reflexivity|].
    split; [vm_compute; discriminate|]. split; [|reflexivity]. rewrite <- H2. exact (surjective_pairing _).
  - vm_compute. reflexivity.
  - vm_compute. discriminate.
  - apply (list_elem_of_lookup_2 _ 0). vm_compute. reflexivity.
  - by apply list_elem_of_singleton.
  - vm_compute. discriminate.
  - split; [vm_compute; reflexivity|]. split; [vm_compute; discriminate|left; vm_compute; discriminate].
Defined.
